(* ===== verification/_CoqProject ===== *)
-Q . S2P
Prelude.v
GoStrings.v
ExpiryCache.v
Netip.v
NetipFacts.v
GoNet.v
ProxyModel.v
ProxyParse.v
ProxyFormat.v
Blacklist.v
BlacklistRefresh.v
OutboundGuard.v
Timing.v
Redis.v
ProxyQueue.v
ProxyQueueFacts.v
ProxyLease.v
ProxyOps.v
SiteQueue.v
FailureTracker.v
BinHeap.v
RateLimit.v
ClientIP.v
Leadership.v
Conn.v
HttpProxy.v
Socks.v
Rotator.v
Listeners.v
Alerts.v
AlertDeliveries.v
Workspaces.v
Usage.v
StatStore.v
StatLedger.v
DailyChecks.v
StatLatest.v
StatStream.v
StatStreamFacts.v
RefreshQueue.v
EmailOutbox.v
Sessions.v
Passwords.v
SigningKey.v
CheckerConfig.v
CheckerPlans.v
CheckerPlansFacts.v
CheckCycle.v
RequestGuards.v
ClientCache.v
Ownership.v
Secrets.v
Scraping.v
Routes.v
RoutesFacts.v
Capacity.v
CapacityFacts.v
