(* ===== verification/Prelude.v ===== *)
(** * Verification of the Magpie backend

    Magpie collects public proxy routes, keeps them per workspace, checks them
    continuously and serves the ones that work.  The backend is one Go program
    that runs in any number of processes over PostgreSQL and Redis:

    - users and scrapers hand in text; [support/proxy_helper.go] parses it into
      routes ([domain/proxy_model.go]), the blacklist filters them, and a
      transaction stores them for the workspaces that may still activate them
      and puts them into the proxy queue;
    - scrape sources wait in a queue of their own; a worker claims one, asks the
      provider in the fetch modes its subscribers chose and imports the result;
    - the proxy queue lives in Redis and is changed only by the Lua scripts
      beside [jobs/queue/proxy/proxy_queue.go]; checker workers lease due routes
      from it, check each owner's plan through judges, and put the route back
      with a due time one check interval ahead;
    - a plan is compiled from the settings of a workspace and the tags of the
      route; every process caches the plans of a workspace as a snapshot;
    - results travel through a Redis stream into the tables of check results,
      with the daily counters, the newest results, the work list of the
      reputations and the monthly usage derived in the same transaction;
    - the verdicts go to the failure tracker, which ends the ownership of a route
      whose streak of failures reaches its workspace's threshold;
    - rotators listen for HTTP and SOCKS clients and forward them through the
      next route of their workspace; alert rules watch a workspace's measurements
      and report incidents to webhooks and mail addresses;
    - accounts log in with passwords, sessions are signed tokens, members of a
      workspace have roles, and mail waits in a table until it is delivered;
    - jobs that must run once are run by the process elected through a Redis key;
      the blacklist is refreshed on a timer and removes newly listed routes;
    - the HTTP server guards its login routes against guessing, its GraphQL
      endpoint against expensive queries, browsers against foreign origins, and
      what it contacts for users against private networks.

    ** Files

    Paths are under [src/internal/].  Definitions keep the Go names; an auxiliary
    definition (a loop body, a statement) is named for what it computes.

    Foundations
    - [Prelude]: machine integers, results, lemmas on lists, the hint database
      [magpie] and the tactic [breflect].
    - [GoStrings], [Netip], [NetipFacts], [GoNet]: what the code uses of
      [strings], [strconv], [net/netip] and [net], with parse/print round trips.
    - [ExpiryCache] ([support/expiry_cache.go]): [Get], [Set_], [Prune], [Len] on
      a map of element identifiers and a list; refines a bounded LRU with expiry.
    - [Timing] ([config/time.go], [config/settings.go], the thread counts of the
      two [thread_handler.go]): intervals, their one-slot announcement channels
      as step functions, and worker numbers.
    - [Leadership] ([support/leadership.go]): sessions that take, renew and lose
      the key of a job, as a step relation with lost replies.

    Routes and lists
    - [ProxyModel] ([domain/proxy_model.go]), [ProxyParse], [ProxyFormat]
      ([support/proxy_helper.go]): the route record and its hooks, the import
      parser with its counters, and the export templates.
    - [Secrets] ([security/proxy_secret.go] and the hooks of two models): the
      encryption of stored credentials and the fingerprint of a route.
    - [Blacklist], [BlacklistRefresh] ([blacklist/manager.go],
      [database/blacklist_handler.go]): feeds, the compiled cache of disjoint
      spans and its binary search; [doRefresh] over the class [BlacklistStore] of
      SQL operations, with laws [StoreLaws] and an in-memory instance.
    - [Routes], [RoutesFacts] ([database/database_proxy_lifecycle.go],
      [database_proxy_ingestion.go], [database_proxy_cleanup.go]): the tables of
      managed routes and every transaction on them; [Capacity], [CapacityFacts]:
      the same transactions statement by statement, interleaved, with locks.

    Queues
    - [Redis]: the commands the queues use as a class with laws, and an instance
      on finite maps.
    - [ProxyQueue], [ProxyQueueFacts] ([jobs/queue/proxy/*.go, *.lua],
      [jobs/queue/heads.go]): payloads, sharding, replies, every script and every
      operation; facts about their pure parts.
    - [ProxyLease]: the scripts as the steps of any interleaving of workers and
      administrators, over the interface [QueueLayout] (which queues exist and
      where a member belongs); [ProxyOps] discharges the interface for the
      configured shards and shows that the Go operations are such sequences.
    - [SiteQueue] ([jobs/queue/sites]): sources, claims, schedules and fetch
      modes; [Scraping] ([database/database_scraper_handler.go],
      [jobs/scraper/thread_handler.go] and others): subscriptions to sources and
      the worker that fetches them.

    Checking
    - [CheckerConfig], [CheckerPlans], [CheckerPlansFacts] ([checkerconfig],
      [database/checker_settings.go] and the handlers that invalidate what it
      compiled): profiles, rules, plans, and the snapshots of every process.
    - [CheckCycle] ([jobs/checker/thread_handler.go]): one cycle of a route, from
      the owners' plans to requests, verdicts and the requeue; [ClientCache]
      ([http_client_cache.go]) and [Ownership] ([ownership_verifier.go]): the
      shared clients and the batched question who still owns a route.
    - [FailureTracker] ([jobs/checker/failure_tracker.go] and the statements of
      [database/database_proxy_lifecycle.go] it calls): batches over a table of
      ownerships, with any statement able to fail.

    Results
    - [StatStore] ([database/database_proxy_statistics_handl.go] and the files it
      calls): the tables of check results and the transactions on them;
      [StatLedger], [DailyChecks], [StatLatest]: what holds of every sequence of
      those transactions for the ledger, the counters and the newest results.
    - [StatStream], [StatStreamFacts] ([jobs/runtime/proxy_statistics.go] and
      [proxy_statistics_stream_maintenance.go]): the stream, its workers and its
      leader, with lost replies, as one transition system over [StatStore].
    - [RefreshQueue] ([database/proxy_reputation_refresh.go]): requests to compute
      reputations; [Usage] ([database/database_workspace_usage.go]): the monthly
      usage of a workspace and the traffic counters flushed into it.

    Serving and users
    - [Conn]: processes that talk over a connection; [HttpProxy], [Socks]
      ([rotatingproxy/handler.go]): both ends of the proxy protocols.
    - [Rotator] ([database/database_rotating_proxy_handler.go]): creation and the
      choice of the next route; [Listeners] ([rotatingproxy/connections.go],
      [manager.go]): connections, handlers, shutdown and the running listeners.
    - [Alerts], [AlertDeliveries] ([database/alert*.go],
      [support/alert_sender.go], [jobs/runtime/alerts.go]): rules, incidents,
      destinations and the delivery of events.
    - [Workspaces] ([database/database_workspace_handler.go],
      [workspace_invitations.go] and their route handlers): members, roles and
      invitations.
    - [Sessions], [SigningKey] ([auth]), [Passwords] ([app/server/
      route_user_handler.go], [route_password_reset_handler.go]): tokens, the key
      they are signed with, accounts and reset tokens; [EmailOutbox]
      ([database/email_outbox.go], [jobs/runtime/email_delivery.go]): mail.
    - [BinHeap], [RateLimit] ([app/server/auth_rate_limit.go]), [ClientIP]
      ([client_ip.go]), [RequestGuards] ([graphql_guard.go],
      [request_hardening.go], [routes.go]), [OutboundGuard]
      ([support/outbound_guard.go]): the limiters, whom a request is counted
      against, and the guards.

    ** What the theorems show

    Queues.  In every sequence of scripts the indexed head of a queue is never
    later than its true head and a member is in one queue; a pop takes the
    earliest due route of all shards, or reports when the next is due with
    nothing hidden; a lease, or the claim of a source, is exclusive until it
    expires, and a worker that lost it can change nothing.  The Go operations
    inherit this by refinement.  At most one leader is within its lifetime.

    Routes and capacity.  Parsed and saved routes are canonical, an exported
    route reads back, stored secrets read back.  An import activates the entries
    the limit still admits; with any interleaving of activations and imports no
    workspace has more active routes than its limit, but for the two cases the
    theorem names.  The blacklist's search decides membership in the listed
    prefixes, a refresh installs what the sources list.

    Checking.  The validator accepts exactly the profiles that cannot lead a
    route to an unsupported plan; a reload yields the plans a build from scratch
    would, and a cached snapshot of the current generation is such, unless a tag
    was deleted that a rule of a profile stored in the earlier format names: the
    deletion then drops what only that format holds.  A cycle checks the enabled
    protocols of every owner whose judges are usable, each once and nothing else,
    shares requests between owners whose plans agree, reports what was judged and
    requeues the route unless nobody owns it.  Streaks decide as unbounded
    counters would, and a saturated one decides as before.  No client is lost
    between the cache and its workers.

    Results.  However the stream's workers fail, an entry is recorded once,
    unless it was trimmed by force or its route is gone; the dashboard's counts
    and the monthly traffic are exactly what was recorded; a newest result is the
    newest of what arrived, until the configuration that produced it is obsolete
    and its row may be pruned; no request to refresh a reputation is lost.

    Serving and users.  The SOCKS client and server agree on every interleaving;
    only the configured credentials are accepted; bodies are sent whole up to the
    limit.  An incident is open exactly when its history says so.  A workspace
    keeps an owner and only owners grant control, while no two transactions
    overlap; what invited users and leaving accounts change of it is stated with
    them.  A reset token works once, revoked sessions end, mail is kept until it
    is delivered or given up.  The limiters answer as independent windows while
    the keys fit their bound; a client cannot choose the key it is counted
    under, unless it reaches the server from a private address that is not
    trusted.  The guard of GraphQL accepts exactly the documents within its two
    limits.

    Some theorems and examples state a defect as the code has it: concurrent
    demotions that leave no owner, a commit whose lost reply counts twice, a
    subscription that can block, an update that is lost, overflowing intervals,
    nested fragments whose cost is not counted, verdicts memoised for one owner
    that another takes over.

    ** Conventions and bounds

    Go integers are [Z], wrapped ([wrap_i64] and the like) wherever a value can
    leave its range; instants are nanoseconds or, in the queues, milliseconds
    (half milliseconds in the proxy queue, because lease scores end in a half).
    A mutex makes an operation one function; a Redis script is atomic; a
    transaction that fails leaves the tables as they were.  Where transactions
    do not lock what they read, their statements are steps of a relation, or the
    transaction takes the tables it has seen and the ones it writes.  The only
    database locks modelled are those on subscriptions that the capacity check
    takes; the row locks of inserts, and deadlocks over them, are not.  The
    requests of [Workspaces] run one after the other but in the theorem about
    concurrent demotions.

    A loop that is not structural takes fuel.  The queues' pops have the eight
    rounds their Lua loops have, the expiry of cached clients the sixteen of the
    Go loop.  Loops on the limiter's heap, on its overflow and on the cache of
    clients take the length of what each round shortens; string scans take the
    length of the string; batched statements, the pages of a flush and the
    overrides of a plan recurse with the length of the remaining list (a batch
    is never empty).  The guard of GraphQL takes two more than its limit on
    depth, since every call is one deeper.  Retries are the configured number
    plus one.  Where fuel could run out, the theorem about the loop shows that
    it does not.  An IPv6 address has eight groups, and the decimal numeral of a
    64-bit integer at most twenty digits.

    ** Outside the model

    Code that is not part of the repository is a parameter: IDNA conversion, hash
    functions and ciphers, the JSON codecs, regular expressions, the token
    library, the parsers of URLs, mail addresses and GraphQL documents, DNS and
    dialing, HTTP requests and their answers, the SQL server (as classes,
    outcomes or functions on tables) and the Redis server (as classes with the
    documented laws of its commands).  Every class of laws has an instance, and
    the theorems that use them are applied to it.  [ToLower] maps ASCII only, so
    statements through it are about ASCII text.

    Not modelled: TLS and the transport of HTTP, the browser that renders pages,
    request decoding in HTTP and GraphQL handlers (glue over the database
    handlers), SQL schema and read models for listings (text executed by the
    server), the scores of reputations (sums of floating-point numbers),
    geolocation (third-party data), start-up and commands (wiring); logging,
    metrics and the cancellation of contexts throughout. *)

From stdpp Require Export base tactics option list gmap strings sorting.
From Stdlib Require Export ZArith Lia.

Declare Scope magpie_scope.
Delimit Scope magpie_scope with magpie.
Open Scope Z_scope.

(** ** Machine integers

    Go's fixed-width integers are [Z] values kept in range by an explicit
    wrap-around after every operation that can leave the range. *)

Definition wrap_unsigned (w z : Z) : Z := z mod 2 ^ w.

Definition wrap_signed (w z : Z) : Z :=
  (z + 2 ^ (w - 1)) mod 2 ^ w - 2 ^ (w - 1).

Abbreviation wrap_u16 := (wrap_unsigned 16).
Abbreviation wrap_u32 := (wrap_unsigned 32).
Abbreviation wrap_u64 := (wrap_unsigned 64).
Abbreviation wrap_i64 := (wrap_signed 64).

Definition in_i64 (z : Z) : Prop := - 2 ^ 63 <= z < 2 ^ 63.

Definition in_u64 (z : Z) : Prop := 0 <= z < 2 ^ 64.

(** [time.Duration] counts nanoseconds in an int64. *)
Definition Nanosecond : Z := 1.
Definition Millisecond : Z := 1000000.
Definition Second : Z := 1000 * Millisecond.
Definition Minute : Z := 60 * Second.
Definition Hour : Z := 60 * Minute.
Definition Day : Z := 24 * Hour.

(** ** Fallible code

    A Go function returning [(T, error)] is a [res E T]. *)

Inductive res (E A : Type) : Type :=
| Ok (a : A)
| Err (e : E).
Arguments Ok {E A} a.
Arguments Err {E A} e.

Definition res_bind {E A B : Type} (m : res E A) (k : A -> res E B) : res E B :=
  match m with
  | Ok a => k a
  | Err e => Err e
  end.

Definition is_ok {E A : Type} (m : res E A) : bool :=
  match m with Ok _ => true | Err _ => false end.

Notation "'let?' x ':=' m 'in' k" := (res_bind m (fun x => k))
  (at level 10, x pattern, m at level 100, k at level 200) : magpie_scope.

(** ** Searching and de-duplicating lists *)

(** The first element satisfying [p], as a [for ... range] loop that returns. *)
Fixpoint first_match {A B : Type} (p : A -> option B) (l : list A) : option B :=
  match l with
  | [] => None
  | x :: l' => match p x with Some y => Some y | None => first_match p l' end
  end.

(** The Go idiom "skip what [seen] already holds": keeps first occurrences. *)
Fixpoint dedup_go {A : Type} `{EqDecision A} (seen l : list A) : list A :=
  match l with
  | [] => []
  | x :: l' =>
      if bool_decide (x ∈ seen) then dedup_go seen l'
      else x :: dedup_go (x :: seen) l'
  end.

(** A boolean comparison as the relation [merge_sort] takes. *)
Definition rel_of {A : Type} (f : A -> A -> bool) (a b : A) : Prop := f a b = true.

#[export] Instance rel_of_dec {A} (f : A -> A -> bool) : RelDecision (rel_of f).
Proof. intros a b. unfold rel_of. apply _. Defined.

(** The sum of a function over a list. *)
Definition sum_of {A} (f : A -> Z) (l : list A) : Z := foldr (fun x n => f x + n) 0 l.

(** [l[start:min(start+n, len(l))]] for every start of a loop that steps by [n]. *)
Fixpoint batches_of {A : Type} (fuel n : nat) (l : list A) : list (list A) :=
  match fuel, l with
  | S fuel', _ :: _ => take n l :: batches_of fuel' n (drop n l)
  | _, _ => []
  end.

Definition batches {A : Type} (n : nat) (l : list A) : list (list A) := batches_of (length l) n l.

(** [sort.Search(n, f)]: the binary search of Go's standard library, on the
    half-open interval [[i, j)]; [fuel] bounds the halvings. *)
Fixpoint sort_search_go (fuel : nat) (f : nat -> bool) (i j : nat) : nat :=
  match fuel with
  | O => i
  | S fuel' =>
      if (i <? j)%nat then
        let h := ((i + j) / 2)%nat in
        if f h then sort_search_go fuel' f i h
        else sort_search_go fuel' f (S h) j
      else i
  end.

Definition sort_search (n : nat) (f : nat -> bool) : nat :=
  sort_search_go (S n) f 0 n.

(** ** Automation *)

Create HintDb magpie discriminated.

(** Turn boolean comparisons in the context and goal into propositions. *)
Ltac breflect :=
  repeat match goal with
  | H : (_ && _) = true |- _ => apply andb_true_iff in H; destruct H
  | H : (_ || _) = false |- _ => apply orb_false_iff in H; destruct H
  | H : negb _ = true |- _ => apply negb_true_iff in H
  | H : negb _ = false |- _ => apply negb_false_iff in H
  | H : (_ <? _) = true |- _ => apply Z.ltb_lt in H
  | H : (_ <? _) = false |- _ => apply Z.ltb_ge in H
  | H : (_ <=? _) = true |- _ => apply Z.leb_le in H
  | H : (_ <=? _) = false |- _ => apply Z.leb_gt in H
  | H : (_ =? _) = true |- _ => apply Z.eqb_eq in H
  | H : (_ =? _) = false |- _ => apply Z.eqb_neq in H
  | H : (_ <? _)%nat = true |- _ => apply Nat.ltb_lt in H
  | H : (_ <? _)%nat = false |- _ => apply Nat.ltb_ge in H
  | H : (_ <=? _)%nat = true |- _ => apply Nat.leb_le in H
  | H : (_ <=? _)%nat = false |- _ => apply Nat.leb_gt in H
  | H : bool_decide _ = true |- _ => apply bool_decide_eq_true_1 in H
  | H : bool_decide _ = false |- _ => apply bool_decide_eq_false_1 in H
  end.

(** Split on the scrutinee of the first conditional or match of the goal. *)
Ltac split_if :=
  match goal with
  | |- context [if ?b then _ else _] => destruct b eqn:?
  | |- context [match ?x with _ => _ end] => destruct x eqn:?
  end.

Ltac split_if_in H :=
  match type of H with
  | context [if ?b then _ else _] => destruct b eqn:?
  | context [match ?x with _ => _ end] => destruct x eqn:?
  end.

(** Split [Forall P] on a literal list into one goal per element. *)
Ltac forall_list := repeat first [by apply Forall_nil | apply Forall_cons; split].

(** ** Generic lemmas *)

Lemma wrap_unsigned_range w z : 0 <= w -> 0 <= wrap_unsigned w z < 2 ^ w.
Proof. intros. apply Z.mod_pos_bound. lia. Qed.

Lemma wrap_unsigned_id w z : 0 <= z < 2 ^ w -> wrap_unsigned w z = z.
Proof. apply Z.mod_small. Qed.

Lemma wrap_i64_range z : in_i64 (wrap_i64 z).
Proof.
  unfold in_i64, wrap_signed.
  pose proof (Z.mod_pos_bound (z + 2 ^ (64 - 1)) (2 ^ 64)). lia.
Qed.

Lemma wrap_i64_id z : in_i64 z -> wrap_i64 z = z.
Proof.
  unfold in_i64, wrap_signed. intros. rewrite Z.mod_small; lia.
Qed.

Lemma first_match_Some {A B} (p : A -> option B) l y :
  first_match p l = Some y -> exists x, x ∈ l /\ p x = Some y.
Proof.
  induction l as [|x l IH]; simpl; [done|].
  destruct (p x) eqn:E; intros H.
  - exists x. split; [left | congruence].
  - destruct (IH H) as (x' & Hin & Hx'). exists x'. split; [by right | done].
Qed.

Lemma first_match_None {A B} (p : A -> option B) l :
  first_match p l = None <-> Forall (fun x => p x = None) l.
Proof.
  induction l as [|x l IH]; simpl; [by split; constructor|].
  rewrite Forall_cons. destruct (p x) eqn:E; naive_solver.
Qed.

Lemma elem_of_dedup_go {A} `{EqDecision A} (l seen : list A) x :
  x ∈ dedup_go seen l <-> x ∈ l /\ x ∉ seen.
Proof.
  revert seen. induction l as [|y l IH]; intros seen; simpl.
  - split; [intros H; inversion H | intros [H _]; inversion H].
  - case_bool_decide; rewrite ?elem_of_cons, IH, ?elem_of_cons.
    + destruct (decide (x = y)); naive_solver.
    + destruct (decide (x = y)); naive_solver.
Qed.

Lemma NoDup_dedup_go {A} `{EqDecision A} (l seen : list A) :
  NoDup (dedup_go seen l).
Proof.
  revert seen. induction l as [|y l IH]; intros seen; simpl; [constructor|].
  case_bool_decide; [apply IH|].
  constructor; [|apply IH]. rewrite elem_of_dedup_go. set_solver.
Qed.

Lemma filter_all {A} (P : A -> Prop) `{forall x, Decision (P x)} (l : list A) :
  (forall x, x ∈ l -> P x) -> filter P l = l.
Proof.
  induction l as [|x l IH]; intros Hl; [done|].
  rewrite filter_cons_True by (apply Hl; left).
  f_equal. apply IH. intros y Hy. apply Hl. by right.
Qed.

Lemma elem_of_rev {A} (x : A) (l : list A) : x ∈ rev l <-> x ∈ l.
Proof. by rewrite !list_elem_of_In, <- in_rev. Qed.

Lemma NoDup_rev_iff {A} (l : list A) : NoDup l -> NoDup (rev l).
Proof. intros H. by apply NoDup_ListNoDup, List.NoDup_rev, NoDup_ListNoDup. Qed.

Lemma concat_batches {A} n (l : list A) : (0 < n)%nat -> concat (batches n l) = l.
Proof.
  intros Hn. unfold batches. assert (Hle : (length l <= length l)%nat) by lia. revert Hle. generalize (length l) at 2 3.
  intros m. revert l. induction m as [|m IH]; intros [|x l]; cbn [batches_of concat]; [done|cbn; lia|done|].
  intros Hl. rewrite IH; [by rewrite take_drop|]. rewrite length_drop. cbn in *. lia.
Qed.

Lemma NoDup_map_filter {A B} (g : A -> B) (f : A -> bool) l : NoDup (map g l) -> NoDup (map g (List.filter f l)).
Proof.
  induction l as [|x l IH]; cbn; [done|]. intros [Hn Hl]%NoDup_cons. destruct (f x); [|by apply IH]. cbn. constructor; [|by apply IH].
  intros (y & Hy & Hin)%list_elem_of_fmap. apply Hn. rewrite Hy. apply list_elem_of_fmap_2.
  by apply list_elem_of_In, filter_In in Hin as [?%list_elem_of_In _].
Qed.

Lemma sum_of_cons {A} (f : A -> Z) x l : sum_of f (x :: l) = f x + sum_of f l.
Proof. done. Qed.

Lemma sum_of_Permutation {A} (f : A -> Z) l l' : l ≡ₚ l' -> sum_of f l = sum_of f l'.
Proof. unfold sum_of. induction 1; simpl in *; lia. Qed.

Lemma sum_of_app {A} (f : A -> Z) l l' : sum_of f (l ++ l') = sum_of f l + sum_of f l'.
Proof. unfold sum_of. induction l; simpl in *; lia. Qed.

(** A loop over chunks is a loop over the list. *)
Lemma imap_pair_fst {A} (l : list A) : (imap pair l).*1 = seq 0 (length l).
Proof.
  apply list_eq. intros i. rewrite list_lookup_fmap, list_lookup_imap.
  destruct (decide (i < length l)%nat) as [Hl|Hl].
  - destruct (lookup_lt_is_Some_2 l i Hl) as [x Hx]. rewrite Hx. cbn. symmetry. by rewrite lookup_seq_lt.
  - rewrite (lookup_ge_None_2 l i) by lia. cbn. symmetry. apply lookup_seq_ge. lia.
Qed.

Lemma filter_map_comm {A B} (f : B -> bool) (g : A -> B) l : List.filter f (map g l) = map g (List.filter (fun x => f (g x)) l).
Proof. induction l as [|x l IH]; cbn; [done|]. destruct (f (g x)); cbn; by rewrite IH. Qed.

Lemma StronglySorted_filter {A : Type} (R : A -> A -> Prop) (P : A -> Prop) `{forall x, Decision (P x)} l :
  StronglySorted R l -> StronglySorted R (filter P l).
Proof.
  induction 1 as [|x l Hs IH Hf]; [constructor|].
  rewrite filter_cons. case_decide; [|done]. constructor; [done|].
  rewrite Forall_forall in Hf |- *. intros y Hy. apply list_elem_of_filter in Hy as [_ Hy]. by apply Hf.
Qed.

Lemma StronglySorted_weaken_in {A} (l : list A) (R R' : A -> A -> Prop) :
  (forall a b, a ∈ l -> b ∈ l -> R a b -> R' a b) -> StronglySorted R l -> StronglySorted R' l.
Proof.
  intros H Hs. induction Hs as [|x l Hs IH Hx]; constructor; [apply IH; intros; apply H; [by constructor|by constructor|done]|].
  apply Forall_forall. intros y Hy. apply H; [by constructor|by constructor|]. by apply (proj1 (Forall_forall _ _) Hx).
Qed.

Lemma fold_left_concat {A B} (f : A -> B -> A) (ls : list (list B)) a :
  fold_left (fun acc chunk => fold_left f chunk acc) ls a = fold_left f (concat ls) a.
Proof.
  revert a. induction ls as [|l ls IH]; intros a; cbn; [done|]. by rewrite IH, fold_left_app.
Qed.

Lemma fold_left_batches {A B} (f : A -> B -> A) n (l : list B) a : (0 < n)%nat ->
  fold_left (fun acc chunk => fold_left f chunk acc) (batches n l) a = fold_left f l a.
Proof. intros Hn. by rewrite fold_left_concat, concat_batches. Qed.

(** The sum of a function over the entries of a map. *)
Definition map_sum {K A} `{Countable K} (f : K * A -> Z) (m : gmap K A) : Z := sum_of f (map_to_list m).

Section MapSum.
Context {K A : Type} `{Countable K}.

Lemma map_sum_empty (f : K * A -> Z) : map_sum f ∅ = 0.
Proof. done. Qed.

Lemma map_sum_insert_new (f : K * A -> Z) (m : gmap K A) k v : m !! k = None -> map_sum f (<[k := v]> m) = f (k, v) + map_sum f m.
Proof. intros Hk. unfold map_sum. by rewrite (sum_of_Permutation _ _ _ (map_to_list_insert m k v Hk)), sum_of_cons. Qed.

Lemma map_sum_delete (f : K * A -> Z) (m : gmap K A) k v : m !! k = Some v -> map_sum f m = f (k, v) + map_sum f (delete k m).
Proof.
  intros Hk. rewrite <- (map_sum_insert_new f (delete k m) k v) by by rewrite lookup_delete_eq. by rewrite insert_delete_id.
Qed.

Lemma map_sum_insert (f : K * A -> Z) (m : gmap K A) k v :
  map_sum f (<[k := v]> m) = f (k, v) + map_sum f m - match m !! k with Some old => f (k, old) | None => 0 end.
Proof.
  destruct (m !! k) as [old|] eqn:E; [|rewrite map_sum_insert_new by done; lia].
  rewrite (map_sum_delete f m k old E), <- insert_delete_eq, map_sum_insert_new by by rewrite lookup_delete_eq. lia.
Qed.

Lemma map_sum_ext (f g : K * A -> Z) (m : gmap K A) : (forall k v, m !! k = Some v -> f (k, v) = g (k, v)) -> map_sum f m = map_sum g m.
Proof.
  induction m as [|k v m Hk IH] using map_ind; intros Hfg; [done|]. rewrite !map_sum_insert_new by done.
  rewrite (Hfg k v) by by rewrite lookup_insert_eq. rewrite IH; [done|]. intros k' v' Hl. apply Hfg.
  rewrite lookup_insert_ne; [done|]. intros ->. congruence.
Qed.

Lemma map_sum_add (f g : K * A -> Z) (m : gmap K A) : map_sum (fun x => f x + g x) m = map_sum f m + map_sum g m.
Proof. induction m as [|k v m Hk IH] using map_ind; [done|]. rewrite !map_sum_insert_new by done. lia. Qed.

Lemma map_sum_filter (P : K * A -> Prop) `{forall x, Decision (P x)} (f : K * A -> Z) (m : gmap K A) :
  map_sum f (filter P m) = map_sum (fun x => if bool_decide (P x) then f x else 0) m.
Proof.
  induction m as [|k v m Hk IH] using map_ind; [done|]. rewrite map_sum_insert_new by done. case_bool_decide as HP.
  - rewrite map_filter_insert_True, map_sum_insert_new by (done || by apply map_lookup_filter_None_2; left). lia.
  - rewrite map_filter_insert_not' by (intros ? ->%(f_equal is_Some) || (intros; congruence) || done). lia.
Qed.
End MapSum.

(** [sort.Search] finds the least index at which a monotone predicate holds. *)
Lemma sort_search_go_spec f fuel i j :
  (i <= j)%nat -> (j - i < fuel)%nat ->
  (forall a b, (a <= b < j)%nat -> f a = true -> f b = true) ->
  let k := sort_search_go fuel f i j in
  (i <= k <= j)%nat /\
  (forall a, (i <= a < k)%nat -> f a = false) /\
  ((k < j)%nat -> f k = true).
Proof.
  revert i j. induction fuel as [|fuel IH]; intros i j Hij Hf Hm; [lia|].
  cbn [sort_search_go]. destruct (i <? j)%nat eqn:E; breflect.
  2:{ split; [lia|]. split; intros; lia. }
  assert (Hh : (i <= (i + j) / 2 < j)%nat).
  { split; [apply Nat.div_le_lower_bound; lia|].
    apply Nat.Div0.div_lt_upper_bound; lia. }
  destruct (f ((i + j) / 2)%nat) eqn:Fh.
  - destruct (IH i ((i + j) / 2)%nat) as (H1 & H2 & H3); [lia|lia|intros a b Hab; apply Hm; lia|].
    split; [lia|]. split; [exact H2|].
    intros Hk. destruct (decide (sort_search_go fuel f i ((i + j) / 2) < (i + j) / 2)%nat);
      [by apply H3|].
    assert (sort_search_go fuel f i ((i + j) / 2) = (i + j) / 2)%nat as -> by lia. done.
  - destruct (IH (S ((i + j) / 2)) j) as (H1 & H2 & H3); [lia|lia|done|].
    split; [lia|]. split; [|exact H3].
    intros a Ha. destruct (decide (a <= (i + j) / 2)%nat); [|apply H2; lia].
    destruct (f a) eqn:Fa; [|done].
    rewrite (Hm a ((i + j) / 2)%nat) in Fh; [done|lia|done].
Qed.

Lemma sort_search_spec n f :
  (forall a b, (a <= b < n)%nat -> f a = true -> f b = true) ->
  (sort_search n f <= n)%nat /\
  (forall a, (a < sort_search n f)%nat -> f a = false) /\
  ((sort_search n f < n)%nat -> f (sort_search n f) = true).
Proof.
  intros Hm. destruct (sort_search_go_spec f (S n) 0 n) as (H1 & H2 & H3); [lia|lia|done|].
  unfold sort_search. split; [lia|]. split; [intros; apply H2; lia | done].
Qed.

#[export] Hint Resolve wrap_i64_range NoDup_dedup_go : magpie.
