(* ===== verification/GoStrings.v ===== *)
(** * Go strings

    What the modelled code uses of Go's [strings] and [strconv] packages, on
    byte strings.  [TrimSpace] removes every Unicode white-space rune, in its
    UTF-8 encoding; [ToLower] maps the ASCII letters and leaves other bytes
    alone, so statements that go through it are about ASCII identifiers. *)

From S2P Require Import Prelude.
From Stdlib Require Import Ascii.
Open Scope Z_scope.

(** Byte value of a character. *)
Definition code (c : ascii) : Z := Z.of_N (N_of_ascii c).

Definition chr (z : Z) : ascii := ascii_of_N (Z.to_N z).

Definition is_digit (c : ascii) : bool := (48 <=? code c) && (code c <=? 57).

Definition is_lower (c : ascii) : bool := (97 <=? code c) && (code c <=? 122).

Definition is_upper (c : ascii) : bool := (65 <=? code c) && (code c <=? 90).

(** ** Bytes of a string *)

Fixpoint bytes (s : string) : list ascii :=
  match s with
  | EmptyString => []
  | String c r => c :: bytes r
  end.

Fixpoint of_bytes (l : list ascii) : string :=
  match l with
  | [] => EmptyString
  | c :: r => String c (of_bytes r)
  end.

(** [len(s)] *)
Fixpoint slen (s : string) : nat :=
  match s with
  | EmptyString => 0
  | String _ r => S (slen r)
  end.

(** [s[:n]] and [s[n:]] *)
Fixpoint stake (n : nat) (s : string) : string :=
  match n, s with
  | S n', String c r => String c (stake n' r)
  | _, _ => EmptyString
  end.

Fixpoint sdrop (n : nat) (s : string) : string :=
  match n, s with
  | O, _ => s
  | S n', String _ r => sdrop n' r
  | S _, EmptyString => EmptyString
  end.

(** [s[n]] *)
Fixpoint snth (n : nat) (s : string) : option ascii :=
  match n, s with
  | O, String c _ => Some c
  | S n', String _ r => snth n' r
  | _, EmptyString => None
  end.

(** [strings.IndexByte] and [strings.LastIndexByte] *)
Fixpoint index_byte (b : ascii) (s : string) : option nat :=
  match s with
  | EmptyString => None
  | String c r =>
      if bool_decide (c = b) then Some O else option_map S (index_byte b r)
  end.

Fixpoint last_index_byte (b : ascii) (s : string) : option nat :=
  match s with
  | EmptyString => None
  | String c r =>
      match last_index_byte b r with
      | Some i => Some (S i)
      | None => if bool_decide (c = b) then Some O else None
      end
  end.

Definition contains_byte (b : ascii) (s : string) : bool :=
  match index_byte b s with Some _ => true | None => false end.

(** [strings.HasPrefix] and [strings.Contains] *)
Fixpoint has_prefix (p s : string) : bool :=
  match p, s with
  | EmptyString, _ => true
  | String a p', String b s' => bool_decide (a = b) && has_prefix p' s'
  | String _ _, EmptyString => false
  end.

Fixpoint contains_str (p s : string) : bool :=
  has_prefix p s ||
  match s with
  | EmptyString => false
  | String _ s' => contains_str p s'
  end.

Definition str_rev (s : string) : string := of_bytes (rev (bytes s)).

(** [strings.HasSuffix] and [strings.TrimSuffix] *)
Definition has_suffix (p s : string) : bool := has_prefix (str_rev p) (str_rev s).

Definition trim_suffix (s p : string) : string :=
  if has_suffix p s then stake (slen s - slen p) s else s.

(** [strings.Split(s, sep)] for a one-byte separator *)
Fixpoint split_byte (b : ascii) (s : string) : list string :=
  match s with
  | EmptyString => [EmptyString]
  | String c r =>
      if bool_decide (c = b) then EmptyString :: split_byte b r
      else match split_byte b r with
           | [] => [String c EmptyString]
           | x :: xs => String c x :: xs
           end
  end.

(** [strings.SplitN(s, sep, 2)] for a one-byte separator *)
Definition split_n2 (b : ascii) (s : string) : list string :=
  match index_byte b s with
  | None => [s]
  | Some i => [stake i s; sdrop (S i) s]
  end.

(** [strings.Join] *)
Fixpoint join (sep : string) (l : list string) : string :=
  match l with
  | [] => EmptyString
  | [x] => x
  | x :: l' => x +:+ sep +:+ join sep l'
  end.

(** [strings.ReplaceAll(s, b, "")] for a one-byte [b] *)
Fixpoint remove_byte (b : ascii) (s : string) : string :=
  match s with
  | EmptyString => EmptyString
  | String c r =>
      if bool_decide (c = b) then remove_byte b r else String c (remove_byte b r)
  end.

(** ** White space *)

(** The UTF-8 encodings of the runes [unicode.IsSpace] accepts. *)
Definition space_runes : list (list Z) :=
  [[9]; [10]; [11]; [12]; [13]; [32]; [194; 133]; [194; 160];
   [225; 154; 128];
   [226; 128; 128]; [226; 128; 129]; [226; 128; 130]; [226; 128; 131];
   [226; 128; 132]; [226; 128; 133]; [226; 128; 134]; [226; 128; 135];
   [226; 128; 136]; [226; 128; 137]; [226; 128; 138];
   [226; 128; 168]; [226; 128; 169]; [226; 128; 175]; [226; 129; 159];
   [227; 128; 128]].

(** If [l] starts with the rune [u], what follows it. *)
Fixpoint strip_rune (u : list Z) (l : list ascii) : option (list ascii) :=
  match u, l with
  | [], _ => Some l
  | z :: u', c :: l' => if code c =? z then strip_rune u' l' else None
  | _ :: _, [] => None
  end.

Fixpoint trim_runes (runes : list (list Z)) (fuel : nat) (l : list ascii) : list ascii :=
  match fuel with
  | O => l
  | S fuel' =>
      match first_match (fun u => strip_rune u l) runes with
      | Some l' => trim_runes runes fuel' l'
      | None => l
      end
  end.

(** [strings.TrimSpace] *)
Definition trim_space (s : string) : string :=
  let l := bytes s in
  let l1 := trim_runes space_runes (length l) l in
  let l2 := trim_runes (map (@rev Z) space_runes) (length l1) (rev l1) in
  of_bytes (rev l2).

(** [strings.TrimRight(s, cutset)] for an ASCII cutset *)
Definition trim_right (cutset s : string) : string :=
  let cut := map (fun c => [code c]) (bytes cutset) in
  of_bytes (rev (trim_runes cut (slen s) (rev (bytes s)))).

(** ** Case *)

Definition lower_byte (c : ascii) : ascii :=
  if is_upper c then chr (code c + 32) else c.

(** [strings.ToLower] on ASCII input *)
Fixpoint to_lower (s : string) : string :=
  match s with
  | EmptyString => EmptyString
  | String c r => String (lower_byte c) (to_lower r)
  end.

(** ** Decimal numbers *)

(** The digits of [s] after the accumulated value [v]; [None] on a byte that
    is not a digit. *)
Fixpoint digits_val (v : Z) (s : string) : option Z :=
  match s with
  | EmptyString => Some v
  | String c r => if is_digit c then digits_val (v * 10 + (code c - 48)) r else None
  end.

(** [strconv.ParseInt(s, 10, 64)] (and [strconv.Atoi] on a 64-bit platform):
    an optional sign, at least one digit, and a value that fits an int64. *)
Definition parse_int (s : string) : option Z :=
  let check (neg : bool) (r : string) :=
    match r with
    | EmptyString => None
    | _ =>
        match digits_val 0 r with
        | Some v =>
            let z := if neg then - v else v in
            if (- 2 ^ 63 <=? z) && (z <? 2 ^ 63) then Some z else None
        | None => None
        end
    end in
  match s with
  | EmptyString => None
  | String c r =>
      if code c =? 45 then check true r
      else if code c =? 43 then check false r
      else check false s
  end.

Fixpoint itoa_go (fuel : nat) (n : Z) (acc : string) : string :=
  match fuel with
  | O => acc
  | S fuel' =>
      let acc' := String (chr (48 + n mod 10)) acc in
      if n <? 10 then acc' else itoa_go fuel' (n / 10) acc'
  end.

(** [strconv.Itoa]; twenty digits are enough for every 64-bit integer. *)
Definition itoa (z : Z) : string :=
  if z <? 0 then String (chr 45) (itoa_go 20 (- z) EmptyString)
  else itoa_go 20 z EmptyString.

(** ** Lemmas *)

Lemma code_chr z : 0 <= z < 256 -> code (chr z) = z.
Proof.
  intros. unfold code, chr. rewrite N_ascii_embedding; lia.
Qed.

Lemma chr_code c : chr (code c) = c.
Proof. unfold code, chr. rewrite N2Z.id. apply ascii_N_embedding. Qed.

Lemma of_bytes_bytes s : of_bytes (bytes s) = s.
Proof. induction s as [|c s IH]; simpl; [done|]. by rewrite IH. Qed.

Lemma bytes_of_bytes l : bytes (of_bytes l) = l.
Proof. induction l as [|c l IH]; simpl; [done|]. by rewrite IH. Qed.

Lemma length_bytes s : length (bytes s) = slen s.
Proof. induction s as [|c s IH]; simpl; [done|]. by rewrite IH. Qed.

Lemma str_app_cons c s t : String c s +:+ t = String c (s +:+ t).
Proof. reflexivity. Qed.

Lemma str_app_nil_l (t : string) : EmptyString +:+ t = t.
Proof. reflexivity. Qed.

Lemma bytes_app s t : bytes (s +:+ t) = bytes s ++ bytes t.
Proof. induction s as [|c s IH]; [done|]. rewrite str_app_cons. cbn. by rewrite IH. Qed.

Lemma slen_app s t : slen (s +:+ t) = (slen s + slen t)%nat.
Proof. by rewrite <- !length_bytes, bytes_app, length_app. Qed.

Lemma str_app_nil_r (s : string) : s +:+ EmptyString = s.
Proof. induction s as [|c s IH]; [done|]. rewrite str_app_cons. by rewrite IH. Qed.

Lemma str_app_assoc (s t u : string) : (s +:+ t) +:+ u = s +:+ t +:+ u.
Proof. induction s as [|c s IH]; [done|]. rewrite !str_app_cons. by rewrite IH. Qed.

Lemma stake_app s t : stake (slen s) (s +:+ t) = s.
Proof.
  induction s as [|c s IH]; [by destruct t|].
  rewrite str_app_cons. cbn. by rewrite IH.
Qed.

Lemma sdrop_app s t : sdrop (slen s) (s +:+ t) = t.
Proof. induction s as [|c s IH]; [done|]. rewrite str_app_cons. exact IH. Qed.

Lemma stake_sdrop n s : stake n s +:+ sdrop n s = s.
Proof.
  revert s. induction n as [|n IH]; intros [|c s]; cbn; try done.
  by rewrite str_app_cons, IH.
Qed.

Lemma index_byte_app b s t :
  index_byte b s = None -> index_byte b (s +:+ String b t) = Some (slen s).
Proof.
  induction s as [|c s IH]; rewrite ?str_app_cons, ?str_app_nil_l; cbn.
  - intros _. by rewrite bool_decide_eq_true_2.
  - case_bool_decide; [done|]. intros E. destruct (index_byte b s); [done|].
    rewrite (IH eq_refl). done.
Qed.

Lemma last_index_byte_None b s : index_byte b s = None -> last_index_byte b s = None.
Proof.
  induction s as [|c s IH]; cbn; [done|].
  case_bool_decide; [done|]. intros E. destruct (index_byte b s); [done|].
  by rewrite IH.
Qed.

Lemma last_index_byte_app b s t :
  index_byte b t = None -> last_index_byte b (s +:+ String b t) = Some (slen s).
Proof.
  intros H. apply last_index_byte_None in H.
  induction s as [|c s IH]; rewrite ?str_app_cons, ?str_app_nil_l; cbn.
  - rewrite H. by rewrite bool_decide_eq_true_2.
  - rewrite IH. done.
Qed.

Lemma split_byte_nonempty b s : split_byte b s <> [].
Proof. destruct s as [|c s]; cbn; [done|]. case_bool_decide; [done|]. by destruct (split_byte b s). Qed.

Lemma split_byte_None b s : index_byte b s = None -> split_byte b s = [s].
Proof.
  induction s as [|c s IH]; cbn; [done|].
  case_bool_decide; [done|]. intros E. destruct (index_byte b s); [done|].
  by rewrite IH.
Qed.

Lemma split_byte_app b s t :
  index_byte b s = None -> split_byte b (s +:+ String b t) = s :: split_byte b t.
Proof.
  induction s as [|c s IH]; rewrite ?str_app_cons, ?str_app_nil_l; cbn.
  - intros _. by rewrite bool_decide_eq_true_2.
  - case_bool_decide; [done|]. intros E. destruct (index_byte b s); [done|].
    by rewrite IH.
Qed.

(** Splitting and joining on the same byte are inverse. *)
Lemma join_split_byte b s : join (String b EmptyString) (split_byte b s) = s.
Proof.
  induction s as [|c s IH]; cbn; [done|].
  case_bool_decide as Hc.
  - subst. destruct (split_byte b s) as [|x xs] eqn:E; [by destruct s; cbn in E; repeat case_match|].
    rewrite <- IH. done.
  - destruct (split_byte b s) as [|x xs] eqn:E; [by destruct s; cbn in E; repeat case_match|].
    rewrite <- IH. cbn. destruct xs; [done|]. by rewrite !str_app_cons.
Qed.

Lemma split_join_byte b l :
  l <> [] -> Forall (fun s => index_byte b s = None) l ->
  split_byte b (join (String b EmptyString) l) = l.
Proof.
  intros Hne Hl. induction Hl as [|x l Hx Hl IH]; [done|].
  destruct l as [|y l]; [by apply split_byte_None|].
  cbn [join]. rewrite str_app_cons, str_app_nil_l, split_byte_app by done.
  f_equal. apply IH. done.
Qed.

Lemma is_digit_chr n : 0 <= n < 10 -> is_digit (chr (48 + n)) = true.
Proof.
  intros. unfold is_digit. rewrite code_chr by lia.
  apply andb_true_iff. split; apply Z.leb_le; lia.
Qed.

Lemma digits_val_itoa_go fuel n acc :
  0 <= n < 10 ^ Z.of_nat fuel ->
  digits_val 0 (itoa_go fuel n acc) = digits_val n acc.
Proof.
  revert n acc. induction fuel as [|fuel IH]; intros n acc Hn.
  - change (10 ^ Z.of_nat 0) with 1 in Hn. assert (n = 0) as -> by lia. done.
  - cbn [itoa_go].
    assert (Hd : 0 <= n mod 10 < 10) by (apply Z.mod_pos_bound; lia).
    destruct (n <? 10) eqn:E; breflect.
    + cbn [digits_val]. rewrite is_digit_chr, code_chr by lia.
      f_equal. rewrite Z.mod_small; lia.
    + rewrite IH.
      * cbn [digits_val]. rewrite is_digit_chr, code_chr by lia.
        f_equal. pose proof (Z.div_mod n 10). lia.
      * rewrite Nat2Z.inj_succ, Z.pow_succ_r in Hn by lia.
        split; [apply Z.div_pos; lia | apply Z.div_lt_upper_bound; lia].
Qed.

Lemma itoa_go_head fuel n acc :
  0 <= n -> exists c r, itoa_go (S fuel) n acc = String c r /\ is_digit c = true.
Proof.
  revert n acc. induction fuel as [|fuel IH]; intros n acc Hn.
  - assert (Hd : 0 <= n mod 10 < 10) by (apply Z.mod_pos_bound; lia).
    cbn [itoa_go]. destruct (n <? 10); eauto using is_digit_chr.
  - assert (Hd : 0 <= n mod 10 < 10) by (apply Z.mod_pos_bound; lia).
    cbn [itoa_go] in *. destruct (n <? 10); eauto using is_digit_chr.
    apply (IH (n / 10)). apply Z.div_pos; lia.
Qed.

(** Printing then parsing an int64 gives it back. *)
Lemma parse_int_itoa z : in_i64 z -> parse_int (itoa z) = Some z.
Proof.
  unfold in_i64. intros Hz. unfold itoa. destruct (z <? 0) eqn:E; breflect.
  - cbn [parse_int]. rewrite code_chr by lia. cbn [Z.eqb Pos.eqb].
    destruct (itoa_go_head 19 (- z) EmptyString) as (c & r & Hcr & _); [lia|].
    rewrite Hcr, <- Hcr, digits_val_itoa_go by lia. cbn [digits_val].
    rewrite Z.opp_involutive, (proj2 (Z.leb_le _ _)), (proj2 (Z.ltb_lt _ _)) by lia. done.
  - destruct (itoa_go_head 19 z EmptyString) as (c & r & Hcr & Hc); [lia|].
    unfold parse_int. rewrite Hcr. unfold is_digit in Hc. breflect.
    rewrite (proj2 (Z.eqb_neq (code c) 45)), (proj2 (Z.eqb_neq (code c) 43)) by lia.
    rewrite <- Hcr, digits_val_itoa_go by lia. cbn [digits_val].
    rewrite (proj2 (Z.leb_le _ _)), (proj2 (Z.ltb_lt _ _)) by lia. done.
Qed.

Lemma lower_byte_idem c : lower_byte (lower_byte c) = lower_byte c.
Proof.
  unfold lower_byte. destruct (is_upper c) eqn:E; [|by rewrite E].
  unfold is_upper in *. breflect. rewrite code_chr by lia.
  rewrite (proj2 (Z.leb_gt (code c + 32) 90)) by lia. by rewrite andb_false_r.
Qed.

Lemma to_lower_idem s : to_lower (to_lower s) = to_lower s.
Proof.
  induction s as [|c s IH]; cbn; [done|]. by rewrite IH, lower_byte_idem.
Qed.

(** ** Trimming

    Bytes 33 to 126 neither begin nor end a white-space rune. *)

Definition printable (c : ascii) : Prop := 33 <= code c <= 126.

Definition rune_heads_not_printable (runes : list (list Z)) : Prop :=
  Forall (fun u => match u with z :: _ => z < 33 \/ 126 < z | [] => False end) runes.

Lemma trim_runes_printable runes fuel l :
  rune_heads_not_printable runes ->
  match l with c :: _ => printable c | [] => True end ->
  trim_runes runes fuel l = l.
Proof.
  intros Hr Hl. destruct fuel as [|fuel]; [done|]. cbn [trim_runes].
  assert (first_match (fun u => strip_rune u l) runes = None) as ->; [|done].
  apply first_match_None. eapply Forall_impl; [exact Hr|].
  intros [|z u] Hz; [done|]. destruct l as [|c l]; [done|]. cbn.
  unfold printable in Hl. by rewrite (proj2 (Z.eqb_neq (code c) z)) by lia.
Qed.

Lemma space_heads : rune_heads_not_printable space_runes.
Proof. unfold rune_heads_not_printable, space_runes. forall_list; lia. Qed.

Lemma space_tails : rune_heads_not_printable (map (@rev Z) space_runes).
Proof.
  unfold rune_heads_not_printable, space_runes. cbn [map rev app].
  forall_list; lia.
Qed.

Lemma trim_space_printable s : Forall printable (bytes s) -> trim_space s = s.
Proof.
  intros Hs. unfold trim_space.
  rewrite (trim_runes_printable space_runes); [|exact space_heads|].
  2:{ destruct Hs; done. }
  rewrite trim_runes_printable; [|exact space_tails|].
  - by rewrite rev_involutive, of_bytes_bytes.
  - assert (H : Forall printable (rev (bytes s))).
    { rewrite Forall_forall in Hs |- *. intros c Hc. apply Hs. by apply elem_of_rev. }
    destruct H; done.
Qed.

Lemma index_byte_None b s : index_byte b s = None <-> Forall (fun c => c <> b) (bytes s).
Proof.
  induction s as [|c s IH]; cbn; [by split; constructor|].
  rewrite Forall_cons. case_bool_decide; [naive_solver|].
  destruct (index_byte b s); naive_solver.
Qed.

Lemma contains_byte_false b s : Forall (fun c => c <> b) (bytes s) -> contains_byte b s = false.
Proof. intros H. unfold contains_byte. by rewrite (proj2 (index_byte_None b s) H). Qed.

Lemma contains_byte_true b s : contains_byte b s = true <-> b ∈ bytes s.
Proof.
  unfold contains_byte. induction s as [|c s IH]; cbn; [by split; [|intros H; inversion H]|].
  rewrite elem_of_cons. case_bool_decide; [naive_solver|].
  destruct (index_byte b s); cbn in *; naive_solver.
Qed.

(** Trimming only drops bytes of white-space runes. *)
Lemma strip_rune_keeps u l l' c :
  Forall (fun z => z < 33 \/ 126 < z) u -> strip_rune u l = Some l' ->
  c ∈ l -> printable c -> c ∈ l'.
Proof.
  unfold printable. revert l. induction u as [|z u IH]; intros l Hu; cbn; [by intros [= ->]|].
  destruct l as [|d l]; [done|]. apply Forall_cons in Hu as [Hz Hu].
  destruct (code d =? z) eqn:E; [|done]. breflect. intros Hs Hc Hp.
  apply elem_of_cons in Hc as [->|Hc]; [lia|]. by eapply IH.
Qed.

Lemma trim_runes_keeps runes fuel l c :
  Forall (Forall (fun z => z < 33 \/ 126 < z)) runes ->
  c ∈ l -> printable c -> c ∈ trim_runes runes fuel l.
Proof.
  intros Hr. revert l. induction fuel as [|fuel IH]; intros l Hc Hp; cbn [trim_runes]; [done|].
  destruct (first_match _ runes) as [l'|] eqn:E; [|done].
  apply first_match_Some in E as (u & Hu & Hs). apply IH; [|done].
  rewrite Forall_forall in Hr. eapply strip_rune_keeps; [by apply Hr|exact Hs|done|done].
Qed.

Lemma space_bytes : Forall (Forall (fun z => z < 33 \/ 126 < z)) space_runes.
Proof. unfold space_runes. forall_list; lia. Qed.

Lemma space_bytes_rev : Forall (Forall (fun z => z < 33 \/ 126 < z)) (map (@rev Z) space_runes).
Proof. unfold space_runes. cbn [map rev app]. forall_list; lia. Qed.

Lemma trim_space_keeps s c : c ∈ bytes s -> printable c -> c ∈ bytes (trim_space s).
Proof.
  intros Hc Hp. unfold trim_space. rewrite bytes_of_bytes.
  apply elem_of_rev, trim_runes_keeps; [apply space_bytes_rev| |done].
  apply elem_of_rev. by apply trim_runes_keeps; [apply space_bytes| |].
Qed.

(** ** Shapes of numbers *)

Lemma digits_val_chars v s z :
  digits_val v s = Some z -> Forall (fun c => is_digit c = true) (bytes s).
Proof.
  revert v. induction s as [|c s IH]; intros v; cbn; [constructor|].
  destruct (is_digit c) eqn:E; [|done]. intros H. constructor; [done|]. by eapply IH.
Qed.

Lemma parse_int_chars s z :
  parse_int s = Some z ->
  Forall (fun c => is_digit c = true \/ code c = 43 \/ code c = 45) (bytes s).
Proof.
  unfold parse_int. destruct s as [|c s]; [done|]. cbn zeta.
  assert (W : forall t, match digits_val 0 t with Some v => True | None => False end ->
    Forall (fun c => is_digit c = true \/ code c = 43 \/ code c = 45) (bytes t)).
  { intros t. destruct (digits_val 0 t) eqn:E; [|done]. intros _.
    eapply Forall_impl; [by eapply digits_val_chars|]. by left. }
  destruct (code c =? 45) eqn:E1; [|destruct (code c =? 43) eqn:E2]; breflect.
  1,2: destruct s as [|d s]; [done|]; intros H; cbn [bytes]; constructor; [auto|];
    apply (W (String d s)); by destruct (digits_val _ _).
  intros H. apply (W (String c s)). by destruct (digits_val _ _).
Qed.

Lemma itoa_go_digits fuel n acc :
  0 <= n -> Forall (fun c => is_digit c = true) (bytes acc) ->
  Forall (fun c => is_digit c = true) (bytes (itoa_go fuel n acc)).
Proof.
  revert n acc. induction fuel as [|fuel IH]; intros n acc Hn Ha; cbn [itoa_go]; [done|].
  pose proof (Z.mod_pos_bound n 10).
  assert (Forall (fun c => is_digit c = true) (bytes (String (chr (48 + n mod 10)) acc))).
  { cbn [bytes]. constructor; [|done]. apply is_digit_chr. lia. }
  destruct (n <? 10); [done|]. apply IH; [apply Z.div_pos; lia|done].
Qed.

Lemma itoa_digits z : 0 <= z -> Forall (fun c => is_digit c = true) (bytes (itoa z)).
Proof.
  intros Hz. unfold itoa. rewrite (proj2 (Z.ltb_ge z 0)) by done. by apply itoa_go_digits.
Qed.

Lemma itoa_nonempty z : 0 <= z -> itoa z <> "".
Proof.
  intros Hz. unfold itoa. rewrite (proj2 (Z.ltb_ge z 0)) by done.
  destruct (itoa_go_head 19 z "") as (c & r & -> & _); done.
Qed.

Lemma digit_printable c : is_digit c = true -> printable c.
Proof. unfold is_digit, printable. intros. breflect. lia. Qed.

(** ** Splitting and removing *)

Lemma in_split_byte b s c : c ∈ bytes s -> c <> b -> exists l, l ∈ split_byte b s /\ c ∈ bytes l.
Proof.
  intros Hc Hb. induction s as [|d s IH]; cbn [bytes split_byte] in *; [inversion Hc|].
  apply elem_of_cons in Hc. case_bool_decide as Hd.
  - destruct Hc as [->|Hc]; [done|]. destruct (IH Hc) as (l & Hl & Hcl).
    exists l. split; [by right|done].
  - destruct (split_byte b s) as [|x xs] eqn:E; [by apply split_byte_nonempty in E|].
    destruct Hc as [->|Hc].
    + exists (String d x). split; [by left|by left].
    + destruct (IH Hc) as (l & Hl & Hcl). apply elem_of_cons in Hl as [->|Hl].
      * exists (String d x). split; [by left|by right].
      * exists l. split; [by right|done].
Qed.

Lemma remove_byte_id b s : Forall (fun c => c <> b) (bytes s) -> remove_byte b s = s.
Proof.
  induction s as [|c s IH]; cbn; [done|]. intros H. apply Forall_cons in H as [Hc Hs].
  rewrite bool_decide_eq_false_2 by done. by rewrite IH.
Qed.

Lemma has_byte_first b c s : c <> b -> has_prefix (String b "") (String c s) = false.
Proof. intros H. cbn. by rewrite bool_decide_eq_false_2 by congruence. Qed.

Lemma snth_app s k t : snth (slen s + k) (s +:+ t) = snth k t.
Proof. induction s as [|c s IH]; [done|]. rewrite str_app_cons. exact IH. Qed.

Lemma sdrop_app_add s k t : sdrop (slen s + k) (s +:+ t) = sdrop k t.
Proof. induction s as [|c s IH]; [done|]. rewrite str_app_cons. exact IH. Qed.

Lemma slen_nonempty s : s <> "" -> (1 <= slen s)%nat.
Proof. destruct s; [done|]. cbn. lia. Qed.

Lemma Forall_bytes_app (P : ascii -> Prop) s t :
  Forall P (bytes (s +:+ t)) <-> Forall P (bytes s) /\ Forall P (bytes t).
Proof. rewrite bytes_app. apply Forall_app. Qed.

(** ** Trimming twice *)

Lemma strip_rune_length u l r : strip_rune u l = Some r -> length l = (length u + length r)%nat.
Proof.
  revert l. induction u as [|z u IH]; intros l; cbn; [by intros [= ->]|].
  destruct l as [|c l]; [done|]. destruct (code c =? z); [|done]. intros H. cbn. by rewrite (IH l H).
Qed.

Lemma strip_rune_app u l r x : strip_rune u l = Some r -> strip_rune u (l ++ x) = Some (r ++ x).
Proof.
  revert l. induction u as [|z u IH]; intros l; cbn; [by intros [= ->]|].
  destruct l as [|c l]; [done|]. cbn. destruct (code c =? z); [|done]. apply IH.
Qed.

Lemma strip_rune_suffix u l r : strip_rune u l = Some r -> exists pre, l = pre ++ r.
Proof.
  revert l. induction u as [|z u IH]; intros l; cbn; [intros [= ->]; by exists []|].
  destruct l as [|c l]; [done|]. destruct (code c =? z); [|done]. intros H.
  destruct (IH l H) as [pre ->]. by exists (c :: pre).
Qed.

Definition no_head (runes : list (list Z)) (l : list ascii) : Prop :=
  first_match (fun u => strip_rune u l) runes = None.

Lemma trim_runes_stop runes fuel l :
  Forall (fun u => u <> []) runes -> (length l <= fuel)%nat -> no_head runes (trim_runes runes fuel l).
Proof.
  intros Hr. unfold no_head. revert l. induction fuel as [|fuel IH]; intros l Hl; cbn [trim_runes].
  - destruct l; [|cbn in Hl; lia]. apply first_match_None. eapply Forall_impl; [exact Hr|]. by intros [|z u].
  - destruct (first_match (fun u => strip_rune u l) runes) as [l'|] eqn:E; [|exact E]. apply IH.
    apply first_match_Some in E as (u & Hu & Hs). apply strip_rune_length in Hs.
    rewrite Forall_forall in Hr. specialize (Hr u Hu). destruct u; [done|]. cbn in Hs. lia.
Qed.

Lemma trim_runes_suffix runes fuel l : exists pre, l = pre ++ trim_runes runes fuel l.
Proof.
  revert l. induction fuel as [|fuel IH]; intros l; cbn [trim_runes]; [by exists []|].
  destruct (first_match _ runes) as [l'|] eqn:E; [|by exists []].
  apply first_match_Some in E as (u & _ & Hs). apply strip_rune_suffix in Hs as [pre ->].
  destruct (IH l') as [pre' Hp]. exists (pre ++ pre'). by rewrite <- app_assoc, <- Hp.
Qed.

Lemma trim_runes_done runes fuel l : no_head runes l -> trim_runes runes fuel l = l.
Proof. unfold no_head. intros H. destruct fuel; [done|]. cbn. by rewrite H. Qed.

Lemma space_runes_nonempty : Forall (fun u => u <> []) space_runes.
Proof. unfold space_runes. forall_list; done. Qed.

Lemma space_runes_rev_nonempty : Forall (fun u => u <> []) (map (@rev Z) space_runes).
Proof. unfold space_runes. cbn [map rev app]. forall_list; done. Qed.

(** No white space at either end. *)
Definition trimmed (s : string) : Prop :=
  no_head space_runes (bytes s) /\ no_head (map (@rev Z) space_runes) (rev (bytes s)).

Lemma trim_space_trimmed s : trimmed (trim_space s).
Proof.
  unfold trimmed, trim_space. set (l1 := trim_runes space_runes _ _).
  assert (H1 : no_head space_runes l1).
  { subst l1. apply trim_runes_stop; [apply space_runes_nonempty|done]. }
  set (l2 := trim_runes _ (length l1) _).
  assert (H2 : no_head (map (@rev Z) space_runes) l2).
  { subst l2. apply trim_runes_stop; [apply space_runes_rev_nonempty|]. by rewrite length_rev. }
  rewrite bytes_of_bytes, rev_involutive. split; [|done].
  destruct (trim_runes_suffix (map (@rev Z) space_runes) (length l1) (rev l1)) as [pre Hp].
  fold l2 in Hp. apply (f_equal (@rev ascii)) in Hp. rewrite rev_involutive, rev_app_distr in Hp.
  unfold no_head in *. rewrite first_match_None in *. rewrite Forall_forall in *. intros u Hu.
  destruct (strip_rune u (rev l2)) as [r|] eqn:E; [|done].
  apply (strip_rune_app _ _ _ (rev pre)) in E. rewrite <- Hp in E. specialize (H1 u Hu). cbn in H1. congruence.
Qed.

Lemma trim_space_fixed s : trimmed s -> trim_space s = s.
Proof.
  intros [H1 H2]. unfold trim_space. rewrite (trim_runes_done _ _ (bytes s)) by done.
  by rewrite trim_runes_done, rev_involutive, of_bytes_bytes.
Qed.

Lemma trim_space_idem s : trim_space (trim_space s) = trim_space s.
Proof. apply trim_space_fixed, trim_space_trimmed. Qed.

(** Lower case neither makes nor removes white space. *)
Lemma strip_rune_lower u l :
  Forall (fun z => z < 33 \/ 126 < z) u -> is_Some (strip_rune u (map lower_byte l)) -> is_Some (strip_rune u l).
Proof.
  revert l. induction u as [|z u IH]; intros l Hu; cbn; [done|]. apply Forall_cons in Hu as [Hz Hu].
  destruct l as [|c l]; cbn; [done|]. destruct (code (lower_byte c) =? z) eqn:E; [|by intros [? ?]].
  assert (code c =? z = true) as ->; [|by apply IH].
  revert E. unfold lower_byte, is_upper. destruct ((65 <=? code c) && (code c <=? 90)) eqn:Eu; [|done].
  apply andb_true_iff in Eu. rewrite code_chr by lia. lia.
Qed.

Lemma no_head_lower runes l :
  Forall (Forall (fun z => z < 33 \/ 126 < z)) runes -> no_head runes l -> no_head runes (map lower_byte l).
Proof.
  unfold no_head. rewrite !first_match_None, !Forall_forall. intros Hr Hl u Hu.
  destruct (strip_rune u (map lower_byte l)) eqn:E; [|done].
  destruct (strip_rune_lower u l) as [x Hx]; [by apply Hr|by rewrite E|]. specialize (Hl u Hu). cbn in Hl. congruence.
Qed.

Lemma bytes_to_lower s : bytes (to_lower s) = map lower_byte (bytes s).
Proof. induction s as [|c s IH]; cbn; [done|]. by rewrite IH. Qed.

Lemma trim_to_lower s : trimmed s -> trim_space (to_lower s) = to_lower s.
Proof.
  intros [H1 H2]. apply trim_space_fixed. unfold trimmed. rewrite bytes_to_lower, <- map_rev.
  split; apply no_head_lower; auto using space_bytes, space_bytes_rev.
Qed.

(** ** The order of strings *)

Lemma str_compare_refl s : String.compare s s = Eq.
Proof. induction s as [|c s IH]; [done|]. cbn. unfold Ascii.compare. by rewrite N.compare_refl. Qed.

Lemma str_compare_cons c s d t :
  String.compare (String c s) (String d t) =
  match code c ?= code d with Eq => String.compare s t | r => r end.
Proof. cbn [String.compare]. unfold Ascii.compare, code. by rewrite N2Z.inj_compare. Qed.

Lemma code_inj c d : code c = code d -> c = d.
Proof. intros H. by rewrite <- (chr_code c), <- (chr_code d), H. Qed.

Lemma str_ltb_trans a b c : String.ltb a b = true -> String.ltb b c = true -> String.ltb a c = true.
Proof.
  unfold String.ltb. revert b c. induction a as [|x a IH]; intros [|y b] [|z c]; try done.
  rewrite !str_compare_cons. specialize (IH b c).
  destruct (Z.compare_spec (code x) (code y)), (Z.compare_spec (code y) (code z)), (Z.compare_spec (code x) (code z));
    try done; lia.
Qed.

Lemma str_leb_ltb a b : String.leb a b = negb (String.ltb b a).
Proof. unfold String.leb, String.ltb. rewrite String.compare_antisym. by destruct (String.compare b a). Qed.

Lemma str_ltb_irrefl a : String.ltb a a = false.
Proof. unfold String.ltb. by rewrite str_compare_refl. Qed.

Lemma str_ltb_leb_trans a b c : String.ltb a b = true -> String.leb b c = true -> String.ltb a c = true.
Proof.
  intros Hab Hbc. destruct (String.compare b c) eqn:E.
  - apply String.compare_eq_iff in E. by subst.
  - apply str_ltb_trans with b; [done|]. unfold String.ltb. by rewrite E.
  - unfold String.leb in Hbc. by rewrite E in Hbc.
Qed.

Lemma str_ltb_nil a : String.ltb a "" = false.
Proof. by destruct a. Qed.
