(* ===== verification/ExpiryCache.v ===== *)
(** * [internal/support/expiry_cache.go]

    A bounded cache with absolute expiry times.  The Go structure is a map from
    keys to elements of a doubly linked list ([container/list]) whose front is
    the most recently used entry.  The model keeps that sharing: [entries]
    sends a key to an element identifier, [order] is the list of identifiers
    from front to back, and [values] is the [Value] field of every element.
    The mutex makes each operation atomic, so an operation is a function. *)

From S2P Require Import Prelude.
Open Scope Z_scope.

Module ExpiryCache.
Section Cache.
Context {K V : Type} `{Countable K}.

Record expiryCacheEntry := Entry { key : K; value : V; expires : Z }.

Record ExpiryCache := Cache {
  capacity : nat;
  entries : gmap K nat;
  order : list nat;
  values : gmap nat expiryCacheEntry;
  next_elem : nat
}.

Definition NewExpiryCache (cap : Z) : ExpiryCache :=
  Cache (Z.to_nat (Z.max 1 cap)) ∅ [] ∅ 0.

(** [c.remove(elem)]; [None] is the panic of dereferencing a nil element. *)
Definition remove (c : ExpiryCache) (elem : option nat) : option ExpiryCache :=
  match elem with
  | None => None
  | Some id =>
      match values c !! id with
      | None => None
      | Some e =>
          Some (Cache (capacity c) (delete (key e) (entries c))
                  (filter (fun j => j <> id) (order c))
                  (delete id (values c)) (next_elem c))
      end
  end.

(** [c.order.MoveToFront(elem)] *)
Definition move_to_front (c : ExpiryCache) (id : nat) : ExpiryCache :=
  Cache (capacity c) (entries c) (id :: filter (fun j => j <> id) (order c))
    (values c) (next_elem c).

Definition Get (c : ExpiryCache) (k : K) (now : Z) : option (option V * ExpiryCache) :=
  match entries c !! k with
  | Some id =>
      match values c !! id with
      | None => None
      | Some e =>
          if now <? expires e then Some (Some (value e), move_to_front c id)
          else option_map (fun c' => (None, c')) (remove c (Some id))
      end
  | None => Some (None, c)
  end.

Definition Set_ (c : ExpiryCache) (k : K) (v : V) (exp : Z) : option ExpiryCache :=
  let entry := Entry k v exp in
  match entries c !! k with
  | Some id =>
      Some (move_to_front
              (Cache (capacity c) (entries c) (order c) (<[id := entry]> (values c))
                 (next_elem c)) id)
  | None =>
      let pushed c' :=
        let id := next_elem c' in
        Cache (capacity c') (<[k := id]> (entries c')) (id :: order c')
          (<[id := entry]> (values c')) (S id) in
      if bool_decide (capacity c <= size (entries c))%nat
      then option_map pushed (remove c (last (order c)))
      else Some (pushed c)
  end.

(** The loop of [Prune], over the elements from the back; [elem.Prev()] is
    read before the removal, so the elements visited are those of the initial
    list. *)
Fixpoint prune_from (now : Z) (elems : list nat) (c : ExpiryCache) : option ExpiryCache :=
  match elems with
  | [] => Some c
  | id :: elems' =>
      match values c !! id with
      | None => None
      | Some e =>
          if negb (now <? expires e)
          then match remove c (Some id) with
               | None => None
               | Some c' => prune_from now elems' c'
               end
          else prune_from now elems' c
      end
  end.

Definition Prune (c : ExpiryCache) (now : Z) : option ExpiryCache :=
  prune_from now (rev (order c)) c.

Definition Len (c : ExpiryCache) : nat := size (entries c).

(** ** Specification: a recency list

    The cache is the list of its entries, most recently used first. *)

Definition contents (c : ExpiryCache) : list expiryCacheEntry :=
  omap (fun id => values c !! id) (order c).

Definition spec_find (k : K) (l : list expiryCacheEntry) : option expiryCacheEntry :=
  first_match (fun e => if bool_decide (key e = k) then Some e else None) l.

Definition spec_drop (k : K) (l : list expiryCacheEntry) : list expiryCacheEntry :=
  filter (fun e => key e <> k) l.

Definition spec_get (l : list expiryCacheEntry) (k : K) (now : Z)
    : option V * list expiryCacheEntry :=
  match spec_find k l with
  | Some e =>
      if now <? expires e then (Some (value e), e :: spec_drop k l)
      else (None, spec_drop k l)
  | None => (None, l)
  end.

Definition spec_set (cap : nat) (l : list expiryCacheEntry) (e : expiryCacheEntry)
    : list expiryCacheEntry :=
  match spec_find (key e) l with
  | Some _ => e :: spec_drop (key e) l
  | None => e :: take (cap - 1) l
  end.

Definition spec_prune (l : list expiryCacheEntry) (now : Z) : list expiryCacheEntry :=
  filter (fun e => now < expires e) l.

(** The map and the list describe the same entries. *)
Record wf (c : ExpiryCache) : Prop := {
  wf_cap : (1 <= capacity c)%nat;
  wf_nodup : NoDup (order c);
  wf_values : forall id, is_Some (values c !! id) <-> id ∈ order c;
  wf_entries : forall k id,
    entries c !! k = Some id <-> exists e, values c !! id = Some e /\ key e = k;
  wf_next : forall id, id ∈ order c -> (id < next_elem c)%nat;
  wf_bound : (length (order c) <= capacity c)%nat
}.

(** ** Invariant and refinement lemmas *)

Lemma wf_new cap : wf (NewExpiryCache cap).
Proof.
  split; cbn.
  - lia.
  - constructor.
  - intros id. rewrite lookup_empty. split; [intros [? [=]] | intros X; inversion X].
  - intros k id. rewrite lookup_empty. split; [done|]. intros (e & He & _). by rewrite lookup_empty in He.
  - intros id X; inversion X.
  - lia.
Qed.

Lemma wf_elem c id : wf c -> id ∈ order c ->
  exists e, values c !! id = Some e /\ entries c !! key e = Some id.
Proof.
  intros Hw Hin. apply (wf_values _ Hw) in Hin as [e He].
  exists e. split; [done|]. apply (wf_entries _ Hw). eauto.
Qed.

Lemma wf_key_inj c i j e e' : wf c ->
  values c !! i = Some e -> values c !! j = Some e' -> key e = key e' -> i = j.
Proof.
  intros Hw Hi Hj Hk.
  assert (entries c !! key e = Some i) by (apply (wf_entries _ Hw); eauto).
  assert (entries c !! key e = Some j) by (apply (wf_entries _ Hw); eauto).
  congruence.
Qed.

Lemma size_entries c : wf c -> size (entries c) = length (order c).
Proof.
  intros Hw. rewrite <- length_map_to_list, <- (length_fmap snd).
  apply Permutation_length, NoDup_Permutation.
  - apply NoDup_fmap_2_strong; [|apply NoDup_map_to_list].
    intros [k i] [k' i'] Hx Hy Heq. cbn in Heq. subst i'.
    apply elem_of_map_to_list in Hx, Hy.
    apply (wf_entries _ Hw) in Hx as (e & He & <-), Hy as (e' & He' & <-).
    congruence.
  - apply (wf_nodup _ Hw).
  - intros id. rewrite list_elem_of_fmap. split.
    + intros ([k i] & -> & Hin). apply elem_of_map_to_list in Hin.
      apply (wf_entries _ Hw) in Hin as (e & He & _). apply (wf_values _ Hw). eauto.
    + intros Hin. destruct (wf_elem c id Hw Hin) as (e & He & Hent).
      exists (key e, id). split; [done|]. by apply elem_of_map_to_list.
Qed.

(** Removing an element of the list keeps the invariant. *)
Lemma wf_remove c id : wf c -> id ∈ order c ->
  exists e c', values c !! id = Some e /\ remove c (Some id) = Some c' /\ wf c' /\
    order c' = filter (fun j => j <> id) (order c) /\
    values c' = delete id (values c) /\
    entries c' = delete (key e) (entries c) /\ capacity c' = capacity c.
Proof.
  intros Hw Hin. destruct (wf_elem c id Hw Hin) as (e & He & Hent).
  unfold remove. rewrite He. eexists e, _. do 2 (split; [done|]).
  split; [|done]. split; cbn.
  - apply Hw.
  - apply NoDup_filter, Hw.
  - intros j. rewrite list_elem_of_filter, <- (wf_values _ Hw).
    destruct (decide (j = id)) as [->|Hne].
    + rewrite lookup_delete_eq. split; [intros [? [=]] | naive_solver].
    + rewrite lookup_delete_ne by done. naive_solver.
  - intros k j. destruct (decide (k = key e)) as [->|Hk].
    + rewrite lookup_delete_eq. split; [done|]. intros (e' & He' & Hk').
      destruct (decide (j = id)) as [->|Hne]; [by rewrite lookup_delete_eq in He'|].
      rewrite lookup_delete_ne in He' by done.
      destruct Hne. by eapply (wf_key_inj c j id e' e).
    + rewrite lookup_delete_ne by done. rewrite (wf_entries _ Hw).
      destruct (decide (j = id)) as [->|Hne].
      * rewrite lookup_delete_eq. naive_solver.
      * by rewrite lookup_delete_ne.
  - intros j Hj. apply list_elem_of_filter in Hj as [_ Hj]. by apply (wf_next _ Hw).
  - etrans; [apply length_filter | apply Hw].
Qed.

(** Dropping an identifier from the order drops its key from the contents. *)
Lemma omap_drop c id e l :
  wf c -> values c !! id = Some e -> Forall (fun j => j ∈ order c) l ->
  omap (fun j => delete id (values c) !! j) (filter (fun j => j <> id) l) =
  spec_drop (key e) (omap (fun j => values c !! j) l).
Proof.
  intros Hw He Hl. unfold spec_drop. induction Hl as [|j l Hj Hl IH]; [done|].
  destruct (wf_elem c j Hw Hj) as (ej & Hej & _).
  destruct (decide (j = id)) as [->|Hne].
  - rewrite filter_cons_False by naive_solver. cbn. rewrite Hej, IH.
    rewrite filter_cons_False; [done|]. naive_solver.
  - rewrite filter_cons_True by done. cbn. rewrite lookup_delete_ne, Hej, IH by done.
    rewrite filter_cons_True; [done|].
    intros Hk. apply Hne. by eapply (wf_key_inj c).
Qed.

Lemma omap_drop_same c id e l :
  wf c -> values c !! id = Some e -> Forall (fun j => j ∈ order c) l ->
  omap (fun j => values c !! j) (filter (fun j => j <> id) l) =
  spec_drop (key e) (omap (fun j => values c !! j) l).
Proof.
  intros Hw He Hl. rewrite <- (omap_drop c id e l) by done.
  clear Hl. induction l as [|j l IH]; [done|].
  destruct (decide (j = id)) as [->|Hne].
  - by rewrite filter_cons_False by naive_solver.
  - rewrite filter_cons_True by done. cbn. by rewrite lookup_delete_ne, IH by done.
Qed.

Lemma order_in_order c : Forall (fun j => j ∈ order c) (order c).
Proof. by apply Forall_forall. Qed.

Lemma length_contents c : wf c -> length (contents c) = length (order c).
Proof.
  intros Hw. unfold contents.
  pose proof (order_in_order c) as Hl. induction Hl as [|j l Hj Hl IH]; [done|].
  destruct (wf_elem c j Hw Hj) as (e & He & _). cbn. rewrite He. cbn. by rewrite IH.
Qed.

Lemma elem_of_contents c e : e ∈ contents c <-> exists id, id ∈ order c /\ values c !! id = Some e.
Proof. apply list_elem_of_omap. Qed.

(** The map lookup finds what the recency list holds for the key. *)
Lemma spec_find_entries c k : wf c ->
  spec_find k (contents c) = entries c !! k ≫= fun id => values c !! id.
Proof.
  intros Hw. unfold spec_find. destruct (entries c !! k) as [id|] eqn:E; cbn.
  - apply (wf_entries _ Hw) in E as (e & He & Hk).
    assert (Hin : e ∈ contents c).
    { apply elem_of_contents. exists id. split; [apply (wf_values _ Hw); eauto | done]. }
    destruct (first_match _ (contents c)) as [e'|] eqn:F.
    + apply first_match_Some in F as (e2 & Hin2 & He2). case_bool_decide; [|done].
      simplify_eq. apply elem_of_contents in Hin2 as (j & Hj & Hej).
      by rewrite <- (wf_key_inj c j id e' e).
    + apply first_match_None in F. rewrite Forall_forall in F. specialize (F e Hin).
      by rewrite bool_decide_eq_true_2 in F.
  - apply first_match_None, Forall_forall. intros e Hin.
    apply elem_of_contents in Hin as (j & Hj & Hej).
    case_bool_decide; [|done]. exfalso.
    assert (entries c !! k = Some j) by (apply (wf_entries _ Hw); eauto). congruence.
Qed.

Lemma order_move_to_front c id : wf c -> id ∈ order c ->
  order (move_to_front c id) ≡ₚ order c.
Proof.
  intros Hw Hin. apply NoDup_Permutation.
  - constructor; [rewrite list_elem_of_filter; naive_solver | apply NoDup_filter, Hw].
  - apply Hw.
  - intros x. unfold move_to_front. cbn [order]. rewrite elem_of_cons, list_elem_of_filter.
    destruct (decide (x = id)); naive_solver.
Qed.

Lemma wf_move_to_front c id : wf c -> id ∈ order c -> wf (move_to_front c id).
Proof.
  intros Hw Hin. pose proof (order_move_to_front c id Hw Hin) as Hperm.
  split; try (intros j); rewrite ?Hperm; apply Hw.
Qed.

Lemma contents_move_to_front c id e : wf c -> values c !! id = Some e ->
  contents (move_to_front c id) = e :: spec_drop (key e) (contents c).
Proof.
  intros Hw He. unfold contents. cbn. rewrite He.
  f_equal. apply (omap_drop_same c id e); [done|done|apply order_in_order].
Qed.

(** Removing an existing element drops its key, and keeps the invariant. *)
Lemma remove_spec c id e : wf c -> values c !! id = Some e ->
  exists c', remove c (Some id) = Some c' /\ wf c' /\
    order c' = filter (fun j => j <> id) (order c) /\
    capacity c' = capacity c /\ values c' = delete id (values c) /\
    contents c' = spec_drop (key e) (contents c).
Proof.
  intros Hw He.
  assert (Hin : id ∈ order c) by (apply (wf_values _ Hw); eauto).
  destruct (wf_remove c id Hw Hin) as (e' & c' & He' & Hr & Hw' & Ho & Hv & Hent & Hcap).
  rewrite He in He'. simplify_eq. exists c'. repeat (split; [done|]).
  unfold contents. rewrite Ho, Hv. apply omap_drop; [done|done|apply order_in_order].
Qed.

Lemma remove_entries c id e c' : values c !! id = Some e -> remove c (Some id) = Some c' ->
  entries c' = delete (key e) (entries c).
Proof. unfold remove. intros -> [= <-]. done. Qed.

Lemma wf_push c k v exp : wf c -> entries c !! k = None ->
  (length (order c) < capacity c)%nat ->
  wf (Cache (capacity c) (<[k := next_elem c]> (entries c)) (next_elem c :: order c)
        (<[next_elem c := Entry k v exp]> (values c)) (S (next_elem c))).
Proof.
  intros Hw Hk Hlt.
  assert (Hfresh : next_elem c ∉ order c) by (intros X; apply (wf_next _ Hw) in X; lia).
  assert (Hnone : values c !! next_elem c = None).
  { apply eq_None_not_Some. by rewrite (wf_values _ Hw). }
  split; cbn.
  - apply Hw.
  - constructor; [done | apply Hw].
  - intros j. rewrite elem_of_cons, <- (wf_values _ Hw), lookup_insert_is_Some'.
    destruct (decide (next_elem c = j)); naive_solver.
  - intros k' j. destruct (decide (k = k')) as [<-|Hkk].
    + rewrite lookup_insert_eq. split.
      * intros [= <-]. exists (Entry k v exp). by rewrite lookup_insert_eq.
      * intros (e & He & He'). destruct (decide (next_elem c = j)) as [<-|Hj]; [done|].
        rewrite lookup_insert_ne in He by done.
        assert (entries c !! k = Some j) by (apply (wf_entries _ Hw); eauto). congruence.
    + rewrite lookup_insert_ne, (wf_entries _ Hw) by done.
      destruct (decide (next_elem c = j)) as [<-|Hj].
      * rewrite lookup_insert_eq, Hnone. split; [naive_solver|].
        intros (e & He & He'). simplify_eq.
      * by rewrite lookup_insert_ne by done.
  - intros j. rewrite elem_of_cons. intros [->|Hj]; [lia|]. apply (wf_next _ Hw) in Hj. lia.
  - lia.
Qed.

Lemma contents_push c k v exp : wf c ->
  contents (Cache (capacity c) (<[k := next_elem c]> (entries c)) (next_elem c :: order c)
        (<[next_elem c := Entry k v exp]> (values c)) (S (next_elem c))) =
  Entry k v exp :: contents c.
Proof.
  intros Hw. unfold contents. cbn. rewrite lookup_insert_eq. f_equal.
  pose proof (order_in_order c) as Hl. induction Hl as [|j l Hj Hl IH]; [done|].
  cbn. rewrite IH. apply (wf_next _ Hw) in Hj. by rewrite lookup_insert_ne by lia.
Qed.

(** Removing the back element drops the least recently used entry. *)
Lemma spec_drop_last c id e l : wf c -> order c = l ++ [id] -> values c !! id = Some e ->
  spec_drop (key e) (contents c) = take (length (contents c) - 1) (contents c).
Proof.
  intros Hw Ho He.
  unfold contents.
  rewrite <- (omap_drop_same c id e (order c) Hw He (order_in_order c)).
  pose proof (wf_nodup _ Hw) as Hnd. rewrite Ho in Hnd |- *.
  rewrite omap_app, length_app. cbn. rewrite He. cbn.
  replace (length (omap _ l) + 1 - 1)%nat with (length (omap (λ j, values c !! j) l)) by lia.
  rewrite take_app_length, filter_app, filter_cons_False by naive_solver.
  cbn. rewrite app_nil_r. f_equal.
  apply NoDup_app in Hnd as (_ & Hnd & _).
  clear Ho. induction l as [|j l IH]; [done|].
  rewrite filter_cons_True; [f_equal; apply IH|].
  - intros x Hx. apply Hnd. by right.
  - intros ->. apply (Hnd id); by left.
Qed.

Lemma wf_update c id e e' : wf c -> values c !! id = Some e -> key e' = key e ->
  wf (Cache (capacity c) (entries c) (order c) (<[id := e']> (values c)) (next_elem c)).
Proof.
  intros Hw He Hk. split; cbn; try apply Hw.
  - intros j. rewrite <- (wf_values _ Hw), lookup_insert_is_Some'. naive_solver.
  - intros k j. rewrite (wf_entries _ Hw). destruct (decide (id = j)) as [->|Hne].
    + rewrite lookup_insert_eq. naive_solver.
    + by rewrite lookup_insert_ne.
Qed.

Lemma contents_update c id e e' : wf c -> values c !! id = Some e -> key e' = key e ->
  spec_drop (key e) (contents
    (Cache (capacity c) (entries c) (order c) (<[id := e']> (values c)) (next_elem c))) =
  spec_drop (key e) (contents c).
Proof.
  intros Hw He Hk. unfold contents, spec_drop. cbn.
  pose proof (order_in_order c) as Hl. induction Hl as [|j l Hj Hl IH]; [done|].
  destruct (wf_elem c j Hw Hj) as (ej & Hej & _). cbn.
  destruct (decide (id = j)) as [->|Hne].
  - rewrite lookup_insert_eq, Hej, !filter_cons_False by naive_solver. apply IH.
  - rewrite lookup_insert_ne, Hej by done.
    destruct (decide (key ej = key e)).
    + rewrite !filter_cons_False by naive_solver. apply IH.
    + rewrite !filter_cons_True by done. by rewrite IH.
Qed.

Definition expired (vals : gmap nat expiryCacheEntry) (now : Z) (id : nat) : Prop :=
  match vals !! id with Some e => expires e <= now | None => False end.

#[local] Instance expired_dec vals now id : Decision (expired vals now id).
Proof. unfold expired. destruct (vals !! id); apply _. Defined.

Lemma prune_from_spec now l : forall c, wf c -> NoDup l -> (forall j, j ∈ l -> j ∈ order c) ->
  exists c', prune_from now l c = Some c' /\ wf c' /\ capacity c' = capacity c /\
    order c' = filter (fun j => ~ (j ∈ l /\ expired (values c) now j)) (order c) /\
    (forall j, j ∈ order c' -> values c' !! j = values c !! j).
Proof.
  induction l as [|id l IH]; intros c Hw Hnd Hsub.
  - exists c. repeat (split; [done|]). split; [|done].
    symmetry. apply filter_all. intros j _ [X _]. inversion X.
  - apply NoDup_cons in Hnd as [Hid Hnd].
    destruct (wf_elem c id Hw) as (e & He & _); [apply Hsub; by left|].
    cbn [prune_from]. rewrite He. destruct (now <? expires e) eqn:E; cbn [negb]; breflect.
    + destruct (IH c Hw Hnd) as (c' & Hc & Hw' & Hcap & Ho & Hv); [intros; apply Hsub; by right|].
      exists c'. repeat (split; [done|]). split; [|done].
      rewrite Ho. apply list_filter_iff. intros j. rewrite elem_of_cons.
      split; [|naive_solver]. intros Hn [[->|Hj] Hexp]; [|naive_solver].
      unfold expired in Hexp. rewrite He in Hexp. lia.
    + destruct (remove_spec c id e Hw He) as (c1 & Hr & Hw1 & Ho1 & Hcap1 & Hv1 & _).
      rewrite Hr. destruct (IH c1 Hw1 Hnd) as (c' & Hc & Hw' & Hcap & Ho & Hv).
      { intros j Hj. rewrite Ho1, list_elem_of_filter. split; [by intros -> | apply Hsub; by right]. }
      exists c'. split; [done|]. split; [done|]. split; [congruence|]. split.
      * rewrite Ho, Ho1, list_filter_filter. apply list_filter_iff. intros j.
        rewrite elem_of_cons, Hv1. unfold expired.
        destruct (decide (j = id)) as [->|Hne].
        -- rewrite He. split; [naive_solver|]. intros Hn. exfalso. apply Hn. split; [by left | lia].
        -- rewrite lookup_delete_ne by done. naive_solver.
      * intros j Hj. rewrite Hv by done. rewrite Ho, Ho1 in Hj.
        rewrite Hv1, lookup_delete_ne; [done|]. intros ->.
        apply list_elem_of_filter in Hj as [_ Hj]. apply list_elem_of_filter in Hj as [Hj _]. done.
Qed.

Lemma omap_filter_expired c now l : Forall (fun j => j ∈ order c) l -> wf c ->
  omap (fun j => values c !! j)
    (filter (fun j => ~ (j ∈ rev (order c) /\ expired (values c) now j)) l) =
  spec_prune (omap (fun j => values c !! j) l) now.
Proof.
  intros Hl Hw. unfold spec_prune. induction Hl as [|j l Hj Hl IH]; [done|].
  destruct (wf_elem c j Hw Hj) as (e & He & _). cbn [omap list_omap]. rewrite He.
  destruct (decide (now < expires e)).
  - rewrite !filter_cons_True; [|done|].
    + cbn [omap list_omap]. rewrite He. by f_equal.
    + intros [_ X]. unfold expired in X. rewrite He in X. lia.
  - rewrite !filter_cons_False; [apply IH|done|].
    intros X. apply X. split; [|unfold expired; rewrite He; lia].
    by apply elem_of_rev.
Qed.

(** ** The cache implements its recency list *)

(** [Get] acts on the recency list, whatever its outcome. *)
Lemma Get_refines (c : ExpiryCache) (k : K) (now : Z) :
  wf c ->
  exists c', Get c k now = Some (fst (spec_get (contents c) k now), c') /\
    wf c' /\ capacity c' = capacity c /\ contents c' = snd (spec_get (contents c) k now).
Proof.
  intros Hw. unfold Get, spec_get. rewrite spec_find_entries by done.
  destruct (entries c !! k) as [id|] eqn:E; cbn [mbind option_bind fst snd]; [|eauto].
  apply (wf_entries _ Hw) in E as (e & He & Hk). rewrite He.
  assert (Hin : id ∈ order c) by (apply (wf_values _ Hw); eauto).
  subst k. destruct (now <? expires e); cbn [fst snd].
  - eexists. split; [done|]. split; [by apply wf_move_to_front|]. split; [done|].
    by apply contents_move_to_front.
  - destruct (remove_spec c id e Hw He) as (c' & -> & ? & ? & ? & ? & ?).
    cbn [option_map]. eauto.
Qed.

(** [Set] acts on the recency list and stays within the capacity. *)
Lemma Set_refines (c : ExpiryCache) (k : K) (v : V) (exp : Z) :
  wf c ->
  exists c', Set_ c k v exp = Some c' /\ wf c' /\ capacity c' = capacity c /\
    contents c' = spec_set (capacity c) (contents c) (Entry k v exp) /\
    (Len c' <= capacity c)%nat.
Proof.
  intros Hw.
  enough (exists c', Set_ c k v exp = Some c' /\ wf c' /\ capacity c' = capacity c /\
    contents c' = spec_set (capacity c) (contents c) (Entry k v exp))
    as (c' & ? & Hw' & Hcap & ?).
  { exists c'. repeat (split; [done|]). unfold Len. rewrite size_entries by done.
    pose proof (wf_bound _ Hw'). lia. }
  unfold Set_, spec_set. rewrite spec_find_entries by done. cbn [key].
  destruct (entries c !! k) as [id|] eqn:E; cbn [mbind option_bind].
  - apply (wf_entries _ Hw) in E as (e & He & <-). rewrite He.
    pose proof (wf_update c id e (Entry (key e) v exp) Hw He eq_refl) as Hw1.
    eexists. split; [done|]. split; [|split; [done|]].
    + apply wf_move_to_front; [done|]. apply (wf_values _ Hw). eauto.
    + rewrite (contents_move_to_front _ id (Entry (key e) v exp)); [|done|].
      * f_equal. by apply (contents_update c id e (Entry (key e) v exp)).
      * cbn. by rewrite lookup_insert_eq.
  - rewrite size_entries by done. case_bool_decide as Hfull.
    + pose proof (wf_cap _ Hw). pose proof (wf_bound _ Hw).
      destruct (last (order c)) as [id|] eqn:HL;
        [|apply last_None in HL; rewrite HL in *; cbn in *; lia].
      apply last_Some in HL as [l Ho].
      destruct (wf_elem c id Hw) as (e & He & Hent); [rewrite Ho; set_solver|].
      destruct (remove_spec c id e Hw He) as (c1 & Hr & Hw1 & Ho1 & Hcap1 & Hv1 & Hc1).
      rewrite Hr. cbn [option_map]. eexists. split; [done|].
      assert (Hlen : length (contents c1) = (length (contents c) - 1)%nat).
      { rewrite Hc1, (spec_drop_last c id e l) by done. rewrite length_take. lia. }
      rewrite !length_contents in Hlen by done.
      split; [apply wf_push; [done| |lia]|].
      * rewrite (remove_entries c id e c1 He Hr).
        destruct (decide (key e = k)) as [<-|Hne]; [congruence|].
        by rewrite lookup_delete_ne.
      * split; [done|]. rewrite contents_push by done. f_equal.
        rewrite Hc1, (spec_drop_last c id e l) by done. f_equal.
        rewrite length_contents by done. lia.
    + eexists. split; [done|]. split; [apply wf_push; [done|done|lia]|]. split; [done|].
      rewrite contents_push by done. f_equal. rewrite firstn_all2; [done|].
      rewrite length_contents by done. lia.
Qed.

(** [Prune] drops exactly the expired entries. *)
Lemma Prune_refines (c : ExpiryCache) (now : Z) :
  wf c ->
  exists c', Prune c now = Some c' /\ wf c' /\ capacity c' = capacity c /\
    contents c' = spec_prune (contents c) now.
Proof.
  intros Hw. destruct (prune_from_spec now (rev (order c)) c) as (c' & Hp & Hw' & Hcap & Ho & Hv).
  - done.
  - apply NoDup_rev_iff, Hw.
  - intros j Hj. by apply elem_of_rev.
  - exists c'. do 3 (split; [done|]). unfold contents.
    rewrite <- (omap_filter_expired c now (order c)); [|apply order_in_order|done].
    rewrite <- Ho. assert (Hall : Forall (fun j => j ∈ order c') (order c')) by apply order_in_order.
    induction Hall as [|j l Hj Hl IH]; [done|]. cbn. rewrite Hv by done.
    by rewrite IH.
Qed.

(** ** Sequences of operations *)

Inductive op :=
| OGet (k : K) (now : Z)
| OSet (k : K) (v : V) (exp : Z)
| OPrune (now : Z).

(** What an operation returns and the cache after it; [None] is a panic. *)
Definition step (c : ExpiryCache) (o : op) : option (option V * ExpiryCache) :=
  match o with
  | OGet k now => Get c k now
  | OSet k v exp => option_map (pair None) (Set_ c k v exp)
  | OPrune now => option_map (pair None) (Prune c now)
  end.

Fixpoint run (c : ExpiryCache) (ops : list op) : option (list (option V) * ExpiryCache) :=
  match ops with
  | [] => Some ([], c)
  | o :: rest =>
      match step c o with
      | None => None
      | Some (r, c1) => option_map (fun '(rs, c2) => (r :: rs, c2)) (run c1 rest)
      end
  end.

Definition spec_step (cap : nat) (l : list expiryCacheEntry) (o : op)
    : option V * list expiryCacheEntry :=
  match o with
  | OGet k now => spec_get l k now
  | OSet k v exp => (None, spec_set cap l (Entry k v exp))
  | OPrune now => (None, spec_prune l now)
  end.

Fixpoint spec_run (cap : nat) (l : list expiryCacheEntry) (ops : list op)
    : list (option V) * list expiryCacheEntry :=
  match ops with
  | [] => ([], l)
  | o :: rest =>
      let '(r, l1) := spec_step cap l o in
      let '(rs, l2) := spec_run cap l1 rest in (r :: rs, l2)
  end.

Lemma step_refines c o : wf c ->
  exists c', step c o = Some (fst (spec_step (capacity c) (contents c) o), c') /\ wf c' /\
    capacity c' = capacity c /\ contents c' = snd (spec_step (capacity c) (contents c) o).
Proof.
  intros Hw. destruct o as [k now|k v exp|now]; cbn [step spec_step fst snd].
  - destruct (Get_refines c k now Hw) as (c' & ? & ? & ? & ?). eauto.
  - destruct (Set_refines c k v exp Hw) as (c' & -> & ? & ? & ? & _). exists c'. auto.
  - destruct (Prune_refines c now Hw) as (c' & -> & ? & ? & ?). exists c'. auto.
Qed.

Lemma run_refines c ops : wf c ->
  exists c', run c ops = Some (fst (spec_run (capacity c) (contents c) ops), c') /\ wf c' /\
    capacity c' = capacity c /\ contents c' = snd (spec_run (capacity c) (contents c) ops).
Proof.
  revert c. induction ops as [|o ops IH]; intros c Hw; cbn [run spec_run fst snd]; [eauto|].
  destruct (step_refines c o Hw) as (c1 & -> & Hw1 & Hcap & Hc).
  destruct (IH c1 Hw1) as (c2 & -> & Hw2 & Hcap2 & Hc2). rewrite Hcap, Hc in *.
  destruct (spec_step (capacity c) (contents c) o) as [r l1]. cbn [fst snd] in *.
  destruct (spec_run (capacity c) l1 ops) as [rs l2]. cbn [fst snd option_map] in *. eauto.
Qed.

(** Refinement of the expiry cache: any sequence of [Get], [Set] and
    [Prune] on a fresh cache runs without a panic and returns what the recency
    list returns (reads move an entry to the front without extending its life,
    a full cache evicts its least recently used entry, pruning drops exactly
    the expired ones); map and list agree at the end and hold at most
    [max 1 capacity] entries. *)
Theorem cache_trace_refines cap ops :
  exists c', run (NewExpiryCache cap) ops =
      Some (fst (spec_run (Z.to_nat (Z.max 1 cap)) [] ops), c') /\
    wf c' /\ contents c' = snd (spec_run (Z.to_nat (Z.max 1 cap)) [] ops) /\
    (Len c' <= Z.to_nat (Z.max 1 cap))%nat.
Proof.
  destruct (run_refines (NewExpiryCache cap) ops (wf_new cap)) as (c' & Hr & Hw & Hcap & Hc).
  exists c'. split; [exact Hr|]. split; [done|]. split; [exact Hc|].
  unfold Len. rewrite size_entries by done. pose proof (wf_bound _ Hw) as Hb.
  rewrite Hcap in Hb. exact Hb.
Qed.

(** The value and expiry most recently stored under a key. *)
Fixpoint last_set (ops : list op) (k : K) : option (V * Z) :=
  match ops with
  | [] => None
  | o :: rest =>
      match last_set rest k with
      | Some r => Some r
      | None => match o with
                | OSet k' v exp => if bool_decide (k' = k) then Some (v, exp) else None
                | _ => None
                end
      end
  end.

Definition latest (ops : list op) (l : list expiryCacheEntry) : Prop :=
  forall e, e ∈ l -> last_set ops (key e) = Some (value e, expires e).

Lemma last_set_snoc ops o k :
  last_set (ops ++ [o]) k =
    match o with
    | OSet k' v exp => if bool_decide (k' = k) then Some (v, exp) else last_set ops k
    | _ => last_set ops k
    end.
Proof.
  induction ops as [|o' ops IH]; cbn [app last_set].
  - by destruct o.
  - rewrite IH. destruct o; try done. by case_bool_decide.
Qed.

Lemma spec_find_elem k l e : spec_find k l = Some e -> e ∈ l /\ key e = k.
Proof.
  intros Hf. apply first_match_Some in Hf as (x & Hx & He). case_bool_decide; [|done]. by simplify_eq.
Qed.

Lemma spec_step_latest cap ops l o :
  latest ops l -> latest (ops ++ [o]) (snd (spec_step cap l o)).
Proof.
  intros Hl. unfold latest. setoid_rewrite last_set_snoc.
  destruct o as [k now|k v exp|now]; cbn [spec_step].
  - unfold spec_get. destruct (spec_find k l) as [e|] eqn:E; cbn [snd]; [|exact Hl].
    apply spec_find_elem in E as [He _].
    destruct (now <? expires e); cbn [snd]; intros x Hx; apply Hl;
      unfold spec_drop in Hx; rewrite ?elem_of_cons, ?list_elem_of_filter in Hx; naive_solver.
  - cbn [snd]. unfold spec_set. intros x. destruct (spec_find _ l) as [e|] eqn:E; cbn [key].
    + rewrite elem_of_cons. unfold spec_drop. rewrite list_elem_of_filter. cbn [key].
      intros [->|[Hne Hx]]; [by rewrite bool_decide_eq_true_2|].
      rewrite bool_decide_eq_false_2 by congruence. by apply Hl.
    + rewrite elem_of_cons. intros [->|Hx]; [by rewrite bool_decide_eq_true_2|].
      apply elem_of_take in Hx as (i & Hi & _). apply list_elem_of_lookup_2 in Hi as Hx.
      unfold spec_find in E. rewrite first_match_None, Forall_forall in E. specialize (E x Hx).
      cbn in E. case_bool_decide; [done|]. rewrite bool_decide_eq_false_2 by congruence. by apply Hl.
  - cbn [snd]. intros x Hx. apply list_elem_of_filter in Hx as [_ Hx]. by apply Hl.
Qed.

Lemma spec_run_latest cap ops : forall ops0 l,
  latest ops0 l -> latest (ops0 ++ ops) (snd (spec_run cap l ops)).
Proof.
  induction ops as [|o ops IH]; intros ops0 l Hl; cbn [spec_run]; [by rewrite app_nil_r|].
  apply (spec_step_latest cap _ _ o) in Hl.
  destruct (spec_step cap l o) as [r l1]. cbn [snd] in Hl.
  specialize (IH _ _ Hl). destruct (spec_run cap l1 ops) as [rs l2].
  cbn [snd] in *. by rewrite <- app_assoc in IH.
Qed.

(** A hit is fresh: whatever sequence of operations came before, when
    [Get] returns a value for a key, that value is the one most recently
    stored under the key and its expiry is still ahead. *)
Theorem cache_hit_is_last_set cap ops k now rs c v c' :
  run (NewExpiryCache cap) ops = Some (rs, c) ->
  Get c k now = Some (Some v, c') ->
  exists exp, last_set ops k = Some (v, exp) /\ now < exp.
Proof.
  destruct (run_refines (NewExpiryCache cap) ops (wf_new cap)) as (c0 & Hr & Hw & _ & Hc).
  rewrite Hr. intros [= _ <-] Hg. destruct (Get_refines c0 k now Hw) as (c2 & Hg2 & _).
  rewrite Hg2 in Hg. injection Hg as Hv _. unfold spec_get in Hv.
  destruct (spec_find k (contents c0)) as [e|] eqn:E; [|done].
  apply spec_find_elem in E as [He Hk]. destruct (now <? expires e) eqn:Ex; [|done].
  injection Hv as <-. breflect. exists (expires e). split; [|done]. rewrite <- Hk.
  assert (Hlat : latest [] (contents (NewExpiryCache cap))) by (intros x Hx; inversion Hx).
  apply (spec_run_latest (capacity (NewExpiryCache cap)) ops) in Hlat. rewrite Hc in He.
  by apply Hlat.
Qed.
End Cache.

Lemma cache_hit_is_last_set_witness :
  let ops := [OSet 1 10 100; OSet 2 20 100; OSet 1 11 50; OGet 2 5; OSet 3 30 100] in
  exists exp, last_set ops 2 = Some (20, exp) /\ 60 < exp.
Proof.
  intros ops. eapply (cache_hit_is_last_set (K:=Z) 2 ops 2 60); vm_compute; reflexivity.
Defined.
End ExpiryCache.
