(* ===== verification/Netip.v ===== *)
(** * IP addresses

    What the code uses of Go's [net/netip]: addresses, their parser and
    canonical printer, prefixes, and the total order on addresses.  An address
    is its 32-bit or 128-bit value; an IPv6 address may carry a zone.  The
    [net.ParseIP] used by the outbound guard goes through the same parser. *)

From S2P Require Import Prelude GoStrings.
From Stdlib Require Import Ascii.
Open Scope Z_scope.

Module Netip.

(** [netip.Addr]; the zero [Addr] is never produced by a successful parse. *)
Inductive Addr : Type :=
| Addr4 (v : Z)
| Addr6 (v : Z) (zone : string).

#[export] Instance Addr_eq_dec : EqDecision Addr.
Proof. solve_decision. Defined.

Definition BitLen (a : Addr) : Z :=
  match a with Addr4 _ => 32 | Addr6 _ _ => 128 end.

Definition value_of (a : Addr) : Z :=
  match a with Addr4 v => v | Addr6 v _ => v end.

Definition Zone (a : Addr) : string :=
  match a with Addr4 _ => EmptyString | Addr6 _ z => z end.

Definition valid (a : Addr) : Prop := 0 <= value_of a < 2 ^ BitLen a.

Definition Is4 (a : Addr) : bool := match a with Addr4 _ => true | _ => false end.

Definition Is4In6 (a : Addr) : bool :=
  match a with
  | Addr4 _ => false
  | Addr6 v _ => Z.shiftr v 32 =? 65535
  end.

Definition Unmap (a : Addr) : Addr :=
  match a with
  | Addr6 v _ => if Is4In6 a then Addr4 (v mod 2 ^ 32) else a
  | Addr4 _ => a
  end.

(** [Addr.Compare]: by bit length, then value, then zone. *)
Definition Compare (a b : Addr) : comparison :=
  match BitLen a ?= BitLen b with
  | Eq =>
      match value_of a ?= value_of b with
      | Eq => String.compare (Zone a) (Zone b)
      | c => c
      end
  | c => c
  end.

(** ** Parsing *)

Definition hex_val (c : ascii) : option Z :=
  if is_digit c then Some (code c - 48)
  else if (97 <=? code c) && (code c <=? 102) then Some (code c - 87)
  else if (65 <=? code c) && (code c <=? 70) then Some (code c - 55)
  else None.

(** [parseIPv4Fields]: the loop state is the previous byte, the fields already
    closed (most recent first), the current value and its digit count. *)
Fixpoint parse_ipv4_fields (prev : option ascii) (fields : list Z) (val : Z)
    (digLen : Z) (s : string) : option (list Z) :=
  match s with
  | EmptyString => if (length fields <? 3)%nat then None else Some (rev (val :: fields))
  | String c r =>
      if is_digit c then
        if (digLen =? 1) && (val =? 0) then None
        else
          let val' := val * 10 + (code c - 48) in
          if 255 <? val' then None
          else parse_ipv4_fields (Some c) fields val' (digLen + 1) r
      else if code c =? 46 then
        match prev, r with
        | None, _ | _, EmptyString => None
        | Some p, _ =>
            if code p =? 46 then None
            else if (length fields =? 3)%nat then None
            else parse_ipv4_fields (Some c) (val :: fields) 0 0 r
        end
      else None
  end.

Definition bytes_val (l : list Z) : Z := fold_left (fun acc b => acc * 256 + b) l 0.

Definition parseIPv4 (s : string) : option Addr :=
  option_map (fun l => Addr4 (bytes_val l)) (parse_ipv4_fields None [] 0 0 s).

(** The hex digits at the head of [s]: their count, value and what follows.
    [None] when a fifth digit is read. *)
Fixpoint parse_hex (off : Z) (acc : Z) (s : string) : option (Z * Z * string) :=
  match s with
  | String c r =>
      match hex_val c with
      | Some d => if 3 <? off then None else parse_hex (off + 1) (acc * 16 + d) r
      | None => Some (off, acc, s)
      end
  | EmptyString => Some (off, acc, s)
  end.

(** The state after the group loop: the bytes written so far and, if [::] was
    seen, how many bytes stood before it. *)
Definition expand_ellipsis (ip : list Z) (ellipsis : option nat) : option (list Z) :=
  if (length ip <? 16)%nat then
    match ellipsis with
    | None => None
    | Some e => Some (take e ip ++ replicate (16 - length ip) 0 ++ drop e ip)
    end
  else match ellipsis with Some _ => None | None => Some ip end.

(** The loop of [parseIPv6], entered with [i = length ip < 16]; every pass
    writes two or four bytes, so [fuel] 8 is enough. *)
Fixpoint parse_ipv6_loop (fuel : nat) (ip : list Z) (ellipsis : option nat)
    (s : string) : option (list Z) :=
  match fuel with
  | O => match s with EmptyString => expand_ellipsis ip ellipsis | _ => None end
  | S fuel' =>
      if (16 <=? length ip)%nat then
        match s with EmptyString => expand_ellipsis ip ellipsis | _ => None end
      else
        match parse_hex 0 0 s with
        | None => None
        | Some (off, acc, rest) =>
            if off =? 0 then None
            else if match rest with String c _ => code c =? 46 | EmptyString => false end then
              (* a trailing embedded IPv4 address *)
              if match ellipsis with None => negb (length ip =? 12)%nat | Some _ => false end
              then None
              else if (16 <? length ip + 4)%nat then None
              else
                match parse_ipv4_fields None [] 0 0 s with
                | None => None
                | Some l => expand_ellipsis (ip ++ l) ellipsis
                end
            else
              let ip' := ip ++ [acc / 256; acc mod 256] in
              match rest with
              | EmptyString => expand_ellipsis ip' ellipsis
              | String c EmptyString => None
              | String c r =>
                  if negb (code c =? 58) then None
                  else
                    match r with
                    | String d r' =>
                        if code d =? 58 then
                          match ellipsis with
                          | Some _ => None
                          | None =>
                              match r' with
                              | EmptyString => expand_ellipsis ip' (Some (length ip'))
                              | _ => parse_ipv6_loop fuel' ip' (Some (length ip')) r'
                              end
                          end
                        else parse_ipv6_loop fuel' ip' ellipsis r
                    | EmptyString => None
                    end
              end
        end
  end.

Definition parseIPv6 (s : string) : option Addr :=
  let go (s zone : string) :=
    let finish o := option_map (fun l => Addr6 (bytes_val l) zone) o in
    match s with
    | String a (String b r) =>
        if (code a =? 58) && (code b =? 58) then
          match r with
          | EmptyString => Some (Addr6 0 zone)
          | _ => finish (parse_ipv6_loop 8 [] (Some 0%nat) r)
          end
        else finish (parse_ipv6_loop 8 [] None s)
    | _ => finish (parse_ipv6_loop 8 [] None s)
    end in
  match index_byte "%"%char s with
  | Some i =>
      match sdrop (S i) s with
      | EmptyString => None
      | zone => go (stake i s) zone
      end
  | None => go s EmptyString
  end.

Fixpoint ParseAddr_scan (s whole : string) : option Addr :=
  match s with
  | EmptyString => None
  | String c r =>
      if code c =? 46 then parseIPv4 whole
      else if code c =? 58 then parseIPv6 whole
      else if code c =? 37 then None
      else ParseAddr_scan r whole
  end.

Definition ParseAddr (s : string) : option Addr := ParseAddr_scan s s.

(** [net.ParseIP]: the 16-byte form, zones refused. *)
Definition ParseIP (s : string) : option Addr :=
  match ParseAddr s with
  | Some (Addr4 v) => Some (Addr6 (65535 * 2 ^ 32 + v) EmptyString)
  | Some (Addr6 v EmptyString) => Some (Addr6 v EmptyString)
  | _ => None
  end.

(** ** Printing *)

Definition byte_at (v : Z) (shift : Z) : Z := Z.shiftr v shift mod 256.

Definition string4 (v : Z) : string :=
  join "." [itoa (byte_at v 24); itoa (byte_at v 16); itoa (byte_at v 8); itoa (byte_at v 0)].

Definition hex_digit (d : Z) : ascii := if d <? 10 then chr (48 + d) else chr (87 + d).

(** [appendHex]: lower case, no leading zeros. *)
Definition hex16 (x : Z) : string :=
  let d3 := x / 4096 mod 16 in
  let d2 := x / 256 mod 16 in
  let d1 := x / 16 mod 16 in
  let d0 := x mod 16 in
  (if 4096 <=? x then String (hex_digit d3) EmptyString else EmptyString) +:+
  (if 256 <=? x then String (hex_digit d2) EmptyString else EmptyString) +:+
  (if 16 <=? x then String (hex_digit d1) EmptyString else EmptyString) +:+
  String (hex_digit d0) EmptyString.

Definition v6u16 (v : Z) (i : nat) : Z := Z.shiftr v (112 - 16 * Z.of_nat i) mod 65536.

(** Length of the run of zero groups that starts at [i]. *)
Fixpoint zero_run (fuel : nat) (v : Z) (i : nat) : nat :=
  match fuel with
  | O => O
  | S fuel' => if (i <? 8)%nat && (v6u16 v i =? 0) then S (zero_run fuel' v (S i)) else O
  end.

(** The longest run of at least two zero groups, leftmost first. *)
Definition longest_zero_run (v : Z) : option (nat * nat) :=
  fold_left
    (fun best i =>
       let l := zero_run 8 v i in
       if (2 <=? l)%nat &&
          match best with None => true | Some (s, e) => (e - s <? l)%nat end
       then Some (i, i + l)%nat else best)
    (seq 0 8) None.

Fixpoint print_groups (fuel : nat) (v : Z) (run : option (nat * nat)) (i : nat) : string :=
  match fuel with
  | O => EmptyString
  | S fuel' =>
      if (8 <=? i)%nat then EmptyString
      else
        match run with
        | Some (s, e) =>
            if (i =? s)%nat then
              "::" +:+ (if (8 <=? e)%nat then EmptyString
                        else hex16 (v6u16 v e) +:+ print_groups fuel' v run (S e))
            else (if (0 <? i)%nat then ":" else "") +:+ hex16 (v6u16 v i) +:+
                 print_groups fuel' v run (S i)
        | None => (if (0 <? i)%nat then ":" else "") +:+ hex16 (v6u16 v i) +:+
                  print_groups fuel' v run (S i)
        end
  end.

Definition zone_suffix (z : string) : string :=
  match z with EmptyString => EmptyString | _ => "%" +:+ z end.

(** [Addr.String] *)
Definition to_string (a : Addr) : string :=
  match a with
  | Addr4 v => string4 v
  | Addr6 v z =>
      (if Is4In6 a then "::ffff:" +:+ string4 (v mod 2 ^ 32)
       else print_groups 9 v (longest_zero_run v) 0) +:+ zone_suffix z
  end.

(** ** Prefixes *)

Record Prefix := MkPrefix { paddr : Addr; pbits : Z }.

Definition ParsePrefix (s : string) : option Prefix :=
  match last_index_byte "/"%char s with
  | None => None
  | Some i =>
      match ParseAddr (stake i s) with
      | None => None
      | Some ip =>
          if match ip with Addr6 _ (String _ _) => true | _ => false end then None
          else
            let bitsStr := sdrop (S i) s in
            if match bitsStr with
               | String c (String _ _) => (code c <? 49) || (57 <? code c)
               | _ => false
               end
            then None
            else
              match parse_int bitsStr with
              | None => None
              | Some bits =>
                  if (bits <? 0) || (BitLen ip <? bits) then None
                  else Some (MkPrefix ip bits)
              end
      end
  end.

(** The value of [a] with all but the first [bits] bits cleared. *)
Definition mask (a : Addr) (bits : Z) : Z :=
  let sh := BitLen a - bits in Z.shiftl (Z.shiftr (value_of a) sh) sh.

Definition Masked (p : Prefix) : Prefix :=
  MkPrefix
    match paddr p with
    | Addr4 _ => Addr4 (mask (paddr p) (pbits p))
    | Addr6 _ _ => Addr6 (mask (paddr p) (pbits p)) EmptyString
    end
    (pbits p).

Definition prefix_string (p : Prefix) : string :=
  to_string (paddr p) +:+ "/" +:+ itoa (pbits p).

(** [Prefix.Contains]: never for an address with a zone or of the other
    family. *)
Definition Contains (p : Prefix) (a : Addr) : bool :=
  match Zone a with
  | String _ _ => false
  | EmptyString =>
      (BitLen (paddr p) =? BitLen a) &&
      (Z.shiftr (value_of (paddr p)) (BitLen a - pbits p) =?
       Z.shiftr (value_of a) (BitLen a - pbits p))
  end.

Definition prefix_ok (p : Prefix) : Prop :=
  valid (paddr p) /\ 0 <= pbits p <= BitLen (paddr p) /\ Zone (paddr p) = EmptyString.

(** ** Examples: the printer and the parser on concrete addresses *)

Example parse_v4 : ParseAddr "203.0.113.7" = Some (Addr4 3405803783).
Proof. reflexivity. Qed.

Example parse_v4_leading_zero : ParseAddr "203.00.113.7" = None.
Proof. reflexivity. Qed.

Example print_v6 : option_map to_string (ParseAddr "2001:DB8:0:0:1::1") = Some "2001:db8::1:0:0:1".
Proof. vm_compute. reflexivity. Qed.

Example print_v6_longest : option_map to_string (ParseAddr "2001:0:0:1:0:0:0:9") = Some "2001:0:0:1::9".
Proof. vm_compute. reflexivity. Qed.

Example print_v4_mapped :
  option_map to_string (ParseAddr "::ffff:10.1.2.3") = Some "::ffff:10.1.2.3".
Proof. vm_compute. reflexivity. Qed.

Example parse_loopback6 : ParseAddr "::1" = Some (Addr6 1 EmptyString).
Proof. reflexivity. Qed.

Example parse_zone : ParseAddr "fe80::1%eth0" = Some (Addr6 (65152 * 2 ^ 112 + 1) "eth0").
Proof. vm_compute. reflexivity. Qed.
End Netip.
