(* ===== verification/NetipFacts.v ===== *)
(** * Facts about IP addresses

    Printing an address and parsing the text back gives the address, for both
    families; the order on zone-free addresses is the order of their keys; a
    prefix is an interval of keys. *)

From S2P Require Import Prelude GoStrings Netip.
From Stdlib Require Import Ascii.
Open Scope Z_scope.

Module NetipFacts.
Import Netip.

(** The bytes of a 16-bit group, and of a list of groups. *)
Definition group_bytes (x : Z) : list Z := [x / 256; x mod 256].

Definition groups_bytes (l : list Z) : list Z := concat (map group_bytes l).

Definition groups_of (v : Z) : list Z := map (v6u16 v) (seq 0 8).

Definition colon_join (l : list Z) : string := join ":" (map hex16 l).

(** A position of a zone-free address on one line: IPv4 before IPv6. *)
Definition addr_key (a : Addr) : Z :=
  match a with Addr4 v => v | Addr6 v _ => 2 ^ 32 + v end.

Definition hex_or_colon (c : ascii) : bool :=
  match hex_val c with Some _ => true | None => code c =? 58 end.

(** ** Hexadecimal groups *)

Lemma hex_val_digit d : 0 <= d < 16 -> hex_val (hex_digit d) = Some d.
Proof.
  intros Hd. unfold hex_val, hex_digit. destruct (d <? 10) eqn:E; breflect.
  - rewrite is_digit_chr, code_chr by lia. f_equal. lia.
  - unfold is_digit. rewrite code_chr by lia.
    rewrite (proj2 (Z.leb_gt (87 + d) 57)), andb_false_r by lia.
    rewrite (proj2 (Z.leb_le 97 (87 + d))), (proj2 (Z.leb_le (87 + d) 102)) by lia.
    cbn. f_equal. lia.
Qed.

Definition no_hex_head (s : string) : Prop :=
  match s with EmptyString => True | String c _ => hex_val c = None end.

Lemma parse_hex_stop off acc s : no_hex_head s -> parse_hex off acc s = Some (off, acc, s).
Proof. destruct s as [|c s]; cbn; [done|]. by intros ->. Qed.

Lemma parse_hex_digit off acc d s : 0 <= d < 16 -> off <= 3 ->
  parse_hex off acc (String (hex_digit d) s) = parse_hex (off + 1) (acc * 16 + d) s.
Proof.
  intros Hd Ho. cbn [parse_hex]. rewrite hex_val_digit by done.
  by rewrite (proj2 (Z.ltb_ge 3 off)) by lia.
Qed.

Lemma parse_hex_hex16 x s : 0 <= x < 65536 -> no_hex_head s ->
  exists off, 0 < off /\ parse_hex 0 0 (hex16 x +:+ s) = Some (off, x, s).
Proof.
  intros Hx Hs. unfold hex16.
  assert (D : forall y, 0 <= y mod 16 < 16) by (intros; apply Z.mod_pos_bound; lia).
  destruct (4096 <=? x) eqn:E3; destruct (256 <=? x) eqn:E2; destruct (16 <=? x) eqn:E1;
    breflect; try lia;
    rewrite ?str_app_nil_l, ?str_app_cons, ?str_app_nil_l, ?str_app_cons, ?str_app_nil_l,
      ?str_app_cons, ?str_app_nil_l, ?str_app_cons, ?str_app_nil_l;
    repeat rewrite parse_hex_digit by (auto; lia);
    rewrite parse_hex_stop by done;
    eexists; (split; [|do 2 f_equal; f_equal; Z.to_euclidean_division_equations; lia]); lia.
Qed.

Lemma hex16_cons x : exists d r, hex16 x = String (hex_digit d) r /\ 0 <= d < 16.
Proof.
  unfold hex16. assert (D : forall y, 0 <= y mod 16 < 16) by (intros; apply Z.mod_pos_bound; lia).
  destruct (4096 <=? x), (256 <=? x), (16 <=? x); rewrite ?str_app_nil_l, ?str_app_cons, ?str_app_nil_l, ?str_app_cons, ?str_app_nil_l; eauto.
Qed.

Lemma hex_digit_not d z : 0 <= d < 16 -> hex_val (chr z) = None -> 0 <= z < 256 ->
  (code (hex_digit d) =? z) = false.
Proof.
  intros Hd Hz Hr. apply Z.eqb_neq. intros Heq.
  rewrite <- Heq, chr_code, hex_val_digit in Hz by done. done.
Qed.

(** ** The IPv6 group loop *)

Ltac side := first [done | lia | exact I | cbn in *; first [done | lia | discriminate]].

Lemma parse_group fuel ip ell x r :
  (length ip < 16)%nat -> 0 <= x < 65536 -> no_hex_head r ->
  match r with String c _ => code c <> 46 | _ => True end ->
  parse_ipv6_loop (S fuel) ip ell (hex16 x +:+ r) =
  let ip' := ip ++ group_bytes x in
  match r with
  | EmptyString => expand_ellipsis ip' ell
  | String c EmptyString => None
  | String c r =>
      if negb (code c =? 58) then None
      else
        match r with
        | String d r' =>
            if code d =? 58 then
              match ell with
              | Some _ => None
              | None =>
                  match r' with
                  | EmptyString => expand_ellipsis ip' (Some (length ip'))
                  | _ => parse_ipv6_loop fuel ip' (Some (length ip')) r'
                  end
              end
            else parse_ipv6_loop fuel ip' ell r
        | EmptyString => None
        end
  end.
Proof.
  intros Hip Hx Hr Hdot. cbn [parse_ipv6_loop].
  rewrite (proj2 (Nat.leb_gt 16 (length ip))) by lia.
  destruct (parse_hex_hex16 x r Hx Hr) as (off & Hoff & ->).
  rewrite (proj2 (Z.eqb_neq off 0)) by lia.
  destruct r as [|c r]; [done|]. by rewrite (proj2 (Z.eqb_neq (code c) 46)) by done.
Qed.

Lemma groups_bytes_cons x l : groups_bytes (x :: l) = group_bytes x ++ groups_bytes l.
Proof. reflexivity. Qed.

Lemma length_groups_bytes l : length (groups_bytes l) = (2 * length l)%nat.
Proof. induction l as [|x l IH]; [done|]. rewrite groups_bytes_cons, length_app, IH. cbn. lia. Qed.

Lemma colon_join_cons x y l : colon_join (x :: y :: l) = hex16 x +:+ String ":" (colon_join (y :: l)).
Proof. reflexivity. Qed.

Lemma colon_join_head x l : exists d r, colon_join (x :: l) = String (hex_digit d) r /\ 0 <= d < 16.
Proof.
  destruct (hex16_cons x) as (d & r & Hx & Hd). destruct l as [|y l].
  - exists d, r. done.
  - exists d, (r +:+ String ":" (colon_join (y :: l))). by rewrite colon_join_cons, Hx.
Qed.

Lemma parse_colon_join l : forall fuel ip ell,
  l <> [] -> Forall (fun x => 0 <= x < 65536) l ->
  (length l <= fuel)%nat -> (length ip + 2 * length l <= 16)%nat ->
  parse_ipv6_loop fuel ip ell (colon_join l) = expand_ellipsis (ip ++ groups_bytes l) ell.
Proof.
  induction l as [|x l IH]; intros fuel ip ell Hne Hall Hfuel Hlen; [done|].
  apply Forall_cons in Hall as [Hx Hall].
  destruct fuel as [|fuel]; cbn [length] in *; [lia|].
  destruct l as [|y l].
  - change (colon_join [x]) with (hex16 x). rewrite <- (str_app_nil_r (hex16 x)).
    rewrite parse_group by side. done.
  - rewrite colon_join_cons, parse_group by side.
    destruct (colon_join_head y l) as (d & r & Hy & Hd). rewrite Hy. cbn zeta.
    change (code ":" =? 58) with true. cbn [negb].
    rewrite hex_digit_not by side. rewrite <- Hy, IH; [|done|done|cbn in *; lia|].
    + by rewrite <- app_assoc.
    + rewrite length_app. cbn in *. lia.
Qed.

Lemma parse_colon_join_ellipsis l r : forall fuel ip,
  l <> [] -> Forall (fun x => 0 <= x < 65536) l -> Forall (fun x => 0 <= x < 65536) r ->
  (length l + length r <= fuel)%nat -> (length ip + 2 * (length l + length r) <= 16)%nat ->
  parse_ipv6_loop fuel ip None (colon_join l +:+ "::" +:+ colon_join r) =
  expand_ellipsis ((ip ++ groups_bytes l) ++ groups_bytes r)
    (Some (length (ip ++ groups_bytes l))).
Proof.
  induction l as [|x l IH]; intros fuel ip Hne Hl Hr Hfuel Hlen; [done|].
  apply Forall_cons in Hl as [Hx Hl].
  destruct fuel as [|fuel]; cbn [length] in *; [lia|].
  destruct l as [|y l].
  - change (colon_join [x]) with (hex16 x). rewrite parse_group by side.
    change ("::" +:+ colon_join r) with (String ":" (String ":" (colon_join r))).
    cbn zeta. change (code ":" =? 58) with true. cbn [negb].
    change (groups_bytes [x]) with (group_bytes x).
    destruct r as [|y r]; [by rewrite app_nil_r|].
    destruct (colon_join_head y r) as (d & s & Hy & _). rewrite Hy, <- Hy.
    apply parse_colon_join; [done|done|lia|]. rewrite length_app. cbn [length group_bytes] in *. lia.
  - rewrite colon_join_cons, str_app_assoc, str_app_cons, parse_group by side.
    destruct (colon_join_head y l) as (d & s & Hy & Hd). rewrite Hy, str_app_cons. cbn zeta.
    change (code ":" =? 58) with true. cbn [negb].
    rewrite hex_digit_not by side. rewrite <- str_app_cons, <- Hy.
    rewrite IH; [|done|done|done|cbn in *; lia|rewrite length_app; cbn in *; lia].
    by rewrite (groups_bytes_cons x (y :: l)), !app_assoc.
Qed.

(** ** Printing *)

Lemma v6u16_range v i : 0 <= v6u16 v i < 65536.
Proof. apply Z.mod_pos_bound. lia. Qed.

Lemma zero_run_spec v fuel i j :
  (i <= j < i + zero_run fuel v i)%nat -> (j < 8)%nat /\ v6u16 v j = 0.
Proof.
  revert i. induction fuel as [|fuel IH]; intros i Hj; cbn [zero_run] in Hj; [lia|].
  destruct ((i <? 8)%nat && (v6u16 v i =? 0)) eqn:E; [|lia]. breflect.
  destruct (decide (i = j)) as [<-|]; [done|]. apply (IH (S i)). lia.
Qed.

Lemma longest_zero_run_spec v s e :
  longest_zero_run v = Some (s, e) ->
  (s < e <= 8)%nat /\ forall j, (s <= j < e)%nat -> v6u16 v j = 0.
Proof.
  unfold longest_zero_run.
  set (P := fun best : option (nat * nat) =>
    forall s e, best = Some (s, e) ->
      (s < e <= 8)%nat /\ forall j, (s <= j < e)%nat -> v6u16 v j = 0).
  enough (forall l best, P best -> P (fold_left (fun best i =>
       let l := zero_run 8 v i in
       if (2 <=? l)%nat &&
          match best with None => true | Some (s, e) => (e - s <? l)%nat end
       then Some (i, i + l)%nat else best) l best)) as HP.
  { intros H. eapply HP; [|exact H]. by intros ? ? [=]. }
  induction l as [|i l IH]; intros best Hb; [done|]. cbn [fold_left]. apply IH.
  cbn zeta. pose proof (zero_run_spec v 8 i) as Hz.
  generalize dependent (zero_run 8 v i). intros len Hz.
  destruct ((2 <=? len)%nat && _) eqn:E; [|done].
  intros s' e' [= <- <-]. apply andb_true_iff in E as [E _]. breflect. split.
  - destruct (Hz (i + len - 1)%nat); lia.
  - intros j Hj. by apply Hz.
Qed.

Lemma print_groups_none v : print_groups 9 v None 0 = colon_join (groups_of v).
Proof.
  unfold groups_of, colon_join. cbn -[hex16 v6u16].
  by rewrite ?str_app_nil_l, ?str_app_cons, ?str_app_nil_l, ?str_app_nil_r.
Qed.

(** With a run [[s, e)], the groups before it, [::], and the groups after it. *)
Lemma print_groups_some v s e : (s < e <= 8)%nat ->
  print_groups 9 v (Some (s, e)) 0 =
  colon_join (map (v6u16 v) (seq 0 s)) +:+ "::" +:+ colon_join (map (v6u16 v) (seq e (8 - e))).
Proof.
  intros He.
  assert (s = 0 \/ s = 1 \/ s = 2 \/ s = 3 \/ s = 4 \/ s = 5 \/ s = 6 \/ s = 7)%nat as Hs by lia.
  assert (e = 1 \/ e = 2 \/ e = 3 \/ e = 4 \/ e = 5 \/ e = 6 \/ e = 7 \/ e = 8)%nat as Hee by lia.
  destruct_or!; subst; try lia;
    cbn -[hex16 v6u16]; rewrite ?str_app_assoc, ?str_app_nil_l, ?str_app_cons, ?str_app_nil_l, ?str_app_nil_r; reflexivity.
Qed.
(** ** Values *)

Lemma fold_group_bytes acc l :
  fold_left (fun a b => a * 256 + b) (groups_bytes l) acc =
  fold_left (fun a g => a * 65536 + g) l acc.
Proof.
  revert acc. induction l as [|x l IH]; intros acc; [done|].
  rewrite groups_bytes_cons, fold_left_app, IH. cbn. f_equal.
  pose proof (Z.div_mod x 256). lia.
Qed.

Lemma v6u16_step v i : (i < 8)%nat ->
  Z.shiftr v (128 - 16 * Z.of_nat i) * 65536 + v6u16 v i = Z.shiftr v (128 - 16 * Z.of_nat (S i)).
Proof.
  intros Hi. unfold v6u16.
  replace (128 - 16 * Z.of_nat (S i)) with (112 - 16 * Z.of_nat i) by lia.
  set (k := 112 - 16 * Z.of_nat i). assert (0 <= k) by (subst k; lia).
  replace (128 - 16 * Z.of_nat i) with (k + 16) by (subst k; lia).
  rewrite <- Z.shiftr_shiftr by lia. rewrite (Z.shiftr_div_pow2 _ 16) by lia.
  pose proof (Z.div_mod (Z.shiftr v k) 65536). change (2 ^ 16) with 65536. lia.
Qed.

Lemma fold_v6u16 v k : (k <= 8)%nat ->
  fold_left (fun a g => a * 65536 + g) (map (v6u16 v) (seq (8 - k) k))
    (Z.shiftr v (128 - 16 * Z.of_nat (8 - k))) = v.
Proof.
  induction k as [|k IH]; intros Hk; [apply Z.shiftr_0_r|].
  cbn [seq map fold_left]. rewrite v6u16_step by lia.
  replace (S (8 - S k)) with (8 - k)%nat by lia. apply IH. lia.
Qed.

Lemma groups_of_value v : 0 <= v < 2 ^ 128 -> bytes_val (groups_bytes (groups_of v)) = v.
Proof.
  intros Hv. unfold bytes_val. rewrite fold_group_bytes.
  pose proof (fold_v6u16 v 8 ltac:(lia)) as H.
  assert (H0 : Z.shiftr v (128 - 16 * Z.of_nat (8 - 8)) = 0)
    by (rewrite Z.shiftr_div_pow2 by lia; apply Z.div_small; exact Hv).
  rewrite H0 in H. exact H.
Qed.

Lemma groups_bytes_app l r : groups_bytes (l ++ r) = groups_bytes l ++ groups_bytes r.
Proof. unfold groups_bytes. by rewrite map_app, concat_app. Qed.

Lemma groups_bytes_zeros n (f : nat -> Z) l :
  length l = n -> (forall j, j ∈ l -> f j = 0) ->
  groups_bytes (map f l) = replicate (2 * n) 0.
Proof.
  intros <- Hl. induction l as [|x l IH]; [done|].
  cbn [map]. rewrite groups_bytes_cons, Hl, IH by set_solver.
  cbn [length]. by replace (2 * S (length l))%nat with (S (S (2 * length l))) by lia.
Qed.

Lemma groups_in_range v s : Forall (fun x => 0 <= x < 65536) (map (v6u16 v) s).
Proof. apply Forall_map, Forall_forall. intros. apply v6u16_range. Qed.

(** ** Round trips *)

(** The characters of a printed address without a zone. *)
Definition addr_char (c : ascii) : Prop :=
  code c = 46 \/ 48 <= code c <= 58 \/ 97 <= code c <= 102.

Lemma addr_char_not_percent s : Forall addr_char s -> Forall (fun c => c <> "%"%char) s.
Proof. intros Hs. eapply Forall_impl; [exact Hs|]. intros c Hc ->. unfold addr_char, code in Hc. cbn in Hc. lia. Qed.

Lemma hex_digit_addr_char d : 0 <= d < 16 -> addr_char (hex_digit d).
Proof.
  intros Hd. unfold addr_char, hex_digit. destruct (d <? 10) eqn:E; breflect; rewrite code_chr; lia.
Qed.

Lemma hex16_addr_char x : Forall addr_char (bytes (hex16 x)).
Proof.
  assert (D : forall y, 0 <= y mod 16 < 16) by (intros; apply Z.mod_pos_bound; lia).
  unfold hex16. rewrite !bytes_app.
  repeat (apply Forall_app; split); try (case_match; cbn);
    forall_list; by apply hex_digit_addr_char.
Qed.

Lemma colon_join_addr_char l : Forall addr_char (bytes (colon_join l)).
Proof.
  induction l as [|x [|y l] IH].
  - constructor.
  - apply hex16_addr_char.
  - rewrite colon_join_cons, bytes_app. apply Forall_app. split; [apply hex16_addr_char|].
    cbn [bytes]. apply Forall_cons. split; [unfold addr_char, code; cbn; lia | apply IH].
Qed.

Lemma colon_join_no_percent l : Forall (fun c => c <> "%"%char) (bytes (colon_join l)).
Proof. apply addr_char_not_percent, colon_join_addr_char. Qed.

Lemma scan_hex16 x r w : 0 <= x < 65536 ->
  ParseAddr_scan (hex16 x +:+ String ":" r) w = parseIPv6 w.
Proof.
  intros Hx. assert (D : forall y, 0 <= y mod 16 < 16) by (intros; apply Z.mod_pos_bound; lia).
  assert (St : forall d s, 0 <= d < 16 -> ParseAddr_scan (String (hex_digit d) s) w = ParseAddr_scan s w).
  { intros d s Hd. cbn [ParseAddr_scan]. by rewrite !hex_digit_not by side. }
  unfold hex16.
  destruct (4096 <=? x), (256 <=? x), (16 <=? x);
    rewrite ?str_app_nil_l, ?str_app_cons, ?str_app_nil_l, ?str_app_cons, ?str_app_nil_l,
      ?str_app_cons, ?str_app_nil_l, ?str_app_cons, ?str_app_nil_l;
    rewrite !St by auto; reflexivity.
Qed.

(** What [parseIPv6] does on a text without a zone that starts with a group. *)
Lemma parseIPv6_group x r : Forall (fun c => c <> "%"%char) (bytes (hex16 x +:+ r)) ->
  parseIPv6 (hex16 x +:+ r) =
  option_map (fun l => Addr6 (bytes_val l) "") (parse_ipv6_loop 8 [] None (hex16 x +:+ r)).
Proof.
  intros Hp. unfold parseIPv6. apply index_byte_None in Hp. rewrite Hp.
  destruct (hex16_cons x) as (d & s & Hx & Hd). rewrite Hx, str_app_cons.
  destruct (s +:+ r) as [|b q]; [done|]. by rewrite hex_digit_not by side.
Qed.

Lemma parseIPv6_leading r : r <> "" -> Forall (fun c => c <> "%"%char) (bytes r) ->
  parseIPv6 ("::" +:+ r) =
  option_map (fun l => Addr6 (bytes_val l) "") (parse_ipv6_loop 8 [] (Some 0%nat) r).
Proof.
  intros Hr Hp. unfold parseIPv6. apply index_byte_None in Hp.
  change ("::" +:+ r) with (String ":" (String ":" r)).
  cbn [index_byte]. rewrite Hp, !bool_decide_eq_false_2 by done. cbn -[parse_ipv6_loop].
  by destruct r.
Qed.

Lemma parse_print_none v : 0 <= v < 2 ^ 128 ->
  ParseAddr (colon_join (groups_of v)) = Some (Addr6 v "").
Proof.
  intros Hv. unfold ParseAddr.
  pose proof (colon_join_no_percent (groups_of v)) as Hp.
  assert (Hl : parse_ipv6_loop 8 [] None (colon_join (groups_of v)) = Some (groups_bytes (groups_of v))).
  { rewrite parse_colon_join; [done|done|apply groups_in_range|cbn; lia|cbn; lia]. }
  change (groups_of v) with (v6u16 v 0 :: v6u16 v 1 :: map (v6u16 v) (seq 2 6)) in Hp, Hl |- *.
  rewrite colon_join_cons in Hp, Hl |- *.
  rewrite scan_hex16 by apply v6u16_range. rewrite parseIPv6_group by exact Hp. rewrite Hl.
  cbn [option_map]. do 2 f_equal. exact (groups_of_value v Hv).
Qed.

Lemma expand_run v s e : 0 <= v < 2 ^ 128 -> (s < e <= 8)%nat ->
  (forall j, (s <= j < e)%nat -> v6u16 v j = 0) ->
  option_map (fun l => Addr6 (bytes_val l) "")
    (expand_ellipsis
       (groups_bytes (map (v6u16 v) (seq 0 s)) ++ groups_bytes (map (v6u16 v) (seq e (8 - e))))
       (Some (length (groups_bytes (map (v6u16 v) (seq 0 s)))))) = Some (Addr6 v "").
Proof.
  intros Hv He Hz. unfold expand_ellipsis.
  set (L := groups_bytes (map (v6u16 v) (seq 0 s))). set (R := groups_bytes _).
  assert (HL : length L = (2 * s)%nat) by (unfold L; by rewrite length_groups_bytes, length_map, length_seq).
  assert (HR : length R = (2 * (8 - e))%nat) by (unfold R; by rewrite length_groups_bytes, length_map, length_seq).
  rewrite (proj2 (Nat.ltb_lt _ _)) by (rewrite length_app; lia).
  rewrite take_app_length, drop_app_length, length_app, HL, HR.
  replace (16 - (2 * s + 2 * (8 - e)))%nat with (2 * (e - s))%nat by lia.
  rewrite <- (groups_bytes_zeros (e - s) (v6u16 v) (seq s (e - s))).
  2: by rewrite length_seq.
  2: { intros j Hj. apply elem_of_seq in Hj. apply Hz. lia. }
  subst L R. rewrite <- !groups_bytes_app, <- !map_app. cbn [option_map].
  replace (seq 0 s ++ seq s (e - s) ++ seq e (8 - e)) with (seq 0 8).
  { do 2 f_equal. by apply groups_of_value. }
  rewrite (app_assoc (seq 0 s)). change (seq s (e - s)) with (seq (0 + s) (e - s)).
  rewrite <- seq_app. replace (s + (e - s))%nat with e by lia.
  change (seq e (8 - e)) with (seq (0 + e) (8 - e)). rewrite <- seq_app.
  f_equal. lia.
Qed.

Lemma parse_print_some v s e : 0 <= v < 2 ^ 128 -> (s < e <= 8)%nat ->
  (forall j, (s <= j < e)%nat -> v6u16 v j = 0) ->
  ParseAddr (colon_join (map (v6u16 v) (seq 0 s)) +:+ "::" +:+
             colon_join (map (v6u16 v) (seq e (8 - e)))) = Some (Addr6 v "").
Proof.
  intros Hv He Hz. pose proof (expand_run v s e Hv He Hz) as Hx. unfold ParseAddr.
  pose proof (colon_join_no_percent (map (v6u16 v) (seq e (8 - e)))) as HpR.
  pose proof (colon_join_no_percent (map (v6u16 v) (seq 0 s))) as HpL.
  destruct s as [|s].
  - change (colon_join (map (v6u16 v) (seq 0 0))) with "". rewrite str_app_nil_l.
    change (ParseAddr_scan ("::" +:+ ?r) ?w) with (parseIPv6 w).
    cbn [seq map groups_bytes concat length app] in Hx.
    destruct (8 - e)%nat as [|k] eqn:Ek.
    + cbn [seq map groups_bytes concat] in Hx |- *. rewrite <- Hx. reflexivity.
    + cbn [seq map] in HpR, Hx |- *.
      rewrite parseIPv6_leading; [|by destruct (colon_join_head (v6u16 v e) (map (v6u16 v) (seq (S e) k))) as (? & ? & -> & _)|done].
      rewrite parse_colon_join; [exact Hx|done|exact (groups_in_range v (seq e (S k)))| |];
        cbn [length]; rewrite length_map, length_seq; cbn; lia.
  - assert (Hl : parse_ipv6_loop 8 [] None
        (colon_join (map (v6u16 v) (seq 0 (S s))) +:+ "::" +:+ colon_join (map (v6u16 v) (seq e (8 - e)))) =
        expand_ellipsis (groups_bytes (map (v6u16 v) (seq 0 (S s))) ++ groups_bytes (map (v6u16 v) (seq e (8 - e))))
          (Some (length (groups_bytes (map (v6u16 v) (seq 0 (S s))))))).
    { rewrite parse_colon_join_ellipsis; [done|done|apply groups_in_range|apply groups_in_range| |];
        rewrite !length_map, !length_seq; cbn; lia. }
    assert (Hp : Forall (fun c => c <> "%"%char) (bytes (colon_join (map (v6u16 v) (seq 0 (S s))) +:+ "::" +:+
             colon_join (map (v6u16 v) (seq e (8 - e)))))).
    { rewrite !bytes_app. repeat (apply Forall_app; split); [done| |done]. repeat constructor; done. }
    cbn [seq map] in Hl, Hp, Hx |- *.
    destruct s as [|s].
    + change (colon_join (v6u16 v 0 :: map (v6u16 v) (seq 1 0))) with (hex16 (v6u16 v 0)) in *.
      change (ParseAddr_scan (hex16 (v6u16 v 0) +:+ "::" +:+ ?r) ?w)
        with (ParseAddr_scan (hex16 (v6u16 v 0) +:+ String ":" (String ":" r)) w).
      rewrite scan_hex16 by apply v6u16_range. rewrite parseIPv6_group by exact Hp.
      rewrite Hl. exact Hx.
    + cbn [seq map] in Hl, Hp, Hx |- *. rewrite colon_join_cons, str_app_assoc, str_app_cons in Hl, Hp |- *.
      rewrite scan_hex16 by apply v6u16_range. rewrite parseIPv6_group by exact Hp.
      rewrite Hl. exact Hx.
Qed.
Lemma parse_print_v6 v : 0 <= v < 2 ^ 128 -> Is4In6 (Addr6 v "") = false ->
  ParseAddr (to_string (Addr6 v "")) = Some (Addr6 v "").
Proof.
  intros Hv H4. cbn [to_string zone_suffix]. rewrite H4, str_app_nil_r.
  destruct (longest_zero_run v) as [[s e]|] eqn:E.
  - apply longest_zero_run_spec in E as [He Hz].
    rewrite print_groups_some by done. by apply parse_print_some.
  - rewrite print_groups_none. by apply parse_print_none.
Qed.

Lemma itoa_octet b : 0 <= b < 256 ->
  itoa b =
  if b <? 10 then String (chr (48 + b mod 10)) ""
  else if b <? 100 then String (chr (48 + b / 10 mod 10)) (String (chr (48 + b mod 10)) "")
  else String (chr (48 + b / 10 / 10 mod 10))
         (String (chr (48 + b / 10 mod 10)) (String (chr (48 + b mod 10)) "")).
Proof.
  intros Hb. unfold itoa. rewrite (proj2 (Z.ltb_ge b 0)) by lia. cbn [itoa_go].
  destruct (b <? 10) eqn:E; [done|]. breflect.
  destruct (b <? 100) eqn:E2; breflect.
  - rewrite (proj2 (Z.ltb_lt (b / 10) 10)); [done|]. Z.to_euclidean_division_equations. lia.
  - rewrite (proj2 (Z.ltb_ge (b / 10) 10)), (proj2 (Z.ltb_lt (b / 10 / 10) 10));
      [done| |]; Z.to_euclidean_division_equations; lia.
Qed.

Lemma parse_digit prev fields val dl d rest :
  0 <= d < 10 -> (dl =? 1) && (val =? 0) = false -> val * 10 + d <= 255 ->
  parse_ipv4_fields prev fields val dl (String (chr (48 + d)) rest) =
  parse_ipv4_fields (Some (chr (48 + d))) fields (val * 10 + d) (dl + 1) rest.
Proof.
  intros Hd H0 Hv. cbn [parse_ipv4_fields]. rewrite is_digit_chr by done.
  rewrite H0, code_chr by lia. replace (48 + d - 48) with d by lia.
  by rewrite (proj2 (Z.ltb_ge 255 _)) by lia.
Qed.

Lemma digit_not_dot d : 0 <= d < 10 -> (code (chr (48 + d)) =? 46) = false.
Proof. intros. rewrite code_chr by lia. apply Z.eqb_neq. lia. Qed.

(** An octet followed by anything: three digits at most, no leading zero. *)
Lemma parse_octet b : 0 <= b < 256 ->
  exists p n, (code p =? 46) = false /\ forall prev fields rest,
    parse_ipv4_fields prev fields 0 0 (itoa b +:+ rest) =
    parse_ipv4_fields (Some p) fields b n rest.
Proof.
  intros Hb. assert (D : forall y, 0 <= y mod 10 < 10) by (intros; apply Z.mod_pos_bound; lia).
  eexists (chr (48 + b mod 10)), (if b <? 10 then 1 else if b <? 100 then 2 else 3).
  split; [by apply digit_not_dot|]. intros prev fields rest. rewrite itoa_octet by done.
  destruct (b <? 10) eqn:E; [|destruct (b <? 100) eqn:E2]; breflect; rewrite ?str_app_cons, str_app_nil_l;
    rewrite !parse_digit;
    first [apply D | reflexivity | (apply andb_false_iff; right; apply Z.eqb_neq) | idtac];
    try (f_equal; Z.to_euclidean_division_equations; lia);
    Z.to_euclidean_division_equations; lia.
Qed.

Lemma scan_digit d rest w : 0 <= d < 10 ->
  ParseAddr_scan (String (chr (48 + d)) rest) w = ParseAddr_scan rest w.
Proof.
  intros Hd. cbn [ParseAddr_scan]. rewrite code_chr by lia.
  by rewrite !(proj2 (Z.eqb_neq (48 + d) _)) by lia.
Qed.

Lemma itoa_octet_no_colon b : 0 <= b < 256 ->
  forall rest w, ParseAddr_scan (itoa b +:+ String "." rest) w = parseIPv4 w.
Proof.
  intros Hb rest w. assert (D : forall y, 0 <= y mod 10 < 10) by (intros; apply Z.mod_pos_bound; lia).
  rewrite itoa_octet by done.
  destruct (b <? 10); [|destruct (b <? 100)]; rewrite ?str_app_cons, str_app_nil_l, !scan_digit by apply D; done.
Qed.

Lemma parse_dot p fields b n r : is_Some (snth 0 r) -> (code p =? 46) = false ->
  (length fields < 3)%nat ->
  parse_ipv4_fields (Some p) fields b n (String "." r) =
  parse_ipv4_fields (Some ("."%char)) (b :: fields) 0 0 r.
Proof.
  intros [c Hc] Hp Hf. cbn. rewrite Hp. destruct r as [|d r]; [done|].
  by rewrite (proj2 (Nat.eqb_neq _ 3)) by lia.
Qed.

Lemma itoa_octet_head b rest : 0 <= b -> is_Some (snth 0 (itoa b +:+ rest)).
Proof.
  intros Hb. unfold itoa. rewrite (proj2 (Z.ltb_ge b 0)) by lia.
  destruct (itoa_go_head 19 b "" Hb) as (c & r & -> & _). rewrite str_app_cons. eauto.
Qed.

Lemma byte_at_range v k : 0 <= byte_at v k < 256.
Proof. apply Z.mod_pos_bound. lia. Qed.

Lemma bytes_of_v4 v : 0 <= v < 2 ^ 32 ->
  bytes_val [byte_at v 24; byte_at v 16; byte_at v 8; byte_at v 0] = v.
Proof.
  intros Hv. unfold bytes_val, byte_at. cbn [fold_left].
  rewrite !Z.shiftr_div_pow2, Z.pow_0_r, Z.div_1_r by lia.
  change (2 ^ 24) with 16777216. change (2 ^ 16) with 65536. change (2 ^ 8) with 256.
  change (2 ^ 32) with 4294967296 in Hv. Z.to_euclidean_division_equations. lia.
Qed.

Lemma parse_print_v4 v : 0 <= v < 2 ^ 32 -> ParseAddr (to_string (Addr4 v)) = Some (Addr4 v).
Proof.
  intros Hv. cbn [to_string]. unfold ParseAddr, string4.
  cbn [join].
  rewrite !str_app_cons, !str_app_nil_l.
  pose proof (byte_at_range v) as R.
  rewrite itoa_octet_no_colon by done. unfold parseIPv4.
  destruct (parse_octet _ (R 24)) as (p1 & n1 & Hp1 & ->).
  rewrite parse_dot by (first [assumption | apply itoa_octet_head, (proj1 (R _)) | cbn [length]; lia]).
  destruct (parse_octet _ (R 16)) as (p2 & n2 & Hp2 & ->).
  rewrite parse_dot by (first [assumption | apply itoa_octet_head, (proj1 (R _)) | cbn [length]; lia]).
  destruct (parse_octet _ (R 8)) as (p3 & n3 & Hp3 & ->).
  rewrite parse_dot by (first [assumption | rewrite <- (str_app_nil_r (itoa _)); apply itoa_octet_head, (proj1 (R _)) | cbn [length]; lia]).
  destruct (parse_octet _ (R 0)) as (p4 & n4 & Hp4 & Hlast).
  rewrite <- (str_app_nil_r (itoa _)), Hlast. cbn [parse_ipv4_fields length Nat.ltb Nat.leb rev app option_map].
  do 2 f_equal. exact (bytes_of_v4 v Hv).
Qed.

Lemma Unmap_not_4in6 a : Is4In6 (Unmap a) = false.
Proof. destruct a as [v|v z]; [done|]. unfold Unmap. destruct (Is4In6 (Addr6 v z)) eqn:E; done. Qed.

(** The canonical text of an unmapped zone-free address determines it. *)
Lemma parse_print a : valid a -> Is4In6 a = false -> Zone a = "" ->
  ParseAddr (to_string a) = Some a.
Proof.
  destruct a as [v|v z]; intros Hv H4 Hz; [by apply parse_print_v4|].
  cbn in Hz. subst z. by apply parse_print_v6.
Qed.

Lemma to_string_inj a b : valid a -> valid b -> Is4In6 a = false -> Is4In6 b = false ->
  Zone a = "" -> Zone b = "" -> to_string a = to_string b -> a = b.
Proof.
  intros Ha Hb H4a H4b Hza Hzb Heq.
  pose proof (parse_print a Ha H4a Hza) as Hpa. pose proof (parse_print b Hb H4b Hzb) as Hpb.
  rewrite Heq in Hpa. congruence.
Qed.

(** ** What a successful parse produces *)

Lemma parse_ipv4_fields_range prev fields val dl s l :
  Forall (fun b => 0 <= b < 256) fields -> 0 <= val < 256 -> (length fields <= 3)%nat ->
  parse_ipv4_fields prev fields val dl s = Some l ->
  Forall (fun b => 0 <= b < 256) l /\ length l = 4%nat.
Proof.
  revert prev fields val dl. induction s as [|c s IH]; intros prev fields val dl Hf Hv Hlen; cbn [parse_ipv4_fields].
  - destruct (length fields <? 3)%nat eqn:E; breflect; [done|]. intros [= <-].
    rewrite length_app, length_rev, Forall_app. split; [|cbn; lia].
    split; [|by constructor]. rewrite Forall_forall in Hf |- *.
    intros x Hx. apply Hf. by apply elem_of_rev.
  - destruct (is_digit c) eqn:Ed.
    + destruct ((dl =? 1) && (val =? 0)); [done|].
      destruct (255 <? val * 10 + (code c - 48)) eqn:E; [done|]. breflect.
      unfold is_digit in Ed. breflect. intros Hp. eapply IH; [| | |exact Hp]; [done|lia|done].
    + destruct (code c =? 46); [|done]. destruct prev as [p|]; [|done].
      destruct s as [|d s]; [done|]. destruct (code p =? 46); [done|].
      destruct (length fields =? 3)%nat eqn:E3; [done|]. apply Nat.eqb_neq in E3.
      intros Hp. eapply IH; [| | |exact Hp]; [by constructor|lia|cbn; lia].
Qed.

Lemma bytes_val_range l acc : Forall (fun b => 0 <= b < 256) l -> 0 <= acc ->
  0 <= fold_left (fun acc b => acc * 256 + b) l acc < (acc + 1) * 256 ^ Z.of_nat (length l).
Proof.
  intros Hl. revert acc. induction Hl as [|b l Hb Hl IH]; intros acc Ha.
  - cbn [fold_left length]. change (256 ^ Z.of_nat 0) with 1. lia.
  - cbn [fold_left length]. rewrite Nat2Z.inj_succ, Z.pow_succ_r by lia.
    specialize (IH (acc * 256 + b)). pose proof (Z.pow_nonneg 256 (Z.of_nat (length l))). nia.
Qed.
Definition is_byte (b : Z) : Prop := 0 <= b < 256.

Lemma expand_range ip ell l : Forall is_byte ip -> (length ip <= 16)%nat ->
  (forall e, ell = Some e -> (e <= length ip)%nat) ->
  expand_ellipsis ip ell = Some l -> Forall is_byte l /\ length l = 16%nat.
Proof.
  intros Hip Hlen He. unfold expand_ellipsis.
  destruct (length ip <? 16)%nat eqn:E; breflect.
  - destruct ell as [e|]; [|done]. intros [= <-]. specialize (He e eq_refl).
    rewrite !length_app, length_replicate, length_take, length_drop. split; [|lia].
    repeat (apply Forall_app; split); [by apply Forall_take| |by apply Forall_drop].
    apply Forall_replicate. unfold is_byte. lia.
  - destruct ell; [done|]. intros [= <-]. split; [done|lia].
Qed.

Lemma parse_hex_range s off acc o a r :
  0 <= off <= 4 -> 0 <= acc < 16 ^ off -> parse_hex off acc s = Some (o, a, r) -> 0 <= a < 65536.
Proof.
  revert off acc. induction s as [|c s IH]; intros off acc Ho Ha; cbn [parse_hex].
  - intros [= <- <- <-]. pose proof (Z.pow_le_mono_r 16 off 4). lia.
  - destruct (hex_val c) as [d|] eqn:Ed.
    + destruct (3 <? off) eqn:E; [done|]. breflect. intros Hp.
      assert (0 <= d < 16).
      { unfold hex_val, is_digit in Ed. repeat case_match; simplify_eq; breflect; lia. }
      eapply (IH (off + 1)); [lia| |exact Hp].
      rewrite Z.pow_add_r by lia. change (16 ^ 1) with 16. nia.
    + intros [= <- <- <-]. pose proof (Z.pow_le_mono_r 16 off 4). lia.
Qed.

Lemma group_bytes_range x : 0 <= x < 65536 -> Forall is_byte (group_bytes x).
Proof.
  intros. repeat constructor; unfold is_byte; Z.to_euclidean_division_equations; lia.
Qed.

Lemma parse_ipv6_loop_range fuel : forall ip ell s l,
  Forall is_byte ip -> (length ip <= 16)%nat -> (exists k, length ip = 2 * k)%nat ->
  (forall e, ell = Some e -> (e <= length ip)%nat) ->
  parse_ipv6_loop fuel ip ell s = Some l -> Forall is_byte l /\ length l = 16%nat.
Proof.
  induction fuel as [|fuel IH]; intros ip ell s l Hip Hlen [k Hk] He; cbn [parse_ipv6_loop].
  - destruct s; [|done]. by apply expand_range.
  - destruct (16 <=? length ip)%nat eqn:E16; [destruct s; [by apply expand_range | done]|]. breflect.
    destruct (parse_hex 0 0 s) as [[[off acc] rest]|] eqn:Eh; [|done].
    assert (Hacc : 0 <= acc < 65536) by (eapply (parse_hex_range s 0 0); [lia| |exact Eh]; lia).
    pose proof (group_bytes_range acc Hacc) as Hg.
    assert (Hip' : Forall is_byte (ip ++ group_bytes acc)) by (by apply Forall_app).
    assert (Hlen' : length (ip ++ group_bytes acc) = (length ip + 2)%nat) by (by rewrite length_app).
    destruct (off =? 0); [done|].
    destruct (match rest with EmptyString => false | String c _ => code c =? 46 end).
    + destruct (match ell with None => negb (length ip =? 12)%nat | Some _ => false end); [done|].
      destruct (16 <? length ip + 4)%nat eqn:E; [done|]. breflect.
      destruct (parse_ipv4_fields None [] 0 0 s) as [f|] eqn:E4; [|done].
      apply parse_ipv4_fields_range in E4 as [Hf Hf4]; [|constructor|lia|cbn; lia].
      apply expand_range; [by apply Forall_app|rewrite length_app; lia|].
      intros e Hee. rewrite length_app. specialize (He e Hee). lia.
    + change [acc / 256; acc mod 256] with (group_bytes acc).
      assert (Hkeep : forall e, ell = Some e -> (e <= length (ip ++ group_bytes acc))%nat).
      { intros e Hee. specialize (He e Hee). lia. }
      assert (Hnew : forall e, Some (length (ip ++ group_bytes acc)) = Some e ->
        (e <= length (ip ++ group_bytes acc))%nat) by (intros e [= <-]; lia).
      assert (Heven : exists k, length (ip ++ group_bytes acc) = (2 * k)%nat) by (exists (S k); lia).
      destruct rest as [|c [|d r]]; [apply expand_range; [done|lia|done]|done|].
      destruct (negb (code c =? 58)); [done|]. destruct (code d =? 58).
      * destruct ell; [done|]. destruct r as [|d' r].
        -- apply expand_range; [done|lia|done].
        -- apply IH; [done|lia|done|done].
      * apply IH; [done|lia|done|done].
Qed.

Lemma bytes_val_valid l n : Forall is_byte l -> length l = n ->
  0 <= bytes_val l < 2 ^ (8 * Z.of_nat n).
Proof.
  intros Hl <-. pose proof (bytes_val_range l 0 Hl ltac:(lia)) as H. unfold bytes_val.
  replace (2 ^ (8 * Z.of_nat (length l))) with (256 ^ Z.of_nat (length l)); [lia|].
  change 256 with (2 ^ 8). rewrite <- Z.pow_mul_r by lia. done.
Qed.

(** A parsed address is in range. *)
Lemma ParseAddr_valid s a : ParseAddr s = Some a -> valid a.
Proof.
  unfold ParseAddr. generalize s at 1. induction s0 as [|c r IH]; cbn [ParseAddr_scan]; [done|].
  destruct (code c =? 46).
  { unfold parseIPv4. destruct (parse_ipv4_fields None [] 0 0 s) as [l|] eqn:E; [|done].
    intros [= <-]. apply parse_ipv4_fields_range in E as [Hl Hn]; [|constructor|lia|cbn; lia].
    exact (bytes_val_valid l 4 Hl Hn). }
  destruct (code c =? 58); [|destruct (code c =? 37); [done|exact IH]].
  assert (Hfin : forall o z, (forall l, o = Some l -> Forall is_byte l /\ length l = 16%nat) ->
    option_map (fun l => Addr6 (bytes_val l) z) o = Some a -> valid a).
  { intros [l|] z Hl; [|done]. intros [= <-]. destruct (Hl l eq_refl) as [H1 H2].
    exact (bytes_val_valid l 16 H1 H2). }
  assert (Hloop : forall ell s l, (forall e, ell = Some e -> (e <= 0)%nat) ->
    parse_ipv6_loop 8 [] ell s = Some l -> Forall is_byte l /\ length l = 16%nat).
  { intros ell q l He. apply parse_ipv6_loop_range; [constructor|cbn; lia|by exists 0%nat|exact He]. }
  unfold parseIPv6. destruct (index_byte "%" s) as [i|]; [destruct (sdrop (S i) s) as [|z1 z2]; [done|]|].
  all: repeat case_match; try done;
    first [ intros [= <-]; unfold valid; cbn; lia
          | apply Hfin; intros l; apply Hloop; intros e [= <-]; lia
          | apply Hfin; intros l; apply Hloop; by intros e [=] ].
Qed.

Lemma Unmap_valid a : valid a -> valid (Unmap a).
Proof.
  destruct a as [v|v z]; [done|]. unfold Unmap. destruct (Is4In6 (Addr6 v z)); [|done].
  intros _. apply Z.mod_pos_bound. done.
Qed.

(** ** Order and prefixes *)

Lemma Compare_key a b : valid a -> valid b -> Zone a = "" -> Zone b = "" ->
  Compare a b = (addr_key a ?= addr_key b).
Proof.
  unfold valid, Compare. intros Ha Hb Hza Hzb. rewrite Hza, Hzb. cbn [String.compare].
  destruct a as [v|v z], b as [w|w y]; cbn [BitLen value_of addr_key] in *.
  - change (32 ?= 32) with Eq. by destruct (v ?= w).
  - change (32 ?= 128) with Lt. symmetry. apply Z.compare_lt_iff. lia.
  - change (128 ?= 32) with Gt. symmetry. apply Z.compare_gt_iff. lia.
  - change (128 ?= 128) with Eq. rewrite Z.add_compare_mono_l. by destruct (v ?= w).
Qed.

Lemma BitLen_key a b : valid a -> valid b ->
  BitLen a = BitLen b <-> (addr_key a < 2 ^ 32 <-> addr_key b < 2 ^ 32).
Proof.
  unfold valid. destruct a, b; cbn [BitLen value_of addr_key]; intros; lia.
Qed.

Lemma mask_div a bits : 0 <= bits <= BitLen a ->
  mask a bits = value_of a / 2 ^ (BitLen a - bits) * 2 ^ (BitLen a - bits).
Proof.
  intros Hb. unfold mask. cbn zeta. rewrite Z.shiftl_mul_pow2, Z.shiftr_div_pow2 by lia. done.
Qed.

(** A prefix holds exactly the addresses between its first and last one. *)
Lemma Contains_interval p a : prefix_ok p -> valid a -> Zone a = "" ->
  Contains p a = true <->
  BitLen (paddr p) = BitLen a /\
  mask (paddr p) (pbits p) <= value_of a
    <= mask (paddr p) (pbits p) + 2 ^ (BitLen (paddr p) - pbits p) - 1.
Proof.
  intros (Hv & Hb & Hz) Ha Hza. unfold Contains. rewrite Hza, andb_true_iff, !Z.eqb_eq.
  split.
  - intros [Hl Hs]. split; [done|]. rewrite mask_div by lia. rewrite Hl in *.
    rewrite !Z.shiftr_div_pow2 in Hs by lia. rewrite Hs.
    pose proof (Z.div_mod (value_of a) (2 ^ (BitLen a - pbits p))).
    pose proof (Z.mod_pos_bound (value_of a) (2 ^ (BitLen a - pbits p))). lia.
  - intros [Hl Hs]. split; [done|]. rewrite mask_div in Hs by lia. rewrite Hl in *.
    rewrite !Z.shiftr_div_pow2 by lia.
    assert (0 < 2 ^ (BitLen a - pbits p)) by lia.
    apply (Z.div_unique_pos _ _ _ (value_of a - value_of (paddr p) / 2 ^ (BitLen a - pbits p) * 2 ^ (BitLen a - pbits p))); lia.
Qed.

Lemma ParsePrefix_ok s p : ParsePrefix s = Some p -> prefix_ok p.
Proof.
  unfold ParsePrefix. destruct (last_index_byte "/" s) as [i|]; [|done].
  destruct (ParseAddr (stake i s)) as [ip|] eqn:Ea; [|done].
  destruct (match ip with Addr6 _ (String _ _) => true | _ => false end) eqn:Ez; [done|].
  destruct (match sdrop (S i) s with
            | String c (String _ _) => (code c <? 49) || (57 <? code c) | _ => false end); [done|].
  destruct (parse_int (sdrop (S i) s)) as [bits|]; [|done].
  destruct ((bits <? 0) || (BitLen ip <? bits)) eqn:Eb; [done|]. breflect. intros [= <-].
  split; [by eapply ParseAddr_valid|]. split; [cbn; lia|].
  destruct ip as [v|v [|z1 z2]]; done.
Qed.
Lemma itoa_octet_addr_char b : 0 <= b < 256 -> Forall addr_char (bytes (itoa b)).
Proof.
  intros Hb. assert (D : forall y, addr_char (chr (48 + y mod 10))).
  { intros y. pose proof (Z.mod_pos_bound y 10). unfold addr_char. rewrite code_chr; lia. }
  rewrite itoa_octet by done. destruct (b <? 10); [|destruct (b <? 100)]; cbn [bytes]; forall_list; apply D.
Qed.

Lemma string4_addr_char v : Forall addr_char (bytes (string4 v)).
Proof.
  unfold string4. cbn [join]. rewrite !bytes_app.
  repeat (apply Forall_app; split); try (apply itoa_octet_addr_char, byte_at_range);
    (cbn [bytes]; forall_list; unfold addr_char, code; cbn; lia).
Qed.

Lemma to_string_addr_char a : Zone a = "" -> Is4In6 a = false ->
  Forall addr_char (bytes (to_string a)).
Proof.
  destruct a as [v|v z]; cbn [Zone]; intros Hz H4; [apply string4_addr_char|]. subst z.
  cbn [to_string zone_suffix]. rewrite H4, str_app_nil_r.
  destruct (longest_zero_run v) as [[s e]|] eqn:E.
  - apply longest_zero_run_spec in E as [He _]. rewrite print_groups_some by done.
    rewrite !bytes_app. repeat (apply Forall_app; split); try apply colon_join_addr_char.
    cbn [bytes]; forall_list; unfold addr_char, code; cbn; lia.
  - rewrite print_groups_none. apply colon_join_addr_char.
Qed.

Lemma parse_print_nonempty a : valid a -> Is4In6 a = false -> Zone a = "" -> to_string a <> "".
Proof. intros Hv H4 Hz He. pose proof (parse_print a Hv H4 Hz) as H. by rewrite He in H. Qed.

(** ** Prefixes in print *)

Lemma itoa_bits_shape b : 0 <= b <= 128 ->
  match itoa b with
  | String c (String _ _) => (code c <? 49) || (57 <? code c)
  | _ => false
  end = false.
Proof.
  intros Hb. rewrite itoa_octet by lia.
  destruct (b <? 10) eqn:E1; [done|]. breflect.
  assert (Hr : forall y, 1 <= y <= 9 -> (code (chr (48 + y)) <? 49) || (57 <? code (chr (48 + y))) = false).
  { intros y Hy. rewrite code_chr by lia.
    by rewrite (proj2 (Z.ltb_ge (48 + y) 49)), (proj2 (Z.ltb_ge 57 (48 + y))) by lia. }
  destruct (b <? 100) eqn:E2; breflect; apply Hr; Z.to_euclidean_division_equations; lia.
Qed.

Lemma ParsePrefix_print p : prefix_ok p -> Is4In6 (paddr p) = false ->
  ParsePrefix (prefix_string p) = Some p.
Proof.
  intros (Hv & Hb & Hz) H4. destruct p as [a bits]. cbn [paddr pbits] in *.
  assert (Hbits : 0 <= bits <= 128) by (destruct a; cbn in Hb; lia).
  unfold ParsePrefix, prefix_string. cbn [paddr pbits].
  rewrite str_app_cons, str_app_nil_l, last_index_byte_app.
  2:{ apply index_byte_None. eapply Forall_impl; [apply itoa_digits; lia|]. by intros c Hc ->. }
  rewrite stake_app, parse_print by done. rewrite <- Nat.add_1_r, sdrop_app_add. cbn [sdrop].
  assert ((match a with Addr6 _ (String _ _) => true | _ => false end) = false) as ->
    by (destruct a as [v|v [|c z]]; done).
  rewrite itoa_bits_shape, parse_int_itoa by (unfold in_i64; lia).
  by rewrite (proj2 (Z.ltb_ge bits 0)), (proj2 (Z.ltb_ge (BitLen a) bits)) by lia.
Qed.

Lemma prefix_string_printable p : prefix_ok p -> Is4In6 (paddr p) = false ->
  Forall printable (bytes (prefix_string p)) /\ prefix_string p <> "".
Proof.
  intros (Hv & Hb & Hz) H4. unfold prefix_string. split.
  - apply Forall_bytes_app. split.
    { eapply Forall_impl; [by apply to_string_addr_char|]. unfold addr_char, printable. intros; lia. }
    apply Forall_bytes_app. split; [by constructor|].
    eapply Forall_impl; [apply itoa_digits; lia|]. apply digit_printable.
  - intros He. pose proof (parse_print_nonempty _ Hv H4 Hz) as Hne. by destruct (to_string (paddr p)).
Qed.
End NetipFacts.
