(* ===== verification/GoNet.v ===== *)
(** * Hosts, ports and address bytes

    What the code uses of Go's [net]: host and port joined and split, an
    [net.IP] as its bytes, and big-endian numbers ([encoding/binary]). *)

From S2P Require Import Prelude GoStrings Netip NetipFacts.
From Stdlib Require Import Ascii.
Open Scope Z_scope.

Module GoNet.
Import Netip NetipFacts.

(** [net.SplitHostPort] *)
Definition SplitHostPort (hostport : string) : option (string * string) :=
  match last_index_byte ":" hostport with
  | None => None
  | Some i =>
      if has_prefix "[" hostport then
        match index_byte "]" hostport with
        | None => None
        | Some e =>
            if negb (e + 1 =? i)%nat then None
            else
              let host := stake (e - 1) (sdrop 1 hostport) in
              if contains_byte "[" (sdrop 1 hostport) || contains_byte "]" (sdrop (e + 1) hostport)
              then None else Some (host, sdrop (i + 1) hostport)
        end
      else
        let host := stake i hostport in
        if contains_byte ":" host || contains_byte "[" hostport || contains_byte "]" hostport
        then None else Some (host, sdrop (i + 1) hostport)
  end.

(** [net.JoinHostPort] *)
Definition JoinHostPort (host port : string) : string :=
  if contains_byte ":" host then "[" +:+ host +:+ "]:" +:+ port else host +:+ ":" +:+ port.

(** ** Bytes *)

(** The [n] low bytes of [v], most significant first. *)
Fixpoint be_bytes (n : nat) (v : Z) : list ascii :=
  match n with
  | O => []
  | S n' => be_bytes n' (v / 256) ++ [chr (v mod 256)]
  end.

(** [binary.BigEndian.Uint16] and the like. *)
Definition be_val (l : list ascii) : Z := bytes_val (map code l).

(** [net.IP(b)] for four or sixteen bytes. *)
Definition ip_of_bytes (l : list ascii) : Addr :=
  if (length l =? 4)%nat then Addr4 (be_val l) else Addr6 (be_val l) "".

(** [IP.To4] of the sixteen-byte form, and [IP.String]. *)
Definition To4 (a : Addr) : option Z :=
  match Unmap a with Addr4 v => Some v | Addr6 _ _ => None end.

Definition ip_string (a : Addr) : string := to_string (Unmap a).

(** ** Lemmas *)

Lemma be_bytes_length n v : length (be_bytes n v) = n.
Proof. revert v. induction n as [|n IH]; intros v; cbn; [done|]. rewrite length_app, IH. cbn. lia. Qed.

Lemma be_val_app l c : be_val (l ++ [c]) = be_val l * 256 + code c.
Proof. unfold be_val, bytes_val. by rewrite map_app, fold_left_app. Qed.

Lemma be_val_bytes n v : 0 <= v < 2 ^ (8 * Z.of_nat n) -> be_val (be_bytes n v) = v.
Proof.
  revert v. induction n as [|n IH]; intros v Hv; [cbn in *; lia|].
  cbn [be_bytes]. rewrite be_val_app, code_chr by (apply Z.mod_pos_bound; lia).
  rewrite Nat2Z.inj_succ, Z.mul_succ_r, Z.pow_add_r in Hv by lia. change (2 ^ 8) with 256 in Hv.
  rewrite IH; [pose proof (Z.div_mod v 256); lia|].
  split; [apply Z.div_pos; lia|apply Z.div_lt_upper_bound; lia].
Qed.

Lemma code_range c : 0 <= code c < 256.
Proof.
  unfold code. pose proof (N_ascii_bounded c). lia.
Qed.

Lemma be_val_range l : 0 <= be_val l < 2 ^ (8 * Z.of_nat (length l)).
Proof.
  unfold be_val. apply bytes_val_valid; [|by rewrite length_map].
  rewrite Forall_forall. intros z Hz. apply list_elem_of_fmap in Hz as (c & -> & _). apply code_range.
Qed.

Lemma be_bytes_val l : be_bytes (length l) (be_val l) = l.
Proof.
  induction l as [|c l IH] using rev_ind; [done|]. rewrite length_app, Nat.add_1_r, be_val_app. cbn [be_bytes].
  pose proof (code_range c). rewrite Z.div_add_l, (Z.div_small (code c)), Z.add_0_r, IH by lia.
  rewrite Z.add_comm, Z.mod_add, Z.mod_small, chr_code by lia. done.
Qed.

Lemma contains_byte_app b s t : contains_byte b (s +:+ t) = contains_byte b s || contains_byte b t.
Proof.
  unfold contains_byte. induction s as [|c s IH]; [done|]. rewrite str_app_cons. cbn.
  case_bool_decide; [done|]. destruct (index_byte b (s +:+ t)), (index_byte b s); cbn in *; done.
Qed.

Lemma index_byte_iff b s : index_byte b s = None <-> contains_byte b s = false.
Proof. unfold contains_byte. by destruct (index_byte b s). Qed.

(** Text without the characters that delimit hosts. *)
Definition plain (s : string) : Prop :=
  contains_byte "[" s = false /\ contains_byte "]" s = false.

Lemma split_join_host host port : plain host -> plain port -> contains_byte ":" port = false ->
  SplitHostPort (JoinHostPort host port) = Some (host, port).
Proof.
  intros [Ho Hc] [Hpo Hpc] Hp. pose proof (proj2 (index_byte_iff _ _) Hp) as Hpi.
  unfold JoinHostPort. destruct (contains_byte ":" host) eqn:E.
  - unfold SplitHostPort.
    assert (Heq : "[" +:+ host +:+ "]:" +:+ port = (String "[" host +:+ "]") +:+ String ":" port).
    { by rewrite (str_app_assoc (String "[" host)). }
    rewrite Heq, last_index_byte_app by done. rewrite <- Heq.
    change ("[" +:+ host +:+ "]:" +:+ port) with (String "[" (host +:+ String "]" (String ":" port))).
    assert (He : index_byte "]" (String "[" (host +:+ String "]" (String ":" port))) = Some (S (slen host))).
    { cbn [index_byte]. rewrite bool_decide_eq_false_2 by done. by rewrite index_byte_app by (by apply index_byte_iff). }
    change (has_prefix "[" (String "[" (host +:+ String "]" (String ":" port)))) with true. cbn iota. rewrite He.
    rewrite slen_app. cbn [slen].
    change (sdrop 1 (String "[" (host +:+ String "]" (String ":" port)))) with (host +:+ String "]" (String ":" port)).
    rewrite Nat.sub_succ, Nat.sub_0_r, stake_app.
    assert (Hdrop : forall k, sdrop (S (slen host) + k) (String "[" (host +:+ String "]" (String ":" port))) =
      sdrop k (String "]" (String ":" port))).
    { intros k. cbn [Nat.add sdrop]. apply sdrop_app_add. }
    rewrite <- Nat.add_assoc, !Hdrop. cbn [sdrop Nat.add].
    rewrite Nat.eqb_refl. cbn [negb].
    change (String "]" (String ":" port)) with ("]:" +:+ port). change (String ":" port) with (":" +:+ port).
    rewrite !contains_byte_app, Ho, Hpo, Hpc. done.
  - unfold SplitHostPort. change (":" +:+ port) with (String ":" port).
    rewrite last_index_byte_app by done.
    assert (Hpre : has_prefix "[" (host +:+ String ":" port) = false).
    { destruct host as [|c host]; [done|]. rewrite str_app_cons. cbn [has_prefix].
      unfold contains_byte in Ho. cbn [index_byte] in Ho. destruct (bool_decide (c = "["%char)) eqn:Ec; [done|].
      apply bool_decide_eq_false_1 in Ec. by rewrite bool_decide_eq_false_2. }
    rewrite Hpre, stake_app, E. change (String ":" port) with (":" +:+ port).
    rewrite !contains_byte_app, Ho, Hc, Hpo, Hpc. cbn [orb contains_byte index_byte].
    do 2 f_equal. by rewrite sdrop_app_add.
Qed.

Lemma itoa_plain z : 0 <= z -> plain (itoa z) /\ contains_byte ":" (itoa z) = false.
Proof.
  intros Hz. pose proof (itoa_digits z Hz) as Hd.
  assert (Hn : forall b, is_digit b = false -> contains_byte b (itoa z) = false).
  { intros b Hb. apply contains_byte_false. rewrite Forall_forall in Hd |- *. intros c Hc ->.
    by rewrite (Hd b Hc) in Hb. }
  split; [split|]; by apply Hn.
Qed.

Lemma ip_string_plain a : Zone a = "" -> plain (ip_string a).
Proof.
  intros Hz. assert (Hf : Forall addr_char (bytes (ip_string a))).
  { apply to_string_addr_char; [|apply Unmap_not_4in6]. unfold Unmap. by repeat case_match. }
  split; apply contains_byte_false; (eapply Forall_impl; [exact Hf|]); intros c Hc ->;
    unfold addr_char, code in Hc; cbn in Hc; lia.
Qed.
End GoNet.
