(* ===== verification/ProxyModel.v ===== *)
(** * [internal/domain/proxy_model.go]

    The route record and the canonical form of its host.  [domain.Proxy] is a
    Go pointer receiver that the methods update; a method is a function from
    the record to the updated record or an error.  The IDNA converter
    ([golang.org/x/net/idna], [idna.Lookup.ToASCII]) and the keyed fingerprint
    ([security.FingerprintProxyRoute], an HMAC under a configured key) are
    parameters. *)

From S2P Require Import Prelude GoStrings Netip NetipFacts GoNet.
From Stdlib Require Import Ascii.
Open Scope Z_scope.

Module ProxyModel.
Import GoNet Netip NetipFacts.

(** [domain.ProxyQueueLease] without its [context.Context]. *)
Record ProxyQueueLease := MkLease { ScoreMS : Z; QueueKey : string; Payload : string }.

(** [domain.Proxy]: the columns and in-memory fields the modelled code reads.
    [Workspaces] lists workspace identifiers; [Hash] is a byte string. *)
Record Proxy := MkProxy {
  ID : Z;
  IP : string;
  IPAddress : option string;
  Port : Z;
  Username : string;
  Password : string;
  Workspaces : list Z;
  QueueLease : option ProxyQueueLease;
  Hash : string
}.

Definition emptyProxy : Proxy := MkProxy 0 "" None 0 "" "" [] None "".

Definition with_host (p : Proxy) (ip : string) (addr : option string) : Proxy :=
  MkProxy (ID p) ip addr (Port p) (Username p) (Password p) (Workspaces p)
    (QueueLease p) (Hash p).

Definition with_hash (p : Proxy) (h : string) : Proxy :=
  MkProxy (ID p) (IP p) (IPAddress p) (Port p) (Username p) (Password p) (Workspaces p)
    (QueueLease p) h.

Inductive host_error :=
| InvalidIPAddress
| HostRequired
| InvalidProxyHost
| InvalidProxyHostname
| FingerprintError.

(** ** Host names *)

Definition isHostnameAlphaNumeric (c : ascii) : bool := is_lower c || is_digit c.

(** The bytes strictly between the first and the last one. *)
Definition inner (s : string) : string := stake (slen s - 2) (sdrop 1 s).

Fixpoint all_bytes (p : ascii -> bool) (s : string) : bool :=
  match s with
  | EmptyString => true
  | String c r => p c && all_bytes p r
  end.

Fixpoint any_byte (p : ascii -> bool) (s : string) : bool :=
  match s with
  | EmptyString => false
  | String c r => p c || any_byte p r
  end.

Definition validHostnameLabel (label : string) : bool :=
  match snth 0 label, snth (slen label - 1) label with
  | Some first, Some last =>
      (slen label <=? 63)%nat && isHostnameAlphaNumeric first &&
      isHostnameAlphaNumeric last &&
      all_bytes (fun c => isHostnameAlphaNumeric c || (code c =? 45)) (inner label)
  | _, _ => false
  end.

Section Host.
Context (toASCII : string -> option string).
Context (FingerprintProxyRoute : string -> Z -> string -> string -> option string).

Definition canonicalizeProxyHost (raw : string) : res host_error (string * option string) :=
  let host := trim_space raw in
  let host :=
    if has_prefix "[" host && has_suffix "]" host
    then trim_space (inner host) else host in
  if String.eqb host "" then Err HostRequired
  else
    match
      (match ParseAddr host with
       | Some parsed => if String.eqb (Zone parsed) "" then Some parsed else None
       | None => None
       end)
    with
    | Some parsed =>
        let canonical := to_string (Unmap parsed) in Ok (canonical, Some canonical)
    | None =>
        if contains_byte ":"%char host then Err InvalidProxyHost
        else
          match toASCII (trim_suffix host ".") with
          | None => Err InvalidProxyHostname
          | Some ascii =>
              let ascii := to_lower (trim_space ascii) in
              if (slen ascii =? 0)%nat || (253 <? slen ascii)%nat then Err InvalidProxyHostname
              else
                let labels := split_byte "."%char ascii in
                if forallb validHostnameLabel labels &&
                   existsb (fun l => any_byte is_lower l) labels
                then Ok (ascii, None)
                else Err InvalidProxyHostname
          end
    end.

Definition SetIP (p : Proxy) (ip : string) : res host_error Proxy :=
  match ParseAddr (trim_space ip) with
  | Some parsed =>
      if String.eqb (Zone parsed) "" then
        let canonical := to_string (Unmap parsed) in
        Ok (with_host p canonical (Some canonical))
      else Err InvalidIPAddress
  | None => Err InvalidIPAddress
  end.

Definition SetHost (p : Proxy) (host : string) : res host_error Proxy :=
  match canonicalizeProxyHost host with
  | Ok (canonical, ipAddress) => Ok (with_host p canonical ipAddress)
  | Err e => Err e
  end.

Definition GetHost (p : Proxy) : string :=
  if negb (String.eqb (IP p) "") then IP p
  else match IPAddress p with Some a => a | None => "" end.

Definition GetIp (p : Proxy) : string := GetHost p.

Definition GetIPAddress (p : Proxy) : string :=
  match IPAddress p with
  | Some a => a
  | None =>
      match ParseAddr (trim_space (IP p)) with
      | Some parsed => to_string (Unmap parsed)
      | None => ""
      end
  end.

Definition GetFullProxy (p : Proxy) : string := JoinHostPort (GetHost p) (itoa (Port p)).

Definition IsHostname (p : Proxy) : bool :=
  negb (String.eqb (GetHost p) "") && String.eqb (GetIPAddress p) "".

Definition HasAuth (p : Proxy) : bool :=
  negb (String.eqb (Username p) "") && negb (String.eqb (Password p) "").

Definition GenerateHash (p : Proxy) : res host_error Proxy :=
  match (if negb (String.eqb (IP p) "") then SetHost p (IP p) else Ok p) with
  | Err e => Err e
  | Ok p' =>
      match FingerprintProxyRoute (GetHost p') (Port p') (Username p') (Password p') with
      | None => Err FingerprintError
      | Some h => Ok (with_hash p' h)
      end
  end.

Definition BeforeSave (p : Proxy) : res host_error Proxy :=
  match
    (if negb (String.eqb (IP p) "") then SetHost p (IP p)
     else match IPAddress p with Some a => SetIP p a | None => Ok p end)
  with
  | Err e => Err e
  | Ok p' => if (slen (Hash p') =? 0)%nat then GenerateHash p' else Ok p'
  end.

Definition AfterFind (p : Proxy) : res host_error Proxy :=
  match IPAddress p with
  | Some a => if String.eqb (IP p) "" then SetIP p a else Ok p
  | None => Ok p
  end.
End Host.

(** ** Canonical hosts *)

Definition label_char (c : ascii) : Prop :=
  isHostnameAlphaNumeric c = true \/ code c = 45.

Lemma label_char_bounds c : label_char c -> code c = 45 \/ 48 <= code c <= 57 \/ 97 <= code c <= 122.
Proof.
  unfold label_char, isHostnameAlphaNumeric, is_lower, is_digit. intros [H|H]; [|lia].
  apply orb_true_iff in H as [H|H]; breflect; lia.
Qed.

Lemma all_bytes_Forall p s : all_bytes p s = true <-> Forall (fun c => p c = true) (bytes s).
Proof.
  induction s as [|c s IH]; cbn; [by split; constructor|].
  by rewrite andb_true_iff, Forall_cons, IH.
Qed.

Lemma any_byte_exists p s : any_byte p s = true <-> exists c, c ∈ bytes s /\ p c = true.
Proof.
  induction s as [|c s IH]; cbn; [by split; [|intros (? & H & _); inversion H]|].
  rewrite orb_true_iff, IH. setoid_rewrite elem_of_cons. naive_solver.
Qed.

(** A string of at least one byte is its first byte, the inner ones and the
    last one. *)
Lemma bytes_inner s first last :
  snth 0 s = Some first -> snth (slen s - 1) s = Some last ->
  forall c, c ∈ bytes s -> c = first \/ c = last \/ c ∈ bytes (inner s).
Proof.
  destruct s as [|a s]; [done|]. cbn [snth]. intros [= ->] Hlast c.
  cbn [bytes]. rewrite elem_of_cons. intros [->|Hc]; [by left|]. right.
  unfold inner. cbn [slen sdrop] in *. replace (S (slen s) - 1)%nat with (slen s) in Hlast by lia.
  replace (S (slen s) - 2)%nat with (slen s - 1)%nat by lia.
  destruct s as [|b s]; [inversion Hc|]. cbn [slen snth] in Hlast |- *.
  replace (S (slen s) - 1)%nat with (slen s) by lia.
  revert b Hlast Hc. induction s as [|d s IH]; intros b Hlast Hc; cbn [slen snth bytes stake] in *.
  - injection Hlast as ->. rewrite list_elem_of_singleton in Hc. by left.
  - rewrite elem_of_cons in Hc |- *. destruct Hc as [->|Hc]; [by right; left|].
    destruct (IH d Hlast Hc); naive_solver.
Qed.

Lemma validHostnameLabel_chars l : validHostnameLabel l = true ->
  Forall label_char (bytes l) /\ l <> "".
Proof.
  unfold validHostnameLabel. destruct (snth 0 l) as [first|] eqn:E0; [|done].
  destruct (snth (slen l - 1) l) as [last|] eqn:E1; [|done].
  intros H. breflect. split; [|by intros ->].
  apply all_bytes_Forall in H0. apply Forall_forall. intros c Hc.
  destruct (bytes_inner l first last E0 E1 c Hc) as [->|[->|Hi]]; [by left|by left|].
  rewrite Forall_forall in H0. specialize (H0 c Hi). cbn in H0.
  apply orb_true_iff in H0 as [?|?]; [by left | breflect; by right].
Qed.

Lemma join_chars (P : ascii -> Prop) sep l :
  Forall P (bytes sep) -> Forall (fun s => Forall P (bytes s)) l -> Forall P (bytes (join sep l)).
Proof.
  intros Hsep Hl. induction Hl as [|x l Hx Hl IH]; [constructor|].
  destruct l as [|y l]; [done|]. cbn [join]. rewrite !bytes_app.
  repeat (apply Forall_app; split); done.
Qed.

(** The characters of a host name accepted by the label checks. *)
Lemma labels_chars s : forallb validHostnameLabel (split_byte "." s) = true ->
  Forall (fun c => label_char c \/ code c = 46) (bytes s).
Proof.
  intros H. rewrite <- (join_split_byte "." s). apply join_chars.
  - cbn. forall_list. by right.
  - rewrite forallb_forall in H. apply Forall_forall. intros l Hl.
    apply list_elem_of_In in Hl. specialize (H l Hl).
    apply validHostnameLabel_chars in H as [H _]. eapply Forall_impl; [exact H|]. by left.
Qed.

Lemma split_byte_snoc b s :
  split_byte b (s +:+ String b "") = split_byte b s ++ [""].
Proof.
  induction s as [|c s IH]; rewrite ?str_app_cons, ?str_app_nil_l; cbn.
  - by rewrite bool_decide_eq_true_2.
  - rewrite IH. case_bool_decide; [done|].
    destruct (split_byte b s) as [|x xs] eqn:E; [|done]. by apply split_byte_nonempty in E.
Qed.

Lemma has_suffix_dot s : has_suffix "." s = true -> exists t, s = t +:+ ".".
Proof.
  unfold has_suffix. change (str_rev ".") with ".". intros H.
  destruct (str_rev s) as [|c t] eqn:E; [done|]. cbn in H. breflect. subst c.
  exists (of_bytes (rev (bytes t))).
  rewrite <- (of_bytes_bytes s), <- (rev_involutive (bytes s)).
  unfold str_rev in E. apply (f_equal bytes) in E. rewrite bytes_of_bytes in E. rewrite E.
  cbn [bytes rev]. rewrite <- (of_bytes_bytes (_ +:+ _)), bytes_app, bytes_of_bytes. done.
Qed.

Lemma labels_no_trailing_dot s : forallb validHostnameLabel (split_byte "." s) = true ->
  trim_suffix s "." = s.
Proof.
  intros H. unfold trim_suffix. destruct (has_suffix "." s) eqn:E; [|done].
  apply has_suffix_dot in E as [t ->]. rewrite split_byte_snoc, forallb_app in H.
  cbn in H. by rewrite andb_false_r in H.
Qed.

Lemma to_lower_labels s : Forall (fun c => label_char c \/ code c = 46) (bytes s) -> to_lower s = s.
Proof.
  induction s as [|c s IH]; cbn; [done|]. intros H. apply Forall_cons in H as [Hc Hs].
  rewrite IH by done. f_equal. unfold lower_byte, is_upper.
  assert (code c < 65 \/ 90 < code c) by (destruct Hc as [Hc|Hc]; [apply label_char_bounds in Hc; lia|lia]).
  destruct ((65 <=? code c) && (code c <=? 90)) eqn:E; [breflect; lia | done].
Qed.

Lemma label_printable c : label_char c \/ code c = 46 -> printable c.
Proof. unfold printable. intros [H|H]; [apply label_char_bounds in H|]; lia. Qed.

(** A text with a letter and without a colon or a percent sign is no address. *)
Lemma parse_ipv4_fields_chars prev fields v dl s l :
  parse_ipv4_fields prev fields v dl s = Some l -> Forall (fun c => code c <= 57) (bytes s).
Proof.
  revert prev fields v dl. induction s as [|c s IH]; intros prev fields v dl; [constructor|].
  cbn [parse_ipv4_fields bytes]. destruct (is_digit c) eqn:Ed.
  - unfold is_digit in Ed. breflect.
    destruct ((dl =? 1) && (v =? 0)); [done|]. destruct (255 <? v * 10 + (code c - 48)); [done|].
    intros Hp. constructor; [lia|]. by eapply IH.
  - destruct (code c =? 46) eqn:E; [|done]. breflect. destruct prev as [p|]; [|done].
    destruct s; [done|]. destruct (code p =? 46); [done|]. destruct (length fields =? 3)%nat; [done|].
    intros Hp. constructor; [lia|]. by eapply IH.
Qed.

Lemma labels_not_address s c :
  Forall (fun c => label_char c \/ code c = 46) (bytes s) -> c ∈ bytes s -> is_lower c = true ->
  ParseAddr s = None.
Proof.
  intros Hs Hc Hl. unfold ParseAddr.
  assert (H4 : parseIPv4 s = None).
  { unfold parseIPv4. destruct (parse_ipv4_fields None [] 0 0 s) as [l|] eqn:E; [|done].
    apply parse_ipv4_fields_chars in E. rewrite Forall_forall in E. specialize (E c Hc).
    cbn in E. unfold is_lower in Hl. breflect. lia. }
  enough (forall r, Forall (fun c => label_char c \/ code c = 46) (bytes r) ->
    ParseAddr_scan r s = None) by auto.
  clear Hs Hc. intros r. induction r as [|d r IH]; [done|].
  cbn [bytes ParseAddr_scan]. rewrite Forall_cons. intros [Hd Hr].
  destruct (code d =? 46) eqn:E; [done|]. breflect.
  assert (label_char d) as Hdc by naive_solver. apply label_char_bounds in Hdc.
  rewrite !(proj2 (Z.eqb_neq (code d) _)) by lia. by apply IH.
Qed.

Lemma split_byte_sub b s l c : l ∈ split_byte b s -> c ∈ bytes l -> c ∈ bytes s.
Proof.
  revert l. induction s as [|d s IH]; intros l; cbn [split_byte bytes].
  - rewrite list_elem_of_singleton. by intros ->.
  - case_bool_decide.
    + rewrite elem_of_cons. intros [->|Hl] Hc; [by inversion Hc|].
      apply elem_of_cons. right. by eapply IH.
    + destruct (split_byte b s) as [|x xs] eqn:E; [by apply split_byte_nonempty in E|].
      rewrite elem_of_cons. intros [->|Hl] Hc.
      * cbn [bytes] in Hc. apply elem_of_cons in Hc as [->|Hc]; apply elem_of_cons; [by left|right].
        apply (IH x); [by left|done].
      * apply elem_of_cons. right. apply (IH l); [by right|done].
Qed.

Section Canonical.
Context (toASCII : string -> option string).

(** [idna.Lookup.ToASCII] leaves a name it produced unchanged, in the
    lower-cased and trimmed form the code stores. *)
Definition toASCII_stable : Prop :=
  forall h a, toASCII h = Some a ->
  toASCII (to_lower (trim_space a)) = Some (to_lower (trim_space a)).

(** What a canonical host is: the canonical text of a zone-free address that
    is not IPv4-mapped, or a lower-case DNS name that is no address. *)
Lemma canonicalizeProxyHost_shape raw c ip :
  canonicalizeProxyHost toASCII raw = Ok (c, ip) ->
  (ip = Some c /\ exists a, valid a /\ Is4In6 a = false /\ Zone a = "" /\ c = to_string a) \/
  (ip = None /\ (slen c <= 253)%nat /\ ParseAddr c = None /\
   forallb validHostnameLabel (split_byte "." c) = true /\
   existsb (fun l => any_byte is_lower l) (split_byte "." c) = true /\
   exists h a, toASCII h = Some a /\ c = to_lower (trim_space a)).
Proof.
  unfold canonicalizeProxyHost. cbn zeta.
  set (host := if _ && _ then _ else _). clearbody host.
  destruct (String.eqb host ""); [done|].
  destruct (ParseAddr host) as [a|] eqn:Ea; [destruct (String.eqb (Zone a) "") eqn:Ez|].
  { intros [= <- <-]. left. split; [done|]. apply String.eqb_eq in Ez.
    exists (Unmap a). apply ParseAddr_valid in Ea. split; [by apply Unmap_valid|].
    split; [apply Unmap_not_4in6|]. split; [|done].
    destruct a as [v|v z]; [done|]. unfold Unmap. by destruct (Is4In6 (Addr6 v z)). }
  all: destruct (contains_byte ":" host); [done|];
    destruct (toASCII (trim_suffix host ".")) as [a'|] eqn:Et; [|done];
    set (n := to_lower (trim_space a'));
    destruct ((slen n =? 0)%nat || (253 <? slen n)%nat) eqn:El; [done|];
    destruct (forallb validHostnameLabel (split_byte "." n)) eqn:Ev; [|done];
    destruct (existsb (fun l => any_byte is_lower l) (split_byte "." n)) eqn:Ex; [|done];
    cbn [andb]; intros [= <- <-]; right; breflect; (split; [done|]); (split; [done|]);
    (split; [|eauto 6]);
    apply existsb_exists in Ex as (l & Hl & Hx);
    apply any_byte_exists in Hx as (ch & Hch & Hlow);
    (apply (labels_not_address n ch); [by apply labels_chars| |done]);
    apply (split_byte_sub "." n l); [by apply list_elem_of_In|done].
Qed.

Lemma head_no_bracket c :
  Forall (fun d => code d <> 91) (bytes c) -> has_prefix "[" c = false.
Proof.
  destruct c as [|d c]; [done|]. cbn [bytes has_prefix]. rewrite Forall_cons. intros [Hd _].
  apply andb_false_iff. left. apply bool_decide_eq_false. intros <-. by apply Hd.
Qed.

(** The canonical form is a fixed point: reading a stored host again, as
    [BeforeSave], [GenerateHash] and [AfterFind] do, changes nothing. *)
Lemma canonicalize_address a :
  valid a -> Is4In6 a = false -> Zone a = "" ->
  canonicalizeProxyHost toASCII (to_string a) = Ok (to_string a, Some (to_string a)).
Proof.
  intros Hv H4 Hz. pose proof (to_string_addr_char a Hz H4) as Hc.
  unfold canonicalizeProxyHost. cbn zeta.
  rewrite (trim_space_printable (to_string a)).
  2:{ eapply Forall_impl; [exact Hc|]. unfold addr_char, printable. lia. }
  rewrite head_no_bracket.
  2:{ eapply Forall_impl; [exact Hc|]. unfold addr_char. lia. }
  cbn [andb]. rewrite (proj2 (String.eqb_neq _ _)) by by apply parse_print_nonempty.
  rewrite parse_print, Hz by done. cbn [String.eqb].
  destruct a as [v|v z]; [done|]. unfold Unmap. by rewrite H4.
Qed.

Lemma canonicalize_name c :
  toASCII c = Some c -> (slen c <= 253)%nat -> ParseAddr c = None ->
  forallb validHostnameLabel (split_byte "." c) = true ->
  existsb (fun l => any_byte is_lower l) (split_byte "." c) = true ->
  canonicalizeProxyHost toASCII c = Ok (c, None).
Proof.
  intros Ht Hl Hp Hv Hx. pose proof (labels_chars c Hv) as Hc.
  unfold canonicalizeProxyHost. cbn zeta.
  assert (Hs : trim_space c = c).
  { apply trim_space_printable. eapply Forall_impl; [exact Hc|]. apply label_printable. }
  rewrite Hs, head_no_bracket.
  2:{ eapply Forall_impl; [exact Hc|]. intros d [Hd|Hd]; [apply label_char_bounds in Hd|]; lia. }
  cbn [andb]. assert (c <> "") as Hne by by intros ->.
  rewrite (proj2 (String.eqb_neq c "") Hne), Hp.
  rewrite (contains_byte_false ":").
  2:{ eapply Forall_impl; [exact Hc|]. intros d Hd ->.
      destruct Hd as [Hd|Hd]; [apply label_char_bounds in Hd|]; unfold code in Hd; cbn in Hd; lia. }
  rewrite labels_no_trailing_dot, Ht, Hs, to_lower_labels, Hv, Hx by done.
  rewrite (proj2 (Nat.eqb_neq _ 0)) by (destruct c; [done|cbn; lia]).
  rewrite (proj2 (Nat.ltb_ge 253 _)) by done. done.
Qed.

Lemma canonical_fixed raw c ip :
  toASCII_stable -> canonicalizeProxyHost toASCII raw = Ok (c, ip) ->
  canonicalizeProxyHost toASCII c = Ok (c, ip).
Proof.
  intros Hst H. apply canonicalizeProxyHost_shape in H
    as [(-> & a & Hv & H4 & Hz & ->)|(-> & Hl & Hp & Hv & Hx & h & a & Ht & ->)].
  - by apply canonicalize_address.
  - apply canonicalize_name; try done. by eapply Hst.
Qed.

(** ** The stored form of a route *)

Context (FingerprintProxyRoute : string -> Z -> string -> string -> option string).

(** The host columns of a stored route hold a canonical host. *)
Definition stored (p : Proxy) : Prop :=
  canonicalizeProxyHost toASCII (IP p) = Ok (IP p, IPAddress p).

(** A fingerprint, an HMAC-SHA-256 digest, is never empty. *)
Definition fingerprint_nonempty : Prop :=
  forall h port u pw f, FingerprintProxyRoute h port u pw = Some f -> f <> "".

Lemma stored_cases p : stored p ->
  IP p <> "" /\ trim_space (IP p) = IP p /\
  ((exists a, ParseAddr (IP p) = Some a /\ Unmap a = a /\ Zone a = "" /\ to_string a = IP p) \/
   ParseAddr (IP p) = None).
Proof.
  intros H. apply canonicalizeProxyHost_shape in H
    as [(_ & a & Hv & H4 & Hz & ->)|(_ & _ & Hp & Hv & _)].
  - split; [by apply parse_print_nonempty|]. split.
    { apply trim_space_printable. eapply Forall_impl; [by apply to_string_addr_char|].
      unfold addr_char, printable. intros; lia. }
    left. exists a. rewrite parse_print by done. split; [done|]. split; [|done].
    destruct a as [v|v z]; [done|]. unfold Unmap. by rewrite H4.
  - split; [by intros He; rewrite He in Hv|]. split; [|by right].
    apply trim_space_printable. eapply Forall_impl; [by apply labels_chars|]. apply label_printable.
Qed.

Lemma stored_GetIp p : stored p -> GetIp p = IP p.
Proof.
  intros Hs. destruct (stored_cases p Hs) as [Hne _]. unfold GetIp, GetHost.
  by rewrite (proj2 (String.eqb_neq _ _) Hne).
Qed.

Lemma with_host_same p : with_host p (IP p) (IPAddress p) = p.
Proof. by destruct p. Qed.

Lemma SetHost_stored p raw p' :
  toASCII_stable -> SetHost toASCII p raw = Ok p' -> stored p' /\ Hash p' = Hash p.
Proof.
  intros Hst. unfold SetHost. destruct (canonicalizeProxyHost toASCII raw) as [[c ip]|e] eqn:E; [|done].
  intros [= <-]. split; [|done]. by apply canonical_fixed in E.
Qed.

Lemma SetHost_fixed p : stored p -> SetHost toASCII p (IP p) = Ok p.
Proof. unfold stored, SetHost. intros ->. by rewrite with_host_same. Qed.

Lemma SetIP_stored p raw p' :
  SetIP p raw = Ok p' -> stored p' /\ Hash p' = Hash p.
Proof.
  unfold SetIP. destruct (ParseAddr (trim_space raw)) as [a|] eqn:E; [|done].
  destruct (String.eqb (Zone a) "") eqn:Ez; [|done]. intros [= <-]. split; [|done].
  apply String.eqb_eq in Ez. apply ParseAddr_valid in E. unfold stored. cbn [with_host IP IPAddress].
  apply canonicalize_address; [by apply Unmap_valid|apply Unmap_not_4in6|].
  destruct a as [v|v z]; [done|]. unfold Unmap. by destruct (Is4In6 (Addr6 v z)).
Qed.

Lemma GenerateHash_stored p p' :
  fingerprint_nonempty -> stored p ->
  GenerateHash toASCII FingerprintProxyRoute p = Ok p' -> stored p' /\ Hash p' <> "".
Proof.
  intros Hf Hs. unfold GenerateHash. rewrite SetHost_fixed by done.
  assert ((if negb (String.eqb (IP p) "") then @Ok host_error _ p else Ok p) = Ok p) as ->
    by by destruct (negb _).
  destruct (FingerprintProxyRoute _ _ _ _) as [f|] eqn:E; [|done].
  intros [= <-]. split; [done|]. by eapply Hf.
Qed.

(** C40. Saving a route ([BeforeSave]) stores the canonical form of its host
    with a fingerprint, and saving the saved route again changes nothing. *)
Theorem BeforeSave_canonical p p' :
  toASCII_stable -> fingerprint_nonempty ->
  IP p <> "" \/ IPAddress p <> None ->
  BeforeSave toASCII FingerprintProxyRoute p = Ok p' ->
  stored p' /\ Hash p' <> "" /\
  BeforeSave toASCII FingerprintProxyRoute p' = Ok p'.
Proof.
  intros Hst Hf Hh Hb.
  assert (stored p' /\ Hash p' <> "") as [Hs Hn].
  { unfold BeforeSave in Hb.
    match type of Hb with match ?m with _ => _ end = _ => destruct m as [q|e] eqn:Em end; [|done].
    assert (stored q) as Hq.
    { destruct (String.eqb_spec (IP p) ""); cbn [negb] in Em.
      - destruct (IPAddress p); [|naive_solver]. by apply SetIP_stored in Em as [? _].
      - by apply SetHost_stored in Em as [? _]. }
    destruct (slen (Hash q) =? 0)%nat eqn:El.
    - by apply GenerateHash_stored in Hb.
    - injection Hb as <-. split; [done|]. intros H0. by rewrite H0 in El. }
  split; [done|split; [done|]]. unfold BeforeSave.
  destruct (String.eqb_spec (IP p') "") as [He|He]; cbn [negb].
  { unfold stored in Hs. rewrite He in Hs. done. }
  rewrite SetHost_fixed by done.
  destruct (Hash p'); [done|]. done.
Qed.

(** Canonicalization of a proxy host: what it accepts is the canonical
    text of a zone-free address that is not IPv4-mapped, recorded as an
    address, or a lower-case host name of at most 253 bytes whose labels are
    well formed and which is no address; and canonicalizing the result again
    gives the same result. *)
Theorem canonicalizeProxyHost_canonical raw c ip :
  toASCII_stable -> canonicalizeProxyHost toASCII raw = Ok (c, ip) ->
  canonicalizeProxyHost toASCII c = Ok (c, ip) /\
  ((ip = Some c /\ exists a, ParseAddr c = Some a /\ Is4In6 a = false /\ Zone a = "" /\ c = to_string a) \/
   (ip = None /\ (slen c <= 253)%nat /\ ParseAddr c = None /\
    forallb validHostnameLabel (split_byte "." c) = true /\ to_lower c = c)).
Proof.
  intros Hst H. split; [by eapply canonical_fixed|].
  apply canonicalizeProxyHost_shape in H
    as [(-> & a & Hv & H4 & Hz & ->)|(-> & Hl & Hp & Hv & Hx & _)].
  - left. split; [done|]. exists a. by rewrite parse_print.
  - right. repeat (split; [done|]). by apply to_lower_labels, labels_chars.
Qed.
End Canonical.

Lemma canonicalizeProxyHost_canonical_witness :
  canonicalizeProxyHost (fun _ => Some "proxy.example") " Proxy.Example. " = Ok ("proxy.example", None) /\
  canonicalizeProxyHost (fun _ => Some "proxy.example") "proxy.example" = Ok ("proxy.example", None).
Proof.
  assert (canonicalizeProxyHost (fun _ => Some "proxy.example") " Proxy.Example. " =
    Ok ("proxy.example", None)) as H by (vm_compute; reflexivity).
  split; [exact H|].
  apply (canonicalizeProxyHost_canonical _ " Proxy.Example. "); [|exact H].
  intros h a [= <-]. vm_compute. reflexivity.
Defined.

Lemma BeforeSave_canonical_witness :
  let p := MkProxy 1 " ::ffff:10.0.0.1 " None 8080 "u" "p" [] None "" in
  let p' := MkProxy 1 "10.0.0.1" (Some "10.0.0.1") 8080 "u" "p" [] None "f" in
  BeforeSave (fun _ => Some "proxy.example") (fun _ _ _ _ => Some "f") p = Ok p' /\
  BeforeSave (fun _ => Some "proxy.example") (fun _ _ _ _ => Some "f") p' = Ok p'.
Proof.
  intros p p'.
  assert (BeforeSave (fun _ => Some "proxy.example") (fun _ _ _ _ => Some "f") p = Ok p') as H
    by (vm_compute; reflexivity).
  split; [exact H|].
  apply (BeforeSave_canonical _ _ p p').
  - intros h a [= <-]. vm_compute. reflexivity.
  - intros h port u pw f [= <-]. discriminate.
  - left. discriminate.
  - exact H.
Defined.
End ProxyModel.
