(* ===== verification/ProxyParse.v ===== *)
(** * [internal/support/proxy_helper.go], import side

    The parser of pasted and scraped proxy lists: one proxy per line, as
    [host:port], [host:port:user:pass], [user:pass@host:port] or
    [host:port@user:pass], with counters for what was refused and why. *)

From S2P Require Import Prelude GoStrings Netip NetipFacts GoNet ProxyModel.
From Stdlib Require Import Ascii.
Open Scope Z_scope.

Module ProxyParse.
Import Netip NetipFacts GoNet ProxyModel.

Record proxyParseOptions := MkOptions {
  allowIPv6 : bool;
  allowHostnames : bool;
  allowColonAuth : bool;
  allowSuffixAuth : bool
}.

Record ProxyParseStats := MkStats {
  SubmittedCount : Z;
  ParsedCount : Z;
  InvalidFormatCount : Z;
  InvalidAddressCount : Z;
  InvalidIPCount : Z;
  InvalidIPv4Count : Z;
  InvalidPortCount : Z
}.

Definition noStats : ProxyParseStats := MkStats 0 0 0 0 0 0 0.

Record parsedProxyLine := MkLine {
  host : string; port : string; username : string; password : string
}.

Definition clearProxyString (proxies : string) : string := remove_byte "013" proxies.

(** [strconv.Atoi] followed by the range check of a TCP port. *)
Definition isProxyPortSyntax (value : string) : bool :=
  match parse_int (trim_space value) with
  | Some port => (1 <=? port) && (port <=? 65535)
  | None => false
  end.

Fixpoint normalize_parts (parts : list string) : option (list string) :=
  match parts with
  | [] => Some []
  | part :: rest =>
      let part := trim_space part in
      let part := if String.eqb part "" then "0" else part in
      match parse_int part with
      | Some num =>
          if (num <? 0) || (255 <? num) then None
          else option_map (cons (itoa num)) (normalize_parts rest)
      | None => None
      end
  end.

Definition normalizeIPv4 (value : string) : string :=
  let parts := split_byte "." value in
  if negb (length parts =? 4)%nat then value
  else match normalize_parts parts with
       | Some normalized => join "." normalized
       | None => value
       end.

Definition parseProxyIP (value : string) : option Addr :=
  option_map Unmap (ParseAddr (normalizeIPv4 (trim_space value))).

Definition isProxyIP (value : string) : bool :=
  match parseProxyIP value with Some _ => true | None => false end.

(** Result of [splitProxyHostPort]: host, port and tail. *)
Definition splitProxyHostPort (value : string) : option (string * string * string) :=
  let value := trim_space value in
  if String.eqb value "" then None
  else
    match
      (if has_prefix "[" value then
         match index_byte "]" value with
         | Some closingBracket =>
             if (closingBracket <=? 1)%nat || (slen value <=? closingBracket + 1)%nat ||
                match snth (closingBracket + 1) value with
                | Some c => negb (code c =? 58)
                | None => true
                end
             then None
             else
               let host := trim_space (stake (closingBracket - 1) (sdrop 1 value)) in
               if isProxyIP host then Some (host, sdrop (closingBracket + 2) value) else None
         | None => None
         end
       else
         match index_byte ":" value with
         | Some separator =>
             if (separator =? 0)%nat || (slen value <=? separator + 1)%nat then None
             else Some (trim_space (stake separator value), sdrop (separator + 1) value)
         | None => None
         end)
    with
    | None => None
    | Some (host, value) =>
        let '(port, tail) :=
          match index_byte ":" value with
          | Some next => (trim_space (stake next value), trim_space (sdrop (next + 1) value))
          | None => (trim_space value, "")
          end in
        if String.eqb host "" || String.eqb port "" then None else Some (host, port, tail)
    end.

Definition splitProxyCredentials (value : string) : option (string * string) :=
  match split_n2 ":" (trim_space value) with
  | [u; p] => Some (trim_space u, trim_space p)
  | _ => None
  end.

Section Parse.
Context (toASCII : string -> option string).

Definition setParsedProxyHost (p : Proxy) (value : string) (allowHostnames : bool)
    : res host_error Proxy :=
  let value := normalizeIPv4 (trim_space value) in
  if allowHostnames then SetHost toASCII p value else SetIP p value.

Definition isProxyHost (value : string) (allowHostnames : bool) : bool :=
  match setParsedProxyHost emptyProxy value allowHostnames with
  | Ok _ => true
  | Err _ => false
  end.

Definition parseProxyLine (line : string) (options : proxyParseOptions) : option parsedProxyLine :=
  let line := trim_space line in
  if String.eqb line "" then None
  else
    match last_index_byte "@" line with
    | Some at_ =>
        let left := trim_space (stake at_ line) in
        let right := trim_space (sdrop (at_ + 1) line) in
        let '(rightHost, rightPort, rightTail, rightOK) :=
          match splitProxyHostPort right with
          | Some (h, p, t) => (h, p, t, true)
          | None => ("", "", "", false)
          end in
        let rightIsRoute :=
          rightOK && String.eqb rightTail "" && isProxyHost rightHost (allowHostnames options) in
        let '(leftHost, leftPort, leftTail, leftOK) :=
          match splitProxyHostPort left with
          | Some (h, p, t) => (h, p, t, true)
          | None => ("", "", "", false)
          end in
        let leftIsRoute :=
          allowSuffixAuth options && leftOK && String.eqb leftTail "" &&
          isProxyHost leftHost (allowHostnames options) in
        let preferSuffix :=
          leftIsRoute &&
          (negb rightIsRoute ||
           (negb (isProxyPortSyntax rightPort) && isProxyPortSyntax leftPort)) in
        if rightIsRoute && negb preferSuffix then
          match splitProxyCredentials left with
          | None => None
          | Some (username, password) => Some (MkLine rightHost rightPort username password)
          end
        else if leftIsRoute then
          match splitProxyCredentials right with
          | None => None
          | Some (username, password) => Some (MkLine leftHost leftPort username password)
          end
        else None
    | None =>
        match splitProxyHostPort line with
        | None => None
        | Some (host, port, tail) =>
            if String.eqb tail "" || negb (allowColonAuth options)
            then Some (MkLine host port "" "")
            else
              match splitProxyCredentials tail with
              | None => None
              | Some (username, password) => Some (MkLine host port username password)
              end
        end
    end.

(** One iteration of the loop over the lines: the proxy it appends, if any,
    and the counters after it. *)
Definition parse_step (options : proxyParseOptions) (stats : ProxyParseStats) (raw : string)
    : option Proxy * ProxyParseStats :=
  let '(MkStats sub ok fmt addr ip ip4 prt) := stats in
  let line := trim_space raw in
  if String.eqb line "" then (None, stats)
  else
    let sub := sub + 1 in
    match parseProxyLine line options with
    | None => (None, MkStats sub ok (fmt + 1) addr ip ip4 prt)
    | Some parsedLine =>
        let proxy :=
          MkProxy 0 "" None 0 (username parsedLine) (password parsedLine) [] None "" in
        match setParsedProxyHost proxy (host parsedLine) (allowHostnames options) with
        | Err _ => (None, MkStats sub ok fmt (addr + 1) (ip + 1) ip4 prt)
        | Ok proxy =>
            let ipText := GetIPAddress proxy in
            if negb (String.eqb ipText "") && contains_byte ":" ipText &&
               negb (allowIPv6 options)
            then (None, MkStats sub ok fmt addr ip (ip4 + 1) prt)
            else
              match parse_int (port parsedLine) with
              | Some n =>
                  if (n <? 1) || (65535 <? n)
                  then (None, MkStats sub ok fmt addr ip ip4 (prt + 1))
                  else
                    (Some (MkProxy (ID proxy) (IP proxy) (IPAddress proxy) (wrap_u16 n)
                             (Username proxy) (Password proxy) (Workspaces proxy)
                             (QueueLease proxy) (Hash proxy)),
                     MkStats sub (ok + 1) fmt addr ip ip4 prt)
              | None => (None, MkStats sub ok fmt addr ip ip4 (prt + 1))
              end
        end
    end.

Fixpoint parse_lines (options : proxyParseOptions) (stats : ProxyParseStats) (lines : list string)
    : list Proxy * ProxyParseStats :=
  match lines with
  | [] => ([], stats)
  | raw :: rest =>
      let '(p, stats) := parse_step options stats raw in
      let '(ps, stats) := parse_lines options stats rest in
      (match p with Some p => p :: ps | None => ps end, stats)
  end.

Definition parseTextToProxiesWithStats (text : string) (options : proxyParseOptions)
    : list Proxy * ProxyParseStats :=
  parse_lines options noStats (split_byte "010" (clearProxyString text)).

Definition ParseTextToProxies (text : string) : list Proxy :=
  (parseTextToProxiesWithStats text (MkOptions true true true true)).1.

Definition ParseTextToProxiesWithStats (text : string) : list Proxy * ProxyParseStats :=
  parseTextToProxiesWithStats text (MkOptions true true true true).

Definition ParseScrapedTextToIPv4Proxies (text : string) : list Proxy :=
  (parseTextToProxiesWithStats text (MkOptions false false false false)).1.
End Parse.

(** ** [FindIP]: the first maximal run of address characters that parses *)

Definition ip_candidate_char (c : ascii) : bool :=
  is_digit c || ((65 <=? code c) && (code c <=? 70)) || ((97 <=? code c) && (code c <=? 102)) ||
  (code c =? 58) || (code c =? 46).

(** The maximal runs of [ip_candidate_char], left to right; [cur] is the run
    being read, in reverse. *)
Fixpoint ip_candidates (cur : list ascii) (s : string) : list string :=
  match s with
  | EmptyString => match cur with [] => [] | _ => [of_bytes (rev cur)] end
  | String c r =>
      if ip_candidate_char c then ip_candidates (c :: cur) r
      else match cur with
           | [] => ip_candidates [] r
           | _ => of_bytes (rev cur) :: ip_candidates [] r
           end
  end.

Definition FindIP (input : string) : string :=
  match first_match (fun candidate => option_map to_string (parseProxyIP candidate))
          (ip_candidates [] input) with
  | Some s => s
  | None => ""
  end.

(** [GetProxyLevel] with the configured address and header list as arguments. *)
Definition GetProxyLevel (currentIp : string) (proxyHeader : list string) (html : string) : Z :=
  if contains_str currentIp html then 3
  else if existsb (fun header => contains_str header html) proxyHeader then 2
  else 1.

(** ** What the parser produces *)

Section Correct.
Context (toASCII : string -> option string).

Definition rejected (st : ProxyParseStats) : Z :=
  InvalidFormatCount st + InvalidAddressCount st + InvalidIPv4Count st + InvalidPortCount st.

(** A route the options allow. *)
Definition acceptable (options : proxyParseOptions) (p : Proxy) : Prop :=
  stored toASCII p /\ 1 <= Port p <= 65535 /\
  (allowHostnames options = false -> IPAddress p = Some (IP p)) /\
  (allowIPv6 options = false -> contains_byte ":" (GetIPAddress p) = false) /\
  ID p = 0 /\ Workspaces p = [] /\ QueueLease p = None /\ Hash p = "".

Lemma setParsedProxyHost_stored p v allow p' :
  toASCII_stable toASCII -> setParsedProxyHost toASCII p v allow = Ok p' ->
  stored toASCII p' /\ (allow = false -> IPAddress p' = Some (IP p')) /\
  ID p' = ID p /\ Workspaces p' = Workspaces p /\ QueueLease p' = QueueLease p /\
  Hash p' = Hash p /\ Username p' = Username p /\ Password p' = Password p.
Proof.
  intros Hst. unfold setParsedProxyHost. destruct allow; intros H.
  - pose proof (SetHost_stored toASCII _ _ _ Hst H) as [Hs _]. split; [done|]. split; [done|].
    unfold SetHost in H. destruct (canonicalizeProxyHost _ _) as [[c ip]|]; [|done].
    by injection H as <-.
  - pose proof (SetIP_stored toASCII _ _ _ H) as [Hs _]. split; [done|].
    unfold SetIP in H. destruct (ParseAddr _) as [a|]; [|done]. destruct (String.eqb _ _); [|done].
    by injection H as <-.
Qed.

Lemma parse_step_counts options st raw q st' :
  parse_step toASCII options st raw = (q, st') ->
  SubmittedCount st' - SubmittedCount st =
    (ParsedCount st' - ParsedCount st) + (rejected st' - rejected st) /\
  ParsedCount st' - ParsedCount st = (match q with Some _ => 1 | None => 0 end) /\
  InvalidIPCount st' - InvalidIPCount st = InvalidAddressCount st' - InvalidAddressCount st.
Proof.
  destruct st as [sub ok fmt ad ip ip4 prt]. unfold parse_step, rejected. cbn zeta.
  repeat case_match; intros; simplify_eq; cbn; lia.
Qed.

Lemma parse_step_acceptable options st raw q st' :
  toASCII_stable toASCII ->
  parse_step toASCII options st raw = (Some q, st') -> acceptable options q.
Proof.
  intros Hst. destruct st as [sub ok fmt ad ip ip4 prt]. unfold parse_step. cbn zeta.
  destruct (String.eqb (trim_space raw) ""); [done|].
  destruct (parseProxyLine _ _ _) as [l|]; [|done].
  destruct (setParsedProxyHost _ _ _ _) as [p|] eqn:E; [|done].
  apply setParsedProxyHost_stored in E as (Hs & Hn & HID & Hws & Hlq & Hh & _); [|done].
  destruct (negb (String.eqb (GetIPAddress p) "") && _ && _) eqn:E6; [done|].
  destruct (parse_int (port l)) as [n|]; [|done].
  destruct ((n <? 1) || (65535 <? n)) eqn:En; [done|]. breflect.
  intros [= <- <-]. unfold acceptable. cbn -[wrap_u16].
  split; [exact Hs|]. split.
  { unfold wrap_u16, wrap_unsigned. rewrite Z.mod_small; lia. }
  split; [exact Hn|]. split; [|done].
  intros H6. rewrite H6, andb_true_r in E6. change (contains_byte ":" (GetIPAddress p) = false).
  destruct (String.eqb_spec (GetIPAddress p) "") as [->|Hne]; done.
Qed.

Lemma parse_lines_counts options lines st ps st' :
  parse_lines toASCII options st lines = (ps, st') ->
  SubmittedCount st' - SubmittedCount st =
    (ParsedCount st' - ParsedCount st) + (rejected st' - rejected st) /\
  ParsedCount st' - ParsedCount st = Z.of_nat (length ps) /\
  InvalidIPCount st' - InvalidIPCount st = InvalidAddressCount st' - InvalidAddressCount st.
Proof.
  revert st ps st'. induction lines as [|raw lines IH]; intros st ps st'; cbn [parse_lines].
  { intros [= <- <-]. cbn. lia. }
  destruct (parse_step _ _ _ _) as [q st1] eqn:E1. apply parse_step_counts in E1.
  destruct (parse_lines _ _ _ _) as [qs st2] eqn:E2. apply IH in E2.
  intros [= <- <-]. destruct q; cbn [length] in *; lia.
Qed.

Lemma parse_lines_acceptable options lines st ps st' :
  toASCII_stable toASCII ->
  parse_lines toASCII options st lines = (ps, st') -> Forall (acceptable options) ps.
Proof.
  intros Hst. revert st ps st'. induction lines as [|raw lines IH]; intros st ps st'; cbn [parse_lines].
  { intros [= <- <-]. constructor. }
  destruct (parse_step _ _ _ _) as [q st1] eqn:E1.
  destruct (parse_lines _ _ _ _) as [qs st2] eqn:E2. apply IH in E2.
  intros [= <- <-]. destruct q; [|done].
  constructor; [|done]. by eapply parse_step_acceptable.
Qed.

(** Every non-blank line of an import is counted once: as parsed, or under
    exactly one of the four refusals; the parsed counter is the number of
    proxies returned, and the compatibility counter [InvalidIPCount] equals
    [InvalidAddressCount]. *)
Theorem parse_stats_add_up text options :
  let '(proxies, st) := parseTextToProxiesWithStats toASCII text options in
  SubmittedCount st = ParsedCount st + rejected st /\
  ParsedCount st = Z.of_nat (length proxies) /\
  InvalidIPCount st = InvalidAddressCount st.
Proof.
  unfold parseTextToProxiesWithStats.
  destruct (parse_lines _ _ _ _) as [ps st] eqn:E. apply parse_lines_counts in E.
  unfold rejected in *. cbn in E. lia.
Qed.

(** Every proxy an import returns has a canonical host and a port between
    1 and 65535, respects the options (an address when host names are refused,
    no IPv6 when only IPv4 is allowed) and carries no identity, workspace,
    lease or fingerprint. *)
Theorem parse_acceptable text options :
  toASCII_stable toASCII ->
  Forall (acceptable options) (parseTextToProxiesWithStats toASCII text options).1.
Proof.
  intros Hst. unfold parseTextToProxiesWithStats.
  destruct (parse_lines _ _ _ _) as [ps st] eqn:E. by apply parse_lines_acceptable in E.
Qed.

(** ** Reading a printed route back *)

Lemma parse_int_bad s c :
  c ∈ bytes s -> is_digit c = false -> code c <> 43 -> code c <> 45 -> parse_int s = None.
Proof.
  intros Hc Hd H1 H2. destruct (parse_int s) as [z|] eqn:E; [|done].
  apply parse_int_chars in E. rewrite Forall_forall in E. specialize (E c Hc). naive_solver congruence.
Qed.

Lemma normalize_parts_bad l part c :
  part ∈ l -> c ∈ bytes part -> printable c -> is_digit c = false -> code c <> 43 ->
  code c <> 45 -> normalize_parts l = None.
Proof.
  intros Hp Hc Hpr Hd H1 H2. induction l as [|x l IH]; [inversion Hp|].
  apply elem_of_cons in Hp. cbn [normalize_parts].
  destruct Hp as [->|Hp].
  - pose proof (trim_space_keeps x c Hc Hpr) as Hk.
    destruct (String.eqb_spec (trim_space x) "") as [E|E]; [rewrite E in Hk; inversion Hk|].
    by rewrite (parse_int_bad _ c).
  - destruct (parse_int _); [|done]. destruct (_ || _); [done|]. by rewrite IH.
Qed.

(** Text that is no dotted decimal keeps its form. *)
Lemma normalizeIPv4_fixed s c :
  c ∈ bytes s -> printable c -> c <> "."%char -> is_digit c = false -> code c <> 43 ->
  code c <> 45 -> normalizeIPv4 s = s.
Proof.
  intros Hc Hpr Hdot Hd H1 H2. unfold normalizeIPv4. destruct (negb _); [done|].
  destruct (in_split_byte "." s c Hc Hdot) as (l & Hl & Hcl).
  by rewrite (normalize_parts_bad _ l c).
Qed.

Lemma normalize_parts_octets l :
  Forall (fun z => 0 <= z < 256) l -> normalize_parts (map itoa l) = Some (map itoa l).
Proof.
  induction 1 as [|z l Hz Hl IH]; [done|]. cbn [map normalize_parts].
  rewrite trim_space_printable.
  2:{ eapply Forall_impl; [apply itoa_digits; lia|]. apply digit_printable. }
  rewrite (proj2 (String.eqb_neq _ _)) by (apply itoa_nonempty; lia).
  rewrite parse_int_itoa by (unfold in_i64; lia).
  rewrite (proj2 (Z.ltb_ge z 0)), (proj2 (Z.ltb_ge 255 z)) by lia. cbn [orb]. by rewrite IH.
Qed.

Lemma itoa_no_dot z : 0 <= z -> index_byte "." (itoa z) = None.
Proof.
  intros Hz. apply index_byte_None. eapply Forall_impl; [by apply itoa_digits|].
  by intros c Hc ->.
Qed.

Lemma normalizeIPv4_string4 v : normalizeIPv4 (string4 v) = string4 v.
Proof.
  pose proof (byte_at_range v) as R. unfold normalizeIPv4, string4.
  set (l := [byte_at v 24; byte_at v 16; byte_at v 8; byte_at v 0]).
  change [itoa (byte_at v 24); itoa (byte_at v 16); itoa (byte_at v 8); itoa (byte_at v 0)]
    with (map itoa l).
  assert (Hl : Forall (fun z => 0 <= z < 256) l) by (subst l; forall_list; apply R).
  rewrite (split_join_byte "."); [|done|].
  - by rewrite normalize_parts_octets.
  - apply Forall_map. eapply Forall_impl; [exact Hl|]. intros z Hz. apply itoa_no_dot. cbn in Hz. lia.
Qed.

Lemma scan_v6_colon s w v z : ParseAddr_scan s w = Some (Addr6 v z) -> exists c, c ∈ bytes s /\ code c = 58.
Proof.
  induction s as [|c s IH]; cbn [ParseAddr_scan bytes]; [done|].
  destruct (code c =? 46).
  { unfold parseIPv4. destruct (parse_ipv4_fields _ _ _ _ _) as [l|]; [|done].
    repeat (destruct l as [|? l]; try done). }
  destruct (code c =? 58) eqn:E; breflect.
  { intros _. exists c. split; [by left|done]. }
  destruct (code c =? 37); [done|]. intros H. destruct (IH H) as (d & Hd & ?). exists d. split; [by right|done].
Qed.

(** What a stored host is made of. *)
Definition host_char (c : ascii) : Prop :=
  code c = 45 \/ code c = 46 \/ 48 <= code c <= 58 \/ 97 <= code c <= 122.

Lemma stored_host p : stored toASCII p ->
  Forall host_char (bytes (IP p)) /\ IP p <> "" /\
  normalizeIPv4 (IP p) = IP p /\
  (contains_byte ":" (IP p) = true -> isProxyIP (IP p) = true).
Proof.
  unfold stored. intros H. apply canonicalizeProxyHost_shape in H
    as [(_ & a & Hv & H4 & Hz & Ha)|(_ & _ & _ & Hv & Hx & _)].
  - pose proof (to_string_addr_char a Hz H4) as Hc. rewrite <- Ha in Hc.
    assert (Hn : normalizeIPv4 (IP p) = IP p).
    { destruct a as [v|v z].
      - rewrite Ha. apply normalizeIPv4_string4.
      - pose proof (parse_print _ Hv H4 Hz) as Hpp. rewrite <- Ha in Hpp.
        apply scan_v6_colon in Hpp as (c & Hcin & Hcc).
        apply (normalizeIPv4_fixed _ c);
          [done|unfold printable; lia|by intros ->|unfold is_digit; by rewrite Hcc|lia|lia]. }
    split; [eapply Forall_impl; [exact Hc|]; unfold addr_char, host_char; intros; lia|].
    split; [rewrite Ha; by apply parse_print_nonempty|]. split; [done|].
    intros _. unfold isProxyIP, parseProxyIP. rewrite trim_space_printable, Hn.
    + by rewrite Ha, parse_print.
    + eapply Forall_impl; [exact Hc|]. unfold addr_char, printable. lia.
  - pose proof (labels_chars _ Hv) as Hc.
    assert (Hh : Forall host_char (bytes (IP p))).
    { eapply Forall_impl; [exact Hc|]. intros c [Hcc|Hcc]; unfold host_char; [|lia].
      apply label_char_bounds in Hcc. lia. }
    split; [done|]. split; [by intros He; rewrite He in Hv|]. split.
    + apply existsb_exists in Hx as (l & Hl' & Hb). apply any_byte_exists in Hb as (c & Hcl & Hlow).
      apply list_elem_of_In in Hl'. pose proof (split_byte_sub "." _ l c Hl' Hcl) as Hcin.
      unfold is_lower in Hlow. breflect.
      apply (normalizeIPv4_fixed _ c);
        [done|unfold printable; lia|intros ->; unfold code in *; cbn in *; lia| |lia|lia].
      unfold is_digit. by rewrite (proj2 (Z.leb_gt (code c) 57)), andb_false_r by lia.
    + rewrite contains_byte_true. rewrite Forall_forall in Hc. intros Hin.
      apply Hc in Hin as [Hin|Hin]; [apply label_char_bounds in Hin|]; unfold code in Hin; cbn in Hin; lia.
Qed.

Lemma host_char_printable s : Forall host_char (bytes s) -> Forall printable (bytes s).
Proof. intros H. eapply Forall_impl; [exact H|]. unfold host_char, printable. intros; lia. Qed.

Lemma host_char_neq s c : Forall host_char (bytes s) -> ~ host_char c -> index_byte c s = None.
Proof. intros H Hc. apply index_byte_None. eapply Forall_impl; [exact H|]. by intros d Hd ->. Qed.

Lemma digits_host_char s : Forall (fun c => is_digit c = true) (bytes s) -> Forall host_char (bytes s).
Proof.
  intros H. eapply Forall_impl; [exact H|]. unfold host_char, is_digit. intros c Hc. breflect. lia.
Qed.

Lemma host_char_special c : c ∈ ["@"; "["; "]"; "%"; "010"; "013"]%char -> ~ host_char c.
Proof.
  rewrite !elem_of_cons, elem_of_nil. unfold host_char, code.
  intros [->|[->|[->|[->|[->|[->|[]]]]]]]; cbn; lia.
Qed.

Lemma digits_no_colon s : Forall (fun c => is_digit c = true) (bytes s) -> index_byte ":" s = None.
Proof. intros H. apply index_byte_None. eapply Forall_impl; [exact H|]. by intros c Hc ->. Qed.

(** Splitting a bracketed and a plain route. *)
Lemma split_bracketed h po :
  Forall host_char (bytes h) -> h <> "" -> isProxyIP h = true ->
  Forall (fun c => is_digit c = true) (bytes po) -> po <> "" ->
  splitProxyHostPort (String "[" (h +:+ String "]" (String ":" po))) = Some (h, po, "").
Proof.
  intros Hh Hne Hip Hpo Hpne. pose proof (slen_nonempty _ Hne). pose proof (slen_nonempty _ Hpne).
  pose proof (host_char_printable _ Hh) as Hpr.
  pose proof (host_char_printable _ (digits_host_char _ Hpo)) as Hppr.
  unfold splitProxyHostPort. rewrite trim_space_printable.
  2:{ cbn [bytes]. rewrite bytes_app. cbn [bytes].
      constructor; [done|]. apply Forall_app. split; [done|]. by constructor; [|constructor]. }
  cbn [String.eqb has_prefix]. rewrite bool_decide_eq_true_2 by done. cbn [andb index_byte].
  rewrite bool_decide_eq_false_2 by done.
  rewrite index_byte_app by (apply host_char_neq; [done|apply host_char_special; set_solver]).
  cbn [option_map slen]. rewrite slen_app. cbn [slen].
  rewrite (proj2 (Nat.leb_gt _ _)) by lia. rewrite (proj2 (Nat.leb_gt _ _)) by lia. cbn [orb].
  replace (S (slen h) + 1)%nat with (S (slen h + 1)) by lia. cbn [snth].
  rewrite snth_app. cbn [snth]. change (negb (code ":" =? 58)) with false. cbn iota.
  replace (S (slen h) - 1)%nat with (slen h) by lia. cbn [sdrop]. rewrite stake_app.
  rewrite trim_space_printable, Hip by done.
  replace (S (slen h) + 2)%nat with (S (slen h + 2)) by lia. cbn [sdrop].
  rewrite sdrop_app_add. cbn [sdrop]. rewrite digits_no_colon, trim_space_printable by done.
  by rewrite (proj2 (String.eqb_neq _ _) Hne), (proj2 (String.eqb_neq _ _) Hpne).
Qed.

Lemma split_plain h po :
  Forall host_char (bytes h) -> h <> "" -> contains_byte ":" h = false ->
  Forall (fun c => is_digit c = true) (bytes po) -> po <> "" ->
  splitProxyHostPort (h +:+ String ":" po) = Some (h, po, "").
Proof.
  intros Hh Hne Hco Hpo Hpne. pose proof (slen_nonempty _ Hne). pose proof (slen_nonempty _ Hpne).
  pose proof (host_char_printable _ Hh) as Hpr.
  pose proof (host_char_printable _ (digits_host_char _ Hpo)) as Hppr.
  assert (Hco' : index_byte ":" h = None) by (unfold contains_byte in Hco; by destruct (index_byte _ _)).
  unfold splitProxyHostPort. rewrite trim_space_printable.
  2:{ rewrite bytes_app. apply Forall_app. split; [done|]. by constructor. }
  destruct h as [|c h]; [done|]. rewrite str_app_cons. cbn [String.eqb].
  rewrite has_byte_first, <- str_app_cons.
  2:{ intros ->. apply Forall_cons in Hh as [Hh _]. revert Hh. apply host_char_special. set_solver. }
  rewrite index_byte_app by done. rewrite slen_app. cbn [slen] in *.
  rewrite (proj2 (Nat.eqb_neq _ _)) by lia. rewrite (proj2 (Nat.leb_gt _ _)) by lia. cbn [orb].
  change (S (slen h)) with (slen (String c h)). rewrite stake_app, sdrop_app_add. cbn [sdrop].
  rewrite digits_no_colon, !trim_space_printable by done.
  by rewrite (proj2 (String.eqb_neq _ _) Hne), (proj2 (String.eqb_neq _ _) Hpne).
Qed.

(** A stored route with a usable port. *)
Definition routable (p : Proxy) : Prop := stored toASCII p /\ 1 <= Port p <= 65535.

Lemma split_full p : routable p ->
  splitProxyHostPort (GetFullProxy p) = Some (IP p, itoa (Port p), "") /\
  Forall printable (bytes (GetFullProxy p)) /\ index_byte "@" (GetFullProxy p) = None.
Proof.
  intros [Hs Hp]. destruct (stored_host p Hs) as (Hh & Hne & _ & Hip).
  pose proof (itoa_digits (Port p)) as Hd. pose proof (itoa_nonempty (Port p)) as Hpn.
  specialize (Hd ltac:(lia)). specialize (Hpn ltac:(lia)).
  pose proof (host_char_printable _ Hh) as Hpr.
  pose proof (host_char_printable _ (digits_host_char _ Hd)) as Hppr.
  assert (Hat : ~ host_char "@") by (apply host_char_special; set_solver).
  assert (Hin : forall s, Forall host_char (bytes s) -> Forall (fun c => c <> "@"%char) (bytes s)).
  { intros s Hc. eapply Forall_impl; [exact Hc|]. by intros c ? ->. }
  unfold GetFullProxy, GetHost. rewrite (proj2 (String.eqb_neq _ _) Hne). cbn [negb].
  unfold JoinHostPort. destruct (contains_byte ":" (IP p)) eqn:Hco.
  - rewrite !str_app_cons, !str_app_nil_l. split; [|split].
    + apply split_bracketed; auto.
    + cbn [bytes]. rewrite bytes_app. cbn [bytes]. constructor; [done|].
      apply Forall_app. split; [done|]. by constructor; [|constructor].
    + apply index_byte_None. cbn [bytes]. rewrite bytes_app. cbn [bytes]. constructor; [done|].
      apply Forall_app. split; [by apply Hin|]. constructor; [done|]. constructor; [done|].
      by apply Hin, digits_host_char.
  - rewrite !str_app_cons, !str_app_nil_l. split; [|split].
    + by apply split_plain.
    + rewrite bytes_app. cbn [bytes]. apply Forall_app. split; [done|]. by constructor.
    + apply index_byte_None. rewrite bytes_app. cbn [bytes].
      apply Forall_app. split; [by apply Hin|]. constructor; [done|]. by apply Hin, digits_host_char.
Qed.

Lemma setParsedProxyHost_fixed q p : stored toASCII p ->
  setParsedProxyHost toASCII q (IP p) true = Ok (with_host q (IP p) (IPAddress p)).
Proof.
  intros Hs. destruct (stored_host p Hs) as (Hh & _ & Hn & _).
  unfold setParsedProxyHost. rewrite trim_space_printable by by apply host_char_printable.
  rewrite Hn. unfold SetHost. by rewrite Hs.
Qed.

Lemma isProxyPortSyntax_itoa n : 1 <= n <= 65535 -> isProxyPortSyntax (itoa n) = true.
Proof.
  intros Hn. unfold isProxyPortSyntax. rewrite trim_space_printable.
  2:{ eapply Forall_impl; [apply itoa_digits; lia|]. apply digit_printable. }
  rewrite parse_int_itoa by (unfold in_i64; lia).
  apply andb_true_iff. split; apply Z.leb_le; lia.
Qed.

(** The imported form of a route: what an import keeps of it. *)
Definition imported (p : Proxy) : Proxy :=
  MkProxy 0 (IP p) (IPAddress p) (Port p) (Username p) (Password p) [] None "".

Definition anonymous (p : Proxy) : Proxy :=
  MkProxy 0 (IP p) (IPAddress p) (Port p) "" "" [] None "".

(** Credentials a line can carry: printable ASCII, and no colon in the user
    name. *)
Definition printable_credentials (p : Proxy) : Prop :=
  Forall printable (bytes (Username p)) /\ Forall printable (bytes (Password p)) /\
  index_byte ":" (Username p) = None.

Definition auth_line (p : Proxy) : string :=
  (Username p +:+ String ":" (Password p)) +:+ String "@" (GetFullProxy p).

Definition manual : proxyParseOptions := MkOptions true true true true.

Lemma split_credentials u pw :
  Forall printable (bytes u) -> Forall printable (bytes pw) -> index_byte ":" u = None ->
  splitProxyCredentials (u +:+ String ":" pw) = Some (u, pw).
Proof.
  intros Hu Hp Hc. unfold splitProxyCredentials. rewrite trim_space_printable.
  2:{ apply Forall_bytes_app. split; [done|]. by constructor. }
  unfold split_n2. rewrite index_byte_app by done.
  rewrite stake_app, <- Nat.add_1_r, sdrop_app_add. cbn [sdrop].
  by rewrite !trim_space_printable.
Qed.

Lemma parse_auth_line p : routable p -> printable_credentials p ->
  parseProxyLine toASCII (auth_line p) manual =
    Some (MkLine (IP p) (itoa (Port p)) (Username p) (Password p)) /\
  Forall printable (bytes (auth_line p)).
Proof.
  intros Hr (Hu & Hp & Hc). destruct (split_full p Hr) as (Hsf & Hpf & Hat).
  destruct Hr as [Hs Hport].
  assert (Hl : Forall printable (bytes (Username p +:+ String ":" (Password p)))).
  { apply Forall_bytes_app. split; [done|]. by constructor. }
  assert (Hall : Forall printable (bytes (auth_line p))).
  { apply Forall_bytes_app. split; [done|]. by constructor. }
  split; [|done]. unfold parseProxyLine. rewrite trim_space_printable by done.
  rewrite (proj2 (String.eqb_neq (auth_line p) "")).
  2:{ unfold auth_line. by destruct (Username p). }
  unfold auth_line. set (left := Username p +:+ String ":" (Password p)) in *.
  assert (Hsc : splitProxyCredentials left = Some (Username p, Password p))
    by by apply split_credentials.
  rewrite last_index_byte_app by done. cbn zeta iota.
  rewrite !stake_app, !sdrop_app_add. cbn [sdrop].
  rewrite (trim_space_printable left), (trim_space_printable (GetFullProxy p)), Hsf by done.
  cbn [String.eqb manual allowHostnames allowSuffixAuth].
  assert (Hroute : isProxyHost toASCII (IP p) true = true).
  { unfold isProxyHost. by rewrite setParsedProxyHost_fixed. }
  rewrite Hroute. cbn [andb negb orb].
  rewrite isProxyPortSyntax_itoa by done.
  destruct (splitProxyHostPort left) as [[[h0 p0] t0]|];
    cbn [andb negb orb]; rewrite ?andb_false_r; cbn [andb negb orb];
    by rewrite Hsc.
Qed.

Lemma parse_plain_line p : routable p ->
  parseProxyLine toASCII (GetFullProxy p) manual =
    Some (MkLine (IP p) (itoa (Port p)) "" "").
Proof.
  intros Hr. destruct (split_full p Hr) as (Hsf & Hpf & Hat).
  unfold parseProxyLine. rewrite trim_space_printable by done.
  destruct (String.eqb_spec (GetFullProxy p) "") as [E|E]; [by rewrite E in Hsf|].
  by rewrite last_index_byte_None, Hsf by done.
Qed.

Definition parsed_one (st : ProxyParseStats) : ProxyParseStats :=
  MkStats (SubmittedCount st + 1) (ParsedCount st + 1) (InvalidFormatCount st)
    (InvalidAddressCount st) (InvalidIPCount st) (InvalidIPv4Count st) (InvalidPortCount st).

Lemma parse_step_line st p line u pw : routable p -> line <> "" ->
  Forall printable (bytes line) ->
  parseProxyLine toASCII line manual = Some (MkLine (IP p) (itoa (Port p)) u pw) ->
  parse_step toASCII manual st line =
    (Some (MkProxy 0 (IP p) (IPAddress p) (Port p) u pw [] None ""), parsed_one st).
Proof.
  intros [Hs Hport] Hne Hpr Hpl. destruct st as [sub ok fmt ad ip ip4 prt].
  unfold parse_step. rewrite trim_space_printable, (proj2 (String.eqb_neq _ _) Hne), Hpl by done.
  cbn [host username password port manual allowHostnames allowIPv6].
  rewrite setParsedProxyHost_fixed by done. cbn [negb]. rewrite andb_false_r.
  rewrite parse_int_itoa by (unfold in_i64; lia).
  rewrite (proj2 (Z.ltb_ge (Port p) 1)), (proj2 (Z.ltb_ge 65535 (Port p))) by lia.
  cbn [orb]. unfold wrap_u16, wrap_unsigned. by rewrite Z.mod_small by lia.
Qed.

(** The text of a list of lines, each ended by a line feed. *)
Fixpoint text_of (lines : list string) : string :=
  match lines with
  | [] => ""
  | l :: rest => l +:+ String "010" (text_of rest)
  end.

Lemma text_of_clean lines : Forall (fun l => Forall printable (bytes l)) lines ->
  clearProxyString (text_of lines) = text_of lines /\
  split_byte "010" (text_of lines) = lines ++ [""].
Proof.
  intros H. assert (Hno : forall c, code c < 33 -> c <> "010"%char \/ c = "010"%char ->
    Forall (fun l => Forall (fun d => d <> c) (bytes l)) lines).
  { intros c Hc _. eapply Forall_impl; [exact H|]. intros l Hl. eapply Forall_impl; [exact Hl|].
    unfold printable. intros d Hd ->. lia. }
  split.
  - apply remove_byte_id. specialize (Hno "013"%char ltac:(done) ltac:(by left)). clear H.
    induction Hno as [|l lines Hl Hls IH]; cbn [text_of]; [constructor|].
    apply Forall_bytes_app. split; [done|]. by constructor.
  - specialize (Hno "010"%char ltac:(done) ltac:(by right)). clear H.
    induction Hno as [|l lines Hl Hls IH]; cbn [text_of]; [done|].
    rewrite split_byte_app by by apply index_byte_None. by rewrite IH.
Qed.

Lemma parse_lines_blank st lines ps :
  Forall2 (fun l p => forall st, parse_step toASCII manual st l = (Some p, parsed_one st)) lines ps ->
  (parse_lines toASCII manual st (lines ++ [""])).1 = ps.
Proof.
  intros H. revert st. induction H as [|l p lines ps Hl Hls IH]; intros st.
  - cbn. by destruct st.
  - cbn [app parse_lines]. rewrite Hl. specialize (IH (parsed_one st)).
    destruct (parse_lines _ _ _ _) as [qs st2]. cbn in *. by rewrite IH.
Qed.

(** Lines that parse one by one parse together. *)
Lemma parse_text lines ps :
  Forall (fun l => Forall printable (bytes l)) lines ->
  Forall2 (fun l p => forall st, parse_step toASCII manual st l = (Some p, parsed_one st)) lines ps ->
  ParseTextToProxies toASCII (text_of lines) = ps.
Proof.
  intros Hpr H. destruct (text_of_clean lines Hpr) as [Hc Hs].
  unfold ParseTextToProxies, parseTextToProxiesWithStats. rewrite Hc, Hs.
  change (MkOptions true true true true) with manual. by apply parse_lines_blank.
Qed.

Lemma parse_auth_lines ps : Forall routable ps -> Forall printable_credentials ps ->
  ParseTextToProxies toASCII (text_of (map auth_line ps)) = map imported ps.
Proof.
  intros Hr Hc. apply parse_text.
  - apply Forall_map, Forall_forall. intros p Hp. rewrite Forall_forall in Hr, Hc.
    by apply parse_auth_line; [apply Hr|apply Hc].
  - apply Forall2_fmap, Forall_Forall2_diag, Forall_forall. intros p Hp st.
    rewrite Forall_forall in Hr, Hc. destruct (parse_auth_line p (Hr p Hp) (Hc p Hp)).
    apply parse_step_line; auto. unfold auth_line. by destruct (Username p).
Qed.

Lemma parse_plain_lines ps : Forall routable ps ->
  ParseTextToProxies toASCII (text_of (map GetFullProxy ps)) = map anonymous ps.
Proof.
  intros Hr. rewrite Forall_forall in Hr. apply parse_text.
  - apply Forall_map, Forall_forall. intros p Hp. by apply split_full, Hr.
  - apply Forall2_fmap, Forall_Forall2_diag, Forall_forall. intros p Hp st.
    destruct (split_full p (Hr p Hp)) as (Hsf & Hpf & _).
    apply parse_step_line; auto; [|by apply parse_plain_line, Hr].
    intros E. by rewrite E in Hsf.
Qed.
End Correct.

Lemma parse_acceptable_witness :
  let r := parseTextToProxiesWithStats (fun _ => None) "10.0.0.1:80" (MkOptions false false false false) in
  r.1 = [MkProxy 0 "10.0.0.1" (Some "10.0.0.1") 80 "" "" [] None ""] /\
  Forall (acceptable (fun _ => None) (MkOptions false false false false)) r.1.
Proof.
  intros r. split; [vm_compute; reflexivity|].
  apply parse_acceptable. intros h a H. discriminate H.
Defined.
End ProxyParse.
