(* ===== verification/ProxyFormat.v ===== *)
(** * [internal/support/proxy_helper.go], export side

    Formatting routes for download: the template replacer and the derived
    fields (latest statistic, overall liveness, exported reputation).  The
    templates [ip:port] and [username:password@ip:port] are read back by the
    import parser of [ProxyParse]. *)

From S2P Require Import Prelude GoStrings Netip NetipFacts ProxyModel ProxyParse.
From Stdlib Require Import Ascii SpecFloat.
Open Scope Z_scope.

Module ProxyFormat.
Import ProxyModel ProxyParse.

Definition ProxyReputationKindOverall : string := "overall".

Record ProxyStatistic := MkStat {
  StatID : Z;
  Alive : bool;
  ResponseTime : Z;
  ProtocolID : Z;
  ProtocolName : string;
  CreatedAt : Z
}.

Record ProxyReputation := MkReputation { Kind : string; Score : spec_float; Label : string }.

(** A route with the columns and associations the export reads. *)
Record ProxyExport := MkExport {
  route : Proxy;
  Country : string;
  EstimatedType : string;
  Statistics : list ProxyStatistic;
  Reputations : list ProxyReputation
}.

Definition getProtocolName (stat : option ProxyStatistic) : string :=
  match stat with Some s => ProtocolName s | None => "" end.

Definition newer (candidate latest : ProxyStatistic) : bool :=
  (CreatedAt latest <? CreatedAt candidate) ||
  ((CreatedAt candidate =? CreatedAt latest) && (StatID latest <? StatID candidate)).

Definition latestStatistic (stats : list ProxyStatistic) : option ProxyStatistic :=
  match stats with
  | [] => None
  | first :: rest =>
      Some (fold_left (fun latest candidate => if newer candidate latest then candidate else latest)
              rest first)
  end.

Definition protocolKeyForStat (stat : ProxyStatistic) : string :=
  if 0 <? ProtocolID stat then "id:" +:+ itoa (ProtocolID stat)
  else if negb (String.eqb (ProtocolName stat) "") then to_lower (trim_space (ProtocolName stat))
  else "unknown".

Definition maxProtocols : nat := 4.

Fixpoint overall_alive_go (seen : list string) (stats : list ProxyStatistic) : bool :=
  match stats with
  | [] => false
  | stat :: rest =>
      let key := protocolKeyForStat stat in
      if bool_decide (key ∈ seen) then overall_alive_go seen rest
      else
        let seen := key :: seen in
        if Alive stat then true
        else if (maxProtocols <=? length seen)%nat then false
        else overall_alive_go seen rest
  end.

Definition overallAliveFromStatistics (stats : list ProxyStatistic) : bool :=
  overall_alive_go [] stats.

(** ** Reputation scores *)

Definition dec (z : Z) : string := itoa_go 45 z "".

(** [n] divided by [d], to the nearest integer, ties to even. *)
Definition div_half_even (n d : Z) : Z :=
  let q := n / d in
  let r := n mod d in
  if 2 * r <? d then q
  else if d <? 2 * r then q + 1
  else if Z.even q then q else q + 1.

(** [fmt.Sprintf] with the verb for two decimals, on a float32: the exact
    value rounded half to even at the second decimal. *)
Definition sprintf_2f (x : spec_float) : string :=
  match x with
  | S754_nan => "NaN"
  | S754_infinity s => if s then "-Inf" else "+Inf"
  | S754_zero s => if s then "-0.00" else "0.00"
  | S754_finite s m e =>
      let n := if 0 <=? e then Zpos m * 2 ^ e * 100
               else div_half_even (Zpos m * 100) (2 ^ (- e)) in
      (if s then "-" else "") +:+ dec (n / 100) +:+ "." +:+
        String (chr (48 + n mod 100 / 10)) (String (chr (48 + n mod 10)) "")
  end.

Definition formatReputationScore (score : spec_float) : string :=
  let formatted := trim_right "." (trim_right "0" (sprintf_2f score)) in
  if String.eqb formatted "-0" then "0" else formatted.

Definition findReputationByKind (reputations : list ProxyReputation) (kind : string)
    : option ProxyReputation :=
  let lowerKind := to_lower (trim_space kind) in
  List.find (fun rep => String.eqb (to_lower (Kind rep)) lowerKind) reputations.

Definition resolveReputationForExport (reputations : list ProxyReputation) (protocolName : string)
    : string * string :=
  let trimmed := to_lower (trim_space protocolName) in
  let targetKinds :=
    (if negb (String.eqb trimmed "") then [trimmed] else []) ++ [ProxyReputationKindOverall] in
  match first_match (findReputationByKind reputations) targetKinds with
  | Some rep =>
      let label := trim_space (Label rep) in
      (if String.eqb label "" then "unknown" else label, formatReputationScore (Score rep))
  | None => ("", "")
  end.

(** ** The template *)

(** [strings.NewReplacer(...).Replace]: at each position the first pair, in
    argument order, whose old string matches there. *)
Fixpoint replace_go (fuel : nat) (pairs : list (string * string)) (s : string) : string :=
  match fuel with
  | O => ""
  | S fuel' =>
      match s with
      | EmptyString => ""
      | String c r =>
          match first_match (fun kv => if has_prefix kv.1 s then Some kv else None) pairs with
          | Some (k, v) => v +:+ replace_go fuel' pairs (sdrop (slen k) s)
          | None => String c (replace_go fuel' pairs r)
          end
      end
  end.

Definition replacer (pairs : list (string * string)) (s : string) : string :=
  replace_go (S (slen s)) pairs s.

Definition replacements (p : ProxyExport) : list (string * string) :=
  let latestStat := latestStatistic (Statistics p) in
  let protocolName := getProtocolName latestStat in
  let timeValue := match latestStat with Some s => itoa (ResponseTime s) | None => "0" end in
  let aliveValue := if overallAliveFromStatistics (Statistics p) then "true" else "false" in
  let '(reputationLabel, reputationScore) :=
    resolveReputationForExport (Reputations p) protocolName in
  [("ip:port", GetFullProxy (route p));
   ("protocol", protocolName);
   ("ip", GetIp (route p));
   ("port", itoa (Port (route p)));
   ("username", Username (route p));
   ("password", Password (route p));
   ("country", Country p);
   ("alive", aliveValue);
   ("type", EstimatedType p);
   ("time", timeValue);
   ("reputation_score", reputationScore);
   ("reputation_label", reputationLabel);
   ("reputation", reputationLabel)].

Definition FormatProxy (p : ProxyExport) (outputFormat : string) : string :=
  replacer (replacements p) outputFormat.

Fixpoint FormatProxies (proxies : list ProxyExport) (outputFormat : string) : string :=
  match proxies with
  | [] => ""
  | p :: rest => FormatProxy p outputFormat +:+ String "010" (FormatProxies rest outputFormat)
  end.

(** ** Export then import *)

Lemma replacements_route p : exists protocolName rest,
  replacements p =
    ("ip:port", GetFullProxy (route p)) :: ("protocol", protocolName) ::
    ("ip", GetIp (route p)) :: ("port", itoa (Port (route p))) ::
    ("username", Username (route p)) :: ("password", Password (route p)) :: rest /\
  forall c, c = ":"%char \/ c = "@"%char ->
    forall s, first_match (fun kv => if has_prefix kv.1 (String c s) then Some kv else None) rest = None.
Proof.
  unfold replacements. cbn zeta. destruct (resolveReputationForExport _ _) as [l sc].
  do 2 eexists. split; [reflexivity|]. intros c Hc s. by destruct Hc as [-> | ->].
Qed.

Lemma FormatProxy_plain p : FormatProxy p "ip:port" = GetFullProxy (route p).
Proof.
  unfold FormatProxy, replacer. destruct (replacements_route p) as (n & rest & -> & _).
  cbn. apply str_app_nil_r.
Qed.

Lemma replace_hit fuel pairs s k v :
  s <> "" -> first_match (fun kv => if has_prefix kv.1 s then Some kv else None) pairs = Some (k, v) ->
  replace_go (S fuel) pairs s = v +:+ replace_go fuel pairs (sdrop (slen k) s).
Proof. destruct s as [|c s]; [done|]. cbn [replace_go]. by intros _ ->. Qed.

Lemma replace_miss fuel pairs c s :
  first_match (fun kv => if has_prefix kv.1 (String c s) then Some kv else None) pairs = None ->
  replace_go (S fuel) pairs (String c s) = String c (replace_go fuel pairs s).
Proof. cbn [replace_go]. by intros ->. Qed.

Lemma FormatProxy_auth p :
  FormatProxy p "username:password@ip:port" = auth_line (route p).
Proof.
  unfold FormatProxy, replacer. destruct (replacements_route p) as (n & rest & -> & Hrest).
  unfold auth_line. generalize (GetFullProxy (route p)) (Username (route p)) (Password (route p))
    (GetIp (route p)) (itoa (Port (route p))). intros full u pw ip po.
  change (slen "username:password@ip:port") with 25%nat.
  rewrite (replace_hit _ _ _ "username" u) by (discriminate || reflexivity).
  change (sdrop _ _) with ":password@ip:port".
  rewrite replace_miss by (apply (Hrest ":"%char); by left).
  rewrite (replace_hit _ _ _ "password" pw) by (discriminate || reflexivity).
  change (sdrop _ _) with "@ip:port".
  rewrite replace_miss by (apply (Hrest "@"%char); by right).
  rewrite (replace_hit _ _ _ "ip:port" full) by (discriminate || reflexivity).
  change (sdrop _ _) with "". change (replace_go _ _ "") with "".
  by rewrite str_app_nil_r, str_app_assoc, str_app_cons.
Qed.

Lemma FormatProxies_text ps fmt f :
  (forall p, FormatProxy p fmt = f (route p)) ->
  FormatProxies ps fmt = text_of (map f (map route ps)).
Proof.
  intros H. induction ps as [|p ps IH]; [done|]. cbn [FormatProxies map text_of].
  by rewrite H, IH.
Qed.

(** C38. Export then import: a list of stored routes with valid ports and
    printable credentials, exported with [username:password@ip:port], is read
    back by the import parser as exactly these routes, in order and with their
    credentials (bracketed IPv6 hosts included); exported with [ip:port], the
    same routes come back without credentials. *)
Theorem export_import toASCII (ps : list ProxyExport) :
  Forall (routable toASCII) (map route ps) ->
  Forall printable_credentials (map route ps) ->
  ParseTextToProxies toASCII (FormatProxies ps "username:password@ip:port") =
    map imported (map route ps) /\
  ParseTextToProxies toASCII (FormatProxies ps "ip:port") = map anonymous (map route ps).
Proof.
  intros Hr Hc. split.
  - rewrite (FormatProxies_text _ _ auth_line) by apply FormatProxy_auth.
    by apply parse_auth_lines.
  - rewrite (FormatProxies_text _ _ GetFullProxy) by apply FormatProxy_plain.
    by apply parse_plain_lines.
Qed.

(** ** Latest statistic *)

(** [s] comes no later than [t]: by creation time, then identifier. *)
Definition stat_le (s t : ProxyStatistic) : Prop :=
  CreatedAt s < CreatedAt t \/ (CreatedAt s = CreatedAt t /\ StatID s <= StatID t).

Lemma newer_false c l : newer c l = false <-> stat_le c l.
Proof. unfold newer, stat_le. rewrite orb_false_iff, andb_false_iff. breflect. lia. Qed.

Lemma newer_true c l : newer c l = true -> stat_le l c.
Proof. unfold newer, stat_le. rewrite orb_true_iff, andb_true_iff. intros H. breflect. lia. Qed.

Lemma latest_fold rest first :
  let m := fold_left (fun l c => if newer c l then c else l) rest first in
  m ∈ first :: rest /\ Forall (fun s => stat_le s m) (first :: rest).
Proof.
  revert first. induction rest as [|c rest IH]; intros first; cbn [fold_left].
  - split; [by left|]. constructor; [|constructor]. unfold stat_le. lia.
  - destruct (IH (if newer c first then c else first)) as [Hin Hall].
    set (m := fold_left _ rest _) in *. apply Forall_cons in Hall as [Hm Hall].
    destruct (newer c first) eqn:E.
    + apply newer_true in E. split; [set_solver|].
      repeat (constructor; [done|]) || (constructor; [|by constructor]).
      revert E Hm. unfold stat_le. lia.
    + apply newer_false in E. split; [set_solver|].
      constructor; [done|]. constructor; [|done]. revert E Hm. unfold stat_le. lia.
Qed.

(** [latestStatistic] returns the newest statistic of a route, by creation
    time and then by identifier, and nothing exactly when there is none. *)
Theorem latestStatistic_newest stats :
  match latestStatistic stats with
  | Some m => m ∈ stats /\ Forall (fun s => stat_le s m) stats
  | None => stats = []
  end.
Proof. destruct stats as [|first rest]; cbn; [done|]. apply latest_fold. Qed.

(** ** Overall liveness *)

(** The first statistic of each protocol, in order. *)
Fixpoint first_per_protocol (seen : list string) (stats : list ProxyStatistic)
    : list ProxyStatistic :=
  match stats with
  | [] => []
  | stat :: rest =>
      if bool_decide (protocolKeyForStat stat ∈ seen) then first_per_protocol seen rest
      else stat :: first_per_protocol (protocolKeyForStat stat :: seen) rest
  end.

Lemma overall_alive_go_spec seen stats :
  (length seen < maxProtocols)%nat ->
  overall_alive_go seen stats =
    existsb Alive (take (maxProtocols - length seen) (first_per_protocol seen stats)).
Proof.
  revert seen. induction stats as [|stat rest IH]; intros seen Hl;
    cbn [overall_alive_go first_per_protocol]; [by rewrite take_nil|].
  case_bool_decide; [by apply IH|].
  replace (maxProtocols - length seen)%nat with (S (maxProtocols - S (length seen))) by lia.
  cbn [take existsb length]. destruct (Alive stat); [done|]. cbn [orb].
  destruct (maxProtocols <=? S (length seen))%nat eqn:E; breflect.
  - by replace (maxProtocols - S (length seen))%nat with 0%nat by lia.
  - rewrite IH by (cbn [length]; lia). done.
Qed.

(** A route counts as alive exactly when the first statistic of one of its
    first four protocols reports it alive; later statistics of a protocol
    already met, and a fifth protocol, are not consulted. *)
Theorem overallAlive_first_per_protocol stats :
  overallAliveFromStatistics stats =
    existsb Alive (take 4 (first_per_protocol [] stats)).
Proof. apply overall_alive_go_spec. cbn. unfold maxProtocols. lia. Qed.

Lemma export_import_witness :
  let p1 := MkExport (MkProxy 7 "10.0.0.1" (Some "10.0.0.1") 8080 "user" "p@ss:word" [1] None "h") "US" "ISP" [] [] in
  let p2 := MkExport (MkProxy 8 "2001:db8::1" (Some "2001:db8::1") 65535 "" "" [] None "h") "" "" [] [] in
  FormatProxies [p1; p2] "username:password@ip:port" =
    text_of ["user:p@ss:word@10.0.0.1:8080"; ":@[2001:db8::1]:65535"] /\
  ParseTextToProxies (fun s => Some s) (FormatProxies [p1; p2] "username:password@ip:port") =
    map imported (map route [p1; p2]).
Proof.
  intros p1 p2. split; [vm_compute; reflexivity|].
  apply (export_import (fun s => Some s) [p1; p2]).
  - repeat (apply List.Forall_cons; [split; [vm_compute; reflexivity | cbn; lia]|]). apply List.Forall_nil.
  - cbn [map route p1 p2]. repeat apply List.Forall_cons; try apply List.Forall_nil;
      (split; [|split; [|vm_compute; reflexivity]]); cbn [Username Password bytes];
      repeat (apply List.Forall_cons; [split; vm_compute; discriminate|]); apply List.Forall_nil.
Defined.
End ProxyFormat.
