(* ===== verification/Blacklist.v ===== *)
(** * [internal/blacklist/manager.go] and the pure parts of
      [internal/database/blacklist_handler.go]

    Parsing of blacklist feeds, the compiled range cache (sorted, merged spans
    searched by bisection), the filter over proxies, and the persistence
    helpers (normalization and deduplication).  The refresh cycle is in
    [BlacklistRefresh]. *)

From S2P Require Import Prelude GoStrings Netip NetipFacts ProxyModel.
From stdpp Require Import sorting.
From Stdlib Require Import Ascii.
Open Scope Z_scope.

Module Blacklist.
Import Netip NetipFacts.

(** [domain.BlacklistedIP] and [domain.BlacklistedRange]. *)
Record BlacklistedIP := MkBIP { BipIP : string; BipSource : string }.
Record BlacklistedRange := MkRange { RangeID : Z; CIDR : string; RangeSource : string }.

Record ipRange := MkSpan { start : Addr; end_ : Addr }.

Record blacklistRangeCache := MkCache {
  spans : list ipRange;
  entries : list BlacklistedRange
}.

Definition normalizeIP (raw : string) : string :=
  match ParseAddr (trim_space raw) with
  | Some parsed => to_string (Unmap parsed)
  | None => ""
  end.

(** A prefix the blacklist accepts: parsed, and not IPv4-mapped. *)
Definition accepted_prefix (raw : string) : option Prefix :=
  match ParsePrefix raw with
  | Some prefix => if Is4In6 (paddr prefix) then None else Some prefix
  | None => None
  end.

(** [parseCIDROrIP]: the ranges and the addresses of one token. *)
Definition parseCIDROrIP (raw : string) : list BlacklistedRange * list string :=
  if negb (contains_byte "/" raw) then
    let ip := normalizeIP raw in
    if String.eqb ip "" then ([], []) else ([], [ip])
  else
    match accepted_prefix raw with
    | None => ([], [])
    | Some prefix => ([MkRange 0 (prefix_string (Masked prefix)) ""], [])
    end.

(** ** Feeds *)

Definition token_char (c : ascii) : bool :=
  is_digit c || ((65 <=? code c) && (code c <=? 70)) || ((97 <=? code c) && (code c <=? 102)) ||
  (code c =? 58) || (code c =? 46).

(** The longest run of bytes satisfying [p] at the head of [s], at most
    [fuel] of them, and what follows. *)
Fixpoint span_bytes (fuel : nat) (p : ascii -> bool) (s : string) : string * string :=
  match fuel, s with
  | S fuel', String c r =>
      if p c then let '(a, b) := span_bytes fuel' p r in (String c a, b) else ("", s)
  | _, _ => ("", s)
  end.

(** [ipRegex.FindAll]: runs of address characters, each with an optional
    prefix length of one to three digits. *)
Fixpoint find_tokens (fuel : nat) (s : string) : list string :=
  match fuel with
  | O => []
  | S fuel' =>
      match s with
      | EmptyString => []
      | String c r =>
          if token_char c then
            let '(run, rest) := span_bytes (slen s) token_char s in
            match rest with
            | String d rest' =>
                if code d =? 47 then
                  let '(bits, rest'') := span_bytes 3 is_digit rest' in
                  if String.eqb bits "" then run :: find_tokens fuel' rest
                  else (run +:+ String d bits) :: find_tokens fuel' rest''
                else run :: find_tokens fuel' rest
            | EmptyString => [run]
            end
          else find_tokens fuel' r
      end
  end.

Definition parse_token (ipStr : string) : list BlacklistedRange * list string :=
  match parseCIDROrIP ipStr with
  | ([], []) =>
      let trimmed := trim_right ".,;:" ipStr in
      if negb (String.eqb trimmed ipStr) then parseCIDROrIP trimmed else ([], [])
  | r => r
  end.

(** Longest line [bufio.Scanner] accepts with a 1 MiB buffer; scanning stops
    at a longer one. *)
Definition maxLine : nat := Z.to_nat 1048575.

Fixpoint scan_lines (lines : list string) : list string :=
  match lines with
  | [] => []
  | l :: rest => if (maxLine <? slen l)%nat then [] else l :: scan_lines rest
  end.

(** [parseIPs]: the set of addresses and the ranges in order. *)
Definition parseIPs (payload : string) : gset string * list BlacklistedRange :=
  let tokens := flat_map (fun line => find_tokens (S (slen line)) line)
                  (scan_lines (split_byte "010" payload)) in
  fold_left (fun '(seen, ranges) ipStr =>
               let '(cidrs, ips) := parse_token ipStr in
               (list_to_set ips ∪ seen, ranges ++ cidrs))
    tokens (∅, []).

(** ** The in-memory caches *)

Definition toSet (ips : list string) : gset string :=
  fold_left (fun m ip =>
               let normalized := normalizeIP ip in
               if negb (String.eqb normalized "") then {[normalized]} ∪ m else m)
    ips ∅.

Definition cloneSet (m : gset string) : gset string :=
  list_to_set (elements m).

(** [after] is visited in map order, which Go leaves open. *)
Definition diffSets (after before : gset string) : list string :=
  filter (fun ip => ip ∉ before) (elements after).

Definition diffRanges (after before : list BlacklistedRange) : list BlacklistedRange :=
  let beforeSet : gset string := list_to_set (map CIDR before) in
  filter (fun r => CIDR r ∉ beforeSet) after.

(** Bit [bit] of an [n]-bit big-endian byte array, set in its value. *)
Definition set_bit (n : Z) (v : Z) (bit : Z) : Z :=
  Z.lor v (Z.shiftl 1 (8 * (n / 8 - 1 - bit / 8) + (7 - bit mod 8))).

Definition set_bits_from (n v bits : Z) : Z :=
  fold_left (set_bit n) (map (fun k => bits + Z.of_nat k) (seq 0 (Z.to_nat (n - bits)))) v.

Definition lastAddressInPrefix (prefix : Prefix) : Addr :=
  let prefix := Masked prefix in
  match paddr prefix with
  | Addr4 v => Addr4 (set_bits_from 32 v (pbits prefix))
  | Addr6 v _ => Addr6 (set_bits_from 128 v (pbits prefix)) ""
  end.

(** Order of [sort.Slice] over the spans: by start, wider first. *)
Definition span_less (a b : ipRange) : bool :=
  match Compare (start a) (start b) with
  | Eq => match Compare (end_ a) (end_ b) with Gt => true | _ => false end
  | Lt => true
  | Gt => false
  end.

Definition span_le (a b : ipRange) : Prop := span_less b a = false.

#[export] Instance span_le_dec : RelDecision span_le.
Proof. intros a b. unfold span_le. apply _. Defined.

Definition le_cmp (c : comparison) : bool := match c with Gt => false | _ => true end.
Definition gt_cmp (c : comparison) : bool := match c with Gt => true | _ => false end.

(** The merge loop; [merged] is held last element first. *)
Fixpoint merge_spans (merged : list ipRange) (l : list ipRange) : list ipRange :=
  match l with
  | [] => rev merged
  | span :: rest =>
      match merged with
      | [] => merge_spans [span] rest
      | last :: older =>
          if (BitLen (start last) =? BitLen (start span)) &&
             le_cmp (Compare (start span) (end_ last))
          then
            if gt_cmp (Compare (end_ span) (end_ last))
            then merge_spans (MkSpan (start last) (end_ span) :: older) rest
            else merge_spans merged rest
          else merge_spans (span :: merged) rest
      end
  end.

Fixpoint compile_entries (ranges : list BlacklistedRange)
    : list BlacklistedRange * list ipRange * Z :=
  match ranges with
  | [] => ([], [], 0)
  | entry :: rest =>
      let '(es, ss, invalid) := compile_entries rest in
      match accepted_prefix (trim_space (CIDR entry)) with
      | None => (es, ss, invalid + 1)
      | Some prefix =>
          let prefix := Masked prefix in
          (MkRange (RangeID entry) (prefix_string prefix) (RangeSource entry) :: es,
           MkSpan (paddr prefix) (lastAddressInPrefix prefix) :: ss, invalid)
      end
  end.

Definition buildBlacklistRangeCache (ranges : list BlacklistedRange) : blacklistRangeCache * Z :=
  let '(es, ss, invalidCount) := compile_entries ranges in
  (MkCache (merge_spans [] (merge_sort span_le ss)) es, invalidCount).

Definition inRange (ip : string) (ranges : list ipRange) : bool :=
  match ranges with
  | [] => false
  | _ =>
      match ParseAddr (trim_space ip) with
      | None => false
      | Some address =>
          let address := Unmap address in
          let index := sort_search (length ranges)
            (fun i => match ranges !! i with
                      | Some r => gt_cmp (Compare (start r) address)
                      | None => false
                      end) in
          if (index =? 0)%nat then false
          else
            match ranges !! (index - 1)%nat with
            | Some span =>
                (BitLen (start span) =? BitLen address) && le_cmp (Compare address (end_ span))
            | None => false
            end
      end
  end.

(** ** The filter *)

Definition is_blocked (set : gset string) (ranges : list ipRange) (p : ProxyModel.Proxy) : bool :=
  let ip := normalizeIP (ProxyModel.GetIp p) in
  if String.eqb ip "" then false
  else if bool_decide (ip ∈ set) then true
  else inRange ip ranges.

(** [FilterProxies] against a loaded cache: allowed and blocked proxies. *)
Fixpoint FilterProxies (set : gset string) (ranges : list ipRange) (proxies : list ProxyModel.Proxy)
    : list ProxyModel.Proxy * list ProxyModel.Proxy :=
  match proxies with
  | [] => ([], [])
  | proxy :: rest =>
      let '(allowed, blocked) := FilterProxies set ranges rest in
      if is_blocked set ranges proxy then (allowed, proxy :: blocked)
      else (proxy :: allowed, blocked)
  end.

(** ** Persistence helpers ([internal/database/blacklist_handler.go]) *)

Definition normalizeCIDR (raw : string) : option string :=
  option_map (fun p => prefix_string (Masked p)) (accepted_prefix (trim_space raw)).

(** [dedupeIPs]: the map keeps the first entry of an address; the order of
    the output is open in Go, insertion order here. *)
Fixpoint dedupeIPs_go (seen : list string) (ips : list BlacklistedIP) : list BlacklistedIP :=
  match ips with
  | [] => []
  | ip :: rest =>
      let normalized := normalizeIP (BipIP ip) in
      if String.eqb normalized "" then dedupeIPs_go seen rest
      else if bool_decide (normalized ∈ seen) then dedupeIPs_go seen rest
      else MkBIP normalized (BipSource ip) :: dedupeIPs_go (normalized :: seen) rest
  end.

Definition dedupeIPs (ips : list BlacklistedIP) : list BlacklistedIP := dedupeIPs_go [] ips.

Fixpoint dedupeRanges_go (seen : list string) (ranges : list BlacklistedRange)
    : list BlacklistedRange :=
  match ranges with
  | [] => []
  | r :: rest =>
      match normalizeCIDR (CIDR r) with
      | None => dedupeRanges_go seen rest
      | Some cidr =>
          if bool_decide (cidr ∈ seen) then dedupeRanges_go seen rest
          else MkRange 0 cidr (RangeSource r) :: dedupeRanges_go (cidr :: seen) rest
      end
  end.

Definition dedupeRanges (ranges : list BlacklistedRange) : list BlacklistedRange :=
  dedupeRanges_go [] ranges.

Definition normalizeIPList (ips : list string) : list string :=
  dedup_go [] (filter (fun ip => ip <> "") (map normalizeIP ips)).

(** ** The last address of a prefix *)

Lemma lor_bit v k j : 0 <= j < k -> v mod 2 ^ k = 0 -> Z.lor v (Z.shiftl 1 j) = v + 2 ^ j.
Proof.
  intros Hj Hv. rewrite Z.shiftl_1_l.
  assert (Hl : Z.land v (2 ^ j) = 0).
  { apply Z.bits_inj'. intros n Hn. rewrite Z.land_spec, Z.pow2_bits_eqb, Z.bits_0 by lia.
    destruct (Z.eqb_spec j n) as [<-|]; [|by rewrite andb_false_r].
    rewrite andb_true_r. apply Z.mod_divide in Hv; [|lia]. destruct Hv as [q ->].
    by rewrite Z.mul_pow2_bits_low by lia. }
  by rewrite Z.add_nocarry_lxor, Z.lxor_lor by done.
Qed.

Lemma set_bit_pos n v bit : n mod 8 = 0 -> 0 <= bit < n ->
  set_bit n v bit = Z.lor v (Z.shiftl 1 (n - 1 - bit)).
Proof.
  intros Hn Hb. unfold set_bit. do 2 f_equal. Z.to_euclidean_division_equations. lia.
Qed.

Lemma set_bits_from_spec n v bits : n mod 8 = 0 -> 0 <= bits <= n ->
  v mod 2 ^ (n - bits) = 0 -> set_bits_from n v bits = v + 2 ^ (n - bits) - 1.
Proof.
  intros Hn Hb Hv. unfold set_bits_from.
  remember (Z.to_nat (n - bits)) as k eqn:Hk.
  revert v bits Hb Hv Hk. induction k as [|k IH]; intros v bits Hb Hv Hk; cbn [seq map fold_left].
  - replace (n - bits) with 0 by lia. change (2 ^ 0) with 1. lia.
  - rewrite <- seq_shift, map_map.
    rewrite (map_ext _ (fun j => (bits + 1) + Z.of_nat j)) by (intros; lia).
    rewrite Z.add_0_r, set_bit_pos by lia.
    rewrite (lor_bit v (n - bits)) by (done || lia).
    assert (Hpow : 2 ^ (n - bits) = 2 * 2 ^ (n - (bits + 1))).
    { replace (n - bits) with (Z.succ (n - (bits + 1))) by lia. apply Z.pow_succ_r. lia. }
    replace (n - 1 - bits) with (n - (bits + 1)) by lia.
    rewrite IH; [lia|lia| |lia].
    rewrite Hpow in Hv. apply Z.mod_divide in Hv; [|lia]. destruct Hv as [q Hq].
    apply Z.mod_divide; [lia|]. exists (2 * q + 1). lia.
Qed.

Lemma mask_mod a bits : 0 <= bits <= BitLen a -> mask a bits mod 2 ^ (BitLen a - bits) = 0.
Proof. intros Hb. rewrite mask_div by done. apply Z.mod_mul. lia. Qed.

Lemma mask_valid a bits : valid a -> 0 <= bits <= BitLen a -> 0 <= mask a bits <= value_of a.
Proof.
  unfold valid. intros Hv Hb. rewrite mask_div by done.
  pose proof (Z.div_mod (value_of a) (2 ^ (BitLen a - bits))).
  pose proof (Z.mod_pos_bound (value_of a) (2 ^ (BitLen a - bits))).
  pose proof (Z.div_pos (value_of a) (2 ^ (BitLen a - bits))). nia.
Qed.

Lemma BitLen_Masked p : BitLen (paddr (Masked p)) = BitLen (paddr p).
Proof. unfold Masked. by destruct (paddr p). Qed.

Lemma value_Masked p : value_of (paddr (Masked p)) = mask (paddr p) (pbits p).
Proof. unfold Masked. by destruct (paddr p). Qed.

Lemma Masked_ok p : prefix_ok p -> prefix_ok (Masked p).
Proof.
  intros (Hv & Hb & Hz). unfold prefix_ok, valid. rewrite BitLen_Masked, value_Masked.
  pose proof (mask_valid _ _ Hv Hb). unfold valid in Hv. split; [lia|]. split; [done|].
  unfold Masked. by destruct (paddr p).
Qed.

Lemma mask_mask p : prefix_ok p -> mask (paddr (Masked p)) (pbits p) = mask (paddr p) (pbits p).
Proof.
  intros (Hv & Hb & Hz). rewrite mask_div by by rewrite BitLen_Masked.
  rewrite value_Masked, BitLen_Masked, (mask_div (paddr p)) by done.
  rewrite Z.div_mul; lia.
Qed.

Lemma Masked_idem p : prefix_ok p -> Masked (Masked p) = Masked p.
Proof.
  intros Hp. pose proof (mask_mask p Hp) as Hm. unfold Masked in *.
  destruct (paddr p); cbn [paddr pbits] in *; by rewrite Hm.
Qed.

Lemma mask_room a bits : valid a -> 0 <= bits <= BitLen a ->
  mask a bits + 2 ^ (BitLen a - bits) - 1 < 2 ^ BitLen a.
Proof.
  unfold valid. intros Hv Hb. rewrite mask_div by done.
  assert (Hp : 2 ^ BitLen a = 2 ^ bits * 2 ^ (BitLen a - bits)).
  { rewrite <- Z.pow_add_r by lia. f_equal. lia. }
  set (k := 2 ^ (BitLen a - bits)) in *. assert (0 < k) by (subst k; lia).
  assert (value_of a / k < 2 ^ bits) by (apply Z.div_lt_upper_bound; lia). nia.
Qed.

Lemma last_address_spec p : prefix_ok p ->
  let l := lastAddressInPrefix p in
  BitLen l = BitLen (paddr p) /\ Zone l = "" /\
  value_of l = mask (paddr p) (pbits p) + 2 ^ (BitLen (paddr p) - pbits p) - 1 /\ valid l.
Proof.
  intros Hp. pose proof Hp as (Hv & Hb & Hz). pose proof (mask_mod _ _ Hb) as Hmod.
  pose proof (mask_valid _ _ Hv Hb) as Hmv.
  pose proof (mask_room _ _ Hv Hb) as Hhi.
  cbn zeta. unfold lastAddressInPrefix, Masked, valid.
  destruct (paddr p) as [v|v z] eqn:Ea; cbn [paddr pbits BitLen value_of Zone] in *;
    rewrite set_bits_from_spec by (done || lia); repeat split; lia.
Qed.

(** ** Spans as intervals of address keys *)

Definition span_ok (sp : ipRange) : Prop :=
  valid (start sp) /\ valid (end_ sp) /\ Zone (start sp) = "" /\ Zone (end_ sp) = "" /\
  BitLen (start sp) = BitLen (end_ sp) /\ addr_key (start sp) <= addr_key (end_ sp).

Definition covers (sp : ipRange) (a : Addr) : Prop :=
  addr_key (start sp) <= addr_key a <= addr_key (end_ sp).

Definition covered (l : list ipRange) (a : Addr) : Prop := exists sp, sp ∈ l /\ covers sp a.

(** The feed entry [r] names a network that holds [a]. *)
Definition names (r : BlacklistedRange) (a : Addr) : Prop :=
  exists p, accepted_prefix (trim_space (CIDR r)) = Some p /\ Contains p a = true.

Lemma key_family a b c : valid a -> valid b -> valid c ->
  addr_key a <= addr_key b <= addr_key c -> BitLen a = BitLen c -> BitLen a = BitLen b.
Proof.
  intros Ha Hb Hc Hk Hl. apply BitLen_key in Hl; [|done|done]. apply BitLen_key; [done|done|]. lia.
Qed.

Lemma span_of_prefix p a : prefix_ok p -> valid a -> Zone a = "" ->
  let sp := MkSpan (paddr (Masked p)) (lastAddressInPrefix (Masked p)) in
  span_ok sp /\ (covers sp a <-> Contains p a = true).
Proof.
  intros Hp Ha Hza. pose proof (Masked_ok p Hp) as Hm. pose proof Hm as (Hmv & Hmb & Hmz).
  pose proof (last_address_spec _ Hm) as (Hl & Hlz & Hlv & Hlval). cbn zeta in *.
  change (pbits (Masked p)) with (pbits p) in *. rewrite mask_mask in Hlv by done.
  rewrite BitLen_Masked in *. rewrite Contains_interval by done.
  pose proof (value_Masked p) as Hvm. pose proof Hp as (Hpv & Hpb & Hpz).
  assert (0 < 2 ^ (BitLen (paddr p) - pbits p)) by lia.
  split.
  - unfold span_ok. cbn [start end_]. rewrite BitLen_Masked. do 4 (split; [done|]). split; [done|].
    pose proof (BitLen_Masked p) as Hbm.
    destruct (paddr (Masked p)), (lastAddressInPrefix (Masked p)); cbn [BitLen value_of addr_key] in *; lia.
  - unfold covers. cbn [start end_]. pose proof (BitLen_Masked p) as Hbm. unfold valid in *.
    destruct (paddr (Masked p)), (lastAddressInPrefix (Masked p)), a;
      cbn [BitLen value_of addr_key Zone] in *; try lia.
Qed.

Lemma accepted_prefix_ok s p : accepted_prefix s = Some p -> prefix_ok p /\ Is4In6 (paddr p) = false.
Proof.
  unfold accepted_prefix. destruct (ParsePrefix s) as [q|] eqn:E; [|done].
  destruct (Is4In6 (paddr q)) eqn:E4; [done|]. intros [= <-]. split; [by eapply ParsePrefix_ok|done].
Qed.

Lemma compile_entries_spans ranges es ss inv :
  compile_entries ranges = (es, ss, inv) ->
  Forall span_ok ss /\
  forall a, valid a -> Zone a = "" ->
    covered ss a <-> exists r, r ∈ ranges /\ names r a.
Proof.
  revert es ss inv. induction ranges as [|r ranges IH]; intros es ss inv; cbn [compile_entries].
  { intros [= <- <- <-]. split; [constructor|]. unfold covered. set_solver. }
  destruct (compile_entries ranges) as [[es' ss'] inv'] eqn:E.
  destruct (IH _ _ _ eq_refl) as [Hok Hcov]. clear IH.
  destruct (accepted_prefix (trim_space (CIDR r))) as [p|] eqn:Ep; intros [= <- <- <-].
  - apply accepted_prefix_ok in Ep as Hp. destruct Hp as [Hp _].
    split.
    + constructor; [|done]. by apply (span_of_prefix p (paddr (Masked p)) Hp); apply Masked_ok.
    + intros a Ha Hz. unfold covered. setoid_rewrite elem_of_cons.
      destruct (span_of_prefix p a Hp Ha Hz) as [_ Hc]. specialize (Hcov a Ha Hz).
      unfold covered in Hcov. split.
      * intros (sp & [->|Hsp] & Hsa); [exists r; split; [by left|]; exists p; by rewrite <- Hc|].
        destruct (proj1 Hcov) as (r' & Hr' & Hn); [by exists sp|]. exists r'. split; [by right|done].
      * intros (r' & [->|Hr'] & Hn).
        -- destruct Hn as (p' & Hp' & Hca). simplify_eq. eexists. split; [by left|]. by apply Hc.
        -- destruct (proj2 Hcov) as (sp & Hsp & Hsa); [by exists r'|]. exists sp. split; [by right|done].
  - split; [done|]. intros a Ha Hz. rewrite Hcov by done. setoid_rewrite elem_of_cons. split.
    + intros (r' & ? & ?). exists r'. auto.
    + intros (r' & [->|?] & Hn); [|by exists r']. destruct Hn as (p & Hp & _). congruence.
Qed.

(** ** Sorting *)

Lemma Compare_antisym a b : Compare a b = CompOpp (Compare b a).
Proof.
  unfold Compare. rewrite (Z.compare_antisym (BitLen b)). destruct (BitLen b ?= BitLen a); try done.
  cbn. rewrite (Z.compare_antisym (value_of b)). destruct (value_of b ?= value_of a); try done.
  cbn. apply String.compare_antisym.
Qed.

#[export] Instance span_le_total : Total span_le.
Proof.
  intros a b. unfold span_le, span_less. rewrite (Compare_antisym (start b) (start a)).
  destruct (Compare (start a) (start b)); cbn; [|by left|by right].
  rewrite (Compare_antisym (end_ b) (end_ a)). destruct (Compare (end_ a) (end_ b)); cbn; auto.
Qed.

Definition starts_before (x y : ipRange) : Prop := addr_key (start x) <= addr_key (start y).

Lemma span_le_starts x y : span_ok x -> span_ok y -> span_le x y -> starts_before x y.
Proof.
  intros (Hx & _ & Hzx & _) (Hy & _ & Hzy & _). unfold span_le, span_less, starts_before.
  rewrite Compare_key by done. destruct (Z.compare_spec (addr_key (start y)) (addr_key (start x)));
    [lia|done|lia].
Qed.

Lemma sorted_starts l : Forall span_ok l ->
  StronglySorted starts_before (merge_sort span_le l) /\ Forall span_ok (merge_sort span_le l).
Proof.
  intros Hok. assert (Hok' : Forall span_ok (merge_sort span_le l)) by by rewrite merge_sort_Permutation.
  split; [|done]. apply Sorted_StronglySorted.
  { intros x y z. unfold starts_before. lia. }
  assert (Hs : Sorted span_le (merge_sort span_le l)) by (apply Sorted_merge_sort; apply _).
  revert Hs Hok'. generalize (merge_sort span_le l). clear l Hok.
  induction l as [|x l IH]; intros Hs Hok; [constructor|].
  apply Sorted_inv in Hs as [Hs Hhd]. apply Forall_cons in Hok as [Hx Hok].
  constructor; [by apply IH|]. destruct l as [|y l]; [constructor|].
  apply HdRel_inv in Hhd. apply Forall_cons in Hok as [Hy _]. constructor. by apply span_le_starts.
Qed.

(** ** Merging *)

Definition ends_before (x y : ipRange) : Prop := addr_key (end_ x) < addr_key (start y).

(** The merged spans so far, last first, and what is left to merge. *)
Record merge_inv (merged l : list ipRange) : Prop := {
  mi_merged : Forall span_ok merged;
  mi_rest : Forall span_ok l;
  mi_sorted : StronglySorted starts_before l;
  mi_disjoint : StronglySorted (fun newer older => ends_before older newer) merged;
  mi_bound : match merged with
             | [] => True
             | last :: _ => Forall (starts_before last) l
             end
}.

Lemma strongly_sorted_rev {A} (R : A -> A -> Prop) (l : list A) :
  StronglySorted (fun x y => R y x) l -> StronglySorted R (rev l).
Proof.
  induction l as [|x l IH]; cbn; [constructor|]. intros Hs.
  apply StronglySorted_inv in Hs as [Hs Hx]. apply StronglySorted_app_2.
  - intros y z Hy Hz. rewrite elem_of_rev in Hy. apply list_elem_of_singleton in Hz as ->.
    rewrite Forall_forall in Hx. by apply Hx.
  - by apply IH.
  - constructor; constructor.
Qed.

Lemma merge_spans_spec merged l : merge_inv merged l ->
  Forall span_ok (merge_spans merged l) /\
  StronglySorted ends_before (merge_spans merged l) /\
  forall a, valid a -> covered (merge_spans merged l) a <-> covered (merged ++ l) a.
Proof.
  revert merged. induction l as [|span l IH]; intros merged [Hm Hl Hs Hd Hb]; cbn [merge_spans].
  { split; [by apply Forall_rev|]. split; [by apply strongly_sorted_rev|].
    intros a _. rewrite app_nil_r. unfold covered. by setoid_rewrite elem_of_rev. }
  apply Forall_cons in Hl as [Hsp Hl]. apply StronglySorted_inv in Hs as [Hs Hsb].
  destruct merged as [|last older].
  { destruct (IH [span]) as (R1 & R2 & R3); [|by rewrite app_nil_l].
    split; [by apply Forall_singleton|done|done|repeat constructor|done]. }
  apply Forall_cons in Hb as [Hls Hb]. apply Forall_cons in Hm as [Hlast Hm].
  apply StronglySorted_inv in Hd as [Hd Hdo].
  pose proof Hlast as (Hv1 & Hv2 & Hz1 & Hz2 & Hf1 & Ho1).
  pose proof Hsp as (Hv3 & Hv4 & Hz3 & Hz4 & Hf2 & Ho2). unfold starts_before in Hls.
  rewrite !Compare_key by done.
  destruct ((BitLen (start last) =? BitLen (start span)) &&
    le_cmp (addr_key (start span) ?= addr_key (end_ last))) eqn:Eov.
  - apply andb_true_iff in Eov as [Ebl Ele]. apply Z.eqb_eq in Ebl.
    assert (Hse : addr_key (start span) <= addr_key (end_ last)).
    { revert Ele. unfold le_cmp. destruct (Z.compare_spec (addr_key (start span)) (addr_key (end_ last)));
        intros; [lia|lia|done]. }
    destruct (gt_cmp (addr_key (end_ span) ?= addr_key (end_ last))) eqn:Eg.
    + assert (addr_key (end_ last) < addr_key (end_ span)).
      { revert Eg. unfold gt_cmp. destruct (Z.compare_spec (addr_key (end_ span)) (addr_key (end_ last)));
          intros; [done|done|lia]. }
      destruct (IH (MkSpan (start last) (end_ span) :: older)) as (R1 & R2 & R3).
      { split; [|done|done| |].
        - constructor; [|done]. unfold span_ok. cbn [start end_]. repeat (split; [done|]).
          split; [congruence|lia].
        - by constructor.
        - eapply Forall_impl; [exact Hb|]. by intros. }
      split; [done|]. split; [done|]. intros a Ha. rewrite R3 by done. unfold covered.
      cbn [app]. setoid_rewrite elem_of_cons. setoid_rewrite elem_of_app. setoid_rewrite elem_of_cons.
      split.
      * intros (sp & [->|Hin] & Hc); [|naive_solver]. unfold covers in Hc. cbn [start end_] in Hc.
        destruct (decide (addr_key a <= addr_key (end_ last))).
        -- exists last. split; [by left|]. unfold covers. lia.
        -- exists span. split; [auto|]. unfold covers. lia.
      * intros (sp & [->|[Hin|[->|Hin]]] & Hc); [| |  |naive_solver]; [|naive_solver|];
          eexists; (split; [by left|]); unfold covers in *; cbn [start end_]; lia.
    + assert (addr_key (end_ span) <= addr_key (end_ last)).
      { revert Eg. unfold gt_cmp. destruct (Z.compare_spec (addr_key (end_ span)) (addr_key (end_ last)));
          intros; [lia|lia|done]. }
      destruct (IH (last :: older)) as (R1 & R2 & R3).
      { split; [by constructor|done|done|by constructor|done]. }
      split; [done|]. split; [done|]. intros a Ha. rewrite R3 by done. unfold covered.
      cbn [app]. setoid_rewrite elem_of_cons. setoid_rewrite elem_of_app. setoid_rewrite elem_of_cons.
      split; [naive_solver|].
      intros (sp & [->|[Hin|[->|Hin]]] & Hc); [naive_solver|naive_solver| |naive_solver].
      exists last. split; [by left|]. unfold covers in *. lia.
  - assert (Hlt : addr_key (end_ last) < addr_key (start span)).
    { destruct (decide (addr_key (end_ last) < addr_key (start span))) as [|Hge]; [done|].
      apply andb_false_iff in Eov as [E|E].
      - apply Z.eqb_neq in E. contradict E. eapply (key_family _ _ (end_ last)); try done. lia.
      - revert E. unfold le_cmp. destruct (Z.compare_spec (addr_key (start span)) (addr_key (end_ last)));
          intros; [done|done|lia]. }
    destruct (IH (span :: last :: older)) as (R1 & R2 & R3).
    { split; [by rewrite !Forall_cons|done|done| |done].
      constructor; [by constructor|]. constructor; [done|].
      eapply Forall_impl; [exact Hdo|]. unfold ends_before. cbn. intros; lia. }
    split; [done|]. split; [done|]. intros a Ha. rewrite R3 by done. unfold covered.
    cbn [app]. setoid_rewrite elem_of_cons. setoid_rewrite elem_of_cons.
    setoid_rewrite elem_of_app. setoid_rewrite elem_of_cons. naive_solver.
Qed.

(** The compiled cache: well-formed, pairwise disjoint spans in order that
    cover the addresses of the accepted networks. *)
Definition cache_ok (l : list ipRange) : Prop :=
  Forall span_ok l /\ StronglySorted ends_before l.

Lemma build_spec ranges :
  let spans := spans (buildBlacklistRangeCache ranges).1 in
  cache_ok spans /\
  forall a, valid a -> Zone a = "" -> covered spans a <-> exists r, r ∈ ranges /\ names r a.
Proof.
  cbn zeta. unfold buildBlacklistRangeCache.
  destruct (compile_entries ranges) as [[es ss] inv] eqn:E. cbn [fst spans].
  destruct (compile_entries_spans _ _ _ _ E) as [Hok Hcov].
  destruct (sorted_starts ss Hok) as [Hs Hok'].
  destruct (merge_spans_spec [] (merge_sort span_le ss)) as (H1 & H2 & H3).
  { split; [constructor|done|done|constructor|done]. }
  split; [done|]. intros a Ha Hz. rewrite H3, <- Hcov by done. cbn [app]. unfold covered.
  by setoid_rewrite (merge_sort_Permutation span_le ss).
Qed.

(** ** Searching *)

Lemma sorted_lookup l i j x y : StronglySorted ends_before l ->
  l !! i = Some x -> l !! j = Some y -> (i < j)%nat -> ends_before x y.
Proof.
  intros Hs. revert i j. induction Hs as [|z l Hs IH Hz]; intros i j; [done|].
  destruct i as [|i], j as [|j]; cbn; intros Hi Hj Hlt; try lia.
  - simplify_eq. rewrite Forall_forall in Hz. apply Hz. by eapply list_elem_of_lookup_2.
  - eapply IH; [done|done|lia].
Qed.

Lemma gt_cmp_key a b : valid a -> valid b -> Zone a = "" -> Zone b = "" ->
  gt_cmp (Compare a b) = true <-> addr_key b < addr_key a.
Proof.
  intros. rewrite Compare_key by done. unfold gt_cmp.
  destruct (Z.compare_spec (addr_key a) (addr_key b)); split; intros; (done || lia).
Qed.

Lemma le_cmp_key a b : valid a -> valid b -> Zone a = "" -> Zone b = "" ->
  le_cmp (Compare a b) = true <-> addr_key a <= addr_key b.
Proof.
  intros. rewrite Compare_key by done. unfold le_cmp.
  destruct (Z.compare_spec (addr_key a) (addr_key b)); split; intros; (done || lia).
Qed.

Lemma search_covered l a : cache_ok l -> valid a -> Zone a = "" ->
  let index := sort_search (length l)
    (fun i => match l !! i with Some r => gt_cmp (Compare (start r) a) | None => false end) in
  (if (index =? 0)%nat then false
   else match l !! (index - 1)%nat with
        | Some span => (BitLen (start span) =? BitLen a) && le_cmp (Compare a (end_ span))
        | None => false
        end) = true <-> covered l a.
Proof.
  intros [Hok Hs] Ha Hz. set (f := fun i : nat => match l !! i with Some r => _ | None => _ end).
  assert (Hstart : forall i r, l !! i = Some r -> f i = true <-> addr_key a < addr_key (start r)).
  { intros i r Hi. subst f. cbn beta. rewrite Hi. rewrite Forall_forall in Hok.
    apply list_elem_of_lookup_2, Hok in Hi as (H1 & _ & H2 & _). by apply gt_cmp_key. }
  destruct (sort_search_spec (length l) f) as (Hle & Hlow & Hhigh).
  { intros i j [Hij Hj] Hi. destruct (lookup_lt_is_Some_2 l j Hj) as [y Hy].
    destruct (lookup_lt_is_Some_2 l i) as [x Hx]; [lia|].
    destruct (decide (i = j)) as [->|]; [done|].
    rewrite (Hstart _ _ Hx) in Hi. rewrite (Hstart _ _ Hy).
    pose proof (sorted_lookup l i j x y Hs Hx Hy ltac:(lia)) as Hxy. unfold ends_before in Hxy.
    rewrite Forall_forall in Hok. apply list_elem_of_lookup_2, Hok in Hx as (_ & _ & _ & _ & _ & ?). lia. }
  cbn zeta. set (k := sort_search (length l) f) in *.
  assert (Hin : forall i r, l !! i = Some r -> addr_key (start r) <= addr_key a -> (i < k)%nat).
  { intros i r Hi Hr. destruct (decide (i < k)%nat) as [|Hge]; [done|]. exfalso.
    pose proof (lookup_lt_Some _ _ _ Hi) as Hil.
    destruct (lookup_lt_is_Some_2 l k) as [y Hy]; [lia|].
    specialize (Hhigh ltac:(lia)). rewrite (Hstart _ _ Hy) in Hhigh.
    destruct (decide (i = k)) as [->|]; [simplify_eq; lia|].
    pose proof (sorted_lookup l k i y r Hs Hy Hi ltac:(lia)) as Hxy. unfold ends_before in Hxy.
    rewrite Forall_forall in Hok. apply list_elem_of_lookup_2, Hok in Hy as (_ & _ & _ & _ & _ & ?). lia. }
  destruct (k =? 0)%nat eqn:Ek.
  { apply Nat.eqb_eq in Ek. split; [done|]. intros (sp & Hsp & Hc).
    apply list_elem_of_lookup in Hsp as [i Hi]. unfold covers in Hc.
    pose proof (Hin i sp Hi ltac:(lia)). lia. }
  apply Nat.eqb_neq in Ek. destruct (lookup_lt_is_Some_2 l (k - 1)) as [sp Hsp]; [lia|].
  rewrite Hsp. pose proof Hok as Hok'. rewrite Forall_forall in Hok'.
  pose proof (list_elem_of_lookup_2 _ _ _ Hsp) as Hspin.
  destruct (Hok' _ Hspin) as (Hv1 & Hv2 & Hz1 & Hz2 & Hf & Ho).
  rewrite andb_true_iff, Z.eqb_eq, le_cmp_key by done. split.
  - intros [_ Hend]. exists sp. split; [done|]. split; [|done].
    specialize (Hlow (k - 1)%nat ltac:(lia)). destruct (decide (addr_key (start sp) <= addr_key a)); [done|].
    rewrite (proj2 (Hstart _ _ Hsp)) in Hlow by lia. done.
  - intros (sp' & Hsp' & Hc). apply list_elem_of_lookup in Hsp' as [i Hi].
    pose proof Hc as [Hc1 Hc2]. pose proof (Hin i sp' Hi Hc1).
    assert (i = k - 1)%nat as ->.
    { destruct (decide (i = k - 1)%nat) as [|]; [done|]. exfalso.
      pose proof (sorted_lookup l i (k - 1) sp' sp Hs Hi Hsp ltac:(lia)) as Hxy. unfold ends_before in Hxy.
      specialize (Hlow (k - 1)%nat ltac:(lia)). destruct (decide (addr_key a < addr_key (start sp))); [|lia].
      by rewrite (proj2 (Hstart _ _ Hsp)) in Hlow. }
    simplify_eq. split; [|done]. by eapply (key_family _ _ (end_ sp)).
Qed.

Lemma inRange_covered l ip a : cache_ok l -> ParseAddr (trim_space ip) = Some a ->
  Zone a = "" -> inRange ip l = true <-> covered l (Unmap a).
Proof.
  intros Hl Hp Hz.
  assert (Hu : valid (Unmap a)) by (apply Unmap_valid; by eapply ParseAddr_valid).
  assert (Hzu : Zone (Unmap a) = "").
  { destruct a as [v|v z]; [done|]. unfold Unmap. by destruct (Is4In6 (Addr6 v z)). }
  destruct l as [|x l]; [|].
  - split; [done|]. intros (sp & Hsp & _). inversion Hsp.
  - unfold inRange. rewrite Hp. by apply search_covered.
Qed.

(** C34. Range lookup: bisection over the sorted and merged spans compiled from
    a list of blacklist ranges answers exactly whether some accepted range
    (parsed, and not IPv4-mapped) contains the address, for every address
    without a zone and both address families. *)
Theorem inRange_iff_some_prefix ranges ip a :
  ParseAddr (trim_space ip) = Some a -> Zone a = "" ->
  inRange ip (spans (buildBlacklistRangeCache ranges).1) = true <->
  exists r p, r ∈ ranges /\ accepted_prefix (trim_space (CIDR r)) = Some p /\
    Contains p (Unmap a) = true.
Proof.
  intros Hp Hz. destruct (build_spec ranges) as [Hok Hcov]. rewrite inRange_covered by done.
  rewrite Hcov.
  - unfold names. split; [intros (r & Hr & p & ? & ?); by exists r, p|].
    intros (r & p & ? & ? & ?). exists r. split; [done|]. by exists p.
  - apply Unmap_valid. by eapply ParseAddr_valid.
  - destruct a as [v|v z]; [done|]. unfold Unmap. by destruct (Is4In6 (Addr6 v z)).
Qed.

Lemma inRange_iff_some_prefix_witness :
  let ranges := [MkRange 1 " 10.0.0.0/8 " "s"; MkRange 2 "10.1.2.3/16" "s"; MkRange 3 "2001:db8::/32" "s"] in
  inRange "10.1.255.255" (spans (buildBlacklistRangeCache ranges).1) = true.
Proof.
  intros ranges. apply (inRange_iff_some_prefix ranges "10.1.255.255" (Addr4 (10 * 2 ^ 24 + 2 ^ 16 + 65535))).
  - vm_compute. reflexivity.
  - reflexivity.
  - exists (MkRange 1 " 10.0.0.0/8 " "s"), (MkPrefix (Addr4 (10 * 2 ^ 24)) 8).
    split; [left|]. split; vm_compute; reflexivity.
Defined.

(** The compiled range cache holds well-formed spans (both ends of one
    family, first no later than last) in strictly increasing order with no two
    overlapping, whatever ranges it was built from. *)
Theorem build_cache_sorted_disjoint ranges :
  cache_ok (spans (buildBlacklistRangeCache ranges).1).
Proof. apply build_spec. Qed.

(** ** The filter *)

Lemma FilterProxies_filter set ranges proxies :
  FilterProxies set ranges proxies =
    (filter (fun p => is_blocked set ranges p = false) proxies,
     filter (fun p => is_blocked set ranges p = true) proxies).
Proof.
  induction proxies as [|p proxies IH]; [done|]. cbn [FilterProxies]. rewrite IH.
  rewrite !filter_cons. by destruct (is_blocked set ranges p).
Qed.

Lemma is_blocked_stored toASCII set ranges p : ProxyModel.stored toASCII p ->
  is_blocked set (spans (buildBlacklistRangeCache ranges).1) p = true <->
  exists a, ParseAddr (ProxyModel.IP p) = Some a /\
    (ProxyModel.IP p ∈ set \/ exists r q, r ∈ ranges /\
      accepted_prefix (trim_space (CIDR r)) = Some q /\ Contains q a = true).
Proof.
  intros Hs. unfold is_blocked. rewrite (ProxyModel.stored_GetIp toASCII) by done.
  destruct (ProxyModel.stored_cases toASCII p Hs) as (Hne & Ht & [(a & Ha & Hu & Hz & Hp)|Hn]).
  - unfold normalizeIP. rewrite Ht, Ha, Hu, Hp, (proj2 (String.eqb_neq _ _) Hne).
    case_bool_decide as Hset.
    + split; [|done]. intros _. exists a. auto.
    + rewrite (inRange_iff_some_prefix ranges (ProxyModel.IP p) a), Hu by by rewrite ?Ht.
      split; [intros Hr; exists a; auto|]. intros (a' & Ha' & [?|Hr]); [done|]. by simplify_eq.
  - unfold normalizeIP. rewrite Ht, Hn. split; [done|]. intros (a & Ha & _). congruence.
Qed.

(** [FilterProxies] is an order-preserving partition of its input, and a
    stored proxy is blocked exactly when its host is an address that is listed
    or lies in some accepted range; host names always pass. *)
Theorem FilterProxies_partition toASCII set ranges proxies :
  let '(allowed, blocked) :=
    FilterProxies set (spans (buildBlacklistRangeCache ranges).1) proxies in
  sublist allowed proxies /\ sublist blocked proxies /\
  Permutation (allowed ++ blocked) proxies /\
  forall p, p ∈ proxies -> ProxyModel.stored toASCII p ->
    (p ∈ blocked <-> p ∉ allowed) /\
    (p ∈ blocked <->
     exists a, ParseAddr (ProxyModel.IP p) = Some a /\
       (ProxyModel.IP p ∈ set \/ exists r q, r ∈ ranges /\
         accepted_prefix (trim_space (CIDR r)) = Some q /\ Contains q a = true)).
Proof.
  rewrite FilterProxies_filter. set (sp := spans _).
  split; [apply sublist_filter|]. split; [apply sublist_filter|]. split.
  - induction proxies as [|p l IH]; [done|]. destruct (is_blocked set sp p) eqn:E.
    + rewrite filter_cons_False, filter_cons_True by congruence.
      rewrite <- Permutation_middle. by constructor.
    + rewrite filter_cons_True, filter_cons_False by congruence. by constructor.
  - intros p Hp Hs. rewrite <- (is_blocked_stored toASCII set ranges p Hs).
    rewrite !list_elem_of_filter. subst sp. destruct (is_blocked _ _ p); naive_solver.
Qed.

(** ** Persistence helpers *)

Lemma elem_of_toSet ips x : x ∈ toSet ips <-> x <> "" /\ exists ip, ip ∈ ips /\ normalizeIP ip = x.
Proof.
  unfold toSet. assert (H : forall m : gset string,
    x ∈ fold_left (fun m ip => let normalized := normalizeIP ip in
           if negb (String.eqb normalized "") then {[normalized]} ∪ m else m) ips m <->
    x ∈ m \/ (x <> "" /\ exists ip, ip ∈ ips /\ normalizeIP ip = x)).
  { induction ips as [|ip ips IH]; intros m; cbn [fold_left].
    - split; [by left|]. intros [?|(_ & ip & Hip & _)]; [done|inversion Hip].
    - rewrite IH. destruct (String.eqb_spec (normalizeIP ip) "") as [E|E]; cbn [negb];
        setoid_rewrite elem_of_cons; rewrite ?elem_of_union, ?elem_of_singleton; naive_solver congruence. }
  rewrite H. rewrite elem_of_empty. naive_solver.
Qed.

(** The canonical text of an address is its own normal form. *)
Lemma normalizeIP_idem raw : normalizeIP raw <> "" ->
  (forall a, ParseAddr (trim_space raw) = Some a -> Zone a = "") ->
  normalizeIP (normalizeIP raw) = normalizeIP raw.
Proof.
  unfold normalizeIP at 1 3 4. destruct (ParseAddr (trim_space raw)) as [a|] eqn:E; [|done].
  intros _ Hz. specialize (Hz a eq_refl). pose proof (Unmap_valid a (ParseAddr_valid _ _ E)) as Hv.
  assert (Hzu : Zone (Unmap a) = "").
  { destruct a as [v|v z]; [done|]. unfold Unmap. by destruct (Is4In6 (Addr6 v z)). }
  pose proof (Unmap_not_4in6 a) as H4. unfold normalizeIP. rewrite trim_space_printable.
  - rewrite parse_print by done. f_equal. destruct (Unmap a) as [v|v z]; [done|].
    unfold Unmap. by rewrite H4.
  - eapply Forall_impl; [by apply to_string_addr_char|]. unfold addr_char, printable. intros; lia.
Qed.

Lemma dedupeIPs_go_spec seen ips e :
  e ∈ dedupeIPs_go seen ips ->
  BipIP e <> "" /\ BipIP e ∉ seen /\
  exists l1 e0 l2, ips = l1 ++ e0 :: l2 /\ normalizeIP (BipIP e0) = BipIP e /\
    BipSource e0 = BipSource e /\ Forall (fun e1 => normalizeIP (BipIP e1) <> BipIP e) l1.
Proof.
  revert seen. induction ips as [|ip ips IH]; intros seen; cbn [dedupeIPs_go]; [intros H; inversion H|].
  destruct (String.eqb_spec (normalizeIP (BipIP ip)) "") as [En|En].
  { intros H. apply IH in H as (H1 & H2 & l1 & e0 & l2 & -> & H3 & H4 & H5).
    split; [done|]. split; [done|]. exists (ip :: l1), e0, l2. repeat (split; [done|]).
    constructor; [congruence|done]. }
  case_bool_decide as Hseen.
  { intros H. apply IH in H as (H1 & H2 & l1 & e0 & l2 & -> & H3 & H4 & H5).
    split; [done|]. split; [done|]. exists (ip :: l1), e0, l2. repeat (split; [done|]).
    constructor; [congruence|done]. }
  rewrite elem_of_cons. intros [->|H].
  - cbn. split; [done|]. split; [done|]. by exists [], ip, ips.
  - apply IH in H as (H1 & H2 & l1 & e0 & l2 & -> & H3 & H4 & H5). apply not_elem_of_cons in H2 as [H2 H2'].
    split; [done|]. split; [done|]. exists (ip :: l1), e0, l2. repeat (split; [done|]).
    constructor; [congruence|done].
Qed.

Lemma dedupeIPs_go_complete seen ips ip :
  ip ∈ ips -> normalizeIP (BipIP ip) <> "" -> normalizeIP (BipIP ip) ∉ seen ->
  normalizeIP (BipIP ip) ∈ map BipIP (dedupeIPs_go seen ips).
Proof.
  revert seen. induction ips as [|x ips IH]; intros seen Hin Hne Hs; [inversion Hin|].
  cbn [dedupeIPs_go]. apply elem_of_cons in Hin.
  destruct (String.eqb_spec (normalizeIP (BipIP x)) "") as [En|En].
  { destruct Hin as [->|Hin]; [done|]. by apply IH. }
  case_bool_decide as Hseen.
  { destruct Hin as [->|Hin]; [done|]. by apply IH. }
  cbn [map]. apply elem_of_cons. destruct (decide (normalizeIP (BipIP ip) = normalizeIP (BipIP x))) as [|Hd];
    [by left|]. right. destruct Hin as [->|Hin]; [done|]. apply IH; [done|done|]. set_solver.
Qed.

Lemma dedupeIPs_go_NoDup seen ips : NoDup (map BipIP (dedupeIPs_go seen ips)).
Proof.
  revert seen. induction ips as [|ip ips IH]; intros seen; cbn [dedupeIPs_go]; [constructor|].
  destruct (String.eqb _ _); [done|]. case_bool_decide; [done|]. cbn [map]. constructor; [|done].
  intros Hin. apply list_elem_of_fmap in Hin as (e & Heq & He). cbn in Heq.
  apply dedupeIPs_go_spec in He as (_ & Hn & _). rewrite <- Heq in Hn. set_solver.
Qed.

(** What is stored for a refresh: [dedupeIPs] keeps one entry per
    normalized address, drops what does not parse, and keeps the source of the
    first entry that reported the address (the column is documented as the
    last one). *)
Theorem dedupeIPs_keeps_first ips :
  NoDup (map BipIP (dedupeIPs ips)) /\
  (forall x, x ∈ map BipIP (dedupeIPs ips) <->
     x <> "" /\ exists e, e ∈ ips /\ normalizeIP (BipIP e) = x) /\
  forall e, e ∈ dedupeIPs ips ->
    exists l1 e0 l2, ips = l1 ++ e0 :: l2 /\ normalizeIP (BipIP e0) = BipIP e /\
      BipSource e = BipSource e0 /\ Forall (fun e1 => normalizeIP (BipIP e1) <> BipIP e) l1.
Proof.
  split; [apply dedupeIPs_go_NoDup|]. split.
  - intros x. split.
    + intros H. apply list_elem_of_fmap in H as (e & -> & He).
      apply dedupeIPs_go_spec in He as (Hne & _ & l1 & e0 & l2 & -> & H3 & _).
      split; [done|]. exists e0. split; [set_solver|done].
    + intros (Hne & e & He & <-). apply dedupeIPs_go_complete; set_solver.
  - intros e He. apply dedupeIPs_go_spec in He as (_ & _ & l1 & e0 & l2 & -> & H3 & H4 & H5).
    by exists l1, e0, l2.
Qed.

(** ** Normal forms of ranges *)

Lemma Masked_not_4in6 p : prefix_ok p -> Is4In6 (paddr p) = false -> Is4In6 (paddr (Masked p)) = false.
Proof.
  intros (Hv & Hb & Hz). unfold Masked. destruct p as [[v|v z] bits]; cbn [paddr pbits]; [done|].
  cbn [BitLen paddr pbits] in *. unfold Is4In6. rewrite !Z.eqb_neq, !Z.shiftr_div_pow2 by lia.
  unfold mask. cbn [BitLen value_of]. rewrite Z.shiftl_mul_pow2, Z.shiftr_div_pow2 by lia.
  intros H. unfold valid in Hv. cbn in Hv. destruct (decide (128 - bits <= 32)) as [Hle|Hgt].
  - replace (2 ^ 32) with (2 ^ (128 - bits) * 2 ^ (32 - (128 - bits))) in *
      by (rewrite <- Z.pow_add_r by lia; f_equal; lia).
    rewrite <- !Z.div_div in * by lia. by rewrite Z.div_mul by lia.
  - replace (2 ^ (128 - bits)) with (2 ^ 32 * (2 * 2 ^ (128 - bits - 33))).
    2:{ change 2 with (2 ^ 1) at 2. rewrite <- !Z.pow_add_r by lia. f_equal. lia. }
    set (k := 2 ^ (128 - bits - 33)). set (q := v / _).
    replace (q * (2 ^ 32 * (2 * k))) with (q * 2 * k * 2 ^ 32) by lia.
    rewrite Z.div_mul by lia. lia.
Qed.

Lemma accepted_prefix_print p : prefix_ok p -> Is4In6 (paddr p) = false ->
  accepted_prefix (trim_space (prefix_string (Masked p))) = Some (Masked p) /\
  trim_space (prefix_string (Masked p)) = prefix_string (Masked p) /\
  prefix_string (Masked p) <> "".
Proof.
  intros Hp H4. pose proof (Masked_ok p Hp) as Hm. pose proof (Masked_not_4in6 p Hp H4) as Hm4.
  destruct (prefix_string_printable _ Hm Hm4) as [Hpr Hne].
  rewrite trim_space_printable by done. split; [|done].
  unfold accepted_prefix. by rewrite ParsePrefix_print, Hm4.
Qed.

Lemma Contains_Masked p a : prefix_ok p -> valid a -> Zone a = "" ->
  Contains (Masked p) a = Contains p a.
Proof.
  intros Hp Ha Hz. apply eq_true_iff_eq. rewrite !Contains_interval; try done; [|by apply Masked_ok].
  change (pbits (Masked p)) with (pbits p). by rewrite BitLen_Masked, mask_mask.
Qed.

(** A normalized range is a fixed point and names the same addresses. *)
Lemma normalizeCIDR_spec raw c : normalizeCIDR raw = Some c ->
  c <> "" /\ trim_space c = c /\ normalizeCIDR c = Some c /\
  forall a, valid a -> Zone a = "" ->
    (exists p, accepted_prefix (trim_space raw) = Some p /\ Contains p a = true) <->
    (exists p, accepted_prefix (trim_space c) = Some p /\ Contains p a = true).
Proof.
  unfold normalizeCIDR at 1. destruct (accepted_prefix (trim_space raw)) as [p|] eqn:E; [|done].
  intros [= <-]. apply accepted_prefix_ok in E as [Hp H4].
  destruct (accepted_prefix_print p Hp H4) as (Ha & Ht & Hne).
  split; [done|]. split; [done|]. split.
  { unfold normalizeCIDR. rewrite Ha. cbn. by rewrite Masked_idem. }
  intros a Hva Hz. rewrite Ha. split.
  - intros (q & [= <-] & Hc). exists (Masked p). by rewrite Contains_Masked.
  - intros (q & [= <-] & Hc). exists p. by rewrite <- Contains_Masked.
Qed.
End Blacklist.
