(* ===== verification/BlacklistRefresh.v ===== *)
(** * The blacklist refresh cycle ([internal/blacklist/manager.go],
      [internal/database/blacklist_handler.go])

    [doRefresh] downloads the configured sources, replaces the stored lists,
    reloads the in-memory caches and removes the newly listed proxies from the
    workspaces.  The SQL statements are the operations of a class
    [BlacklistStore]; what the proofs rely on is the class [StoreLaws]. *)

From S2P Require Import Prelude GoStrings Netip NetipFacts ProxyModel Blacklist.
Open Scope Z_scope.

Module BlacklistRefresh.
Import Netip NetipFacts Blacklist.

Definition blacklistInsertBatchSize : nat := 500.

(** The statements the handlers run.  Each returns its result, or [None] when
    the database reports an error, and the database after it. *)
Class BlacklistStore (DB : Type) := {
  pluck_ips : DB -> option (list string);
  select_ranges : DB -> option (list BlacklistedRange);
  truncate_tables : DB -> option unit * DB;
  insert_ips : list BlacklistedIP -> DB -> option unit * DB;
  insert_ranges : list BlacklistedRange -> DB -> option unit * DB;
  replace_copy : list BlacklistedIP -> DB -> option unit * DB;
  proxies_by_ip : list string -> DB -> option (list ProxyModel.Proxy);
  proxies_in_ranges : list string -> DB -> option (list ProxyModel.Proxy);
  delete_relations : Z -> list Z -> DB -> option (Z * list ProxyModel.Proxy) * DB
}.

(** The rows of the two tables, as the store holds them. *)
Class StoreLaws (DB : Type) `{BlacklistStore DB} := {
  ip_rows : DB -> list string;
  range_rows : DB -> list (string * string);
  pluck_ips_rows d l : pluck_ips d = Some l -> Permutation (map normalizeIP l) (ip_rows d);
  select_ranges_rows d l : select_ranges d = Some l ->
    Permutation (map (fun r => (normalizeCIDR (trim_space (CIDR r)), RangeSource r)) l)
      (map (fun r => (Some r.1, r.2)) (range_rows d));
  truncate_rows d u d' : truncate_tables d = (Some u, d') -> ip_rows d' = [] /\ range_rows d' = [];
  insert_ips_rows l d u d' : insert_ips l d = (Some u, d') ->
    ip_rows d' = ip_rows d ++ map BipIP l /\ range_rows d' = range_rows d;
  insert_ranges_rows l d u d' : insert_ranges l d = (Some u, d') ->
    ip_rows d' = ip_rows d /\
    range_rows d' = range_rows d ++ map (fun r => (CIDR r, RangeSource r)) l;
  replace_copy_rows l d u d' : replace_copy l d = (Some u, d') ->
    ip_rows d' = map BipIP l /\ range_rows d' = [];
  delete_rows w ids d r d' : delete_relations w ids d = (r, d') ->
    ip_rows d' = ip_rows d /\ range_rows d' = range_rows d
}.

Section Refresh.
Context {DB : Type} `{BlacklistStore DB}.
(** Whether a connection string is configured ([getDSN() <> ""]). *)
Context (has_dsn : bool).

(** ** Stored lists *)

Definition ListBlacklistedIPs (d : DB) : option (list string) := pluck_ips d.

Fixpoint normalize_rows (rows : list BlacklistedRange) : list BlacklistedRange :=
  match rows with
  | [] => []
  | row :: rest =>
      match normalizeCIDR (trim_space (CIDR row)) with
      | None => normalize_rows rest
      | Some normalized => MkRange (RangeID row) normalized (RangeSource row) :: normalize_rows rest
      end
  end.

Definition ListBlacklistedRanges (d : DB) : option (list BlacklistedRange) :=
  option_map normalize_rows (select_ranges d).

Fixpoint insert_batches (bs : list (list BlacklistedRange)) (d : DB) : option unit * DB :=
  match bs with
  | [] => (Some tt, d)
  | b :: rest =>
      let rows := filter (fun r => CIDR r <> "")
        (map (fun r => MkRange (RangeID r) (trim_space (CIDR r)) (RangeSource r)) b) in
      match rows with
      | [] => insert_batches rest d
      | _ =>
          match insert_ranges rows d with
          | (None, d') => (None, d')
          | (Some _, d') => insert_batches rest d'
          end
      end
  end.

Definition insertBlacklistRanges (ranges : list BlacklistedRange) (batchSize : Z) (d : DB)
    : option unit * DB :=
  match ranges with
  | [] => (Some tt, d)
  | _ =>
      let n := if batchSize <=? 0 then blacklistInsertBatchSize else Z.to_nat batchSize in
      insert_batches (batches n ranges) d
  end.

Definition replaceBlacklistWithBatches (ips : list BlacklistedIP) (ranges : list BlacklistedRange)
    (d : DB) : option (Z * Z) * DB :=
  match truncate_tables d with
  | (None, d1) => (None, d1)
  | (Some _, d1) =>
      match (match ips with [] => (Some tt, d1) | _ => insert_ips ips d1 end) with
      | (None, d2) => (None, d2)
      | (Some _, d2) =>
          let filtered := filter (fun r => CIDR r <> "") ranges in
          match filtered with
          | [] => (Some (Z.of_nat (length ips), 0), d2)
          | _ =>
              match insertBlacklistRanges filtered (Z.of_nat blacklistInsertBatchSize) d2 with
              | (None, d3) => (None, d3)
              | (Some _, d3) => (Some (Z.of_nat (length ips), Z.of_nat (length filtered)), d3)
              end
          end
      end
  end.

(** [replaceBlacklistWithCopy] runs in one transaction and is only called
    without ranges. *)
Definition ReplaceBlacklistData (ips : list BlacklistedIP) (ranges : list BlacklistedRange)
    (d : DB) : option (Z * Z) * DB :=
  let cleanIPs := dedupeIPs ips in
  let cleanRanges := dedupeRanges ranges in
  match cleanIPs, cleanRanges with
  | [], [] =>
      match truncate_tables d with
      | (None, d') => (None, d')
      | (Some _, d') => (Some (0, 0), d')
      end
  | _, [] =>
      if has_dsn then
        match replace_copy cleanIPs d with
        | (Some _, d') => (Some (Z.of_nat (length cleanIPs), 0), d')
        | (None, d') => replaceBlacklistWithBatches cleanIPs cleanRanges d'
        end
      else replaceBlacklistWithBatches cleanIPs cleanRanges d
  | _, _ => replaceBlacklistWithBatches cleanIPs cleanRanges d
  end.

(** ** Removing newly listed proxies *)

(** The associations of the proxies found, per workspace, and the proxies no
    workspace has. *)
Definition group_proxies (proxies : list ProxyModel.Proxy)
    : gmap Z (list Z) * gmap Z ProxyModel.Proxy :=
  fold_left (fun '(perUser, orphanSet) proxy =>
    match ProxyModel.Workspaces proxy with
    | [] => (perUser, <[ProxyModel.ID proxy := proxy]> orphanSet)
    | ws => (fold_left (fun m w => <[w := default [] (m !! w) ++ [ProxyModel.ID proxy]]> m) ws perUser,
             orphanSet)
    end) proxies (∅, ∅).

Fixpoint delete_all (perUser : list (Z * list Z)) (total : Z) (orphanSet : gmap Z ProxyModel.Proxy)
    (d : DB) : option (Z * gmap Z ProxyModel.Proxy) * DB :=
  match perUser with
  | [] => (Some (total, orphanSet), d)
  | (userID, proxyIDs) :: rest =>
      match delete_relations userID proxyIDs d with
      | (None, d') => (None, d')
      | (Some (removed, orphans), d') =>
          delete_all rest (total + removed)
            (fold_left (fun m o => <[ProxyModel.ID o := o]> m) orphans orphanSet) d'
      end
  end.

Definition remove_found (proxies : list ProxyModel.Proxy) (d : DB)
    : option (Z * list ProxyModel.Proxy) * DB :=
  match proxies with
  | [] => (Some (0, []), d)
  | _ =>
      let '(perUser, orphanSet) := group_proxies proxies in
      match delete_all (map_to_list perUser) 0 orphanSet d with
      | (None, d') => (None, d')
      | (Some (total, orphans), d') => (Some (total, (map_to_list orphans).*2), d')
      end
  end.

Definition RemoveProxiesByIPs (ips : list string) (d : DB)
    : option (Z * list ProxyModel.Proxy) * DB :=
  match normalizeIPList ips with
  | [] => (Some (0, []), d)
  | normalized =>
      match proxies_by_ip normalized d with
      | None => (None, d)
      | Some proxies => remove_found proxies d
      end
  end.

Fixpoint distinct_cidrs (seen : list string) (ranges : list BlacklistedRange) : list string :=
  match ranges with
  | [] => []
  | r :: rest =>
      match normalizeCIDR (CIDR r) with
      | None => distinct_cidrs seen rest
      | Some c =>
          if bool_decide (c ∈ seen) then distinct_cidrs seen rest
          else c :: distinct_cidrs (c :: seen) rest
      end
  end.

Definition RemoveProxiesByRanges (ranges : list BlacklistedRange) (d : DB)
    : option (Z * list ProxyModel.Proxy) * DB :=
  match distinct_cidrs [] ranges with
  | [] => (Some (0, []), d)
  | prefixes =>
      match proxies_in_ranges prefixes d with
      | None => (None, d)
      | Some proxies => remove_found proxies d
      end
  end.

(** ** The refresh cycle *)

(** What the process holds: the two in-memory caches and the database. *)
Record State := MkState {
  cache : gset string;
  rangeCache : blacklistRangeCache;
  database : DB
}.

Definition LoadCache (s : State) : option unit * State :=
  match ListBlacklistedIPs (database s) with
  | None => (None, s)
  | Some ips =>
      let s1 := MkState (toSet ips) (rangeCache s) (database s) in
      match ListBlacklistedRanges (database s) with
      | None => (None, s1)
      | Some ranges =>
          (Some tt, MkState (cache s1) (buildBlacklistRangeCache ranges).1 (database s1))
      end
  end.

Inductive fetched :=
| FetchCanceled
| FetchFailed
| Fetched (ips : list string) (ranges : list BlacklistedRange).

Record RefreshOutcome := MkOutcome {
  Sources : Z;
  TotalFromSources : Z;
  NewIPs : list string;
  NewRanges : list BlacklistedRange;
  TotalCachedIPs : Z;
  TotalRanges : Z;
  RelationsRemoved : Z;
  OrphanedProxies : list ProxyModel.Proxy
}.

(** The download loop; [None] when a fetch is cancelled. *)
Fixpoint collect (fetch : string -> fetched) (sources : list string)
    : option (Z * list BlacklistedIP * list BlacklistedRange) :=
  match sources with
  | [] => Some (0, [], [])
  | src :: rest =>
      match fetch src with
      | FetchCanceled => None
      | FetchFailed => collect fetch rest
      | Fetched ips ranges =>
          match collect fetch rest with
          | None => None
          | Some (n, allIPs, allRanges) =>
              Some (Z.of_nat (length ips) + n,
                    map (fun ip => MkBIP ip src) ips ++ allIPs,
                    map (fun r => MkRange (RangeID r) (CIDR r) src) ranges ++ allRanges)
          end
      end
  end.

Definition zsize (s : gset string) : Z := Z.of_nat (size s).

Definition doRefresh (sources : list string) (fetch : string -> fetched) (force : bool) (s : State)
    : option RefreshOutcome * State :=
  let before := cloneSet (cache s) in
  let beforeRanges := entries (rangeCache s) in
  match sources with
  | [] =>
      match LoadCache s with
      | (None, s') => (None, s')
      | (Some _, s') => (Some (MkOutcome 0 0 [] [] (zsize (cache s')) 0 0 []), s')
      end
  | _ =>
      match collect fetch sources with
      | None => (None, s)
      | Some (totalFromSources, allIPs, allRanges) =>
          match ReplaceBlacklistData allIPs allRanges (database s) with
          | (None, d1) => (None, MkState (cache s) (rangeCache s) d1)
          | (Some _, d1) =>
              match LoadCache (MkState (cache s) (rangeCache s) d1) with
              | (None, s2) => (None, s2)
              | (Some _, s2) =>
                  let newIPs := diffSets (cache s2) before in
                  let newRanges := diffRanges (entries (rangeCache s2)) beforeRanges in
                  let finish removed orphans d :=
                    (Some (MkOutcome (Z.of_nat (length sources)) totalFromSources newIPs newRanges
                       (zsize (cache s2)) (Z.of_nat (length (entries (rangeCache s2))))
                       removed orphans),
                     MkState (cache s2) (rangeCache s2) d) in
                  if negb (length newIPs =? 0)%nat || negb (length newRanges =? 0)%nat || force then
                    match RemoveProxiesByIPs newIPs (database s2) with
                    | (None, d3) => (None, MkState (cache s2) (rangeCache s2) d3)
                    | (Some (removed, orphans), d3) =>
                        match RemoveProxiesByRanges newRanges d3 with
                        | (None, d4) => (None, MkState (cache s2) (rangeCache s2) d4)
                        | (Some (rangeRemoved, rangeOrphans), d4) =>
                            finish (removed + rangeRemoved) (orphans ++ rangeOrphans) d4
                        end
                    end
                  else finish 0 [] (database s2)
              end
          end
      end
  end.

(** ** What a replacement stores *)

Context `{!StoreLaws DB}.

Definition range_row (r : BlacklistedRange) : string * string := (CIDR r, RangeSource r).

Lemma dedupeRanges_go_spec seen ranges r :
  r ∈ dedupeRanges_go seen ranges ->
  CIDR r ∉ seen /\ exists r0, r0 ∈ ranges /\ normalizeCIDR (CIDR r0) = Some (CIDR r) /\
    RangeSource r0 = RangeSource r.
Proof.
  revert seen. induction ranges as [|x ranges IH]; intros seen; cbn [dedupeRanges_go];
    [intros Hin; inversion Hin|].
  destruct (normalizeCIDR (CIDR x)) as [c|] eqn:E.
  2:{ intros Hin. apply IH in Hin as (? & r0 & ? & ?). split; [done|]. exists r0. split; [by right|done]. }
  case_bool_decide.
  { intros Hin. apply IH in Hin as (? & r0 & ? & ?). split; [done|]. exists r0. split; [by right|done]. }
  rewrite elem_of_cons. intros [->|Hin].
  - cbn. split; [done|]. exists x. split; [by left|done].
  - apply IH in Hin as (? & r0 & ? & ?). split; [set_solver|]. exists r0. split; [by right|done].
Qed.

Lemma dedupeRanges_go_complete seen ranges r0 c :
  r0 ∈ ranges -> normalizeCIDR (CIDR r0) = Some c -> c ∉ seen ->
  c ∈ map CIDR (dedupeRanges_go seen ranges).
Proof.
  revert seen. induction ranges as [|x ranges IH]; intros seen Hin Hc Hs; [inversion Hin|].
  cbn [dedupeRanges_go]. apply elem_of_cons in Hin.
  destruct (normalizeCIDR (CIDR x)) as [cx|] eqn:E.
  2:{ destruct Hin as [->|Hin]; [congruence|]. by apply IH. }
  case_bool_decide as Hseen.
  { destruct Hin as [->|Hin]; [congruence|]. by apply IH. }
  cbn [map CIDR]. apply elem_of_cons. destruct (decide (c = cx)); [by left|right].
  destruct Hin as [->|Hin]; [congruence|]. apply IH; [done|done|set_solver].
Qed.

(** The normalized networks of a list of feed entries. *)
Lemma elem_of_dedupeRanges c ranges :
  c ∈ map CIDR (dedupeRanges ranges) <-> exists r, r ∈ ranges /\ normalizeCIDR (CIDR r) = Some c.
Proof.
  unfold dedupeRanges. split.
  - intros Hin. apply list_elem_of_fmap in Hin as (r & -> & Hr).
    apply dedupeRanges_go_spec in Hr as (_ & r0 & ? & ? & _). by exists r0.
  - intros (r & Hr & Hc). eapply dedupeRanges_go_complete; [done|done|set_solver].
Qed.

Lemma dedupeRanges_clean ranges r : r ∈ dedupeRanges ranges ->
  CIDR r <> "" /\ trim_space (CIDR r) = CIDR r.
Proof.
  intros Hr. apply dedupeRanges_go_spec in Hr as (_ & r0 & _ & Hc & _).
  apply normalizeCIDR_spec in Hc as (? & ? & _). done.
Qed.

Lemma insert_batches_rows bs d u d' :
  Forall (Forall (fun r => CIDR r <> "" /\ trim_space (CIDR r) = CIDR r)) bs ->
  insert_batches bs d = (Some u, d') ->
  ip_rows d' = ip_rows d /\ range_rows d' = range_rows d ++ map range_row (concat bs).
Proof.
  revert d. induction bs as [|b bs IH]; intros d Hb; cbn [insert_batches concat map].
  { intros [= _ <-]. by rewrite app_nil_r. }
  apply Forall_cons in Hb as [Hb Hbs].
  assert (Hrows : filter (fun r => CIDR r <> "")
    (map (fun r => MkRange (RangeID r) (trim_space (CIDR r)) (RangeSource r)) b) = b).
  { rewrite (filter_all (fun r => CIDR r <> "")).
    - rewrite <- (map_id b) at 2. apply map_ext_in. intros r Hr. apply list_elem_of_In in Hr.
      rewrite Forall_forall in Hb. destruct (Hb r Hr) as [_ ->]. by destruct r.
    - intros r Hr. apply list_elem_of_fmap in Hr as (r0 & -> & Hr0). cbn.
      rewrite Forall_forall in Hb. destruct (Hb r0 Hr0) as [? ->]. done. }
  rewrite Hrows. destruct b as [|r b]; [by apply IH|].
  destruct (insert_ranges (r :: b) d) as [[u1|] d1] eqn:E; [|done].
  apply insert_ranges_rows in E as [Hi Hr]. intros Hins. destruct (IH d1 Hbs Hins) as [-> ->].
  rewrite Hi, Hr, map_app, <- app_assoc. done.
Qed.

Lemma replaceWithBatches_rows ips ranges d n d' :
  replaceBlacklistWithBatches ips (dedupeRanges ranges) d = (Some n, d') ->
  ip_rows d' = map BipIP ips /\ range_rows d' = map range_row (dedupeRanges ranges).
Proof.
  unfold replaceBlacklistWithBatches.
  destruct (truncate_tables d) as [[u|] d1] eqn:Et; [|done].
  apply truncate_rows in Et as [Hi1 Hr1].
  assert (Hclean : filter (fun r => CIDR r <> "") (dedupeRanges ranges) = dedupeRanges ranges).
  { apply filter_all. intros r Hr. by apply dedupeRanges_clean in Hr as [? _]. }
  rewrite Hclean.
  destruct (match ips with [] => (Some tt, d1) | _ => insert_ips ips d1 end) as [[u2|] d2] eqn:Ei; [|done].
  assert (Hd2 : ip_rows d2 = map BipIP ips /\ range_rows d2 = []).
  { destruct ips as [|ip ips]; [injection Ei as _ <-; done|].
    apply insert_ips_rows in Ei as [-> ->]. by rewrite Hi1, Hr1. }
  destruct Hd2 as [Hi2 Hr2].
  destruct (dedupeRanges ranges) as [|r rs] eqn:Er; [intros [= _ <-]; done|]. rewrite <- Er.
  unfold insertBlacklistRanges. rewrite Er. rewrite <- Er. change (Z.of_nat blacklistInsertBatchSize <=? 0) with false.
  rewrite Nat2Z.id.
  destruct (insert_batches _ d2) as [[u3|] d3] eqn:Eb; [|done]. intros [= _ <-].
  apply insert_batches_rows in Eb as [-> ->].
  - by rewrite Hi2, Hr2, concat_batches by (unfold blacklistInsertBatchSize; lia).
  - apply Forall_concat. rewrite concat_batches by (unfold blacklistInsertBatchSize; lia).
    apply Forall_forall. intros x Hx. by eapply dedupeRanges_clean.
Qed.

(** After a successful replacement the tables hold the deduplicated feeds. *)
Lemma ReplaceBlacklistData_rows ips ranges d n d' :
  ReplaceBlacklistData ips ranges d = (Some n, d') ->
  ip_rows d' = map BipIP (dedupeIPs ips) /\ range_rows d' = map range_row (dedupeRanges ranges).
Proof.
  unfold ReplaceBlacklistData.
  destruct (dedupeIPs ips) as [|ip l] eqn:Ei; destruct (dedupeRanges ranges) as [|r rs] eqn:Er;
    try rewrite <- Ei; rewrite <- Er.
  - destruct (truncate_tables d) as [[u|] d1] eqn:Et; [|done]. apply truncate_rows in Et as [H1 H2].
    intros [= _ <-]. by rewrite Ei, Er.
  - rewrite Ei. apply replaceWithBatches_rows.
  - destruct has_dsn; [|apply replaceWithBatches_rows].
    destruct (replace_copy (dedupeIPs ips) d) as [[u|] d1] eqn:Ec; [|apply replaceWithBatches_rows].
    apply replace_copy_rows in Ec as [H1 H2]. intros [= _ <-]. by rewrite Er.
  - apply replaceWithBatches_rows.
Qed.

(** ** What a reload installs *)

Lemma elem_of_normalize_rows c l :
  c ∈ map CIDR (normalize_rows l) <-> exists r, r ∈ l /\ normalizeCIDR (trim_space (CIDR r)) = Some c.
Proof.
  induction l as [|r l IH]; cbn [normalize_rows map].
  { split; [intros Hin; inversion Hin|]. intros (r & Hr & _). inversion Hr. }
  setoid_rewrite elem_of_cons. destruct (normalizeCIDR (trim_space (CIDR r))) as [c'|] eqn:E;
    cbn [map CIDR]; rewrite ?elem_of_cons, IH; naive_solver congruence.
Qed.

Lemma elem_of_entries c l :
  c ∈ map CIDR (entries (buildBlacklistRangeCache l).1) <->
  exists r, r ∈ l /\ normalizeCIDR (CIDR r) = Some c.
Proof.
  unfold buildBlacklistRangeCache. destruct (compile_entries l) as [[es ss] inv] eqn:E. cbn [fst entries].
  revert es ss inv E. induction l as [|r l IH]; intros es ss inv; cbn [compile_entries].
  { intros [= <- _ _]. split; [intros Hin; inversion Hin|]. intros (r & Hr & _). inversion Hr. }
  destruct (compile_entries l) as [[es' ss'] inv'] eqn:E'. specialize (IH _ _ _ eq_refl).
  setoid_rewrite elem_of_cons. unfold normalizeCIDR in *.
  destruct (accepted_prefix (trim_space (CIDR r))) as [p|] eqn:Ep; intros [= <- <- <-];
    cbn [map CIDR option_map]; rewrite ?elem_of_cons, IH.
  - split; [intros [->|(x & ? & ?)]; [exists r; rewrite Ep; auto|exists x; auto]|].
    intros (x & [->|?] & Hx); [rewrite Ep in Hx; cbn in Hx; left; congruence|right; by exists x].
  - split; [intros (x & ? & ?); exists x; auto|].
    intros (x & [->|?] & Hx); [rewrite Ep in Hx; done|by exists x].
Qed.

(** The networks the rows of the range table name. *)
Definition stored_cidr (d : DB) (c : string) : Prop := exists src, (c, src) ∈ range_rows d.

Lemma LoadCache_spec s u s' : LoadCache s = (Some u, s') ->
  database s' = database s /\
  (forall x, x ∈ cache s' <-> x <> "" /\ x ∈ ip_rows (database s)) /\
  (forall c, c ∈ map CIDR (entries (rangeCache s')) <->
     exists c0, stored_cidr (database s) c0 /\ normalizeCIDR c0 = Some c) /\
  (forall a, valid a -> Zone a = "" -> covered (spans (rangeCache s')) a <->
     exists c0, stored_cidr (database s) c0 /\ names (MkRange 0 c0 "") a).
Proof.
  unfold LoadCache, ListBlacklistedIPs, ListBlacklistedRanges.
  destruct (pluck_ips (database s)) as [ips|] eqn:Ei; [|done].
  destruct (select_ranges (database s)) as [rows|] eqn:Er; [|done]. cbn [option_map].
  intros [= _ <-]. cbn [database cache rangeCache].
  apply pluck_ips_rows in Ei. apply select_ranges_rows in Er.
  assert (Hrows : forall c, c ∈ map CIDR (normalize_rows rows) <-> stored_cidr (database s) c).
  { intros c. rewrite elem_of_normalize_rows. unfold stored_cidr. split.
    - intros (r & Hr & Hc).
      assert (Hin : (normalizeCIDR (trim_space (CIDR r)), RangeSource r) ∈
        map (fun r => (normalizeCIDR (trim_space (CIDR r)), RangeSource r)) rows)
        by (apply list_elem_of_fmap; by exists r).
      rewrite Er, Hc in Hin. apply list_elem_of_fmap in Hin as ([c0 src] & [= <- _] & Hx). by exists src.
    - intros (src & Hin).
      assert (Hin' : (Some c, src) ∈ map (fun r => (Some r.1, r.2)) (range_rows (database s)))
        by (apply list_elem_of_fmap; by exists (c, src)).
      rewrite <- Er in Hin'. apply list_elem_of_fmap in Hin' as (r & Hreq & Hr).
      exists r. split; [done|]. congruence. }
  split; [done|]. split; [|split].
  - intros x. rewrite elem_of_toSet. rewrite <- Ei. rewrite list_elem_of_fmap. naive_solver.
  - intros c. rewrite elem_of_entries. setoid_rewrite <- Hrows. split.
    + intros (r & Hr & Hc). exists (CIDR r). split; [by apply list_elem_of_fmap_2|done].
    + intros (c0 & Hc0 & Hc). apply list_elem_of_fmap in Hc0 as (r & -> & Hr). by exists r.
  - intros a Ha Hz. destruct (build_spec (normalize_rows rows)) as [_ Hcov]. rewrite Hcov by done.
    setoid_rewrite <- Hrows. split.
    + intros (r & Hr & Hn). exists (CIDR r). split; [by apply list_elem_of_fmap_2|done].
    + intros (c0 & Hc0 & Hn). apply list_elem_of_fmap in Hc0 as (r & -> & Hr). by exists r.
Qed.

(** ** What the feeds report *)

Definition reported_ip (fetch : string -> fetched) (sources : list string) (ip : string) : Prop :=
  exists src ips ranges, src ∈ sources /\ fetch src = Fetched ips ranges /\ ip ∈ ips.

Definition reported_range (fetch : string -> fetched) (sources : list string) (c : string) : Prop :=
  exists src ips ranges, src ∈ sources /\ fetch src = Fetched ips ranges /\ c ∈ map CIDR ranges.

Lemma collect_reported fetch sources n ips ranges :
  collect fetch sources = Some (n, ips, ranges) ->
  (forall ip, ip ∈ map BipIP ips <-> reported_ip fetch sources ip) /\
  (forall c, c ∈ map CIDR ranges <-> reported_range fetch sources c).
Proof.
  revert n ips ranges. induction sources as [|src sources IH]; intros n ips ranges; cbn [collect].
  { intros [= _ <- <-]. unfold reported_ip, reported_range. split; intros x; split;
      intros Hin; try inversion Hin; destruct Hin as (? & ? & ? & Hs & _); inversion Hs. }
  unfold reported_ip, reported_range in *. setoid_rewrite elem_of_cons.
  destruct (fetch src) as [| |ips0 rs0] eqn:Ef; [done| |].
  - intros Hc. destruct (IH _ _ _ Hc) as [H1 H2]. setoid_rewrite H1. setoid_rewrite H2.
    split; intros x; split.
    1,3: intros (s & i & r & Hs & Hf & Hx); exists s, i, r; auto.
    all: intros (s & i & r & [->|Hs] & Hf & Hx); [congruence|by exists s, i, r].
  - destruct (collect fetch sources) as [[[m ips1] rs1]|] eqn:Ec; [|done]. intros [= _ <- <-].
    destruct (IH _ _ _ eq_refl) as [H1 H2]. rewrite !map_app, !map_map. cbn. rewrite map_id.
    change (map (fun x : BlacklistedRange => CIDR x) rs0) with (map CIDR rs0).
    split; intros x; rewrite elem_of_app, ?H1, ?H2; split.
    + intros [Hx|(s & i & r & Hs & Hf & Hx)]; [exists src, ips0, rs0; auto|exists s, i, r; auto].
    + intros (s & i & r & [->|Hs] & Hf & Hx); [left; congruence|right; by exists s, i, r].
    + intros [Hx|(s & i & r & Hs & Hf & Hx)]; [exists src, ips0, rs0; auto|exists s, i, r; auto].
    + intros (s & i & r & [->|Hs] & Hf & Hx); [left; congruence|right; by exists s, i, r].
Qed.

(** ** Installing the feeds *)

(** The caches hold what the feeds report, in normal form. *)
Definition installed (fetch : string -> fetched) (sources : list string) (s : State) : Prop :=
  (forall x, x ∈ cache s <->
     x <> "" /\ exists ip, reported_ip fetch sources ip /\ normalizeIP ip = x) /\
  (forall c, c ∈ map CIDR (entries (rangeCache s)) <->
     exists c0, reported_range fetch sources c0 /\ normalizeCIDR c0 = Some c) /\
  (forall a, valid a -> Zone a = "" -> covered (spans (rangeCache s)) a <->
     exists c0, reported_range fetch sources c0 /\ names (MkRange 0 c0 "") a).

Lemma replace_load_installed fetch sources n ips ranges d r d1 c0 rc0 u s2 :
  collect fetch sources = Some (n, ips, ranges) ->
  ReplaceBlacklistData ips ranges d = (Some r, d1) ->
  LoadCache (MkState c0 rc0 d1) = (Some u, s2) ->
  installed fetch sources s2.
Proof.
  intros Hc Hr Hl. destruct (collect_reported _ _ _ _ _ Hc) as [Hips Hranges].
  apply ReplaceBlacklistData_rows in Hr as [Hip Hrow].
  apply LoadCache_spec in Hl as (_ & H1 & H2 & H3). cbn [database] in *.
  assert (Hst : forall c, stored_cidr d1 c <-> exists c0, reported_range fetch sources c0 /\ normalizeCIDR c0 = Some c).
  { intros c. unfold stored_cidr. rewrite Hrow. transitivity (c ∈ map CIDR (dedupeRanges ranges)).
    - split.
      + intros (src & Hin). apply list_elem_of_fmap in Hin as (r0 & [= -> _] & Hin).
        by apply list_elem_of_fmap_2.
      + intros Hin. apply list_elem_of_fmap in Hin as (r0 & -> & Hin).
        exists (RangeSource r0). apply list_elem_of_fmap. by exists r0.
    - rewrite elem_of_dedupeRanges. setoid_rewrite <- Hranges. split.
      + intros (r0 & Hin & Hn). exists (CIDR r0). split; [by apply list_elem_of_fmap_2|done].
      + intros (c1 & Hin & Hn). apply list_elem_of_fmap in Hin as (r0 & -> & Hin). by exists r0. }
  split; [|split].
  - intros x. rewrite H1, Hip. setoid_rewrite <- Hips. split.
    + intros [Hne Hin]. split; [done|]. apply list_elem_of_fmap in Hin as (e & -> & He).
      apply dedupeIPs_go_spec in He as (_ & _ & l1 & e0 & l2 & -> & Hn & _).
      exists (BipIP e0). split; [|done]. apply list_elem_of_fmap_2. set_solver.
    + intros (Hne & ip & Hin & <-). split; [done|].
      apply list_elem_of_fmap in Hin as (e & -> & He). apply dedupeIPs_go_complete; set_solver.
  - intros c. rewrite H2. setoid_rewrite Hst. split.
    + intros (c1 & (c2 & Hin & Hn) & Hc1). exists c2. split; [done|].
      apply normalizeCIDR_spec in Hn as Hs. destruct Hs as (_ & _ & Hs & _). congruence.
    + intros (c2 & Hin & Hn). exists c. split; [by exists c2|].
      by apply normalizeCIDR_spec in Hn as (_ & _ & ? & _).
  - intros a Ha Hz. rewrite H3 by done. setoid_rewrite Hst. unfold names. cbn [CIDR]. split.
    + intros (c1 & (c2 & Hin & Hn) & Hc1). exists c2. split; [done|].
      apply normalizeCIDR_spec in Hn as (_ & _ & _ & Hn). by apply Hn.
    + intros (c2 & Hin & Hn). destruct Hn as (p & Hp & Hcon).
      assert (Hnc : normalizeCIDR c2 = Some (prefix_string (Masked p)))
        by (unfold normalizeCIDR; by rewrite Hp).
      exists (prefix_string (Masked p)). split; [by exists c2|].
      apply normalizeCIDR_spec in Hnc as (_ & _ & _ & Hn). apply Hn; [done|done|]. by exists p.
Qed.

(** A successful refresh installs the feeds: afterwards the address cache
    holds exactly the normal forms of the addresses some source reported, and
    a zone-free address is covered by the range cache exactly when it lies in
    an accepted range some source reported.  Sources whose download failed
    contribute nothing. *)
Theorem doRefresh_installs sources fetch force s out s' :
  sources <> [] -> doRefresh sources fetch force s = (Some out, s') ->
  installed fetch sources s'.
Proof.
  intros Hne. unfold doRefresh. destruct sources as [|src rest]; [done|].
  set (sources := src :: rest) in *.
  destruct (collect fetch sources) as [[[n ips] ranges]|] eqn:Ec; [|done].
  destruct (ReplaceBlacklistData ips ranges (database s)) as [[r|] d1] eqn:Er; [|done].
  destruct (LoadCache _) as [[u|] s2] eqn:El; [|done].
  pose proof (replace_load_installed _ _ _ _ _ _ _ _ _ _ _ _ Ec Er El) as Hi.
  cbn zeta. destruct (_ || force).
  - destruct (RemoveProxiesByIPs _ _) as [[[rm orph]|] d3]; [|done].
    destruct (RemoveProxiesByRanges _ _) as [[[rm2 orph2]|] d4]; [|done].
    by intros [= _ <-].
  - by intros [= _ <-].
Qed.

Lemma diffSets_nil (after before : gset string) :
  (forall x, x ∈ after -> x ∈ before) -> diffSets after (cloneSet before) = [].
Proof.
  intros Hs. unfold diffSets. apply elem_of_nil_inv. intros x Hx.
  apply list_elem_of_filter in Hx as [Hn Hx]. apply Hn. unfold cloneSet.
  rewrite elem_of_list_to_set. rewrite elem_of_elements in Hx |- *. auto.
Qed.

Lemma diffRanges_nil after before :
  (forall c, c ∈ map CIDR after -> c ∈ map CIDR before) -> diffRanges after before = [].
Proof.
  intros Hs. unfold diffRanges. apply elem_of_nil_inv. intros x Hx.
  apply list_elem_of_filter in Hx as [Hn Hx]. apply Hn. rewrite elem_of_list_to_set.
  apply Hs. by apply list_elem_of_fmap_2.
Qed.

(** A refresh whose caches already hold the feeds removes nothing. *)
Lemma refresh_after_install_removes_nothing sources fetch force s out s' :
  sources <> [] -> installed fetch sources s ->
  doRefresh sources fetch force s = (Some out, s') ->
  NewIPs out = [] /\ NewRanges out = [] /\ RelationsRemoved out = 0 /\ OrphanedProxies out = [].
Proof.
  intros Hne (Hi1 & Hi2 & _). unfold doRefresh. destruct sources as [|src rest]; [done|].
  set (sources := src :: rest) in *.
  destruct (collect fetch sources) as [[[n ips] ranges]|] eqn:Ec; [|done].
  destruct (ReplaceBlacklistData ips ranges (database s)) as [[r|] d1] eqn:Er; [|done].
  destruct (LoadCache _) as [[u|] s2] eqn:El; [|done].
  destruct (replace_load_installed _ _ _ _ _ _ _ _ _ _ _ _ Ec Er El) as (Hj1 & Hj2 & _).
  cbn zeta. rewrite diffSets_nil by (intros x; by rewrite Hj1, Hi1).
  rewrite diffRanges_nil by (intros c; by rewrite Hj2, Hi2).
  cbn [length Nat.eqb negb orb]. destruct force; cbn.
  - by intros [= <- _].
  - by intros [= <- _].
Qed.

(** The state a refresh leaves when only its removal step fails. *)
Lemma failed_removal_installed sources fetch force s s' n ips ranges r d1 u s2 :
  collect fetch sources = Some (n, ips, ranges) ->
  ReplaceBlacklistData ips ranges (database s) = (Some r, d1) ->
  LoadCache (MkState (cache s) (rangeCache s) d1) = (Some u, s2) ->
  doRefresh sources fetch force s = (None, s') ->
  sources <> [] -> installed fetch sources s'.
Proof.
  intros Ec Er El. pose proof (replace_load_installed _ _ _ _ _ _ _ _ _ _ _ _ Ec Er El) as Hi.
  unfold doRefresh. destruct sources as [|src rest]; [done|]. rewrite Ec, Er, El.
  cbn zeta. destruct (_ || force); [|done].
  destruct (RemoveProxiesByIPs _ _) as [[[rm orph]|] d3]; [|by intros [= <-]].
  destruct (RemoveProxiesByRanges _ _) as [[[rm2 orph2]|] d4]; [done|by intros [= <-]].
Qed.

(** A failed removal is never made up for.  The caches are reloaded before
    the removal step, so when only that step fails, the next refresh of the
    same feeds sees nothing new: it reports no new address and no new range
    and deletes no association, forced or not, and the newly listed proxies
    stay in their workspaces. *)
Theorem failed_removal_not_retried sources fetch f1 f2 s s1 out s2 n ips ranges r d1 u sl :
  sources <> [] ->
  collect fetch sources = Some (n, ips, ranges) ->
  ReplaceBlacklistData ips ranges (database s) = (Some r, d1) ->
  LoadCache (MkState (cache s) (rangeCache s) d1) = (Some u, sl) ->
  doRefresh sources fetch f1 s = (None, s1) ->
  doRefresh sources fetch f2 s1 = (Some out, s2) ->
  NewIPs out = [] /\ NewRanges out = [] /\ RelationsRemoved out = 0 /\ OrphanedProxies out = [].
Proof.
  intros Hne Ec Er El Hfail Hnext. eapply refresh_after_install_removes_nothing; [done| |exact Hnext].
  by eapply failed_removal_installed.
Qed.
End Refresh.

(** The [force] argument of a refresh has no effect: it only opens the
    removal step when nothing is new, and that step does nothing without new
    addresses or ranges. *)
Theorem force_has_no_effect {DB} `{BlacklistStore DB} has_dsn sources fetch (s : @State DB) :
  doRefresh has_dsn sources fetch true s = doRefresh has_dsn sources fetch false s.
Proof.
  unfold doRefresh. destruct sources as [|src rest]; [done|].
  destruct (collect _ _) as [[[n ips] ranges]|]; [|done].
  destruct (ReplaceBlacklistData _ _ _ _) as [[r|] d1]; [|done].
  destruct (LoadCache _) as [[u|] s2]; [|done]. cbn zeta.
  destruct (diffSets _ _) as [|x l]; destruct (diffRanges _ _) as [|y m]; done.
Qed.

(** ** A store in memory

    It holds the two tables, one proxy per listed address of a workspace, and
    a flag that makes the next deletion fail. *)
Record MemDB := MkMem {
  mem_ips : list string;
  mem_ranges : list BlacklistedRange;
  mem_proxies : list ProxyModel.Proxy;
  mem_fail : bool
}.

Definition normal_ip (x : string) : bool := String.eqb (normalizeIP x) x.

Definition normal_range (r : BlacklistedRange) : bool :=
  bool_decide (normalizeCIDR (trim_space (CIDR r)) = Some (CIDR r)).

#[export] Instance MemStore : BlacklistStore MemDB := {|
  pluck_ips d := Some (mem_ips d);
  select_ranges d := Some (filter (fun r => normal_range r = true) (mem_ranges d));
  truncate_tables d := (Some tt, MkMem [] [] (mem_proxies d) (mem_fail d));
  insert_ips l d :=
    if forallb (fun e => normal_ip (BipIP e)) l
    then (Some tt, MkMem (mem_ips d ++ map BipIP l) (mem_ranges d) (mem_proxies d) (mem_fail d))
    else (None, d);
  insert_ranges l d :=
    if forallb normal_range l
    then (Some tt, MkMem (mem_ips d) (mem_ranges d ++ l) (mem_proxies d) (mem_fail d))
    else (None, d);
  replace_copy l d :=
    if forallb (fun e => normal_ip (BipIP e)) l
    then (Some tt, MkMem (map BipIP l) [] (mem_proxies d) (mem_fail d))
    else (None, d);
  proxies_by_ip l d := Some (filter (fun p => ProxyModel.IP p ∈ l) (mem_proxies d));
  proxies_in_ranges l d := Some [];
  delete_relations w ids d :=
    if mem_fail d then (None, MkMem (mem_ips d) (mem_ranges d) (mem_proxies d) false)
    else (Some (Z.of_nat (length ids), []),
          MkMem (mem_ips d) (mem_ranges d)
            (filter (fun p => ProxyModel.ID p ∉ ids) (mem_proxies d)) false)
|}.

Lemma map_normal l : forallb (fun e => normal_ip (BipIP e)) l = true ->
  map normalizeIP (map BipIP l) = map BipIP l.
Proof.
  rewrite forallb_forall. intros H. rewrite map_map. apply map_ext_in. intros e He.
  by apply String.eqb_eq, H.
Qed.

#[export] Instance MemLaws : StoreLaws MemDB.
Proof.
  refine {|
    ip_rows d := map normalizeIP (mem_ips d);
    range_rows d := map (fun r => (CIDR r, RangeSource r))
      (filter (fun r => normal_range r = true) (mem_ranges d))
  |}.
  - by intros d l [= <-].
  - intros d l [= <-]. rewrite map_map. apply Permutation_refl', map_ext_in. intros r Hr.
    apply list_elem_of_In, list_elem_of_filter in Hr as [Hr _]. unfold normal_range in Hr.
    apply bool_decide_eq_true_1 in Hr. cbn. by rewrite Hr.
  - by intros d u d' [= _ <-].
  - intros l d u d'. cbn. destruct (forallb _ l) eqn:E; [|done]. intros [= _ <-]. cbn.
    by rewrite map_app, (map_normal l E).
  - intros l d u d'. cbn. destruct (forallb _ l) eqn:E; [|done]. intros [= _ <-]. cbn.
    split; [done|]. rewrite filter_app, map_app. f_equal. f_equal. apply filter_all.
    intros r Hr. rewrite forallb_forall in E. by apply E, list_elem_of_In.
  - intros l d u d'. cbn. destruct (forallb _ l) eqn:E; [|done]. intros [= _ <-]. cbn.
    by rewrite (map_normal l E).
  - intros w ids d r d'. cbn. destruct (mem_fail d); by intros [= _ <-].
Defined.

Definition feed (src : string) : fetched :=
  if String.eqb src "a" then Fetched ["10.0.0.1"; "::ffff:10.0.0.1"] [MkRange 0 "192.0.2.0/24" ""]
  else FetchFailed.

Definition mem_start (fails : bool) : @State MemDB :=
  MkState ∅ (MkCache [] [])
    (MkMem [] [] [ProxyModel.MkProxy 5 "10.0.0.1" (Some "10.0.0.1") 80 "" "" [3] None "h"] fails).

Lemma doRefresh_installs_witness :
  let r := doRefresh true ["b"; "a"] feed false (mem_start false) in
  option_map NewIPs r.1 = Some ["10.0.0.1"] /\ option_map RelationsRemoved r.1 = Some 1 /\
  installed feed ["b"; "a"] r.2.
Proof.
  intros r. assert (Hd : r.1 = Some (MkOutcome 2 2 ["10.0.0.1"] [MkRange 0 "192.0.2.0/24" "a"] 1 1 1 []))
    by (vm_compute; reflexivity).
  split; [by rewrite Hd|]. split; [by rewrite Hd|].
  apply (doRefresh_installs true ["b"; "a"] feed false (mem_start false)
    (MkOutcome 2 2 ["10.0.0.1"] [MkRange 0 "192.0.2.0/24" "a"] 1 1 1 [])); [discriminate|].
  rewrite <- Hd. apply surjective_pairing.
Defined.

Lemma failed_removal_not_retried_witness :
  let r1 := doRefresh true ["a"] feed false (mem_start true) in
  let r2 := doRefresh true ["a"] feed true r1.2 in
  r1.1 = None /\ option_map NewIPs r2.1 = Some [] /\ option_map RelationsRemoved r2.1 = Some 0 /\
  length (mem_proxies (database r2.2)) = 1%nat.
Proof.
  intros r1 r2. split; [vm_compute; reflexivity|].
  assert (Hr : forall out, r2.1 = Some out -> NewIPs out = [] /\ NewRanges out = [] /\
    RelationsRemoved out = 0 /\ OrphanedProxies out = []).
  { intros out Hout.
    eapply (failed_removal_not_retried true ["a"] feed false true (mem_start true) r1.2 out r2.2).
    - discriminate.
    - vm_compute. reflexivity.
    - vm_compute. reflexivity.
    - vm_compute. reflexivity.
    - vm_compute. reflexivity.
    - rewrite <- Hout. apply surjective_pairing. }
  destruct (r2.1) as [out|] eqn:E; [|vm_compute in E; discriminate E].
  destruct (Hr out eq_refl) as (H1 & _ & H2 & _).
  split; [cbn; by rewrite H1|]. split; [cbn; by rewrite H2|]. vm_compute. reflexivity.
Defined.
End BlacklistRefresh.
