(* ===== verification/OutboundGuard.v ===== *)
(** * [internal/support/outbound_guard.go]

    The guard against requests to private networks: the table of disallowed
    prefixes, the checks on literal hosts, and the resolver that only lets
    allowed addresses through.  DNS ([LookupNetIP]), the dialer and the URL
    parser of the standard library are parameters. *)

From S2P Require Import Prelude GoStrings Netip NetipFacts GoNet ProxyModel.
From Stdlib Require Import Ascii.
Open Scope Z_scope.
Open Scope magpie_scope.

Module OutboundGuard.
Import GoNet Netip NetipFacts.

(** [*OutboundTargetError], or the resolver's error. *)
Inductive guard_error :=
| OutboundTargetError (Host IPText Reason : string)
| ResolveError (Host : string)
| AddressError
| DialError
| UrlError.

(** [OutboundTargetError.Error] *)
Definition Error (host ip reason : string) : string :=
  let reason := trim_space reason in
  let reason := if String.eqb reason "" then "target is not allowed" else reason in
  let host := trim_space host in
  let ip := trim_space ip in
  if negb (String.eqb host "") && negb (String.eqb ip "") then
    host +:+ " (" +:+ ip +:+ "): " +:+ reason
  else if negb (String.eqb host "") then host +:+ ": " +:+ reason
  else if negb (String.eqb ip "") then ip +:+ ": " +:+ reason
  else reason.

(** [disallowedOutboundPrefixes], as written. *)
Definition disallowed_table : list (string * string) :=
  [("0.0.0.0/8", "unspecified_ipv4_range");
   ("10.0.0.0/8", "private_network");
   ("100.64.0.0/10", "carrier_grade_nat");
   ("127.0.0.0/8", "loopback");
   ("169.254.0.0/16", "link_local");
   ("172.16.0.0/12", "private_network");
   ("192.0.0.0/24", "ietf_protocol_assignments");
   ("192.0.2.0/24", "documentation_range");
   ("192.168.0.0/16", "private_network");
   ("198.18.0.0/15", "benchmarking_range");
   ("198.51.100.0/24", "documentation_range");
   ("203.0.113.0/24", "documentation_range");
   ("224.0.0.0/4", "multicast_or_reserved");
   ("240.0.0.0/4", "reserved_range");
   ("255.255.255.255/32", "limited_broadcast");
   ("::/128", "unspecified_ipv6");
   ("::1/128", "loopback");
   ("fc00::/7", "unique_local_address");
   ("fe80::/10", "link_local");
   ("fec0::/10", "site_local");
   ("ff00::/8", "multicast");
   ("2001:db8::/32", "documentation_range")].

(** After [netip.MustParsePrefix]. *)
Definition disallowedOutboundPrefixes : list (Prefix * string) :=
  omap (fun '(s, reason) => option_map (fun p => (p, reason)) (ParsePrefix s)) disallowed_table.

Definition blockedOutboundAddrReason (addr : Addr) : option string :=
  first_match (fun '(prefix, reason) => if Contains prefix addr then Some reason else None)
    disallowedOutboundPrefixes.

Definition isLocalhostHostname (host : string) : bool :=
  let host := trim_space (to_lower host) in
  let host := trim_suffix host "." in
  String.eqb host "localhost" || has_suffix ".localhost" host.

(** [if addr.Is4In6() { addr = addr.Unmap() }] *)
Definition unmap_4in6 (addr : Addr) : Addr := if Is4In6 addr then Unmap addr else addr.

Definition validateOutboundHostLiterals (host : string) : res guard_error unit :=
  let trimmed := trim_space host in
  if String.eqb trimmed "" then Err (OutboundTargetError "" "" "url host is empty")
  else if isLocalhostHostname trimmed
  then Err (OutboundTargetError trimmed "" "localhost targets are not allowed")
  else
    match ParseIP trimmed with
    | None => Ok tt
    | Some addr =>
        let addr := unmap_4in6 addr in
        match blockedOutboundAddrReason addr with
        | Some reason => Err (OutboundTargetError trimmed (to_string addr) reason)
        | None => Ok tt
        end
    end.

Definition ValidateOutboundIPLiteral (egressAllowed : bool) (rawIP : string) : res guard_error unit :=
  if egressAllowed then Ok tt
  else
    let trimmed := trim_space rawIP in
    if String.eqb trimmed "" then Err (OutboundTargetError "" "" "remote ip is empty")
    else
      match ParseIP trimmed with
      | None => Err (OutboundTargetError "" trimmed "invalid_ip")
      | Some addr =>
          let addr := unmap_4in6 addr in
          match blockedOutboundAddrReason addr with
          | Some reason => Err (OutboundTargetError "" (to_string addr) reason)
          | None => Ok tt
          end
      end.

(** The loop over resolved addresses: all of them, or the first refusal. *)
Fixpoint check_resolved (host : string) (ips : list Addr) : res guard_error (list Addr) :=
  match ips with
  | [] => Ok []
  | ip :: rest =>
      let ip := unmap_4in6 ip in
      match blockedOutboundAddrReason ip with
      | Some reason => Err (OutboundTargetError host (to_string ip) reason)
      | None => let? allowed := check_resolved host rest in Ok (ip :: allowed)
      end
  end.

(** What the code reads of a parsed [*url.URL]. *)
Record URL := MkURL { Scheme : string; Hostname : string; HasUser : bool }.

Section Guard.
(** The resolver ([LookupNetIP] on network "ip"), the dialer and the URL
    parser ([url.ParseRequestURI]). *)
Context (LookupNetIP : string -> option (list Addr)).
Context {Conn : Type} (dial : string -> option Conn).
Context (ParseRequestURI : string -> option URL).

Definition resolveAllowedOutboundIPs (host : string) : res guard_error (list Addr) :=
  let host := trim_space host in
  if String.eqb host "" then Err (OutboundTargetError "" "" "url host is empty")
  else
    let? _ := validateOutboundHostLiterals host in
    match ParseIP host with
    | Some addr => Ok [unmap_4in6 addr]
    | None =>
        match LookupNetIP host with
        | None => Err (ResolveError host)
        | Some [] => Err (OutboundTargetError host "" "host resolved without addresses")
        | Some ips => check_resolved host ips
        end
    end.

Definition validateOutboundHostWithResolver (host : string) : res guard_error unit :=
  let? _ := resolveAllowedOutboundIPs host in Ok tt.

(** The dial loop: the addresses tried, in order, and the connection. *)
Fixpoint dial_loop (port : string) (ips : list Addr) : list Addr * option Conn :=
  match ips with
  | [] => ([], None)
  | ip :: rest =>
      match dial (JoinHostPort (to_string ip) port) with
      | Some conn => ([ip], Some conn)
      | None => let '(tried, conn) := dial_loop port rest in (ip :: tried, conn)
      end
  end.

(** [DialRestrictedOutboundContext]: the addresses tried and the outcome. *)
Definition DialRestrictedOutboundContext (egressAllowed : bool) (address : string)
    : list Addr * res guard_error Conn :=
  if egressAllowed then
    ([], match dial address with Some c => Ok c | None => Err DialError end)
  else
    match SplitHostPort address with
    | None => ([], Err AddressError)
    | Some (host, port) =>
        match resolveAllowedOutboundIPs host with
        | Err e => ([], Err e)
        | Ok allowedIPs =>
            match dial_loop port allowedIPs with
            | (tried, Some c) => (tried, Ok c)
            | ([], None) => ([], Err (OutboundTargetError host "" "no allowed upstream addresses"))
            | (tried, None) => (tried, Err DialError)
            end
        end
    end.

Definition parseOutboundHTTPURL (raw : string) : res guard_error URL :=
  let trimmed := trim_space raw in
  if String.eqb trimmed "" then Err UrlError
  else
    match ParseRequestURI trimmed with
    | None => Err UrlError
    | Some parsed =>
        if negb (String.eqb (Scheme parsed) "http") && negb (String.eqb (Scheme parsed) "https")
        then Err UrlError
        else if String.eqb (trim_space (Hostname parsed)) "" then Err UrlError
        else if HasUser parsed then Err UrlError
        else Ok parsed
    end.

Definition ValidateOutboundHTTPURLContext (egressAllowed : bool) (raw : string)
    : res guard_error URL :=
  let? parsed := parseOutboundHTTPURL raw in
  if egressAllowed then Ok parsed
  else let? _ := validateOutboundHostWithResolver (Hostname parsed) in Ok parsed.

Definition ValidateOutboundHTTPLiteral (egressAllowed : bool) (raw : string)
    : res guard_error URL :=
  let? parsed := parseOutboundHTTPURL raw in
  if egressAllowed then Ok parsed
  else let? _ := validateOutboundHostLiterals (Hostname parsed) in Ok parsed.

(** ** What passes the guard *)

(** [netip.MustParsePrefix] does not panic on the table. *)
Lemma disallowed_table_parses :
  Forall (fun '(s, _) => exists p, ParsePrefix s = Some p) disallowed_table.
Proof. unfold disallowed_table. forall_list; eexists; vm_compute; reflexivity. Qed.

(** An address outside every disallowed network, in unmapped form. *)
Definition public (a : Addr) : Prop :=
  Is4In6 a = false /\
  forall s reason p, (s, reason) ∈ disallowed_table -> ParsePrefix s = Some p -> Contains p a = false.

Lemma blocked_spec a :
  blockedOutboundAddrReason a = None <->
  forall s reason p, (s, reason) ∈ disallowed_table -> ParsePrefix s = Some p -> Contains p a = false.
Proof.
  unfold blockedOutboundAddrReason, disallowedOutboundPrefixes. generalize disallowed_table as table. intros table.
  rewrite first_match_None, Forall_forall. split.
  - intros Hf s reason p Hin Hp. specialize (Hf (p, reason)). rewrite list_elem_of_omap in Hf.
    assert (exists x, x ∈ table /\ (let '(s, reason) := x in option_map (fun p => (p, reason)) (ParsePrefix s)) = Some (p, reason)) as Hpin.
    { exists (s, reason). split; [done|]. by rewrite Hp. }
    specialize (Hf Hpin). cbn in Hf. by destruct (Contains p a).
  - intros Hf [p reason] Hin. apply list_elem_of_omap in Hin as ([s r] & Hin & Hp).
    destruct (ParsePrefix s) as [p'|] eqn:E; [|done]. injection Hp as <- <-.
    by rewrite (Hf s r p' Hin E).
Qed.

Lemma unmap_not_4in6 a : Is4In6 (unmap_4in6 a) = false.
Proof. unfold unmap_4in6. destruct (Is4In6 a) eqn:E; [apply Unmap_not_4in6|done]. Qed.

Lemma check_resolved_spec host ips l :
  check_resolved host ips = Ok l <-> l = map unmap_4in6 ips /\ Forall public l.
Proof.
  revert l. induction ips as [|ip ips IH]; intros l; cbn [check_resolved map].
  { split; [intros [= <-]; by split|]. by intros [-> _]. }
  destruct (blockedOutboundAddrReason (unmap_4in6 ip)) as [r|] eqn:E.
  - split; [done|]. intros [-> Hl]. apply Forall_cons in Hl as [[_ Hp] _].
    by rewrite (proj2 (blocked_spec _) Hp) in E.
  - assert (Hpub : public (unmap_4in6 ip)).
    { split; [apply unmap_not_4in6|]. by apply blocked_spec. }
    destruct (check_resolved host ips) as [l'|e] eqn:El; cbn [res_bind].
    + destruct (proj1 (IH l') eq_refl) as [-> Hl']. split; [intros [= <-]; split; [done|by constructor]|].
      by intros [-> _].
    + split; [done|]. intros [-> Hl]. apply Forall_cons in Hl as [_ Hl].
      assert (Err e = @Ok guard_error _ (map unmap_4in6 ips)) as Hc by (by apply IH). done.
Qed.

Lemma ParseIP_zone s a : ParseIP s = Some a -> Zone a = "".
Proof.
  unfold ParseIP. destruct (ParseAddr s) as [[v|v [|c z]]|]; [by intros [= <-]|by intros [= <-]|done|done].
Qed.

Lemma resolve_public host l :
  resolveAllowedOutboundIPs host = Ok l -> l <> [] /\ Forall public l.
Proof.
  unfold resolveAllowedOutboundIPs. cbn zeta. destruct (String.eqb _ ""); [done|].
  destruct (validateOutboundHostLiterals (trim_space host)) as [[]|e] eqn:Ev; [|done]. cbn [res_bind].
  destruct (ParseIP (trim_space host)) as [a|] eqn:Ea.
  - intros [= <-]. split; [done|]. constructor; [|constructor].
    split; [apply unmap_not_4in6|]. apply blocked_spec. revert Ev.
    unfold validateOutboundHostLiterals. rewrite trim_space_idem, Ea. cbn zeta.
    destruct (String.eqb _ ""); [done|]. destruct (isLocalhostHostname _); [done|].
    by destruct (blockedOutboundAddrReason _).
  - destruct (LookupNetIP _) as [[|ip ips]|]; [done| |done]. intros Hc.
    apply check_resolved_spec in Hc as [-> Hp]. done.
Qed.

(** What the guard resolves is public: when [resolveAllowedOutboundIPs]
    succeeds it returns at least one address, none is IPv4-mapped and none lies
    in a disallowed network; and as long as the resolver answers without zones
    (as [LookupNetIP] does), this covers every address of those networks. *)
Theorem resolved_addresses_public host l :
  (forall h ips, LookupNetIP h = Some ips -> Forall (fun a => Zone a = "" /\ valid a) ips) ->
  resolveAllowedOutboundIPs host = Ok l ->
  l <> [] /\
  Forall (fun a => Zone a = "" /\ Is4In6 a = false /\
    forall s reason p, (s, reason) ∈ disallowed_table -> ParsePrefix s = Some p ->
      BitLen (paddr p) = BitLen a ->
      ~ (mask (paddr p) (pbits p) <= value_of a
           <= mask (paddr p) (pbits p) + 2 ^ (BitLen (paddr p) - pbits p) - 1)) l.
Proof.
  intros Hzone Hr. destruct (resolve_public host l Hr) as [Hne Hp]. split; [done|].
  assert (Hz : Forall (fun a => Zone a = "" /\ valid a) l).
  { revert Hr. unfold resolveAllowedOutboundIPs. cbn zeta. destruct (String.eqb _ ""); [done|].
    destruct (validateOutboundHostLiterals (trim_space host)) as [[]|e]; [|done]. cbn [res_bind].
    assert (Hu : forall a, Zone a = "" -> valid a -> Zone (unmap_4in6 a) = "" /\ valid (unmap_4in6 a)).
    { intros a Ha Hv. unfold unmap_4in6. destruct (Is4In6 a) eqn:E; [|done].
      split; [|by apply Unmap_valid]. destruct a as [v|v z]; [done|]. unfold Unmap. by rewrite E. }
    destruct (ParseIP (trim_space host)) as [a|] eqn:Ea.
    - intros [= <-]. constructor; [|constructor]. apply Hu; [by eapply ParseIP_zone|].
      unfold ParseIP in Ea. destruct (ParseAddr (trim_space host)) as [[v|v [|c z]]|] eqn:E; [| |done|done];
        apply ParseAddr_valid in E; injection Ea as <-; unfold valid in *; cbn in *; lia.
    - destruct (LookupNetIP _) as [[|ip ips]|] eqn:El; [done| |done]. intros Hc.
      apply check_resolved_spec in Hc as [-> _]. apply Hzone in El. apply Forall_map.
      eapply Forall_impl; [exact El|]. cbn. intros a [Ha Hv]. by apply Hu. }
  rewrite Forall_forall in *. intros a Ha. destruct (Hp a Ha) as [H4 Hc]. destruct (Hz a Ha) as [Hza Hv].
  split; [done|]. split; [done|]. intros s reason p Hin Hpp Hb Hr'.
  specialize (Hc s reason p Hin Hpp). apply ParsePrefix_ok in Hpp.
  by rewrite (proj2 (Contains_interval p a Hpp Hv Hza)) in Hc.
Qed.

Lemma dial_loop_tried port ips tried conn :
  dial_loop port ips = (tried, conn) ->
  exists rest, ips = tried ++ rest /\
    match conn with
    | Some c => exists init ip, tried = init ++ [ip] /\
        dial (JoinHostPort (to_string ip) port) = Some c /\
        Forall (fun a => dial (JoinHostPort (to_string a) port) = None) init
    | None => rest = [] /\ Forall (fun a => dial (JoinHostPort (to_string a) port) = None) tried
    end.
Proof.
  revert tried. induction ips as [|ip ips IH]; intros tried; cbn [dial_loop].
  { intros [= <- <-]. by exists []. }
  destruct (dial _) as [c|] eqn:E.
  { intros [= <- <-]. exists ips. split; [done|]. exists [], ip. by split. }
  destruct (dial_loop port ips) as [t c'] eqn:El. intros [= <- <-].
  destruct (IH _ eq_refl) as (rest & -> & Hc). exists rest. split; [done|].
  destruct c' as [c|].
  - destruct Hc as (init & ip' & -> & Hd & Hf). exists (ip :: init), ip'. repeat split; [done|by constructor].
  - destruct Hc as [-> Hf]. split; [done|by constructor].
Qed.

(** The guarded dialer only ever connects to addresses that passed the
    guard: without the egress override, every address it tries is public, it
    tries them in resolver order, each one at most once, stops at the first
    connection, and a refused host is never dialled. *)
Theorem dial_only_public address tried r :
  DialRestrictedOutboundContext false address = (tried, r) ->
  Forall public tried /\
  (tried <> [] -> exists host port ips rest,
     SplitHostPort address = Some (host, port) /\ resolveAllowedOutboundIPs host = Ok ips /\
     ips = tried ++ rest /\
     match r with
     | Ok c => exists init ip, tried = init ++ [ip] /\
         dial (JoinHostPort (to_string ip) port) = Some c
     | Err _ => rest = []
     end).
Proof.
  unfold DialRestrictedOutboundContext.
  destruct (SplitHostPort address) as [[host port]|] eqn:Es; [|intros [= <- <-]; by split].
  destruct (resolveAllowedOutboundIPs host) as [ips|e] eqn:Er; [|intros [= <- <-]; by split].
  destruct (dial_loop port ips) as [t c] eqn:Ed. apply dial_loop_tried in Ed as (rest & Hips & Hc).
  apply resolve_public in Er as Hp. destruct Hp as [Hne Hp].
  assert (Ht : Forall public t) by (rewrite Hips in Hp; by apply Forall_app in Hp as [? _]).
  destruct c as [c|].
  - assert ((t, Some c) = (t, Some c)) as _ by done. intros Heq.
    assert (tried = t /\ r = Ok c) as [-> ->] by (destruct t; by simplify_eq). split; [done|].
    intros _. exists host, port, ips, rest. repeat (split; [done|]).
    destruct Hc as (init & ip & ? & ? & _). by exists init, ip.
  - destruct Hc as [-> _]. destruct t as [|a t]; [by rewrite app_nil_r in Hips; subst|].
    intros [= <- <-]. split; [done|]. intros _. by exists host, port, ips, [].
Qed.

(** The check on a literal address ([ValidateOutboundIPLiteral]) passes
    exactly for the texts [net.ParseIP] accepts whose address, IPv4-mapped ones
    unmapped, is in no disallowed network. *)
Theorem ValidateOutboundIPLiteral_iff raw :
  ValidateOutboundIPLiteral false raw = Ok tt <->
  exists a, ParseIP (trim_space raw) = Some a /\ public (unmap_4in6 a).
Proof.
  unfold ValidateOutboundIPLiteral. cbn zeta.
  destruct (String.eqb_spec (trim_space raw) "") as [E|E].
  { rewrite E. split; [done|]. intros (a & Ha & _). vm_compute in Ha. discriminate Ha. }
  destruct (ParseIP (trim_space raw)) as [a|]; [|split; [done|]; by intros (a & ? & _)].
  destruct (blockedOutboundAddrReason (unmap_4in6 a)) as [r|] eqn:Eb.
  - split; [done|]. intros (a' & [= <-] & [_ Hp]). apply blocked_spec in Hp. congruence.
  - split; [|done]. intros _. exists a. split; [done|]. split; [apply unmap_not_4in6|].
    by apply blocked_spec.
Qed.
End Guard.

Lemma resolved_addresses_public_witness :
  let lookup := fun _ : string => Some [Addr6 (65535 * 2 ^ 32 + 1572395042) ""] in
  resolveAllowedOutboundIPs lookup "example.com" = Ok [Addr4 1572395042] /\
  resolveAllowedOutboundIPs (fun _ => Some [Addr4 2130706433]) "example.com" =
    Err (OutboundTargetError "example.com" "127.0.0.1" "loopback") /\
  [Addr4 1572395042] <> [].
Proof.
  intros lookup.
  assert (resolveAllowedOutboundIPs lookup "example.com" = Ok [Addr4 1572395042]) as Hr
    by (vm_compute; reflexivity).
  split; [exact Hr|]. split; [vm_compute; reflexivity|].
  apply (resolved_addresses_public lookup "example.com" [Addr4 1572395042]); [|exact Hr].
  intros h ips [= <-]. apply List.Forall_cons; [|apply List.Forall_nil].
  split; [reflexivity|]. unfold valid. split; vm_compute; [discriminate|reflexivity].
Defined.

Lemma dial_only_public_witness :
  let lookup := fun _ : string => Some [Addr4 1572395042; Addr4 1572395043] in
  let dial := fun a : string => if String.eqb a "93.184.216.35:443" then Some tt else None in
  DialRestrictedOutboundContext lookup dial false "example.com:443" =
    ([Addr4 1572395042; Addr4 1572395043], Ok tt) /\
  Forall public [Addr4 1572395042; Addr4 1572395043].
Proof.
  intros lookup dial.
  assert (DialRestrictedOutboundContext lookup dial false "example.com:443" =
    ([Addr4 1572395042; Addr4 1572395043], Ok tt)) as Hd by (vm_compute; reflexivity).
  split; [exact Hd|]. apply (dial_only_public lookup dial _ _ _ Hd).
Defined.
End OutboundGuard.
