(* ===== verification/Timing.v ===== *)
(** * Intervals, their subscribers and thread counts

    [internal/config/time.go]: the conversion of timers to [time.Duration],
    the stored intervals and the one-slot channels that announce changes;
    [internal/config/settings.go]: the thread settings;
    [internal/jobs/checker/thread_handler.go] and
    [internal/jobs/scraper/thread_handler.go]: automatic thread counts.

    The check and scrape intervals announce a change under the lock and replace
    an unread value; the blacklist, geo-refresh and GeoLite intervals share
    another protocol, modelled once: they store the value before taking the
    lock, skip a full channel, and subscribe in two steps. *)

From S2P Require Import Prelude.
From stdpp Require Import relations.
Open Scope Z_scope.

Module Timing.

Record Timer := MkTimer { Days : Z; Hours : Z; Minutes : Z; Seconds : Z }.

(** The fields are [uint32]. *)
Definition timer_ok (t : Timer) : Prop :=
  0 <= Days t < 2 ^ 32 /\ 0 <= Hours t < 2 ^ 32 /\
  0 <= Minutes t < 2 ^ 32 /\ 0 <= Seconds t < 2 ^ 32.

Definition CalculateMillisecondsOfCheckingPeriod (timer : Timer) : Z :=
  wrap_u64 (Days timer * 24 * 60 * 60 * 1000 + Hours timer * 60 * 60 * 1000 +
            Minutes timer * 60 * 1000 + Seconds timer * 1000).

Definition CalculateBetweenTime (timer : Timer) : Z :=
  let intervalMs := CalculateMillisecondsOfCheckingPeriod timer in
  let minInterval := 1000 in
  let intervalMs := if intervalMs <? minInterval then minInterval else intervalMs in
  wrap_i64 (wrap_i64 intervalMs * Millisecond).

Definition zero_timer (t : Timer) : bool :=
  (Days t =? 0) && (Hours t =? 0) && (Minutes t =? 0) && (Seconds t =? 0).

Definition defaultProxyGeoRefreshInterval : Z := 24 * Hour.
Definition defaultGeoLiteUpdateInterval : Z := 24 * Hour.
Definition defaultBlacklistRefreshInterval : Z := 6 * Hour.

Definition calculateBlacklistRefreshInterval (timer : Timer) : Z :=
  if zero_timer timer then defaultBlacklistRefreshInterval else CalculateBetweenTime timer.

Definition calculateProxyGeoRefreshInterval (timer : Timer) : Z :=
  if zero_timer timer then defaultProxyGeoRefreshInterval else CalculateBetweenTime timer.

Definition calculateGeoLiteUpdateInterval (timer : Timer) : Z :=
  if zero_timer timer then defaultGeoLiteUpdateInterval else CalculateBetweenTime timer.

(** ** Check and scrape intervals *)

(** A subscriber: its one-slot channel and the last value it received. *)
Record Listener := MkListener { buf : option Z; seen : option Z }.

Record Cell := MkCell { interval : Z; listeners : list Listener }.

Definition cell_init : Cell := MkCell Second [].

Definition sendLatestInterval (iv : Z) (l : Listener) : Listener := MkListener (Some iv) (seen l).

Definition setTimeBetweenChecks (iv : Z) (c : Cell) : Cell :=
  let iv := if iv <=? 0 then Second else iv in
  if interval c =? iv then c else MkCell iv (map (sendLatestInterval iv) (listeners c)).

Definition setTimeBetweenScrapes (iv : Z) (c : Cell) : Cell :=
  let iv := if iv <=? 0 then Second else iv in
  if interval c =? iv then c else MkCell iv (map (sendLatestInterval iv) (listeners c)).

Definition CheckIntervalUpdates (c : Cell) : Cell :=
  MkCell (interval c) (listeners c ++ [MkListener (Some (interval c)) None]).

Definition ScrapeIntervalUpdates (c : Cell) : Cell :=
  MkCell (interval c) (listeners c ++ [MkListener (Some (interval c)) None]).

Definition take_value (l : Listener) : Listener :=
  match buf l with Some v => MkListener None (Some v) | None => l end.

(** Subscriber [i] receives from its channel. *)
Definition receive (i : nat) (c : Cell) : Cell :=
  MkCell (interval c) (alter take_value i (listeners c)).

Inductive cell_step : Cell -> Cell -> Prop :=
| cell_set_checks iv c : cell_step c (setTimeBetweenChecks iv c)
| cell_subscribe_checks c : cell_step c (CheckIntervalUpdates c)
| cell_set_scrapes iv c : cell_step c (setTimeBetweenScrapes iv c)
| cell_subscribe_scrapes c : cell_step c (ScrapeIntervalUpdates c)
| cell_receive i c : cell_step c (receive i c).

(** What a subscriber knows: the current value waits in its channel, or it is
    the last one it received. *)
Definition informed (c : Cell) (l : Listener) : Prop :=
  buf l = Some (interval c) \/ (buf l = None /\ seen l = Some (interval c)).

(** ** Blacklist, geo-refresh and GeoLite intervals *)

(** [waiting]: the subscriber has registered its channel and not yet sent the
    first value into it, so nobody reads the channel. *)
Record Subscriber := MkSub { sbuf : option Z; sseen : option Z; waiting : bool }.

(** [to_send]: setters that stored their value and have yet to announce it. *)
Record Board := MkBoard { current : Z; subs : list Subscriber; to_send : list Z }.

Definition board_init (v : Z) : Board := MkBoard v [] [].

(** The value a setter stores: [fallback] for a non-positive one. *)
Definition set_value (fallback iv : Z) (b : Board) : Board :=
  let iv := if iv <=? 0 then fallback else iv in
  if current b =? iv then b else MkBoard iv (subs b) (to_send b ++ [iv]).

Definition offer (iv : Z) (s : Subscriber) : Subscriber :=
  match sbuf s with
  | None => MkSub (Some iv) (sseen s) (waiting s)
  | Some _ => s
  end.

(** The first half of [BlacklistIntervalUpdates] and its siblings. *)
Definition register (b : Board) : Board :=
  MkBoard (current b) (subs b ++ [MkSub None None true]) (to_send b).

Inductive board_step (fallback : Z) : Board -> Board -> Prop :=
| board_store iv b : board_step fallback b (set_value fallback iv b)
| board_announce iv q1 q2 cur ss :
    board_step fallback (MkBoard cur ss (q1 ++ iv :: q2)) (MkBoard cur (map (offer iv) ss) (q1 ++ q2))
| board_register b : board_step fallback b (register b)
(** The second half of subscribing: [ch <- Get...()] blocks on a full channel. *)
| board_first_send i seen0 b :
    subs b !! i = Some (MkSub None seen0 true) ->
    board_step fallback b
      (MkBoard (current b) (<[i := MkSub (Some (current b)) seen0 false]> (subs b)) (to_send b))
| board_receive i v seen0 b :
    subs b !! i = Some (MkSub (Some v) seen0 false) ->
    board_step fallback b
      (MkBoard (current b) (<[i := MkSub None (Some v) false]> (subs b)) (to_send b)).

(** ** Thread settings *)

Definition minThreadSettingLimit : Z := 1.
Definition defaultThreadFallback : Z := 250.
Definition maxThreadSettingLimit : Z := 2000.

Definition clampThreadCountWithBounds (value min max : Z) : Z :=
  if value <? min then min else if max <? value then max else value.

Definition clampThreadCountWithCap (value cap : Z) : Z :=
  clampThreadCountWithBounds value minThreadSettingLimit cap.

Definition clampThreadCount (threads : Z) : Z :=
  clampThreadCountWithBounds threads minThreadSettingLimit maxThreadSettingLimit.

Definition normalizeMaxThreads (maxThreads threads fallback cap : Z) : Z :=
  if 0 <? maxThreads then clampThreadCountWithCap maxThreads cap
  else if 0 <? threads then clampThreadCountWithCap threads cap
  else clampThreadCountWithCap fallback cap.

Record ThreadConfig := MkThreads { Threads : Z; MaxThreads : Z; Retries : Z; Timeout : Z }.

(** [normalizeThreadSettings], for the checker or the scraper settings. *)
Definition normalizeThreadSettings (cfg : ThreadConfig) : ThreadConfig :=
  MkThreads (clampThreadCount (Threads cfg))
    (normalizeMaxThreads (MaxThreads cfg) (Threads cfg) defaultThreadFallback maxThreadSettingLimit)
    (Retries cfg) (Timeout cfg).

(** [normalizeThreadSettings], the plugin setting it also bounds. *)
Definition normalizeMaxAgeInDays (v : Z) : Z :=
  let v := if v =? 0 then 30 else v in if 365 <? v then 365 else v.

Definition max_or_default (cfg : ThreadConfig) : Z :=
  if MaxThreads cfg =? 0 then (if 0 <? Threads cfg then Threads cfg else 250) else MaxThreads cfg.

(** [uint32(...)] after the two caps. *)
Definition cap_threads (required maxThreads : Z) : Z :=
  let required := if maxThreads <? required then maxThreads else required in
  let required := if 2 ^ 32 - 1 <? required then 2 ^ 32 - 1 else required in
  wrap_unsigned 32 required.

Definition per_instance (total instances : Z) : Z :=
  wrap_i64 (Z.quot (wrap_i64 (wrap_i64 (total + instances) - 1)) instances).

(** [getAutoThreads]; [None] stands for the error of a queue call. *)
Definition getAutoThreads (totalProxies activeInstances : option Z) (timer : Timer)
    (cfg : ThreadConfig) : Z :=
  match totalProxies with
  | None => 1
  | Some totalProxies =>
      let activeInstances := match activeInstances with Some n => n | None => 1 end in
      let activeInstances := if activeInstances =? 0 then 1 else activeInstances in
      let perInstanceProxies := per_instance totalProxies activeInstances in
      let numerator :=
        wrap_u64 (wrap_u64 (wrap_u64 (wrap_u64 perInstanceProxies * 4) *
                            wrap_unsigned 32 (Retries cfg + 1)) * Timeout cfg) in
      let checkingPeriodMs := CalculateMillisecondsOfCheckingPeriod timer in
      let checkingPeriodMs := if checkingPeriodMs =? 0 then 86400000 else checkingPeriodMs in
      let requiredThreads := wrap_u64 (wrap_u64 (numerator + checkingPeriodMs) - 1) / checkingPeriodMs in
      let requiredThreads :=
        if (requiredThreads =? 0) && (0 <? perInstanceProxies) then 1 else requiredThreads in
      cap_threads requiredThreads (max_or_default cfg)
  end.

Definition autoThreadCount (totalSites instances : option Z) (timer : Timer) (cfg : ThreadConfig) : Z :=
  match totalSites with
  | None => 1
  | Some totalSites =>
      let instances :=
        match instances with Some n => if n =? 0 then 1 else n | None => 1 end in
      let perInstance := per_instance totalSites instances in
      let period := CalculateMillisecondsOfCheckingPeriod timer in
      let period := if period =? 0 then 86400000 else period in
      let numerator :=
        wrap_u64 (wrap_u64 (wrap_u64 perInstance * Timeout cfg) *
                  wrap_unsigned 32 (Retries cfg + 1)) in
      let threads := wrap_u64 (wrap_u64 (numerator + period) - 1) / period in
      let threads := if (threads =? 0) && (0 <? perInstance) then 1 else threads in
      cap_threads threads (max_or_default cfg)
  end.

(** ** Intervals in range *)

Lemma period_exact t : timer_ok t ->
  CalculateMillisecondsOfCheckingPeriod t =
    1000 * (86400 * Days t + 3600 * Hours t + 60 * Minutes t + Seconds t) /\
  0 <= CalculateMillisecondsOfCheckingPeriod t < 2 ^ 64.
Proof.
  intros (Hd & Hh & Hm & Hs). unfold CalculateMillisecondsOfCheckingPeriod.
  rewrite wrap_unsigned_id by lia. lia.
Qed.

(** An interval below 106751 days is exact: the checker period in
    milliseconds never overflows, and [CalculateBetweenTime] is the timer's
    length, at least one second.  From 106752 days on the conversion to
    nanoseconds overflows, and the setter, which takes a non-positive interval
    for one second, can turn such a timer into a check every second. *)
Theorem CalculateBetweenTime_bounds t :
  timer_ok t ->
  let seconds := 86400 * Days t + 3600 * Hours t + 60 * Minutes t + Seconds t in
  CalculateMillisecondsOfCheckingPeriod t = 1000 * seconds /\
  (seconds <= 106751 * 86400 -> CalculateBetweenTime t = Z.max 1 seconds * Second) /\
  (106752 * 86400 <= seconds < 2 * 106751 * 86400 -> CalculateBetweenTime t < 0) /\
  (CalculateBetweenTime t < 0 -> forall c, interval (setTimeBetweenChecks (CalculateBetweenTime t) c) = Second).
Proof.
  intros Ht. destruct (period_exact t Ht) as [He Hb]. cbn zeta.
  set (seconds := 86400 * Days t + 3600 * Hours t + 60 * Minutes t + Seconds t) in *. split; [done|].
  assert (Hms : forall ms, 0 <= ms < 2 ^ 63 -> wrap_i64 (wrap_i64 ms * Millisecond) = wrap_i64 (ms * Millisecond)).
  { intros ms Hms. by rewrite (wrap_i64_id ms) by (unfold in_i64; lia). }
  unfold CalculateBetweenTime. rewrite He. split; [|split].
  - intros Hs. destruct (1000 * seconds <? 1000) eqn:E; breflect.
    + rewrite Hms, wrap_i64_id by (unfold in_i64, Millisecond; lia).
      unfold Second, Millisecond. lia.
    + rewrite Hms, wrap_i64_id by (unfold in_i64, Millisecond; lia). unfold Second, Millisecond. lia.
  - intros Hs. rewrite (proj2 (Z.ltb_ge _ _)) by lia. rewrite Hms by lia.
    unfold wrap_signed, Millisecond.
    replace (1000 * seconds * 1000000 + 2 ^ (64 - 1)) with
      (1000000000 * seconds - 2 ^ 63 + 1 * 2 ^ 64) by lia.
    rewrite Z.mod_add, Z.mod_small by lia. lia.
  - intros Hneg c. unfold setTimeBetweenChecks. rewrite (proj2 (Z.leb_le _ 0)) by lia.
    destruct (interval c =? Second) eqn:E; breflect; done.
Qed.

Lemma CalculateBetweenTime_bounds_witness :
  CalculateBetweenTime (MkTimer 0 0 0 0) = Second /\ CalculateBetweenTime (MkTimer 110000 0 0 0) < 0 /\
  interval (setTimeBetweenChecks (CalculateBetweenTime (MkTimer 110000 0 0 0)) cell_init) = Second.
Proof.
  split; [vm_compute; reflexivity|]. split; [vm_compute; reflexivity|].
  apply (CalculateBetweenTime_bounds (MkTimer 110000 0 0 0)).
  - unfold timer_ok. cbn. lia.
  - vm_compute. reflexivity.
Defined.

(** ** Subscribers of the check and scrape intervals *)

Lemma informed_set iv c : Forall (informed c) (listeners c) ->
  Forall (informed (setTimeBetweenChecks iv c)) (listeners (setTimeBetweenChecks iv c)).
Proof.
  intros Hc. unfold setTimeBetweenChecks. cbn zeta. destruct (interval c =? _); [done|].
  cbn [listeners]. apply Forall_map, Forall_forall. intros l _. by left.
Qed.

Lemma informed_step c c' : cell_step c c' -> Forall (informed c) (listeners c) ->
  Forall (informed c') (listeners c').
Proof.
  intros Hs Hc. destruct Hs as [iv c|c|iv c|c|i c].
  - by apply informed_set.
  - cbn. apply Forall_app. split; [done|]. constructor; [by left|constructor].
  - by apply (informed_set iv).
  - cbn. apply Forall_app. split; [done|]. constructor; [by left|constructor].
  - cbn. apply Forall_alter; [done|]. intros l _ Hl. unfold informed, take_value in *. cbn.
    destruct (buf l) as [v|] eqn:E; cbn; right.
    + destruct Hl as [Hl|[Hl _]]; [|done]. by rewrite Hl.
    + destruct Hl as [Hl|[_ Hl]]; [done|]. by split.
Qed.

(** No update of the check or scrape interval is lost: in every reachable
    state each subscriber has the current interval waiting in its channel, or
    has it as the last value received. *)
Theorem subscribers_informed c :
  rtc cell_step cell_init c -> Forall (informed c) (listeners c).
Proof.
  intros Hr. assert (Hi : Forall (informed cell_init) (listeners cell_init)) by constructor.
  induction Hr as [c|c1 c2 c3 Hs Hr IH]; [done|]. apply IH. by eapply informed_step.
Qed.

Lemma subscribers_informed_witness :
  let c := setTimeBetweenChecks (5 * Second) (setTimeBetweenChecks (3 * Second) (CheckIntervalUpdates cell_init)) in
  listeners c = [MkListener (Some (5 * Second)) None] /\ Forall (informed c) (listeners c).
Proof.
  intros c. split; [reflexivity|]. apply subscribers_informed.
  eapply rtc_l; [apply cell_subscribe_checks|]. eapply rtc_l; [apply (cell_set_checks (3 * Second))|].
  eapply rtc_l; [apply (cell_set_checks (5 * Second))|]. apply rtc_refl.
Defined.

(** ** Subscribers of the other intervals *)

(** Subscriber [i] is blocked on its own full channel. *)
Definition stuck (i : nat) (b : Board) : Prop :=
  exists v seen0, subs b !! i = Some (MkSub (Some v) seen0 true).

Lemma stuck_step fallback i b b' : board_step fallback b b' -> stuck i b -> stuck i b'.
Proof.
  intros Hs (v & s0 & Hi). destruct Hs as [iv b|iv q1 q2 cur ss|b|j s1 b Hj|j w s1 b Hj]; unfold stuck in *; cbn in *.
  - unfold set_value. cbn zeta. destruct (current b =? _); eauto.
  - exists v, s0. rewrite list_lookup_fmap, Hi. done.
  - exists v, s0. by apply lookup_app_l_Some.
  - exists v, s0. rewrite list_lookup_insert_ne; [done|]. intros ->. congruence.
  - exists v, s0. rewrite list_lookup_insert_ne; [done|]. intros ->. congruence.
Qed.

(** The two-step subscription of the blacklist, geo-refresh and GeoLite
    intervals can block for ever: if an interval changes between registering
    the channel and sending the first value, the announcement fills the slot
    and the subscriber blocks on its own send, in every continuation. *)
Theorem two_step_subscribe_deadlocks fallback v iv :
  0 < iv -> v <> iv ->
  exists b, rtc (board_step fallback) (board_init v) b /\ stuck 0 b /\
    forall b', rtc (board_step fallback) b b' -> stuck 0 b'.
Proof.
  intros Hiv Hne. exists (MkBoard iv [MkSub (Some iv) None true] []). split; [|split].
  - eapply rtc_l; [apply board_register|]. eapply rtc_l; [apply (board_store _ iv)|].
    unfold set_value, register. cbn. rewrite (proj2 (Z.leb_gt iv 0)), (proj2 (Z.eqb_neq v iv)) by done.
    eapply rtc_l; [apply (board_announce _ iv [] [])|]. cbn. apply rtc_refl.
  - by exists iv, None.
  - intros b' Hr. assert (Hs : stuck 0 (MkBoard iv [MkSub (Some iv) None true] [])) by by exists iv, None.
    induction Hr as [b|b1 b2 b3 Hstep Hr IH]; [done|]. apply IH. by eapply stuck_step.
Qed.

Lemma two_step_subscribe_deadlocks_witness :
  exists b, rtc (board_step Second) (board_init (6 * Hour)) b /\ stuck 0 b /\
    forall b', rtc (board_step Second) b b' -> stuck 0 b'.
Proof. apply (two_step_subscribe_deadlocks Second (6 * Hour) Hour); [reflexivity|discriminate]. Defined.

(** These intervals can lose an update: a subscriber that has read
    everything its channel holds, with no announcement left, can end with a
    value that is not the current interval, because a full channel is skipped. *)
Theorem skipped_update_lost fallback v iv :
  0 < iv -> v <> iv ->
  exists b, rtc (board_step fallback) (board_init v) b /\
    subs b = [MkSub None (Some v) false] /\ to_send b = [] /\ current b = iv.
Proof.
  intros Hiv Hne. exists (MkBoard iv [MkSub None (Some v) false] []). split; [|done].
  eapply rtc_l; [apply board_register|].
  eapply rtc_l; [apply (board_first_send _ 0 None); done|]. cbn.
  eapply rtc_l; [apply (board_store _ iv)|]. unfold set_value. cbn.
  rewrite (proj2 (Z.leb_gt iv 0)), (proj2 (Z.eqb_neq v iv)) by done.
  eapply rtc_l; [apply (board_announce _ iv [] [])|]. cbn.
  eapply rtc_l; [apply (board_receive _ 0 v None); done|]. cbn. apply rtc_refl.
Qed.

Lemma skipped_update_lost_witness :
  exists b, rtc (board_step Second) (board_init (6 * Hour)) b /\
    subs b = [MkSub None (Some (6 * Hour)) false] /\ to_send b = [] /\ current b = Hour.
Proof. apply (skipped_update_lost Second (6 * Hour) Hour); [reflexivity|discriminate]. Defined.

(** ** Thread counts *)

Lemma cap_threads_spec required maxThreads :
  0 <= required -> 0 <= maxThreads < 2 ^ 32 ->
  cap_threads required maxThreads = Z.min required maxThreads.
Proof.
  intros Hr Hm. unfold cap_threads. cbn zeta.
  destruct (maxThreads <? required) eqn:E; breflect.
  - rewrite (proj2 (Z.ltb_ge (2 ^ 32 - 1) maxThreads)) by lia. rewrite wrap_unsigned_id; lia.
  - rewrite (proj2 (Z.ltb_ge (2 ^ 32 - 1) required)) by lia. rewrite wrap_unsigned_id; lia.
Qed.

Lemma normalized_threads cfg :
  1 <= Threads (normalizeThreadSettings cfg) <= 2000 /\
  1 <= MaxThreads (normalizeThreadSettings cfg) <= 2000.
Proof.
  unfold normalizeThreadSettings, normalizeMaxThreads, clampThreadCount, clampThreadCountWithCap,
    clampThreadCountWithBounds, minThreadSettingLimit, maxThreadSettingLimit, defaultThreadFallback. cbn.
  repeat case_match; breflect; lia.
Qed.

Definition ceil_div (a b : Z) : Z := (a + b - 1) / b.

Lemma ceil_div_ge a b : 0 < b -> a <= ceil_div a b * b.
Proof.
  intros Hb. unfold ceil_div. pose proof (Z.div_mod (a + b - 1) b ltac:(lia)).
  pose proof (Z.mod_pos_bound (a + b - 1) b Hb). lia.
Qed.

Lemma per_instance_spec total instances :
  0 <= total < 2 ^ 62 -> 0 < instances < 2 ^ 62 -> per_instance total instances = ceil_div total instances.
Proof.
  intros Ht Hi. unfold per_instance, ceil_div.
  rewrite (wrap_i64_id (total + instances)), (wrap_i64_id (total + instances - 1)) by (unfold in_i64; lia).
  rewrite Z.quot_div_nonneg by lia. apply wrap_i64_id. unfold in_i64.
  split; [transitivity 0; [lia|apply Z.div_pos; lia]|apply Z.div_lt_upper_bound; nia].
Qed.

(** Automatic thread counts: with the settings in force, the checker gets
    between 0 and 2000 threads; when the cap does not bind, the threads of all
    instances together can check every proxy over four protocols, with all
    retries timing out, within the checking period. *)
Theorem getAutoThreads_enough total instances timer cfg0 :
  let cfg := normalizeThreadSettings cfg0 in
  let period := CalculateMillisecondsOfCheckingPeriod timer in
  let n := getAutoThreads (Some total) (Some instances) timer cfg in
  timer_ok timer -> 0 < period -> 0 <= total < 2 ^ 32 -> 0 < instances < 2 ^ 31 ->
  0 <= Retries cfg0 < 1000 -> 0 <= Timeout cfg0 < 2 ^ 17 ->
  0 <= n <= MaxThreads cfg /\
  (n < MaxThreads cfg ->
   total * 4 * (Retries cfg0 + 1) * Timeout cfg0 <= instances * n * period).
Proof.
  cbn zeta. intros Ht Hp Htot Hi Hre Hto. destruct (normalized_threads cfg0) as [_ Hmax].
  unfold getAutoThreads. cbn zeta.
  rewrite (proj2 (Z.eqb_neq instances 0)) by lia.
  set (period := CalculateMillisecondsOfCheckingPeriod timer) in *.
  rewrite (proj2 (Z.eqb_neq period 0)) by lia.
  rewrite per_instance_spec by lia. set (per := ceil_div total instances).
  assert (Hper : 0 <= per <= total).
  { subst per. unfold ceil_div. split; [apply Z.div_pos; lia|].
    destruct (decide (total = 0)) as [->|]; [rewrite Z.div_small; lia|].
    apply Z.div_le_upper_bound; nia. }
  pose proof (ceil_div_ge total instances ltac:(lia)) as Hcov. fold per in Hcov.
  change (Retries (normalizeThreadSettings cfg0)) with (Retries cfg0).
  change (Timeout (normalizeThreadSettings cfg0)) with (Timeout cfg0).
  assert (H1 : 0 <= per * 4 * (Retries cfg0 + 1) <= 2 ^ 34 * 1000).
  { split; [lia|]. apply Z.mul_le_mono_nonneg; lia. }
  assert (H2 : 0 <= per * 4 * (Retries cfg0 + 1) * Timeout cfg0 < 2 ^ 62).
  { split; [lia|]. apply (Z.le_lt_trans _ (2 ^ 34 * 1000 * 2 ^ 17)); [|done]. apply Z.mul_le_mono_nonneg; lia. }
  assert (H3 : 0 <= period < 2 ^ 62).
  { destruct (period_exact timer Ht) as [He _]. fold period in He. destruct Ht as (?&?&?&?). lia. }
  rewrite (wrap_unsigned_id 32) by lia.
  rewrite (wrap_unsigned_id 64 per) by lia. rewrite (wrap_unsigned_id 64 (per * 4)) by lia.
  rewrite (wrap_unsigned_id 64 (per * 4 * (Retries cfg0 + 1))) by lia.
  rewrite (wrap_unsigned_id 64 (per * 4 * (Retries cfg0 + 1) * Timeout cfg0)) by lia.
  set (num := per * 4 * (Retries cfg0 + 1) * Timeout cfg0) in *.
  rewrite (wrap_unsigned_id 64 (num + period)), (wrap_unsigned_id 64 (num + period - 1)) by lia.
  change ((num + period - 1) / period) with (ceil_div num period).
  pose proof (ceil_div_ge num period Hp) as Hthr.
  assert (Hq0 : 0 <= ceil_div num period) by (apply Z.div_pos; lia).
  set (q := ceil_div num period) in *.
  assert (Hmd : max_or_default (normalizeThreadSettings cfg0) = MaxThreads (normalizeThreadSettings cfg0)).
  { unfold max_or_default. by rewrite (proj2 (Z.eqb_neq _ 0)) by lia. }
  rewrite Hmd. set (q' := if (q =? 0) && (0 <? per) then 1 else q).
  assert (Hq : q <= q' /\ 0 <= q') by (subst q'; destruct ((q =? 0) && (0 <? per)) eqn:E; breflect; lia).
  rewrite cap_threads_spec by lia. split; [lia|]. intros Hlt.
  rewrite Z.min_l in * by lia. subst num.
  assert (total * (4 * (Retries cfg0 + 1) * Timeout cfg0) <= per * instances * (4 * (Retries cfg0 + 1) * Timeout cfg0)) by (apply Z.mul_le_mono_nonneg_r; nia).
  assert (per * 4 * (Retries cfg0 + 1) * Timeout cfg0 <= q' * period) by nia.
  nia.
Qed.

Lemma getAutoThreads_enough_witness :
  let cfg0 := MkThreads 0 500 2 7500 in
  let n := getAutoThreads (Some 100000) (Some 3) (MkTimer 1 0 0 0) (normalizeThreadSettings cfg0) in
  n = 35 /\ 100000 * 4 * 3 * 7500 <= 3 * n * 86400000.
Proof.
  intros cfg0 n. split; [vm_compute; reflexivity|].
  apply (getAutoThreads_enough 100000 3 (MkTimer 1 0 0 0) cfg0);
    try (vm_compute; intuition discriminate); try (vm_compute; reflexivity).
Defined.
End Timing.
