(* ===== verification/Redis.v ===== *)
(** * The Redis commands the queues use

    Redis is not part of the repository.  A server state is a value of a type
    with the operations of the class [Redis]; what the scripts rely on is the
    class [RedisLaws], the documented behaviour of the commands on sorted sets
    and strings.  Scores are integers in a unit that each queue fixes:
    milliseconds for sources, half milliseconds for routes, whose leases end in
    a half.  The conditional forms of [ZADD] are defined from these.  The
    instance at the end keeps the keys in finite maps. *)

From S2P Require Import Prelude.
From stdpp Require Import sorting.
Open Scope Z_scope.

Class Redis (R : Type) := {
  (** [ZRANGE key 0 -1 WITHSCORES] *)
  zrange : R -> string -> list (string * Z);
  (** [ZSCORE key member] *)
  zscore : R -> string -> string -> option Z;
  (** [ZADD key score member] *)
  zadd : string -> Z -> string -> R -> R;
  (** [ZREM key member] *)
  zrem : string -> string -> R -> R;
  (** [GET], [SET] and [DEL] *)
  get : R -> string -> option string;
  set : string -> string -> R -> R;
  del : string -> R -> R
}.

Class RedisLaws (R : Type) `{Redis R} := {
  zrange_zscore r k m s : (m, s) ∈ zrange r k <-> zscore r k m = Some s;
  zrange_nodup r k : NoDup (zrange r k).*1;
  zrange_sorted r k : StronglySorted (fun a b => a.2 <= b.2) (zrange r k);
  zscore_zadd r k s m k' m' :
    zscore (zadd k s m r) k' m' = if decide (k = k' /\ m = m') then Some s else zscore r k' m';
  zscore_zrem r k m k' m' :
    zscore (zrem k m r) k' m' = if decide (k = k' /\ m = m') then None else zscore r k' m';
  zscore_set r k v k' m' : zscore (set k v r) k' m' = zscore r k' m';
  zscore_del r k k' m' : zscore (del k r) k' m' = zscore r k' m';
  get_zadd r k s m k' : get (zadd k s m r) k' = get r k';
  get_zrem r k m k' : get (zrem k m r) k' = get r k';
  get_set r k v k' : get (set k v r) k' = if decide (k = k') then Some v else get r k';
  get_del r k k' : get (del k r) k' = if decide (k = k') then None else get r k'
}.

Section Commands.
Context {R : Type} `{Redis R}.

(** [ZRANGE key 0 0 WITHSCORES] *)
Definition zhead (r : R) (k : string) : option (string * Z) := head (zrange r k).

(** [ZCARD key] *)
Definition zcard (r : R) (k : string) : Z := Z.of_nat (length (zrange r k)).

(** [ZADD key NX], [ZADD key XX] and [ZADD key LT] *)
Definition zadd_nx (k : string) (s : Z) (m : string) (r : R) : R :=
  match zscore r k m with Some _ => r | None => zadd k s m r end.

Definition zadd_xx (k : string) (s : Z) (m : string) (r : R) : R :=
  match zscore r k m with Some _ => zadd k s m r | None => r end.

Definition zadd_lt (k : string) (s : Z) (m : string) (r : R) : R :=
  match zscore r k m with
  | Some s' => if s <? s' then zadd k s m r else r
  | None => zadd k s m r
  end.
End Commands.

Section Laws.
Context {R : Type} `{RedisLaws R}.

Lemma zscore_zadd_nx r k s m k' m' :
  zscore (zadd_nx k s m r) k' m' =
    if decide (k = k' /\ m = m' /\ zscore r k m = None) then Some s else zscore r k' m'.
Proof.
  unfold zadd_nx. destruct (zscore r k m) eqn:E.
  - rewrite decide_False; [done|]. intros (_ & _ & ?). congruence.
  - rewrite zscore_zadd. destruct (decide (k = k' /\ m = m')); [rewrite decide_True|rewrite decide_False]; naive_solver.
Qed.

Lemma zscore_zadd_xx r k s m k' m' :
  zscore (zadd_xx k s m r) k' m' =
    if decide (k = k' /\ m = m' /\ zscore r k m <> None) then Some s else zscore r k' m'.
Proof.
  unfold zadd_xx. destruct (zscore r k m) eqn:E.
  - rewrite zscore_zadd. destruct (decide (k = k' /\ m = m')); [rewrite decide_True|rewrite decide_False]; naive_solver.
  - rewrite decide_False; [done|]. naive_solver.
Qed.

(** After [ZADD LT] the member has the lower of the two scores. *)
Lemma zscore_zadd_lt r k s m k' m' :
  zscore (zadd_lt k s m r) k' m' =
    if decide (k = k' /\ m = m')
    then Some (match zscore r k m with Some s' => Z.min s s' | None => s end)
    else zscore r k' m'.
Proof.
  unfold zadd_lt. destruct (decide (k = k' /\ m = m')) as [[-> ->]|Hne].
  - destruct (zscore r k' m') as [s'|] eqn:E.
    + destruct (s <? s') eqn:El; breflect.
      * rewrite zscore_zadd, decide_True by done. f_equal. lia.
      * rewrite E. f_equal. lia.
    + by rewrite zscore_zadd, decide_True.
  - destruct (zscore r k m) as [s'|]; [destruct (s <? s')|];
      by rewrite ?zscore_zadd, ?decide_False.
Qed.

Lemma get_zadd_lt r k s m k' : get (zadd_lt k s m r) k' = get r k'.
Proof. unfold zadd_lt. destruct (zscore r k m); [destruct (_ <? _)|]; by rewrite ?get_zadd. Qed.

Lemma get_zadd_xx r k s m k' : get (zadd_xx k s m r) k' = get r k'.
Proof. unfold zadd_xx. destruct (zscore r k m); by rewrite ?get_zadd. Qed.

Lemma get_zadd_nx r k s m k' : get (zadd_nx k s m r) k' = get r k'.
Proof. unfold zadd_nx. destruct (zscore r k m); by rewrite ?get_zadd. Qed.

Lemma zhead_Some r k m s : zhead r k = Some (m, s) ->
  zscore r k m = Some s /\ forall m' s', zscore r k m' = Some s' -> s <= s'.
Proof.
  unfold zhead. pose proof (zrange_zscore r k) as Hz. pose proof (zrange_sorted r k) as Hs.
  destruct (zrange r k) as [|[m0 s0] l]; [done|]. cbn. intros [= -> ->]. split.
  - apply Hz. by left.
  - intros m' s' Hm. apply Hz, elem_of_cons in Hm as [[= -> ->]|Hm]; [lia|].
    apply StronglySorted_inv in Hs as [_ Hs]. rewrite Forall_forall in Hs. exact (Hs _ Hm).
Qed.

Lemma zhead_None r k : zhead r k = None <-> forall m, zscore r k m = None.
Proof.
  unfold zhead. pose proof (zrange_zscore r k) as Hz. split.
  - intros Hh m. destruct (zscore r k m) as [s|] eqn:E; [|done]. apply Hz in E.
    destruct (zrange r k); [inversion E|done].
  - intros Hn. destruct (zrange r k) as [|[m s] l]; [done|].
    assert (zscore r k m = Some s) as Hm by (apply Hz; by left). by rewrite Hn in Hm.
Qed.
End Laws.

(** ** Finite maps *)

Record MemRedis := MkRedis { zsets : gmap string (gmap string Z); strings : gmap string string }.

Definition score_le (a b : string * Z) : Prop := a.2 <= b.2.

#[export] Instance score_le_dec : RelDecision score_le.
Proof. intros a b. unfold score_le. apply _. Defined.

#[export] Instance score_le_total : Total score_le.
Proof. intros a b. unfold score_le. lia. Qed.

#[export] Instance score_le_trans : Transitive score_le.
Proof. intros a b c. unfold score_le. lia. Qed.

Definition zset (r : MemRedis) (k : string) : gmap string Z := default ∅ (zsets r !! k).

#[export] Instance mem_redis : Redis MemRedis := {|
  zrange r k := merge_sort score_le (map_to_list (zset r k));
  zscore r k m := zset r k !! m;
  zadd k s m r := MkRedis (<[k := <[m := s]> (zset r k)]> (zsets r)) (strings r);
  zrem k m r := MkRedis (<[k := delete m (zset r k)]> (zsets r)) (strings r);
  get r k := strings r !! k;
  set k v r := MkRedis (zsets r) (<[k := v]> (strings r));
  del k r := MkRedis (zsets r) (delete k (strings r))
|}.

#[export] Instance mem_redis_laws : RedisLaws MemRedis.
Proof.
  split; cbn.
  - intros r k m s. rewrite merge_sort_Permutation. apply elem_of_map_to_list.
  - intros r k. rewrite merge_sort_Permutation. apply NoDup_fst_map_to_list.
  - intros r k. apply (StronglySorted_merge_sort score_le); apply _.
  - intros r k s m k' m'. unfold zset. cbn. destruct (decide (k = k' /\ m = m')) as [[-> ->]|Hne].
    + rewrite lookup_insert_eq. cbn. by rewrite lookup_insert_eq.
    + destruct (decide (k = k')) as [->|]; [|by rewrite lookup_insert_ne].
      rewrite lookup_insert_eq. cbn. rewrite lookup_insert_ne; [done|]. naive_solver.
  - intros r k m k' m'. unfold zset. cbn. destruct (decide (k = k' /\ m = m')) as [[-> ->]|Hne].
    + rewrite lookup_insert_eq. cbn. by rewrite lookup_delete_eq.
    + destruct (decide (k = k')) as [->|]; [|by rewrite lookup_insert_ne].
      rewrite lookup_insert_eq. cbn. rewrite lookup_delete_ne; [done|]. naive_solver.
  - done.
  - done.
  - done.
  - done.
  - intros r k v k'. destruct (decide (k = k')) as [->|]; [by rewrite lookup_insert_eq|by rewrite lookup_insert_ne].
  - intros r k k'. destruct (decide (k = k')) as [->|]; [by rewrite lookup_delete_eq|by rewrite lookup_delete_ne].
Qed.
