(* ===== verification/ProxyQueue.v ===== *)
(** * The proxy queue: payloads, scripts and operations

    [internal/jobs/queue/proxy]: [proxy_queue.go] and its Lua scripts.  Routes
    wait in sorted sets (one per shard, plus the legacy one) scored by due time;
    a second sorted set holds the head score of every shard.  A worker takes a
    route by moving its score to the lease's expiry plus half a millisecond;
    odd scores (in half milliseconds) are leases.  A script is a function from
    a server state to its reply and the state after it; scripts are atomic.

    Parameters: the server ([Redis]), the JSON codec of Go ([json_encode],
    [decode]) and of the scripts ([cjson_encode]), the credential cipher, and
    the fingerprint and IDNA functions of the route model. *)

From S2P Require Import Prelude GoStrings ProxyModel Redis.
From Stdlib Require Import Ascii SpecFloat.
Open Scope Z_scope.

Module ProxyQueue.
Import ProxyModel.

Definition proxyKeyPrefix : string := "proxy:".
Definition queuedProxyVersion : Z := 3.
Definition legacyQueueKey : string := "proxy_queue".
Definition proxyQueueHeadKey : string := "proxy_queue_heads".
Definition queueShardKeyPrefix : string := "proxy_queue:".
Definition defaultQueueShards : Z := 16.
Definition maxQueueShards : Z := 128.
Definition minDequeueSleep : Z := 10 * Millisecond.
Definition idleQueueSleep : Z := 250 * Millisecond.
Definition maxDequeueSleep : Z := 2 * Second.
Definition processingLease : Z := 5 * Minute.
Definition queueRescheduleStateKey : string := "magpie:queue:proxy:interval_ms".

(** Whole milliseconds and leases as scores. *)
Definition due_score (ms : Z) : Z := 2 * ms.
Definition lease_score (ms : Z) : Z := 2 * ms + 1.
Definition is_lease (s : Z) : bool := Z.odd s.
(** [math.floor(score)] *)
Definition floor_ms (s : Z) : Z := s / 2.

(** ** Queue keys *)

Definition buildQueueShardKeys (shards : Z) : list string :=
  map (fun i => queueShardKeyPrefix +:+ itoa (Z.of_nat i)) (seq 0 (Z.to_nat shards)).

Definition buildPopQueueKeys (shardKeys : list string) : list string := legacyQueueKey :: shardKeys.

(** [NewRedisProxyQueue]: the shard keys for a configured shard count. *)
Definition NewRedisProxyQueue (shards : Z) : list string :=
  let shards := if shards <=? 0 then defaultQueueShards else shards in
  let shards := if maxQueueShards <? shards then maxQueueShards else shards in
  buildQueueShardKeys shards.

(** FNV-1a, 32 bits. *)
Definition fnv32a (s : string) : Z :=
  fold_left (fun h c => Z.lxor h (code c) * 16777619 mod 2 ^ 32) (bytes s) 2166136261.

Definition proxyQueueShardIndex (member : string) (shards : Z) : Z :=
  if shards <=? 1 then 0 else fnv32a member mod shards.

Definition queueKeyForMember (shardKeys : list string) (member : string) : string :=
  match shardKeys with
  | [] => legacyQueueKey
  | _ =>
      nth (Z.to_nat (proxyQueueShardIndex member (Z.of_nat (length shardKeys)))) shardKeys legacyQueueKey
  end.

(** [popKeys], from the pop keys built at construction. *)
Definition popKeys (popQueueKeys : list string) : list string :=
  match popQueueKeys with [] => [legacyQueueKey] | _ => popQueueKeys end.

(** ** Payloads *)

Record queuedProxy := MkQueued {
  Version : Z;
  QID : Z;
  QIP : string;
  QPort : Z;
  UsernameEncrypted : string;
  PasswordEncrypted : string;
  QUsername : string;
  QPassword : string;
  QHash : string;
  WorkspaceIDs : list Z;
  UserIDs : list Z;
  Users : list Z
}.

(** Keep the first occurrence of every non-zero identifier. *)
Definition dedup_ids (ids : list Z) : list Z := dedup_go [] (filter (fun i => i <> 0) ids).

Definition collectQueuedWorkspaceIDs (users : list Z) : list Z := dedup_ids users.

Definition hasQueuedWorkspace (workspaces : list Z) : bool := existsb (fun w => negb (w =? 0)) workspaces.

(** The owner list a payload names: current, version 2 or legacy field. *)
Definition owners (p : queuedProxy) : list Z :=
  match WorkspaceIDs p with
  | [] => match UserIDs p with [] => Users p | ids => ids end
  | ids => ids
  end.

Definition with_owners (p : queuedProxy) (ids : list Z) : queuedProxy :=
  MkQueued (Version p) (QID p) (QIP p) (QPort p) (UsernameEncrypted p) (PasswordEncrypted p)
    (QUsername p) (QPassword p) (QHash p) ids [] [].

(** The fields the migration takes from the normalized payload. *)
Definition with_format (p n : queuedProxy) : queuedProxy :=
  MkQueued (Version n) (QID p) (QIP p) (QPort p) (UsernameEncrypted n) (PasswordEncrypted n)
    (QUsername n) (QPassword n) (QHash n) (WorkspaceIDs p) (UserIDs p) (Users p).

Definition present (s : string) : bool := negb (String.eqb s "").

Section Payload.
Context (toASCII : string -> option string).
Context (FingerprintProxyRoute : string -> Z -> string -> string -> option string).
Context (EncryptProxySecret DecryptProxySecret : string -> option string).
(** [PROXY_QUEUE_ENCRYPT_CREDENTIALS] *)
Context (encryptProxyQueueCredentials : bool).
Context (json_encode : queuedProxy -> string).

Definition newQueuedProxy (proxy : Proxy) : option queuedProxy :=
  let ids := collectQueuedWorkspaceIDs (Workspaces proxy) in
  if negb encryptProxyQueueCredentials then
    Some (MkQueued queuedProxyVersion (ID proxy) (GetIp proxy) (Port proxy) "" ""
            (Username proxy) (Password proxy) (Hash proxy) ids [] [])
  else
    match EncryptProxySecret (Username proxy) with
    | None => None
    | Some username =>
        match EncryptProxySecret (Password proxy) with
        | None => None
        | Some password =>
            Some (MkQueued queuedProxyVersion (ID proxy) (GetIp proxy) (Port proxy)
                    username password "" "" (Hash proxy) ids [] [])
        end
    end.

Definition marshalQueuedProxy (proxy : Proxy) : option string :=
  option_map json_encode (newQueuedProxy proxy).

Definition needsRewrite (qp : queuedProxy) : bool :=
  if (Version qp <? queuedProxyVersion) || negb (present (QHash qp)) then true
  else
    let hasEncryptedCredentials := present (UsernameEncrypted qp) || present (PasswordEncrypted qp) in
    let hasPlainCredentials := present (QUsername qp) || present (QPassword qp) in
    if encryptProxyQueueCredentials then hasPlainCredentials else hasEncryptedCredentials.

Definition toDomainProxy (qp : queuedProxy) : option Proxy :=
  let workspaceIDs := match WorkspaceIDs qp with [] => UserIDs qp | ids => ids end in
  let workspaceIDs :=
    match workspaceIDs with
    | [] => filter (fun i => i <> 0) (Users qp)
    | _ => workspaceIDs
    end in
  let workspaces := dedup_ids workspaceIDs in
  match (if present (UsernameEncrypted qp) then DecryptProxySecret (UsernameEncrypted qp)
         else Some (QUsername qp)) with
  | None => None
  | Some username =>
      match (if present (PasswordEncrypted qp) then DecryptProxySecret (PasswordEncrypted qp)
             else Some (QPassword qp)) with
      | None => None
      | Some password =>
          let proxy := MkProxy (QID qp) (QIP qp) None (QPort qp) username password workspaces None "" in
          if (queuedProxyVersion <=? Version qp) && present (QHash qp) then
            Some (with_hash proxy (QHash qp))
          else
            match GenerateHash toASCII FingerprintProxyRoute proxy with
            | Ok proxy => Some proxy
            | Err _ => None
            end
      end
  end.
End Payload.

(** ** Script replies in Go *)

Inductive LuaValue :=
| LInt64 (z : Z) | LInt (z : Z) | LInt32 (z : Z) | LUint64 (z : Z)
| LFloat64 (f : spec_float)
| LString (s : string) | LBytes (s : string)
| LSlice (l : list LuaValue)
| LOther.

(** The integer value of a float, if it has one; an infinity converts to the
    least int64 on amd64. *)
Definition float_int (f : spec_float) : option Z :=
  match f with
  | S754_zero _ => Some 0
  | S754_infinity _ => Some (- 2 ^ 63)
  | S754_nan => None
  | S754_finite s m e =>
      let v := if 0 <=? e then Some (Zpos m * 2 ^ e)
               else if Zpos m mod 2 ^ (- e) =? 0 then Some (Zpos m / 2 ^ (- e)) else None in
      option_map (fun z => let z := if s then - z else z in
                           if (- 2 ^ 63 <=? z) && (z <? 2 ^ 63) then z else - 2 ^ 63) v
  end.

Definition coerceLuaString (v : LuaValue) : option string :=
  match v with LString s | LBytes s => Some s | _ => None end.

Definition coerceLuaInt64 (v : LuaValue) : option Z :=
  match v with
  | LInt64 z | LInt z | LInt32 z => Some z
  | LUint64 z => if 2 ^ 63 - 1 <? z then None else Some z
  | LFloat64 f => float_int f
  | LString s | LBytes s => parse_int s
  | LSlice _ | LOther => None
  end.

Record proxyPopResult := MkPop {
  Found : bool;
  Member : string;
  ProxyJSON : string;
  ScoreMs : Z;
  NextReadyMs : Z;
  PopQueueKey : string
}.

Definition parseProxyPopResult (result : LuaValue) : option proxyPopResult :=
  match result with
  | LSlice [found; member; payload; score; queue] =>
      match coerceLuaInt64 found with
      | None => None
      | Some foundFlag =>
          if foundFlag =? 0 then
            option_map (fun next => MkPop false "" "" 0 next "") (coerceLuaInt64 score)
          else
            match coerceLuaString payload, coerceLuaString member, coerceLuaString queue,
                  coerceLuaInt64 score with
            | Some proxyJSON, Some member, Some queueKey, Some score =>
                Some (MkPop true member proxyJSON score (-1) queueKey)
            | _, _, _, _ => None
            end
      end
  | _ => None
  end.

Definition dequeueWaitDuration (nextReadyMs currentMs : Z) : Z :=
  if nextReadyMs <=? 0 then idleQueueSleep
  else
    let waitMs := wrap_i64 (nextReadyMs - currentMs) in
    if waitMs <=? 0 then minDequeueSleep
    else
      let wait := wrap_i64 (waitMs * Millisecond) in
      if wait <? minDequeueSleep then minDequeueSleep
      else if maxDequeueSleep <? wait then maxDequeueSleep
      else wait.

Definition parseIntervalStateMillis (raw : string) (fallback : Z) : Z :=
  let raw := trim_space raw in
  if String.eqb raw "" then fallback
  else
    match parse_int raw with
    | Some ms => if ms <=? 0 then fallback else wrap_i64 (ms * Millisecond)
    | None => fallback
    end.

(** ** The scripts *)

Section Scripts.
Context {R : Type} `{Redis R}.
Context (decode : string -> option queuedProxy).
Context (cjson_encode : queuedProxy -> string).
(** [encryptProxyQueueCredentials()], the last argument of the migration. *)
Context (encrypted : bool).

(** [refresh_head]: index the first score of a queue, or drop the queue. *)
Definition refresh_head (queue : string) (r : R) : R :=
  match zhead r queue with
  | None => zrem proxyQueueHeadKey queue r
  | Some (_, s) => zadd proxyQueueHeadKey s queue r
  end.

(** [pop.lua]: the reply and the state; [fuel] is its bound of eight rounds. *)
Fixpoint pop_loop (fuel : nat) (current_time lease_milliseconds : Z) (r : R) : LuaValue * R :=
  let none ms := LSlice [LInt64 0; LString ""; LString ""; LInt64 ms; LInt64 (-1)] in
  match fuel with
  | O => (none (-1), r)
  | S fuel' =>
      match zhead r proxyQueueHeadKey with
      | None => (none (-1), r)
      | Some (queue_key, indexed_score) =>
          match zhead r queue_key with
          | None => pop_loop fuel' current_time lease_milliseconds (zrem proxyQueueHeadKey queue_key r)
          | Some (member, score) =>
              if negb (score =? indexed_score) then
                pop_loop fuel' current_time lease_milliseconds (zadd proxyQueueHeadKey score queue_key r)
              else if due_score current_time <? score then (none (floor_ms score), r)
              else
                match get r (proxyKeyPrefix +:+ member) with
                | None =>
                    pop_loop fuel' current_time lease_milliseconds
                      (refresh_head queue_key (zrem queue_key member r))
                | Some proxy_data =>
                    let r := zadd queue_key (lease_score (current_time + lease_milliseconds)) member r in
                    (LSlice [LInt64 1; LString member; LString proxy_data;
                             LInt64 (floor_ms score); LString queue_key],
                     refresh_head queue_key r)
                end
          end
      end
  end.

Definition pop_script (current_time lease_milliseconds : Z) (r : R) : LuaValue * R :=
  pop_loop 8 current_time lease_milliseconds r.

(** The first of [keys] in which [member] is leased, with its score. *)
Definition find_lease (keys : list string) (member : string) (r : R) : option (string * Z) :=
  first_match (fun k => match zscore r k member with
                        | Some s => if is_lease s then Some (k, s) else None
                        | None => None
                        end) keys.

(** Remove [member] from every key but [queue]. *)
Definition zrem_others (keys : list string) (queue member : string) (r : R) : R :=
  fold_left (fun r k => if String.eqb k queue then r else zrem k member r) keys r.

(** [add.lua]; [keys] are the arguments from the target queue on. *)
Definition add_script (payload_key target : string) (keys : list string) (member : string)
    (due : Z) (payload : string) (r : R) : R :=
  let owned := find_lease keys member r in
  let r := set payload_key payload r in
  let queue := match owned with Some (q, _) => q | None => target end in
  let r := zadd_nx queue (due_score due) member r in
  let r := zrem_others keys queue member r in
  zadd_lt proxyQueueHeadKey (match owned with Some (_, s) => s | None => due_score due end) queue r.

(** The ownership of [live] after a worker that read [before] stores [after]:
    its removals and additions, applied to the current owners.  The order of
    the additions is open in Lua. *)
Definition merge_owners (live before after : list Z) : list Z :=
  let kept := dedup_go [] (filter (fun id => id ∉ before \/ id ∈ after) live) in
  kept ++ dedup_go [] (filter (fun id => id ∉ before /\ id ∉ kept) after).

(** [complete.lua]: 1 when completed, 0 when the lease is lost; [None] is a
    script error. *)
Definition complete_script (queue legacy payload_key old_queue member : string)
    (expected next_score : Z) (payload snapshot : string) (r : R) : option Z * R :=
  if (0 <? expected) && negb (bool_decide (zscore r old_queue member = Some (lease_score expected)))
  then (Some 0, r)
  else
    let store :=
      if String.eqb payload "" then Some r
      else
        let plain := Some (set payload_key payload r) in
        match get r payload_key with
        | None => plain
        | Some current =>
            if negb (String.eqb snapshot "") && negb (String.eqb current snapshot) then
              match decode current, decode snapshot, decode payload with
              | Some live, Some before, Some after =>
                  let merged := merge_owners (owners live) (owners before) (owners after) in
                  Some (set payload_key (cjson_encode (with_owners live merged)) r)
              | _, _, _ => None
              end
            else plain
        end in
    match store with
    | None => (None, r)
    | Some r =>
        let r := if String.eqb old_queue queue then r else zrem old_queue member r in
        let r := if negb (String.eqb legacy queue) && negb (String.eqb legacy old_queue)
                 then zrem legacy member r else r in
        let r := zadd queue (due_score next_score) member r in
        (Some 1, zadd_lt proxyQueueHeadKey (due_score next_score) queue r)
    end.

(** [renew.lua] *)
Definition renew_script (queue member : string) (expected now renewed : Z) (r : R) : Z * R :=
  if bool_decide (zscore r queue member = Some (lease_score expected)) && negb (expected <=? now)
  then (renewed, zadd_xx queue (lease_score renewed) member r)
  else (0, r).

(** [remove.lua] *)
Definition remove_script (payload_key queue legacy member : string) (expected : Z)
    (snapshot : string) (r : R) : Z * R :=
  if (0 <? expected) &&
     (negb (bool_decide (zscore r queue member = Some (lease_score expected))) ||
      negb (bool_decide (get r payload_key = Some snapshot)))
  then (0, r)
  else
    let r := del payload_key r in
    let r := zrem queue member r in
    (1, if String.eqb legacy queue then r else zrem legacy member r).

(** [requeue_all.lua]: members with their due times in milliseconds. *)
Fixpoint requeue_members (queue : string) (l : list (string * Z)) (r : R) : Z * R :=
  match l with
  | [] => (0, r)
  | (member, due) :: rest =>
      match zscore r queue member with
      | Some s =>
          if is_lease s then requeue_members queue rest r
          else
            let '(n, r) := requeue_members queue rest (zadd_xx queue (due_score due) member r) in
            (n + 1, r)
      | None => requeue_members queue rest r
      end
  end.

Definition requeue_all_script (queue : string) (l : list (string * Z)) (r : R) : Z * R :=
  let '(n, r) := requeue_members queue l r in (n, refresh_head queue r).

(** [migrate.lua], from the fence on. *)
Definition add_owners (live extra : list Z) : list Z * bool :=
  let base := dedup_ids live in
  let fresh := dedup_go [] (filter (fun i => i <> 0 /\ i ∉ base) extra) in
  (base ++ fresh, negb (length fresh =? 0)%nat).

Definition format_changed (live : queuedProxy) : bool :=
  (Version live <? 3) || negb (present (QHash live)) ||
  (if encrypted then present (QUsername live) || present (QPassword live)
   else present (UsernameEncrypted live) || present (PasswordEncrypted live)).

(** The payload the canonical member gets; [None] is a script error. *)
Definition migrate_payload (current : option string) (payload : string) : option string :=
  match decode payload with
  | None => None
  | Some normalized =>
      match current with
      | None => Some payload
      | Some cur =>
          match decode cur with
          | None => None
          | Some live =>
              if (3 <=? Version live) && present (QHash live) &&
                 negb (String.eqb (QHash live) (QHash normalized))
              then None
              else
                let fmt := format_changed live in
                let '(merged, ownership_changed) := add_owners (owners live) (owners normalized) in
                if fmt || ownership_changed then
                  Some (cjson_encode
                    (with_owners (if fmt then with_format live normalized else live) merged))
                else Some cur
          end
      end
  end.

(** [ZREM] of both members over the queues, with the queues it changed. *)
Fixpoint migrate_queues (queues : list string) (queue old_member member : string) (r : R)
    : list string * R :=
  match queues with
  | [] => ([], r)
  | key :: rest =>
      let d1 := match zscore r key old_member with Some _ => true | None => false end in
      let r := zrem key old_member r in
      let d2 := negb (String.eqb key queue) &&
                match zscore r key member with Some _ => true | None => false end in
      let r := if String.eqb key queue then r else zrem key member r in
      let '(dirty, r) := migrate_queues rest queue old_member member r in
      (if d1 || d2 then key :: dirty else dirty, r)
  end.

Definition refresh_heads (keys : list string) (r : R) : R := fold_left (fun r k => refresh_head k r) keys r.

(** Reply of the migration: claimed, with payload and queue, or not. *)
Inductive migrate_reply := Claimed (payload queue : string) | NotClaimed | ScriptError.

Definition migrate_script (old_payload_key payload_key old_queue target : string)
    (popkeys : list string) (old_member member : string) (expected now : Z)
    (payload source : string) (r : R) : migrate_reply * R :=
  let fence :=
    bool_decide (zscore r old_queue old_member = Some (lease_score expected)) &&
    negb (expected <=? now) in
  if negb fence then (NotClaimed, r)
  else if negb (bool_decide (get r old_payload_key = Some source)) then
    let r := match get r old_payload_key with
             | Some _ => zadd_xx old_queue (due_score now) old_member r
             | None => zrem old_queue old_member r
             end in
    (NotClaimed, refresh_head old_queue r)
  else if String.eqb old_member member then
    (Claimed payload old_queue, set payload_key payload r)
  else
    let queues := dedup_go [] (old_queue :: target :: popkeys) in
    let owned_queue :=
      first_match (fun q => match zscore r q member with
                            | Some s => if is_lease s && (due_score now <? s) then Some q else None
                            | None => None
                            end) queues in
    match migrate_payload (get r payload_key) payload with
    | None => (ScriptError, r)
    | Some new_payload =>
        let r := if bool_decide (get r payload_key = Some new_payload) then r
                 else set payload_key new_payload r in
        let r := del old_payload_key r in
        let queue := match owned_queue with Some q => q | None => target end in
        let '(dirty, r) := migrate_queues queues queue old_member member r in
        let '(dirty, r) :=
          match owned_queue with
          | Some _ => (dirty, r)
          | None => (dirty ++ [queue], zadd queue (lease_score expected) member r)
          end in
        let r := refresh_heads dirty r in
        match owned_queue with
        | Some _ => (NotClaimed, r)
        | None => (Claimed new_payload queue, r)
        end
    end.
End Scripts.

(** ** The operations of [RedisProxyQueue] *)

Section Operations.
Context {R : Type} `{Redis R}.
Context (toASCII : string -> option string).
Context (FingerprintProxyRoute : string -> Z -> string -> string -> option string).
Context (EncryptProxySecret DecryptProxySecret : string -> option string).
Context (encrypted : bool).
Context (json_encode cjson_encode : queuedProxy -> string).
Context (decode : string -> option queuedProxy).
(** [queueShardKeys] of the queue. *)
Context (shardKeys : list string).

Definition marshal : Proxy -> option string :=
  marshalQueuedProxy EncryptProxySecret encrypted json_encode.
Definition to_domain : queuedProxy -> option Proxy :=
  toDomainProxy toASCII FingerprintProxyRoute DecryptProxySecret.
Definition pop_keys : list string := popKeys (buildPopQueueKeys shardKeys).
Definition key_for : string -> string := queueKeyForMember shardKeys.

(** [refreshQueueHeads] ([queue.RefreshHeads] over the pop keys) *)
Definition refreshQueueHeads (r : R) : R := refresh_heads pop_keys r.

(** [getEffectiveCheckInterval]; [fallback] is the configured interval. *)
Definition getEffectiveCheckInterval (fallback : Z) (r : R) : Z :=
  match get r queueRescheduleStateKey with
  | None => fallback
  | Some raw => parseIntervalStateMillis raw fallback
  end.

(** [time.Time.UnixMilli] of an instant in nanoseconds. *)
Definition UnixMilli (ns : Z) : Z := ns / Millisecond.

(** [(interval * time.Duration(i)) / n] *)
Definition spread_offset (interval i n : Z) : Z :=
  wrap_i64 (Z.quot (wrap_i64 (interval * i)) n).

(** One script of the [AddToQueue] pipeline. *)
Definition add_command (interval now : Z) (n i : Z) (proxy : Proxy) (payload : string) (r : R) : R :=
  let nextCheck := now + spread_offset interval i n in
  let hashKey := Hash proxy in
  let queueKey := key_for hashKey in
  add_script (proxyKeyPrefix +:+ hashKey) queueKey (queueKey :: pop_keys) hashKey
    (UnixMilli nextCheck) payload r.

(** The loop over the routes to queue.  Commands wait in [pipe] until a batch
    is executed; a route that cannot be encoded ends the loop with an error and
    drops what waits. *)
Fixpoint add_loop (interval now n : Z) (i : Z) (l : list Proxy) (pipe : list (R -> R)) (r : R)
    : bool * R :=
  match l with
  | [] => (true, fold_left (fun r c => c r) pipe r)
  | proxy :: rest =>
      match marshal proxy with
      | None => (false, r)
      | Some payload =>
          let pipe := pipe ++ [add_command interval now n i proxy payload] in
          if (i mod 500 =? 0) && (0 <? i)
          then add_loop interval now n (i + 1) rest [] (fold_left (fun r c => c r) pipe r)
          else add_loop interval now n (i + 1) rest pipe r
      end
  end.

(** [AddToQueue]: whether it succeeds, and the state. *)
Definition AddToQueue (interval now : Z) (proxies : list Proxy) (r : R) : bool * R :=
  let queueable := filter (fun p => hasQueuedWorkspace (Workspaces p) = true) proxies in
  match queueable with
  | [] => (true, r)
  | _ => add_loop interval now (Z.of_nat (length queueable)) 0 queueable [] r
  end.

Inductive queue_error := ErrProxyLeaseLost | QueueError.

(** Administrative removals wait in a pipeline; a lost lease ends the loop and
    drops them. *)
Fixpoint remove_loop (l : list Proxy) (opCount : Z) (pipe : list (R -> R)) (r : R)
    : option queue_error * R :=
  match l with
  | [] => (None, fold_left (fun r c => c r) pipe r)
  | proxy :: rest =>
      if String.eqb (Hash proxy) "" then remove_loop rest opCount pipe r
      else
        let hashKey := Hash proxy in
        let proxyKey := proxyKeyPrefix +:+ hashKey in
        let queueKey := key_for hashKey in
        match QueueLease proxy with
        | Some lease =>
            let '(removed, r) :=
              remove_script proxyKey (QueueKey lease) legacyQueueKey hashKey (ScoreMS lease)
                (Payload lease) r in
            if removed =? 0 then (Some ErrProxyLeaseLost, r) else remove_loop rest opCount pipe r
        | None =>
            let commands :=
              [del proxyKey; zrem queueKey hashKey] ++
              (if String.eqb queueKey legacyQueueKey then [] else [zrem legacyQueueKey hashKey]) in
            let opCount := opCount + Z.of_nat (length commands) in
            let pipe := pipe ++ commands in
            if 500 <=? opCount
            then remove_loop rest 0 [] (fold_left (fun r c => c r) pipe r)
            else remove_loop rest opCount pipe r
        end
  end.

Definition RemoveFromQueue (proxies : list Proxy) (r : R) : option queue_error * R :=
  remove_loop proxies 0 [] r.

(** ** Taking a route *)

(** [migrateDequeuedProxyMember]: the claimed pop result and route, [Ok None]
    when the candidate is not claimed. *)
Definition migrateDequeuedProxyMember (popResult : proxyPopResult) (proxy : Proxy)
    (leaseScoreMs now_ms : Z) (rewritePayload : bool) (r : R)
    : res queue_error (option (proxyPopResult * Proxy)) * R :=
  let oldMember := Member popResult in
  let newMember := Hash proxy in
  if String.eqb oldMember "" || String.eqb newMember "" then (Err QueueError, r)
  else if String.eqb oldMember newMember && negb rewritePayload then (Ok (Some (popResult, proxy)), r)
  else
    match marshal proxy with
    | None => (Err QueueError, r)
    | Some payload =>
        match migrate_script decode cjson_encode encrypted (proxyKeyPrefix +:+ oldMember) (proxyKeyPrefix +:+ newMember)
                (PopQueueKey popResult) (key_for newMember) pop_keys oldMember newMember
                leaseScoreMs now_ms payload (ProxyJSON popResult) r with
        | (ScriptError, r) => (Err QueueError, r)
        | (NotClaimed, r) => (Ok None, r)
        | (Claimed current queueKey, r) =>
            let popResult' :=
              MkPop (Found popResult) newMember current (ScoreMs popResult) (NextReadyMs popResult)
                queueKey in
            if String.eqb current payload then (Ok (Some (popResult', proxy)), r)
            else
              match decode current with
              | None => (Err QueueError, r)
              | Some merged =>
                  match to_domain merged with
                  | None => (Err QueueError, r)
                  | Some decoded =>
                      if String.eqb (Hash decoded) newMember
                      then (Ok (Some (popResult', decoded)), r)
                      else (Err QueueError, r)
                  end
              end
        end
    end.

Inductive dequeue_outcome :=
| Wait (duration : Z)
| Retry
| Dequeued (proxy : Proxy) (scheduledMs : Z)
| Failed.

Definition with_lease (p : Proxy) (lease : ProxyQueueLease) : Proxy :=
  MkProxy (ID p) (IP p) (IPAddress p) (Port p) (Username p) (Password p) (Workspaces p)
    (Some lease) (Hash p).

(** One round of [GetNextProxyContext], started at [now] and migrating at
    [now2] (milliseconds). *)
Definition GetNextProxyContext (now now2 : Z) (r : R) : dequeue_outcome * R :=
  let lease_ms := processingLease / Millisecond in
  let '(reply, r) := pop_script now lease_ms r in
  match parseProxyPopResult reply with
  | None => (Failed, r)
  | Some popResult =>
      if negb (Found popResult) then (Wait (dequeueWaitDuration (NextReadyMs popResult) now), r)
      else
        match decode (ProxyJSON popResult) with
        | None => (Failed, r)
        | Some payload =>
            match to_domain payload with
            | None => (Failed, r)
            | Some proxy =>
                if (queuedProxyVersion <=? Version payload) && present (QHash payload) &&
                   negb (String.eqb (Member popResult) (QHash payload))
                then (Failed, r)
                else
                  let leaseScoreMs := now + lease_ms in
                  match migrateDequeuedProxyMember popResult proxy leaseScoreMs now2
                          (needsRewrite encrypted payload) r with
                  | (Err _, r) => (Failed, r)
                  | (Ok None, r) => (Retry, r)
                  | (Ok (Some (popResult, proxy)), r) =>
                      (Dequeued
                         (with_lease proxy
                            (MkLease leaseScoreMs (PopQueueKey popResult) (ProxyJSON popResult)))
                         (ScoreMs popResult), r)
                  end
            end
        end
  end.

(** ** Giving a route back *)

Definition requeueProxy (configured : Z) (proxy : Proxy) (lastCheckTime now : Z)
    (persistPayload : bool) (r : R) : option queue_error * R :=
  let interval := getEffectiveCheckInterval configured r in
  let base := if lastCheckTime <? now then now else lastCheckTime in
  let nextCheck := base + interval in
  let hashKey := Hash proxy in
  let queueKey := key_for hashKey in
  let '(expected, oldQueue, snapshot) :=
    match QueueLease proxy with
    | Some lease => (ScoreMS lease, QueueKey lease, if persistPayload then Payload lease else "")
    | None => (0, queueKey, "")
    end in
  match (if persistPayload then marshal proxy else Some "") with
  | None => (Some QueueError, r)
  | Some payload =>
      match complete_script decode cjson_encode queueKey legacyQueueKey (proxyKeyPrefix +:+ hashKey)
              oldQueue hashKey expected (UnixMilli nextCheck) payload snapshot r with
      | (None, r) => (Some QueueError, r)
      | (Some completed, r) =>
          if completed =? 0 then (Some ErrProxyLeaseLost, r) else (None, r)
      end
  end.

Definition RequeueProxy (configured : Z) (proxy : Proxy) (lastCheckTime now : Z) (r : R) :=
  requeueProxy configured proxy lastCheckTime now false r.

Definition RequeueProxyWithPayload (configured : Z) (proxy : Proxy) (lastCheckTime now : Z) (r : R) :=
  requeueProxy configured proxy lastCheckTime now true r.

(** [RenewLeaseIfNeeded]: the route with its lease score updated. *)
Definition RenewLeaseIfNeeded (proxy : Proxy) (now : Z) (r : R) : res queue_error Proxy * R :=
  match QueueLease proxy with
  | None => (Ok proxy, r)
  | Some lease =>
      if 2 * Minute / Millisecond <? ScoreMS lease - now then (Ok proxy, r)
      else
        let '(renewed, r) :=
          renew_script (QueueKey lease) (Hash proxy) (ScoreMS lease) now
            (now + processingLease / Millisecond) r in
        if renewed =? 0 then (Err ErrProxyLeaseLost, r)
        else (Ok (with_lease proxy (MkLease renewed (QueueKey lease) (Payload lease))), r)
  end.

(** ** Bulk operations *)

Definition GetProxyCount (r : R) : Z :=
  wrap_i64 (fold_left (fun total k => total + zcard r k) pop_keys 0).

(** The due times [RequeueAll] gives the members of one queue, from position
    [start] on. *)
Fixpoint requeue_args (interval now count : Z) (position : Z) (members : list string)
    : list (string * Z) :=
  match members with
  | [] => []
  | m :: rest =>
      (m, UnixMilli (now + spread_offset interval position count))
        :: requeue_args interval now count (position + 1) rest
  end.

Fixpoint requeue_batches (fuel : nat) (key : string) (args : list (string * Z)) (r : R) : Z * R :=
  match fuel with
  | O => (0, r)
  | S fuel' =>
      match args with
      | [] => (0, r)
      | _ =>
          let '(updated, r) := requeue_all_script key (take 500 args) r in
          let '(total, r) := requeue_batches fuel' key (drop 500 args) r in
          (updated + total, r)
      end
  end.

Fixpoint requeue_keys (interval now : Z) (keys : list string) (r : R) : Z * R :=
  match keys with
  | [] => (0, r)
  | key :: rest =>
      let members := (zrange r key).*1 in
      let args := requeue_args interval now (zcard r key) 0 members in
      let '(n, r) := requeue_batches (S (length args)) key args r in
      let '(total, r) := requeue_keys interval now rest r in
      (n + total, r)
  end.

Definition RequeueAll (configured now : Z) (r : R) : Z * R :=
  let interval := getEffectiveCheckInterval configured r in
  let interval := if interval <=? 0 then Second else interval in
  let '(total, r) := requeue_keys interval now pop_keys r in
  (total, refreshQueueHeads r).

Definition Reschedule (interval : Z) (r : R) : R :=
  let interval := if interval <=? 0 then Second else interval in
  refreshQueueHeads (set queueRescheduleStateKey (itoa (Z.quot interval Millisecond)) r).
End Operations.
End ProxyQueue.
