(* ===== verification/ProxyQueueFacts.v ===== *)
(** * The proxy queue: shards, waits, payloads and ownership

    Facts about the parts of [ProxyQueue] that do not touch the server: the
    layout of the shards, the time a worker waits for the next route, payloads
    that survive the queue, and the merge of concurrent ownership changes.  The
    scripts are the subject of [ProxyLease]. *)

From S2P Require Import Prelude GoStrings ProxyModel Redis ProxyQueue.
From stdpp Require Import relations.
From Stdlib Require Import Ascii.
Open Scope Z_scope.

Module ProxyQueueFacts.
Import ProxyModel ProxyQueue.

Lemma is_lease_lease L : is_lease (lease_score L) = true.
Proof. unfold is_lease, lease_score. by rewrite Z.odd_add_mul_2 with (m := L) || (replace (2 * L + 1) with (1 + 2 * L) by lia; rewrite Z.odd_add_mul_2). Qed.

Lemma is_lease_due d : is_lease (due_score d) = false.
Proof. unfold is_lease, due_score. by rewrite Z.odd_mul. Qed.

Lemma floor_due d : floor_ms (due_score d) = d.
Proof. unfold floor_ms, due_score. rewrite Z.mul_comm. by apply Z.div_mul. Qed.

Lemma floor_lease L : floor_ms (lease_score L) = L.
Proof. unfold floor_ms, lease_score. Z.to_euclidean_division_equations. lia. Qed.

(** ** Keys *)

Lemma queueShardKey_inj i j : 0 <= i < 2 ^ 63 -> 0 <= j < 2 ^ 63 ->
  queueShardKeyPrefix +:+ itoa i = queueShardKeyPrefix +:+ itoa j -> i = j.
Proof.
  intros Hi Hj He. assert (itoa i = itoa j) as Hit.
  { unfold queueShardKeyPrefix in He. rewrite !str_app_cons, !str_app_nil_l in He. by simplify_eq. }
  assert (Some i = Some j) as Hs; [|by simplify_eq].
  rewrite <- (parse_int_itoa i), <- (parse_int_itoa j) by (unfold in_i64; lia). by rewrite Hit.
Qed.

Lemma elem_of_shard_keys k n : k ∈ buildQueueShardKeys n ->
  exists i, (i < Z.to_nat n)%nat /\ k = queueShardKeyPrefix +:+ itoa (Z.of_nat i).
Proof.
  unfold buildQueueShardKeys. intros Hk. apply list_elem_of_fmap in Hk as (i & -> & Hi).
  apply elem_of_seq in Hi. exists i. split; [lia|done].
Qed.

Lemma shard_layout_aux configured member :
  let keys := NewRedisProxyQueue configured in
  (1 <= length keys <= 128)%nat /\ NoDup (buildPopQueueKeys keys) /\
  proxyQueueHeadKey ∉ buildPopQueueKeys keys /\
  queueKeyForMember keys member ∈ keys.
Proof.
  cbn zeta. set (keys := NewRedisProxyQueue configured).
  assert (Hn : exists n, 1 <= n <= 128 /\ keys = buildQueueShardKeys n).
  { subst keys. unfold NewRedisProxyQueue, defaultQueueShards, maxQueueShards. cbn zeta.
    destruct (configured <=? 0) eqn:E; breflect; [by exists 16|].
    destruct (128 <? configured) eqn:E2; breflect; [by exists 128|]. exists configured. split; [lia|done]. }
  destruct Hn as (n & Hn & ->).
  assert (Hlen : length (buildQueueShardKeys n) = Z.to_nat n)
    by (unfold buildQueueShardKeys; by rewrite length_map, length_seq).
  split; [lia|]. split; [|split].
  - unfold buildPopQueueKeys. constructor.
    + intros Hin. apply elem_of_shard_keys in Hin as (i & _ & He).
      unfold legacyQueueKey, queueShardKeyPrefix in He. rewrite !str_app_cons, str_app_nil_l in He. by simplify_eq.
    + unfold buildQueueShardKeys. apply NoDup_fmap_2_strong; [|apply NoDup_seq].
      intros i j Hi Hj He. apply elem_of_seq in Hi, Hj.
      apply queueShardKey_inj in He; lia.
  - unfold buildPopQueueKeys. rewrite elem_of_cons. intros [He|Hin]; [done|].
    apply elem_of_shard_keys in Hin as (i & _ & He).
    unfold proxyQueueHeadKey, queueShardKeyPrefix in He. rewrite !str_app_cons, str_app_nil_l in He. by simplify_eq.
  - unfold queueKeyForMember. destruct (buildQueueShardKeys n) as [|k ks] eqn:Ek; [cbn in Hlen; lia|].
    rewrite <- Ek in *. apply list_elem_of_In, nth_In. unfold proxyQueueShardIndex.
    destruct (_ <=? 1) eqn:E; breflect; [lia|].
    pose proof (Z.mod_pos_bound (fnv32a member) (Z.of_nat (length (buildQueueShardKeys n)))). lia.
Qed.

(** Shard layout: for any configured count and any member, the queue has
    between 1 and 128 distinct shards, none of which is the legacy queue or the
    head index, and every member is sent to one of them, always the same. *)
Theorem shard_layout configured member :
  let keys := NewRedisProxyQueue configured in
  (1 <= length keys <= 128)%nat /\ NoDup (buildPopQueueKeys keys) /\
  proxyQueueHeadKey ∉ buildPopQueueKeys keys /\
  queueKeyForMember keys member ∈ keys.
Proof. apply shard_layout_aux. Qed.

(** Waiting between polls is bounded: [dequeueWaitDuration] is between ten
    milliseconds and two seconds whatever the reply and the clock say, and when
    a route is due within these bounds it is exactly the time left. *)
Theorem dequeueWaitDuration_bounds next now :
  in_i64 next -> in_i64 now ->
  minDequeueSleep <= dequeueWaitDuration next now <= maxDequeueSleep /\
  (0 < next -> 10 <= next - now <= 2000 -> dequeueWaitDuration next now = (next - now) * Millisecond).
Proof.
  unfold dequeueWaitDuration, minDequeueSleep, maxDequeueSleep, idleQueueSleep, Second, Millisecond.
  intros Hn Hc. cbn zeta. split.
  - destruct (next <=? 0); [lia|]. destruct (_ <=? 0); [lia|].
    destruct (_ <? 10 * 1000000) eqn:E1; [lia|]. destruct (2 * (1000 * 1000000) <? _) eqn:E2; breflect; lia.
  - intros Hp Hw. rewrite (proj2 (Z.leb_gt next 0)) by lia.
    rewrite (wrap_i64_id (next - now)) by (unfold in_i64; lia).
    rewrite (proj2 (Z.leb_gt (next - now) 0)) by lia. rewrite wrap_i64_id by (unfold in_i64; lia).
    rewrite (proj2 (Z.ltb_ge _ _)) by lia. by rewrite (proj2 (Z.ltb_ge _ _)) by lia.
Qed.

Lemma dequeueWaitDuration_bounds_witness :
  dequeueWaitDuration 1700000000500 1700000000000 = 500 * Millisecond.
Proof.
  apply (dequeueWaitDuration_bounds 1700000000500 1700000000000);
    unfold in_i64; vm_compute; intuition discriminate.
Defined.

(** ** Payloads *)

Lemma elem_of_dedup_ids x l : x ∈ dedup_ids l <-> x ∈ l /\ x <> 0.
Proof. unfold dedup_ids. rewrite elem_of_dedup_go, list_elem_of_filter. set_solver. Qed.

Lemma dedup_go_nil_id {A} `{EqDecision A} (l : list A) (seen : list A) :
  NoDup l -> (forall x, x ∈ l -> x ∉ seen) -> dedup_go seen l = l.
Proof.
  revert seen. induction l as [|x l IH]; intros seen Hnd Hs; [done|]. apply NoDup_cons in Hnd as [Hx Hnd].
  cbn [dedup_go]. rewrite bool_decide_eq_false_2 by (apply Hs; by left). f_equal.
  apply IH; [done|]. intros y Hy. apply not_elem_of_cons. split; [by intros ->|]. apply Hs. by right.
Qed.

Lemma dedup_ids_idem l : dedup_ids (dedup_ids l) = dedup_ids l.
Proof.
  unfold dedup_ids at 1. rewrite filter_all.
  - apply dedup_go_nil_id; [apply NoDup_dedup_go|]. intros x _. apply not_elem_of_nil.
  - intros x Hx. by apply elem_of_dedup_ids in Hx as [_ ?].
Qed.

Section Payloads.
Context (toASCII : string -> option string).
Context (FingerprintProxyRoute : string -> Z -> string -> string -> option string).
Context (EncryptProxySecret DecryptProxySecret : string -> option string).
Context (encrypted : bool).

(** The cipher decrypts what it encrypted, and its ciphertexts are not empty. *)
Definition cipher_inverse : Prop :=
  forall s c, EncryptProxySecret s = Some c -> c <> "" /\ DecryptProxySecret c = Some s.

(** A route survives the queue: decoding the payload written for a route
    with a fingerprint gives back its identifier, host, port, credentials and
    fingerprint, and its workspaces without zeros and repetitions, in order;
    the payload needs no rewrite.  Encrypting a credential that the cipher
    refuses is the only way the payload is not written. *)
Theorem payload_roundtrip p q :
  cipher_inverse -> Hash p <> "" ->
  newQueuedProxy EncryptProxySecret encrypted p = Some q ->
  needsRewrite encrypted q = false /\
  exists p', toDomainProxy toASCII FingerprintProxyRoute DecryptProxySecret q = Some p' /\
    ID p' = ID p /\ IP p' = GetIp p /\ Port p' = Port p /\
    Username p' = Username p /\ Password p' = Password p /\ Hash p' = Hash p /\
    Workspaces p' = dedup_ids (Workspaces p) /\ QueueLease p' = None.
Proof.
  intros Hc Hh. unfold newQueuedProxy.
  assert (Hpr : present (Hash p) = true)
    by (unfold present; by rewrite (proj2 (String.eqb_neq _ _) Hh)).
  destruct encrypted eqn:Ee; cbn [negb].
  - destruct (EncryptProxySecret (Username p)) as [u|] eqn:Eu; [|done].
    destruct (EncryptProxySecret (Password p)) as [w|] eqn:Ew; [|done]. intros [= <-].
    destruct (Hc _ _ Eu) as [Hu Hdu]. destruct (Hc _ _ Ew) as [Hw Hdw].
    split.
    + unfold needsRewrite. cbn. by rewrite Hpr.
    + unfold toDomainProxy. cbn -[dedup_ids]. unfold present at 1 2.
      rewrite (proj2 (String.eqb_neq _ _) Hu), (proj2 (String.eqb_neq _ _) Hw). cbn [negb].
      rewrite Hdu, Hdw, Hpr. eexists. split; [reflexivity|]. cbn -[dedup_ids].
      repeat (split; [done|]). split; [|done]. unfold collectQueuedWorkspaceIDs.
      destruct (dedup_ids (Workspaces p)) eqn:E; [done|]. rewrite <- E. apply dedup_ids_idem.
  - intros [= <-]. split.
    + unfold needsRewrite. cbn. by rewrite Hpr.
    + unfold toDomainProxy. cbn -[dedup_ids]. rewrite Hpr. eexists. split; [reflexivity|].
      cbn -[dedup_ids]. repeat (split; [done|]). split; [|done].
      unfold collectQueuedWorkspaceIDs.
      destruct (dedup_ids (Workspaces p)) eqn:E; [done|]. rewrite <- E. apply dedup_ids_idem.
Qed.
End Payloads.

Lemma payload_roundtrip_witness :
  let p := MkProxy 7 "10.0.0.1" (Some "10.0.0.1") 80 "u" "p" [3; 0; 4; 3] None "h" in
  let enc := fun s : string => Some (String "$" s) in
  let dec := fun s : string => match s with String _ r => Some r | "" => None end in
  exists q p', newQueuedProxy enc true p = Some q /\
    toDomainProxy (fun _ => None) (fun _ _ _ _ => None) dec q = Some p' /\
    Workspaces p' = [3; 4] /\ Password p' = "p".
Proof.
  intros p enc dec. eexists. destruct (payload_roundtrip (fun _ => None) (fun _ _ _ _ => None) enc dec true p
    (MkQueued 3 7 "10.0.0.1" 80 "$u" "$p" "" "" "h" [3; 4] [] [])) as [_ (p' & Hp & _ & _ & _ & _ & Hw & _ & Hws & _)].
  - intros s c [= <-]. split; [discriminate|reflexivity].
  - discriminate.
  - vm_compute. reflexivity.
  - exists p'. split; [vm_compute; reflexivity|]. split; [exact Hp|]. split; [rewrite Hws; vm_compute; reflexivity|exact Hw].
Defined.

(** ** Merging ownership *)

(** Completing a check whose payload an import replaced keeps both sides'
    changes: the stored owners are the current ones without those the worker
    dropped, plus those it added, each once; with nothing to merge they are the
    worker's. *)
Theorem merge_owners_spec live before after :
  NoDup (merge_owners live before after) /\
  (forall w, w ∈ merge_owners live before after <->
     (w ∈ live /\ ~ (w ∈ before /\ w ∉ after)) \/ (w ∈ after /\ w ∉ before)) /\
  (live = before -> forall w, w ∈ merge_owners live before after <-> w ∈ after).
Proof.
  assert (Hin : forall w, w ∈ merge_owners live before after <->
     (w ∈ live /\ ~ (w ∈ before /\ w ∉ after)) \/ (w ∈ after /\ w ∉ before)).
  { intros w. unfold merge_owners. cbn zeta.
    rewrite elem_of_app, !elem_of_dedup_go, !list_elem_of_filter, !elem_of_dedup_go, !list_elem_of_filter.
    destruct (decide (w ∈ live)), (decide (w ∈ before)), (decide (w ∈ after)); set_solver. }
  split; [|split; [exact Hin|]].
  - unfold merge_owners. cbn zeta. apply NoDup_app. split; [apply NoDup_dedup_go|]. split; [|apply NoDup_dedup_go].
    intros w Hw Hw'. rewrite elem_of_dedup_go, list_elem_of_filter in Hw'. set_solver.
  - intros -> w. rewrite Hin. destruct (decide (w ∈ before)), (decide (w ∈ after)); naive_solver.
Qed.

Lemma merge_owners_spec_witness :
  merge_owners [1; 2; 5] [1; 2] [2; 3] = [2; 5; 3] /\
  (forall w, w ∈ merge_owners [1; 2] [1; 2] [2; 3] <-> w ∈ [2; 3]).
Proof. split; [vm_compute; reflexivity|]. apply (merge_owners_spec [1; 2] [1; 2] [2; 3]). reflexivity. Defined.
End ProxyQueueFacts.
