(* ===== verification/ProxyLease.v ===== *)
(** * The proxy queue as an interleaving of scripts

    Redis runs every script of the queue atomically, so the behaviour of many
    workers and administrators on one server is a sequence of scripts.  [script]
    lists what the operations of [ProxyQueue] send, with the arguments the Go
    code chooses, and [run] executes one.  The theorems hold for every sequence:
    the head index never hides a route, a route is in one queue, a pop takes the
    earliest due route, a lease is exclusive until it expires. *)

From S2P Require Import Prelude GoStrings ProxyModel Redis ProxyQueue ProxyQueueFacts.
Open Scope Z_scope.

Module ProxyLease.
Import ProxyModel ProxyQueue ProxyQueueFacts.

Inductive script :=
| SPop (now lease : Z)
| SAdd (member : string) (due : Z) (payload : string)
| SComplete (old_queue member : string) (expected next : Z) (payload snapshot : string)
| SRenew (queue member : string) (expected now renewed : Z)
| SRemove (queue member : string) (expected : Z) (snapshot : string)
| SDel (key : string)
| SZrem (queue member : string)
| SRequeueAll (queue : string) (dues : list (string * Z))
| SMigrate (old_queue old_member member : string) (expected now : Z) (payload source : string)
| SRefresh
| SState (value : string).

Definition payload_key (m : string) : string := proxyKeyPrefix +:+ m.

Section Run.
Context {R : Type} `{Redis R}.
(** The pop keys of the queue and its choice of a shard. *)
Context (keys : list string) (key_for : string -> string).

Definition run_add (m : string) (due : Z) (payload : string) (r : R) : R :=
  add_script (payload_key m) (key_for m) (key_for m :: keys) m due payload r.

Context (decode : string -> option queuedProxy).
Context (cjson_encode : queuedProxy -> string).
Context (encrypted : bool).

Definition run (s : script) (r : R) : R :=
  match s with
  | SPop now lease => (pop_script now lease r).2
  | SAdd m due payload =>
      run_add m due payload r
  | SComplete old m expected next payload snapshot =>
      (complete_script decode cjson_encode (key_for m) legacyQueueKey (payload_key m) old m
         expected next payload snapshot r).2
  | SRenew q m expected now renewed => (renew_script q m expected now renewed r).2
  | SRemove q m expected snapshot =>
      (remove_script (payload_key m) q legacyQueueKey m expected snapshot r).2
  | SDel k => del k r
  | SZrem q m => zrem q m r
  | SRequeueAll q dues => (requeue_all_script q dues r).2
  | SMigrate oq om m expected now payload source =>
      (migrate_script decode cjson_encode encrypted (payload_key om) (payload_key m) oq (key_for m)
         keys om m expected now payload source r).2
  | SRefresh => refresh_heads keys r
  | SState v => set queueRescheduleStateKey v r
  end.

Definition run_all (l : list script) (r : R) : R := fold_left (fun r s => run s r) l r.
End Run.

(** What the scripts need of the queues of a deployment: shards are among the
    pop keys, which hold the legacy queue and not the head index. *)
Class QueueLayout (keys : list string) (key_for : string -> string) : Prop := {
  layout_for m : key_for m ∈ keys;
  layout_head : proxyQueueHeadKey ∉ keys;
  layout_legacy : legacyQueueKey ∈ keys
}.

Section Index.
Context {R : Type} `{RedisLaws R}.
Context (keys : list string) (key_for : string -> string) `{Hlayout : !QueueLayout keys key_for}.

Lemma key_for_key m : key_for m ∈ keys.
Proof. apply layout_for. Qed.

Lemma head_not_key : proxyQueueHeadKey ∉ keys.
Proof. apply (layout_head (key_for := key_for)). Qed.

Lemma legacy_key : legacyQueueKey ∈ keys.
Proof. apply (layout_legacy (key_for := key_for)). Qed.

#[local] Hint Resolve key_for_key legacy_key : core.

(** The queues a script names are queues of this deployment; a renewal does not
    shorten the lease. *)
Definition script_ok (s : script) : Prop :=
  match s with
  | SComplete q _ _ _ _ _ | SRemove q _ _ _ | SZrem q _ | SRequeueAll q _
  | SMigrate q _ _ _ _ _ _ => q ∈ keys
  | SRenew q _ expected _ renewed => q ∈ keys /\ expected <= renewed
  | SPop _ _ | SAdd _ _ _ | SDel _ | SRefresh | SState _ => True
  end.

(** ** What must hold of the server *)

(** The indexed head of a queue is a lower bound of its scores. *)
Definition cov (r : R) (q : string) : Prop :=
  forall m s, zscore r q m = Some s -> exists h, zscore r proxyQueueHeadKey q = Some h /\ h <= s.

Definition heads_only (r : R) : Prop :=
  forall q h, zscore r proxyQueueHeadKey q = Some h -> q ∈ keys.

Definition heads_index (r : R) : Prop := heads_only r /\ forall q, q ∈ keys -> cov r q.

(** Every member is in one queue: its shard or the legacy one. *)
Definition placed_once (r : R) : Prop :=
  forall m q s, q ∈ keys -> zscore r q m = Some s ->
    (q = key_for m \/ q = legacyQueueKey) /\
    forall q', q' ∈ keys -> q' <> q -> zscore r q' m = None.

Definition held (q m : string) (L : Z) (r : R) : Prop :=
  q ∈ keys /\ zscore r q m = Some (lease_score L) /\
  forall q', q' ∈ keys -> q' <> q -> zscore r q' m = None.

Lemma key_ne_head q : q ∈ keys -> q <> proxyQueueHeadKey.
Proof. intros Hq ->. by apply head_not_key. Qed.

(** ** The primitives and the head index *)

Lemma zscore_refresh_head q r k m :
  zscore (refresh_head q r) k m =
    if decide (k = proxyQueueHeadKey /\ m = q) then snd <$> zhead r q else zscore r k m.
Proof.
  unfold refresh_head. destruct (zhead r q) as [[m0 s]|] eqn:E; cbn [fmap option_fmap option_map snd].
  - rewrite zscore_zadd. repeat case_decide; naive_solver.
  - rewrite zscore_zrem. repeat case_decide; naive_solver.
Qed.

Lemma get_refresh_head q r k : get (refresh_head q r) k = get r k.
Proof. unfold refresh_head. destruct (zhead r q) as [[m s]|]; by rewrite ?get_zadd, ?get_zrem. Qed.

Lemma refresh_head_queue q r k m : k ∈ keys -> zscore (refresh_head q r) k m = zscore r k m.
Proof.
  intros Hk. rewrite zscore_refresh_head, decide_False; [done|]. intros [-> _]. by apply head_not_key.
Qed.

Lemma refresh_head_cov q r : q ∈ keys -> cov (refresh_head q r) q.
Proof.
  intros Hq m s Hs. rewrite refresh_head_queue in Hs by done.
  rewrite zscore_refresh_head, decide_True by done.
  destruct (zhead r q) as [[m0 s0]|] eqn:E; cbn.
  - exists s0. split; [done|]. apply zhead_Some in E as [_ E]. by eapply E.
  - apply (zhead_None r q) with (m := m) in E. congruence.
Qed.

Lemma refresh_head_cov_other q q' r : q' ∈ keys -> cov r q' -> cov (refresh_head q r) q'.
Proof.
  intros Hq' Hc. destruct (decide (q' = q)) as [->|Hne]; [by apply refresh_head_cov|].
  intros m s Hs. rewrite refresh_head_queue in Hs by done.
  rewrite zscore_refresh_head, decide_False by naive_solver. by eapply Hc.
Qed.

Lemma refresh_head_only q r : q ∈ keys -> heads_only r -> heads_only (refresh_head q r).
Proof.
  intros Hq Ho q' h. rewrite zscore_refresh_head. case_decide; [naive_solver|]. apply Ho.
Qed.

Lemma refresh_heads_queue l r k m : k ∈ keys -> zscore (refresh_heads l r) k m = zscore r k m.
Proof.
  intros Hk. unfold refresh_heads. revert r. induction l as [|q l IH]; intros r; cbn; [done|].
  by rewrite IH, refresh_head_queue.
Qed.

Lemma refresh_heads_index l r : (forall q, q ∈ l -> q ∈ keys) -> heads_only r ->
  (forall q, q ∈ keys -> q ∈ l \/ cov r q) -> heads_index (refresh_heads l r).
Proof.
  unfold refresh_heads. revert r. induction l as [|q l IH]; intros r Hl Ho Hc; cbn.
  - split; [done|]. intros q Hq. destruct (Hc q Hq) as [Hin|]; [inversion Hin|done].
  - apply IH; [set_solver|apply refresh_head_only; [apply Hl; by left|done]|].
    intros q' Hq'. destruct (decide (q' = q)) as [->|]; [right; by apply refresh_head_cov|].
    destruct (Hc q' Hq') as [Hin|]; [left; set_solver|right; by apply refresh_head_cov_other].
Qed.

(** An update that keeps or lowers the indexed heads and whose entries were
    there, or are covered, keeps the index. *)
Lemma heads_index_frame r r' : heads_index r ->
  (forall q h, zscore r' proxyQueueHeadKey q = Some h -> zscore r proxyQueueHeadKey q <> None \/ q ∈ keys) ->
  (forall q h, zscore r proxyQueueHeadKey q = Some h ->
     exists h', zscore r' proxyQueueHeadKey q = Some h' /\ h' <= h) ->
  (forall q m s, q ∈ keys -> zscore r' q m = Some s ->
     (exists s0, zscore r q m = Some s0 /\ s0 <= s) \/
     exists h, zscore r' proxyQueueHeadKey q = Some h /\ h <= s) ->
  heads_index r'.
Proof.
  intros [Ho Hc] Ha Hd Hb. split.
  - intros q h Hq. destruct (Ha q h Hq) as [Hne|]; [|done].
    destruct (zscore r proxyQueueHeadKey q) as [h0|] eqn:E; [|done]. by eapply Ho.
  - intros q Hq m s Hs. destruct (Hb q m s Hq Hs) as [(s0 & Hs0 & Hle)|]; [|done].
    destruct (Hc q Hq m s0 Hs0) as (h & Hh & Hle'). destruct (Hd q h Hh) as (h' & Hh' & ?).
    exists h'. split; [done|lia].
Qed.

(** Payload writes do not touch the queues. *)
Lemma heads_index_ext r r' : (forall k m, zscore r' k m = zscore r k m) -> heads_index r -> heads_index r'.
Proof.
  intros He Hi. apply (heads_index_frame r); [done|..].
  - intros q h. rewrite He. intros ->. by left.
  - intros q h Hq. exists h. by rewrite He.
  - intros q m s _. rewrite He. intros Hs. left. by exists s.
Qed.

Lemma heads_index_zrem q m r : q ∈ keys -> heads_index r -> heads_index (zrem q m r).
Proof.
  intros Hq Hi. pose proof (key_ne_head q Hq) as Hne. apply (heads_index_frame r); [done|..].
  - intros q' h. rewrite zscore_zrem, decide_False by naive_solver. intros ->. by left.
  - intros q' h Hh. exists h. rewrite zscore_zrem, decide_False by naive_solver. done.
  - intros q' m' s Hq'. rewrite zscore_zrem. case_decide; [done|]. intros Hs. left. by exists s.
Qed.

(** Storing a score and lowering the head to it. *)
Lemma heads_index_zadd_lt q m s h r : q ∈ keys -> h <= s -> heads_index r ->
  heads_index (zadd_lt proxyQueueHeadKey h q (zadd q s m r)).
Proof.
  intros Hq Hhs Hi. pose proof (key_ne_head q Hq) as Hne. apply (heads_index_frame r); [done|..].
  - intros q' h'. rewrite zscore_zadd_lt, !zscore_zadd. repeat case_decide; naive_solver.
  - intros q' h' Hh. rewrite zscore_zadd_lt, !zscore_zadd.
    destruct (decide (proxyQueueHeadKey = proxyQueueHeadKey /\ q = q')) as [[_ ->]|Hd].
    + rewrite decide_False by naive_solver. rewrite Hh. eexists. split; [done|lia].
    + rewrite decide_False by naive_solver. by exists h'.
  - intros q' m' s' Hq'. rewrite !zscore_zadd_lt, !zscore_zadd.
    rewrite (decide_False (P := proxyQueueHeadKey = q' /\ q = m')) by (intros [<- _]; by apply head_not_key).
    destruct (decide (q = q' /\ m = m')) as [[<- <-]|]; [|intros Hs; left; by exists s'].
    intros [= <-]. right. rewrite decide_True by done. eexists. split; [done|].
    case_match; lia.
Qed.
(** ** The dequeue script *)

(** Entries that left the queues: due, and without a payload. *)
Definition drops (now : Z) (r r' : R) : Prop :=
  forall k m, k ∈ keys ->
    zscore r' k m = zscore r k m \/
    (zscore r' k m = None /\ get r (payload_key m) = None /\
     exists s, zscore r k m = Some s /\ s <= due_score now).

Lemma drops_refl now r : drops now r r.
Proof. intros k m _. by left. Qed.

Lemma drops_trans now a b c : (forall k, get b k = get a k) -> drops now a b -> drops now b c -> drops now a c.
Proof.
  intros Hg Hab Hbc k m Hk. destruct (Hab k m Hk) as [Ha|(Hn & Hp & s & Hs & Hl)];
    destruct (Hbc k m Hk) as [Hb|(Hn' & Hp' & s' & Hs' & Hl')].
  - left. congruence.
  - right. rewrite <- Hg, <- Ha. eauto.
  - right. split; [congruence|]. eauto.
  - congruence.
Qed.

Definition none_reply (ms : Z) : LuaValue :=
  LSlice [LInt64 0; LString ""; LString ""; LInt64 ms; LInt64 (-1)].

(** What a pop does: [r1] is the state after the dropped entries. *)
Inductive pop_outcome (now lease : Z) (r1 : R) : LuaValue -> R -> Prop :=
| pop_unknown : pop_outcome now lease r1 (none_reply (-1)) r1
| pop_idle n :
    (forall k m s, k ∈ keys -> zscore r1 k m = Some s -> due_score now < s /\ n <= floor_ms s) ->
    pop_outcome now lease r1 (none_reply n) r1
| pop_claim q m data s :
    q ∈ keys -> zscore r1 q m = Some s -> s <= due_score now ->
    get r1 (payload_key m) = Some data ->
    (forall k m' s', k ∈ keys -> zscore r1 k m' = Some s' -> s <= s') ->
    pop_outcome now lease r1
      (LSlice [LInt64 1; LString m; LString data; LInt64 (floor_ms s); LString q])
      (refresh_head q (zadd q (lease_score (now + lease)) m r1)).

Lemma floor_ms_mono a b : a <= b -> floor_ms a <= floor_ms b.
Proof. intros. apply Z.div_le_mono; lia. Qed.

(** The head of the index bounds every score. *)
Lemma heads_index_least r q h k m s :
  heads_index r -> zhead r proxyQueueHeadKey = Some (q, h) -> k ∈ keys ->
  zscore r k m = Some s -> h <= s.
Proof.
  intros [_ Hc] Hh Hk Hs. apply zhead_Some in Hh as [_ Hmin].
  destruct (Hc k Hk m s Hs) as (h' & Hh' & Hle). specialize (Hmin k h' Hh'). lia.
Qed.

Lemma heads_index_drop_key q r : zhead r q = None -> q ∈ keys -> heads_index r ->
  heads_index (zrem proxyQueueHeadKey q r).
Proof.
  intros Hn Hq [Ho Hc]. split.
  - intros q' h. rewrite zscore_zrem. case_decide; [done|]. apply Ho.
  - intros q' Hq' m s. rewrite !zscore_zrem.
    rewrite decide_False by (intros [<- _]; by apply head_not_key). intros Hs.
    rewrite decide_False; [by eapply Hc|]. intros [_ <-].
    apply (zhead_None r q) with (m := m) in Hn. congruence.
Qed.

Lemma heads_index_repair q m s r : zhead r q = Some (m, s) -> q ∈ keys -> heads_index r ->
  heads_index (zadd proxyQueueHeadKey s q r).
Proof.
  intros Hz Hq [Ho Hc]. apply zhead_Some in Hz as [_ Hmin]. split.
  - intros q' h. rewrite zscore_zadd. case_decide; [naive_solver|]. apply Ho.
  - intros q' Hq' m' s'. rewrite !zscore_zadd.
    rewrite decide_False by (intros [<- _]; by apply head_not_key). intros Hs.
    destruct (decide (_ /\ q = q')) as [[_ <-]|]; [|by eapply Hc]. exists s. split; [done|by eapply Hmin].
Qed.

Lemma heads_queue_frame q m k m' h r : k ∈ keys ->
  zscore (zadd proxyQueueHeadKey h q r) k m' = zscore r k m' /\
  zscore (zrem proxyQueueHeadKey q r) k m' = zscore r k m' /\
  zscore (refresh_head q (zrem q m r)) k m' = zscore (zrem q m r) k m'.
Proof.
  intros Hk. rewrite refresh_head_queue, zscore_zadd, zscore_zrem by done.
  rewrite !decide_False by (intros [<- _]; by apply head_not_key). done.
Qed.

Lemma heads_index_refresh_zadd q s m r : q ∈ keys -> heads_index r ->
  heads_index (refresh_head q (zadd q s m r)).
Proof.
  intros Hq [Ho Hc]. pose proof head_not_key as Hhead. split.
  - apply refresh_head_only; [done|]. intros q' h. rewrite zscore_zadd.
    rewrite decide_False; [apply Ho|]. intros [-> _]. by apply head_not_key.
  - intros q' Hq'. destruct (decide (q' = q)) as [->|Hne]; [by apply refresh_head_cov|].
    apply refresh_head_cov_other; [done|]. intros m' s'. rewrite !zscore_zadd.
    rewrite !decide_False; [by apply Hc|naive_solver|]. intros [-> _]. by apply head_not_key.
Qed.

Lemma heads_index_refresh q r : q ∈ keys -> heads_index r -> heads_index (refresh_head q r).
Proof.
  intros Hq [Ho Hc]. split; [by apply refresh_head_only|].
  intros q' Hq'. by apply refresh_head_cov_other; [|apply Hc].
Qed.

Lemma pop_loop_spec fuel now lease r : heads_index r ->
  exists r1, heads_index r1 /\ drops now r r1 /\ (forall k, get r1 k = get r k) /\
    pop_outcome now lease r1 (pop_loop fuel now lease r).1 (pop_loop fuel now lease r).2.
Proof.
  revert r. induction fuel as [|fuel IH]; intros r Hi; cbn [pop_loop].
  { exists r. repeat split; [apply Hi|apply Hi|apply drops_refl|]. apply pop_unknown. }
  destruct (zhead r proxyQueueHeadKey) as [[q h]|] eqn:Eh; cbn [fst snd].
  2:{ exists r. repeat split; [apply Hi|apply Hi|apply drops_refl|]. apply pop_unknown. }
  assert (Hq : q ∈ keys) by (destruct Hi as [Ho _]; apply zhead_Some in Eh as [Eh _]; by eapply Ho).
  assert (Hstep : forall r2, heads_index r2 -> drops now r r2 -> (forall k, get r2 k = get r k) ->
    exists r1, heads_index r1 /\ drops now r r1 /\ (forall k, get r1 k = get r k) /\
      pop_outcome now lease r1 (pop_loop fuel now lease r2).1 (pop_loop fuel now lease r2).2).
  { intros r2 Hi2 Hd Hg. destruct (IH r2 Hi2) as (r1 & Hi1 & Hd1 & Hg1 & Ho).
    exists r1. split; [done|]. split; [by eapply drops_trans|]. split; [|done]. intros k. by rewrite Hg1. }
  destruct (zhead r q) as [[m s]|] eqn:Ez.
  2:{ apply Hstep; [by apply heads_index_drop_key| |intros k; apply get_zrem].
      intros k m' Hk. left. by apply (heads_queue_frame q m' k m' 0 r). }
  destruct (s =? h) eqn:Esh; cbn [negb]; breflect.
  2:{ apply Hstep; [by eapply heads_index_repair| |intros k; apply get_zadd].
      intros k m' Hk. left. by apply (heads_queue_frame q m k m' s r). }
  subst h. pose proof Ez as Ez'. apply zhead_Some in Ez' as [Hs _].
  destruct (due_score now <? s) eqn:El; breflect; cbn [fst snd].
  - exists r. repeat split; [apply Hi|apply Hi|apply drops_refl|]. apply pop_idle.
    intros k m' s' Hk Hs'. pose proof (heads_index_least r q s k m' s' Hi Eh Hk Hs').
    split; [lia|by apply floor_ms_mono].
  - destruct (get r (proxyKeyPrefix +:+ m)) as [data|] eqn:Eg; cbn [fst snd].
    + exists r. repeat split; [apply Hi|apply Hi|apply drops_refl|].
      apply pop_claim; try done. intros k m' s' Hk Hs'. exact (heads_index_least r q s k m' s' Hi Eh Hk Hs').
    + apply Hstep.
      * apply heads_index_refresh; [done|]. by apply heads_index_zrem.
      * intros k m' Hk. rewrite (proj2 (proj2 (heads_queue_frame q m k m' 0 r Hk))), zscore_zrem.
        destruct (decide (q = k /\ m = m')) as [[<- <-]|]; [|by left]. right.
        split; [done|]. split; [done|]. by exists s.
      * intros k. by rewrite get_refresh_head, get_zrem.
Qed.
(** ** What each script does to the queues *)

(** No queue gains a member. *)
Definition shrinks (r r' : R) : Prop :=
  forall k m, k ∈ keys -> zscore r' k m <> None -> zscore r k m <> None.

Lemma placed_once_shrink r r' : shrinks r r' -> placed_once r -> placed_once r'.
Proof.
  intros Hsh Hp m q s Hq Hs.
  destruct (zscore r q m) as [s0|] eqn:E; [|exfalso; apply (Hsh q m Hq); congruence].
  destruct (Hp m q s0 Hq E) as [Hpl Ho]. split; [done|]. intros q' Hq' Hne.
  destruct (zscore r' q' m) eqn:E'; [|done]. exfalso. apply (Hsh q' m Hq'); [congruence|]. by apply Ho.
Qed.

(** All of one member's entries move to one of its places. *)
Lemma placed_once_move r r' m tgt : tgt = key_for m \/ tgt = legacyQueueKey ->
  (forall k, k ∈ keys -> k <> tgt -> zscore r' k m = None) ->
  (forall k m', k ∈ keys -> m' <> m -> zscore r' k m' <> None -> zscore r k m' <> None) ->
  placed_once r -> placed_once r'.
Proof.
  intros Ht Hm Ho Hp m' q s Hq Hs. destruct (decide (m' = m)) as [->|Hne].
  - destruct (decide (q = tgt)) as [->|Hn]; [|by rewrite Hm in Hs]. split; [done|]. intros q' Hq' Hn. by apply Hm.
  - destruct (zscore r q m') as [s0|] eqn:E; [|exfalso; apply (Ho q m' Hq Hne); congruence].
    destruct (Hp m' q s0 Hq E) as [Hpl Hn]. split; [done|]. intros q' Hq' Hne'.
    destruct (zscore r' q' m') eqn:E'; [|done]. exfalso. apply (Ho q' m' Hq' Hne); [congruence|by apply Hn].
Qed.

Lemma pop_frame now lease r : heads_index r ->
  let r' := (pop_script now lease r).2 in
  heads_index r' /\ (forall k, get r' k = get r k) /\
  forall k m, k ∈ keys -> zscore r' k m = zscore r k m \/
    exists s, zscore r k m = Some s /\ s <= due_score now /\
      (zscore r' k m = None \/ zscore r' k m = Some (lease_score (now + lease))).
Proof.
  intros Hi. destruct (pop_loop_spec 8 now lease r Hi) as (r1 & Hi1 & Hd & Hg & Ho).
  unfold pop_script. destruct (pop_loop 8 now lease r) as [rep r']. cbn [fst snd] in *.
  assert (Hdr : forall k m, k ∈ keys -> zscore r1 k m = zscore r k m \/
    exists s, zscore r k m = Some s /\ s <= due_score now /\ zscore r1 k m = None).
  { intros k m Hk. destruct (Hd k m Hk) as [|(? & ? & s & ? & ?)]; [by left|right; eauto]. }
  inversion Ho; subst.
  1,2: split; [done|]; split; [done|]; intros k m' Hk; destruct (Hdr k m' Hk) as [|(s' & ? & ? & ?)]; eauto 6.
  split; [by apply heads_index_refresh_zadd|]. split; [intros k; by rewrite get_refresh_head, get_zadd|].
  intros k m' Hk. rewrite refresh_head_queue, zscore_zadd by done.
  destruct (decide (q = k /\ m = m')) as [[<- <-]|Hne].
  - right. destruct (Hdr q m Hk) as [He|(s' & _ & _ & He)]; [|congruence]. exists s. split; [congruence|]. eauto.
  - destruct (Hdr k m' Hk) as [|(s' & ? & ? & ?)]; eauto 6.
Qed.

Lemma zscore_zrem_others ks q m r k m' :
  zscore (zrem_others ks q m r) k m' =
    if decide (k ∈ ks /\ k <> q /\ m' = m) then None else zscore r k m'.
Proof.
  unfold zrem_others. revert r. induction ks as [|k0 ks IH]; intros r; cbn.
  { rewrite decide_False; [done|]. set_solver. }
  rewrite IH. destruct (String.eqb k0 q) eqn:E.
  - apply String.eqb_eq in E as ->. repeat case_decide; set_solver.
  - apply String.eqb_neq in E. rewrite zscore_zrem. repeat case_decide; set_solver.
Qed.

Lemma find_lease_Some ks m r q s : find_lease ks m r = Some (q, s) ->
  q ∈ ks /\ zscore r q m = Some s /\ is_lease s = true.
Proof.
  unfold find_lease. intros Hf. apply first_match_Some in Hf as (k & Hk & Hs).
  destruct (zscore r k m) as [s'|] eqn:E; [|done]. destruct (is_lease s') eqn:El; [|done]. by simplify_eq.
Qed.

(** Where an import puts the member. *)
Definition add_queue (m : string) (r : R) : string :=
  match find_lease (key_for m :: keys) m r with Some (q, _) => q | None => key_for m end.

Lemma add_queue_key m r : add_queue m r ∈ keys.
Proof.
  unfold add_queue. destruct (find_lease _ m r) as [[q s]|] eqn:E; [|done].
  apply find_lease_Some in E as [Hq _]. apply elem_of_cons in Hq as [->|]; done.
Qed.

Lemma add_frame m due payload r k m' : k ∈ keys ->
  zscore (run_add keys key_for m due payload r) k m' =
    if decide (m' = m)
    then (if decide (k = add_queue m r)
          then Some (match zscore r k m with Some s => s | None => due_score due end) else None)
    else zscore r k m'.
Proof.
  intros Hk. unfold run_add, add_script. cbn zeta. fold (add_queue m r).
  rewrite zscore_zadd_lt, decide_False by (intros [<- _]; by apply head_not_key).
  rewrite zscore_zrem_others, zscore_zadd_nx, !zscore_set.
  destruct (decide (m' = m)) as [->|]; [|by rewrite !decide_False by naive_solver].
  destruct (decide (k = add_queue m r)) as [->|].
  - rewrite (decide_False (P := _ ∈ _ /\ _)) by naive_solver.
    destruct (zscore r (add_queue m r) m) eqn:E; [rewrite decide_False by naive_solver|rewrite decide_True by done]; done.
  - rewrite decide_True; [done|]. split; [by right|done].
Qed.

Lemma add_index m due payload r : heads_index r -> heads_index (run_add keys key_for m due payload r).
Proof.
  intros Hi. pose proof (key_ne_head _ (add_queue_key m r)) as Hne.
  assert (Hh : forall q, zscore (run_add keys key_for m due payload r) proxyQueueHeadKey q =
    if decide (q = add_queue m r) then
      Some (let h := match find_lease (key_for m :: keys) m r with Some (_, s) => s | None => due_score due end in
            match zscore r proxyQueueHeadKey q with Some s' => Z.min h s' | None => h end)
    else zscore r proxyQueueHeadKey q).
  { intros q. unfold run_add, add_script. cbn zeta. fold (add_queue m r).
    rewrite zscore_zadd_lt, !zscore_zrem_others, !zscore_zadd_nx, !zscore_set.
    rewrite !(decide_False (P := proxyQueueHeadKey ∈ _ /\ _)) by (intros [[Hx|Hx]%elem_of_cons _]; [by apply head_not_key; rewrite Hx|by apply head_not_key]).
    rewrite !(decide_False (P := add_queue m r = proxyQueueHeadKey /\ _)) by naive_solver.
    repeat case_decide; naive_solver. }
  apply (heads_index_frame r); [done|..].
  - intros q h. rewrite Hh. case_decide; [subst; intros _; right; apply add_queue_key|]. intros ->. by left.
  - intros q h Hq. rewrite Hh, Hq. case_decide; [|by exists h]. eexists. split; [done|]. cbn zeta. lia.
  - intros q m' s Hq. rewrite add_frame, Hh by done.
    destruct (decide (m' = m)) as [->|]; [|intros Hs; left; by exists s].
    destruct (decide (q = add_queue m r)) as [->|]; [|done]. intros [= <-].
    destruct (zscore r (add_queue m r) m) as [s|] eqn:Es; [left; by exists s|].
    right. eexists. split; [done|]. cbn zeta. unfold add_queue in Es.
    destruct (find_lease _ m r) as [[q s]|] eqn:Ef; [apply find_lease_Some in Ef as (_ & Ef & _); congruence|].
    destruct (zscore r proxyQueueHeadKey _); lia.
Qed.
(** The index bounds every queue but [q]. *)
Definition index_but (q : string) (r : R) : Prop :=
  heads_only r /\ forall q', q' ∈ keys -> q' <> q -> cov r q'.

Lemma heads_index_but q r : heads_index r -> index_but q r.
Proof. intros [Ho Hc]. split; [done|]. intros q' Hq' _. by apply Hc. Qed.

Lemma index_but_zadd q s m r : q ∈ keys -> index_but q r -> index_but q (zadd q s m r).
Proof.
  intros Hq [Ho Hc]. pose proof (key_ne_head q Hq) as Hne. split.
  - intros q' h. rewrite zscore_zadd, decide_False by naive_solver. apply Ho.
  - intros q' Hq' Hn m' s'. rewrite !zscore_zadd, !decide_False by naive_solver. by apply Hc.
Qed.

Lemma index_but_zadd_xx q s m r : q ∈ keys -> index_but q r -> index_but q (zadd_xx q s m r).
Proof. intros Hq Hi. unfold zadd_xx. destruct (zscore r q m); [by apply index_but_zadd|done]. Qed.

Lemma index_but_refresh q r : q ∈ keys -> index_but q r -> heads_index (refresh_head q r).
Proof.
  intros Hq [Ho Hc]. split; [by apply refresh_head_only|].
  intros q' Hq'. destruct (decide (q' = q)) as [->|Hn]; [by apply refresh_head_cov|].
  apply refresh_head_cov_other; [done|]. by apply Hc.
Qed.

Lemma requeue_members_frame q l r : q ∈ keys -> index_but q r ->
  let r' := (requeue_members q l r).2 in
  index_but q r' /\ (forall k, get r' k = get r k) /\
  forall k m, k ∈ keys -> zscore r' k m = zscore r k m \/
    exists s d, k = q /\ zscore r k m = Some s /\ is_lease s = false /\ zscore r' k m = Some (due_score d).
Proof.
  intros Hq. revert r. induction l as [|[m d] l IH]; intros r Hi; cbn; [eauto|].
  destruct (zscore r q m) as [s|] eqn:E; [|by apply IH].
  destruct (is_lease s) eqn:El; [by apply IH|].
  destruct (IH (zadd_xx q (due_score d) m r)) as (Hi' & Hg & Hz); [by apply index_but_zadd_xx|].
  destruct (requeue_members q l _) as [n r'] eqn:Er. cbn [snd] in *.
  split; [done|]. split; [intros k; by rewrite Hg, get_zadd_xx|]. intros k m' Hk.
  destruct (Hz k m' Hk) as [He|(s' & d' & -> & Hs & Hl & He)]; rewrite zscore_zadd_xx in *.
  - destruct (decide (q = k /\ m = m' /\ _)) as [(<- & <- & _)|]; [|by left]. right. eauto 6.
  - right. destruct (decide (q = q /\ m = m' /\ _)) as [(_ & <- & _)|]; eauto 8.
Qed.

Lemma requeue_all_frame q l r : q ∈ keys -> heads_index r ->
  let r' := (requeue_all_script q l r).2 in
  heads_index r' /\ (forall k, get r' k = get r k) /\
  forall k m, k ∈ keys -> zscore r' k m = zscore r k m \/
    exists s d, k = q /\ zscore r k m = Some s /\ is_lease s = false /\ zscore r' k m = Some (due_score d).
Proof.
  intros Hq Hi. destruct (requeue_members_frame q l r Hq (heads_index_but q r Hi)) as (Hi' & Hg & Hz).
  unfold requeue_all_script. destruct (requeue_members q l r) as [n r'] eqn:Er. cbn [snd] in *.
  split; [by apply index_but_refresh|]. split; [intros k; by rewrite get_refresh_head, Hg|].
  intros k m Hk. rewrite refresh_head_queue by done. by apply Hz.
Qed.

Lemma renew_frame q m expected now renewed r : q ∈ keys -> expected <= renewed -> heads_index r ->
  let r' := (renew_script q m expected now renewed r).2 in
  heads_index r' /\
  (r' = r \/ zscore r q m = Some (lease_score expected) /\
   forall k m', zscore r' k m' = if decide (q = k /\ m = m') then Some (lease_score renewed) else zscore r k m').
Proof.
  intros Hq Hle Hi. pose proof (key_ne_head q Hq) as Hne. unfold renew_script.
  destruct (_ && _) eqn:E; cbn [snd]; [|by eauto]. breflect.
  assert (Hz : forall k m', zscore (zadd_xx q (lease_score renewed) m r) k m' =
    if decide (q = k /\ m = m') then Some (lease_score renewed) else zscore r k m').
  { intros k m'. rewrite zscore_zadd_xx. repeat case_decide; naive_solver. }
  split; [|by eauto]. apply (heads_index_frame r); [done|..].
  - intros q' h. rewrite Hz, decide_False by naive_solver. intros ->. by left.
  - intros q' h Hh. exists h. rewrite Hz, decide_False by naive_solver. done.
  - intros q' m' s _. rewrite Hz. destruct (decide _) as [[<- <-]|]; [|intros Hs; left; by exists s].
    intros [= <-]. left. exists (lease_score expected). split; [done|]. unfold lease_score. lia.
Qed.

Lemma remove_frame q m expected snapshot r : q ∈ keys -> heads_index r ->
  let r' := (remove_script (payload_key m) q legacyQueueKey m expected snapshot r).2 in
  heads_index r' /\
  (r' = r \/ (0 < expected -> zscore r q m = Some (lease_score expected)) /\
   forall k m', k ∈ keys -> zscore r' k m' =
     if decide (m' = m /\ (k = q \/ k = legacyQueueKey)) then None else zscore r k m').
Proof.
  intros Hq Hi. unfold remove_script. destruct (_ && _) eqn:E; cbn [snd]; [by eauto|].
  assert (Hi' : heads_index (zrem q m (del (payload_key m) r))).
  { apply heads_index_zrem; [done|]. by apply (heads_index_ext r); [intros; apply zscore_del|]. }
  split. { destruct (String.eqb _ _); [done|]. by apply heads_index_zrem. }
  right. split.
  - intros Hx. rewrite (proj2 (Z.ltb_lt _ _) Hx) in E. cbn in E. by breflect.
  - intros k m' Hk. destruct (String.eqb legacyQueueKey q) eqn:El;
      [apply String.eqb_eq in El|apply String.eqb_neq in El];
      rewrite ?zscore_zrem, ?zscore_del; repeat case_decide; naive_solver.
Qed.

Lemma complete_frame (decode : string -> option queuedProxy) (cjson_encode : queuedProxy -> string)
    old m expected next payload snapshot r : old ∈ keys -> heads_index r ->
  let r' := (complete_script decode cjson_encode (key_for m) legacyQueueKey (payload_key m) old m
               expected next payload snapshot r).2 in
  heads_index r' /\
  (r' = r \/ (0 < expected -> zscore r old m = Some (lease_score expected)) /\
   forall k m', k ∈ keys -> zscore r' k m' =
     if decide (m' = m) then
       (if decide (k = key_for m) then Some (due_score next)
        else if decide (k = old \/ k = legacyQueueKey) then None else zscore r k m')
     else zscore r k m').
Proof.
  intros Hq Hi. unfold complete_script. cbn zeta. destruct (_ && _) eqn:E; cbn [snd]; [by eauto|].
  assert (Hx : 0 < expected -> zscore r old m = Some (lease_score expected)).
  { intros Hx. rewrite (proj2 (Z.ltb_lt _ _) Hx) in E. cbn in E. by breflect. }
  destruct (if String.eqb payload "" then _ else _) as [r1|] eqn:Es; cbn [snd]; [|by eauto].
  assert (Hz1 : forall k m', zscore r1 k m' = zscore r k m').
  { intros k m'. repeat split_if_in Es; simplify_eq; by rewrite ?zscore_set. }
  assert (Hi1 : heads_index r1) by by apply (heads_index_ext r).
  split.
  - apply heads_index_zadd_lt; [done|lia|].
    repeat match goal with |- context [if ?b then _ else _] => destruct b end;
      rewrite ?andb_false_r; repeat apply heads_index_zrem; done.
  - right. split; [done|]. intros k m' Hk.
    rewrite zscore_zadd_lt, decide_False by (intros [<- _]; by apply head_not_key). rewrite zscore_zadd.
    destruct (String.eqb old (key_for m)) eqn:E1; destruct (String.eqb legacyQueueKey (key_for m)) eqn:E2;
      destruct (String.eqb legacyQueueKey old) eqn:E3; cbn [negb andb];
      repeat match goal with
      | Hb : String.eqb _ _ = true |- _ => apply String.eqb_eq in Hb
      | Hb : String.eqb _ _ = false |- _ => apply String.eqb_neq in Hb
      end; rewrite ?zscore_zrem, ?Hz1; repeat case_decide; naive_solver.
Qed.
(** ** Migration of a non-canonical member *)

Lemma migrate_queues_frame qs q om m r : (forall k, k ∈ qs -> k ∈ keys) ->
  (forall k m', zscore (migrate_queues qs q om m r).2 k m' =
     if decide (k ∈ qs /\ (m' = om \/ (m' = m /\ k <> q))) then None else zscore r k m') /\
  (forall k, k ∈ (migrate_queues qs q om m r).1 -> k ∈ qs) /\
  (heads_index r -> heads_index (migrate_queues qs q om m r).2).
Proof.
  revert r. induction qs as [|k0 qs IH]; intros r Hk; cbn [migrate_queues].
  { cbn. split; [|done]. intros k m'. rewrite decide_False; [done|]. set_solver. }
  set (r1 := if String.eqb k0 q then zrem k0 om r else zrem k0 m (zrem k0 om r)).
  destruct (IH r1) as (Hz & Hd & Hi); [set_solver|].
  assert (Hr1 : forall k m', zscore r1 k m' =
    if decide (k = k0 /\ (m' = om \/ (m' = m /\ k <> q))) then None else zscore r k m').
  { intros k m'. subst r1. destruct (String.eqb k0 q) eqn:E;
      [apply String.eqb_eq in E|apply String.eqb_neq in E];
      rewrite ?zscore_zrem; repeat case_decide; naive_solver. }
  fold r1. destruct (migrate_queues qs q om m r1) as [dirty r2]. cbn [fst snd] in *.
  split; [|split].
  - intros k m'. rewrite Hz, Hr1. repeat case_decide; set_solver.
  - intros k. destruct (_ || _); set_solver.
  - intros Hh. apply Hi. subst r1.
    destruct (String.eqb k0 q); repeat apply heads_index_zrem; try done; apply Hk; by left.
Qed.

Section Migrate.
Context (decode : string -> option queuedProxy) (cjson_encode : queuedProxy -> string) (encrypted : bool).
Context (oq om m : string) (expected now : Z) (payload source : string).

Definition migrate (r : R) : R :=
  (migrate_script decode cjson_encode encrypted (payload_key om) (payload_key m) oq (key_for m)
     keys om m expected now payload source r).2.

Definition migrate_set : list string := dedup_go [] (oq :: key_for m :: keys).

(** The shard whose live lease on the canonical member wins. *)
Definition live_owner (r : R) : option string :=
  first_match (fun q => match zscore r q m with
                        | Some s => if is_lease s && (due_score now <? s) then Some q else None
                        | None => None
                        end) migrate_set.

Lemma migrate_set_keys k : oq ∈ keys -> k ∈ migrate_set <-> k ∈ keys.
Proof.
  intros Hoq. unfold migrate_set. rewrite elem_of_dedup_go, !elem_of_cons. split.
  - intros [[->|[->|]] _]; done.
  - intros Hk. split; [by right; right|]. apply not_elem_of_nil.
Qed.

Lemma live_owner_Some r q : oq ∈ keys -> live_owner r = Some q ->
  q ∈ keys /\ exists s, zscore r q m = Some s /\ is_lease s = true /\ due_score now < s.
Proof.
  intros Hoq Hl. apply first_match_Some in Hl as (k & Hk & Hs). rewrite migrate_set_keys in Hk by done.
  destruct (zscore r k m) as [s|] eqn:E; [|done]. destruct (_ && _) eqn:Eb; [|done]. breflect. simplify_eq.
  split; [done|]. by exists s.
Qed.

(** What a migration does: nothing; it releases the stale candidate; or it
    drops the candidate and, when no live lease owns the canonical member,
    gives that member's only entry to the caller. *)
Lemma migrate_frame r : oq ∈ keys -> heads_index r ->
  heads_index (migrate r) /\
  ((forall k m', k ∈ keys -> zscore (migrate r) k m' = zscore r k m') \/
   zscore r oq om = Some (lease_score expected) /\
   ((forall k m', k ∈ keys -> zscore (migrate r) k m' = zscore r k m' \/ (k = oq /\ m' = om)) /\
    shrinks r (migrate r) \/
    om <> m /\ forall k m', k ∈ keys -> zscore (migrate r) k m' =
      if decide (m' = om) then None
      else if decide (m' = m) then
        match live_owner r with
        | Some q => if decide (k = q) then zscore r k m else None
        | None => if decide (k = key_for m) then Some (lease_score expected) else None
        end
      else zscore r k m')).
Proof.
  intros Hoq Hi. unfold migrate, migrate_script.
  destruct (_ && _) eqn:Ef; cbn [negb snd]; [|by eauto]. breflect.
  destruct (bool_decide (get r (payload_key om) = Some source)) eqn:Esrc; cbn [negb snd].
  2:{ clear Esrc. destruct (get r (payload_key om));
      (split; [|right; split; [done|left; split]]).
      all: try (intros k m' Hk; rewrite refresh_head_queue by done;
        rewrite ?zscore_zadd_xx, ?zscore_zrem; case_decide; naive_solver).
      all: apply index_but_refresh; [done|].
      - by apply index_but_zadd_xx, heads_index_but.
      - by apply heads_index_but, heads_index_zrem. }
  destruct (String.eqb om m) eqn:Em; [apply String.eqb_eq in Em|apply String.eqb_neq in Em]; cbn [snd].
  { split; [by apply (heads_index_ext r); [intros; apply zscore_set|]|].
    left. intros k m' _. apply zscore_set. }
  fold migrate_set. fold (live_owner r).
  destruct (migrate_payload _ _ _ _ _) as [np|]; [|by eauto].
  set (r1 := del (payload_key om) _).
  assert (Hz1 : forall k m', zscore r1 k m' = zscore r k m').
  { intros k m'. subst r1. rewrite zscore_del. destruct (bool_decide (get r (payload_key m) = Some np)); by rewrite ?zscore_set. }
  assert (Hi1 : heads_index r1) by by apply (heads_index_ext r).
  set (q := match live_owner r with Some q => q | None => key_for m end).
  destruct (migrate_queues_frame migrate_set q om m r1) as (Hz & Hd & Hi2);
    [intros k; by apply migrate_set_keys|].
  destruct (migrate_queues migrate_set q om m r1) as [dirty r2]. cbn [fst snd] in *.
  assert (Hdk : forall k, k ∈ dirty -> k ∈ keys) by (intros k Hk; by apply migrate_set_keys, Hd).
  specialize (Hi2 Hi1). subst q.
  destruct (live_owner r) as [q|] eqn:Elo; cbn [snd].
  - split; [|right; split; [done|right; split; [done|]]].
    + apply refresh_heads_index; [done|apply Hi2|]. intros k Hk. right. by apply Hi2.
    + intros k m' Hk. rewrite refresh_heads_queue, Hz, Hz1 by done.
      assert (k ∈ migrate_set) by by apply migrate_set_keys. repeat case_decide; naive_solver.
  - split; [|right; split; [done|right; split; [done|]]].
    + apply refresh_heads_index.
      * intros k Hk. apply elem_of_app in Hk as [Hk|Hk]; [by apply Hdk|]; apply list_elem_of_singleton in Hk; by subst.
      * by apply (index_but_zadd (key_for m)), heads_index_but.
      * intros k Hk. destruct (decide (k = key_for m)) as [->|Hne]; [left; set_solver|right].
        by apply (index_but_zadd (key_for m)); [|apply heads_index_but|..].
    + intros k m' Hk. rewrite refresh_heads_queue, zscore_zadd, Hz, Hz1 by done.
      assert (k ∈ migrate_set) by by apply migrate_set_keys.
      repeat case_decide; naive_solver.
Qed.
End Migrate.
(** ** Interleavings *)

Section Interleaving.
Context (decode : string -> option queuedProxy) (cjson_encode : queuedProxy -> string) (encrypted : bool).
Notation run := (run keys key_for decode cjson_encode encrypted).
Notation run_all := (run_all keys key_for decode cjson_encode encrypted).

Definition wf (r : R) : Prop := heads_index r /\ placed_once r.

Lemma run_wf s r : script_ok s -> wf r -> wf (run s r).
Proof.
  intros Hok [Hi Hp]. destruct s as [now lease|m due payload|old m expected next payload snapshot
    |q m expected now renewed|q m expected snapshot|k|q m|q dues|oq om m expected now payload source| |v];
    cbn [ProxyLease.run script_ok] in *.
  - destruct (pop_frame now lease r Hi) as (Hi' & _ & Hz). split; [done|].
    apply (placed_once_shrink r); [|done]. intros k m Hk Hne.
    destruct (Hz k m Hk) as [He|(s & He & _)]; congruence.
  - split; [by apply add_index|]. apply (placed_once_move r _ m (add_queue m r)); [| | |done].
    + unfold add_queue. destruct (find_lease _ m r) as [[q s]|] eqn:E; [|by left].
      apply find_lease_Some in E as (Hq & Hs & _). apply (Hp m q s); [|done].
      apply elem_of_cons in Hq as [->|]; done.
    + intros k Hk Hne. rewrite add_frame by done. by rewrite decide_True, decide_False.
    + intros k m' Hk Hne. rewrite add_frame by done. by rewrite decide_False.
  - destruct (complete_frame decode cjson_encode old m expected next payload snapshot r Hok Hi) as (Hi' & Hz).
    split; [done|]. destruct Hz as [->|[Hx Hz]]; [done|].
    apply (placed_once_move r _ m (key_for m)); [by left| | |done].
    + intros k Hk Hne. rewrite Hz, decide_True, decide_False by done. case_decide as Hd; [done|].
      destruct (zscore r k m) as [s|] eqn:E; [|done]. destruct (Hp m k s Hk E) as [[?|?] _]; naive_solver.
    + intros k m' Hk Hne. by rewrite Hz, decide_False.
  - destruct Hok as [Hq Hle]. destruct (renew_frame q m expected now renewed r Hq Hle Hi) as (Hi' & Hz).
    split; [done|]. destruct Hz as [->|[Hx Hz]]; [done|]. apply (placed_once_shrink r); [|done].
    intros k m' Hk. rewrite Hz. case_decide; naive_solver.
  - destruct (remove_frame q m expected snapshot r Hok Hi) as (Hi' & Hz).
    split; [done|]. destruct Hz as [->|[_ Hz]]; [done|]. apply (placed_once_shrink r); [|done].
    intros k m' Hk. rewrite Hz by done. by case_decide.
  - split; [apply (heads_index_ext r); [intros; apply zscore_del|done]|].
    apply (placed_once_shrink r); [|done]. intros k' m Hk. by rewrite zscore_del.
  - split; [by apply heads_index_zrem|]. apply (placed_once_shrink r); [|done].
    intros k m' Hk. rewrite zscore_zrem. by case_decide.
  - destruct (requeue_all_frame q dues r Hok Hi) as (Hi' & _ & Hz). split; [done|].
    apply (placed_once_shrink r); [|done]. intros k m Hk.
    destruct (Hz k m Hk) as [->|(s & d & _ & -> & _)]; [done|]. discriminate.
  - fold (migrate decode cjson_encode encrypted oq om m expected now payload source r).
    destruct (migrate_frame decode cjson_encode encrypted oq om m expected now payload source r Hok Hi)
      as (Hi' & [Hz|(Hf & [[_ Hsh]|[Hne Hz]])]); (split; [done|]).
    + apply (placed_once_shrink r); [|done]. intros k m' Hk. by rewrite Hz.
    + by apply (placed_once_shrink r).
    + set (tgt := match live_owner oq m now r with Some q => q | None => key_for m end).
      apply (placed_once_move r _ m tgt); [| | |done].
      * subst tgt. destruct (live_owner oq m now r) as [q|] eqn:E; [|by left].
        apply live_owner_Some in E as (Hq & s & Hs & _); [|done]. by apply (Hp m q s).
      * intros k Hk Hn. rewrite Hz by done. subst tgt. destruct (live_owner oq m now r); repeat case_decide; done.
      * intros k m' Hk Hn. rewrite Hz by done. repeat case_decide; done.
  - split; [|apply (placed_once_shrink r); [|done]; intros k m Hk; by rewrite refresh_heads_queue].
    apply refresh_heads_index; [done|apply Hi|]. intros q Hq. by left.
  - split; [apply (heads_index_ext r); [intros; apply zscore_set|done]|].
    apply (placed_once_shrink r); [|done]. intros k' m Hk. by rewrite zscore_set.
Qed.

Lemma run_all_wf l r : Forall script_ok l -> wf r -> wf (run_all l r).
Proof.
  unfold ProxyLease.run_all. intros Hl. revert r. induction Hl as [|s l Hs Hl IH]; intros r Hw; cbn; [done|].
  apply IH. by apply run_wf.
Qed.

(** The scripts of other actors while [m] is leased in [q] until [L]: workers
    with other leases, before the expiry, and administrators who do not
    delete [m]. *)
Definition foreign (q m : string) (L : Z) (s : script) : Prop :=
  match s with
  | SPop now _ => now <= L
  | SComplete q' m' expected _ _ _ | SRemove q' m' expected _ =>
      m' = m -> 0 < expected /\ (q', expected) <> (q, L)
  | SRenew q' m' expected _ _ => m' = m -> (q', expected) <> (q, L)
  | SZrem _ m' => m' <> m
  | SMigrate q' om m' expected now _ _ =>
      (om = m -> (q', expected) <> (q, L)) /\ (m' = m -> now <= L)
  | SAdd _ _ _ | SDel _ | SRequeueAll _ _ | SRefresh | SState _ => True
  end.

Lemma lease_inj a b : lease_score a = lease_score b -> a = b.
Proof. unfold lease_score. lia. Qed.

Lemma held_score q m L r q' s : held q m L r -> q' ∈ keys -> zscore r q' m = Some s ->
  q' = q /\ s = lease_score L.
Proof.
  intros (Hq & Hs & Ho) Hq' He. destruct (decide (q' = q)) as [->|Hne]; [split; [done|congruence]|].
  by rewrite Ho in He.
Qed.

Lemma held_ext q m L r r' : (forall k, k ∈ keys -> zscore r' k m = zscore r k m) ->
  held q m L r -> held q m L r'.
Proof.
  intros He (Hq & Hs & Ho). split; [done|]. split; [by rewrite He|]. intros q' Hq' Hne.
  rewrite He by done. by apply Ho.
Qed.

Lemma run_held_migrate q m L oq om m' expected now payload source r :
  oq ∈ keys -> wf r -> (om = m -> (oq, expected) <> (q, L)) -> (m' = m -> now <= L) ->
  held q m L r -> held q m L (migrate decode cjson_encode encrypted oq om m' expected now payload source r).
Proof.
  intros Hoq [Hi Hp] Hf1 Hf2 Hh. pose proof (held_score q m L r) as Hu.
  destruct (migrate_frame decode cjson_encode encrypted oq om m' expected now payload source r Hoq Hi)
    as (_ & [Hz|(Hs & Hz)]).
  { apply (held_ext q m L r); [|done]. intros k Hk. by apply Hz. }
  assert (Hom : om <> m).
  { intros ->. destruct (Hu oq (lease_score expected) Hh Hoq Hs) as [-> He].
    apply Hf1; [done|]. by rewrite (lease_inj _ _ He). }
  destruct Hz as [[Hz _]|[_ Hz]].
  { apply (held_ext q m L r); [|done]. intros k Hk. destruct (Hz k m Hk) as [|[_ ?]]; [done|congruence]. }
  destruct (decide (m' = m)) as [->|Hne].
  2:{ apply (held_ext q m L r); [|done]. intros k Hk. rewrite Hz by done. by rewrite !decide_False by congruence. }
  assert (Hlo : live_owner oq m now r = Some q).
  { destruct (live_owner oq m now r) as [q1|] eqn:E.
    - apply live_owner_Some in E as (Hq1 & s & Hs1 & _); [|done]. f_equal. by apply (Hu q1 s).
    - unfold live_owner in E. apply first_match_None in E. rewrite Forall_forall in E.
      destruct Hh as (Hq & Hs1 & _). specialize (E q). rewrite Hs1, is_lease_lease in E.
      rewrite (proj2 (Z.ltb_lt _ _)) in E by (unfold due_score, lease_score; specialize (Hf2 eq_refl); lia).
      discriminate E. by apply migrate_set_keys. }
  destruct Hh as (Hq & Hs1 & Ho). split; [done|].
  split; [|intros k Hk Hne]; rewrite Hz, decide_False, decide_True, Hlo by done.
  - by rewrite decide_True.
  - by rewrite decide_False.
Qed.

Lemma run_held q m L s r : script_ok s -> wf r -> foreign q m L s -> held q m L r -> held q m L (run s r).
Proof.
  intros Hok [Hi Hp] Hf Hh. pose proof (held_score q m L r) as Hu.
  destruct s as [now lease|m' due payload|old m' expected next payload snapshot
    |q' m' expected now renewed|q' m' expected snapshot|k|q' m'|q' dues|oq om m' expected now payload source| |v];
    cbn [ProxyLease.run script_ok foreign] in *.
  - destruct (pop_frame now lease r Hi) as (_ & _ & Hz). apply (held_ext q m L r); [|done].
    intros k Hk. destruct (Hz k m Hk) as [|(s & Hs & Hle & _)]; [done|].
    destruct (Hu k s Hh Hk Hs) as [_ ->]. unfold lease_score, due_score in Hle. lia.
  - destruct (decide (m' = m)) as [->|Hne].
    2:{ apply (held_ext q m L r); [|done]. intros k Hk. rewrite add_frame by done. by rewrite decide_False. }
    assert (Hadd : add_queue m r = q).
    { unfold add_queue. destruct (find_lease (key_for m :: keys) m r) as [[q1 s1]|] eqn:E.
      - apply find_lease_Some in E as (Hq1 & Hs1 & _).
        apply (Hu q1 s1); [done| |done]. apply elem_of_cons in Hq1 as [->|]; done.
      - unfold find_lease in E. apply first_match_None in E. rewrite Forall_forall in E.
        destruct Hh as (Hq & Hs & _). specialize (E q). rewrite Hs in E. cbn in E.
        rewrite is_lease_lease in E. discriminate E. by right. }
    destruct Hh as (Hq & Hs & Ho). split; [done|].
    split; [|intros k Hk Hne]; rewrite add_frame, decide_True, Hadd by done.
    + by rewrite decide_True, Hs.
    + by rewrite decide_False.
  - destruct (complete_frame decode cjson_encode old m' expected next payload snapshot r Hok Hi)
      as (_ & [->|[Hx Hz]]); [done|].
    apply (held_ext q m L r); [|done]. intros k Hk. rewrite Hz by done. rewrite decide_False; [done|].
    intros <-. destruct (Hf eq_refl) as [Hp0 Hn]. destruct (Hu old (lease_score expected) Hh Hok (Hx Hp0)) as [-> He].
    apply Hn. by rewrite (lease_inj _ _ He).
  - destruct Hok as [Hq' Hle]. destruct (renew_frame q' m' expected now renewed r Hq' Hle Hi) as (_ & [->|[Hx Hz]]); [done|].
    apply (held_ext q m L r); [|done]. intros k Hk. rewrite Hz. rewrite decide_False; [done|].
    intros [<- ->]. destruct (Hu q' (lease_score expected) Hh Hq' Hx) as [-> He].
    apply Hf; [done|]. by rewrite (lease_inj _ _ He).
  - destruct (remove_frame q' m' expected snapshot r Hok Hi) as (_ & [->|[Hx Hz]]); [done|].
    apply (held_ext q m L r); [|done]. intros k Hk. rewrite Hz by done. rewrite decide_False; [done|].
    intros [<- _]. destruct (Hf eq_refl) as [Hp0 Hn].
    destruct (Hu q' (lease_score expected) Hh Hok (Hx Hp0)) as [-> He].
    apply Hn. by rewrite (lease_inj _ _ He).
  - apply (held_ext q m L r); [|done]. intros; apply zscore_del.
  - apply (held_ext q m L r); [|done]. intros k Hk. rewrite zscore_zrem, decide_False; [done|]. naive_solver.
  - destruct (requeue_all_frame q' dues r Hok Hi) as (_ & _ & Hz). apply (held_ext q m L r); [|done].
    intros k Hk. destruct (Hz k m Hk) as [|(s & d & -> & Hs & Hl & _)]; [done|].
    destruct (Hu q' s Hh Hok Hs) as [_ ->]. by rewrite is_lease_lease in Hl.
  - destruct Hf as [Hf1 Hf2]. exact (run_held_migrate q m L oq om m' expected now payload source r Hok (conj Hi Hp) Hf1 Hf2 Hh).
  - apply (held_ext q m L r); [|done]. intros k Hk. by rewrite refresh_heads_queue.
  - apply (held_ext q m L r); [|done]. intros; apply zscore_set.
Qed.
Lemma run_all_held q m L l r : Forall script_ok l -> Forall (foreign q m L) l -> wf r ->
  held q m L r -> wf (run_all l r) /\ held q m L (run_all l r).
Proof.
  unfold ProxyLease.run_all. intros Hl. revert r. induction Hl as [|s l Hs Hl IH]; intros r Hf Hw Hh; cbn; [done|].
  apply Forall_cons in Hf as [Hfs Hf]. apply IH; [done|by apply run_wf|by apply run_held].
Qed.

(** A claim leaves the member leased. *)
Lemma claim_held now lease r m data sc q : wf r ->
  (pop_script now lease r).1 = LSlice [LInt64 1; LString m; LString data; sc; LString q] ->
  held q m (now + lease) (pop_script now lease r).2.
Proof.
  intros [Hi Hp] Hr. unfold pop_script in *. destruct (pop_loop_spec 8 now lease r Hi) as (r1 & Hi1 & Hd & Hg & Ho).
  destruct (pop_loop 8 now lease r) as [rep r']. cbn [fst snd] in *. subst rep.
  inversion Ho as [| |q' m' data' s Hq Hs Hle Hdata Hmin]; subst.
  assert (Hp1 : placed_once r1).
  { apply (placed_once_shrink r); [|done]. intros k m' Hk. destruct (Hd k m' Hk) as [->|(-> & _)]; done. }
  split; [done|]. split.
  - by rewrite refresh_head_queue, zscore_zadd, decide_True.
  - intros k Hk Hne. rewrite refresh_head_queue, zscore_zadd, decide_False by first [done | intros [He _]; congruence].
    by apply (Hp1 m q s).
Qed.

(** While [m] is leased no pop takes it. *)
Lemma held_not_popped q m L now lease r m' data sc q' : wf r -> held q m L r -> now <= L ->
  (pop_script now lease r).1 = LSlice [LInt64 1; LString m'; LString data; sc; LString q'] -> m' <> m.
Proof.
  intros [Hi Hp] Hh Hle Hr ->. unfold pop_script in *.
  destruct (pop_loop_spec 8 now lease r Hi) as (r1 & Hi1 & Hd & Hg & Ho).
  destruct (pop_loop 8 now lease r) as [rep r']. cbn [fst snd] in *. subst rep.
  inversion Ho as [| |q1 m1 data1 s Hq Hs Hdue Hdata Hmin]; subst.
  destruct (Hd q' m Hq) as [He|(He & _)]; [|congruence]. rewrite He in Hs.
  destruct (held_score q m L r q' s Hh Hq Hs) as [_ ->]. unfold lease_score, due_score in Hdue. lia.
Qed.

(** C10. The queue stays well formed under every interleaving of its scripts:
    the head index never exceeds the earliest score of a queue and names only
    queues of the deployment, and every member waits in one queue only. *)
Theorem queue_wf_invariant l r : Forall script_ok l -> wf r -> wf (run_all l r).
Proof. apply run_all_wf. Qed.

(** A pop that finds nothing due tells the truth: unless it replies that it
    does not know ([-1]), every route left in any queue is due later than now,
    and none before the reported instant; every route with a stored payload is
    still where it was. *)
Theorem pop_idle_sound now lease r n r' : wf r ->
  pop_script now lease r = (none_reply n, r') ->
  (n <> -1 -> forall k m s, k ∈ keys -> zscore r' k m = Some s -> due_score now < s /\ n <= floor_ms s) /\
  (forall k m, k ∈ keys -> get r (payload_key m) <> None -> zscore r' k m = zscore r k m).
Proof.
  intros [Hi _] Hr. unfold pop_script in Hr. destruct (pop_loop_spec 8 now lease r Hi) as (r1 & _ & Hd & _ & Ho).
  rewrite Hr in Ho. cbn [fst snd] in Ho. assert (r' = r1 /\ (n <> -1 -> forall k m s, k ∈ keys ->
    zscore r1 k m = Some s -> due_score now < s /\ n <= floor_ms s)) as [-> Hn].
  { clear Hr. remember (none_reply n) as rep eqn:E. destruct Ho; unfold none_reply in E; simplify_eq; split; eauto; done. }
  split; [done|]. intros k m Hk Hg. destruct (Hd k m Hk) as [|(_ & ? & _)]; [done|contradiction].
Qed.

(** A pop that claims a route claims the earliest: the reply parses as the
    claim, the route was due, its payload is returned, no route with a payload
    in any queue was due before it, and it is now leased, in its queue only,
    for the requested time. *)
Theorem pop_claims_earliest now lease r popped r' : wf r ->
  pop_script now lease r = (popped, r') ->
  match parseProxyPopResult popped with
  | Some res =>
      Found res = true ->
      exists s, zscore r (PopQueueKey res) (Member res) = Some s /\ s <= due_score now /\
        ScoreMs res = floor_ms s /\ get r (payload_key (Member res)) = Some (ProxyJSON res) /\
        (forall k m' s', k ∈ keys -> get r (payload_key m') <> None -> zscore r k m' = Some s' -> s <= s') /\
        held (PopQueueKey res) (Member res) (now + lease) r'
  | None => False
  end.
Proof.
  intros Hw Hr. pose proof (claim_held now lease r) as Hc. rewrite Hr in Hc. cbn [fst snd] in Hc.
  destruct Hw as [Hi Hp]. unfold pop_script in Hr. destruct (pop_loop_spec 8 now lease r Hi) as (r1 & _ & Hd & Hg & Ho).
  rewrite Hr in Ho. cbn [fst snd] in Ho.
  inversion Ho as [| |q m data s Hq Hs Hle Hdata Hmin]; subst;
    cbn [parseProxyPopResult none_reply coerceLuaInt64 coerceLuaString Z.eqb option_map Found]; try done.
  intros _. cbn [PopQueueKey Member ScoreMs ProxyJSON]. exists s.
  destruct (Hd q m) as [He|(He & _)]; [done| |congruence].
  split; [congruence|]. split; [done|]. split; [done|]. split; [by rewrite <- Hg|].
  split; [|by eapply Hc]. intros k m' s' Hk Hgm Hs'. apply (Hmin k m' s' Hk).
  destruct (Hd k m' Hk) as [->|(_ & ? & _)]; done.
Qed.

(** C1. A lease is exclusive until it expires.  After a worker claims a route,
    whatever other workers and administrators do up to the expiry - dequeues,
    imports, bulk rescheduling, migrations, completions, renewals and removals
    with other leases, payload deletions - no dequeue takes the route again,
    and the worker can still renew the lease, and complete the check. *)
Theorem lease_exclusive now lease r m data sc q l :
  wf r -> Forall script_ok l -> Forall (foreign q m (now + lease)) l ->
  (pop_script now lease r).1 = LSlice [LInt64 1; LString m; LString data; sc; LString q] ->
  let r2 := run_all l (pop_script now lease r).2 in
  (forall now' lease' m' data' sc' q', now' <= now + lease ->
     (pop_script now' lease' r2).1 = LSlice [LInt64 1; LString m'; LString data'; sc'; LString q'] ->
     m' <> m) /\
  (forall now' renewed, now' < now + lease ->
     (renew_script q m (now + lease) now' renewed r2).1 = renewed) /\
  (forall next, exists r3,
     complete_script decode cjson_encode (key_for m) legacyQueueKey (payload_key m) q m
       (now + lease) next "" "" r2 = (Some 1, r3) /\
     zscore r3 (key_for m) m = Some (due_score next)).
Proof.
  intros Hw Hok Hf Hr r2. pose proof (claim_held _ _ _ _ _ _ _ Hw Hr) as Hh.
  destruct (run_all_held q m (now + lease) l (pop_script now lease r).2) as [Hw2 Hh2]; [done|done| |done|].
  { exact (run_wf (SPop now lease) r I Hw). }
  fold r2 in Hw2, Hh2. pose proof Hh2 as (Hq & Hs & _). split; [|split].
  - intros now' lease' m' data' sc' q' Hle Hp. by eapply held_not_popped.
  - intros now' renewed Hlt. unfold renew_script. rewrite bool_decide_eq_true_2 by done.
    rewrite (proj2 (Z.leb_gt _ _)) by done. done.
  - intros next. unfold complete_script. rewrite (bool_decide_eq_true_2 _ Hs), andb_false_r. cbn [String.eqb].
    eexists. split; [reflexivity|]. rewrite zscore_zadd_lt, decide_False by (intros [He _]; by apply head_not_key; rewrite He).
    by rewrite zscore_zadd, decide_True.
Qed.

(** Stale workers are fenced.  Once a route is claimed again, completing,
    renewing or removing it with any other lease is refused and changes
    nothing. *)
Theorem stale_worker_fenced now lease r m data sc q q0 L0 :
  wf r -> q0 ∈ keys -> 0 < L0 -> (q0, L0) <> (q, now + lease) ->
  (pop_script now lease r).1 = LSlice [LInt64 1; LString m; LString data; sc; LString q] ->
  let r2 := (pop_script now lease r).2 in
  (forall next payload snapshot,
     complete_script decode cjson_encode (key_for m) legacyQueueKey (payload_key m) q0 m
       L0 next payload snapshot r2 = (Some 0, r2)) /\
  (forall now' renewed, renew_script q0 m L0 now' renewed r2 = (0, r2)) /\
  (forall snapshot, remove_script (payload_key m) q0 legacyQueueKey m L0 snapshot r2 = (0, r2)).
Proof.
  intros Hw Hq0 HL Hne Hr r2. pose proof (claim_held _ _ _ _ _ _ _ Hw Hr) as Hh. fold r2 in Hh.
  assert (Hx : zscore r2 q0 m <> Some (lease_score L0)).
  { intros Hx. destruct (held_score _ _ _ _ _ _ Hh Hq0 Hx) as [-> He]. apply lease_inj in He. by subst. }
  assert (Hlt : (0 <? L0) = true) by by apply Z.ltb_lt.
  unfold complete_script, renew_script, remove_script.
  rewrite (bool_decide_eq_false_2 _ Hx), Hlt. cbn [negb andb orb]. done.
Qed.
End Interleaving.
End Index.
(** ** A concrete deployment *)

Definition demo_keys : list string := [legacyQueueKey; "proxy_queue:0"].
Definition demo_for (m : string) : string := "proxy_queue:0".
Definition demo_decode (s : string) : option queuedProxy := None.
Definition demo_encode (p : queuedProxy) : string := "".
Definition demo_run : list script -> MemRedis -> MemRedis :=
  run_all demo_keys demo_for demo_decode demo_encode false.
Definition empty_redis : MemRedis := MkRedis ∅ ∅.
Definition demo_state : MemRedis := demo_run [SAdd "a" 100 "pa"; SAdd "b" 300 "pb"] empty_redis.

#[export] Instance demo_layout : QueueLayout demo_keys demo_for.
Proof. split; [intros m; right; by left|vm_compute|by left]. intros Hin. repeat (apply elem_of_cons in Hin as [?|Hin]; [done|]). inversion Hin. Qed.

Lemma empty_wf keys key_for : wf keys key_for empty_redis.
Proof. split; [split|]; [intros q h|intros q _ m s|intros m q s _]; cbn; unfold zset; cbn; by rewrite !lookup_empty. Qed.

Lemma demo_state_wf : wf demo_keys demo_for demo_state.
Proof. apply run_all_wf; [apply _..|forall_list; done|apply empty_wf]. Qed.

Lemma queue_wf_invariant_witness : wf demo_keys demo_for (demo_run [SPop 1000 5000; SRefresh] demo_state).
Proof.
  apply (queue_wf_invariant demo_keys demo_for demo_decode demo_encode false); [forall_list; done|apply demo_state_wf].
Defined.

Lemma pair_fst {A B} (p : A * B) a : p.1 = a -> p = (a, p.2).
Proof. destruct p. by intros <-. Qed.

Lemma pop_idle_sound_witness :
  due_score 50 < due_score 300 /\ 100 <= floor_ms (due_score 300).
Proof.
  apply (proj1 (pop_idle_sound demo_keys demo_for 50 5000 demo_state 100 (pop_script 50 5000 demo_state).2
    demo_state_wf (pair_fst _ _ ltac:(vm_compute; reflexivity))) ltac:(discriminate) "proxy_queue:0" "b").
  - right. by left.
  - vm_compute. reflexivity.
Defined.

Lemma pop_claims_earliest_witness : exists s,
  zscore demo_state "proxy_queue:0" "a" = Some s /\ s <= due_score 1000.
Proof.
  pose proof (pop_claims_earliest demo_keys demo_for 1000 5000 demo_state _ _ demo_state_wf
    (surjective_pairing (pop_script 1000 5000 demo_state))) as Hw.
  assert (parseProxyPopResult (pop_script 1000 5000 demo_state).1 =
    Some (MkPop true "a" "pa" 100 (-1) "proxy_queue:0")) as Hr by (vm_compute; reflexivity).
  rewrite Hr in Hw. destruct (Hw eq_refl) as (s & Hs & Hle & _). exists s. exact (conj Hs Hle).
Defined.

(** Between claim and completion: an import of the same route, another
    worker's dequeue, bulk rescheduling, a stale completion. *)
Lemma lease_exclusive_witness :
  let r1 := (pop_script 1000 5000 demo_state).2 in
  let r2 := demo_run [SAdd "a" 2000 "pa2"; SPop 1500 5000; SRequeueAll "proxy_queue:0" [("a", 0)];
                      SComplete "proxy_queue:0" "a" 77 0 "" ""] r1 in
  zscore r2 "proxy_queue:0" "a" = Some (lease_score 6000) /\
  exists r3, complete_script demo_decode demo_encode (demo_for "a") legacyQueueKey (payload_key "a")
    "proxy_queue:0" "a" 6000 9000 "" "" r2 = (Some 1, r3) /\
    zscore r3 "proxy_queue:0" "a" = Some (due_score 9000).
Proof.
  intros r1 r2. split; [vm_compute; reflexivity|].
  apply (lease_exclusive demo_keys demo_for demo_decode demo_encode false 1000 5000 demo_state "a" "pa"
    (LInt64 100) "proxy_queue:0"
    [SAdd "a" 2000 "pa2"; SPop 1500 5000; SRequeueAll "proxy_queue:0" [("a", 0)];
     SComplete "proxy_queue:0" "a" 77 0 "" ""]).
  - apply demo_state_wf.
  - forall_list; cbn; try done; right; by left.
  - forall_list; cbn; try done.
  - vm_compute. reflexivity.
Defined.

Lemma stale_worker_fenced_witness :
  let r2 := (pop_script 1000 5000 demo_state).2 in
  renew_script "proxy_queue:0" "a" 900 950 9000 r2 = (0, r2).
Proof.
  apply (stale_worker_fenced demo_keys demo_for demo_decode demo_encode 1000 5000 demo_state "a" "pa"
    (LInt64 100) "proxy_queue:0" "proxy_queue:0" 900).
  - apply demo_state_wf.
  - right. by left.
  - lia.
  - vm_compute. discriminate.
  - vm_compute. reflexivity.
Defined.
End ProxyLease.
