(* ===== verification/ProxyOps.v ===== *)
(** * The proxy queue's operations, as scripts and end to end

    Every Go operation of the queue acts on the server only through the scripts
    of [ProxyLease], so its invariants and the exclusivity of leases hold of any
    interleaving of operations too; administrative operations keep every lease;
    a dequeue returns a route its caller holds; checks are spread over the
    interval. *)

From S2P Require Import Prelude GoStrings ProxyModel Redis ProxyQueue ProxyQueueFacts ProxyLease.
Open Scope Z_scope.

Module ProxyOps.
Import ProxyModel ProxyQueue ProxyQueueFacts ProxyLease.

Section Operations.
Context {R : Type} `{RedisLaws R}.
Context (toASCII : string -> option string).
Context (FingerprintProxyRoute : string -> Z -> string -> string -> option string).
Context (EncryptProxySecret DecryptProxySecret : string -> option string).
Context (encrypted : bool).
Context (json_encode cjson_encode : queuedProxy -> string).
Context (decode : string -> option queuedProxy).
Context (configured_shards : Z).

Definition shards : list string := NewRedisProxyQueue configured_shards.
Notation keys := (pop_keys shards).
Notation key_for := (key_for shards).
Notation run := (run keys key_for decode cjson_encode encrypted).
Notation run_all := (run_all keys key_for decode cjson_encode encrypted).
Notation marshal := (marshal EncryptProxySecret encrypted json_encode).
Notation to_domain := (to_domain toASCII FingerprintProxyRoute DecryptProxySecret).

#[local] Instance shards_layout : QueueLayout keys key_for.
Proof.
  split.
  - intros m. destruct (shard_layout_aux configured_shards m) as (_ & _ & _ & Hm). right. exact Hm.
  - apply (shard_layout_aux configured_shards "").
  - by left.
Qed.

(** Leases name queues of the deployment, as those a dequeue returns. *)
Definition lease_ok (p : Proxy) : Prop :=
  match QueueLease p with Some lease => QueueKey lease ∈ keys | None => True end.

(** ** The operations *)

Inductive op :=
| OpAdd (interval now : Z) (proxies : list Proxy)
| OpRemove (proxies : list Proxy)
| OpNext (now now2 : Z)
| OpRequeue (configured : Z) (proxy : Proxy) (last now : Z) (persist : bool)
| OpRenew (proxy : Proxy) (now : Z)
| OpRequeueAll (configured now : Z)
| OpReschedule (interval : Z).

Definition op_ok (o : op) : Prop :=
  match o with
  | OpRemove proxies => Forall lease_ok proxies
  | OpRequeue _ proxy _ _ _ | OpRenew proxy _ => lease_ok proxy
  | _ => True
  end.

Definition exec (o : op) (r : R) : R :=
  match o with
  | OpAdd interval now proxies =>
      (AddToQueue EncryptProxySecret encrypted json_encode shards interval now proxies r).2
  | OpRemove proxies => (RemoveFromQueue shards proxies r).2
  | OpNext now now2 =>
      (GetNextProxyContext toASCII FingerprintProxyRoute EncryptProxySecret DecryptProxySecret
         encrypted json_encode cjson_encode decode shards now now2 r).2
  | OpRequeue configured proxy last now persist =>
      (requeueProxy EncryptProxySecret encrypted json_encode cjson_encode decode shards
         configured proxy last now persist r).2
  | OpRenew proxy now => (RenewLeaseIfNeeded proxy now r).2
  | OpRequeueAll configured now => (RequeueAll shards configured now r).2
  | OpReschedule interval => Reschedule shards interval r
  end.

(** Operations that take no lease: imports and bulk scheduling. *)
Definition administrative (o : op) : Prop :=
  match o with OpAdd _ _ _ | OpRequeueAll _ _ | OpReschedule _ => True | _ => False end.

Definition admin_script (s : script) : Prop :=
  match s with SAdd _ _ _ | SRequeueAll _ _ | SRefresh | SState _ => True | _ => False end.

(** [r'] is [r] after scripts satisfying [P]. *)
Definition by_scripts (P : script -> Prop) (r r' : R) : Prop :=
  exists l, Forall (script_ok keys) l /\ Forall P l /\ r' = run_all l r.

Lemma by_scripts_refl P r : by_scripts P r r.
Proof. by exists []. Qed.

Lemma by_scripts_one (P : script -> Prop) s r : script_ok keys s -> P s -> by_scripts P r (run s r).
Proof. exists [s]. by rewrite !Forall_singleton. Qed.

Lemma by_scripts_trans P a b c : by_scripts P a b -> by_scripts P b c -> by_scripts P a c.
Proof.
  intros (l1 & Ho1 & Hp1 & ->) (l2 & Ho2 & Hp2 & ->). exists (l1 ++ l2).
  rewrite !Forall_app. unfold ProxyLease.run_all. by rewrite fold_left_app.
Qed.

Lemma by_scripts_weaken (P Q : script -> Prop) r r' : (forall s, P s -> Q s) ->
  by_scripts P r r' -> by_scripts Q r r'.
Proof. intros Hpq (l & Ho & Hp & ->). exists l. split; [done|]. split; [|done]. by eapply Forall_impl. Qed.

(** A pipeline of scripts runs them in order. *)
Lemma by_scripts_pipe (P : script -> Prop) pipe r :
  Forall (fun c => forall r, by_scripts P r (c r)) pipe -> by_scripts P r (fold_left (fun r c => c r) pipe r).
Proof.
  intros Hf. revert r. induction Hf as [|c pipe Hc Hf IH]; intros r; cbn; [apply by_scripts_refl|].
  eapply by_scripts_trans; [apply Hc|apply IH].
Qed.

Lemma add_loop_scripts interval now n i l pipe r :
  Forall (fun c => forall r, by_scripts admin_script r (c r)) pipe ->
  by_scripts admin_script r
    (add_loop EncryptProxySecret encrypted json_encode shards interval now n i l pipe r).2.
Proof.
  revert i pipe r. induction l as [|p l IH]; intros i pipe r Hp; cbn [add_loop]; [by apply by_scripts_pipe|].
  destruct (marshal p) as [payload|]; [|apply by_scripts_refl].
  assert (Hp' : Forall (fun c => forall r, by_scripts admin_script r (c r))
                  (pipe ++ [add_command shards interval now n i p payload])).
  { apply Forall_app. split; [done|]. apply Forall_singleton. intros r'.
    exact (by_scripts_one admin_script (SAdd (Hash p) (UnixMilli (now + spread_offset interval i n)) payload) r' I I). }
  destruct (_ && _); cbn [snd]; [|by apply IH].
  eapply by_scripts_trans; [by apply by_scripts_pipe|]. by apply IH.
Qed.

Lemma remove_loop_scripts l n pipe r : Forall lease_ok l ->
  Forall (fun c => forall r, by_scripts (fun _ => True) r (c r)) pipe ->
  by_scripts (fun _ => True) r (remove_loop shards l n pipe r).2.
Proof.
  intros Hl. revert n pipe r. induction Hl as [|p l Hok Hl IH]; intros n pipe r Hp; cbn [remove_loop];
    [by apply by_scripts_pipe|].
  destruct (String.eqb (Hash p) ""); [by apply IH|]. cbn zeta. unfold lease_ok in Hok.
  destruct (QueueLease p) as [lease|].
  - assert (Hone := by_scripts_one (fun _ => True)
      (SRemove (QueueKey lease) (Hash p) (ScoreMS lease) (Payload lease)) r Hok I). cbn [ProxyLease.run] in Hone.
    unfold payload_key in Hone. destruct (remove_script _ _ _ _ _ _ r) as [removed r1]. cbn [snd] in Hone.
    destruct (removed =? 0); cbn [snd]; [done|]. eapply by_scripts_trans; [exact Hone|by apply IH].
  - pose proof (layout_for (keys := keys) (key_for := key_for)) as Hfor.
    pose proof (layout_legacy (keys := keys) (key_for := key_for)) as Hleg.
    match goal with |- context [pipe ++ ?cmds] =>
      assert (Hp' : Forall (fun f => forall r, by_scripts (fun _ => True) r (f r)) (pipe ++ cmds)) end.
    { apply Forall_app. split; [done|].
      apply Forall_cons; split; [intros r'; exact (by_scripts_one (fun _ => True) (SDel (proxyKeyPrefix +:+ Hash p)) r' I I)|].
      apply Forall_cons; split; [intros r'; exact (by_scripts_one (fun _ => True) (SZrem (key_for (Hash p)) (Hash p)) r' (Hfor _) I)|].
      destruct (String.eqb _ _); [done|]. apply Forall_cons; split; [|done].
      intros r'; exact (by_scripts_one (fun _ => True) (SZrem legacyQueueKey (Hash p)) r' Hleg I). }
    destruct (500 <=? _); [|by apply IH].
    eapply by_scripts_trans; [by apply by_scripts_pipe|]. by apply IH.
Qed.

Lemma requeue_batches_scripts fuel q args r : q ∈ keys ->
  by_scripts admin_script r (requeue_batches fuel q args r).2.
Proof.
  intros Hq. revert args r. induction fuel as [|fuel IH]; intros args r; cbn [requeue_batches]; [apply by_scripts_refl|].
  destruct args as [|a args]; [apply by_scripts_refl|].
  assert (Hone := by_scripts_one admin_script (SRequeueAll q (take 500 (a :: args))) r Hq I). cbn [ProxyLease.run] in Hone.
  destruct (requeue_all_script _ _ r) as [n r1]. cbn [snd] in Hone.
  specialize (IH (drop 500 (a :: args)) r1). destruct (requeue_batches fuel q _ r1) as [n2 r2]. cbn [snd] in *.
  by eapply by_scripts_trans.
Qed.

Lemma requeue_keys_scripts interval now ks r : (forall k, k ∈ ks -> k ∈ keys) ->
  by_scripts admin_script r (requeue_keys interval now ks r).2.
Proof.
  revert r. induction ks as [|k ks IH]; intros r Hk; cbn [requeue_keys]; [apply by_scripts_refl|]. cbn zeta.
  assert (Hb := requeue_batches_scripts (S (length (requeue_args interval now (zcard r k) 0 (zrange r k).*1))) k
    (requeue_args interval now (zcard r k) 0 (zrange r k).*1) r (Hk k ltac:(by left))).
  destruct (requeue_batches _ _ _ r) as [n r1]. cbn [snd] in Hb.
  assert (Hks : forall k', k' ∈ ks -> k' ∈ keys) by (intros k' ?; apply Hk; by right).
  specialize (IH r1 Hks). destruct (requeue_keys interval now ks r1) as [t r2]. cbn [snd] in *.
  by eapply by_scripts_trans.
Qed.

Lemma admin_scripts o r : administrative o -> by_scripts admin_script r (exec o r).
Proof.
  intros Ha. destruct o as [interval now ps|ps|now now2|cf p la now pe|p now|cf now|interval]; try done; cbn [exec].
  - unfold AddToQueue. cbn zeta. destruct (filter _ ps); [apply by_scripts_refl|]. by apply add_loop_scripts.
  - unfold RequeueAll. cbn zeta.
    pose proof (requeue_keys_scripts (if getEffectiveCheckInterval cf r <=? 0 then Second else getEffectiveCheckInterval cf r)
      now keys r (fun k Hk => Hk)) as Hb.
    destruct (requeue_keys _ _ _ r) as [t r1]. cbn [snd] in *.
    eapply by_scripts_trans; [exact Hb|]. exact (by_scripts_one admin_script SRefresh r1 I I).
  - unfold Reschedule. eapply by_scripts_trans; [|exact (by_scripts_one admin_script SRefresh _ I I)].
    exact (by_scripts_one admin_script (SState _) r I I).
Qed.
(** ** Taking a route *)

Notation wf := (wf keys key_for).
Notation held := (held keys).

Lemma parse_claim now lease r : wf r ->
  exists res, parseProxyPopResult (pop_script now lease r).1 = Some res /\
    (Found res = true ->
       held (PopQueueKey res) (Member res) (now + lease) (pop_script now lease r).2 /\
       get (pop_script now lease r).2 (payload_key (Member res)) = Some (ProxyJSON res)).
Proof.
  intros Hw. 
  pose proof (claim_held keys key_for now lease r) as Hc.
  destruct (pop_loop_spec keys key_for 8 now lease r (proj1 Hw)) as (r1 & _ & _ & Hg & Ho).
  unfold pop_script in *. destruct (pop_loop 8 now lease r) as [rep r']. cbn [fst snd] in *.
  destruct Ho as [|n|q m data s Hq Hs Hle Hdata Hmin]; [eexists; split; [reflexivity|done]..|].
  eexists. split; [reflexivity|]. intros _. cbn. split; [by eapply Hc|]. by rewrite get_refresh_head, get_zadd.
Qed.

Lemma migrate_scripts pr p L now rw r :
  PopQueueKey pr ∈ keys ->
  by_scripts (fun _ => True) r
    (migrateDequeuedProxyMember toASCII FingerprintProxyRoute EncryptProxySecret DecryptProxySecret
       encrypted json_encode cjson_encode decode shards pr p L now rw r).2.
Proof.
  intros Hq. unfold migrateDequeuedProxyMember. cbn zeta.
  destruct (_ || _); [apply by_scripts_refl|]. destruct (_ && _); [apply by_scripts_refl|].
  destruct (marshal p) as [payload|]; [|apply by_scripts_refl].
  assert (Hone := by_scripts_one (fun _ => True)
    (SMigrate (PopQueueKey pr) (Member pr) (Hash p) L now payload (ProxyJSON pr)) r Hq I).
  cbn [ProxyLease.run] in Hone. unfold payload_key in Hone.
  destruct (migrate_script _ _ _ _ _ _ _ _ _ _ _ _ _ _ r) as [rep r1]. cbn [snd] in Hone.
  destruct rep as [current q| |]; [|done|done].
  repeat split_if; done.
Qed.

Lemma exec_scripts o r : op_ok o -> wf r -> by_scripts (fun _ => True) r (exec o r).
Proof.
  intros Ho Hw. destruct o as [interval now ps|ps|now now2|cf p la now pe|p now|cf now|interval];
    try by apply (by_scripts_weaken admin_script); [|apply admin_scripts].
  - by apply remove_loop_scripts.
  - cbn [exec]. unfold GetNextProxyContext. cbn zeta.
    destruct (parse_claim now (processingLease / Millisecond) r Hw) as (pr & Hpr & Hf).
    assert (Hone := by_scripts_one (fun _ => True) (SPop now (processingLease / Millisecond)) r I I).
    cbn [ProxyLease.run] in Hone. destruct (pop_script _ _ r) as [rep r1]. cbn [fst snd] in *.
    rewrite Hpr. destruct (Found pr) eqn:Efound; cbn [negb snd]; [|done].
    destruct (decode (ProxyJSON pr)) as [payload|]; cbn [snd]; [|done].
    destruct (to_domain payload) as [proxy|]; cbn [snd]; [|done].
    destruct (_ && _ && _); cbn [snd]; [done|].
    assert (Hm := migrate_scripts pr proxy (now + processingLease / Millisecond) now2
      (needsRewrite encrypted payload) r1 (proj1 (proj1 (Hf eq_refl)))).
    destruct (migrateDequeuedProxyMember _ _ _ _ _ _ _ _ _ _ _ _ _ _ r1) as [res r2]. cbn [snd] in Hm.
    eapply by_scripts_trans; [exact Hone|]. by destruct res as [[[pr' p']|]|].
  - cbn [exec op_ok] in *. unfold requeueProxy, lease_ok in *. cbn zeta.
    assert (Hq : (match QueueLease p with Some lease => QueueKey lease | None => key_for (Hash p) end) ∈ keys)
      by (destruct (QueueLease p); [done|apply layout_for]).
    destruct (QueueLease p) as [lease|]; destruct (if pe then _ else _) as [payload|] eqn:Ep;
      try apply by_scripts_refl.
    + assert (Hone := by_scripts_one (fun _ => True)
        (SComplete (QueueKey lease) (Hash p) (ScoreMS lease)
           (UnixMilli ((if la <? now then now else la) + getEffectiveCheckInterval cf r)) payload
           (if pe then Payload lease else "")) r Hq I). cbn [ProxyLease.run] in Hone. unfold payload_key in Hone.
      destruct (complete_script _ _ _ _ _ _ _ _ _ _ _ r) as [[c|] r1]; [destruct (c =? 0)|]; done.
    + assert (Hone := by_scripts_one (fun _ => True)
        (SComplete (key_for (Hash p)) (Hash p) 0
           (UnixMilli ((if la <? now then now else la) + getEffectiveCheckInterval cf r)) payload "") r Hq I).
      cbn [ProxyLease.run] in Hone. unfold payload_key in Hone.
      destruct (complete_script _ _ _ _ _ _ _ _ _ _ _ r) as [[c|] r1]; [destruct (c =? 0)|]; done.
  - cbn [exec op_ok] in *. unfold RenewLeaseIfNeeded, lease_ok in *.
    destruct (QueueLease p) as [lease|]; [|apply by_scripts_refl].
    destruct (_ <? _) eqn:E; [apply by_scripts_refl|]. breflect.
    assert (Hone := by_scripts_one (fun _ => True)
      (SRenew (QueueKey lease) (Hash p) (ScoreMS lease) now (now + processingLease / Millisecond)) r).
    cbn [ProxyLease.run script_ok] in Hone.
    destruct (renew_script _ _ _ _ _ r) as [n r1]. cbn [snd] in Hone.
    destruct (n =? 0); apply Hone; try done; split; try done;
      unfold processingLease, Minute, Second, Millisecond in *; Z.to_euclidean_division_equations; lia.
Qed.

Lemma exec_wf o r : op_ok o -> wf r -> wf (exec o r).
Proof. intros Ho Hw. destruct (exec_scripts o r Ho Hw) as (l & Hl & _ & ->). by apply (run_all_wf keys key_for). Qed.

(** C11. Refinement: whatever a Go operation of the queue does to the server, on
    every branch, is a sequence of the atomic scripts with admissible arguments;
    hence any sequence of operations of any number of workers keeps the queue
    well formed. *)
Theorem operations_refine_scripts ops r :
  Forall op_ok ops -> wf r ->
  exists l, Forall (script_ok keys) l /\
    fold_left (fun r o => exec o r) ops r = run_all l r /\ wf (run_all l r).
Proof.
  intros Hops. revert r. induction Hops as [|o ops Ho Hops IH]; intros r Hw; cbn [fold_left].
  { by exists []. }
  destruct (exec_scripts o r Ho Hw) as (l1 & Hl1 & _ & He). 
  destruct (IH (exec o r)) as (l2 & Hl2 & He2 & Hw2).
  { rewrite He. by apply (run_all_wf keys key_for). }
  exists (l1 ++ l2). rewrite Forall_app. unfold ProxyLease.run_all in *. rewrite fold_left_app, <- He. done.
Qed.

(** Imports, bulk rescheduling and interval changes never take a route from
    the worker that leases it, whatever routes and intervals they are given. *)
Theorem admin_ops_keep_leases o q m L r :
  administrative o -> wf r -> held q m L r -> held q m L (exec o r).
Proof.
  intros Ha Hw Hh. destruct (admin_scripts o r Ha) as (l & Hl & Hadm & ->). 
  apply (run_all_held keys key_for); [done| |done|done].
  eapply Forall_impl; [exact Hadm|]. intros [] Hs; cbn in *; done.
Qed.

Lemma payload_key_inj a b : payload_key a = payload_key b -> a = b.
Proof. unfold payload_key, proxyKeyPrefix. rewrite !str_app_cons, !str_app_nil_l. intros Hk. by simplify_eq. Qed.

Lemma refresh_heads_get l (r : R) k : get (refresh_heads l r) k = get r k.
Proof.
  unfold refresh_heads. revert r. induction l as [|q l IH]; intros r; cbn; [done|]. by rewrite IH, get_refresh_head.
Qed.

Lemma migrate_queues_get qs q om m (r : R) k : get (migrate_queues qs q om m r).2 k = get r k.
Proof.
  revert r. induction qs as [|k0 qs IH]; intros r; cbn [migrate_queues]; [done|].
  specialize (IH (if String.eqb k0 q then zrem k0 om r else zrem k0 m (zrem k0 om r))).
  destruct (migrate_queues qs q om m _) as [dirty r2]. cbn [snd] in *. rewrite IH.
  destruct (String.eqb k0 q); by rewrite ?get_zrem.
Qed.

(** A claimed migration leaves the canonical member leased with its payload. *)
Lemma migrate_claims oq om m L now payload source r cur q :
  wf r -> held oq om L r ->
  (migrate_script decode cjson_encode encrypted (payload_key om) (payload_key m) oq (key_for m)
     keys om m L now payload source r).1 = Claimed cur q ->
  let r' := (migrate_script decode cjson_encode encrypted (payload_key om) (payload_key m) oq (key_for m)
     keys om m L now payload source r).2 in
  held q m L r' /\ get r' (payload_key m) = Some cur.
Proof.
  intros [Hi Hp] Hh Hr r'.  pose proof Hh as (Hoq & Hs & Ho).
  revert Hr. subst r'. unfold migrate_script.
  destruct (_ && _) eqn:Ef; cbn [negb fst snd]; [|done].
  destruct (bool_decide (get r (payload_key om) = Some source)) eqn:Esrc; cbn [negb fst snd]; [|done].
  destruct (String.eqb om m) eqn:Em; [apply String.eqb_eq in Em|apply String.eqb_neq in Em]; cbn [fst snd].
  { subst om. intros [= <- <-]. split; [|by rewrite get_set, decide_True].
    apply (held_ext keys oq m L r); [|done]. intros; apply zscore_set. }
  fold (migrate_set keys key_for oq m). fold (live_owner keys key_for oq m now r).
  destruct (migrate_payload _ _ _ _ _) as [np|]; cbn [fst snd]; [|done].
  destruct (live_owner keys key_for oq m now r) as [q'|] eqn:Elo.
  { destruct (migrate_queues _ _ _ _ _). done. }
  set (r1 := del (payload_key om) _).
  assert (Hg1 : get r1 (payload_key m) = Some np).
  { subst r1. rewrite get_del, decide_False by (by intros ?%payload_key_inj).
    destruct (bool_decide (get r (payload_key m) = Some np)) eqn:Eb; [by breflect|by rewrite get_set, decide_True]. }
  assert (Hg2 := migrate_queues_get (migrate_set keys key_for oq m) (key_for m) om m r1).
  destruct (migrate_queues_frame keys key_for (migrate_set keys key_for oq m) (key_for m) om m r1)
    as (Hz & _ & _); [intros k Hk; by apply (migrate_set_keys keys key_for oq m k Hoq) in Hk|].
  destruct (migrate_queues _ _ _ _ _) as [dirty r2]. cbn [fst snd] in *.
  intros [= <- <-]. split; [|by rewrite refresh_heads_get, get_zadd, Hg2].
  assert (Hlo : forall k, k ∈ keys -> zscore (refresh_heads (dirty ++ [key_for m]) (zadd (key_for m) (lease_score L) m r2)) k m
    = if decide (k = key_for m) then Some (lease_score L) else None).
  { intros k Hk. rewrite (refresh_heads_queue keys key_for) by done. rewrite zscore_zadd, Hz.
    assert (k ∈ migrate_set keys key_for oq m) by by apply (migrate_set_keys keys key_for oq m k Hoq).
    repeat case_decide; naive_solver. }
  assert (Hk0 : key_for m ∈ keys) by apply layout_for.
  split; [done|]. split; [rewrite Hlo by done; by rewrite decide_True|].
  intros k Hk Hne. rewrite Hlo by done. by rewrite decide_False.
Qed.

Lemma migrated_is_held pr p L now rw r pr' p' :
  wf r -> held (PopQueueKey pr) (Member pr) L r ->
  get r (payload_key (Member pr)) = Some (ProxyJSON pr) ->
  (migrateDequeuedProxyMember toASCII FingerprintProxyRoute EncryptProxySecret DecryptProxySecret
     encrypted json_encode cjson_encode decode shards pr p L now rw r).1 = Ok (Some (pr', p')) ->
  let r' := (migrateDequeuedProxyMember toASCII FingerprintProxyRoute EncryptProxySecret DecryptProxySecret
     encrypted json_encode cjson_encode decode shards pr p L now rw r).2 in
  held (PopQueueKey pr') (Hash p') L r' /\ get r' (payload_key (Hash p')) = Some (ProxyJSON pr').
Proof.
  intros Hw Hh Hg. unfold migrateDequeuedProxyMember. cbn zeta.
  destruct (_ || _); [done|].
  destruct (String.eqb (Member pr) (Hash p) && negb rw) eqn:Es; cbn [fst snd].
  { intros [= <- <-]. breflect. apply String.eqb_eq in H1. by rewrite <- H1. }
  destruct (marshal p) as [payload|]; [|done].
  pose proof (migrate_claims (PopQueueKey pr) (Member pr) (Hash p) L now payload (ProxyJSON pr) r) as Hm.
  unfold payload_key in Hm at 1 2 3 4.
  destruct (migrate_script _ _ _ _ _ _ _ _ _ _ _ _ _ _ r) as [rep r1]. cbn [fst snd] in Hm.
  destruct rep as [cur q| |]; [|done|done]. destruct (Hm cur q Hw Hh eq_refl) as [Hh' Hg'].
  destruct (String.eqb cur payload); cbn [fst snd]; [by intros [= <- <-]|].
  destruct (decode cur) as [merged|]; [|done]. destruct (to_domain merged) as [d|]; [|done].
  destruct (String.eqb (Hash d) (Hash p)) eqn:Eh; [|done]. cbn [fst snd]. intros [= <- <-].
  apply String.eqb_eq in Eh. by rewrite Eh.
Qed.

(** A dequeued route is held: whatever was stored (current, outdated or
    aliased payloads), a route [GetNextProxyContext] returns carries a lease
    that the server holds for it, in the queue the lease names and in no other,
    for five minutes from the poll, and the payload snapshot the lease carries
    is the stored one. *)
Theorem dequeued_is_held now now2 r proxy scheduled r' :
  wf r ->
  GetNextProxyContext toASCII FingerprintProxyRoute EncryptProxySecret DecryptProxySecret
    encrypted json_encode cjson_encode decode shards now now2 r = (Dequeued proxy scheduled, r') ->
  exists lease, QueueLease proxy = Some lease /\ ScoreMS lease = now + 300000 /\ lease_ok proxy /\
    held (QueueKey lease) (Hash proxy) (ScoreMS lease) r' /\
    get r' (payload_key (Hash proxy)) = Some (Payload lease).
Proof.
  intros Hw. unfold GetNextProxyContext. cbn zeta.
  change (processingLease / Millisecond) with 300000.
  destruct (parse_claim now 300000 r Hw) as (pr & Hpr & Hf).
  assert (Hw1 : wf (pop_script now 300000 r).2).
  { 
    exact (run_wf keys key_for decode cjson_encode encrypted (SPop now 300000) r I Hw). }
  destruct (pop_script now 300000 r) as [rep r1]. cbn [fst snd] in *. rewrite Hpr.
  destruct (Found pr) eqn:Efound; cbn [negb]; [|done].
  destruct (decode (ProxyJSON pr)) as [payload|]; [|done].
  destruct (to_domain payload) as [p|]; [|done].
  destruct (_ && _ && _); [done|]. destruct (Hf eq_refl) as [Hh Hg].
  pose proof (migrated_is_held pr p (now + 300000) now2 (needsRewrite encrypted payload) r1) as Hm.
  destruct (migrateDequeuedProxyMember _ _ _ _ _ _ _ _ _ _ _ _ _ _ r1) as [res r2]. cbn [fst snd] in Hm.
  destruct res as [[[pr' p']|]|]; [|done..]. destruct (Hm pr' p' Hw1 Hh Hg eq_refl) as [Hh' Hg'].
  intros [= <- <- <-]. eexists. split; [reflexivity|]. cbn. split; [done|]. split; [apply Hh'|]. done.
Qed.
End Operations.
(** ** A concrete deployment *)

Definition demo_json (p : queuedProxy) : string := QHash p.
Definition demo_parse (s : string) : option queuedProxy :=
  Some (MkQueued 3 7 "10.0.0.1" 80 "" "" "u" "p" s [3] [] []).
Definition demo_proxy : Proxy := MkProxy 7 "10.0.0.1" (Some "10.0.0.1") 80 "u" "p" [3] None "h".
Definition demo_exec : op -> MemRedis -> MemRedis :=
  exec (fun _ => None) (fun _ _ _ _ => None) Some Some false demo_json demo_json demo_parse 2.
Definition demo_queue : MemRedis := demo_exec (OpAdd (60 * Second) 0 [demo_proxy]) empty_redis.
Definition demo_keys : list string := pop_keys (shards 2).

Lemma demo_queue_wf : wf demo_keys (key_for (shards 2)) demo_queue.
Proof. apply exec_wf; [done|apply empty_wf]. Qed.

Lemma operations_refine_scripts_witness : exists l,
  demo_exec (OpReschedule Second) (demo_exec (OpNext 5 6) demo_queue) =
    run_all demo_keys (key_for (shards 2)) demo_parse demo_json false l demo_queue.
Proof.
  destruct (operations_refine_scripts (fun _ => None) (fun _ _ _ _ => None) Some Some false demo_json demo_json
    demo_parse 2 [OpNext 5 6; OpReschedule Second] demo_queue) as (l & _ & He & _).
  - forall_list; done.
  - apply demo_queue_wf.
  - exists l. exact He.
Defined.

Lemma dequeued_is_held_witness : exists lease,
  ScoreMS lease = 300005 /\ held demo_keys (QueueKey lease) "h" 300005 (demo_exec (OpNext 5 6) demo_queue).
Proof.
  destruct (dequeued_is_held (fun _ => None) (fun _ _ _ _ => None) Some Some false demo_json demo_json
    demo_parse 2 5 6 demo_queue
    (MkProxy 7 "10.0.0.1" None 80 "u" "p" [3] (Some (MkLease 300005 (key_for (shards 2) "h") "h")) "h") 0
    (demo_exec (OpNext 5 6) demo_queue)) as (lease & Hl & Hs & _ & Hh & _).
  - apply demo_queue_wf.
  - apply pair_fst. vm_compute. reflexivity.
  - exists lease. split; [exact Hs|]. cbn in Hs. rewrite Hs in Hh. exact Hh.
Defined.

Lemma admin_ops_keep_leases_witness :
  let q := key_for (shards 2) "h" in
  let r := demo_exec (OpNext 5 6) demo_queue in
  held demo_keys q "h" 300005 (demo_exec (OpAdd (60 * Second) 0 [demo_proxy]) r).
Proof.
  intros q r.
  apply (admin_ops_keep_leases (fun _ => None) (fun _ _ _ _ => None) Some Some false demo_json demo_json
    demo_parse 2); [exact I|apply exec_wf; [done|apply demo_queue_wf]|].
  assert (Hg : zscore r q "h" = Some (lease_score 300005)) by (vm_compute; reflexivity).
  split; [right; vm_compute; right; left|]. split; [exact Hg|].
  intros q' Hq' Hne. destruct (exec_wf (fun _ => None) (fun _ _ _ _ => None) Some Some false demo_json demo_json
    demo_parse 2 (OpNext 5 6) demo_queue I demo_queue_wf) as [_ Hp].
  refine (proj2 (Hp "h" q (lease_score 300005) _ Hg) q' Hq' Hne). right. vm_compute. right. left.
Defined.
(** ** Spreading checks over the interval *)

(** Imported and rescheduled routes are spread evenly: while the product of
    the interval and the last position fits a [time.Duration], the offsets are
    within the interval, start at zero and keep the order of the positions.
    The product is not checked: with a day's interval, position 106752 of
    200000 gets an offset before the start. *)
Theorem spread_offset_even interval n :
  0 < interval -> 0 < n -> interval * (n - 1) < 2 ^ 63 ->
  spread_offset interval 0 n = 0 /\
  (forall i, 0 <= i < n -> 0 <= spread_offset interval i n < interval) /\
  (forall i j, 0 <= i <= j -> j < n -> spread_offset interval i n <= spread_offset interval j n) /\
  spread_offset (24 * Hour) 106752 200000 < 0.
Proof.
  intros Hi Hn Hb.
  assert (Hs : forall i, 0 <= i < n -> spread_offset interval i n = interval * i / n).
  { intros i Hin. assert (0 <= interval * i <= interval * (n - 1)) by nia. unfold spread_offset.
    rewrite (wrap_i64_id (interval * i)) by (unfold in_i64; lia). rewrite Z.quot_div_nonneg by lia.
    apply wrap_i64_id. pose proof (Z.div_pos (interval * i) n). pose proof (Z.div_le_upper_bound (interval * i) n (interval * i)).
    unfold in_i64. nia. }
  split; [|split; [|split]].
  - rewrite Hs by lia. by rewrite Z.mul_0_r, Z.div_0_l by lia.
  - intros i Hin. rewrite Hs by done. split; [apply Z.div_pos; nia|apply Z.div_lt_upper_bound; nia].
  - intros i j Hij Hj. rewrite !Hs by lia. apply Z.div_le_mono; nia.
  - vm_compute. reflexivity.
Qed.

Lemma spread_offset_even_witness : 0 <= spread_offset Hour 3 10 < Hour.
Proof. apply (spread_offset_even Hour 10); vm_compute; intuition discriminate. Defined.
End ProxyOps.
