(* ===== verification/SiteQueue.v ===== *)
(** * The queue of scrape sources

    [internal/jobs/queue/sites]: the sources of every process wait in sorted
    sets by due time, as routes do, but a worker holds its source by a claim: a
    key with an expiry whose value is a number no other claim has.  A source
    also has a schedule, the progress of its fetch modes and the delay its
    provider asked for, which outlives the claims.  Scripts are [*.lua]; the Go
    functions are sequences of commands, of which a pipeline may execute any
    prefix.  The keys of schedules and claims are maps of their own here: their
    prefixes keep them apart from payloads.  A schedule is its decoded value;
    the codec of the scripts prints fourteen digits, enough for instants before
    10^14 milliseconds.  Parameters: the website block list and the payload
    codec. *)

From S2P Require Import Prelude GoStrings Redis ProxyQueue.
Open Scope Z_scope.

Module SiteQueue.
Import ProxyQueue.

Definition scrapesiteKeyPrefix : string := "scrapesite:".
Definition legacyScrapesiteQueueKey : string := "scrapesite_queue".
Definition scrapesiteQueueHeadKey : string := "scrapesite_queue_heads".
Definition scrapesiteQueueShardPrefix : string := "scrapesite_queue:".
Definition defaultScrapeQueueShards : Z := 8.
Definition maxScrapeQueueShards : Z := 64.
Definition processingLease : Z := 5 * Minute.
Definition scrapeQueueRescheduleStateKey : string := "magpie:queue:scrape:interval_ms".

(** ** Shards *)

Definition buildScrapeQueueShardKeys (shards : Z) : list string :=
  map (fun i => scrapesiteQueueShardPrefix +:+ itoa (Z.of_nat i)) (seq 0 (Z.to_nat shards)).

Definition buildScrapePopQueueKeys (shardKeys : list string) : list string := legacyScrapesiteQueueKey :: shardKeys.

Definition NewRedisScrapeSiteQueue (shards : Z) : list string :=
  let shards := if shards <=? 0 then defaultScrapeQueueShards else shards in
  let shards := if maxScrapeQueueShards <? shards then maxScrapeQueueShards else shards in
  buildScrapeQueueShardKeys shards.

Definition scrapeQueueShardIndex (member : string) (shards : Z) : Z :=
  if shards <=? 1 then 0 else fnv32a member mod shards.

Definition siteQueueKeyForMember (shardKeys : list string) (member : string) : string :=
  match shardKeys with
  | [] => legacyScrapesiteQueueKey
  | _ =>
      nth (Z.to_nat (scrapeQueueShardIndex member (Z.of_nat (length shardKeys)))) shardKeys legacyScrapesiteQueueKey
  end.

(** ** Schedules *)

Record ScrapeModeSchedule := MkMode { NextAttemptMS : Z; ModeDeferredReason : string }.

Record ScrapeSchedule := MkSchedule {
  Modes : gmap string ScrapeModeSchedule; RetryAfterMS : Z; DeferredUntilMS : Z; DeferredReason : string
}.

(** The schedule a missing key stands for, in Go and in the scripts' [{}]. *)
Definition no_schedule : ScrapeSchedule := MkSchedule ∅ 0 0 "".

Definition with_retry (ms : Z) (s : ScrapeSchedule) : ScrapeSchedule :=
  MkSchedule (Modes s) ms (DeferredUntilMS s) (DeferredReason s).

(** [NextAttempt]; [None] is the zero time. *)
Definition NextAttempt (s : ScrapeSchedule) (mode : string) : option (Z * string) :=
  let state := default (MkMode 0 "") (Modes s !! mode) in
  let next := NextAttemptMS state in
  let reason := ModeDeferredReason state in
  let reason := if (0 <? next) && String.eqb reason "" then "Configured scrape interval" else reason in
  let '(next, reason) := if next <? DeferredUntilMS s then (DeferredUntilMS s, DeferredReason s) else (next, reason) in
  let '(next, reason) :=
    if next <? RetryAfterMS s then (RetryAfterMS s, "Provider requested a delay with Retry-After") else (next, reason) in
  if next <=? 0 then None else Some (next, reason).

(** The loop of [nextDue] over the modes, and [nextDue] in milliseconds. *)
Definition least_attempt (acc : option Z) (mode : ScrapeModeSchedule) : option Z :=
  match acc with
  | None => Some (NextAttemptMS mode)
  | Some n => if NextAttemptMS mode <? n then Some (NextAttemptMS mode) else Some n
  end.

Definition nextDue (s : ScrapeSchedule) : Z :=
  let next := default 0 (fold_left least_attempt (map snd (map_to_list (Modes s))) None) in
  Z.max (Z.max next (DeferredUntilMS s)) (RetryAfterMS s).

(** ** The server *)

(** [leases] maps a source to its claim and the instant the key expires. *)
Record Server (R : Type) := MkServer {
  base : R; schedules : gmap string ScrapeSchedule; leases : gmap string (Z * Z); sequence : Z
}.
Arguments MkServer {R}.
Arguments base {R}.
Arguments schedules {R}.
Arguments leases {R}.
Arguments sequence {R}.

Section Scripts.
Context {R : Type} `{Redis R}.

Definition payload_key (url : string) : string := scrapesiteKeyPrefix +:+ url.

Definition with_base (b : R) (st : Server R) : Server R := MkServer b (schedules st) (leases st) (sequence st).

(** [GET] of a claim, on the server's clock *)
Definition claim_of (clock : Z) (url : string) (st : Server R) : option Z :=
  match leases st !! url with
  | Some (claim, expiry) => if clock <? expiry then Some claim else None
  | None => None
  end.

(** The last two commands of the scripts that add an entry. *)
Definition index_head (queue : string) (r : R) : R :=
  match zhead r queue with
  | Some (_, score) => zadd scrapesiteQueueHeadKey score queue r
  | None => r
  end.

(** [refresh_head] of [pop.lua] *)
Definition refresh_site_head (queue : string) (r : R) : R :=
  match zhead r queue with
  | Some (_, score) => zadd scrapesiteQueueHeadKey score queue r
  | None => zrem scrapesiteQueueHeadKey queue r
  end.

Definition idle (ms : Z) : LuaValue :=
  LSlice [LInt64 0; LString ""; LString ""; LInt64 ms; LInt64 (-1); LString ""; LString ""; LInt64 (-1)].

(** What a claim hands to its worker. *)
Record Claimed := MkClaimed {
  c_url : string; c_site : string; c_score : Z; c_lease_score : Z;
  c_schedule : ScrapeSchedule; c_queue : string; c_claim : Z
}.

(** [pop.lua]: the next due instant ([-1] when unknown), or a claim. *)
Fixpoint pop_loop (fuel : nat) (clock current lease : Z) (st : Server R) : (Z + Claimed) * Server R :=
  match fuel with
  | O => (inl (-1), st)
  | S fuel' =>
      match zhead (base st) scrapesiteQueueHeadKey with
      | None => (inl (-1), st)
      | Some (queue, indexed) =>
          match zhead (base st) queue with
          | None => pop_loop fuel' clock current lease (with_base (zrem scrapesiteQueueHeadKey queue (base st)) st)
          | Some (member, score) =>
              if negb (score =? indexed) then
                pop_loop fuel' clock current lease (with_base (zadd scrapesiteQueueHeadKey score queue (base st)) st)
              else if current <? score then (inl score, st)
              else
                match get (base st) (payload_key member) with
                | None =>
                    pop_loop fuel' clock current lease
                      (with_base (refresh_site_head queue (zrem queue member (base st))) st)
                | Some site =>
                    let claim := sequence st + 1 in
                    let lease_score := current + lease in
                    (inr (MkClaimed member site score lease_score
                            (default no_schedule (schedules st !! member)) queue claim),
                     MkServer (refresh_site_head queue (zadd queue lease_score member (base st)))
                       (schedules st) (<[member := (claim, clock + lease)]> (leases st)) claim)
                end
          end
      end
  end.

Definition pop_script (clock current lease : Z) (st : Server R) : (Z + Claimed) * Server R :=
  pop_loop 8 clock current lease st.

(** The queue [complete.lua] works on and the score it finds there. *)
Definition complete_target (queue home url : string) (r : R) : string * option Z :=
  match zscore r queue url with
  | Some s => (queue, Some s)
  | None => if String.eqb home queue then (queue, None) else (home, zscore r home url)
  end.

(** [complete.lua] *)
Definition complete_script (clock : Z) (queue home url : string) (next : Z) (incoming : ScrapeSchedule) (claim : Z)
    (st : Server R) : Z * Server R :=
  let '(queue, score) := complete_target queue home url (base st) in
  match get (base st) (payload_key url) with
  | None => (0, st)
  | Some _ =>
      let stored := default no_schedule (schedules st !! url) in
      let retry_after := Z.max (RetryAfterMS stored) (RetryAfterMS incoming) in
      let current := claim_of clock url st in
      match score with
      | Some s =>
          if bool_decide (current = Some claim) then
            let incoming := if 0 <? retry_after then with_retry retry_after incoming else incoming in
            (1, MkServer (index_head queue (zadd queue (Z.max next retry_after) url (base st)))
                  (<[url := incoming]> (schedules st)) (delete url (leases st)) (sequence st))
          else
            let scheds :=
              if RetryAfterMS stored <? retry_after
              then <[url := with_retry retry_after stored]> (schedules st) else schedules st in
            let b :=
              if bool_decide (current = None) && (s <? retry_after)
              then index_head queue (zadd queue retry_after url (base st)) else base st in
            (0, MkServer b scheds (leases st) (sequence st))
      | None =>
          let scheds :=
            if RetryAfterMS stored <? retry_after
            then <[url := with_retry retry_after stored]> (schedules st) else schedules st in
          (0, MkServer (base st) scheds (leases st) (sequence st))
      end
  end.

(** [force.lua]; the payload is empty when only an entry is to be moved. *)
Definition force_script (clock : Z) (queue url : string) (now : Z) (payload : string) (st : Server R) : Z * Server R :=
  match claim_of clock url st with
  | Some _ => (1, st)
  | None =>
      let retry_after := match schedules st !! url with Some s => RetryAfterMS s | None => 0 end in
      if String.eqb payload "" && bool_decide (zscore (base st) queue url = None) then (0, st)
      else
        let b := if String.eqb payload "" then base st else set (payload_key url) payload (base st) in
        let scheds :=
          if 0 <? retry_after then <[url := with_retry retry_after no_schedule]> (schedules st)
          else delete url (schedules st) in
        let b := if String.eqb queue legacyScrapesiteQueueKey then b else zrem legacyScrapesiteQueueKey url b in
        (1, MkServer (index_head queue (zadd queue (Z.max now retry_after) url b)) scheds
              (delete url (leases st)) (sequence st))
  end.

(** [renew.lua] *)
Definition renew_script (clock : Z) (queue url : string) (claim score period : Z) (st : Server R) : Z * Server R :=
  if bool_decide (claim_of clock url st = Some claim) && bool_decide (zscore (base st) queue url <> None) &&
     bool_decide (get (base st) (payload_key url) <> None)
  then
    (1, MkServer (index_head queue (zadd queue score url (base st))) (schedules st)
          (<[url := (claim, clock + period)]> (leases st)) (sequence st))
  else (0, st).
End Scripts.

(** ** Commands

    What a process sends to the server, one atomic step each.  [clock] is the
    server's clock when the step runs. *)

Record ScrapeSiteJob := MkJob { j_url : string; j_queue : string; j_lease_score : Z; j_claim : Z; j_schedule : ScrapeSchedule }.

Inductive command :=
| CPop (current lease : Z)
| CComplete (job : ScrapeSiteJob) (next : Z)
| CRenew (job : ScrapeSiteJob) (score period : Z)
| CForce (queue url : string) (now : Z) (payload : string)
| CSet (url payload : string)
| CAddNX (queue url : string) (score : Z)
| CZrem (queue url : string)
| CHeadLT (queue : string) (score : Z)
| CDelPayload (url : string)
| CDelSchedule (url : string)
| CDelClaim (url : string)
| CRefresh
| CState (value : string).

Section Commands.
Context {R : Type} `{Redis R}.
(** The pop keys of the queue, and its choice of a shard. *)
Context (keys : list string) (home : string -> string).

Definition refresh_site_heads (r : R) : R := fold_left (fun r k => refresh_site_head k r) keys r.

Definition exec (clock : Z) (c : command) (st : Server R) : Server R :=
  match c with
  | CPop current lease => (pop_script clock current lease st).2
  | CComplete job next =>
      (complete_script clock (j_queue job) (home (j_url job)) (j_url job) next (j_schedule job) (j_claim job) st).2
  | CRenew job score period => (renew_script clock (j_queue job) (j_url job) (j_claim job) score period st).2
  | CForce queue url now payload => (force_script clock queue url now payload st).2
  | CSet url payload => with_base (set (payload_key url) payload (base st)) st
  | CAddNX queue url score => with_base (zadd_nx queue score url (base st)) st
  | CZrem queue url => with_base (zrem queue url (base st)) st
  | CHeadLT queue score => with_base (zadd_lt scrapesiteQueueHeadKey score queue (base st)) st
  | CDelPayload url => with_base (del (payload_key url) (base st)) st
  | CDelSchedule url => MkServer (base st) (delete url (schedules st)) (leases st) (sequence st)
  | CDelClaim url => MkServer (base st) (schedules st) (delete url (leases st)) (sequence st)
  | CRefresh => with_base (refresh_site_heads (base st)) st
  | CState v => with_base (set scrapeQueueRescheduleStateKey v (base st)) st
  end.

(** A run: each command with the server's clock. *)
Definition exec_all (l : list (Z * command)) (st : Server R) : Server R :=
  fold_left (fun st c => exec c.1 c.2 st) l st.
End Commands.

(** ** Operations *)

(** [domain.ScrapeSite], as far as the queue reads it *)
Record ScrapeSite := MkSite { s_id : Z; s_url : string }.

Section Operations.
Context {R : Type} `{Redis R}.
Context (shardKeys : list string).
Context (IsWebsiteBlocked : string -> bool).
Context (marshal : ScrapeSite -> string) (unmarshal : string -> option ScrapeSite).

Definition site_pop_keys : list string := buildScrapePopQueueKeys shardKeys.
Definition site_key_for : string -> string := siteQueueKeyForMember shardKeys.

(** The commands [AddToQueue] puts into its pipelines, at [now]. *)
Definition add_site_commands (now : Z) (site : ScrapeSite) : list command :=
  let queueKey := site_key_for (s_url site) in
  [CSet (s_url site) (marshal site); CAddNX queueKey (s_url site) now] ++
  (if String.eqb queueKey legacyScrapesiteQueueKey then [] else [CZrem legacyScrapesiteQueueKey (s_url site)]) ++
  [CHeadLT queueKey now].

Definition AddToQueue (now : Z) (sites : list ScrapeSite) : list command :=
  concat (map (add_site_commands now)
    (filter (fun s => s_url s <> "" /\ IsWebsiteBlocked (s_url s) = false) sites)).

Definition remove_site_commands (site : ScrapeSite) : list command :=
  let queueKey := site_key_for (s_url site) in
  [CDelPayload (s_url site); CDelSchedule (s_url site); CDelClaim (s_url site); CZrem queueKey (s_url site)] ++
  (if String.eqb queueKey legacyScrapesiteQueueKey then [] else [CZrem legacyScrapesiteQueueKey (s_url site)]).

Definition RemoveFromQueue (sites : list ScrapeSite) : list command :=
  concat (map remove_site_commands (filter (fun s => s_url s <> "") sites)).

(** [ForceScrapeSite]; an empty URL is an error. *)
Definition ForceScrapeSite (now : Z) (site : ScrapeSite) : option command :=
  if String.eqb (s_url site) "" then None
  else Some (CForce (site_key_for (s_url site)) (s_url site) now (marshal site)).

Definition leasePeriod (leaseDuration : Z) : Z := if 0 <? leaseDuration then leaseDuration else processingLease.

(** [CompleteScrapeSite] and [RenewScrapeSiteLease] at [now], in milliseconds *)
Definition CompleteScrapeSite (now : Z) (job : ScrapeSiteJob) : command :=
  CComplete job (Z.max (nextDue (j_schedule job)) now).

Definition RenewScrapeSiteLease (now period : Z) (job : ScrapeSiteJob) : command := CRenew job (now + period) period.

(** One round of [GetNextScrapeSiteContext]; [inr] is a job and its source. *)
Inductive next_outcome := Waited (duration : Z) | BadPayload | Job (site : ScrapeSite) (job : ScrapeSiteJob).

Definition GetNextScrapeSite (clock now period : Z) (st : Server R) : next_outcome * Server R :=
  match pop_script clock now period st with
  | (inl next_ready, st') => (Waited (dequeueWaitDuration next_ready now), st')
  | (inr c, st') =>
      match unmarshal (c_site c) with
      | None => (BadPayload, st')
      | Some site => (Job site (MkJob (s_url site) (c_queue c) (c_lease_score c) (c_claim c) (c_schedule c)), st')
      end
  end.

(** [RequeueAll] over one queue as it was listed *)
Fixpoint requeue_commands (queue : string) (interval now count position : Z) (members : list string) : list command :=
  match members with
  | [] => []
  | m :: members' =>
      CForce queue m ((now + Z.quot (wrap_i64 (interval * position)) count) / Millisecond) "" ::
      requeue_commands queue interval now count (position + 1) members'
  end.

Definition RequeueAll (interval now : Z) (r : R) : list command :=
  let interval := if interval <=? 0 then Second else interval in
  concat (map (fun key => requeue_commands key interval now (zcard r key) 0 (zrange r key).*1) site_pop_keys) ++
  [CRefresh].

Definition Reschedule (interval : Z) : list command :=
  let interval := if interval <=? 0 then Second else interval in
  [CState (itoa (Z.quot interval Millisecond)); CRefresh].

Definition GetScrapeSiteCount (r : R) : Z := fold_left (fun n k => n + zcard r k) site_pop_keys 0.
End Operations.

(** ** Layout *)

(** What the commands need of the queues of a deployment: a source's shard is
    among the pop keys, which hold the legacy queue and not the head index,
    and new entries never go to the legacy queue. *)
Class SiteLayout (keys : list string) (home : string -> string) : Prop := {
  site_home u : home u ∈ keys;
  site_head : scrapesiteQueueHeadKey ∉ keys;
  site_legacy : legacyScrapesiteQueueKey ∈ keys;
  site_home_legacy u : home u <> legacyScrapesiteQueueKey
}.

Section Claims.
Context {R : Type} `{RedisLaws R}.
Context (keys : list string) (home : string -> string) `{Hlayout : !SiteLayout keys home}.

Lemma queue_not_head q : q ∈ keys -> q <> scrapesiteQueueHeadKey.
Proof. intros Hq ->. by apply (site_head (home := home)). Qed.

Lemma site_payload_key_inj u v : payload_key u = payload_key v -> u = v.
Proof. unfold payload_key. apply (inj (String.append scrapesiteKeyPrefix)). Qed.

(** Only queues are indexed. *)
Definition heads_ok (r : R) : Prop := forall q h, zscore r scrapesiteQueueHeadKey q = Some h -> q ∈ keys.

(** An update that concerns the head index alone. *)
Definition same_queues (r r' : R) : Prop :=
  (forall q m, q ∈ keys -> zscore r' q m = zscore r q m) /\ (forall k, get r' k = get r k).

Lemma same_queues_refl r : same_queues r r.
Proof. done. Qed.

Lemma same_queues_trans a b c : same_queues a b -> same_queues b c -> same_queues a c.
Proof. intros [H1 H2] [H3 H4]. split; intros; [by rewrite H3, H1|by rewrite H4, H2]. Qed.

Lemma zadd_head r q h : q ∈ keys -> heads_ok r ->
  same_queues r (zadd scrapesiteQueueHeadKey h q r) /\ heads_ok (zadd scrapesiteQueueHeadKey h q r).
Proof.
  intros Hq Ho. split; [split|].
  - intros k m Hk. rewrite zscore_zadd, decide_False; [done|]. intros [<- _]. by apply (queue_not_head _ Hk).
  - intros k. by rewrite get_zadd.
  - intros k s. rewrite zscore_zadd. case_decide; [naive_solver|apply Ho].
Qed.

Lemma zrem_head r q : heads_ok r ->
  same_queues r (zrem scrapesiteQueueHeadKey q r) /\ heads_ok (zrem scrapesiteQueueHeadKey q r).
Proof.
  intros Ho. split; [split|].
  - intros k m Hk. rewrite zscore_zrem, decide_False; [done|]. intros [<- _]. by apply (queue_not_head _ Hk).
  - intros k. by rewrite get_zrem.
  - intros k s. rewrite zscore_zrem. case_decide; [done|apply Ho].
Qed.

Lemma index_head_frame r q : q ∈ keys -> heads_ok r -> same_queues r (index_head q r) /\ heads_ok (index_head q r).
Proof. intros Hq Ho. unfold index_head. destruct (zhead r q) as [[m s]|]; [by apply zadd_head|done]. Qed.

Lemma refresh_site_head_frame r q :
  q ∈ keys -> heads_ok r -> same_queues r (refresh_site_head q r) /\ heads_ok (refresh_site_head q r).
Proof.
  intros Hq Ho. unfold refresh_site_head. destruct (zhead r q) as [[m s]|]; [by apply zadd_head|by apply zrem_head].
Qed.

Lemma refresh_site_heads_frame l r : (forall q, q ∈ l -> q ∈ keys) -> heads_ok r ->
  same_queues r (refresh_site_heads l r) /\ heads_ok (refresh_site_heads l r).
Proof.
  unfold refresh_site_heads. revert r. induction l as [|q l IH]; intros r Hl Ho; simpl; [done|].
  destruct (refresh_site_head_frame r q (Hl q ltac:(left)) Ho) as [H1 H2].
  destruct (IH (refresh_site_head q r)) as [H3 H4]; [set_solver|done|].
  split; [by eapply same_queues_trans|done].
Qed.

Lemma heads_ok_queue r q m s : q ∈ keys -> heads_ok r -> heads_ok (zadd q s m r) /\ heads_ok (zrem q m r).
Proof.
  intros Hq Ho. pose proof (queue_not_head q Hq). split; intros k h; rewrite ?zscore_zadd, ?zscore_zrem;
    rewrite decide_False by naive_solver; apply Ho.
Qed.

(** ** A held source *)

(** The server says that [claim] holds [url] until [expiry]. *)
Definition held (url : string) (claim expiry : Z) (st : Server R) : Prop :=
  leases st !! url = Some (claim, expiry) /\ claim <= sequence st /\
  get (base st) (payload_key url) <> None /\
  (exists s, zscore (base st) (home url) url = Some s /\ expiry <= s) /\
  (forall q, q ∈ keys -> q <> home url -> zscore (base st) q url = None) /\
  heads_ok (base st).

(** What must stay of the base for a source to stay held. *)
Lemma held_frame url claim expiry st b scheds ls sq :
  held url claim expiry st -> ls !! url = Some (claim, expiry) -> sequence st <= sq -> heads_ok b ->
  (get b (payload_key url) = None -> get (base st) (payload_key url) = None) ->
  (forall q, q ∈ keys -> zscore b q url = zscore (base st) q url) ->
  held url claim expiry (MkServer b scheds ls sq).
Proof.
  intros (Hl & Hs & Hp & (s & Hz & Hle) & Ho & Hh) Hl' Hs' Hh' Hp' Hz'.
  repeat split; simpl; try done; [lia|naive_solver| |].
  - exists s. by rewrite Hz' by apply site_home.
  - intros q Hq Hne. rewrite Hz' by done. by apply Ho.
Qed.

Lemma held_same url claim expiry st b :
  held url claim expiry st -> same_queues (base st) b -> heads_ok b -> held url claim expiry (with_base b st).
Proof.
  intros Hh [Hq Hg] Ho. apply held_frame with (st := st); try done; [apply Hh|by rewrite Hg|].
  intros q Hk. by apply Hq.
Qed.

(** The commands on the entries of another source. *)
Lemma other_source r url v q s : v <> url -> q ∈ keys ->
  (forall k, zscore (zadd q s v r) k url = zscore r k url) /\ (forall k, zscore (zrem q v r) k url = zscore r k url).
Proof. intros Hv Hq. split; intros k; rewrite ?zscore_zadd, ?zscore_zrem, decide_False by naive_solver; done. Qed.

Lemma held_head_other url claim expiry st q m s :
  held url claim expiry st -> q ∈ keys -> zhead (base st) q = Some (m, s) -> s < expiry -> m <> url.
Proof.
  intros (_ & _ & _ & (s0 & Hz & Hle) & Ho & _) Hq Hh Hlt ->. apply zhead_Some in Hh as [Hh _].
  destruct (decide (q = home url)) as [->|Hne]; [rewrite Hz in Hh; injection Hh as <-; lia|].
  by rewrite Ho in Hh.
Qed.

Lemma pop_loop_held fuel url claim expiry now lease st :
  held url claim expiry st -> now < expiry ->
  held url claim expiry (pop_loop fuel now now lease st).2 /\
  match (pop_loop fuel now now lease st).1 with inr c => c_url c <> url | inl _ => True end.
Proof.
  revert st. induction fuel as [|fuel IH]; intros st Hh Hlt; simpl; [done|].
  destruct (zhead (base st) scrapesiteQueueHeadKey) as [[q indexed]|] eqn:Eh; [|done].
  assert (heads_ok (base st)) as Ho by apply Hh.
  assert (q ∈ keys) as Hq by (apply zhead_Some in Eh as [Eh _]; by eapply Ho).
  destruct (zhead (base st) q) as [[m score]|] eqn:Eq.
  2:{ apply IH; [|done]. destruct (zrem_head (base st) q Ho). by apply held_same. }
  destruct (negb (score =? indexed)).
  { apply IH; [|done]. destruct (zadd_head (base st) q score Hq Ho). by apply held_same. }
  destruct (now <? score) eqn:En; breflect; [done|].
  assert (m <> url) as Hm by (eapply held_head_other; [done|done|done|lia]).
  destruct (heads_ok_queue (base st) q m (now + lease) Hq Ho) as [Ho1 Ho2].
  destruct (get (base st) (payload_key m)) as [site|].
  - split; [|done]. destruct (refresh_site_head_frame _ q Hq Ho1) as [[Hz Hg] Ho3].
    apply held_frame with (st := st); try done.
    + rewrite lookup_insert_ne by done. apply Hh.
    + lia.
    + by rewrite Hg, get_zadd.
    + intros k Hk. rewrite Hz by done. by apply other_source.
  - apply IH; [|done]. destruct (refresh_site_head_frame _ q Hq Ho2) as [[Hz Hg] Ho3].
    apply held_frame with (st := st); try done.
    + apply Hh.
    + by rewrite Hg, get_zrem.
    + intros k Hk. rewrite Hz by done. by apply other_source.
Qed.

Lemma held_claim url claim expiry clock st :
  held url claim expiry st -> clock < expiry -> claim_of clock url st = Some claim.
Proof. intros (Hl & _) Hlt. unfold claim_of. rewrite Hl. by rewrite (proj2 (Z.ltb_lt _ _)). Qed.

(** Storing an entry of another source and indexing it. *)
Lemma held_entry url claim expiry st q v s scheds ls sq :
  held url claim expiry st -> v <> url -> q ∈ keys -> ls !! url = Some (claim, expiry) -> sequence st <= sq ->
  held url claim expiry (MkServer (index_head q (zadd q s v (base st))) scheds ls sq).
Proof.
  intros Hh Hv Hq Hl Hs. assert (heads_ok (base st)) as Ho by apply Hh.
  destruct (heads_ok_queue (base st) q v s Hq Ho) as [Ho1 _].
  destruct (index_head_frame _ q Hq Ho1) as [[Hz Hg] Ho2].
  apply held_frame with (st := st); try done; [by rewrite Hg, get_zadd|].
  intros k Hk. rewrite Hz by done. by apply other_source.
Qed.

Lemma held_meta url claim expiry st scheds :
  held url claim expiry st -> held url claim expiry (MkServer (base st) scheds (leases st) (sequence st)).
Proof. intros Hh. apply held_frame with (st := st); try done; [apply Hh|apply Hh]. Qed.

(** The queue [complete.lua] works on is one of the deployment. *)
Lemma complete_target_spec q u (r : R) :
  q ∈ keys ->
  (complete_target q (home u) u r).1 ∈ keys /\
  zscore r (complete_target q (home u) u r).1 u = (complete_target q (home u) u r).2.
Proof.
  intros Hq. unfold complete_target. destruct (zscore r q u) eqn:E; [done|].
  destruct (String.eqb _ _); [done|]. simpl; split; [apply site_home|done].
Qed.

Lemma complete_held url claim expiry clock q u next incoming c st :
  held url claim expiry st -> clock < expiry -> q ∈ keys -> u <> url \/ c <> claim ->
  held url claim expiry (complete_script clock q (home u) u next incoming c st).2.
Proof.
  intros Hh Hlt Hq Hne. unfold complete_script.
  destruct (complete_target_spec q u (base st) Hq) as [Hq' _].
  destruct (complete_target q (home u) u (base st)) as [q' score]. simpl in Hq'. destruct (get (base st) (payload_key u)) as [site|]; [|done].
  destruct score as [s|]; [|by apply held_meta].
  destruct (decide (u = url)) as [->|Hu].
  - rewrite (held_claim _ _ _ _ _ Hh Hlt). rewrite bool_decide_eq_false_2 by naive_solver.
    rewrite bool_decide_eq_false_2 by done. by apply held_meta.
  - case_bool_decide.
    + apply held_entry; try done. rewrite lookup_delete_ne by done. apply Hh.
    + destruct (bool_decide _ && _); [|by apply held_meta]. apply held_entry; try done. apply Hh.
Qed.

Lemma force_held url claim expiry clock q u now payload st :
  held url claim expiry st -> clock < expiry -> q ∈ keys ->
  held url claim expiry (force_script clock q u now payload st).2.
Proof.
  intros Hh Hlt Hq. unfold force_script. destruct (claim_of clock u st) eqn:Ec; [done|].
  assert (u <> url) as Hu by (intros ->; by rewrite (held_claim _ _ _ _ _ Hh Hlt) in Ec).
  destruct (String.eqb payload "" && _); [done|]. simpl.
  set (b := if String.eqb payload "" then base st else set (payload_key u) payload (base st)).
  assert (held url claim expiry (with_base b st)) as Hb.
  { unfold b. destruct (String.eqb payload ""); [by destruct st|]. apply held_frame with (st := st); try done.
    - apply Hh.
    - intros k h. rewrite zscore_set. by apply Hh.
    - rewrite get_set. by case_decide.
    - intros k _. by rewrite zscore_set. }
  set (b' := if String.eqb q legacyScrapesiteQueueKey then b else zrem legacyScrapesiteQueueKey u b).
  assert (held url claim expiry (with_base b' st)) as Hb'.
  { unfold b'. destruct (String.eqb q legacyScrapesiteQueueKey); [done|].
    assert (legacyScrapesiteQueueKey ∈ keys) as Hleg by apply site_legacy.
    apply held_frame with (st := with_base b st); try done; [apply Hh| |by rewrite get_zrem|].
    - apply heads_ok_queue; [done|done|apply Hb].
    - intros k _. simpl. by apply other_source. }
  apply (held_entry url claim expiry (with_base b' st)); try done. rewrite lookup_delete_ne by done. apply Hh.
Qed.

Lemma renew_held url claim expiry bound clock q u c score period st :
  bound <= expiry -> held url claim expiry st -> clock < expiry -> q ∈ keys -> score = clock + period ->
  (u = url -> c = claim -> bound <= score) ->
  exists e, bound <= e /\ held url claim e (renew_script clock q u c score period st).2.
Proof.
  intros Hb Hh Hlt Hq -> He. unfold renew_script.
  destruct (bool_decide (claim_of clock u st = Some c)) eqn:E1; [|by exists expiry].
  destruct (bool_decide (zscore (base st) q u <> None)) eqn:E2; [|by exists expiry].
  destruct (bool_decide (get (base st) (payload_key u) <> None)) eqn:E3; [|by exists expiry]. breflect. simpl.
  destruct (decide (u = url)) as [->|Hu].
  - rewrite (held_claim _ _ _ _ _ Hh Hlt) in E1. injection E1 as <-. specialize (He eq_refl eq_refl).
    exists (clock + period). split; [done|].
    destruct Hh as (Hl & Hs & Hp & (s & Hz & Hle) & Hoth & Ho).
    assert (q = home url) as -> by (destruct (decide (q = home url)) as [|Hne]; [done|]; by rewrite Hoth in E2).
    destruct (heads_ok_queue (base st) (home url) url (clock + period) Hq Ho) as [Ho1 _].
    destruct (index_head_frame _ (home url) Hq Ho1) as [[Hz' Hg'] Ho2].
    repeat split; simpl; try done.
    + by rewrite lookup_insert_eq.
    + by rewrite Hg', get_zadd.
    + exists (clock + period). rewrite Hz', zscore_zadd, decide_True by done. done.
    + intros k Hk Hne. rewrite Hz', zscore_zadd, decide_False by naive_solver. by apply Hoth.
  - exists expiry. split; [done|]. apply held_entry; try done. rewrite lookup_insert_ne by done. apply Hh.
Qed.

(** Commands that leave a held source to its worker: clocks agree before the
    expiry, the worker itself does not complete, nobody removes the source,
    and new entries go to the source's own queue. *)
Definition leaves (url : string) (claim expiry clock : Z) (c : command) : Prop :=
  clock < expiry /\
  match c with
  | CPop current _ => current = clock
  | CComplete job _ => j_queue job ∈ keys /\ (j_url job <> url \/ j_claim job <> claim)
  | CRenew job score period =>
      j_queue job ∈ keys /\ score = clock + period /\ (j_url job = url -> j_claim job = claim -> expiry <= score)
  | CForce queue _ _ _ => queue ∈ keys
  | CAddNX queue u _ => queue ∈ keys /\ (u = url -> queue = home url)
  | CZrem queue u => queue ∈ keys /\ (u = url -> queue <> home url)
  | CHeadLT queue _ => queue ∈ keys
  | CDelPayload u | CDelClaim u => u <> url
  | CSet _ _ | CDelSchedule _ | CRefresh | CState _ => True
  end.

Lemma exec_held url claim expiry e clock c st :
  expiry <= e -> held url claim e st -> leaves url claim expiry clock c ->
  exists e', expiry <= e' /\ held url claim e' (exec keys home clock c st).
Proof.
  intros Hee Hh [Hlt Hc]. assert (clock < e) as Hlt' by lia. assert (heads_ok (base st)) as Ho by apply Hh.
  destruct c as [current lease|job next|job score period|q u now payload|u payload|q u s|q u|q s|u|u|u| |v];
    simpl in *.
  - subst current. exists e. split; [done|]. by apply pop_loop_held.
  - exists e. split; [done|]. destruct Hc. by apply complete_held.
  - destruct Hc as (Hq & -> & He). by eapply renew_held.
  - exists e. split; [done|]. by apply force_held.
  - exists e. split; [done|]. apply held_frame with (st := st); try done; [apply Hh| | |].
    + intros k h. rewrite zscore_set. by apply Ho.
    + rewrite get_set. by case_decide.
    + intros k _. by rewrite zscore_set.
  - destruct Hc as [Hq Hu]. exists e. split; [done|]. unfold zadd_nx.
    destruct (zscore (base st) q u) eqn:E; [by destruct st|].
    assert (u <> url) as Hne.
    { intros ->. rewrite (Hu eq_refl) in E. destruct Hh as (_ & _ & _ & (s0 & Hz & _) & _). congruence. }
    apply held_frame with (st := st); try done; [apply Hh| |by rewrite get_zadd|].
    + by apply heads_ok_queue.
    + intros k _. by apply other_source.
  - destruct Hc as [Hq Hu]. exists e. split; [done|].
    apply held_frame with (st := st); try done; [apply Hh| |by rewrite get_zrem|].
    + by apply heads_ok_queue.
    + intros k Hk. rewrite zscore_zrem. case_decide as Hd; [|done]. destruct Hd as [<- ->].
      symmetry. apply Hh; [done|by apply Hu].
  - exists e. split; [done|]. unfold zadd_lt.
    destruct (zscore (base st) scrapesiteQueueHeadKey q) as [s0|]; [destruct (s <? s0)|]; try (by destruct st);
      (destruct (zadd_head (base st) q s Hc Ho); by apply held_same).
  - exists e. split; [done|]. apply held_frame with (st := st); try done; [apply Hh| | |].
    + intros k h. rewrite zscore_del. by apply Ho.
    + rewrite get_del, decide_False; [done|]. intros Heq. by apply Hc, site_payload_key_inj.
    + intros k _. by rewrite zscore_del.
  - exists e. split; [done|]. by apply held_meta.
  - exists e. split; [done|]. apply held_frame with (st := st); try done. rewrite lookup_delete_ne by done. apply Hh.
  - exists e. split; [done|]. destruct (refresh_site_heads_frame keys (base st)) as [? ?]; [done|done|]. by apply held_same.
  - exists e. split; [done|]. apply held_frame with (st := st); try done; [apply Hh| | |].
    + intros k h. rewrite zscore_set. by apply Ho.
    + rewrite get_set. by case_decide.
    + intros k _. by rewrite zscore_set.
Qed.

(** Sources are in their own shard only, and only queues are indexed. *)
Definition sites_wf (st : Server R) : Prop :=
  heads_ok (base st) /\ forall q u s, q ∈ keys -> zscore (base st) q u = Some s -> q = home u.

(** What a successful pop claims, and that the claim holds. *)
Definition claims (now lease : Z) (st st1 : Server R) (c : Claimed) : Prop :=
  zscore (base st) (c_queue c) (c_url c) = Some (c_score c) /\ c_queue c = home (c_url c) /\ c_score c <= now /\
  get (base st) (payload_key (c_url c)) = Some (c_site c) /\ c_claim c = sequence st + 1 /\
  c_schedule c = default no_schedule (schedules st !! c_url c) /\ schedules st1 = schedules st /\
  held (c_url c) (c_claim c) (now + lease) st1.

Lemma claims_before now lease st b st1 c :
  (forall q m s, q ∈ keys -> zscore b q m = Some s -> zscore (base st) q m = Some s) ->
  (forall k, get b k = get (base st) k) ->
  claims now lease (with_base b st) st1 c -> claims now lease st st1 c.
Proof.
  intros Hz Hg (H1 & H2 & H3 & H4 & H5). simpl in *. rewrite Hg in H4.
  apply Hz in H1; [done|]. rewrite H2. apply site_home.
Qed.

Lemma pop_loop_claims fuel now lease st c st1 :
  sites_wf st -> pop_loop fuel now now lease st = (inr c, st1) -> claims now lease st st1 c.
Proof.
  revert st. induction fuel as [|fuel IH]; intros st Hwf; simpl; [done|].
  destruct (zhead (base st) scrapesiteQueueHeadKey) as [[q indexed]|] eqn:Eh; [|done].
  destruct Hwf as [Ho Hp].
  assert (q ∈ keys) as Hq by (apply zhead_Some in Eh as [Eh _]; by eapply Ho).
  assert (forall b, heads_ok b -> (forall q m s, q ∈ keys -> zscore b q m = Some s -> zscore (base st) q m = Some s) ->
    (forall k, get b k = get (base st) k) ->
    pop_loop fuel now now lease (with_base b st) = (inr c, st1) -> claims now lease st st1 c) as Hnext.
  { intros b Hob Hz Hg Hpop. eapply claims_before; [exact Hz|exact Hg|]. apply IH; [|done]. split; [done|].
    intros k u s Hk Hs. eapply Hp; [done|]. by apply Hz. }
  assert (forall b, same_queues (base st) b /\ heads_ok b ->
    pop_loop fuel now now lease (with_base b st) = (inr c, st1) -> claims now lease st st1 c) as Hsame.
  { intros b [[Hz Hg] Hob]. apply Hnext; [done| |done]. intros k m s Hk. by rewrite Hz. }
  destruct (zhead (base st) q) as [[m score]|] eqn:Eq; [|by apply Hsame, zrem_head].
  destruct (negb (score =? indexed)); [by apply Hsame, zadd_head|].
  destruct (now <? score) eqn:En; breflect; [done|]. apply zhead_Some in Eq as [Eq _].
  destruct (heads_ok_queue (base st) q m (now + lease) Hq Ho) as [Ho1 Ho2].
  pose proof (Hp q m score Hq Eq) as Hm.
  destruct (get (base st) (payload_key m)) as [site|] eqn:Eg.
  - intros Hc. assert (c = MkClaimed m site score (now + lease) (default no_schedule (schedules st !! m)) q (sequence st + 1)) as ->
      by congruence.
    assert (st1 = MkServer (refresh_site_head q (zadd q (now + lease) m (base st))) (schedules st)
      (<[m := (sequence st + 1, now + lease)]> (leases st)) (sequence st + 1)) as -> by congruence.
    unfold claims. simpl. repeat (split; [done|]). destruct (refresh_site_head_frame _ q Hq Ho1) as [[Hz Hg] Ho3].
    repeat split; simpl; try done.
    + by rewrite lookup_insert_eq.
    + by rewrite Hg, get_zadd, Eg.
    + exists (now + lease). rewrite <- Hm, Hz, zscore_zadd, decide_True by done. done.
    + intros k Hk Hne. rewrite Hz, zscore_zadd, decide_False by naive_solver.
      destruct (zscore (base st) k m) as [s|] eqn:E; [|done]. by apply Hp in E.
  - destruct (refresh_site_head_frame _ q Hq Ho2) as [[Hz Hg] Ho3]. apply Hnext; [done| |].
    + intros k u s Hk. rewrite Hz, zscore_zrem by done. by case_decide.
    + intros k. by rewrite Hg, get_zrem.
Qed.

Lemma exec_all_held url claim expiry l st :
  Forall (fun c => leaves url claim expiry c.1 c.2) l ->
  (exists e, expiry <= e /\ held url claim e st) ->
  exists e, expiry <= e /\ held url claim e (exec_all keys home l st).
Proof.
  unfold exec_all. revert st. induction l as [|[clock c] l IH]; intros st Hl (e & He & Hh); simpl; [by exists e|].
  apply Forall_cons in Hl as [Hc Hl]. apply IH; [done|]. by eapply exec_held.
Qed.

(** The owner of a held source is obeyed. *)
Lemma held_owner url claim expiry clock st :
  held url claim expiry st -> clock < expiry ->
  (forall next incoming, (complete_script clock (home url) (home url) url next incoming claim st).1 = 1) /\
  (forall score period, (renew_script clock (home url) url claim score period st).1 = 1).
Proof.
  intros Hh Hlt. pose proof (held_claim _ _ _ _ _ Hh Hlt) as Hc. destruct Hh as (_ & _ & Hp & (s & Hz & _) & _).
  split; intros.
  - unfold complete_script, complete_target. rewrite Hz. destruct (get (base st) (payload_key url)); [|done].
    by rewrite Hc, bool_decide_eq_true_2.
  - unfold renew_script. rewrite Hc, Hz, !bool_decide_eq_true_2 by done. done.
Qed.

(** The script is the loop with a fixed number of rounds. *)
Lemma pop_script_claims now lease st c st1 :
  sites_wf st -> pop_script now now lease st = (inr c, st1) -> claims now lease st st1 c.
Proof. unfold pop_script. generalize 8%nat. intros fuel. apply pop_loop_claims. Qed.

Lemma pop_script_held url claim expiry now lease st :
  held url claim expiry st -> now < expiry ->
  match (pop_script now now lease st).1 with inr c => c_url c <> url | inl _ => True end.
Proof. unfold pop_script. generalize 8%nat. intros fuel Hh Hlt. by apply (pop_loop_held fuel url claim expiry). Qed.

(** C2. A claim is exclusive and fresh.  A pop that finds a source takes a due
    one with a stored payload under a claim number no earlier claim has; from
    then until the claim expires, whatever other workers, imports, forced runs
    and reschedules do, no pop takes the source again, and its worker can
    renew and complete it. *)
Theorem site_claim_exclusive now lease st c st1 l :
  sites_wf st -> pop_script now now lease st = (inr c, st1) ->
  Forall (fun x => leaves (c_url c) (c_claim c) (now + lease) x.1 x.2) l ->
  c_claim c = sequence st + 1 /\ c_score c <= now /\
  zscore (base st) (c_queue c) (c_url c) = Some (c_score c) /\
  get (base st) (payload_key (c_url c)) = Some (c_site c) /\
  (forall l1 clock current lease' l2, l = l1 ++ (clock, CPop current lease') :: l2 ->
    match (pop_script clock current lease' (exec_all keys home l1 st1)).1 with
    | inr c' => c_url c' <> c_url c
    | inl _ => True
    end) /\
  (forall clock, clock < now + lease ->
    (forall next incoming,
      (complete_script clock (c_queue c) (home (c_url c)) (c_url c) next incoming (c_claim c)
        (exec_all keys home l st1)).1 = 1) /\
    (forall score period,
      (renew_script clock (c_queue c) (c_url c) (c_claim c) score period (exec_all keys home l st1)).1 = 1)).
Proof.
  intros Hwf Hpop Hl. destruct (pop_script_claims _ _ _ _ _ Hwf Hpop) as (H1 & H2 & H3 & H4 & H5 & _ & _ & Hh).
  repeat (split; [done|]). split.
  - intros l1 clock current lease' l2 ->. apply Forall_app in Hl as [Hl1 Hl2].
    apply Forall_cons in Hl2 as [[Hlt Hcur] _]. simpl in Hlt, Hcur. subst current.
    destruct (exec_all_held _ _ _ l1 st1 Hl1) as (e & He & Hh'); [by eexists|].
    apply (pop_script_held _ _ _ _ _ _ Hh'). lia.
  - intros clock Hlt. destruct (exec_all_held _ _ _ l st1 Hl) as (e & He & Hh'); [by eexists|].
    rewrite H2. eapply held_owner; [done|lia].
Qed.

(** ** Stale workers and provider deadlines *)

(** The delay the provider asked for, as the server keeps it. *)
Definition deadline (url : string) (st : Server R) : Z :=
  Z.max 0 (RetryAfterMS (default no_schedule (schedules st !! url))).

Lemma zscore_index_head r q k m :
  q <> scrapesiteQueueHeadKey -> k <> scrapesiteQueueHeadKey -> zscore (index_head q r) k m = zscore r k m.
Proof.
  intros Hq Hk. unfold index_head. destruct (zhead r q) as [[? ?]|]; [|done].
  rewrite zscore_zadd, decide_False; [done|]. naive_solver.
Qed.

Lemma get_index_head r q k : get (index_head q r) k = get r k.
Proof. unfold index_head. destruct (zhead r q) as [[? ?]|]; by rewrite ?get_zadd. Qed.

(** A worker whose claim is no longer the current one changes nothing but
    the provider's deadline: its renewal is refused; its completion is refused
    and leaves claims, payloads and the modes' progress alone, raising the
    stored deadline to the one it observed and, when nobody holds the source,
    postponing its entry to that deadline; while another worker holds the
    source, the queues do not change at all. *)
Theorem stale_site_worker_fenced clock job next st :
  claim_of clock (j_url job) st <> Some (j_claim job) -> j_queue job ∈ keys ->
  (forall score period, renew_script clock (j_queue job) (j_url job) (j_claim job) score period st = (0, st)) /\
  let '(reply, st') := complete_script clock (j_queue job) (home (j_url job)) (j_url job) next (j_schedule job) (j_claim job) st in
  reply = 0 /\ leases st' = leases st /\ sequence st' = sequence st /\
  (forall k, get (base st') k = get (base st) k) /\
  (forall u, u <> j_url job -> schedules st' !! u = schedules st !! u) /\
  (let old := default no_schedule (schedules st !! j_url job) in
   let new := default no_schedule (schedules st' !! j_url job) in
   Modes new = Modes old /\ DeferredUntilMS new = DeferredUntilMS old /\ DeferredReason new = DeferredReason old /\
   RetryAfterMS new =
     match get (base st) (payload_key (j_url job)) with
     | Some _ => Z.max (RetryAfterMS old) (RetryAfterMS (j_schedule job))
     | None => RetryAfterMS old
     end) /\
  (claim_of clock (j_url job) st <> None -> base st' = base st) /\
  (forall q u, q ∈ keys -> zscore (base st') q u = zscore (base st) q u \/
    u = j_url job /\ exists s, zscore (base st) q u = Some s /\
      zscore (base st') q u = Some (RetryAfterMS (default no_schedule (schedules st' !! u))) /\
      s < RetryAfterMS (default no_schedule (schedules st' !! u))).
Proof.
  intros Hst Hq. destruct job as [url q ls claim incoming]. simpl in *. split.
  { intros. unfold renew_script. by rewrite bool_decide_eq_false_2. }
  unfold complete_script. destruct (complete_target_spec q url (base st) Hq) as [Hq' Hz'].
  destruct (complete_target q (home url) url (base st)) as [q' score]. simpl in Hq', Hz'.
  destruct (get (base st) (payload_key url)) as [site|] eqn:Eg.
  2:{ repeat split; try done. intros k u _. by left. }
  set (stored := default no_schedule (schedules st !! url)).
  set (retry := Z.max (RetryAfterMS stored) (RetryAfterMS incoming)).
  set (scheds := if RetryAfterMS stored <? retry then <[url := with_retry retry stored]> (schedules st) else schedules st).
  assert (forall u, u <> url -> scheds !! u = schedules st !! u) as Hother.
  { intros u Hu. unfold scheds. destruct (_ <? _); [by rewrite lookup_insert_ne|done]. }
  assert (default no_schedule (scheds !! url) = with_retry retry stored) as Hnew.
  { unfold scheds. destruct (RetryAfterMS stored <? retry) eqn:E; [by rewrite lookup_insert_eq|]. breflect.
    fold stored. assert (retry = RetryAfterMS stored) as -> by (unfold retry in *; lia). by destruct stored. }
  destruct score as [s|].
  2:{ simpl. fold stored. rewrite Hnew. repeat split; try done. intros k u _. by left. }
  rewrite bool_decide_eq_false_2 by done. cbn [leases sequence schedules base]. fold stored retry scheds. rewrite Hnew.
  set (b := if bool_decide (claim_of clock url st = None) && (s <? retry) then _ else base st).
  split; [done|]. split; [done|]. split; [done|]. split.
  { intros k. unfold b. destruct (_ && _); [|done]. by rewrite get_index_head, get_zadd. }
  split; [done|]. split; [done|]. split.
  { intros Hc. unfold b. by rewrite bool_decide_eq_false_2. }
  intros k u Hk. unfold b. destruct (bool_decide _ && (s <? retry)) eqn:E; [|by left]. breflect.
  rewrite zscore_index_head by (by apply queue_not_head). rewrite zscore_zadd.
  case_decide as Hd; [|by left]. destruct Hd as [-> ->]. right. split; [done|]. exists s.
  cbn [schedules]. rewrite Hnew. done.
Qed.

Lemma pop_loop_schedules fuel clock current lease st :
  schedules (pop_loop fuel clock current lease st).2 = schedules st.
Proof.
  revert st. induction fuel as [|fuel IH]; intros st; simpl; [done|].
  destruct (zhead (base st) scrapesiteQueueHeadKey) as [[q indexed]|]; [|done].
  destruct (zhead (base st) q) as [[m score]|]; [|by rewrite IH].
  destruct (negb (score =? indexed)); [by rewrite IH|]. destruct (current <? score); [done|].
  destruct (get (base st) (payload_key m)); [done|by rewrite IH].
Qed.

Lemma deadline_insert u v s st b ls sq :
  deadline u (MkServer b (<[v := s]> (schedules st)) ls sq) =
    if decide (u = v) then Z.max 0 (RetryAfterMS s) else deadline u st.
Proof. unfold deadline. simpl. case_decide; subst; [by rewrite lookup_insert_eq|by rewrite lookup_insert_ne]. Qed.

Lemma exec_deadline url clock c st :
  c <> CDelSchedule url -> deadline url st <= deadline url (exec keys home clock c st).
Proof.
  intros Hc. destruct c as [current lease|job next|job score period|q u now payload|u payload|q u s|q u|q s|u|u|u| |v]; simpl; try done.
  - unfold deadline, pop_script. by rewrite pop_loop_schedules.
  - unfold complete_script. destruct (complete_target _ _ _ _) as [q' score].
    destruct (get (base st) (payload_key (j_url job))); [|done]. destruct score as [s1|].
    + case_bool_decide; simpl.
      * rewrite deadline_insert. case_decide as Hu; [subst|done]. unfold deadline.
        destruct (0 <? _) eqn:E; breflect; simpl in *; lia.
      * destruct (RetryAfterMS (default no_schedule (schedules st !! j_url job)) <? _) eqn:E; [|apply Z.le_refl]. rewrite deadline_insert. case_decide as Hu; [subst|done].
        unfold deadline. simpl. lia.
    + destruct (RetryAfterMS (default no_schedule (schedules st !! j_url job)) <? _) eqn:E; [|apply Z.le_refl]. simpl. rewrite deadline_insert. case_decide as Hu; [subst|done].
      unfold deadline. simpl. lia.
  - unfold renew_script. by destruct (_ && _).
  - unfold force_script. destruct (claim_of clock u st); [done|]. destruct (_ && _); [done|]. simpl.
    destruct (schedules st !! u) as [s|] eqn:Es.
    + destruct (0 <? RetryAfterMS s) eqn:E.
      * rewrite deadline_insert. case_decide; [subst|done]. unfold deadline. rewrite Es. simpl. lia.
      * unfold deadline. simpl. breflect. destruct (decide (u = url)) as [->|Hne].
        -- rewrite lookup_delete_eq, Es. simpl. lia.
        -- by rewrite lookup_delete_ne.
    + simpl. unfold deadline. simpl. destruct (decide (u = url)) as [->|Hne].
      * rewrite lookup_delete_eq, Es. simpl. lia.
      * by rewrite lookup_delete_ne.
  - unfold deadline. simpl. rewrite lookup_delete_ne; [done|]. congruence.
Qed.

(** A provider's delay is never shortened: over any run that does not remove
    the source, the stored deadline only grows, and a completion or a forced
    run that takes effect leaves the source queued no earlier than it and than
    the deadline the completing worker reports. *)
Theorem retry_after_kept url l st :
  Forall (fun c => c.2 <> CDelSchedule url) l ->
  let st1 := exec_all keys home l st in
  deadline url st <= deadline url st1 /\
  (forall clock queue next incoming claim st2, queue ∈ keys -> 0 <= next ->
    complete_script clock queue (home url) url next incoming claim st1 = (1, st2) ->
    deadline url st1 <= deadline url st2 /\ RetryAfterMS incoming <= deadline url st2 /\
    exists q s, q ∈ keys /\ zscore (base st2) q url = Some s /\ next <= s /\ deadline url st2 <= s) /\
  (forall clock queue now payload st2, queue ∈ keys -> 0 <= now -> claim_of clock url st1 = None ->
    force_script clock queue url now payload st1 = (1, st2) ->
    deadline url st1 <= deadline url st2 /\
    exists s, zscore (base st2) queue url = Some s /\ now <= s /\ deadline url st2 <= s).
Proof.
  intros Hl. cbv zeta. split.
  { unfold exec_all. revert st. induction Hl as [|[clock c] l Hc Hl IH]; intros st; simpl; [lia|].
    etransitivity; [|apply IH]. by apply exec_deadline. }
  generalize (exec_all keys home l st) as st1. clear st l Hl. intros st1. split.
  - intros clock queue next incoming claim st2 Hq Hn Hcomp.
    assert (deadline url st1 <= deadline url st2) as Hmono.
    { pose proof (exec_deadline url clock (CComplete (MkJob url queue 0 claim incoming) next) st1 ltac:(done)) as Hd.
      simpl in Hd. by rewrite Hcomp in Hd. }
    split; [done|]. unfold complete_script in Hcomp.
    destruct (complete_target_spec queue url (base st1) Hq) as [Hq' _].
    destruct (complete_target queue (home url) url (base st1)) as [q score]. simpl in Hq'.
    destruct (get (base st1) (payload_key url)); [|done]. destruct score as [s1|]; [|done].
    case_bool_decide; [|done].
    set (retry := Z.max (RetryAfterMS (default no_schedule (schedules st1 !! url))) (RetryAfterMS incoming)) in *.
    assert (st2 = MkServer (index_head q (zadd q (Z.max next retry) url (base st1)))
      (<[url := if 0 <? retry then with_retry retry incoming else incoming]> (schedules st1))
      (delete url (leases st1)) (sequence st1)) as -> by congruence.
    rewrite deadline_insert, decide_True by done.
    assert (RetryAfterMS incoming <= retry) by (unfold retry; lia).
    assert (Z.max 0 (RetryAfterMS (if 0 <? retry then with_retry retry incoming else incoming)) = Z.max 0 retry) as ->.
    { destruct (0 <? retry) eqn:E; breflect; simpl; lia. }
    split; [lia|]. exists q, (Z.max next retry). split; [done|]. simpl.
    pose proof (queue_not_head q Hq'). rewrite zscore_index_head, zscore_zadd, decide_True by done.
    split; [done|]. lia.
  - intros clock queue now payload st2 Hq Hn Hcl Hforce.
    assert (deadline url st1 <= deadline url st2) as Hmono.
    { pose proof (exec_deadline url clock (CForce queue url now payload) st1 ltac:(done)) as Hd.
      simpl in Hd. by rewrite Hforce in Hd. }
    split; [done|]. unfold force_script in Hforce. rewrite Hcl in Hforce.
    destruct (_ && _); [done|]. inversion Hforce as [Hst]. clear Hforce. simpl.
    pose proof (queue_not_head queue Hq). rewrite zscore_index_head, zscore_zadd, decide_True by done.
    eexists. split; [done|]. split; [lia|].
    destruct (schedules st1 !! url) as [s|]; simpl.
    + destruct (0 <? RetryAfterMS s) eqn:E.
      * rewrite deadline_insert, decide_True by done. breflect. simpl. lia.
      * unfold deadline. simpl. rewrite lookup_delete_eq. simpl. lia.
    + unfold deadline. simpl. rewrite lookup_delete_eq. simpl. lia.
Qed.

(** ** The layout the operations keep *)

(** Commands that put entries only where the deployment looks for them. *)
Definition placed (c : command) : Prop :=
  match c with
  | CComplete job _ => j_queue job ∈ keys
  | CRenew job _ _ => j_queue job ∈ keys
  | CForce queue u _ payload => queue ∈ keys /\ (payload = "" \/ queue = home u)
  | CAddNX queue u _ => queue = home u
  | CZrem queue _ | CHeadLT queue _ => queue ∈ keys
  | _ => True
  end.

Lemma wf_fewer st b :
  sites_wf st -> heads_ok b ->
  (forall q u s, q ∈ keys -> zscore b q u = Some s -> is_Some (zscore (base st) q u) \/ q = home u) ->
  forall scheds ls sq, sites_wf (MkServer b scheds ls sq).
Proof.
  intros [_ Hp] Ho Hz scheds ls sq. split; [done|]. intros q u s Hq Hs. simpl in Hs.
  destruct (Hz q u s Hq Hs) as [[s0 Hs0]|]; [by eapply Hp|done].
Qed.

(** Storing an entry where it is already, or at home, and indexing it. *)
Lemma wf_entry st q u s b scheds ls sq :
  sites_wf st -> q ∈ keys -> heads_ok b ->
  (forall k v x, k ∈ keys -> zscore b k v = Some x -> is_Some (zscore (base st) k v)) ->
  is_Some (zscore (base st) q u) \/ q = home u ->
  sites_wf (MkServer (index_head q (zadd q s u b)) scheds ls sq).
Proof.
  intros Hwf Hq Hob Hb Hu. destruct (heads_ok_queue b q u s Hq Hob) as [Ho1 _].
  destruct (index_head_frame _ q Hq Ho1) as [[Hz _] Ho2]. apply (wf_fewer st); try done.
  intros k v x Hk. rewrite Hz, zscore_zadd by done. case_decide as Hd; [by destruct Hd as [-> ->]|].
  intros Hx. left. by eapply Hb.
Qed.

Lemma pop_loop_wf fuel clock current lease st : sites_wf st -> sites_wf (pop_loop fuel clock current lease st).2.
Proof.
  revert st. induction fuel as [|fuel IH]; intros st Hwf; simpl; [done|].
  destruct (zhead (base st) scrapesiteQueueHeadKey) as [[q indexed]|] eqn:Eh; [|done].
  pose proof Hwf as [Ho Hp].
  assert (q ∈ keys) as Hq by (apply zhead_Some in Eh as [Eh _]; by eapply Ho).
  assert (forall b, same_queues (base st) b /\ heads_ok b -> sites_wf (with_base b st)) as Hsame.
  { intros b [[Hz _] Hob]. apply (wf_fewer st); try done. intros k u s Hk. rewrite Hz by done. intros ->. left. by eexists. }
  destruct (zhead (base st) q) as [[m score]|] eqn:Eq; [|by apply IH, Hsame, zrem_head].
  destruct (negb (score =? indexed)); [by apply IH, Hsame, zadd_head|]. destruct (current <? score); [done|].
  apply zhead_Some in Eq as [Eq _].
  destruct (heads_ok_queue (base st) q m (current + lease) Hq Ho) as [Ho1 Ho2].
  destruct (get (base st) (payload_key m)).
  - destruct (refresh_site_head_frame _ q Hq Ho1) as [[Hz _] Ho3]. apply (wf_fewer st); try done.
    intros k u s0 Hk. rewrite Hz, zscore_zadd by done. case_decide as Hd.
    + destruct Hd as [-> ->]. left. rewrite Eq. by eexists.
    + intros ->. left. by eexists.
  - apply IH. destruct (refresh_site_head_frame _ q Hq Ho2) as [[Hz _] Ho3]. apply (wf_fewer st); try done.
    intros k u s0 Hk. rewrite Hz, zscore_zrem by done. case_decide; [done|]. intros ->. left. by eexists.
Qed.

Lemma site_exec_wf clock c st : sites_wf st -> placed c -> sites_wf (exec keys home clock c st).
Proof.
  intros Hwf Hc. pose proof Hwf as [Ho Hp].
  assert (forall b scheds ls sq, heads_ok b ->
    (forall q u s, q ∈ keys -> zscore b q u = Some s -> is_Some (zscore (base st) q u)) ->
    sites_wf (MkServer b scheds ls sq)) as Hless.
  { intros b scheds ls sq Hob Hz. apply (wf_fewer st); try done. intros q u s Hq Hs. left. by eapply Hz. }
  assert (forall q u s, q ∈ keys -> zscore (base st) q u = Some s -> is_Some (zscore (base st) q u)) as Hid
    by (intros q u s _ ->; by eexists).
  destruct c as [current lease|job next|job score period|q u now payload|u payload|q u s|q u|q s|u|u|u| |v]; simpl in *.
  - by apply pop_loop_wf.
  - unfold complete_script. destruct (complete_target_spec (j_queue job) (j_url job) (base st) Hc) as [Hq' Hz'].
    destruct (complete_target (j_queue job) (home (j_url job)) (j_url job) (base st)) as [q' score].
    simpl in Hq', Hz'. destruct (get _ _); [|done]. destruct score as [s0|]; [|by apply Hless].
    assert (is_Some (zscore (base st) q' (j_url job))) as Hin by (rewrite Hz'; by eexists).
    case_bool_decide; simpl; [apply (wf_entry st); try done; by left|].
    destruct (_ && _); [apply (wf_entry st); try done; by left|by apply Hless].
  - unfold renew_script. destruct (bool_decide (zscore (base st) (j_queue job) (j_url job) <> None)) eqn:E;
      [|by rewrite andb_false_r]. breflect. destruct (_ && _ && _); [|done].
    apply (wf_entry st); try done. left. by apply not_eq_None_Some.
  - destruct Hc as [Hq Hu]. unfold force_script. destruct (claim_of clock u st); [done|].
    destruct (String.eqb payload "" && bool_decide (zscore (base st) q u = None)) eqn:E; [done|]. simpl.
    set (b := if String.eqb payload "" then base st else set (payload_key u) payload (base st)).
    assert (forall k v, zscore b k v = zscore (base st) k v) as Hb.
    { intros k v. unfold b. destruct (String.eqb payload ""); by rewrite ?zscore_set. }
    assert (heads_ok b) as Hob by (intros k h; rewrite Hb; apply Ho).
    set (b' := if String.eqb q legacyScrapesiteQueueKey then b else zrem legacyScrapesiteQueueKey u b).
    assert (legacyScrapesiteQueueKey ∈ keys) as Hleg by apply site_legacy.
    apply (wf_entry st); try done.
    + unfold b'. destruct (String.eqb q _); [done|]. by apply heads_ok_queue.
    + intros k v x _ Hx. unfold b' in Hx. destruct (String.eqb q _); [rewrite Hb in Hx; by eexists|].
      rewrite zscore_zrem in Hx. case_decide; [done|]. rewrite Hb in Hx. by eexists.
    + destruct Hu as [->|]; [|by right]. simpl in E. breflect. left. by apply not_eq_None_Some.
  - apply Hless; [intros k h; rewrite zscore_set; apply Ho|]. intros q u' s Hq. rewrite zscore_set. by apply Hid.
  - subst q. unfold zadd_nx. destruct (zscore (base st) (home u) u) eqn:E; [by destruct st|].
    assert (home u ∈ keys) as Hq by apply site_home.
    apply (wf_fewer st); [done|by apply heads_ok_queue|]. intros k v x Hk. rewrite zscore_zadd.
    case_decide as Hd; [destruct Hd as [<- <-]; by right|]. intros ->. left. by eexists.
  - apply Hless; [by apply heads_ok_queue|]. intros k v x Hk. rewrite zscore_zrem. case_decide; [done|]. by apply Hid.
  - unfold zadd_lt. destruct (zscore (base st) scrapesiteQueueHeadKey q) as [s0|]; [destruct (s <? s0)|];
      try (by destruct st); destruct (zadd_head (base st) q s Hc Ho) as [[Hz _] Ho']; apply Hless; try done;
      intros k v x Hk; rewrite Hz by done; by apply Hid.
  - apply Hless; [intros k h; rewrite zscore_del; apply Ho|]. intros q u' s Hq. rewrite zscore_del. by apply Hid.
  - by apply Hless.
  - by apply Hless.
  - destruct (refresh_site_heads_frame keys (base st)) as [[Hz _] Ho']; [done|done|]. apply Hless; [done|].
    intros k v x Hk. rewrite Hz by done. by apply Hid.
  - apply Hless; [intros k h; rewrite zscore_set; apply Ho|]. intros q u' s Hq. rewrite zscore_set. by apply Hid.
Qed.
End Claims.

(** ** A deployment *)

Section Deployment.
Context {R : Type} `{RedisLaws R}.
Context (configured : Z).
Context (IsWebsiteBlocked : string -> bool).
Context (marshal : ScrapeSite -> string).

Definition site_shards : list string := NewRedisScrapeSiteQueue configured.
Notation keys := (site_pop_keys site_shards).
Notation home := (site_key_for site_shards).

Lemma elem_of_site_shards k : k ∈ site_shards -> exists i, k = scrapesiteQueueShardPrefix +:+ itoa (Z.of_nat i).
Proof.
  unfold site_shards, NewRedisScrapeSiteQueue, buildScrapeQueueShardKeys. cbn zeta. intros Hk.
  apply list_elem_of_fmap in Hk as (i & -> & _). by exists i.
Qed.

Lemma site_shards_nonempty : site_shards <> [].
Proof.
  unfold site_shards, NewRedisScrapeSiteQueue, buildScrapeQueueShardKeys, defaultScrapeQueueShards, maxScrapeQueueShards.
  cbn zeta. intros He. apply (f_equal length) in He. rewrite length_map, length_seq in He. simpl in He.
  destruct (configured <=? 0) eqn:E1; breflect; [done|]. destruct (64 <? configured) eqn:E2; breflect; lia.
Qed.

Lemma home_shard u : home u ∈ site_shards.
Proof.
  unfold site_key_for, siteQueueKeyForMember. pose proof site_shards_nonempty as Hne.
  destruct site_shards as [|k ks] eqn:Ek; [done|]. rewrite <- Ek in *.
  apply list_elem_of_In, nth_In. unfold scrapeQueueShardIndex.
  assert (0 < Z.of_nat (length site_shards)) by (rewrite Ek; simpl; lia).
  destruct (_ <=? 1) eqn:E; breflect; [lia|].
  pose proof (Z.mod_pos_bound (fnv32a u) (Z.of_nat (length site_shards))). lia.
Qed.

#[export] Instance site_layout : SiteLayout keys home.
Proof.
  assert (forall k, k ∈ site_shards -> k <> scrapesiteQueueHeadKey /\ k <> legacyScrapesiteQueueKey) as Hne.
  { intros k Hk. apply elem_of_site_shards in Hk as [i ->].
    unfold scrapesiteQueueShardPrefix, scrapesiteQueueHeadKey, legacyScrapesiteQueueKey.
    rewrite !str_app_cons, str_app_nil_l. split; intros He; by simplify_eq. }
  split.
  - intros u. right. apply home_shard.
  - unfold site_pop_keys, buildScrapePopQueueKeys. rewrite elem_of_cons. intros [He|Hin]; [done|]. by apply Hne in Hin as [].
  - by left.
  - intros u. apply (Hne _ (home_shard u)).
Qed.

(** The commands the operations send: any process, any time. *)
Inductive operation : command -> Prop :=
| op_add now sites c : c ∈ AddToQueue site_shards IsWebsiteBlocked marshal now sites -> operation c
| op_remove sites c : c ∈ RemoveFromQueue site_shards sites -> operation c
| op_force now site c : ForceScrapeSite site_shards marshal now site = Some c -> operation c
| op_next current lease : operation (CPop current lease)
| op_complete now job : j_queue job ∈ keys -> operation (CompleteScrapeSite now job)
| op_renew now period job : j_queue job ∈ keys -> operation (RenewScrapeSiteLease now period job)
| op_requeue interval now (r : R) c : c ∈ RequeueAll site_shards interval now r -> operation c
| op_reschedule interval c : c ∈ Reschedule interval -> operation c.

Lemma requeue_placed queue interval now count position members c :
  queue ∈ keys -> c ∈ requeue_commands queue interval now count position members -> placed keys home c.
Proof.
  intros Hq. revert position. induction members as [|m members IH]; intros position Hc; simpl in Hc; [inversion Hc|].
  apply elem_of_cons in Hc as [->|Hc]; [|by eapply IH]. split; [done|by left].
Qed.

Lemma operation_placed c : operation c -> placed keys home c.
Proof.
  assert (forall u, home u ∈ keys) as Hh by (intros u; apply site_home).
  assert (legacyScrapesiteQueueKey ∈ keys) as Hleg by apply (site_legacy (home := home)).
  intros Hop. destruct Hop as [now sites c Hc|sites c Hc|now site c Hc|current lease|now job Hq|now period job Hq
    |interval now r c Hc|interval c Hc]; try done.
  - unfold AddToQueue in Hc. apply list_elem_of_In, in_concat in Hc as (cs & Hcs & Hc).
    apply in_map_iff in Hcs as (site & <- & _). apply list_elem_of_In in Hc.
    unfold add_site_commands in Hc. destruct (String.eqb _ legacyScrapesiteQueueKey);
      rewrite !elem_of_app, !elem_of_cons, elem_of_nil in Hc; naive_solver.
  - unfold RemoveFromQueue in Hc. apply list_elem_of_In, in_concat in Hc as (cs & Hcs & Hc).
    apply in_map_iff in Hcs as (site & <- & _). apply list_elem_of_In in Hc.
    unfold remove_site_commands in Hc. destruct (String.eqb _ legacyScrapesiteQueueKey);
      rewrite !elem_of_app, !elem_of_cons, elem_of_nil in Hc; naive_solver.
  - unfold ForceScrapeSite in Hc. destruct (String.eqb _ _); [done|]. injection Hc as <-. split; [done|by right].
  - unfold RequeueAll in Hc. apply elem_of_app in Hc as [Hc|Hc]; [|set_solver].
    apply list_elem_of_In, in_concat in Hc as (cs & Hcs & Hc). apply in_map_iff in Hcs as (key & <- & Hk).
    apply list_elem_of_In in Hk, Hc. by eapply requeue_placed.
  - unfold Reschedule in Hc. set_unfold. naive_solver.
Qed.

Lemma exec_all_wf l (st : Server R) :
  sites_wf keys home st -> Forall (fun c => placed keys home c.2) l -> sites_wf keys home (exec_all keys home l st).
Proof.
  intros Hwf Hl. unfold exec_all. revert st Hwf. induction Hl as [|[clock c] l Hc Hl IH]; intros st Hwf; [done|].
  simpl. by apply IH, site_exec_wf; [apply _| |].
Qed.

(** The operations keep the queue well formed: any interleaving of the
    commands that imports, removals, forced runs, workers and interval changes
    of any number of processes send, cut off anywhere, leaves every source in
    at most its own shard and indexes only queues. *)
Theorem site_queue_wf_invariant l (st : Server R) :
  sites_wf keys home st -> Forall (fun c => operation c.2) l ->
  sites_wf keys home (exec_all keys home l st).
Proof.
  intros Hwf Hl. apply exec_all_wf; [done|]. eapply Forall_impl; [exact Hl|]. intros [clock c]. apply operation_placed.
Qed.
End Deployment.

(** ** One source on an empty server *)

Definition ex_empty : Server MemRedis := MkServer (MkRedis ∅ ∅) ∅ ∅ 0.

Definition ex_url : string := "http://list.example/a.txt".
Definition ex_site : ScrapeSite := MkSite 1 ex_url.
Definition ex_keys : list string := site_pop_keys (site_shards 2).
Definition ex_home : string -> string := site_key_for (site_shards 2).
Definition ex_add : list (Z * command) :=
  map (fun c => (1000, c)) (AddToQueue (site_shards 2) (fun _ => false) s_url 1000 [ex_site]).
Definition ex_queued : Server MemRedis := exec_all ex_keys ex_home ex_add ex_empty.
Definition ex_lease : Z := processingLease / Millisecond.

Lemma ex_empty_wf : sites_wf ex_keys ex_home ex_empty.
Proof.
  assert (forall k m, zscore (base ex_empty) k m = None) as Hn
    by (intros k m; unfold zscore; simpl; unfold zset; simpl; by rewrite !lookup_empty).
  split; intros q u; [by rewrite Hn|]. intros s _. by rewrite Hn.
Qed.

Lemma ex_add_operations : Forall (fun c => operation (R := MemRedis) 2 (fun _ => false) s_url c.2) ex_add.
Proof.
  apply Forall_forall. intros [clock c] Hc. apply list_elem_of_fmap in Hc as (c' & [= -> ->] & Hc). by eapply op_add.
Qed.

Lemma ex_queued_wf : sites_wf ex_keys ex_home ex_queued.
Proof.
  apply exec_all_wf; [exact ex_empty_wf|]. eapply Forall_impl; [exact ex_add_operations|].
  intros [clock c]. apply (operation_placed 2 (fun _ => false) s_url).
Qed.

Lemma site_queue_wf_invariant_witness : sites_wf ex_keys ex_home ex_queued.
Proof. apply (site_queue_wf_invariant 2 (fun _ => false) s_url ex_add ex_empty ex_empty_wf ex_add_operations). Defined.

Definition ex_others : list (Z * command) := [(2100, CPop 2100 ex_lease); (2200, CForce (ex_home ex_url) ex_url 2200 "")].

(** Popped at 2000 as claim 1, and still its worker's just before 302000. *)
Lemma site_claim_exclusive_witness :
  exists c st1, pop_script 2000 2000 ex_lease ex_queued = (inr c, st1) /\ c_url c = ex_url /\ c_claim c = 1 /\
    match (pop_script 2100 2100 ex_lease st1).1 with inr c' => c_url c' <> c_url c | inl _ => True end /\
    forall next incoming,
      (complete_script 301999 (c_queue c) (ex_home (c_url c)) (c_url c) next incoming (c_claim c)
        (exec_all ex_keys ex_home ex_others st1)).1 = 1.
Proof.
  destruct (pop_script 2000 2000 ex_lease ex_queued) as [[n|c] st1] eqn:E.
  { exfalso. apply (f_equal (fun r => match r.1 with inl _ => false | inr _ => true end)) in E. by vm_compute in E. }
  assert (c_url c = ex_url) as Hc.
  { apply (f_equal (fun r => match r.1 with inl _ => "" | inr c => c_url c end)) in E. destruct c. vm_compute in E |- *. congruence. }
  exists c, st1. split; [done|]. split; [done|].
  destruct (site_claim_exclusive ex_keys ex_home 2000 ex_lease ex_queued c st1 ex_others ex_queued_wf E) as (H1 & _ & _ & _ & H2 & H3).
  - unfold ex_others. rewrite Hc. forall_list; (split; [by vm_compute|]); [done|]. apply (site_home (SiteLayout := site_layout 2)).
  - split; [by rewrite H1|]. split.
    + by apply (H2 [] 2100 2100 ex_lease [(2200, CForce (ex_home ex_url) ex_url 2200 "")]).
    + apply (H3 301999). by vm_compute.
Defined.

(** A second worker whose claim was taken over reports a delay. *)
Definition ex_held_by_2 : Server MemRedis :=
  MkServer (base ex_queued) (schedules ex_queued) {[ ex_url := (2, 9000) ]} 2.
Definition ex_stale_job : ScrapeSiteJob := MkJob ex_url (ex_home ex_url) 8000 1 (with_retry 7000 no_schedule).

Lemma stale_site_worker_fenced_witness :
  claim_of 8000 ex_url ex_held_by_2 = Some 2 /\
  let '(reply, st') := complete_script 8000 (ex_home ex_url) (ex_home ex_url) ex_url 8500
    (with_retry 7000 no_schedule) 1 ex_held_by_2 in
  reply = 0 /\ leases st' = leases ex_held_by_2 /\ base st' = base ex_held_by_2.
Proof.
  split; [by vm_compute|].
  destruct (stale_site_worker_fenced ex_keys ex_home 8000 ex_stale_job 8500 ex_held_by_2) as [_ H].
  - by vm_compute.
  - apply (site_home (SiteLayout := site_layout 2)).
  - unfold ex_stale_job in H. cbn [j_queue j_url j_schedule j_claim] in H. destruct (complete_script _ _ _ _ _ _ _ ex_held_by_2) as [reply st'].
    destruct H as (Hr & Hl & _ & _ & _ & _ & Hb & _). split; [done|]. split; [done|]. apply Hb. by vm_compute.
Defined.

Lemma retry_after_kept_witness :
  deadline ex_url ex_held_by_2 <= deadline ex_url (exec_all ex_keys ex_home ex_others ex_held_by_2) /\
  exists q s, q ∈ ex_keys /\ s >= 7000 /\
    zscore (base (complete_script 8000 (ex_home ex_url) (ex_home ex_url) ex_url 6000
      (with_retry 7000 no_schedule) 2 (exec_all ex_keys ex_home [] ex_held_by_2)).2) q ex_url = Some s.
Proof.
  split.
  - assert (Forall (fun c => c.2 <> CDelSchedule ex_url) ex_others) as Hl by (unfold ex_others; forall_list; done).
    pose proof (retry_after_kept ex_keys ex_home ex_url ex_others ex_held_by_2 Hl) as Hk. cbv zeta in Hk.
    exact (proj1 Hk).
  - pose proof (retry_after_kept ex_keys ex_home ex_url [] ex_held_by_2 (Forall_nil_2 _)) as Hk. cbv zeta in Hk.
    apply proj2, proj1 in Hk. rename Hk into H.
    destruct (complete_script 8000 (ex_home ex_url) (ex_home ex_url) ex_url 6000
      (with_retry 7000 no_schedule) 2 (exec_all ex_keys ex_home [] ex_held_by_2)) as [reply st2] eqn:E.
    assert (reply = 1) as -> by (apply (f_equal fst) in E; vm_compute in E; congruence).
    destruct (H 8000 (ex_home ex_url) 6000 _ 2 st2 (site_home (SiteLayout := site_layout 2) ex_url) ltac:(lia) E) as (_ & Hr & q & s & Hq & Hs & _ & Hd).
    exists q, s. split; [done|]. split; [change (7000 <= deadline ex_url st2) in Hr; lia|done].
Defined.
End SiteQueue.
