(* ===== verification/FailureTracker.v ===== *)
(** * Failure streaks ([internal/jobs/checker/failure_tracker.go])

    Workers report the verdict of every check cycle.  The tracker batches the
    reports, resets or increments the streaks of the ownerships in the
    database, and pauses or deletes the ownerships whose streak reaches their
    workspace's threshold.  The table of ownerships ([user_proxies]) is a finite
    map; the SQL text is in the source, so each statement is a function on the
    table.  Any statement may fail: the state carries the outcomes the database
    will report ([true] is an error, and an error changes nothing). *)

From S2P Require Import Prelude.
Open Scope Z_scope.

Module FailureTracker.

Definition failureSQLChunkSize : nat := 200.
Definition failureStreakSaturation : Z := 255.

Inductive ManagedState := Active | Paused | Archived.

#[export] Instance ManagedState_eq_dec : EqDecision ManagedState.
Proof. solve_decision. Defined.

(** Workspace and route. *)
Definition failureKey : Type := Z * Z.

Record ManagedProxy := MkManaged {
  State : ManagedState;
  PauseReason : string;
  ConsecutiveFailures : Z
}.

Record DB := MkDB { rows : gmap failureKey ManagedProxy; outcomes : list bool }.

(** One statement, or one transaction. *)
Definition statement {A : Type} (f : gmap failureKey ManagedProxy -> A * gmap failureKey ManagedProxy)
    (d : DB) : option A * DB :=
  match outcomes d with
  | true :: rest => (None, MkDB (rows d) rest)
  | o => let '(a, t) := f (rows d) in (Some a, MkDB t (tail o))
  end.

Record failureEvent := MkEvent {
  WorkspaceID : Z;
  Success : bool;
  AutoRemove : bool;
  FailureThreshold : Z;
  FailureAction : string;
  HasEligibleChecks : bool
}.

(** [cancelled]: the caller's context is done when the batch is processed. *)
Record failureRequest := MkRequest { cancelled : bool; proxyID : Z; events : list failureEvent }.

Record failureResponse := MkResponse {
  removedWorkspaces : gset Z;
  orphaned : list Z;
  err : bool
}.

(** [request] is the position of the request in the batch. *)
Record failureIncrementEntry := MkEntry {
  request : nat;
  key : failureKey;
  autoRemove : bool;
  threshold : Z;
  action : string
}.

Definition set_failures (n : Z) (r : ManagedProxy) : ManagedProxy :=
  MkManaged (State r) (PauseReason r) n.

(** [pairs[start:end]] for every chunk of the loop. *)
Fixpoint chunks_of {A} (fuel : nat) (l : list A) : list (list A) :=
  match fuel, l with
  | S fuel', _ :: _ => take failureSQLChunkSize l :: chunks_of fuel' (drop failureSQLChunkSize l)
  | _, _ => []
  end.

Definition chunks {A} (l : list A) : list (list A) := chunks_of (length l) l.

Section Tracker.
(** [isPostgresDialect], and the rows of [proxies]. *)
Context (isPostgres : bool) (proxies : gset Z).
(** The order in which Go iterates over the reset candidates. *)
Context (order : list failureKey -> list failureKey).

(** ** Streaks *)

Definition reset_key (t : gmap failureKey ManagedProxy) (k : failureKey) : gmap failureKey ManagedProxy :=
  alter (set_failures 0) k t.

Fixpoint reset_each (pairs : list failureKey) (d : DB) : option unit * DB :=
  match pairs with
  | [] => (Some tt, d)
  | k :: rest =>
      match statement (fun t => (tt, reset_key t k)) d with
      | (None, d) => (None, d)
      | (Some _, d) => reset_each rest d
      end
  end.

Definition execResetChunk (pairs : list failureKey) (d : DB) : option unit * DB :=
  match pairs with
  | [] => (Some tt, d)
  | _ =>
      if negb isPostgres then reset_each pairs d
      else statement (fun t => (tt, fold_left reset_key pairs t)) d
  end.

Fixpoint reset_chunks (l : list (list failureKey)) (d : DB) : option unit * DB :=
  match l with
  | [] => (Some tt, d)
  | c :: rest =>
      match execResetChunk c d with
      | (None, d) => (None, d)
      | (Some _, d) => reset_chunks rest d
      end
  end.

Definition applyFailureResets (candidates : list failureKey) (d : DB) : option unit * DB :=
  match candidates with
  | [] => (Some tt, d)
  | _ => reset_chunks (chunks (order candidates)) d
  end.

(** [UPDATE ... FROM updates ... RETURNING]: a row that several updates match
    is updated once. *)
Fixpoint update_returning (keys : list failureKey) (t : gmap failureKey ManagedProxy)
    : gmap failureKey Z * gmap failureKey ManagedProxy :=
  match keys with
  | [] => (∅, t)
  | k :: rest =>
      let '(counts, t) := update_returning rest t in
      match t !! k with
      | Some r =>
          if ConsecutiveFailures r <? failureStreakSaturation then
            let n := ConsecutiveFailures r + 1 in
            (<[k := n]> counts, <[k := set_failures n r]> t)
          else (counts, t)
      | None => (counts, t)
      end
  end.

(** The SQLite path: one read and one write per entry. *)
Fixpoint execIncrementChunkFallback (entries : list failureIncrementEntry) (result : gmap failureKey Z)
    (d : DB) : option (gmap failureKey Z) * DB :=
  match entries with
  | [] => (Some result, d)
  | e :: rest =>
      match statement (fun t => (t !! key e, t)) d with
      | (None, d) | (Some None, d) => (None, d)
      | (Some (Some row), d) =>
          if failureStreakSaturation <=? ConsecutiveFailures row then
            execIncrementChunkFallback rest (<[key e := ConsecutiveFailures row]> result) d
          else
            let newVal := wrap_unsigned 16 (ConsecutiveFailures row + 1) in
            match statement (fun t => (tt, alter (set_failures newVal) (key e) t)) d with
            | (None, d) => (None, d)
            | (Some _, d) => execIncrementChunkFallback rest (<[key e := newVal]> result) d
            end
      end
  end.

Definition execIncrementChunk (entries : list failureIncrementEntry) (d : DB)
    : option (gmap failureKey Z) * DB :=
  match entries with
  | [] => (Some ∅, d)
  | _ =>
      if negb isPostgres then execIncrementChunkFallback entries ∅ d
      else statement (update_returning (dedup_go [] (map key entries))) d
  end.

Fixpoint increment_chunks (l : list (list failureIncrementEntry)) (counts : gmap failureKey Z) (d : DB)
    : option (gmap failureKey Z) * DB :=
  match l with
  | [] => (Some counts, d)
  | c :: rest =>
      match execIncrementChunk c d with
      | (None, d) => (None, d)
      | (Some chunkCounts, d) => increment_chunks rest (chunkCounts ∪ counts) d
      end
  end.

Definition applyFailureIncrements (entries : list failureIncrementEntry) (d : DB)
    : option (gmap failureKey Z) * DB :=
  increment_chunks (chunks entries) ∅ d.

Definition failureCount (counts : gmap failureKey Z) (e : failureIncrementEntry) : Z :=
  match counts !! key e with Some count => count | None => failureStreakSaturation end.

(** ** Threshold actions *)

(** [FailureActionDelete] *)
Definition is_delete (action : string) : bool := String.eqb action "delete".

(** [Workspace.EffectiveFailureAction] *)
Definition EffectiveFailureAction (action : string) : string :=
  if is_delete action then "delete" else "pause".

Definition is_active (r : ManagedProxy) : bool := bool_decide (State r = Active).

(** [proxiesWithoutActiveManagement] *)
Definition without_active (t : gmap failureKey ManagedProxy) (p : Z) : list Z :=
  if bool_decide (p ∈ proxies) &&
     negb (existsb (fun '(k, r) => (k.2 =? p) && is_active r) (map_to_list t))
  then [p] else [].

(** The transactions of [PauseManagedProxy] and [DeleteActiveManagedProxy]. *)
Definition pause_tx (k : failureKey) (t : gmap failureKey ManagedProxy) : bool * gmap failureKey ManagedProxy :=
  match t !! k with
  | Some r => if is_active r then (true, <[k := MkManaged Paused "failure" (ConsecutiveFailures r)]> t) else (false, t)
  | None => (false, t)
  end.

Definition delete_tx (k : failureKey) (t : gmap failureKey ManagedProxy) : bool * gmap failureKey ManagedProxy :=
  match t !! k with
  | Some r => if is_active r then (true, delete k t) else (false, t)
  | None => (false, t)
  end.

(** Whether the ownership changed, the routes that became inactive, and
    whether an error is reported. *)
Definition manage (tx : failureKey -> gmap failureKey ManagedProxy -> bool * gmap failureKey ManagedProxy)
    (k : failureKey) (d : DB) : (bool * list Z * bool) * DB :=
  match statement (tx k) d with
  | (None, d) => ((false, [], true), d)
  | (Some false, d) => ((false, [], false), d)
  | (Some true, d) =>
      match statement (fun t => (without_active t k.2, t)) d with
      | (None, d) => ((true, [], true), d)
      | (Some inactive, d) => ((true, inactive, false), d)
      end
  end.

Definition PauseManagedProxy := manage pause_tx.
Definition DeleteActiveManagedProxy := manage delete_tx.

Definition markRemoved (w : Z) (resp : failureResponse) : failureResponse :=
  MkResponse ({[w]} ∪ removedWorkspaces resp) (orphaned resp) (err resp).

Definition add_orphaned (l : list Z) (resp : failureResponse) : failureResponse :=
  MkResponse (removedWorkspaces resp) (orphaned resp ++ l) (err resp).

Definition with_err (resp : failureResponse) : failureResponse :=
  MkResponse (removedWorkspaces resp) (orphaned resp) true.

Definition no_response : failureResponse := MkResponse ∅ [] false.

(** The loop over the increments; the flag is the error that ends it. *)
Fixpoint act_loop (counts : gmap failureKey Z) (entries : list failureIncrementEntry)
    (responses : gmap nat failureResponse) (d : DB) : (gmap nat failureResponse * bool) * DB :=
  match entries with
  | [] => ((responses, false), d)
  | e :: rest =>
      if negb (autoRemove e) || (threshold e =? 0) then act_loop counts rest responses d
      else if failureCount counts e <? threshold e then act_loop counts rest responses d
      else
        let '((changed, inactive, actionErr), d) :=
          if is_delete (EffectiveFailureAction (action e)) then DeleteActiveManagedProxy (key e) d
          else PauseManagedProxy (key e) d in
        let responses :=
          if changed then alter (fun resp => add_orphaned inactive (markRemoved (key e).1 resp)) (request e) responses
          else responses in
        if actionErr then ((responses, true), d) else act_loop counts rest responses d
  end.

(** ** A batch *)

Definition reset_candidates (active : list (nat * failureRequest)) : list failureKey :=
  flat_map (fun '(_, r) =>
    map (fun ev => (WorkspaceID ev, proxyID r))
      (filter (fun ev => HasEligibleChecks ev && Success ev = true) (events r))) active.

Definition increments_of (active : list (nat * failureRequest)) : list failureIncrementEntry :=
  flat_map (fun '(i, r) =>
    map (fun ev => MkEntry i (WorkspaceID ev, proxyID r) (AutoRemove ev) (FailureThreshold ev) (FailureAction ev))
      (filter (fun ev => HasEligibleChecks ev && negb (Success ev) = true) (events r))) active.

Definition failBatch (active : list (nat * failureRequest)) : list (nat * failureResponse) :=
  map (fun '(i, _) => (i, MkResponse ∅ [] true)) active.

Definition respond_all (active : list (nat * failureRequest)) (responses : gmap nat failureResponse)
    (failed : bool) : list (nat * failureResponse) :=
  map (fun '(i, _) =>
    let resp := default no_response (responses !! i) in
    (i, if failed then with_err resp else resp)) active.

(** The requests of a batch that are not cancelled, with their positions. *)
Definition active_requests (batch : list failureRequest) : list (nat * failureRequest) :=
  filter (fun ir => cancelled ir.2 = false) (imap pair batch).

(** [processBatch]: the responses in the order they are sent, and the database. *)
Definition processBatch (batch : list failureRequest) (d : DB) : list (nat * failureResponse) * DB :=
  let indexed := imap pair batch in
  let refused := map (fun ir => (ir.1, MkResponse ∅ [] true)) (filter (fun ir => cancelled ir.2 = true) indexed) in
  let active := active_requests batch in
  match active with
  | [] => (refused, d)
  | _ =>
      match applyFailureResets (reset_candidates active) d with
      | (None, d) => (refused ++ failBatch active, d)
      | (Some _, d) =>
          let increments := increments_of active in
          match applyFailureIncrements increments d with
          | (None, d) => (refused ++ failBatch active, d)
          | (Some counts, d) =>
              let responses := list_to_map (map (fun ir => (ir.1, no_response)) active) in
              let '((responses, failed), d) := act_loop counts increments responses d in
              (refused ++ respond_all active responses failed, d)
          end
      end
  end.
End Tracker.

(** ** Around the tracker ([thread_handler.go]) *)

Record Workspace := MkWorkspace {
  WsID : Z;
  AutoRemoveFailingProxies : bool;
  AutoRemoveFailureThreshold : Z;
  WsFailureAction : string
}.

(** The events [handleFailureTracking] submits for a route. *)
Definition handleFailureTracking (workspaces : list Workspace) (workspaceSuccess workspaceHasChecks : gmap Z bool)
    : list failureEvent :=
  map (fun w => MkEvent (WsID w) (default false (workspaceSuccess !! WsID w)) (AutoRemoveFailingProxies w)
                  (AutoRemoveFailureThreshold w) (EffectiveFailureAction (WsFailureAction w)) true)
    (filter (fun w => default false (workspaceHasChecks !! WsID w) = true) workspaces).

Definition filterRemovedWorkspaces (workspaces : list Workspace) (removed : gset Z) : list Workspace :=
  filter (fun w => WsID w ∉ removed) workspaces.

Definition collectCheckWorkspaceIDs (checks : list Z) : list Z :=
  dedup_go [] (filter (fun w => w <> 0) checks).
(** ** Streak updates keep states and grow slowly *)

(** Non-negative streaks (the column is a [uint16]). *)
Definition streaks_ok (t : gmap failureKey ManagedProxy) : Prop :=
  forall k r, t !! k = Some r -> 0 <= ConsecutiveFailures r.

(** From [t] to [t'] an ownership keeps its presence and state, and its streak
    grows by at most [n]. *)
Definition grew (n : Z) (k : failureKey) (t t' : gmap failureKey ManagedProxy) : Prop :=
  match t !! k with
  | None => t' !! k = None
  | Some r => exists r', t' !! k = Some r' /\ State r' = State r /\ PauseReason r' = PauseReason r /\
      0 <= ConsecutiveFailures r' <= ConsecutiveFailures r + n
  end.

Lemma grew_refl k t : streaks_ok t -> grew 0 k t t.
Proof. intros Hok. unfold grew. destruct (t !! k) as [r|] eqn:E; [|done]. exists r. apply Hok in E. repeat split; lia. Qed.

Lemma grew_trans n m k a b c : grew n k a b -> grew m k b c -> grew (n + m) k a c.
Proof.
  unfold grew. destruct (a !! k) as [r|]; [|by intros ->].
  intros (r1 & -> & Hs1 & Hp1 & Hf1) (r2 & -> & Hs2 & Hp2 & Hf2).
  exists r2. repeat split; try congruence; lia.
Qed.

Lemma grew_weaken n m k a b : n <= m -> grew n k a b -> grew m k a b.
Proof.
  unfold grew. destruct (a !! k) as [r|]; [|done]. intros Hle (r' & ? & ? & ? & ?). exists r'. repeat split; try done; lia.
Qed.

Lemma grew_ok (f : failureKey -> Z) t t' : (forall k, grew (f k) k t t') -> streaks_ok t'.
Proof.
  intros Hg k r Hr. specialize (Hg k). unfold grew in Hg. destruct (t !! k); [|congruence].
  destruct Hg as (r' & Hr' & _ & _ & ?). replace r with r' by congruence. lia.
Qed.

Lemma statement_cases {A} (f : gmap failureKey ManagedProxy -> A * gmap failureKey ManagedProxy) d o d' :
  statement f d = (o, d') ->
  (o = None /\ rows d' = rows d) \/ exists a, o = Some a /\ f (rows d) = (a, rows d').
Proof.
  unfold statement. destruct (outcomes d) as [|[] os]; [|by intros [= <- <-]; left|];
    destruct (f (rows d)) as [a t] eqn:E; intros [= <- <-]; right; by exists a.
Qed.

Lemma reset_key_grew t k k' : streaks_ok t -> grew 0 k' t (reset_key t k).
Proof.
  intros Hok. unfold reset_key. destruct (decide (k = k')) as [->|Hne].
  - unfold grew. rewrite lookup_alter_eq. destruct (t !! k') as [r|] eqn:E; cbn; [|done].
    eexists. split; [reflexivity|]. cbn. apply Hok in E. repeat split; lia.
  - unfold grew. rewrite lookup_alter_ne by done. by apply grew_refl.
Qed.

Lemma resets_grew pairs t k : streaks_ok t -> grew 0 k t (fold_left reset_key pairs t).
Proof.
  revert t. induction pairs as [|p pairs IH]; intros t Hok; cbn; [by apply grew_refl|].
  apply (grew_trans 0 0 k t (reset_key t p)); [by apply reset_key_grew|]. apply IH.
  apply (grew_ok (fun _ => 0) t). intros. by apply reset_key_grew.
Qed.

Section Growth.
Context (isPostgres : bool).

Lemma reset_each_grew pairs d o d' k : streaks_ok (rows d) -> reset_each pairs d = (o, d') ->
  grew 0 k (rows d) (rows d').
Proof.
  revert d. induction pairs as [|p pairs IH]; intros d Hok; cbn.
  { intros [= <- <-]. by apply grew_refl. }
  destruct (statement _ d) as [o1 d1] eqn:E. apply statement_cases in E as [[-> Hr]|(a & -> & Hr)].
  - intros [= <- <-]. rewrite Hr. by apply grew_refl.
  - injection Hr as Ha Hr. intros He.
    assert (Hg : forall k, grew 0 k (rows d) (rows d1)) by (intros; rewrite <- Hr; by apply reset_key_grew).
    apply (grew_trans 0 0 k _ (rows d1)); [done|]. apply IH; [|done]. by apply (grew_ok (fun _ => 0) (rows d)).
Qed.

Lemma reset_chunk_grew c d o d' k : streaks_ok (rows d) -> execResetChunk isPostgres c d = (o, d') ->
  grew 0 k (rows d) (rows d').
Proof.
  intros Hok. unfold execResetChunk. destruct c as [|p c]; [intros [= <- <-]; by apply grew_refl|].
  destruct isPostgres; cbn [negb]; [|by apply reset_each_grew].
  intros [[_ Hr]|(a & _ & Hr)]%statement_cases; [rewrite Hr; by apply grew_refl|].
  injection Hr as _ Hr. rewrite <- Hr. by apply (resets_grew (p :: c)).
Qed.

Lemma applyFailureResets_grew order cands d o d' k : streaks_ok (rows d) ->
  applyFailureResets isPostgres order cands d = (o, d') -> grew 0 k (rows d) (rows d').
Proof.
  intros Hok. unfold applyFailureResets. destruct cands as [|p cs]; [intros [= <- <-]; by apply grew_refl|].
  generalize (chunks (order (p :: cs))). intros l. revert d Hok. induction l as [|c l IH]; intros d Hok; cbn.
  { intros [= <- <-]. by apply grew_refl. }
  destruct (execResetChunk isPostgres c d) as [o1 d1] eqn:E.
  assert (Hg : forall k, grew 0 k (rows d) (rows d1)) by (intros; by eapply reset_chunk_grew).
  destruct o1; [|by intros [= <- <-]]. intros He.
  apply (grew_trans 0 0 k _ (rows d1)); [done|]. apply IH; [|done]. by apply (grew_ok (fun _ => 0) (rows d)).
Qed.

(** How often an ownership fails in a list of entries. *)
Definition occ (k : failureKey) (entries : list failureIncrementEntry) : Z :=
  Z.of_nat (length (filter (fun e => key e = k) entries)).

Lemma occ_cons k e l : occ k (e :: l) = (if decide (key e = k) then 1 else 0) + occ k l.
Proof. unfold occ. rewrite filter_cons. case_decide; cbn [length]; lia. Qed.

Lemma occ_app k a b : occ k (a ++ b) = occ k a + occ k b.
Proof. unfold occ. rewrite filter_app, length_app. lia. Qed.

Lemma occ_pos k l : 0 <= occ k l.
Proof. unfold occ. lia. Qed.

Lemma occ_elem k l : k ∈ map key l -> 1 <= occ k l.
Proof.
  induction l as [|e l IH]; cbn; [by intros ?%elem_of_nil|]. rewrite occ_cons, elem_of_cons.
  intros [->|Hin]; [rewrite decide_True by done; pose proof (occ_pos (key e) l); lia|].
  pose proof (IH Hin). case_decide; lia.
Qed.

(** What an increment reports: for an ownership it touched, at most the old
    streak plus its occurrences, or saturation when it reports nothing. *)
Definition counted (n : Z) (k : failureKey) (t : gmap failureKey ManagedProxy) (counts : gmap failureKey Z)
    (touched : Prop) : Prop :=
  (touched -> forall r, t !! k = Some r ->
     default failureStreakSaturation (counts !! k) <= ConsecutiveFailures r + n) /\
  (~ touched -> counts !! k = None).

Lemma update_returning_spec keys t counts t' : NoDup keys -> update_returning keys t = (counts, t') ->
  forall k,
    t' !! k = (if decide (k ∈ keys)
               then (fun r => if ConsecutiveFailures r <? failureStreakSaturation
                              then set_failures (ConsecutiveFailures r + 1) r else r) <$> t !! k
               else t !! k) /\
    counts !! k = (if decide (k ∈ keys)
                   then r ← t !! k; if ConsecutiveFailures r <? failureStreakSaturation
                                    then Some (ConsecutiveFailures r + 1) else None
                   else None).
Proof.
  intros Hnd. revert counts t'. induction Hnd as [|k0 keys Hk0 Hnd IH]; intros counts t'; cbn.
  { intros [= <- <-] k. rewrite decide_False by apply not_elem_of_nil. by rewrite lookup_empty. }
  destruct (update_returning keys t) as [c1 t1] eqn:E. destruct (IH c1 t1 eq_refl k0) as [Ht0 Hc0].
  rewrite decide_False in Ht0 by done. rewrite decide_False in Hc0 by done. intros He k. destruct (IH c1 t1 eq_refl k) as [Ht Hc].
  destruct (decide (k = k0)) as [->|Hne].
  - rewrite !decide_True by (by left). rewrite Ht0 in He. destruct (t !! k0) as [r|] eqn:Er; cbn.
    + destruct (_ <? _) eqn:El; injection He as <- <-; cbn.
      * by rewrite !lookup_insert_eq.
      * by rewrite Ht0, Hc0.
    + injection He as <- <-. by rewrite Ht0, Hc0.
  - assert (Hk : t' !! k = t1 !! k /\ counts !! k = c1 !! k).
    { destruct (t1 !! k0) as [r|]; [destruct (_ <? _)|]; injection He as <- <-;
        by rewrite ?lookup_insert_ne by done. }
    destruct Hk as [-> ->]. rewrite Ht, Hc. repeat case_decide; set_solver.
Qed.
Lemma set_one_grew k0 n t k r0 : streaks_ok t -> t !! k0 = Some r0 -> 0 <= n <= ConsecutiveFailures r0 + 1 ->
  grew (if decide (k0 = k) then 1 else 0) k t (alter (set_failures n) k0 t).
Proof.
  intros Hok Hr0 Hn. case_decide as Hk; [subst k0|].
  - unfold grew. rewrite Hr0, lookup_alter_eq, Hr0. eexists. split; [reflexivity|]. cbn. repeat split; lia.
  - unfold grew. rewrite lookup_alter_ne by done. by apply grew_refl.
Qed.

Lemma fallback_spec entries result d o d' : streaks_ok (rows d) ->
  execIncrementChunkFallback entries result d = (o, d') ->
  (forall k, grew (occ k entries) k (rows d) (rows d')) /\
  forall counts, o = Some counts -> forall k,
    (k ∈ map key entries -> forall r, rows d !! k = Some r ->
       exists c, counts !! k = Some c /\ c <= ConsecutiveFailures r + occ k entries) /\
    (k ∉ map key entries -> counts !! k = result !! k).
Proof.
  revert result d. induction entries as [|e rest IH]; intros result d Hok; cbn [execIncrementChunkFallback map].
  { intros [= <- <-]. split; [intros k; by apply grew_refl|]. intros counts [= <-] k. split; [by intros ?%elem_of_nil|done]. }
  assert (Hfail : forall k, grew (occ k (e :: rest)) k (rows d) (rows d)).
  { intros k. apply (grew_weaken 0); [apply occ_pos|by apply grew_refl]. }
  destruct (statement (fun t => (t !! key e, t)) d) as [o1 d1] eqn:E1.
  apply statement_cases in E1 as [[-> Hr1]|(a & -> & Hr1)].
  { intros [= <- <-]. rewrite Hr1. split; [done|]. done. }
  injection Hr1 as <- Hr1. destruct (rows d !! key e) as [r0|] eqn:Er0.
  2:{ intros [= <- <-]. rewrite <- Hr1. split; done. }
  assert (Hstep : forall c d2, (forall k, grew (if decide (key e = k) then 1 else 0) k (rows d) (rows d2)) ->
    c <= ConsecutiveFailures r0 + 1 ->
    execIncrementChunkFallback rest (<[key e := c]> result) d2 = (o, d') ->
    (forall k, grew (occ k (e :: rest)) k (rows d) (rows d')) /\
    forall counts, o = Some counts -> forall k,
      (k ∈ key e :: map key rest -> forall r, rows d !! k = Some r ->
         exists c, counts !! k = Some c /\ c <= ConsecutiveFailures r + occ k (e :: rest)) /\
      (k ∉ key e :: map key rest -> counts !! k = result !! k)).
  { intros c d2 Hg Hc He. destruct (IH _ d2 (grew_ok _ _ _ Hg) He) as [Hg2 Hcnt]. split.
    - intros k. rewrite occ_cons. by eapply grew_trans.
    - intros counts Hcounts k. destruct (Hcnt counts Hcounts k) as [Hin Hout]. split.
      + intros Hk r Hr. specialize (Hg k). unfold grew in Hg. rewrite Hr in Hg.
        destruct Hg as (r2 & Hr2 & _ & _ & Hle). rewrite occ_cons.
        destruct (decide (k ∈ map key rest)) as [Hkr|Hkr].
        * destruct (Hin Hkr r2 Hr2) as (c2 & Hc2 & Hle2). exists c2. split; [done|]. lia.
        * apply elem_of_cons in Hk as [->|]; [|done]. rewrite (Hout Hkr), lookup_insert_eq.
          exists c. split; [done|]. rewrite decide_True by done. pose proof (occ_pos (key e) rest).
          replace r with r0 by congruence. lia.
      + intros [Hne Hk]%not_elem_of_cons. rewrite (Hout Hk). by rewrite lookup_insert_ne. }
  destruct (failureStreakSaturation <=? ConsecutiveFailures r0) eqn:El; breflect.
  - apply Hstep; [|lia]. intros k. rewrite <- Hr1.
    apply (grew_weaken 0); [case_decide; lia|by apply grew_refl].
  - pose proof (Hok _ _ Er0). unfold failureStreakSaturation in El.
    rewrite wrap_unsigned_id by lia.
    destruct (statement _ d1) as [o2 d2] eqn:E2. apply statement_cases in E2 as [[-> Hr2]|(a & -> & Hr2)].
    { intros [= <- <-]. rewrite Hr2, <- Hr1. split; done. }
    injection Hr2 as _ Hr2. apply Hstep; [|lia]. intros k. rewrite <- Hr2, <- Hr1.
    apply (set_one_grew _ _ _ _ r0); [done|done|lia].
Qed.

Lemma increment_chunk_spec c d o d' : streaks_ok (rows d) -> execIncrementChunk isPostgres c d = (o, d') ->
  (forall k, grew (occ k c) k (rows d) (rows d')) /\
  forall counts, o = Some counts -> forall k, counted (occ k c) k (rows d) counts (k ∈ map key c).
Proof.
  intros Hok. unfold execIncrementChunk. destruct c as [|e c].
  { intros [= <- <-]. split; [intros k; by apply grew_refl|]. intros counts [= <-] k. split; [by intros ?%elem_of_nil|].
    intros _. apply lookup_empty. }
  destruct isPostgres; cbn [negb].
  - intros [[-> Hr]|(counts & -> & Hr)]%statement_cases.
    { rewrite Hr. split; [|done]. intros k. apply (grew_weaken 0); [apply occ_pos|by apply grew_refl]. }
    pose proof (update_returning_spec _ _ _ _ (NoDup_dedup_go (map key (e :: c)) []) Hr) as Hu.
    assert (Hin : forall k, k ∈ dedup_go [] (map key (e :: c)) <-> k ∈ map key (e :: c)).
    { intros k. rewrite elem_of_dedup_go. split; [by intros [? _]|]. intros. split; [done|apply not_elem_of_nil]. }
    split.
    + intros k. destruct (Hu k) as [Ht _]. unfold grew. rewrite Ht.
      destruct (rows d !! k) as [r|] eqn:Er; [|by case_decide]. pose proof (Hok k r Er). pose proof (occ_pos k (e :: c)).
      case_decide as Hk; cbn; [|exists r; repeat split; lia].
      apply Hin, occ_elem in Hk. destruct (_ <? _); eexists; (split; [reflexivity|]); cbn; repeat split; lia.
    + intros counts' [= <-] k. destruct (Hu k) as [_ Hc]. split.
      * intros Hk r Hr0. rewrite Hc, decide_True by by apply Hin. rewrite Hr0. cbn.
        apply occ_elem in Hk. destruct (_ <? _) eqn:El; breflect; cbn; unfold failureStreakSaturation in *; lia.
      * intros Hk. rewrite Hc, decide_False; [done|]. by rewrite Hin.
  - intros Hf. destruct (fallback_spec _ _ _ _ _ Hok Hf) as [Hg Hc]. split; [done|].
    intros counts Ho k. destruct (Hc counts Ho k) as [Hin Hout]. split.
    + intros Hk r Hr. destruct (Hin Hk r Hr) as (x & -> & ?). done.
    + intros Hk. by rewrite (Hout Hk), lookup_empty.
Qed.

Lemma increment_chunks_spec l seen counts0 d0 d o d' :
  streaks_ok (rows d0) ->
  (forall k, grew (occ k seen) k (rows d0) (rows d) /\ counted (occ k seen) k (rows d0) counts0 (k ∈ map key seen)) ->
  increment_chunks isPostgres l counts0 d = (o, d') ->
  (exists n, forall k, grew (n k) k (rows d0) (rows d')) /\
  forall counts, o = Some counts -> forall k,
    grew (occ k (seen ++ concat l)) k (rows d0) (rows d') /\
    counted (occ k (seen ++ concat l)) k (rows d0) counts (k ∈ map key (seen ++ concat l)).
Proof.
  intros Hok0. revert seen counts0 d. induction l as [|c l IH]; intros seen counts0 d Hinv; cbn [increment_chunks concat].
  { intros [= <- <-]. split; [exists (fun k => occ k seen); intros k; apply Hinv|].
    intros counts [= <-] k. rewrite app_nil_r. apply Hinv. }
  destruct (execIncrementChunk isPostgres c d) as [o1 d1] eqn:E.
  assert (Hok : streaks_ok (rows d)) by (apply (grew_ok (fun k => occ k seen) (rows d0)); intros; apply Hinv).
  destruct (increment_chunk_spec _ _ _ _ Hok E) as [Hg Hc]. destruct o1 as [cc|].
  2:{ intros [= <- <-]. split; [|done]. exists (fun k => occ k seen + occ k c). intros k.
      eapply grew_trans; [apply Hinv|apply Hg]. }
  intros He. rewrite app_assoc. apply (IH (seen ++ c) (cc ∪ counts0) d1); [|done].
  intros k. destruct (Hinv k) as [Hgk [Hin Hout]]. destruct (Hc cc eq_refl k) as [Hcin Hcout].
  rewrite occ_app, map_app. split; [by eapply grew_trans|]. split.
  - intros Hk r Hr. apply elem_of_app in Hk. unfold grew in Hgk. rewrite Hr in Hgk. destruct Hgk as (r1 & Hr1 & _ & _ & Hle).
    pose proof (occ_pos k c). pose proof (occ_pos k seen). rewrite lookup_union.
    destruct (decide (k ∈ map key c)) as [Hkc|Hkc].
    + specialize (Hcin Hkc r1 Hr1). destruct (cc !! k) as [x|] eqn:Ex; cbn in *; [rewrite union_Some_l; cbn; lia|].
      destruct (counts0 !! k) as [y|] eqn:Ey; cbn in *; [|lia].
      destruct (decide (k ∈ map key seen)) as [Hks|Hks]; [specialize (Hin Hks r Hr); lia|].
      by specialize (Hout Hks).
    + rewrite (Hcout Hkc). destruct Hk as [Hks|]; [|done]. specialize (Hin Hks r Hr).
      destruct (counts0 !! k); cbn in *; lia.
  - intros Hk. apply not_elem_of_app in Hk as [Hk1 Hk2]. by rewrite lookup_union, (Hcout Hk2), (Hout Hk1).
Qed.

Lemma concat_chunks {A} (l : list A) : concat (chunks l) = l.
Proof.
  unfold chunks. assert (Hle : (length l <= length l)%nat) by lia. revert Hle. generalize (length l) at 2 3.
  intros n. revert l. induction n as [|n IH]; intros [|x l]; cbn [chunks_of concat]; [done|cbn; lia|done|].
  intros Hl. rewrite IH; [by rewrite take_drop|]. rewrite length_drop. unfold failureSQLChunkSize. cbn in *. lia.
Qed.

Lemma applyFailureIncrements_spec entries d o d' : streaks_ok (rows d) ->
  applyFailureIncrements isPostgres entries d = (o, d') ->
  (exists n, forall k, grew (n k) k (rows d) (rows d')) /\
  forall counts, o = Some counts -> forall k,
    grew (occ k entries) k (rows d) (rows d') /\
    counted (occ k entries) k (rows d) counts (k ∈ map key entries).
Proof.
  intros Hok He. pose proof (increment_chunks_spec (chunks entries) [] ∅ d d o d' Hok) as Hs.
  rewrite concat_chunks in Hs. apply Hs; [|done]. intros k. split; [by apply grew_refl|].
  split; [by intros ?%elem_of_nil|]. intros _. apply lookup_empty.
Qed.
End Growth.
(** ** Threshold actions *)

(** The ownership no longer keeps the route in the queues. *)
Definition inactive_key (t : gmap failureKey ManagedProxy) (k : failureKey) : Prop :=
  match t !! k with Some r => State r <> Active | None => True end.

Lemma pause_tx_spec k t b t' : pause_tx k t = (b, t') ->
  (forall k', k' <> k -> t' !! k' = t !! k') /\
  if b then (exists r, t !! k = Some r /\ State r = Active) /\ inactive_key t' k else t' = t.
Proof.
  unfold pause_tx, is_active, inactive_key. destruct (t !! k) as [r|] eqn:E; [|by intros [= <- <-]].
  destruct (bool_decide _) eqn:Ea; intros [= <- <-]; [|done]. breflect. split.
  - intros k' Hne. by apply lookup_insert_ne.
  - rewrite lookup_insert_eq. eauto.
Qed.

Lemma delete_tx_spec k t b t' : delete_tx k t = (b, t') ->
  (forall k', k' <> k -> t' !! k' = t !! k') /\
  if b then (exists r, t !! k = Some r /\ State r = Active) /\ inactive_key t' k else t' = t.
Proof.
  unfold delete_tx, is_active, inactive_key. destruct (t !! k) as [r|] eqn:E; [|by intros [= <- <-]].
  destruct (bool_decide _) eqn:Ea; intros [= <- <-]; [|done]. breflect. split.
  - intros k' Hne. by apply lookup_delete_ne.
  - rewrite lookup_delete_eq. eauto.
Qed.

Section Actions.
Context (proxies : gset Z).

(** Either transaction: on every outcome only [k] can change, and it changes
    exactly when reported. *)
Lemma manage_spec tx k d changed inactive e d' : tx = pause_tx \/ tx = delete_tx ->
  manage proxies tx k d = ((changed, inactive, e), d') ->
  (forall k', k' <> k -> rows d' !! k' = rows d !! k') /\
  if changed then (exists r, rows d !! k = Some r /\ State r = Active) /\ inactive_key (rows d') k
  else rows d' = rows d.
Proof.
  intros Htx. unfold manage. destruct (statement (tx k) d) as [o1 d1] eqn:E1.
  apply statement_cases in E1 as [[-> Hr]|(b & -> & Hr)]; [intros [= <- <- <- <-]; by rewrite Hr|].
  assert (Hspec : (forall k', k' <> k -> rows d1 !! k' = rows d !! k') /\
    if b then (exists r, rows d !! k = Some r /\ State r = Active) /\ inactive_key (rows d1) k else rows d1 = rows d)
    by (destruct Htx as [->| ->]; [by apply pause_tx_spec|by apply delete_tx_spec]).
  destruct b; [|by intros [= <- <- <- <-]].
  destruct (statement (fun t => (without_active proxies t k.2, t)) d1) as [o2 d2] eqn:E2.
  assert (rows d2 = rows d1) as Hr2.
  { apply statement_cases in E2 as [[_ ?]|(a & _ & Ha)]; [done|]. by injection Ha. }
  destruct o2; intros [= <- <- <- <-]; by rewrite Hr2.
Qed.

(** The reason an entry ends an ownership. *)
Definition reached (counts : gmap failureKey Z) (e : failureIncrementEntry) : Prop :=
  autoRemove e = true /\ threshold e <> 0 /\ threshold e <= failureCount counts e.

Definition mentions (i : nat) (w : Z) (responses : gmap nat failureResponse) : Prop :=
  exists resp, responses !! i = Some resp /\ w ∈ removedWorkspaces resp.

Lemma mentions_alter i w j f responses :
  (forall resp, removedWorkspaces resp ⊆ removedWorkspaces (f resp)) ->
  mentions i w responses -> mentions i w (alter f j responses).
Proof.
  intros Hf (resp & Hr & Hw). destruct (decide (i = j)) as [->|Hne].
  - exists (f resp). rewrite lookup_alter_eq, Hr. split; [done|]. by apply Hf.
  - exists resp. by rewrite lookup_alter_ne.
Qed.

Lemma act_loop_spec counts entries responses d responses' failed d' :
  (forall e, e ∈ entries -> is_Some (responses !! request e)) ->
  act_loop proxies counts entries responses d = ((responses', failed), d') ->
  (forall i w, mentions i w responses -> mentions i w responses') /\
  (forall i, is_Some (responses !! i) -> is_Some (responses' !! i)) /\
  (forall k r, rows d !! k = Some r -> State r <> Active -> rows d' !! k = Some r) /\
  (forall k, rows d !! k = None -> rows d' !! k = None) /\
  (forall k r, rows d !! k = Some r -> State r = Active ->
     rows d' !! k = Some r \/
     inactive_key (rows d') k /\
     exists e, e ∈ entries /\ key e = k /\ reached counts e /\ mentions (request e) k.1 responses').
Proof.
  revert responses d. induction entries as [|e rest IH]; intros responses d Hreq; cbn [act_loop].
  { intros [= <- <- <-]. repeat split; eauto. }
  assert (Hrest : forall e', e' ∈ rest -> is_Some (responses !! request e')) by (intros e' ?; apply Hreq; by right).
  assert (Hskip : act_loop proxies counts rest responses d = ((responses', failed), d') -> 
    (forall i w, mentions i w responses -> mentions i w responses') /\
    (forall i, is_Some (responses !! i) -> is_Some (responses' !! i)) /\
    (forall k r, rows d !! k = Some r -> State r <> Active -> rows d' !! k = Some r) /\
    (forall k, rows d !! k = None -> rows d' !! k = None) /\
    (forall k r, rows d !! k = Some r -> State r = Active ->
     rows d' !! k = Some r \/
     inactive_key (rows d') k /\
     exists e', e' ∈ e :: rest /\ key e' = k /\ reached counts e' /\ mentions (request e') k.1 responses')).
  { intros He. destruct (IH responses d Hrest He) as (H1 & H2 & H3 & H4 & H5).
    split; [done|]. split; [done|]. split; [done|]. split; [done|].
    intros k r Hr Ha. destruct (H5 k r Hr Ha) as [|(Hi & e' & He' & Hx)]; [by left|].
    right. split; [done|]. exists e'. split; [by right|done]. }
  destruct (negb (autoRemove e) || (threshold e =? 0)) eqn:Eguard; [done|].
  destruct (failureCount counts e <? threshold e) eqn:Ecount; [done|]. clear Hskip. breflect.
  set (call := if is_delete _ then _ else _).
  destruct call as [[[changed inactive] actionErr] d1] eqn:Ecall.
  assert (Hm : (forall k', k' <> key e -> rows d1 !! k' = rows d !! k') /\
    if changed then (exists r, rows d !! key e = Some r /\ State r = Active) /\ inactive_key (rows d1) (key e)
    else rows d1 = rows d).
  { subst call. destruct (is_delete _); apply manage_spec in Ecall; auto. }
  destruct Hm as [Hoth Hm]. clear Ecall call. cbn zeta.
  set (responses1 := if changed then _ else responses).
  assert (Hmono : forall i w, mentions i w responses -> mentions i w responses1).
  { subst responses1. destruct changed; [|done]. intros i w. apply mentions_alter. intros resp. cbn. set_solver. }
  assert (Hdom : forall i, is_Some (responses !! i) -> is_Some (responses1 !! i)).
  { subst responses1. destruct changed; [|done]. intros i. by rewrite lookup_alter_is_Some. }
  assert (Hnew : changed = true -> mentions (request e) (key e).1 responses1).
  { intros ->. subst responses1. destruct (Hreq e ltac:(by left)) as [resp Hresp].
    eexists. rewrite lookup_alter_eq, Hresp. split; [reflexivity|]. cbn. set_solver. }
  assert (Hstep : forall k r, rows d !! k = Some r -> rows d1 !! k = Some r \/ (k = key e /\ changed = true /\ State r = Active)).
  { intros k r Hr. destruct changed; [|left; by rewrite Hm].
    destruct (decide (k = key e)) as [->|Hne]; [right|left; by rewrite Hoth].
    destruct Hm as [(r' & Hr' & Ha) _]. replace r with r' by congruence. done. }
  assert (Hnone : forall k, rows d !! k = None -> rows d1 !! k = None).
  { intros k Hk. destruct changed; [|by rewrite Hm]. destruct (decide (k = key e)) as [->|Hne]; [|by rewrite Hoth].
    destruct Hm as [(r' & Hr' & Ha) _]. congruence. }
  assert (Hre : reached counts e) by done.
  destruct actionErr.
  { intros [= <- <- <-]. split; [done|]. split; [done|]. split; [|split; [done|]].
    - intros k r Hr Hna. destruct (Hstep k r Hr) as [|(_ & _ & ?)]; done.
    - intros k r Hr Ha. destruct (Hstep k r Hr) as [|(-> & -> & _)]; [by left|]. right.
      destruct Hm as [_ Hi]. split; [done|]. exists e. split; [by left|]. split; [done|]. split; [done|]. by apply Hnew. }
  intros He. destruct (IH responses1 d1) as (H1 & H2 & H3 & H4 & H5); [by intros; apply Hdom, Hrest|done|].
  split; [by eauto|]. split; [by eauto|]. split; [|split; [by eauto|]].
  - intros k r Hr Hna. destruct (Hstep k r Hr) as [Hr1|(_ & _ & ?)]; [by apply H3|done].
  - intros k r Hr Ha. destruct (Hstep k r Hr) as [Hr1|(-> & -> & _)].
    + destruct (H5 k r Hr1 Ha) as [|(Hi & e' & He' & Hx)]; [by left|].
      right. split; [done|]. exists e'. split; [by right|done].
    + right. destruct Hm as [_ Hi]. split.
      * unfold inactive_key in *. destruct (rows d1 !! key e) as [r1|] eqn:E1; [by rewrite (H3 _ _ E1 Hi)|].
        by rewrite (H4 _ E1).
      * exists e. split; [by left|]. split; [done|]. split; [done|]. apply H1. by apply Hnew.
Qed.
End Actions.
(** ** Batches *)

Lemma elem_of_active_requests batch i r :
  (i, r) ∈ active_requests batch <-> batch !! i = Some r /\ cancelled r = false.
Proof.
  unfold active_requests. rewrite list_elem_of_filter, elem_of_lookup_imap. cbn. split.
  - intros [Hc (j & y & [= -> ->] & Hy)]. done.
  - intros [Hb Hc]. split; [done|]. eauto.
Qed.

Lemma elem_of_increments e active : e ∈ increments_of active <->
  exists i r ev, (i, r) ∈ active /\ ev ∈ events r /\ HasEligibleChecks ev = true /\ Success ev = false /\
    e = MkEntry i (WorkspaceID ev, proxyID r) (AutoRemove ev) (FailureThreshold ev) (FailureAction ev).
Proof.
  unfold increments_of. rewrite list_elem_of_In, in_flat_map. split.
  - intros ([i r] & Hin & He). apply list_elem_of_In, list_elem_of_fmap in He as (ev & -> & Hev).
    apply list_elem_of_filter in Hev as [Hf Hev]. breflect. exists i, r, ev. rewrite list_elem_of_In. done.
  - intros (i & r & ev & Hin & Hev & Hh & Hs & ->). exists (i, r). rewrite <- !list_elem_of_In. split; [done|].
    apply list_elem_of_fmap. exists ev. split; [done|]. apply list_elem_of_filter. by rewrite Hh, Hs.
Qed.

(** The reports of a batch that count against an ownership. *)
Definition failing_reports (batch : list failureRequest) (k : failureKey) : Z :=
  occ k (increments_of (active_requests batch)).

Lemma filter_split {A} (P Q : A -> Prop) `{!forall x, Decision (P x)} `{!forall x, Decision (Q x)} (l : list A) :
  (forall x, Q x <-> ~ P x) -> filter P l ++ filter Q l ≡ₚ l.
Proof.
  intros Hpq. induction l as [|x l IH]; [done|]. rewrite !filter_cons.
  destruct (decide (P x)) as [Hp|Hp]; destruct (decide (Q x)) as [Hq|Hq].
  - by apply Hpq in Hq.
  - cbn. by rewrite IH.
  - rewrite <- Permutation_middle. by rewrite IH.
  - exfalso. by apply Hq, Hpq.
Qed.

Lemma batch_positions (batch : list failureRequest) :
  (filter (fun ir => cancelled ir.2 = true) (imap pair batch)).*1 ++ (active_requests batch).*1
    ≡ₚ seq 0 (length batch).
Proof.
  rewrite <- fmap_app, <- imap_pair_fst. unfold active_requests. apply fmap_Permutation, filter_split.
  intros [i r]. cbn. destruct (cancelled r); naive_solver.
Qed.

Lemma grew_keeps n k t t' r : grew n k t t' -> t !! k = Some r ->
  exists r', t' !! k = Some r' /\ State r' = State r.
Proof. unfold grew. intros Hg Hr. rewrite Hr in Hg. naive_solver. Qed.

(** When only streaks changed no ownership ended. *)
Lemma grew_vacuous (n : failureKey -> Z) t t' (Q : failureKey -> ManagedProxy -> Prop) : (forall k, grew (n k) k t t') ->
  (forall k r, t !! k = Some r -> State r <> Active -> exists r', t' !! k = Some r' /\ State r' = State r) /\
  (forall k r, t !! k = Some r -> State r = Active -> inactive_key t' k -> Q k r).
Proof.
  intros Hg. split; [intros k r Hr _; by eapply grew_keeps|]. intros k r Hr Ha Hi.
  destruct (grew_keeps _ _ _ _ _ (Hg k) Hr) as (r' & Hr' & Hs). unfold inactive_key in Hi. rewrite Hr' in Hi. congruence.
Qed.

Section Batch.
Context (isPostgres : bool) (proxies : gset Z).
Context (order : list failureKey -> list failureKey).

Lemma initial_responses batch e : e ∈ increments_of (active_requests batch) ->
  is_Some ((list_to_map (map (fun ir => (ir.1, no_response)) (active_requests batch)) : gmap nat failureResponse)
    !! request e).
Proof.
  intros (i & r & ev & Hin & _ & _ & _ & ->)%elem_of_increments. cbn [request].
  destruct (list_to_map _ !! i) eqn:E; [by eexists|]. apply not_elem_of_list_to_map in E. exfalso. apply E.
  rewrite <- list_fmap_compose. apply list_elem_of_fmap. by exists (i, r).
Qed.

(** No ownership is taken early, and none silently.  Whatever the database
    reports on the way: an ownership that is paused or archived keeps its
    state; an active one ends only when a request of the batch reports a failed
    cycle with eligible checks, its workspace removes automatically, and the
    threshold is at most the stored streak plus the failures reported in this
    batch; and the response to that request, even when it carries an error,
    names the workspace. *)
Theorem no_early_removal batch d sent d' :
  streaks_ok (rows d) -> processBatch isPostgres proxies order batch d = (sent, d') ->
  (forall k r, rows d !! k = Some r -> State r <> Active ->
     exists r', rows d' !! k = Some r' /\ State r' = State r) /\
  (forall k r, rows d !! k = Some r -> State r = Active -> inactive_key (rows d') k ->
     exists i req ev resp, batch !! i = Some req /\ cancelled req = false /\ proxyID req = k.2 /\
       ev ∈ events req /\ WorkspaceID ev = k.1 /\ HasEligibleChecks ev = true /\ Success ev = false /\
       AutoRemove ev = true /\ FailureThreshold ev <> 0 /\
       FailureThreshold ev <= ConsecutiveFailures r + failing_reports batch k /\
       (i, resp) ∈ sent /\ k.1 ∈ removedWorkspaces resp).
Proof.
  intros Hok. unfold processBatch. cbn zeta.
  set (refused := map _ (filter _ (imap pair batch))).
  set (active := active_requests batch).
  destruct active as [|a0 active'] eqn:Eact.
  { intros He. injection He as _ <-. by apply (grew_vacuous (fun _ => 0) _ _ _ (fun k => grew_refl k _ Hok)). }
  rewrite <- Eact. clear Eact a0 active'.
  destruct (applyFailureResets _ _ _ d) as [o1 d1] eqn:E1.
  assert (Hg1 : forall k, grew 0 k (rows d) (rows d1)) by (intros; by eapply applyFailureResets_grew).
  destruct o1 as [[]|].
  2:{ intros He. injection He as _ <-. by apply (grew_vacuous (fun _ => 0) _ _ _ Hg1). }
  pose proof (grew_ok _ _ _ Hg1) as Hok1.
  destruct (applyFailureIncrements _ _ d1) as [o2 d2] eqn:E2.
  pose proof E2 as Hinc. apply applyFailureIncrements_spec in Hinc as [[n Hg2] Hc]; [|done]. destruct o2 as [counts|].
  2:{ intros He. injection He as _ <-.
      by apply (grew_vacuous (fun k => 0 + n k) _ _ _ (fun k => grew_trans 0 (n k) k _ _ _ (Hg1 k) (Hg2 k))). }
  clear n Hg2. specialize (Hc counts eq_refl).
  destruct (act_loop _ _ _ _ d2) as [[responses failed] d3] eqn:E3. intros [= <- <-].
  destruct (act_loop_spec _ _ _ _ _ _ _ _ (initial_responses batch) E3) as (_ & Hdom & Hpaused & _ & Hact).
  assert (Hg : forall k, grew (0 + failing_reports batch k) k (rows d) (rows d2)).
  { intros k. eapply grew_trans; [apply Hg1|apply Hc]. }
  split.
  - intros k r Hr Hna. destruct (grew_keeps _ _ _ _ _ (Hg k) Hr) as (r2 & Hr2 & Hs). exists r2. split; [|done].
    apply Hpaused; congruence.
  - intros k r Hr Ha Hi. destruct (grew_keeps _ _ _ _ _ (Hg k) Hr) as (r2 & Hr2 & Hs).
    destruct (Hact k r2 Hr2) as [Hsame|(_ & e & He & <- & (Haut & Hth & Hle) & (resp & Hresp & Hw))]; [congruence| |].
    { unfold inactive_key in Hi. rewrite Hsame in Hi. congruence. }
    pose proof He as He'. apply elem_of_increments in He' as (i & req & ev & Hir & Hev & Hh & Hsu & ->).
    cbn [key request autoRemove threshold] in *. apply elem_of_active_requests in Hir as Hir'. destruct Hir' as [Hb Hcan].
    exists i, req, ev, (if failed then with_err resp else resp).
    repeat (split; [done|]). split; [|split].
    + destruct (Hc (WorkspaceID ev, proxyID req)) as [_ [Hin _]]. specialize (Hg1 (WorkspaceID ev, proxyID req)).
      unfold grew in Hg1. rewrite Hr in Hg1. destruct Hg1 as (r1 & Hr1 & _ & _ & Hle1).
      assert (Hk : (WorkspaceID ev, proxyID req) ∈ map key (increments_of (active_requests batch)))
        by (apply list_elem_of_fmap; eexists; split; [|exact He]; done).
      specialize (Hin Hk r1 Hr1). subst active. unfold failureCount in Hle. unfold failing_reports. cbn [key] in Hle.
      etrans; [exact Hle|]. etrans; [exact Hin|]. lia.
    + apply elem_of_app. right. apply list_elem_of_fmap. exists (i, req). split; [|done]. by rewrite Hresp.
    + by destruct failed.
Qed.

(** Every request of a batch is answered exactly once, on every path. *)
Theorem one_response_each batch d :
  (processBatch isPostgres proxies order batch d).1.*1 ≡ₚ seq 0 (length batch).
Proof.
  rewrite <- batch_positions. unfold processBatch. cbn zeta.
  assert (Hf : forall (f : nat * failureRequest -> failureResponse) l,
    (map (fun ir => (ir.1, f ir)) l).*1 = l.*1) by (intros; by rewrite <- list_fmap_compose).
  assert (Hb : (failBatch (active_requests batch)).*1 = (active_requests batch).*1).
  { unfold failBatch. rewrite <- list_fmap_compose. by apply list_fmap_ext; intros ? [] ?. }
  destruct (active_requests batch) as [|a0 act] eqn:Ea.
  { cbn [fst]. rewrite (Hf (fun _ => MkResponse ∅ [] true)). by rewrite fmap_nil, app_nil_r. }
  rewrite <- Ea in *. clear Ea a0 act.
  destruct (applyFailureResets _ _ _ d) as [[[]|] d1]; cbn [fst];
    [|by rewrite fmap_app, (Hf (fun _ => MkResponse ∅ [] true)), Hb].
  destruct (applyFailureIncrements _ _ d1) as [[counts|] d2]; cbn [fst];
    [|by rewrite fmap_app, (Hf (fun _ => MkResponse ∅ [] true)), Hb].
  destruct (act_loop _ _ _ _ d2) as [[responses failed] d3]. cbn [fst].
  rewrite fmap_app, (Hf (fun _ => MkResponse ∅ [] true)). f_equiv. unfold respond_all.
  rewrite <- list_fmap_compose. apply reflexive_eq. by apply list_fmap_ext; intros ? [] ?.
Qed.
End Batch.
(** ** Without database errors: saturation and batching are invisible *)

Lemma statement_healthy {A} (f : gmap failureKey ManagedProxy -> A * gmap failureKey ManagedProxy) d :
  outcomes d = [] -> statement f d = (Some (f (rows d)).1, MkDB (f (rows d)).2 []).
Proof. unfold statement. intros ->. by destruct (f (rows d)). Qed.

Lemma reset_fold_lookup pairs t k :
  fold_left reset_key pairs t !! k = if decide (k ∈ pairs) then set_failures 0 <$> t !! k else t !! k.
Proof.
  revert t. induction pairs as [|p pairs IH]; intros t; cbn; [by rewrite decide_False by apply not_elem_of_nil|].
  rewrite IH. unfold reset_key. destruct (decide (p = k)) as [->|Hne].
  - rewrite lookup_alter_eq. rewrite (decide_True (P := k ∈ k :: pairs)) by by left. case_decide; [|done].
    by destruct (t !! k).
  - rewrite lookup_alter_ne by done. repeat case_decide; set_solver.
Qed.

Lemma applyFailureResets_exact order cands d : (forall l, order l ≡ₚ l) -> outcomes d = [] ->
  exists d', applyFailureResets true order cands d = (Some tt, d') /\ outcomes d' = [] /\
    forall k, rows d' !! k = if decide (k ∈ cands) then set_failures 0 <$> rows d !! k else rows d !! k.
Proof.
  intros Ho Hd.
  assert (Hl : forall l d, outcomes d = [] -> exists d', reset_chunks true l d = (Some tt, d') /\ outcomes d' = [] /\
    rows d' = fold_left reset_key (concat l) (rows d)).
  { clear. induction l as [|c l IH]; intros d Hd; cbn [reset_chunks concat]; [by exists d|].
    destruct c as [|p c]; cbn [execResetChunk negb]; [by apply IH|]. rewrite statement_healthy by done. cbn [fst snd].
    destruct (IH (MkDB (fold_left reset_key (p :: c) (rows d)) []) eq_refl) as (d' & -> & Hd' & Hr).
    exists d'. rewrite fold_left_app. done. }
  unfold applyFailureResets. destruct cands as [|p cs].
  { exists d. split; [done|]. split; [done|]. intros k. by rewrite decide_False by apply not_elem_of_nil. }
  destruct (Hl (chunks (order (p :: cs))) d Hd) as (d' & He & Hd' & Hr). exists d'. split; [done|]. split; [done|].
  intros k. rewrite Hr, concat_chunks, reset_fold_lookup.
  assert (k ∈ order (p :: cs) <-> k ∈ p :: cs) by by rewrite Ho. repeat case_decide; tauto.
Qed.

Definition bump (r : ManagedProxy) : ManagedProxy :=
  if ConsecutiveFailures r <? failureStreakSaturation then set_failures (ConsecutiveFailures r + 1) r else r.

Definition report (r : ManagedProxy) : option Z :=
  if ConsecutiveFailures r <? failureStreakSaturation then Some (ConsecutiveFailures r + 1) else None.

Lemma dedup_go_id {A} `{EqDecision A} (l : list A) : NoDup l -> dedup_go [] l = l.
Proof.
  assert (H : forall (l seen : list A), NoDup l -> (forall x, x ∈ l -> x ∉ seen) -> dedup_go seen l = l).
  { clear. induction l as [|x l IH]; intros seen Hnd Hs; [done|]. apply NoDup_cons in Hnd as [Hx Hnd].
    cbn. rewrite bool_decide_eq_false_2 by (apply Hs; by left). f_equal. apply IH; [done|].
    intros y Hy. apply not_elem_of_cons. split; [by intros ->|]. apply Hs. by right. }
  intros Hnd. apply H; [done|]. intros x _. apply not_elem_of_nil.
Qed.

Lemma increment_chunks_exact l counts0 d : outcomes d = [] -> NoDup (map key (concat l)) ->
  exists counts d', increment_chunks true l counts0 d = (Some counts, d') /\ outcomes d' = [] /\
    forall k, rows d' !! k = (if decide (k ∈ map key (concat l)) then bump <$> rows d !! k else rows d !! k) /\
      counts !! k = (if decide (k ∈ map key (concat l)) then (rows d !! k ≫= report) ∪ counts0 !! k else counts0 !! k).
Proof.
  revert counts0 d. induction l as [|c l IH]; intros counts0 d Hd Hnd; cbn [increment_chunks concat].
  { exists counts0, d. split; [done|]. split; [done|]. intros k. by rewrite !decide_False by apply not_elem_of_nil. }
  cbn [concat] in Hnd. rewrite map_app in Hnd. apply NoDup_app in Hnd as (Hndc & Hdis & Hndl).
  assert (Hchunk : exists cc d1, execIncrementChunk true c d = (Some cc, d1) /\ outcomes d1 = [] /\
    forall k, rows d1 !! k = (if decide (k ∈ map key c) then bump <$> rows d !! k else rows d !! k) /\
      cc !! k = (if decide (k ∈ map key c) then rows d !! k ≫= report else None)).
  { destruct c as [|e c]; cbn [execIncrementChunk negb].
    - exists ∅, d. split; [done|]. split; [done|]. intros k. rewrite !decide_False by apply not_elem_of_nil. done.
    - rewrite statement_healthy by done. rewrite dedup_go_id by done.
      destruct (update_returning (map key (e :: c)) (rows d)) as [cc t1] eqn:E. exists cc, (MkDB t1 []).
      split; [done|]. split; [done|]. exact (update_returning_spec _ _ _ _ Hndc E). }
  destruct Hchunk as (cc & d1 & -> & Hd1 & Hc).
  destruct (IH (cc ∪ counts0) d1 Hd1 Hndl) as (counts & d' & -> & Hd' & Hk). exists counts, d'. split; [done|].
  split; [done|]. intros k. destruct (Hk k) as [-> ->]. destruct (Hc k) as [Hr Hcc]. rewrite map_app, lookup_union.
  destruct (decide (k ∈ map key c)) as [Hin|Hout].
  - rewrite !(decide_True (P := k ∈ map key c ++ _)) by (apply elem_of_app; by left).
    rewrite !(decide_False (P := k ∈ map key (concat l))) by by apply Hdis. by rewrite Hr, Hcc.
  - rewrite Hr, Hcc. destruct (decide (k ∈ map key (concat l))).
    + rewrite !decide_True by (apply elem_of_app; by right). split; [done|]. f_equal. by destruct (counts0 !! k).
    + rewrite !decide_False by (by rewrite elem_of_app; intros [?|?]). split; [done|]. by destruct (counts0 !! k).
Qed.

Lemma manage_healthy proxies tx k d : outcomes d = [] ->
  exists changed inactive, manage proxies tx k d = ((changed, inactive, false), MkDB (tx k (rows d)).2 []).
Proof.
  intros Hd. unfold manage. rewrite statement_healthy by done. destruct (tx k (rows d)) as [[] t]; cbn [fst snd].
  - rewrite statement_healthy by done. eexists _, _. reflexivity.
  - eexists _, _. reflexivity.
Qed.

(** An ended ownership stays ended. *)
Lemma act_loop_inactive proxies counts entries responses d k : inactive_key (rows d) k ->
  inactive_key (rows (act_loop proxies counts entries responses d).2) k.
Proof.
  revert responses d. induction entries as [|e rest IH]; intros responses d Hi; cbn [act_loop]; [done|].
  destruct (_ || _); [by apply IH|]. destruct (_ <? _); [by apply IH|].
  set (call := if is_delete _ then _ else _). destruct call as [[[changed inactive] actionErr] d1] eqn:Ecall.
  assert (inactive_key (rows d1) k) as Hi1.
  { assert (Hm : (forall k', k' <> key e -> rows d1 !! k' = rows d !! k') /\
      if changed then (exists r, rows d !! key e = Some r /\ State r = Active) /\ inactive_key (rows d1) (key e)
      else rows d1 = rows d) by (subst call; destruct (is_delete _); apply manage_spec in Ecall; auto).
    destruct Hm as [Ho Hc]. destruct changed; [|by rewrite Hc].
    destruct (decide (k = key e)) as [->|Hne]; [apply Hc|]. unfold inactive_key. by rewrite Ho. }
  cbn zeta. destruct actionErr; [done|by apply IH].
Qed.

Lemma act_loop_complete proxies counts entries responses d : outcomes d = [] ->
  (forall k r', rows (act_loop proxies counts entries responses d).2 !! k = Some r' ->
     exists r, rows d !! k = Some r /\ ConsecutiveFailures r' = ConsecutiveFailures r) /\
  (forall e, e ∈ entries -> reached counts e ->
     inactive_key (rows (act_loop proxies counts entries responses d).2) (key e)).
Proof.
  revert responses d. induction entries as [|e rest IH]; intros responses d Hd; cbn [act_loop].
  { split; [eauto|]. by intros e ?%elem_of_nil. }
  destruct (IH responses d Hd) as [Hrows Hall].
  destruct (negb (autoRemove e) || (threshold e =? 0)) eqn:Eg.
  { split; [done|]. intros e' [->|Hin]%elem_of_cons Hre; [|by apply Hall]. destruct Hre as (Ha & Ht & _).
    rewrite Ha in Eg. cbn in Eg. apply Z.eqb_eq in Eg. done. }
  destruct (failureCount counts e <? threshold e) eqn:Ec.
  { split; [done|]. intros e' [->|Hin]%elem_of_cons Hre; [|by apply Hall]. destruct Hre as (_ & _ & Hle). breflect. lia. }
  clear Hrows Hall. set (call := if is_delete _ then _ else _).
  assert (Hcall : exists tx changed inactive, (tx = pause_tx \/ tx = delete_tx) /\
    call = ((changed, inactive, false), MkDB (tx (key e) (rows d)).2 [])).
  { subst call. unfold PauseManagedProxy, DeleteActiveManagedProxy. destruct (is_delete _).
    - destruct (manage_healthy proxies delete_tx (key e) d Hd) as (c & i & ->). exists delete_tx, c, i. auto.
    - destruct (manage_healthy proxies pause_tx (key e) d Hd) as (c & i & ->). exists pause_tx, c, i. auto. }
  destruct Hcall as (tx & changed & inactive & Htx & ->). cbn zeta.
  set (responses1 := if changed then _ else responses).
  destruct (IH responses1 (MkDB (tx (key e) (rows d)).2 []) eq_refl) as [Hrows Hall].
  assert (Hsame : forall k r', (tx (key e) (rows d)).2 !! k = Some r' ->
    exists r, rows d !! k = Some r /\ ConsecutiveFailures r' = ConsecutiveFailures r).
  { intros k r'. destruct Htx as [->| ->]; unfold pause_tx, delete_tx; destruct (rows d !! key e) as [r|] eqn:Er;
      try destruct (is_active r); cbn; eauto.
    - destruct (decide (key e = k)) as [<-|Hne]; [rewrite lookup_insert_eq|rewrite lookup_insert_ne by done]; [|eauto].
      intros [= <-]. eauto.
    - destruct (decide (key e = k)) as [<-|Hne]; [by rewrite lookup_delete_eq|rewrite lookup_delete_ne by done]. eauto. }
  split.
  - intros k r' Hr'. destruct (Hrows k r' Hr') as (r1 & Hr1 & Hf1). destruct (Hsame k r1 Hr1) as (r & Hr & Hf). exists r. split; [done|congruence].
  - intros e' [->|Hin]%elem_of_cons Hre; [|by apply Hall].
    assert (Hdone : inactive_key (tx (key e) (rows d)).2 (key e)).
    { unfold inactive_key. destruct Htx as [->| ->]; unfold pause_tx, delete_tx, is_active;
        destruct (rows d !! key e) as [r|] eqn:Er; try destruct (bool_decide (State r = Active)) eqn:Eb; cbn;
        rewrite ?lookup_insert_eq, ?lookup_delete_eq, ?Er; breflect; done. }
    by apply act_loop_inactive.
Qed.
(** A stored streak stands for the true one, which it stops tracking at 255. *)
Definition matches (stored truth : Z) : Prop :=
  stored = truth \/ (failureStreakSaturation <= stored /\ failureStreakSaturation <= truth).

Lemma bump_matches r n : matches (ConsecutiveFailures r) n ->
  matches (ConsecutiveFailures (bump r)) (n + 1) /\
  forall th, th <= failureStreakSaturation ->
    (th <= default failureStreakSaturation (report r) <-> th <= n + 1).
Proof.
  unfold matches, bump, report, failureStreakSaturation. intros Hm.
  destruct (_ <? _) eqn:E; breflect; cbn; split; try (intros; split); lia.
Qed.

Lemma NoDup_map_key (l : list failureIncrementEntry) a b : NoDup (map key l) ->
  a ∈ l -> b ∈ l -> key a = key b -> a = b.
Proof.
  induction l as [|x l IH]; intros Hnd; [by intros ?%elem_of_nil|]. apply NoDup_cons in Hnd as [Hx Hnd].
  intros [->|Ha]%elem_of_cons [->|Hb]%elem_of_cons He; [done|..|by apply IH].
  - destruct Hx. rewrite He. apply list_elem_of_fmap. by exists b.
  - destruct Hx. rewrite <- He. apply list_elem_of_fmap. by exists a.
Qed.

(** The early exit of an empty batch is the general path. *)
Lemma processBatch_eq isPostgres proxies order batch d :
  processBatch isPostgres proxies order batch d =
    let refused := map (fun ir => (ir.1, MkResponse ∅ [] true))
                     (filter (fun ir => cancelled ir.2 = true) (imap pair batch)) in
    let active := active_requests batch in
    match applyFailureResets isPostgres order (reset_candidates active) d with
    | (None, d) => (refused ++ failBatch active, d)
    | (Some _, d) =>
        match applyFailureIncrements isPostgres (increments_of active) d with
        | (None, d) => (refused ++ failBatch active, d)
        | (Some counts, d) =>
            let responses := list_to_map (map (fun ir => (ir.1, no_response)) active) in
            let '((responses, failed), d) := act_loop proxies counts (increments_of active) responses d in
            (refused ++ respond_all active responses failed, d)
        end
    end.
Proof.
  unfold processBatch. cbn zeta. destruct (active_requests batch) as [|a act]; [|done].
  cbn. by rewrite app_nil_r.
Qed.

(** C19. Saturation, batching and chunking are invisible.  While the database
    reports no error, and each ownership is reported once in a batch, the
    stored streaks stand for unbounded counters of consecutive failures (reset
    by a success, incremented by a failure), and an active ownership that fails
    ends exactly when its workspace removes automatically and the unbounded
    counter has reached the (8-bit, non-zero) threshold. *)
Theorem saturation_invisible proxies order batch d truth sent d' :
  (forall l, order l ≡ₚ l) -> outcomes d = [] ->
  let resets := reset_candidates (active_requests batch) in
  let failed := increments_of (active_requests batch) in
  NoDup (resets ++ map key failed) ->
  (forall k r, rows d !! k = Some r -> matches (ConsecutiveFailures r) (truth k)) ->
  (forall e, e ∈ failed -> 0 <= threshold e <= 255) ->
  processBatch true proxies order batch d = (sent, d') ->
  (forall k r', rows d' !! k = Some r' ->
     matches (ConsecutiveFailures r')
       (if decide (k ∈ resets) then 0 else if decide (k ∈ map key failed) then truth k + 1 else truth k)) /\
  (forall e r, e ∈ failed -> rows d !! key e = Some r -> State r = Active ->
     inactive_key (rows d') (key e) <->
     autoRemove e = true /\ threshold e <> 0 /\ threshold e <= truth (key e) + 1).
Proof.
  intros Ho Hd. cbn zeta. rewrite processBatch_eq. cbn zeta.
  set (resets := reset_candidates (active_requests batch)). set (failed := increments_of (active_requests batch)).
  intros Hnd Hm Hth.
  apply NoDup_app in Hnd as (_ & Hdis & Hndf).
  destruct (applyFailureResets_exact order resets d Ho Hd) as (d1 & -> & Hd1 & Hr1).
  destruct (increment_chunks_exact (chunks failed) ∅ d1 Hd1) as (counts & d2 & Hinc & Hd2 & Hk).
  { by rewrite concat_chunks. }
  unfold applyFailureIncrements. rewrite Hinc. rewrite concat_chunks in Hk.
  set (responses := list_to_map _).
  destruct (act_loop_complete proxies counts failed responses d2 Hd2) as [Hrows Hall].
  pose proof (act_loop_spec proxies counts failed responses d2) as Hspec.
  destruct (act_loop proxies counts failed responses d2) as [[responses' err'] d3]. cbn [fst snd] in *.
  intros [= _ <-]. split.
  - intros k r' Hr'. destruct (Hrows k r' Hr') as (r2 & Hr2 & ->). destruct (Hk k) as [Hk2 _].
    rewrite Hr2 in Hk2. destruct (decide (k ∈ map key failed)) as [Hf|Hf].
    + rewrite (decide_False (P := k ∈ resets)) by (intros Hrs; by destruct (Hdis k Hrs)).
      rewrite Hr1, decide_False in Hk2 by (intros Hrs; by destruct (Hdis k Hrs)).
      destruct (rows d !! k) as [r|] eqn:Er; [|done]. injection Hk2 as ->. by apply bump_matches, Hm.
    + rewrite Hr1 in Hk2. destruct (decide (k ∈ resets)); [|by apply Hm].
      destruct (rows d !! k) as [r|]; [|done]. injection Hk2 as ->. by left.
  - intros e r He Hr Hact.
    assert (Hin : key e ∈ map key failed) by (apply list_elem_of_fmap; by exists e).
    destruct (Hk (key e)) as [Hk2 Hc]. rewrite !decide_True in Hk2 by done. rewrite decide_True in Hc by done.
    rewrite Hr1, decide_False, Hr in Hk2 by (intros Hrs; by destruct (Hdis _ Hrs)).
    rewrite Hr1, decide_False, Hr, lookup_empty in Hc by (intros Hrs; by destruct (Hdis _ Hrs)).
    destruct (bump_matches r (truth (key e)) (Hm _ _ Hr)) as [_ Hdec].
    assert (Hcount : failureCount counts e = default failureStreakSaturation (report r)).
    { unfold failureCount. rewrite Hc. cbn. by destruct (report r). }
    assert (Hreach : reached counts e <-> autoRemove e = true /\ threshold e <> 0 /\ threshold e <= truth (key e) + 1).
    { unfold reached. rewrite Hcount, (Hdec (threshold e)); [done|]. apply (Hth e He). }
    rewrite <- Hreach. split; [|by apply Hall].
    intros Hina. destruct (Hspec responses' err' d3) as (_ & _ & _ & _ & Hsp); [|done|].
    { intros e' He'. by apply initial_responses. }
    destruct (Hsp (key e) (bump r) Hk2) as [Hsame|(_ & e' & He' & Hke & Hre & _)].
    + unfold bump. by destruct (_ <? _).
    + unfold inactive_key in Hina. rewrite Hsame in Hina. unfold bump in Hina. by destruct (_ <? _).
    + assert (e' = e) as <-; [|done]. by apply (NoDup_map_key failed).
Qed.
(** ** A concrete batch: the third failure of a route with threshold three *)

Definition demo_batch : list failureRequest :=
  [MkRequest false 7 [MkEvent 1 false true 3 "pause" true]; MkRequest true 8 []].
Definition demo_db (os : list bool) : DB := MkDB {[ (1, 7) := MkManaged Active "" 2 ]} os.

Lemma demo_rows_ok os : streaks_ok (rows (demo_db os)).
Proof. intros k r. cbn. intros [_ <-]%lookup_singleton_Some. cbn. lia. Qed.

(** Here the lookup after the pause fails: the pause is reported all the same. *)
Lemma no_early_removal_witness :
  exists i resp, (i, resp) ∈ (processBatch true {[7]} id demo_batch (demo_db [false; false; true])).1 /\
    1 ∈ removedWorkspaces resp.
Proof.
  destruct (no_early_removal true {[7]} id demo_batch (demo_db [false; false; true]) _ _
    (demo_rows_ok _) (surjective_pairing _)) as [_ Hw].
  destruct (Hw (1, 7) (MkManaged Active "" 2)) as (i & req & ev & resp & _ & _ & _ & _ & _ & _ & _ & _ & _ & _ & Hin & Hrem).
  - vm_compute. reflexivity.
  - reflexivity.
  - vm_compute. discriminate.
  - exists i, resp. exact (conj Hin Hrem).
Defined.

Lemma saturation_invisible_witness :
  inactive_key (rows (processBatch true {[7]} id demo_batch (demo_db [])).2) (1, 7).
Proof.
  destruct (processBatch true {[7]} id demo_batch (demo_db [])) as [sent d'] eqn:E.
  destruct (saturation_invisible {[7]} id demo_batch (demo_db []) (fun _ => 2) sent d') as [_ Hw].
  - intros l. reflexivity.
  - reflexivity.
  - apply NoDup_singleton.
  - intros k r. cbn. intros [_ <-]%lookup_singleton_Some. by left.
  - intros e ->%list_elem_of_singleton. cbn. lia.
  - exact E.
  - refine (proj2 (Hw (MkEntry 0 (1, 7) true 3 "pause") (MkManaged Active "" 2) _ _ _) _).
    + by left.
    + vm_compute. reflexivity.
    + reflexivity.
    + cbn. split; [reflexivity|]. split; [discriminate|lia].
Defined.
End FailureTracker.
