(* ===== verification/BinHeap.v ===== *)
(** * Go's binary heap ([container/heap])

    The standard library's [heap.Push] and [heap.Pop] on a slice, as the rate
    limiters use them: an element is compared by an integer key.  Popping
    returns a least element and both keep the heap order and the contents. *)

From S2P Require Import Prelude.
Open Scope Z_scope.

Module BinHeap.
Section Heap.
Context {A : Type} (rank : A -> Z).

(** The rank at an index, for indices in range. *)
Definition at_rank (h : list A) (i : nat) : Z := match h !! i with Some x => rank x | None => 0 end.

(** [Less(i, j)] *)
Definition less (h : list A) (i j : nat) : bool := at_rank h i <? at_rank h j.

Definition swap (i j : nat) (h : list A) : list A :=
  match h !! i, h !! j with
  | Some x, Some y => <[i := y]> (<[j := x]> h)
  | _, _ => h
  end.

Definition parent (j : nat) : nat := ((j - 1) / 2)%nat.

Fixpoint up (fuel : nat) (j : nat) (h : list A) : list A :=
  match fuel with
  | O => h
  | S fuel' =>
      if (j =? 0)%nat || negb (less h j (parent j)) then h
      else up fuel' (parent j) (swap (parent j) j h)
  end.

(** The smaller child of [i] among the first [n] elements. *)
Definition child (h : list A) (n i : nat) : option nat :=
  let j1 := (2 * i + 1)%nat in
  if (n <=? j1)%nat then None
  else if (S j1 <? n)%nat && less h (S j1) j1 then Some (S j1) else Some j1.

Fixpoint down (fuel : nat) (n i : nat) (h : list A) : list A :=
  match fuel with
  | O => h
  | S fuel' =>
      match child h n i with
      | None => h
      | Some j => if negb (less h j i) then h else down fuel' n j (swap i j h)
      end
  end.

Definition push (x : A) (h : list A) : list A := up (S (length h)) (length h) (h ++ [x]).

(** [heap.Pop] of a non-empty heap. *)
Definition pop (h : list A) : option (A * list A) :=
  let n := (length h - 1)%nat in
  let h' := down (length h) n 0 (swap 0 n h) in
  match h' !! n with
  | Some x => Some (x, take n h')
  | None => None
  end.

(** ** Contents *)

Lemma swap_perm i j h : swap i j h ≡ₚ h.
Proof.
  unfold swap. destruct (h !! i) as [x|] eqn:Ei; [|done]. destruct (h !! j) as [y|] eqn:Ej; [|done].
  by apply Permutation_insert_swap.
Qed.

Lemma swap_length i j h : length (swap i j h) = length h.
Proof. by rewrite swap_perm. Qed.

Lemma swap_lookup i j h k : (i < length h)%nat -> (j < length h)%nat ->
  swap i j h !! k = if decide (k = i) then h !! j else if decide (k = j) then h !! i else h !! k.
Proof.
  intros Hi Hj. unfold swap. destruct (lookup_lt_is_Some_2 h i Hi) as [x Hx].
  destruct (lookup_lt_is_Some_2 h j Hj) as [y Hy]. rewrite Hx, Hy.
  case_decide as Hki; [subst k; by rewrite list_lookup_insert_eq by (by rewrite length_insert)|].
  rewrite list_lookup_insert_ne by done.
  case_decide as Hkj; [subst k; by rewrite list_lookup_insert_eq|by rewrite list_lookup_insert_ne].
Qed.

Lemma swap_rank i j h k : (i < length h)%nat -> (j < length h)%nat ->
  at_rank (swap i j h) k = if decide (k = i) then at_rank h j else if decide (k = j) then at_rank h i else at_rank h k.
Proof. intros Hi Hj. unfold at_rank. rewrite swap_lookup by done. by repeat case_decide. Qed.

Lemma up_perm fuel j h : up fuel j h ≡ₚ h.
Proof.
  revert j h. induction fuel as [|fuel IH]; intros j h; cbn; [done|].
  destruct (_ || _); [done|]. by rewrite IH, swap_perm.
Qed.

Lemma down_perm fuel n i h : down fuel n i h ≡ₚ h.
Proof.
  revert i h. induction fuel as [|fuel IH]; intros i h; cbn [down]; [done|].
  destruct (child h n i); [|done]. destruct (negb _); [done|]. by rewrite IH, swap_perm.
Qed.

Lemma down_length fuel n i h : length (down fuel n i h) = length h.
Proof. by rewrite down_perm. Qed.

(** [down] does not touch the elements from [n] on. *)
Lemma down_above fuel n i h k : (n <= length h)%nat -> (i < n)%nat -> (n <= k)%nat ->
  down fuel n i h !! k = h !! k.
Proof.
  revert i h. induction fuel as [|fuel IH]; intros i h Hn Hi Hk; cbn [down]; [done|].
  destruct (child h n i) as [j|] eqn:Ec; [|done]. destruct (negb _); [done|].
  assert (Hj : (j < n)%nat).
  { unfold child in Ec. destruct (_ <=? _)%nat eqn:E1; [done|]. destruct (_ && _) eqn:E2; breflect; simplify_eq; lia. }
  rewrite IH by (rewrite ?swap_length; lia). rewrite swap_lookup by lia. by rewrite !decide_False by lia.
Qed.

(** ** Order *)

Definition heap_ok (n : nat) (h : list A) : Prop :=
  forall j, (0 < j < n)%nat -> at_rank h (parent j) <= at_rank h j.

Lemma parent_lt j : (0 < j)%nat -> (parent j < j)%nat.
Proof. unfold parent. intros. apply Nat.Div0.div_lt_upper_bound; lia. Qed.

Lemma parent_spec i j : (0 < j)%nat -> parent j = i <-> (j = 2 * i + 1 \/ j = 2 * i + 2)%nat.
Proof.
  unfold parent. intros Hj. pose proof (Nat.div_mod_eq (j - 1) 2). pose proof (Nat.mod_upper_bound (j - 1) 2). lia.
Qed.

(** Heap order except above [j], with the children of [j] above its parent. *)
Definition up_inv (n j : nat) (h : list A) : Prop :=
  (forall k, (0 < k < n)%nat -> k <> j -> at_rank h (parent k) <= at_rank h k) /\
  (forall k, (0 < k < n)%nat -> parent k = j -> (0 < j)%nat -> at_rank h (parent j) <= at_rank h k).

Lemma up_ok fuel j h : (j < fuel)%nat -> (j < length h)%nat -> up_inv (length h) j h ->
  heap_ok (length h) (up fuel j h).
Proof.
  revert j h. induction fuel as [|fuel IH]; intros j h Hf Hj [Ho Hc]; [lia|]. cbn [up].
  destruct (j =? 0)%nat eqn:Ej; cbn [orb].
  { apply Nat.eqb_eq in Ej as ->. intros k Hk. apply Ho; lia. }
  apply Nat.eqb_neq in Ej. pose proof (parent_lt j ltac:(lia)) as Hp.
  destruct (less h j (parent j)) eqn:El; cbn [negb]; unfold less in El; breflect.
  2:{ intros k Hk. destruct (decide (k = j)) as [->|Hne]; [lia|by apply Ho]. }
  assert (Hsr := fun k => swap_rank (parent j) j h k ltac:(lia) ltac:(lia)).
  rewrite <- (swap_length (parent j) j h). apply IH; [lia|rewrite swap_length; lia|].
  rewrite swap_length. split.
  - intros k Hk Hne. rewrite !Hsr. destruct (decide (k = j)) as [->|Hkj].
    + rewrite (decide_False (P := j = parent j)) by lia. rewrite !decide_True by done. lia.
    + rewrite (decide_False (P := k = parent j)) by done.
      destruct (decide (parent k = parent j)) as [Hpk|Hpk].
      * pose proof (Ho k Hk Hkj). rewrite Hpk in *. lia.
      * destruct (decide (parent k = j)) as [Hpj|Hpj]; [|by apply Ho].
        apply (Hc k Hk Hpj). lia.
  - intros k Hk Hpk Hpos. pose proof (Ho (parent j) ltac:(lia) ltac:(lia)) as Hpp.
    pose proof (parent_lt (parent j) Hpos). rewrite !Hsr.
    rewrite (decide_False (P := parent (parent j) = parent j)), (decide_False (P := parent (parent j) = j)) by lia.
    destruct (decide (k = parent j)) as [->|Hkp]; [lia|]. destruct (decide (k = j)) as [->|Hkj]; [lia|].
    pose proof (Ho k Hk Hkj). rewrite Hpk in *. lia.
Qed.

(** Heap order except below [i], with the children of [i] above its parent. *)
Definition down_inv (n i : nat) (h : list A) : Prop :=
  (forall k, (0 < k < n)%nat -> parent k <> i -> at_rank h (parent k) <= at_rank h k) /\
  (forall k, (0 < k < n)%nat -> parent k = i -> (0 < i)%nat -> at_rank h (parent i) <= at_rank h k).

Lemma child_spec h n i :
  match child h n i with
  | None => forall k, (0 < k < n)%nat -> parent k <> i
  | Some j => (i < j < n)%nat /\ parent j = i /\ forall k, (0 < k < n)%nat -> parent k = i -> at_rank h j <= at_rank h k
  end.
Proof.
  unfold child. destruct (n <=? 2 * i + 1)%nat eqn:E1; breflect.
  { intros k Hk Hp. apply parent_spec in Hp; lia. }
  destruct (S (2 * i + 1) <? n)%nat eqn:E2; cbn [andb]; unfold less.
  - destruct (_ <? _) eqn:E3; breflect; (split; [lia|]); (split; [apply parent_spec; lia|]);
      intros k Hk Hp; apply parent_spec in Hp as [->| ->]; try lia;
      replace (2 * i + 2)%nat with (S (2 * i + 1)) by lia; lia.
  - breflect. split; [lia|]. split; [apply parent_spec; lia|].
    intros k Hk Hp. apply parent_spec in Hp as [->| ->]; lia.
Qed.

Lemma down_ok fuel n i h : (n <= length h)%nat -> (n - i <= fuel)%nat -> (i < n)%nat -> down_inv n i h ->
  heap_ok n (down fuel n i h).
Proof.
  revert i h. induction fuel as [|fuel IH]; intros i h Hn Hf Hi [Ho Hc]; [lia|]. cbn [down].
  pose proof (child_spec h n i) as Hch. destruct (child h n i) as [j|].
  2:{ intros k Hk. apply Ho; [done|by apply Hch]. }
  destruct Hch as (Hj & Hpj & Hmin). destruct (less h j i) eqn:El; cbn [negb]; unfold less in El; breflect.
  2:{ intros k Hk. destruct (decide (parent k = i)) as [Hp|Hp]; [|by apply Ho].
      pose proof (Hmin k Hk Hp). rewrite Hp. lia. }
  assert (Hsr := fun k => swap_rank i j h k ltac:(lia) ltac:(lia)).
  apply IH; [rewrite swap_length; lia|lia|lia|]. split.
  - intros k Hk Hp. rewrite !Hsr. destruct (decide (parent k = i)) as [Hpi|Hpi].
    + destruct (decide (k = i)) as [->|Hki]; [pose proof (parent_lt i ltac:(lia)); lia|].
      destruct (decide (k = j)) as [->|Hkj]; [lia|]. pose proof (Hmin k Hk Hpi). lia.
    + rewrite (decide_False (P := parent k = j)) by done.
      destruct (decide (k = i)) as [->|Hki]; [apply Hc; [lia|done|lia]|].
      rewrite decide_False by congruence. by apply Ho.
  - intros k Hk Hp Hpos. rewrite !Hsr, Hpj.
    pose proof (parent_lt k ltac:(lia)).
    rewrite (decide_True (P := i = i)) by done. rewrite (decide_False (P := k = i)), (decide_False (P := k = j)) by lia.
    rewrite <- Hp. apply Ho; [done|lia].
Qed.

(** The root of a heap is least. *)
Lemma heap_ok_root n h k : heap_ok n h -> (k < n)%nat -> at_rank h 0 <= at_rank h k.
Proof.
  intros Ho. induction k as [k IH] using lt_wf_ind. intros Hk.
  destruct (decide (k = 0)%nat) as [->|Hne]; [lia|].
  pose proof (parent_lt k ltac:(lia)). pose proof (Ho k ltac:(lia)). pose proof (IH (parent k) ltac:(lia) ltac:(lia)). lia.
Qed.

(** ** Push and pop *)

Lemma push_perm x h : push x h ≡ₚ x :: h.
Proof. unfold push. by rewrite up_perm, Permutation_app_comm. Qed.

Lemma push_ok x h : heap_ok (length h) h -> heap_ok (length (push x h)) (push x h).
Proof.
  intros Ho. assert (Hl : length (push x h) = length (h ++ [x])) by (unfold push; by rewrite up_perm).
  rewrite Hl. unfold push. apply up_ok; [lia|rewrite length_app; cbn; lia|].
  assert (Hr : forall k, (k < length h)%nat -> at_rank (h ++ [x]) k = at_rank h k).
  { intros k Hk. unfold at_rank. by rewrite lookup_app_l. }
  rewrite length_app. cbn. split.
  - intros k Hk Hne. pose proof (parent_lt k ltac:(lia)). rewrite !Hr by lia. apply Ho. lia.
  - intros k Hk Hp _. pose proof (parent_lt k ltac:(lia)). lia.
Qed.

Lemma pop_spec h : heap_ok (length h) h -> h <> [] ->
  exists x h', pop h = Some (x, h') /\ x :: h' ≡ₚ h /\ Some x = head h /\
    heap_ok (length h') h' /\ Forall (fun y => rank x <= rank y) h.
Proof.
  intros Ho Hne. unfold pop. set (n := (length h - 1)%nat).
  assert (Hlen : (length h = S n)%nat) by (destruct h; [done|cbn in *; lia]).
  set (s := swap 0 n h). assert (Hls : length s = S n) by (subst s; by rewrite swap_length).
  set (h' := down (length h) n 0 s).
  assert (Hn : h' !! n = h !! 0%nat).
  { subst h'. destruct (decide (n = 0)%nat) as [Hn0|Hn0].
    - rewrite Hlen. cbn [down]. unfold child. rewrite Hn0. cbn. subst s. rewrite Hn0. rewrite swap_lookup by lia.
      by case_decide.
    - rewrite down_above by lia. subst s. rewrite swap_lookup by lia. by repeat case_decide. }
  destruct (lookup_lt_is_Some_2 h 0) as [x Hx]; [lia|]. rewrite Hn, Hx. exists x, (take n h').
  assert (Hlh : length h' = S n) by (subst h'; by rewrite down_length).
  split; [done|]. split; [|split; [|split]].
  - assert (take n h' ++ [x] = h') as Happ.
    { rewrite <- (take_S_r h' n x) by congruence. apply take_ge. lia. }
    rewrite Permutation_cons_append, Happ. subst h' s. by rewrite down_perm, swap_perm.
  - destruct h; cbn in *; congruence.
  - rewrite length_take, Hlh, Nat.min_l by lia.
    assert (Hr : forall k, (k < n)%nat -> at_rank (take n h') k = at_rank h' k).
    { intros k Hk. unfold at_rank. by rewrite lookup_take_lt. }
    destruct (decide (n = 0)%nat) as [Hn0|Hn0]; [intros k; lia|].
    assert (Hok : heap_ok n h').
    { subst h'. apply down_ok; [lia|lia|lia|]. split; [|lia].
      intros k Hk Hp. pose proof (parent_lt k ltac:(lia)). subst s. rewrite !swap_rank by lia.
      rewrite !decide_False by lia. apply Ho. lia. }
    intros k Hk. pose proof (parent_lt k ltac:(lia)). rewrite !Hr by lia. by apply Hok.
  - apply Forall_lookup. intros k y Hy. pose proof (lookup_lt_Some _ _ _ Hy).
    pose proof (heap_ok_root _ _ k Ho ltac:(lia)) as Hroot. unfold at_rank in Hroot. by rewrite Hx, Hy in Hroot.
Qed.

Lemma pop_nil : pop [] = None.
Proof. done. Qed.
End Heap.
End BinHeap.
