(* ===== verification/RateLimit.v ===== *)
(** * Authentication rate limits ([internal/app/server/auth_rate_limit.go])

    A fixed-window counter per key.  Redis keeps the counters when it answers;
    otherwise each process keeps its own, bounded in number, with a heap of
    expiries ([container/heap], [BinHeap]).  Parameters: the Redis server and
    the SHA-256 digest.  Clock readings within one operation are one instant,
    in nanoseconds. *)

From S2P Require Import Prelude GoStrings ProxyQueue BinHeap.
From Stdlib Require Import SpecFloat Sorted.
Open Scope Z_scope.

Module RateLimit.
Import BinHeap.
Import ProxyQueue(LuaValue(..)).

Definition defaultAuthLocalFallbackMaxKeys : Z := 10000.
Definition authRedisFailureBackoff : Z := 5 * Second.

(** Count and expiry. *)
Record localCounter := MkCounter { count : Z; expiresAt : Z }.

Definition localCounterExpiry : Type := string * Z.

Record fixedWindowLimiter := MkLimiter {
  prefix : string;
  limit : Z;
  window : Z;
  maxLocalEntries : Z;
  counters : gmap string localCounter;
  expiries : list localCounterExpiry
}.

Definition with_local (cs : gmap string localCounter) (h : list localCounterExpiry) (l : fixedWindowLimiter)
    : fixedWindowLimiter :=
  MkLimiter (prefix l) (limit l) (window l) (maxLocalEntries l) cs h.

Definition newFixedWindowLimiter (pre : string) (lim win max : Z) : fixedWindowLimiter :=
  MkLimiter pre lim win (if max <=? 0 then defaultAuthLocalFallbackMaxKeys else max) ∅ [].

(** ** Local counters *)

(** Remove the counter an expiry belongs to, if it is still the counter's. *)
Definition drop_expired (e : localCounterExpiry) (cs : gmap string localCounter)
    : bool * gmap string localCounter :=
  match cs !! e.1 with
  | Some entry => if expiresAt entry =? e.2 then (true, delete e.1 cs) else (false, cs)
  | None => (false, cs)
  end.

Fixpoint purge_loop (fuel : nat) (now : Z) (l : fixedWindowLimiter) : fixedWindowLimiter :=
  match fuel, expiries l with
  | S fuel', next :: _ =>
      if now <? next.2 then l
      else
        match pop snd (expiries l) with
        | Some (expired, h) => purge_loop fuel' now (with_local (drop_expired expired (counters l)).2 h l)
        | None => l
        end
  | _, _ => l
  end.

Definition purgeExpiredLocalLocked (now : Z) (l : fixedWindowLimiter) : fixedWindowLimiter :=
  purge_loop (length (expiries l)) now l.

Fixpoint evict_loop (fuel : nat) (l : fixedWindowLimiter) : bool * fixedWindowLimiter :=
  match fuel with
  | O => (false, l)
  | S fuel' =>
      match pop snd (expiries l) with
      | None => (false, l)
      | Some (evicted, h) =>
          match drop_expired evicted (counters l) with
          | (true, cs) => (true, with_local cs h l)
          | (false, _) => evict_loop fuel' (with_local (counters l) h l)
          end
      end
  end.

Definition evictOneLocalLocked (l : fixedWindowLimiter) : bool * fixedWindowLimiter :=
  evict_loop (length (expiries l)) l.

(** A key of a non-empty map: the order of Go's map iteration is unspecified. *)
Definition some_key (cs : gmap string localCounter) : option string := fst <$> head (map_to_list cs).

Fixpoint capacity_loop (fuel : nat) (l : fixedWindowLimiter) : fixedWindowLimiter :=
  match fuel with
  | O => l
  | S fuel' =>
      if Z.of_nat (size (counters l)) <? maxLocalEntries l then l
      else
        match evictOneLocalLocked l with
        | (true, l) => capacity_loop fuel' l
        | (false, l) =>
            match some_key (counters l) with
            | Some k => with_local (delete k (counters l)) (expiries l) l
            | None => l
            end
        end
  end.

Definition enforceLocalCapacityLocked (now : Z) (l : fixedWindowLimiter) : fixedWindowLimiter :=
  if maxLocalEntries l <=? 0 then l
  else let l := purgeExpiredLocalLocked now l in capacity_loop (S (size (counters l))) l.

Definition incrementLocal (key : string) (now : Z) (l : fixedWindowLimiter) : (Z * Z) * fixedWindowLimiter :=
  let l := purgeExpiredLocalLocked now l in
  match counters l !! key with
  | None =>
      let l := enforceLocalCapacityLocked now l in
      let entry := MkCounter 1 (now + window l) in
      ((1, expiresAt entry - now),
       with_local (<[key := entry]> (counters l)) (push snd (key, expiresAt entry) (expiries l)) l)
  | Some entry =>
      let entry := MkCounter (wrap_i64 (count entry + 1)) (expiresAt entry) in
      ((count entry, expiresAt entry - now), with_local (<[key := entry]> (counters l)) (expiries l) l)
  end.

Definition currentLocal (key : string) (now : Z) (l : fixedWindowLimiter) : (Z * Z) * fixedWindowLimiter :=
  let l := purgeExpiredLocalLocked now l in
  match counters l !! key with
  | None => ((0, 0), l)
  | Some entry => ((count entry, expiresAt entry - now), l)
  end.

Definition resetLocal (key : string) (l : fixedWindowLimiter) : fixedWindowLimiter :=
  with_local (delete key (counters l)) (expiries l) l.

(** ** Redis *)

Inductive get_reply := GotInt (n : Z) | GotNil | GetError.

Class CounterServer (RS : Type) := {
  (** [GetRedisClient] *)
  client_ok : RS -> bool;
  (** [authRateLimitIncrementScript.Run] *)
  eval_increment : string -> string -> RS -> option LuaValue * RS;
  get_int64 : string -> RS -> get_reply;
  pttl : string -> RS -> option Z;
  del_key : string -> RS -> bool * RS
}.

(** The integer part of a float; values out of range convert to the least
    int64 on amd64. *)
Definition float_trunc (f : spec_float) : Z :=
  match f with
  | S754_zero _ => 0
  | S754_infinity _ | S754_nan => - 2 ^ 63
  | S754_finite s m e =>
      let v := if 0 <=? e then Zpos m * 2 ^ e else Zpos m / 2 ^ (- e) in
      let z := if s then - v else v in
      if (- 2 ^ 63 <=? z) && (z <? 2 ^ 63) then z else - 2 ^ 63
  end.

Definition toInt64 (v : LuaValue) : option Z :=
  match v with
  | LInt64 z | LInt z => Some z
  | LFloat64 f => Some (float_trunc f)
  | LString s => parse_int s
  | _ => None
  end.

Definition Milliseconds (d : Z) : Z := Z.quot d Millisecond.

(** The shared retry instant ([authRedisRetryAt], [None] for the zero time) and
    the server. *)
Record Remote (RS : Type) := MkRemote { retryAt : option Z; server : RS }.
Arguments MkRemote {RS} retryAt server.
Arguments retryAt {RS} r.
Arguments server {RS} r.

Section Limiter.
Context {RS : Type} `{CounterServer RS}.
Context (sha256_hex : string -> string).

Definition markAuthRedisFailure (now : Z) (r : Remote RS) : Remote RS :=
  MkRemote (Some (now + authRedisFailureBackoff)) (server r).

Definition markAuthRedisSuccess (r : Remote RS) : Remote RS := MkRemote None (server r).

Definition authRedisAttemptAllowed (now : Z) (r : Remote RS) : bool * Remote RS :=
  match retryAt r with
  | None => (true, r)
  | Some t => if t <? now then (true, MkRemote None (server r)) else (false, r)
  end.

(** Whether a client is available. *)
Definition redisClient (now : Z) (r : Remote RS) : bool * Remote RS :=
  let '(allowed, r) := authRedisAttemptAllowed now r in
  if negb allowed then (false, r)
  else if client_ok (server r) then (true, markAuthRedisSuccess r)
  else (false, markAuthRedisFailure now r).

Definition redisKey (l : fixedWindowLimiter) (key : string) : string := prefix l +:+ ":" +:+ key.

Definition incrementRedis (l : fixedWindowLimiter) (key : string) (now : Z) (r : Remote RS)
    : option (Z * Z) * Remote RS :=
  let '(ok, r) := redisClient now r in
  if negb ok then (None, r)
  else
    match eval_increment (redisKey l key) (itoa (Milliseconds (window l))) (server r) with
    | (None, s) => (None, markAuthRedisFailure now (MkRemote (retryAt r) s))
    | (Some reply, s) =>
        let r := MkRemote None s in
        match reply with
        | LSlice (v0 :: v1 :: _) =>
            match toInt64 v0, toInt64 v1 with
            | Some count, Some ttlMS =>
                let ttlMS := if ttlMS <=? 0 then Milliseconds (window l) else ttlMS in
                (Some (count, wrap_i64 (ttlMS * Millisecond)), r)
            | _, _ => (None, r)
            end
        | _ => (None, r)
        end
    end.

Definition currentRedis (l : fixedWindowLimiter) (key : string) (now : Z) (r : Remote RS)
    : option (Z * Z) * Remote RS :=
  let '(ok, r) := redisClient now r in
  if negb ok then (None, r)
  else
    match get_int64 (redisKey l key) (server r) with
    | GetError => (None, markAuthRedisFailure now r)
    | GotNil => (Some (0, 0), markAuthRedisSuccess r)
    | GotInt count =>
        match pttl (redisKey l key) (server r) with
        | None => (None, markAuthRedisFailure now r)
        | Some ttl => (Some (count, if ttl <? 0 then 0 else ttl), markAuthRedisSuccess r)
        end
    end.

Definition increment (key : string) (now : Z) (l : fixedWindowLimiter) (r : Remote RS)
    : (Z * Z) * (fixedWindowLimiter * Remote RS) :=
  match incrementRedis l key now r with
  | (Some c, r) => (c, (l, r))
  | (None, r) => let '(c, l) := incrementLocal key now l in (c, (l, r))
  end.

Definition current (key : string) (now : Z) (l : fixedWindowLimiter) (r : Remote RS)
    : (Z * Z) * (fixedWindowLimiter * Remote RS) :=
  match currentRedis l key now r with
  | (Some c, r) => (c, (l, r))
  | (None, r) => let '(c, l) := currentLocal key now l in (c, (l, r))
  end.

Definition reset (key : string) (now : Z) (l : fixedWindowLimiter) (r : Remote RS)
    : fixedWindowLimiter * Remote RS :=
  let '(ok, r) := redisClient now r in
  let r :=
    if ok then
      let '(deleted, s) := del_key (redisKey l key) (server r) in
      if deleted then MkRemote None s else markAuthRedisFailure now (MkRemote (retryAt r) s)
    else r in
  (resetLocal key l, r).

(** [allow]: admission, or the time to wait. *)
Definition allow (key : string) (now : Z) (l : fixedWindowLimiter) (r : Remote RS)
    : (bool * Z) * (fixedWindowLimiter * Remote RS) :=
  if (limit l <=? 0) || (window l <=? 0) then ((true, 0), (l, r))
  else
    let '((count, ttl), st) := increment key now l r in
    if count <=? limit l then ((true, 0), st)
    else ((false, if ttl <=? 0 then window l else ttl), st).

(** ** Keys *)

Definition limiter_key (parts : list string) : string :=
  match filter (fun p => p <> "") (map trim_space parts) with
  | [] => "unknown"
  | filtered => String.concat ":" filtered
  end.

Definition hashIdentifier (value : string) : string :=
  if String.eqb value "" then "unknown" else sha256_hex value.

Definition normalizeRateLimitIP (ip : string) : string :=
  let ip := trim_space ip in if String.eqb ip "" then "unknown" else ip.

Definition identifier_key (identifier : string) : string :=
  limiter_key [hashIdentifier (to_lower (trim_space identifier))].

Definition currentIdentifier (identifier : string) (now : Z) (l : fixedWindowLimiter) (r : Remote RS)
    : (bool * Z) * (fixedWindowLimiter * Remote RS) :=
  let '((count, ttl), st) := current (identifier_key identifier) now l r in
  if limit l <=? count then ((true, ttl), st) else ((false, 0), st).

Definition incrementIdentifier (identifier : string) (now : Z) (l : fixedWindowLimiter) (r : Remote RS)
    : fixedWindowLimiter * Remote RS :=
  (increment (identifier_key identifier) now l r).2.

Record loginFailureLimiter := MkLogin { perIP : fixedWindowLimiter; perEmail : fixedWindowLimiter }.

Definition isBlocked (ip email : string) (now : Z) (l : loginFailureLimiter) (r : Remote RS)
    : (bool * Z) * (loginFailureLimiter * Remote RS) :=
  let '((ipCount, ipTTL), (i, r)) := current (limiter_key [normalizeRateLimitIP ip]) now (perIP l) r in
  if limit (perIP l) <=? ipCount then ((true, ipTTL), (MkLogin i (perEmail l), r))
  else
    let '((emailCount, emailTTL), (e, r)) := current (identifier_key email) now (perEmail l) r in
    if limit (perEmail l) <=? emailCount then ((true, emailTTL), (MkLogin i e, r))
    else ((false, 0), (MkLogin i e, r)).

Definition recordFailure (ip email : string) (now : Z) (l : loginFailureLimiter) (r : Remote RS)
    : loginFailureLimiter * Remote RS :=
  let '(_, (i, r)) := increment (limiter_key [normalizeRateLimitIP ip]) now (perIP l) r in
  let '(_, (e, r)) := increment (identifier_key email) now (perEmail l) r in
  (MkLogin i e, r).

Definition recordSuccess (ip email : string) (now : Z) (l : loginFailureLimiter) (r : Remote RS)
    : loginFailureLimiter * Remote RS :=
  let '(i, r) := reset (limiter_key [normalizeRateLimitIP ip]) now (perIP l) r in
  let '(e, r) := reset (identifier_key email) now (perEmail l) r in
  (MkLogin i e, r).
End Limiter.

(** The header [setRetryAfterHeader] sets: whole seconds, rounded up. *)
Definition setRetryAfterHeader (retryAfter : Z) : option string :=
  if retryAfter <=? 0 then None
  else
    let seconds := Z.quot retryAfter Second in
    let seconds := if Z.rem retryAfter Second =? 0 then seconds else seconds + 1 in
    Some (itoa (if seconds <? 1 then 1 else seconds)).
(** What [wrap] does with a request: pass it on, or refuse it with a header. *)
Inductive wrap_outcome := Served | TooManyRequests (retry_after : option string).

Definition wrap {RS : Type} `{CounterServer RS} (ip : string) (now : Z) (l : fixedWindowLimiter) (r : Remote RS)
    : wrap_outcome * (fixedWindowLimiter * Remote RS) :=
  if (limit l <=? 0) || (window l <=? 0) then (Served, (l, r))
  else
    let '((allowed, retryAfter), st) := allow (limiter_key [ip]) now l r in
    if allowed then (Served, st) else (TooManyRequests (setRetryAfterHeader retryAfter), st).

(** ** Configuration from the environment *)

Section Environment.
Context (LookupEnv : string -> option string).

Definition GetEnvInt (key : string) (fallback : Z) : Z :=
  match LookupEnv key with
  | Some value => match parse_int value with Some parsed => parsed | None => fallback end
  | None => fallback
  end.

Definition resolvePositiveEnvInt (key : string) (fallback : Z) : Z :=
  let value := GetEnvInt key fallback in if value <=? 0 then fallback else value.

Record authRateLimits := MkLimits {
  loginRequests : fixedWindowLimiter;
  registerRequests : fixedWindowLimiter;
  forgotPassword : fixedWindowLimiter;
  forgotPerEmail : fixedWindowLimiter;
  resetPassword : fixedWindowLimiter;
  resetPerEmail : fixedWindowLimiter;
  loginFailures : loginFailureLimiter
}.

Definition getAuthRateLimits : authRateLimits :=
  let requestWindow := wrap_i64 (resolvePositiveEnvInt "AUTH_REQUEST_RATE_LIMIT_WINDOW_SECONDS" 60 * Second) in
  let loginFailureWindow := wrap_i64 (resolvePositiveEnvInt "AUTH_LOGIN_FAILURE_WINDOW_SECONDS" (15 * 60) * Second) in
  let localFallbackMaxKeys :=
    resolvePositiveEnvInt "AUTH_RATE_LIMIT_LOCAL_FALLBACK_MAX_KEYS" defaultAuthLocalFallbackMaxKeys in
  MkLimits
    (newFixedWindowLimiter "magpie:ratelimit:login:request"
      (resolvePositiveEnvInt "AUTH_LOGIN_RATE_LIMIT_PER_WINDOW" 60) requestWindow localFallbackMaxKeys)
    (newFixedWindowLimiter "magpie:ratelimit:register:request"
      (resolvePositiveEnvInt "AUTH_REGISTER_RATE_LIMIT_PER_WINDOW" 20) requestWindow localFallbackMaxKeys)
    (newFixedWindowLimiter "magpie:ratelimit:forgot_password:request"
      (resolvePositiveEnvInt "AUTH_FORGOT_PASSWORD_RATE_LIMIT_PER_WINDOW" 10) requestWindow localFallbackMaxKeys)
    (newFixedWindowLimiter "magpie:ratelimit:forgot_password:email"
      (resolvePositiveEnvInt "AUTH_FORGOT_PASSWORD_LIMIT_PER_EMAIL" 1) requestWindow localFallbackMaxKeys)
    (newFixedWindowLimiter "magpie:ratelimit:reset_password:request"
      (resolvePositiveEnvInt "AUTH_RESET_PASSWORD_RATE_LIMIT_PER_WINDOW" 20) requestWindow localFallbackMaxKeys)
    (newFixedWindowLimiter "magpie:ratelimit:reset_password:email"
      (resolvePositiveEnvInt "AUTH_RESET_PASSWORD_LIMIT_PER_EMAIL" 5) requestWindow localFallbackMaxKeys)
    (MkLogin
      (newFixedWindowLimiter "magpie:ratelimit:login:fail:ip"
        (resolvePositiveEnvInt "AUTH_LOGIN_FAILURE_LIMIT_PER_IP" 30) loginFailureWindow localFallbackMaxKeys)
      (newFixedWindowLimiter "magpie:ratelimit:login:fail:email"
        (resolvePositiveEnvInt "AUTH_LOGIN_FAILURE_LIMIT_PER_EMAIL" 10) loginFailureWindow localFallbackMaxKeys)).
End Environment.

(** ** The heap indexes the counters *)

Definition live (now : Z) (o : option localCounter) : option localCounter :=
  match o with Some c => if now <? expiresAt c then Some c else None | None => None end.

Definition indexed (cs : gmap string localCounter) (h : list localCounterExpiry) : Prop :=
  forall k c, cs !! k = Some c -> (k, expiresAt c) ∈ h.

Definition heap_inv (l : fixedWindowLimiter) : Prop :=
  heap_ok snd (length (expiries l)) (expiries l) /\ indexed (counters l) (expiries l).

Definition limiter_inv (l : fixedWindowLimiter) : Prop :=
  heap_inv l /\ 0 < maxLocalEntries l /\ Z.of_nat (size (counters l)) <= maxLocalEntries l.

(** The configuration does not change. *)
Definition same_config (l l' : fixedWindowLimiter) : Prop :=
  limit l' = limit l /\ window l' = window l /\ maxLocalEntries l' = maxLocalEntries l.

Lemma live_mono now now' o : now <= now' -> live now' (live now o) = live now' o.
Proof.
  intros Hle. destruct o as [c|]; cbn; [|done]. destruct (now <? expiresAt c) eqn:E; cbn; [done|].
  breflect. by rewrite (proj2 (Z.ltb_ge _ _)) by lia.
Qed.

Lemma drop_expired_spec e cs : 
  if (drop_expired e cs).1
  then (drop_expired e cs).2 = delete e.1 cs /\ exists c, cs !! e.1 = Some c /\ expiresAt c = e.2
  else (drop_expired e cs).2 = cs /\ forall c, cs !! e.1 = Some c -> expiresAt c <> e.2.
Proof.
  unfold drop_expired. destruct (cs !! e.1) as [c|] eqn:E; cbn; [|done].
  destruct (_ =? _) eqn:Ee; breflect; cbn; split; try done; naive_solver.
Qed.

Lemma drop_expired_indexed e cs h : indexed cs (e :: h) -> indexed (drop_expired e cs).2 h.
Proof.
  intros Hi k c Hk. pose proof (drop_expired_spec e cs) as Hd. destruct (drop_expired e cs) as [[] cs']; cbn in *.
  - destruct Hd as [-> _]. apply lookup_delete_Some in Hk as [Hne Hk].
    apply Hi, elem_of_cons in Hk as [<-|]; [done|done].
  - destruct Hd as [-> Hn]. pose proof (Hi k c Hk) as Hin. apply elem_of_cons in Hin as [<-|]; [|done].
    by destruct (Hn c Hk).
Qed.

(** Popping the heap: the least expiry, and the index after dropping its
    counter. *)
Lemma pop_inv l : heap_inv l -> expiries l <> [] ->
  exists (e : localCounterExpiry) (h : list localCounterExpiry), pop snd (expiries l) = Some (e, h) /\ Some e = head (expiries l) /\
    length (expiries l) = S (length h) /\ heap_inv (with_local (drop_expired e (counters l)).2 h l) /\
    forall k c, counters l !! k = Some c -> e.2 <= expiresAt c.
Proof.
  intros [Ho Hi] Hne. destruct (pop_spec snd (expiries l) Ho Hne) as (e & h & Hp & Hperm & Hhd & Hok & Hmin).
  exists e, h. split; [done|]. split; [done|]. split; [by rewrite <- Hperm|]. split; [split; [done|]|].
  - apply drop_expired_indexed. intros k c Hk. rewrite Hperm. by apply Hi.
  - intros k c Hk. apply Hi in Hk. rewrite Forall_forall in Hmin. exact (Hmin _ Hk).
Qed.

Lemma purge_loop_spec fuel now l : (length (expiries l) <= fuel)%nat -> heap_inv l ->
  let l' := purge_loop fuel now l in
  heap_inv l' /\ same_config l l' /\ forall k, counters l' !! k = live now (counters l !! k).
Proof.
  revert l. induction fuel as [|fuel IH]; intros l Hf Hinv; cbn [purge_loop].
  { split; [done|]. split; [done|]. intros k. destruct (counters l !! k) as [c|] eqn:E; [|done]. cbn.
    destruct Hinv as [_ Hi]. apply Hi in E. destruct (expiries l); [inversion E|cbn in Hf; lia]. }
  destruct (expiries l) as [|next rest] eqn:Ex.
  { split; [done|]. split; [done|]. intros k. destruct (counters l !! k) as [c|] eqn:E; [|done].
    destruct Hinv as [_ Hi]. apply Hi in E. rewrite Ex in E. inversion E. }
  destruct (pop_inv l Hinv) as (e & h & Hp & Hhd & Hlen & Hinv' & Hmin); [by rewrite Ex|].
  rewrite Ex in Hhd, Hlen, Hp. injection Hhd as <-. destruct (now <? e.2) eqn:El; breflect.
  { split; [done|]. split; [done|]. intros k. destruct (counters l !! k) as [c|] eqn:E; [|done]. cbn.
    by rewrite (proj2 (Z.ltb_lt _ _)) by (specialize (Hmin k c E); lia). }
  rewrite Hp. cbn in Hf, Hlen. destruct (IH (with_local (drop_expired e (counters l)).2 h l)) as (H1 & H2 & H3); [cbn in *; unfold localCounterExpiry in *; lia|done|].
  split; [done|]. split; [done|]. intros k. rewrite H3. cbn.
  pose proof (drop_expired_spec e (counters l)) as Hd. destruct (drop_expired e (counters l)) as [[] cs]; cbn in *.
  - destruct Hd as [-> (c & Hc & He)]. destruct (decide (k = e.1)) as [->|Hne].
    + rewrite lookup_delete_eq, Hc. cbn. by rewrite (proj2 (Z.ltb_ge _ _)) by lia.
    + by rewrite lookup_delete_ne by done.
  - by destruct Hd as [-> _].
Qed.

Lemma purge_spec now l : heap_inv l ->
  let l' := purgeExpiredLocalLocked now l in
  heap_inv l' /\ same_config l l' /\ forall k, counters l' !! k = live now (counters l !! k).
Proof. by apply purge_loop_spec. Qed.

Lemma purge_size now l : heap_inv l -> (size (counters (purgeExpiredLocalLocked now l)) <= size (counters l))%nat.
Proof.
  intros Hi. destruct (purge_spec now l Hi) as (_ & _ & Hl). apply map_subseteq_size. apply map_subseteq_spec.
  intros k c. rewrite Hl. destruct (counters l !! k) as [c'|]; cbn; [|done]. by destruct (_ <? _).
Qed.

(** What leaves when the map is full: a counter with the least expiry. *)
Definition evicts (cs cs' : gmap string localCounter) : Prop :=
  exists k c, cs !! k = Some c /\ cs' = delete k cs /\ forall k' c', cs !! k' = Some c' -> expiresAt c <= expiresAt c'.

Lemma evict_loop_spec fuel l : (length (expiries l) <= fuel)%nat -> heap_inv l -> counters l <> ∅ ->
  exists l', evict_loop fuel l = (true, l') /\ heap_inv l' /\ same_config l l' /\ evicts (counters l) (counters l').
Proof.
  revert l. induction fuel as [|fuel IH]; intros l Hf Hinv Hne; apply map_choose in Hne as (k0 & c0 & H0);
    pose proof (proj2 Hinv k0 c0 H0) as Hin0;
    (assert (Hx : expiries l <> []) by (intros Hx; rewrite Hx in Hin0; inversion Hin0)).
  { destruct (expiries l); [done|cbn in Hf; lia]. }
  cbn [evict_loop]. destruct (pop_inv l Hinv Hx) as (e & h & Hp & _ & Hlen & Hinv' & Hmin). rewrite Hp.
  pose proof (drop_expired_spec e (counters l)) as Hd. destruct (drop_expired e (counters l)) as [[] cs]; cbn in *.
  - destruct Hd as [-> (c & Hc & He)]. eexists. split; [reflexivity|]. split; [done|]. split; [done|].
    exists e.1, c. split; [done|]. split; [done|]. intros k' c' Hk'. rewrite He. by eapply Hmin.
  - destruct Hd as [-> _]. apply (IH (with_local (counters l) h l)); [cbn in *; unfold localCounterExpiry in *; lia|done|].
    intros He. cbn in He. by rewrite He, lookup_empty in H0.
Qed.

Lemma evict_spec l : heap_inv l -> counters l <> ∅ ->
  exists l', evictOneLocalLocked l = (true, l') /\ heap_inv l' /\ same_config l l' /\ evicts (counters l) (counters l').
Proof. by apply evict_loop_spec. Qed.

Lemma capacity_spec now l : limiter_inv l ->
  let p := purgeExpiredLocalLocked now l in
  let l' := enforceLocalCapacityLocked now p in
  heap_inv l' /\ same_config l l' /\ Z.of_nat (size (counters l')) < maxLocalEntries l /\
  (counters l' = counters p /\ Z.of_nat (size (counters p)) < maxLocalEntries l \/
   Z.of_nat (size (counters p)) = maxLocalEntries l /\ evicts (counters p) (counters l')).
Proof.
  intros (Hinv & Hmax & Hsz). cbn zeta. set (p := purgeExpiredLocalLocked now l).
  destruct (purge_spec now l Hinv) as (Hip & (Hc1 & Hc2 & Hc3) & Hlp). fold p in Hip, Hc1, Hc2, Hc3, Hlp.
  pose proof (purge_size now l Hinv) as Hps. fold p in Hps.
  unfold enforceLocalCapacityLocked. rewrite (proj2 (Z.leb_gt _ _)) by lia. cbn zeta.
  set (q := purgeExpiredLocalLocked now p).
  destruct (purge_spec now p Hip) as (Hiq & (Hd1 & Hd2 & Hd3) & Hlq). fold q in Hiq, Hd1, Hd2, Hd3, Hlq.
  assert (Hq : counters q = counters p).
  { apply map_eq. intros k. rewrite Hlq, Hlp. by apply live_mono. }
  assert (Hqs : size (counters q) = size (counters p)) by by rewrite Hq.
  cbn [capacity_loop]. destruct (Z.of_nat (size (counters q)) <? maxLocalEntries q) eqn:El; breflect.
  { split; [done|]. split; [by repeat split; congruence|]. rewrite Hq in *. split; [lia|]. left. split; [done|lia]. }
  assert (Hne : counters q <> ∅) by (intros He; rewrite He, map_size_empty in El; lia).
  destruct (evict_spec q Hiq Hne) as (r & -> & Hir & (He1 & He2 & He3) & (k & c & Hk & Hr & Hmin)).
  assert (Hsr : size (counters r) = pred (size (counters q))) by (rewrite Hr; by apply map_size_delete_Some).
  assert (Hstop : forall fuel, capacity_loop fuel r = r).
  { intros [|fuel]; cbn; [done|]. rewrite (proj2 (Z.ltb_lt _ _)); [done|]. rewrite Hsr. lia. }
  rewrite Hstop. split; [done|]. split; [by repeat split; congruence|]. split; [lia|]. right.
  rewrite <- Hq. split; [lia|]. by exists k, c.
Qed.
(** ** The local operations *)

Lemma increment_inv key now l : limiter_inv l ->
  limiter_inv (incrementLocal key now l).2 /\ same_config l (incrementLocal key now l).2.
Proof.
  intros Hl. pose proof Hl as (Hinv & Hmax & Hsz). unfold incrementLocal. cbn zeta.
  destruct (purge_spec now l Hinv) as (Hip & Hcfg & Hlp). pose proof Hcfg as (Hc1 & Hc2 & Hc3).
  pose proof (purge_size now l Hinv) as Hps.
  destruct (counters (purgeExpiredLocalLocked now l) !! key) as [entry|] eqn:Ek; cbn [snd].
  - split; [|done]. split; [|split; cbn; [lia|]].
    + split; [apply Hip|]. cbn. intros k c. destruct (decide (k = key)) as [->|Hne].
      * rewrite lookup_insert_eq. intros [= <-]. cbn. by apply Hip.
      * rewrite lookup_insert_ne by done. apply Hip.
    + rewrite map_size_insert_Some by eauto. lia.
  - destruct (capacity_spec now l Hl) as (Hiq & Hcfgq & Hsq & _). pose proof Hcfgq as (Hd1 & Hd2 & Hd3).
    set (q := enforceLocalCapacityLocked now (purgeExpiredLocalLocked now l)) in *.
    split; [|done]. split; [|split; cbn; [lia|]].
    + split; [apply push_ok, Hiq|]. cbn -[push]. intros k c. rewrite (push_perm snd). destruct (decide (k = key)) as [->|Hne].
      * rewrite lookup_insert_eq. intros [= <-]. by left.
      * rewrite lookup_insert_ne by done. intros Hk. right. by apply Hiq.
    + rewrite map_size_insert. destruct (counters q !! key); cbn; lia.
Qed.

(** The local fallback is bounded and forgets fairly: it never holds more
    counters than configured, and an increment changes nothing of the other
    live counters, except that a new key arriving when the map is full evicts
    exactly one, with the least expiry; expired counters are gone. *)
Theorem local_capacity key now l : limiter_inv l ->
  let p := purgeExpiredLocalLocked now l in
  let l' := (incrementLocal key now l).2 in
  limiter_inv l' /\
  (forall k, counters p !! k = live now (counters l !! k)) /\
  (exists c, delete key (counters l') = delete key (counters p) /\ counters l' !! key = Some c \/
   counters p !! key = None /\ Z.of_nat (size (counters p)) = maxLocalEntries l /\
   exists cs, evicts (counters p) cs /\ counters l' = <[key := c]> cs).
Proof.
  intros Hl p l'. split; [by apply increment_inv|]. pose proof Hl as (Hinv & Hmax & Hsz).
  split; [apply (purge_spec now l Hinv)|]. subst l' p. unfold incrementLocal. cbn zeta.
  destruct (counters (purgeExpiredLocalLocked now l) !! key) as [entry|] eqn:Ek; cbn [snd with_local counters].
  - eexists. left. rewrite delete_insert_eq, lookup_insert_eq. done.
  - destruct (capacity_spec now l Hl) as (_ & _ & _ & [[Hq _]|[Hfull Hev]]).
    + eexists. left. rewrite Hq, delete_insert_eq, lookup_insert_eq. done.
    + eexists. right. split; [done|]. split; [done|]. eexists. split; [exact Hev|reflexivity].
Qed.

(** ** Refinement: independent windows *)

Inductive op := Increment (key : string) | Current (key : string) | Reset (key : string).

Definition op_key (o : op) : string := match o with Increment k | Current k | Reset k => k end.

(** The specification: a counter per key, read only while it lives. *)
Definition spec_step (win now : Z) (o : op) (s : gmap string localCounter) : (Z * Z) * gmap string localCounter :=
  match o with
  | Increment k =>
      let c := match live now (s !! k) with
               | Some c => MkCounter (wrap_i64 (count c + 1)) (expiresAt c)
               | None => MkCounter 1 (now + win)
               end in
      ((count c, expiresAt c - now), <[k := c]> s)
  | Current k =>
      (match live now (s !! k) with Some c => (count c, expiresAt c - now) | None => (0, 0) end, s)
  | Reset k => ((0, 0), delete k s)
  end.

Fixpoint spec_run (win : Z) (trace : list (Z * op)) (s : gmap string localCounter) : list (Z * Z) :=
  match trace with
  | [] => []
  | (now, o) :: rest => let '(v, s) := spec_step win now o s in v :: spec_run win rest s
  end.

(** Times that do not go back. *)
Fixpoint from_time (now : Z) (trace : list (Z * op)) : Prop :=
  match trace with [] => True | (t, _) :: rest => now <= t /\ from_time t rest end.

(** The limiter agrees with the specification on what lives. *)
Definition agrees (K : gset string) (now : Z) (l : fixedWindowLimiter) (s : gmap string localCounter) : Prop :=
  limiter_inv l /\ dom (counters l) ⊆ K /\ Z.of_nat (size K) <= maxLocalEntries l /\
  forall k, live now (counters l !! k) = live now (s !! k).

Lemma agrees_later K now now' l s : now <= now' -> agrees K now l s -> agrees K now' l s.
Proof.
  intros Hle (Hi & Hd & Hs & Ha). repeat (split; [done|]). intros k.
  rewrite <- (live_mono now now'), Ha, live_mono by done. done.
Qed.

Lemma agrees_purge K now l s : agrees K now l s ->
  agrees K now (purgeExpiredLocalLocked now l) s /\
  forall k, counters (purgeExpiredLocalLocked now l) !! k = live now (s !! k).
Proof.
  intros ((Hinv & Hm & Hsz) & Hd & Hs & Ha). destruct (purge_spec now l Hinv) as (Hip & (_ & _ & Hc3) & Hlp).
  pose proof (purge_size now l Hinv).
  split; [|intros k; by rewrite Hlp]. split; [|split; [|split]].
  - split; [done|]. lia.
  - etrans; [|exact Hd]. intros k. rewrite !elem_of_dom, Hlp. destruct (counters l !! k); [by eexists|].
    by intros [? ?].
  - by rewrite Hc3.
  - intros k. rewrite Hlp, live_mono by lia. apply Ha.
Qed.

(** With room for every key of the trace nothing is evicted. *)
Lemma capacity_room K now l s key : agrees K now l s -> key ∈ K ->
  counters (purgeExpiredLocalLocked now l) !! key = None ->
  counters (enforceLocalCapacityLocked now (purgeExpiredLocalLocked now l)) =
    counters (purgeExpiredLocalLocked now l).
Proof.
  intros Hag Hk Hnone. destruct (agrees_purge K now l s Hag) as [(_ & Hd & Hs & _) _].
  pose proof Hag as (Hl & _). destruct (capacity_spec now l Hl) as (_ & _ & _ & [[Hq _]|[Hfull _]]); [done|].
  exfalso. destruct Hl as (Hinv & _). destruct (purge_spec now l Hinv) as (_ & (_ & _ & Hc3) & _).
  assert (Hsub : dom (counters (purgeExpiredLocalLocked now l)) ⊂ K).
  { split; [done|]. intros Hsub. apply Hsub, elem_of_dom in Hk as [c Hc]. congruence. }
  apply subset_size in Hsub. rewrite size_dom in Hsub. lia.
Qed.

Lemma incrementLocal_agrees K now l s k : k ∈ K -> agrees K now l s ->
  let '(v, s') := spec_step (window l) now (Increment k) s in
  (incrementLocal k now l).1 = v /\ agrees K now (incrementLocal k now l).2 s'.
Proof.
  intros Hk Hag. pose proof Hag as (Hl & _ & Hs & _). destruct (increment_inv k now l Hl) as [Hl' (_ & Hw' & Hm')].
  destruct (agrees_purge K now l s Hag) as [(_ & Hdp & _ & _) Hlp].
  destruct (purge_spec now l (proj1 Hl)) as (_ & (_ & Hwp & _) & _).
  unfold spec_step, incrementLocal in *. cbn zeta in *. rewrite Hlp in *.
  assert (Hset : forall cs c, cs = counters (purgeExpiredLocalLocked now l) ->
    (dom (<[k := c]> cs) ⊆ K) /\ forall k', live now (<[k := c]> cs !! k') = live now (<[k := c]> s !! k')).
  { intros cs c ->. split; [rewrite dom_insert_L; set_solver|]. intros k'. destruct (decide (k' = k)) as [->|Hne].
    - by rewrite !lookup_insert_eq.
    - rewrite !lookup_insert_ne, Hlp, live_mono by (done || lia). done. }
  destruct (live now (s !! k)) as [c|] eqn:Ec; cbn [fst snd with_local counters count expiresAt window maxLocalEntries] in *.
  - split; [done|]. destruct (Hset _ (MkCounter (wrap_i64 (count c + 1)) (expiresAt c)) eq_refl) as [H1 H2].
    split; [done|]. split; [done|]. split; [cbn in *; lia|done].
  - assert (Hroom : counters (enforceLocalCapacityLocked now (purgeExpiredLocalLocked now l)) =
      counters (purgeExpiredLocalLocked now l)) by (apply (capacity_room K now l s k); [done|done|by rewrite Hlp, Ec]).
    destruct (capacity_spec now l Hl) as (_ & (_ & Hwq & _) & _). rewrite Hwq.
    split; [by f_equal; lia|]. destruct (Hset _ (MkCounter 1 (now + window l)) Hroom) as [H1 H2].
    rewrite Hwq in *. split; [done|]. split; [done|]. split; [cbn in *; lia|done].
Qed.

Lemma currentLocal_agrees K now l s k : agrees K now l s ->
  let '(v, s') := spec_step (window l) now (Current k) s in
  (currentLocal k now l).1 = v /\ agrees K now (currentLocal k now l).2 s'.
Proof.
  intros Hag. destruct (agrees_purge K now l s Hag) as [Hagp Hlp].
  unfold spec_step, currentLocal. cbn zeta. rewrite Hlp. by destruct (live now (s !! k)).
Qed.

Lemma resetLocal_agrees K now l s k : agrees K now l s -> agrees K now (resetLocal k l) (delete k s).
Proof.
  intros (((Ho & Hi) & Hm & Hsz) & Hd & Hs & Ha). split; [|split; [|split]].
  - split; [split; [done|]|split; [done|]].
    + intros k' c. cbn. intros [_ Hk]%lookup_delete_Some. by apply Hi.
    + cbn. rewrite map_size_delete. destruct (counters l !! k); cbn; lia.
  - cbn. rewrite dom_delete_L. set_solver.
  - done.
  - intros k'. cbn. destruct (decide (k' = k)) as [->|Hne]; [by rewrite !lookup_delete_eq|].
    rewrite !lookup_delete_ne by done. apply Ha.
Qed.

(** ** The limiter while Redis is out of reach *)

Section Offline.
Context {RS : Type} `{CounterServer RS}.

(** No client, or every command fails. *)
Definition offline (s : RS) : Prop :=
  client_ok s = false \/
  (forall k w, eval_increment k w s = (None, s)) /\ (forall k, get_int64 k s = GetError) /\
  (forall k, del_key k s = (false, s)).

Definition step (now : Z) (o : op) (l : fixedWindowLimiter) (r : Remote RS)
    : (Z * Z) * (fixedWindowLimiter * Remote RS) :=
  match o with
  | Increment k => increment k now l r
  | Current k => current k now l r
  | Reset k => ((0, 0), reset k now l r)
  end.

Fixpoint run (trace : list (Z * op)) (l : fixedWindowLimiter) (r : Remote RS) : list (Z * Z) :=
  match trace with
  | [] => []
  | (now, o) :: rest => let '(v, (l, r)) := step now o l r in v :: run rest l r
  end.

Lemma redisClient_server now r : server (redisClient now r).2 = server r.
Proof.
  unfold redisClient, authRedisAttemptAllowed. destruct (retryAt r) as [t|]; [destruct (t <? now)|];
    cbn; try done; by destruct (client_ok (server r)).
Qed.

Lemma redisClient_ok now r : (redisClient now r).1 = true -> client_ok (server r) = true.
Proof.
  unfold redisClient, authRedisAttemptAllowed. destruct (retryAt r) as [t|]; [destruct (t <? now)|];
    cbn; try done; by destruct (client_ok (server r)).
Qed.

Lemma step_offline now o l r : offline (server r) ->
  offline (server (step now o l r).2.2) /\
  (step now o l r).1 = match o with Increment k => (incrementLocal k now l).1 | Current k => (currentLocal k now l).1
                       | Reset _ => (0, 0) end /\
  (step now o l r).2.1 = match o with Increment k => (incrementLocal k now l).2 | Current k => (currentLocal k now l).2
                         | Reset k => resetLocal k l end.
Proof.
  intros Ho. pose proof (redisClient_server now r) as Hs. pose proof (redisClient_ok now r) as Hok.
  unfold step, increment, current, reset, incrementRedis, currentRedis.
  destruct (redisClient now r) as [ok r'] eqn:Ec. cbn [fst snd] in *. rewrite <- Hs in Ho, Hok.
  destruct o as [k|k|k]; destruct ok; cbn [negb];
    [destruct Ho as [Ho|(He & Hg & Hd)]; [by rewrite Hok in Ho|]|..].
  - rewrite He. cbn. destruct (incrementLocal k now l); cbn. split; [by right|done].
  - destruct (incrementLocal k now l); cbn. done.
  - destruct Ho as [Ho|(He & Hg & Hd)]; [by rewrite Hok in Ho|]. rewrite Hg.
    destruct (currentLocal k now l); cbn. split; [by right|done].
  - destruct (currentLocal k now l); cbn. done.
  - destruct Ho as [Ho|(He & Hg & Hd)]; [by rewrite Hok in Ho|]. rewrite Hd. cbn. split; [by right|done].
  - done.
Qed.

Lemma step_agrees K now o l r s : op_key o ∈ K -> offline (server r) -> agrees K now l s ->
  (step now o l r).1 = (spec_step (window l) now o s).1 /\
  agrees K now (step now o l r).2.1 (spec_step (window l) now o s).2 /\
  window (step now o l r).2.1 = window l /\ limit (step now o l r).2.1 = limit l /\
  offline (server (step now o l r).2.2).
Proof.
  intros Hk Ho Hag. destruct (step_offline now o l r Ho) as (Ho' & -> & ->).
  pose proof Hag as (Hl & _). destruct o as [k|k|k]; cbn [op_key] in Hk.
  - pose proof (incrementLocal_agrees K now l s k Hk Hag) as Ha.
    destruct (spec_step (window l) now (Increment k) s) as [v s']. destruct Ha as [Ha Ha'].
    destruct (increment_inv k now l Hl) as [_ (Hc & Hw & _)]. done.
  - pose proof (currentLocal_agrees K now l s k Hag) as Ha.
    destruct (spec_step (window l) now (Current k) s) as [v s'] eqn:E. destruct Ha as [Ha Ha'].
    destruct (purge_spec now l (proj1 Hl)) as (_ & (Hc & Hw & _) & _).
    split; [done|]. split; [done|]. unfold currentLocal. destruct (counters _ !! k); done.
  - split; [done|]. split; [by apply resetLocal_agrees|done].
Qed.

(** C33. While Redis is out of reach the heap, its stale entries, the purges
    and the shared retry instant are invisible: any trace of increments,
    reads and resets, at times that do not go back and over no more keys than
    the configured bound, answers as one independent window per key would. *)
Theorem limiter_refines_windows K t0 trace l r s :
  agrees K t0 l s -> offline (server r) -> from_time t0 trace -> Forall (fun x => op_key x.2 ∈ K) trace ->
  run trace l r = spec_run (window l) trace s.
Proof.
  revert t0 l r s. induction trace as [|[now o] trace IH]; intros t0 l r s Hag Ho Ht HK; [done|].
  destruct Ht as [Hle Ht]. inversion HK as [|? ? Hk HK']; subst; clear HK. apply (agrees_later K t0 now) in Hag; [|done].
  destruct (step_agrees K now o l r s Hk Ho Hag) as (Hv & Hag' & Hw & _ & Ho').
  cbn [run spec_run]. destruct (step now o l r) as [v [l' r']]. destruct (spec_step (window l) now o s) as [v' s'].
  cbn [fst snd] in *. subst v'. rewrite <- Hw. f_equal. by apply (IH now).
Qed.

(** ** What a window admits *)

(** How many of the calls for [k] are admitted. *)
Fixpoint admitted (k : string) (calls : list (Z * string)) (l : fixedWindowLimiter) (r : Remote RS) : Z :=
  match calls with
  | [] => 0
  | (now, key) :: rest =>
      let '((ok, _), (l, r)) := allow key now l r in
      (if ok && String.eqb key k then 1 else 0) + admitted k rest l r
  end.

Definition calls_of (k : string) (calls : list (Z * string)) : Z :=
  Z.of_nat (length (filter (fun c => c.2 = k) calls)).

(** Calls over known keys, in order, between two instants. *)
Fixpoint calls_within (K : gset string) (t0 t1 : Z) (calls : list (Z * string)) : Prop :=
  match calls with
  | [] => True
  | (now, key) :: rest => t0 <= now < t1 /\ key ∈ K /\ calls_within K now t1 rest
  end.

Lemma calls_of_cons k now key rest :
  calls_of k ((now, key) :: rest) = (if decide (key = k) then 1 else 0) + calls_of k rest.
Proof. unfold calls_of. rewrite filter_cons. cbn [snd]. case_decide; cbn [length]; lia. Qed.

Lemma calls_of_nonneg k calls : 0 <= calls_of k calls.
Proof. unfold calls_of. lia. Qed.

(** One call, against the specification. *)
Lemma allow_agrees K now key l r s : key ∈ K -> offline (server r) -> 0 < limit l -> 0 < window l ->
  agrees K now l s ->
  let '((ok, _), (l', r')) := allow key now l r in
  let '(v, s') := spec_step (window l) now (Increment key) s in
  ok = (v.1 <=? limit l) /\ agrees K now l' s' /\ window l' = window l /\ limit l' = limit l /\ offline (server r').
Proof.
  intros Hk Ho Hlim Hwin Hag. pose proof (step_agrees K now (Increment key) l r s Hk Ho Hag) as Hst.
  unfold allow. rewrite (proj2 (Z.leb_gt _ _)), (proj2 (Z.leb_gt _ _)) by done. cbn [orb].
  unfold step in Hst. destruct (increment key now l r) as [[count ttl] [l' r']]. cbn [fst snd] in Hst.
  destruct (spec_step (window l) now (Increment key) s) as [v s']. destruct Hst as (Hv & Hst).
  cbn [fst snd] in *. subst v. cbn [fst].
  destruct (count <=? limit l); done.
Qed.

Lemma spec_other win now key k s : key <> k -> (spec_step win now (Increment key) s).2 !! k = s !! k.
Proof. intros Hne. cbn. by rewrite lookup_insert_ne. Qed.

(** Within a live window: exactly what is left of the quota. *)
Lemma admitted_live K k t0 t1 calls l r s c :
  calls_within K t0 t1 calls -> offline (server r) -> 0 < limit l -> 0 < window l -> agrees K t0 l s ->
  s !! k = Some c -> t1 <= expiresAt c -> 0 <= count c -> count c + Z.of_nat (length calls) < 2 ^ 63 ->
  admitted k calls l r = Z.min (calls_of k calls) (Z.max 0 (limit l - count c)).
Proof.
  revert t0 l r s c. induction calls as [|[now key] rest IH];
    intros t0 l r s c Hc Ho Hlim Hwin Hag Hs He Hpos Hcap; [change (calls_of k []) with 0; cbn [admitted]; lia|].
  destruct Hc as (Hnow & Hkey & Hc). apply (agrees_later K t0 now) in Hag; [|lia].
  pose proof (allow_agrees K now key l r s Hkey Ho Hlim Hwin Hag) as Ha.
  cbn [admitted length] in *. destruct (allow key now l r) as [[ok ttl] [l' r']].
  pose proof (spec_other (window l) now key k s) as Hother.
  rewrite calls_of_cons. destruct (decide (key = k)) as [->|Hne].
  - rewrite String.eqb_refl, andb_true_r. cbn [spec_step] in Ha. rewrite Hs in Ha. cbn [live] in Ha.
    rewrite (proj2 (Z.ltb_lt now (expiresAt c))) in Ha by lia. cbn [count expiresAt fst] in Ha.
    rewrite wrap_i64_id in Ha by (unfold in_i64; lia). destruct Ha as (-> & Hag' & Hw & Hl & Ho').
    rewrite (IH now l' r' (<[k := MkCounter (count c + 1) (expiresAt c)]> s) (MkCounter (count c + 1) (expiresAt c))), Hl; cbn [count expiresAt];
      try done; try lia; [|by rewrite lookup_insert_eq].
    pose proof (calls_of_nonneg k rest). destruct (count c + 1 <=? limit l) eqn:E; breflect; lia.
  - rewrite (proj2 (String.eqb_neq key k) Hne), andb_false_r.
    destruct (spec_step (window l) now (Increment key) s) as [v s']. destruct Ha as (_ & Hag' & Hw & Hl & Ho').
    rewrite (IH now l' r' s' c), Hl; try done; try lia. by rewrite <- Hs; apply Hother.
Qed.

(** From a dead counter: the whole quota. *)
Lemma admitted_fresh K k t0 t1 calls l r s :
  calls_within K t0 t1 calls -> offline (server r) -> 0 < limit l -> 0 < window l -> agrees K t0 l s ->
  live t0 (s !! k) = None -> t1 <= t0 + window l -> Z.of_nat (length calls) < 2 ^ 63 - 1 ->
  admitted k calls l r = Z.min (calls_of k calls) (limit l).
Proof.
  revert t0 l r s. induction calls as [|[now key] rest IH];
    intros t0 l r s Hc Ho Hlim Hwin Hag Hs He Hcap; [change (calls_of k []) with 0; cbn [admitted]; lia|].
  destruct Hc as (Hnow & Hkey & Hc). apply (agrees_later K t0 now) in Hag; [|lia].
  apply (f_equal (live now)) in Hs. rewrite live_mono in Hs by lia. cbn [live] in Hs.
  pose proof (allow_agrees K now key l r s Hkey Ho Hlim Hwin Hag) as Ha.
  cbn [admitted length] in *. destruct (allow key now l r) as [[ok ttl] [l' r']].
  pose proof (spec_other (window l) now key k s) as Hother.
  rewrite calls_of_cons. destruct (decide (key = k)) as [->|Hne].
  - rewrite String.eqb_refl, andb_true_r. cbn [spec_step] in Ha. rewrite Hs in Ha. cbn [count expiresAt fst] in Ha.
    destruct Ha as (-> & Hag' & Hw & Hl & Ho').
    rewrite (admitted_live K k now t1 rest l' r' (<[k := MkCounter 1 (now + window l)]> s) (MkCounter 1 (now + window l))), Hl; cbn [count expiresAt];
      try done; try lia; [|by rewrite lookup_insert_eq].
    pose proof (calls_of_nonneg k rest). rewrite (proj2 (Z.leb_le _ _)) by lia. lia.
  - rewrite (proj2 (String.eqb_neq key k) Hne), andb_false_r.
    destruct (spec_step (window l) now (Increment key) s) as [v s']. destruct Ha as (_ & Hag' & Hw & Hl & Ho').
    rewrite (IH now l' r' s'), Hl; try done; try lia. rewrite <- Hs. f_equal. by apply Hother.
Qed.

(** From a live counter: what is left of its quota, and one more once it
    expires. *)
Lemma admitted_burst K k t0 t1 b calls l r s c :
  calls_within K t0 t1 calls -> offline (server r) -> 0 < limit l -> 0 < window l -> agrees K t0 l s ->
  s !! k = Some c -> b <= t0 -> b < expiresAt c -> t1 <= b + window l -> 0 <= count c ->
  count c + Z.of_nat (length calls) < 2 ^ 63 - 1 ->
  admitted k calls l r <= Z.max 0 (limit l - count c) + limit l.
Proof.
  revert t0 l r s c. induction calls as [|[now key] rest IH];
    intros t0 l r s c Hc Ho Hlim Hwin Hag Hs Hb Hbe Ht1 Hpos Hcap; [cbn [admitted]; lia|].
  destruct (decide (now < expiresAt c)) as [Hlive|Hdead].
  2: { destruct Hc as (Hnow & Hkey & Hc). apply (agrees_later K t0 now) in Hag; [|lia].
       rewrite (admitted_fresh K k now t1 _ l r s); try done; try lia.
       - repeat split; try done; lia.
       - rewrite Hs. cbn. by rewrite (proj2 (Z.ltb_ge _ _)) by lia. }
  destruct Hc as (Hnow & Hkey & Hc). apply (agrees_later K t0 now) in Hag; [|lia].
  pose proof (allow_agrees K now key l r s Hkey Ho Hlim Hwin Hag) as Ha.
  cbn [admitted length] in *. destruct (allow key now l r) as [[ok ttl] [l' r']].
  pose proof (spec_other (window l) now key k s) as Hother.
  destruct (decide (key = k)) as [->|Hne].
  - rewrite String.eqb_refl, andb_true_r. cbn [spec_step] in Ha. rewrite Hs in Ha. cbn [live] in Ha.
    rewrite (proj2 (Z.ltb_lt now (expiresAt c))) in Ha by lia. cbn [count expiresAt fst] in Ha.
    rewrite wrap_i64_id in Ha by (unfold in_i64; lia). destruct Ha as (-> & Hag' & Hw & Hl & Ho').
    assert (Hi : admitted k rest l' r' <= Z.max 0 (limit l' - (count c + 1)) + limit l').
    { apply (IH now l' r' (<[k := MkCounter (count c + 1) (expiresAt c)]> s) (MkCounter (count c + 1) (expiresAt c))); cbn [count expiresAt];
        try done; try lia. by rewrite lookup_insert_eq. }
    destruct (count c + 1 <=? limit l) eqn:E; breflect; lia.
  - rewrite (proj2 (String.eqb_neq key k) Hne), andb_false_r.
    destruct (spec_step (window l) now (Increment key) s) as [v s']. destruct Ha as (_ & Hag' & Hw & Hl & Ho').
    rewrite <- Hl. apply (IH now l' r' s' c); try done; try lia. by rewrite <- Hs; apply Hother.
Qed.

(** The quota.  While Redis is out of reach and the keys fit, whatever the
    limiter held before: among the calls of any interval no longer than the
    window, at most twice the limit is admitted for a key; and if the key has
    no live counter at the start, all its calls up to the limit and no more. *)
Theorem window_quota K k t0 calls l r :
  limiter_inv l -> dom (counters l) ⊆ K -> Z.of_nat (size K) <= maxLocalEntries l ->
  0 < limit l -> 0 < window l -> offline (server r) ->
  (forall c, counters l !! k = Some c -> 0 <= count c /\ count c + Z.of_nat (length calls) < 2 ^ 63 - 1) ->
  Z.of_nat (length calls) < 2 ^ 63 - 1 ->
  calls_within K t0 (t0 + window l) calls ->
  admitted k calls l r <= 2 * limit l /\
  (live t0 (counters l !! k) = None -> admitted k calls l r = Z.min (calls_of k calls) (limit l)).
Proof.
  intros Hl Hd Hs Hlim Hwin Ho Hcnt Hlen Hc. assert (Hag : agrees K t0 l (counters l)) by done.
  assert (Hfresh : live t0 (counters l !! k) = None -> admitted k calls l r = Z.min (calls_of k calls) (limit l)).
  { intros Hn. by apply (admitted_fresh K k t0 (t0 + window l) calls l r (counters l)). }
  split; [|done]. destruct (live t0 (counters l !! k)) as [c|] eqn:Elive; [|rewrite Hfresh by done; lia].
  destruct (counters l !! k) as [c'|] eqn:Ek; [|done]. cbn in Elive. destruct (t0 <? expiresAt c') eqn:El; [|done].
  breflect. destruct (Hcnt c' eq_refl) as [Hp Hq].
  pose proof (admitted_burst K k t0 (t0 + window l) t0 calls l r (counters l) c') as Hb.
  enough (admitted k calls l r <= Z.max 0 (limit l - count c') + limit l) by lia. apply Hb; try done; lia.
Qed.
End Offline.

(** ** The counters in Redis *)

(** The commands of the script. [INCR] answers [None] for its errors. *)
Class Counters (RS : Type) := {
  incr : string -> RS -> option Z * RS;
  pexpire : string -> Z -> RS -> RS;
  ttl_ms : string -> RS -> Z
}.

(** Their documented behaviour, in terms of the clock in milliseconds and of
    the value and deadline of each key. *)
Class CounterLaws (RS : Type) `{Counters RS} := {
  clock : RS -> Z;
  entry : RS -> string -> option (Z * option Z);
  incr_clock k s : clock (incr k s).2 = clock s;
  incr_value k s n d : entry s k = Some (n, d) -> n < 2 ^ 63 - 1 -> (incr k s).1 = Some (n + 1);
  incr_entry k s n d k' : entry s k = Some (n, d) -> n < 2 ^ 63 - 1 ->
    entry (incr k s).2 k' = if decide (k = k') then Some (n + 1, d) else entry s k';
  incr_new k s : entry s k = None -> (incr k s).1 = Some 1;
  incr_new_entry k s k' : entry s k = None ->
    entry (incr k s).2 k' = if decide (k = k') then Some (1, None) else entry s k';
  pexpire_clock k ms s : clock (pexpire k ms s) = clock s;
  pexpire_entry k ms s k' : 0 < ms ->
    entry (pexpire k ms s) k' =
      if decide (k = k') then (fun e => (e.1, Some (clock s + ms))) <$> entry s k else entry s k';
  ttl_entry k s : ttl_ms k s = match entry s k with
    | None => -2 | Some (_, None) => -1 | Some (_, Some d) => d - clock s end
}.

Section Script.
Context {RS : Type} `{CounterLaws RS}.

(** The script; an error keeps the effects before it. *)
Definition authRateLimitIncrementScript (key argv : string) (s : RS) : option LuaValue * RS :=
  match incr key s with
  | (None, s) => (None, s)
  | (Some count, s) =>
      let expired := if count =? 1 then (fun ms => pexpire key ms s) <$> parse_int argv else Some s in
      match expired with
      | None => (None, s)
      | Some s =>
          let ttl := ttl_ms key s in
          (Some (LSlice [LInt64 count; if ttl <? 0 then LString argv else LInt64 ttl]), s)
      end
  end.

(** A server that answers; [GET] and [DEL] are as given. *)
Definition Answering (get_int64' : string -> RS -> get_reply) (del_key' : string -> RS -> bool * RS)
    : CounterServer RS := {|
  client_ok _ := true;
  eval_increment := authRateLimitIncrementScript;
  get_int64 := get_int64';
  pttl k s := Some (ttl_ms k s * Millisecond);
  del_key := del_key'
|}.

Lemma script_new key argv ms s : parse_int argv = Some ms -> 0 < ms -> entry s key = None ->
  exists s', authRateLimitIncrementScript key argv s = (Some (LSlice [LInt64 1; LInt64 ms]), s') /\
    forall k, entry s' k = if decide (key = k) then Some (1, Some (clock s + ms)) else entry s k.
Proof.
  intros Hp Hms He. unfold authRateLimitIncrementScript.
  pose proof (incr_new key s He) as Hv. pose proof (fun k => incr_new_entry key s k He) as Hn.
  pose proof (incr_clock key s) as Hc.
  destruct (incr key s) as [v s1]. cbn [fst snd] in *. subst v. change (1 =? 1) with true. rewrite Hp.
  cbn [fmap option_fmap option_map].
  rewrite ttl_entry, pexpire_entry, decide_True, Hn, decide_True by done. cbn [fmap option_fmap option_map fst].
  rewrite pexpire_clock, Hc. replace (clock s + ms - clock s) with ms by lia.
  rewrite (proj2 (Z.ltb_ge ms 0)) by lia. eexists. split; [reflexivity|]. intros k.
  rewrite pexpire_entry by done. rewrite Hc. destruct (decide (key = k)) as [<-|Hne].
  - by rewrite Hn, decide_True.
  - by rewrite Hn, decide_False.
Qed.

Lemma script_known key argv s n d : 0 < n < 2 ^ 63 - 1 -> entry s key = Some (n, d) ->
  exists s', authRateLimitIncrementScript key argv s =
    (Some (LSlice [LInt64 (n + 1); match d with
       | Some d => if d - clock s <? 0 then LString argv else LInt64 (d - clock s) | None => LString argv end]), s') /\
    forall k, entry s' k = if decide (key = k) then Some (n + 1, d) else entry s k.
Proof.
  intros Hn He. unfold authRateLimitIncrementScript.
  pose proof (incr_value key s n d He) as Hv. pose proof (incr_clock key s) as Hc.
  assert (Hk : forall k, entry (incr key s).2 k = if decide (key = k) then Some (n + 1, d) else entry s k).
  { intros k. apply incr_entry; [done|lia]. }
  destruct (incr key s) as [v s1]. cbn [fst snd] in *. rewrite Hv by lia.
  rewrite (proj2 (Z.eqb_neq (n + 1) 1)) by lia. rewrite ttl_entry, Hk, decide_True by done.
  eexists. split; [|exact Hk]. rewrite Hc. by destruct d.
Qed.

Lemma window_ms w : 0 < Milliseconds w -> w < 2 ^ 63 ->
  in_i64 (Milliseconds w) /\ wrap_i64 (Milliseconds w * Millisecond) = Milliseconds w * Millisecond.
Proof.
  unfold Milliseconds, Millisecond, in_i64. intros Hpos Hw.
  assert (0 < w) by (destruct (Z.le_gt_cases w 0) as [Hle|]; [|done];
    pose proof (Z.quot_le_mono w 0 1000000); change (Z.quot 0 1000000) with 0 in *; lia).
  rewrite Z.quot_div_nonneg in * by lia. pose proof (Z.mul_div_le w 1000000).
  split; [lia|]. apply wrap_i64_id. unfold in_i64. lia.
Qed.

(** The window in Redis is fixed.  The first increment of a key sets its
    deadline one window ahead, every later one counts on without moving it,
    and no other key changes; the answer is the new count and the time left.
    A counter that has lost its deadline counts on without one and is
    reported as if a whole window were left. *)
Theorem redis_window_fixed g dk l key now r :
  0 < Milliseconds (window l) -> window l < 2 ^ 63 -> (forall t, retryAt r = Some t -> t < now) ->
  let k := redisKey l key in
  let w := Milliseconds (window l) in
  let '(reply, r') := incrementRedis (H := Answering g dk) l key now r in
  match entry (server r) k with
  | None => reply = Some (1, w * Millisecond) /\
      forall k', entry (server r') k' = if decide (k = k') then Some (1, Some (clock (server r) + w)) else entry (server r) k'
  | Some (n, d) => 0 < n < 2 ^ 63 - 1 ->
      reply = Some (n + 1, match d with
        | Some d => if clock (server r) <? d then wrap_i64 ((d - clock (server r)) * Millisecond) else w * Millisecond
        | None => w * Millisecond end) /\
      forall k', entry (server r') k' = if decide (k = k') then Some (n + 1, d) else entry (server r) k'
  end.
Proof.
  intros Hw Hmax Hretry. cbn zeta. destruct (window_ms (window l) Hw Hmax) as [Hin Hms].
  pose proof (parse_int_itoa _ Hin) as Hp. unfold incrementRedis.
  assert (Hc : redisClient (H := Answering g dk) now r = (true, MkRemote None (server r))).
  { unfold redisClient, authRedisAttemptAllowed. destruct (retryAt r) as [t|] eqn:E; [|done].
    by rewrite (proj2 (Z.ltb_lt t now)) by auto. }
  rewrite Hc. cbn [negb client_ok Answering eval_increment server].
  destruct (entry (server r) (redisKey l key)) as [[n d]|] eqn:E.
  - destruct (decide (0 < n < 2 ^ 63 - 1)) as [Hn|Hn]; [|destruct (authRateLimitIncrementScript _ _ _) as [[[]|] ?];
      repeat case_match; done].
    destruct (script_known _ (itoa (Milliseconds (window l))) _ n d Hn E) as (s' & -> & Hs).
    cbn [toInt64]. destruct d as [d|]; cbn [toInt64].
    + destruct (d - clock (server r) <? 0) eqn:E1; breflect; cbn [toInt64].
      * rewrite Hp, (proj2 (Z.leb_gt _ _)), Hms, (proj2 (Z.ltb_ge _ _)) by lia. done.
      * destruct (clock (server r) <? d) eqn:E2; breflect.
        -- by rewrite (proj2 (Z.leb_gt _ _)) by lia.
        -- rewrite (proj2 (Z.leb_le _ _)), Hms by lia. done.
    + rewrite Hp, (proj2 (Z.leb_gt _ _)), Hms by lia. done.
  - destruct (script_new _ (itoa (Milliseconds (window l))) _ (server r) Hp Hw E) as (s' & -> & Hs).
    cbn [toInt64]. rewrite (proj2 (Z.leb_gt _ _)), Hms by lia. done.
Qed.
End Script.

(** ** Instances *)

(** Counters in a finite map, with a clock in milliseconds. *)
Record CounterStore := MkStore { store_clock : Z; store : gmap string (Z * option Z) }.

Definition store_entry (s : CounterStore) (k : string) : option (Z * option Z) :=
  match store s !! k with
  | Some (n, Some d) => if store_clock s <=? d then Some (n, Some d) else None
  | e => e
  end.

Definition store_with (k : string) (e : Z * option Z) (s : CounterStore) : CounterStore :=
  MkStore (store_clock s) (<[k := e]> (store s)).

#[export] Instance store_counters : Counters CounterStore := {|
  incr k s :=
    match store_entry s k with
    | Some (n, d) => if n <? 2 ^ 63 - 1 then (Some (n + 1), store_with k (n + 1, d) s) else (None, s)
    | None => (Some 1, store_with k (1, None) s)
    end;
  pexpire k ms s :=
    match store_entry s k with
    | Some (n, _) => store_with k (n, Some (store_clock s + ms)) s
    | None => s
    end;
  ttl_ms k s :=
    match store_entry s k with None => -2 | Some (_, None) => -1 | Some (_, Some d) => d - store_clock s end
|}.

(** A deadline not yet passed can be read back. *)
Definition readable (now : Z) (e : Z * option Z) : Prop := match e.2 with Some d => now <= d | None => True end.

Lemma store_entry_with s k e k' : readable (store_clock s) e ->
  store_entry (store_with k e s) k' = if decide (k = k') then Some e else store_entry s k'.
Proof.
  unfold store_entry, store_with, readable. cbn. intros Hr. destruct (decide (k = k')) as [<-|Hne].
  - rewrite lookup_insert_eq. destruct e as [n [d|]]; [|done]. cbn in Hr. by rewrite (proj2 (Z.leb_le _ _)).
  - by rewrite lookup_insert_ne.
Qed.

Lemma store_entry_readable s k e : store_entry s k = Some e -> readable (store_clock s) e.
Proof.
  unfold store_entry, readable. destruct (store s !! k) as [[n [d|]]|]; [|intros [= <-]; done|done].
  destruct (_ <=? _) eqn:E; [|done]. intros [= <-]. by breflect.
Qed.

#[export] Instance store_laws : CounterLaws CounterStore.
Proof.
  refine {| clock := store_clock; entry := store_entry |}.
  - intros k s. cbn. destruct (store_entry s k) as [[n d]|]; [destruct (n <? _)|]; done.
  - intros k s n d He Hn. cbn. by rewrite He, (proj2 (Z.ltb_lt _ _)).
  - intros k s n d k' He Hn. cbn [incr store_counters]. rewrite He, (proj2 (Z.ltb_lt _ _)) by done.
    apply store_entry_with. exact (store_entry_readable s k _ He).
  - intros k s He. cbn. by rewrite He.
  - intros k s k' He. cbn [incr store_counters]. rewrite He. by apply store_entry_with.
  - intros k ms s. cbn. by destruct (store_entry s k) as [[n d]|].
  - intros k ms s k' Hms. cbn [pexpire store_counters]. destruct (store_entry s k) as [[n d]|] eqn:E.
    + rewrite store_entry_with by (cbn; lia). by destruct (decide (k = k')).
    + destruct (decide (k = k')) as [<-|]; [by rewrite E|done].
  - done.
Defined.

Definition sample_remote : Remote CounterStore :=
  MkRemote None (MkStore 500 {[ "p:a" := (4, Some 700) ]}).

Lemma redis_window_fixed_witness :
  let '(reply, r) := incrementRedis (H := Answering (fun _ _ => GotNil) (fun _ s => (true, s)))
    (newFixedWindowLimiter "p" 2 Second 10) "a" 0 sample_remote in
  reply = Some (5, 200 * Millisecond) /\ forall k', entry (server r) k' =
    if decide ("p:a" = k') then Some (5, Some 700) else entry (server sample_remote) k'.
Proof.
  pose proof (redis_window_fixed (fun _ _ => GotNil) (fun _ s => (true, s)) (newFixedWindowLimiter "p" 2 Second 10)
    "a" 0 sample_remote ltac:(reflexivity) ltac:(reflexivity) ltac:(done)) as Hw.
  cbv zeta in Hw. destruct (incrementRedis _ _ _ _) as [reply r].
  change (entry (server sample_remote) _) with (Some (4, Some 700)) in Hw at 1.
  destruct (Hw ltac:(lia)) as [-> Hr]. split; [reflexivity|exact Hr].
Defined.

(** A new limiter is in order. *)
Lemma new_limiter_empty pre lim win max k : counters (newFixedWindowLimiter pre lim win max) !! k = None.
Proof. exact (lookup_empty k). Qed.

Lemma new_limiter_inv pre lim win max : limiter_inv (newFixedWindowLimiter pre lim win max).
Proof.
  split; [split|].
  - intros j Hj. cbn in Hj. lia.
  - intros k c Hk. by rewrite new_limiter_empty in Hk.
  - change (counters (newFixedWindowLimiter pre lim win max)) with (∅ : gmap string localCounter). rewrite map_size_empty. cbn. unfold defaultAuthLocalFallbackMaxKeys. destruct (max <=? 0) eqn:E; breflect; lia.
Qed.

(** A server that cannot be reached. *)
Definition Unreachable : CounterServer unit := {|
  client_ok _ := false;
  eval_increment _ _ s := (None, s);
  get_int64 _ _ := GetError;
  pttl _ _ := None;
  del_key _ s := (false, s)
|}.

Definition full_limiter : fixedWindowLimiter :=
  (incrementLocal "a" 0 (newFixedWindowLimiter "p" 2 10 1)).2.

Lemma local_capacity_witness :
  (limiter_inv full_limiter /\ Z.of_nat (size (counters full_limiter)) = maxLocalEntries full_limiter) /\
  limiter_inv (incrementLocal "b" 5 full_limiter).2 /\
  counters (incrementLocal "b" 5 full_limiter).2 !! "a" = None.
Proof.
  split; [split; [apply (increment_inv "a" 0), new_limiter_inv|reflexivity]|].
  split; [|reflexivity]. apply (local_capacity "b" 5 full_limiter). apply (increment_inv "a" 0), new_limiter_inv.
Defined.

Definition sample_trace : list (Z * op) :=
  [(0, Increment "a"); (3, Increment "a"); (4, Reset "a"); (5, Increment "a"); (6, Increment "b");
   (12, Current "a"); (15, Current "a"); (15, Increment "a")].

Lemma limiter_refines_windows_witness :
  run (H := Unreachable) sample_trace (newFixedWindowLimiter "p" 2 10 2) (MkRemote None tt) =
  [(1, 10); (2, 7); (0, 0); (1, 10); (1, 10); (1, 3); (0, 0); (1, 10)].
Proof.
  etransitivity; [apply (limiter_refines_windows (H := Unreachable) {[ "a"; "b" ]} 0 sample_trace _ _ ∅)|reflexivity].
  - split; [apply new_limiter_inv|]. split; [intros k Hk; apply elem_of_dom in Hk as [c Hk]; by rewrite new_limiter_empty in Hk|].
    split; [by vm_compute|done].
  - by left.
  - cbn. lia.
  - repeat constructor; cbn; set_solver.
Defined.

Definition sample_calls : list (Z * string) := [(0, "a"); (1, "b"); (2, "a"); (9, "a"); (9, "b")].

Lemma window_quota_witness :
  admitted (H := Unreachable) "a" sample_calls (newFixedWindowLimiter "p" 2 10 2) (MkRemote None tt) = 2.
Proof.
  etransitivity.
  - apply (window_quota (H := Unreachable) {[ "a"; "b" ]} "a" 0 sample_calls); [..|reflexivity].
    + apply new_limiter_inv.
    + intros k Hk. apply elem_of_dom in Hk as [c Hk]. by rewrite new_limiter_empty in Hk.
    + by vm_compute.
    + cbn. lia.
    + cbn. lia.
    + by left.
    + intros c Hk. by rewrite new_limiter_empty in Hk.
    + cbn. lia.
    + cbn. repeat split; (lia || set_solver).
  - reflexivity.
Defined.
End RateLimit.
