(* ===== verification/ClientIP.v ===== *)
(** * The client of a request ([internal/app/server/client_ip.go])

    Which address a request is counted against: the peer, or, when the peer is
    a trusted proxy, the hop its headers name.  Addresses go through
    [net.ParseIP] and networks through [net.ParseCIDR], as in Netip.v; the raw
    value of TRUSTED_PROXY_CIDRS and the digest are parameters. *)

From S2P Require Import Prelude GoStrings Netip NetipFacts GoNet RateLimit.
From Stdlib Require Import Ascii.
Open Scope Z_scope.

Module ClientIP.
Import Netip NetipFacts GoNet.

(** What is read of an [http.Request]: the lines of each header, in order. *)
Record Request := MkRequest {
  RemoteAddr : string; forwarded_lines : list string; real_ip_lines : list string; user_agent_lines : list string
}.

(** [Header.Get]: the first line, or the empty string. *)
Definition Get (lines : list string) : string := hd "" lines.

Definition XForwardedFor (r : Request) : string := Get (forwarded_lines r).
Definition XRealIP (r : Request) : string := Get (real_ip_lines r).
Definition UserAgent (r : Request) : string := Get (user_agent_lines r).

(** ** Addresses and networks *)

(** [net.ParseCIDR]: the network address and the length of its prefix. *)
Definition ParseCIDR (s : string) : option Prefix :=
  match index_byte "/" s with
  | None => None
  | Some i =>
      match ParseAddr (stake i s) with
      | None => None
      | Some ip =>
          let digits := sdrop (S i) s in
          match digits_val 0 digits with
          | Some n =>
              if negb (String.eqb (Zone ip) "") || String.eqb digits "" || (BitLen ip <? n) then None
              else Some (Masked (MkPrefix ip n))
          | None => None
          end
      end
  end.

(** [IPNet.Contains]: IPv4-mapped networks and addresses count as IPv4. *)
Definition cidr_contains (n : Prefix) (ip : Addr) : bool :=
  let bits := if Is4In6 (paddr n) then pbits n - 96 else pbits n in
  Contains (MkPrefix (Unmap (paddr n)) bits) (Unmap ip).

Definition parseIP (raw : string) : string :=
  let raw := trim_space raw in
  if String.eqb raw "" then ""
  else
    let raw := match SplitHostPort raw with Some (host, _) => host | None => raw end in
    match ParseIP raw with Some a => ip_string a | None => "" end.

Definition remoteAddrIP (remoteAddr : string) : string :=
  let ip := parseIP remoteAddr in if String.eqb ip "" then trim_space remoteAddr else ip.

Definition ipIsTrustedByCIDRs (raw : string) (trusted : list Prefix) : bool :=
  if String.eqb (trim_space raw) "" then false
  else match ParseIP (trim_space raw) with
       | Some a => existsb (fun n => cidr_contains n a) trusted
       | None => false
       end.

Definition parseForwardedForHeader (value : string) : list string :=
  if String.eqb (trim_space value) "" then []
  else filter (fun ip => ip <> "") (map parseIP (split_byte "," value)).

(** [net.IP]'s predicates, on the 16-byte form. *)
Definition ip_in (s : string) (a : Addr) : bool :=
  match ParseCIDR s with Some n => cidr_contains n a | None => false end.

Definition IsPrivate (a : Addr) : bool :=
  ip_in "10.0.0.0/8" a || ip_in "172.16.0.0/12" a || ip_in "192.168.0.0/16" a || ip_in "fc00::/7" a.
Definition IsLoopback (a : Addr) : bool := ip_in "127.0.0.0/8" a || ip_in "::1/128" a.
Definition IsLinkLocalUnicast (a : Addr) : bool := ip_in "169.254.0.0/16" a || ip_in "fe80::/10" a.
(** The second nibble of an ff0x address is its scope; the flags are free. *)
Definition IsLinkLocalMulticast (a : Addr) : bool :=
  match Unmap a with
  | Addr4 v => v / 2 ^ 8 =? 224 * 2 ^ 16
  | Addr6 v _ => (v / 2 ^ 120 =? 255) && (v / 2 ^ 112 mod 16 =? 2)
  end.

Definition ipLikelyProxyAddress (raw : string) : bool :=
  match ParseIP (trim_space raw) with
  | Some ip => IsPrivate ip || IsLoopback ip || IsLinkLocalUnicast ip || IsLinkLocalMulticast ip
  | None => false
  end.

Definition requestHasForwardedClientIPHeaders (r : Request) : bool :=
  negb (String.eqb (trim_space (XForwardedFor r)) "") || negb (String.eqb (trim_space (XRealIP r)) "").

(** ** The client *)

Section Client.
(** The environment variable and the digest ([sha256], in hexadecimal). *)
Context (TRUSTED_PROXY_CIDRS : string) (sha256_hex : string -> string).

(** Unreadable networks are skipped, and so are those that hold everything. *)
Definition trustedProxyCIDRsFromEnv : list Prefix :=
  let raw := trim_space TRUSTED_PROXY_CIDRS in
  if String.eqb raw "" then []
  else
    omap (fun part =>
      let part := trim_space part in
      if String.eqb part "" then None
      else match ParseCIDR part with
           | Some n => if pbits n =? 0 then None else Some n
           | None => None
           end) (split_byte "," raw).

Definition trusted (ip : string) : bool := ipIsTrustedByCIDRs ip trustedProxyCIDRsFromEnv.

Definition remoteAddrIsTrustedProxy (remoteAddr : string) : bool := trusted (parseIP remoteAddr).

(** The last hop that is not trusted. *)
Definition last_untrusted (hops : list string) : option string :=
  first_match (fun hop => if trusted hop then None else Some hop) (rev hops).

(** [clientIPFromRequest]; [None] is the nil request. *)
Definition clientIPFromRequest (r : option Request) : string :=
  match r with
  | None => ""
  | Some r =>
      let remoteIP := remoteAddrIP (RemoteAddr r) in
      if negb (trusted remoteIP) then remoteIP
      else
        match parseForwardedForHeader (XForwardedFor r) with
        | [] =>
            let realIP := parseIP (XRealIP r) in
            if negb (String.eqb realIP "") && negb (trusted realIP) then realIP else remoteIP
        | chain => default remoteIP (last_untrusted (chain ++ [remoteIP]))
        end
  end.

Definition getAuthClientIP (r : option Request) : string :=
  let ip := clientIPFromRequest r in
  if String.eqb (trim_space ip) "" then "unknown" else ip.

Definition fingerprint (r : Request) : string :=
  trim_space (to_lower (join "|" [trim_space (XForwardedFor r); trim_space (XRealIP r); trim_space (UserAgent r)])).

Definition getAuthRateLimitKey (r : option Request) : string :=
  let ip := getAuthClientIP r in
  match r with
  | None => ip
  | Some r =>
      if remoteAddrIsTrustedProxy (RemoteAddr r) then ip
      else if negb (requestHasForwardedClientIPHeaders r) || negb (ipLikelyProxyAddress (remoteAddrIP (RemoteAddr r))) then ip
      else if String.eqb (fingerprint r) "" then ip
      else ip +:+ ":" +:+ RateLimit.hashIdentifier sha256_hex (fingerprint r)
  end.
End Client.

Example mapped_is_trusted : trusted "10.0.0.0/8, 0.0.0.0/0" "::ffff:10.1.2.3" = true.
Proof. vm_compute. reflexivity. Qed.

Example everything_is_not_trusted : trusted "0.0.0.0/0" "10.1.2.3" = false.
Proof. vm_compute. reflexivity. Qed.

Example rightmost : clientIPFromRequest "10.0.0.0/8"
  (Some (MkRequest "10.0.0.1:443" ["1.2.3.4, 203.0.113.9:80, junk, 10.0.0.2"] [] [])) = "203.0.113.9".
Proof. vm_compute. reflexivity. Qed.

(** ** Addresses in canonical form *)

Lemma unmap_facts s a : ParseIP s = Some a ->
  valid (Unmap a) /\ Is4In6 (Unmap a) = false /\ Zone (Unmap a) = "".
Proof.
  intros H. unfold ParseIP in H. destruct (ParseAddr s) as [[v|v [|c z]]|] eqn:E; try done; apply ParseAddr_valid in E.
  - injection H as <-. assert (valid (Addr6 (65535 * 2 ^ 32 + v) "")) as Hv by (unfold valid in *; cbn in *; lia).
    split; [by apply Unmap_valid|]. split; [apply Unmap_not_4in6|]. unfold Unmap. by destruct (Is4In6 _).
  - injection H as <-. split; [by apply Unmap_valid|]. split; [apply Unmap_not_4in6|]. unfold Unmap. by destruct (Is4In6 _).
Qed.

(** Reading a canonical text again. *)
Lemma ParseIP_ip_string s a : ParseIP s = Some a ->
  exists b, ParseIP (ip_string a) = Some b /\ Unmap b = Unmap a.
Proof.
  intros H. destruct (unmap_facts s a H) as (Hv & H4 & Hz). unfold ip_string, ParseIP. rewrite (parse_print _ Hv H4 Hz).
  destruct (Unmap a) as [v|v z] eqn:Eu.
  - eexists. split; [reflexivity|]. unfold Unmap, Is4In6.
    assert (0 <= v < 4294967296) by exact Hv.
    rewrite Z.shiftr_div_pow2 by lia. change (2 ^ 32) with 4294967296 in *.
    rewrite Z.div_add_l, (Z.div_small v) by lia. simpl Z.eqb. cbv iota.
    by rewrite Z.add_comm, Z.mod_add, Z.mod_small by lia.
  - cbn in Hz. subst z. eexists. split; [reflexivity|]. unfold Unmap. by rewrite H4.
Qed.

Lemma addr_char_printable c : addr_char c -> printable c.
Proof. unfold addr_char, printable. lia. Qed.

Lemma trim_ip_string s a : ParseIP s = Some a -> trim_space (ip_string a) = ip_string a.
Proof.
  intros H. destruct (unmap_facts s a H) as (Hv & H4 & Hz). apply trim_space_printable.
  eapply Forall_impl; [apply (to_string_addr_char _ Hz H4)|apply addr_char_printable].
Qed.

Lemma ip_string_nonempty s a : ParseIP s = Some a -> ip_string a <> "".
Proof. intros H. destruct (unmap_facts s a H) as (Hv & H4 & Hz). by apply parse_print_nonempty. Qed.

(** A result of [parseIP] is the canonical text of an address. *)
Definition canonical (ip : string) : Prop := exists s a, ParseIP s = Some a /\ ip = ip_string a.

Lemma parseIP_canonical raw : parseIP raw = "" \/ canonical (parseIP raw).
Proof.
  unfold parseIP. cbv zeta. destruct (String.eqb _ ""); [by left|].
  destruct (ParseIP _) as [a|] eqn:E; [|by left]. right. by eexists _, a.
Qed.

Lemma canonical_nonempty ip : canonical ip -> ip <> "" /\ trim_space ip = ip.
Proof. intros (s & a & H & ->). split; [by eapply ip_string_nonempty|by eapply trim_ip_string]. Qed.

(** Whether a canonical text is trusted depends on its address alone. *)
Lemma trusted_canonical cidrs s a : ParseIP s = Some a ->
  ipIsTrustedByCIDRs (ip_string a) cidrs = existsb (fun n => cidr_contains n a) cidrs.
Proof.
  intros H. unfold ipIsTrustedByCIDRs. rewrite (trim_ip_string s a H).
  destruct (String.eqb_spec (ip_string a) "") as [E|_]; [by destruct (ip_string_nonempty s a H)|].
  destruct (ParseIP_ip_string s a H) as (b & -> & Hb).
  induction cidrs as [|n cidrs IH]; [done|]. cbn [existsb]. rewrite IH. f_equal. unfold cidr_contains. by rewrite Hb.
Qed.

(** ** Chains *)

Lemma split_byte_append b s t : split_byte b (s +:+ String b t) = split_byte b s ++ split_byte b t.
Proof.
  induction s as [|c s IH]; [by apply split_byte_app|].
  rewrite str_app_cons. cbn [split_byte]. rewrite IH. case_bool_decide; [done|].
  destruct (split_byte b s) as [|x xs] eqn:E; [by apply split_byte_nonempty in E|done].
Qed.

(** The hops of a header value. *)
Definition hops (value : string) : list string := filter (fun ip => ip <> "") (map parseIP (split_byte "," value)).

Lemma parseIP_blank s : trim_space s = "" -> parseIP s = "".
Proof. intros H. unfold parseIP. by rewrite H. Qed.

Lemma forwarded_hops value : trim_space value <> "" -> parseForwardedForHeader value = hops value.
Proof. intros H. unfold parseForwardedForHeader. by destruct (String.eqb_spec (trim_space value) ""). Qed.

Lemma forwarded_append front tail :
  parseForwardedForHeader tail <> [] ->
  parseForwardedForHeader (front +:+ "," +:+ tail) = hops front ++ parseForwardedForHeader tail.
Proof.
  intros Ht. rewrite !forwarded_hops.
  - unfold hops. change ("," +:+ tail) with (String "," tail). by rewrite split_byte_append, map_app, filter_app.
  - intros E. unfold parseForwardedForHeader in Ht. by rewrite E in Ht.
  - intros E. assert (","%char ∈ bytes (trim_space (front +:+ "," +:+ tail))) as Hin.
    { apply trim_space_keeps; [|unfold printable, code; simpl; lia]. rewrite !bytes_app. set_solver. }
    rewrite E in Hin. by apply elem_of_nil in Hin.
Qed.

Lemma forwarded_canonical value ip : ip ∈ parseForwardedForHeader value -> canonical ip.
Proof.
  unfold parseForwardedForHeader. destruct (String.eqb _ ""); [by intros ?%elem_of_nil|].
  rewrite list_elem_of_filter. intros [Hne (part & -> & _)%list_elem_of_fmap]. by destruct (parseIP_canonical part).
Qed.

Section Facts.
Context (TRUSTED_PROXY_CIDRS : string) (sha256_hex : string -> string).

Lemma last_untrusted_app c after before :
  trusted TRUSTED_PROXY_CIDRS c = false -> Forall (fun t => trusted TRUSTED_PROXY_CIDRS t = true) after ->
  last_untrusted TRUSTED_PROXY_CIDRS (before ++ c :: after) = Some c.
Proof.
  intros Hc Ha. unfold last_untrusted. rewrite rev_app_distr. simpl. rewrite <- app_assoc. simpl.
  assert (Forall (fun t => trusted TRUSTED_PROXY_CIDRS t = true) (rev after)) as Hr
    by (apply Forall_forall; intros t Hin; rewrite elem_of_rev in Hin; by eapply Forall_forall in Ha).
  induction Hr as [|t ts Ht _ IH]; simpl; [by rewrite Hc|by rewrite Ht].
Qed.

(** A peer that is a trusted proxy has an address. *)
Lemma trusted_proxy_peer remoteAddr : remoteAddrIsTrustedProxy TRUSTED_PROXY_CIDRS remoteAddr = true ->
  trusted TRUSTED_PROXY_CIDRS (remoteAddrIP remoteAddr) = true.
Proof.
  unfold remoteAddrIsTrustedProxy, remoteAddrIP. cbv zeta. intros H. destruct (String.eqb_spec (parseIP remoteAddr) "") as [E|_]; [|done].
  by rewrite E in H.
Qed.

Lemma fingerprint_nonempty r : fingerprint r <> "".
Proof.
  intros E. assert ("|"%char ∈ bytes (fingerprint r)) as Hin; [|rewrite E in Hin; by apply elem_of_nil in Hin].
  apply trim_space_keeps; [|unfold printable, code; simpl; lia]. rewrite bytes_to_lower. cbn [join]. rewrite !bytes_app, !map_app. cbn [bytes map].
  change (lower_byte "|"%char) with "|"%char. set_solver.
Qed.

Lemma likely_proxy_nonblank ip : ipLikelyProxyAddress ip = true -> String.eqb (trim_space ip) "" = false.
Proof.
  unfold ipLikelyProxyAddress. intros H. apply String.eqb_neq. intros E. by rewrite E in H.
Qed.

(** C31. Under which key login attempts are counted.  For a peer that is no
    trusted proxy and has a public address, its address: no header matters.
    Behind trusted proxies, each of which appends the address of its peer to the
    line it received, the address the first of them saw, whatever the client
    wrote into the line before; it is the canonical text of an address, so one
    address has one key.  Only a peer with a private, loopback or link-local
    address that is not trusted is counted under its address and, when the
    request has forwarding headers, a digest of them and of its user agent: such
    a peer does choose its key. *)
Theorem client_ip_resists_spoofing r front client via rest :
  let peer := remoteAddrIP (RemoteAddr r) in
  let key := getAuthRateLimitKey TRUSTED_PROXY_CIDRS sha256_hex (Some r) in
  (trusted TRUSTED_PROXY_CIDRS peer = false -> ipLikelyProxyAddress peer = false ->
    key = if String.eqb (trim_space peer) "" then "unknown" else peer) /\
  (remoteAddrIsTrustedProxy TRUSTED_PROXY_CIDRS (RemoteAddr r) = true ->
    parseForwardedForHeader via = client :: rest -> trusted TRUSTED_PROXY_CIDRS client = false ->
    Forall (fun t => trusted TRUSTED_PROXY_CIDRS t = true) rest ->
    (XForwardedFor r = via \/ XForwardedFor r = front +:+ "," +:+ via) ->
    key = client /\ exists s a, ParseIP s = Some a /\ client = ip_string a) /\
  (trusted TRUSTED_PROXY_CIDRS peer = false -> ipLikelyProxyAddress peer = true ->
    key = if requestHasForwardedClientIPHeaders r then peer +:+ ":" +:+ RateLimit.hashIdentifier sha256_hex (fingerprint r) else peer).
Proof.
  cbv zeta. unfold getAuthRateLimitKey, getAuthClientIP. cbn [clientIPFromRequest].
  assert (trusted TRUSTED_PROXY_CIDRS (remoteAddrIP (RemoteAddr r)) = false -> remoteAddrIsTrustedProxy TRUSTED_PROXY_CIDRS (RemoteAddr r) = false) as Hno.
  { intros H. destruct (remoteAddrIsTrustedProxy _ _) eqn:E; [|done]. apply trusted_proxy_peer in E. congruence. }
  split; [|split].
  - intros H Hl. rewrite (Hno H), H, Hl. cbn [negb]. by rewrite orb_true_r.
  - intros Hp Hvia Hc Hrest Hx. assert (canonical client) as Hcan by (apply (forwarded_canonical via); rewrite Hvia; apply list_elem_of_here).
    split; [|exact Hcan]. pose proof (trusted_proxy_peer _ Hp) as H. rewrite Hp, H. cbn [negb].
    assert (exists before, parseForwardedForHeader (XForwardedFor r) = before ++ client :: rest) as (before & ->).
    { destruct Hx as [-> | ->]; [by exists []|]. exists (hops front). by rewrite forwarded_append, Hvia by by rewrite Hvia. }
    assert (last_untrusted TRUSTED_PROXY_CIDRS ((before ++ client :: rest) ++ [remoteAddrIP (RemoteAddr r)]) = Some client) as Hlast.
    { rewrite <- app_assoc. apply last_untrusted_app; [done|]. apply Forall_app. by split; [|constructor]. }
    destruct (before ++ client :: rest) as [|x l] eqn:E; [by destruct before|].
    cbn [app] in Hlast |- *. rewrite Hlast. unfold default, id. destruct (canonical_nonempty _ Hcan) as [Hne ->].
    by rewrite (proj2 (String.eqb_neq _ _) Hne).
  - intros H Hl. rewrite (Hno H), H, Hl. cbn [negb]. rewrite orb_false_r, (likely_proxy_nonblank _ Hl).
    destruct (requestHasForwardedClientIPHeaders r); cbn [negb]; [|done].
    by rewrite (proj2 (String.eqb_neq _ _) (fingerprint_nonempty r)).
Qed.

(** Only the first X-Forwarded-For line is read.  A trusted proxy that adds
    its peer as a line of its own, after the client's, lets the client choose
    the address it is counted under: any address that is not trusted, whatever
    the later lines say. *)
Theorem first_forwarded_line_wins r chosen line more :
  trusted TRUSTED_PROXY_CIDRS (remoteAddrIP (RemoteAddr r)) = true ->
  forwarded_lines r = line :: more -> parseForwardedForHeader line = [chosen] -> trusted TRUSTED_PROXY_CIDRS chosen = false ->
  clientIPFromRequest TRUSTED_PROXY_CIDRS (Some r) = chosen.
Proof.
  intros H Hl Hp Hc. simpl. rewrite H. unfold XForwardedFor. rewrite Hl. simpl. rewrite Hp.
  pose proof (last_untrusted_app chosen [remoteAddrIP (RemoteAddr r)] []) as Hlast. cbn [app] in Hlast |- *.
  rewrite Hlast; [done|done|by constructor].
Qed.

(** What the rate limit counts by.  For a peer that is neither a trusted
    proxy nor likely to be a proxy (private, loopback or link-local), it is
    the peer's address and no header changes it.  For a likely proxy that is
    not trusted, the client's own headers enter the key: as long as the digest
    does not collide, two requests with an X-Forwarded-For or X-Real-IP line
    whose fingerprints differ are counted apart. *)
Theorem rate_limit_key_choice r r' :
  RemoteAddr r' = RemoteAddr r ->
  trusted TRUSTED_PROXY_CIDRS (remoteAddrIP (RemoteAddr r)) = false ->
  remoteAddrIsTrustedProxy TRUSTED_PROXY_CIDRS (RemoteAddr r) = false ->
  let key := fun q => getAuthRateLimitKey TRUSTED_PROXY_CIDRS sha256_hex (Some q) in
  (ipLikelyProxyAddress (remoteAddrIP (RemoteAddr r)) = false -> key r' = key r) /\
  (ipLikelyProxyAddress (remoteAddrIP (RemoteAddr r)) = true ->
    requestHasForwardedClientIPHeaders r = true -> requestHasForwardedClientIPHeaders r' = true ->
    fingerprint r <> "" -> fingerprint r' <> "" ->
    sha256_hex (fingerprint r) <> sha256_hex (fingerprint r') -> key r' <> key r).
Proof.
  intros Hra Hu Ht key. unfold key, getAuthRateLimitKey, getAuthClientIP. cbn [clientIPFromRequest].
  rewrite Hra, Ht, Hu. cbn [negb]. split.
  - intros ->. by rewrite !orb_true_r.
  - intros -> -> -> Hf Hf' Hd. cbn [negb orb].
    destruct (String.eqb_spec (fingerprint r) "") as [|_]; [done|]. destruct (String.eqb_spec (fingerprint r') "") as [|_]; [done|].
    unfold RateLimit.hashIdentifier.
    destruct (String.eqb_spec (fingerprint r) "") as [|_]; [done|]. destruct (String.eqb_spec (fingerprint r') "") as [|_]; [done|].
    intros E. apply Hd. symmetry. set (p := if String.eqb _ "" then _ else _) in E.
    apply (f_equal (sdrop (slen p))) in E. rewrite !sdrop_app in E. by injection E.
Qed.
End Facts.

Definition spoofed : Request := MkRequest "10.0.0.1:443" ["1.2.3.4, 9.9.9.9, 203.0.113.9,10.0.0.2"] [] [].

Definition by_curl : Request := MkRequest "172.17.0.1:5000" ["203.0.113.9"] [] ["curl"].

Lemma client_ip_resists_spoofing_witness :
  getAuthRateLimitKey "10.0.0.0/8" (fun s => s) (Some spoofed) = "203.0.113.9" /\
  getAuthRateLimitKey "10.0.0.0/8" (fun s => s) (Some by_curl) = "172.17.0.1:" +:+ RateLimit.hashIdentifier (fun s => s) "203.0.113.9||curl".
Proof.
  split.
  - refine (proj1 (proj1 (proj2 (client_ip_resists_spoofing "10.0.0.0/8" (fun s => s) spoofed "1.2.3.4, 9.9.9.9" "203.0.113.9"
      " 203.0.113.9,10.0.0.2" ["10.0.0.2"])) _ _ _ _ (or_intror _))); [..|constructor; [|constructor]|]; vm_compute; reflexivity.
  - refine (proj2 (proj2 (client_ip_resists_spoofing "10.0.0.0/8" (fun s => s) by_curl "" "" "" [])) _ _); vm_compute; reflexivity.
Defined.

Definition two_lines : Request := MkRequest "10.0.0.1:443" ["1.2.3.4"; "203.0.113.9"] [] [].

Lemma first_forwarded_line_wins_witness :
  clientIPFromRequest "10.0.0.0/8" (Some two_lines) = "1.2.3.4".
Proof.
  refine (first_forwarded_line_wins "10.0.0.0/8" two_lines "1.2.3.4" "1.2.3.4" ["203.0.113.9"] _ _ _ _); vm_compute; reflexivity.
Defined.

Definition by_wget : Request := MkRequest "172.17.0.1:5000" ["203.0.113.9"] [] ["wget"].

Lemma rate_limit_key_choice_witness :
  getAuthRateLimitKey "" (fun s => s) (Some by_wget) <> getAuthRateLimitKey "" (fun s => s) (Some by_curl).
Proof.
  refine (proj2 (rate_limit_key_choice "" (fun s => s) by_curl by_wget eq_refl _ _) _ _ _ _ _ _); vm_compute;
    first [reflexivity|discriminate].
Defined.
End ClientIP.
