(* ===== verification/Leadership.v ===== *)
(** * Leader election ([internal/support/leadership.go])

    A background job runs on the instance that holds a key of Redis.  A session
    takes the key under its own identifier if it is free, renews it three times
    per lifetime, and gives it up when its work returns; it stops the work when
    a renewal finds the key taken or gets no answer.  The state is the key, with
    the expiry Redis keeps, and the sessions, with the instant of their last
    acknowledged command; steps are the commands as the server executes them,
    the clock, and answers that get lost.  Instants are nanoseconds; Redis keeps
    milliseconds, so lifetimes are whole ones. *)

From S2P Require Import Prelude GoStrings.
From stdpp Require Import relations.
Open Scope Z_scope.

Module Leadership.

Definition DefaultLeadershipTTL : Z := 45 * Second.
Definition renewalTimeout : Z := 5 * Second.
Definition minRenewalInterval : Z := Second.
Definition defaultRenewalFraction : Z := 3.

(** The key: its value and when it expires. *)
Record Lock := MkLock { value : string; expires : Z }.

Definition live (now : Z) (l : option Lock) : option Lock :=
  match l with Some k => if now <? expires k then Some k else None | None => None end.

(** A key with this value: [GET] of the scripts. *)
Definition holds (now : Z) (v : string) (l : option Lock) : bool :=
  match live now l with Some k => String.eqb (value k) v | None => false end.

(** [acquireLeaderLock]: [SET key value NX PX ttl]. *)
Definition acquireLeaderLock (now : Z) (v : string) (ttl : Z) (l : option Lock) : bool * option Lock :=
  match live now l with
  | Some _ => (false, l)
  | None => (true, Some (MkLock v (now + ttl)))
  end.

(** [ttl.Milliseconds()], in nanoseconds; not even one falls back to the default. *)
Definition renewal_ttl (ttl : Z) : Z :=
  let ms := ttl ÷ Millisecond in
  (if ms <=? 0 then DefaultLeadershipTTL ÷ Millisecond else ms) * Millisecond.

(** [renewScript], run by [renewLock]: whether the key was still ours. *)
Definition renewLock (now : Z) (v : string) (ttl : Z) (l : option Lock) : bool * option Lock :=
  if holds now v l then (true, Some (MkLock v (now + renewal_ttl ttl))) else (false, l).

(** [releaseScript], run by [releaseLock]. *)
Definition releaseLock (now : Z) (v : string) (l : option Lock) : option Lock :=
  if holds now v l then None else l.

(** The pace of [renewLoop]. *)
Definition renewInterval (ttl : Z) : Z :=
  let interval := ttl ÷ defaultRenewalFraction in
  let interval := if interval <=? 0 then minRenewalInterval else interval in
  if interval <? minRenewalInterval then minRenewalInterval else interval.

(** The lifetime [RunWithLeader] and [RunLeaderTaskOnce] work with. *)
Definition effective_ttl (ttl : Z) : Z := if ttl <=? 0 then DefaultLeadershipTTL else ttl.

(** [RunLeaderTaskOnce] up to the task: whether it runs. *)
Inductive leader_error := ErrLeaderLockNotAcquired.

Definition RunLeaderTaskOnce (now : Z) (v : string) (ttl : Z) (l : option Lock) : res leader_error Z * option Lock :=
  let ttl := effective_ttl ttl in
  let '(ok, l') := acquireLeaderLock now v ttl l in
  (if ok then Ok ttl else Err ErrLeaderLockNotAcquired, l').

(** ** Sessions *)

(** [leaderSession]: its lifetime, whether its context is alive, and when the
    last command that succeeded was executed. *)
Record Session := MkSession { ttl_of : Z; running : bool; last_ok : Z }.

Record State := MkState { clock : Z; lock : option Lock; sessions : gmap string Session }.

Definition canceled (s : Session) : Session := MkSession (ttl_of s) false (last_ok s).

(** What can happen.  An identifier (host, process, instant and counter) belongs
    to one caller, which runs at most one session under it; a [SET NX] that went
    unanswered, and may have taken the key, is tried again under the same one. *)
Inductive step : State -> State -> Prop :=
| step_clock d now l ss : 0 <= d -> step (MkState now l ss) (MkState (now + d) l ss)
| step_acquired v ttl now l l' ss :
    ss !! v = None -> 0 < ttl -> ttl mod Millisecond = 0 -> acquireLeaderLock now v ttl l = (true, l') ->
    step (MkState now l ss) (MkState now l' (<[v := MkSession ttl true now]> ss))
| step_acquire_unanswered v ttl now l ok l' ss :
    ss !! v = None -> 0 < ttl -> ttl mod Millisecond = 0 -> acquireLeaderLock now v ttl l = (ok, l') ->
    step (MkState now l ss) (MkState now l' ss)
| step_renew v s now l ok l' ss :
    ss !! v = Some s -> running s = true -> renewLock now v (ttl_of s) l = (ok, l') ->
    step (MkState now l ss)
      (MkState now l' (<[v := if ok then MkSession (ttl_of s) true now else canceled s]> ss))
| step_renew_unanswered v s now l executed ss :
    ss !! v = Some s -> running s = true ->
    step (MkState now l ss)
      (MkState now (if executed : bool then (renewLock now v (ttl_of s) l).2 else l) (<[v := canceled s]> ss))
| step_close v s now l executed ss :
    ss !! v = Some s ->
    step (MkState now l ss)
      (MkState now (if executed : bool then releaseLock now v l else l) (<[v := canceled s]> ss)).

Definition reachable : State -> Prop := rtc step (MkState 0 None ∅).

(** A running session whose lifetime has passed since its last success. *)
Definition overdue (now : Z) (s : Session) : bool := last_ok s + ttl_of s <=? now.

(** ** Lemmas *)

Lemma renewal_ttl_whole ttl : 0 < ttl -> ttl mod Millisecond = 0 -> renewal_ttl ttl = ttl.
Proof.
  intros Hp Hm. unfold renewal_ttl. unfold Millisecond in *. rewrite Z.quot_div_nonneg by lia.
  assert (ttl = 1000000 * (ttl / 1000000)) by (apply Z.div_exact; lia).
  rewrite (proj2 (Z.leb_gt _ _)) by lia. lia.
Qed.

(** A session that runs and is not overdue owns the key until its lifetime is over. *)
Definition lock_wf (st : State) : Prop :=
  forall v s, sessions st !! v = Some s ->
    0 < ttl_of s /\ ttl_of s mod Millisecond = 0 /\ last_ok s <= clock st /\
    (running s = true -> clock st < last_ok s + ttl_of s -> lock st = Some (MkLock v (last_ok s + ttl_of s))).

(** The keys named by a lock are those of sessions. *)

Lemma holds_spec now v l : holds now v l = true <-> exists e, l = Some (MkLock v e) /\ now < e.
Proof.
  unfold holds, live. destruct l as [[v' e]|]; simpl; [|split; [done|by intros (e & ? & _)]].
  destruct (now <? e) eqn:E; simpl.
  - rewrite String.eqb_eq. split; [intros ->; exists e; split; [done|lia]|by intros (e' & [= -> ->] & _)].
  - split; [done|]. intros (e' & [= -> ->] & Hlt). lia.
Qed.

Lemma holds_false now v l k : holds now v l = false -> l = Some k -> value k = v -> expires k <= now.
Proof.
  intros H -> <-. destruct (Z.le_gt_cases (expires k) now) as [Hle|Hgt]; [done|].
  assert (holds now (value k) (Some k) = true) as E by (apply holds_spec; exists (expires k); by destruct k). congruence.
Qed.

(** Updating one session when the key only changes hands with it. *)
Lemma lock_wf_update now l l' ss v s' :
  lock_wf (MkState now l ss) ->
  0 < ttl_of s' -> ttl_of s' mod Millisecond = 0 -> last_ok s' <= now ->
  (running s' = true -> now < last_ok s' + ttl_of s' -> l' = Some (MkLock v (last_ok s' + ttl_of s'))) ->
  (forall k, l = Some k -> value k <> v -> now < expires k -> l' = l) ->
  lock_wf (MkState now l' (<[v := s']> ss)).
Proof.
  intros Hwf Ht Hm Hl Hr Hother w s Hs. simpl in *. apply lookup_insert_Some in Hs as [[<- <-]|[Hne Hs]]; [done|].
  destruct (Hwf w s Hs) as (H1 & H2 & H3 & H4). simpl in *. do 3 (split; [done|]). intros Hrun Hlt.
  specialize (H4 Hrun Hlt). rewrite (Hother _ H4); [done|simpl; congruence|simpl; lia].
Qed.

Lemma step_lock_wf st st' : step st st' -> lock_wf st -> lock_wf st'.
Proof.
  intros Hstep Hwf. destruct Hstep as [d now l ss Hd|v ttl now l l' ss Hnew Ht Hm Ha|v ttl now l ok l' ss Hnew Ht Hm Ha|
    v s now l ok l' ss Hs Hrun Hr|v s now l executed ss Hs Hrun|v s now l executed ss Hs].
  - intros w s Hs. destruct (Hwf w s Hs) as (H1 & H2 & H3 & H4). simpl in *. do 2 (split; [done|]). split; [lia|].
    intros Hrun Hlt. apply H4; [done|lia].
  - eapply lock_wf_update; [exact Hwf|done|done|simpl; lia| |]; unfold acquireLeaderLock, live in Ha.
    + intros _ _. destruct l as [k|]; [destruct (now <? expires k); [done|]|]; by injection Ha as <-.
    + intros k -> _ Hk. by rewrite (proj2 (Z.ltb_lt _ _) Hk) in Ha.
  - intros w s Hs. destruct (Hwf w s Hs) as (H1 & H2 & H3 & H4). simpl in *. do 3 (split; [done|]). intros Hrun Hlt.
    rewrite (H4 Hrun Hlt) in Ha. unfold acquireLeaderLock, live in Ha. simpl in Ha. rewrite (proj2 (Z.ltb_lt _ _) Hlt) in Ha.
    by injection Ha as _ <-.
  - destruct (Hwf v s Hs) as (H1 & H2 & H3 & H4). simpl in *. unfold renewLock in Hr.
    destruct (holds now v l) eqn:Eh; injection Hr as <- <-.
    + eapply lock_wf_update; [exact Hwf|done|done|simpl; lia|intros _ _; by rewrite renewal_ttl_whole|].
      intros k -> Hk Hlt. apply holds_spec in Eh as (e & [= ->] & _). done.
    + by eapply lock_wf_update.
  - destruct (Hwf v s Hs) as (H1 & H2 & H3 & _). simpl in *. eapply lock_wf_update; try done.
    intros k -> Hk Hlt. destruct executed; [|done]. unfold renewLock.
    destruct (holds now v (Some k)) eqn:Eh; [|done]. apply holds_spec in Eh as (e & [= ->] & _). done.
  - destruct (Hwf v s Hs) as (H1 & H2 & H3 & _). simpl in *. eapply lock_wf_update; try done.
    intros k -> Hk Hlt. destruct executed; [|done]. unfold releaseLock.
    destruct (holds now v (Some k)) eqn:Eh; [|done]. apply holds_spec in Eh as (e & [= ->] & _). done.
Qed.

Lemma reachable_lock_wf st : reachable st -> lock_wf st.
Proof.
  intros Hr. assert (lock_wf (MkState 0 None ∅)) as H0 by (intros v s; simpl; by rewrite lookup_empty).
  revert H0. induction Hr as [|x y z Hs _ IH]; [done|]. intros Hx. by eapply IH, step_lock_wf.
Qed.

(** C35. One leader at a time.  In every reachable state of the key and its
    sessions, whatever answers were lost, of the sessions whose work is running
    at most one has been acknowledged within its lifetime, and it owns the
    key; so a session that renews in time never runs beside another one that
    does. *)
Theorem leader_exclusive st v w s t :
  reachable st ->
  sessions st !! v = Some s -> running s = true -> overdue (clock st) s = false ->
  sessions st !! w = Some t -> running t = true -> overdue (clock st) t = false ->
  v = w /\ holds (clock st) v (lock st) = true.
Proof.
  intros Hr Hs Hrs Hos Ht Hrt Hot. apply reachable_lock_wf in Hr. unfold overdue in *.
  destruct (Hr v s Hs) as (_ & _ & _ & H1). destruct (Hr w t Ht) as (_ & _ & _ & H2).
  assert (clock st < last_ok s + ttl_of s) as Hlt by lia. specialize (H1 Hrs Hlt). specialize (H2 Hrt ltac:(lia)).
  split; [congruence|]. apply holds_spec. by eexists.
Qed.

(** A session never disturbs another one's key: when the live key has
    another value, a renewal fails and leaves it, a release leaves it, and
    neither [SET NX] nor a single attempt takes it. *)
Theorem others_keep_key now v ttl l k :
  live now l = Some k -> value k <> v ->
  renewLock now v ttl l = (false, l) /\ releaseLock now v l = l /\
  acquireLeaderLock now v ttl l = (false, l) /\
  RunLeaderTaskOnce now v ttl l = (Err ErrLeaderLockNotAcquired, l).
Proof.
  intros Hl Hv. unfold renewLock, releaseLock, RunLeaderTaskOnce, acquireLeaderLock, holds. rewrite Hl.
  by destruct (String.eqb_spec (value k) v) as [|_].
Qed.

(** Renewals come in time.  A session with a lifetime of more than a second
    renews before it ends, and with three seconds or more it does so twice with
    nothing lost; at a second or less the pace of one second lets the key
    expire between renewals.  The default lifetime is renewed every fifteen
    seconds. *)
Theorem renewal_pace ttl :
  minRenewalInterval <= renewInterval ttl /\
  (Second < ttl -> renewInterval ttl < ttl) /\
  (3 * Second <= ttl -> 3 * renewInterval ttl <= ttl) /\
  (0 < ttl <= Second -> ttl <= renewInterval ttl) /\
  renewInterval DefaultLeadershipTTL = 15 * Second.
Proof.
  assert (renewInterval DefaultLeadershipTTL = 15 * Second) as Hd by reflexivity.
  repeat (split; [|split]); try exact Hd; clear Hd;
    unfold renewInterval, minRenewalInterval, defaultRenewalFraction, Second, Millisecond; cbv zeta;
    (destruct (Z.le_gt_cases ttl 0) as [Hle|Hgt];
     [assert (ttl ÷ 3 <= 0) by (apply Z.quot_le_upper_bound; lia)
     |pose proof (Z.mul_quot_le ttl 3); pose proof (Z.mul_succ_quot_gt ttl 3)]);
    revert H; try revert H0; generalize (ttl ÷ 3); intros q; intros; repeat split_if; lia.
Qed.

(** A leader that stalls: its key expires and another session takes over while
    its work still runs. *)
Definition stalled : State :=
  MkState (46 * Second) (Some (MkLock "b" (91 * Second)))
    (<["b" := MkSession DefaultLeadershipTTL true (46 * Second)]> (<["a" := MkSession DefaultLeadershipTTL true 0]> ∅)).

Lemma stalled_reachable : reachable stalled.
Proof.
  eapply rtc_l; [apply (step_acquired "a" DefaultLeadershipTTL 0 None (Some (MkLock "a" (45 * Second))) ∅);
    [apply lookup_empty|reflexivity..]|].
  eapply rtc_l; [apply (step_clock (46 * Second)); discriminate|].
  eapply rtc_l; [|apply rtc_refl].
  apply (step_acquired "b" DefaultLeadershipTTL); [reflexivity|reflexivity|reflexivity|]. vm_compute. reflexivity.
Qed.

Lemma leader_exclusive_witness :
  option_map (fun s => running s && overdue (clock stalled) s) (sessions stalled !! "a") = Some true /\
  holds (clock stalled) "b" (lock stalled) = true.
Proof.
  split; [vm_compute; reflexivity|].
  refine (proj2 (leader_exclusive stalled "b" "b" (MkSession DefaultLeadershipTTL true (46 * Second))
    (MkSession DefaultLeadershipTTL true (46 * Second)) stalled_reachable _ _ _ _ _ _)); reflexivity.
Defined.

Lemma others_keep_key_witness :
  releaseLock (46 * Second) "a" (lock stalled) = lock stalled.
Proof.
  apply (others_keep_key (46 * Second) "a" DefaultLeadershipTTL (lock stalled) (MkLock "b" (91 * Second)));
    [reflexivity|discriminate].
Defined.
End Leadership.
