(* ===== verification/Conn.v ===== *)
(** * Conversations over a connection

    The code that talks on a [net.Conn] is a process: it writes bytes, reads an
    exact number of them ([io.ReadFull]) or reads up to a delimiter
    ([bufio.Reader.ReadString]), and goes on with the answer.  A write may fail,
    a read may find the connection closed.  [exec] runs a process against a peer
    that is a fixed stream; a [session] puts two processes at the two ends of a
    connection.  Every interleaving of a session terminates, and all end in the
    same state. *)

From S2P Require Import Prelude.
From Stdlib Require Import Ascii.
From stdpp Require Import relations.
Open Scope nat_scope.

Module Conn.

Inductive proc (A : Type) : Type :=
| Ret (a : A)
| Write (bs : list ascii) (k : bool -> proc A)
| Read (n : nat) (k : option (list ascii) -> proc A)
| ReadUntil (delim : ascii) (k : option (list ascii) -> proc A).
Arguments Ret {A} a.
Arguments Write {A} bs k.
Arguments Read {A} n k.
Arguments ReadUntil {A} delim k.

Fixpoint bind {A B : Type} (p : proc A) (f : A -> proc B) : proc B :=
  match p with
  | Ret a => f a
  | Write bs k => Write bs (fun ok => bind (k ok) f)
  | Read n k => Read n (fun o => bind (k o) f)
  | ReadUntil d k => ReadUntil d (fun o => bind (k o) f)
  end.

(** ** Reading from a stream *)

Definition read_exact (n : nat) (inp : list ascii) : option (list ascii * list ascii) :=
  if (n <=? length inp) then Some (take n inp, drop n inp) else None.

(** Up to the delimiter, which is included. *)
Fixpoint read_until (d : ascii) (inp : list ascii) : option (list ascii * list ascii) :=
  match inp with
  | [] => None
  | c :: rest =>
      if bool_decide (c = d) then Some ([c], rest)
      else option_map (fun '(l, r) => (c :: l, r)) (read_until d rest)
  end.

Lemma read_exact_Some n inp l r : read_exact n inp = Some (l, r) <-> inp = l ++ r /\ length l = n.
Proof.
  unfold read_exact. destruct (n <=? length inp) eqn:E; breflect; split.
  - intros [= <- <-]. rewrite take_drop, length_take. split; [done|lia].
  - intros [-> <-]. by rewrite take_app_length, drop_app_length.
  - done.
  - intros [-> <-]. rewrite length_app in E. lia.
Qed.

Lemma read_exact_app n inp l r more : read_exact n inp = Some (l, r) -> read_exact n (inp ++ more) = Some (l, r ++ more).
Proof. rewrite !read_exact_Some. intros [-> <-]. by rewrite app_assoc. Qed.

Lemma read_until_Some d inp l r :
  read_until d inp = Some (l, r) <-> exists l', l = l' ++ [d] /\ inp = l' ++ d :: r /\ d ∉ l'.
Proof.
  revert l r. induction inp as [|c inp IH]; intros l r; cbn.
  - split; [done|]. intros ([|x l'] & _ & H & _); done.
  - destruct (bool_decide (c = d)) eqn:E; breflect.
    + subst c. split.
      * intros [= <- <-]. exists []. split; [done|]. split; [done|]. apply not_elem_of_nil.
      * intros ([|x l'] & -> & H & Hn); cbn in *; simplify_eq; [done|]. exfalso. apply Hn. left.
    + destruct (read_until d inp) as [[l1 r1]|] eqn:Er; cbn.
      * destruct (proj1 (IH l1 r1) eq_refl) as (l' & -> & -> & Hn). split.
        -- intros [= <- <-]. exists (c :: l'). split; [done|]. split; [done|].
           rewrite not_elem_of_cons. split; [congruence|done].
        -- intros ([|x l2] & -> & H & Hn2); cbn in *; simplify_eq.
           rewrite not_elem_of_cons in Hn2.
           assert (Hex : Some (l' ++ [d], r1) = Some (l2 ++ [d], r)) by (apply IH; exists l2; naive_solver).
           injection Hex as -> ->. done.
      * split; [done|]. intros ([|x l2] & -> & H & Hn2); cbn in *; simplify_eq.
        rewrite not_elem_of_cons in Hn2.
        assert (Hex : None = Some (l2 ++ [d], r)) by (apply IH; exists l2; naive_solver). done.
Qed.

Lemma read_until_app d inp l r more : read_until d inp = Some (l, r) -> read_until d (inp ++ more) = Some (l, r ++ more).
Proof.
  rewrite !read_until_Some. intros (l' & -> & -> & Hn). exists l'. split; [done|]. split; [|done].
  by rewrite <- app_assoc.
Qed.

(** ** A process against a fixed stream

    The peer sends [inp] and closes; only the first [w] writes succeed.  The
    result, what was written, what was not read and the writes left. *)
Fixpoint exec {A : Type} (p : proc A) (inp : list ascii) (w : nat) : A * list ascii * (list ascii * nat) :=
  match p with
  | Ret a => (a, [], (inp, w))
  | Write bs k =>
      match w with
      | O => exec (k false) inp O
      | S w' => let '(a, out, rest) := exec (k true) inp w' in (a, bs ++ out, rest)
      end
  | Read n k =>
      match read_exact n inp with
      | Some (l, r) => exec (k (Some l)) r w
      | None => exec (k None) [] w
      end
  | ReadUntil d k =>
      match read_until d inp with
      | Some (l, r) => exec (k (Some l)) r w
      | None => exec (k None) [] w
      end
  end.

(** The same through a [bufio.Reader]: the peer's bytes arrive in chunks, one
    per read of the connection; what the reader holds beyond what was asked for
    stays in its buffer.  The last components are the buffer, the chunks the
    connection itself still delivers and the writes left. *)
Fixpoint fill_exact (n : nat) (buf : list ascii) (chunks : list (list ascii))
    : option (list ascii * (list ascii * list (list ascii))) :=
  match read_exact n buf with
  | Some (l, r) => Some (l, (r, chunks))
  | None => match chunks with [] => None | c :: cs => fill_exact n (buf ++ c) cs end
  end.

Fixpoint fill_until (d : ascii) (buf : list ascii) (chunks : list (list ascii))
    : option (list ascii * (list ascii * list (list ascii))) :=
  match read_until d buf with
  | Some (l, r) => Some (l, (r, chunks))
  | None => match chunks with [] => None | c :: cs => fill_until d (buf ++ c) cs end
  end.

Fixpoint exec_buffered {A : Type} (p : proc A) (buf : list ascii) (chunks : list (list ascii)) (w : nat)
    : A * list ascii * (list ascii * list (list ascii) * nat) :=
  match p with
  | Ret a => (a, [], (buf, chunks, w))
  | Write bs k =>
      match w with
      | O => exec_buffered (k false) buf chunks O
      | S w' => let '(a, out, rest) := exec_buffered (k true) buf chunks w' in (a, bs ++ out, rest)
      end
  | Read n k =>
      match fill_exact n buf chunks with
      | Some (l, (b, cs)) => exec_buffered (k (Some l)) b cs w
      | None => exec_buffered (k None) [] [] w
      end
  | ReadUntil d k =>
      match fill_until d buf chunks with
      | Some (l, (b, cs)) => exec_buffered (k (Some l)) b cs w
      | None => exec_buffered (k None) [] [] w
      end
  end.

Lemma fill_exact_spec n buf chunks :
  match fill_exact n buf chunks with
  | Some (l, (b, cs)) => read_exact n (buf ++ concat chunks) = Some (l, b ++ concat cs)
  | None => read_exact n (buf ++ concat chunks) = None
  end.
Proof.
  revert buf. induction chunks as [|c cs IH]; intros buf; cbn [fill_exact concat];
    destruct (read_exact n buf) as [[l r]|] eqn:E.
  - by rewrite (read_exact_app _ _ _ _ _ E).
  - by rewrite app_nil_r.
  - by rewrite (read_exact_app _ _ _ _ _ E).
  - rewrite app_assoc. apply IH.
Qed.

Lemma fill_until_spec d buf chunks :
  match fill_until d buf chunks with
  | Some (l, (b, cs)) => read_until d (buf ++ concat chunks) = Some (l, b ++ concat cs)
  | None => read_until d (buf ++ concat chunks) = None
  end.
Proof.
  revert buf. induction chunks as [|c cs IH]; intros buf; cbn [fill_until concat];
    destruct (read_until d buf) as [[l r]|] eqn:E.
  - by rewrite (read_until_app _ _ _ _ _ E).
  - by rewrite app_nil_r.
  - by rewrite (read_until_app _ _ _ _ _ E).
  - rewrite app_assoc. apply IH.
Qed.

(** Buffering changes nothing but where the unread bytes are. *)
Lemma exec_buffered_spec {A} (p : proc A) buf chunks w :
  let '(a, out, (b, cs, w')) := exec_buffered p buf chunks w in
  exec p (buf ++ concat chunks) w = (a, out, (b ++ concat cs, w')).
Proof.
  revert buf chunks w. induction p as [a|bs k IH|n k IH|d k IH]; intros buf chunks w; cbn [exec exec_buffered].
  - done.
  - destruct w as [|w]; [apply IH|]. specialize (IH true buf chunks w).
    destruct (exec_buffered (k true) buf chunks w) as [[a out] [[b cs] w']]. by rewrite IH.
  - pose proof (fill_exact_spec n buf chunks) as Hf.
    destruct (fill_exact n buf chunks) as [[l [b cs]]|]; rewrite Hf; [apply IH|].
    exact (IH None [] [] w).
  - pose proof (fill_until_spec d buf chunks) as Hf.
    destruct (fill_until d buf chunks) as [[l [b cs]]|]; rewrite Hf; [apply IH|].
    exact (IH None [] [] w).
Qed.

Lemma exec_bind {A B} (p : proc A) (f : A -> proc B) inp w :
  exec (bind p f) inp w =
    let '(a, out, (rest, w')) := exec p inp w in
    let '(b, out', fin) := exec (f a) rest w' in (b, out ++ out', fin).
Proof.
  revert inp w. induction p as [a|bs k IH|n k IH|d k IH]; intros inp w; cbn [exec bind].
  - by destruct (exec (f a) inp w) as [[b out'] fin].
  - destruct w as [|w]; [apply IH|]. rewrite IH. destruct (exec (k true) inp w) as [[a out] [rest w']].
    destruct (exec (f a) rest w') as [[b out'] fin]. by rewrite app_assoc.
  - destruct (read_exact n inp) as [[l r]|]; apply IH.
  - destruct (read_until d inp) as [[l r]|]; apply IH.
Qed.

(** ** Two processes at the two ends *)

Record session (A B : Type) := MkSession {
  left_proc : proc A;
  right_proc : proc B;
  to_right : list ascii;
  to_left : list ascii
}.
Arguments MkSession {A B} left_proc right_proc to_right to_left.
Arguments left_proc {A B} s.
Arguments right_proc {A B} s.
Arguments to_right {A B} s.
Arguments to_left {A B} s.

(** One step of a process that reads from [inp]: what it goes on with, what it
    leaves unread and what it writes.  A read waits for its bytes: the
    connection stays open. *)
Definition advance {A : Type} (p : proc A) (inp : list ascii) : option (proc A * list ascii * list ascii) :=
  match p with
  | Ret _ => None
  | Write bs k => Some (k true, inp, bs)
  | Read n k => option_map (fun '(l, r) => (k (Some l), r, [])) (read_exact n inp)
  | ReadUntil d k => option_map (fun '(l, r) => (k (Some l), r, [])) (read_until d inp)
  end.

Inductive step {A B : Type} : session A B -> session A B -> Prop :=
| step_left p q tr tl p' tl' out :
    advance p tl = Some (p', tl', out) ->
    step (MkSession p q tr tl) (MkSession p' q (tr ++ out) tl')
| step_right p q tr tl q' tr' out :
    advance q tr = Some (q', tr', out) ->
    step (MkSession p q tr tl) (MkSession p q' tr' (tl ++ out)).

(** More input does not change what a process does next. *)
Lemma advance_app {A} (p : proc A) inp p' r out more :
  advance p inp = Some (p', r, out) -> advance p (inp ++ more) = Some (p', r ++ more, out).
Proof.
  destruct p as [a|bs k|n k|d k]; cbn; [done|by intros [= <- <- <-]|..].
  - destruct (read_exact n inp) as [[l r']|] eqn:E; [|done]. intros [= <- <- <-].
    by rewrite (read_exact_app _ _ _ _ _ E).
  - destruct (read_until d inp) as [[l r']|] eqn:E; [|done]. intros [= <- <- <-].
    by rewrite (read_until_app _ _ _ _ _ E).
Qed.

(** Two different steps can be done in either order. *)
Lemma step_diamond {A B} (s t u : session A B) :
  step s t -> step s u -> t = u \/ exists v, step t v /\ step u v.
Proof.
  intros Ht Hu. destruct Ht as [p q tr tl p' tl' out Hp|p q tr tl q' tr' out Hq];
    inversion Hu as [? ? ? ? p2 tl2 out2 Hp2|? ? ? ? q2 tr2 out2 Hq2]; subst.
  - left. congruence.
  - right. eexists. split; [apply step_right; by apply advance_app|apply step_left; by apply advance_app].
  - right. eexists. split; [apply step_left; by apply advance_app|apply step_right; by apply advance_app].
  - left. congruence.
Qed.

Lemma step_sn {A B} (p : proc A) (q : proc B) tr tl : sn step (MkSession p q tr tl).
Proof.
  revert q tr tl. induction p as [a|bs k IH|n k IH|d k IH]; intros q;
    induction q as [b|bs' k' IH'|n' k' IH'|d' k' IH']; intros tr tl;
    constructor; intros s Hs; inversion Hs as [? ? ? ? ? ? ? Ha|? ? ? ? ? ? ? Ha]; subst; clear Hs; cbn in Ha;
    try destruct (read_exact _ _) as [[? ?]|]; try destruct (read_until _ _) as [[? ?]|];
    cbn in Ha; try discriminate Ha; injection Ha as <- <- <-; first [apply IH|apply IH'].
Qed.

(** The state in which every run of a session ends. *)
Lemma session_determined {A B} (s t : session A B) :
  rtc step s t -> nf step t -> forall u, rtc step s u -> nf step u -> u = t.
Proof.
  intros Ht Hnt u Hu Hnu.
  assert (Hconf : confluent (@step A B)).
  { apply locally_confluent_confluent; [intros [p q tr tl]; apply step_sn|].
    intros x y1 y2 H1 H2. destruct (step_diamond x y1 y2 H1 H2) as [<-|(v & Hv1 & Hv2)].
    - exists y1. split; reflexivity.
    - exists v. split; by apply rtc_once. }
  destruct (Hconf s u t Hu Ht) as (v & Hv1 & Hv2).
  destruct Hv1 as [|? ? ? Hs _]; [|by destruct Hnu; eexists].
  destruct Hv2 as [|? ? ? Hs _]; [done|by destruct Hnt; eexists].
Qed.

(** Every run ends. *)
Lemma session_terminates {A B} (s : session A B) : sn step s.
Proof. destruct s. apply step_sn. Qed.

Lemma session_done {A B} (a : A) (b : B) tr tl : nf step (MkSession (Ret a) (Ret b) tr tl).
Proof. intros [s Hs]. inversion Hs; subst; done. Qed.

(** ** Running a session by hand *)

Lemma left_writes {A B} bs (k : bool -> proc A) (q : proc B) tr tl t :
  rtc step (MkSession (k true) q (tr ++ bs) tl) t -> rtc step (MkSession (Write bs k) q tr tl) t.
Proof. intros Ht. eapply rtc_l; [by apply step_left|exact Ht]. Qed.

Lemma right_writes {A B} bs (p : proc A) (k : bool -> proc B) tr tl t :
  rtc step (MkSession p (k true) tr (tl ++ bs)) t -> rtc step (MkSession p (Write bs k) tr tl) t.
Proof. intros Ht. eapply rtc_l; [by apply step_right|exact Ht]. Qed.

Lemma left_reads {A B} n l (k : option (list ascii) -> proc A) (q : proc B) tr tl t :
  length l = n -> rtc step (MkSession (k (Some l)) q tr tl) t ->
  rtc step (MkSession (Read n k) q tr (l ++ tl)) t.
Proof.
  intros Hn Ht. eapply rtc_l; [|exact Ht]. rewrite <- (app_nil_r tr) at 2. apply step_left. cbn.
  by rewrite (proj2 (read_exact_Some n (l ++ tl) l tl)).
Qed.

Lemma right_reads {A B} n l (p : proc A) (k : option (list ascii) -> proc B) tr tl t :
  length l = n -> rtc step (MkSession p (k (Some l)) tr tl) t ->
  rtc step (MkSession p (Read n k) (l ++ tr) tl) t.
Proof.
  intros Hn Ht. eapply rtc_l; [|exact Ht]. rewrite <- (app_nil_r tl) at 2. apply step_right. cbn.
  by rewrite (proj2 (read_exact_Some n (l ++ tr) l tr)).
Qed.

Lemma right_reads_until {A B} d l (p : proc A) (k : option (list ascii) -> proc B) tr tl t :
  d ∉ l -> rtc step (MkSession p (k (Some (l ++ [d]))) tr tl) t ->
  rtc step (MkSession p (ReadUntil d k) (l ++ d :: tr) tl) t.
Proof.
  intros Hn Ht. eapply rtc_l; [|exact Ht]. rewrite <- (app_nil_r tl) at 2. apply step_right. cbn.
  rewrite (proj2 (read_until_Some d (l ++ d :: tr) (l ++ [d]) tr)); [done|by exists l].
Qed.

(** A run of one end is a run under [bind]. *)
Lemma advance_bind {A B} (p : proc A) (f : A -> proc B) inp p' r out :
  advance p inp = Some (p', r, out) -> advance (bind p f) inp = Some (bind p' f, r, out).
Proof.
  destruct p as [a|bs k|n k|d k]; cbn; [done|by intros [= <- <- <-]|..].
  - destruct (read_exact n inp) as [[l r']|]; [|done]. by intros [= <- <- <-].
  - destruct (read_until d inp) as [[l r']|]; [|done]. by intros [= <- <- <-].
Qed.

Lemma run_bind_right {A B D} (g : B -> proc D) (p p' : proc A) (q q' : proc B) tr tl tr' tl' :
  rtc step (MkSession p q tr tl) (MkSession p' q' tr' tl') ->
  rtc step (MkSession p (bind q g) tr tl) (MkSession p' (bind q' g) tr' tl').
Proof.
  remember (MkSession p q tr tl) as s eqn:Es. remember (MkSession p' q' tr' tl') as t eqn:Et.
  intros Hr. revert p q tr tl Es. induction Hr as [s|s1 s2 s3 Hst _ IH]; intros p q tr tl ->; [by simplify_eq|].
  inversion Hst; subst; (eapply rtc_l; [|by apply IH]); [by apply step_left|apply step_right; by apply advance_bind].
Qed.

Lemma run_bind_left {A B C} (f : A -> proc C) (p p' : proc A) (q q' : proc B) tr tl tr' tl' :
  rtc step (MkSession p q tr tl) (MkSession p' q' tr' tl') ->
  rtc step (MkSession (bind p f) q tr tl) (MkSession (bind p' f) q' tr' tl').
Proof.
  remember (MkSession p q tr tl) as s eqn:Es. remember (MkSession p' q' tr' tl') as t eqn:Et.
  intros Hr. revert p q tr tl Es. induction Hr as [s|s1 s2 s3 Hst _ IH]; intros p q tr tl ->; [by simplify_eq|].
  inversion Hst; subst; (eapply rtc_l; [|by apply IH]); [apply step_left; by apply advance_bind|by apply step_right].
Qed.

(** When everything a process reads is already buffered, the connection is not
    touched. *)
Lemma exec_buffered_all {A} (p : proc A) inp chunks w a out rest w' :
  exec p inp w = (a, out, (rest, w')) -> rest <> [] ->
  exec_buffered p inp chunks w = (a, out, (rest, chunks, w')).
Proof.
  assert (Hnil : forall (p : proc A) w a out rest w', exec p [] w = (a, out, (rest, w')) -> rest = []).
  { clear. intros p. induction p as [a|bs k IH|n k IH|d k IH]; intros w a' out rest w'; cbn [exec].
    - congruence.
    - destruct w as [|w]; [apply IH|]. destruct (exec (k true) [] w) as [[a1 out1] [r1 w1]] eqn:E.
      intros [= <- <- <- <-]. by eapply IH.
    - destruct (read_exact n []) as [[l r]|] eqn:E; [|apply IH]. apply read_exact_Some in E as [E _].
      symmetry in E. apply app_eq_nil in E as [_ ->]. apply IH.
    - cbn. apply IH. }
  revert inp w out. induction p as [b|bs k IH|n k IH|d k IH]; intros inp w out; cbn [exec exec_buffered].
  - by intros [= -> <- -> ->].
  - destruct w as [|w]; [apply IH|]. destruct (exec (k true) inp w) as [[a1 out1] [r1 w1]] eqn:E.
    intros [= -> <- -> ->] Hr. by rewrite (IH true inp w out1 E Hr).
  - destruct (read_exact n inp) as [[l r]|] eqn:E.
    + intros He Hr. assert (Hf : fill_exact n inp chunks = Some (l, (r, chunks))) by (destruct chunks; cbn; by rewrite E).
      rewrite Hf. by apply IH.
    + intros He Hr. apply Hnil in He. done.
  - destruct (read_until d inp) as [[l r]|] eqn:E.
    + intros He Hr. assert (Hf : fill_until d inp chunks = Some (l, (r, chunks))) by (destruct chunks; cbn; by rewrite E).
      rewrite Hf. by apply IH.
    + intros He Hr. apply Hnil in He. done.
Qed.
End Conn.
