(* ===== verification/HttpProxy.v ===== *)
(** * The HTTP side of a rotator

    [internal/rotatingproxy/handler.go]: Basic authentication of clients and
    towards upstream proxies, the request that opens a tunnel, and the limit on
    request bodies.  [encoding/base64] is modelled as far as the code uses it;
    a body is any sequence of reads a Go [io.Reader] may answer with.  HTTP
    parsing and transport belong to the standard library's server and client
    and are left out. *)

From S2P Require Import Prelude GoStrings.
From Stdlib Require Import Ascii.
Open Scope Z_scope.

Module HttpProxy.

(** ** [base64.StdEncoding] *)

Definition b64_alphabet : string := "ABCDEFGHIJKLMNOPQRSTUVWXYZabcdefghijklmnopqrstuvwxyz0123456789+/".

Definition b64_char (n : Z) : ascii := default "="%char (snth (Z.to_nat n) b64_alphabet).

Definition b64_val (c : ascii) : option Z := option_map Z.of_nat (index_byte c b64_alphabet).

Fixpoint b64_encode (l : list ascii) : list ascii :=
  match l with
  | [] => []
  | [a] => [b64_char (code a / 4); b64_char (code a mod 4 * 16); "="%char; "="%char]
  | [a; b] =>
      [b64_char (code a / 4); b64_char (code a mod 4 * 16 + code b / 16); b64_char (code b mod 16 * 4); "="%char]
  | a :: b :: c :: rest =>
      b64_char (code a / 4) :: b64_char (code a mod 4 * 16 + code b / 16) ::
      b64_char (code b mod 16 * 4 + code c / 64) :: b64_char (code c mod 64) :: b64_encode rest
  end.

(** Groups of four; padding only in the last. *)
Fixpoint b64_decode_groups (l : list ascii) : option (list ascii) :=
  match l with
  | [] => Some []
  | a :: b :: c :: d :: rest =>
      match b64_val a, b64_val b with
      | Some x, Some y =>
          let first := chr (x * 4 + y / 16) in
          if bool_decide (c = "="%char) then
            if bool_decide (d = "="%char) && (length rest =? 0)%nat then Some [first] else None
          else
            match b64_val c with
            | None => None
            | Some z =>
                let second := chr (y mod 16 * 16 + z / 4) in
                if bool_decide (d = "="%char) then
                  if (length rest =? 0)%nat then Some [first; second] else None
                else
                  match b64_val d, b64_decode_groups rest with
                  | Some w, Some l' => Some (first :: second :: chr (z mod 4 * 64 + w) :: l')
                  | _, _ => None
                  end
            end
      | _, _ => None
      end
  | _ => None
  end.

(** [DecodeString] skips line ends. *)
Definition b64_decode (s : string) : option string :=
  let skip c := negb ((code c =? 10) || (code c =? 13)) in
  option_map of_bytes (b64_decode_groups (List.filter skip (bytes s))).

Definition EncodeToString (s : string) : string := of_bytes (b64_encode (bytes s)).

(** ** Authentication *)

(** What the handler reads of its rotator. *)
Record RotatorAuth := MkAuth { AuthRequired : bool; AuthUsername : string; AuthPassword : string }.

(** [authenticateClient] on the [Proxy-Authorization] header. *)
Definition authenticateClient (rotator : RotatorAuth) (headerValue : string) : bool :=
  if negb (AuthRequired rotator) then true
  else
    let header := trim_space headerValue in
    if String.eqb header "" then false
    else
      match split_n2 " " header with
      | [scheme; token] =>
          if negb (String.eqb (to_lower scheme) "basic") then false
          else
            match b64_decode token with
            | None => false
            | Some decoded =>
                match split_n2 ":" decoded with
                | [user; password] =>
                    String.eqb user (AuthUsername rotator) && String.eqb password (AuthPassword rotator)
                | _ => false
                end
            end
      | _ => false
      end.

Definition crlf : string := String (chr 13) (String (chr 10) "").

Definition basic_credentials (username password : string) : string :=
  "Basic " +:+ EncodeToString (username +:+ ":" +:+ password).

(** What [performUpstreamConnect] writes. *)
Definition connect_request (targetHost : string) (auth : option (string * string)) : string :=
  "CONNECT " +:+ targetHost +:+ " HTTP/1.1" +:+ crlf +:+
  "Host: " +:+ targetHost +:+ crlf +:+
  "Proxy-Connection: Keep-Alive" +:+ crlf +:+
  match auth with
  | Some (u, p) => "Proxy-Authorization: " +:+ basic_credentials u p +:+ crlf
  | None => ""
  end +:+ crlf.

(** ** Request bodies *)

Inductive read_error := EOF | Failed | TooLarge.

(** What the reads of a body will return: the chunks that arrive, how it ends,
    and whether the end comes with the last chunk or with the read after it. *)
Record Body := MkBody { chunks : list (list ascii); final : read_error; joined : bool }.

(** [Read] with a buffer of [n] bytes. *)
Definition body_read (n : nat) (b : Body) : list ascii * option read_error * Body :=
  match chunks b with
  | [] => ([], Some (final b), b)
  | c :: cs =>
      if (length c <=? n)%nat then
        (c, if joined b && (length cs =? 0)%nat then Some (final b) else None, MkBody cs (final b) (joined b))
      else (take n c, None, MkBody (drop n c :: cs) (final b) (joined b))
  end.

(** [requestBodyLimitReader]; its body is never nil, as [wrapRequestBodyWithLimit] builds it. *)
Record LimitReader := MkLimit { body : Body; remaining : Z; eof : bool }.

Definition limit_read (n : nat) (r : LimitReader) : list ascii * option read_error * LimitReader :=
  if (n =? 0)%nat then ([], None, r)
  else if remaining r <=? 0 then
    if eof r then ([], Some EOF, r)
    else
      let '(probe, err, b) := body_read 1 (body r) in
      match probe, err with
      | [], Some EOF => ([], Some EOF, MkLimit b (remaining r) true)
      | [], Some e => ([], Some e, MkLimit b (remaining r) (eof r))
      | _, _ => ([], Some TooLarge, MkLimit b (remaining r) (eof r))
      end
  else
    let n := if remaining r <? Z.of_nat n then Z.to_nat (remaining r) else n in
    let '(data, err, b) := body_read n (body r) in
    (data, err, MkLimit b (remaining r - Z.of_nat (length data))
      (match err with Some EOF => true | _ => eof r end)).

Definition wrapRequestBodyWithLimit (b : Body) (limit : Z) : LimitReader := MkLimit b limit false.

(** [io.LimitReader] *)
Definition limited_read (n : nat) (r : Body * Z) : list ascii * option read_error * (Body * Z) :=
  let '(b, allowed) := r in
  if allowed <=? 0 then ([], Some EOF, r)
  else
    let n := if allowed <? Z.of_nat n then Z.to_nat allowed else n in
    let '(data, err, b') := body_read n b in
    (data, err, (b', allowed - Z.of_nat (length data))).

(** Read until an error, with buffers of the given sizes, as [io.Copy] and
    [io.ReadAll] do; [None] if the reads run out first. *)
Fixpoint drain {R : Type} (read : nat -> R -> list ascii * option read_error * R) (sizes : list nat) (r : R)
    : option (list ascii * read_error) :=
  match sizes with
  | [] => None
  | n :: sizes' =>
      match read n r with
      | (data, Some e, _) => Some (data, e)
      | (data, None, r') => option_map (fun '(l, e) => (data ++ l, e)) (drain read sizes' r')
      end
  end.

(** [readRequestBodyWithLimit], for a positive limit *)
Definition readRequestBodyWithLimit (sizes : list nat) (b : Body) (limit : Z) : option (res read_error (list ascii)) :=
  match drain limited_read sizes (b, limit + 1) with
  | None => None
  | Some (payload, EOF) => if limit <? Z.of_nat (length payload) then Some (Err TooLarge) else Some (Ok payload)
  | Some (_, e) => Some (Err e)
  end.

(** [prepareUpstreamRequestBody] for a body that is present: what is sent on
    and under which declared length, a reader or the bytes themselves. *)
Inductive upstream_body :=
| Unlimited (b : Body) (contentLength : Z)
| Limited (r : LimitReader) (contentLength : Z)
| Buffered (payload : list ascii).

Definition prepareUpstreamRequestBody (sizes : list nat) (b : Body) (contentLength limit : Z)
    : option (res read_error upstream_body) :=
  if limit <=? 0 then Some (Ok (Unlimited b contentLength))
  else if 0 <=? contentLength then
    if limit <? contentLength then Some (Err TooLarge)
    else Some (Ok (Limited (wrapRequestBodyWithLimit b limit) contentLength))
  else
    match readRequestBodyWithLimit sizes b limit with
    | None => None
    | Some (Err e) => Some (Err e)
    | Some (Ok payload) => Some (Ok (Buffered payload))
    end.
(** ** Base64 reads back *)

Lemma code_bounds c : 0 <= code c < 256.
Proof. unfold code. pose proof (N_ascii_bounded c). lia. Qed.

Lemma b64_alphabet_val :
  forallb (fun n => let c := b64_char (Z.of_nat n) in
    bool_decide (b64_val c = Some (Z.of_nat n)) && negb (bool_decide (c = "="%char)) &&
    (33 <=? code c) && (code c <=? 126)) (seq 0 64) = true.
Proof. by vm_compute. Qed.

Lemma b64_char_spec n :
  0 <= n < 64 ->
  b64_val (b64_char n) = Some n /\ bool_decide (b64_char n = "="%char) = false /\ printable (b64_char n).
Proof.
  intros Hn. pose proof b64_alphabet_val as H. rewrite forallb_forall in H.
  specialize (H (Z.to_nat n)). rewrite in_seq in H. specialize (H ltac:(lia)). cbv zeta in H.
  rewrite Z2Nat.id in H by lia. breflect. split; [done|].
  split; [by apply bool_decide_eq_false_2|done].
Qed.

Lemma chr_of z c : z = code c -> chr z = c.
Proof. intros ->. apply chr_code. Qed.

(** One digit of the encoding, in range. *)
Ltac digit n :=
  let H := fresh in let Hv := fresh "Hv" in let He := fresh "He" in
  assert (0 <= n < 64) as H by (Z.to_euclidean_division_equations; lia);
  destruct (b64_char_spec n H) as (Hv & He & _); clear H; rewrite ?Hv, ?He; clear Hv He.

Lemma b64_groups_roundtrip l : b64_decode_groups (b64_encode l) = Some l.
Proof.
  revert l. fix IH 1. intros [|a [|b [|c rest]]]; [done| | |].
  - pose proof (code_bounds a). cbn [b64_encode b64_decode_groups].
    digit (code a / 4). digit (code a mod 4 * 16). simpl.
    do 2 f_equal. apply chr_of. Z.to_euclidean_division_equations; lia.
  - pose proof (code_bounds a). pose proof (code_bounds b). cbn [b64_encode b64_decode_groups].
    digit (code a / 4). digit (code a mod 4 * 16 + code b / 16). digit (code b mod 16 * 4). simpl.
    f_equal. f_equal; [|f_equal]; apply chr_of; Z.to_euclidean_division_equations; lia.
  - pose proof (code_bounds a). pose proof (code_bounds b). pose proof (code_bounds c).
    specialize (IH rest). cbn [b64_encode b64_decode_groups].
    digit (code a / 4). digit (code a mod 4 * 16 + code b / 16).
    digit (code b mod 16 * 4 + code c / 64). digit (code c mod 64). rewrite IH.
    f_equal. f_equal; [|f_equal; [|f_equal]]; apply chr_of; Z.to_euclidean_division_equations; lia.
Qed.

Lemma b64_encode_printable l : Forall printable (b64_encode l).
Proof.
  revert l. fix IH 1. intros l.
  assert (forall n, 0 <= n < 64 -> printable (b64_char n)) as Hd by (intros n Hn; by apply b64_char_spec).
  assert (printable "="%char) as He by (unfold printable; by vm_compute).
  destruct l as [|a [|b [|c rest]]]; [constructor| | |];
    try pose proof (code_bounds a); try pose proof (code_bounds b); try pose proof (code_bounds c);
    cbn [b64_encode]; repeat apply Forall_cons_2; try apply IH; try apply Forall_nil_2; try done;
    apply Hd; Z.to_euclidean_division_equations; lia.
Qed.

Lemma b64_roundtrip s : b64_decode (EncodeToString s) = Some s.
Proof.
  unfold b64_decode, EncodeToString. rewrite bytes_of_bytes.
  assert (List.filter (fun c => negb ((code c =? 10) || (code c =? 13))) (b64_encode (bytes s)) = b64_encode (bytes s)) as ->.
  { pose proof (b64_encode_printable (bytes s)) as Hp. induction Hp as [|c l Hc Hl IHl]; [done|]. simpl.
    unfold printable in Hc. destruct (code c =? 10) eqn:E1; [lia|]. destruct (code c =? 13) eqn:E2; [lia|].
    simpl. by rewrite IHl. }
  rewrite b64_groups_roundtrip. simpl. by rewrite of_bytes_bytes.
Qed.
(** ** Authentication is exact *)

Lemma index_byte_Some b s i :
  index_byte b s = Some i -> s = stake i s +:+ String b (sdrop (S i) s) /\ index_byte b (stake i s) = None.
Proof.
  revert i. induction s as [|c s IH]; intros i; cbn; [done|].
  case_bool_decide as Hc.
  - intros [= <-]. subst. by destruct s.
  - destruct (index_byte b s) as [j|] eqn:E; [|done]. intros [= <-].
    destruct (IH j eq_refl) as [H1 H2]. cbn [stake sdrop index_byte]. rewrite bool_decide_eq_false_2 by done.
    rewrite H2, str_app_cons. split; [|done]. by f_equal.
Qed.

Lemma split_n2_two b s x y :
  split_n2 b s = [x; y] <-> s = x +:+ String b y /\ contains_byte b x = false.
Proof.
  unfold split_n2, contains_byte. split.
  - destruct (index_byte b s) as [i|] eqn:E; [|done].
    destruct (index_byte_Some b s i E) as [Hs Hn]. intros H.
    assert (stake i s = x) as <- by congruence. assert (sdrop (S i) s = y) as <- by congruence.
    split; [exact Hs|by rewrite Hn].
  - intros [-> Hx]. assert (index_byte b x = None) as E by by destruct (index_byte b x).
    rewrite index_byte_app by done. by rewrite stake_app, <- Nat.add_1_r, sdrop_app_add.
Qed.

Lemma credentials_trimmed u p : trim_space (basic_credentials u p) = basic_credentials u p.
Proof.
  unfold trim_space. assert (exists c r, rev (bytes (basic_credentials u p)) = c :: r /\ printable c) as (c & r & Hr & Hc).
  { unfold basic_credentials, EncodeToString. rewrite bytes_app, bytes_of_bytes, rev_app_distr.
    pose proof (b64_encode_printable (bytes (u +:+ ":" +:+ p))) as Hp.
    assert (b64_encode (bytes (u +:+ ":" +:+ p)) <> []) as Hne.
    { rewrite !bytes_app. change (bytes ":") with [":"%char]. destruct (bytes u) as [|a [|b [|d l]]]; simpl; try done;
        destruct (bytes p) as [|? [|? ?]]; done. }
    apply Forall_rev in Hp. destruct (rev (b64_encode _)) as [|c r] eqn:E.
    - apply (f_equal (@length _)) in E. rewrite length_rev in E. by destruct (b64_encode _).
    - exists c, (r ++ rev (bytes "Basic ")). split; [done|]. by inversion Hp. }
  rewrite (trim_runes_printable space_runes).
  2:{ exact space_heads. }
  2:{ unfold basic_credentials. rewrite bytes_app. change (bytes "Basic ") with ("B"%char :: bytes "asic "). simpl.
      unfold printable. by vm_compute. }
  rewrite (trim_runes_printable (map (@rev Z) space_runes)).
  2:{ exact space_tails. }
  2:{ by rewrite Hr. }
  by rewrite rev_involutive, of_bytes_bytes.
Qed.

Lemma authenticate_iff rotator header :
  authenticateClient rotator header = true <->
  AuthRequired rotator = false \/
  exists scheme token,
    trim_space header = scheme +:+ String " " token /\ contains_byte " " scheme = false /\
    to_lower scheme = "basic" /\
    b64_decode token = Some (AuthUsername rotator +:+ String ":" (AuthPassword rotator)) /\
    contains_byte ":" (AuthUsername rotator) = false.
Proof.
  unfold authenticateClient. destruct (AuthRequired rotator); simpl; [|naive_solver].
  destruct (String.eqb_spec (trim_space header) "") as [He|He].
  { split; [done|]. intros [?|(scheme & token & H & _)]; [done|]. rewrite He in H. by destruct scheme. }
  split.
  - intros H. right. destruct (split_n2 " " (trim_space header)) as [|scheme [|token [|? ?]]] eqn:E; try done.
    apply split_n2_two in E as [E1 E2].
    destruct (String.eqb_spec (to_lower scheme) "basic") as [Hb|]; [|done]. simpl in H.
    destruct (b64_decode token) as [decoded|] eqn:Ed; [|done].
    destruct (split_n2 ":" decoded) as [|user [|password [|? ?]]] eqn:Es; try done.
    apply split_n2_two in Es as [-> Hu]. apply andb_true_iff in H as [H1 H2].
    apply String.eqb_eq in H1, H2. subst. by exists scheme, token.
  - intros [?|(scheme & token & H & Hs & Hb & Hd & Hu)]; [done|].
    rewrite (proj2 (split_n2_two _ _ scheme token)) by done. rewrite Hb, Hd. simpl.
    rewrite (proj2 (split_n2_two ":" _ _ _)) by done. by rewrite !String.eqb_refl.
Qed.

(** Basic authentication is exact.  A client that sends the header other
    rotators and this code send for a user and a password is let in exactly when they are
    the rotator's own, whatever bytes they hold, provided the user has no
    colon; a rotator whose user name has a colon lets nobody in. *)
Theorem http_auth_exact rotator :
  AuthRequired rotator = true ->
  (forall u p, contains_byte ":" u = false ->
    authenticateClient rotator (basic_credentials u p) = true <-> u = AuthUsername rotator /\ p = AuthPassword rotator) /\
  (contains_byte ":" (AuthUsername rotator) = true -> forall header, authenticateClient rotator header = false).
Proof.
  intros Hr. split.
  - intros u p Hu. rewrite authenticate_iff, credentials_trimmed, Hr. split.
    + intros [?|(scheme & token & H & Hs & _ & Hd & Hn)]; [done|].
      assert (scheme = "Basic" /\ token = EncodeToString (u +:+ ":" +:+ p)) as [-> ->].
      { assert (split_n2 " " (basic_credentials u p) = ["Basic"; EncodeToString (u +:+ ":" +:+ p)]) as E1
          by by apply split_n2_two.
        assert (split_n2 " " (basic_credentials u p) = [scheme; token]) as E2 by by apply split_n2_two.
        rewrite E1 in E2. by inversion E2. }
      rewrite b64_roundtrip in Hd. assert (split_n2 ":" (u +:+ ":" +:+ p) = [u; p]) as E1 by by apply split_n2_two.
      assert (split_n2 ":" (u +:+ ":" +:+ p) = [AuthUsername rotator; AuthPassword rotator]) as E2.
      { apply split_n2_two. split; [congruence|done]. }
      rewrite E1 in E2. by inversion E2.
    + intros [-> ->]. right. exists "Basic", (EncodeToString (AuthUsername rotator +:+ ":" +:+ AuthPassword rotator)).
      rewrite b64_roundtrip. done.
  - intros Hc header. destruct (authenticateClient rotator header) eqn:E; [|done].
    apply authenticate_iff in E as [E|(? & ? & _ & _ & _ & _ & E)]; congruence.
Qed.

Lemma http_auth_exact_witness :
  authenticateClient (MkAuth true "alice" "p:w") (basic_credentials "alice" "p:w") = true /\
  authenticateClient (MkAuth true "a:b" "p") (basic_credentials "a:b" "p") = false.
Proof.
  split.
  - by apply (http_auth_exact (MkAuth true "alice" "p:w")).
  - by apply (http_auth_exact (MkAuth true "a:b" "p")).
Defined.
(** ** The body limit *)

Definition content (b : Body) : list ascii := concat (chunks b).

(** Reads return something or end: no read is empty without an error. *)
Definition proper_body (b : Body) : Prop := Forall (fun c => c <> []) (chunks b) /\ final b <> TooLarge.

Lemma body_read_spec n b data err b' :
  proper_body b -> (0 < n)%nat -> body_read n b = (data, err, b') ->
  content b = data ++ content b' /\ (length data <= n)%nat /\ proper_body b' /\ final b' = final b /\
  ((err = None /\ data <> []) \/ (err = Some (final b) /\ content b' = [] /\ (data = [] -> content b = []))).
Proof.
  unfold proper_body, content, body_read. intros [Hc Hf] Hn H.
  destruct (chunks b) as [|c cs] eqn:E.
  { injection H as <- <- <-. rewrite E. simpl. repeat split; try done; [lia|]. by right. }
  apply Forall_cons in Hc as [Hc Hcs]. destruct (length c <=? n)%nat eqn:El; breflect; injection H as <- <- <-; simpl.
  - split; [done|]. split; [done|]. split; [done|]. split; [done|].
    destruct (joined b && (length cs =? 0)%nat) eqn:Ej; [right|by left].
    breflect. apply Nat.eqb_eq in H0. destruct cs; [|done]. done.
  - split; [by rewrite app_assoc, take_drop|]. split; [rewrite length_take; lia|]. split.
    { split; [|done]. constructor; [|done]. intros Hd. apply (f_equal length) in Hd. rewrite length_drop in Hd.
      simpl in Hd. lia. }
    split; [done|]. left. split; [done|]. intros Ht. apply (f_equal length) in Ht. rewrite length_take in Ht.
    simpl in Ht. lia.
Qed.

Lemma take_data {A : Type} (k : nat) (data rest : list A) :
  (length data <= k)%nat -> take k (data ++ rest) = data ++ take (k - length data) rest.
Proof. intros H. by rewrite take_app, take_ge by done. Qed.

Lemma limit_drain sizes r :
  proper_body (body r) -> eof r = false -> 0 <= remaining r ->
  Forall (fun n => (0 < n)%nat) sizes -> (length (content (body r)) < length sizes)%nat ->
  drain limit_read sizes r =
    Some (take (Z.to_nat (remaining r)) (content (body r)),
          if Z.of_nat (length (content (body r))) <=? remaining r then final (body r) else TooLarge).
Proof.
  revert r. induction sizes as [|n sizes IH]; intros r Hp He Hr Hs Hl; [simpl in Hl; lia|].
  apply Forall_cons in Hs as [Hn Hs]. cbn [drain]. unfold limit_read at 1.
  destruct (n =? 0)%nat eqn:E0; [apply Nat.eqb_eq in E0; lia|].
  destruct (remaining r <=? 0) eqn:Er; breflect.
  - rewrite He. destruct (body_read 1 (body r)) as [[data err] b'] eqn:Eb.
    destruct (body_read_spec _ _ _ _ _ Hp Nat.lt_0_1 Eb) as (Hc & _ & _ & _ & Hcases).
    replace (Z.to_nat (remaining r)) with 0%nat by lia. rewrite take_0.
    destruct Hcases as [[-> Hd]|(-> & Hb & Hd)].
    + destruct data as [|x data]; [done|]. rewrite Hc. simpl.
      destruct (_ <=? remaining r) eqn:E; [|done]. breflect. simpl in E. lia.
    + destruct data as [|x data].
      * rewrite (Hd eq_refl). simpl. rewrite (proj2 (Z.leb_le _ _)) by lia.
        destruct Hp as [_ Hf]. by destruct (final (body r)) eqn:Ef.
      * rewrite Hc. simpl. destruct (_ <=? remaining r) eqn:E; [breflect; simpl in E; lia|].
        by destruct (final (body r)).
  - set (m := if remaining r <? Z.of_nat n then Z.to_nat (remaining r) else n).
    assert ((0 < m)%nat /\ Z.of_nat m <= remaining r) as [Hm Hmr]
      by (unfold m; destruct (remaining r <? Z.of_nat n) eqn:E; breflect; lia).
    destruct (body_read m (body r)) as [[data err] b'] eqn:Eb.
    destruct (body_read_spec _ _ _ _ _ Hp Hm Eb) as (Hc & Hd & Hp' & Hf & Hcases). rewrite Hc.
    destruct Hcases as [[-> Hne]|(-> & Hb & _)].
    + rewrite IH; simpl; try done; try lia.
      * rewrite take_data, length_app, Hf by lia.
        replace (Z.to_nat (remaining r - Z.of_nat (length data))) with (Z.to_nat (remaining r) - length data)%nat by lia.
        do 2 f_equal. destruct (_ <=? _) eqn:E1, (_ <=? remaining r) eqn:E2; breflect; try done; lia.
      * rewrite Hc, length_app in Hl. destruct data; [done|]. simpl in *. lia.
    + rewrite Hb, app_nil_r, take_ge by lia.
      destruct (_ <=? remaining r) eqn:E; [done|]. breflect. lia.
Qed.

Lemma limited_drain sizes b allowed :
  proper_body b -> 0 < allowed ->
  Forall (fun n => (0 < n)%nat) sizes -> (length (content b) < length sizes)%nat ->
  exists e, drain limited_read sizes (b, allowed) = Some (take (Z.to_nat allowed) (content b), e) /\
    (e = final b \/ e = EOF /\ allowed <= Z.of_nat (length (content b))).
Proof.
  intros Hp Ha. assert (0 <= allowed) as Hge by lia. clear Ha. revert b allowed Hp Hge.
  induction sizes as [|n sizes IH]; intros b allowed Hp Ha Hs Hl; [simpl in Hl; lia|].
  apply Forall_cons in Hs as [Hn Hs]. cbn [drain]. unfold limited_read at 1.
  destruct (allowed <=? 0) eqn:E0; breflect.
  { exists EOF. replace (Z.to_nat allowed) with 0%nat by lia. split; [done|]. right. split; [done|lia]. }
  set (m := if allowed <? Z.of_nat n then Z.to_nat allowed else n).
  assert ((0 < m)%nat /\ Z.of_nat m <= allowed) as [Hm Hmr]
    by (unfold m; destruct (allowed <? Z.of_nat n) eqn:E; breflect; lia).
  destruct (body_read m b) as [[data err] b'] eqn:Eb.
  destruct (body_read_spec _ _ _ _ _ Hp Hm Eb) as (Hc & Hd & Hp' & Hf & Hcases). rewrite Hc.
  destruct Hcases as [[-> Hne]|(-> & Hb & _)].
  - destruct (IH b' (allowed - Z.of_nat (length data))) as (e & He & Hcase); try done; try lia.
    { rewrite Hc, length_app in Hl. destruct data; [done|]. simpl in *. lia. }
    exists e. rewrite He. simpl. split.
    + rewrite take_data by lia. do 3 f_equal. f_equal. lia.
    + rewrite length_app. destruct Hcase as [->|[-> ?]]; [left|right; split; [done|lia]]. done.
  - exists (final b). rewrite Hb, app_nil_r, take_ge by lia. split; [done|by left].
Qed.

(** C36. The body limit is exact.  For any body that keeps the reader's contract,
    however it is cut into reads, what is sent upstream is the whole body when
    it fits the limit and never more than the limit: a declared length above
    the limit is refused at once; a declared length within it streams the body
    and fails after the limit; a body of unknown length is read first and
    refused if it is longer. *)
Theorem body_limit_exact sizes b contentLength limit :
  0 < limit -> proper_body b ->
  Forall (fun n => (0 < n)%nat) sizes -> (length (content b) < length sizes)%nat ->
  match prepareUpstreamRequestBody sizes b contentLength limit with
  | Some (Ok (Limited r declared)) =>
      declared = contentLength /\ 0 <= contentLength <= limit /\
      drain limit_read sizes r = Some (take (Z.to_nat limit) (content b),
        if Z.of_nat (length (content b)) <=? limit then final b else TooLarge)
  | Some (Ok (Buffered payload)) =>
      contentLength < 0 /\ payload = content b /\ Z.of_nat (length payload) <= limit /\ final b = EOF
  | Some (Err TooLarge) => limit < contentLength \/ contentLength < 0 /\ limit < Z.of_nat (length (content b))
  | Some (Err e) => contentLength < 0 /\ e = final b /\ e = Failed
  | Some (Ok (Unlimited _ _)) | None => False
  end.
Proof.
  intros Hlim Hp Hs Hl. unfold prepareUpstreamRequestBody.
  destruct (limit <=? 0) eqn:E0; breflect; [lia|].
  destruct (0 <=? contentLength) eqn:E1; breflect.
  - destruct (limit <? contentLength) eqn:E2; breflect; [by left|].
    split; [done|]. split; [lia|]. apply (limit_drain sizes (wrapRequestBodyWithLimit b limit)); try done. simpl. lia.
  - unfold readRequestBodyWithLimit.
    destruct (limited_drain sizes b (limit + 1)) as (e & -> & Hcase); try done; [lia|].
    destruct Hp as [_ Hf]. destruct e.
    + destruct (limit <? _) eqn:E2; breflect.
      * right. split; [done|]. rewrite length_take in E2. lia.
      * rewrite length_take in E2. rewrite take_ge by lia. split; [done|]. split; [done|].
        split; [lia|]. destruct Hcase as [Hc|[_ Hc]]; [done|lia].
    + split; [done|]. destruct Hcase as [->|[? _]]; done.
    + destruct Hcase as [Hc|[? _]]; done.
Qed.

Lemma body_limit_exact_witness :
  let b := MkBody [bytes "hello "; bytes "world"] EOF true in
  let sizes := List.repeat 4%nat 12 in
  prepareUpstreamRequestBody sizes b (-1) 11 = Some (Ok (Buffered (bytes "hello world"))) /\
  drain limit_read sizes (wrapRequestBodyWithLimit b 8) = Some (bytes "hello wo", TooLarge).
Proof.
  intros b sizes.
  assert (proper_body b /\ Forall (fun n => (0 < n)%nat) sizes) as [Hb Hs] by (split; [split; [|done]|]; forall_list; done || lia).
  pose proof (body_limit_exact sizes b (-1) 11 ltac:(lia) Hb Hs ltac:(simpl; lia)) as H1.
  pose proof (body_limit_exact sizes b 3 8 ltac:(lia) Hb Hs ltac:(simpl; lia)) as H2.
  split; [vm_compute in H1 |- *; reflexivity|]. by destruct H2 as (_ & _ & H2).
Defined.
End HttpProxy.
