(* ===== verification/Socks.v ===== *)
(** * The SOCKS protocols ([internal/rotatingproxy/handler.go])

    A rotator listens for SOCKS4 or SOCKS5 clients and forwards them through the
    next route of its workspace, which may itself be a SOCKS proxy.  Both ends
    are here: the handshakes the server answers and the ones the client opens.
    Deadlines appear as reads and writes that may fail.  Parameters: the choice
    of the next route and the outcome of the connection through it. *)

From S2P Require Import Prelude GoStrings Netip NetipFacts GoNet Conn.
From Stdlib Require Import Ascii.
From stdpp Require Import relations.
Open Scope Z_scope.

Module Socks.
Import Netip NetipFacts GoNet Conn.

(** What the handlers read of [domain.RotatingProxy] and
    [dto.RotatingProxyNext]. *)
Record RotatingProxy := MkRotator {
  AuthRequired : bool;
  AuthUsername : string;
  AuthPassword : string;
  ListenProtocolName : string;
  ProtocolName : string
}.

Record RotatingProxyNext := MkNext {
  next_username : string;
  next_password : string;
  HasAuth : bool;
  Protocol : string
}.

Inductive socks_error :=
| IOError
| UnsupportedVersion | NoAcceptableMethod | InvalidAuthVersion | InvalidCredentials
| UnsupportedCommand | UnsupportedAddressType
| CredentialsTooLong | AuthenticationFailed | NoUserPassword
| InvalidReply | ConnectFailed (code : Z)
| BadAddress | EmptyHost | HostnameTooLong.

Definition byte (z : Z) : ascii := chr z.

(** [io.ReadFull]; a failure ends the conversation with it. *)
Definition read_full {A : Type} (n : nat) (k : list ascii -> proc (res socks_error A)) : proc (res socks_error A) :=
  Read n (fun o => match o with Some l => k l | None => Ret (Err IOError) end).

(** [conn.Write], whose error ends the conversation, and one whose error is
    ignored. *)
Definition write {A : Type} (bs : list ascii) (k : proc (res socks_error A)) : proc (res socks_error A) :=
  Write bs (fun ok => if ok then k else Ret (Err IOError)).

Definition write_ {A : Type} (bs : list ascii) (k : proc A) : proc A := Write bs (fun _ => k).

Definition try {A B : Type} (p : proc (res socks_error A)) (k : A -> proc (res socks_error B))
    : proc (res socks_error B) :=
  bind p (fun r => match r with Ok a => k a | Err e => Ret (Err e) end).

Definition at_ (l : list ascii) (i : nat) : Z := match l !! i with Some c => code c | None => 0 end.

(** ** Replies *)

Definition socks5_bound_reply (rep : Z) (ip : Addr) (port : Z) : list ascii :=
  match To4 ip with
  | Some v => [byte 5; byte rep; byte 0; byte 1] ++ be_bytes 4 v ++ be_bytes 2 port
  | None => [byte 5; byte rep; byte 0; byte 4] ++ be_bytes 16 (value_of ip) ++ be_bytes 2 port
  end.

Definition socks5_reply (rep : Z) : list ascii := socks5_bound_reply rep (Addr4 0) 0.

(** The local address of the upstream connection: [None] if it is not TCP. *)
Definition socks5_success (addr : option (Addr * Z)) : list ascii :=
  match addr with
  | Some (ip, port) => socks5_bound_reply 0 ip port
  | None => socks5_bound_reply 0 (Addr4 0) 0
  end.

Definition socks4_response (status : Z) (port ip : list ascii) : list ascii :=
  let port := if (length port =? 2)%nat then port else [byte 0; byte 0] in
  let ip := if (length ip =? 4)%nat then ip else [byte 0; byte 0; byte 0; byte 0] in
  [byte 0; byte status] ++ port ++ ip.

(** ** The server *)

Definition readSocksAddress (atyp : Z) : proc (res socks_error string) :=
  let finish (host : string) :=
    read_full 2 (fun portBuf => Ret (Ok (JoinHostPort host (itoa (be_val portBuf))))) in
  if atyp =? 1 then read_full 4 (fun ip => finish (ip_string (ip_of_bytes ip)))
  else if atyp =? 3 then
    read_full 1 (fun lenBuf => read_full (Z.to_nat (at_ lenBuf 0)) (fun domain => finish (of_bytes domain)))
  else if atyp =? 4 then read_full 16 (fun ip => finish (ip_string (ip_of_bytes ip)))
  else Ret (Err UnsupportedAddressType).

Definition readSocks5Target : proc (res socks_error string) :=
  read_full 4 (fun header =>
    if negb (at_ header 0 =? 5) then write_ (socks5_reply 1) (Ret (Err UnsupportedVersion))
    else if negb (at_ header 1 =? 1) then write_ (socks5_reply 7) (Ret (Err UnsupportedCommand))
    else
      bind (readSocksAddress (at_ header 3)) (fun r =>
        match r with
        | Err e => write_ (socks5_reply 8) (Ret (Err e))
        | Ok target => Ret (Ok target)
        end)).

Section Server.
Context (h : RotatingProxy).

Definition verifySocks5Credentials : proc (res socks_error unit) :=
  read_full 2 (fun header =>
    if negb (at_ header 0 =? 1) then write_ [byte 1; byte 1] (Ret (Err InvalidAuthVersion))
    else
      read_full (Z.to_nat (at_ header 1)) (fun username =>
      read_full 1 (fun passLen =>
      read_full (Z.to_nat (at_ passLen 0)) (fun password =>
        if AuthRequired h &&
           (negb (String.eqb (of_bytes username) (AuthUsername h)) ||
            negb (String.eqb (of_bytes password) (AuthPassword h)))
        then write_ [byte 1; byte 1] (Ret (Err InvalidCredentials))
        else write [byte 1; byte 0] (Ret (Ok tt)))))).

Definition offers (m : Z) (methods : list ascii) : bool := existsb (fun c => code c =? m) methods.

(** The method chosen among those the client offers, 255 for none. *)
Definition select_method (methods : list ascii) : Z :=
  if AuthRequired h then (if offers 2 methods then 2 else 255)
  else if offers 0 methods then 0
  else if offers 2 methods then 2 else 255.

Definition performSocks5Handshake : proc (res socks_error string) :=
  read_full 2 (fun header =>
    if negb (at_ header 0 =? 5) then write_ (socks5_reply 1) (Ret (Err UnsupportedVersion))
    else
      read_full (Z.to_nat (at_ header 1)) (fun methods =>
        let selected := select_method methods in
        if selected =? 255 then write_ [byte 5; byte 255] (Ret (Err NoAcceptableMethod))
        else
          write [byte 5; byte selected]
            (try (if selected =? 2 then verifySocks5Credentials else Ret (Ok tt))
               (fun _ => readSocks5Target)))).

(** How a client's conversation ends: closed, or forwarding to a target. *)
Inductive outcome := Closed | Relaying (target : string).

(** [getNextRotatingProxyFunc], [connectForRotator] with the local address it
    is bound to, and whether the connection was registered. *)
Context (next : option RotatingProxyNext).
Context (connect : string -> RotatingProxyNext -> option (option (Addr * Z))).
Context (registered : bool).

Definition supportedUpstream (protocol : string) : bool :=
  existsb (String.eqb (to_lower protocol)) ["http"; "https"; "socks4"; "socks5"].

Definition handleSocks5 : proc outcome :=
  bind performSocks5Handshake (fun r =>
    match r with
    | Err _ => Ret Closed
    | Ok target =>
        match next with
        | None => write_ (socks5_reply 1) (Ret Closed)
        | Some next =>
            if negb (supportedUpstream (Protocol next)) then write_ (socks5_reply 7) (Ret Closed)
            else
              match connect target next with
              | None => write_ (socks5_reply 5) (Ret Closed)
              | Some addr =>
                  if negb registered then Ret Closed
                  else Write (socks5_success addr) (fun ok => Ret (if ok then Relaying target else Closed))
              end
        end
    end).

(** The identity a SOCKS4 client has to present. *)
Definition socks4_expected : string :=
  if String.eqb (AuthPassword h) "" then AuthUsername h else AuthUsername h +:+ ":" +:+ AuthPassword h.

(** After the user, and the domain if there is one. *)
Definition socks4_connect (dstPort dstIP : list ascii) (userID targetHost : string) : proc outcome :=
  let refuse := write_ (socks4_response 91 dstPort dstIP) (Ret Closed) in
  if AuthRequired h && negb (String.eqb userID socks4_expected) then refuse
  else
    let target := JoinHostPort targetHost (itoa (be_val dstPort)) in
    match next with
    | None => refuse
    | Some next =>
        if negb (supportedUpstream (Protocol next)) then refuse
        else
          match connect target next with
          | None => refuse
          | Some _ =>
              if negb registered then Ret Closed
              else Write (socks4_response 90 dstPort dstIP) (fun ok => Ret (if ok then Relaying target else Closed))
          end
    end.

(** Everything is read through a [bufio.Reader]. *)
Definition handleSocks4 : proc outcome :=
  Read 8 (fun o =>
    match o with
    | None => Ret Closed
    | Some header =>
        let dstPort := take 2 (drop 2 header) in
        let dstIP := take 4 (drop 4 header) in
        let refuse := write_ (socks4_response 91 dstPort dstIP) (Ret Closed) in
        if negb (at_ header 0 =? 4) || negb (at_ header 1 =? 1) then refuse
        else
          ReadUntil (byte 0) (fun o =>
            match o with
            | None => refuse
            | Some userID =>
                let userID := trim_suffix (of_bytes userID) (String (byte 0) "") in
                if (at_ dstIP 0 =? 0) && (at_ dstIP 1 =? 0) && (at_ dstIP 2 =? 0) && negb (at_ dstIP 3 =? 0) then
                  ReadUntil (byte 0) (fun o =>
                    match o with
                    | None => refuse
                    | Some domain =>
                        socks4_connect dstPort dstIP userID (trim_suffix (of_bytes domain) (String (byte 0) ""))
                    end)
                else socks4_connect dstPort dstIP userID (ip_string (ip_of_bytes dstIP))
            end)
    end).

(** The protocol the rotator speaks. *)
Definition listenProtocolName : string :=
  let name := trim_space (ListenProtocolName h) in
  if String.eqb name "" then trim_space (ProtocolName h) else name.

Definition handle : proc outcome :=
  if String.eqb (to_lower (trim_space listenProtocolName)) "socks4" then handleSocks4 else handleSocks5.
End Server.

Definition isSocksProtocol (name : string) : bool :=
  existsb (String.eqb (to_lower (trim_space name))) ["socks4"; "socks5"].

(** ** The client *)

Definition splitTargetAddress (target : string) : res socks_error (string * Z) :=
  match SplitHostPort target with
  | None => Err BadAddress
  | Some (host, portStr) =>
      match parse_int portStr with
      | Some port => if (port <? 0) || (65535 <? port) then Err BadAddress else Ok (host, port)
      | None => Err BadAddress
      end
  end.

(** The address type, and the address. *)
Definition encodeSocksAddress (host : string) : res socks_error (Z * list ascii) :=
  match ParseIP host with
  | Some ip =>
      match To4 ip with
      | Some v => Ok (1, be_bytes 4 v)
      | None => Ok (4, be_bytes 16 (value_of ip))
      end
  | None =>
      if String.eqb host "" then Err EmptyHost
      else if 255 <? Z.of_nat (slen host) then Err HostnameTooLong
      else Ok (3, byte (Z.of_nat (slen host)) :: bytes host)
  end.

Definition discardSocks5Address (atyp : Z) : proc (res socks_error unit) :=
  let rest n := read_full (n + 2) (fun _ => Ret (Ok tt)) in
  if atyp =? 1 then rest 4%nat
  else if atyp =? 4 then rest 16%nat
  else if atyp =? 3 then read_full 1 (fun lenBuf => rest (Z.to_nat (at_ lenBuf 0)))
  else Ret (Err UnsupportedAddressType).

(** The answer to a request to connect. *)
Definition read_connect_reply : proc (res socks_error unit) :=
  read_full 4 (fun reply =>
    if negb (at_ reply 0 =? 5) then Ret (Err InvalidReply)
    else if negb (at_ reply 1 =? 0) then Ret (Err (ConnectFailed (at_ reply 1)))
    else discardSocks5Address (at_ reply 3)).

Definition sendSocks5Credentials (username password : string) : proc (res socks_error unit) :=
  if (255 <? Z.of_nat (slen username)) || (255 <? Z.of_nat (slen password)) then Ret (Err CredentialsTooLong)
  else
    write ([byte 1; byte (Z.of_nat (slen username))] ++ bytes username ++
           [byte (Z.of_nat (slen password))] ++ bytes password)
      (read_full 2 (fun resp =>
         if negb (at_ resp 1 =? 0) then Ret (Err AuthenticationFailed) else Ret (Ok tt))).

Section Client.
Context (next : RotatingProxyNext).

Definition performSocks5UpstreamConnect (target : string) : proc (res socks_error unit) :=
  write [byte 5; byte 1; byte (if HasAuth next then 2 else 0)]
    (read_full 2 (fun resp =>
      if negb (at_ resp 0 =? 5) then Ret (Err InvalidReply)
      else if at_ resp 1 =? 255 then Ret (Err NoAcceptableMethod)
      else if HasAuth next && negb (at_ resp 1 =? 2) then Ret (Err NoUserPassword)
      else
        try (if HasAuth next && (at_ resp 1 =? 2)
             then sendSocks5Credentials (next_username next) (next_password next) else Ret (Ok tt))
          (fun _ =>
            match splitTargetAddress target with
            | Err e => Ret (Err e)
            | Ok (host, port) =>
                match encodeSocksAddress host with
                | Err e => Ret (Err e)
                | Ok (atyp, addrBytes) =>
                    write ([byte 5; byte 1; byte 0; byte atyp] ++ addrBytes ++ be_bytes 2 port)
                      read_connect_reply
                end
            end))).

(** The user field of a SOCKS4 request. *)
Definition socks4_user : string :=
  if HasAuth next then
    if String.eqb (next_password next) "" then next_username next
    else next_username next +:+ ":" +:+ next_password next
  else "".

Definition performSocks4UpstreamConnect (target : string) : proc (res socks_error unit) :=
  match splitTargetAddress target with
  | Err e => Ret (Err e)
  | Ok (host, port) =>
      let ip4 := match ParseIP host with Some ip => To4 ip | None => None end in
      let ipBytes := match ip4 with Some v => be_bytes 4 v | None => be_bytes 4 1 end in
      let domain := match ip4 with Some _ => "" | None => host end in
      let req := [byte 4; byte 1] ++ be_bytes 2 port ++ ipBytes ++ bytes socks4_user ++ [byte 0] ++
        (if String.eqb domain "" then [] else bytes domain ++ [byte 0]) in
      write req
        (read_full 8 (fun resp =>
          if negb (at_ resp 1 =? 90) then Ret (Err (ConnectFailed (at_ resp 1))) else Ret (Ok tt)))
  end.
End Client.

(** ** What an accepted client has sent *)

Lemma exec_read_full {A} n (k : list ascii -> proc (res socks_error A)) inp w a out fin :
  exec (read_full n k) inp w = (Ok a, out, fin) ->
  exists l r, inp = l ++ r /\ length l = n /\ exec (k l) r w = (Ok a, out, fin).
Proof.
  unfold read_full. cbn [exec]. destruct (read_exact n inp) as [[l r]|] eqn:E; [|done].
  apply read_exact_Some in E as [-> Hl]. intros He. by exists l, r.
Qed.

Lemma exec_write {A} bs (k : proc (res socks_error A)) inp w a out fin :
  exec (write bs k) inp w = (Ok a, out, fin) ->
  exists w' out', out = bs ++ out' /\ exec k inp w' = (Ok a, out', fin).
Proof.
  unfold write. cbn [exec]. destruct w as [|w]; [done|]. destruct (exec k inp w) as [[a' out'] fin'] eqn:E.
  intros [= -> <- ->]. by exists w, out'.
Qed.

Lemma exec_write_ {A} bs (e : socks_error) inp w (a : A) out fin :
  exec (write_ bs (Ret (Err e))) inp w <> (Ok a, out, fin).
Proof. unfold write_. cbn [exec]. by destruct w. Qed.

Lemma exec_try {A B} (p : proc (res socks_error A)) (k : A -> proc (res socks_error B)) inp w b out fin :
  exec (try p k) inp w = (Ok b, out, fin) ->
  exists a out1 rest w' out2, exec p inp w = (Ok a, out1, (rest, w')) /\ exec (k a) rest w' = (Ok b, out2, fin) /\
    out = out1 ++ out2.
Proof.
  unfold try. rewrite exec_bind. destruct (exec p inp w) as [[[a|e] out1] [rest w']]; [|done].
  destruct (exec (k a) rest w') as [[b' out2] fin'] eqn:E. intros [= -> <- ->]. eauto 10.
Qed.

(** A username and password as the client sends them. *)
Definition credentials (username password : string) : list ascii :=
  [byte 1; byte (Z.of_nat (slen username))] ++ bytes username ++
  [byte (Z.of_nat (slen password))] ++ bytes password.

Lemma one_byte (l : list ascii) : length l = 1%nat -> l = [byte (at_ l 0)].
Proof. destruct l as [|c [|]]; [done| |done]. intros _. unfold byte, at_. cbn. by rewrite chr_code. Qed.

Lemma two_bytes (l : list ascii) : length l = 2%nat -> l = [byte (at_ l 0); byte (at_ l 1)].
Proof. destruct l as [|c [|d [|]]]; [done|done| |done]. intros _. unfold byte, at_. cbn. by rewrite !chr_code. Qed.

Lemma at_range l i : 0 <= at_ l i < 256.
Proof. unfold at_. destruct (l !! i); [apply code_range|lia]. Qed.

Lemma verify_sent h inp w u out fin : AuthRequired h = true ->
  exec (verifySocks5Credentials h) inp w = (Ok u, out, fin) ->
  exists rest, inp = credentials (AuthUsername h) (AuthPassword h) ++ rest.
Proof.
  intros Hreq. unfold verifySocks5Credentials.
  intros (hd & r1 & -> & Hl1 & He)%exec_read_full.
  destruct (negb (at_ hd 0 =? 1)) eqn:Ev; [by apply exec_write_ in He|]. breflect.
  apply exec_read_full in He as (user & r2 & -> & Hl2 & He).
  apply exec_read_full in He as (pl & r3 & -> & Hl3 & He).
  apply exec_read_full in He as (pass & r4 & -> & Hl4 & He).
  rewrite Hreq in He. cbn [andb] in He.
  destruct (negb (String.eqb (of_bytes user) (AuthUsername h)) ||
            negb (String.eqb (of_bytes pass) (AuthPassword h))) eqn:Ec; [by apply exec_write_ in He|].
  breflect. apply String.eqb_eq in H, H0. exists r4. unfold credentials. rewrite <- H, <- H0.
  pose proof (at_range hd 1). pose proof (at_range pl 0).
  rewrite !bytes_of_bytes, <- !length_bytes, !bytes_of_bytes, Hl2, Hl4, !Z2Nat.id by lia.
  rewrite (two_bytes hd Hl1), Ev at 1. rewrite (one_byte pl Hl3) at 1. by rewrite <- !app_assoc.
Qed.

Lemma existsb_offers m methods : offers m methods = true <-> exists c, c ∈ methods /\ code c = m.
Proof.
  unfold offers. rewrite existsb_exists. split; intros (c & Hc & Hm); exists c.
  - rewrite list_elem_of_In. by rewrite Z.eqb_eq in Hm.
  - rewrite list_elem_of_In in Hc. by rewrite Z.eqb_eq.
Qed.

Lemma handshake_sent h inp w target out fin : AuthRequired h = true ->
  exec (performSocks5Handshake h) inp w = (Ok target, out, fin) ->
  exists methods rest, (exists c, c ∈ methods /\ code c = 2) /\
    inp = [byte 5; byte (Z.of_nat (length methods))] ++ methods ++
          credentials (AuthUsername h) (AuthPassword h) ++ rest.
Proof.
  intros Hreq. unfold performSocks5Handshake.
  intros (hd & r1 & -> & Hl1 & He)%exec_read_full.
  destruct (negb (at_ hd 0 =? 5)) eqn:Ev; [by apply exec_write_ in He|]. breflect.
  apply exec_read_full in He as (ms & r2 & -> & Hl2 & He). unfold select_method in He. rewrite Hreq in He.
  destruct (offers 2 ms) eqn:Eo; [|by apply exec_write_ in He].
  change (2 =? 255) with false in He. change (2 =? 2) with true in He. cbn iota in He.
  apply exec_write in He as (w' & out' & _ & He).
  apply exec_try in He as (u & o1 & rest & w2 & o2 & He & _ & _).
  apply (verify_sent h r2 w' u o1 (rest, w2) Hreq) in He as (rest' & ->).
  exists ms, rest'. split; [by apply existsb_offers|].
  pose proof (at_range hd 1). rewrite Hl2, Z2Nat.id by lia. by rewrite (two_bytes hd Hl1), Ev at 1.
Qed.

Lemma handle_ok h next connect registered inp w target out fin :
  exec (handleSocks5 h next connect registered) inp w = (Relaying target, out, fin) ->
  (exists out' fin', exec (performSocks5Handshake h) inp w = (Ok target, out', fin')) /\
  registered = true /\
  exists n addr, next = Some n /\ supportedUpstream (Protocol n) = true /\ connect target n = Some addr.
Proof.
  unfold handleSocks5. rewrite exec_bind.
  destruct (exec (performSocks5Handshake h) inp w) as [[r out'] [rest w']].
  assert (Hclosed : forall bs, (let '(b, o, f) := exec (write_ bs (Ret Closed)) rest w' in (b, out' ++ o, f)) <>
    (Relaying target, out, fin)) by (intros bs; unfold write_; cbn; by destruct w').
  destruct r as [t|e]; [|done]. destruct next as [n|]; [|intros He; by apply Hclosed in He].
  destruct (supportedUpstream (Protocol n)) eqn:Es; cbn [negb]; [|intros He; by apply Hclosed in He].
  destruct (connect t n) as [addr|] eqn:Ec; [|intros He; by apply Hclosed in He].
  destruct registered; [|done]. cbn [negb exec]. destruct w' as [|w']; [done|]. cbn. intros [= <- _ _].
  split; [eauto|]. split; [done|]. by exists n, addr.
Qed.

(** A SOCKS5 client is forwarded only after the handshake.  Whatever it
    sends and whichever writes fail: if the rotator requires authentication,
    the bytes begin with a greeting that offers the password method and with
    exactly the configured username and password; and in every case a route was
    available, its protocol is supported, and the connection to this target was
    made through it. *)
Theorem socks5_accepts_only h next connect registered inp w target out fin :
  exec (handleSocks5 h next connect registered) inp w = (Relaying target, out, fin) ->
  (AuthRequired h = true ->
   exists methods rest, (exists c, c ∈ methods /\ code c = 2) /\
     inp = [byte 5; byte (Z.of_nat (length methods))] ++ methods ++
           credentials (AuthUsername h) (AuthPassword h) ++ rest) /\
  registered = true /\
  exists n addr, next = Some n /\ supportedUpstream (Protocol n) = true /\ connect target n = Some addr.
Proof.
  intros He. apply handle_ok in He as ((out' & fin' & He) & Hok). split; [|done].
  intros Hreq. exact (handshake_sent h inp w target out' fin' Hreq He).
Qed.

(** ** The two ends together *)

(** The host as the far end writes it down. *)
Definition canonical_host (host : string) : string :=
  match ParseIP host with Some ip => ip_string ip | None => host end.

Lemma ParseIP_form s ip : ParseIP s = Some ip -> exists v, ip = Addr6 v "" /\ 0 <= v < 2 ^ 128.
Proof.
  unfold ParseIP. destruct (ParseAddr s) as [[v|v [|]]|] eqn:E; intros [= <-]; apply ParseAddr_valid in E;
    unfold valid in E; cbn in E.
  - eexists. split; [reflexivity|]. lia.
  - by eexists.
Qed.

Lemma To4_range ip v : To4 ip = Some v -> valid ip -> Unmap ip = Addr4 v /\ 0 <= v < 2 ^ 32.
Proof.
  unfold To4. intros Ht Hv. apply Unmap_valid in Hv. destruct (Unmap ip) as [w|w z]; [|done].
  injection Ht as [= <-]. done.
Qed.

Lemma encode_host host atyp addr : encodeSocksAddress host = Ok (atyp, addr) ->
  atyp = 1 /\ length addr = 4%nat /\ ip_string (ip_of_bytes addr) = canonical_host host \/
  atyp = 4 /\ length addr = 16%nat /\ ip_string (ip_of_bytes addr) = canonical_host host \/
  atyp = 3 /\ addr = byte (Z.of_nat (slen host)) :: bytes host /\ (slen host <= 255)%nat /\ host = canonical_host host.
Proof.
  unfold encodeSocksAddress, canonical_host. destruct (ParseIP host) as [ip|] eqn:E.
  - apply ParseIP_form in E as (v & -> & Hv). assert (Hval : valid (Addr6 v "")) by done.
    destruct (To4 (Addr6 v "")) as [w|] eqn:E4; intros Heq.
    + assert (atyp = 1 /\ addr = be_bytes 4 w) as [-> ->] by (split; congruence).
      left. destruct (To4_range _ _ E4 Hval) as [Hu Hw]. rewrite be_bytes_length. split; [done|]. split; [done|].
      unfold ip_of_bytes. rewrite be_bytes_length. cbn [Nat.eqb]. unfold ip_string. rewrite Hu, be_val_bytes; done.
    + change (value_of (Addr6 v "")) with v in Heq.
      assert (atyp = 4 /\ addr = be_bytes 16 v) as [-> ->] by (split; congruence).
      right. left. rewrite be_bytes_length. split; [done|]. split; [done|].
      unfold ip_of_bytes. rewrite be_bytes_length. cbn [Nat.eqb]. by rewrite be_val_bytes.
  - destruct (String.eqb host ""); [done|]. destruct (255 <? Z.of_nat (slen host)) eqn:El; [done|]. breflect.
    intros [= <- <-]. right. right. split; [done|]. split; [done|]. split; [lia|done].
Qed.

Lemma at_byte0 z l : 0 <= z < 256 -> at_ (byte z :: l) 0 = z.
Proof. intros Hz. unfold at_, byte. cbn. by apply code_chr. Qed.

Section Runs.
Context {A : Type} (p : proc A).

Lemma run_address host atyp addr port tr tl : encodeSocksAddress host = Ok (atyp, addr) -> 0 <= port < 65536 ->
  rtc step (MkSession p (readSocksAddress atyp) (addr ++ be_bytes 2 port ++ tr) tl)
    (MkSession p (Ret (Ok (JoinHostPort (canonical_host host) (itoa port)))) tr tl).
Proof.
  intros Henc Hport. pose proof (be_val_bytes 2 port Hport) as Hpv. pose proof (be_bytes_length 2 port) as Hpl.
  unfold readSocksAddress, read_full.
  destruct (encode_host _ _ _ Henc) as [(-> & Hl & Hh)|[(-> & Hl & Hh)|(-> & -> & Hl & Hh)]].
  - cbn [Z.eqb]. eapply right_reads; [done|]. eapply right_reads; [done|]. by rewrite Hh, Hpv.
  - cbn [Z.eqb Pos.eqb]. eapply right_reads; [done|]. eapply right_reads; [done|]. by rewrite Hh, Hpv.
  - cbn [Z.eqb Pos.eqb]. change (byte (Z.of_nat (slen host)) :: bytes host) with ([byte (Z.of_nat (slen host))] ++ bytes host).
    rewrite <- app_assoc. eapply right_reads; [done|]. rewrite at_byte0 by lia.
    eapply right_reads; [by rewrite length_bytes, Nat2Z.id|]. eapply right_reads; [done|].
    by rewrite of_bytes_bytes, Hpv, <- Hh.
Qed.

Lemma run_target host atyp addr port tr tl : encodeSocksAddress host = Ok (atyp, addr) -> 0 <= port < 65536 ->
  rtc step (MkSession p readSocks5Target (([byte 5; byte 1; byte 0; byte atyp] ++ addr ++ be_bytes 2 port) ++ tr) tl)
    (MkSession p (Ret (Ok (JoinHostPort (canonical_host host) (itoa port)))) tr tl).
Proof.
  intros Henc Hport. unfold readSocks5Target, read_full. rewrite <- app_assoc. eapply right_reads; [done|].
  assert (Ha : at_ [byte 5; byte 1; byte 0; byte atyp] 3 = atyp).
  { unfold at_, byte. cbn. apply code_chr. destruct (encode_host _ _ _ Henc) as [(-> & _)|[(-> & _)|(-> & _)]]; lia. }
  rewrite Ha. change (at_ [byte 5; byte 1; byte 0; byte atyp] 0) with 5.
  change (at_ [byte 5; byte 1; byte 0; byte atyp] 1) with 1. cbn [Z.eqb Pos.eqb negb].
  etrans; [apply run_bind_right; rewrite <- app_assoc; by apply (run_address host)|done].
Qed.

Lemma run_verify h username password tr tl : (slen username <= 255)%nat -> (slen password <= 255)%nat ->
  rtc step (MkSession p (verifySocks5Credentials h) (credentials username password ++ tr) tl)
    (if AuthRequired h && (negb (String.eqb username (AuthUsername h)) || negb (String.eqb password (AuthPassword h)))
     then MkSession p (Ret (Err InvalidCredentials)) tr (tl ++ [byte 1; byte 1])
     else MkSession p (Ret (Ok tt)) tr (tl ++ [byte 1; byte 0])).
Proof.
  intros Hu Hp. unfold credentials, verifySocks5Credentials, read_full. rewrite <- !app_assoc.
  eapply right_reads; [done|]. change (at_ [byte 1; byte (Z.of_nat (slen username))] 0) with 1. cbn [Z.eqb Pos.eqb negb].
  assert (Ha : at_ [byte 1; byte (Z.of_nat (slen username))] 1 = Z.of_nat (slen username)).
  { unfold at_, byte. cbn. apply code_chr. lia. }
  rewrite Ha. eapply right_reads; [by rewrite length_bytes, Nat2Z.id|]. eapply right_reads; [done|].
  rewrite at_byte0 by lia. eapply right_reads; [by rewrite length_bytes, Nat2Z.id|]. rewrite !of_bytes_bytes.
  destruct (_ && _); by apply right_writes.
Qed.
End Runs.

(** Whether a client that connects as [n] meets what [h] requires. *)
Definition admits (h : RotatingProxy) (n : RotatingProxyNext) : bool :=
  negb (AuthRequired h) ||
  HasAuth n && String.eqb (next_username n) (AuthUsername h) && String.eqb (next_password n) (AuthPassword h).

(** The client sends its request and waits for the reply; the server has it. *)
Lemma run_request {A} target host port atyp addr (q : proc A) tr tl :
  splitTargetAddress target = Ok (host, port) -> encodeSocksAddress host = Ok (atyp, addr) ->
  rtc step
    (MkSession
       (match splitTargetAddress target with
        | Err e => Ret (Err e)
        | Ok (host, port) =>
            match encodeSocksAddress host with
            | Err e => Ret (Err e)
            | Ok (atyp, addrBytes) =>
                write ([byte 5; byte 1; byte 0; byte atyp] ++ addrBytes ++ be_bytes 2 port) read_connect_reply
            end
        end) q tr tl)
    (MkSession read_connect_reply q (tr ++ [byte 5; byte 1; byte 0; byte atyp] ++ addr ++ be_bytes 2 port) tl).
Proof. intros -> ->. by apply left_writes. Qed.

Lemma split_port target host port : splitTargetAddress target = Ok (host, port) -> 0 <= port < 65536.
Proof.
  unfold splitTargetAddress. destruct (SplitHostPort target) as [[h p]|]; [|done].
  destruct (parse_int p) as [z|]; [|done]. destruct ((z <? 0) || (65535 <? z)) eqn:E; [done|]. breflect.
  intros [= <- <-]. lia.
Qed.

Section Agreement.
Context (h : RotatingProxy) (n : RotatingProxyNext) (target host : string) (port atyp : Z) (addr : list ascii).
Context (Hsplit : splitTargetAddress target = Ok (host, port)) (Henc : encodeSocksAddress host = Ok (atyp, addr)).
Context (Huser : (slen (next_username n) <= 255)%nat) (Hpass : (slen (next_password n) <= 255)%nat).

Lemma run_plain_handshake : AuthRequired h = false -> HasAuth n = false ->
  rtc step (MkSession (performSocks5UpstreamConnect n target) (performSocks5Handshake h) [] [])
    (MkSession read_connect_reply (Ret (Ok (JoinHostPort (canonical_host host) (itoa port)))) [] []).
Proof.
  intros Hreq Hauth. unfold performSocks5UpstreamConnect, performSocks5Handshake, write, read_full, select_method.
  rewrite Hauth, Hreq. apply left_writes. change ([] ++ [byte 5; byte 1; byte 0]) with ([byte 5; byte 1] ++ [byte 0] ++ []).
  eapply right_reads; [done|]. eapply (right_reads 1); [done|]. apply right_writes.
  change (offers 0 [byte 0]) with true. cbn iota. change (0 =? 2) with false. cbn iota.
  change ([] ++ [byte 5; byte 0]) with ([byte 5; byte 0] ++ []). eapply left_reads; [done|].
  cbn [andb try bind]. change (at_ [byte 5; byte 0] 0) with 5. change (at_ [byte 5; byte 0] 1) with 0. cbn [Z.eqb Pos.eqb negb].
  etrans; [eapply run_request; [exact Hsplit|exact Henc]|]. cbn [app].
  etrans; [|apply (run_target read_connect_reply host atyp addr port [] []); [done|by eapply split_port]].
  by rewrite app_nil_r.
Qed.

Lemma run_auth_handshake : HasAuth n = true ->
  if admits h n then
    rtc step (MkSession (performSocks5UpstreamConnect n target) (performSocks5Handshake h) [] [])
      (MkSession read_connect_reply (Ret (Ok (JoinHostPort (canonical_host host) (itoa port)))) [] [])
  else
    rtc step (MkSession (performSocks5UpstreamConnect n target) (performSocks5Handshake h) [] [])
      (MkSession (Ret (Err AuthenticationFailed)) (Ret (Err InvalidCredentials)) [] []).
Proof.
  intros Hauth.
  assert (Hv : forall r, r = rtc step (MkSession (performSocks5UpstreamConnect n target) (performSocks5Handshake h) [] []) ->
    forall t, rtc step (MkSession (try (sendSocks5Credentials (next_username n) (next_password n)) (fun _ =>
            match splitTargetAddress target with
            | Err e => Ret (Err e)
            | Ok (host, port) =>
                match encodeSocksAddress host with
                | Err e => Ret (Err e)
                | Ok (atyp, addrBytes) =>
                    write ([byte 5; byte 1; byte 0; byte atyp] ++ addrBytes ++ be_bytes 2 port) read_connect_reply
                end
            end)) (try (verifySocks5Credentials h) (fun _ => readSocks5Target)) [] []) t -> r t).
  { intros r -> t Ht. unfold performSocks5UpstreamConnect, performSocks5Handshake, write, read_full, select_method.
    rewrite Hauth. apply left_writes. change ([] ++ [byte 5; byte 1; byte 2]) with ([byte 5; byte 1] ++ [byte 2] ++ []).
    eapply right_reads; [done|]. eapply (right_reads 1); [done|].
    replace (if AuthRequired h then if offers 2 [byte 2] then 2 else 255
             else if offers 0 [byte 2] then 0 else if offers 2 [byte 2] then 2 else 255) with 2
      by (by destruct (AuthRequired h)).
    apply right_writes. change ([] ++ [byte 5; byte 2]) with ([byte 5; byte 2] ++ []). eapply left_reads; [done|].
    exact Ht. }
  specialize (Hv _ eq_refl).
  assert (Hsend : forall A (q : proc A), rtc step (MkSession (sendSocks5Credentials (next_username n) (next_password n)) q [] [])
    (MkSession (read_full 2 (fun resp => if negb (at_ resp 1 =? 0) then Ret (Err AuthenticationFailed) else Ret (Ok tt)))
       q (credentials (next_username n) (next_password n) ++ []) [])).
  { intros A q. unfold sendSocks5Credentials. rewrite (proj2 (Z.ltb_ge _ _)), (proj2 (Z.ltb_ge _ _)) by lia.
    cbn [orb]. unfold write. apply left_writes. by rewrite app_nil_r. }
  pose proof (run_verify (read_full 2 (fun resp => if negb (at_ resp 1 =? 0) then Ret (Err AuthenticationFailed) else Ret (Ok tt)))
    h (next_username n) (next_password n) [] [] Huser Hpass) as Hver.
  unfold admits. rewrite Hauth. cbn [andb].
  destruct (AuthRequired h && (negb (String.eqb (next_username n) (AuthUsername h)) ||
      negb (String.eqb (next_password n) (AuthPassword h)))) eqn:Eok.
  - replace (negb (AuthRequired h) || String.eqb (next_username n) (AuthUsername h) &&
      String.eqb (next_password n) (AuthPassword h)) with false
      by (destruct (AuthRequired h), (String.eqb (next_username n) _), (String.eqb (next_password n) _); done).
    apply Hv. unfold try. etrans; [apply run_bind_left, run_bind_right, Hsend|].
    etrans; [apply run_bind_left, run_bind_right, Hver|]. cbn [bind app]. unfold read_full.
    change [byte 1; byte 1] with ([byte 1; byte 1] ++ []). by eapply left_reads.
  - replace (negb (AuthRequired h) || String.eqb (next_username n) (AuthUsername h) &&
      String.eqb (next_password n) (AuthPassword h)) with true
      by (destruct (AuthRequired h), (String.eqb (next_username n) _), (String.eqb (next_password n) _); done).
    apply Hv. unfold try. etrans; [apply run_bind_left, run_bind_right, Hsend|].
    etrans; [apply run_bind_left, run_bind_right, Hver|]. cbn [bind app]. unfold read_full.
    change [byte 1; byte 0] with ([byte 1; byte 0] ++ []). eapply left_reads; [done|].
    change (at_ [byte 1; byte 0] 1) with 0. cbn [Z.eqb negb bind].
    etrans; [eapply run_request; [exact Hsplit|exact Henc]|]. cbn [app].
    etrans; [|apply (run_target read_connect_reply host atyp addr port [] []); [done|by eapply split_port]].
    by rewrite app_nil_r.
Qed.

Lemma run_refused_handshake : AuthRequired h = true -> HasAuth n = false ->
  rtc step (MkSession (performSocks5UpstreamConnect n target) (performSocks5Handshake h) [] [])
    (MkSession (Ret (Err NoAcceptableMethod)) (Ret (Err NoAcceptableMethod)) [] []).
Proof.
  intros Hreq Hauth. unfold performSocks5UpstreamConnect, performSocks5Handshake, write, write_, read_full, select_method.
  rewrite Hauth, Hreq. apply left_writes. change ([] ++ [byte 5; byte 1; byte 0]) with ([byte 5; byte 1] ++ [byte 0] ++ []).
  eapply right_reads; [done|]. eapply (right_reads 1); [done|].
  change (offers 2 [byte 0]) with false. cbn iota. change (255 =? 255) with true. cbn iota. apply right_writes.
  change ([] ++ [byte 5; byte 255]) with ([byte 5; byte 255] ++ []). by eapply left_reads.
Qed.
End Agreement.

(** The reply to an accepted request, as the client reads it. *)
Lemma run_success {A} (q : proc A) local :
  rtc step (MkSession read_connect_reply q [] (socks5_success local)) (MkSession (Ret (Ok tt)) q [] []).
Proof.
  assert (Hb : forall ip port, rtc step (MkSession read_connect_reply q [] (socks5_bound_reply 0 ip port))
      (MkSession (Ret (Ok tt)) q [] [])).
  { intros ip port. unfold socks5_bound_reply, read_connect_reply, read_full. destruct (To4 ip) as [v|].
    - eapply left_reads; [done|]. cbn [negb]. change (at_ [byte 5; byte 0; byte 0; byte 1] 3) with 1.
      rewrite <- (app_nil_r (be_bytes 4 v ++ be_bytes 2 port)). eapply left_reads; [|done].
      by rewrite length_app, !be_bytes_length.
    - eapply left_reads; [done|]. cbn [negb]. change (at_ [byte 5; byte 0; byte 0; byte 4] 3) with 4.
      rewrite <- (app_nil_r (be_bytes 16 (value_of ip) ++ be_bytes 2 port)). eapply left_reads; [|done].
      by rewrite length_app, !be_bytes_length. }
  destruct local as [[ip port]|]; apply Hb.
Qed.

(** C12. A SOCKS5 client and a SOCKS5 rotator agree.  With the two at the ends of
    one connection every interleaving of their reads and writes ends, and it
    ends in one state: if the client's credentials meet what the rotator
    requires, the client is told so and the rotator forwards to the very target
    (its host in canonical form) with no byte left unread; otherwise the client
    reports an error and the rotator has closed. *)
Theorem socks5_agreement h n nn connect target host port local :
  splitTargetAddress target = Ok (host, port) -> is_ok (encodeSocksAddress host) = true ->
  (slen (next_username n) <= 255)%nat -> (slen (next_password n) <= 255)%nat ->
  supportedUpstream (Protocol nn) = true ->
  connect (JoinHostPort (canonical_host host) (itoa port)) nn = Some local ->
  let start := MkSession (performSocks5UpstreamConnect n target) (handleSocks5 h (Some nn) connect true) [] [] in
  sn step start /\
  forall t, rtc step start t -> nf step t ->
    if admits h n
    then t = MkSession (Ret (Ok tt)) (Ret (Relaying (JoinHostPort (canonical_host host) (itoa port)))) [] []
    else exists e, t = MkSession (Ret (Err e)) (Ret Closed) [] [].
Proof.
  intros Hsplit Henc Hu Hp Hsup Hconn start. split; [apply session_terminates|]. intros t Ht Hnf.
  destruct (encodeSocksAddress host) as [[atyp addr]|] eqn:Eenc; [|done].
  assert (Hdone : forall (a : res socks_error unit) (o : outcome), rtc step start (MkSession (Ret a) (Ret o) [] []) ->
    t = MkSession (Ret a) (Ret o) [] []).
  { intros a o Hr. eapply session_determined; [exact Hr|apply session_done|exact Ht|exact Hnf]. }
  assert (Hgo : forall a r, rtc step (MkSession (performSocks5UpstreamConnect n target) (performSocks5Handshake h) [] []) (MkSession a (Ret r) [] []) ->
    rtc step start (MkSession a (bind (Ret r) (fun r => match r with
      | Err _ => Ret Closed
      | Ok target => if negb (supportedUpstream (Protocol nn)) then write_ (socks5_reply 7) (Ret Closed)
          else match connect target nn with
            | None => write_ (socks5_reply 5) (Ret Closed)
            | Some addr => if negb true then Ret Closed
                else Write (socks5_success addr) (fun ok => Ret (if ok then Relaying target else Closed)) end
      end)) [] [])).
  { intros a r Hr. unfold start, handleSocks5. apply run_bind_right. exact Hr. }
  assert (Hacc : rtc step (MkSession (performSocks5UpstreamConnect n target) (performSocks5Handshake h) [] [])
      (MkSession read_connect_reply (Ret (Ok (JoinHostPort (canonical_host host) (itoa port)))) [] []) ->
    t = MkSession (Ret (Ok tt)) (Ret (Relaying (JoinHostPort (canonical_host host) (itoa port)))) [] []).
  { intros Hr. apply Hdone. etrans; [exact (Hgo _ _ Hr)|]. cbn [bind]. rewrite Hsup, Hconn. cbn [negb].
    apply right_writes. apply run_success. }
  destruct (HasAuth n) eqn:Eauth.
  - pose proof (run_auth_handshake h n target host port atyp addr Hsplit Eenc Hu Hp Eauth) as Hr.
    destruct (admits h n); [by apply Hacc|]. exists AuthenticationFailed. by apply Hdone, (Hgo _ _ Hr).
  - unfold admits. rewrite Eauth. destruct (AuthRequired h) eqn:Ereq; cbn [negb orb andb].
    + exists NoAcceptableMethod. apply Hdone, (Hgo _ _ (run_refused_handshake h n target Ereq Eauth)).
    + apply Hacc. by apply (run_plain_handshake h n target host port atyp addr).
Qed.

(** ** SOCKS4 *)

Lemma trim_suffix_last s c : trim_suffix (s +:+ String c "") (String c "") = s.
Proof.
  unfold trim_suffix, has_suffix, str_rev. rewrite bytes_app, rev_app_distr. cbn [bytes rev app of_bytes has_prefix].
  rewrite bool_decide_eq_true_2 by done. cbn [andb]. rewrite slen_app. cbn [slen].
  by rewrite Nat.add_sub, stake_app.
Qed.

Lemma of_bytes_app l k : of_bytes (l ++ k) = of_bytes l +:+ of_bytes k.
Proof. induction l as [|c l IH]; [done|]. cbn. by rewrite IH. Qed.

Lemma trim_nul l : trim_suffix (of_bytes (l ++ [byte 0])) (String (byte 0) "") = of_bytes l.
Proof. rewrite of_bytes_app. apply trim_suffix_last. Qed.

(** What [performSocks4UpstreamConnect] sends, field by field. *)
Definition socks4_request (port : list ascii) (ip user : list ascii) (domain : string) : list ascii :=
  [byte 4; byte 1] ++ port ++ ip ++ user ++ [byte 0] ++
  (if String.eqb domain "" then [] else bytes domain ++ [byte 0]).

(** Whether an address announces a domain instead ([0.0.0.x]). *)
Definition announces_domain (ip : list ascii) : bool :=
  (at_ ip 0 =? 0) && (at_ ip 1 =? 0) && (at_ ip 2 =? 0) && negb (at_ ip 3 =? 0).

Section Request.
Context (h : RotatingProxy) (next : option RotatingProxyNext).
Context (connect : string -> RotatingProxyNext -> option (option (Addr * Z))) (registered : bool).
Context (port ip user : list ascii) (domain : string).
Context (Hport : length port = 2%nat) (Hip : length ip = 4%nat).
Context (Hdom : announces_domain ip = negb (String.eqb domain "")).
Context (Huser : byte 0 ∉ user) (Hdomain : byte 0 ∉ bytes domain).

Definition socks4_target_host : string := if announces_domain ip then domain else ip_string (ip_of_bytes ip).

(** The server takes a request apart. *)
Lemma run_socks4_request {A} (p : proc A) tr tl :
  rtc step (MkSession p (handleSocks4 h next connect registered) (socks4_request port ip user domain ++ tr) tl)
    (MkSession p (socks4_connect h next connect registered port ip (of_bytes user) socks4_target_host) tr tl).
Proof.
  assert (Hhead : socks4_request port ip user domain ++ tr =
    ([byte 4; byte 1] ++ port ++ ip) ++ user ++ byte 0 ::
      ((if String.eqb domain "" then [] else bytes domain ++ [byte 0]) ++ tr)).
  { unfold socks4_request. by rewrite <- !app_assoc. }
  rewrite Hhead. unfold handleSocks4.
  destruct port as [|p1 [|p2 [|]]] eqn:Eport; try done. destruct ip as [|i1 [|i2 [|i3 [|i4 [|]]]]] eqn:Eip; try done.
  eapply right_reads; [done|].
  change (at_ ([byte 4; byte 1] ++ [p1; p2] ++ [i1; i2; i3; i4]) 0) with 4.
  change (at_ ([byte 4; byte 1] ++ [p1; p2] ++ [i1; i2; i3; i4]) 1) with 1. cbn [Z.eqb Pos.eqb negb orb].
  change (take 2 (drop 2 ([byte 4; byte 1] ++ [p1; p2] ++ [i1; i2; i3; i4]))) with [p1; p2].
  change (take 4 (drop 4 ([byte 4; byte 1] ++ [p1; p2] ++ [i1; i2; i3; i4]))) with [i1; i2; i3; i4].
  eapply right_reads_until; [done|]. rewrite trim_nul. unfold socks4_target_host. rewrite Eip.
  change ((at_ [i1; i2; i3; i4] 0 =? 0) && (at_ [i1; i2; i3; i4] 1 =? 0) && (at_ [i1; i2; i3; i4] 2 =? 0) &&
    negb (at_ [i1; i2; i3; i4] 3 =? 0)) with (announces_domain [i1; i2; i3; i4]).
  rewrite Hdom. destruct (String.eqb domain "") eqn:Ed; cbn [negb]; [done|].
  rewrite <- app_assoc. eapply right_reads_until; [done|]. by rewrite trim_nul, of_bytes_bytes.
Qed.
End Request.

(** The host a SOCKS4 rotator forwards to: an address in canonical form, or the
    text as it is. *)
Definition socks4_host (host : string) : string :=
  match ParseIP host with
  | Some ip => match To4 ip with Some _ => ip_string ip | None => host end
  | None => host
  end.

(** An IPv4 address that SOCKS4 takes for the announcement of a domain. *)
Definition ambiguous_host (host : string) : bool :=
  match ParseIP host with
  | Some ip => match To4 ip with Some v => (0 <? v) && (v <? 256) | None => false end
  | None => false
  end.

Lemma announces_v4 v : 0 <= v < 2 ^ 32 -> announces_domain (be_bytes 4 v) = (0 <? v) && (v <? 256).
Proof.
  intros Hv. unfold announces_domain, at_. cbn. rewrite !code_chr by (apply Z.mod_pos_bound; lia).
  destruct ((0 <? v) && (v <? 256)) eqn:E.
  - apply andb_true_iff in E as [E1%Z.ltb_lt E2%Z.ltb_lt].
    rewrite (Z.div_small v 256), (Z.mod_small v 256) by lia. cbn. by rewrite (proj2 (Z.eqb_neq v 0)) by lia.
  - apply not_true_iff_false. intros Hall. breflect.
    assert (0 < v < 256) by (Z.to_euclidean_division_equations; lia).
    apply andb_false_iff in E as [E%Z.ltb_ge|E%Z.ltb_ge]; lia.
Qed.

Definition admits4 (h : RotatingProxy) (n : RotatingProxyNext) : bool :=
  negb (AuthRequired h) || String.eqb (socks4_user n) (socks4_expected h).

(** A SOCKS4 client and a SOCKS4 rotator agree, likewise: any interleaving
    ends in one state, with the client told of success and the rotator
    forwarding to the target, or the client refused and the rotator closed.
    Fields that hold the terminator, an empty host and the addresses 0.0.0.x,
    which announce a domain, are not covered. *)
Theorem socks4_agreement h n nn connect target host port local :
  splitTargetAddress target = Ok (host, port) -> host <> "" -> ambiguous_host host = false ->
  byte 0 ∉ bytes host -> byte 0 ∉ bytes (socks4_user n) ->
  supportedUpstream (Protocol nn) = true -> connect (JoinHostPort (socks4_host host) (itoa port)) nn = Some local ->
  let start := MkSession (performSocks4UpstreamConnect n target) (handleSocks4 h (Some nn) connect true) [] [] in
  sn step start /\
  forall t, rtc step start t -> nf step t ->
    if admits4 h n
    then t = MkSession (Ret (Ok tt)) (Ret (Relaying (JoinHostPort (socks4_host host) (itoa port)))) [] []
    else exists e, t = MkSession (Ret (Err e)) (Ret Closed) [] [].
Proof.
  intros Hsplit Hne Hamb Hh Hu Hsup Hconn start. split; [apply session_terminates|]. intros t Ht Hnf.
  pose proof (split_port _ _ _ Hsplit) as Hport.
  set (ip4 := match ParseIP host with Some ip => To4 ip | None => None end).
  set (ipBytes := match ip4 with Some v => be_bytes 4 v | None => be_bytes 4 1 end).
  set (domain := match ip4 with Some _ => "" | None => host end).
  assert (Hip : length ipBytes = 4%nat) by (unfold ipBytes; destruct ip4; apply be_bytes_length).
  assert (Hdom : announces_domain ipBytes = negb (String.eqb domain "") /\
    socks4_target_host ipBytes domain = socks4_host host /\ byte 0 ∉ bytes domain).
  { unfold ipBytes, domain, socks4_target_host, ip4, socks4_host, ambiguous_host in *.
    destruct (ParseIP host) as [ip|] eqn:Ep.
    - destruct (To4 ip) as [v|] eqn:E4.
      + apply ParseIP_form in Ep as (w & -> & Hw). destruct (To4_range _ _ E4) as [Hun Hv]; [done|].
        rewrite announces_v4, Hamb by done. split; [done|]. split; [|apply not_elem_of_nil].
        unfold ip_of_bytes. rewrite be_bytes_length. cbn [Nat.eqb]. unfold ip_string. by rewrite Hun, be_val_bytes.
      + change (announces_domain (be_bytes 4 1)) with true. by rewrite (proj2 (String.eqb_neq host "") Hne).
    - change (announces_domain (be_bytes 4 1)) with true. by rewrite (proj2 (String.eqb_neq host "") Hne). }
  destruct Hdom as (Hdom & Htarget & Hnul).
  assert (Hdone : forall (a : res socks_error unit) (o : outcome), rtc step start (MkSession (Ret a) (Ret o) [] []) ->
    t = MkSession (Ret a) (Ret o) [] []).
  { intros a o Hr. eapply session_determined; [exact Hr|apply session_done|exact Ht|exact Hnf]. }
  assert (Hgo : forall t', rtc step (MkSession
      (read_full 8 (fun resp => if negb (at_ resp 1 =? 90) then Ret (Err (ConnectFailed (at_ resp 1))) else Ret (Ok tt)))
      (socks4_connect h (Some nn) connect true (be_bytes 2 port) ipBytes (socks4_user n) (socks4_host host)) [] []) t' ->
    rtc step start t').
  { intros t' Hr. unfold start, performSocks4UpstreamConnect. rewrite Hsplit. unfold write. apply left_writes.
    change ([] ++ _) with (socks4_request (be_bytes 2 port) ipBytes (bytes (socks4_user n)) domain).
    rewrite <- (app_nil_r (socks4_request _ _ _ _)).
    etrans; [apply (run_socks4_request h (Some nn) connect true); done|].
    by rewrite of_bytes_bytes, Htarget. }
  assert (Hreply : forall c (q : proc outcome), rtc step (MkSession
      (read_full 8 (fun resp => if negb (at_ resp 1 =? 90) then Ret (Err (ConnectFailed (at_ resp 1))) else Ret (Ok tt)))
      q [] (socks4_response c (be_bytes 2 port) ipBytes))
      (MkSession (if negb (code (byte c) =? 90) then Ret (Err (ConnectFailed (code (byte c)))) else Ret (Ok tt)) q [] [])).
  { intros c q. unfold socks4_response. rewrite be_bytes_length, Hip. cbn [Nat.eqb].
    rewrite <- (app_nil_r ([byte 0; byte c] ++ _)). unfold read_full. eapply left_reads; [|done].
    by rewrite !length_app, be_bytes_length, Hip. }
  unfold admits4. unfold socks4_connect in Hgo.
  destruct (AuthRequired h && negb (String.eqb (socks4_user n) (socks4_expected h))) eqn:Eok.
  - replace (negb (AuthRequired h) || String.eqb (socks4_user n) (socks4_expected h)) with false
      by (destruct (AuthRequired h), (String.eqb (socks4_user n) _); done).
    exists (ConnectFailed 91). apply Hdone, Hgo. apply right_writes. cbn [app]. apply (Hreply 91).
  - replace (negb (AuthRequired h) || String.eqb (socks4_user n) (socks4_expected h)) with true
      by (destruct (AuthRequired h), (String.eqb (socks4_user n) _); done).
    apply Hdone, Hgo. rewrite be_val_bytes by done. rewrite Hsup, Hconn. cbn [negb]. apply right_writes.
    cbn [app]. apply (Hreply 90).
Qed.

(** Early data is lost with SOCKS4.  The handshake is read through a
    buffered reader, and the forwarding starts from the connection: when the
    bytes a client sends ahead arrive together with its request, they stay in
    the reader's buffer and only what arrives later is forwarded. *)
Theorem socks4_early_data_lost h next connect registered request early later w target out w' :
  exec (handleSocks4 h next connect registered) (request ++ early) w = (Relaying target, out, (early, w')) ->
  early <> [] ->
  exec_buffered (handleSocks4 h next connect registered) [] ((request ++ early) :: later) w =
    (Relaying target, out, (early, later, w')).
Proof.
  intros He Hne. rewrite <- (exec_buffered_all _ _ later _ _ _ _ _ He Hne).
  unfold handleSocks4. cbn [exec_buffered fill_exact]. done.
Qed.

(** ** Instances *)

Definition sample_rotator : RotatingProxy := MkRotator true "user" "pass" "socks5" "http".

Definition sample_client : RotatingProxyNext := MkNext "user" "pass" true "socks5".

Definition sample_route : RotatingProxyNext := MkNext "" "" false "http".

Definition sample_connect (target : string) (n : RotatingProxyNext) : option (option (Addr * Z)) :=
  Some (Some (Addr4 2130706433, 40000)).

Lemma socks5_accepts_only_witness :
  let inp := [byte 5; byte 1; byte 2] ++ credentials "user" "pass" ++
    [byte 5; byte 1; byte 0; byte 3; byte 1; byte 97; byte 0; byte 80; byte 1] in
  exists methods rest, (exists c, c ∈ methods /\ code c = 2) /\
    inp = [byte 5; byte (Z.of_nat (length methods))] ++ methods ++ credentials "user" "pass" ++ rest.
Proof.
  cbv zeta.
  apply (socks5_accepts_only sample_rotator (Some sample_route) sample_connect true _ 9 "a:80"
    [byte 5; byte 2; byte 1; byte 0; byte 5; byte 0; byte 0; byte 1; byte 127; byte 0; byte 0; byte 1; byte 156; byte 64]
    ([byte 1], 6%nat)); [|reflexivity].
  vm_compute. reflexivity.
Defined.

Lemma socks5_agreement_witness :
  let start := MkSession (performSocks5UpstreamConnect sample_client "[2001:DB8::1]:443")
    (handleSocks5 sample_rotator (Some sample_route) sample_connect true) [] [] in
  sn step start /\ forall t, rtc step start t -> nf step t ->
    t = MkSession (Ret (Ok tt)) (Ret (Relaying "[2001:db8::1]:443")) [] [].
Proof.
  apply (socks5_agreement sample_rotator sample_client sample_route sample_connect "[2001:DB8::1]:443"
    "2001:DB8::1" 443 (Some (Addr4 2130706433, 40000))); [vm_compute; reflexivity|vm_compute; reflexivity|cbn; lia|cbn; lia|reflexivity|reflexivity].
Defined.

Lemma socks4_agreement_witness :
  let start := MkSession (performSocks4UpstreamConnect sample_client "example.org:80")
    (handleSocks4 sample_rotator (Some sample_route) sample_connect true) [] [] in
  forall t, rtc step start t -> nf step t ->
    t = MkSession (Ret (Ok tt)) (Ret (Relaying "example.org:80")) [] [].
Proof.
  apply (socks4_agreement sample_rotator sample_client sample_route sample_connect "example.org:80"
    "example.org" 80 (Some (Addr4 2130706433, 40000)));
    [vm_compute; reflexivity|done|vm_compute; reflexivity| | |reflexivity|reflexivity].
  - apply (bool_decide_unpack _). vm_compute. exact I.
  - apply (bool_decide_unpack _). vm_compute. exact I.
Defined.

Lemma socks4_early_data_lost_witness :
  let request := socks4_request [byte 0; byte 80] [byte 1; byte 2; byte 3; byte 4] (bytes "user:pass") "" in
  exec_buffered (handleSocks4 sample_rotator (Some sample_route) sample_connect true) []
    [request ++ bytes "GET"; bytes " /"] 1 =
  (Relaying "1.2.3.4:80", socks4_response 90 [byte 0; byte 80] [byte 1; byte 2; byte 3; byte 4],
   (bytes "GET", [bytes " /"], 0%nat)).
Proof.
  apply (socks4_early_data_lost sample_rotator (Some sample_route) sample_connect true
    (socks4_request [byte 0; byte 80] [byte 1; byte 2; byte 3; byte 4] (bytes "user:pass") "") (bytes "GET") [bytes " /"]).
  - vm_compute. reflexivity.
  - discriminate.
Defined.
End Socks.
