(* ===== verification/Rotator.v ===== *)
(** * Rotators: creation and selection

    [internal/database/database_rotating_proxy_handler.go]: what a rotator is
    created as, and which route it serves next.  The statements are SQL text in
    the source, so a query is a function on the tables it names.
    The listeners themselves are in Listeners.v.  Parameters: the shuffle of the
    port range and the instance identifier. *)

From S2P Require Import Prelude GoStrings ProxyModel.
From Stdlib Require Import SpecFloat Sorted.
From stdpp Require Import sorting.
Open Scope Z_scope.

Module Rotator.
Import ProxyModel.

(** ** Tables *)

Definition ManagedProxyStateActive : string := "active".
Definition ProxyReputationKindOverall : string := "overall".

(** [user_proxies] *)
Record Access := MkAccess {
  a_workspace : Z; a_proxy : Z; a_state : string; a_username : string; a_password : string
}.

(** What the queries read of [workspaces]: the keys are by protocol. *)
Record WorkspaceRow := MkWorkspace {
  checker_dirty : bool; checker_generation : Z;
  checker_http_key : string; checker_https_key : string;
  checker_socks4_key : string; checker_socks5_key : string
}.

(** [proxy_latest_statistics] *)
Record LatestStatistic := MkLatest {
  ls_workspace : Z; ls_config_key : string; ls_transport : string;
  ls_proxy : Z; ls_protocol : Z; ls_alive : bool
}.

(** [proxy_statistics]: a retained check and the verdicts it was evidence for. *)
Record Evidence := MkEvidence { e_workspace : Z; e_config_key : string; e_alive : bool }.

Record Statistic := MkStatistic {
  st_proxy : Z; st_protocol : Z; st_transport : string; st_alive : bool; st_evidence : list Evidence
}.

(** [rotating_proxies] with the names of its protocols; the password is as
    [AfterFind] decrypts it. *)
Record RotatorRow := MkRotatorRow {
  r_workspace : Z; r_name : string;
  r_instance : string; r_instance_name : string; r_instance_region : string;
  r_protocol : Z; r_protocol_name : string;
  r_listen_protocol : Z; r_listen_protocol_name : string;
  r_transport : string; r_listen_transport : string;
  r_listen_port : Z;
  r_auth_required : bool; r_auth_username : string; r_auth_password : string;
  r_labels : list string;
  r_uptime_type : string; r_uptime : option spec_float;
  r_last_proxy : option Z
}.

Record Tables := MkTables {
  t_proxies : gmap Z Proxy;
  t_access : list Access;
  t_workspaces : gmap Z WorkspaceRow;
  t_latest : list LatestStatistic;
  t_plans : gmap (Z * Z * Z) string;
  t_reputations : list (Z * string * string);
  t_statistics : list Statistic;
  t_rotators : gmap Z RotatorRow
}.

(** ** Filters *)

Definition reputationLabelOrder : list string := ["good"; "neutral"; "poor"].

Definition sanitizeRotatorReputationLabels (labels : list string) : list string :=
  let seen := map (fun raw => to_lower (trim_space raw)) labels in
  filter (fun label => label ∈ seen) reputationLabelOrder.

Definition shouldApplyReputationFilter (labels : list string) : bool :=
  (0 <? length labels)%nat && (length labels <? length reputationLabelOrder)%nat.

Definition uptimeFilterMin : string := "min".
Definition uptimeFilterMax : string := "max".

Definition float_of_Z (z : Z) : spec_float := binary_normalize 53 1024 z 0 false.

Definition is_nan_or_inf (f : spec_float) : bool :=
  match f with S754_nan | S754_infinity _ => true | _ => false end.

(** [math.Round]: half away from zero. *)
Definition math_Round (f : spec_float) : spec_float :=
  match f with
  | S754_finite s m e =>
      if 0 <=? e then f
      else
        let q := (2 * Zpos m + 2 ^ (- e)) / 2 ^ (1 - e) in
        if q =? 0 then S754_zero s else binary_normalize 53 1024 (if s then - q else q) 0 s
  | _ => f
  end.

Definition round_tenth (f : spec_float) : spec_float :=
  SFdiv 53 1024 (math_Round (SFmul 53 1024 f (float_of_Z 10))) (float_of_Z 10).

Definition percentage_ok (f : spec_float) : bool :=
  negb (is_nan_or_inf f) && negb (SFltb f (float_of_Z 0)) && negb (SFltb (float_of_Z 100) f).

Inductive rotator_error :=
| RotatingProxyNotFound | NameRequired | NameTooLong | NameConflict
| ProtocolMissing | ProtocolUnsupported | NoAliveProxies
| AuthUsernameNeeded | AuthPasswordNeeded | PortExhausted
| UptimeTypeInvalid | UptimeTypeMissing | UptimeValueMissing | UptimeOutOfRange
| WorkspaceNotFound.

Definition validateRotatorUptimeFilter (rawType : string) (raw : option spec_float)
    : res rotator_error (string * option spec_float) :=
  let filterType := to_lower (trim_space rawType) in
  match String.eqb filterType "", raw with
  | true, None => Ok ("", None)
  | true, Some _ => Err UptimeTypeMissing
  | false, None => Err UptimeValueMissing
  | false, Some value =>
      if negb (String.eqb filterType uptimeFilterMin) && negb (String.eqb filterType uptimeFilterMax)
      then Err UptimeTypeInvalid
      else if percentage_ok value then Ok (filterType, Some (round_tenth value)) else Err UptimeOutOfRange
  end.

Definition normalizeRotatorUptimeFilter (rawType : string) (raw : option spec_float)
    : string * option spec_float :=
  let filterType := to_lower (trim_space rawType) in
  match raw with
  | None => ("", None)
  | Some value =>
      if negb (String.eqb filterType uptimeFilterMin) && negb (String.eqb filterType uptimeFilterMax)
      then ("", None)
      else if percentage_ok value then (filterType, Some (round_tenth value)) else ("", None)
  end.

(** ** Selection *)

Definition config_key_of (w : WorkspaceRow) (protocol : Z) : string :=
  if protocol =? 1 then checker_http_key w
  else if protocol =? 2 then checker_https_key w
  else if protocol =? 3 then checker_socks4_key w
  else if protocol =? 4 then checker_socks5_key w
  else "".

(** [ROUND(100.0 * alive / total, 1)] in tenths, and [NULL] without rows. *)
Definition uptime_tenths (alive total : Z) : option Z :=
  if total =? 0 then None else Some ((2000 * alive + total) / (2 * total)).

Definition count_if {A : Type} (p : A -> bool) (l : list A) : Z := Z.of_nat (length (List.filter p l)).

Section Queries.
Context (t : Tables).

(** The verdicts for a workspace's configuration in the retained checks. *)
Definition evidence_uptime (pls : LatestStatistic) (protocol : Z) : option Z :=
  let rows := List.filter (fun s => (st_proxy s =? ls_proxy pls) && (st_protocol s =? protocol) &&
    String.eqb (st_transport s) "tcp") (t_statistics t) in
  let verdicts := List.filter (fun e => (e_workspace e =? ls_workspace pls) &&
    String.eqb (e_config_key e) (ls_config_key pls)) (concat (map st_evidence rows)) in
  uptime_tenths (count_if e_alive verdicts) (Z.of_nat (length verdicts)).

Definition legacy_uptime (pls : LatestStatistic) (protocol : Z) : option Z :=
  let rows := List.filter (fun s => (st_proxy s =? ls_proxy pls) && (st_protocol s =? protocol)) (t_statistics t) in
  uptime_tenths (count_if st_alive rows) (Z.of_nat (length rows)).

Definition applyUptimeFilter (protocol : Z) (uptimeType : string) (percentage : option spec_float)
    (pls : LatestStatistic) : bool :=
  match normalizeRotatorUptimeFilter uptimeType percentage with
  | (typ, Some p) =>
      match (if ls_workspace pls =? 0 then legacy_uptime pls protocol else evidence_uptime pls protocol) with
      | None => false
      | Some u =>
          let u := SFdiv 53 1024 (float_of_Z u) (float_of_Z 10) in
          if String.eqb typ uptimeFilterMax then SFleb u p else SFleb p u
      end
  | (_, None) => true
  end.

Definition applyReputationFilter (labels : list string) (proxy : Z) : bool :=
  if shouldApplyReputationFilter labels then
    existsb (fun '(p, kind, label) => (p =? proxy) && String.eqb kind ProxyReputationKindOverall &&
      bool_decide (label ∈ labels)) (t_reputations t)
  else true.

(** The joins of [buildAliveProxyQuery] for one row of latest evidence. *)
Definition current_evidence (workspaceID : Z) (w : WorkspaceRow) (protocol proxy : Z) (pls : LatestStatistic) : bool :=
  (ls_proxy pls =? proxy) &&
  (ls_workspace pls =? (if checker_generation w =? 0 then 0 else workspaceID)) &&
  (ls_protocol pls =? protocol) && ls_alive pls &&
  (String.eqb (ls_transport pls) "tcp" || (ls_workspace pls =? 0)) &&
  ((checker_generation w =? 0) ||
   (0 <? checker_generation w) && negb (String.eqb (ls_config_key pls) "") &&
   String.eqb (ls_config_key pls)
     (default (config_key_of w (ls_protocol pls)) (t_plans t !! (workspaceID, proxy, ls_protocol pls)))).

Definition owns (workspaceID proxy : Z) : bool :=
  existsb (fun a => (a_proxy a =? proxy) && (a_workspace a =? workspaceID) &&
    String.eqb (a_state a) ManagedProxyStateActive) (t_access t).

(** [buildAliveProxyQuery]: the routes a rotator may serve, by identifier. *)
Definition alive_query (workspaceID protocol : Z) (labels : list string) (uptimeType : string)
    (percentage : option spec_float) (proxy : Z) : bool :=
  let labels := sanitizeRotatorReputationLabels labels in
  owns workspaceID proxy &&
  match t_workspaces t !! workspaceID with
  | None => false
  | Some w =>
      negb (checker_dirty w) &&
      existsb (fun pls => current_evidence workspaceID w protocol proxy pls &&
        applyUptimeFilter protocol uptimeType percentage pls) (t_latest t) &&
      applyReputationFilter labels proxy
  end.

Definition candidates (workspaceID protocol : Z) (labels : list string) (uptimeType : string)
    (percentage : option spec_float) : list Z :=
  filter (fun p => alive_query workspaceID protocol labels uptimeType percentage p = true)
    (merge_sort Z.le (map_to_list (t_proxies t)).*1).

Definition countAliveProxiesForProtocol (workspaceID protocol : Z) (labels : list string) (uptimeType : string)
    (percentage : option spec_float) : Z :=
  Z.of_nat (length (candidates workspaceID protocol labels uptimeType percentage)).

(** [ORDER BY proxies.id LIMIT 1], after the cursor if there is one. *)
Definition fetchAliveProxyCandidate (ids : list Z) (cursor : option Z) : option Z :=
  head (match cursor with Some c => filter (fun p => c < p) ids | None => ids end).

Definition nextAliveProxyForProtocol (ids : list Z) (lastProxyID : option Z) : res rotator_error Z :=
  let first := match fetchAliveProxyCandidate ids None with Some p => Ok p | None => Err NoAliveProxies end in
  match lastProxyID with
  | Some c => match fetchAliveProxyCandidate ids (Some c) with Some p => Ok p | None => first end
  | None => first
  end.

(** The credentials the workspace keeps for a route. *)
Definition hydrateProxyCredential (workspaceID : Z) (p : Proxy) : Proxy :=
  match List.find (fun a => (a_proxy a =? ID p) && (a_workspace a =? workspaceID)) (t_access t) with
  | Some a => MkProxy (ID p) (IP p) (IPAddress p) (Port p) (a_username a) (a_password a) (Workspaces p)
                (QueueLease p) (Hash p)
  | None => p
  end.
End Queries.

(** [dto.RotatingProxyNext] *)
Record RotatingProxyNext := MkNext {
  n_proxy : Z; n_ip : string; n_port : Z; n_username : string; n_password : string;
  n_has_auth : bool; n_protocol : string
}.

Definition with_last (p : Z) (r : RotatorRow) : RotatorRow :=
  MkRotatorRow (r_workspace r) (r_name r) (r_instance r) (r_instance_name r) (r_instance_region r)
    (r_protocol r) (r_protocol_name r) (r_listen_protocol r) (r_listen_protocol_name r)
    (r_transport r) (r_listen_transport r) (r_listen_port r) (r_auth_required r) (r_auth_username r) (r_auth_password r) (r_labels r) (r_uptime_type r) (r_uptime r) (Some p).

Definition with_rotators (m : gmap Z RotatorRow) (t : Tables) : Tables :=
  MkTables (t_proxies t) (t_access t) (t_workspaces t) (t_latest t) (t_plans t) (t_reputations t) (t_statistics t) m.

Definition rotator_candidates (t : Tables) (r : RotatorRow) : list Z :=
  let '(typ, p) := normalizeRotatorUptimeFilter (r_uptime_type r) (r_uptime r) in
  candidates t (r_workspace r) (r_protocol r) (sanitizeRotatorReputationLabels (r_labels r)) typ p.

(** [GetNextRotatingProxy]; an error leaves the tables as they are. *)
Definition GetNextRotatingProxy (workspaceID rotatingProxyID : Z) (t : Tables)
    : res rotator_error RotatingProxyNext * Tables :=
  match t_rotators t !! rotatingProxyID with
  | None => (Err RotatingProxyNotFound, t)
  | Some entity =>
      if negb (r_workspace entity =? workspaceID) then (Err RotatingProxyNotFound, t)
      else
        match nextAliveProxyForProtocol (rotator_candidates t entity) (r_last_proxy entity) with
        | Err e => (Err e, t)
        | Ok id =>
            let selected := hydrateProxyCredential t workspaceID (default emptyProxy (t_proxies t !! id)) in
            (Ok (MkNext id (GetIp selected) (Port selected) (Username selected) (Password selected)
                   (HasAuth selected) (r_protocol_name entity)),
             with_rotators (<[rotatingProxyID := with_last id entity]> (t_rotators t)) t)
        end
  end.
(** Calls in a row, as the row lock orders them. *)
Fixpoint rotate (n : nat) (workspaceID rotatingProxyID : Z) (t : Tables)
    : list (res rotator_error RotatingProxyNext) * Tables :=
  match n with
  | O => ([], t)
  | S n' =>
      let '(o, t1) := GetNextRotatingProxy workspaceID rotatingProxyID t in
      let '(os, t2) := rotate n' workspaceID rotatingProxyID t1 in
      (o :: os, t2)
  end.

(** ** Creation *)

Definition TransportTCP : string := "tcp".
Definition TransportQUIC : string := "quic".
Definition TransportHTTP3 : string := "http3".

Definition NormalizeTransportProtocol (value : string) : string :=
  let value := to_lower (trim_space value) in
  if bool_decide (value ∈ [TransportTCP; TransportQUIC; TransportHTTP3]) then value else TransportTCP.

Definition defaultRotatingProxyPortStart : Z := 20000.
Definition defaultRotatingProxyPortEnd : Z := 20100.

(** [loadRotatingProxyPortRange] on the two settings as [GetEnvInt] reads them. *)
Definition loadRotatingProxyPortRange (envStart envEnd : option Z) : Z * Z :=
  let start := default defaultRotatingProxyPortStart envStart in
  let stop := default defaultRotatingProxyPortEnd envEnd in
  let start := if start <=? 0 then defaultRotatingProxyPortStart else start in
  let stop := if stop <=? 0 then defaultRotatingProxyPortEnd else stop in
  if stop <? start then (stop, start) else (start, stop).

(** What the process and the database fix: the identity of the instance, the
    port range, the shuffle of this call and the protocol table. *)
Record CreateEnv := MkCreateEnv {
  ce_instance_id : string;
  ce_ports : Z * Z;
  ce_shuffle : list Z -> list Z;
  ce_protocols : list (Z * string)
}.

Definition CheckerProtocols : list string := ["http"; "https"; "socks4"; "socks5"].

Definition fetchProtocolByName (e : CreateEnv) (name : string) : option (Z * string) :=
  List.find (fun '(_, n) => String.eqb (to_lower n) (to_lower name)) (ce_protocols e).

(** The integers from [start] to [start + n - 1]. *)
Fixpoint ports_from (start : Z) (n : nat) : list Z :=
  match n with O => [] | S n' => start :: ports_from (start + 1) n' end.

Definition port_taken (instanceID : string) (port : Z) (rows : gmap Z RotatorRow) : bool :=
  existsb (fun '(_, r) => String.eqb (r_instance r) instanceID && (r_listen_port r =? port)) (map_to_list rows).

Definition allocateListenPort (e : CreateEnv) (instanceID : string) (rows : gmap Z RotatorRow) : res rotator_error Z :=
  let '(start, stop) := ce_ports e in
  if (start <=? 0) || (stop <=? 0) then Err PortExhausted
  else
    let count := stop - start + 1 in
    if count <=? 0 then Err PortExhausted
    else
      match List.find (fun port => negb (port_taken instanceID port rows))
              (ce_shuffle e (ports_from start (Z.to_nat count))) with
      | Some port => Ok (wrap_u16 port)
      | None => Err PortExhausted
      end.

(** [dto.RotatingProxyCreateRequest] *)
Record CreateRequest := MkCreateRequest {
  q_name : string; q_instance_id : string; q_instance_name : string; q_instance_region : string;
  q_protocol : string; q_listen_protocol : string; q_transport : string; q_listen_transport : string;
  q_uptime_type : string; q_uptime : option spec_float;
  q_auth_required : bool; q_auth_username : string; q_auth_password : string;
  q_labels : list string
}.

(** [dto.RotatingProxy], without the timestamps *)
Record RotatingProxyView := MkView {
  v_id : Z; v_row : RotatorRow; v_alive : Z; v_auth_password : string
}.

Definition rotatingProxyNameMaxLength : nat := 120.
Definition defaultInstanceRegion : string := "Unknown".

Definition or_default (d s : string) : string := if String.eqb s "" then d else s.

(** The checks of [CreateRotatingProxy] before its transaction: the protocol
    names and the uptime filter. *)
Definition create_checks (q : CreateRequest)
    : res rotator_error (string * string * (string * option spec_float)) :=
  let name := trim_space (q_name q) in
  if String.eqb name "" then Err NameRequired
  else if (rotatingProxyNameMaxLength <? String.length name)%nat then Err NameTooLong
  else
    let protocolName := to_lower (trim_space (q_protocol q)) in
    if String.eqb protocolName "" then Err ProtocolMissing
    else
      let listenProtocolName := or_default protocolName (to_lower (trim_space (q_listen_protocol q))) in
      if negb (bool_decide (protocolName ∈ CheckerProtocols)) || negb (bool_decide (listenProtocolName ∈ CheckerProtocols))
      then Err ProtocolUnsupported
      else if q_auth_required q && String.eqb (trim_space (q_auth_username q)) "" then Err AuthUsernameNeeded
      else if q_auth_required q && String.eqb (trim_space (q_auth_password q)) "" then Err AuthPasswordNeeded
      else
        match validateRotatorUptimeFilter (q_uptime_type q) (q_uptime q) with
        | Err e => Err e
        | Ok filter => Ok (protocolName, listenProtocolName, filter)
        end.

(** [CreateRotatingProxy]: the port is chosen from the rows the transaction
    sees, [committed] are the rows the unique index on instance and port is
    checked against when the row is inserted, [id] the identifier it gets.
    [BeforeSave] drops the password of a rotator without authentication. *)
Definition CreateRotatingProxy (e : CreateEnv) (committed : gmap Z RotatorRow) (id workspaceID : Z)
    (q : CreateRequest) (t : Tables) : res rotator_error RotatingProxyView * Tables :=
  match create_checks q with
  | Err er => (Err er, t)
  | Ok (protocolName, listenProtocolName, (uptimeType, uptime)) =>
      let transport := NormalizeTransportProtocol (q_transport q) in
      let listenTransport :=
        if String.eqb (trim_space (q_listen_transport q)) "" then transport
        else NormalizeTransportProtocol (q_listen_transport q) in
      let instanceID := or_default (ce_instance_id e) (trim_space (q_instance_id q)) in
      let instanceName := or_default instanceID (trim_space (q_instance_name q)) in
      let instanceRegion := or_default defaultInstanceRegion (trim_space (q_instance_region q)) in
      match t_workspaces t !! workspaceID, fetchProtocolByName e protocolName, fetchProtocolByName e listenProtocolName with
      | None, _, _ => (Err WorkspaceNotFound, t)
      | _, None, _ | _, _, None => (Err ProtocolUnsupported, t)
      | Some _, Some (pid, pname), Some (lid, lname) =>
          let filters := sanitizeRotatorReputationLabels (q_labels q) in
          match allocateListenPort e instanceID (t_rotators t) with
          | Err er => (Err er, t)
          | Ok listenPort =>
              let entity := MkRotatorRow workspaceID (trim_space (q_name q)) instanceID instanceName instanceRegion
                pid pname lid lname transport listenTransport listenPort
                (q_auth_required q) (trim_space (q_auth_username q))
                (if q_auth_required q then q_auth_password q else "") filters uptimeType uptime None in
              if port_taken instanceID listenPort committed then (Err NameConflict, t)
              else
                let aliveCount := countAliveProxiesForProtocol t workspaceID pid filters uptimeType uptime in
                (Ok (MkView id entity aliveCount (trim_space (q_auth_password q))),
                 with_rotators (<[id := entity]> (t_rotators t)) t)
          end
      end
  end.

(** ** The rotation *)

Lemma alive_query_rotators t m ws p l u f id :
  alive_query (with_rotators m t) ws p l u f id = alive_query t ws p l u f id.
Proof. done. Qed.

Lemma rotator_candidates_stable t m r id :
  rotator_candidates (with_rotators m t) (with_last id r) = rotator_candidates t r.
Proof. done. Qed.

Lemma elem_of_candidates t ws p l u f id :
  id ∈ candidates t ws p l u f <-> alive_query t ws p l u f id = true /\ is_Some (t_proxies t !! id).
Proof.
  unfold candidates. rewrite list_elem_of_filter, (merge_sort_Permutation Z.le), list_elem_of_fmap.
  split; intros [Ha Hi]; (split; [done|]).
  - destruct Hi as ([k v] & -> & Hi). apply elem_of_map_to_list in Hi. by exists v.
  - destruct Hi as [v Hv]. exists (id, v). split; [done|]. by apply elem_of_map_to_list.
Qed.

Lemma candidates_increasing t ws p l u f : StronglySorted Z.lt (candidates t ws p l u f).
Proof.
  unfold candidates. apply StronglySorted_filter.
  assert (NoDup (merge_sort Z.le (map_to_list (t_proxies t)).*1)) as Hn.
  { rewrite (merge_sort_Permutation Z.le). apply NoDup_fst_map_to_list. }
  assert (StronglySorted Z.le (merge_sort Z.le (map_to_list (t_proxies t)).*1)) as Hs
    by (apply StronglySorted_merge_sort; apply _).
  revert Hn Hs. generalize (merge_sort Z.le (map_to_list (t_proxies t)).*1) as ids.
  induction ids as [|x ids IH]; intros Hn Hs; [constructor|].
  apply NoDup_cons in Hn as [Hx Hn]. inversion Hs as [|? ? Hs' Hf]; subst.
  constructor; [by apply IH|]. rewrite Forall_forall in Hf |- *. intros y Hy.
  specialize (Hf y Hy). assert (x <> y) by (intros ->; done). lia.
Qed.

(** The order in which a cursor visits the candidates [ids]. *)
Definition rotation_order (ids : list Z) (cursor : option Z) : list Z :=
  match cursor with
  | Some c => filter (fun p => c < p) ids ++ filter (fun p => p <= c) ids
  | None => ids
  end.

Lemma rotation_order_perm ids cursor : rotation_order ids cursor ≡ₚ ids.
Proof.
  destruct cursor as [c|]; [|done]. simpl.
  induction ids as [|x ids IH]; [done|]. rewrite !filter_cons.
  repeat case_decide; try lia; [by rewrite <- app_comm_cons, IH|].
  by rewrite <- Permutation_middle, IH.
Qed.

Lemma filter_none {A : Type} (P : A -> Prop) `{forall x, Decision (P x)} (l : list A) :
  (forall x, x ∈ l -> ~ P x) -> filter P l = [].
Proof.
  induction l as [|x l IH]; intros Hl; [done|].
  rewrite filter_cons_False by (apply Hl; left). apply IH. intros y Hy. apply Hl. by right.
Qed.

Lemma filter_around x l1 l2 :
  StronglySorted Z.lt (l1 ++ x :: l2) ->
  filter (fun p => x < p) (l1 ++ x :: l2) = l2 /\ filter (fun p => p <= x) (l1 ++ x :: l2) = l1 ++ [x].
Proof.
  intros Hs. apply StronglySorted_app in Hs as (H1 & _ & H2). inversion H2 as [|? ? _ Hf]; subst.
  rewrite Forall_forall in Hf.
  assert (forall y, y ∈ l1 -> y < x) as Hlt by (intros y Hy; apply H1; [done|left]).
  rewrite !filter_app, !filter_cons, decide_False, decide_True by lia.
  rewrite (filter_all _ l2), (filter_none _ l1), (filter_all _ l1), (filter_none _ l2).
  all: try done; intros y Hy; try (specialize (Hlt y Hy)); try (specialize (Hf y Hy)); lia.
Qed.

Lemma filter_at_cursor c l :
  StronglySorted Z.lt l -> l = filter (fun p => p <= c) l ++ filter (fun p => c < p) l.
Proof.
  induction 1 as [|x l Hs IH Hf]; [done|]. rewrite !filter_cons. repeat case_decide; try lia.
  - simpl. by f_equal.
  - rewrite Forall_forall in Hf.
    rewrite (filter_none _ l), (filter_all _ l); [done| |]; intros y Hy; specialize (Hf y Hy); lia.
Qed.

(** Serving the head of the order moves it to the end. *)
Lemma rotation_order_step ids cursor x rest :
  StronglySorted Z.lt ids -> rotation_order ids cursor = x :: rest ->
  rotation_order ids (Some x) = rest ++ [x].
Proof.
  intros Hs Ho. destruct cursor as [c|]; simpl in Ho |- *.
  - pose proof (filter_at_cursor c ids Hs) as Hids.
    destruct (filter (fun p => c < p) ids) as [|y above] eqn:E; simpl in Ho.
    + rewrite app_nil_r in Hids. rewrite <- Hids in Ho. subst ids.
      destruct (filter_around x [] rest Hs) as [Ha Hb]. simpl in Ha, Hb. by rewrite Ha, Hb.
    + injection Ho as -> Hr. remember (filter (fun p => p <= c) ids) as below eqn:Eb.
      rewrite Hids in Hs |- *. destruct (filter_around x below above Hs) as [-> ->].
      rewrite <- Hr. by rewrite <- app_assoc.
  - subst ids. destruct (filter_around x [] rest Hs) as [Ha Hb]. simpl in Ha, Hb. by rewrite Ha, Hb.
Qed.

Lemma next_is_head ids cursor :
  StronglySorted Z.lt ids ->
  nextAliveProxyForProtocol ids cursor =
    match rotation_order ids cursor with x :: _ => Ok x | [] => Err NoAliveProxies end.
Proof.
  intros Hs. unfold nextAliveProxyForProtocol, fetchAliveProxyCandidate.
  destruct cursor as [c|]; simpl; [|by destruct ids].
  destruct (filter (fun p => c < p) ids) as [|y above] eqn:E; simpl; [|done].
  pose proof (filter_at_cursor c ids Hs) as Hids. rewrite E, app_nil_r in Hids. rewrite <- Hids. by destruct ids.
Qed.

(** One call, for a rotator of the workspace. *)
Lemma next_spec t ws id r :
  t_rotators t !! id = Some r -> r_workspace r = ws ->
  match rotation_order (rotator_candidates t r) (r_last_proxy r) with
  | [] => GetNextRotatingProxy ws id t = (Err NoAliveProxies, t)
  | x :: _ => exists o, n_proxy o = x /\
      GetNextRotatingProxy ws id t = (Ok o, with_rotators (<[id := with_last x r]> (t_rotators t)) t)
  end.
Proof.
  intros Hr <-. unfold GetNextRotatingProxy. rewrite Hr, Z.eqb_refl. simpl negb. cbv iota.
  rewrite next_is_head.
  - destruct (rotation_order (rotator_candidates t r) (r_last_proxy r)); [done|]. eexists. split; [|reflexivity]. done.
  - unfold rotator_candidates. destruct (normalizeRotatorUptimeFilter _ _). apply candidates_increasing.
Qed.
(** What calls leave alone: every table but the rotators, and there every row but one. *)
Definition only_rotator (id : Z) (t t' : Tables) : Prop :=
  exists m, t' = with_rotators m t /\ delete id m = delete id (t_rotators t).

Lemma only_rotator_insert id row t : only_rotator id t (with_rotators (<[id := row]> (t_rotators t)) t).
Proof. eexists. split; [reflexivity|]. by rewrite delete_insert_eq. Qed.

Lemma only_rotator_trans id t1 t2 t3 : only_rotator id t1 t2 -> only_rotator id t2 t3 -> only_rotator id t1 t3.
Proof. intros (m & -> & Hm) (m' & -> & Hm'). exists m'. split; [done|]. by rewrite Hm'. Qed.

Lemma lookup_rotation {A : Type} (x : A) (rest : list A) (i : nat) :
  (rest ++ [x]) !! (i mod S (length rest))%nat = (x :: rest) !! (S i mod S (length rest))%nat.
Proof.
  set (n := length rest).
  assert (i mod S n < S n)%nat as Hi by (apply Nat.mod_upper_bound; lia).
  assert (S i mod S n = S (i mod S n) mod S n)%nat as ->
    by (symmetry; apply (Nat.Div0.add_mod_idemp_r 1 i (S n))).
  destruct (decide (i mod S n = n)%nat) as [->|Hne].
  - rewrite Nat.Div0.mod_same. rewrite lookup_app_r by done. by rewrite Nat.sub_diag.
  - rewrite (Nat.mod_small (S (i mod S n))) by lia. simpl.
    assert (i mod S n < n)%nat as Hlt by lia. by rewrite lookup_app_l.
Qed.

#[local] Arguments Nat.modulo : simpl never.

(** Rotation is fair: while the evidence does not change, the [i]-th of any
    number of calls in a row serves the [i]-th candidate (modulo their number)
    counted from the cursor upwards and wrapping around, so each run of as many
    calls as there are candidates serves every one exactly once.  The calls
    change the cursor of this rotator and nothing else. *)
Theorem rotation_round_robin t ws id r n :
  t_rotators t !! id = Some r -> r_workspace r = ws -> rotator_candidates t r <> [] ->
  let order := rotation_order (rotator_candidates t r) (r_last_proxy r) in
  order ≡ₚ rotator_candidates t r /\ NoDup order /\
  length (rotate n ws id t).1 = n /\
  (forall i, (i < n)%nat -> exists o,
    (rotate n ws id t).1 !! i = Some (Ok o) /\ order !! (i mod length order)%nat = Some (n_proxy o)) /\
  only_rotator id t (rotate n ws id t).2.
Proof.
  intros Hr Hws Hne order.
  assert (order ≡ₚ rotator_candidates t r) as Hp by apply rotation_order_perm.
  assert (StronglySorted Z.lt (rotator_candidates t r)) as Hs.
  { unfold rotator_candidates. destruct (normalizeRotatorUptimeFilter _ _). apply candidates_increasing. }
  split; [done|]. split.
  { rewrite Hp. clear -Hs. induction Hs as [|x l Hs IH Hf]; constructor; [|done].
    rewrite Forall_forall in Hf. intros Hx. specialize (Hf x Hx). lia. }
  subst order. clear Hp. revert t r Hr Hws Hne Hs. induction n as [|n IH]; intros t r Hr Hws Hne Hs; simpl.
  { split; [done|]. split; [lia|]. exists (t_rotators t). split; [by destruct t|done]. }
  pose proof (next_spec t ws id r Hr Hws) as Hnext.
  pose proof (rotation_order_perm (rotator_candidates t r) (r_last_proxy r)) as Hp.
  destruct (rotation_order (rotator_candidates t r) (r_last_proxy r)) as [|x rest] eqn:Ho.
  { by apply Permutation_nil_l in Hp. }
  destruct Hnext as (o & Hx & ->).
  specialize (IH (with_rotators (<[id := with_last x r]> (t_rotators t)) t) (with_last x r)).
  rewrite rotator_candidates_stable in IH.
  destruct IH as (Hl & Hi & Hk); [by apply lookup_insert_eq|done|done|done|].
  simpl r_last_proxy in Hi. rewrite (rotation_order_step _ _ _ _ Hs Ho) in Hi.
  destruct (rotate n ws id _) as [os t2]. simpl in *. split; [by f_equal|]. split.
  - intros [|i] Hlt; [exists o; split; [done|]; by rewrite Nat.Div0.mod_0_l, Hx|].
    destruct (Hi i) as (o' & Ho' & Hord); [lia|]. exists o'. split; [done|].
    rewrite length_app, Nat.add_1_r in Hord. by rewrite <- lookup_rotation.
  - eapply only_rotator_trans; [apply only_rotator_insert|exact Hk].
Qed.

Lemma sanitize_idem labels :
  sanitizeRotatorReputationLabels (sanitizeRotatorReputationLabels labels) = sanitizeRotatorReputationLabels labels.
Proof.
  unfold sanitizeRotatorReputationLabels. generalize (map (fun raw => to_lower (trim_space raw)) labels) as seen.
  intros seen. unfold reputationLabelOrder. rewrite !(filter_cons (fun label => label ∈ seen)), filter_nil.
  repeat case_decide; vm_compute; done.
Qed.

Lemma current_evidence_inv ws w proto proxy pls t :
  current_evidence t ws w proto proxy pls = true ->
  ls_proxy pls = proxy /\ ls_protocol pls = proto /\ ls_alive pls = true /\
  (0 < checker_generation w -> ls_workspace pls = ws /\ ls_config_key pls <> "" /\
    ls_config_key pls = default (config_key_of w proto) (t_plans t !! (ws, proxy, proto))).
Proof.
  unfold current_evidence. intros H. breflect. subst proxy proto.
  repeat (split; [done|]). intros Hg.
  destruct (Z.eqb_spec (checker_generation w) 0) as [Hz|Hz]; [lia|].
  match goal with H : false || _ = true |- _ => simpl in H end. breflect.
  split; [done|]. split; [|by apply String.eqb_eq].
  by apply String.eqb_neq.
Qed.

Lemma owns_inv t ws proxy :
  owns t ws proxy = true ->
  exists a, a ∈ t_access t /\ a_workspace a = ws /\ a_proxy a = proxy /\ a_state a = ManagedProxyStateActive.
Proof.
  unfold owns. intros (a & Ha & H)%existsb_exists. apply list_elem_of_In in Ha. breflect.
  exists a. repeat split; try done. by apply String.eqb_eq.
Qed.

Lemma hydrate_port t ws p : Port (hydrateProxyCredential t ws p) = Port p.
Proof. unfold hydrateProxyCredential. by destruct (List.find _ _). Qed.

Lemma hydrate_unique t ws p a :
  a ∈ t_access t -> a_workspace a = ws -> a_proxy a = ID p ->
  (forall b, b ∈ t_access t -> a_workspace b = ws -> a_proxy b = ID p -> b = a) ->
  Username (hydrateProxyCredential t ws p) = a_username a /\ Password (hydrateProxyCredential t ws p) = a_password a.
Proof.
  intros Ha Hw Hp Hu. unfold hydrateProxyCredential. destruct (List.find _ _) as [b|] eqn:E.
  - apply List.find_some in E as [Hb E]. breflect. apply list_elem_of_In in Hb. by rewrite (Hu b).
  - exfalso. apply list_elem_of_In in Ha. pose proof (List.find_none _ _ E a Ha) as Hf. simpl in Hf.
    rewrite Hp, Hw, !Z.eqb_refl in Hf. done.
Qed.

(** What is served qualifies: a served route is stored, actively owned by
    the rotator's workspace, has a live verdict for the rotator's protocol under
    the workspace's current check configuration, and passes the label and
    uptime filters; the credentials are the workspace's own.  "No alive
    proxies" means that no stored route qualifies. *)
Theorem served_route_qualifies t ws id r :
  t_rotators t !! id = Some r -> r_workspace r = ws ->
  let labels := sanitizeRotatorReputationLabels (r_labels r) in
  let '(typ, pct) := normalizeRotatorUptimeFilter (r_uptime_type r) (r_uptime r) in
  match GetNextRotatingProxy ws id t with
  | (Ok o, t') =>
      only_rotator id t t' /\
      (exists a w pls,
        a ∈ t_access t /\ a_workspace a = ws /\ a_proxy a = n_proxy o /\ a_state a = ManagedProxyStateActive /\
        t_workspaces t !! ws = Some w /\ checker_dirty w = false /\
        pls ∈ t_latest t /\ ls_proxy pls = n_proxy o /\ ls_protocol pls = r_protocol r /\ ls_alive pls = true /\
        (0 < checker_generation w -> ls_workspace pls = ws /\ ls_config_key pls <> "" /\
          ls_config_key pls = default (config_key_of w (r_protocol r)) (t_plans t !! (ws, n_proxy o, r_protocol r))) /\
        applyUptimeFilter t (r_protocol r) typ pct pls = true) /\
      applyReputationFilter t labels (n_proxy o) = true /\
      (exists p, t_proxies t !! n_proxy o = Some p /\ n_port o = Port p /\
        (ID p = n_proxy o -> forall a, a ∈ t_access t -> a_workspace a = ws -> a_proxy a = n_proxy o ->
          (forall b, b ∈ t_access t -> a_workspace b = ws -> a_proxy b = n_proxy o -> b = a) ->
          n_username o = a_username a /\ n_password o = a_password a))
  | (Err e, t') =>
      e = NoAliveProxies /\ t' = t /\
      forall p, is_Some (t_proxies t !! p) -> alive_query t ws (r_protocol r) labels typ pct p = false
  end.
Proof.
  intros Hr Hws labels. destruct (normalizeRotatorUptimeFilter (r_uptime_type r) (r_uptime r)) as [typ pct] eqn:Hn.
  assert (rotator_candidates t r = candidates t ws (r_protocol r) labels typ pct) as Hc
    by (unfold rotator_candidates; by rewrite Hn, Hws).
  pose proof (next_spec t ws id r Hr Hws) as Hnext. rewrite Hc in Hnext.
  pose proof (rotation_order_perm (candidates t ws (r_protocol r) labels typ pct) (r_last_proxy r)) as Hp.
  destruct (rotation_order _ _) as [|x rest] eqn:Ho.
  - rewrite Hnext. repeat (split; [done|]). intros p Hs.
    destruct (alive_query t ws (r_protocol r) labels typ pct p) eqn:E; [|done].
    assert (p ∈ candidates t ws (r_protocol r) labels typ pct) as Hin by by apply elem_of_candidates.
    rewrite <- Hp in Hin. inversion Hin.
  - assert (x ∈ candidates t ws (r_protocol r) labels typ pct) as Hin by (rewrite <- Hp; left).
    apply elem_of_candidates in Hin as [Hq [p Hx]].
    destruct Hnext as (o & <- & Hget). pose proof Hget as Hout. rewrite Hget.
    split; [apply only_rotator_insert|]. unfold alive_query in Hq. apply andb_true_iff in Hq as [Hown Hq].
    destruct (t_workspaces t !! ws) as [w|] eqn:Hw; [|done]. breflect.
    match goal with H : existsb _ _ = true |- _ => apply existsb_exists in H as (pls & Hpls & Hev) end.
    apply list_elem_of_In in Hpls. breflect.
    destruct (owns_inv _ _ _ Hown) as (a & Ha & Haw & Hap & Has).
    match goal with H : current_evidence _ _ _ _ _ _ = true |- _ =>
      destruct (current_evidence_inv _ _ _ _ _ _ H) as (He1 & He2 & He3 & He4) end.
    split; [by exists a, w, pls|]. split.
    { subst labels. rewrite <- sanitize_idem. done. }
    exists p. split; [done|]. unfold GetNextRotatingProxy in Hout. rewrite Hr, Hws, Z.eqb_refl in Hout.
    simpl in Hout. rewrite Hc in Hout. destruct (nextAliveProxyForProtocol _ _) as [y|]; [|done].
    assert (y = n_proxy o) as Hy by (inversion Hout; subst o; reflexivity). subst y.
    inversion Hout as [Ho']. rewrite Hx. simpl. split; [apply hydrate_port|].
    intros Hid b Hb Hbw Hbp Hu. apply hydrate_unique; try done; by rewrite Hid.
Qed.
(** ** What creation does *)

(** The unique index on instance and port. *)
Definition ports_unique (rows : gmap Z RotatorRow) : Prop :=
  forall i j a b, rows !! i = Some a -> rows !! j = Some b ->
    r_instance a = r_instance b -> r_listen_port a = r_listen_port b -> i = j.

Lemma port_taken_true instance port rows :
  port_taken instance port rows = true <->
  exists i r, rows !! i = Some r /\ r_instance r = instance /\ r_listen_port r = port.
Proof.
  unfold port_taken. rewrite existsb_exists. split.
  - intros ([i r] & Hin & H). apply list_elem_of_In, elem_of_map_to_list in Hin. breflect.
    exists i, r. repeat split; try done. by apply String.eqb_eq.
  - intros (i & r & Hr & <- & <-). exists (i, r). split; [by apply list_elem_of_In, elem_of_map_to_list|].
    by rewrite String.eqb_refl, Z.eqb_refl.
Qed.

Lemma port_taken_false instance port rows i r :
  port_taken instance port rows = false -> rows !! i = Some r -> r_instance r = instance -> r_listen_port r <> port.
Proof.
  intros Hf Hr Hi Hp. enough (port_taken instance port rows = true) by congruence.
  apply port_taken_true. by exists i, r.
Qed.

Lemma ports_unique_insert rows id r :
  ports_unique rows -> port_taken (r_instance r) (r_listen_port r) rows = false ->
  ports_unique (<[id := r]> rows).
Proof.
  intros Hu Hf i j a b Ha Hb Hi Hp.
  apply lookup_insert_Some in Ha as [[<- <-]|[Hia Ha]]; apply lookup_insert_Some in Hb as [[<- <-]|[Hjb Hb]];
    [done| | |by eapply Hu].
  - by destruct (port_taken_false _ _ _ _ _ Hf Hb).
  - by destruct (port_taken_false _ _ _ _ _ Hf Ha).
Qed.

Lemma elem_of_ports_from start n p : p ∈ ports_from start n <-> start <= p < start + Z.of_nat n.
Proof.
  revert start. induction n as [|n IH]; intros start; simpl.
  - split; [intros H; inversion H|lia].
  - rewrite elem_of_cons, IH. lia.
Qed.

Lemma allocate_cases e instance rows start stop :
  ce_ports e = (start, stop) -> 0 < start <= stop -> (forall l, ce_shuffle e l ≡ₚ l) ->
  match allocateListenPort e instance rows with
  | Ok p => exists port, p = wrap_u16 port /\ start <= port <= stop /\ port_taken instance port rows = false
  | Err er => er = PortExhausted /\ forall port, start <= port <= stop -> port_taken instance port rows = true
  end.
Proof.
  intros Hports Hrange Hshuffle. unfold allocateListenPort. rewrite Hports.
  destruct ((start <=? 0) || (stop <=? 0)) eqn:E1; [lia|].
  destruct (stop - start + 1 <=? 0) eqn:E2; [lia|].
  destruct (List.find _ _) as [port|] eqn:Ef.
  - apply List.find_some in Ef as [Hin Hf]. apply list_elem_of_In in Hin.
    rewrite Hshuffle, elem_of_ports_from in Hin. breflect. exists port. split; [done|]. split; [lia|done].
  - split; [done|]. intros port Hp.
    assert (port ∈ ce_shuffle e (ports_from start (Z.to_nat (stop - start + 1)))) as Hin
      by (rewrite Hshuffle, elem_of_ports_from; lia).
    apply list_elem_of_In in Hin. pose proof (List.find_none _ _ Ef port Hin) as Hn. simpl in Hn. by breflect.
Qed.

Lemma validate_error rawType raw er :
  validateRotatorUptimeFilter rawType raw = Err er ->
  er ∈ [UptimeTypeMissing; UptimeValueMissing; UptimeTypeInvalid; UptimeOutOfRange].
Proof. unfold validateRotatorUptimeFilter. intros H. repeat split_if_in H; inversion H; set_solver. Qed.

Lemma create_checks_spec q :
  match create_checks q with
  | Ok _ =>
      (0 < String.length (trim_space (q_name q)) <= 120)%nat /\
      (q_auth_required q = true -> trim_space (q_auth_username q) <> "" /\ trim_space (q_auth_password q) <> "")
  | Err er => er <> NameConflict /\ er <> PortExhausted
  end.
Proof.
  unfold create_checks.
  destruct (String.eqb_spec (trim_space (q_name q)) "") as [_|Hn]; [done|].
  destruct (rotatingProxyNameMaxLength <? String.length (trim_space (q_name q)))%nat eqn:El; [done|].
  destruct (String.eqb _ ""); [done|]. destruct (_ || _); [done|].
  destruct (q_auth_required q && String.eqb (trim_space (q_auth_username q)) "") eqn:Eu; [done|].
  destruct (q_auth_required q && String.eqb (trim_space (q_auth_password q)) "") eqn:Ep; [done|].
  destruct (validateRotatorUptimeFilter _ _) as [f|er] eqn:Ev.
  - unfold rotatingProxyNameMaxLength in El. breflect.
    split; [destruct (trim_space (q_name q)); simpl in *; [done|lia]|].
    intros Ha. rewrite Ha in Eu, Ep. simpl in Eu, Ep. by split; apply String.eqb_neq.
  - apply validate_error in Ev. split; intros ->; set_solver.
Qed.

(** Creating a rotator: it gets a port of the configured range that no
    rotator of its instance has, so the (instance, port) index stays unique; what is stored is the
    trimmed name, non-empty and within the limit, and the password as given,
    while the reply shows the password trimmed.  Ports are exhausted only when
    every port of the range is taken.  A "name already exists" is never about a
    name: it means that a concurrent creation took the port in between. *)
Theorem create_rotator_outcomes e committed id ws q t start stop :
  ce_ports e = (start, stop) -> 0 < start <= stop -> stop < 65536 -> (forall l, ce_shuffle e l ≡ₚ l) ->
  t_rotators t ⊆ committed -> committed !! id = None -> ports_unique committed ->
  match CreateRotatingProxy e committed id ws q t with
  | (Ok v, t') =>
      let r := v_row v in
      t' = with_rotators (<[id := r]> (t_rotators t)) t /\ ports_unique (<[id := r]> committed) /\
      r_workspace r = ws /\ r_name r = trim_space (q_name q) /\ (0 < String.length (r_name r) <= 120)%nat /\
      start <= r_listen_port r <= stop /\
      r_auth_required r = q_auth_required q /\
      (q_auth_required q = true -> r_auth_password r = q_auth_password q /\
        v_auth_password v = trim_space (r_auth_password r) /\ v_auth_password v <> "" /\ r_auth_username r <> "")
  | (Err er, t') =>
      t' = t /\
      (er = NameConflict -> exists i r port, committed !! i = Some r /\ r_listen_port r = port /\
        start <= port <= stop /\ port_taken (r_instance r) port (t_rotators t) = false) /\
      (er = PortExhausted -> exists instance, forall port, start <= port <= stop ->
        port_taken instance port (t_rotators t) = true)
  end.
Proof.
  intros Hports Hrange Hmax Hshuffle Hsub Hfresh Hu. unfold CreateRotatingProxy.
  destruct (create_checks q) as [[[protocolName listenName] [ut up]]|er] eqn:Hc.
  2:{ pose proof (create_checks_spec q) as Hq. rewrite Hc in Hq. naive_solver. }
  pose proof (create_checks_spec q) as Hq. rewrite Hc in Hq. destruct Hq as [Hname Hauth].
  destruct (t_workspaces t !! ws) as [w|]; [|done].
  destruct (fetchProtocolByName e protocolName) as [[pid pname]|]; [|done].
  destruct (fetchProtocolByName e listenName) as [[lid lname]|]; [|done].
  set (instance := or_default _ _).
  pose proof (allocate_cases e instance (t_rotators t) start stop Hports Hrange Hshuffle) as Ha.
  destruct (allocateListenPort e instance (t_rotators t)) as [p|er].
  2:{ destruct Ha as [-> Ha]. split; [done|]. split; [done|]. intros _. by exists instance. }
  destruct Ha as (port & -> & Hp & Hf). rewrite (wrap_unsigned_id 16 port) by lia.
  destruct (port_taken instance port committed) eqn:Ht.
  - split; [done|]. split; [|done]. intros _. apply port_taken_true in Ht as (i & r & Hr & <- & Hrp).
    by exists i, r, port.
  - simpl. split; [done|]. split; [by apply ports_unique_insert|]. repeat (split; [done|]).
    intros Hreq. rewrite Hreq. destruct (Hauth Hreq). done.
Qed.
(** ** A workspace with three live routes *)

Definition ex_route (id : Z) : Proxy := MkProxy id "1.2.3.4" None 8080 "" "" [7] None "".
Definition ex_row : RotatorRow :=
  MkRotatorRow 7 "main" "node-1" "node-1" "Unknown" 1 "http" 1 "http" "tcp" "tcp" 20000
    false "" "" [] "" None (Some 2).
Definition ex_tables : Tables :=
  MkTables (<[1 := ex_route 1]> (<[2 := ex_route 2]> (<[5 := ex_route 5]> ∅)))
    [MkAccess 7 1 "active" "u" "p"; MkAccess 7 2 "active" "" ""; MkAccess 7 5 "active" "" ""]
    {[ 7 := MkWorkspace false 0 "" "" "" "" ]}
    [MkLatest 0 "" "tcp" 1 1 true; MkLatest 0 "" "tcp" 2 1 true; MkLatest 0 "" "tcp" 5 1 true]
    ∅ [] [] {[ 1 := ex_row ]}.

Lemma rotation_round_robin_witness :
  exists o, (rotate 4 7 1 ex_tables).1 !! 3%nat = Some (Ok o) /\ n_proxy o = 5.
Proof.
  destruct (rotation_round_robin ex_tables 7 1 ex_row 4) as (_ & _ & _ & H & _).
  - by vm_compute.
  - done.
  - by vm_compute.
  - destruct (H 3%nat) as (o & Ho & Hord); [lia|]. exists o. split; [exact Ho|].
    destruct o. vm_compute in Hord. simpl. congruence.
Defined.

Lemma served_route_qualifies_witness :
  exists o t', GetNextRotatingProxy 7 1 ex_tables = (Ok o, t') /\ n_proxy o = 5 /\ only_rotator 1 ex_tables t'.
Proof.
  pose proof (served_route_qualifies ex_tables 7 1 ex_row) as H.
  destruct (normalizeRotatorUptimeFilter _ _) as [typ pct].
  destruct (GetNextRotatingProxy 7 1 ex_tables) as [[o|er] t'] eqn:E.
  - exists o, t'. split; [done|]. split; [|apply H; [by vm_compute|done]].
    apply (f_equal (fun r => match r.1 with Ok o => n_proxy o | Err _ => 0 end)) in E. destruct o. vm_compute in E. simpl. congruence.
  - exfalso. apply (f_equal (fun r => is_ok r.1)) in E. vm_compute in E. done.
Defined.

Definition ex_create_env : CreateEnv :=
  MkCreateEnv "node-1" (20000, 20001) (fun l => l) [(1, "http"); (2, "https"); (3, "socks4"); (4, "socks5")].
Definition ex_request : CreateRequest :=
  MkCreateRequest " main " "" "" "" "HTTP" "" "" "" "" None true "user" " secret " ["good"].

(** The name is taken, the password has spaces around it: both are accepted. *)
Lemma create_rotator_outcomes_witness :
  exists v t', CreateRotatingProxy ex_create_env {[ 1 := ex_row ]} 2 7 ex_request ex_tables = (Ok v, t') /\
    r_name (v_row v) = r_name ex_row /\ r_listen_port (v_row v) = 20001 /\
    r_auth_password (v_row v) = " secret " /\ v_auth_password v = "secret" /\
    ports_unique (<[2 := v_row v]> {[ 1 := ex_row ]}).
Proof.
  pose proof (create_rotator_outcomes ex_create_env {[ 1 := ex_row ]} 2 7 ex_request ex_tables 20000 20001) as H.
  destruct (CreateRotatingProxy _ _ _ _ _ _) as [[v|er] t'] eqn:E.
  - exists v, t'. split; [done|]. destruct H as (_ & Hu & _); try done.
    + intros i j a b Ha Hb _ _. apply lookup_singleton_Some in Ha as [<- _], Hb as [<- _]. done.
    + repeat split; try done;
        apply (f_equal (fun r => match r.1 with Ok v => Some v | Err _ => None end)) in E; vm_compute in E;
        injection E as <-; reflexivity.
  - exfalso. apply (f_equal (fun r => is_ok r.1)) in E. vm_compute in E. done.
Defined.
End Rotator.
