(* ===== verification/Listeners.v ===== *)
(** * Listeners of the rotators

    [internal/rotatingproxy/connections.go] and [manager.go]: the connections a
    listener owns, its dispatch of SOCKS clients to a bounded number of
    handlers, its shutdown, and the set of running listeners that follows the
    table of rotators.  A connection is an identifier; whether it is open is
    part of the state.  The critical sections of the mutex are the steps, so a
    trace of steps is an interleaving of accepting, handlers and shutdown.
    Listening itself is a parameter of the manager: a start succeeds or not. *)

From S2P Require Import Prelude GoStrings Socks Rotator.
Open Scope Z_scope.

Module Listeners.
Import Rotator.

(** ** Tracked connections *)

Record rotatorConnections := MkConnections {
  closed : bool; limit : Z; clients : gset Z; upstreams : gset Z; active : Z
}.

Definition defaultMaxConcurrentTunnels : Z := 1024.

(** [newRotatorConnections] on the setting as [GetEnvInt] reads it. *)
Definition newRotatorConnections (env : option Z) : rotatorConnections :=
  let limit := default defaultMaxConcurrentTunnels env in
  let limit := if limit <=? 0 then defaultMaxConcurrentTunnels else limit in
  MkConnections false limit ∅ ∅ 0.

(** [add] answers whether the connection was taken; if not, it closes it. *)
Definition add (c : rotatorConnections) (conn : Z) (upstream : bool) : bool * rotatorConnections :=
  if closed c || (negb upstream && (limit c <=? Z.of_nat (size (clients c)))) then (false, c)
  else if upstream then (true, MkConnections (closed c) (limit c) (clients c) ({[conn]} ∪ upstreams c) (active c))
  else (true, MkConnections (closed c) (limit c) ({[conn]} ∪ clients c) (upstreams c) (active c + 1)).

Definition remove (c : rotatorConnections) (conn : Z) : rotatorConnections :=
  MkConnections (closed c) (limit c) (clients c ∖ {[conn]}) (upstreams c ∖ {[conn]})
    (if bool_decide (conn ∈ clients c) then active c - 1 else active c).

(** The critical section of [stop], with the connections it goes on to close. *)
Definition stop (c : rotatorConnections) : rotatorConnections * list Z :=
  (MkConnections true (limit c) (clients c) (upstreams c) (active c),
   elements (clients c) ++ elements (upstreams c)).

(** ** A listener *)

(** [arriving] connections are accepted or dialled and not yet added;
    [pending] is what a running [stop] has still to close; [running] are the
    clients whose handler runs, each holding one slot of the semaphore. *)
Record Listener := MkListener {
  tracked : rotatorConnections; opened : gset Z; arriving : gset Z;
  pending : list Z; running : gset Z; slots : nat
}.

Inductive event :=
| Accept (conn : Z)
| DispatchSocks (conn : Z)
| AddUpstream (conn : Z)
| CloseConn (conn : Z)
| DropUpstream (conn : Z)
| HandlerDone (conn : Z)
| StopBegins
| StopCloses.

Definition known (l : Listener) : gset Z := clients (tracked l) ∪ upstreams (tracked l) ∪ arriving l.

(** [dispatchSocksConnection] *)
Definition dispatchSocksConnection (conn : Z) (l : Listener) : bool * Listener :=
  let '(ok, c) := add (tracked l) conn false in
  let arriving := arriving l ∖ {[conn]} in
  if negb ok then (false, MkListener c (opened l ∖ {[conn]}) arriving (pending l) (running l) (slots l))
  else if (size (running l) <? slots l)%nat then
    (true, MkListener c (opened l) arriving (pending l) ({[conn]} ∪ running l) (slots l))
  else (false, MkListener (remove c conn) (opened l ∖ {[conn]}) arriving (pending l) (running l) (slots l)).

(** One step; [None] where the event cannot happen in that state. *)
Definition listener_step (e : event) (l : Listener) : option Listener :=
  let c := tracked l in
  match e with
  | Accept conn =>
      if bool_decide (conn ∈ opened l ∪ known l) then None
      else Some (MkListener c ({[conn]} ∪ opened l) ({[conn]} ∪ arriving l) (pending l) (running l) (slots l))
  | DispatchSocks conn =>
      if bool_decide (conn ∈ arriving l) then Some (dispatchSocksConnection conn l).2 else None
  | AddUpstream conn =>
      if bool_decide (conn ∈ arriving l) then
        let '(ok, c') := add c conn true in
        Some (MkListener c' (if ok then opened l else opened l ∖ {[conn]}) (arriving l ∖ {[conn]})
                (pending l) (running l) (slots l))
      else None
  | CloseConn conn =>
      if bool_decide (conn ∈ known l)
      then Some (MkListener c (opened l ∖ {[conn]}) (arriving l) (pending l) (running l) (slots l)) else None
  | DropUpstream conn =>
      if bool_decide (conn ∈ upstreams c)
      then Some (MkListener (remove c conn) (opened l ∖ {[conn]}) (arriving l) (pending l) (running l) (slots l))
      else None
  | HandlerDone conn =>
      if bool_decide (conn ∈ running l)
      then Some (MkListener (remove c conn) (opened l ∖ {[conn]}) (arriving l) (pending l)
                   (running l ∖ {[conn]}) (slots l))
      else None
  | StopBegins =>
      if closed c then None
      else let '(c', all) := stop c in Some (MkListener c' (opened l) (arriving l) all (running l) (slots l))
  | StopCloses =>
      match pending l with
      | conn :: rest => Some (MkListener c (opened l ∖ {[conn]}) (arriving l) rest (running l) (slots l))
      | [] => None
      end
  end.

Fixpoint listener_run (es : list event) (l : Listener) : option Listener :=
  match es with
  | [] => Some l
  | e :: es' => match listener_step e l with Some l' => listener_run es' l' | None => None end
  end.

Definition defaultSocksMaxConcurrentConnections : Z := 512.

Definition loadMaxSocksConcurrentConnections (env : option Z) : Z :=
  let limit := default defaultSocksMaxConcurrentConnections env in
  if limit <=? 0 then defaultSocksMaxConcurrentConnections else limit.

(** [newProxyServer] *)
Definition newListener (tunnels sockets : option Z) : Listener :=
  MkListener (newRotatorConnections tunnels) ∅ ∅ [] ∅ (Z.to_nat (loadMaxSocksConcurrentConnections sockets)).

(** What [wait] waits for. *)
Definition drained (l : Listener) : bool := active (tracked l) =? 0.

(** ** The invariant *)

Record listener_wf (l : Listener) : Prop := {
  wf_running : running l = clients (tracked l);
  wf_active : active (tracked l) = Z.of_nat (size (clients (tracked l)));
  wf_limit : Z.of_nat (size (clients (tracked l))) <= limit (tracked l);
  wf_slots : (size (running l) <= slots l)%nat;
  wf_opened : forall conn, conn ∈ opened l ->
    conn ∈ clients (tracked l) \/ conn ∈ upstreams (tracked l) \/ conn ∈ arriving l;
  wf_arriving : forall conn, conn ∈ arriving l -> conn ∉ clients (tracked l) /\ conn ∉ upstreams (tracked l);
  wf_kinds : forall conn, conn ∈ clients (tracked l) -> conn ∉ upstreams (tracked l);
  wf_stopped : closed (tracked l) = true -> forall conn, conn ∈ opened l ->
    conn ∈ clients (tracked l) \/ conn ∈ upstreams (tracked l) -> conn ∈ pending l
}.

(** Decide the invariant at one connection. *)
Ltac at_connection x :=
  repeat match goal with
  | G : forall c : Z, _ |- _ => pose proof (G x); clear G
  | G : _ = true -> forall c : Z, _ |- _ => pose proof (fun h => G h x); clear G
  end;
  rewrite ?elem_of_union, ?elem_of_difference, ?elem_of_singleton in *; simpl in *; tauto.

Ltac membership conn :=
  simpl;
  lazymatch goal with
  | |- forall x : Z, _ =>
      let x := fresh "x" in intros x; destruct (decide (x = conn)) as [->|?]; [at_connection conn|at_connection x]
  | |- _ = true -> forall x : Z, _ =>
      let h := fresh "h" in let x := fresh "x" in
      intros h x; destruct (decide (x = conn)) as [->|?]; [at_connection conn|at_connection x]
  end.

Lemma newListener_wf tunnels sockets : listener_wf (newListener tunnels sockets).
Proof.
  constructor; simpl; try set_solver; try done.
  - change (Z.of_nat (size (∅ : gset Z)) <= limit (newRotatorConnections tunnels)).
    rewrite size_empty. unfold newRotatorConnections, defaultMaxConcurrentTunnels. simpl.
    destruct (_ <=? 0) eqn:E; breflect; lia.
  - exact (Nat.le_0_l _).
Qed.

Lemma size_add (conn : Z) (s : gset Z) : conn ∉ s -> size ({[conn]} ∪ s) = S (size s).
Proof. intros H. rewrite size_union by set_solver. by rewrite size_singleton. Qed.

Lemma size_drop (conn : Z) (s : gset Z) : conn ∈ s -> S (size (s ∖ {[conn]})) = size s.
Proof. intros H. 
  rewrite <- (size_add conn) by set_solver. f_equal. apply set_eq. intros x. destruct (decide (x = conn)); set_solver.
Qed.

Lemma drop_absent (conn : Z) (s : gset Z) : conn ∉ s -> s ∖ {[conn]} = s.
Proof. set_solver. Qed.

Lemma size_drop_le (conn : Z) (s : gset Z) : (size (s ∖ {[conn]}) <= size s)%nat.
Proof. apply subseteq_size. set_solver. Qed.

Lemma dispatch_wf conn l :
  listener_wf l -> conn ∈ arriving l -> listener_wf (dispatchSocksConnection conn l).2.
Proof.
  intros [Hr Ha Hl Hs Ho Hd Hk Hst] Hin. unfold dispatchSocksConnection, add.
  destruct (Hd conn Hin) as [Hc Hu]. simpl negb. rewrite andb_true_l.
  destruct (closed (tracked l) || (limit (tracked l) <=? Z.of_nat (size (clients (tracked l))))) eqn:E.
  { constructor; simpl; try done; membership conn. }
  breflect. rewrite Hr in *. simpl. destruct (size (clients (tracked l)) <? slots l)%nat eqn:Es; breflect; simpl.
  - constructor; simpl; rewrite ?size_add by done; try done; try lia; [membership conn..|congruence].
  - unfold remove. simpl. rewrite (bool_decide_eq_true_2 (conn ∈ _)) by set_solver.
    replace (({[conn]} ∪ clients (tracked l)) ∖ {[conn]}) with (clients (tracked l)) by set_solver.
    rewrite (drop_absent conn (upstreams _)) by done.
    constructor; simpl; try done; try lia; [membership conn..|congruence].
Qed.
Lemma listener_step_wf e l l' : listener_wf l -> listener_step e l = Some l' -> listener_wf l'.
Proof.
  intros Hwf H. destruct e as [conn|conn|conn|conn|conn|conn| |]; simpl in H.
  - case_bool_decide as Hnew; [done|]. injection H as <-. destruct Hwf as [Hr Ha Hl Hs Ho Hd Hk Hst].
    unfold known in Hnew. rewrite !elem_of_union in Hnew.
    constructor; simpl; try done; [membership conn..].
  - case_bool_decide; [|done]. injection H as <-. by apply dispatch_wf.
  - case_bool_decide as Hin; [|done]. destruct Hwf as [Hr Ha Hl Hs Ho Hd Hk Hst]. unfold add in H.
    rewrite andb_false_l, orb_false_r in H.
    destruct (closed (tracked l)) eqn:E; injection H as <-; constructor; simpl; try done; try congruence; membership conn.
  - case_bool_decide; [|done]. injection H as <-. destruct Hwf as [Hr Ha Hl Hs Ho Hd Hk Hst].
    constructor; simpl; try done; [membership conn..].
  - case_bool_decide as Hin; [|done]. injection H as <-. destruct Hwf as [Hr Ha Hl Hs Ho Hd Hk Hst].
    assert (conn ∉ clients (tracked l)) as Hc by (intros Hc; by apply (Hk conn)).
    unfold remove. rewrite bool_decide_eq_false_2, (drop_absent conn (clients _)) by done.
    constructor; simpl; try done; [membership conn..].
  - case_bool_decide as Hin; [|done]. injection H as <-. destruct Hwf as [Hr Ha Hl Hs Ho Hd Hk Hst].
    rewrite Hr in *. pose proof (size_drop conn _ Hin) as Hsz.
    unfold remove. rewrite bool_decide_eq_true_2 by done.
    constructor; simpl; try done; try lia; [membership conn..].
  - destruct (closed (tracked l)) eqn:E; [done|]. injection H as <-. destruct Hwf as [Hr Ha Hl Hs Ho Hd Hk Hst].
    constructor; simpl; try done. intros _ conn _ Hin. rewrite elem_of_app, !elem_of_elements. done.
  - destruct (pending l) as [|conn rest] eqn:E; [done|]. injection H as <-.
    destruct Hwf as [Hr Ha Hl Hs Ho Hd Hk Hst]. rewrite E in Hst.
    constructor; simpl; try done.
    + membership conn.
    + intros Hc x Hx Hin. apply elem_of_difference in Hx as [Hx Hne].
      specialize (Hst Hc x Hx Hin). apply elem_of_cons in Hst as [->|Hst]; [set_solver|done].
Qed.

Lemma listener_run_wf es l l' : listener_wf l -> listener_run es l = Some l' -> listener_wf l'.
Proof.
  revert l. induction es as [|e es IH]; intros l Hwf H; simpl in H; [by injection H as <-|].
  destruct (listener_step e l) as [l1|] eqn:E; [|done]. by eapply IH, H; eapply listener_step_wf.
Qed.

Lemma step_limits e l l' : listener_step e l = Some l' ->
  limit (tracked l') = limit (tracked l) /\ slots l' = slots l /\
  (closed (tracked l) = true -> closed (tracked l') = true).
Proof.
  destruct e; simpl; unfold dispatchSocksConnection, add, stop; intros H; repeat split_if_in H; inversion H; subst; simpl;
    repeat split_if; simpl; done.
Qed.

(** Whatever the interleaving of accepting, handlers and shutdown: a
    listener tracks at most its limit of clients and runs at most as many
    handlers as it has slots, one per tracked client; [active] counts exactly the tracked
    clients, so [wait] returns when the last handler is done; every open
    connection is tracked or about to be added; and once a stop has closed
    what it found, no tracked connection is open, and a connection that
    arrives later is closed when it is added. *)
Theorem listener_invariant tunnels sockets es l :
  listener_run es (newListener tunnels sockets) = Some l ->
  let c := tracked l in
  Z.of_nat (size (clients c)) <= limit c /\ (size (running l) <= slots l)%nat /\
  running l = clients c /\ (drained l = true <-> running l = ∅) /\
  opened l ⊆ known l /\
  (closed c = true -> pending l = [] ->
    (forall conn, conn ∈ opened l -> conn ∈ arriving l) /\
    forall conn l', listener_step (DispatchSocks conn) l = Some l' \/ listener_step (AddUpstream conn) l = Some l' ->
      conn ∉ opened l' /\ tracked l' = c).
Proof.
  intros Hrun c. pose proof (listener_run_wf _ _ _ (newListener_wf tunnels sockets) Hrun) as [Hr Ha Hl Hs Ho Hd Hk Hst].
  split; [done|]. split; [done|]. split; [done|]. split.
  { unfold drained. rewrite Hr, Ha, Z.eqb_eq. split; [|intros ->; by rewrite size_empty].
    intros Hz. apply leibniz_equiv, size_empty_inv. lia. }
  split. { intros x Hx. unfold known. rewrite !elem_of_union. specialize (Ho x Hx). tauto. }
  intros Hcl Hp. rewrite Hp in Hst. split.
  - intros conn Hc.
    assert (~ (conn ∈ clients c \/ conn ∈ upstreams c)) as Hn.
    { intros Hin. pose proof (Hst Hcl conn Hc Hin) as Hf. inversion Hf. }
    specialize (Ho conn Hc). tauto.
  - intros conn l' [H|H]; simpl in H; (case_bool_decide; [|done]); unfold dispatchSocksConnection, add in H;
      fold c in H; rewrite Hcl in H; simpl in H; injection H as <-; simpl; set_solver.
Qed.

Definition ex_stop_trace : list event :=
  [Accept 1; DispatchSocks 1; Accept 2; AddUpstream 2; Accept 3; StopBegins; StopCloses; HandlerDone 1;
   StopCloses; Accept 4].

Lemma listener_invariant_witness :
  exists l l', listener_run ex_stop_trace (newListener (Some 8) (Some 2)) = Some l /\
    elements (opened l) = [3; 4] /\ drained l = true /\
    listener_step (DispatchSocks 3) l = Some l' /\ 3 ∉ opened l' /\
    forall conn, conn ∈ opened l -> conn ∈ arriving l.
Proof.
  destruct (listener_run ex_stop_trace (newListener (Some 8) (Some 2))) as [l|] eqn:E; [|by vm_compute in E].
  destruct (listener_invariant _ _ _ _ E) as (_ & _ & _ & _ & _ & Hstop).
  vm_compute in E. injection E as <-. destruct Hstop as [H1 H2]; [done|done|].
  eexists _, _. split; [reflexivity|]. split; [by vm_compute|]. split; [done|]. split; [reflexivity|].
  split; [|exact H1]. by apply (H2 3 _ (or_introl eq_refl)).
Defined.
(** ** The manager *)

Definition socks_view (r : RotatorRow) : Socks.RotatingProxy :=
  Socks.MkRotator (r_auth_required r) (r_auth_username r) (r_auth_password r)
    (r_listen_protocol_name r) (r_protocol_name r).

Definition listenTransportProtocolName (r : RotatorRow) : string :=
  let listen := trim_space (r_listen_transport r) in
  let transport := trim_space (r_transport r) in
  if negb (String.eqb listen "") then NormalizeTransportProtocol listen
  else if negb (String.eqb transport "") then NormalizeTransportProtocol transport
  else TransportTCP.

(** Which server [Start] starts; a SOCKS rotator has none over QUIC. *)
Inductive server_kind := HTTPServer | SocksServer | HTTP3Server.

Definition Start (r : RotatorRow) : option server_kind :=
  let transport := listenTransportProtocolName r in
  let socks := Socks.isSocksProtocol (Socks.listenProtocolName (socks_view r)) in
  if bool_decide (transport ∈ [TransportQUIC; TransportHTTP3]) then
    if socks then None else Some HTTP3Server
  else if socks then Some SocksServer else Some HTTPServer.

Definition normalizeRotatingProxyProtocols (instanceID : string) (r : RotatorRow) : RotatorRow :=
  let transport := NormalizeTransportProtocol (r_transport r) in
  let listenTransport :=
    if String.eqb (trim_space (r_listen_transport r)) "" then transport
    else NormalizeTransportProtocol (r_listen_transport r) in
  let '(uptimeType, uptime) := normalizeRotatorUptimeFilter (r_uptime_type r) (r_uptime r) in
  let instance := if String.eqb (trim_space (r_instance r)) "" then instanceID else r_instance r in
  let name := if String.eqb (trim_space (r_instance_name r)) "" then instance else r_instance_name r in
  let region := if String.eqb (trim_space (r_instance_region r)) "" then defaultInstanceRegion else r_instance_region r in
  MkRotatorRow (r_workspace r) (r_name r) instance name region (r_protocol r) (r_protocol_name r)
    (if r_listen_protocol r =? 0 then r_protocol r else r_listen_protocol r)
    (if String.eqb (trim_space (r_listen_protocol_name r)) "" then r_protocol_name r else r_listen_protocol_name r)
    transport listenTransport (r_listen_port r) (r_auth_required r) (r_auth_username r) (r_auth_password r)
    (r_labels r) uptimeType uptime (r_last_proxy r).

(** [GetAllRotatingProxies]: the rotators of this instance *)
Definition GetAllRotatingProxies (instanceID : string) (rows : gmap Z RotatorRow) : gmap Z RotatorRow :=
  normalizeRotatingProxyProtocols instanceID <$> filter (fun '(_, r) => r_instance r = instanceID) rows.

(** [GetRotatingProxyByID] *)
Definition GetRotatingProxyByID (instanceID : string) (id : Z) (rows : gmap Z RotatorRow)
    : res rotator_error RotatorRow :=
  match rows !! id with
  | Some r =>
      if String.eqb (r_instance r) instanceID then Ok (normalizeRotatingProxyProtocols instanceID r)
      else Err RotatingProxyNotFound
  | None => Err RotatingProxyNotFound
  end.

Definition port_valid (ports : Z * Z) (r : RotatorRow) : bool :=
  negb (r_listen_port r =? 0) && (fst ports <=? r_listen_port r) && (r_listen_port r <=? snd ports).

Section Manager.
(** The process: its port range, whether it runs on development fixtures, and
    whether the listener of a rotator can be opened. *)
Context (ports : Z * Z) (fixtures : bool) (listens : RotatorRow -> bool).

Definition opens (r : RotatorRow) : bool :=
  match Start r with Some _ => listens r | None => false end.

(** [startServer]: [false] is an error.  A server that was running is stopped first. *)
Definition startServer (id : Z) (r : RotatorRow) (servers : gmap Z RotatorRow) : bool * gmap Z RotatorRow :=
  if fixtures then (true, servers)
  else if negb (port_valid ports r) then (false, servers)
  else
    let servers := delete id servers in
    if opens r then (true, <[id := r]> servers) else (false, servers).

(** [Reconcile] with the rotators it loaded; [None] stands for a failed load. *)
Definition desired_servers (rotators : gmap Z RotatorRow) : gmap Z RotatorRow :=
  filter (fun '(_, r) => port_valid ports r = true) rotators.

Definition stop_undesired (desired servers : gmap Z RotatorRow) : gmap Z RotatorRow :=
  filter (fun '(id, _) => is_Some (desired !! id)) servers.

Fixpoint start_missing (entries : list (Z * RotatorRow)) (servers : gmap Z RotatorRow) : gmap Z RotatorRow :=
  match entries with
  | [] => servers
  | (id, r) :: entries' =>
      start_missing entries' (match servers !! id with Some _ => servers | None => (startServer id r servers).2 end)
  end.

Definition Reconcile (loaded : option (gmap Z RotatorRow)) (servers : gmap Z RotatorRow) : gmap Z RotatorRow :=
  match loaded with
  | None => servers
  | Some rotators =>
      let desired := desired_servers rotators in
      start_missing (map_to_list desired) (stop_undesired desired servers)
  end.

(** [Add], [Remove], [StopAll] *)
Definition Add (instanceID : string) (id : Z) (rows : gmap Z RotatorRow) (servers : gmap Z RotatorRow)
    : bool * gmap Z RotatorRow :=
  match GetRotatingProxyByID instanceID id rows with
  | Err _ => (false, servers)
  | Ok r => startServer id r servers
  end.

Definition Remove (id : Z) (servers : gmap Z RotatorRow) : gmap Z RotatorRow := delete id servers.

Definition StopAll (servers : gmap Z RotatorRow) : gmap Z RotatorRow := ∅.

Lemma start_lookup id r servers i :
  (startServer id r servers).2 !! i =
    if decide (i = id) then
      if fixtures then servers !! i
      else if negb (port_valid ports r) then servers !! i
      else if opens r then Some r else None
    else servers !! i.
Proof.
  unfold startServer. destruct fixtures; [by case_decide|]. destruct (negb _); [by case_decide|].
  destruct (opens r); simpl; case_decide; subst;
    rewrite ?lookup_insert_eq, ?lookup_insert_ne, ?lookup_delete_eq, ?lookup_delete_ne by done; done.
Qed.

Lemma start_missing_lookup entries servers i :
  NoDup entries.*1 ->
  start_missing entries servers !! i =
    match servers !! i with
    | Some s => Some s
    | None =>
        match List.find (fun '(id, _) => id =? i) entries with
        | Some (_, r) => if negb fixtures && port_valid ports r && opens r then Some r else None
        | None => None
        end
    end.
Proof.
  revert servers. induction entries as [|[id r] entries IH]; intros servers Hn; simpl; [by destruct (servers !! i)|].
  apply NoDup_cons in Hn as [Hid Hn]. rewrite IH by done.
  assert (forall x, List.find (fun '(id, _) => id =? x) entries <> None -> x ∈ entries.*1) as Hfind.
  { intros x Hx. destruct (List.find (fun '(id, _) => id =? x) entries) as [[k v]|] eqn:E; [|done].
    apply List.find_some in E as [Hin E]. breflect. subst. apply list_elem_of_fmap. exists (x, v).
    split; [done|]. by apply list_elem_of_In. }
  destruct (servers !! id) as [s|] eqn:Es.
  - destruct (servers !! i) as [si|] eqn:Ei; [done|]. destruct (Z.eqb_spec id i); [congruence|done].
  - rewrite start_lookup. case_decide as Hi.
    + subst id. rewrite Es, Z.eqb_refl.
      destruct (List.find (fun '(id, _) => id =? i) entries) eqn:Ef; [destruct Hid; apply (Hfind i); by rewrite Ef|].
      destruct fixtures, (port_valid ports r), (opens r); done.
    + rewrite (proj2 (Z.eqb_neq id i)) by done. done.
Qed.

(** Reconciling converges in one pass, in whatever order the rotators are
    visited: afterwards exactly those rotators of the table run whose port is
    in the range and that ran before or could be started; a running server is
    left alone, also when its row has changed; a second pass changes nothing;
    and a failed load stops nothing. *)
Theorem reconcile_converges rotators servers :
  let after := Reconcile (Some rotators) servers in
  (forall id, after !! id =
    match rotators !! id with
    | Some r =>
        if port_valid ports r then
          match servers !! id with
          | Some s => Some s
          | None => if negb fixtures && opens r then Some r else None
          end
        else None
    | None => None
    end) /\
  Reconcile (Some rotators) after = after /\ Reconcile None servers = servers.
Proof.
  assert (forall servers id, Reconcile (Some rotators) servers !! id =
    match rotators !! id with
    | Some r =>
        if port_valid ports r then
          match servers !! id with
          | Some s => Some s
          | None => if negb fixtures && opens r then Some r else None
          end
        else None
    | None => None
    end) as Hlookup.
  { clear servers. intros servers id. unfold Reconcile. rewrite start_missing_lookup by apply NoDup_fst_map_to_list.
    assert (desired_servers rotators !! id =
      match rotators !! id with Some r => if port_valid ports r then Some r else None | None => None end) as Hd.
    { unfold desired_servers. destruct (rotators !! id) as [r|] eqn:Er.
      - destruct (port_valid ports r) eqn:Ep; [by apply map_lookup_filter_Some|].
        apply map_lookup_filter_None. right. intros r' Hr'. congruence.
      - apply map_lookup_filter_None. by left. }
    assert (stop_undesired (desired_servers rotators) servers !! id =
      match desired_servers rotators !! id with Some _ => servers !! id | None => None end) as ->.
    { unfold stop_undesired. destruct (desired_servers rotators !! id) eqn:E.
      - destruct (servers !! id) eqn:Es.
        + apply map_lookup_filter_Some. split; [done|]. rewrite E. by eexists.
        + apply map_lookup_filter_None. by left.
      - apply map_lookup_filter_None. right. intros s _. rewrite E. by intros [? ?]. }
    assert (forall m : gmap Z RotatorRow, List.find (fun '(k, _) => k =? id) (map_to_list m) =
      option_map (fun r => (id, r)) (m !! id)) as Hfind.
    { intros m. destruct (List.find _ (map_to_list m)) as [[k v]|] eqn:E.
      - apply List.find_some in E as [Hin E]. breflect. subst. apply list_elem_of_In, elem_of_map_to_list in Hin.
        by rewrite Hin.
      - destruct (m !! id) as [v|] eqn:Ev; [|done]. apply elem_of_map_to_list, list_elem_of_In in Ev.
        pose proof (List.find_none _ _ E _ Ev) as Hf. simpl in Hf. lia. }
    rewrite Hfind, Hd. destruct (rotators !! id) as [r|]; [|done]. destruct (port_valid ports r) eqn:Ep; [|done].
    simpl. rewrite Ep, andb_true_r. by destruct (servers !! id). }
  split; [apply Hlookup|]. split; [|done].
  apply map_eq. intros id. rewrite !Hlookup. destruct (rotators !! id) as [r|]; [|done].
  destruct (port_valid ports r); [|done]. destruct (servers !! id); [done|]. by destruct (negb fixtures && opens r).
Qed.
End Manager.
End Listeners.
