(* ===== verification/Alerts.v ===== *)
(** * Alert rules and incidents

    [internal/database/alert_transitions.go], [alerts.go] and the measurement
    part of [alert_evaluation.go].  A rule of a workspace is observed about
    once a minute; it opens an incident when its measurement has been beyond
    the threshold for two minutes of consecutive observations and closes it
    when it has been within for as long.  Every operation runs in a transaction
    under the lock of the workspace row, so the state is one workspace's tables
    and an operation a function on them; an error rolls back.  The statements
    that save a batch are made rule by rule here, as each concerns one rule.
    Instants are nanoseconds; revisions are taken not to reach 2^64. *)

From S2P Require Import Prelude GoStrings Rotator.
From Stdlib Require Import SpecFloat.
From stdpp Require Import sorting.
Open Scope Z_scope.

Module Alerts.
Import Rotator.

Definition AlertMetricUsableRoutes : string := "usable_routes".
Definition AlertMetricSuccessRate : string := "success_rate".
Definition AlertMetricLatency : string := "latency_ms".
Definition AlertSustainDuration : Z := 2 * Minute.
Definition AlertMinimumSamples : Z := 20.
(** The gap between observations after which a run starts over. *)
Definition observationGap : Z := 90 * Second.

(** ** Tables *)

(** [domain.AlertRule], by identifier; a deleted rule is no longer there. *)
Record AlertRule := MkRule {
  Name : string; RotatorID : option Z; Metric : string; Threshold : spec_float; Enabled : bool;
  DestinationIDs : list Z; Revision : Z; Status : string; UnknownReason : string;
  LastValue : option spec_float; SampleCount : Z;
  LastEvaluatedAt : option Z; LastEvaluationAttemptAt : option Z;
  BreachSince : option Z; RecoverySince : option Z; ActiveIncidentID : option Z
}.

(** [domain.AlertIncident] *)
Record AlertIncident := MkIncident {
  RuleID : Z; RuleRevision : Z; RuleName : string; ScopeName : string; i_metric : string;
  i_threshold : spec_float; OpeningValue : spec_float; ClosingValue : option spec_float;
  OpenedAt : Z; ClosedAt : option Z; CloseReason : string
}.

(** [dto.AlertEvent], the payload of a delivery *)
Record AlertEvent := MkEvent {
  ev_incident : Z; ev_rule : Z; ev_rule_name : string; ev_scope : string; ev_rotator : option Z;
  ev_measurement : string; ev_protocol : string; ev_metric : string; ev_threshold : spec_float;
  ev_value : spec_float; ev_event : string; ev_occurred : Z
}.

(** [domain.AlertDelivery] *)
Record AlertDelivery := MkDelivery {
  d_incident : Z; d_destination : Z; d_event : string; d_payload : AlertEvent; d_status : string;
  d_attempts : Z; d_last_error : string; d_next : Z; d_token : string; d_last_attempt : option Z; d_sent : option Z
}.

(** [domain.AlertDestination]; a deleted destination is no longer there. *)
Record AlertDestination := MkDestination {
  dest_name : string; dest_kind : string; dest_enabled : bool; MentionMode : string; MentionID : string;
  TargetEncrypted : string; SigningSecretEncrypted : string
}.

(** One workspace: its checker configuration, its rotators with their protocol,
    and the alert tables with the identifiers to be given out next. *)
Record World := MkWorld {
  checker_dirty : bool; checker_generation : Z;
  rotators : gmap Z string;
  rules : gmap Z AlertRule; next_rule : Z;
  incidents : gmap Z AlertIncident; next_incident : Z;
  destinations : gmap Z AlertDestination;
  deliveries : gmap Z AlertDelivery; next_delivery : Z
}.

Definition with_rules (m : gmap Z AlertRule) (w : World) : World :=
  MkWorld (checker_dirty w) (checker_generation w) (rotators w) m (next_rule w) (incidents w) (next_incident w)
    (destinations w) (deliveries w) (next_delivery w).

Definition with_incidents (m : gmap Z AlertIncident) (n : Z) (w : World) : World :=
  MkWorld (checker_dirty w) (checker_generation w) (rotators w) (rules w) (next_rule w) m n
    (destinations w) (deliveries w) (next_delivery w).

Definition with_destinations (m : gmap Z AlertDestination) (w : World) : World :=
  MkWorld (checker_dirty w) (checker_generation w) (rotators w) (rules w) (next_rule w) (incidents w) (next_incident w)
    m (deliveries w) (next_delivery w).

Definition with_deliveries (m : gmap Z AlertDelivery) (n : Z) (w : World) : World :=
  MkWorld (checker_dirty w) (checker_generation w) (rotators w) (rules w) (next_rule w) (incidents w) (next_incident w)
    (destinations w) m n.

Inductive alert_error := RecordNotFound | IncidentMismatch | Invalid (message : string) | EncryptionFailed.

(** ** Closing by configuration *)

Definition close_incident (now : Z) (reason : string) (value : option spec_float) (i : AlertIncident) : AlertIncident :=
  MkIncident (RuleID i) (RuleRevision i) (RuleName i) (ScopeName i) (i_metric i) (i_threshold i) (OpeningValue i)
    value (OpenedAt i) (Some now) reason.

Definition cancel_delivery (reason : string) (d : AlertDelivery) : AlertDelivery :=
  if bool_decide (d_status d ∈ ["pending"; "processing"]) then
    MkDelivery (d_incident d) (d_destination d) (d_event d) (d_payload d) "canceled" (d_attempts d) reason
      (d_next d) "" (d_last_attempt d) (d_sent d)
  else d.

(** [closeAlertForConfiguration] *)
Definition closeAlertForConfiguration (ruleID : Z) (rule : AlertRule) (now : Z) (w : World) : World :=
  let incs :=
    match ActiveIncidentID rule with
    | None => incidents w
    | Some i =>
        alter (fun inc => if bool_decide (ClosedAt inc = None)
                          then close_incident now "configuration_changed" (ClosingValue inc) inc else inc) i (incidents w)
    end in
  let of_rule d :=
    match incidents w !! d_incident d with Some inc => RuleID inc =? ruleID | None => false end in
  with_deliveries ((fun d => if of_rule d then cancel_delivery "Configuration changed" d else d) <$> deliveries w)
    (next_delivery w) (with_incidents incs (next_incident w) w).

(** ** Observations *)

Record AlertObservation := MkObservation { Value : option spec_float; Samples : Z; ob_unknown : string }.

(** [alertRuleObservation]: the rule as it was read before measuring. *)
Record alertRuleObservation := MkInput {
  snapshot_id : Z; snapshot : AlertRule; scopeName : string; observation : AlertObservation; missingRotator : bool
}.

(** A rule with its measured fields replaced. *)
Definition observed (rule : AlertRule) (now : Z) (o : AlertObservation) (breach recovery : option Z) (status : string) : AlertRule :=
  MkRule (Name rule) (RotatorID rule) (Metric rule) (Threshold rule) (Enabled rule) (DestinationIDs rule) (Revision rule)
    status (ob_unknown o) (Value o) (Samples o) (Some now) (LastEvaluationAttemptAt rule)
    breach recovery (ActiveIncidentID rule).

Definition with_attempt (now : Z) (rule : AlertRule) : AlertRule :=
  let attempt :=
    match LastEvaluationAttemptAt rule with
    | Some t => if t <? now then Some now else Some t
    | None => Some now
    end in
  MkRule (Name rule) (RotatorID rule) (Metric rule) (Threshold rule) (Enabled rule) (DestinationIDs rule) (Revision rule)
    (Status rule) (UnknownReason rule) (LastValue rule) (SampleCount rule) (LastEvaluatedAt rule) attempt
    (BreachSince rule) (RecoverySince rule) (ActiveIncidentID rule).

Definition with_incident (active : option Z) (rule : AlertRule) : AlertRule :=
  MkRule (Name rule) (RotatorID rule) (Metric rule) (Threshold rule) (Enabled rule) (DestinationIDs rule) (Revision rule)
    (Status rule) (UnknownReason rule) (LastValue rule) (SampleCount rule) (LastEvaluatedAt rule)
    (LastEvaluationAttemptAt rule) None None active.

(** A rule whose rotator is gone. *)
Definition rotator_deleted (rule : AlertRule) : AlertRule :=
  MkRule (Name rule) (RotatorID rule) (Metric rule) (Threshold rule) false (DestinationIDs rule) (Revision rule + 1)
    "disabled" "Rotator deleted" (LastValue rule) (SampleCount rule) (LastEvaluatedAt rule)
    (LastEvaluationAttemptAt rule) None None None.

Definition breached (rule : AlertRule) (value : spec_float) : bool :=
  if String.eqb (Metric rule) AlertMetricLatency then SFltb (Threshold rule) value else SFltb value (Threshold rule).

Inductive transition := Stays | Opens (value : spec_float) | Recovers (value : spec_float).

(** The part of the loop of [applyAlertObservations] that moves one rule, after
    the checks on revision, rotator and time. *)
Definition observe (rule : AlertRule) (now : Z) (o : AlertObservation) : AlertRule * transition :=
  let late := match LastEvaluatedAt rule with Some t => observationGap <? now - t | None => false end in
  let breach := if late then None else BreachSince rule in
  let recovery := if late then None else RecoverySince rule in
  match Value o with
  | None => (observed rule now o None None "unknown", Stays)
  | Some value =>
      if breached rule value then
        match ActiveIncidentID rule with
        | Some _ => (observed rule now o breach None "breaching", Stays)
        | None =>
            let since := default now breach in
            (observed rule now o (Some since) None "breaching",
             if AlertSustainDuration <=? now - since then Opens value else Stays)
        end
      else
        match ActiveIncidentID rule with
        | Some _ =>
            let since := default now recovery in
            (observed rule now o None (Some since) "healthy",
             if AlertSustainDuration <=? now - since then Recovers value else Stays)
        | None => (observed rule now o None None "healthy", Stays)
        end
  end.

(** What is told about a change: [alertTransition]. *)
Record told := MkTold { t_rule : Z; t_rule_row : AlertRule; t_incident_id : Z; t_incident : AlertIncident; t_event : string; t_value : spec_float }.

(** One rule of the batch; [inl] are opened, [inr] recovered incidents. *)
Definition apply_rule (generation : Z) (now : Z) (id : Z) (rule : AlertRule) (input : alertRuleObservation) (w : World)
    : res alert_error (World * option (told + told)) :=
  if negb (Revision rule =? Revision (snapshot input)) then Ok (w, None)
  else
    let rule := with_attempt now rule in
    if missingRotator input then
      let w := closeAlertForConfiguration id rule now w in
      Ok (with_rules (<[id := rotator_deleted rule]> (rules w)) w, None)
    else if match LastEvaluatedAt rule with Some t => now <=? t | None => false end then Ok (w, None)
    else
      let o := if Alerts.checker_dirty w || negb (Alerts.checker_generation w =? generation)
               then MkObservation None 0 "Checker settings changed during evaluation" else observation input in
      match observe rule now o with
      | (rule', Stays) => Ok (with_rules (<[id := rule']> (rules w)) w, None)
      | (rule', Opens value) =>
          let inc := MkIncident id (Revision rule) (Name rule) (scopeName input) (Metric rule) (Threshold rule) value None
                       now None "" in
          let i := next_incident w in
          let rule'' := with_incident (Some i) rule' in
          let w := with_incidents (<[i := inc]> (incidents w)) (i + 1) w in
          Ok (with_rules (<[id := rule'']> (rules w)) w, Some (inl (MkTold id rule'' i inc "opened" value)))
      | (rule', Recovers value) =>
          match ActiveIncidentID rule' with
          | None => Ok (w, None)
          | Some i =>
              match incidents w !! i with
              | None => Err RecordNotFound
              | Some inc =>
                  if negb (bool_decide (ClosedAt inc = None)) then Err RecordNotFound
                  else if negb (RuleID inc =? id) || negb (RuleRevision inc =? Revision rule) then Err IncidentMismatch
                  else
                    let inc' := close_incident now "recovered" (Some value) inc in
                    let rule'' := with_incident None rule' in
                    let w := with_incidents (<[i := inc']> (incidents w)) (next_incident w) w in
                    Ok (with_rules (<[id := rule'']> (rules w)) w, Some (inr (MkTold id rule'' i inc' "recovered" value)))
              end
          end
      end.
Fixpoint apply_rules (generation now : Z) (batch : list (Z * alertRuleObservation)) (w : World)
    : res alert_error (World * list told * list told) :=
  match batch with
  | [] => Ok (w, [], [])
  | (id, input) :: batch' =>
      match rules w !! id with
      | Some rule =>
          if negb (Enabled rule) then apply_rules generation now batch' w
          else
            match apply_rule generation now id rule input w with
            | Err e => Err e
            | Ok (w1, t) =>
                match apply_rules generation now batch' w1 with
                | Err e => Err e
                | Ok (w2, opened, recovered) =>
                    Ok (match t with
                        | Some (inl x) => (w2, x :: opened, recovered)
                        | Some (inr x) => (w2, opened, x :: recovered)
                        | None => (w2, opened, recovered)
                        end)
                end
            end
      | None => apply_rules generation now batch' w
      end
  end.

(** ** Deliveries of a batch *)

Definition alert_event (w : World) (now : Z) (t : told) : AlertEvent :=
  let rule := t_rule_row t in
  let protocol := match RotatorID rule with Some r => default "" (rotators w !! r) | None => "" end in
  let scope :=
    if String.eqb (Metric rule) AlertMetricUsableRoutes then "current_routing_eligibility"
    else match RotatorID rule with Some _ => "workspace_protocol_tcp_checks" | None => "workspace_checks" end in
  MkEvent (t_incident_id t) (t_rule t) (Name rule) (ScopeName (t_incident t)) (RotatorID rule) scope protocol
    (Metric rule) (Threshold rule) (t_value t) (t_event t) now.

Fixpoint queue_for (w : World) (now : Z) (t : told) (ids : list Z) (seen : list Z) : World :=
  match ids with
  | [] => w
  | id :: ids' =>
      match destinations w !! id with
      | Some dest =>
          if dest_enabled dest && negb (bool_decide (id ∈ seen)) then
            let d := MkDelivery (t_incident_id t) id (t_event t) (alert_event w now t) "pending" 0 "" now "" None None in
            queue_for (with_deliveries (<[next_delivery w := d]> (deliveries w)) (next_delivery w + 1) w) now t ids' (id :: seen)
          else queue_for w now t ids' seen
      | None => queue_for w now t ids' seen
      end
  end.

(** [queueAlertTransitions] *)
Definition queueAlertTransitions (now : Z) (l : list told) (w : World) : World :=
  fold_left (fun w t => queue_for w now t (DestinationIDs (t_rule_row t)) []) l w.

(** The inputs by rule, ascending; the last one for a rule counts. *)
Definition by_rule (observations : list alertRuleObservation) : list (Z * alertRuleObservation) :=
  let m : gmap Z alertRuleObservation := fold_left (fun m o => <[snapshot_id o := o]> m) observations ∅ in
  omap (fun id => option_map (pair id) (m !! id)) (merge_sort Z.le (map fst (map_to_list m))).

(** [applyAlertObservations] for a workspace read at [generation]. *)
Definition applyAlertObservations (generation : Z) (observations : list alertRuleObservation) (now : Z) (w : World)
    : option alert_error * World :=
  match observations with
  | [] => (None, w)
  | _ =>
      match apply_rules generation now (by_rule observations) w with
      | Err e => (Some e, w)
      | Ok (w1, opened, recovered) => (None, queueAlertTransitions now (opened ++ recovered) w1)
      end
  end.

(** ** Configuration *)

Record AlertRuleWrite := MkWrite {
  in_name : string; in_rotator : option Z; in_metric : string; in_threshold : option spec_float;
  in_enabled : bool; in_destinations : list Z
}.

Definition f_one : spec_float := float_of_Z 1.
Definition f_1e9 : spec_float := float_of_Z 1000000000.

(** [math.Trunc(x) == x] for a finite number *)
Definition is_integer (x : spec_float) : bool :=
  match x with
  | S754_zero _ => true
  | S754_finite _ m e => (0 <=? e) || (Zpos m mod 2 ^ (- e) =? 0)
  | _ => false
  end.

Definition threshold_ok (metric : string) (t : spec_float) : res alert_error unit :=
  if String.eqb metric AlertMetricUsableRoutes then
    if SFltb t f_one || SFltb f_1e9 t || negb (is_integer t)
    then Err (Invalid "usable-route threshold must be an integer between 1 and 1000000000") else Ok tt
  else if String.eqb metric AlertMetricSuccessRate then
    if SFltb t (float_of_Z 0) || SFltb (float_of_Z 100) t
    then Err (Invalid "success-rate threshold must be between 0 and 100") else Ok tt
  else if String.eqb metric AlertMetricLatency then
    if SFleb t (float_of_Z 0) || SFltb (float_of_Z 65535) t
    then Err (Invalid "latency threshold must be between 0 and 65535 milliseconds") else Ok tt
  else Err (Invalid "unknown metric").

Definition name_ok (name : string) : bool :=
  negb (String.eqb name "") && (slen name <=? 120)%nat &&
  negb (contains_byte (chr 13) name) && negb (contains_byte (chr 10) name).

(** The checks of [SaveAlertRule] on its input. *)
Definition validate_rule (input : AlertRuleWrite) : res alert_error (string * spec_float) :=
  let name := trim_space (in_name input) in
  if negb (name_ok name) then Err (Invalid "name is required and must be at most 120 bytes")
  else
    match in_threshold input with
    | None => Err (Invalid "a finite threshold is required")
    | Some t =>
        if is_nan_or_inf t then Err (Invalid "a finite threshold is required")
        else
          match threshold_ok (in_metric input) t with
          | Err e => Err e
          | Ok _ =>
              if (10 <? length (in_destinations input))%nat
              then Err (Invalid "at most ten destinations may be attached") else Ok (name, t)
          end
    end.

Definition configured (name : string) (t : spec_float) (input : AlertRuleWrite) (revision : Z) : AlertRule :=
  MkRule name (in_rotator input) (in_metric input) t (in_enabled input) (dedup_go [] (in_destinations input)) revision
    (if in_enabled input then "unknown" else "disabled") (if in_enabled input then "Waiting for evaluation" else "")
    None 0 None None None None None.

Definition maxAlertRules : nat := 100.

(** [SaveAlertRule]: [None] creates a rule. *)
Definition SaveAlertRule (id : option Z) (input : AlertRuleWrite) (now : Z) (w : World) : option alert_error * World :=
  match validate_rule input with
  | Err e => (Some e, w)
  | Ok (name, t) =>
      if match in_rotator input with Some r => bool_decide (rotators w !! r = None) | None => false end
      then (Some (Invalid "rotator must belong to this workspace"), w)
      else if negb (forallb (fun d => bool_decide (is_Some (destinations w !! d))) (in_destinations input))
      then (Some (Invalid "destination must belong to this workspace"), w)
      else
        match id with
        | Some id =>
            match rules w !! id with
            | None => (Some RecordNotFound, w)
            | Some rule =>
                let w := closeAlertForConfiguration id rule now w in
                (None, with_rules (<[id := configured name t input (Revision rule + 1)]> (rules w)) w)
            end
        | None =>
            if (maxAlertRules <=? size (rules w))%nat
            then (Some (Invalid "workspace has reached its limit of 100 alert rules"), w)
            else
              (None, MkWorld (checker_dirty w) (checker_generation w) (rotators w)
                       (<[next_rule w := configured name t input 1]> (rules w)) (next_rule w + 1)
                       (incidents w) (next_incident w) (destinations w) (deliveries w) (next_delivery w))
        end
  end.

(** [DeleteAlertRule] *)
Definition DeleteAlertRule (id : Z) (now : Z) (w : World) : option alert_error * World :=
  match rules w !! id with
  | None => (Some RecordNotFound, w)
  | Some rule =>
      let w := closeAlertForConfiguration id rule now w in
      (None, with_rules (delete id (rules w)) w)
  end.

(** The rules of a deleted rotator, and [DeleteRotatingProxy] with them. *)
Fixpoint disable_rules (now : Z) (ids : list Z) (w : World) : World :=
  match ids with
  | [] => w
  | id :: ids' =>
      match rules w !! id with
      | Some rule =>
          let w := closeAlertForConfiguration id rule now w in
          disable_rules now ids' (with_rules (<[id := rotator_deleted rule]> (rules w)) w)
      | None => disable_rules now ids' w
      end
  end.

Definition DeleteRotatingProxy (rotator : Z) (now : Z) (w : World) : option rotator_error * World :=
  let ids := map fst (filter (fun '(_, r) => RotatorID r = Some rotator) (map_to_list (rules w))) in
  match rotators w !! rotator with
  | None => (Some RotatingProxyNotFound, w)
  | Some _ =>
      let w := disable_rules now ids w in
      (None, MkWorld (checker_dirty w) (checker_generation w) (delete rotator (rotators w)) (rules w) (next_rule w)
               (incidents w) (next_incident w) (destinations w) (deliveries w) (next_delivery w))
  end.

(** [CleanupAlertHistory]: at most a thousand incidents closed ninety days ago. *)
Definition old_incidents (now : Z) (w : World) : list Z :=
  take 1000 (merge_sort Z.le (map fst (List.filter (fun '(_, i) =>
    match ClosedAt i with Some t => t <? now - 90 * 24 * Hour | None => false end) (map_to_list (incidents w))))).

Definition CleanupAlertHistory (now : Z) (w : World) : World :=
  let gone := old_incidents now w in
  with_deliveries (filter (fun '(_, d) => d_incident d ∉ gone) (deliveries w)) (next_delivery w)
    (with_incidents (filter (fun '(i, _) => i ∉ gone) (incidents w)) (next_incident w) w).

(** ** Measurements *)

Record alertCheckAggregate := MkAggregate { ag_samples : Z; ag_successes : Z; ag_latency : spec_float }.

(** The measurement of a rule on the checks of its scope, in the window. *)
Definition check_observation (rule : AlertRule) (a : alertCheckAggregate) : AlertObservation :=
  let samples := if String.eqb (Metric rule) AlertMetricLatency then ag_successes a else ag_samples a in
  if samples <? AlertMinimumSamples
  then MkObservation None samples "Fewer than 20 check samples in the last 15 minutes"
  else
    let value :=
      if String.eqb (Metric rule) AlertMetricLatency
      then SFdiv 53 1024 (ag_latency a) (float_of_Z (ag_successes a))
      else SFdiv 53 1024 (SFmul 53 1024 (float_of_Z 100) (float_of_Z (ag_successes a))) (float_of_Z (ag_samples a)) in
    MkObservation (Some value) samples "".
(** ** The invariant *)

Definition rule_shape (r : AlertRule) : Prop :=
  (Enabled r = false -> ActiveIncidentID r = None) /\
  (ActiveIncidentID r <> None -> BreachSince r = None) /\
  (ActiveIncidentID r = None -> RecoverySince r = None).

(** Open incidents and the rules that point at them. *)
Record alerts_wf (w : World) : Prop := {
  wf_rule_ids : forall k r, rules w !! k = Some r -> k < next_rule w;
  wf_incident_ids : forall i inc, incidents w !! i = Some inc -> i < next_incident w;
  wf_active : forall k r i, rules w !! k = Some r -> ActiveIncidentID r = Some i ->
    exists inc, incidents w !! i = Some inc /\ RuleID inc = k /\ RuleRevision inc = Revision r /\ ClosedAt inc = None;
  wf_open : forall i inc, incidents w !! i = Some inc -> ClosedAt inc = None ->
    exists r, rules w !! RuleID inc = Some r /\ ActiveIncidentID r = Some i;
  wf_shape : forall k r, rules w !! k = Some r -> rule_shape r
}.

Lemma wf_ext w w' :
  rules w' = rules w -> next_rule w' = next_rule w -> incidents w' = incidents w -> next_incident w' = next_incident w ->
  alerts_wf w -> alerts_wf w'.
Proof. intros H1 H2 H3 H4 [A B C D E]. constructor; rewrite ?H1, ?H2, ?H3, ?H4; done. Qed.

(** What closing by configuration does to the incidents. *)
Lemma close_lookup id rule now w j :
  incidents (closeAlertForConfiguration id rule now w) !! j =
    if decide (ActiveIncidentID rule = Some j)
    then (fun inc => if bool_decide (ClosedAt inc = None)
                     then close_incident now "configuration_changed" (ClosingValue inc) inc else inc) <$> incidents w !! j
    else incidents w !! j.
Proof.
  unfold closeAlertForConfiguration. simpl. destruct (ActiveIncidentID rule) as [i|].
  - case_decide as Hd; [injection Hd as ->; by rewrite lookup_alter_eq|]. rewrite lookup_alter_ne; [done|]. congruence.
  - by rewrite decide_False.
Qed.

Lemma close_rules id rule now w :
  rules (closeAlertForConfiguration id rule now w) = rules w /\
  next_rule (closeAlertForConfiguration id rule now w) = next_rule w /\
  next_incident (closeAlertForConfiguration id rule now w) = next_incident w.
Proof. done. Qed.

(** Closing the incident of a rule and replacing or deleting the rule. *)
Lemma wf_close id rule rule1 now w rs :
  alerts_wf w -> rules w !! id = Some rule -> ActiveIncidentID rule1 = ActiveIncidentID rule ->
  (forall k, k <> id -> rs !! k = rules w !! k) ->
  (forall r, rs !! id = Some r -> ActiveIncidentID r = None /\ rule_shape r) ->
  alerts_wf (with_rules rs (closeAlertForConfiguration id rule1 now w)).
Proof.
  intros [A B C D E] Hr Ha Hother Hnew. constructor; simpl rules; simpl next_rule; simpl next_incident.
  - intros k r Hk. destruct (decide (k = id)) as [->|Hne]; [by eapply A|]. rewrite Hother in Hk by done. by eapply A.
  - intros i inc Hi. simpl incidents in Hi. change (incidents (closeAlertForConfiguration id rule1 now w) !! i = Some inc) in Hi.
    rewrite close_lookup in Hi. case_decide; [|by eapply B].
    apply fmap_Some in Hi as (inc0 & Hi & _). by eapply B.
  - intros k r i Hk Hact. destruct (decide (k = id)) as [->|Hne].
    { destruct (Hnew r Hk). congruence. }
    rewrite Hother in Hk by done. destruct (C k r i Hk Hact) as (inc & Hi & Hk' & Hrev & Hcl).
    exists inc. split; [|done]. change (incidents (closeAlertForConfiguration id rule1 now w) !! i = Some inc).
    rewrite close_lookup, decide_False; [done|]. rewrite Ha. intros Hid.
    destruct (C id rule i Hr Hid) as (inc' & Hi' & Hid' & _). congruence.
  - intros i inc Hi Hcl. change (incidents (closeAlertForConfiguration id rule1 now w) !! i = Some inc) in Hi.
    rewrite close_lookup in Hi. case_decide as Hd.
    + apply fmap_Some in Hi as (inc0 & Hi & ->). case_bool_decide; [done|]. done.
    + destruct (D i inc Hi Hcl) as (r & Hr' & Hact). exists r. split; [|done]. rewrite Hother; [done|].
      intros Heq. rewrite Heq in Hr'. rewrite Ha in Hd. congruence.
  - intros k r Hk. destruct (decide (k = id)) as [->|Hne]; [by apply Hnew|]. rewrite Hother in Hk by done. by eapply E.
Qed.

(** Replacing a rule that keeps its incident. *)
Lemma alerts_wf_update id rule rule' w :
  alerts_wf w -> rules w !! id = Some rule -> ActiveIncidentID rule' = ActiveIncidentID rule ->
  Revision rule' = Revision rule -> rule_shape rule' -> alerts_wf (with_rules (<[id := rule']> (rules w)) w).
Proof.
  intros [A B C D E] Hr Ha Hrev Hs. constructor; simpl.
  - intros k r Hk. apply lookup_insert_Some in Hk as [[<- <-]|[_ Hk]]; by eapply A.
  - exact B.
  - intros k r i Hk Hact. apply lookup_insert_Some in Hk as [[<- <-]|[_ Hk]]; [|by eapply C].
    rewrite Hrev. eapply C; [done|congruence].
  - intros i inc Hi Hcl. destruct (D i inc Hi Hcl) as (r & Hr' & Hact). destruct (decide (RuleID inc = id)) as [Heq|Hne].
    + exists rule'. rewrite Heq in *. rewrite lookup_insert_eq. split; [done|]. congruence.
    + exists r. by rewrite lookup_insert_ne.
  - intros k r Hk. apply lookup_insert_Some in Hk as [[<- <-]|[_ Hk]]; [done|by eapply E].
Qed.

(** Opening an incident. *)
Lemma wf_opens id rule rule' inc w :
  alerts_wf w -> rules w !! id = Some rule -> ActiveIncidentID rule = None ->
  ActiveIncidentID rule' = Some (next_incident w) -> rule_shape rule' ->
  RuleID inc = id -> RuleRevision inc = Revision rule' -> ClosedAt inc = None ->
  alerts_wf (with_rules (<[id := rule']> (rules w))
    (with_incidents (<[next_incident w := inc]> (incidents w)) (next_incident w + 1) w)).
Proof.
  intros [A B C D E] Hr Hnone Ha Hs Hid Hrev Hcl. constructor; simpl.
  - intros k r Hk. apply lookup_insert_Some in Hk as [[<- <-]|[_ Hk]]; by eapply A.
  - intros i inc0 Hi. apply lookup_insert_Some in Hi as [[<- _]|[_ Hi]]; [lia|]. specialize (B i inc0 Hi). lia.
  - intros k r i Hk Hact. apply lookup_insert_Some in Hk as [[<- <-]|[Hne Hk]].
    + assert (i = next_incident w) as -> by congruence. exists inc. by rewrite lookup_insert_eq.
    + destruct (C k r i Hk Hact) as (inc0 & Hi & H'). exists inc0. split; [|done].
      rewrite lookup_insert_ne; [done|]. specialize (B i inc0 Hi). lia.
  - intros i inc0 Hi Hcl0. apply lookup_insert_Some in Hi as [[<- <-]|[Hne Hi]].
    + exists rule'. rewrite Hid, lookup_insert_eq. done.
    + destruct (D i inc0 Hi Hcl0) as (r & Hr' & Hact). exists r. split; [|done].
      rewrite lookup_insert_ne; [done|]. intros Heq. rewrite <- Heq in Hr'. congruence.
  - intros k r Hk. apply lookup_insert_Some in Hk as [[<- <-]|[_ Hk]]; [done|by eapply E].
Qed.

(** Closing the incident of a rule that recovered. *)
Lemma wf_recovers id rule rule' i inc inc' w :
  alerts_wf w -> rules w !! id = Some rule -> ActiveIncidentID rule = Some i -> incidents w !! i = Some inc ->
  ActiveIncidentID rule' = None -> rule_shape rule' -> ClosedAt inc' <> None ->
  alerts_wf (with_rules (<[id := rule']> (rules w)) (with_incidents (<[i := inc']> (incidents w)) (next_incident w) w)).
Proof.
  intros [A B C D E] Hr Hact Hi Ha Hs Hcl. constructor; simpl.
  - intros k r Hk. apply lookup_insert_Some in Hk as [[<- <-]|[_ Hk]]; by eapply A.
  - intros j inc0 Hj. apply lookup_insert_Some in Hj as [[<- _]|[_ Hj]]; by eapply B.
  - intros k r j Hk Hact'. apply lookup_insert_Some in Hk as [[<- <-]|[Hne Hk]]; [congruence|].
    destruct (C k r j Hk Hact') as (inc0 & Hj & Hk' & H'). exists inc0. split; [|done].
    rewrite lookup_insert_ne; [done|]. intros ->. destruct (C id rule j Hr Hact) as (inc1 & Hj1 & Hid & _). congruence.
  - intros j inc0 Hj Hcl0. apply lookup_insert_Some in Hj as [[<- <-]|[Hne Hj]]; [done|].
    destruct (D j inc0 Hj Hcl0) as (r & Hr' & Hact'). exists r. split; [|done].
    rewrite lookup_insert_ne; [done|]. intros Heq. rewrite <- Heq in Hr'. congruence.
  - intros k r Hk. apply lookup_insert_Some in Hk as [[<- <-]|[_ Hk]]; [done|by eapply E].
Qed.
(** Observing keeps the configuration and the incident, and the shape. *)
Lemma observe_frame rule now o rule' tr :
  observe rule now o = (rule', tr) -> rule_shape rule ->
  ActiveIncidentID rule' = ActiveIncidentID rule /\ Revision rule' = Revision rule /\ Enabled rule' = Enabled rule /\
  Name rule' = Name rule /\ Metric rule' = Metric rule /\ Threshold rule' = Threshold rule /\
  RotatorID rule' = RotatorID rule /\ DestinationIDs rule' = DestinationIDs rule /\
  LastEvaluatedAt rule' = Some now /\ rule_shape rule' /\
  match tr with
  | Stays => True
  | Opens _ => ActiveIncidentID rule = None
  | Recovers _ => ActiveIncidentID rule <> None
  end.
Proof.
  intros H (S1 & S2 & S3). unfold observe in H. unfold rule_shape.
  set (late := match LastEvaluatedAt rule with Some t => observationGap <? now - t | None => false end) in *.
  destruct (Value o) as [value|].
  2:{ injection H as <- <-. simpl. repeat (split; [done|]). done. }
  destruct (breached rule value), (ActiveIncidentID rule) as [i|] eqn:Ea; simpl in H;
    try destruct (AlertSustainDuration <=? _); injection H as <- <-; simpl; rewrite ?Ea;
    repeat split; simpl; intros; try done; try (destruct late); naive_solver.
Qed.

Lemma apply_rule_ok generation now id rule input w :
  alerts_wf w -> rules w !! id = Some rule -> Enabled rule = true ->
  exists w' t, apply_rule generation now id rule input w = Ok (w', t) /\ alerts_wf w' /\
    (forall k, k <> id -> rules w' !! k = rules w !! k) /\
    Alerts.checker_dirty w' = Alerts.checker_dirty w /\ Alerts.checker_generation w' = Alerts.checker_generation w.
Proof.
  intros Hwf Hr Hen. unfold apply_rule. destruct (Revision rule =? Revision (snapshot input)); simpl negb; cbv iota.
  2:{ by exists w, None. }
  assert (rule_shape rule) as Hs by by eapply wf_shape.
  assert (rule_shape (with_attempt now rule)) as Hs' by done.
  destruct (missingRotator input).
  { eexists _, None. split; [reflexivity|]. split; [|split; [|done]].
    - apply (wf_close id rule (with_attempt now rule) now w); try done.
      + intros k Hk. rewrite lookup_insert_ne by done. done.
      + intros r Hrr. rewrite lookup_insert_eq in Hrr. injection Hrr as <-. done.
    - intros k Hk. simpl. by rewrite lookup_insert_ne. }
  simpl LastEvaluatedAt. destruct (match LastEvaluatedAt rule with Some t => now <=? t | None => false end).
  { by exists w, None. }
  match goal with |- context [observe (with_attempt now rule) now ?x] => set (o := x) end.
  destruct (observe (with_attempt now rule) now o) as [rule' tr] eqn:Eo.
  destruct (observe_frame _ _ _ _ _ Eo Hs') as (Ha & Hrev & Hen' & _ & _ & _ & _ & _ & _ & Hs'' & Htr).
  simpl in Ha, Hrev, Hen', Htr. destruct tr as [|value|value].
  - eexists _, None. split; [reflexivity|]. split; [by apply (alerts_wf_update id rule)|].
    split; [|done]. intros k Hk. simpl. by rewrite lookup_insert_ne.
  - eexists _, _. split; [reflexivity|]. split; [|split; [|done]].
    + eapply (wf_opens id rule (with_incident (Some (next_incident w)) rule') _ w); simpl; try done.
      split; simpl; [congruence|done].
    + intros k Hk. simpl. by rewrite lookup_insert_ne.
  - rewrite Ha. destruct (ActiveIncidentID rule) as [i|] eqn:Ei; [|done].
    destruct (wf_active w Hwf id rule i Hr Ei) as (inc & Hi & Hid & Hir & Hcl). rewrite Hi.
    rewrite bool_decide_eq_true_2 by done. simpl Revision. rewrite Hid, Hir, !Z.eqb_refl. simpl negb. simpl orb. cbv iota.
    eexists _, _. split; [reflexivity|]. split; [|split; [|done]].
    + eapply (wf_recovers id rule (with_incident None rule') i inc _ w); done.
    + intros k Hk. simpl. by rewrite lookup_insert_ne.
Qed.

Lemma apply_rules_ok generation now batch w :
  alerts_wf w -> exists w' opened recovered,
    apply_rules generation now batch w = Ok (w', opened, recovered) /\ alerts_wf w'.
Proof.
  revert w. induction batch as [|[id input] batch IH]; intros w Hwf; simpl; [by eexists _, _, _|].
  destruct (rules w !! id) as [rule|] eqn:Er; [|by apply IH].
  destruct (Enabled rule) eqn:Een; simpl; [|by apply IH].
  destruct (apply_rule_ok generation now id rule input w Hwf Er Een) as (w1 & t & -> & Hwf1 & _).
  destruct (IH w1 Hwf1) as (w2 & opened & recovered & -> & Hwf2).
  destruct t as [[x|x]|]; by eexists _, _, _.
Qed.

Lemma queue_for_frame w now t ids seen :
  rules (queue_for w now t ids seen) = rules w /\ next_rule (queue_for w now t ids seen) = next_rule w /\
  incidents (queue_for w now t ids seen) = incidents w /\ next_incident (queue_for w now t ids seen) = next_incident w /\
  Alerts.checker_dirty (queue_for w now t ids seen) = Alerts.checker_dirty w /\
  Alerts.checker_generation (queue_for w now t ids seen) = Alerts.checker_generation w.
Proof.
  revert w seen. induction ids as [|id ids IH]; intros w seen; simpl; [done|].
  destruct (destinations w !! id) as [dest|]; [|done]. destruct (dest_enabled dest && _); [|done].
  match goal with |- context [queue_for ?w1 now t ids (id :: seen)] =>
    destruct (IH w1 (id :: seen)) as (-> & -> & -> & -> & -> & ->) end. done.
Qed.

Lemma queue_frame now l w :
  let w' := queueAlertTransitions now l w in
  rules w' = rules w /\ next_rule w' = next_rule w /\ incidents w' = incidents w /\ next_incident w' = next_incident w /\
  Alerts.checker_dirty w' = Alerts.checker_dirty w /\ Alerts.checker_generation w' = Alerts.checker_generation w.
Proof.
  cbv zeta. unfold queueAlertTransitions. revert w. induction l as [|t l IH]; intros w; simpl; [done|].
  destruct (IH (queue_for w now t (DestinationIDs (t_rule_row t)) [])) as (-> & -> & -> & -> & -> & ->). apply queue_for_frame.
Qed.

Lemma apply_wf generation observations now w :
  alerts_wf w ->
  (applyAlertObservations generation observations now w).1 = None /\
  alerts_wf (applyAlertObservations generation observations now w).2.
Proof.
  intros Hwf. unfold applyAlertObservations. destruct observations as [|o os]; [done|].
  destruct (apply_rules_ok generation now (by_rule (o :: os)) w Hwf) as (w' & opened & recovered & -> & Hwf').
  split; [done|]. simpl. destruct (queue_frame now (opened ++ recovered) w') as (H1 & H2 & H3 & H4 & _). by eapply wf_ext.
Qed.
(** ** Operations of a workspace *)

Inductive op :=
| OpObserve (generation : Z) (observations : list alertRuleObservation) (now : Z)
| OpSaveRule (id : option Z) (input : AlertRuleWrite) (now : Z)
| OpDeleteRule (id now : Z)
| OpDeleteRotator (rotator now : Z)
| OpCleanup (now : Z)
| OpChecker (dirty : bool) (generation : Z)
| OpRotator (rotator : Z) (protocol : string)
| OpDestination (id : Z) (dest : option AlertDestination).

Definition exec (o : op) (w : World) : World :=
  match o with
  | OpObserve generation observations now => (applyAlertObservations generation observations now w).2
  | OpSaveRule id input now => (SaveAlertRule id input now w).2
  | OpDeleteRule id now => (DeleteAlertRule id now w).2
  | OpDeleteRotator rotator now => (DeleteRotatingProxy rotator now w).2
  | OpCleanup now => CleanupAlertHistory now w
  | OpChecker dirty generation =>
      MkWorld dirty generation (rotators w) (rules w) (next_rule w) (incidents w) (next_incident w)
        (destinations w) (deliveries w) (next_delivery w)
  | OpRotator rotator protocol =>
      MkWorld (Alerts.checker_dirty w) (Alerts.checker_generation w) (<[rotator := protocol]> (rotators w)) (rules w)
        (next_rule w) (incidents w) (next_incident w) (destinations w) (deliveries w) (next_delivery w)
  | OpDestination id dest =>
      MkWorld (Alerts.checker_dirty w) (Alerts.checker_generation w) (rotators w) (rules w) (next_rule w) (incidents w)
        (next_incident w) (partial_alter (fun _ => dest) id (destinations w)) (deliveries w) (next_delivery w)
  end.

Definition exec_all (l : list op) (w : World) : World := fold_left (fun w o => exec o w) l w.

Definition new_workspace : World := MkWorld false 0 ∅ ∅ 1 ∅ 1 ∅ ∅ 1.

Lemma configured_shape name t input revision :
  ActiveIncidentID (configured name t input revision) = None /\ rule_shape (configured name t input revision).
Proof. done. Qed.

Lemma wf_new_rule r w :
  alerts_wf w -> ActiveIncidentID r = None -> rule_shape r ->
  alerts_wf (MkWorld (Alerts.checker_dirty w) (Alerts.checker_generation w) (rotators w) (<[next_rule w := r]> (rules w)) (next_rule w + 1)
    (incidents w) (next_incident w) (destinations w) (deliveries w) (next_delivery w)).
Proof.
  intros [A B C D E] Ha Hs. constructor; simpl.
  - intros k r' Hk. apply lookup_insert_Some in Hk as [[<- _]|[_ Hk]]; [lia|]. specialize (A k r' Hk). lia.
  - exact B.
  - intros k r' i Hk Hact. apply lookup_insert_Some in Hk as [[<- <-]|[_ Hk]]; [congruence|by eapply C].
  - intros i inc Hi Hcl. destruct (D i inc Hi Hcl) as (r' & Hr' & Hact). exists r'.
    rewrite lookup_insert_ne; [done|]. specialize (A _ _ Hr'). lia.
  - intros k r' Hk. apply lookup_insert_Some in Hk as [[<- <-]|[_ Hk]]; [done|by eapply E].
Qed.

Lemma save_wf id input now w : alerts_wf w -> alerts_wf (SaveAlertRule id input now w).2.
Proof.
  intros Hwf. unfold SaveAlertRule. destruct (validate_rule input) as [[name t]|e]; [|done].
  destruct (match in_rotator input with Some _ => _ | None => _ end); [done|]. destruct (negb _); [done|].
  destruct id as [id|].
  - destruct (rules w !! id) as [rule|] eqn:Er; [|done]. simpl. apply (wf_close id rule rule now w); try done.
    + intros k Hk. by rewrite lookup_insert_ne.
    + intros r Hr. rewrite lookup_insert_eq in Hr. injection Hr as <-. apply configured_shape.
  - destruct (_ <=? _)%nat; [done|]. simpl. apply wf_new_rule; [done|done|apply configured_shape].
Qed.

Lemma delete_wf id now w : alerts_wf w -> alerts_wf (DeleteAlertRule id now w).2.
Proof.
  intros Hwf. unfold DeleteAlertRule. destruct (rules w !! id) as [rule|] eqn:Er; [|done]. simpl.
  apply (wf_close id rule rule now w); try done.
  - intros k Hk. by rewrite lookup_delete_ne.
  - intros r Hr. by rewrite lookup_delete_eq in Hr.
Qed.

Lemma disable_wf now ids w : alerts_wf w -> alerts_wf (disable_rules now ids w).
Proof.
  revert w. induction ids as [|id ids IH]; intros w Hwf; simpl; [done|].
  destruct (rules w !! id) as [rule|] eqn:Er; [|by apply IH]. apply IH.
  apply (wf_close id rule rule now w); try done.
  - intros k Hk. by rewrite lookup_insert_ne.
  - intros r Hr. rewrite lookup_insert_eq in Hr. by injection Hr as <-.
Qed.

Lemma old_incidents_closed now w i inc : i ∈ old_incidents now w -> incidents w !! i = Some inc -> ClosedAt inc <> None.
Proof.
  unfold old_incidents. intros Hin Hi. apply elem_of_take in Hin as (n & Hn & _). apply list_elem_of_lookup_2 in Hn.
  rewrite (merge_sort_Permutation Z.le) in Hn. apply list_elem_of_In, in_map_iff in Hn as ([j inc'] & Hj & Hf).
  apply List.filter_In in Hf as [Hf Hc]. apply list_elem_of_In, elem_of_map_to_list in Hf. simpl in Hj. subst j.
  assert (inc' = inc) as -> by congruence. by destruct (ClosedAt inc).
Qed.

Lemma cleanup_wf now w : alerts_wf w -> alerts_wf (CleanupAlertHistory now w).
Proof.
  intros [A B C D E]. constructor; simpl; try done.
  - intros i inc Hi. apply map_lookup_filter_Some in Hi as [Hi _]. by eapply B.
  - intros k r i Hk Hact. destruct (C k r i Hk Hact) as (inc & Hi & Hr & Hrev & Hcl). exists inc. split; [|done].
    apply map_lookup_filter_Some. split; [done|]. intros Hin. by apply (old_incidents_closed _ _ _ _ Hin Hi).
  - intros i inc Hi. apply map_lookup_filter_Some in Hi as [Hi _]. by eapply D.
Qed.

Lemma exec_alerts_wf o w : alerts_wf w -> alerts_wf (exec o w).
Proof.
  intros Hwf. destruct o; simpl.
  - by apply apply_wf.
  - by apply save_wf.
  - by apply delete_wf.
  - unfold DeleteRotatingProxy. destruct (rotators w !! rotator); [|done]. simpl.
    match goal with |- alerts_wf (MkWorld _ _ _ (rules ?w1) _ _ _ _ _ _) => apply (wf_ext w1); try done end. by apply disable_wf.
  - by apply cleanup_wf.
  - by apply (wf_ext w).
  - by apply (wf_ext w).
  - by apply (wf_ext w).
Qed.

Lemma exec_all_alerts_wf l w : alerts_wf w -> alerts_wf (exec_all l w).
Proof. unfold exec_all. revert w. induction l as [|o l IH]; intros w Hwf; [done|]. by apply IH, exec_alerts_wf. Qed.

Lemma new_workspace_wf : alerts_wf new_workspace.
Proof. constructor; simpl; intros *; by rewrite lookup_empty. Qed.

(** Incidents and rules agree, after any history of a workspace: a rule has at
    most one open incident and points at it; an open incident belongs to an
    enabled rule that exists, opened under its present revision, so a change of
    configuration or a deleted rotator leaves none open; and recording
    observations never fails on an incident that is missing or of another rule. *)
Theorem alert_incidents_invariant l :
  let w := exec_all l new_workspace in
  (forall i inc, incidents w !! i = Some inc -> ClosedAt inc = None ->
    exists r, rules w !! RuleID inc = Some r /\ ActiveIncidentID r = Some i /\ Enabled r = true /\
      Revision r = RuleRevision inc) /\
  (forall i j a b, incidents w !! i = Some a -> incidents w !! j = Some b ->
    ClosedAt a = None -> ClosedAt b = None -> RuleID a = RuleID b -> i = j) /\
  (forall k r i, rules w !! k = Some r -> ActiveIncidentID r = Some i ->
    exists inc, incidents w !! i = Some inc /\ RuleID inc = k /\ ClosedAt inc = None) /\
  (forall generation observations now, (applyAlertObservations generation observations now w).1 = None).
Proof.
  intros w. pose proof (exec_all_alerts_wf l _ new_workspace_wf) as Hwf. fold w in Hwf.
  split; [|split; [|split]].
  - intros i inc Hi Hcl. destruct (wf_open w Hwf i inc Hi Hcl) as (r & Hr & Ha). exists r. split; [done|]. split; [done|].
    destruct (wf_shape w Hwf _ _ Hr) as [S1 _]. destruct (wf_active w Hwf _ _ _ Hr Ha) as (inc' & Hi' & _ & Hrev & _).
    split; [destruct (Enabled r) eqn:E; [done|]; specialize (S1 eq_refl); congruence|]. congruence.
  - intros i j a b Hi Hj Ha Hb Hab. destruct (wf_open w Hwf i a Hi Ha) as (r & Hr & Hri).
    destruct (wf_open w Hwf j b Hj Hb) as (r' & Hr' & Hrj). rewrite Hab in Hr. congruence.
  - intros k r i Hk Hact. destruct (wf_active w Hwf k r i Hk Hact) as (inc & Hi & Hr & _ & Hcl). by exists inc.
  - intros. by apply apply_wf.
Qed.
(** ** When incidents open and close *)

(** Whether an observation is beyond the threshold; unknown is neither. *)
Definition verdict (rule : AlertRule) (o : AlertObservation) : option bool := option_map (breached rule) (Value o).

(** The latest observations of a history (newest first) that agree on [v] and
    follow each other within the gap: the instant of the first of them. *)
Fixpoint run_start (rule : AlertRule) (v : bool) (h : list (Z * AlertObservation)) : option Z :=
  match h with
  | [] => None
  | (t, o) :: rest =>
      if bool_decide (verdict rule o = Some v) then
        Some (match rest with
              | [] => t
              | (t', _) :: _ => if observationGap <? t - t' then t else default t (run_start rule v rest)
              end)
      else None
  end.

Definition sustained (rule : AlertRule) (v : bool) (h : list (Z * AlertObservation)) : bool :=
  match h, run_start rule v h with
  | (t, _) :: _, Some s => AlertSustainDuration <=? t - s
  | _, _ => false
  end.

(** Whether an incident is open after a history. *)
Fixpoint incident_open (rule : AlertRule) (h : list (Z * AlertObservation)) : bool :=
  match h with
  | [] => false
  | _ :: rest => if incident_open rule rest then negb (sustained rule false h) else sustained rule true h
  end.

(** The observations of one rule, applied one after the other: [applyAlertObservation]. *)
Definition applyAlertObservation (generation id : Z) (snapshot : AlertRule) (scope : string) (o : AlertObservation) (now : Z) (w : World)
    : option alert_error * World :=
  applyAlertObservations generation [MkInput id snapshot scope o false] now w.

Fixpoint play (generation id : Z) (snapshot : AlertRule) (scope : string) (h : list (Z * AlertObservation)) (w : World) : World :=
  match h with
  | [] => w
  | (t, o) :: rest => (applyAlertObservation generation id snapshot scope o t (play generation id snapshot scope rest w)).2
  end.

Definition settled (i : Z) (x : AlertRule * transition) : AlertRule :=
  match x with
  | (r, Stays) => r
  | (r, Opens _) => with_incident (Some i) r
  | (r, Recovers _) => with_incident None r
  end.

Lemma by_rule_single input : by_rule [input] = [(snapshot_id input, input)].
Proof.
  unfold by_rule. cbn [fold_left]. rewrite insert_empty, map_to_list_singleton.
  change (merge_sort Z.le (map fst [(snapshot_id input, input)])) with [snapshot_id input].
  simpl. by rewrite lookup_singleton_eq.
Qed.

(** One current observation of an enabled rule, in a workspace at rest. *)
Lemma apply_single id rule snap scope o now w :
  alerts_wf w -> rules w !! id = Some rule -> Enabled rule = true -> Revision rule = Revision snap ->
  Alerts.checker_dirty w = false ->
  match LastEvaluatedAt rule with Some t => t < now | None => True end ->
  let w' := (applyAlertObservation (Alerts.checker_generation w) id snap scope o now w).2 in
  rules w' !! id = Some (settled (next_incident w) (observe (with_attempt now rule) now o)) /\
  (forall k, k <> id -> rules w' !! k = rules w !! k) /\ alerts_wf w' /\
  Alerts.checker_dirty w' = false /\ Alerts.checker_generation w' = Alerts.checker_generation w.
Proof.
  intros Hwf Hr Hen Hrev Hd Ht. cbv zeta. unfold applyAlertObservation, applyAlertObservations.
  rewrite by_rule_single. cbn [apply_rules snapshot_id]. rewrite Hr, Hen. simpl negb. cbv iota.
  destruct (apply_rule_ok (Alerts.checker_generation w) now id rule (MkInput id snap scope o false) w Hwf Hr Hen)
    as (w1 & t & Ha & Hwf1 & Hother & Hd1 & Hg1).
  assert (rules w1 !! id = Some (settled (next_incident w) (observe (with_attempt now rule) now o))) as Hrow.
  { unfold apply_rule in Ha. cbn [snapshot missingRotator observation] in Ha. rewrite Hrev, Z.eqb_refl in Ha. simpl negb in Ha. cbv iota in Ha.
    change (LastEvaluatedAt (with_attempt now rule)) with (LastEvaluatedAt rule) in Ha.
    assert ((match LastEvaluatedAt rule with Some t => now <=? t | None => false end) = false) as Hle
      by (destruct (LastEvaluatedAt rule); [apply Z.leb_gt; lia|done]).
    rewrite Hle, Hd, Z.eqb_refl in Ha. simpl orb in Ha. cbv iota in Ha.
    assert (rule_shape (with_attempt now rule)) as Hs by (by eapply wf_shape in Hr).
    destruct (observe (with_attempt now rule) now o) as [rule' tr] eqn:Eo.
    destruct (observe_frame _ _ _ _ _ Eo Hs) as (Hact & _ & _ & _ & _ & _ & _ & _ & _ & _ & Htr).
    destruct tr as [|value|value]; [|by injection Ha as <- _; simpl; rewrite lookup_insert_eq|].
    - injection Ha as <- _. simpl. by rewrite lookup_insert_eq.
    - destruct (ActiveIncidentID rule') as [i|]; [|by rewrite <- Hact in Htr].
      destruct (incidents w !! i) as [inc|]; [|done]. destruct (negb _); [done|]. destruct (_ || _); [done|].
      injection Ha as <- _. simpl. by rewrite lookup_insert_eq. }
  rewrite Ha. cbn [apply_rules]. destruct t as [[x|x]|]; cbn [snd];
    match goal with |- context [queueAlertTransitions now ?l w1] => destruct (queue_frame now l w1) as (-> & H2 & H3 & H4 & -> & ->) end;
    (split; [done|]); (split; [done|]); (split; [|by rewrite Hd1]); apply (wf_ext w1); try done; apply queue_frame.
Qed.
(** The runs a rule keeps track of, after a history. *)
Definition tracks (rule : AlertRule) (h : list (Z * AlertObservation)) (r : AlertRule) : Prop :=
  (ActiveIncidentID r <> None <-> incident_open rule h = true) /\
  BreachSince r = (if incident_open rule h then None else run_start rule true h) /\
  RecoverySince r = (if incident_open rule h then run_start rule false h else None).

Lemma run_step rule v t o rest last late :
  last = fst <$> head rest -> verdict rule o = Some v ->
  late = match last with Some t' => observationGap <? t - t' | None => false end ->
  run_start rule v ((t, o) :: rest) = Some (default t (if late : bool then None else run_start rule v rest)).
Proof.
  intros -> Hv ->. simpl. rewrite bool_decide_eq_true_2 by done. destruct rest as [|[t' o'] rest]; simpl; [done|].
  by destruct (observationGap <? t - t').
Qed.

Lemma run_other rule v t o rest : verdict rule o <> Some v -> run_start rule v ((t, o) :: rest) = None.
Proof. intros Hv. simpl. by rewrite bool_decide_eq_false_2. Qed.

Lemma observe_tracks rule r t o rest i :
  tracks rule rest r -> LastEvaluatedAt r = fst <$> head rest ->
  Metric r = Metric rule -> Threshold r = Threshold rule ->
  tracks rule ((t, o) :: rest) (settled i (observe r t o)).
Proof.
  intros (Hact & Hb & Hrec) Hlast Hm Hth.
  assert (forall v, breached r v = breached rule v) as Hbr by (intros v; unfold breached; by rewrite Hm, Hth).
  unfold tracks, observe. rewrite Hb, Hrec. cbn [incident_open].
  set (late := match LastEvaluatedAt r with Some t' => observationGap <? t - t' | None => false end).
  assert (forall v, verdict rule o = Some v -> run_start rule v ((t, o) :: rest) =
    Some (default t (if late then None else run_start rule v rest))) as Hrun
    by (intros v Hv; by apply (run_step rule v t o rest (LastEvaluatedAt r))).
  assert (forall v, sustained rule v ((t, o) :: rest) =
    match run_start rule v ((t, o) :: rest) with Some s => AlertSustainDuration <=? t - s | None => false end) as Hsus by done.
  rewrite !Hsus. clear Hsus. destruct (Value o) as [value|] eqn:Ev.
  2:{ assert (verdict rule o = None) as Hv by (unfold verdict; by rewrite Ev).
      rewrite !run_other by (by rewrite Hv). simpl. by destruct (incident_open rule rest). }
  rewrite Hbr. assert (verdict rule o = Some (breached rule value)) as Hv by (unfold verdict; by rewrite Ev).
  destruct (breached rule value), (ActiveIncidentID r) as [j|] eqn:Ea.
  - destruct (incident_open rule rest); [|by discriminate (proj1 Hact ltac:(done))].
    rewrite (Hrun true Hv), (run_other rule false) by (by rewrite Hv). simpl. rewrite Ea. by destruct late.
  - destruct (incident_open rule rest); [by destruct (proj2 Hact eq_refl)|].
    rewrite (Hrun true Hv), (run_other rule false) by (by rewrite Hv).
    destruct (AlertSustainDuration <=? _); simpl; [done|]. rewrite Ea. naive_solver.
  - destruct (incident_open rule rest); [|by discriminate (proj1 Hact ltac:(done))].
    rewrite (Hrun false Hv), (run_other rule true) by (by rewrite Hv).
    destruct (AlertSustainDuration <=? _); simpl; [naive_solver|]. rewrite Ea. done.
  - destruct (incident_open rule rest); [by destruct (proj2 Hact eq_refl)|].
    rewrite (Hrun false Hv), (run_other rule true) by (by rewrite Hv). simpl. rewrite Ea. naive_solver.
Qed.

Lemma settled_frame rule now o i :
  rule_shape rule -> let r := settled i (observe rule now o) in
  Revision r = Revision rule /\ Enabled r = Enabled rule /\ Metric r = Metric rule /\ Threshold r = Threshold rule /\
  LastEvaluatedAt r = Some now.
Proof.
  intros Hs. cbv zeta. destruct (observe rule now o) as [r tr] eqn:E.
  destruct (observe_frame _ _ _ _ _ E Hs) as (_ & H2 & H3 & _ & H5 & H6 & _ & _ & H9 & _). destruct tr; done.
Qed.

Lemma play_tracks generation id rule scope h w :
  alerts_wf w -> rules w !! id = Some rule -> Enabled rule = true -> ActiveIncidentID rule = None ->
  BreachSince rule = None -> LastEvaluatedAt rule = None ->
  Alerts.checker_dirty w = false -> Alerts.checker_generation w = generation ->
  StronglySorted (fun a b => b.1 < a.1) h ->
  let w' := play generation id rule scope h w in
  alerts_wf w' /\ Alerts.checker_dirty w' = false /\ Alerts.checker_generation w' = generation /\
  (forall k, k <> id -> rules w' !! k = rules w !! k) /\
  exists r, rules w' !! id = Some r /\ tracks rule h r /\ LastEvaluatedAt r = fst <$> head h /\
    Revision r = Revision rule /\ Enabled r = true /\ Metric r = Metric rule /\ Threshold r = Threshold rule.
Proof.
  intros Hwf Hr Hen Hact Hb Hlast Hd Hg Hs. cbv zeta. induction h as [|[t o] rest IH]; simpl.
  - split; [done|]. split; [done|]. split; [done|]. split; [done|]. exists rule. split; [done|]. split; [|done].
    unfold tracks. simpl. split; [naive_solver|]. split; [done|]. by apply (wf_shape w Hwf id).
  - inversion Hs as [|? ? Hs' Hf]; subst.
    destruct (IH Hs') as (Hwf0 & Hd0 & Hg0 & Hother0 & r0 & Hr0 & Htr & Hl0 & Hrev0 & Hen0 & Hm0 & Ht0). clear IH.
    set (w0 := play (Alerts.checker_generation w) id rule scope rest w) in *.
    destruct (apply_single id r0 rule scope o t w0) as (Hrow & Hother & Hwf' & Hd' & Hg'); try done.
    { rewrite Hl0. destruct rest as [|[t' o'] rest]; [done|]. inversion Hf. done. }
    rewrite Hg0 in Hrow, Hother, Hwf', Hd', Hg'.
    split; [done|]. split; [done|]. split; [done|]. split; [intros k Hk; rewrite Hother by done; by apply Hother0|].
    assert (rule_shape (with_attempt t r0)) as Hs0 by (by eapply wf_shape in Hr0).
    destruct (settled_frame (with_attempt t r0) t o (next_incident w0) Hs0) as (F1 & F2 & F3 & F4 & F5).
    eexists. split; [exact Hrow|]. split; [by apply observe_tracks|].
    split; [done|]. rewrite F1, F2, F3, F4. done.
Qed.

(** C15. Incidents follow the history of observations.  For a newly configured
    rule observed at increasing instants, an incident is open exactly when the
    history says so: it opens at the first observation that ends two minutes of
    consecutive breaching observations no more than ninety seconds apart, and
    closes at the first that ends two minutes of healthy ones; an unknown
    observation or a longer gap starts the run over and leaves the incident as
    it is.  No other rule is touched. *)
Theorem alert_follows_history generation id rule scope h w :
  alerts_wf w -> rules w !! id = Some rule -> Enabled rule = true -> ActiveIncidentID rule = None ->
  BreachSince rule = None -> LastEvaluatedAt rule = None ->
  Alerts.checker_dirty w = false -> Alerts.checker_generation w = generation ->
  StronglySorted (fun a b => b.1 < a.1) h ->
  let w' := play generation id rule scope h w in
  (exists r, rules w' !! id = Some r /\ (ActiveIncidentID r <> None <-> incident_open rule h = true) /\
    BreachSince r = (if incident_open rule h then None else run_start rule true h) /\
    RecoverySince r = (if incident_open rule h then run_start rule false h else None)) /\
  forall k, k <> id -> rules w' !! k = rules w !! k.
Proof.
  intros Hwf Hr Hen Hact Hb Hlast Hd Hg Hs. cbv zeta.
  destruct (play_tracks generation id rule scope h w) as (_ & _ & _ & Hother & r & Hrow & Htr & _); try done.
  split; [|done]. exists r. by split.
Qed.

(** An input by [by_rule] is one of the observations, filed under its rule. *)
Lemma elem_of_by_rule observations id input :
  (id, input) ∈ by_rule observations -> input ∈ observations /\ snapshot_id input = id.
Proof.
  unfold by_rule.
  assert (forall (m : gmap Z alertRuleObservation) l,
    (forall k o, m !! k = Some o -> o ∈ l /\ snapshot_id o = k) -> forall os,
    forall k o, fold_left (fun m o => <[snapshot_id o := o]> m) os m !! k = Some o -> o ∈ l ++ os /\ snapshot_id o = k) as Hfold.
  { intros m l Hm os. revert m l Hm. induction os as [|x os IH]; intros m l Hm k o; simpl; [rewrite app_nil_r; apply Hm|].
    intros H. replace (l ++ x :: os) with ((l ++ [x]) ++ os) by (by rewrite <- app_assoc). revert H. apply IH. clear -Hm.
    intros k o [[<- <-]|[_ Hk]]%lookup_insert_Some; [set_solver|]. destruct (Hm k o Hk). set_solver. }
  intros (k & _ & Hk)%list_elem_of_omap. simpl in Hk.
  destruct (_ !! k) as [o|] eqn:E; [|done]. injection Hk as <- <-.
  by apply (Hfold ∅ [] (fun k o H => ltac:(by rewrite lookup_empty in H)) observations).
Qed.

(** What [apply_rule] requires of an input before it looks at the measurement. *)
Definition current_input (now : Z) (rule : AlertRule) (input : alertRuleObservation) : bool :=
  Enabled rule && (Revision rule =? Revision (snapshot input)) &&
  (missingRotator input || match LastEvaluatedAt rule with Some t => t <? now | None => true end).

Lemma apply_rules_stale generation now id rule batch w w' opened recovered :
  alerts_wf w -> rules w !! id = Some rule ->
  (forall input, (id, input) ∈ batch -> current_input now rule input = false) ->
  apply_rules generation now batch w = Ok (w', opened, recovered) -> rules w' !! id = Some rule.
Proof.
  revert w w' opened recovered. induction batch as [|[k input] batch IH]; intros w w' opened recovered Hwf Hr Hst; simpl;
    [by intros [= <- _ _]|].
  assert (forall i, (id, i) ∈ batch -> current_input now rule i = false) as Hst' by (intros i Hi; apply Hst; by apply list_elem_of_further).
  destruct (rules w !! k) as [row|] eqn:Ek; [|by apply IH].
  destruct (Enabled row) eqn:Een; simpl; [|by apply IH].
  destruct (apply_rule_ok generation now k row input w Hwf Ek Een) as (w1 & t & Ha & Hwf1 & Hother & _). rewrite Ha.
  assert (rules w1 !! id = Some rule) as Hr1.
  { destruct (decide (id = k)) as [<-|Hne]; [|by rewrite Hother].
    assert (row = rule) as -> by congruence. specialize (Hst input (list_elem_of_here _ _)).
    unfold current_input in Hst. unfold apply_rule in Ha. rewrite Een in Hst.
    destruct (Revision rule =? Revision (snapshot input)); simpl in Hst, Ha; [|by injection Ha as <- _].
    destruct (missingRotator input); [done|]. simpl in Hst.
    destruct (LastEvaluatedAt rule) as [t0|]; [|done]. replace (now <=? t0) with true in Ha by lia. by injection Ha as <- _. }
  destruct (apply_rules generation now batch w1) as [[[w2 o2] r2]|e] eqn:E; [|done].
  intros H. assert (w' = w2) as -> by (destruct t as [[x|x]|]; congruence). by eapply IH.
Qed.

(** Observations that are no longer current change nothing: a rule that was
    reconfigured or disabled while it was measured, or that has been observed
    at this instant or later, keeps its row, whatever else the batch says; only
    a rotator found to be gone is recorded out of order. *)
Theorem stale_observations_ignored generation observations now w id rule :
  alerts_wf w -> rules w !! id = Some rule ->
  (forall o, o ∈ observations -> snapshot_id o = id -> current_input now rule o = false) ->
  rules (applyAlertObservations generation observations now w).2 !! id = Some rule.
Proof.
  intros Hwf Hr Hst. unfold applyAlertObservations. destruct observations as [|x os]; [done|].
  destruct (apply_rules_ok generation now (by_rule (x :: os)) w Hwf) as (w' & opened & recovered & E & _). rewrite E. simpl.
  destruct (queue_frame now (opened ++ recovered) w') as (-> & _).
  eapply (apply_rules_stale _ _ id rule _ _ _ _ _ Hwf Hr); [|exact E].
  intros input (Hin & Hid)%elem_of_by_rule. by apply Hst.
Qed.

(** ** Concrete histories *)

Definition latency_rule : AlertRule :=
  configured "slow" (float_of_Z 500) (MkWrite "slow" None AlertMetricLatency (Some (float_of_Z 500)) true []) 1.

Definition one_rule : World := exec (OpSaveRule None (MkWrite "slow" None AlertMetricLatency (Some (float_of_Z 500)) true []) 0) new_workspace.

(** Three slow observations a minute apart, then a missing one. *)
Definition slow_history : list (Z * AlertObservation) :=
  let slow := MkObservation (Some (float_of_Z 900)) 40 "" in
  [(4 * Minute, MkObservation None 3 "Fewer than 20 check samples in the last 15 minutes");
   (3 * Minute, slow); (2 * Minute, slow); (1 * Minute, slow)].

Lemma one_rule_row : rules one_rule !! 1 = Some latency_rule.
Proof. vm_compute. reflexivity. Qed.

Lemma one_rule_wf : alerts_wf one_rule.
Proof. apply exec_alerts_wf, new_workspace_wf. Qed.

Lemma alert_follows_history_witness :
  exists r, rules (play 0 1 latency_rule "" slow_history one_rule) !! 1 = Some r /\ ActiveIncidentID r <> None /\
    RecoverySince r = None.
Proof.
  destruct (alert_follows_history 0 1 latency_rule "" slow_history one_rule) as [(r & Hr & Ha & _ & Hrec) _].
  - exact one_rule_wf.
  - exact one_rule_row.
  - reflexivity.
  - reflexivity.
  - reflexivity.
  - reflexivity.
  - reflexivity.
  - reflexivity.
  - unfold slow_history. repeat constructor.
  - exists r. split; [exact Hr|]. split; [apply Ha; vm_compute; reflexivity|]. rewrite Hrec. vm_compute. reflexivity.
Defined.

Lemma stale_observations_ignored_witness :
  rules (applyAlertObservations 0 [MkInput 1 (with_incident (Some 7) (rotator_deleted latency_rule)) "" (MkObservation None 0 "") false] 5 one_rule).2 !! 1
    = Some latency_rule.
Proof.
  apply stale_observations_ignored; [exact one_rule_wf|exact one_rule_row|].
  intros o Ho%list_elem_of_singleton _. subst o. reflexivity.
Defined.
End Alerts.
