(* ===== verification/AlertDeliveries.v ===== *)
(** * Alert destinations and deliveries

    [internal/database/alert_deliveries.go], the destinations of [alerts.go],
    [support/alert_sender.go] up to the request it sends, and
    [internal/jobs/runtime/alerts.go].  Workers claim due deliveries under a
    random token, send them and record the outcome; an event for a destination
    waits for the earlier events of its incident to be dealt with.  The tables
    are those of Alerts.v: one workspace.  A claim ranges over every workspace,
    so [limit] stands for the places that fall to this one and [locked] for the
    rows other claims hold ([SKIP LOCKED]).  Encryption, the mail address
    parser and what the request itself returns are parameters. *)

From S2P Require Import Prelude GoStrings Netip OutboundGuard Rotator Alerts.
From stdpp Require Import sorting.
From Stdlib Require Import SpecFloat.
Open Scope Z_scope.

Module AlertDeliveries.
Import OutboundGuard Rotator Alerts.

(** ** Destinations *)

Section Destinations.
Context (ParseRequestURI : string -> option URL) (Path Fragment Port : URL -> string).
(** [mail.ParseAddress]: the address of a mailbox. *)
Context (ParseAddress : string -> option string).
Context (EncryptProxySecret : string -> option string) (privateEgress : bool).

Definition alert_checks (checks : list (bool * string)) : option alert_error :=
  first_match (fun '(bad, message) => if bad : bool then Some (Invalid message) else None) checks.

Definition one_line (s : string) : bool := negb (contains_byte (chr 13) s) && negb (contains_byte (chr 10) s).

Definition ValidateAlertTarget (kind target : string) : option alert_error :=
  if (slen target =? 0)%nat || (4096 <? slen target)%nat || negb (one_line target)
  then Some (Invalid "target is required and must be at most 4096 bytes")
  else if String.eqb kind "email" then
    match ParseAddress target with
    | Some address =>
        if negb (String.eqb address target) || (254 <? slen target)%nat
        then Some (Invalid "enter one email address without a display name") else None
    | None => Some (Invalid "enter one email address without a display name")
    end
  else
    match ValidateOutboundHTTPLiteral ParseRequestURI privateEgress target with
    | Err _ => Some (Invalid "webhook URL is invalid or blocked by outbound network policy")
    | Ok parsed =>
        let host := to_lower (Hostname parsed) in
        alert_checks
          [(negb (String.eqb (Scheme parsed) "https") && negb (String.eqb kind "webhook" && privateEgress),
             "webhook URL must use HTTPS");
           (negb (String.eqb (Fragment parsed) ""), "webhook URL cannot contain a fragment");
           (String.eqb kind "slack" &&
             ((negb (String.eqb host "hooks.slack.com") && negb (String.eqb host "hooks.slack-gov.com")) ||
              negb (has_prefix "/services/" (Path parsed)) || negb (String.eqb (Port parsed) "")),
             "enter a Slack incoming webhook URL");
           (String.eqb kind "discord" &&
             (negb (String.eqb host "discord.com") ||
              negb (has_prefix "/api/webhooks/" (Path parsed)) || negb (String.eqb (Port parsed) "")),
             "enter a Discord webhook URL")]
    end.

(** [slackAlertGroupID] *)
Definition slackAlertGroupID (s : string) : bool :=
  match s with
  | String c rest =>
      Ascii.eqb c (chr 83) && (1 <=? slen rest)%nat && (slen rest <=? 31)%nat &&
      forallb (fun c => is_upper c || is_digit c) (bytes rest)
  | EmptyString => false
  end.

(** A decimal of an unsigned 64-bit number other than zero, as [FormatUint] writes it. *)
Definition discordRoleID (s : string) : bool :=
  forallb is_digit (bytes s) && negb (String.eqb s "") &&
  match digits_val 0 s with
  | Some v => (1 <=? v) && (v <? 2 ^ 64) && String.eqb (itoa v) s
  | None => false
  end.

Definition ValidateAlertMention (kind mode id : string) : option string :=
  if String.eqb mode "" || String.eqb mode "none" then None
  else if (String.eqb kind "discord" || String.eqb kind "slack") && (String.eqb mode "here" || String.eqb mode "everyone") then None
  else if String.eqb kind "discord" && String.eqb mode "role" then
    if discordRoleID id then None else Some "enter a numeric Discord role ID"
  else if String.eqb kind "slack" && String.eqb mode "channel" then None
  else if String.eqb kind "slack" && String.eqb mode "user_group" then
    if slackAlertGroupID id then None else Some "enter a Slack user group ID beginning with S"
  else Some "mention option is not supported for this channel".

(** [dto.AlertDestinationWrite] *)
Record AlertDestinationWrite := MkDestinationWrite {
  dw_name : string; dw_kind : string; dw_enabled : bool; dw_target : option string; dw_secret : option string;
  dw_mode : option string; dw_mention : option string
}.

Definition destination_input (input : AlertDestinationWrite) : option alert_error :=
  let kind := dw_kind input in
  match alert_checks
    [(negb (name_ok (trim_space (dw_name input))), "name is required and must be at most 120 bytes");
     (negb (bool_decide (kind ∈ ["email"; "slack"; "discord"; "webhook"])), "unknown destination kind");
     (match dw_secret input with
      | Some s => negb (String.eqb kind "webhook") || (4096 <? slen s)%nat
      | None => false
      end, "signing secrets apply only to generic webhooks and must be at most 4096 bytes")] with
  | Some e => Some e
  | None => match dw_target input with Some t => ValidateAlertTarget kind (trim_space t) | None => None end
  end.

(** The encrypted target and secret; an absent or empty secret stays empty. *)
Definition encrypted (input : AlertDestinationWrite) : option (string * string) :=
  let target := match dw_target input with Some t => EncryptProxySecret (trim_space t) | None => Some "" end in
  let secret :=
    match dw_secret input with
    | Some s => if String.eqb s "" then Some "" else EncryptProxySecret s
    | None => Some ""
    end in
  match target, secret with Some t, Some s => Some (t, s) | _, _ => None end.

Definition cancelAlertDestinationDeliveries (id : Z) (w : World) : World :=
  with_deliveries ((fun d => if d_destination d =? id then cancel_delivery "Destination changed" d else d) <$> deliveries w)
    (next_delivery w) w.

Definition merged (old : AlertDestination) (input : AlertDestinationWrite) (target secret : string) : AlertDestination :=
  let mode := match dw_mode input with Some m => trim_space m | None => MentionMode old end in
  let mode := if String.eqb mode "" then "none" else mode in
  let id := match dw_mention input with Some i => trim_space i | None => MentionID old end in
  let id := if negb (String.eqb mode "role") && negb (String.eqb mode "user_group") then "" else id in
  MkDestination (trim_space (dw_name input)) (dw_kind input) (dw_enabled input) mode id
    (match dw_target input with Some _ => target | None => TargetEncrypted old end)
    (match dw_secret input with Some _ => secret | None => SigningSecretEncrypted old end).

(** [SaveAlertDestination]: [None] creates a destination under the identifier
    [fresh] of the database; an error rolls the transaction back. *)
Definition SaveAlertDestination (id : option Z) (fresh : Z) (input : AlertDestinationWrite) (w : World)
    : option alert_error * World :=
  match destination_input input with
  | Some e => (Some e, w)
  | None =>
      match encrypted input with
      | None => (Some EncryptionFailed, w)
      | Some (target, secret) =>
          let save key (old : AlertDestination) w1 :=
            let d := merged old input target secret in
            match ValidateAlertMention (dest_kind d) (MentionMode d) (MentionID d) with
            | Some message => (Some (Invalid message), w)
            | None => (None, with_destinations (<[key := d]> (destinations w1)) w1)
            end in
          match id with
          | Some key =>
              match destinations w !! key with
              | None => (Some RecordNotFound, w)
              | Some old =>
                  if negb (String.eqb (dest_kind old) (dw_kind input))
                  then (Some (Invalid "destination kind cannot change"), w)
                  else save key old (cancelAlertDestinationDeliveries key w)
              end
          | None =>
              if bool_decide (dw_target input = None) then (Some (Invalid "target is required"), w)
              else if (20 <=? size (destinations w))%nat
              then (Some (Invalid "workspace has reached its limit of 20 alert destinations"), w)
              else save fresh (MkDestination "" "" false "" "" "" "") w
          end
      end
  end.
End Destinations.

Definition DeleteAlertDestination (id : Z) (w : World) : option alert_error * World :=
  match destinations w !! id with
  | None => (Some RecordNotFound, w)
  | Some _ =>
      let w := cancelAlertDestinationDeliveries id w in
      (None, with_destinations (delete id (destinations w)) w)
  end.

(** ** Claims *)

Definition AlertMaximumDeliveryAttempts : Z := 4.
(** How long a claim lasts. *)
Definition interruptedAfter : Z := 5 * Minute.

Definition with_status (status err token : string) (d : AlertDelivery) : AlertDelivery :=
  MkDelivery (d_incident d) (d_destination d) (d_event d) (d_payload d) status (d_attempts d) err
    (d_next d) token (d_last_attempt d) (d_sent d).

Definition active (d : AlertDelivery) : bool := bool_decide (d_status d ∈ ["pending"; "processing"]).

(** The first statement of a claim: attempts interrupted five minutes ago. *)
Definition reclaim (now : Z) (d : AlertDelivery) : AlertDelivery :=
  let interrupted :=
    String.eqb (d_status d) "processing" &&
    match d_last_attempt d with Some t => t <? now - interruptedAfter | None => false end in
  if interrupted then
    if AlertMaximumDeliveryAttempts <=? d_attempts d
    then with_status "failed" "Delivery attempt interrupted" "" d
    else with_status "pending" (d_last_error d) "" d
  else d.

(** An event for the same incident and destination. *)
Definition sibling (d e : AlertDelivery) : bool :=
  (d_incident d =? d_incident e) && (d_destination d =? d_destination e).

Definition waits_for_older (ds : gmap Z AlertDelivery) (id : Z) (d : AlertDelivery) : bool :=
  existsb (fun '(k, older) => (k <? id) && sibling older d && active older) (map_to_list ds).

Definition due (now : Z) (locked : list Z) (ds : gmap Z AlertDelivery) (id : Z) : bool :=
  match ds !! id with
  | Some d => String.eqb (d_status d) "pending" && (d_next d <=? now) && negb (waits_for_older ds id d) &&
              negb (bool_decide (id ∈ locked))
  | None => false
  end.

Definition by_id (ds : gmap Z AlertDelivery) : list Z := merge_sort Z.le (map fst (map_to_list ds)).

Definition claim_row (token : string) (now : Z) (d : AlertDelivery) : AlertDelivery :=
  MkDelivery (d_incident d) (d_destination d) (d_event d) (d_payload d) "processing" (d_attempts d + 1) (d_last_error d)
    (d_next d) token (Some now) (d_sent d).

Definition claimed_ids (limit now : Z) (locked : list Z) (ds : gmap Z AlertDelivery) : list Z :=
  take (Z.to_nat limit) (List.filter (due now locked ds) (by_id ds)).

(** A claimed row with its identifier. *)
Definition message : Type := Z * AlertDelivery.

Definition ClaimAlertDeliveries (limit now : Z) (locked : list Z) (token : string) (w : World) : list message * World :=
  if limit <=? 0 then ([], w)
  else
    let ds := reclaim now <$> deliveries w in
    let ids := claimed_ids limit now locked ds in
    let ds' := fold_left (fun m id => alter (claim_row token now) id m) ids ds in
    (omap (fun id => pair id <$> ds' !! id) ids, with_deliveries ds' (next_delivery w) w).

Definition holds (m : message) (d : AlertDelivery) : bool :=
  String.eqb (d_status d) "processing" && String.eqb (d_token d) (d_token m.2).

Definition GetAlertDeliveryDestination (m : message) (w : World) : option AlertDestination :=
  match deliveries w !! m.1, destinations w !! d_destination m.2 with
  | Some d, Some dest => if dest_enabled dest && holds m d then Some dest else None
  | _, _ => None
  end.

Definition FinishAlertDelivery (m : message) (status err : string) (next now : Z) (w : World) : World :=
  let finish d :=
    if holds m d then
      MkDelivery (d_incident d) (d_destination d) (d_event d) (d_payload d) status (d_attempts d) err next ""
        (d_last_attempt d) (if String.eqb status "sent" then Some now else d_sent d)
    else d in
  with_deliveries (alter finish m.1 (deliveries w)) (next_delivery w) w.

Definition retriable (id : Z) (d : AlertDelivery) (w : World) : bool :=
  String.eqb (d_status d) "failed" &&
  match destinations w !! d_destination d with Some dest => dest_enabled dest | None => false end &&
  negb (existsb (fun '(k, newer) => sibling newer d && (id <? k)) (map_to_list (deliveries w))) &&
  match incidents w !! d_incident d with
  | Some i =>
      negb (String.eqb (CloseReason i) "configuration_changed") &&
      match rules w !! RuleID i with Some r => Revision r =? RuleRevision i | None => false end
  | None => false
  end.

Definition RetryAlertDelivery (id now : Z) (w : World) : option alert_error * World :=
  match deliveries w !! id with
  | Some d =>
      if retriable id d w then
        let d' := MkDelivery (d_incident d) (d_destination d) (d_event d) (d_payload d) "pending" 0 "" now ""
                    (d_last_attempt d) (d_sent d) in
        (None, with_deliveries (<[id := d']> (deliveries w)) (next_delivery w) w)
      else (Some (Invalid "only the latest failed delivery with an enabled destination and unchanged rule can be retried"), w)
  | None =>
      (Some (Invalid "only the latest failed delivery with an enabled destination and unchanged rule can be retried"), w)
  end.

(** ** Sending *)

(** [support.AlertSendError] *)
Record AlertSendError := MkSendError { Message : string; Permanent : bool; RetryAfter : Z }.

(** How an attempt went: the destination could not be read or is gone, the
    event was sent, or the send failed, with or without an [AlertSendError]. *)
Inductive attempt :=
| NotRead
| DestinationGone
| Sent
| SendFailed (err : option AlertSendError).

(** The status, the error and the instant of the next attempt. *)
Definition verdict_of (attempts now : Z) (a : attempt) : option (string * string * Z) :=
  match a with
  | NotRead => None
  | DestinationGone => Some ("canceled", "Destination disabled or deleted", now)
  | Sent => Some ("sent", "", now)
  | SendFailed err =>
      let delay := 5 * Second * 2 ^ (attempts `min` 8) in
      let '(status, reason, delay) :=
        match err with
        | Some e => (if Permanent e then "failed" else "pending", Message e,
                     if delay <? RetryAfter e then RetryAfter e else delay)
        | None => ("pending", "Notification delivery failed", delay)
        end in
      let status := if AlertMaximumDeliveryAttempts <=? attempts then "failed" else status in
      Some (status, reason, now + delay)
  end.

(** What [deliverAlertMessage] records of an attempt. *)
Definition finish_attempt (m : message) (now : Z) (a : attempt) (w : World) : World :=
  match verdict_of (d_attempts m.2) now a with
  | None => w
  | Some (status, reason, next) => FinishAlertDelivery m status reason next now w
  end.

(** [deliverAlertMessage]: the destination is looked up in [w0], the outcome
    recorded in [w1], other workers in between. *)
Definition deliverAlertMessage (send : message -> AlertDestination -> option (option AlertSendError))
    (m : message) (now : Z) (w0 w1 : World) : World :=
  let a :=
    match GetAlertDeliveryDestination m w0 with
    | None => DestinationGone
    | Some dest => match send m dest with None => Sent | Some e => SendFailed e end
    end in
  finish_attempt m now a w1.

(** ** The text of a message *)

(** [strings.ReplaceAll] and [strings.NewReplacer] for single bytes. *)
Fixpoint replace_bytes (f : Ascii.ascii -> option string) (s : string) : string :=
  match s with
  | EmptyString => EmptyString
  | String c s' => match f c with Some r => r +:+ replace_bytes f s' | None => String c (replace_bytes f s') end
  end.

Definition at_sign : Ascii.ascii := chr 64.
Definition newline : string := String (chr 10) "".
(** U+200B in UTF-8. *)
Definition zero_width_space : string := of_bytes [chr 226; chr 128; chr 139].

Definition break_mentions : string -> string :=
  replace_bytes (fun c => if Ascii.eqb c at_sign then Some (String at_sign zero_width_space) else None).

Definition slack_escape : string -> string :=
  replace_bytes (fun c =>
    if Ascii.eqb c (chr 38) then Some "&amp;" else if Ascii.eqb c (chr 60) then Some "&lt;"
    else if Ascii.eqb c (chr 62) then Some "&gt;" else None).

Definition upper_byte (c : Ascii.ascii) : Ascii.ascii := if is_lower c then chr (code c - 32) else c.

(** [alertMessageBody]; [format] is [fmt]'s [%.*f].  Protocol names are ASCII. *)
Definition alertMessageBody (format : Z -> spec_float -> string) (workspace : string) (event : AlertEvent) : string :=
  let latency := String.eqb (ev_metric event) "latency_ms" in
  let success := String.eqb (ev_metric event) "success_rate" in
  let usable := String.eqb (ev_metric event) "usable_routes" in
  let metric := if latency then "Average successful-check latency" else if success then "Checker success rate" else "Usable routes" in
  let unit := if latency then " ms" else if success then "%" else "" in
  let recovered := String.eqb (ev_event event) "recovered" in
  let comparison := if recovered then "threshold" else if latency then "above" else "below" in
  let state := if recovered then "Incident recovered" else "Incident opened" in
  let measurement :=
    if usable then "Current routing eligibility"
    else if String.eqb (ev_measurement event) "workspace_protocol_tcp_checks"
    then of_bytes (map upper_byte (bytes (ev_protocol event))) +:+ " TCP workspace checker attempts, last 15 minutes"
    else "Workspace checker attempts, last 15 minutes" in
  let precision := if usable then 0 else 2 in
  "Magpie: " +:+ state +:+ newline +:+ "Workspace: " +:+ workspace +:+ newline +:+ "Scope: " +:+ ev_scope event +:+ newline
    +:+ "Measurement: " +:+ measurement +:+ newline +:+ "Rule: " +:+ ev_rule_name event +:+ newline
    +:+ metric +:+ ": " +:+ format precision (ev_value event) +:+ unit +:+ ", " +:+ comparison +:+ " "
    +:+ format precision (ev_threshold event) +:+ unit +:+ newline +:+ "Incident: " +:+ itoa (ev_incident event).

Definition slack_mention (mode id : string) : string :=
  if bool_decide (mode ∈ ["here"; "channel"; "everyone"]) then "<!" +:+ mode +:+ ">" +:+ newline
  else if String.eqb mode "user_group" then "<!subteam^" +:+ id +:+ ">" +:+ newline else "".

Definition discord_mention (mode id : string) : string :=
  if bool_decide (mode ∈ ["here"; "everyone"]) then String at_sign mode +:+ newline
  else if String.eqb mode "role" then "<@&" +:+ id +:+ ">" +:+ newline else "".

(** The text [SendAlertWebhook] sends to a chat: mention, body and the instant
    as the chat shows it ([time]). *)
Definition chat_text (format : Z -> spec_float -> string) (workspace time kind mode id : string) (event : AlertEvent)
    : res string string :=
  match ValidateAlertMention kind mode id with
  | Some message => Err message
  | None =>
      let text := break_mentions (alertMessageBody format workspace event) in
      if String.eqb kind "slack" then Ok (slack_mention mode id +:+ slack_escape text +:+ time)
      else if String.eqb kind "discord" then Ok (discord_mention mode id +:+ text +:+ time)
      else Err "Unsupported webhook kind"
  end.

(** ** The delivery loop *)

(** [runAlertDeliveryLoop]: its counters, and the messages in the channel of
    jobs, with the workers, and in the channel of completions. *)
Record loop := MkLoop {
  l_active : Z; canClaim : bool; claimFailed : bool; jobs : Z; sending : Z; completed : Z
}.

Definition loop_start : loop := MkLoop 0 true false 0 0 0.

(** Whether the loop claims next; otherwise it waits. *)
Definition claims_next_round (concurrency : Z) (l : loop) : bool := canClaim l && (l_active l <? concurrency).

(** The steps of the loop and of its workers.  A claim returns at most the
    number of messages asked for. *)
Inductive loop_step (concurrency : Z) : loop -> loop -> Prop :=
| loop_claim_failed l :
    claims_next_round concurrency l = true ->
    loop_step concurrency l (MkLoop (l_active l) false true (jobs l) (sending l) (completed l))
| loop_claim_none l :
    claims_next_round concurrency l = true ->
    loop_step concurrency l (MkLoop (l_active l) false (claimFailed l) (jobs l) (sending l) (completed l))
| loop_claim n l :
    claims_next_round concurrency l = true -> 0 < n <= concurrency - l_active l ->
    loop_step concurrency l (MkLoop (l_active l + n) (canClaim l) (claimFailed l) (jobs l + n) (sending l) (completed l))
| loop_take l :
    0 < jobs l -> sending l < concurrency ->
    loop_step concurrency l (MkLoop (l_active l) (canClaim l) (claimFailed l) (jobs l - 1) (sending l + 1) (completed l))
| loop_complete l :
    0 < sending l -> completed l < concurrency ->
    loop_step concurrency l (MkLoop (l_active l) (canClaim l) (claimFailed l) (jobs l) (sending l - 1) (completed l + 1))
| loop_drain l :
    claims_next_round concurrency l = false -> 0 < completed l ->
    loop_step concurrency l
      (MkLoop (l_active l - completed l) (negb (claimFailed l) || canClaim l) (claimFailed l) (jobs l) (sending l) 0)
| loop_poll l :
    claims_next_round concurrency l = false ->
    loop_step concurrency l (MkLoop (l_active l) true false (jobs l) (sending l) (completed l)).

(** ** Histories *)

(** A workspace, the messages handed out and the tokens used so far. *)
Record state := MkState { world : World; claimed : list message; tokens : list string }.

(** Every operation on the workspace; a claim draws a new token, and a worker
    records an attempt on any message it was given, however late. *)
Inductive step : state -> state -> Prop :=
| step_alerts o w c t : step (MkState w c t) (MkState (Alerts.exec o w) c t)
| step_destination uri path fragment port address encrypt egress id fresh input w c t :
    step (MkState w c t)
      (MkState (SaveAlertDestination uri path fragment port address encrypt egress id fresh input w).2 c t)
| step_delete_destination id w c t : step (MkState w c t) (MkState (DeleteAlertDestination id w).2 c t)
| step_claim limit now locked token w c t :
    token ∉ t ->
    step (MkState w c t)
      (MkState (ClaimAlertDeliveries limit now locked token w).2
         ((ClaimAlertDeliveries limit now locked token w).1 ++ c) (token :: t))
| step_finish m now a w c t : m ∈ c -> step (MkState w c t) (MkState (finish_attempt m now a w) c t)
| step_retry id now w c t : step (MkState w c t) (MkState (RetryAlertDelivery id now w).2 c t).

Definition reachable : state -> Prop := rtc step (MkState new_workspace [] []).

(** ** The invariant *)

Definition row_ok (d : AlertDelivery) : Prop :=
  0 <= d_attempts d <= AlertMaximumDeliveryAttempts /\
  (d_status d = "pending" -> d_attempts d < AlertMaximumDeliveryAttempts) /\
  (d_status d = "processing" -> 1 <= d_attempts d).

Definition in_order (ds : gmap Z AlertDelivery) : Prop :=
  forall j k e d, ds !! j = Some e -> ds !! k = Some d -> j < k -> sibling e d = true ->
    d_status d = "processing" -> active e = false.

Record rows_wf (n : Z) (ds : gmap Z AlertDelivery) : Prop := {
  rows_ids : forall k d, ds !! k = Some d -> k < n;
  rows_ok : forall k d, ds !! k = Some d -> row_ok d;
  rows_order : in_order ds
}.

(** A message that still holds its row has the row's count of attempts. *)
Definition counts_agree (ds : gmap Z AlertDelivery) (c : list message) : Prop :=
  forall m d, m ∈ c -> ds !! m.1 = Some d -> holds m d = true -> d_attempts d = d_attempts m.2.

Definition state_wf (s : state) : Prop :=
  rows_wf (next_delivery (world s)) (deliveries (world s)) /\
  counts_agree (deliveries (world s)) (claimed s) /\
  forall m, m ∈ claimed s -> d_token m.2 ∈ tokens s.

(** What an operation other than a claim, a finish or a retry does to the
    deliveries: rows stay, end or go, and new ones are pending. *)
Definition evolves (n : Z) (ds : gmap Z AlertDelivery) (n' : Z) (ds' : gmap Z AlertDelivery) : Prop :=
  n <= n' /\
  forall k d', ds' !! k = Some d' ->
    (exists d, ds !! k = Some d /\ (d' = d \/ active d' = false /\ d_attempts d' = d_attempts d)) \/
    (n <= k < n' /\ d_status d' <> "processing" /\ d_attempts d' = 0).

Definition evolves_w (w w' : World) : Prop :=
  evolves (next_delivery w) (deliveries w) (next_delivery w') (deliveries w').

Lemma active_iff d : active d = true <-> d_status d = "pending" \/ d_status d = "processing".
Proof. unfold active. rewrite bool_decide_eq_true. set_solver. Qed.

Lemma active_not_processing d : active d = false -> d_status d <> "processing".
Proof. intros H E. rewrite (proj2 (active_iff d)) in H; [done|by right]. Qed.

Lemma evolves_refl w : evolves_w w w.
Proof. split; [lia|]. intros k d Hk. left. exists d. by split; [|left]. Qed.

Lemma evolves_trans w1 w2 w3 : evolves_w w1 w2 -> evolves_w w2 w3 -> evolves_w w1 w3.
Proof.
  intros [L1 H1] [L2 H2]. split; [lia|]. intros k d3 H3.
  destruct (H2 k d3 H3) as [(d2 & Hd2 & Hc)|(Hk & Hs)]; [|right; split; [lia|done]].
  destruct (H1 k d2 Hd2) as [(d1 & Hd1 & Hc')|(Hk & Hs & Ha)].
  - left. exists d1. split; [done|]. destruct Hc as [->|[Hi Ha]]; [done|]. right. split; [done|].
    destruct Hc' as [->|[_ Hb]]; congruence.
  - right. split; [lia|]. destruct Hc as [->|[Hi Hat]]; [done|]. split; [by apply active_not_processing|congruence].
Qed.

Lemma evolves_same w w' : deliveries w' = deliveries w -> next_delivery w' = next_delivery w -> evolves_w w w'.
Proof. intros H1 H2. unfold evolves_w. rewrite H1, H2. apply (evolves_refl w). Qed.

Lemma cancel_inactive reason d :
  cancel_delivery reason d = d \/ active (cancel_delivery reason d) = false /\ d_attempts (cancel_delivery reason d) = d_attempts d.
Proof. unfold cancel_delivery. case_bool_decide; [by right|by left]. Qed.

Lemma evolves_cancel (p : AlertDelivery -> bool) reason w w' :
  deliveries w' = (fun d => if p d then cancel_delivery reason d else d) <$> deliveries w ->
  next_delivery w' = next_delivery w -> evolves_w w w'.
Proof.
  intros H1 H2. unfold evolves_w. rewrite H1, H2. split; [lia|].
  intros k d' (d & <- & Hd)%lookup_fmap_Some. left. exists d. split; [done|]. cbv beta.
  destruct (p d); [apply cancel_inactive|by left].
Qed.

Lemma evolves_rows w w' : evolves_w w w' -> rows_wf (next_delivery w) (deliveries w) -> rows_wf (next_delivery w') (deliveries w').
Proof.
  intros [L H] [A B C]. constructor.
  - intros k d Hk. destruct (H k d Hk) as [(d0 & Hd0 & _)|[Hr _]]; [|lia]. specialize (A k d0 Hd0). lia.
  - intros k d Hk. destruct (H k d Hk) as [(d0 & Hd0 & [->|[Hi Ha]])|(_ & Hs & Ha)]; [by eapply B| |].
    + destruct (B k d0 Hd0) as [Hr _]. unfold row_ok. rewrite Ha. split; [done|].
      split; intros E; apply not_true_iff_false in Hi; destruct Hi; apply active_iff; auto.
    + unfold row_ok. rewrite Ha. unfold AlertMaximumDeliveryAttempts. split; [lia|]. split; [lia|done].
  - intros j k e d He Hd Hjk Hs Hp. destruct (active e) eqn:Ee; [|done]. exfalso.
    destruct (H k d Hd) as [(d0 & Hd0 & [->|[Hi _]])|(_ & Hnp & _)]; [|by apply active_not_processing in Hi|done].
    specialize (A k d0 Hd0). destruct (H j e He) as [(e0 & He0 & [->|[Hi _]])|[Hr _]]; [|congruence|lia].
    by rewrite (C j k e0 d0) in Ee.
Qed.

Lemma holds_active m d : holds m d = true -> d_status d = "processing".
Proof. unfold holds. intros [H _]%andb_true_iff. by apply String.eqb_eq. Qed.

Lemma evolves_counts w w' c : evolves_w w w' -> counts_agree (deliveries w) c -> counts_agree (deliveries w') c.
Proof.
  intros [_ H] Hc m d Hm Hd Hh. destruct (H _ _ Hd) as [(d0 & Hd0 & [->|[Hi _]])|(_ & Hnp & _)].
  - by eapply Hc.
  - by apply holds_active, (fun E => active_not_processing _ Hi E) in Hh.
  - by apply holds_active in Hh.
Qed.

(** ** Operations of the alert tables *)

Lemma evolves_close id rule now w w' :
  deliveries w' = deliveries (closeAlertForConfiguration id rule now w) ->
  next_delivery w' = next_delivery (closeAlertForConfiguration id rule now w) -> evolves_w w w'.
Proof.
  intros H1 H2. eapply (evolves_cancel (fun d =>
    match incidents w !! d_incident d with Some inc => RuleID inc =? id | None => false end) "Configuration changed"); done.
Qed.

Lemma evolves_queue_for w now t ids seen : evolves_w w (queue_for w now t ids seen).
Proof.
  revert w seen. induction ids as [|id ids IH]; intros w seen; simpl; [apply evolves_refl|].
  destruct (destinations w !! id) as [dest|]; [|apply IH]. destruct (dest_enabled dest && _); [|apply IH].
  eapply evolves_trans; [|apply IH]. split; simpl; [lia|].
  intros k d [[<- <-]|[_ Hk]]%lookup_insert_Some; [right; split; [lia|done]|]. left. exists d. by split; [|left].
Qed.

Lemma evolves_queue now l w : evolves_w w (queueAlertTransitions now l w).
Proof.
  unfold queueAlertTransitions. revert w. induction l as [|t l IH]; intros w; simpl; [apply evolves_refl|].
  eapply evolves_trans; [apply evolves_queue_for|apply IH].
Qed.

Lemma evolves_apply_rule generation now id rule input w w' t :
  apply_rule generation now id rule input w = Ok (w', t) -> evolves_w w w'.
Proof.
  unfold apply_rule. destruct (negb _); [intros [= <- _]; apply evolves_refl|].
  destruct (missingRotator input); [intros [= <- _]; by eapply evolves_close|].
  destruct (match LastEvaluatedAt _ with Some _ => _ | None => _ end); [intros [= <- _]; apply evolves_refl|].
  destruct (observe _ _ _) as [r [|v|v]]; try (intros [= <- _]; by apply evolves_same).
  destruct (ActiveIncidentID r) as [i|]; [|intros [= <- _]; apply evolves_refl].
  destruct (incidents w !! i); [|done]. destruct (negb _); [done|]. destruct (_ || _); [done|].
  intros [= <- _]. by apply evolves_same.
Qed.

Lemma evolves_apply_rules generation now batch w w' opened recovered :
  apply_rules generation now batch w = Ok (w', opened, recovered) -> evolves_w w w'.
Proof.
  revert w w' opened recovered. induction batch as [|[id input] batch IH]; intros w w' opened recovered; simpl;
    [intros [= <- _ _]; apply evolves_refl|].
  destruct (rules w !! id) as [rule|]; [|apply IH]. destruct (negb (Enabled rule)); [apply IH|].
  destruct (apply_rule generation now id rule input w) as [[w1 t]|e] eqn:E; [|done]. apply evolves_apply_rule in E.
  destruct (apply_rules generation now batch w1) as [[[w2 o2] r2]|e] eqn:E2; [|done]. apply IH in E2.
  intros H. assert (w' = w2) as -> by (destruct t as [[x|x]|]; congruence). by eapply evolves_trans.
Qed.

Lemma evolves_disable now ids w : evolves_w w (disable_rules now ids w).
Proof.
  revert w. induction ids as [|id ids IH]; intros w; simpl; [apply evolves_refl|].
  destruct (rules w !! id) as [rule|]; [|apply IH]. eapply evolves_trans; [|apply IH]. by apply (evolves_close id rule now).
Qed.

Lemma evolves_exec o w : evolves_w w (Alerts.exec o w).
Proof.
  destruct o; simpl; try (by apply evolves_same).
  - unfold applyAlertObservations. destruct observations; [apply evolves_refl|].
    destruct (apply_rules _ _ _ w) as [[[w1 opened] recovered]|e] eqn:E; [|apply evolves_refl].
    eapply evolves_trans; [by eapply evolves_apply_rules|apply evolves_queue].
  - unfold SaveAlertRule. destruct (validate_rule input) as [[name t]|e]; [|apply evolves_refl].
    destruct (match in_rotator input with Some _ => _ | None => _ end); [apply evolves_refl|].
    destruct (negb _); [apply evolves_refl|]. destruct id as [id|].
    + destruct (rules w !! id) as [rule|]; [|apply evolves_refl]. by apply (evolves_close id rule now).
    + destruct (_ <=? _)%nat; by apply evolves_same.
  - unfold DeleteAlertRule. destruct (rules w !! id) as [rule|]; [|apply evolves_refl]. by apply (evolves_close id rule now).
  - unfold DeleteRotatingProxy. destruct (rotators w !! rotator); [|apply evolves_refl].
    eapply evolves_trans; [apply (evolves_disable now)|by apply evolves_same].
  - unfold CleanupAlertHistory. split; simpl; [lia|]. intros k d [Hk _]%map_lookup_filter_Some.
    left. exists d. by split; [|left].
Qed.

Lemma evolves_save_destination uri path fragment port address encrypt egress id fresh input w :
  evolves_w w (SaveAlertDestination uri path fragment port address encrypt egress id fresh input w).2.
Proof.
  unfold SaveAlertDestination. destruct (destination_input _ _ _ _ _ _ input); [apply evolves_refl|].
  destruct (encrypted encrypt input) as [[target secret]|]; [|apply evolves_refl]. destruct id as [key|].
  - destruct (destinations w !! key) as [old|]; [|apply evolves_refl]. destruct (negb _); [apply evolves_refl|].
    destruct (ValidateAlertMention _ _ _); [apply evolves_refl|].
    by apply (evolves_cancel (fun d => d_destination d =? key) "Destination changed").
  - case_bool_decide; [apply evolves_refl|]. destruct (_ <=? _)%nat; [apply evolves_refl|].
    destruct (ValidateAlertMention _ _ _); [apply evolves_refl|]. by apply evolves_same.
Qed.

Lemma evolves_delete_destination id w : evolves_w w (DeleteAlertDestination id w).2.
Proof.
  unfold DeleteAlertDestination. destruct (destinations w !! id); [|apply evolves_refl].
  by apply (evolves_cancel (fun d => d_destination d =? id) "Destination changed").
Qed.

(** ** Claims, finishes and retries *)

Lemma waits_false ds k d j e :
  waits_for_older ds k d = false -> ds !! j = Some e -> j < k -> sibling e d = true -> active e = false.
Proof.
  unfold waits_for_older. intros H Hj Hlt Hs. destruct (active e) eqn:Ea; [|done].
  rewrite <- H. symmetry. apply existsb_exists. exists (j, e). split; [by apply list_elem_of_In, elem_of_map_to_list|].
  by rewrite Hs, Ea, (proj2 (Z.ltb_lt _ _) Hlt).
Qed.

Lemma claimed_ids_due limit now locked ds id : id ∈ claimed_ids limit now locked ds -> due now locked ds id = true.
Proof. unfold claimed_ids. intros (i & H & _)%elem_of_take. apply list_elem_of_lookup_2, list_elem_of_In, filter_In in H. apply H. Qed.

Lemma claimed_ids_NoDup limit now locked ds : NoDup (claimed_ids limit now locked ds).
Proof.
  unfold claimed_ids. assert (NoDup (List.filter (due now locked ds) (by_id ds))) as H.
  { apply NoDup_ListNoDup, List.NoDup_filter, NoDup_ListNoDup. unfold by_id.
    rewrite (merge_sort_Permutation Z.le). apply NoDup_fst_map_to_list. }
  eapply sublist_NoDup; [exact H|apply sublist_take].
Qed.

Lemma claim_lookup token now ids (ds : gmap Z AlertDelivery) k :
  NoDup ids ->
  fold_left (fun m id => alter (claim_row token now) id m) ids ds !! k =
    if decide (k ∈ ids) then claim_row token now <$> ds !! k else ds !! k.
Proof.
  revert ds. induction ids as [|id ids IH]; intros ds Hn; cbn [fold_left]; [by rewrite decide_False by set_solver|].
  apply NoDup_cons in Hn as [Hni Hn]. rewrite IH by done.
  destruct (decide (k = id)) as [->|Hne].
  - rewrite decide_False by done. rewrite lookup_alter_eq, decide_True by set_solver. done.
  - rewrite lookup_alter_ne by done. destruct (decide (k ∈ ids)).
    + by rewrite decide_True by set_solver.
    + by rewrite decide_False by set_solver.
Qed.

(** A claimed row, before and after. *)
Record claims (now : Z) (locked : list Z) (token : string) (ds : gmap Z AlertDelivery) (k : Z) (d d' : AlertDelivery) : Prop := {
  claims_before : (reclaim now <$> ds) !! k = Some d;
  claims_after : d' = claim_row token now d;
  claims_pending : d_status d = "pending";
  claims_next : d_next d <= now;
  claims_first : waits_for_older (reclaim now <$> ds) k d = false;
  claims_unlocked : k ∉ locked
}.

Lemma claim_none limit now locked token w :
  limit <= 0 -> ClaimAlertDeliveries limit now locked token w = ([], w).
Proof. intros H. unfold ClaimAlertDeliveries. by rewrite (proj2 (Z.leb_le _ _) H). Qed.

Lemma claim_spec limit now locked token w k d' :
  0 < limit ->
  deliveries (ClaimAlertDeliveries limit now locked token w).2 !! k = Some d' ->
  (exists d, claims now locked token (deliveries w) k d d' /\ (k, d') ∈ (ClaimAlertDeliveries limit now locked token w).1) \/
  (exists d, deliveries w !! k = Some d /\ d' = reclaim now d).
Proof.
  intros Hlim. unfold ClaimAlertDeliveries. rewrite (proj2 (Z.leb_gt _ _) Hlim). simpl. pose proof (claimed_ids_NoDup limit now locked (reclaim now <$> deliveries w)) as Hn.
  intros H. pose proof H as H0. rewrite claim_lookup in H by done. case_decide as Hin.
  - apply fmap_Some in H as (d & Hd & ->). left. exists d. pose proof (claimed_ids_due _ _ _ _ _ Hin) as Hdue.
    unfold due in Hdue. rewrite Hd in Hdue. apply andb_true_iff in Hdue as [[[Hp Hx]%andb_true_iff Hw]%andb_true_iff Hl].
    split.
    + constructor; [done|done|by apply String.eqb_eq|by apply Z.leb_le|by apply negb_true_iff|].
      by apply negb_true_iff, bool_decide_eq_false in Hl.
    + apply list_elem_of_omap. exists k. split; [done|]. by rewrite H0.
  - right. apply lookup_fmap_Some in H as (d & <- & Hd). by exists d.
Qed.

Lemma claim_messages limit now locked token w m :
  m ∈ (ClaimAlertDeliveries limit now locked token w).1 ->
  deliveries (ClaimAlertDeliveries limit now locked token w).2 !! m.1 = Some m.2 /\ d_token m.2 = token.
Proof.
  unfold ClaimAlertDeliveries. destruct (limit <=? 0); cbn [fst snd]; [set_solver|]. simpl.
  intros (id & Hid & H)%list_elem_of_omap. apply fmap_Some in H as (d & Hd & ->). simpl. split; [done|].
  rewrite claim_lookup in Hd by apply claimed_ids_NoDup. rewrite decide_True in Hd by done.
  apply fmap_Some in Hd as (d0 & _ & ->). done.
Qed.

(** A row that is still being processed, or waits, was so before. *)
Lemma reclaim_cases now d :
  reclaim now d = d \/
  d_status d = "processing" /\ d_status (reclaim now d) <> "processing" /\ d_attempts (reclaim now d) = d_attempts d /\
  (d_status (reclaim now d) = "pending" -> d_attempts d < AlertMaximumDeliveryAttempts).
Proof.
  unfold reclaim. destruct (String.eqb (d_status d) "processing" && _) eqn:E; [|by left]. right.
  apply andb_true_iff in E as [->%String.eqb_eq _]. split; [done|].
  destruct (AlertMaximumDeliveryAttempts <=? d_attempts d) eqn:El; simpl; [done|]. split; [done|]. split; [done|]. lia.
Qed.

Lemma reclaim_keeps now d :
  d_incident (reclaim now d) = d_incident d /\ d_destination (reclaim now d) = d_destination d /\
  d_next (reclaim now d) = d_next d.
Proof. unfold reclaim. destruct (_ && _); [destruct (_ <=? _); done|done]. Qed.

Lemma reclaim_sibling now d e : sibling (reclaim now e) d = sibling e d.
Proof. unfold sibling. by destruct (reclaim_keeps now e) as (-> & -> & _). Qed.

Lemma reclaim_row_ok now d : row_ok d -> row_ok (reclaim now d).
Proof.
  intros (H1 & H2 & H3). destruct (reclaim_cases now d) as [->|(Hp & Hnp & Ha & Hl)]; [done|].
  unfold row_ok. rewrite Ha. done.
Qed.

Lemma reclaim_active now d : active (reclaim now d) = true -> active d = true.
Proof.
  destruct (reclaim_cases now d) as [->|(Hp & _)]; [done|]. intros _. apply active_iff. by right.
Qed.

Lemma claim_rows limit now locked token w :
  rows_wf (next_delivery w) (deliveries w) ->
  let w' := (ClaimAlertDeliveries limit now locked token w).2 in rows_wf (next_delivery w') (deliveries w').
Proof.
  intros [A B C] w'. destruct (Z.le_gt_cases limit 0) as [Hlim|Hlim]; [subst w'; by rewrite claim_none|].
  assert (next_delivery w' = next_delivery w) as ->
    by (subst w'; unfold ClaimAlertDeliveries; by destruct (limit <=? 0)).
  assert (forall k d', deliveries w' !! k = Some d' -> exists d, deliveries w !! k = Some d /\
    (active d' = true -> active d = true) /\ (forall x, sibling d' x = sibling d x)) as Hback.
  { intros k d' Hk. apply claim_spec in Hk as [(d & [Hb -> Hp _ _ _] & _)|(d & Hd & ->)]; [| |done].
    - apply lookup_fmap_Some in Hb as (d0 & <- & Hd0). exists d0. split; [done|].
      split; [intros _; apply (reclaim_active now), active_iff; by left|]. apply (fun x => reclaim_sibling now x d0).
    - exists d. split; [done|]. split; [apply reclaim_active|]. intros x. apply reclaim_sibling. }
  constructor.
  - intros k d' Hk. destruct (Hback k d' Hk) as (d & Hd & _). by eapply A.
  - intros k d' Hk. apply claim_spec in Hk as [(d & [Hb -> Hp _ _ _] & _)|(d & Hd & ->)]; [| |done].
    + apply lookup_fmap_Some in Hb as (d0 & <- & Hd0). pose proof (reclaim_row_ok now d0 (B k d0 Hd0)) as (H1 & H2 & _).
      specialize (H2 Hp). unfold row_ok; simpl. split; [lia|]. split; [done|lia].
    + apply reclaim_row_ok. by eapply B.
  - intros j k e' d' He Hd Hjk Hs Hproc. destruct (active e') eqn:Ee; [|done]. exfalso.
    destruct (Hback j e' He) as (e & He0 & Hact & Hsib). rewrite Hsib in Hs.
    assert (forall d, deliveries w !! k = Some d -> d' = d -> False) as Hold.
    { intros d Hd0 ->. specialize (C j k e d He0 Hd0 Hjk Hs Hproc). by rewrite (Hact Ee) in C. }
    apply claim_spec in Hd as [(d & [Hb -> Hp _ Hw _] & _)|(d & Hd0 & ->)]; [| |done].
    + assert (exists e1, (reclaim now <$> deliveries w) !! j = Some e1 /\ active e1 = true) as (e1 & He1 & Ha).
      { apply claim_spec in He as [(e1 & [Heb _ Hep _ _ _] & _)|(e1 & He1 & ->)]; [| |done].
        - exists e1. split; [done|]. apply active_iff. by left.
        - exists (reclaim now e1). by rewrite lookup_fmap, He1. }
      rewrite (waits_false _ k d j e1 Hw He1 Hjk) in Ha; [done|].
      apply lookup_fmap_Some in He1 as (e2 & <- & He2). rewrite reclaim_sibling. by assert (e2 = e) as -> by congruence.
    + destruct (reclaim_cases now d) as [Heq|(_ & Hnp & _)]; [|done]. by eapply Hold.
Qed.

Lemma claim_counts limit now locked token w c (t : list string) :
  (forall m, m ∈ c -> d_token m.2 ∈ t) -> token ∉ t -> counts_agree (deliveries w) c ->
  counts_agree (deliveries (ClaimAlertDeliveries limit now locked token w).2)
    ((ClaimAlertDeliveries limit now locked token w).1 ++ c).
Proof.
  intros Ht Hf Hc. destruct (Z.le_gt_cases limit 0) as [Hlim|Hlim]; [by rewrite claim_none|].
  intros m d [Hm|Hm]%elem_of_app Hd Hh.
  { destruct (claim_messages _ _ _ _ _ _ Hm) as [Hm' _]. by assert (d = m.2) as -> by congruence. }
  apply claim_spec in Hd as [(d0 & [_ -> _ _ _ _] & _)|(d0 & Hd0 & ->)]; [| |done].
  - unfold holds in Hh. apply andb_true_iff in Hh as [_ Hh%String.eqb_eq]. simpl in Hh. exfalso. apply Hf. rewrite Hh. by apply Ht.
  - destruct (reclaim_cases now d0) as [Heq|(_ & Hnp & _)]; [rewrite Heq in *; by eapply Hc|]. by apply holds_active in Hh.
Qed.

(** Replacing one row by one that is not processed. *)
Lemma rows_replace n (ds : gmap Z AlertDelivery) k d d' :
  rows_wf n ds -> ds !! k = Some d -> row_ok d' -> d_status d' <> "processing" ->
  (forall x, sibling d' x = sibling d x) ->
  (active d' = true -> active d = true \/ forall j e, ds !! j = Some e -> k < j -> sibling e d = false) ->
  rows_wf n (<[k := d']> ds).
Proof.
  intros [A B C] Hk Hok Hnp Hsib Hact. constructor.
  - intros j e [[<- _]|[_ He]]%lookup_insert_Some; by eapply A.
  - intros j e [[_ <-]|[_ He]]%lookup_insert_Some; [done|by eapply B].
  - intros i j e f He Hf Hij Hs Hp. apply lookup_insert_Some in Hf as [[<- <-]|[Hne Hf]]; [done|].
    apply lookup_insert_Some in He as [[<- <-]|[_ He]]; [|by eapply C].
    rewrite Hsib in Hs. destruct (active d') eqn:Ed; [|done]. destruct (Hact eq_refl) as [Ha|Hnew].
    + by rewrite (C k j d f) in Ha.
    + specialize (Hnew j f Hf Hij). unfold sibling in *. lia.
Qed.

Lemma verdict_row attempts now a status reason next :
  verdict_of attempts now a = Some (status, reason, next) ->
  status <> "processing" /\ (status = "pending" -> attempts < AlertMaximumDeliveryAttempts).
Proof.
  unfold verdict_of. destruct a as [| | |[e|]]; try done; try (by intros [= <- _ _]); intros H;
    destruct (AlertMaximumDeliveryAttempts <=? attempts) eqn:El; try destruct (Permanent e); injection H as <- _ _;
    (split; [done|]; try done; lia).
Qed.

Lemma finish_rows m now a w c :
  m ∈ c -> counts_agree (deliveries w) c -> rows_wf (next_delivery w) (deliveries w) ->
  rows_wf (next_delivery w) (deliveries (finish_attempt m now a w)) /\
  counts_agree (deliveries (finish_attempt m now a w)) c.
Proof.
  intros Hm Hc Hwf. unfold finish_attempt. destruct (verdict_of _ now a) as [[[status reason] next]|] eqn:Ev; [|done].
  apply verdict_row in Ev as [Hnp Hpend]. simpl. destruct (deliveries w !! m.1) as [d|] eqn:Ed.
  2:{ rewrite alter_id; [done|]. intros x Hx. congruence. }
  destruct (holds m d) eqn:Eh.
  2:{ rewrite alter_id; [done|]. intros x Hx. assert (x = d) as -> by congruence. by rewrite Eh. }
  match goal with |- context [alter ?f m.1 (deliveries w)] =>
    assert (alter f m.1 (deliveries w) = <[m.1 := f d]> (deliveries w)) as -> by
      (apply map_eq; intros i; destruct (decide (i = m.1)) as [->|Hne];
       [by rewrite lookup_alter_eq, lookup_insert_eq, Ed|by rewrite lookup_alter_ne, lookup_insert_ne]) end.
  rewrite Eh. pose proof (rows_ok _ _ Hwf _ _ Ed) as Hok. pose proof (holds_active _ _ Eh) as Hp. split.
  - apply (rows_replace _ _ m.1 d); [done|done| |done|done|intros _; left; apply active_iff; by right].
    destruct Hok as (H1 & H2 & H3). unfold row_ok; simpl. rewrite (Hc m d Hm Ed Eh). split; [by rewrite <- (Hc m d Hm Ed Eh)|done].
  - intros m' x Hm' [[_ <-]|[_ Hx]]%lookup_insert_Some Hh; [by apply holds_active in Hh|by eapply Hc].
Qed.

Lemma retry_rows id now w c :
  counts_agree (deliveries w) c -> rows_wf (next_delivery w) (deliveries w) ->
  let w' := (RetryAlertDelivery id now w).2 in
  rows_wf (next_delivery w') (deliveries w') /\ counts_agree (deliveries w') c.
Proof.
  intros Hc Hwf. unfold RetryAlertDelivery. destruct (deliveries w !! id) as [d|] eqn:Ed; [|done].
  destruct (retriable id d w) eqn:Er; [|done]. simpl. split.
  - apply (rows_replace _ _ id d); [done|done|by split; [|split]|done|done|].
    intros _. right. intros j e He Hlt. unfold retriable in Er.
    apply andb_true_iff in Er as [[_ Hnew%negb_true_iff]%andb_true_iff _].
    destruct (sibling e d) eqn:Es; [|done]. rewrite <- Hnew. symmetry. apply existsb_exists. exists (j, e).
    split; [by apply list_elem_of_In, elem_of_map_to_list|]. rewrite Es. simpl. by apply Z.ltb_lt.
  - intros m x Hm [[_ <-]|[_ Hx]]%lookup_insert_Some Hh; [by apply holds_active in Hh|by eapply Hc].
Qed.

Lemma claims_step_wf s s' : step s s' -> state_wf s -> state_wf s'.
Proof.
  intros Hstep (Hrows & Hc & Ht). destruct Hstep; simpl in *.
  - pose proof (evolves_exec o w) as He. split; [by eapply evolves_rows|]. split; [by eapply evolves_counts|done].
  - pose proof (evolves_save_destination uri path fragment port address encrypt egress id fresh input w) as He.
    split; [by eapply evolves_rows|]. split; [by eapply evolves_counts|done].
  - pose proof (evolves_delete_destination id w) as He. split; [by eapply evolves_rows|]. split; [by eapply evolves_counts|done].
  - split; [by apply claim_rows|]. split; [by eapply claim_counts|]. simpl.
    intros m [Hm|Hm]%elem_of_app; [apply claim_messages in Hm as [_ ->]; apply list_elem_of_here|by apply list_elem_of_further, Ht].
  - destruct (finish_rows m now a w c) as [H1 H2]; try done. split; [|by split].
    unfold finish_attempt in *. destruct (verdict_of _ now a) as [[[status reason] next]|]; done.
  - destruct (retry_rows id now w c Hc Hrows). by split.
Qed.

Lemma reachable_wf s : reachable s -> state_wf s.
Proof.
  intros Hr. assert (state_wf (MkState new_workspace [] [])) as H0.
  { split; [|split; [intros m d Hm; simpl in Hm; set_solver|intros m Hm; simpl in Hm; set_solver]]. constructor; [intros k d|intros k d|intros j k e d]; simpl; by rewrite lookup_empty. }
  revert H0. induction Hr as [|x y z Hs _ IH]; [done|]. intros Hx. by apply IH, (claims_step_wf x).
Qed.

(** Deliveries stay in order and are bounded, in every reachable state of a
    workspace and its workers: while an event is being sent no earlier event of
    the same incident to the same destination waits or is being sent, so a
    recovery never overtakes the opening; a delivery has been attempted at most
    four times since it was queued or retried by hand, and one that waits has
    an attempt left. *)
Theorem delivery_order s :
  reachable s ->
  (forall j k e d, deliveries (world s) !! j = Some e -> deliveries (world s) !! k = Some d ->
    j < k -> d_incident e = d_incident d -> d_destination e = d_destination d ->
    d_status d = "processing" -> d_status e <> "pending" /\ d_status e <> "processing") /\
  (forall k d, deliveries (world s) !! k = Some d ->
    0 <= d_attempts d <= 4 /\ (d_status d = "pending" -> d_attempts d < 4)).
Proof.
  intros Hr. destruct (reachable_wf s Hr) as ([_ B C] & _). split.
  - intros j k e d He Hd Hjk H1 H2 Hp. assert (active e = false) as Ha.
    { apply (C j k e d); try done. unfold sibling. by rewrite H1, H2, !Z.eqb_refl. }
    unfold active in Ha. apply bool_decide_eq_false in Ha. set_solver.
  - intros k d Hd. destruct (B k d Hd) as (H1 & H2 & _). done.
Qed.

(** Whether the worker of a message still holds the delivery. *)
Definition holding (m : message) (w : World) : bool :=
  match deliveries w !! m.1 with Some d => holds m d | None => false end.

Lemma evolves_holding m w w' : evolves_w w w' -> holding m w' = true -> holding m w = true.
Proof.
  unfold holding. intros [_ H] Hh. destruct (deliveries w' !! m.1) as [d'|] eqn:Ed; [|done].
  pose proof (holds_active _ _ Hh) as Hp. destruct (H _ _ Ed) as [(d & -> & [->|[Hi _]])|(_ & Hnp & _)]; [done| |done].
  by apply active_not_processing in Hi.
Qed.

(** A claim that is lost is never held again. *)
Lemma holding_back s s' m :
  step s s' -> m ∈ claimed s -> (forall m, m ∈ claimed s -> d_token m.2 ∈ tokens s) ->
  m ∈ claimed s' /\ (holding m (world s') = true -> holding m (world s) = true).
Proof.
  intros Hstep Hm Ht. destruct Hstep; simpl in *; (split; [set_solver|]).
  - apply evolves_holding, evolves_exec.
  - apply evolves_holding, evolves_save_destination.
  - apply evolves_holding, evolves_delete_destination.
  - destruct (Z.le_gt_cases limit 0) as [Hlim|Hlim]; [by rewrite claim_none|]. unfold holding.
    destruct (deliveries (ClaimAlertDeliveries limit now locked token w).2 !! m.1) as [d|] eqn:Ed; [|done]. intros Hh.
    apply claim_spec in Ed as [(d0 & [_ -> _ _ _ _] & _)|(d0 & -> & ->)]; [| |done].
    + unfold holds in Hh. apply andb_true_iff in Hh as [_ Hh%String.eqb_eq]. simpl in Hh. specialize (Ht m Hm). congruence.
    + destruct (reclaim_cases now d0) as [Heq|(_ & Hnp & _)]; [by rewrite Heq in Hh|]. by apply holds_active in Hh.
  - unfold holding, finish_attempt. destruct (verdict_of _ now a) as [[[status reason] next]|] eqn:Ev; [|done].
    apply verdict_row in Ev as [Hnp _]. simpl. destruct (decide (m.1 = m0.1)) as [->|Hne]; [|by rewrite lookup_alter_ne].
    rewrite lookup_alter_eq. destruct (deliveries w !! m0.1) as [d|]; [|done]. simpl.
    destruct (holds m0 d); [|done]. intros Hh. by apply holds_active in Hh.
  - unfold holding, RetryAlertDelivery. destruct (deliveries w !! id) as [d|] eqn:Ed; [|done].
    destruct (retriable id d w); [|done]. simpl. destruct (decide (id = m.1)) as [<-|Hne]; [|by rewrite lookup_insert_ne].
    rewrite lookup_insert_eq. intros Hh. by apply holds_active in Hh.
Qed.

Lemma finish_lost m now a w : holding m w = false -> deliveries (finish_attempt m now a w) = deliveries w.
Proof.
  unfold holding, finish_attempt. intros Hh. destruct (verdict_of _ now a) as [[[status reason] next]|]; [|done]. simpl.
  apply alter_id. intros d Hd. rewrite Hd in Hh. by rewrite Hh.
Qed.

(** A worker that lost its claim changes nothing any more.  Once the row of
    a message handed out was taken over by a later claim, finished, cancelled or
    removed, then whatever else happens the worker finds no destination to send
    to, and the outcome it records, even of a send under way, leaves every
    delivery as it is. *)
Theorem stale_delivery_fenced s m s' :
  reachable s -> m ∈ claimed s -> holding m (world s) = false -> rtc step s s' ->
  GetAlertDeliveryDestination m (world s') = None /\
  forall now a, deliveries (finish_attempt m now a (world s')) = deliveries (world s').
Proof.
  intros Hr Hm Hh Hs. assert (holding m (world s') = false) as Hh'.
  { apply reachable_wf in Hr. induction Hs as [|x y z Hxy _ IH]; [done|]. pose proof Hr as (_ & _ & Ht).
    destruct (holding_back x y m Hxy Hm Ht) as [Hm' Hback]. apply IH; [by apply (claims_step_wf x)|done|].
    destruct (holding m (world y)); [|done]. by rewrite Hback in Hh. }
  split; [|intros now a; by apply finish_lost]. unfold holding in Hh'. unfold GetAlertDeliveryDestination.
  destruct (deliveries (world s') !! m.1) as [d|]; [|done]. destruct (destinations (world s') !! _) as [dest|]; [|done].
  by rewrite Hh', andb_false_r.
Qed.

Lemma length_omap_le {A B} (f : A -> option B) l : (length (omap f l) <= length l)%nat.
Proof. induction l as [|x l IH]; [done|]. cbn. destruct (f x); cbn; [by apply le_n_S|by apply le_S]. Qed.

(** What a claim hands out: at most [limit] deliveries, oldest first and
    each once, that no other claim has locked.  Each was waiting and due, or
    its attempt was interrupted five minutes ago with an attempt left; no
    earlier event of its incident to its destination is open; and its row then
    carries the token and one attempt more. *)
Theorem claim_hands_out limit now locked token w m :
  let r := ClaimAlertDeliveries limit now locked token w in
  m ∈ r.1 ->
  (length r.1 <= Z.to_nat limit)%nat /\ deliveries r.2 !! m.1 = Some m.2 /\ m.1 ∉ locked /\
  exists d, deliveries w !! m.1 = Some d /\ m.2 = claim_row token now (reclaim now d) /\ d_next d <= now /\
    (d_status d = "pending" \/
     d_status d = "processing" /\ d_attempts d < 4 /\ exists t, d_last_attempt d = Some t /\ t < now - interruptedAfter) /\
    forall j e, deliveries w !! j = Some e -> j < m.1 -> sibling e d = true -> active (reclaim now e) = false.
Proof.
  intros r Hm. destruct (Z.le_gt_cases limit 0) as [Hlim|Hlim].
  { subst r. rewrite claim_none in Hm by done. simpl in Hm. set_solver. }
  destruct (claim_messages _ _ _ _ _ _ Hm) as [Hrow Htok]. split; [|split; [done|]].
  - subst r. unfold ClaimAlertDeliveries. rewrite (proj2 (Z.leb_gt _ _) Hlim). simpl.
    rewrite length_omap_le. unfold claimed_ids. rewrite length_take. lia.
  - pose proof Hm as Hm'. subst r. unfold ClaimAlertDeliveries in Hm'. rewrite (proj2 (Z.leb_gt _ _) Hlim) in Hm'. simpl in Hm'.
    apply list_elem_of_omap in Hm' as (id & Hid & Hm'). apply fmap_Some in Hm' as (x & Hx & ->). cbn [fst snd] in *.
    rewrite claim_lookup, decide_True in Hx by (done || apply claimed_ids_NoDup).
    apply claimed_ids_due in Hid. unfold due in Hid. apply fmap_Some in Hx as (d1 & Hd1 & ->). rewrite Hd1 in Hid.
    apply andb_true_iff in Hid as [[[Hp%String.eqb_eq Hn%Z.leb_le]%andb_true_iff Hw%negb_true_iff]%andb_true_iff Hl%negb_true_iff].
    split; [by apply bool_decide_eq_false in Hl|]. pose proof Hd1 as Hd1'. apply lookup_fmap_Some in Hd1' as (d & <- & Hd).
    exists d. split; [done|]. split; [done|]. split; [by destruct (reclaim_keeps now d) as (_ & _ & <-)|]. split.
    + revert Hp. unfold reclaim. destruct (String.eqb (d_status d) "processing" && _) eqn:E; [|by left].
      apply andb_true_iff in E as [->%String.eqb_eq Ht]. destruct (d_last_attempt d) as [t|]; [|done].
      destruct (AlertMaximumDeliveryAttempts <=? d_attempts d) eqn:El; [done|]. intros _. right.
      unfold AlertMaximumDeliveryAttempts in El. split; [done|]. split; [lia|]. exists t. split; [done|lia].
    + intros j e He Hj Hs. apply (waits_false _ id (reclaim now d) j (reclaim now e) Hw); [by rewrite lookup_fmap, He|done|].
      rewrite reclaim_sibling. unfold sibling. by destruct (reclaim_keeps now d) as (-> & -> & _).
Qed.

(** ** Texts *)

Lemma replace_bytes_Forall (P : Ascii.ascii -> Prop) f s :
  (forall c, match f c with Some r => Forall P (bytes r) | None => P c end) -> Forall P (bytes (replace_bytes f s)).
Proof.
  intros H. induction s as [|c s IH]; simpl; [constructor|]. specialize (H c). destruct (f c) as [r|].
  - rewrite bytes_app. by apply Forall_app.
  - by constructor.
Qed.

(** Every at sign is followed by a zero-width space. *)
Fixpoint mentions_broken (s : string) : bool :=
  match s with
  | EmptyString => true
  | String c s' => (negb (Ascii.eqb c at_sign) || has_prefix zero_width_space s') && mentions_broken s'
  end.

Lemma mentions_broken_zws x : mentions_broken (String at_sign (zero_width_space +:+ x)) = mentions_broken x.
Proof. reflexivity. Qed.

Lemma break_mentions_broken s : mentions_broken (break_mentions s) = true.
Proof.
  unfold break_mentions. induction s as [|c s IH]; [done|]. cbn [replace_bytes].
  destruct (Ascii.eqb c at_sign) eqn:E; [by rewrite str_app_cons, mentions_broken_zws|].
  cbn [mentions_broken]. by rewrite E, IH.
Qed.

Lemma slack_escape_no_tag s : Forall (fun c => c <> chr 60 /\ c <> chr 62) (bytes (slack_escape s)).
Proof.
  apply replace_bytes_Forall. intros c.
  destruct (Ascii.eqb_spec c (chr 38)) as [->|_]; [cbn; forall_list; split; discriminate|].
  destruct (Ascii.eqb_spec c (chr 60)) as [->|H1]; [cbn; forall_list; split; discriminate|].
  destruct (Ascii.eqb_spec c (chr 62)) as [->|H2]; [cbn; forall_list; split; discriminate|done].
Qed.

(** Where a mention carries an identifier, it is one of digits or capitals. *)
Lemma mention_id_plain kind mode id :
  ValidateAlertMention kind mode id = None ->
  (kind = "slack" /\ mode = "user_group") \/ (kind = "discord" /\ mode = "role") ->
  Forall (fun c => is_upper c || is_digit c = true) (bytes id).
Proof.
  intros H [[-> ->]|[-> ->]]; unfold ValidateAlertMention in H; simpl in H.
  - destruct (slackAlertGroupID id) eqn:E; [|done]. unfold slackAlertGroupID in E. destruct id as [|c rest]; [done|].
    apply andb_true_iff in E as [[[->%Ascii.eqb_eq _]%andb_true_iff _]%andb_true_iff E].
    constructor; [done|]. apply Forall_forall. intros x Hx%list_elem_of_In. by apply (proj1 (forallb_forall _ _) E).
  - destruct (discordRoleID id) eqn:E; [|done]. unfold discordRoleID in E.
    apply andb_true_iff in E as [[E _]%andb_true_iff _]. apply Forall_forall. intros x Hx%list_elem_of_In.
    rewrite (proj1 (forallb_forall _ _) E) by done. apply orb_true_r.
Qed.

(** Names cannot mention anyone.  The text sent to a chat is the mention the
    destination was configured with, then the description of the event, then
    the instant.  Whatever the rule, the scope and the workspace are called,
    in the description sent to Slack no tag can begin or end, and in the one
    sent to Discord every at sign is followed by a zero-width space; and the
    configured mention is one of the fixed ones or carries an identifier of
    capitals and digits only. *)
Theorem alert_names_cannot_mention format workspace time kind mode id event text :
  chat_text format workspace time kind mode id event = Ok text ->
  exists mention body, text = mention +:+ body +:+ time /\
    (kind = "slack" -> Forall (fun c => c <> chr 60 /\ c <> chr 62) (bytes body) /\
      (mention = "" \/ mention = "<!here>" +:+ newline \/ mention = "<!channel>" +:+ newline \/
       mention = "<!everyone>" +:+ newline \/
       mention = "<!subteam^" +:+ id +:+ ">" +:+ newline /\ Forall (fun c => is_upper c || is_digit c = true) (bytes id))) /\
    (kind = "discord" -> mentions_broken body = true /\
      (mention = "" \/ mention = "@here" +:+ newline \/ mention = "@everyone" +:+ newline \/
       mention = "<@&" +:+ id +:+ ">" +:+ newline /\ Forall (fun c => is_upper c || is_digit c = true) (bytes id))).
Proof.
  unfold chat_text. destruct (ValidateAlertMention kind mode id) eqn:Ev; [done|].
  destruct (String.eqb_spec kind "slack") as [->|Hs]; [|destruct (String.eqb_spec kind "discord") as [->|Hd]; [|done]];
    intros [= <-]; eexists _, _; (split; [reflexivity|]); (split; [intros Hk|intros Hk]); try discriminate Hk.
  - split; [apply slack_escape_no_tag|]. unfold slack_mention. case_bool_decide as Hin.
    + set_solver.
    + destruct (String.eqb_spec mode "user_group") as [->|]; [|by left].
      right. right. right. right. split; [done|]. eapply mention_id_plain; [exact Ev|by left].
  - split; [apply break_mentions_broken|]. unfold discord_mention. case_bool_decide as Hin.
    + set_solver.
    + destruct (String.eqb_spec mode "role") as [->|]; [|by left].
      right. right. right. split; [done|]. eapply mention_id_plain; [exact Ev|by right].
Qed.

(** ** The loop *)

Definition loop_wf (concurrency : Z) (l : loop) : Prop :=
  0 <= jobs l /\ 0 <= sending l <= concurrency /\ 0 <= completed l /\ l_active l = jobs l + sending l + completed l /\
  l_active l <= concurrency.

Lemma loop_step_wf concurrency l l' : loop_step concurrency l l' -> loop_wf concurrency l -> loop_wf concurrency l'.
Proof. unfold loop_wf. intros [] (H1 & H2 & H3 & H4 & H5); simpl; lia. Qed.

Lemma loop_reachable_wf concurrency l :
  0 <= concurrency -> rtc (loop_step concurrency) loop_start l -> loop_wf concurrency l.
Proof.
  intros Hc Hr. assert (loop_wf concurrency loop_start) as H0 by (unfold loop_wf; simpl; lia).
  revert H0. induction Hr as [|x y z Hs _ IH]; [done|]. intros Hx. by eapply IH, loop_step_wf.
Qed.

(** The delivery loop never blocks and loses no slot.  Whatever the order of
    claims, sends and completions, the loop counts exactly the messages that are
    queued, being sent or completed; so no more than [concurrency] are claimed
    at a time, the messages of a claim always fit in the channel of jobs, a
    worker that has sent a message can always report it, and a message that is
    queued has an idle worker. *)
Theorem delivery_loop_never_blocks concurrency l :
  0 < concurrency -> rtc (loop_step concurrency) loop_start l ->
  l_active l = jobs l + sending l + completed l /\ 0 <= l_active l <= concurrency /\
  (forall n, n <= concurrency - l_active l -> jobs l + n <= concurrency) /\
  (0 < sending l -> exists l', loop_step concurrency l l' /\ completed l' = completed l + 1) /\
  (0 < jobs l -> exists l', loop_step concurrency l l' /\ sending l' = sending l + 1).
Proof.
  intros Hc Hr. destruct (loop_reachable_wf concurrency l) as (H1 & H2 & H3 & H4 & H5); [lia|done|].
  split; [done|]. split; [lia|]. split; [intros n Hn; lia|]. split; intros Hp.
  - eexists. split; [apply loop_complete; lia|done].
  - eexists. split; [apply loop_take; lia|done].
Qed.

(** ** A concrete history *)

Definition slow : AlertObservation := MkObservation (Some (float_of_Z 900)) 40 "".
Definition fast : AlertObservation := MkObservation (Some (float_of_Z 100)) 40 "".

Definition observe_at (minute : Z) (o : AlertObservation) : op :=
  OpObserve 0 [MkInput 1 latency_rule "Workspace" o false] (minute * Minute).

(** A rule that tells destination 5 opens an incident and recovers. *)
Definition incident_history : list op :=
  [OpDestination 5 (Some (MkDestination "chat" "slack" true "none" "" "" ""));
   OpSaveRule None (MkWrite "slow" None AlertMetricLatency (Some (float_of_Z 500)) true [5]) 0;
   observe_at 1 slow; observe_at 2 slow; observe_at 3 slow; observe_at 4 fast; observe_at 5 fast; observe_at 6 fast].

Definition after_incident : World := exec_all incident_history new_workspace.

Definition first_claim : list message * World := ClaimAlertDeliveries 10 (10 * Minute) [] "t1" after_incident.
Definition no_event : AlertEvent := MkEvent 0 0 "" "" None "" "" "" (float_of_Z 0) (float_of_Z 0) "" 0.
Definition first_message : message := hd (0, MkDelivery 0 0 "" no_event "" 0 "" 0 "" None None) first_claim.1.
Definition second_claim : list message * World :=
  ClaimAlertDeliveries 10 (12 * Minute) [] "t2" (finish_attempt first_message (11 * Minute) Sent first_claim.2).
Definition taken_over : list message * World := ClaimAlertDeliveries 10 (20 * Minute) [] "t2" first_claim.2.

Lemma exec_all_reachable l : reachable (MkState (exec_all l new_workspace) [] []).
Proof.
  unfold reachable, exec_all. generalize new_workspace. induction l as [|o l IH]; intros w; [done|].
  eapply rtc_l; [apply step_alerts|apply IH].
Qed.

Lemma first_claim_is : first_claim.1 = [first_message].
Proof. vm_compute. reflexivity. Qed.

Lemma first_claim_reachable : reachable (MkState first_claim.2 (first_claim.1 ++ []) ["t1"]).
Proof.
  eapply rtc_r; [apply (exec_all_reachable incident_history)|]. apply (step_claim 10 (10 * Minute) [] "t1" after_incident [] []).
  set_solver.
Qed.

Lemma first_message_claimed : first_message ∈ first_claim.1 ++ [].
Proof. rewrite first_claim_is. apply list_elem_of_here. Qed.

Definition second_state : state := MkState second_claim.2 (second_claim.1 ++ first_claim.1 ++ []) ["t2"; "t1"].

Lemma second_state_reachable : reachable second_state.
Proof.
  eapply rtc_r.
  - eapply rtc_r; [apply first_claim_reachable|]. apply (step_finish first_message (11 * Minute) Sent), first_message_claimed.
  - apply step_claim. set_solver.
Qed.

(** The recovery goes out once the opening was sent. *)
Lemma delivery_order_witness :
  option_map (fun d => (d_incident d, d_destination d, d_event d, d_status d)) (deliveries first_claim.2 !! 2) =
    Some (1, 5, "recovered", "pending") /\
  option_map (fun d => (d_incident d, d_destination d, d_event d, d_status d)) (deliveries second_claim.2 !! 2) =
    Some (1, 5, "recovered", "processing") /\
  option_map (fun d => (d_incident d, d_destination d, d_event d, d_status d)) (deliveries second_claim.2 !! 1) =
    Some (1, 5, "opened", "sent") /\
  forall j k e d, deliveries second_claim.2 !! j = Some e -> deliveries second_claim.2 !! k = Some d ->
    j < k -> d_incident e = d_incident d -> d_destination e = d_destination d ->
    d_status d = "processing" -> d_status e <> "pending" /\ d_status e <> "processing".
Proof.
  split; [vm_compute; reflexivity|]. split; [vm_compute; reflexivity|]. split; [vm_compute; reflexivity|].
  exact (proj1 (delivery_order second_state second_state_reachable)).
Defined.

Definition taken_over_state : state := MkState taken_over.2 (taken_over.1 ++ first_claim.1 ++ []) ["t2"; "t1"].

Lemma taken_over_reachable : reachable taken_over_state.
Proof. eapply rtc_r; [apply first_claim_reachable|]. apply step_claim. set_solver. Qed.

Lemma stale_delivery_fenced_witness :
  holding first_message taken_over.2 = false /\
  option_map d_token (deliveries taken_over.2 !! 1) = Some "t2" /\
  GetAlertDeliveryDestination first_message taken_over.2 = None.
Proof.
  assert (holding first_message taken_over.2 = false) as Hh by (vm_compute; reflexivity).
  split; [exact Hh|]. split; [vm_compute; reflexivity|].
  apply (stale_delivery_fenced taken_over_state first_message taken_over_state taken_over_reachable); [|exact Hh|apply rtc_refl].
  apply elem_of_app. right. apply first_message_claimed.
Defined.

Lemma claim_hands_out_witness :
  first_message ∈ first_claim.1 /\
  exists d, deliveries after_incident !! first_message.1 = Some d /\ d_next d <= 10 * Minute.
Proof.
  assert (first_message ∈ first_claim.1) as Hm by (rewrite first_claim_is; apply list_elem_of_here).
  split; [exact Hm|].
  destruct (claim_hands_out 10 (10 * Minute) [] "t1" after_incident first_message Hm) as (_ & _ & _ & d & Hd & _ & Hn & _).
  exists d. split; [exact Hd|exact Hn].
Defined.

Lemma alert_names_cannot_mention_witness :
  let event := MkEvent 7 1 "@everyone <!channel>" "Workspace" None "" "" "success_rate" (float_of_Z 90) (float_of_Z 50) "opened" 0 in
  exists text, chat_text (fun _ _ => "50.00") "Team" "now" "discord" "here" "" event = Ok text /\
    has_prefix "@here" text = true /\
    exists mention body, text = mention +:+ body +:+ "now" /\ mentions_broken body = true.
Proof.
  intros event. eexists. split; [reflexivity|]. split; [vm_compute; reflexivity|].
  destruct (alert_names_cannot_mention (fun _ _ => "50.00") "Team" "now" "discord" "here" "" event _ eq_refl)
    as (mention & body & Ht & _ & Hd).
  exists mention, body. split; [exact Ht|]. apply Hd. reflexivity.
Defined.

Lemma delivery_loop_never_blocks_witness :
  exists l', loop_step 10 (MkLoop 10 true false 9 1 0) l' /\ completed l' = 1.
Proof.
  apply (delivery_loop_never_blocks 10 (MkLoop 10 true false 9 1 0)); [reflexivity| |reflexivity].
  eapply rtc_l; [apply (loop_claim 10 10); [reflexivity|vm_compute; split; [reflexivity|discriminate]]|].
  eapply rtc_l; [apply loop_take; reflexivity|]. apply rtc_refl.
Defined.
End AlertDeliveries.
