(* ===== verification/Workspaces.v ===== *)
(** * Workspaces: members, roles and invitations

    [internal/database/database_workspace_handler.go],
    [workspace_invitations.go], the ownership part of
    [delete_user_account.go], the roles of [domain/workspace_model.go] and the
    authorization of [internal/app/server/route_workspace_handler.go] and
    [route_workspace_invitation_handler.go].  The state is the tables of users,
    workspaces, memberships and invitations; each operation is one transaction.
    A transaction that decides on rows it does not lock takes two tables: the
    one it has [seen] and the one it writes to.  Deletes cascade as the models
    declare.  Emails are ASCII for [ToLower]; texts are valid UTF-8. *)

From S2P Require Import Prelude GoStrings.
From stdpp Require Import sorting.
Open Scope Z_scope.

Module Workspaces.

(** ** Roles *)

Definition WorkspaceRoleOwner : string := "owner".
Definition WorkspaceRoleAdmin : string := "admin".
Definition WorkspaceRoleOperator : string := "operator".
Definition WorkspaceRoleViewer : string := "viewer".

Definition normal (role : string) : string := to_lower (trim_space role).

Definition IsWorkspaceRole (role : string) : bool :=
  bool_decide (normal role ∈ [WorkspaceRoleOwner; WorkspaceRoleAdmin; WorkspaceRoleOperator; WorkspaceRoleViewer]).

Definition WorkspaceRoleRank (role : string) : Z :=
  let role := normal role in
  if String.eqb role WorkspaceRoleOwner then 4 else if String.eqb role WorkspaceRoleAdmin then 3
  else if String.eqb role WorkspaceRoleOperator then 2 else if String.eqb role WorkspaceRoleViewer then 1 else 0.

(** ** Tables *)

Record User := MkUser { Email : string }.
Record Workspace := MkWorkspace { Name : string; Personal : bool }.
Record WorkspaceMembership := MkMembership { Role : string; BillingAdmin : bool; IsDefault : bool; CreatedAt : Z }.
Record WorkspaceInvitation := MkInvitation {
  WorkspaceID : Z; InviteeUserID : Z; InviterUserID : option Z; InviterEmail : string;
  inv_role : string; inv_billing : bool; Notification : string; ExpiresAt : Z
}.

(** Memberships are keyed by workspace and user. *)
Record World := MkWorld {
  users : gmap Z User; next_user : Z;
  workspaces : gmap Z Workspace; next_workspace : Z;
  members : gmap (Z * Z) WorkspaceMembership;
  invitations : gmap Z WorkspaceInvitation; next_invitation : Z
}.

Definition with_workspaces (m : gmap Z Workspace) (w : World) : World :=
  MkWorld (users w) (next_user w) m (next_workspace w) (members w) (invitations w) (next_invitation w).
Definition with_members (m : gmap (Z * Z) WorkspaceMembership) (w : World) : World :=
  MkWorld (users w) (next_user w) (workspaces w) (next_workspace w) m (invitations w) (next_invitation w).
Definition with_invitations (m : gmap Z WorkspaceInvitation) (w : World) : World :=
  MkWorld (users w) (next_user w) (workspaces w) (next_workspace w) (members w) m (next_invitation w).

Inductive ws_error :=
| ErrInvalidWorkspaceRole | ErrWorkspaceNotFound | ErrWorkspaceMemberExists | ErrWorkspaceLastOwner
| ErrWorkspacePersonalOwner | ErrWorkspaceInvitationExists | ErrWorkspaceInvitationNotFound
| ErrWorkspaceInvitationExpired | ErrWorkspaceInviteeNotFound | ErrWorkspaceOwnershipTransferRequired
| RecordNotFound | Message (message : string).

(** [WorkspaceMembership.Normalize] on a role and the billing flag. *)
Definition normalize_membership (role : string) (billing : bool) : res ws_error (string * bool) :=
  if IsWorkspaceRole role then Ok (normal role, billing || String.eqb (normal role) WorkspaceRoleOwner)
  else Err ErrInvalidWorkspaceRole.

(** [WorkspaceInvitation.Normalize] *)
Definition normalize_invitation (i : WorkspaceInvitation) : res ws_error WorkspaceInvitation :=
  let role := normal (inv_role i) in
  if bool_decide (role ∈ [WorkspaceRoleAdmin; WorkspaceRoleOperator; WorkspaceRoleViewer]) then
    let notification :=
      if bool_decide (Notification i ∈ ["not_configured"; "queued"; "failed"]) then Notification i else "not_configured" in
    Ok (MkInvitation (WorkspaceID i) (InviteeUserID i) (InviterUserID i) (to_lower (trim_space (InviterEmail i)))
          role (inv_billing i) notification (ExpiresAt i))
  else Err ErrInvalidWorkspaceRole.

(** ** Names *)

Definition word_of (word : list Ascii.ascii) : list string :=
  match word with [] => [] | _ => [of_bytes (rev word)] end.

(** [strings.Fields]; [word] holds the bytes of the current field, last first. *)
Fixpoint fields_go (fuel : nat) (word l : list Ascii.ascii) : list string :=
  match fuel, l with
  | O, _ | _, [] => word_of word
  | S fuel', c :: l' =>
      match first_match (fun u => strip_rune u l) space_runes with
      | Some rest => word_of word ++ fields_go fuel' [] rest
      | None => fields_go fuel' (c :: word) l'
      end
  end.

Definition fields (s : string) : list string := fields_go (S (slen s)) [] (bytes s).

(** [len([]rune(s))] *)
Definition rune_count (s : string) : nat :=
  length (List.filter (fun c => (code c <? 128) || (192 <=? code c)) (bytes s)).

Definition normalizeWorkspaceName (name : string) : string := GoStrings.join " " (fields (trim_space name)).

Definition check_name (name : string) : option ws_error :=
  if String.eqb name "" then Some (Message "workspace name is required")
  else if (120 <? rune_count name)%nat then Some (Message "workspace name is too long") else None.

Definition personalWorkspaceName (email : string) : string :=
  let name := trim_space email in
  let name := match index_byte (chr 64) name with Some (S n) => stake (S n) name | _ => name end in
  let name := trim_space name in
  (if String.eqb name "" then "Personal" else name) +:+ "'s workspace".

(** ** Access *)

Record WorkspaceAccess := MkAccess {
  acc_workspace : Z; acc_user : Z; acc_role : string; acc_billing : bool; acc_default : bool
}.

Definition CanRead (a : WorkspaceAccess) : bool := WorkspaceRoleRank WorkspaceRoleViewer <=? WorkspaceRoleRank (acc_role a).
Definition CanOperate (a : WorkspaceAccess) : bool := WorkspaceRoleRank WorkspaceRoleOperator <=? WorkspaceRoleRank (acc_role a).
Definition CanAdminister (a : WorkspaceAccess) : bool := WorkspaceRoleRank WorkspaceRoleAdmin <=? WorkspaceRoleRank (acc_role a).
Definition IsOwner (a : WorkspaceAccess) : bool := String.eqb (acc_role a) WorkspaceRoleOwner.
Definition CanManageBilling (a : WorkspaceAccess) : bool := IsOwner a || acc_billing a.

(** The order of a user's memberships: default first, then the oldest, then by workspace. *)
Definition membership_before (a b : Z * WorkspaceMembership) : bool :=
  if Bool.eqb (IsDefault a.2) (IsDefault b.2) then
    (CreatedAt a.2 <? CreatedAt b.2) || ((CreatedAt a.2 =? CreatedAt b.2) && (a.1 <=? b.1))
  else IsDefault a.2.

(** The first of a user's memberships in an order. *)
Fixpoint first_by (le : Z * WorkspaceMembership -> Z * WorkspaceMembership -> bool) (l : list (Z * WorkspaceMembership))
    : option (Z * WorkspaceMembership) :=
  match l with
  | [] => None
  | x :: l' => match first_by le l' with Some y => if le x y then Some x else Some y | None => Some x end
  end.

Definition memberships_of (user : Z) (w : World) : list (Z * WorkspaceMembership) :=
  omap (fun '((ws, u), m) => if u =? user then Some (ws, m) else None) (map_to_list (members w)).

Definition access_of (user ws : Z) (m : WorkspaceMembership) : WorkspaceAccess :=
  MkAccess ws user (Role m) (BillingAdmin m) (IsDefault m).

(** [ResolveWorkspaceAccess]; workspace 0 asks for the default one. *)
Definition ResolveWorkspaceAccess (userID requestedWorkspaceID : Z) (w : World) : res ws_error WorkspaceAccess :=
  if userID =? 0 then Err ErrWorkspaceNotFound
  else if negb (requestedWorkspaceID =? 0) then
    match members w !! (requestedWorkspaceID, userID) with
    | Some m => Ok (access_of userID requestedWorkspaceID m)
    | None => Err ErrWorkspaceNotFound
    end
  else
    match first_by membership_before (memberships_of userID w) with
    | Some (ws, m) => Ok (access_of userID ws m)
    | None => Err ErrWorkspaceNotFound
    end.

(** ** Workspaces and members *)

(** [CreatePersonalWorkspaceForUser], in the transaction that stores the user. *)
Definition CreatePersonalWorkspaceForUser (user : Z) (email : string) (now : Z) (w : World) : World :=
  let ws := next_workspace w in
  MkWorld (users w) (next_user w) (<[ws := MkWorkspace (personalWorkspaceName email) true]> (workspaces w)) (ws + 1)
    (<[(ws, user) := MkMembership WorkspaceRoleOwner true true now]> (members w)) (invitations w) (next_invitation w).

Definition CreateWorkspace (user : Z) (name : string) (now : Z) (w : World) : res ws_error Z * World :=
  let name := normalizeWorkspaceName name in
  match check_name name with
  | Some e => (Err e, w)
  | None =>
      match users w !! user with
      | None => (Err RecordNotFound, w)
      | Some _ =>
          let ws := next_workspace w in
          (Ok ws,
           MkWorld (users w) (next_user w) (<[ws := MkWorkspace name false]> (workspaces w)) (ws + 1)
             (<[(ws, user) := MkMembership WorkspaceRoleOwner true false now]> (members w)) (invitations w) (next_invitation w))
      end
  end.

Definition RenameWorkspace (ws : Z) (name : string) (w : World) : option ws_error * World :=
  let name := normalizeWorkspaceName name in
  match check_name name with
  | Some e => (Some e, w)
  | None =>
      match workspaces w !! ws with
      | None => (Some ErrWorkspaceNotFound, w)
      | Some x => (None, with_workspaces (<[ws := MkWorkspace name (Personal x)]> (workspaces w)) w)
      end
  end.

Definition set_default (b : bool) (m : WorkspaceMembership) : WorkspaceMembership :=
  MkMembership (Role m) (BillingAdmin m) b (CreatedAt m).

Definition SetDefaultWorkspace (user ws : Z) (w : World) : option ws_error * World :=
  match members w !! (ws, user) with
  | None => (Some ErrWorkspaceNotFound, w)
  | Some _ =>
      let cleared := map_imap (fun k m => Some (if k.2 =? user then set_default false m else m)) (members w) in
      (None, with_members (alter (set_default true) (ws, user) cleared) w)
  end.

(** [First] of a user by email: the lowest identifier. *)
Definition user_by_email (email : string) (w : World) : option Z :=
  hd_error (merge_sort Z.le (omap (fun '(k, u) => if String.eqb (to_lower (Email u)) email then Some k else None)
    (map_to_list (users w)))).

(** A shared workspace is no longer personal. *)
Definition shared (ws : Z) (w : World) : World :=
  with_workspaces (alter (fun x => MkWorkspace (Name x) false) ws (workspaces w)) w.

Definition join_workspace (ws user : Z) (role : string) (billing : bool) (now : Z) (w : World) : option ws_error * World :=
  match members w !! (ws, user) with
  | Some _ => (Some ErrWorkspaceMemberExists, w)
  | None => (None, shared ws (with_members (<[(ws, user) := MkMembership role billing false now]> (members w)) w))
  end.

(** A membership of a workspace that is not there violates the foreign key. *)
Definition AddWorkspaceMember (ws : Z) (email role : string) (billing : bool) (now : Z) (w : World) : option ws_error * World :=
  match normalize_membership (normal role) billing with
  | Err e => (Some e, w)
  | Ok (role, billing) =>
      if String.eqb role WorkspaceRoleOwner then (Some (Message "transfer ownership instead of adding another owner"), w)
      else
        match user_by_email (normal email) w with
        | None => (Some (Message "user account not found"), w)
        | Some user =>
            match workspaces w !! ws with
            | None => (Some (Message "foreign key"), w)
            | Some _ => join_workspace ws user role billing now w
            end
        end
  end.

(** The owners of a workspace. *)
Definition owners (ws : Z) (w : World) : list Z :=
  omap (fun '((k, u), m) => if (k =? ws) && String.eqb (Role m) WorkspaceRoleOwner then Some u else None) (map_to_list (members w)).

Definition update_row (role : string) (billing : bool) (m : WorkspaceMembership) : WorkspaceMembership :=
  MkMembership role billing (IsDefault m) (CreatedAt m).

(** [UpdateWorkspaceMember] deciding on [seen] and writing to [w]. *)
Definition UpdateWorkspaceMember_tx (ws user : Z) (role : string) (billing : bool) (seen w : World) : option ws_error * World :=
  match normalize_membership (normal role) billing with
  | Err e => (Some e, w)
  | Ok (role, billing) =>
      match members seen !! (ws, user) with
      | None => (Some RecordNotFound, w)
      | Some existing =>
          if String.eqb (Role existing) WorkspaceRoleOwner && negb (String.eqb role WorkspaceRoleOwner) &&
             (length (owners ws seen) <=? 1)%nat
          then (Some ErrWorkspaceLastOwner, w)
          else (None, with_members (alter (update_row role billing) (ws, user) (members w)) w)
      end
  end.

Definition UpdateWorkspaceMember (ws user : Z) (role : string) (billing : bool) (w : World) : option ws_error * World :=
  UpdateWorkspaceMember_tx ws user role billing w w.

Definition older (a b : Z * WorkspaceMembership) : bool :=
  (CreatedAt a.2 <? CreatedAt b.2) || ((CreatedAt a.2 =? CreatedAt b.2) && (a.1 <=? b.1)).

Definition remove_row (ws user : Z) (w : World) : World :=
  let w1 := with_members (delete (ws, user) (members w)) w in
  match first_by older (memberships_of user w1) with
  | Some (replacement, _) => with_members (alter (set_default true) (replacement, user) (members w1)) w1
  | None => w1
  end.

(** [RemoveWorkspaceMember] *)
Definition RemoveWorkspaceMember_tx (ws user : Z) (seen w : World) : option ws_error * World :=
  match workspaces seen !! ws, members seen !! (ws, user) with
  | Some x, Some m =>
      let owner := String.eqb (Role m) WorkspaceRoleOwner in
      if Personal x && owner then (Some ErrWorkspacePersonalOwner, w)
      else if owner && (length (owners ws seen) <=? 1)%nat then (Some ErrWorkspaceLastOwner, w)
      else (None, remove_row ws user w)
  | _, _ => (Some RecordNotFound, w)
  end.

Definition RemoveWorkspaceMember (ws user : Z) (w : World) : option ws_error * World := RemoveWorkspaceMember_tx ws user w w.

(** ** Invitations *)

Definition expired (now : Z) (i : WorkspaceInvitation) : bool := ExpiresAt i <=? now.

(** [idx_workspace_invitation_pending] *)
Definition pending_for (ws user : Z) (m : gmap Z WorkspaceInvitation) : bool :=
  existsb (fun '(_, i) => (WorkspaceID i =? ws) && (InviteeUserID i =? user)) (map_to_list m).

Definition CreateWorkspaceInvitation (ws inviter : Z) (email role : string) (billing : bool) (expiresAt now : Z) (w : World)
    : res ws_error Z * World :=
  let email := normal email in
  if (ws =? 0) || (inviter =? 0) || String.eqb email "" then (Err (Message "workspace, inviter, and invitee are required"), w)
  else if expiresAt <=? now then (Err (Message "invitation expiry must be in the future"), w)
  else
    match user_by_email email w with
    | None => (Err ErrWorkspaceInviteeNotFound, w)
    | Some invitee =>
        match users w !! inviter with
        | None => (Err RecordNotFound, w)
        | Some from =>
            if bool_decide (is_Some (members w !! (ws, invitee))) then (Err ErrWorkspaceMemberExists, w)
            else
              let kept := filter (fun '(_, i) =>
                ((WorkspaceID i =? ws) && (InviteeUserID i =? invitee) && expired now i) = false) (invitations w) in
              match normalize_invitation (MkInvitation ws invitee (Some inviter) (normal (Email from)) (normal role) billing "" expiresAt) with
              | Err e => (Err e, w)
              | Ok created =>
                  if pending_for ws invitee kept then (Err ErrWorkspaceInvitationExists, w)
                  else if bool_decide (workspaces w !! ws = None) then (Err (Message "foreign key"), w)
                  else
                    (Ok (next_invitation w),
                     MkWorld (users w) (next_user w) (workspaces w) (next_workspace w) (members w)
                       (<[next_invitation w := created]> kept) (next_invitation w + 1))
              end
        end
    end.

(** The invitation of a workspace that can still be accepted. *)
Definition GetWorkspaceInvitationForWorkspace (ws id now : Z) (w : World) : res ws_error WorkspaceInvitation :=
  match invitations w !! id with
  | Some i =>
      if negb (WorkspaceID i =? ws) then Err ErrWorkspaceInvitationNotFound
      else if expired now i then Err ErrWorkspaceInvitationExpired else Ok i
  | None => Err ErrWorkspaceInvitationNotFound
  end.

Definition with_offer (role : string) (billing : bool) (i : WorkspaceInvitation) : WorkspaceInvitation :=
  MkInvitation (WorkspaceID i) (InviteeUserID i) (InviterUserID i) (InviterEmail i) role billing (Notification i) (ExpiresAt i).

Definition UpdateWorkspaceInvitation (ws id : Z) (role : string) (billing : bool) (now : Z) (w : World) : option ws_error * World :=
  match GetWorkspaceInvitationForWorkspace ws id now w with
  | Err e => (Some e, w)
  | Ok i =>
      match normalize_invitation (with_offer (normal role) billing i) with
      | Err e => (Some e, w)
      | Ok c => (None, with_invitations (<[id := with_offer (inv_role c) (inv_billing c) i]> (invitations w)) w)
      end
  end.

Definition SetWorkspaceInvitationNotificationStatus (ws id : Z) (status : string) (w : World) : option ws_error * World :=
  match normalize_invitation (MkInvitation 0 0 None "" WorkspaceRoleViewer false status 0), invitations w !! id with
  | Ok c, Some i =>
      if WorkspaceID i =? ws then
        (None, with_invitations (<[id := MkInvitation (WorkspaceID i) (InviteeUserID i) (InviterUserID i) (InviterEmail i)
                                          (inv_role i) (inv_billing i) (Notification c) (ExpiresAt i)]> (invitations w)) w)
      else (Some ErrWorkspaceInvitationNotFound, w)
  | _, _ => (Some ErrWorkspaceInvitationNotFound, w)
  end.

Definition RevokeWorkspaceInvitation (ws id now : Z) (w : World) : option ws_error * World :=
  match GetWorkspaceInvitationForWorkspace ws id now w with
  | Err e => (Some e, w)
  | Ok _ => (None, with_invitations (delete id (invitations w)) w)
  end.

(** The invitation of an invitee that can still be accepted. *)
Definition offer_to (id user now : Z) (w : World) : res ws_error WorkspaceInvitation :=
  match invitations w !! id with
  | Some i =>
      if negb (InviteeUserID i =? user) then Err ErrWorkspaceInvitationNotFound
      else if expired now i then Err ErrWorkspaceInvitationExpired else Ok i
  | None => Err ErrWorkspaceInvitationNotFound
  end.

Definition AcceptWorkspaceInvitation (id user now : Z) (w : World) : res ws_error Z * World :=
  match offer_to id user now w with
  | Err e => (Err e, w)
  | Ok i =>
      match normalize_membership (inv_role i) (inv_billing i) with
      | Err e => (Err e, w)
      | Ok (role, billing) =>
          match join_workspace (WorkspaceID i) user role billing now w with
          | (Some e, _) => (Err e, w)
          | (None, w1) => (Ok (WorkspaceID i), with_invitations (delete id (invitations w1)) w1)
          end
      end
  end.

Definition DeclineWorkspaceInvitation (id user now : Z) (w : World) : option ws_error * World :=
  match offer_to id user now w with
  | Err e => (Some e, w)
  | Ok _ => (None, with_invitations (delete id (invitations w)) w)
  end.

Definition DeleteExpiredWorkspaceInvitations (before : Z) (w : World) : World :=
  with_invitations (filter (fun '(_, i) => expired before i = false) (invitations w)) w.

(** ** Deleting an account *)

Definition others_in (ws user : Z) (p : WorkspaceMembership -> bool) (w : World) : bool :=
  existsb (fun '((k, u), m) => (k =? ws) && negb (u =? user) && p m) (map_to_list (members w)).

Definition is_owner_row (m : WorkspaceMembership) : bool := String.eqb (Role m) WorkspaceRoleOwner.

(** A workspace whose ownership has to be transferred first. *)
Definition blocking (user : Z) (w : World) (ws : Z) (m : WorkspaceMembership) : bool :=
  is_owner_row m && negb (others_in ws user is_owner_row w) &&
  match workspaces w !! ws with
  | Some x => negb (Personal x) || others_in ws user (fun _ => true) w
  | None => false
  end.

Definition validateUserAccountDeletion (user : Z) (w : World) : option ws_error :=
  if user =? 0 then Some RecordNotFound
  else if existsb (fun '(ws, m) => blocking user w ws m) (memberships_of user w)
  then Some ErrWorkspaceOwnershipTransferRequired else None.

Definition deletablePersonalWorkspaceIDs (user : Z) (w : World) : list Z :=
  map fst (List.filter (fun '(ws, m) =>
    is_owner_row m && match workspaces w !! ws with Some x => Personal x | None => false end &&
    negb (others_in ws user (fun _ => true) w)) (memberships_of user w)).

(** [DeleteUserAccountWithResult] on these tables: the personal workspaces go
    with their invitations, the account with its memberships and offers. *)
Definition DeleteUserAccount (user : Z) (w : World) : option ws_error * World :=
  match validateUserAccountDeletion user w with
  | Some e => (Some e, w)
  | None =>
      let gone := deletablePersonalWorkspaceIDs user w in
      let forget i := MkInvitation (WorkspaceID i) (InviteeUserID i)
        (if bool_decide (InviterUserID i = Some user) then None else InviterUserID i)
        (InviterEmail i) (inv_role i) (inv_billing i) (Notification i) (ExpiresAt i) in
      (None,
       MkWorld (delete user (users w)) (next_user w)
         (filter (fun '(ws, _) => ws ∉ gone) (workspaces w)) (next_workspace w)
         (filter (fun '((ws, u), _) => u <> user /\ ws ∉ gone) (members w))
         (forget <$> filter (fun '(_, i) => InviteeUserID i <> user /\ WorkspaceID i ∉ gone) (invitations w)) (next_invitation w))
  end.

(** ** Requests *)

(** The status of a response, and the tables after the request.  [requester]
    is the account of the token; 0 stands for a request without one. *)
Definition response : Type := Z * World.

Definition requirePathWorkspaceAccess (requester ws : Z) (role : string) (w : World) : res Z WorkspaceAccess :=
  if ws =? 0 then Err 400
  else if requester =? 0 then Err 401
  else
    match ResolveWorkspaceAccess requester ws w with
    | Err _ => Err 403
    | Ok access => if WorkspaceRoleRank (acc_role access) <? WorkspaceRoleRank role then Err 403 else Ok access
    end.

Definition is_manager (role : string) : bool := String.eqb role WorkspaceRoleOwner || String.eqb role WorkspaceRoleAdmin.

Definition update_status (e : option ws_error) : Z :=
  match e with None => 204 | Some RecordNotFound => 404 | Some _ => 400 end.

Definition updateWorkspaceMember (requester ws user : Z) (role : string) (billing : bool) (w : World) : response :=
  match requirePathWorkspaceAccess requester ws WorkspaceRoleAdmin w with
  | Err status => (status, w)
  | Ok access =>
      if user =? 0 then (400, w)
      else
        match ResolveWorkspaceAccess user ws w with
        | Err _ => (404, w)
        | Ok existing =>
            if negb (IsOwner access) &&
               (is_manager (acc_role existing) || is_manager (normal role) || acc_billing existing || billing)
            then (403, w)
            else let '(e, w') := UpdateWorkspaceMember ws user (normal role) billing w in (update_status e, w')
        end
  end.

Definition removeWorkspaceMember (requester ws user : Z) (w : World) : response :=
  match requirePathWorkspaceAccess requester ws WorkspaceRoleAdmin w with
  | Err status => (status, w)
  | Ok access =>
      if user =? 0 then (400, w)
      else
        match ResolveWorkspaceAccess user ws w with
        | Err _ => (404, w)
        | Ok existing =>
            if negb (IsOwner access) && (is_manager (acc_role existing) || acc_billing existing) then (403, w)
            else let '(e, w') := RemoveWorkspaceMember ws user w in
                 (match e with None => 204 | Some _ => 400 end, w')
        end
  end.

Definition authorizeWorkspaceInvitationMutation (access : WorkspaceAccess) (role : string) (billing : bool) : option Z :=
  if negb (bool_decide (role ∈ [WorkspaceRoleAdmin; WorkspaceRoleOperator; WorkspaceRoleViewer])) then Some 400
  else if IsOwner access then None
  else if String.eqb role WorkspaceRoleAdmin || billing then Some 403 else None.

Definition authorizeExistingWorkspaceInvitationMutation (access : WorkspaceAccess) (i : WorkspaceInvitation) : option Z :=
  if IsOwner access then None
  else if String.eqb (inv_role i) WorkspaceRoleAdmin || inv_billing i then Some 403 else None.

(** [writeWorkspaceInvitationError] *)
Definition invitation_status (e : ws_error) : Z :=
  match e with
  | ErrWorkspaceInviteeNotFound | ErrWorkspaceInvitationNotFound => 404
  | ErrWorkspaceInvitationExpired => 410
  | ErrWorkspaceInvitationExists | ErrWorkspaceMemberExists => 409
  | ErrInvalidWorkspaceRole => 400
  | _ => 500
  end.

(** The outcome of the notification email is recorded, an error only logged. *)
Definition notify (ws id : Z) (notified : string) (w : World) : World :=
  (SetWorkspaceInvitationNotificationStatus ws id notified w).2.

(** [createWorkspaceInvitation]; [ttl] is configured, [notified] how the email went. *)
Definition createWorkspaceInvitation (requester ws : Z) (email role : string) (billing : bool) (ttl now : Z) (notified : string)
    (w : World) : response :=
  match requirePathWorkspaceAccess requester ws WorkspaceRoleAdmin w with
  | Err status => (status, w)
  | Ok access =>
      if String.eqb (normal email) "" then (400, w)
      else
        match authorizeWorkspaceInvitationMutation access (normal role) billing with
        | Some status => (status, w)
        | None =>
            match CreateWorkspaceInvitation ws (acc_user access) email (normal role) billing (now + ttl) now w with
            | (Err e, _) => (invitation_status e, w)
            | (Ok id, w') => (201, notify ws id notified w')
            end
        end
  end.

Definition updateWorkspaceInvitation (requester ws id : Z) (role : string) (billing : bool) (now : Z) (notified : string)
    (w : World) : response :=
  match requirePathWorkspaceAccess requester ws WorkspaceRoleAdmin w with
  | Err status => (status, w)
  | Ok access =>
      if id =? 0 then (400, w)
      else
        match GetWorkspaceInvitationForWorkspace ws id now w with
        | Err e => (invitation_status e, w)
        | Ok current =>
            match authorizeExistingWorkspaceInvitationMutation access current with
            | Some status => (status, w)
            | None =>
                match authorizeWorkspaceInvitationMutation access (normal role) billing with
                | Some status => (status, w)
                | None =>
                    if String.eqb (normal role) (inv_role current) && Bool.eqb billing (inv_billing current) then (200, w)
                    else
                      match UpdateWorkspaceInvitation ws id (normal role) billing now w with
                      | (Some e, _) => (invitation_status e, w)
                      | (None, w') => (200, notify ws id notified w')
                      end
                end
            end
        end
  end.

Definition revokeWorkspaceInvitation (requester ws id now : Z) (w : World) : response :=
  match requirePathWorkspaceAccess requester ws WorkspaceRoleAdmin w with
  | Err status => (status, w)
  | Ok access =>
      if id =? 0 then (400, w)
      else
        match GetWorkspaceInvitationForWorkspace ws id now w with
        | Err e => (invitation_status e, w)
        | Ok i =>
            match authorizeExistingWorkspaceInvitationMutation access i with
            | Some status => (status, w)
            | None =>
                match RevokeWorkspaceInvitation ws id now w with
                | (Some e, _) => (invitation_status e, w)
                | (None, w') => (204, w')
                end
            end
        end
  end.

Definition createWorkspace (requester : Z) (name : string) (now : Z) (w : World) : response :=
  if requester =? 0 then (401, w)
  else match CreateWorkspace requester name now w with (Err _, _) => (400, w) | (Ok _, w') => (201, w') end.

Definition updateWorkspace (requester ws : Z) (name : string) (w : World) : response :=
  match requirePathWorkspaceAccess requester ws WorkspaceRoleAdmin w with
  | Err status => (status, w)
  | Ok _ => let '(e, w') := RenameWorkspace ws name w in (match e with None => 204 | Some _ => 400 end, w')
  end.

Definition selectWorkspace (requester ws : Z) (w : World) : response :=
  match requirePathWorkspaceAccess requester ws WorkspaceRoleViewer w with
  | Err status => (status, w)
  | Ok access => let '(e, w') := SetDefaultWorkspace (acc_user access) ws w in (match e with None => 204 | Some _ => 403 end, w')
  end.

Definition acceptWorkspaceInvitation (requester id now : Z) (w : World) : response :=
  if requester =? 0 then (401, w)
  else if id =? 0 then (400, w)
  else match AcceptWorkspaceInvitation id requester now w with (Err e, _) => (invitation_status e, w) | (Ok _, w') => (200, w') end.

Definition declineWorkspaceInvitation (requester id now : Z) (w : World) : response :=
  if requester =? 0 then (401, w)
  else if id =? 0 then (400, w)
  else match DeclineWorkspaceInvitation id requester now w with (Some e, _) => (invitation_status e, w) | (None, w') => (204, w') end.

(** [deleteAccount] on these tables: the password is missing, wrong or right,
    and the sessions could be revoked or not. *)
Definition deleteAccount (requester : Z) (password : option bool) (revoked : bool) (w : World) : response :=
  let failed e := match e with ErrWorkspaceOwnershipTransferRequired => 409 | _ => 500 end in
  if requester =? 0 then (401, w)
  else if bool_decide (users w !! requester = None) then (404, w)
  else
    match password with
    | None => (400, w)
    | Some false => (401, w)
    | Some true =>
        match validateUserAccountDeletion requester w with
        | Some e => (failed e, w)
        | None =>
            if negb revoked then (500, w)
            else match DeleteUserAccount requester w with (Some e, _) => (failed e, w) | (None, w') => (200, w') end
        end
    end.

(** ** Histories *)

Inductive op :=
| OpRegister (email : string) (now : Z)
| OpCreateWorkspace (user : Z) (name : string) (now : Z)
| OpRename (ws : Z) (name : string)
| OpSetDefault (user ws : Z)
| OpAddMember (ws : Z) (email role : string) (billing : bool) (now : Z)
| OpUpdateMember (ws user : Z) (role : string) (billing : bool)
| OpRemoveMember (ws user : Z)
| OpInvite (ws inviter : Z) (email role : string) (billing : bool) (expires now : Z)
| OpUpdateInvitation (ws id : Z) (role : string) (billing : bool) (now : Z)
| OpNotified (ws id : Z) (status : string)
| OpRevoke (ws id now : Z)
| OpAccept (id user now : Z)
| OpDecline (id user now : Z)
| OpDeleteExpired (before : Z)
| OpDeleteAccount (user : Z).

Definition exec (o : op) (w : World) : World :=
  match o with
  | OpRegister email now =>
      CreatePersonalWorkspaceForUser (next_user w) email now
        (MkWorld (<[next_user w := MkUser email]> (users w)) (next_user w + 1) (workspaces w) (next_workspace w) (members w)
           (invitations w) (next_invitation w))
  | OpCreateWorkspace user name now => (CreateWorkspace user name now w).2
  | OpRename ws name => (RenameWorkspace ws name w).2
  | OpSetDefault user ws => (SetDefaultWorkspace user ws w).2
  | OpAddMember ws email role billing now => (AddWorkspaceMember ws email role billing now w).2
  | OpUpdateMember ws user role billing => (UpdateWorkspaceMember ws user role billing w).2
  | OpRemoveMember ws user => (RemoveWorkspaceMember ws user w).2
  | OpInvite ws inviter email role billing expires now => (CreateWorkspaceInvitation ws inviter email role billing expires now w).2
  | OpUpdateInvitation ws id role billing now => (UpdateWorkspaceInvitation ws id role billing now w).2
  | OpNotified ws id status => notify ws id status w
  | OpRevoke ws id now => (RevokeWorkspaceInvitation ws id now w).2
  | OpAccept id user now => (AcceptWorkspaceInvitation id user now w).2
  | OpDecline id user now => (DeclineWorkspaceInvitation id user now w).2
  | OpDeleteExpired before => DeleteExpiredWorkspaceInvitations before w
  | OpDeleteAccount user => (DeleteUserAccount user w).2
  end.

Definition exec_all (l : list op) (w : World) : World := fold_left (fun w o => exec o w) l w.

Definition new_world : World := MkWorld ∅ 1 ∅ 1 ∅ ∅ 1.

(** Identifiers start at 1. *)
Definition team : World := exec_all
  [OpRegister "Ann@Example.org" 1; OpRegister "bob@example.org" 2; OpCreateWorkspace 1 "  The   team " 3;
   OpInvite 3 1 "BOB@example.org" " Admin" false 100 4; OpAccept 1 2 5] new_world.

Example team_members :
  (map (fun '(k, m) => (k, Role m, BillingAdmin m)) (map_to_list (members team)),
   option_map Name (workspaces team !! 3)) =
  ([((3, 1), "owner", true); ((3, 2), "admin", false); ((1, 1), "owner", true); ((2, 2), "owner", true)], Some "The team").
Proof. vm_compute. reflexivity. Qed.

Lemma normal_idem role : normal (normal role) = normal role.
Proof. unfold normal. by rewrite trim_to_lower, to_lower_idem by apply trim_space_trimmed. Qed.

(** ** The invariant *)

Definition is_role (role : string) : Prop :=
  role ∈ [WorkspaceRoleOwner; WorkspaceRoleAdmin; WorkspaceRoleOperator; WorkspaceRoleViewer].

Definition row_ok (m : WorkspaceMembership) : Prop :=
  is_role (Role m) /\ (Role m = WorkspaceRoleOwner -> BillingAdmin m = true).

Definition offer_ok (i : WorkspaceInvitation) : Prop :=
  inv_role i ∈ [WorkspaceRoleAdmin; WorkspaceRoleOperator; WorkspaceRoleViewer].

Definition owned (ms : gmap (Z * Z) WorkspaceMembership) (ws : Z) : Prop :=
  exists u m, ms !! (ws, u) = Some m /\ Role m = WorkspaceRoleOwner.

Record ws_wf (w : World) : Prop := {
  wf_users : forall u x, users w !! u = Some x -> u < next_user w;
  wf_workspaces : forall ws x, workspaces w !! ws = Some x -> ws < next_workspace w;
  wf_members : forall ws u m, members w !! (ws, u) = Some m ->
    is_Some (workspaces w !! ws) /\ is_Some (users w !! u) /\ row_ok m;
  wf_owned : forall ws, is_Some (workspaces w !! ws) -> owned (members w) ws;
  wf_invitations : forall id i, invitations w !! id = Some i ->
    id < next_invitation w /\ is_Some (workspaces w !! WorkspaceID i) /\ is_Some (users w !! InviteeUserID i) /\ offer_ok i;
  wf_pending : forall id id' i i', invitations w !! id = Some i -> invitations w !! id' = Some i' ->
    WorkspaceID i = WorkspaceID i' -> InviteeUserID i = InviteeUserID i' -> id = id'
}.

Lemma elem_of_owners ws w u :
  u ∈ owners ws w <-> exists m, members w !! (ws, u) = Some m /\ Role m = WorkspaceRoleOwner.
Proof.
  unfold owners. rewrite list_elem_of_omap. split.
  - intros ([[k u'] m] & Hin%elem_of_map_to_list & H).
    destruct ((k =? ws) && String.eqb (Role m) WorkspaceRoleOwner) eqn:E; [|done]. injection H as <-.
    apply andb_true_iff in E as [->%Z.eqb_eq E%String.eqb_eq]. by exists m.
  - intros (m & Hm & Hr). exists ((ws, u), m). split; [by apply elem_of_map_to_list|]. by rewrite Z.eqb_refl, Hr.
Qed.

Lemma NoDup_owners ws w : NoDup (owners ws w).
Proof.
  unfold owners. pose proof (NoDup_fst_map_to_list (members w)) as Hn. induction (map_to_list (members w)) as [|[[k u] m] l IH];
    cbn; [constructor|]. cbn in Hn. apply NoDup_cons in Hn as [Hni Hn].
  destruct ((k =? ws) && String.eqb (Role m) WorkspaceRoleOwner) eqn:E; [|by apply IH]. constructor; [|by apply IH].
  intros Hin. apply list_elem_of_omap in Hin as ([[k' u'] m'] & Hin & H).
  destruct ((k' =? ws) && String.eqb (Role m') WorkspaceRoleOwner) eqn:E'; [|done]. injection H as ->.
  apply andb_true_iff in E as [->%Z.eqb_eq _]. apply andb_true_iff in E' as [->%Z.eqb_eq _].
  apply Hni, list_elem_of_fmap. by exists ((ws, u), m').
Qed.

(** Another owner, when there are two. *)
Lemma another_owner ws w u : (1 < length (owners ws w))%nat -> exists v, v <> u /\ v ∈ owners ws w.
Proof.
  pose proof (NoDup_owners ws w) as Hn. destruct (owners ws w) as [|a [|b l]]; simpl; [lia|lia|]. intros _.
  apply NoDup_cons in Hn as [Hab _]. destruct (decide (a = u)) as [->|Hne]; [|exists a; split; [done|set_solver]].
  exists b. split; [|set_solver]. intros ->. set_solver.
Qed.

Lemma membership_normal role billing r b :
  normalize_membership role billing = Ok (r, b) -> is_role r /\ (r = WorkspaceRoleOwner -> b = true) /\ r = normal role.
Proof.
  unfold normalize_membership, IsWorkspaceRole, is_role. case_bool_decide; [|done]. intros [= <- <-].
  split; [done|]. split; [|done]. intros ->. simpl. apply orb_true_r.
Qed.

Lemma invitation_normal i c : normalize_invitation i = Ok c ->
  offer_ok c /\ WorkspaceID c = WorkspaceID i /\ InviteeUserID c = InviteeUserID i /\ inv_role c = normal (inv_role i) /\
  inv_billing c = inv_billing i.
Proof. unfold normalize_invitation, offer_ok. case_bool_decide; [|done]. by intros [= <-]. Qed.

(** Rewriting memberships in place: every row keeps its key and is sound, and
    every workspace an owner. *)
Lemma wf_members_change ms w :
  ws_wf w ->
  (forall ws u m, ms !! (ws, u) = Some m -> row_ok m /\ is_Some (members w !! (ws, u))) ->
  (forall ws, is_Some (workspaces w !! ws) -> owned ms ws) ->
  ws_wf (with_members ms w).
Proof.
  intros [A B C D E F] Hrow Hown. constructor; simpl; try done.
  intros ws u m Hm. destruct (Hrow ws u m Hm) as [Hok [m0 Hm0]]. destruct (C ws u m0 Hm0) as (H1 & H2 & _). done.
Qed.

(** Changing rows without losing an owner. *)
Lemma owned_weaken (ms ms' : gmap (Z * Z) WorkspaceMembership) ws :
  (forall u m, ms !! (ws, u) = Some m -> Role m = WorkspaceRoleOwner ->
    exists m', ms' !! (ws, u) = Some m' /\ Role m' = WorkspaceRoleOwner) -> owned ms ws -> owned ms' ws.
Proof. intros H (u & m & Hm & Hr). destruct (H u m Hm Hr) as (m' & Hm' & Hr'). by exists u, m'. Qed.

Lemma wf_default_change ms w :
  ws_wf w ->
  (forall k, (fun m => (Role m, BillingAdmin m)) <$> ms !! k = (fun m => (Role m, BillingAdmin m)) <$> members w !! k) ->
  ws_wf (with_members ms w).
Proof.
  intros Hwf Heq. pose proof Hwf as [A B C D E F]. apply wf_members_change; [done| |].
  - intros ws u m Hm. specialize (Heq (ws, u)). rewrite Hm in Heq. simpl in Heq. symmetry in Heq.
    apply fmap_Some in Heq as (m0 & Hm0 & Hmm). destruct (C ws u m0 Hm0) as (_ & _ & H1 & H2).
    injection Hmm as Hr Hb. split; [|by exists m0]. unfold row_ok. by rewrite Hr, Hb.
  - intros ws Hws. apply (owned_weaken (members w)); [|by apply D]. intros u m Hm Hr. specialize (Heq (ws, u)).
    rewrite Hm in Heq. simpl in Heq. apply fmap_Some in Heq as (m' & Hm' & Hmm). exists m'. split; [done|congruence].
Qed.

Lemma set_default_rows (b : bool) (k : Z * Z) (ms : gmap (Z * Z) WorkspaceMembership) (j : Z * Z) :
  (fun m => (Role m, BillingAdmin m)) <$> alter (set_default b) k ms !! j = (fun m => (Role m, BillingAdmin m)) <$> ms !! j.
Proof.
  destruct (decide (k = j)) as [->|Hne]; [|by rewrite lookup_alter_ne]. rewrite lookup_alter_eq. by destruct (ms !! j).
Qed.

(** ** Each operation keeps the invariant *)

Lemma wf_add_member ws user role billing now w :
  ws_wf w -> members w !! (ws, user) = None -> is_Some (workspaces w !! ws) -> is_Some (users w !! user) ->
  is_role role -> (role = WorkspaceRoleOwner -> billing = true) ->
  ws_wf (shared ws (with_members (<[(ws, user) := MkMembership role billing false now]> (members w)) w)).
Proof.
  intros [A B C D E F] Hnew Hws Hu Hrole Hb.
  assert (forall k, is_Some (alter (fun x => MkWorkspace (Name x) false) ws (workspaces w) !! k) <-> is_Some (workspaces w !! k)) as Halter.
  { intros k. destruct (decide (k = ws)) as [->|Hne]; [rewrite lookup_alter_eq; apply fmap_is_Some|by rewrite lookup_alter_ne]. }
  constructor; simpl; try done.
  - intros k x Hk. assert (is_Some (workspaces w !! k)) as [y Hy] by (apply Halter; by exists x). by eapply B.
  - intros k u m [[[= <- <-] <-]|[_ Hm]]%lookup_insert_Some; rewrite Halter; [by split; [|split; [|split]]|by apply C].
  - intros k Hk. apply Halter in Hk. apply (owned_weaken (members w)); [|by apply D]. intros u m Hm Hr.
    exists m. rewrite lookup_insert_ne; [done|]. intros Heq. congruence.
  - intros id i Hi. rewrite Halter. by apply E.
Qed.

Lemma wf_new_workspace user ws_row m w :
  ws_wf w -> is_Some (users w !! user) -> Role m = WorkspaceRoleOwner -> BillingAdmin m = true ->
  ws_wf (MkWorld (users w) (next_user w) (<[next_workspace w := ws_row]> (workspaces w)) (next_workspace w + 1)
    (<[(next_workspace w, user) := m]> (members w)) (invitations w) (next_invitation w)).
Proof.
  intros [A B C D E F] Hu Hr Hb.
  assert (forall k, is_Some (workspaces w !! k) -> is_Some (<[next_workspace w := ws_row]> (workspaces w) !! k)) as Hins
    by (intros k [x Hx]; rewrite lookup_insert_ne; [by exists x|apply B in Hx; lia]).
  constructor; simpl; try done.
  - intros k x [[<- _]|[_ Hx]]%lookup_insert_Some; [lia|apply B in Hx; lia].
  - intros k u m' [[[= <- <-] <-]|[_ Hm]]%lookup_insert_Some.
    + rewrite lookup_insert_eq. split; [done|]. split; [done|]. unfold row_ok, is_role. rewrite Hr, Hb. split; [set_solver|done].
    + destruct (C k u m' Hm) as (H1 & H2 & H3). split; [by apply Hins|done].
  - intros k Hk. destruct (decide (k = next_workspace w)) as [->|Hne].
    + exists user, m. by rewrite lookup_insert_eq.
    + rewrite lookup_insert_ne in Hk by done. apply (owned_weaken (members w)); [|by apply D]. intros u m' Hm Hr'.
      exists m'. rewrite lookup_insert_ne; [done|]. congruence.
  - intros id i Hi. destruct (E id i Hi) as (H1 & H2 & H3). split; [done|]. split; [by apply Hins|done].
Qed.

Lemma wf_fewer_invitations ms w :
  ws_wf w -> (forall id i, ms !! id = Some i -> exists i0, invitations w !! id = Some i0 /\
    WorkspaceID i = WorkspaceID i0 /\ InviteeUserID i = InviteeUserID i0 /\ offer_ok i) -> ws_wf (with_invitations ms w).
Proof.
  intros [A B C D E F] H. constructor; simpl; try done.
  - intros id i Hi. destruct (H id i Hi) as (i0 & Hi0 & -> & -> & Hok). destruct (E id i0 Hi0) as (H1 & H2 & H3 & _). done.
  - intros id id' i i' Hi Hi' H1 H2. destruct (H id i Hi) as (i0 & Hi0 & E1 & E2 & _).
    destruct (H id' i' Hi') as (i0' & Hi0' & E1' & E2' & _). eapply F; [exact Hi0|exact Hi0'| |]; congruence.
Qed.

Lemma wf_same_invitation (P : Z * WorkspaceInvitation -> Prop) `{forall x, Decision (P x)} w :
  ws_wf w -> ws_wf (with_invitations (filter P (invitations w)) w).
Proof.
  intros Hwf. apply wf_fewer_invitations; [done|]. intros id i [Hi _]%map_lookup_filter_Some. exists i.
  destruct (wf_invitations w Hwf id i Hi) as (_ & _ & _ & Hok). done.
Qed.

Lemma wf_delete_invitation id w : ws_wf w -> ws_wf (with_invitations (delete id (invitations w)) w).
Proof.
  intros Hwf. apply wf_fewer_invitations; [done|]. intros k i [_ Hi]%lookup_delete_Some. exists i.
  destruct (wf_invitations w Hwf k i Hi) as (_ & _ & _ & Hok). done.
Qed.

Lemma user_by_email_Some email w u : user_by_email email w = Some u -> is_Some (users w !! u).
Proof.
  unfold user_by_email. intros H. assert (u ∈ merge_sort Z.le (omap (fun '(k, u) =>
    if String.eqb (to_lower (Email u)) email then Some k else None) (map_to_list (users w)))) as Hin
    by (destruct (merge_sort _ _); [done|injection H as ->; apply list_elem_of_here]).
  rewrite (merge_sort_Permutation Z.le) in Hin. apply list_elem_of_omap in Hin as ([k x] & Hx & E).
  apply elem_of_map_to_list in Hx. destruct (String.eqb _ email); [|done]. injection E as ->. by exists x.
Qed.

Lemma wf_update_member ws user role billing w : ws_wf w -> ws_wf (UpdateWorkspaceMember ws user role billing w).2.
Proof.
  intros Hwf. unfold UpdateWorkspaceMember, UpdateWorkspaceMember_tx.
  destruct (normalize_membership (normal role) billing) as [[r b]|e] eqn:En; [|done].
  apply membership_normal in En as (Hr & Hb & _). destruct (members w !! (ws, user)) as [m|] eqn:Em; [|done].
  destruct (_ && _) eqn:Elast; [done|]. simpl. apply wf_members_change; [done| |].
  - intros k u m' Hm'. destruct (decide ((k, u) = (ws, user))) as [Heq|Hne].
    + rewrite Heq, lookup_alter_eq, Em in Hm'. rewrite Heq. injection Hm' as <-. done.
    + rewrite lookup_alter_ne in Hm' by done. destruct (wf_members w Hwf k u m' Hm') as (_ & _ & Hok). by split; [|exists m'].
  - intros k Hk. destruct (decide (k = ws)) as [->|Hne].
    2:{ apply (owned_weaken (members w)); [|by apply (wf_owned w Hwf)]. intros u m' Hm' Hr'. exists m'.
        rewrite lookup_alter_ne; [done|congruence]. }
    destruct (String.eqb_spec r WorkspaceRoleOwner) as [->|Hnr].
    { exists user, (update_row WorkspaceRoleOwner b m). by rewrite lookup_alter_eq, Em. }
    destruct (String.eqb_spec (Role m) WorkspaceRoleOwner) as [Hro|Hnro].
    + simpl in Elast. apply Nat.leb_gt in Elast. destruct (another_owner ws w user Elast) as (v & Hv & Hin).
      apply elem_of_owners in Hin as (mv & Hmv & Hrv). exists v, mv. rewrite lookup_alter_ne; [done|congruence].
    + apply (owned_weaken (members w)); [|by apply (wf_owned w Hwf)]. intros u m' Hm' Hr'. exists m'.
      rewrite lookup_alter_ne; [done|congruence].
Qed.

Lemma remove_row_rows ws user w k :
  (fun m => (Role m, BillingAdmin m)) <$> members (remove_row ws user w) !! k =
  (fun m => (Role m, BillingAdmin m)) <$> delete (ws, user) (members w) !! k.
Proof.
  unfold remove_row. destruct (first_by older _) as [[r mr]|]; [|done]. simpl. apply set_default_rows.
Qed.

Lemma wf_remove_member ws user w : ws_wf w -> ws_wf (RemoveWorkspaceMember ws user w).2.
Proof.
  intros Hwf. unfold RemoveWorkspaceMember, RemoveWorkspaceMember_tx.
  destruct (workspaces w !! ws) as [x|] eqn:Ews; [|done]. destruct (members w !! (ws, user)) as [m|] eqn:Em; [|done].
  destruct (Personal x && _); [done|]. destruct (String.eqb (Role m) WorkspaceRoleOwner && _) eqn:Elast; [done|]. simpl.
  assert (ws_wf (with_members (delete (ws, user) (members w)) w)) as Hdel.
  { apply wf_members_change; [done| |].
    - intros k u m' [_ Hm']%lookup_delete_Some. destruct (wf_members w Hwf k u m' Hm') as (_ & _ & Hok). by split; [|exists m'].
    - intros k Hk. destruct (decide (k = ws)) as [->|Hne].
      2:{ apply (owned_weaken (members w)); [|by apply (wf_owned w Hwf)]. intros u m' Hm' Hr'. exists m'.
          rewrite lookup_delete_ne; [done|congruence]. }
      destruct (String.eqb_spec (Role m) WorkspaceRoleOwner) as [Hro|Hnro].
      + simpl in Elast. apply Nat.leb_gt in Elast. destruct (another_owner ws w user Elast) as (v & Hv & Hin).
        apply elem_of_owners in Hin as (mv & Hmv & Hrv). exists v, mv. rewrite lookup_delete_ne; [done|congruence].
      + apply (owned_weaken (members w)); [|by apply (wf_owned w Hwf)]. intros u m' Hm' Hr'. exists m'.
        rewrite lookup_delete_ne; [done|congruence]. }
  assert (remove_row ws user w = with_members (members (remove_row ws user w)) (with_members (delete (ws, user) (members w)) w)) as ->
    by (unfold remove_row; by destruct (first_by older _) as [[r mr]|]).
  apply wf_default_change; [done|]. intros k. simpl. apply remove_row_rows.
Qed.

Lemma wf_join ws user role billing now w :
  ws_wf w -> is_Some (workspaces w !! ws) -> is_Some (users w !! user) -> is_role role ->
  (role = WorkspaceRoleOwner -> billing = true) -> ws_wf (join_workspace ws user role billing now w).2.
Proof.
  intros. unfold join_workspace. destruct (members w !! (ws, user)) eqn:E; [done|]. by apply wf_add_member.
Qed.

Lemma wf_invite ws inviter email role billing expires now w :
  ws_wf w -> ws_wf (CreateWorkspaceInvitation ws inviter email role billing expires now w).2.
Proof.
  intros Hwf. unfold CreateWorkspaceInvitation. destruct (_ || _ || _); [done|]. destruct (expires <=? now); [done|].
  destruct (user_by_email (normal email) w) as [invitee|] eqn:Eu; [|done]. apply user_by_email_Some in Eu.
  destruct (users w !! inviter) as [from|]; [|done]. case_bool_decide; [done|].
  destruct (normalize_invitation _) as [c|e] eqn:Ec; [|done]. apply invitation_normal in Ec as (Hok & Hws & Hi & _ & _).
  destruct (pending_for ws invitee _) eqn:Ep; [done|]. case_bool_decide as Hnw; [done|]. simpl in *.
  assert (forall id i, filter (fun '(_, i) => ((WorkspaceID i =? ws) && (InviteeUserID i =? invitee) && expired now i) = false)
    (invitations w) !! id = Some i -> invitations w !! id = Some i /\ (WorkspaceID i = ws -> InviteeUserID i = invitee -> False)) as Hkept.
  { intros id i Hi'. pose proof Hi' as [Hi0 _]%map_lookup_filter_Some. split; [done|]. intros H1 H2.
    rewrite <- not_true_iff_false in Ep. apply Ep. unfold pending_for. apply existsb_exists. exists (id, i).
    split; [by apply list_elem_of_In, elem_of_map_to_list|]. by rewrite H1, H2, !Z.eqb_refl. }
  destruct Hwf as [A B C D E F]. constructor; simpl; try done.
  - intros id i [[<- <-]|[_ H']]%lookup_insert_Some.
    + rewrite Hws, Hi. split; [lia|]. split; [by apply not_eq_None_Some|done].
    + apply Hkept in H' as [H' _]. destruct (E id i H') as (H1 & H2 & H3 & H4). split; [lia|done].
  - intros id id' i i' [[<- <-]|[Hne H1]]%lookup_insert_Some [[<- <-]|[Hne' H2]]%lookup_insert_Some Hw Hin; [done| | |].
    + apply Hkept in H2 as [_ H2]. exfalso. apply H2; congruence.
    + apply Hkept in H1 as [_ H1]. exfalso. apply H1; congruence.
    + apply Hkept in H1 as [H1 _]. apply Hkept in H2 as [H2 _]. by eapply F.
Qed.

Lemma get_invitation ws id now w i :
  GetWorkspaceInvitationForWorkspace ws id now w = Ok i ->
  invitations w !! id = Some i /\ WorkspaceID i = ws /\ now < ExpiresAt i.
Proof.
  unfold GetWorkspaceInvitationForWorkspace. destruct (invitations w !! id) as [x|]; [|done].
  destruct (WorkspaceID x =? ws) eqn:E; [|done]. unfold expired. destruct (ExpiresAt x <=? now) eqn:E2; [done|].
  simpl. intros [= ->]. split; [done|lia].
Qed.

Lemma offer_found id user now w i :
  offer_to id user now w = Ok i -> invitations w !! id = Some i /\ InviteeUserID i = user /\ now < ExpiresAt i.
Proof.
  unfold offer_to. destruct (invitations w !! id) as [x|]; [|done].
  destruct (InviteeUserID x =? user) eqn:E; [|done]. unfold expired. destruct (ExpiresAt x <=? now) eqn:E2; [done|].
  simpl. intros [= ->]. split; [done|lia].
Qed.

(** Replacing an invitation by one of the same pair. *)
Lemma wf_replace_invitation id i i' w :
  ws_wf w -> invitations w !! id = Some i -> WorkspaceID i' = WorkspaceID i -> InviteeUserID i' = InviteeUserID i ->
  offer_ok i' -> ws_wf (with_invitations (<[id := i']> (invitations w)) w).
Proof.
  intros Hwf Hi H1 H2 Hok. apply wf_fewer_invitations; [done|].
  intros k x [[<- <-]|[_ Hx]]%lookup_insert_Some; [by exists i|]. exists x.
  destruct (wf_invitations w Hwf k x Hx) as (_ & _ & _ & H). done.
Qed.

Lemma wf_update_invitation ws id role billing now w :
  ws_wf w -> ws_wf (UpdateWorkspaceInvitation ws id role billing now w).2.
Proof.
  intros Hwf. unfold UpdateWorkspaceInvitation. destruct (GetWorkspaceInvitationForWorkspace ws id now w) as [i|e] eqn:E; [|done].
  apply get_invitation in E as (Hi & _ & _). destruct (normalize_invitation _) as [c|e] eqn:Ec; [|done].
  apply invitation_normal in Ec as (Hok & _). simpl. by apply (wf_replace_invitation id i).
Qed.

Lemma wf_notify ws id status w : ws_wf w -> ws_wf (notify ws id status w).
Proof.
  intros Hwf. unfold notify, SetWorkspaceInvitationNotificationStatus. destruct (normalize_invitation _) as [c|e]; [|done].
  destruct (invitations w !! id) as [i|] eqn:Ei; [|done]. destruct (WorkspaceID i =? ws); [|done].
  apply (wf_replace_invitation id i); try done. by destruct (wf_invitations w Hwf id i Ei) as (_ & _ & _ & H).
Qed.

Lemma wf_accept id user now w : ws_wf w -> ws_wf (AcceptWorkspaceInvitation id user now w).2.
Proof.
  intros Hwf. unfold AcceptWorkspaceInvitation. destruct (offer_to id user now w) as [i|e] eqn:E; [|done].
  apply offer_found in E as (Hi & Hu & _). destruct (wf_invitations w Hwf id i Hi) as (_ & Hws & Huser & _).
  destruct (normalize_membership _ _) as [[role billing]|e] eqn:En; [|done]. apply membership_normal in En as (Hr & Hb & _).
  rewrite Hu in Huser. pose proof (wf_join (WorkspaceID i) user role billing now w Hwf Hws Huser Hr Hb) as Hj.
  destruct (join_workspace _ _ _ _ _ _) as [[e|] w1]; [done|]. by apply wf_delete_invitation.
Qed.

Lemma others_in_spec ws user p w :
  others_in ws user p w = true <-> exists u m, members w !! (ws, u) = Some m /\ u <> user /\ p m = true.
Proof.
  unfold others_in. rewrite existsb_exists. split.
  - intros ([[k u] m] & Hin%list_elem_of_In%elem_of_map_to_list & H).
    apply andb_true_iff in H as [[->%Z.eqb_eq Hu]%andb_true_iff Hp]. exists u, m. split; [done|]. split; [lia|done].
  - intros (u & m & Hm & Hne & Hp). exists ((ws, u), m). split; [by apply list_elem_of_In, elem_of_map_to_list|].
    rewrite Z.eqb_refl, Hp. simpl. by rewrite (proj2 (Z.eqb_neq _ _) Hne).
Qed.

Lemma elem_of_memberships user w ws m : (ws, m) ∈ memberships_of user w <-> members w !! (ws, user) = Some m.
Proof.
  unfold memberships_of. rewrite list_elem_of_omap. split.
  - intros ([[k u] m'] & Hin%elem_of_map_to_list & H). destruct (u =? user) eqn:E; [|done]. injection H as <- <-.
    by assert (u = user) as <- by lia.
  - intros H. exists ((ws, user), m). split; [by apply elem_of_map_to_list|]. by rewrite Z.eqb_refl.
Qed.

(** What a deletion that goes through leaves behind: other workspaces keep an owner. *)
Lemma deletion_keeps_owner user w ws :
  ws_wf w -> validateUserAccountDeletion user w = None -> is_Some (workspaces w !! ws) ->
  ws ∉ deletablePersonalWorkspaceIDs user w ->
  exists v m, members w !! (ws, v) = Some m /\ Role m = WorkspaceRoleOwner /\ v <> user.
Proof.
  intros Hwf Hv [x Hx] Hgone. destruct (wf_owned w Hwf ws (ex_intro _ x Hx)) as (u & m & Hm & Hr).
  destruct (decide (u = user)) as [->|Hne]; [|by exists u, m].
  unfold validateUserAccountDeletion in Hv. destruct (user =? 0); [done|].
  destruct (existsb _ _) eqn:Eb; [done|]. clear Hv.
  assert (blocking user w ws m = false) as Hb.
  { destruct (blocking user w ws m) eqn:E; [|done]. rewrite <- Eb. symmetry. apply existsb_exists. exists (ws, m).
    split; [by apply list_elem_of_In, elem_of_memberships|done]. }
  assert (is_owner_row m = true) as Ho by (unfold is_owner_row; by rewrite Hr).
  unfold blocking in Hb. rewrite Ho, Hx in Hb. simpl in Hb.
  destruct (others_in ws user is_owner_row w) eqn:Eo.
  - apply others_in_spec in Eo as (v & mv & Hmv & Hne & Hp). exists v, mv. split; [done|]. split; [by apply String.eqb_eq|done].
  - simpl in Hb. apply orb_false_iff in Hb as [Hpers Hnone]. exfalso. apply Hgone. unfold deletablePersonalWorkspaceIDs.
    apply list_elem_of_In, in_map_iff. exists (ws, m). split; [done|]. apply List.filter_In.
    split; [by apply list_elem_of_In, elem_of_memberships|]. by rewrite Ho, Hx, Hnone, (proj1 (negb_false_iff _) Hpers).
Qed.

Lemma wf_delete_account user w : ws_wf w -> ws_wf (DeleteUserAccount user w).2.
Proof.
  intros Hwf. unfold DeleteUserAccount. destruct (validateUserAccountDeletion user w) as [e|] eqn:Ev; [done|]. simpl.
  set (gone := deletablePersonalWorkspaceIDs user w).
  assert (forall ws, is_Some (filter (fun '(ws, _) => ws ∉ gone) (workspaces w) !! ws) <-> is_Some (workspaces w !! ws) /\ ws ∉ gone) as Hws.
  { intros ws. split; [intros [x [Hx Hn]%map_lookup_filter_Some]; split; [by exists x|done]|].
    intros [[x Hx] Hn]. exists x. by apply map_lookup_filter_Some. }
  constructor; simpl.
  - intros u x [_ Hx]%lookup_delete_Some. by eapply wf_users.
  - intros ws x [Hx _]%map_lookup_filter_Some. by eapply wf_workspaces.
  - intros ws u m [Hm [Hu Hn]]%map_lookup_filter_Some. destruct (wf_members w Hwf ws u m Hm) as (H1 & H2 & H3).
    rewrite Hws. split; [done|]. split; [by rewrite lookup_delete_ne|done].
  - intros ws [Hs Hn]%Hws. destruct (deletion_keeps_owner user w ws Hwf Ev Hs Hn) as (v & m & Hm & Hr & Hne).
    exists v, m. split; [by apply map_lookup_filter_Some|done].
  - intros id i Hi. apply lookup_fmap_Some in Hi as (i0 & <- & [Hi0 [Hu Hn]]%map_lookup_filter_Some). simpl.
    destruct (wf_invitations w Hwf id i0 Hi0) as (H1 & H2 & H3 & H4). rewrite Hws. do 2 (split; [done|]).
    split; [by rewrite lookup_delete_ne|done].
  - intros id id' i i' Hi Hi' H1 H2. apply lookup_fmap_Some in Hi as (i0 & <- & [Hi0 _]%map_lookup_filter_Some).
    apply lookup_fmap_Some in Hi' as (i0' & <- & [Hi0' _]%map_lookup_filter_Some). by eapply wf_pending.
Qed.

Lemma wf_exec o w : ws_wf w -> ws_wf (exec o w).
Proof.
  intros Hwf. destruct o; simpl.
  - apply (wf_new_workspace (next_user w) _ _
      (MkWorld (<[next_user w := MkUser email]> (users w)) (next_user w + 1) (workspaces w) (next_workspace w) (members w)
         (invitations w) (next_invitation w))); [|simpl; by rewrite lookup_insert_eq|done|done].
    destruct Hwf as [A B C D E F].
    assert (forall u, is_Some (users w !! u) -> is_Some (<[next_user w := MkUser email]> (users w) !! u)) as Hu
      by (intros u [x Hx]; rewrite lookup_insert_ne; [by exists x|apply A in Hx; lia]).
    constructor; simpl; try done.
    + intros u x [[<- _]|[_ Hx]]%lookup_insert_Some; [lia|apply A in Hx; lia].
    + intros ws u m Hm. destruct (C ws u m Hm) as (H1 & H2 & H3). split; [done|]. split; [by apply Hu|done].
    + intros id i Hi. destruct (E id i Hi) as (H1 & H2 & H3 & H4). do 2 (split; [done|]). split; [by apply Hu|done].
  - unfold CreateWorkspace. destruct (check_name _); [done|]. destruct (users w !! user) eqn:Eu; [|done].
    by apply wf_new_workspace; [|exists u| |].
  - unfold RenameWorkspace. destruct (check_name _); [done|]. destruct (workspaces w !! ws) as [x|] eqn:Ex; [|done]. simpl.
    assert (forall k, is_Some (<[ws := MkWorkspace (normalizeWorkspaceName name) (Personal x)]> (workspaces w) !! k) <->
      is_Some (workspaces w !! k)) as Hk.
    { intros k. destruct (decide (ws = k)) as [<-|Hne]; [rewrite lookup_insert_eq, Ex; split; by eexists|by rewrite lookup_insert_ne]. }
    destruct Hwf as [A B C D E F]. constructor; simpl; try done.
    + intros k y Hy. assert (is_Some (workspaces w !! k)) as [z Hz] by (apply Hk; by exists y). by eapply B.
    + intros k u m Hm. rewrite Hk. by apply C.
    + intros k Hs. by apply D, Hk.
    + intros id i Hi. rewrite Hk. by apply E.
  - unfold SetDefaultWorkspace. destruct (members w !! (ws, user)); [|done]. simpl. apply wf_default_change; [done|].
    intros k. rewrite set_default_rows, map_lookup_imap. destruct (members w !! k); [|done]. simpl. by destruct (k.2 =? user).
  - unfold AddWorkspaceMember. destruct (normalize_membership _ _) as [[r b]|e] eqn:En; [|done].
    apply membership_normal in En as (Hr & Hb & _). destruct (String.eqb r _); [done|].
    destruct (user_by_email _ w) eqn:Eu; [|done]. apply user_by_email_Some in Eu.
    destruct (workspaces w !! ws) eqn:Ew; [|done]. by apply wf_join; [|exists w0| | |].
  - by apply wf_update_member.
  - by apply wf_remove_member.
  - by apply wf_invite.
  - by apply wf_update_invitation.
  - by apply wf_notify.
  - unfold RevokeWorkspaceInvitation. destruct (GetWorkspaceInvitationForWorkspace _ _ _ _); [|done]. by apply wf_delete_invitation.
  - by apply wf_accept.
  - unfold DeclineWorkspaceInvitation. destruct (offer_to _ _ _ _); [|done]. by apply wf_delete_invitation.
  - by apply wf_same_invitation.
  - by apply wf_delete_account.
Qed.

Lemma exec_all_ws_wf l w : ws_wf w -> ws_wf (exec_all l w).
Proof. unfold exec_all. revert w. induction l as [|o l IH]; intros w Hwf; [done|]. by apply IH, wf_exec. Qed.

Lemma new_world_wf : ws_wf new_world.
Proof.
  constructor; simpl; intros *; rewrite ?lookup_empty; try done.
Qed.

(** C7. Every workspace keeps an owner.  After any sequence of registrations,
    invitations, changes of members and deletions of accounts, one transaction
    after the other, each workspace has a member who owns it and whose account
    exists; owners manage billing; nobody is invited as an owner; and an account
    has at most one pending invitation to a workspace. *)
Theorem workspace_keeps_owner l :
  let w := exec_all l new_world in
  (forall ws, is_Some (workspaces w !! ws) ->
    exists u m, members w !! (ws, u) = Some m /\ Role m = WorkspaceRoleOwner /\ is_Some (users w !! u)) /\
  (forall ws u m, members w !! (ws, u) = Some m -> is_role (Role m) /\ (Role m = WorkspaceRoleOwner -> BillingAdmin m = true)) /\
  (forall id i, invitations w !! id = Some i -> inv_role i <> WorkspaceRoleOwner /\ is_Some (workspaces w !! WorkspaceID i)) /\
  (forall id id' i i', invitations w !! id = Some i -> invitations w !! id' = Some i' ->
    WorkspaceID i = WorkspaceID i' -> InviteeUserID i = InviteeUserID i' -> id = id').
Proof.
  intros w. pose proof (exec_all_ws_wf l _ new_world_wf) as Hwf. fold w in Hwf. split; [|split; [|split]].
  - intros ws Hws. destruct (wf_owned w Hwf ws Hws) as (u & m & Hm & Hr). exists u, m. do 2 (split; [done|]).
    by destruct (wf_members w Hwf ws u m Hm) as (_ & H & _).
  - intros ws u m Hm. by destruct (wf_members w Hwf ws u m Hm) as (_ & _ & H).
  - intros id i Hi. destruct (wf_invitations w Hwf id i Hi) as (_ & Hws & _ & Hok). split; [|done]. unfold offer_ok in Hok.
    intros Heq. rewrite Heq in Hok. set_solver.
  - by apply wf_pending.
Qed.

(** C39. Two transactions at once can take the last owner.  The check that an
    owner remains counts rows it does not lock: when a workspace has two owners
    and each is demoted by a transaction that has not seen the other, both
    succeed and nobody owns the workspace. *)
Theorem concurrent_demotions_leave_no_owner ws a b role billing w :
  a <> b -> ws_wf w -> (forall u, u ∈ owners ws w <-> u = a \/ u = b) ->
  role ∈ [WorkspaceRoleAdmin; WorkspaceRoleOperator; WorkspaceRoleViewer] ->
  let first := UpdateWorkspaceMember_tx ws a role billing w w in
  let second := UpdateWorkspaceMember_tx ws b role billing w first.2 in
  first.1 = None /\ second.1 = None /\ owners ws second.2 = [].
Proof.
  intros Hab Hwf Hown Hrole.
  assert (exists bl, normalize_membership (normal role) billing = Ok (role, bl) /\ String.eqb role WorkspaceRoleOwner = false) as (bl & En & Hno).
  { apply list_elem_of_In in Hrole as [<-|[<-|[<-|[]]]]; exists billing; destruct billing;
      (split; [vm_compute; reflexivity|reflexivity]). }
  assert (1 < length (owners ws w))%nat as Hlen.
  { assert (a ∈ owners ws w) as Ha by (apply Hown; auto). assert (b ∈ owners ws w) as Hb by (apply Hown; auto).
    destruct (owners ws w) as [|x [|y l]]; simpl; [set_solver|set_solver|lia]. }
  assert (forall u, u = a \/ u = b -> exists m, members w !! (ws, u) = Some m) as Hm.
  { intros u Hu%Hown. apply elem_of_owners in Hu as (m & Hm & _). by exists m. }
  assert (forall u w', u = a \/ u = b -> UpdateWorkspaceMember_tx ws u role billing w w' =
    (None, with_members (alter (update_row role bl) (ws, u) (members w')) w')) as Hup.
  { intros u w' Hu. unfold UpdateWorkspaceMember_tx. rewrite En. destruct (Hm u Hu) as [m ->]. rewrite Hno.
    replace (length (owners ws w) <=? 1)%nat with false by (symmetry; by apply Nat.leb_gt). by rewrite andb_false_r. }
  cbv zeta. rewrite !Hup by auto. cbn [fst snd members with_members]. do 2 (split; [done|]).
  apply elem_of_nil_inv. intros u Hu. apply elem_of_owners in Hu as (m & Hm' & Hr). cbn [members with_members] in Hm'.
  assert (role <> WorkspaceRoleOwner) as Hne by by apply String.eqb_neq.
  destruct (decide (u = b)) as [->|Hub].
  { rewrite lookup_alter_eq in Hm'. apply fmap_Some in Hm' as (m0 & _ & ->). done. }
  rewrite lookup_alter_ne in Hm' by congruence. destruct (decide (u = a)) as [->|Hua].
  { rewrite lookup_alter_eq in Hm'. apply fmap_Some in Hm' as (m0 & _ & ->). done. }
  rewrite lookup_alter_ne in Hm' by congruence. assert (u ∈ owners ws w) as Hin by (apply elem_of_owners; by exists m).
  apply Hown in Hin. naive_solver.
Qed.

(** ** Who may change what *)

(** What a member holds: the role and the billing flag. *)
Definition held (m : WorkspaceMembership) : string * bool := (Role m, BillingAdmin m).
Definition offered (i : WorkspaceInvitation) : Z * Z * string * bool := (WorkspaceID i, InviteeUserID i, inv_role i, inv_billing i).

(** Memberships and offers only owners may grant or take away. *)
Definition privileged (m : WorkspaceMembership) : bool := is_manager (Role m) || BillingAdmin m.
Definition privileged_offer (i : WorkspaceInvitation) : bool := String.eqb (inv_role i) WorkspaceRoleAdmin || inv_billing i.

(** The privileged part of two tables agrees, but for expired offers. *)
Definition same_privileges (now : Z) (w w' : World) : Prop :=
  (forall k m', members w' !! k = Some m' -> privileged m' = true -> exists m, members w !! k = Some m /\ held m = held m') /\
  (forall k m, members w !! k = Some m -> privileged m = true -> exists m', members w' !! k = Some m' /\ held m = held m') /\
  (forall id i', invitations w' !! id = Some i' -> privileged_offer i' = true ->
    exists i, invitations w !! id = Some i /\ offered i = offered i') /\
  (forall id i, invitations w !! id = Some i -> privileged_offer i = true -> now < ExpiresAt i ->
    exists i', invitations w' !! id = Some i' /\ offered i = offered i').

Lemma same_privileges_refl now w : same_privileges now w w.
Proof. repeat split; intros; eexists; split; done. Qed.

(** Only the offers change, and those are not privileged. *)
Lemma same_privileges_members now w w' :
  invitations w' = invitations w ->
  (forall k m', members w' !! k = Some m' -> privileged m' = true -> exists m, members w !! k = Some m /\ held m = held m') ->
  (forall k m, members w !! k = Some m -> privileged m = true -> exists m', members w' !! k = Some m' /\ held m = held m') ->
  same_privileges now w w'.
Proof. intros Hi H1 H2. split; [done|]. split; [done|]. rewrite Hi. split; intros; eexists; split; done. Qed.

Lemma same_privileges_offers now w w' :
  members w' = members w ->
  (forall id i', invitations w' !! id = Some i' -> privileged_offer i' = true ->
    exists i, invitations w !! id = Some i /\ offered i = offered i') ->
  (forall id i, invitations w !! id = Some i -> privileged_offer i = true -> now < ExpiresAt i ->
    exists i', invitations w' !! id = Some i' /\ offered i = offered i') ->
  same_privileges now w w'.
Proof. intros Hm H1 H2. unfold same_privileges. rewrite Hm. split; [|split; [|by split]]; intros; eexists; split; done. Qed.

Lemma requester_access requester ws role w access :
  requirePathWorkspaceAccess requester ws role w = Ok access ->
  exists m, members w !! (ws, requester) = Some m /\ acc_role access = Role m /\ acc_user access = requester.
Proof.
  unfold requirePathWorkspaceAccess, ResolveWorkspaceAccess. destruct (ws =? 0); [done|]. destruct (requester =? 0); [done|].
  simpl. destruct (members w !! (ws, requester)) as [m|]; [|done]. destruct (_ <? _); [done|]. intros [= <-]. by exists m.
Qed.

(** A requester that is no owner of the workspace. *)
Definition no_owner (requester ws : Z) (w : World) : Prop :=
  forall m, members w !! (ws, requester) = Some m -> Role m <> WorkspaceRoleOwner.

Lemma no_owner_access requester ws role w access :
  no_owner requester ws w -> requirePathWorkspaceAccess requester ws role w = Ok access ->
  IsOwner access = false /\ ws =? 0 = false.
Proof.
  intros Hno H. pose proof (requester_access _ _ _ _ _ H) as (m & Hm & Hr & _). split.
  - unfold IsOwner. rewrite Hr. apply String.eqb_neq. by apply Hno.
  - unfold requirePathWorkspaceAccess in H. by destruct (ws =? 0).
Qed.

Lemma resolve_member user ws w access :
  ws =? 0 = false -> ResolveWorkspaceAccess user ws w = Ok access ->
  exists m, members w !! (ws, user) = Some m /\ acc_role access = Role m /\ acc_billing access = BillingAdmin m.
Proof.
  intros Hws. unfold ResolveWorkspaceAccess. rewrite Hws. destruct (user =? 0); [done|]. simpl.
  destruct (members w !! (ws, user)) as [m|]; [|done]. intros [= <-]. by exists m.
Qed.

Lemma held_alter_unprivileged (k : Z * Z) (m0 : WorkspaceMembership) (f : WorkspaceMembership -> WorkspaceMembership) (ms : gmap (Z * Z) WorkspaceMembership) :
  ms !! k = Some m0 -> privileged m0 = false -> privileged (f m0) = false ->
  (forall j m', alter f k ms !! j = Some m' -> privileged m' = true -> exists m, ms !! j = Some m /\ held m = held m') /\
  (forall j m, ms !! j = Some m -> privileged m = true -> exists m', alter f k ms !! j = Some m' /\ held m = held m').
Proof.
  intros Hk H0 Hf. split; intros j m Hm Hp; destruct (decide (j = k)) as [->|Hne].
  - rewrite lookup_alter_eq, Hk in Hm. injection Hm as <-. congruence.
  - rewrite lookup_alter_ne in Hm by done. by exists m.
  - assert (m = m0) as -> by congruence. congruence.
  - exists m. by rewrite lookup_alter_ne.
Qed.

Lemma update_member_privileges requester ws user role billing now w :
  no_owner requester ws w -> same_privileges now w (updateWorkspaceMember requester ws user role billing w).2.
Proof.
  intros Hno. unfold updateWorkspaceMember. destruct (requirePathWorkspaceAccess _ _ _ w) as [access|] eqn:Ea; [|apply same_privileges_refl].
  destruct (no_owner_access _ _ _ _ _ Hno Ea) as [Ho Hws]. destruct (user =? 0); [apply same_privileges_refl|].
  destruct (ResolveWorkspaceAccess user ws w) as [existing|] eqn:Ee; [|apply same_privileges_refl].
  destruct (resolve_member _ _ _ _ Hws Ee) as (m & Hm & Hr & Hb). rewrite Ho, Hr, Hb. simpl negb. rewrite andb_true_l.
  destruct (is_manager (Role m) || is_manager (normal role) || BillingAdmin m || billing) eqn:Eg; [apply same_privileges_refl|].
  apply orb_false_iff in Eg as [[[G1 G2]%orb_false_iff G3]%orb_false_iff ->].
  unfold UpdateWorkspaceMember, UpdateWorkspaceMember_tx. destruct (normalize_membership _ _) as [[r b]|e] eqn:En; [|apply same_privileges_refl].
  rewrite Hm. destruct (_ && _); [apply same_privileges_refl|]. simpl.
  assert (r = normal role /\ b = false) as [-> ->].
  { unfold normalize_membership in En. pose proof (normal_idem role) as Hn.
    destruct (IsWorkspaceRole _); [|done]. rewrite Hn in En. injection En as <- <-. split; [done|].
    unfold is_manager in G2. apply orb_false_iff in G2 as [G2 _]. by rewrite Hn. }
  destruct (held_alter_unprivileged (ws, user) m (update_row (normal role) false) (members w) Hm) as [H1 H2].
  - unfold privileged. by rewrite G1, G3.
  - unfold privileged. simpl. by rewrite G2.
  - by apply same_privileges_members.
Qed.

Lemma held_privileged m m' : held m = held m' -> privileged m = privileged m'.
Proof. unfold held, privileged. by intros [= -> ->]. Qed.

Lemma remove_member_privileges requester ws user now w :
  no_owner requester ws w -> same_privileges now w (removeWorkspaceMember requester ws user w).2.
Proof.
  intros Hno. unfold removeWorkspaceMember. destruct (requirePathWorkspaceAccess _ _ _ w) as [access|] eqn:Ea; [|apply same_privileges_refl].
  destruct (no_owner_access _ _ _ _ _ Hno Ea) as [Ho Hws]. destruct (user =? 0); [apply same_privileges_refl|].
  destruct (ResolveWorkspaceAccess user ws w) as [existing|] eqn:Ee; [|apply same_privileges_refl].
  destruct (resolve_member _ _ _ _ Hws Ee) as (m & Hm & Hr & Hb). rewrite Ho, Hr, Hb. simpl negb. rewrite andb_true_l.
  destruct (is_manager (Role m) || BillingAdmin m) eqn:Eg; [apply same_privileges_refl|].
  unfold RemoveWorkspaceMember, RemoveWorkspaceMember_tx. rewrite Hm. destruct (workspaces w !! ws) as [x|]; [|apply same_privileges_refl].
  destruct (Personal x && _); [apply same_privileges_refl|]. destruct (_ && _); [apply same_privileges_refl|]. simpl.
  assert (invitations (remove_row ws user w) = invitations w) as Hi by (unfold remove_row; by destruct (first_by older _) as [[r mr]|]).
  pose proof (remove_row_rows ws user w) as Hrows. apply same_privileges_members; [done| |].
  - intros k m' Hm' _. specialize (Hrows k). rewrite Hm' in Hrows. simpl in Hrows. symmetry in Hrows.
    apply fmap_Some in Hrows as (m0 & [_ Hm0]%lookup_delete_Some & Heq). exists m0. split; [done|]. unfold held. congruence.
  - intros k m0 Hm0 Hp. specialize (Hrows k). destruct (decide (k = (ws, user))) as [->|Hne].
    { assert (m0 = m) as -> by congruence. unfold privileged in Hp. congruence. }
    rewrite lookup_delete_ne, Hm0 in Hrows by done. simpl in Hrows. apply fmap_Some in Hrows as (m' & Hm' & Heq).
    exists m'. split; [done|]. unfold held. congruence.
Qed.

(** Replacing one offer that is not privileged by one that is not. *)
Lemma offers_replace now id i i' w :
  invitations w !! id = Some i -> privileged_offer i = false -> privileged_offer i' = false ->
  same_privileges now w (with_invitations (<[id := i']> (invitations w)) w).
Proof.
  intros Hi Hp Hp'. apply same_privileges_offers; [done| |]; simpl.
  - intros k x [[<- <-]|[_ Hx]]%lookup_insert_Some Hx'; [congruence|by exists x].
  - intros k x Hx Hx' _. exists x. rewrite lookup_insert_ne; [done|]. intros <-. congruence.
Qed.

(** Recording the notification keeps every offer. *)
Lemma notify_offers ws id status w k : offered <$> invitations (notify ws id status w) !! k = offered <$> invitations w !! k.
Proof.
  unfold notify, SetWorkspaceInvitationNotificationStatus. destruct (normalize_invitation _); [|done].
  destruct (invitations w !! id) as [i|] eqn:Ei; [|done]. destruct (_ =? ws); [|done]. simpl.
  destruct (decide (id = k)) as [<-|Hne]; [by rewrite lookup_insert_eq, Ei|by rewrite lookup_insert_ne].
Qed.

Lemma offered_privileged i i' : offered i = offered i' -> privileged_offer i = privileged_offer i'.
Proof. unfold offered, privileged_offer. by intros [= _ _ -> ->]. Qed.

Lemma notify_privileges now ws id status w w' :
  same_privileges now w w' -> same_privileges now w (notify ws id status w').
Proof.
  intros (H1 & H2 & H3 & H4).
  assert (members (notify ws id status w') = members w') as Hm.
  { unfold notify, SetWorkspaceInvitationNotificationStatus. destruct (normalize_invitation _); [|done].
    destruct (invitations w' !! id); [|done]. by destruct (_ =? ws). }
  unfold same_privileges. rewrite Hm. split; [done|]. split; [done|]. split.
  - intros k i' Hi' Hp. pose proof (notify_offers ws id status w' k) as Ho. rewrite Hi' in Ho. symmetry in Ho.
    apply fmap_Some in Ho as (x & Hx & Heq). destruct (H3 k x Hx) as (i & Hi & Hii); [by rewrite <- (offered_privileged _ _ Heq)|].
    exists i. split; [done|congruence].
  - intros k i Hi Hp Ht. destruct (H4 k i Hi Hp Ht) as (x & Hx & Heq). pose proof (notify_offers ws id status w' k) as Ho.
    rewrite Hx in Ho. apply fmap_Some in Ho as (y & Hy & Heq'). exists y. split; [done|congruence].
Qed.

(** What a requester who is no owner may offer is not privileged. *)
Lemma authorized_offer access role billing :
  IsOwner access = false -> authorizeWorkspaceInvitationMutation access role billing = None ->
  String.eqb role WorkspaceRoleAdmin = false /\ billing = false.
Proof.
  unfold authorizeWorkspaceInvitationMutation. intros ->. destruct (negb _); [done|].
  destruct (_ || billing) eqn:E; [done|]. intros _. by apply orb_false_iff in E.
Qed.

Lemma create_invitation_privileges requester ws email role billing ttl now notified w :
  no_owner requester ws w -> ws_wf w ->
  same_privileges now w (createWorkspaceInvitation requester ws email role billing ttl now notified w).2.
Proof.
  intros Hno Hwf. unfold createWorkspaceInvitation. destruct (requirePathWorkspaceAccess _ _ _ w) as [access|] eqn:Ea; [|apply same_privileges_refl].
  destruct (no_owner_access _ _ _ _ _ Hno Ea) as [Ho _]. destruct (String.eqb _ ""); [apply same_privileges_refl|].
  destruct (authorizeWorkspaceInvitationMutation access (normal role) billing) eqn:Eau; [apply same_privileges_refl|].
  destruct (authorized_offer _ _ _ Ho Eau) as [Hr ->].
  destruct (CreateWorkspaceInvitation _ _ _ _ _ _ _ w) as [[id|e] w'] eqn:Ec; [|apply same_privileges_refl]. simpl.
  apply notify_privileges. revert Ec. unfold CreateWorkspaceInvitation. destruct (_ || _ || _); [done|]. destruct (_ <=? _); [done|].
  destruct (user_by_email _ w) as [invitee|]; [|done]. destruct (users w !! _) as [from|]; [|done]. case_bool_decide; [done|].
  destruct (normalize_invitation _) as [c|e] eqn:En; [|done]. destruct (pending_for _ _ _); [done|]. case_bool_decide; [done|].
  intros [= <- <-]. apply invitation_normal in En as (_ & _ & _ & Hcr & Hcb). simpl in Hcr, Hcb.
  assert (privileged_offer c = false) as Hpc by (unfold privileged_offer; by rewrite Hcr, Hcb, !normal_idem, Hr).
  apply same_privileges_offers; [done| |]; simpl.
  - intros k x [[<- <-]|[_ [Hx _]%map_lookup_filter_Some]]%lookup_insert_Some Hp; [congruence|by exists x].
  - intros k x Hx Hp Ht. exists x. destruct (wf_invitations w Hwf k x Hx) as [Hk _]. rewrite lookup_insert_ne by lia.
    split; [|done]. apply map_lookup_filter_Some. split; [done|]. unfold expired.
    rewrite (proj2 (Z.leb_gt _ _) Ht). apply andb_false_r.
Qed.

Lemma existing_offer access i :
  IsOwner access = false -> authorizeExistingWorkspaceInvitationMutation access i = None -> privileged_offer i = false.
Proof.
  unfold authorizeExistingWorkspaceInvitationMutation, privileged_offer. intros ->. by destruct (_ || _).
Qed.

Lemma update_invitation_privileges requester ws id role billing now notified w :
  no_owner requester ws w ->
  same_privileges now w (updateWorkspaceInvitation requester ws id role billing now notified w).2.
Proof.
  intros Hno. unfold updateWorkspaceInvitation. destruct (requirePathWorkspaceAccess _ _ _ w) as [access|] eqn:Ea; [|apply same_privileges_refl].
  destruct (no_owner_access _ _ _ _ _ Hno Ea) as [Ho _]. destruct (id =? 0); [apply same_privileges_refl|].
  destruct (GetWorkspaceInvitationForWorkspace ws id now w) as [i|] eqn:Eg; [|apply same_privileges_refl].
  destruct (authorizeExistingWorkspaceInvitationMutation access i) eqn:Ee; [apply same_privileges_refl|].
  destruct (authorizeWorkspaceInvitationMutation _ _ _) eqn:Eau; [apply same_privileges_refl|].
  destruct (authorized_offer _ _ _ Ho Eau) as [Hr ->]. apply (existing_offer _ _ Ho) in Ee.
  destruct (_ && _); [apply same_privileges_refl|]. unfold UpdateWorkspaceInvitation. rewrite Eg.
  destruct (normalize_invitation _) as [c|] eqn:En; [|apply same_privileges_refl]. simpl. apply notify_privileges.
  apply invitation_normal in En as (_ & _ & _ & Hcr & Hcb). simpl in Hcr, Hcb. apply get_invitation in Eg as (Hi & _).
  apply (offers_replace now id i); [done|done|]. unfold privileged_offer. simpl. by rewrite Hcr, Hcb, !normal_idem, Hr.
Qed.

Lemma revoke_invitation_privileges requester ws id now w :
  no_owner requester ws w -> same_privileges now w (revokeWorkspaceInvitation requester ws id now w).2.
Proof.
  intros Hno. unfold revokeWorkspaceInvitation. destruct (requirePathWorkspaceAccess _ _ _ w) as [access|] eqn:Ea; [|apply same_privileges_refl].
  destruct (no_owner_access _ _ _ _ _ Hno Ea) as [Ho _]. destruct (id =? 0); [apply same_privileges_refl|].
  destruct (GetWorkspaceInvitationForWorkspace ws id now w) as [i|] eqn:Eg; [|apply same_privileges_refl].
  destruct (authorizeExistingWorkspaceInvitationMutation access i) eqn:Ee; [apply same_privileges_refl|].
  unfold RevokeWorkspaceInvitation. rewrite Eg. simpl. apply (existing_offer _ _ Ho) in Ee. apply get_invitation in Eg as (Hi & _).
  apply same_privileges_offers; [done| |]; simpl.
  - intros k x [_ Hx]%lookup_delete_Some _. by exists x.
  - intros k x Hx Hp _. exists x. rewrite lookup_delete_ne; [done|]. intros <-. congruence.
Qed.

(** *** Other workspaces

    What a request about one workspace leaves alone in the others. *)

Definition beside (t : Z) (w w' : World) : Prop :=
  (forall k, k.1 <> t -> held <$> members w' !! k = held <$> members w !! k) /\
  forall id, offered <$> invitations w' !! id = offered <$> invitations w !! id \/
    (forall i, invitations w !! id = Some i -> WorkspaceID i = t) /\ (forall i, invitations w' !! id = Some i -> WorkspaceID i = t).

Lemma beside_refl t w : beside t w w.
Proof. split; [done|]. by left. Qed.

Lemma beside_members t w w' :
  invitations w' = invitations w -> (forall k, k.1 <> t -> held <$> members w' !! k = held <$> members w !! k) -> beside t w w'.
Proof. intros Hi Hm. split; [done|]. intros id. left. by rewrite Hi. Qed.

Lemma notify_members ws id status w : members (notify ws id status w) = members w.
Proof.
  unfold notify, SetWorkspaceInvitationNotificationStatus. destruct (normalize_invitation _); [|done].
  destruct (invitations w !! id); [|done]. by destruct (_ =? ws).
Qed.

Lemma beside_notify t ws id status w w' : beside t w w' -> beside t w (notify ws id status w').
Proof.
  intros [Hm Hi]. split; [by rewrite notify_members|]. intros k. pose proof (notify_offers ws id status w' k) as Ho. rewrite Ho.
  destruct (Hi k) as [H|[H1 H2]]; [by left|right]. split; [done|]. intros i Hk. rewrite Hk in Ho. symmetry in Ho.
  apply fmap_Some in Ho as (i' & Hi' & [= -> _ _ _]). by apply H2.
Qed.

Lemma update_member_beside requester ws user role billing w : beside ws w (updateWorkspaceMember requester ws user role billing w).2.
Proof.
  unfold updateWorkspaceMember. destruct (requirePathWorkspaceAccess _ _ _ w); [|apply beside_refl]. destruct (user =? 0); [apply beside_refl|].
  destruct (ResolveWorkspaceAccess user ws w); [|apply beside_refl]. destruct (_ && _); [apply beside_refl|].
  unfold UpdateWorkspaceMember, UpdateWorkspaceMember_tx. destruct (normalize_membership _ _) as [[r b]|]; [|apply beside_refl].
  destruct (members w !! (ws, user)); [|apply beside_refl]. destruct (_ && _); [apply beside_refl|].
  apply beside_members; [done|]. intros k Hk. simpl. rewrite lookup_alter_ne; [done|]. by intros <-.
Qed.

Lemma remove_member_beside requester ws user w : beside ws w (removeWorkspaceMember requester ws user w).2.
Proof.
  unfold removeWorkspaceMember. destruct (requirePathWorkspaceAccess _ _ _ w); [|apply beside_refl]. destruct (user =? 0); [apply beside_refl|].
  destruct (ResolveWorkspaceAccess user ws w); [|apply beside_refl]. destruct (_ && _); [apply beside_refl|].
  unfold RemoveWorkspaceMember, RemoveWorkspaceMember_tx. destruct (workspaces w !! ws); [|apply beside_refl].
  destruct (members w !! (ws, user)); [|apply beside_refl]. destruct (Personal _ && _); [apply beside_refl|]. destruct (_ && _); [apply beside_refl|].
  apply beside_members; [unfold remove_row; by destruct (first_by older _) as [[? ?]|]|]. intros k Hk.
  pose proof (remove_row_rows ws user w k) as Hr. simpl in Hr |- *. unfold held. rewrite Hr, lookup_delete_ne; [done|]. by intros <-.
Qed.

Lemma create_invitation_beside requester ws email role billing ttl now notified w :
  ws_wf w -> beside ws w (createWorkspaceInvitation requester ws email role billing ttl now notified w).2.
Proof.
  intros Hwf. unfold createWorkspaceInvitation. destruct (requirePathWorkspaceAccess _ _ _ w) as [access|]; [|apply beside_refl].
  destruct (String.eqb _ ""); [apply beside_refl|]. destruct (authorizeWorkspaceInvitationMutation _ _ _); [apply beside_refl|].
  destruct (CreateWorkspaceInvitation _ _ _ _ _ _ _ w) as [[id|e] w'] eqn:Ec; [|apply beside_refl]. apply beside_notify. revert Ec.
  unfold CreateWorkspaceInvitation. destruct (_ || _ || _); [done|]. destruct (_ <=? _); [done|].
  destruct (user_by_email _ w) as [invitee|]; [|done]. destruct (users w !! _); [|done]. case_bool_decide; [done|].
  destruct (normalize_invitation _) as [c|] eqn:En; [|done]. destruct (pending_for _ _ _); [done|]. case_bool_decide; [done|].
  intros [= <- <-]. apply invitation_normal in En as (_ & Hc & _). simpl in Hc. split; [done|]. intros k. simpl.
  destruct (decide (k = next_invitation w)) as [->|Hne].
  - right. split; [intros i Hi; destruct (wf_invitations w Hwf _ i Hi); lia|]. intros i. rewrite lookup_insert_eq. by intros [= <-].
  - rewrite lookup_insert_ne by done. destruct (invitations w !! k) as [i|] eqn:Ei.
    2:{ left. f_equal. apply map_lookup_filter_None. by left. }
    destruct (decide (WorkspaceID i = ws)) as [Hw|Hw]; [right; split; [congruence|]; intros i' [Hi' _]%map_lookup_filter_Some; congruence|].
    left. f_equal. apply map_lookup_filter_Some. split; [done|]. by rewrite (proj2 (Z.eqb_neq _ _) Hw).
Qed.

Lemma update_invitation_beside requester ws id role billing now notified w :
  beside ws w (updateWorkspaceInvitation requester ws id role billing now notified w).2.
Proof.
  unfold updateWorkspaceInvitation. destruct (requirePathWorkspaceAccess _ _ _ w) as [access|]; [|apply beside_refl]. destruct (id =? 0); [apply beside_refl|].
  destruct (GetWorkspaceInvitationForWorkspace ws id now w) as [i|] eqn:Eg; [|apply beside_refl].
  destruct (authorizeExistingWorkspaceInvitationMutation _ _); [apply beside_refl|]. destruct (authorizeWorkspaceInvitationMutation _ _ _); [apply beside_refl|].
  destruct (_ && _); [apply beside_refl|]. unfold UpdateWorkspaceInvitation. rewrite Eg. destruct (normalize_invitation _) as [c|]; [|apply beside_refl].
  apply beside_notify. apply get_invitation in Eg as (Hi & Hw & _). split; [done|]. intros k. simpl.
  destruct (decide (k = id)) as [->|Hne]; [right|left; by rewrite lookup_insert_ne]. split; [congruence|]. intros i'. rewrite lookup_insert_eq. by intros [= <-].
Qed.

Lemma revoke_invitation_beside requester ws id now w : beside ws w (revokeWorkspaceInvitation requester ws id now w).2.
Proof.
  unfold revokeWorkspaceInvitation. destruct (requirePathWorkspaceAccess _ _ _ w) as [access|]; [|apply beside_refl]. destruct (id =? 0); [apply beside_refl|].
  destruct (GetWorkspaceInvitationForWorkspace ws id now w) as [i|] eqn:Eg; [|apply beside_refl].
  destruct (authorizeExistingWorkspaceInvitationMutation _ _); [apply beside_refl|]. unfold RevokeWorkspaceInvitation. rewrite Eg.
  apply get_invitation in Eg as (Hi & Hw & _). split; [done|]. intros k. simpl.
  destruct (decide (k = id)) as [->|Hne]; [right|left; by rewrite lookup_delete_ne]. split; [congruence|]. intros i'. by rewrite lookup_delete_eq.
Qed.

(** *** Every request *)

(** The requests that write to these tables. *)
Inductive request :=
| UpdateMember (ws user : Z) (role : string) (billing : bool)
| RemoveMember (ws user : Z)
| Invite (ws : Z) (email role : string) (billing : bool) (ttl : Z)
| ChangeInvitation (ws id : Z) (role : string) (billing : bool)
| RevokeInvitation (ws id : Z)
| NewWorkspace (name : string)
| Rename (ws : Z) (name : string)
| Select (ws : Z)
| Accept (id : Z)
| Decline (id : Z)
| DeleteMyAccount (password : option bool) (revoked : bool).

Definition serve (requester now : Z) (notified : string) (q : request) (w : World) : response :=
  match q with
  | UpdateMember ws user role billing => updateWorkspaceMember requester ws user role billing w
  | RemoveMember ws user => removeWorkspaceMember requester ws user w
  | Invite ws email role billing ttl => createWorkspaceInvitation requester ws email role billing ttl now notified w
  | ChangeInvitation ws id role billing => updateWorkspaceInvitation requester ws id role billing now notified w
  | RevokeInvitation ws id => revokeWorkspaceInvitation requester ws id now w
  | NewWorkspace name => createWorkspace requester name now w
  | Rename ws name => updateWorkspace requester ws name w
  | Select ws => selectWorkspace requester ws w
  | Accept id => acceptWorkspaceInvitation requester id now w
  | Decline id => declineWorkspaceInvitation requester id now w
  | DeleteMyAccount password revoked => deleteAccount requester password revoked w
  end.

(** The account took up the offer [i] of its own. *)
Definition took_up (requester now : Z) (q : request) (w : World) (i : WorkspaceInvitation) : Prop :=
  exists id, q = Accept id /\ invitations w !! id = Some i /\ InviteeUserID i = requester /\ now < ExpiresAt i /\
    members w !! (WorkspaceID i, requester) = None.

(** The account was deleted, by itself. *)
Definition left_for_good (requester : Z) (q : request) (w' : World) : Prop :=
  (exists password revoked, q = DeleteMyAccount password revoked) /\ users w' !! requester = None.

(** What an account that does not own [ws] may change of who controls it. *)
Record control_kept (requester now ws : Z) (q : request) (w w' : World) : Prop := MkKept {
  no_gain : forall u m', members w' !! (ws, u) = Some m' -> privileged m' = true ->
    (exists m, members w !! (ws, u) = Some m /\ held m = held m') \/
    (u = requester /\ exists i, took_up requester now q w i /\ WorkspaceID i = ws /\ held m' = (inv_role i, inv_billing i));
  no_loss : forall u m, members w !! (ws, u) = Some m -> privileged m = true ->
    (exists m', members w' !! (ws, u) = Some m' /\ held m = held m') \/ (u = requester /\ left_for_good requester q w');
  no_new_offer : forall id i', invitations w' !! id = Some i' -> WorkspaceID i' = ws -> privileged_offer i' = true ->
    exists i, invitations w !! id = Some i /\ offered i = offered i';
  no_lost_offer : forall id i, invitations w !! id = Some i -> WorkspaceID i = ws -> privileged_offer i = true -> now < ExpiresAt i ->
    (exists i', invitations w' !! id = Some i' /\ offered i = offered i') \/
    (InviteeUserID i = requester /\ (q = Accept id \/ q = Decline id \/ left_for_good requester q w'))
}.

Lemma same_kept requester now ws q w w' : same_privileges now w w' -> control_kept requester now ws q w w'.
Proof.
  intros (H1 & H2 & H3 & H4). constructor.
  - intros u m' Hm Hp. left. by apply H1.
  - intros u m Hm Hp. left. by apply H2.
  - intros id i' Hi _ Hp. by apply H3.
  - intros id i Hi _ Hp Ht. left. by apply H4.
Qed.

Lemma beside_kept t requester now ws q w w' : t <> ws -> beside t w w' -> control_kept requester now ws q w w'.
Proof.
  intros Hne [Hm Hi]. constructor.
  - intros u m' Hm' _. left. specialize (Hm (ws, u) ltac:(simpl; congruence)). rewrite Hm' in Hm. symmetry in Hm.
    apply fmap_Some in Hm as (m & Hl & Heq). by exists m.
  - intros u m Hl _. left. specialize (Hm (ws, u) ltac:(simpl; congruence)). rewrite Hl in Hm. apply fmap_Some in Hm as (m' & Hl' & Heq). by exists m'.
  - intros id i' Hi' Hw _. destruct (Hi id) as [Ho|[_ Ho]]; [|by rewrite (Ho i' Hi') in Hw]. rewrite Hi' in Ho. symmetry in Ho.
    apply fmap_Some in Ho as (i & Hl & Heq). by exists i.
  - intros id i Hl Hw _ _. left. destruct (Hi id) as [Ho|[Ho _]]; [|by rewrite (Ho i Hl) in Hw]. rewrite Hl in Ho.
    apply fmap_Some in Ho as (i' & Hl' & Heq). by exists i'.
Qed.

(** A request about one workspace, by an account that does not own [ws]. *)
Lemma managed_kept t requester now ws q w w' :
  no_owner requester ws w -> (no_owner requester t w -> same_privileges now w w') -> beside t w w' -> control_kept requester now ws q w w'.
Proof.
  intros Hno Hsame Hb. destruct (decide (t = ws)) as [->|Hne]; [by apply same_kept, Hsame|by apply (beside_kept t)].
Qed.

Lemma accept_kept requester now ws id w :
  ws_wf w -> control_kept requester now ws (Accept id) w (acceptWorkspaceInvitation requester id now w).2.
Proof.
  intros Hwf. unfold acceptWorkspaceInvitation. destruct (requester =? 0); [apply same_kept, same_privileges_refl|].
  destruct (id =? 0); [apply same_kept, same_privileges_refl|]. unfold AcceptWorkspaceInvitation.
  destruct (offer_to id requester now w) as [i|] eqn:Eo; [|apply same_kept, same_privileges_refl]. apply offer_found in Eo as (Hi & Hu & Ht).
  destruct (wf_invitations w Hwf id i Hi) as (_ & _ & _ & Hok).
  assert (normalize_membership (inv_role i) (inv_billing i) = Ok (inv_role i, inv_billing i)) as ->.
  { unfold offer_ok in Hok. apply list_elem_of_In in Hok as [E|[E|[E|[]]]]; rewrite <- E; destruct (inv_billing i); reflexivity. }
  unfold join_workspace. destruct (members w !! (WorkspaceID i, requester)) eqn:Em; [apply same_kept, same_privileges_refl|]. constructor; simpl.
  - intros u m' [[[= Hw <-] <-]|[_ Hm]]%lookup_insert_Some Hp; [right|left; by exists m']. split; [done|]. exists i. split; [|done]. by exists id.
  - intros u m Hm _. left. exists m. rewrite lookup_insert_ne; [done|]. intros Heq. congruence.
  - intros k i' [_ Hi']%lookup_delete_Some _ _. by exists i'.
  - intros k x Hx _ _ _. destruct (decide (k = id)) as [->|Hne]; [right; split; [congruence|by left]|left; exists x; by rewrite lookup_delete_ne].
Qed.

Lemma decline_kept requester now ws id w : control_kept requester now ws (Decline id) w (declineWorkspaceInvitation requester id now w).2.
Proof.
  unfold declineWorkspaceInvitation. destruct (requester =? 0); [apply same_kept, same_privileges_refl|].
  destruct (id =? 0); [apply same_kept, same_privileges_refl|]. unfold DeclineWorkspaceInvitation.
  destruct (offer_to id requester now w) as [i|] eqn:Eo; [|apply same_kept, same_privileges_refl]. apply offer_found in Eo as (Hi & Hu & Ht). constructor; simpl.
  - intros u m' Hm _. left. by exists m'.
  - intros u m Hm _. left. by exists m.
  - intros k i' [_ Hi']%lookup_delete_Some _ _. by exists i'.
  - intros k x Hx _ _ _. destruct (decide (k = id)) as [->|Hne]; [right; split; [congruence|by right; left]|left; exists x; by rewrite lookup_delete_ne].
Qed.

Lemma deletion_kept requester now ws password revoked w :
  no_owner requester ws w -> control_kept requester now ws (DeleteMyAccount password revoked) w (deleteAccount requester password revoked w).2.
Proof.
  intros Hno. unfold deleteAccount. destruct (requester =? 0); [apply same_kept, same_privileges_refl|]. case_bool_decide; [apply same_kept, same_privileges_refl|].
  destruct password as [[]|]; [|apply same_kept, same_privileges_refl..]. destruct (validateUserAccountDeletion requester w) eqn:Ev; [apply same_kept, same_privileges_refl|].
  destruct revoked; [|apply same_kept, same_privileges_refl]. unfold DeleteUserAccount. rewrite Ev. set (gone := deletablePersonalWorkspaceIDs requester w).
  assert (ws ∉ gone) as Hgone.
  { intros Hin. unfold gone, deletablePersonalWorkspaceIDs in Hin. apply list_elem_of_In, in_map_iff in Hin as ([k m] & Hk & Hin). simpl in Hk. subst k.
    apply List.filter_In in Hin as [Hin Hf]. apply list_elem_of_In, elem_of_memberships in Hin. apply andb_true_iff in Hf as [Hf _]. apply andb_true_iff in Hf as [Hf _].
    apply (Hno m Hin). by apply String.eqb_eq. }
  assert (left_for_good requester (DeleteMyAccount (Some true) true) (DeleteUserAccount requester w).2) as Hleft.
  { split; [by do 2 eexists|]. unfold DeleteUserAccount. rewrite Ev. simpl. apply lookup_delete_eq. }
  unfold DeleteUserAccount in Hleft. rewrite Ev in Hleft. constructor; simpl.
  - intros u m' [Hm _]%map_lookup_filter_Some _. left. by exists m'.
  - intros u m Hm _. destruct (decide (u = requester)) as [->|Hu]; [right; done|left]. exists m. split; [|done]. by apply map_lookup_filter_Some.
  - intros id i' Hi' _ _. apply lookup_fmap_Some in Hi' as (i & <- & [Hi _]%map_lookup_filter_Some). by exists i.
  - intros id i Hi Hw _ _. destruct (decide (InviteeUserID i = requester)) as [Hu|Hu]; [right; split; [done|]; by right; right|left].
    eexists. rewrite lookup_fmap. rewrite (proj2 (map_lookup_filter_Some _ _ _ i)); [split; reflexivity|]. split; [done|]. split; [done|]. by rewrite Hw.
Qed.

(** C9. Only owners grant or take away control.  Whatever one request asks for,
    management requests, workspaces of its own, answers to invitations and the
    deletion of its account included, an account that does not own a workspace,
    a member or not, does not make any owner, administrator or billing
    administrator of it appear, disappear or change, nor any unexpired
    invitation that would make someone one; except that it may itself take up,
    exactly as offered, or decline an invitation addressed to it, and delete its
    own account.  Requests are served one after the other. *)
Theorem only_owners_grant_control requester now notified q ws w :
  ws_wf w -> is_Some (workspaces w !! ws) -> (forall m, members w !! (ws, requester) = Some m -> Role m <> WorkspaceRoleOwner) ->
  control_kept requester now ws q w (serve requester now notified q w).2.
Proof.
  intros Hwf [x Hx] Hno. destruct q as [t user role billing|t user|t email role billing ttl|t id role billing|t id|name|t name|t|id|id|password revoked]; simpl.
  - apply (managed_kept t); [done|apply update_member_privileges|apply update_member_beside].
  - apply (managed_kept t); [done|apply remove_member_privileges|apply remove_member_beside].
  - apply (managed_kept t); [done|intros Ht; by apply create_invitation_privileges|by apply create_invitation_beside].
  - apply (managed_kept t); [done|apply update_invitation_privileges|apply update_invitation_beside].
  - apply (managed_kept t); [done|apply revoke_invitation_privileges|apply revoke_invitation_beside].
  - apply (beside_kept (next_workspace w)); [apply (wf_workspaces w Hwf) in Hx; lia|]. unfold createWorkspace, CreateWorkspace.
    destruct (requester =? 0); [apply beside_refl|]. destruct (check_name _); [apply beside_refl|]. destruct (users w !! requester); [|apply beside_refl].
    apply beside_members; [done|]. intros k Hk. simpl. rewrite lookup_insert_ne; [done|]. by intros <-.
  - apply same_kept. unfold updateWorkspace, RenameWorkspace. destruct (requirePathWorkspaceAccess _ _ _ w); [|apply same_privileges_refl].
    destruct (check_name _); [apply same_privileges_refl|]. destruct (workspaces w !! t); [|apply same_privileges_refl].
    apply (same_privileges_refl now w).
  - apply (beside_kept (ws + 1)); [lia|]. unfold selectWorkspace, SetDefaultWorkspace. destruct (requirePathWorkspaceAccess _ _ _ w) as [a|]; [|apply beside_refl].
    destruct (members w !! (t, acc_user a)); [|apply beside_refl]. apply beside_members; [done|]. intros k _. cbn [fst snd members with_members].
    pose proof (set_default_rows true (t, acc_user a)) as Hr. unfold held. rewrite Hr, map_lookup_imap. destruct (members w !! k); [|done]. simpl. by destruct (_ =? _).
  - by apply accept_kept.
  - apply decline_kept.
  - by apply deletion_kept.
Qed.

(** An invitation is worth exactly what it offers, once, to one account.
    Accepting succeeds only for the invitee, before the expiry, of an account
    that is no member yet; it then adds the membership offered and nothing
    else, uses the invitation up, and makes a personal workspace a shared one. *)
Theorem accept_grants_the_offer id user now w ws w' :
  ws_wf w -> AcceptWorkspaceInvitation id user now w = (Ok ws, w') ->
  exists i, invitations w !! id = Some i /\ InviteeUserID i = user /\ WorkspaceID i = ws /\ now < ExpiresAt i /\
    members w !! (ws, user) = None /\
    members w' = <[(ws, user) := MkMembership (inv_role i) (inv_billing i) false now]> (members w) /\
    invitations w' = delete id (invitations w) /\
    (exists x, workspaces w' !! ws = Some x /\ Personal x = false) /\
    forall e, AcceptWorkspaceInvitation id user e w' = (Err ErrWorkspaceInvitationNotFound, w').
Proof.
  intros Hwf. unfold AcceptWorkspaceInvitation at 1. destruct (offer_to id user now w) as [i|] eqn:Eo; [|done].
  apply offer_found in Eo as (Hi & Hu & Ht). destruct (wf_invitations w Hwf id i Hi) as (_ & [x Hx] & _ & Hok).
  assert (normalize_membership (inv_role i) (inv_billing i) = Ok (inv_role i, inv_billing i)) as ->.
  { unfold offer_ok in Hok. apply list_elem_of_In in Hok as [E|[E|[E|[]]]]; rewrite <- E;
      destruct (inv_billing i); reflexivity. }
  unfold join_workspace. destruct (members w !! (WorkspaceID i, user)) eqn:Em; [done|]. intros [= <- <-]. exists i.
  do 5 (split; [done|]). split; [done|]. split; [done|]. split.
  - eexists. simpl. rewrite lookup_alter_eq, Hx. split; reflexivity.
  - intros e. unfold AcceptWorkspaceInvitation, offer_to. simpl. by rewrite lookup_delete_eq.
Qed.

(** ** The default workspace *)

Lemma first_by_elem le l y : first_by le l = Some y -> y ∈ l.
Proof.
  revert y. induction l as [|x l IH]; intros y; cbn; [done|]. destruct (first_by le l) as [z|].
  - destruct (le x z); intros [= <-]; [apply list_elem_of_here|by apply list_elem_of_further, IH].
  - intros [= <-]. apply list_elem_of_here.
Qed.

Lemma first_by_least le l x :
  x ∈ l -> (forall y, y ∈ l -> le x y = true) -> (forall y, y ∈ l -> le y x = true -> y = x) -> first_by le l = Some x.
Proof.
  induction l as [|z l IH]; intros Hx Hle Hanti; [by apply elem_of_nil in Hx|]. cbn.
  apply elem_of_cons in Hx as [<-|Hx].
  - destruct (first_by le l) as [y|] eqn:E; [|done]. by rewrite Hle by (apply list_elem_of_further; by eapply first_by_elem).
  - rewrite IH; [|done|intros y Hy; by apply Hle, list_elem_of_further|intros y Hy; by apply Hanti, list_elem_of_further].
    destruct (le z x) eqn:E; [|done]. by rewrite (Hanti z (list_elem_of_here _ _) E).
Qed.

(** Before every other membership: being the only default one, or the oldest
    of the default ones. *)
Lemma resolve_default user ws m w :
  user <> 0 -> members w !! (ws, user) = Some m -> IsDefault m = true ->
  (forall k n, members w !! (k, user) = Some n -> IsDefault n = true -> older (ws, m) (k, n) = true) ->
  ResolveWorkspaceAccess user 0 w = Ok (access_of user ws m).
Proof.
  intros Hu Hm Hd Hold. unfold ResolveWorkspaceAccess. rewrite (proj2 (Z.eqb_neq _ _) Hu). simpl.
  rewrite (first_by_least _ _ (ws, m)); [done|by apply elem_of_memberships| |].
  - intros [k n] Hn%elem_of_memberships. unfold membership_before. simpl. rewrite Hd.
    destruct (IsDefault n) eqn:En; [by apply Hold|done].
  - intros [k n] Hn%elem_of_memberships. unfold membership_before. simpl. rewrite Hd. destruct (IsDefault n) eqn:En; [|done].
    simpl. intros Hle. specialize (Hold k n Hn En). unfold older in Hold. simpl in Hold.
    assert (k = ws) as -> by lia. by assert (n = m) as -> by congruence.
Qed.

(** The workspace an account selects is the one it works in: after
    [SetDefaultWorkspace] a request that names no workspace resolves to it, it
    is the account's only default, and roles and billing are as they were. *)
Theorem set_default_resolves user ws w w' :
  user <> 0 -> SetDefaultWorkspace user ws w = (None, w') ->
  (exists access, ResolveWorkspaceAccess user 0 w' = Ok access /\ acc_workspace access = ws) /\
  (forall k m, members w' !! (k, user) = Some m -> IsDefault m = true -> k = ws) /\
  forall k, held <$> members w' !! k = held <$> members w !! k.
Proof.
  intros Hu. unfold SetDefaultWorkspace. destruct (members w !! (ws, user)) as [m|] eqn:Em; [|done]. intros [= <-].
  set (cleared := map_imap _ (members w)).
  assert (cleared !! (ws, user) = Some (set_default false m)) as Hc
    by (subst cleared; rewrite map_lookup_imap, Em; simpl; by rewrite Z.eqb_refl).
  assert (forall k n, alter (set_default true) (ws, user) cleared !! (k, user) = Some n -> IsDefault n = true -> k = ws) as Honly.
  { intros k n Hn Hd. destruct (decide (k = ws)) as [|Hne]; [done|]. rewrite lookup_alter_ne in Hn by congruence.
    subst cleared. rewrite map_lookup_imap in Hn. destruct (members w !! (k, user)); [|done]. simpl in Hn.
    rewrite Z.eqb_refl in Hn. by injection Hn as <-. }
  split; [|split].
  - eexists. split; [eapply (resolve_default user ws (set_default true (set_default false m))); [done| |done|]|done]; simpl.
    + by rewrite lookup_alter_eq, Hc.
    + intros k n Hn Hd. assert (k = ws) as -> by by eapply Honly. rewrite lookup_alter_eq, Hc in Hn. injection Hn as <-.
      unfold older. simpl. by rewrite !Z.eqb_refl, Z.leb_refl, orb_true_r.
  - exact Honly.
  - intros k. simpl. pose proof (set_default_rows true (ws, user) cleared k) as Hr. unfold held. rewrite Hr.
    subst cleared. rewrite map_lookup_imap. destruct (members w !! k); [|done]. simpl. by destruct (k.2 =? user).
Qed.

(** Being removed from a workspace can move an account to another one.  The
    removal makes the account's oldest remaining membership a default without
    looking for one: when the account had chosen a newer workspace, both are
    marked, and requests that name no workspace now go to the older one. *)
Theorem removal_overrides_default user a b c ma mb w w' :
  user <> 0 -> a <> c -> b <> c ->
  members w !! (a, user) = Some ma -> members w !! (b, user) = Some mb -> IsDefault mb = true ->
  (forall k m, k <> c -> members w !! (k, user) = Some m -> older (a, ma) (k, m) = true) ->
  RemoveWorkspaceMember c user w = (None, w') ->
  (exists m, members w' !! (a, user) = Some m /\ IsDefault m = true) /\
  (exists m, members w' !! (b, user) = Some m /\ IsDefault m = true) /\
  exists access, ResolveWorkspaceAccess user 0 w' = Ok access /\ acc_workspace access = a.
Proof.
  intros Hu Hac Hbc Ha Hb Hd Hold Hrm.
  assert (w' = remove_row c user w) as ->.
  { revert Hrm. unfold RemoveWorkspaceMember, RemoveWorkspaceMember_tx. destruct (workspaces w !! c); [|done].
    destruct (members w !! (c, user)); [|done]. destruct (Personal _ && _); [done|]. destruct (_ && _); [done|]. by intros [= <-]. }
  unfold remove_row. set (w1 := with_members (delete (c, user) (members w)) w).
  assert (forall k m, members w1 !! (k, user) = Some m -> k <> c /\ members w !! (k, user) = Some m) as Hw1.
  { intros k m Hm. change (delete (c, user) (members w) !! (k, user) = Some m) in Hm.
    apply lookup_delete_Some in Hm as [Hne Hm]. split; [congruence|done]. }
  assert (members w1 !! (a, user) = Some ma) as Ha1 by (simpl; rewrite lookup_delete_ne by congruence; done).
  assert (members w1 !! (b, user) = Some mb) as Hb1 by (simpl; rewrite lookup_delete_ne by congruence; done).
  rewrite (first_by_least older _ (a, ma)).
  - assert (members (with_members (alter (set_default true) (a, user) (members w1)) w1) !! (a, user) = Some (set_default true ma)) as Hra
      by (cbn [members with_members]; rewrite lookup_alter_eq, Ha1; done).
    split; [by eexists|]. split.
    + cbn [members with_members]. destruct (decide (b = a)) as [->|Hne].
      * rewrite lookup_alter_eq, Ha1. by eexists.
      * rewrite lookup_alter_ne by congruence. by exists mb.
    + eexists. split; [eapply (resolve_default user a (set_default true ma)); [done|exact Hra|done|]|done].
      intros k n Hn _. cbn [members with_members] in Hn. destruct (decide (k = a)) as [->|Hne].
      * rewrite lookup_alter_eq, Ha1 in Hn. injection Hn as <-. unfold older. simpl. by rewrite Z.eqb_refl, Z.leb_refl, orb_true_r.
      * rewrite lookup_alter_ne in Hn by congruence. apply Hw1 in Hn as [Hk Hn]. by apply (Hold k n).
  - by apply elem_of_memberships.
  - intros [k n] Hn%elem_of_memberships. apply Hw1 in Hn as [Hk Hn]. by apply Hold.
  - intros [k n] Hn%elem_of_memberships Hle. apply Hw1 in Hn as [Hk Hn]. specialize (Hold k n Hk Hn). unfold older in *. simpl in *.
    assert (k = a) as -> by lia. by assert (n = ma) as -> by congruence.
Qed.

(** ** Concrete tables *)

Lemma team_wf : ws_wf team.
Proof. apply exec_all_ws_wf, new_world_wf. Qed.

(** Ann's team with Bob as a second owner. *)
Definition two_owners : World := exec (OpUpdateMember 3 2 "owner" false) team.

Lemma elem_of_pair (a b u : Z) : u ∈ [a; b] <-> u = a \/ u = b.
Proof. set_solver. Qed.

Lemma two_owners_are : owners 3 two_owners = [1; 2].
Proof. vm_compute. reflexivity. Qed.

Lemma elem_of_two_owners u : u ∈ owners 3 two_owners <-> u = 1 \/ u = 2.
Proof. rewrite two_owners_are. apply elem_of_pair. Qed.

Lemma two_owners_wf : ws_wf two_owners.
Proof. apply wf_exec, team_wf. Qed.

Lemma concurrent_demotions_leave_no_owner_witness :
  owners 3 two_owners = [1; 2] /\
  owners 3 (UpdateWorkspaceMember_tx 3 2 "viewer" false two_owners
    (UpdateWorkspaceMember_tx 3 1 "viewer" false two_owners two_owners).2).2 = [].
Proof.
  split; [exact two_owners_are|].
  refine (proj2 (proj2 (concurrent_demotions_leave_no_owner 3 1 2 "viewer" false two_owners _ two_owners_wf elem_of_two_owners _))).
  - discriminate.
  - apply list_elem_of_further, list_elem_of_further, list_elem_of_here.
Defined.

(** Bob, an administrator, tries to make himself an owner and to demote Ann. *)
Lemma only_owners_grant_control_witness :
  (serve 2 10 "queued" (UpdateMember 3 2 "owner" true) team).1 = 403 /\
  (serve 2 10 "queued" (RemoveMember 3 1) team).1 = 403 /\
  (serve 2 10 "queued" (DeleteMyAccount (Some true) true) team).1 = 200 /\
  control_kept 2 10 3 (UpdateMember 3 2 "owner" true) team (serve 2 10 "queued" (UpdateMember 3 2 "owner" true) team).2 /\
  control_kept 2 10 3 (DeleteMyAccount (Some true) true) team (serve 2 10 "queued" (DeleteMyAccount (Some true) true) team).2.
Proof.
  assert (is_Some (workspaces team !! 3)) as Hws by (vm_compute; by eexists).
  assert (forall m, members team !! (3, 2) = Some m -> Role m <> WorkspaceRoleOwner) as Hno.
  { intros m Hm. assert (option_map Role (members team !! (3, 2)) = Some "admin") as H by (vm_compute; reflexivity).
    rewrite Hm in H. injection H as ->. discriminate. }
  split; [vm_compute; reflexivity|]. split; [vm_compute; reflexivity|]. split; [vm_compute; reflexivity|].
  split; apply (only_owners_grant_control 2 10 "queued" _ 3 team team_wf Hws Hno).
Defined.

(** Ann's team while Bob's invitation is pending. *)
Definition invited : World := exec_all
  [OpRegister "Ann@Example.org" 1; OpRegister "bob@example.org" 2; OpCreateWorkspace 1 "  The   team " 3;
   OpInvite 3 1 "BOB@example.org" " Admin" false 100 4] new_world.

Lemma accept_grants_the_offer_witness :
  (AcceptWorkspaceInvitation 1 2 5 invited).1 = Ok 3 /\
  exists i, invitations invited !! 1 = Some i /\
    members (AcceptWorkspaceInvitation 1 2 5 invited).2 =
      <[(3, 2) := MkMembership (inv_role i) (inv_billing i) false 5]> (members invited).
Proof.
  assert ((AcceptWorkspaceInvitation 1 2 5 invited).1 = Ok 3) as H1 by (vm_compute; reflexivity). split; [exact H1|].
  destruct (AcceptWorkspaceInvitation 1 2 5 invited) as [r w'] eqn:E. cbn [fst] in H1. subst r.
  destruct (accept_grants_the_offer 1 2 5 invited 3 w') as (i & Hi & _ & _ & _ & _ & Hm & _).
  - apply exec_all_ws_wf, new_world_wf.
  - exact E.
  - exists i. split; [exact Hi|exact Hm].
Defined.

Lemma set_default_resolves_witness :
  (SetDefaultWorkspace 2 3 team).1 = None /\
  exists access, ResolveWorkspaceAccess 2 0 (SetDefaultWorkspace 2 3 team).2 = Ok access /\ acc_workspace access = 3.
Proof.
  assert ((SetDefaultWorkspace 2 3 team).1 = None) as H1 by (vm_compute; reflexivity). split; [exact H1|].
  destruct (SetDefaultWorkspace 2 3 team) as [r w'] eqn:E. cbn [fst] in H1. subst r.
  apply (set_default_resolves 2 3 team w'); [discriminate|exact E].
Defined.

(** Bob works in the team of Ann; Cid's club removes him. *)
Definition three_workspaces : World := exec_all
  [OpRegister "cid@example.org" 6; OpCreateWorkspace 3 "club" 7; OpInvite 5 3 "bob@example.org" "viewer" false 100 8;
   OpAccept 2 2 9; OpSetDefault 2 3] team.

(** The oldest membership, checked on the dates of all. *)
Lemma oldest_of user c a ma w l :
  map (fun '(k, m) => (k, CreatedAt m)) (memberships_of user w) = l ->
  forallb (fun '(k, t) => (k =? c) || (CreatedAt ma <? t) || ((CreatedAt ma =? t) && (a <=? k))) l = true ->
  forall k m, k <> c -> members w !! (k, user) = Some m -> older (a, ma) (k, m) = true.
Proof.
  intros <- Hl k m Hk Hm. apply elem_of_memberships, list_elem_of_In in Hm. rewrite forallb_forall in Hl.
  specialize (Hl _ (in_map _ _ _ Hm)). cbn in Hl. unfold older. cbn. by rewrite (proj2 (Z.eqb_neq _ _) Hk) in Hl.
Qed.

Lemma removal_overrides_default_witness :
  option_map IsDefault (members three_workspaces !! (2, 2)) = Some false /\
  option_map IsDefault (members three_workspaces !! (3, 2)) = Some true /\
  (RemoveWorkspaceMember 5 2 three_workspaces).1 = None /\
  exists access, ResolveWorkspaceAccess 2 0 (RemoveWorkspaceMember 5 2 three_workspaces).2 = Ok access /\ acc_workspace access = 2.
Proof.
  assert ((RemoveWorkspaceMember 5 2 three_workspaces).1 = None) as H1 by (vm_compute; reflexivity).
  split; [vm_compute; reflexivity|]. split; [vm_compute; reflexivity|]. split; [exact H1|].
  destruct (RemoveWorkspaceMember 5 2 three_workspaces) as [r w'] eqn:E. cbn [fst] in H1. subst r.
  apply (removal_overrides_default 2 2 3 5 (MkMembership "owner" true false 2) (MkMembership "admin" false true 5)
    three_workspaces w');
    [discriminate|discriminate|discriminate|vm_compute; reflexivity|vm_compute; reflexivity|reflexivity| |exact E].
  apply (oldest_of 2 5 2 _ three_workspaces [(3, 5); (5, 9); (2, 2)]); vm_compute; reflexivity.
Defined.
End Workspaces.
