(* ===== verification/Usage.v ===== *)
(** * Monthly usage of workspaces

    [internal/database/database_workspace_usage.go] and
    [internal/jobs/runtime/workspace_usage.go]: the rows of
    [workspace_usage_periods], one per workspace and calendar month, what adds
    to them, and the in-memory counters of the traffic rotators relay, which a
    flush moves into the table.  Instants are nanoseconds since the epoch; the
    calendar is the one of [time.Date] for UTC. *)

From S2P Require Import Prelude.
From stdpp Require Import sorting.
Open Scope Z_scope.

Module Usage.

(** ** The calendar *)

(** Days are counted from the first day of year 1. *)
Definition epochDay : Z := 719162.

Definition leap (y : Z) : bool := (y mod 4 =? 0) && (negb (y mod 100 =? 0) || (y mod 400 =? 0)).

Definition days_before_year (y : Z) : Z := 365 * (y - 1) + (y - 1) / 4 - (y - 1) / 100 + (y - 1) / 400.

(** Days of the year before each month, the thirteenth being the next year's first. *)
Definition days_before_month (l : bool) (m : Z) : Z :=
  let d := if l then 1 else 0 in
  match m with
  | 1 => 0 | 2 => 31 | 3 => 59 + d | 4 => 90 + d | 5 => 120 + d | 6 => 151 + d | 7 => 181 + d
  | 8 => 212 + d | 9 => 243 + d | 10 => 273 + d | 11 => 304 + d | 12 => 334 + d | _ => 365 + d
  end.

(** The year of a day, by cycles of 400, 100, 4 years and one year; the last
    day of a cycle of 400 or of 4 years must not start another one. *)
Definition year_of (d : Z) : Z :=
  let y400 := d / 146097 in
  let d := d mod 146097 in
  let y100 := Z.min (d / 36524) 3 in
  let d := d - 36524 * y100 in
  let y4 := d / 1461 in
  let d := d - 1461 * y4 in
  let y1 := Z.min (d / 365) 3 in
  400 * y400 + 100 * y100 + 4 * y4 + y1 + 1.

Definition month_in_year (l : bool) (yday : Z) : Z :=
  1 + Z.of_nat (length (List.filter (fun m => days_before_month l m <=? yday) (seqZ 2 11))).

Definition month_of (d : Z) : Z :=
  let y := year_of d in month_in_year (leap y) (d - days_before_year y).

(** [time.Date(y, m, 1, 0, 0, 0, 0, time.UTC)], where month 13 is the next January. *)
Definition month_start (y m : Z) : Z := (days_before_year y + days_before_month (leap y) m - epochDay) * Day.

(** [workspaceUsageMonth]: the month of an instant and the next one. *)
Definition workspaceUsageMonth (t : Z) : Z * Z :=
  let d := t / Day + epochDay in
  let y := year_of d in
  let m := month_of d in
  (month_start y m, month_start y (m + 1)).

Example march_2024 : workspaceUsageMonth (1709251200 * Second - 1) = (1706745600 * Second, 1709251200 * Second).
Proof. vm_compute. reflexivity. Qed.

Example december_1999 : workspaceUsageMonth (946684800 * Second - 1) = (944006400 * Second, 946684800 * Second).
Proof. vm_compute. reflexivity. Qed.

Example before_the_epoch : (workspaceUsageMonth (-1)).2 = 0.
Proof. vm_compute. reflexivity. Qed.

(** ** The table *)

Record WorkspaceUsagePeriod := MkPeriod {
  PeriodEnd : Z; ActiveRoutes : Z; PeakActiveRoutes : Z; CheckAttempts : Z; ManagedRequests : Z; ManagedBytes : Z
}.

(** By workspace and start of the period. *)
Abbreviation UsageTable := (gmap (Z * Z) WorkspaceUsagePeriod).

(** The subselect of [workspaceUsageDeltaRows]: the capacity of the last earlier period. *)
Definition earlier_periods (t : UsageTable) (ws start : Z) : list (Z * Z) :=
  omap (fun '((w, s), u) => if (w =? ws) && (s <? start) then Some (s, ActiveRoutes u) else None) (map_to_list t).

Definition last_capacity (t : UsageTable) (ws start : Z) : Z :=
  match fold_left (fun (best : option (Z * Z)) c =>
    match best with None => Some c | Some b => if b.1 <? c.1 then Some c else Some b end) (earlier_periods t ws start) None with
  | Some (_, active) => active
  | None => 0
  end.

(** One row of the upsert: a new period carries the capacity over, an existing
    one gets the deltas; [before] is the table the statement started on. *)
Definition apply_delta (before t : UsageTable) (row : (Z * Z) * WorkspaceUsagePeriod) : UsageTable :=
  let '(k, d) := row in
  match t !! k with
  | Some u =>
      <[k := MkPeriod (PeriodEnd d) (ActiveRoutes u) (PeakActiveRoutes u) (CheckAttempts u + CheckAttempts d)
               (ManagedRequests u + ManagedRequests d) (ManagedBytes u + ManagedBytes d)]> t
  | None =>
      let capacity := last_capacity before k.1 k.2 in
      <[k := MkPeriod (PeriodEnd d) capacity capacity (CheckAttempts d) (ManagedRequests d) (ManagedBytes d)]> t
  end.

Definition key_le (a b : (Z * Z) * WorkspaceUsagePeriod) : Prop :=
  (if a.1.1 =? b.1.1 then a.1.2 <=? b.1.2 else a.1.1 <? b.1.1) = true.

#[export] Instance key_le_dec : RelDecision key_le.
Proof. intros a b. unfold key_le. apply _. Defined.

(** [workspaceUsageDeltaRows] and the upsert, a thousand rows per statement. *)
Definition apply_deltas (usageByPeriod : gmap (Z * Z) WorkspaceUsagePeriod) (t : UsageTable) : UsageTable :=
  fold_left (fun t rows => fold_left (apply_delta t) rows t)
    (batches 1000 (merge_sort key_le (map_to_list usageByPeriod))) t.

(** What a batch adds to a period. *)
Definition add_delta (checks requests bytes : Z) (m : gmap (Z * Z) WorkspaceUsagePeriod) (ws at_ : Z)
    : gmap (Z * Z) WorkspaceUsagePeriod :=
  let '(start, stop) := workspaceUsageMonth at_ in
  let u := default (MkPeriod stop 0 0 0 0 0) (m !! (ws, start)) in
  <[(ws, start) := MkPeriod (PeriodEnd u) 0 0 (wrap_u64 (CheckAttempts u + checks))
                     (wrap_u64 (ManagedRequests u + requests)) (wrap_u64 (ManagedBytes u + bytes))]> m.

(** [UpdateWorkspaceUsageActiveRoutes] *)
Definition UpdateWorkspaceUsageActiveRoutes (now ws active : Z) (t : UsageTable) : UsageTable :=
  if ws =? 0 then t
  else
    let '(start, stop) := workspaceUsageMonth now in
    <[(ws, start) :=
        match t !! (ws, start) with
        | Some u => MkPeriod stop active (if active <? PeakActiveRoutes u then PeakActiveRoutes u else active)
                      (CheckAttempts u) (ManagedRequests u) (ManagedBytes u)
        | None => MkPeriod stop active active 0 0 0
        end]> t.

(** ** Traffic of the rotators *)

Record WorkspaceManagedTrafficSample := MkSample { s_workspace : Z; s_requests : Z; s_bytes : Z; s_recorded : Z }.

Definition sample_delta (m : gmap (Z * Z) WorkspaceUsagePeriod) (s : WorkspaceManagedTrafficSample)
    : gmap (Z * Z) WorkspaceUsagePeriod :=
  if (s_workspace s =? 0) || ((s_requests s =? 0) && (s_bytes s =? 0)) then m
  else add_delta 0 (s_requests s) (s_bytes s) m (s_workspace s) (s_recorded s).

(** [recordWorkspaceManagedTrafficBatch] *)
Definition recordWorkspaceManagedTrafficBatch (samples : list WorkspaceManagedTrafficSample) (t : UsageTable) : UsageTable :=
  apply_deltas (fold_left sample_delta samples ∅) t.

(** [workspaceTrafficCounters]: requests and bytes by workspace and month. *)
Abbreviation Counters := (gmap (Z * Z) (Z * Z)).

Definition count (c : Counters) (k : Z * Z) : Z * Z := default (0, 0) (c !! k).

Definition counter_add (k : Z * Z) (requests bytes : Z) (c : Counters) : Counters :=
  <[k := (wrap_u64 ((count c k).1 + requests), wrap_u64 ((count c k).2 + bytes))]> c.

(** [AddWorkspaceManagedTraffic]: two atomic additions. *)
Definition AddWorkspaceManagedTraffic (now ws requests bytes : Z) (c : Counters) : Counters :=
  if (ws =? 0) || ((requests =? 0) && (bytes =? 0)) then c
  else
    let k := (ws, (workspaceUsageMonth now).1) in
    counter_add k 0 bytes (counter_add k requests 0 c).

(** What [flushWorkspaceManagedTraffic] has taken from the counters: of the one
    at hand it swaps the requests first, then the bytes; afterwards it records
    the samples or puts them back. *)
Inductive phase :=
| Idle
| Collecting (taken : list ((Z * Z) * (Z * Z)))
| Swapping (taken : list ((Z * Z) * (Z * Z))) (k : Z * Z) (requests : Z)
| Restoring (taken : list ((Z * Z) * (Z * Z))).

Record Traffic := MkTraffic { counters : Counters; flushing : phase; table : UsageTable }.

Definition samples_of (taken : list ((Z * Z) * (Z * Z))) : list WorkspaceManagedTrafficSample :=
  map (fun '((ws, start), (requests, bytes)) => MkSample ws requests bytes start) taken.

(** [pruneWorkspaceTrafficCounters] *)
Definition pruneWorkspaceTrafficCounters (now : Z) (c : Counters) : Counters :=
  let month := (workspaceUsageMonth now).1 in
  filter (fun '((_, start), n) => negb ((start <? month) && bool_decide (n = (0, 0))) = true) c.

(** What one atomic action does.  [added] is what was handed to
    [AddWorkspaceManagedTraffic] so far; with [lossy] the database may commit a
    batch and its reply be lost. *)
Inductive traffic_step (lossy : bool) : Counters * Traffic -> Counters * Traffic -> Prop :=
| traffic_add now ws n added t :
    ws <> 0 -> 0 <= n.1 < 2 ^ 64 -> 0 <= n.2 < 2 ^ 64 -> n.1 = 0 \/ n.2 = 0 ->
    let k := (ws, (workspaceUsageMonth now).1) in
    traffic_step lossy (added, t)
      (<[k := ((count added k).1 + n.1, (count added k).2 + n.2)]> added,
       MkTraffic (counter_add k n.1 n.2 (counters t)) (flushing t) (table t))
| traffic_capacity now ws active added c ph t :
    traffic_step lossy (added, MkTraffic c ph t) (added, MkTraffic c ph (UpdateWorkspaceUsageActiveRoutes now ws active t))
| traffic_flush added c t : traffic_step lossy (added, MkTraffic c Idle t) (added, MkTraffic c (Collecting []) t)
| traffic_swap_requests k r b added c taken t :
    c !! k = Some (r, b) -> k.1 <> 0 -> k ∉ taken.*1 ->
    traffic_step lossy (added, MkTraffic c (Collecting taken) t) (added, MkTraffic (<[k := (0, b)]> c) (Swapping taken k r) t)
| traffic_swap_bytes k r r' b added c taken t :
    c !! k = Some (r', b) ->
    traffic_step lossy (added, MkTraffic c (Swapping taken k r) t)
      (added, MkTraffic (<[k := (r', 0)]> c)
                (Collecting (if (r =? 0) && (b =? 0) then taken else taken ++ [(k, (r, b))])) t)
| traffic_record now added c taken t :
    traffic_step lossy (added, MkTraffic c (Collecting taken) t)
      (added, MkTraffic (pruneWorkspaceTrafficCounters now c) Idle (recordWorkspaceManagedTrafficBatch (samples_of taken) t))
| traffic_failed added c taken t :
    traffic_step lossy (added, MkTraffic c (Collecting taken) t) (added, MkTraffic c (Restoring taken) t)
| traffic_reply_lost added c taken t :
    lossy = true ->
    traffic_step lossy (added, MkTraffic c (Collecting taken) t)
      (added, MkTraffic c (Restoring taken) (recordWorkspaceManagedTrafficBatch (samples_of taken) t))
| traffic_restore_requests k r b added c taken t :
    traffic_step lossy (added, MkTraffic c (Restoring ((k, (r, b)) :: taken)) t)
      (added, MkTraffic (counter_add k r 0 c) (Restoring ((k, (0, b)) :: taken)) t)
| traffic_restore_bytes k b added c taken t :
    traffic_step lossy (added, MkTraffic c (Restoring ((k, (0, b)) :: taken)) t)
      (added, MkTraffic (counter_add k 0 b c) (Restoring taken) t)
| traffic_restored added c t : traffic_step lossy (added, MkTraffic c (Restoring []) t) (added, MkTraffic c Idle t).

(** ** The calendar is one *)

Lemma days_before_year_cycles q a b c : 0 <= a <= 3 -> 0 <= b <= 24 -> 0 <= c <= 3 ->
  days_before_year (400 * q + 100 * a + 4 * b + c + 1) = 146097 * q + 36524 * a + 1461 * b + 365 * c.
Proof.
  intros. unfold days_before_year.
  replace (400 * q + 100 * a + 4 * b + c + 1 - 1) with (400 * q + 100 * a + 4 * b + c) by lia.
  replace ((400 * q + 100 * a + 4 * b + c) / 4) with (100 * q + 25 * a + b) by (apply Z.div_unique with c; lia).
  replace ((400 * q + 100 * a + 4 * b + c) / 100) with (4 * q + a) by (apply Z.div_unique with (4 * b + c); lia).
  replace ((400 * q + 100 * a + 4 * b + c) / 400) with q by (apply Z.div_unique with (100 * a + 4 * b + c); lia).
  lia.
Qed.

Lemma div_pred y k : 1 < k -> (y - 1) / k = y / k - (if y mod k =? 0 then 1 else 0).
Proof.
  intros Hk. pose proof (Z.div_mod y k) as Hd. pose proof (Z.mod_pos_bound y k) as Hm. symmetry.
  destruct (y mod k =? 0) eqn:E; [apply Z.eqb_eq in E|apply Z.eqb_neq in E].
  - apply Z.div_unique with (k - 1); lia.
  - rewrite Z.sub_0_r. apply Z.div_unique with (y mod k - 1); lia.
Qed.

Lemma mod_of_multiple y k j : 0 < k -> 0 < j -> y mod (k * j) = 0 -> y mod k = 0.
Proof.
  intros Hk Hj H. apply Z.mod_divide in H as [z ->]; [|lia]. apply Z.mod_divide; [lia|]. exists (z * j). lia.
Qed.

Lemma days_before_next_year y : days_before_year (y + 1) = days_before_year y + 365 + (if leap y then 1 else 0).
Proof.
  unfold days_before_year, leap. replace (y + 1 - 1) with y by lia.
  rewrite (div_pred y 4), (div_pred y 100), (div_pred y 400) by lia.
  pose proof (mod_of_multiple y 100 4 eq_refl eq_refl : y mod 400 = 0 -> _).
  pose proof (mod_of_multiple y 4 25 eq_refl eq_refl : y mod 100 = 0 -> _).
  destruct (y mod 4 =? 0) eqn:E4, (y mod 100 =? 0) eqn:E100, (y mod 400 =? 0) eqn:E400; cbn [andb orb negb]; lia.
Qed.

(** A day lies in its year. *)
Lemma year_of_bounds d : days_before_year (year_of d) <= d < days_before_year (year_of d + 1).
Proof.
  unfold year_of. cbv zeta. set (q := d / 146097). pose proof (Z.div_mod d 146097). pose proof (Z.mod_pos_bound d 146097).
  set (r := d mod 146097) in *. set (a := Z.min (r / 36524) 3).
  pose proof (Z.div_mod r 36524). pose proof (Z.mod_pos_bound r 36524).
  assert (0 <= r / 36524) by (apply Z.div_pos; lia).
  set (r1 := r - 36524 * a). set (b := r1 / 1461). pose proof (Z.div_mod r1 1461). pose proof (Z.mod_pos_bound r1 1461).
  assert (0 <= r1) by lia. assert (0 <= b) by (apply Z.div_pos; lia).
  set (r2 := r1 - 1461 * b). set (c := Z.min (r2 / 365) 3).
  pose proof (Z.div_mod r2 365). pose proof (Z.mod_pos_bound r2 365).
  assert (0 <= r2 / 365) by (apply Z.div_pos; lia).
  assert (b <= 24) by lia.
  rewrite (days_before_next_year (_ + 1)), days_before_year_cycles by lia.
  split; [lia|].
  destruct (decide (c < 3)) as [|Hc]; [destruct (leap _); lia|].
  destruct (decide (r2 = 1460)) as [Hr|]; [|destruct (leap _); lia].
  assert (leap (400 * q + 100 * a + 4 * b + c + 1) = true) as ->; [|lia].
  unfold leap. assert (c = 3) as -> by lia.
  assert ((400 * q + 100 * a + 4 * b + 3 + 1) mod 4 = 0) as ->.
  { replace (400 * q + 100 * a + 4 * b + 3 + 1) with ((100 * q + 25 * a + b + 1) * 4) by lia. apply Z.mod_mul. lia. }
  destruct (decide (b = 24)) as [Hb|].
  - assert (a = 3) as -> by lia. rewrite Hb.
    replace (400 * q + 100 * 3 + 4 * 24 + 3 + 1) with ((q + 1) * 400) by lia. rewrite (Z.mod_mul _ 400) by lia.
    by rewrite orb_true_r.
  - assert ((400 * q + 100 * a + 4 * b + 3 + 1) mod 100 = 4 * b + 4) as ->.
    { symmetry. apply Z.mod_unique with (4 * q + a); lia. }
    by rewrite (proj2 (Z.eqb_neq (4 * b + 4) 0)) by lia.
Qed.

(** A day lies in its month: there are only 366 to look at. *)
Definition in_month (l : bool) (yday : Z) : bool :=
  let m := month_in_year l yday in
  (1 <=? m) && (m <=? 12) && (days_before_month l m <=? yday) && (yday <? days_before_month l (m + 1)).

Lemma in_month_all (l : bool) yday : 0 <= yday < 365 + (if l then 1 else 0) -> in_month l yday = true.
Proof.
  intros Hy. assert (forallb (in_month l) (seqZ 0 (365 + (if l then 1 else 0))) = true) as Hall by (by destruct l; vm_compute).
  rewrite forallb_forall in Hall. apply Hall, list_elem_of_In, elem_of_seqZ. lia.
Qed.

Lemma days_before_month_le l m m' : 1 <= m -> m < m' <= 13 -> days_before_month l m < days_before_month l m'.
Proof.
  intros Hm Hm'. assert (forallb (fun m => forallb (fun m' => days_before_month l m <? days_before_month l m') (seqZ (m + 1) (13 - m)))
    (seqZ 1 12) = true) as Hall by (by destruct l; vm_compute).
  rewrite forallb_forall in Hall. specialize (Hall m). rewrite <- list_elem_of_In, elem_of_seqZ in Hall.
  specialize (Hall ltac:(lia)). rewrite forallb_forall in Hall. specialize (Hall m').
  rewrite <- list_elem_of_In, elem_of_seqZ in Hall. apply Z.ltb_lt, Hall. lia.
Qed.

Lemma month_of_bounds d :
  let y := year_of d in let m := month_of d in
  1 <= m <= 12 /\ days_before_year y + days_before_month (leap y) m <= d < days_before_year y + days_before_month (leap y) (m + 1).
Proof.
  cbv zeta. pose proof (year_of_bounds d) as Hy. rewrite days_before_next_year in Hy. unfold month_of.
  assert (in_month (leap (year_of d)) (d - days_before_year (year_of d)) = true) as Hm by (apply in_month_all; lia).
  unfold in_month in Hm. lia.
Qed.

Lemma div_Day t d d' : d <= t / Day < d' <-> d * Day <= t < d' * Day.
Proof.
  assert (0 < Day) by done. pose proof (Z.mul_div_le t Day). pose proof (Z.mul_succ_div_gt t Day). nia.
Qed.

(** An instant lies in its month. *)
Lemma workspaceUsageMonth_contains t : let '(start, stop) := workspaceUsageMonth t in start <= t < stop.
Proof.
  unfold workspaceUsageMonth, month_start. destruct (month_of_bounds (t / Day + epochDay)) as [_ Hb].
  apply div_Day. lia.
Qed.

Lemma days_before_year_mono y y' : y <= y' -> days_before_year y <= days_before_year y'.
Proof.
  intros Hy. replace y' with (y + Z.of_nat (Z.to_nat (y' - y))) by lia. induction (Z.to_nat (y' - y)) as [|n IH].
  - by rewrite Z.add_0_r.
  - replace (y + Z.of_nat (S n)) with (y + Z.of_nat n + 1) by lia. rewrite days_before_next_year. destruct (leap _); lia.
Qed.

Lemma year_of_unique y d : days_before_year y <= d < days_before_year (y + 1) -> year_of d = y.
Proof.
  intros Hd. pose proof (year_of_bounds d) as Hy.
  destruct (Z.lt_trichotomy (year_of d) y) as [Hl|[He|Hl]]; [|done|].
  - pose proof (days_before_year_mono (year_of d + 1) y). lia.
  - pose proof (days_before_year_mono (y + 1) (year_of d)). lia.
Qed.

(** The first of a month and the next month's are the month of any instant between them. *)
Lemma same_month t t' : let '(start, stop) := workspaceUsageMonth t in
  start <= t' < stop -> workspaceUsageMonth t' = (start, stop).
Proof.
  unfold workspaceUsageMonth, month_start. set (d := t / Day + epochDay). set (d' := t' / Day + epochDay).
  destruct (month_of_bounds d) as [Hm Hb]. intros Ht%div_Day.
  set (y := year_of d) in *. set (m := month_of d) in *.
  assert (days_before_year y + days_before_month (leap y) m <= d' < days_before_year y + days_before_month (leap y) (m + 1)) as Hd
    by lia.
  assert (0 <= days_before_month (leap y) m /\ days_before_month (leap y) (m + 1) <= 365 + (if leap y then 1 else 0)) as [H0 H13].
  { split.
    - destruct (decide (m = 1)) as [->|]; [done|]. pose proof (days_before_month_le (leap y) 1 m). cbn in *. lia.
    - destruct (decide (m = 12)) as [->|]; [by destruct (leap y)|].
      pose proof (days_before_month_le (leap y) (m + 1) 13) as H. cbn in H. destruct (leap y); lia. }
  assert (year_of d' = y) as Hy by (apply year_of_unique; rewrite days_before_next_year; lia).
  destruct (month_of_bounds d') as [Hm' Hb']. rewrite Hy in Hb'.
  assert (month_of d' = m) as Hmm.
  { destruct (Z.lt_trichotomy (month_of d') m) as [Hl|[He|Hl]]; [|done|].
    - destruct (decide (month_of d' + 1 = m)) as [He|]; [rewrite He in Hb'; lia|].
      pose proof (days_before_month_le (leap y) (month_of d' + 1) m). lia.
    - destruct (decide (m + 1 = month_of d')) as [He|]; [rewrite He in Hd; lia|].
      pose proof (days_before_month_le (leap y) (m + 1) (month_of d')). lia. }
  by rewrite Hy, Hmm.
Qed.

Lemma workspaceUsageMonth_start t : workspaceUsageMonth (workspaceUsageMonth t).1 = workspaceUsageMonth t.
Proof.
  pose proof (same_month t) as Hs. pose proof (workspaceUsageMonth_contains t) as Hc.
  destruct (workspaceUsageMonth t) as [start stop]. cbn. apply Hs. lia.
Qed.

(** ** Conservation of traffic *)

(** A column of a period, zero where there is none. *)
Definition amount (f : WorkspaceUsagePeriod -> Z) (t : gmap (Z * Z) WorkspaceUsagePeriod) (k : Z * Z) : Z :=
  match t !! k with Some u => f u | None => 0 end.

(** The columns that only deltas change. *)
Inductive counted : (WorkspaceUsagePeriod -> Z) -> Prop :=
| counted_checks : counted CheckAttempts
| counted_requests : counted ManagedRequests
| counted_bytes : counted ManagedBytes.

Definition row_amount (f : WorkspaceUsagePeriod -> Z) (k : Z * Z) (row : (Z * Z) * WorkspaceUsagePeriod) : Z :=
  if bool_decide (row.1 = k) then f row.2 else 0.

Lemma amount_insert f t k u k' : amount f (<[k := u]> t) k' = if bool_decide (k = k') then f u else amount f t k'.
Proof. unfold amount. case_bool_decide; [subst; by rewrite lookup_insert_eq|by rewrite lookup_insert_ne]. Qed.

Lemma amount_apply_delta f before t row k : counted f ->
  amount f (apply_delta before t row) k = amount f t k + row_amount f k row.
Proof.
  intros Hf. destruct row as [k0 d]. unfold apply_delta, row_amount. cbn.
  destruct (t !! k0) as [u|] eqn:E; rewrite amount_insert; case_bool_decide; subst; try lia;
    unfold amount; rewrite E; by destruct Hf.
Qed.

Lemma amount_fold_delta f before rows t k : counted f ->
  amount f (fold_left (apply_delta before) rows t) k = amount f t k + sum_of (row_amount f k) rows.
Proof.
  intros Hf. revert t. induction rows as [|r rows IH]; intros t; cbn [fold_left]; [cbn; lia|].
  rewrite IH, amount_apply_delta, sum_of_cons by done. lia.
Qed.

Lemma row_amount_none (f : WorkspaceUsagePeriod -> Z) k l : k ∉ l.*1 -> sum_of (row_amount f k) l = 0.
Proof.
  induction l as [|[k' u] l IH]; [done|]. rewrite fmap_cons, not_elem_of_cons, sum_of_cons. intros [Hne Hl].
  unfold row_amount at 1. cbn in *. rewrite bool_decide_eq_false_2 by done. by rewrite IH.
Qed.

Lemma sum_map_to_list (f : WorkspaceUsagePeriod -> Z) (m : UsageTable) k : sum_of (row_amount f k) (map_to_list m : list ((Z * Z) * WorkspaceUsagePeriod)) = amount f m k.
Proof.
  induction m as [|k' u m Hk IH] using map_ind; [done|]. rewrite (sum_of_Permutation _ _ _ (map_to_list_insert m k' u Hk)).
  rewrite sum_of_cons, IH, amount_insert. unfold row_amount. cbn. case_bool_decide; [|lia]. subst. unfold amount. rewrite Hk. lia.
Qed.

(** The upsert adds the deltas and nothing else. *)
Lemma amount_apply_deltas f m t k : counted f -> amount f (apply_deltas m t) k = amount f t k + amount f m k.
Proof.
  intros Hf. unfold apply_deltas.
  assert (forall l t, amount f (fold_left (fun t rows => fold_left (apply_delta t) rows t) l t) k =
    amount f t k + sum_of (row_amount f k) (concat l)) as H.
  { induction l as [|rows l IH]; intros t'; cbn [fold_left concat]; [cbn; lia|]. rewrite IH, amount_fold_delta, sum_of_app by done. lia. }
  rewrite H, concat_batches by lia. f_equal. rewrite <- sum_map_to_list. apply sum_of_Permutation, merge_sort_Permutation.
Qed.

Lemma amount_capacity f now ws active t k : counted f ->
  amount f (UpdateWorkspaceUsageActiveRoutes now ws active t) k = amount f t k.
Proof.
  intros Hf. unfold UpdateWorkspaceUsageActiveRoutes. destruct (ws =? 0); [done|].
  destruct (workspaceUsageMonth now) as [start stop]. rewrite amount_insert. case_bool_decide; [subst|done].
  unfold amount. destruct (t !! (ws, start)); by destruct Hf.
Qed.

(** The two counters and the columns they end up in. *)
Inductive column : (Z * Z -> Z) -> (WorkspaceUsagePeriod -> Z) -> Prop :=
| column_requests : column fst ManagedRequests
| column_bytes : column snd ManagedBytes.

Definition taken_of (p : phase) : list ((Z * Z) * (Z * Z)) :=
  match p with Idle => [] | Collecting l | Restoring l => l | Swapping l k r => l ++ [(k, (r, 0))] end.

Definition pending (g : Z * Z -> Z) (k : Z * Z) (l : list ((Z * Z) * (Z * Z))) : Z :=
  sum_of (fun x => if bool_decide (x.1 = k) then g x.2 else 0) l.

Definition in_u64s (n : Z * Z) : Prop := 0 <= n.1 < 2 ^ 64 /\ 0 <= n.2 < 2 ^ 64.

Definition counter_key (k : Z * Z) : Prop := k.1 <> 0 /\ (workspaceUsageMonth k.2).1 = k.2.

Lemma column_counted g f : column g f -> counted f.
Proof. by destruct 1; constructor. Qed.

Lemma amount_sample_delta g f m k n k' : column g f -> counter_key k -> in_u64s n -> m !! k = None ->
  amount f (sample_delta m (MkSample k.1 n.1 n.2 k.2)) k' =
  amount f m k' + (if bool_decide (k = k') then g n else 0).
Proof.
  intros Hc [Hws Hm] [Hr Hb] Hk. unfold sample_delta. cbn [s_workspace s_requests s_bytes s_recorded].
  rewrite (proj2 (Z.eqb_neq _ _) Hws). cbn [orb]. destruct ((n.1 =? 0) && (n.2 =? 0)) eqn:E.
  - case_bool_decide; [|lia]. destruct Hc; lia.
  - unfold add_delta. destruct (workspaceUsageMonth k.2) as [start stop] eqn:Es. cbn in Hm. subst start.
    rewrite <- surjective_pairing, Hk. cbn [default PeriodEnd CheckAttempts ManagedRequests ManagedBytes].
    rewrite amount_insert. case_bool_decide; [subst k'|lia]. unfold amount. rewrite Hk.
    destruct Hc; cbn; by rewrite wrap_unsigned_id by lia.
Qed.

Lemma sample_delta_dom m k n k' : counter_key k -> k' <> k ->
  sample_delta m (MkSample k.1 n.1 n.2 k.2) !! k' = m !! k'.
Proof.
  intros [Hws Hm] Hne. unfold sample_delta. cbn [s_workspace s_requests s_bytes s_recorded]. destruct (_ || _); [done|].
  unfold add_delta. destruct (workspaceUsageMonth k.2) as [start stop]. cbn in Hm. subst start.
  rewrite lookup_insert_ne; [done|]. intros <-. by destruct k.
Qed.

(** Recording a batch adds what was taken to the columns. *)
Lemma amount_record g f taken t k : column g f -> NoDup taken.*1 ->
  Forall (fun x => counter_key x.1 /\ in_u64s x.2) taken ->
  amount f (recordWorkspaceManagedTrafficBatch (samples_of taken) t) k = amount f t k + pending g k taken.
Proof.
  intros Hc Hn Ht. unfold recordWorkspaceManagedTrafficBatch. rewrite amount_apply_deltas by by eapply column_counted.
  f_equal. enough (forall m : UsageTable, (forall x, x ∈ taken -> m !! x.1 = None) ->
    amount f (fold_left sample_delta (samples_of taken) m) k = amount f m k + pending g k taken) as H by by rewrite H.
  induction taken as [|[k0 n] taken IH]; intros m Hm; [unfold pending; cbn; lia|].
  rewrite fmap_cons, NoDup_cons in Hn. destruct Hn as [Hk0 Hn]. apply Forall_cons in Ht as [[Hck Hrn] Ht].
  destruct k0 as [ws0 s0], n as [r0 b0]. cbn [fst snd] in *.
  change (fold_left sample_delta (samples_of (((ws0, s0), (r0, b0)) :: taken)) m)
    with (fold_left sample_delta (samples_of taken) (sample_delta m (MkSample ws0 r0 b0 s0))).
  rewrite IH; [|done|done|].
  - pose proof (amount_sample_delta g f m (ws0, s0) (r0, b0) k Hc Hck Hrn (Hm ((ws0, s0), (r0, b0)) (list_elem_of_here _ _))) as Ha.
    cbn in Ha. rewrite Ha. unfold pending. rewrite sum_of_cons. cbn. lia.
  - intros x Hx. pose proof (sample_delta_dom m (ws0, s0) (r0, b0) x.1 Hck) as Hd. cbn in Hd. rewrite Hd.
    + by apply Hm, list_elem_of_further.
    + intros He. apply Hk0. rewrite <- He. by apply list_elem_of_fmap_2.
Qed.

(** *** The invariant of the flush *)

Lemma column_range g f n : column g f -> in_u64s n -> 0 <= g n < 2 ^ 64.
Proof. by intros [] []. Qed.

Lemma pending_app g k l l' : pending g k (l ++ l') = pending g k l + pending g k l'.
Proof. apply sum_of_app. Qed.

Lemma pending_cons g k x l : pending g k (x :: l) = (if bool_decide (x.1 = k) then g x.2 else 0) + pending g k l.
Proof. apply sum_of_cons. Qed.

Definition taken_wf (taken : list ((Z * Z) * (Z * Z))) : Prop :=
  NoDup taken.*1 /\ Forall (fun x => counter_key x.1 /\ in_u64s x.2) taken.

Record traffic_wf (t : Traffic) : Prop := {
  counters_keyed : forall k n, counters t !! k = Some n -> k.1 <> 0 -> counter_key k;
  counters_ranged : forall k n, counters t !! k = Some n -> in_u64s n;
  taken_ok : taken_wf (taken_of (flushing t))
}.

(** What has not reached the table yet. *)
Definition unrecorded (g : Z * Z -> Z) (t : Traffic) (k : Z * Z) : Z :=
  g (count (counters t) k) + pending g k (taken_of (flushing t)).

Lemma in_u64s_zero : in_u64s (0, 0).
Proof. done. Qed.

Lemma count_ranged t k : traffic_wf t -> in_u64s (count (counters t) k).
Proof.
  intros Hw. unfold count. destruct (_ !! k) as [n|] eqn:E; cbn; [by eapply counters_ranged|done].
Qed.

Lemma count_insert k n c k' : count (<[k := n]> c) k' = if bool_decide (k = k') then n else count c k'.
Proof. unfold count. case_bool_decide; [subst; by rewrite lookup_insert_eq|by rewrite lookup_insert_ne]. Qed.

Lemma pending_nonneg g f k taken : column g f -> taken_wf taken -> 0 <= pending g k taken.
Proof.
  intros Hc [_ Ht]. induction Ht as [|x l [_ Hx] _ IH]; [done|]. rewrite pending_cons.
  pose proof (column_range _ _ _ Hc Hx). case_bool_decide; lia.
Qed.
Lemma count_counter_add g f k n c k' : column g f -> 0 <= g (count c k) -> 0 <= g n ->
  (k = k' -> g (count c k) + g n < 2 ^ 64) ->
  g (count (counter_add k n.1 n.2 c) k') = g (count c k') + (if bool_decide (k = k') then g n else 0).
Proof.
  intros Hc H0 Hn Hlt. unfold counter_add. rewrite count_insert. case_bool_decide; [subst k'|lia]. specialize (Hlt eq_refl).
  destruct Hc; cbn in *; by rewrite wrap_unsigned_id by lia.
Qed.

Lemma counter_add_ranged c k a b : in_u64s (wrap_u64 ((count c k).1 + a), wrap_u64 ((count c k).2 + b)).
Proof. split; by apply wrap_unsigned_range. Qed.

Lemma count_prune now c k : count (pruneWorkspaceTrafficCounters now c) k = count c k.
Proof.
  unfold count, pruneWorkspaceTrafficCounters. rewrite map_lookup_filter. destruct (c !! k) as [n|] eqn:E; [|done].
  cbn. case_guard as Hg; [done|]. cbn. destruct k as [ws start]. destruct (bool_decide (n = (0, 0))) eqn:En.
  - by apply bool_decide_eq_true in En.
  - by rewrite andb_false_r in Hg.
Qed.

Lemma taken_wf_cons_inv x l : taken_wf (x :: l) -> counter_key x.1 /\ in_u64s x.2 /\ x.1 ∉ l.*1 /\ taken_wf l.
Proof. intros [Hn Ht]. rewrite fmap_cons, NoDup_cons in Hn. apply Forall_cons in Ht. unfold taken_wf. naive_solver. Qed.

Lemma taken_wf_cons x l : counter_key x.1 -> in_u64s x.2 -> x.1 ∉ l.*1 -> taken_wf l -> taken_wf (x :: l).
Proof. intros ??? [Hn Ht]. split; [by rewrite fmap_cons, NoDup_cons|by constructor]. Qed.

Lemma taken_wf_snoc x l : taken_wf (l ++ [x]) <-> counter_key x.1 /\ in_u64s x.2 /\ x.1 ∉ l.*1 /\ taken_wf l.
Proof.
  unfold taken_wf. rewrite fmap_app, NoDup_app, Forall_app, Forall_singleton. cbn. split.
  - intros [(Hn & Hd & _) [Hl [Hk Hx]]]. split_and!; try done. intros Hin. apply (Hd _ Hin). by apply list_elem_of_singleton.
  - intros (Hk & Hx & Hin & Hn & Hl). split_and!; try done; [|apply NoDup_singleton].
    intros y Hy ->%list_elem_of_singleton. done.
Qed.

Lemma counters_insert_wf c ph ph' t t' k n : traffic_wf (MkTraffic c ph t) -> (k.1 <> 0 -> counter_key k) -> in_u64s n ->
  taken_wf (taken_of ph') -> traffic_wf (MkTraffic (<[k := n]> c) ph' t').
Proof.
  intros [Hk Hr _] Hck Hn Ht. split; [| |done]; cbn in *; intros k' n';
    (destruct (decide (k = k')) as [<-|Hne]; [rewrite lookup_insert_eq; intros [= <-]|rewrite lookup_insert_ne by done]); try done.
  - apply Hk.
  - apply Hr.
Qed.

Lemma phase_wf c ph ph' t t' : traffic_wf (MkTraffic c ph t) -> taken_wf (taken_of ph') -> traffic_wf (MkTraffic c ph' t').
Proof. intros [Hk Hr _] Ht. by split. Qed.

Lemma taken_wf_nil : taken_wf [].
Proof. split; constructor. Qed.

Lemma traffic_step_wf lossy added t added' t' : traffic_step lossy (added, t) (added', t') -> traffic_wf t -> traffic_wf t'.
Proof.
  intros Hs Hw. inversion Hs; subst; clear Hs; pose proof (taken_ok _ Hw) as Ht; cbn [taken_of flushing] in Ht.
  - destruct t as [c ph tb]. eapply counters_insert_wf; [done| |apply counter_add_ranged|done].
    intros Hne. split; [done|]. subst k. cbn [fst snd]. by rewrite workspaceUsageMonth_start.
  - by eapply phase_wf.
  - eapply phase_wf; [done|apply taken_wf_nil].
  - rename select (_ !! _ = Some _) into Hl.
    pose proof (counters_ranged _ Hw _ _ Hl) as [Hr Hb]. pose proof (counters_keyed _ Hw _ _ Hl ltac:(done)) as Hk. cbn in Hr, Hb.
    eapply counters_insert_wf; [done|done|by split|]. cbn. by apply taken_wf_snoc.
  - rename select (_ !! _ = Some _) into Hl. pose proof (counters_ranged _ Hw _ _ Hl) as [Hr Hb]. cbn in Hr, Hb.
    apply taken_wf_snoc in Ht as (Hk & [Hr' _] & Hin & Ht). cbn in Hk, Hr', Hin.
    eapply counters_insert_wf; [done|done|by split|]. cbn.
    destruct (_ && _); [done|]. by apply taken_wf_snoc.
  - destruct Hw as [Hk Hr _]. split; [| |apply taken_wf_nil]; cbn in *; intros k n Hn;
      apply map_lookup_filter_Some in Hn as [Hn _]; [by eapply Hk|by eapply Hr].
  - by eapply phase_wf.
  - by eapply phase_wf.
  - apply taken_wf_cons_inv in Ht as (Hk & [Hr Hb] & Hin & Ht).
    eapply counters_insert_wf; [done|done|apply counter_add_ranged|]. by apply taken_wf_cons.
  - apply taken_wf_cons_inv in Ht as (Hk & [Hr Hb] & Hin & Ht).
    eapply counters_insert_wf; [done|done|apply counter_add_ranged|done].
  - eapply phase_wf; [done|apply taken_wf_nil].
Qed.
Lemma count_lookup c k n : c !! k = Some n -> count c k = n.
Proof. intros Hl. unfold count. by rewrite Hl. Qed.

Lemma column_swap_requests g f r b : column g f -> g (0, b) + g (r, 0) = g (r, b).
Proof. destruct 1; cbn; lia. Qed.

Lemma column_zero g f : column g f -> g (0, 0) = 0.
Proof. by destruct 1. Qed.

(** What one step does to the books of a column of a period. *)
Record balanced (lossy : bool) (g : Z * Z -> Z) (f : WorkspaceUsagePeriod -> Z) (k : Z * Z) (added added' : Counters) (t t' : Traffic) : Prop := {
  added_grows : g (count added k) <= g (count added' k);
  unrecorded_grows : unrecorded g t' k <= unrecorded g t k + (g (count added' k) - g (count added k));
  nothing_lost : amount f (table t) k + unrecorded g t k + (g (count added' k) - g (count added k)) <=
    amount f (table t') k + unrecorded g t' k;
  nothing_twice : lossy = false -> amount f (table t) k + unrecorded g t k + (g (count added' k) - g (count added k)) =
    amount f (table t') k + unrecorded g t' k
}.

Lemma balanced_moved lossy g f k added t t' :
  amount f (table t') k = amount f (table t) k -> unrecorded g t' k = unrecorded g t k -> balanced lossy g f k added added t t'.
Proof. intros Ha Hu. split; lia. Qed.

Lemma traffic_step_balance lossy g f k added t added' t' :
  column g f -> traffic_wf t -> traffic_step lossy (added, t) (added', t') ->
  g (count added' k) < 2 ^ 64 -> unrecorded g t k <= g (count added k) -> balanced lossy g f k added added' t t'.
Proof.
  intros Hc Hw Hs Hlt Hle. pose proof (taken_ok _ Hw) as Ht.
  pose proof (pending_nonneg g f k _ Hc Ht) as Hp. pose proof (column_range _ _ _ Hc (count_ranged _ k Hw)) as Hr.
  pose proof (column_zero _ _ Hc) as Hz. unfold unrecorded in Hle.
  inversion Hs; subst; clear Hs; cbn [counters flushing table taken_of] in *.
  - destruct t as [c ph tb]. cbn [counters flushing table taken_of] in *.
    assert (g (count (<[k0 := ((count added k0).1 + n.1, (count added k0).2 + n.2)]> added) k) =
      g (count added k) + if bool_decide (k0 = k) then g n else 0) as Hg.
    { rewrite count_insert. case_bool_decide as He; [rewrite He|lia]. by destruct Hc. }
    assert (0 <= g n) as Hn by (destruct Hc; lia). rewrite Hg in Hlt.
    pose proof (column_range _ _ _ Hc (count_ranged _ k0 Hw)) as Hr0. cbn [counters] in Hr0.
    assert (g (count (counter_add k0 n.1 n.2 c) k) = g (count c k) + if bool_decide (k0 = k) then g n else 0) as Hcn.
    { apply (count_counter_add _ _ _ _ _ _ Hc); [lia|done|]. intros He. rewrite He in *. case_bool_decide; [lia|done]. }
    split; unfold unrecorded; cbn [counters flushing table taken_of];
      rewrite ?Hg, ?Hcn; case_bool_decide; lia.
  - apply balanced_moved; [|done]. by apply amount_capacity, (column_counted g).
  - by apply balanced_moved.
  - apply balanced_moved; [done|]. rename select (_ !! _ = Some _) into Hl. unfold unrecorded. cbn [counters flushing taken_of].
    rewrite count_insert, pending_app, pending_cons. cbn [fst snd]. unfold pending at 2. cbn.
    case_bool_decide; [subst|lia]. rewrite (count_lookup _ _ _ Hl), <- (column_swap_requests g f r b Hc). lia.
  - apply balanced_moved; [done|]. rename select (_ !! _ = Some _) into Hl. unfold unrecorded. cbn [counters flushing taken_of].
    assert (pending g k (if (r =? 0) && (b =? 0) then taken else taken ++ [(k0, (r, b))]) =
      pending g k taken + if bool_decide (k0 = k) then g (r, b) else 0) as ->.
    { destruct ((r =? 0) && (b =? 0)) eqn:E.
      - assert (r = 0 /\ b = 0) as [-> ->] by lia. rewrite Hz. case_bool_decide; lia.
      - rewrite pending_app, pending_cons. unfold pending at 2. cbn. lia. }
    rewrite count_insert, pending_app, pending_cons. cbn [fst snd]. unfold pending at 3. cbn.
    case_bool_decide; [subst|lia]. rewrite (count_lookup _ _ _ Hl). clear - Hc. destruct Hc; cbn; lia.
  - destruct Ht as [Hn Ht]. split; unfold unrecorded; cbn [counters flushing table taken_of];
      rewrite ?(amount_record _ _ _ _ _ Hc Hn Ht), ?count_prune; change (pending g k []) with 0; lia.
  - by apply balanced_moved.
  - destruct Ht as [Hn Ht]. split; unfold unrecorded; cbn [counters flushing table taken_of];
      rewrite ?(amount_record _ _ _ _ _ Hc Hn Ht); lia.
  - apply balanced_moved; [done|]. unfold unrecorded. cbn [counters flushing taken_of]. rewrite !pending_cons in *. cbn [fst snd] in *.
    pose proof (column_swap_requests g f r b Hc) as Hsw. apply taken_wf_cons_inv in Ht as (_ & [Hrr Hbb] & _ & Ht). cbn in Hrr, Hbb.
    pose proof (pending_nonneg g f k _ Hc Ht) as Hp'.
    pose proof (column_range _ _ _ Hc (count_ranged _ k0 Hw)) as Hr0. cbn [counters] in Hr0.
    assert (0 <= g (r, 0) /\ 0 <= g (0, b)) as [Hg1 Hg2] by (clear - Hc Hrr Hbb; destruct Hc; cbn; lia).
    pose proof (count_counter_add g f k0 (r, 0) c k Hc ltac:(lia) ltac:(done)) as Ha. cbn [fst snd] in Ha. rewrite Ha.
    { case_bool_decide; lia. }
    intros He. rewrite He, bool_decide_eq_true_2 in * by done. lia.
  - apply balanced_moved; [done|]. unfold unrecorded. cbn [counters flushing taken_of]. rewrite !pending_cons in *. cbn [fst snd] in *.
    apply taken_wf_cons_inv in Ht as (_ & [Hrr Hbb] & _ & Ht). cbn in Hrr, Hbb.
    pose proof (pending_nonneg g f k _ Hc Ht) as Hp'.
    pose proof (column_range _ _ _ Hc (count_ranged _ k0 Hw)) as Hr0. cbn [counters] in Hr0.
    assert (0 <= g (0, b)) as Hg2 by (clear - Hc Hbb; destruct Hc; cbn; lia).
    pose proof (count_counter_add g f k0 (0, b) c k Hc ltac:(lia) ltac:(done)) as Ha. cbn [fst snd] in Ha. rewrite Ha.
    { case_bool_decide; lia. }
    intros He. rewrite He, bool_decide_eq_true_2 in * by done. lia.
  - by apply balanced_moved.
Qed.
(** What every reachable state satisfies, as long as a period's total fits a counter. *)
Definition books (lossy : bool) (g : Z * Z -> Z) (f : WorkspaceUsagePeriod -> Z) (t0 : UsageTable) (k : Z * Z) (added : Counters) (t : Traffic) : Prop :=
  g (count added k) < 2 ^ 64 ->
  unrecorded g t k <= g (count added k) /\
  amount f t0 k + g (count added k) <= amount f (table t) k + unrecorded g t k /\
  (lossy = false -> amount f t0 k + g (count added k) = amount f (table t) k + unrecorded g t k).

Lemma added_monotone lossy g f k added t added' t' : column g f -> traffic_step lossy (added, t) (added', t') ->
  g (count added k) <= g (count added' k).
Proof.
  intros Hc Hs. inversion Hs; subst; try lia. rewrite count_insert. case_bool_decide as He; [|lia]. rewrite He. destruct Hc; cbn; lia.
Qed.

Lemma traffic_reachable lossy g f t0 k s : column g f ->
  rtc (traffic_step lossy) (∅, MkTraffic ∅ Idle t0) s -> traffic_wf s.2 /\ books lossy g f t0 k s.1 s.2.
Proof.
  intros Hc. refine (rtc_ind_r (fun s => traffic_wf s.2 /\ books lossy g f t0 k s.1 s.2) _ _ _ _).
  - split; [split; [done..|apply taken_wf_nil]|]. intros _. unfold unrecorded. cbn [fst snd counters flushing table taken_of].
    change (count ∅ k) with (0, 0). change (pending g k []) with 0. rewrite (column_zero _ _ Hc). lia.
  - intros [added t] [added' t'] _ Hs [Hw Hb]. cbn in *. split; [by eapply traffic_step_wf|]. intros Hlt.
    pose proof (added_monotone _ _ _ k _ _ _ _ Hc Hs). destruct Hb as (Hu & Hn & He); [lia|].
    destruct (traffic_step_balance _ _ _ k _ _ _ _ Hc Hw Hs Hlt Hu) as [Hg Hun Hl Ht].
    split_and!; [lia|lia|]. intros Hf. specialize (He Hf). specialize (Ht Hf). lia.
Qed.

(** C4. However the requests of clients interleave with flushes, failed writes,
    the pruning of counters and changes of capacity, what a workspace's rotators
    relayed in a month is neither lost nor moved to another month: the table,
    the flush at hand and the counter together hold what the table held before
    plus what was added under that month.  When no reply of the database is lost
    it is exactly that; a lost reply can only count a batch again. *)
Theorem traffic_conserved lossy g f t0 k added t :
  column g f -> rtc (traffic_step lossy) (∅, MkTraffic ∅ Idle t0) (added, t) -> g (count added k) < 2 ^ 64 ->
  let held := amount f (table t) k + pending g k (taken_of (flushing t)) + g (count (counters t) k) in
  amount f t0 k + g (count added k) <= held /\
  (lossy = false -> held = amount f t0 k + g (count added k)).
Proof.
  intros Hc Hr Hlt. destruct (traffic_reachable _ _ _ t0 k _ Hc Hr) as [_ Hb]. destruct (Hb Hlt) as (_ & Hl & He).
  unfold unrecorded in *. cbn in *. split; [lia|]. intros Hf. specialize (He Hf). lia.
Qed.

(** [AddWorkspaceManagedTraffic] is two of these steps. *)
Lemma add_is_steps lossy now ws requests bytes added c ph t :
  0 <= requests < 2 ^ 64 -> 0 <= bytes < 2 ^ 64 ->
  exists added', rtc (traffic_step lossy) (added, MkTraffic c ph t)
    (added', MkTraffic (AddWorkspaceManagedTraffic now ws requests bytes c) ph t).
Proof.
  intros Hr Hb. unfold AddWorkspaceManagedTraffic. destruct ((ws =? 0) || _) eqn:E; [by exists added|].
  eexists. eapply rtc_l; [apply (traffic_add lossy now ws (requests, 0)); cbn; lia|].
  eapply rtc_l; [apply (traffic_add lossy now ws (0, bytes)); cbn; lia|]. apply rtc_refl.
Qed.

(** Two clients at the turn of a month, a failed write, and a flush that records
    both months' traffic. *)
Definition last_of_january : Z := 1706745599 * Second.
Definition january : Z * Z := (7, 1704067200 * Second).

Lemma traffic_conserved_witness :
  rtc (traffic_step false) (∅, MkTraffic ∅ Idle ∅)
    (<[january := (1, 0)]> ∅, MkTraffic ∅ Idle {[january := MkPeriod (1706745600 * Second) 0 0 0 1 0]}) /\
  amount ManagedRequests {[january := MkPeriod (1706745600 * Second) 0 0 0 1 0]} january = 1.
Proof.
  assert (rtc (traffic_step false) (∅, MkTraffic ∅ Idle ∅)
    (<[january := (1, 0)]> ∅, MkTraffic ∅ Idle {[january := MkPeriod (1706745600 * Second) 0 0 0 1 0]})) as Hr.
  { eapply rtc_l; [apply (traffic_add false last_of_january 7 (1, 0)); cbn; lia|].
    eapply rtc_l; [apply traffic_flush|].
    eapply rtc_l; [apply (traffic_swap_requests false january 1 0); [reflexivity|done|apply not_elem_of_nil]|].
    eapply rtc_l; [apply (traffic_swap_bytes false january 1 0 0); reflexivity|].
    eapply rtc_l; [apply traffic_failed|].
    eapply rtc_l; [apply traffic_restore_requests|]. eapply rtc_l; [apply traffic_restore_bytes|].
    eapply rtc_l; [apply traffic_restored|]. eapply rtc_l; [apply traffic_flush|].
    eapply rtc_l; [apply (traffic_swap_requests false january 1 0); [reflexivity|done|apply not_elem_of_nil]|].
    eapply rtc_l; [apply (traffic_swap_bytes false january 1 0 0); reflexivity|].
    eapply rtc_l; [apply (traffic_record false (last_of_january + Second))|].
    match goal with |- rtc _ ?a ?b => assert (a = b) as ->; [vm_compute; reflexivity|apply rtc_refl] end. }
  split; [exact Hr|].
  destruct (traffic_conserved false fst ManagedRequests ∅ january _ _ column_requests Hr) as [_ He]; [by vm_compute|].
  specialize (He eq_refl). cbn [table flushing counters taken_of] in He. rewrite Z.add_0_r in He. 
  change (pending fst january []) with 0 in He. etransitivity; [|exact He]. by vm_compute.
Defined.

End Usage.
