(* ===== verification/StatStore.v ===== *)
(** * The tables of check results

    [internal/database/database_proxy_statistics_handl.go] and the files it
    calls: [proxy_statistic_event_retention.go], [database_proxy_daily_checks.go],
    [database_proxy_status_handler.go], [proxy_reputation_refresh.go] and the
    checks of [database_workspace_usage.go]; also the retention of
    [database_proxy_statistics_retention.go] and the pruning of evidence for
    configurations no longer in use ([checker_evidence_pruning.go]).  Results of
    checks are stored with everything that is derived from them in one transaction: the history, the
    ledger of stream events, the daily counters, the newest result per protocol
    and configuration, the work list of the reputation and the usage of
    workspaces.  An operation is a function on the tables; [None] is an error
    that rolls back.  Of the foreign keys only the one on routes is modelled.
    Instants are nanoseconds. *)

From Stdlib Require Import Ascii.
From S2P Require Import Prelude GoStrings Usage.
From stdpp Require Import sorting strings.
Open Scope Z_scope.

Module StatStore.
Import Usage.

(** ** Results *)

Record WorkspaceCheckEvidence := MkEvidence { ev_workspace : Z; ev_config : string; ev_alive : bool }.

(** [domain.ProxyStatistic], as far as it is read; the zero [CreatedAt] is [None]. *)
Record ProxyStatistic := MkStat {
  StatID : Z; Alive : bool; Attempt : Z; ResponseTime : Z; TransportProtocol : string;
  CheckEvidence : list WorkspaceCheckEvidence; ProtocolID : Z; LevelID : option Z; ProxyID : Z; JudgeID : Z;
  WorkspaceIDs : list Z; EventStream : string; EventID : string; CreatedAt : option Z
}.

(** [domain.ProxyLatestStatistic] without its key. *)
Record ProxyLatestStatistic := MkLatest {
  l_transport : string; l_alive : bool; StatisticID : Z; l_response : Z; l_attempt : Z; l_level : option Z;
  l_judge : Z; CheckedAt : Z
}.

(** Workspace, configuration, route and protocol. *)
Definition proxyProtocolKey : Type := Z * string * Z * Z.

Record ProxyOverallStatus := MkOverall { OverallAlive : bool; LastCheckedAt : Z }.

Record ProxyReputationRefresh := MkRefresh { Version : Z; RequestedAt : Z; LeaseUntil : Z }.

(** [domain.ProxyCheckTotal]: count, and the instant before which days were folded. *)
Record ProxyCheckTotal := MkTotal { TotalCount : Z; CompactedBefore : Z }.

(** A stream and the identifier of an event in it. *)
Abbreviation eventKey := (string * string)%type.

(** The ledger: sort key by event, replay floor by stream. *)
Record Ledger := MkLedger { events : gmap eventKey string; floors : gmap string string }.

(** Daily counters by route and day, lifetime totals, and the routes whose history was counted. *)
Record Counters := MkCounters { daily : gmap (Z * Z) Z; totals : gmap Z ProxyCheckTotal; backfilled : gset Z }.

Record Store := MkStore {
  history : list ProxyStatistic; next_id : Z; routes : gset Z; ledger : Ledger; checks : Counters;
  latest : gmap (Z * string * Z * Z) ProxyLatestStatistic; overall : gmap Z ProxyOverallStatus;
  refreshes : gmap Z ProxyReputationRefresh; usage : UsageTable
}.

Definition set_ledger (l : Ledger) (st : Store) : Store :=
  MkStore (history st) (next_id st) (routes st) l (checks st) (latest st) (overall st) (refreshes st) (usage st).
Definition set_rows (h : list ProxyStatistic) (n : Z) (st : Store) : Store :=
  MkStore h n (routes st) (ledger st) (checks st) (latest st) (overall st) (refreshes st) (usage st).
Definition set_checks (c : Counters) (st : Store) : Store :=
  MkStore (history st) (next_id st) (routes st) (ledger st) c (latest st) (overall st) (refreshes st) (usage st).
Definition set_latest l (st : Store) : Store :=
  MkStore (history st) (next_id st) (routes st) (ledger st) (checks st) l (overall st) (refreshes st) (usage st).
Definition set_overall o (st : Store) : Store :=
  MkStore (history st) (next_id st) (routes st) (ledger st) (checks st) (latest st) o (refreshes st) (usage st).
Definition set_refreshes r (st : Store) : Store :=
  MkStore (history st) (next_id st) (routes st) (ledger st) (checks st) (latest st) (overall st) r (usage st).
Definition set_usage u (st : Store) : Store :=
  MkStore (history st) (next_id st) (routes st) (ledger st) (checks st) (latest st) (overall st) (refreshes st) u.

(** ** Identities of stream events *)

(** [strconv.ParseUint(s, 10, 64)] *)
Definition ParseUint (s : string) : option Z :=
  match s with
  | EmptyString => None
  | _ => match digits_val 0 s with Some v => if v <? 2 ^ 64 then Some v else None | None => None end
  end.

(** The last [width] decimal digits of [n]; [%020d] of a 64-bit number has twenty. *)
Fixpoint pad_go (width : nat) (n : Z) (acc : string) : string :=
  match width with
  | O => acc
  | S width' => pad_go width' (n / 10) (String (chr (48 + n mod 10)) acc)
  end.

(** [ProxyStatisticEventSortID] *)
Definition ProxyStatisticEventSortID (id : string) : string :=
  match split_byte "-"%char id with
  | [a; b] =>
      match ParseUint a, ParseUint b with
      | Some ms, Some seq_ => pad_go 20 ms (String "-"%char (pad_go 20 seq_ ""))
      | _, _ => ""
      end
  | _ => ""
  end.

Definition event_key (s : ProxyStatistic) : eventKey := (EventStream s, EventID s).

Definition has_event (s : ProxyStatistic) : bool := negb (String.eqb (EventID s) "").

Definition key_leb (a b : eventKey) : bool :=
  match String.compare a.1 b.1 with Lt => true | Gt => false | Eq => String.leb a.2 b.2 end.

(** The insert into the ledger: no conflict, and not below the floor. *)
Definition ledger_insert (l : Ledger) (k : eventKey) : bool :=
  let sort_id := ProxyStatisticEventSortID k.2 in
  match floors l !! k.1 with
  | Some floor => (String.eqb sort_id "" || String.leb floor sort_id) && bool_decide (events l !! k = None)
  | None => false
  end.

Definition insert_event (acc : Ledger * gset eventKey) (k : eventKey) : Ledger * gset eventKey :=
  if ledger_insert acc.1 k
  then (MkLedger (<[k := ProxyStatisticEventSortID k.2]> (events acc.1)) (floors acc.1), {[k]} ∪ acc.2)
  else acc.

(** The first result of each inserted event, and every result without identity. *)
Fixpoint take_accepted (acceptedKeys : gset eventKey) (statistics : list ProxyStatistic) : list ProxyStatistic :=
  match statistics with
  | [] => []
  | s :: rest =>
      if has_event s then
        if decide (event_key s ∈ acceptedKeys) then s :: take_accepted (acceptedKeys ∖ {[event_key s]}) rest
        else take_accepted acceptedKeys rest
      else s :: take_accepted acceptedKeys rest
  end.

(** [acceptProxyStatisticEvents] *)
Definition acceptProxyStatisticEvents (statistics : list ProxyStatistic) (l : Ledger) : list ProxyStatistic * Ledger :=
  let keys := dedup_go [] (map event_key (List.filter has_event statistics)) in
  match keys with
  | [] => (statistics, l)
  | _ =>
      let incoming := merge_sort (rel_of key_leb) keys in
      let opened := MkLedger (events l)
        (fold_left (fun f k => match f !! k.1 with Some _ => f | None => <[k.1 := ""]> f end) incoming (floors l)) in
      let '(l', acceptedKeys) := fold_left (fun acc chunk => fold_left insert_event chunk acc) (batches 1000 incoming) (opened, ∅) in
      (take_accepted acceptedKeys statistics, l')
  end.

(** The rows of the ledger a retirement may delete, lowest first. *)
Definition retirable (stream floor : string) (l : Ledger) : list (eventKey * string) :=
  merge_sort (rel_of (fun a b => String.leb a.2 b.2))
    (List.filter (fun '(k, sort_id) => String.eqb k.1 stream && negb (String.eqb sort_id "") && String.ltb sort_id floor)
       (map_to_list (events l))).

(** [RetireProxyStatisticEvents], for a ledger whose rows all have their sort
    key (an upgrade gives it to older rows): how many rows went, and the ledger. *)
Definition RetireProxyStatisticEvents (stream before : string) (limit : Z) (l : Ledger) : option (nat * Ledger) :=
  let floor := ProxyStatisticEventSortID before in
  if String.eqb floor "" then None
  else
    let replay_before := match floors l !! stream with
                         | Some f => if String.ltb f floor then floor else f
                         | None => floor
                         end in
    let deleted := take (Z.to_nat (Z.max 1 limit)) (retirable stream replay_before l) in
    Some (length deleted, MkLedger (fold_right (fun e m => delete e.1 m) (events l) deleted)
                            (<[stream := replay_before]> (floors l))).

(** ** Counters of checks *)

(** [startOfUTCDay] *)
Definition startOfUTCDay (t : Z) : Z := t / Day * Day.

Definition checked_at (now : Z) (s : ProxyStatistic) : Z := default now (CreatedAt s).

Definition daily_count (c : Counters) (p d : Z) : Z := default 0 (daily c !! (p, d)).

(** [incrementProxyDailyChecks]: grouped by route and day, then added. *)
Definition aggregate_daily (now : Z) (statistics : list ProxyStatistic) : gmap (Z * Z) Z :=
  fold_left (fun m s =>
    if ProxyID s =? 0 then m
    else let k := (ProxyID s, startOfUTCDay (checked_at now s)) in <[k := default 0 (m !! k) + 1]> m) statistics ∅.

Definition incrementProxyDailyChecks (now : Z) (statistics : list ProxyStatistic) (c : Counters) : Counters :=
  MkCounters (union_with (fun n d => Some (n + d)) (daily c) (aggregate_daily now statistics)) (totals c) (backfilled c).

(** The rows [backfillProxyDailyChecksForProxyIDsTx] counts for a route. *)
Definition backfills (c : Counters) (proxyIDs : list Z) (before : Z) (s : ProxyStatistic) : bool :=
  match CreatedAt s with
  | Some t =>
      bool_decide (ProxyID s ∈ proxyIDs) && (t <? before) &&
      match totals c !! ProxyID s with None => true | Some total => CompactedBefore total <=? t end
  | None => false
  end.

Definition backfillProxyDailyChecksForProxyIDsTx (now : Z) (rows : list ProxyStatistic) (proxyIDs : list Z) (before : Z)
    (c : Counters) : Counters :=
  fold_left (fun c ids =>
    MkCounters (union_with (fun n d => Some (Z.max n d)) (daily c)
                  (aggregate_daily now (List.filter (backfills c ids before) rows)))
               (totals c) (backfilled c)) (batches 500 proxyIDs) c.

(** [markProxyDailyChecksBackfilled] *)
Definition markProxyDailyChecksBackfilled (proxyIDs : list Z) (c : Counters) : Counters :=
  MkCounters (daily c) (totals c) (list_to_set (List.filter (fun p => negb (p =? 0)) proxyIDs) ∪ backfilled c).

(** [ensureProxyDailyChecksBackfilledWithDB] for a workspace that owns [owned];
    the advisory lock is taken. *)
Definition loadWorkspaceProxyIDsMissingBackfill (owned : list Z) (c : Counters) : list Z :=
  dedup_go [] (List.filter (fun p => negb (p =? 0))
    (take 500 (merge_sort Z.le (List.filter (fun p => bool_decide (p ∉ backfilled c)) owned)))).

Definition ensureProxyDailyChecksBackfilled (now : Z) (owned : list Z) (st : Store) : Store :=
  match loadWorkspaceProxyIDsMissingBackfill owned (checks st) with
  | [] => st
  | missing =>
      set_checks (markProxyDailyChecksBackfilled missing
        (backfillProxyDailyChecksForProxyIDsTx now (history st) missing (startOfUTCDay now) (checks st))) st
  end.

(** One removed day, folded into the total of its route. *)
Definition compact_day (c : Counters) (k : Z * Z) : Counters :=
  match daily c !! k with
  | None => c
  | Some n =>
      MkCounters (delete k (daily c))
        (<[k.1 := match totals c !! k.1 with
                  | Some t => MkTotal (TotalCount t + n) (Z.max (CompactedBefore t) (k.2 + Day))
                  | None => MkTotal n (k.2 + Day)
                  end]> (totals c))
        (backfilled c)
  end.

Definition day_le (a b : Z * Z) : Prop := (if a.2 =? b.2 then a.1 <=? b.1 else a.2 <? b.2) = true.

#[export] Instance day_le_dec : RelDecision day_le.
Proof. intros a b. unfold day_le. apply _. Defined.

(** Days of routes to fold; [locked] rows belong to other transactions and are skipped. *)
Definition candidates (locked : list (Z * Z)) (before : Z) (limit : Z) (c : Counters) : list (Z * Z) :=
  take (Z.to_nat (Z.max 1 limit)) (merge_sort day_le
    (List.filter (fun k => (k.2 <? before) && bool_decide (k.1 ∈ backfilled c) && negb (bool_decide (k ∈ locked)))
       (map fst (map_to_list (daily c))))).

(** [CompactProxyDailyChecks] on PostgreSQL with the advisory lock taken. *)
Definition CompactProxyDailyChecks (now : Z) (locked : list (Z * Z)) (before limit : Z) (st : Store) : Z * Store :=
  let before := startOfUTCDay before in
  let c := checks st in
  let missing := take 500 (merge_sort Z.le (dedup_go [] (map fst
    (List.filter (fun k => (k.2 <? before) && bool_decide (k.1 ∉ backfilled c)) (map fst (map_to_list (daily c))))))) in
  let c := markProxyDailyChecksBackfilled missing
    (backfillProxyDailyChecksForProxyIDsTx now (history st) missing (startOfUTCDay now) c) in
  let removed := candidates locked before limit c in
  (Z.of_nat (length removed), set_checks (fold_left compact_day removed c) st).

(** [DeleteOrphanProxyCheckCounters], run to its end. *)
Definition DeleteOrphanProxyCheckCounters (st : Store) : Store :=
  let c := checks st in
  set_checks (MkCounters (filter (fun '((p, _), _) => p ∈ routes st) (daily c))
                (filter (fun '(p, _) => p ∈ routes st) (totals c))
                (filter (fun p => p ∈ routes st) (backfilled c))) st.

(** [queryDashboardCheckCountsFromDailyWithDB] for a workspace that owns [owned]. *)
Definition count_rows (f : ProxyStatistic -> bool) (l : list ProxyStatistic) : Z := Z.of_nat (length (List.filter f l)).

Definition created_in (from until : option Z) (s : ProxyStatistic) : bool :=
  match CreatedAt s with
  | Some t => match from with Some f => f <=? t | None => true end && match until with Some u => t <? u | None => true end
  | None => false
  end.

Definition queryDashboardCheckCountsFromDaily (now weekAgo : Z) (owned : gset Z) (st : Store) : Z * Z :=
  let todayStart := startOfUTCDay now in
  let nextDayStart := startOfUTCDay weekAgo + Day in
  let mine := List.filter (fun s => bool_decide (ProxyID s ∈ owned) && created_in (Some weekAgo) None s &&
    (created_in None (Some nextDayStart) s || created_in (Some todayStart) None s)) (history st) in
  let days := List.filter (fun x => bool_decide (x.1.1 ∈ owned) && (x.1.2 <? todayStart)) (map_to_list (daily (checks st))) in
  let current := count_rows (created_in (Some todayStart) None) mine in
  let partial_ := count_rows (created_in None (Some nextDayStart)) mine in
  (sum_of snd days +
     sum_of (fun x => if bool_decide (x.1 ∈ owned) then TotalCount x.2 else 0) (map_to_list (totals (checks st))) + current,
   sum_of (fun x => if nextDayStart <=? x.1.2 then x.2 else 0) days + partial_ + current).

(** ** The newest results *)

Definition isNewerLatestStat (candidate existing : ProxyLatestStatistic) : bool :=
  if CheckedAt existing <? CheckedAt candidate then true
  else if CheckedAt candidate <? CheckedAt existing then false
  else StatisticID existing <? StatisticID candidate.

Definition latest_entry (now : Z) (alive : bool) (s : ProxyStatistic) : ProxyLatestStatistic :=
  MkLatest (TransportProtocol s) alive (StatID s) (ResponseTime s) (Attempt s) (LevelID s) (JudgeID s) (checked_at now s).

(** What a result is evidence for: its workspaces' configurations, or the
    route itself when it carries none. *)
Definition stat_evidence (now : Z) (s : ProxyStatistic) : list ((Z * string * Z * Z) * ProxyLatestStatistic) :=
  if (ProxyID s =? 0) || (ProtocolID s =? 0) then []
  else
    match CheckEvidence s with
    | [] => [((0, "", ProxyID s, ProtocolID s), latest_entry now (Alive s) s)]
    | evidence =>
        omap (fun e =>
          if (ev_workspace e =? 0) || String.eqb (ev_config e) "" then None
          else Some ((ev_workspace e, ev_config e, ProxyID s, ProtocolID s), latest_entry now (ev_alive e) s)) evidence
    end.

Definition keep_newer (m : gmap (Z * string * Z * Z) ProxyLatestStatistic) (x : (Z * string * Z * Z) * ProxyLatestStatistic)
    : gmap (Z * string * Z * Z) ProxyLatestStatistic :=
  match m !! x.1 with
  | Some existing => if isNewerLatestStat x.2 existing then <[x.1 := x.2]> m else m
  | None => <[x.1 := x.2]> m
  end.

(** [latestProxyStatusEntries]: the newest evidence per key, and the routes with unscoped evidence. *)
Definition latestProxyStatusEntries (now : Z) (stats : list ProxyStatistic)
    : gmap (Z * string * Z * Z) ProxyLatestStatistic * list Z :=
  let entries := fold_left (fun m s => fold_left keep_newer (stat_evidence now s) m) stats ∅ in
  (entries,
   if bool_decide (entries = ∅) then []
   else merge_sort Z.le (dedup_go [] (omap (fun s =>
     if (ProxyID s =? 0) || (ProtocolID s =? 0) then None
     else match CheckEvidence s with [] => Some (ProxyID s) | _ => None end) stats))).

(** [upsertProxyLatestStatistics]: an older row gives way. *)
Definition upsertProxyLatestStatistics (entries : gmap (Z * string * Z * Z) ProxyLatestStatistic)
    (rows : gmap (Z * string * Z * Z) ProxyLatestStatistic) : gmap (Z * string * Z * Z) ProxyLatestStatistic :=
  union_with (fun old new => Some (if isNewerLatestStat new old then new else old)) rows entries.

(** The rows of a route that belong to no workspace. *)
Definition unscoped (p : Z) (rows : gmap (Z * string * Z * Z) ProxyLatestStatistic) : list ProxyLatestStatistic :=
  map snd (map_to_list (filter (fun x => x.1.1.1.1 = 0 /\ x.1.1.2 = p) rows)).

Definition overall_of (p : Z) (rows : gmap (Z * string * Z * Z) ProxyLatestStatistic) : option ProxyOverallStatus :=
  match unscoped p rows with
  | [] => None
  | e :: rest => Some (MkOverall (existsb l_alive (e :: rest)) (fold_left Z.max (map CheckedAt rest) (CheckedAt e)))
  end.

(** [upsertProxyOverallStatuses] *)
Definition upsertProxyOverallStatuses (proxyIDs : list Z) (st : Store) : Store :=
  set_overall (fold_left (fun o p => match overall_of p (latest st) with Some v => <[p := v]> o | None => o end)
                 proxyIDs (overall st)) st.

(** ** Reputation and usage *)

Definition collectProxyIDsFromStatistics (statistics : list ProxyStatistic) : list Z :=
  dedup_go [] (List.filter (fun p => negb (p =? 0)) (map ProxyID statistics)).

(** [queueProxyReputationRefresh]; the lease of a new row is the zero time. *)
Definition queue_refresh (now : Z) (m : gmap Z ProxyReputationRefresh) (p : Z) : gmap Z ProxyReputationRefresh :=
  match m !! p with
  | Some r => <[p := MkRefresh (Version r + 1) (RequestedAt r) (LeaseUntil r)]> m
  | None => <[p := MkRefresh 1 now 0]> m
  end.

Definition queueProxyReputationRefresh (now : Z) (proxyIDs : list Z) (m : gmap Z ProxyReputationRefresh)
    : gmap Z ProxyReputationRefresh :=
  fold_left (fun m ids => fold_left (queue_refresh now) ids m) (batches 1000 (merge_sort Z.le proxyIDs)) m.

(** [recordWorkspaceCheckUsage]: an attempt counts once per workspace, retries included. *)
Definition usage_deltas (now : Z) (m : gmap (Z * Z) WorkspaceUsagePeriod) (s : ProxyStatistic)
    : gmap (Z * Z) WorkspaceUsagePeriod :=
  fold_left (fun m ws => add_delta (Attempt s + 1) 0 0 m ws (checked_at now s))
    (dedup_go [] (List.filter (fun ws => negb (ws =? 0)) (WorkspaceIDs s))) m.

Definition recordWorkspaceCheckUsage (now : Z) (statistics : list ProxyStatistic) (t : UsageTable) : UsageTable :=
  apply_deltas (fold_left (usage_deltas now) statistics ∅) t.

(** ** The transaction *)

(** [CalculateProxyStatisticBatchSize] for a table of [numFields] columns. *)
Definition maxParamsPerBatch : Z := 65534.
Definition minBatchSize : Z := 100.

Definition CalculateProxyStatisticBatchSize (numFields statCount : Z) : Z :=
  if statCount <=? 0 then 0
  else if numFields <=? 0 then minBatchSize
  else
    let maxPossible := maxParamsPerBatch / numFields in
    let maxPossible := if maxPossible <? 1 then 1 else maxPossible in
    let batchSize := if maxPossible <? minBatchSize then minBatchSize else maxPossible in
    if statCount <? batchSize then statCount else batchSize.

(** [tx.CreateInBatches(&accepted)]: identifiers and times are filled in; a
    route that is gone or an identifier in use fails the statement. *)
Definition with_id (id : Z) (now : Z) (s : ProxyStatistic) : ProxyStatistic :=
  MkStat id (Alive s) (Attempt s) (ResponseTime s) (TransportProtocol s) (CheckEvidence s) (ProtocolID s) (LevelID s)
    (ProxyID s) (JudgeID s) (WorkspaceIDs s) (EventStream s) (EventID s) (Some (checked_at now s)).

Fixpoint create_rows (now : Z) (rts : gset Z) (statistics h : list ProxyStatistic) (n : Z)
    : option (list ProxyStatistic * list ProxyStatistic * Z) :=
  match statistics with
  | [] => Some ([], h, n)
  | s :: rest =>
      let id := if StatID s =? 0 then n else StatID s in
      let n' := if StatID s =? 0 then n + 1 else n in
      if bool_decide (ProxyID s ∉ rts) || bool_decide (id ∈ map StatID h) then None
      else
        let row := with_id id now s in
        match create_rows now rts rest (h ++ [row]) n' with
        | Some (rows, h', n'') => Some (row :: rows, h', n'')
        | None => None
        end
  end.

(** What follows the rows in the transaction. *)
Definition record_derived (now : Z) (rows : list ProxyStatistic) (st : Store) : Store :=
  let st := set_checks (incrementProxyDailyChecks now rows (checks st)) st in
  let '(entries, legacyProxyIDs) := latestProxyStatusEntries now rows in
  let st := set_latest (upsertProxyLatestStatistics entries (latest st)) st in
  let st := set_refreshes (queueProxyReputationRefresh now (collectProxyIDsFromStatistics rows) (refreshes st)) st in
  let st := set_usage (recordWorkspaceCheckUsage now rows (usage st)) st in
  upsertProxyOverallStatuses legacyProxyIDs st.

Definition record_accepted (now : Z) (accepted : list ProxyStatistic) (st : Store) : option Store :=
  match create_rows now (routes st) accepted (history st) (next_id st) with
  | None => None
  | Some (rows, h, n) => Some (record_derived now rows (set_rows h n st))
  end.

(** [InsertProxyStatistics]; [None] is an error, after which nothing is changed
    but possibly [next_id], which counts on. *)
Definition InsertProxyStatistics (now : Z) (statistics : list ProxyStatistic) (st : Store) : option Store :=
  match statistics with
  | [] => Some st
  | _ =>
      let '(accepted, l) := acceptProxyStatisticEvents statistics (ledger st) in
      match accepted with
      | [] => Some (set_ledger l st)
      | _ => record_accepted now accepted (set_ledger l st)
      end
  end.

(** ** Retention *)

Definition row_le (a b : ProxyStatistic) : bool :=
  let at_ s := default 0 (CreatedAt s) in
  if at_ a =? at_ b then StatID a <=? StatID b else at_ a <? at_ b.

(** [DeleteOldProxyStatistics]: the oldest rows that no newest result refers to; [locked] rows are skipped. *)
Definition DeleteOldProxyStatistics (locked : list Z) (olderThan limit : Z) (st : Store) : Z * Store :=
  let limit := if limit <=? 0 then 5000 else limit in
  let pinned := map (fun x => StatisticID x.2) (map_to_list (latest st)) in
  let deletable := take (Z.to_nat limit) (merge_sort (rel_of row_le)
    (List.filter (fun s => created_in None (Some olderThan) s && negb (bool_decide (StatID s ∈ pinned)) &&
                           negb (bool_decide (StatID s ∈ locked))) (history st))) in
  let ids := map StatID deletable in
  (Z.of_nat (length deletable),
   set_rows (List.filter (fun s => negb (bool_decide (StatID s ∈ ids))) (history st)) (next_id st) st).

(** ** Obsolete evidence

    [database/checker_evidence_pruning.go] reads the owners of routes, the
    workspaces and the materialized overrides next to the newest results. *)

Record EvidenceWorkspace := MkEvidenceWorkspace { ew_generation : Z; ew_dirty : bool; ew_keys : list string }.

(** Workspace and route; rows of workspaces; overrides by workspace, route and protocol. *)
Record EvidenceTables := MkEvidenceTables {
  owners : gset (Z * Z); workspaces : gmap Z EvidenceWorkspace; overrides : gmap (Z * Z * Z) string
}.

(** The configuration a workspace checks the protocol of a route under. *)
Definition current_key (t : EvidenceTables) (ws : Z) (w : EvidenceWorkspace) (proxy protocol : Z) : string :=
  match overrides t !! (ws, proxy, protocol) with
  | Some key => key
  | None => if (1 <=? protocol) && (protocol <=? 4) then nth (Z.to_nat (protocol - 1)) (ew_keys w) "" else ""
  end.

(** [obsoleteCheckerEvidencePredicateSQL] *)
Definition obsolete_evidence (t : EvidenceTables) (k : Z * string * Z * Z) : bool :=
  let '(ws, config, proxy, protocol) := k in
  if ws =? 0 then
    negb (existsb (fun o => (o.2 =? proxy) && match workspaces t !! o.1 with Some w => ew_generation w =? 0 | None => false end)
            (elements (owners t)))
  else (0 <? ws) &&
    match workspaces t !! ws with
    | None => true
    | Some w =>
        negb (ew_dirty w) &&
        negb ((0 <? ew_generation w) && negb (String.eqb config "") && String.eqb config (current_key t ws w proxy protocol) &&
              bool_decide ((ws, proxy) ∈ owners t))
    end.

(** The order of the primary key. *)
Definition pointer_leb (a b : Z * string * Z * Z) : bool :=
  let '(w, c, p, q) := a in
  let '(w', c', p', q') := b in
  if w =? w' then
    match String.compare c c' with
    | Lt => true
    | Gt => false
    | Eq => if p =? p' then q <=? q' else p <? p'
    end
  else w <? w'.

Record PrunePage := MkPage {
  Scanned : Z; Deleted : Z; Next : option ((Z * string * Z * Z) * (Z * string * Z * Z))
}.

(** [PruneObsoleteCheckerEvidencePage], one statement: the cursor is the last key examined and
    the last one to examine, fixed with the first page. *)
Definition PruneObsoleteCheckerEvidencePage (t : EvidenceTables) (cursor : option ((Z * string * Z * Z) * (Z * string * Z * Z)))
    (limit : Z) (st : Store) : PrunePage * Store :=
  let limit := if limit <=? 0 then 5000 else limit in
  let keys := merge_sort (rel_of pointer_leb) (elements (dom (latest st))) in
  match (match cursor with Some c => Some c.2 | None => last keys end) with
  | None => (MkPage 0 0 None, st)
  | Some through =>
      let candidates := take (Z.to_nat limit)
        (List.filter (fun k => pointer_leb k through && match cursor with Some c => negb (pointer_leb k c.1) | None => true end) keys) in
      let obsolete := List.filter (obsolete_evidence t) candidates in
      let scanned := Z.of_nat (length candidates) in
      let complete := (scanned <? limit) || match last candidates with Some tail => pointer_leb through tail | None => false end in
      (MkPage scanned (Z.of_nat (length obsolete))
         (match last candidates with Some tail => if complete then None else Some (tail, through) | None => None end),
       set_latest (filter (fun x => x.1 ∉ obsolete) (latest st)) st)
  end.

Lemma pruned_page t cursor limit st : exists gone : list (Z * string * Z * Z),
  (PruneObsoleteCheckerEvidencePage t cursor limit st).2 = set_latest (filter (fun x => x.1 ∉ gone) (latest st)) st /\
  forall k, k ∈ gone -> obsolete_evidence t k = true.
Proof.
  unfold PruneObsoleteCheckerEvidencePage. cbv zeta. destruct (match cursor with Some c => Some c.2 | None => _ end) as [through|]; cbn [snd].
  - eexists. split; [reflexivity|]. intros k Hk. by apply list_elem_of_In, filter_In in Hk as [_ ?].
  - exists []. split; [|by intros k ?%not_elem_of_nil]. destruct st. unfold set_latest. cbn. f_equal. symmetry. apply map_filter_id.
    intros k x _. apply not_elem_of_nil.
Qed.

End StatStore.
