(* ===== verification/StatLedger.v ===== *)
(** * Each event is recorded once

    The ledger of StatStore.v and its replay floors: an event that was accepted
    stays settled, because a retirement only deletes a row below the floor it has
    just stored.  [store_step] is one transaction on the tables, whoever runs
    it; the theorems are about every sequence of them.  The sort key of an event
    orders like the pair of numbers of its Redis identifier. *)

From S2P Require Import Prelude GoStrings Usage StatStore.
From Stdlib Require Import Ascii.
From stdpp Require Import sorting strings.
Open Scope Z_scope.

Module StatLedger.
Import StatStore.

(** ** Transactions *)

(** The cascades of deleting a route. *)
Definition delete_route (p : Z) (st : Store) : Store :=
  MkStore (List.filter (fun s => negb (ProxyID s =? p)) (history st)) (next_id st) (routes st ∖ {[p]}) (ledger st) (checks st)
    (filter (fun x => x.1.1.2 <> p) (latest st)) (delete p (overall st)) (refreshes st) (usage st).

Definition add_route (p : Z) (st : Store) : Store :=
  MkStore (history st) (next_id st) ({[p]} ∪ routes st) (ledger st) (checks st) (latest st) (overall st) (refreshes st) (usage st).

(** One transaction, with the rows recorded so far, in order.  No row created
    from [cut] on is deleted for its age and no day from [cut] on is folded; any
    finite sequence has such a [cut].  Routes get their identifiers from a
    sequence, so a new one has no results yet. *)
Inductive store_step (cut : Z) : list ProxyStatistic * Store -> list ProxyStatistic * Store -> Prop :=
| step_insert now statistics log st st' :
    InsertProxyStatistics now statistics st = Some st' ->
    store_step cut (log, st) (log ++ drop (length (history st)) (history st'), st')
| step_sequence n log st : next_id st <= n -> store_step cut (log, st) (log, set_rows (history st) n st)
| step_retire stream before limit n l log st :
    RetireProxyStatisticEvents stream before limit (ledger st) = Some (n, l) -> store_step cut (log, st) (log, set_ledger l st)
| step_retention locked olderThan limit log st :
    olderThan <= cut -> store_step cut (log, st) (log, (DeleteOldProxyStatistics locked olderThan limit st).2)
| step_backfill now owned log st : store_step cut (log, st) (log, ensureProxyDailyChecksBackfilled now owned st)
| step_compact now locked before limit log st :
    startOfUTCDay before <= cut -> store_step cut (log, st) (log, (CompactProxyDailyChecks now locked before limit st).2)
| step_prune tables cursor limit log st :
    store_step cut (log, st) (log, (PruneObsoleteCheckerEvidencePage tables cursor limit st).2)
| step_orphans log st : store_step cut (log, st) (log, DeleteOrphanProxyCheckCounters st)
| step_refreshes r log st : store_step cut (log, st) (log, set_refreshes r st)
| step_usage u log st : store_step cut (log, st) (log, set_usage u st)
| step_add_route p log st : 0 < p -> p ∉ map ProxyID log -> store_step cut (log, st) (log, add_route p st)
| step_delete_route p log st : store_step cut (log, st) (log, delete_route p st).

Definition empty_store : Store := MkStore [] 1 ∅ (MkLedger ∅ ∅) (MkCounters ∅ ∅ ∅) ∅ ∅ ∅ ∅.

(** ** Sort keys *)

(** The identifier Redis writes for an entry. *)
Definition entry_id (i : Z * Z) : string := itoa i.1 +:+ String "-"%char (itoa i.2).

Definition in_u64_pair (i : Z * Z) : Prop := 0 <= i.1 < 2 ^ 64 /\ 0 <= i.2 < 2 ^ 64.

Definition entry_compare (a b : Z * Z) : comparison :=
  match a.1 ?= b.1 with Eq => a.2 ?= b.2 | r => r end.

Lemma compare_digit n m acc acc' : 0 <= n < 10 -> 0 <= m < 10 ->
  String.compare (String (chr (48 + n)) acc) (String (chr (48 + m)) acc') =
  match n ?= m with Eq => String.compare acc acc' | r => r end.
Proof. intros Hn Hm. rewrite str_compare_cons, !code_chr by lia. by rewrite Z.add_compare_mono_l. Qed.

Lemma compare_pad k n m acc acc' : 0 <= n < 10 ^ Z.of_nat k -> 0 <= m < 10 ^ Z.of_nat k ->
  String.compare (pad_go k n acc) (pad_go k m acc') = match n ?= m with Eq => String.compare acc acc' | r => r end.
Proof.
  revert n m acc acc'. induction k as [|k IH]; intros n m acc acc'; cbn [pad_go].
  { intros Hn Hm. change (10 ^ Z.of_nat 0) with 1 in *. assert (n = 0 /\ m = 0) as [-> ->] by lia. done. }
  rewrite Nat2Z.inj_succ, Z.pow_succ_r by lia. intros Hn Hm.
  pose proof (Z.div_mod n 10). pose proof (Z.div_mod m 10).
  pose proof (Z.mod_pos_bound n 10). pose proof (Z.mod_pos_bound m 10).
  rewrite IH by (split; [apply Z.div_pos; lia|apply Z.div_lt_upper_bound; lia]). rewrite compare_digit by lia.
  destruct (Z.compare_spec (n / 10) (m / 10)), (Z.compare_spec (n mod 10) (m mod 10)), (Z.compare_spec n m); try done; lia.
Qed.

Lemma itoa_no_dash z : 0 <= z -> index_byte "-"%char (itoa z) = None.
Proof.
  intros Hz. apply index_byte_None. eapply Forall_impl; [by apply itoa_digits|]. by intros c Hc ->.
Qed.

Lemma ParseUint_itoa z : 0 <= z < 2 ^ 64 -> ParseUint (itoa z) = Some z.
Proof.
  intros Hz. unfold ParseUint. destruct (itoa z) as [|c r] eqn:E; [by destruct (itoa_nonempty z ltac:(lia))|]. rewrite <- E.
  unfold itoa. rewrite (proj2 (Z.ltb_ge z 0)) by lia. rewrite digits_val_itoa_go by lia. cbn [digits_val].
  by rewrite (proj2 (Z.ltb_lt _ _)) by lia.
Qed.

Lemma sort_id_entry i : in_u64_pair i ->
  ProxyStatisticEventSortID (entry_id i) = pad_go 20 i.1 (String "-"%char (pad_go 20 i.2 "")).
Proof.
  intros [H1 H2]. unfold ProxyStatisticEventSortID, entry_id.
  rewrite split_byte_app by (apply itoa_no_dash; lia). rewrite split_byte_None by (apply itoa_no_dash; lia).
  by rewrite !ParseUint_itoa.
Qed.

(** Sort keys compare as the identifiers do. *)
Lemma sort_id_compare a b : in_u64_pair a -> in_u64_pair b ->
  String.compare (ProxyStatisticEventSortID (entry_id a)) (ProxyStatisticEventSortID (entry_id b)) = entry_compare a b.
Proof.
  intros Ha Hb. rewrite !sort_id_entry by done. destruct Ha, Hb. unfold entry_compare.
  rewrite compare_pad by lia. destruct (a.1 ?= b.1); [|done..]. rewrite str_compare_cons, Z.compare_refl.
  rewrite compare_pad by lia. by destruct (a.2 ?= b.2).
Qed.

(** ** Settled events *)

(** In the ledger, or below the floor. *)
Definition settled (l : Ledger) (k : eventKey) : Prop :=
  is_Some (events l !! k) \/
  (ProxyStatisticEventSortID k.2 <> "" /\
   exists floor, floors l !! k.1 = Some floor /\ String.ltb (ProxyStatisticEventSortID k.2) floor = true).

#[export] Instance settled_dec l k : Decision (settled l k).
Proof.
  unfold settled. refine (or_dec _ _). refine (and_dec _ _). destruct (floors l !! k.1) as [floor|].
  - destruct (String.ltb (ProxyStatisticEventSortID k.2) floor) eqn:E; [left; by exists floor|right].
    intros (f & [= <-] & Hf). congruence.
  - right. by intros (f & ? & _).
Defined.

Definition ledger_wf (l : Ledger) : Prop :=
  forall k sort_id, events l !! k = Some sort_id -> sort_id = ProxyStatisticEventSortID k.2.

(** [l'] settles whatever [l] does and is as well formed. *)
Definition extends (l l' : Ledger) : Prop := (forall k, settled l k -> settled l' k) /\ (ledger_wf l -> ledger_wf l').

#[export] Instance extends_preorder : PreOrder extends.
Proof. split; [by split|]. intros a b c [H1 H2] [H3 H4]. split; auto. Qed.

Lemma ledger_insert_unsettled l k : ledger_insert l k = true -> ~ settled l k.
Proof.
  unfold ledger_insert, settled. destruct (floors l !! k.1) as [floor|]; [|done]. intros [Hf He]%andb_true_iff.
  apply bool_decide_eq_true in He. rewrite He. intros [[? ?]|(Hne & floor' & [= <-] & Hlt)]; [done|].
  apply orb_true_iff in Hf as [Hf|Hf]; [by apply String.eqb_eq in Hf|].
  rewrite str_leb_ltb in Hf. by rewrite Hlt in Hf.
Qed.

Lemma insert_event_extends acc k : extends acc.1 (insert_event acc k).1.
Proof.
  unfold insert_event. destruct (ledger_insert acc.1 k); [|done]. split.
  - intros k' [[v Hv]|Hf]; [left|by right]. cbn. destruct (decide (k = k')) as [->|Hne].
    + rewrite lookup_insert_eq. by eexists.
    + rewrite lookup_insert_ne by done. by eexists.
  - intros Hw k' v. cbn. destruct (decide (k = k')) as [->|Hne].
    + rewrite lookup_insert_eq. by intros [= <-].
    + rewrite lookup_insert_ne by done. apply Hw.
Qed.

(** What a run of inserts, started on [l0], has accepted: what is settled since. *)
Record inserted (l0 : Ledger) (acc : Ledger * gset eventKey) : Prop := {
  inserted_extends : extends l0 acc.1;
  inserted_fresh k : k ∈ acc.2 -> ~ settled l0 k /\ settled acc.1 k;
  inserted_only k : settled acc.1 k -> settled l0 k \/ k ∈ acc.2;
  inserted_events k : is_Some (events acc.1 !! k) -> is_Some (events l0 !! k) \/ k ∈ acc.2
}.

Lemma inserted_nothing l : inserted l (l, ∅).
Proof. split; [done|set_solver|by left|by left]. Qed.

Lemma insert_event_inserted l0 acc k : inserted l0 acc -> inserted l0 (insert_event acc k).
Proof.
  intros [He Hf Ho Hv]. pose proof (insert_event_extends acc k) as Hk. split; [by etransitivity| | |];
    unfold insert_event in *; (destruct (ledger_insert acc.1 k) eqn:E; [|by auto]); intros k' Hin; cbn in Hin.
  - apply elem_of_union in Hin as [->%elem_of_singleton|Hin].
    + split; [|left; cbn; rewrite lookup_insert_eq; by eexists].
      intros Hs. apply (ledger_insert_unsettled _ _ E). by apply He.
    + destruct (Hf k' Hin) as [? ?]. split; [done|]. by apply Hk.
  - cbn. destruct (decide (k = k')) as [->|Hne]; [right; set_solver|].
    enough (settled l0 k' \/ k' ∈ acc.2) as [?|?]; [by left|right; set_solver|].
    apply Ho. destruct Hin as [Hin|Hin]; [left|by right]. cbn in Hin. by rewrite lookup_insert_ne in Hin.
  - cbn. destruct (decide (k = k')) as [->|Hne]; [right; set_solver|]. rewrite lookup_insert_ne in Hin by done.
    apply Hv in Hin as [?|?]; [by left|right; set_solver].
Qed.

Lemma insert_events_inserted keys l0 acc : inserted l0 acc -> inserted l0 (fold_left insert_event keys acc).
Proof. revert acc. induction keys as [|k keys IH]; intros acc Ha; cbn; [done|]. by apply IH, insert_event_inserted. Qed.

Lemma inserted_keys keys acc k : k ∈ (fold_left insert_event keys acc).2 -> k ∈ keys \/ k ∈ acc.2.
Proof.
  revert acc. induction keys as [|k0 keys IH]; intros acc; cbn; [by right|]. intros [Hk|Hk]%IH.
  - left. by apply list_elem_of_further.
  - unfold insert_event in Hk. destruct (ledger_insert acc.1 k0); [|by right]. cbn in Hk.
    apply elem_of_union in Hk as [->%elem_of_singleton|Hk]; [left; apply list_elem_of_here|by right].
Qed.

(** After the inserts every key with a floor is settled. *)
Lemma insert_event_settles acc k : is_Some (floors acc.1 !! k.1) -> settled (insert_event acc k).1 k.
Proof.
  intros [floor Hf]. unfold insert_event. destruct (ledger_insert acc.1 k) eqn:E.
  - left. cbn. rewrite lookup_insert_eq. by eexists.
  - unfold ledger_insert in E. rewrite Hf in E. apply andb_false_iff in E as [E|E].
    + apply orb_false_iff in E as [E1 E2]. right. split; [by apply String.eqb_neq|]. exists floor. split; [done|].
      rewrite str_leb_ltb in E2. by apply negb_false_iff in E2.
    + apply bool_decide_eq_false in E. left. by destruct (events acc.1 !! k).
Qed.

Lemma insert_event_floors acc k : floors (insert_event acc k).1 = floors acc.1.
Proof. unfold insert_event. by destruct (ledger_insert acc.1 k). Qed.

Lemma insert_events_floors keys acc : floors (fold_left insert_event keys acc).1 = floors acc.1.
Proof. revert acc. induction keys as [|k keys IH]; intros acc; cbn; [done|]. by rewrite IH, insert_event_floors. Qed.

Lemma insert_events_settle keys acc : (forall k, k ∈ keys -> is_Some (floors acc.1 !! k.1)) ->
  extends acc.1 (fold_left insert_event keys acc).1 /\
  forall k, k ∈ keys -> settled (fold_left insert_event keys acc).1 k.
Proof.
  revert acc. induction keys as [|k keys IH]; intros acc Hf; cbn [fold_left].
  { split; [done|]. intros k Hk. by apply not_elem_of_nil in Hk. }
  destruct (IH (insert_event acc k)) as [H1 H2].
  { intros k' Hk'. rewrite insert_event_floors. by apply Hf, list_elem_of_further. }
  split; [etransitivity; [apply insert_event_extends|done]|].
  intros k' [->|Hk']%elem_of_cons; [|by apply H2]. apply H1, insert_event_settles, Hf, list_elem_of_here.
Qed.

(** ** Accepting a batch *)

Lemma take_accepted_sublist ks l : take_accepted ks l `sublist_of` l.
Proof.
  revert ks. induction l as [|s l IH]; intros ks; cbn; [done|].
  destruct (has_event s); [destruct (decide _)|]; by constructor.
Qed.

Lemma take_accepted_keys ks l s : s ∈ take_accepted ks l -> has_event s = true -> event_key s ∈ ks.
Proof.
  revert ks. induction l as [|s' l IH]; intros ks; cbn; [set_solver|].
  destruct (has_event s') eqn:E; [destruct (decide _)|]; rewrite ?elem_of_cons; intros Hs He.
  - destruct Hs as [->|Hs]; [done|]. specialize (IH _ Hs He). set_solver.
  - by apply IH.
  - destruct Hs as [->|Hs]; [congruence|]. by apply IH.
Qed.

(** The identities in a list of results. *)
Definition identities (l : list ProxyStatistic) : list eventKey := map event_key (List.filter has_event l).

Lemma elem_of_identities k l : k ∈ identities l <-> exists s, s ∈ l /\ has_event s = true /\ event_key s = k.
Proof.
  unfold identities. rewrite list_elem_of_In, in_map_iff. setoid_rewrite filter_In. setoid_rewrite list_elem_of_In. naive_solver.
Qed.

Lemma identities_app l l' : identities (l ++ l') = identities l ++ identities l'.
Proof. unfold identities. by rewrite List.filter_app, map_app. Qed.

Lemma take_accepted_NoDup ks l : NoDup (identities (take_accepted ks l)).
Proof.
  revert ks. induction l as [|s l IH]; intros ks; cbn; [constructor|].
  destruct (has_event s) eqn:E; [destruct (decide _)|].
  - unfold identities. cbn. rewrite E. cbn. constructor; [|apply IH].
    intros (s' & Hs' & He & Hk)%elem_of_identities. apply take_accepted_keys in Hs'; [|done].
    apply elem_of_difference in Hs' as [_ Hs']. by apply Hs', elem_of_singleton.
  - apply IH.
  - unfold identities. cbn. rewrite E. apply IH.
Qed.

Lemma take_accepted_complete ks l k : k ∈ identities l -> k ∈ ks -> k ∈ identities (take_accepted ks l).
Proof.
  unfold identities. revert ks. induction l as [|s l IH]; intros ks; [done|]. cbn.
  destruct (has_event s) eqn:E; [|cbn; rewrite E; apply IH]. cbn.
  intros Hk Hks. destruct (decide (event_key s ∈ ks)) as [Hin|Hin]; cbn; rewrite ?E; cbn.
  - destruct (decide (event_key s = k)) as [<-|Hne]; [apply list_elem_of_here|]. apply list_elem_of_further, IH; [|set_solver].
    apply elem_of_cons in Hk as [->|Hk]; done.
  - apply elem_of_cons in Hk as [->|Hk]; [done|]. by apply IH.
Qed.

Lemma take_accepted_plain ks l :
  List.filter (fun s => negb (has_event s)) (take_accepted ks l) = List.filter (fun s => negb (has_event s)) l.
Proof.
  revert ks. induction l as [|s l IH]; intros ks; cbn; [done|].
  destruct (has_event s) eqn:E; [destruct (decide _)|]; cbn; rewrite ?E; cbn; by rewrite IH.
Qed.

(** What accepting does, in terms of what is settled. *)
Record accepts (stats : list ProxyStatistic) (l : Ledger) (accepted : list ProxyStatistic) (l' : Ledger) : Prop := {
  accepts_sublist : accepted `sublist_of` stats;
  accepts_once : NoDup (identities accepted);
  accepts_extends : extends l l';
  accepts_new k : k ∈ identities accepted -> ~ settled l k;
  accepts_settles k : k ∈ identities stats -> settled l' k;
  accepts_all k : k ∈ identities stats -> ~ settled l k -> k ∈ identities accepted;
  accepts_only k : settled l' k -> settled l k \/ k ∈ identities stats;
  accepts_floors s f : floors l' !! s = Some f -> floors l !! s = Some f \/ f = "";
  accepts_events k : is_Some (events l' !! k) -> is_Some (events l !! k) \/ k ∈ identities accepted;
  accepts_plain : List.filter (fun s => negb (has_event s)) accepted = List.filter (fun s => negb (has_event s)) stats
}.

Definition open_floor (f : gmap string string) (k : eventKey) : gmap string string :=
  match f !! k.1 with Some _ => f | None => <[k.1 := ""]> f end.

Lemma open_floors_spec keys f :
  (forall s floor, fold_left open_floor keys f !! s = Some floor -> f !! s = Some floor \/ (f !! s = None /\ floor = "")) /\
  (forall s floor, f !! s = Some floor -> fold_left open_floor keys f !! s = Some floor) /\
  (forall k, k ∈ keys -> is_Some (fold_left open_floor keys f !! k.1)).
Proof.
  revert f. induction keys as [|k keys IH]; intros f; cbn [fold_left]; [by split_and!; [left| |intros k ?%not_elem_of_nil]|].
  destruct (IH (open_floor f k)) as (H1 & H2 & H3). unfold open_floor in *. destruct (f !! k.1) as [v|] eqn:E.
  - split_and!; [done..|]. intros k' [->|Hk']%elem_of_cons; [|by apply H3]. rewrite (H2 _ _ E). by eexists.
  - split_and!.
    + intros s floor [Hs|[Hs ->]]%H1; destruct (decide (k.1 = s)) as [<-|Hne].
      * rewrite lookup_insert_eq in Hs. injection Hs as <-. by right.
      * rewrite lookup_insert_ne in Hs by done. by left.
      * by rewrite lookup_insert_eq in Hs.
      * rewrite lookup_insert_ne in Hs by done. by right.
    + intros s floor Hs. apply H2. rewrite lookup_insert_ne; [done|]. intros <-. congruence.
    + intros k' [->|Hk']%elem_of_cons; [|by apply H3]. exists "". apply H2. by rewrite lookup_insert_eq.
Qed.

Lemma opened_settled l keys k : settled (MkLedger (events l) (fold_left open_floor keys (floors l))) k <-> settled l k.
Proof.
  destruct (open_floors_spec keys (floors l)) as (H1 & H2 & _). unfold settled. cbn. split.
  - intros [H|(Hne & floor & Hf & Hlt)]; [by left|]. right. split; [done|]. exists floor. split; [|done].
    destruct (H1 _ _ Hf) as [?|[_ ->]]; [done|]. by rewrite str_ltb_nil in Hlt.
  - intros [H|(Hne & floor & Hf & Hlt)]; [by left|]. right. split; [done|]. exists floor. auto.
Qed.

Lemma accept_spec stats l : let '(accepted, l') := acceptProxyStatisticEvents stats l in accepts stats l accepted l'.
Proof.
  unfold acceptProxyStatisticEvents. fold (identities stats).
  pose proof (elem_of_dedup_go (identities stats) []) as Hd.
  destruct (dedup_go [] (identities stats)) as [|k0 keys] eqn:Ek.
  { assert (forall k, k ∉ identities stats) as Hn.
    { intros k Hk. apply (not_elem_of_nil k), Hd. split; [done|apply not_elem_of_nil]. }
    assert (identities stats = []) as He by (destruct (identities stats); [done|exfalso; eapply Hn, list_elem_of_here]).
    split; rewrite ?He; [done|constructor|done|..|by left|by left|by left|done]; by intros k Hk%not_elem_of_nil. }
  cbv zeta. set (incoming := merge_sort (rel_of key_leb) (k0 :: keys)). change (fun f k => match f !! k.1 with Some _ => f | None => _ end) with open_floor.
  rewrite fold_left_batches by lia. set (opened := MkLedger _ _).
  assert (forall k, k ∈ incoming <-> k ∈ identities stats) as Hin.
  { intros k. unfold incoming. rewrite merge_sort_Permutation, Hd. split; [by intros []|]. split; [done|apply not_elem_of_nil]. }
  pose proof (insert_events_inserted incoming opened _ (inserted_nothing opened)) as [He Hf Ho Hv].
  destruct (insert_events_settle incoming (opened, ∅)) as [_ Hs].
  { intros k Hk. cbn. by apply open_floors_spec. }
  pose proof (insert_events_floors incoming (opened, ∅)) as Hfl.
  assert (forall k, k ∈ (fold_left insert_event incoming (opened, ∅)).2 -> k ∈ incoming) as Hi.
  { intros k Hk. by apply inserted_keys in Hk as [?|?%not_elem_of_empty]. }
  destruct (fold_left insert_event incoming (opened, ∅)) as [l' ks]. cbn in *.
  assert (forall k, settled opened k <-> settled l k) as Hos by (intros k; apply opened_settled).
  split.
  - apply take_accepted_sublist.
  - apply take_accepted_NoDup.
  - split; [intros k Hk; by apply He, Hos|]. intros Hw. apply He. exact Hw.
  - intros k (s & Hs' & Hev & <-)%elem_of_identities. rewrite <- Hos. by eapply Hf, take_accepted_keys.
  - intros k Hk. by apply Hs, Hin.
  - intros k Hk Hn. apply take_accepted_complete; [done|]. rewrite <- Hos in Hn.
    destruct (Ho k) as [?|?]; [by apply Hs, Hin|done|done].
  - intros k [Hk|Hk]%Ho; [by left; apply Hos|]. right. by apply Hin, Hi.
  - intros s f. rewrite Hfl. intros Hsf. destruct (open_floors_spec incoming (floors l)) as (H1 & _). apply H1 in Hsf as [?|[_ ?]]; auto.
  - intros k [Hk|Hk]%Hv; [by left|right]. apply take_accepted_complete; [by apply Hin, Hi|done].
  - apply take_accepted_plain.
Qed.
(** ** Inserting and retiring *)

Lemma create_rows_spec now rts stats h n rows h' n' : create_rows now rts stats h n = Some (rows, h', n') ->
  h' = h ++ rows /\ n <= n' /\ Forall2 (fun s r => exists id, r = with_id id now s) stats rows /\
  Forall (fun r => ProxyID r ∈ rts) rows.
Proof.
  revert h n rows h' n'. induction stats as [|s stats IH]; intros h n rows h' n'; cbn [create_rows].
  { intros [= <- <- <-]. rewrite app_nil_r. by split_and!. }
  cbv zeta. destruct (bool_decide (ProxyID s ∉ rts) || _) eqn:Eb; [done|]. apply orb_false_iff in Eb as [Eb _].
  apply bool_decide_eq_false in Eb. apply dec_stable in Eb.
  destruct (create_rows _ _ _ _ _) as [[[rows0 h0] n0]|] eqn:E; [|done]. intros [= <- <- <-].
  destruct (IH _ _ _ _ _ E) as (-> & Hn & Hr & Hf). rewrite <- app_assoc. split_and!; [done| |constructor; [by eexists|done]|by constructor].
  destruct (StatID s =? 0); lia.
Qed.

Lemma identities_rows now stats rows : Forall2 (fun s r => exists id, r = with_id id now s) stats rows ->
  identities rows = identities stats.
Proof.
  unfold identities. induction 1 as [|s r stats rows [id ->] _ IH]; [done|]. cbn.
  change (has_event (with_id id now s)) with (has_event s). destruct (has_event s); cbn; by rewrite IH.
Qed.

(** The ledger and the history after a committed insert. *)
Lemma insert_spec now stats st st' : InsertProxyStatistics now stats st = Some st' ->
  exists accepted rows, accepts stats (ledger st) accepted (ledger st') /\ history st' = history st ++ rows /\
    Forall2 (fun s r => exists id, r = with_id id now s) accepted rows.
Proof.
  unfold InsertProxyStatistics. destruct stats as [|s0 stats].
  { intros [= <-]. exists [], []. rewrite app_nil_r. split_and!; [|done|constructor].
    exact (accept_spec [] (ledger st)). }
  pose proof (accept_spec (s0 :: stats) (ledger st)) as Ha. destruct (acceptProxyStatisticEvents _ _) as [accepted l].
  destruct accepted as [|a accepted].
  { intros [= <-]. exists [], []. cbn. rewrite app_nil_r. split_and!; [done..|constructor]. }
  unfold record_accepted. destruct (create_rows _ _ _ _ _) as [[[rows h] n]|] eqn:E; [|done].
  intros [= <-]. destruct (create_rows_spec _ _ _ _ _ _ _ _ E) as (-> & _ & Hr & _).
  exists (a :: accepted), rows. unfold record_derived. cbv zeta. by destruct (latestProxyStatusEntries now rows).
Qed.

Lemma lookup_delete_all {V} (ks : list (eventKey * string)) (m : gmap eventKey V) k :
  fold_right (fun e m => delete e.1 m) m ks !! k = if decide (k ∈ ks.*1) then None else m !! k.
Proof.
  induction ks as [|[k0 v] ks IH]; [done|]. cbn [fold_right fmap list_fmap fst].
  destruct (decide (k0 = k)) as [->|Hne]; [rewrite lookup_delete_eq|rewrite lookup_delete_ne, IH by done].
  - by rewrite decide_True by apply list_elem_of_here.
  - destruct (decide (k ∈ ks.*1)); [by rewrite decide_True by by apply list_elem_of_further|].
    rewrite decide_False; [done|]. by intros [->|?]%elem_of_cons.
Qed.

Lemma elem_of_retirable stream floor l k v : (k, v) ∈ retirable stream floor l ->
  events l !! k = Some v /\ k.1 = stream /\ v <> "" /\ String.ltb v floor = true.
Proof.
  unfold retirable. rewrite merge_sort_Permutation, list_elem_of_In, filter_In, <- list_elem_of_In, elem_of_map_to_list.
  intros [Hl Hb]. apply andb_true_iff in Hb as [[Hs Hv]%andb_true_iff Hlt]. apply String.eqb_eq in Hs.
  apply negb_true_iff, String.eqb_neq in Hv. done.
Qed.

Lemma retire_extends stream before limit l n l' : ledger_wf l ->
  RetireProxyStatisticEvents stream before limit l = Some (n, l') ->
  extends l l' /\ (forall k, is_Some (events l' !! k) -> is_Some (events l !! k)).
Proof.
  unfold RetireProxyStatisticEvents. intros Hw. destruct (String.eqb _ ""); [done|]. intros [= <- <-].
  set (floor := match floors l !! stream with Some f => _ | None => _ end). set (gone := take _ _).
  assert (forall k v, (k, v) ∈ gone -> events l !! k = Some v /\ k.1 = stream /\ v <> "" /\ String.ltb v floor = true) as Hg.
  { intros k v Hk. apply elem_of_retirable. eapply elem_of_submseteq; [exact Hk|]. apply sublist_submseteq, sublist_take. }
  split; [split|]; cbn.
  - intros k [[v Hv]|(Hne & f & Hf & Hlt)].
    + unfold settled. cbn. rewrite lookup_delete_all. destruct (decide (k ∈ gone.*1)) as [Hk|_]; [|left; rewrite Hv; by eexists].
      right. apply list_elem_of_fmap in Hk as ([k' v'] & -> & Hk). destruct (Hg _ _ Hk) as (Hl & <- & Hv' & Hlt).
      cbn in *. rewrite (Hw _ _ Hl) in *. split; [done|]. exists floor. by rewrite lookup_insert_eq.
    + right. split; [done|]. cbn. destruct (decide (k.1 = stream)) as [He|Hne'].
      * exists floor. rewrite He, lookup_insert_eq. split; [done|]. unfold floor. rewrite <- He, Hf.
        destruct (String.ltb f _) eqn:E; [|done]. by eapply str_ltb_trans.
      * exists f. by rewrite lookup_insert_ne.
  - intros _ k v. cbn. rewrite lookup_delete_all. destruct (decide _); [done|apply Hw].
  - intros k. rewrite lookup_delete_all. destruct (decide _); [by intros [? ?]|done].
Qed.

(** ** Every sequence of transactions *)

Definition below_floor (l : Ledger) (k : eventKey) : Prop :=
  exists floor, floors l !! k.1 = Some floor /\ String.ltb (ProxyStatisticEventSortID k.2) floor = true.

Record log_wf (log : list ProxyStatistic) (l : Ledger) : Prop := {
  log_ledger : ledger_wf l;
  log_once : NoDup (identities log);
  log_settled k : k ∈ identities log -> settled l k;
  log_complete k : is_Some (events l !! k) -> k ∈ identities log
}.

Lemma log_wf_insert log now stats st st' : log_wf log (ledger st) -> InsertProxyStatistics now stats st = Some st' ->
  let log' := log ++ drop (length (history st)) (history st') in
  log_wf log' (ledger st') /\ forall k, k ∈ identities stats -> k ∈ identities log' \/ below_floor (ledger st) k.
Proof.
  intros [Hw Hn Hs Hc] Hi. cbv zeta. destruct (insert_spec _ _ _ _ Hi) as (accepted & rows & Ha & -> & Hr).
  rewrite drop_app_length, identities_app, (identities_rows _ _ _ Hr).
  assert (forall k, settled (ledger st) k -> k ∈ identities log \/ below_floor (ledger st) k) as Hsl.
  { intros k [He|(_ & f & Hf)]; [left; by apply Hc|right; by exists f]. }
  split; [split|].
  - by apply (accepts_extends _ _ _ _ Ha).
  - rewrite identities_app, (identities_rows _ _ _ Hr). apply NoDup_app. split_and!; [done| |by eapply accepts_once].
    intros k Hk Hk'. eapply accepts_new; [done..|]. by apply Hs.
  - intros k. rewrite identities_app, (identities_rows _ _ _ Hr), elem_of_app. intros [Hk|Hk].
    + by apply (accepts_extends _ _ _ _ Ha), Hs.
    + apply (accepts_settles _ _ _ _ Ha). apply elem_of_identities in Hk as (s & Hs' & Hev & Hk).
      apply elem_of_identities. exists s. split; [|done].
      eapply elem_of_submseteq; [done|]. by eapply sublist_submseteq, accepts_sublist.
  - intros k Hk. rewrite identities_app, (identities_rows _ _ _ Hr), elem_of_app.
    destruct (accepts_events _ _ _ _ Ha _ Hk) as [?|?]; [by left; apply Hc|by right].
  - intros k Hk. rewrite elem_of_app. destruct (decide (k ∈ identities accepted)) as [|Hn']; [by left; right|].
    destruct (decide (settled (ledger st) k)) as [[?|?]%Hsl|Hns]; [by left; left|by right|].
    by destruct Hn'; apply (accepts_all _ _ _ _ Ha).
Qed.
Lemma log_wf_step cut log st log' st' : store_step cut (log, st) (log', st') -> log_wf log (ledger st) -> log_wf log' (ledger st').
Proof.
  intros Hs Hw. inversion Hs; subst; clear Hs; try done.
  - by eapply log_wf_insert.
  - destruct Hw as [Hl Hn Hs Hc]. rename select (RetireProxyStatisticEvents _ _ _ _ = _) into Hr.
    destruct (retire_extends _ _ _ _ _ _ Hl Hr) as [[He Hwf] Hev]. split; cbn; auto.
  - unfold ensureProxyDailyChecksBackfilled. by destruct (loadWorkspaceProxyIDsMissingBackfill _ _).
  - by destruct (pruned_page tables cursor limit st) as (gone & -> & _).
Qed.

(** In every sequence of transactions on the tables - results inserted in any
    batches, with any repetitions, the ledger retired up to any floors, rows and
    routes deleted - an event of a stream is recorded at most once; and an event
    in a batch that commits has been recorded by then, unless it lies below the
    stream's replay floor. *)
Theorem events_recorded_once cut log st :
  rtc (store_step cut) ([], empty_store) (log, st) ->
  NoDup (identities log) /\
  forall now stats st', InsertProxyStatistics now stats st = Some st' ->
    forall k, k ∈ identities stats ->
      k ∈ identities (log ++ drop (length (history st)) (history st')) \/ below_floor (ledger st) k.
Proof.
  intros Hr. assert (log_wf log (ledger st)) as Hw.
  { refine (rtc_ind_r (fun s => log_wf s.1 (ledger s.2)) _ _ _ _ Hr).
    - split; [by intros k v|constructor|by intros k ?%not_elem_of_nil|by intros k [? ?]].
    - intros [log0 st0] [log' st'] _ Hs Hw. by eapply log_wf_step. }
  split; [by eapply log_once|]. intros now stats st' Hi. by eapply log_wf_insert.
Qed.

(** A batch with a repetition, the same batch again, a retirement, and the batch once more. *)
Definition sample_stat : ProxyStatistic := MkStat 0 true 0 12 "tcp" [] 1 None 5 1 [] "s" "7-0" (Some 0).

Definition sample_batch : list ProxyStatistic := [sample_stat; sample_stat].

Definition opened_store : Store := add_route 5 empty_store.

Definition once_inserted : Store := default empty_store (InsertProxyStatistics 0 sample_batch opened_store).

Lemma events_recorded_once_witness :
  rtc (store_step 0) ([], empty_store) ([with_id 1 0 sample_stat], once_inserted) /\
  NoDup (identities [with_id 1 0 sample_stat]) /\
  option_map (fun st => length (history st)) (InsertProxyStatistics 1 sample_batch once_inserted) = Some 1%nat.
Proof.
  assert (rtc (store_step 0) ([], empty_store) ([with_id 1 0 sample_stat], once_inserted)) as Hr.
  { eapply rtc_l; [apply (step_add_route 0 5); [lia|apply not_elem_of_nil]|].
    apply (rtc_once (R := store_step 0) ([], opened_store)).
    apply (step_insert 0 0 sample_batch [] opened_store once_inserted). vm_compute. reflexivity. }
  split; [exact Hr|]. split; [exact (proj1 (events_recorded_once _ _ _ Hr))|]. vm_compute. reflexivity.
Defined.

End StatLedger.
