(* ===== verification/DailyChecks.v ===== *)
(** * The counters of checks add up

    Every recorded result is counted once per route, in a daily counter or,
    after the day is folded, in the route's total, for every sequence of the
    transactions of StatLedger.v: backfills of the counters from the history
    never count a row again, folding a day keeps the sum.  The dashboard's
    figures are those counts. *)

From S2P Require Import Prelude GoStrings Usage StatStore StatLedger.
From stdpp Require Import sorting.
Open Scope Z_scope.

Module DailyChecks.
Import StatStore StatLedger.

(** ** Counting rows *)

Definition of_route (p : Z) (s : ProxyStatistic) : bool := ProxyID s =? p.

Definition on_day (p d : Z) (s : ProxyStatistic) : bool :=
  of_route p s && match CreatedAt s with Some t => startOfUTCDay t =? d | None => false end.

Definition dated (s : ProxyStatistic) : Prop := is_Some (CreatedAt s).

Lemma count_rows_cons f s l : count_rows f (s :: l) = (if f s then 1 else 0) + count_rows f l.
Proof. unfold count_rows. cbn. destruct (f s); cbn [length]; lia. Qed.

Lemma count_rows_app f l l' : count_rows f (l ++ l') = count_rows f l + count_rows f l'.
Proof. unfold count_rows. rewrite List.filter_app, length_app. lia. Qed.

Lemma count_rows_nonneg f l : 0 <= count_rows f l.
Proof. unfold count_rows. lia. Qed.

Lemma count_rows_le f g l : (forall s, s ∈ l -> f s = true -> g s = true) -> count_rows f l <= count_rows g l.
Proof.
  induction l as [|s l IH]; intros Hfg; [done|]. rewrite !count_rows_cons.
  assert (count_rows f l <= count_rows g l) by by apply IH; intros s' Hs; apply Hfg, list_elem_of_further.
  pose proof (Hfg s (list_elem_of_here _ _)). destruct (f s); [rewrite (H0 eq_refl); lia|destruct (g s); lia].
Qed.

Lemma count_rows_ext f g l : (forall s, s ∈ l -> f s = g s) -> count_rows f l = count_rows g l.
Proof.
  intros Hfg. apply Z.le_antisymm; apply count_rows_le; intros s Hs; rewrite Hfg by done; done.
Qed.

Lemma count_rows_filter f g l : count_rows f (List.filter g l) = count_rows (fun s => f s && g s) l.
Proof.
  induction l as [|s l IH]; [done|]. cbn [List.filter]. rewrite count_rows_cons.
  destruct (g s); rewrite ?count_rows_cons, IH; destruct (f s); cbn; lia.
Qed.

Lemma count_rows_zero f l : (forall s, s ∈ l -> f s = false) -> count_rows f l = 0.
Proof.
  intros Hf. induction l as [|s l IH]; [done|]. rewrite count_rows_cons, (Hf s) by apply list_elem_of_here.
  rewrite IH; [done|]. intros s' Hs. by apply Hf, list_elem_of_further.
Qed.

Lemma count_rows_pos f l s : s ∈ l -> f s = true -> 0 < count_rows f l.
Proof.
  intros Hs Hf. unfold count_rows. assert (s ∈ List.filter f l) as Hin.
  { apply list_elem_of_In, filter_In. by rewrite <- list_elem_of_In. }
  destruct (List.filter f l); [by apply not_elem_of_nil in Hin|]. cbn. lia.
Qed.

Lemma startOfUTCDay_le t : startOfUTCDay t <= t < startOfUTCDay t + Day.
Proof. unfold startOfUTCDay. pose proof (Z.div_mod t Day). pose proof (Z.mod_pos_bound t Day eq_refl). lia. Qed.

Lemma startOfUTCDay_aligned t : startOfUTCDay t mod Day = 0.
Proof. apply Z.mod_mul. done. Qed.

Lemma aligned_le d t : d mod Day = 0 -> d <= t <-> d <= startOfUTCDay t.
Proof.
  intros Hd. pose proof (startOfUTCDay_le t). split; [|lia]. intros Hle. unfold startOfUTCDay in *.
  apply Z.mod_divide in Hd as [z ->]; [|done]. apply Z.mul_le_mono_nonneg_r; [done|]. by apply Z.div_le_lower_bound; [done|lia].
Qed.

(** ** Aggregates *)

Lemma lookup_increment (m : gmap (Z * Z) Z) k k' :
  default 0 (<[k := default 0 (m !! k) + 1]> m !! k') = default 0 (m !! k') + if bool_decide (k = k') then 1 else 0.
Proof. case_bool_decide; [subst; by rewrite lookup_insert_eq|rewrite lookup_insert_ne by done; lia]. Qed.

Definition counts_day (now : Z) (k : Z * Z) (s : ProxyStatistic) : bool :=
  negb (ProxyID s =? 0) && bool_decide ((ProxyID s, startOfUTCDay (checked_at now s)) = k).

Lemma aggregate_lookup now l k : default 0 (aggregate_daily now l !! k) = count_rows (counts_day now k) l.
Proof.
  unfold aggregate_daily. set (f := fun m s => _). change (count_rows (counts_day now k) l) with (default 0 ((∅ : gmap (Z * Z) Z) !! k) + count_rows (counts_day now k) l).
  generalize (∅ : gmap (Z * Z) Z). induction l as [|s l IH]; intros m; cbn [fold_left]; [unfold count_rows; cbn; lia|].
  rewrite IH, count_rows_cons. unfold f, counts_day at 2. destruct (ProxyID s =? 0); cbn [negb andb]; [lia|].
  rewrite lookup_increment. case_bool_decide; lia.
Qed.

Lemma aggregate_positive now l k n : aggregate_daily now l !! k = Some n -> 0 < n.
Proof.
  unfold aggregate_daily. set (f := fun m s => _).
  enough (forall m : gmap (Z * Z) Z, (forall k n, m !! k = Some n -> 0 < n) -> forall k n, fold_left f l m !! k = Some n -> 0 < n) as Hm
    by by apply Hm.
  induction l as [|s l IH]; intros m Hm; cbn [fold_left]; [apply Hm|]. apply IH. unfold f.
  destruct (ProxyID s =? 0); [done|]. intros k' n' Hl. destruct (decide ((ProxyID s, startOfUTCDay (checked_at now s)) = k')) as [<-|Hne].
  - rewrite lookup_insert_eq in Hl. injection Hl as <-.
    destruct (m !! (ProxyID s, startOfUTCDay (checked_at now s))) as [v|] eqn:E; cbn; [apply Hm in E; lia|lia].
  - rewrite lookup_insert_ne in Hl by done. by eapply Hm.
Qed.

Lemma aggregate_key now l k n : aggregate_daily now l !! k = Some n ->
  k.2 mod Day = 0 /\ exists s, s ∈ l /\ ProxyID s = k.1 /\ startOfUTCDay (checked_at now s) = k.2.
Proof.
  intros Hk. pose proof (aggregate_positive _ _ _ _ Hk) as Hn. pose proof (aggregate_lookup now l k) as Hc. rewrite Hk in Hc. cbn in Hc.
  destruct (List.filter (counts_day now k) l) as [|s rest] eqn:E.
  { unfold count_rows in Hc. rewrite E in Hc. cbn in Hc. lia. }
  assert (s ∈ List.filter (counts_day now k) l) as Hs by (rewrite E; apply list_elem_of_here).
  rewrite list_elem_of_In, filter_In, <- list_elem_of_In in Hs. destruct Hs as [Hs Hb]. unfold counts_day in Hb.
  apply andb_true_iff in Hb as [_ Hb%bool_decide_eq_true]. subst k. cbn. split; [apply startOfUTCDay_aligned|by exists s].
Qed.

Lemma count_created now p d l : Forall dated l -> p <> 0 -> count_rows (counts_day now (p, d)) l = count_rows (on_day p d) l.
Proof.
  intros Hl Hp. apply count_rows_ext. intros s Hs. rewrite Forall_forall in Hl. destruct (Hl s Hs) as [t Ht].
  unfold counts_day, on_day, of_route, checked_at. rewrite Ht. cbn. destruct (ProxyID s =? p) eqn:E; breflect.
  - rewrite E. rewrite (proj2 (Z.eqb_neq p 0)) by done. cbn. case_bool_decide as Hk.
    + injection Hk as ->. by rewrite Z.eqb_refl.
    + symmetry. apply Z.eqb_neq. intros <-. done.
  - rewrite bool_decide_eq_false_2; [by rewrite andb_false_r|]. intros Hk. injection Hk. by intros _ ?.
Qed.

(** ** Sums of counters *)

Definition daily_sum (p : Z) (m : gmap (Z * Z) Z) : Z := map_sum (fun x => if x.1.1 =? p then x.2 else 0) m.

Definition total_of (p : Z) (c : Counters) : Z := match totals c !! p with Some t => TotalCount t | None => 0 end.

Lemma daily_sum_insert p m k v :
  daily_sum p (<[k := v]> m) = daily_sum p m + if k.1 =? p then v - default 0 (m !! k) else 0.
Proof. unfold daily_sum. rewrite map_sum_insert. cbn. destruct (m !! k); cbn; destruct (k.1 =? p); lia. Qed.

Lemma lookup_added (a b : gmap (Z * Z) Z) k :
  default 0 (union_with (fun n d => Some (n + d)) a b !! k) = default 0 (a !! k) + default 0 (b !! k).
Proof. rewrite lookup_union_with. destruct (a !! k), (b !! k); cbn; lia. Qed.

Lemma daily_sum_added (p : Z) (a b : gmap (Z * Z) Z) :
  daily_sum p (union_with (fun n d => Some (n + d)) a b) = daily_sum p a + daily_sum p b.
Proof.
  induction b as [|k v b Hk IH] using map_ind.
  - rewrite (right_id_L ∅ (union_with _)). unfold daily_sum at 3. rewrite map_sum_empty. lia.
  - assert (union_with (fun n d => Some (n + d)) a (<[k := v]> b) =
      <[k := default 0 (a !! k) + v]> (union_with (fun n d => Some (n + d)) a b)) as ->.
    { apply map_eq. intros k'. rewrite lookup_union_with. destruct (decide (k = k')) as [<-|Hne].
      - rewrite !lookup_insert_eq. by destruct (a !! k).
      - by rewrite !lookup_insert_ne, lookup_union_with. }
    rewrite !daily_sum_insert, IH, lookup_added, Hk. cbn. destruct (k.1 =? p); lia.
Qed.

Lemma daily_sum_aggregate now (p : Z) l : p <> 0 -> daily_sum p (aggregate_daily now l) = count_rows (of_route p) l.
Proof.
  intros Hp. unfold aggregate_daily. set (f := fun m s => _).
  change (count_rows (of_route p) l) with (daily_sum p ∅ + count_rows (of_route p) l).
  generalize (∅ : gmap (Z * Z) Z). induction l as [|s l IH]; intros m; cbn [fold_left]; [unfold count_rows; cbn; lia|].
  rewrite IH, count_rows_cons. unfold f, of_route at 2. destruct (ProxyID s =? 0) eqn:E; breflect.
  - rewrite E. rewrite (proj2 (Z.eqb_neq 0 p)) by done. lia.
  - rewrite daily_sum_insert. cbn. destruct (ProxyID s =? p); lia.
Qed.

(** ** The invariant *)

(** A result of the route from [cut] on. *)
Definition recent (cut p : Z) (s : ProxyStatistic) : bool :=
  of_route p s && match CreatedAt s with Some t => cut <=? t | None => false end.

(** The books of one route: what was recorded, [log], is counted once; no
    uncounted row is left for a backfill; nothing recent is gone. *)
Record route_books (cut : Z) (log h : list ProxyStatistic) (c : Counters) (p : Z) : Prop := {
  counted_once : daily_sum p (daily c) + total_of p c = count_rows (of_route p) log;
  covered d : (forall t, totals c !! p = Some t -> CompactedBefore t <= d) -> count_rows (on_day p d) h <= daily_count c p d;
  recent_days d : cut <= d -> daily_count c p d = count_rows (on_day p d) log;
  recent_kept : List.filter (recent cut p) h = List.filter (recent cut p) log
}.

Record books_wf (cut : Z) (log : list ProxyStatistic) (st : Store) : Prop := {
  rows_dated : Forall dated (history st);
  log_dated : Forall dated log;
  rows_routed : Forall (fun s => ProxyID s ∈ routes st) (history st);
  routes_positive p : p ∈ routes st -> 0 < p;
  rows_distinct : NoDup (map StatID (history st));
  days_aligned k n : daily (checks st) !! k = Some n -> k.2 mod Day = 0;
  totals_aligned p t : totals (checks st) !! p = Some t -> CompactedBefore t mod Day = 0;
  books p : 0 < p -> p ∈ routes st \/ p ∉ map ProxyID log -> route_books cut log (history st) (checks st) p
}.

Lemma on_day_route p d s : on_day p d s = true -> ProxyID s = p.
Proof. unfold on_day, of_route. intros H. breflect. lia. Qed.

Lemma recent_route cut p s : recent cut p s = true -> ProxyID s = p.
Proof. unfold recent, of_route. intros H. breflect. lia. Qed.

(** Recording rows. *)
Lemma route_books_record cut log h c p now rows : p <> 0 -> Forall dated rows ->
  route_books cut log h c p ->
  route_books cut (log ++ rows) (h ++ rows) (incrementProxyDailyChecks now rows c) p.
Proof.
  intros Hp Hd [Hs Hc Hr Hk]. split; cbn [daily totals incrementProxyDailyChecks].
  - rewrite daily_sum_added, daily_sum_aggregate, count_rows_app by done. unfold total_of in *. cbn [totals incrementProxyDailyChecks]. lia.
  - intros d Ht. unfold daily_count in *. cbn. rewrite lookup_added, aggregate_lookup, count_rows_app, count_created by done.
    specialize (Hc d Ht). lia.
  - intros d Ht. unfold daily_count in *. cbn. rewrite lookup_added, aggregate_lookup, count_rows_app, count_created by done.
    rewrite Hr by done. lia.
  - by rewrite !List.filter_app, Hk.
Qed.

(** Deleting old rows. *)
Lemma route_books_drop cut log h c p keep : (forall s, s ∈ h -> recent cut p s = true -> keep s = true) ->
  route_books cut log h c p -> route_books cut log (List.filter keep h) c p.
Proof.
  intros Hkeep [Hs Hc Hr Hk]. split; [done| |done|].
  - intros d Ht. etransitivity; [|by apply Hc]. rewrite count_rows_filter. apply count_rows_le. intros s _ H. by breflect.
  - rewrite <- Hk. clear -Hkeep. induction h as [|s h IH]; [done|]. cbn.
    rewrite <- IH by (intros s' Hs'; by apply Hkeep, list_elem_of_further).
    destruct (recent cut p s) eqn:E; [rewrite (Hkeep s (list_elem_of_here _ _) E); cbn; by rewrite E|].
    destruct (keep s); cbn; by rewrite ?E.
Qed.

(** Folding a day. *)
Definition foldable (cut : Z) (c : Counters) : Prop :=
  (forall k n, daily c !! k = Some n -> k.2 mod Day = 0) /\ (forall p t, totals c !! p = Some t -> CompactedBefore t mod Day = 0).

Lemma compact_day_aligned cut c k : foldable cut c -> foldable cut (compact_day c k).
Proof.
  intros [Hd Ht]. unfold compact_day. destruct (daily c !! k) as [n|] eqn:E; [|done]. split; cbn.
  - intros k' n' Hl. apply lookup_delete_Some in Hl as [_ Hl]. by eapply Hd.
  - intros p t. destruct (decide (k.1 = p)) as [<-|Hne]; [rewrite lookup_insert_eq|rewrite lookup_insert_ne by done; apply Ht].
    intros [= <-]. assert ((k.2 + Day) mod Day = 0) as Hk.
    { rewrite <- Z.add_mod_idemp_r, Z.mod_same, Z.add_0_r by done. by eapply Hd. }
    destruct (totals c !! k.1) as [t|] eqn:Et; [|done]. cbn. destruct (Z.max_spec (CompactedBefore t) (k.2 + Day)) as [[_ ->]|[_ ->]];
      [done|by eapply Ht].
Qed.

Lemma route_books_compact_day cut log h c k p : k.2 < cut -> route_books cut log h c p -> route_books cut log h (compact_day c k) p.
Proof.
  intros Hcut [Hs Hc Hr Hk]. unfold compact_day. destruct (daily c !! k) as [n|] eqn:E; [|done].
  assert (0 < Day) as HDay by done. split; [| | |done].
  - rewrite <- Hs. cbn [daily]. unfold daily_sum, total_of. cbn [totals]. rewrite (map_sum_delete _ (daily c) k n E). cbn [fst snd].
    destruct (k.1 =? p) eqn:Ep; breflect.
    + rewrite Ep, lookup_insert_eq. destruct (totals c !! p); cbn; lia.
    + rewrite lookup_insert_ne by done. lia.
  - intros d Ht. cbn in Ht. unfold daily_count in *. cbn. destruct (decide (k.1 = p)) as [Hp|Hne].
    + rewrite <- Hp, lookup_insert_eq in Ht. specialize (Ht _ eq_refl). rewrite lookup_delete_ne.
      * apply Hc. intros t Htt. rewrite <- Hp in Htt. rewrite Htt in Ht. cbn in Ht. lia.
      * intros ->. cbn in Ht. destruct (totals c !! _); cbn in Ht; lia.
    + rewrite lookup_insert_ne in Ht by done. rewrite lookup_delete_ne; [by apply Hc|]. intros ->. by apply Hne.
  - intros d Hd. unfold daily_count in *. cbn. rewrite lookup_delete_ne; [by apply Hr|]. intros ->. cbn in Hcut. lia.
Qed.

Lemma compact_days_books cut log h ks c p : Forall (fun k => k.2 < cut) ks -> foldable cut c ->
  foldable cut (fold_left compact_day ks c) /\
  (route_books cut log h c p -> route_books cut log h (fold_left compact_day ks c) p).
Proof.
  intros Hk. revert c. induction Hk as [|k ks Hk _ IH]; intros c Hc; cbn; [done|].
  destruct (IH (compact_day c k)) as [H1 H2]; [by apply compact_day_aligned|]. split; [done|].
  intros Hb. by apply H2, route_books_compact_day.
Qed.

(** A backfill finds nothing to add. *)
Lemma backfill_nothing cut log st now ids before : books_wf cut log st ->
  backfillProxyDailyChecksForProxyIDsTx now (history st) ids before (checks st) = checks st.
Proof.
  intros Hw. unfold backfillProxyDailyChecksForProxyIDsTx. induction (batches 500 ids) as [|chunk chunks IH]; [done|].
  cbn [fold_left]. match goal with |- fold_left _ chunks ?x = _ => enough (x = checks st) as ->; [exact IH|] end.
  set (c := checks st).
  enough (union_with (fun n d => Some (Z.max n d)) (daily c)
    (aggregate_daily now (List.filter (backfills c chunk before) (history st))) = daily c) as -> by by destruct c.
  apply map_eq. intros k. rewrite lookup_union_with.
  destruct (aggregate_daily _ _ !! k) as [n|] eqn:E; [|by destruct (daily c !! k)].
  pose proof (aggregate_positive _ _ _ _ E) as Hn. destruct (aggregate_key _ _ _ _ E) as (_ & s & Hs & Hp & Hd).
  rewrite list_elem_of_In, filter_In, <- list_elem_of_In in Hs. destruct Hs as [Hs Hb].
  pose proof (rows_routed _ _ _ Hw) as Hr. rewrite Forall_forall in Hr. specialize (Hr s Hs). rewrite Hp in Hr.
  pose proof (routes_positive _ _ _ Hw _ Hr) as Hpos. pose proof (books _ _ _ Hw k.1 Hpos (or_introl Hr)) as Hk.
  assert (n <= daily_count c k.1 k.2) as Hle.
  { transitivity (count_rows (on_day k.1 k.2) (history st)).
    - pose proof (aggregate_lookup now (List.filter (backfills c chunk before) (history st)) k) as Hl. rewrite E in Hl. cbn in Hl.
      rewrite Hl, count_rows_filter, <- (count_created now) by (apply (rows_dated _ _ _ Hw) || lia).
      apply count_rows_le. intros s' _ H. rewrite <- surjective_pairing. by breflect.
    - apply (covered _ _ _ _ _ Hk). intros t Ht. unfold backfills in Hb. destruct (CreatedAt s) as [at_|] eqn:Ec; [|done].
      unfold checked_at in Hd. rewrite Ec in Hd. cbn in Hd. rewrite Hp in Hb. fold c in Ht. rewrite Ht in Hb.
      apply andb_true_iff in Hb as [_ Hb%Z.leb_le]. rewrite <- Hd.
      refine (proj1 (aligned_le _ _ _) Hb). by eapply (totals_aligned _ _ _ Hw). }
  unfold daily_count in Hle. rewrite <- surjective_pairing in Hle. destruct (daily c !! k) as [v|]; cbn in *; [f_equal|]; lia.
Qed.

Lemma mark_books cut log h ids c p : route_books cut log h c p -> route_books cut log h (markProxyDailyChecksBackfilled ids c) p.
Proof. intros [? ? ? ?]. by split. Qed.

Lemma candidates_before locked before limit c : Forall (fun k => k.2 < before) (candidates locked before limit c).
Proof.
  unfold candidates. apply Forall_take. apply Forall_forall. intros k. rewrite merge_sort_Permutation, list_elem_of_In, filter_In.
  intros [_ H]. by breflect.
Qed.

(** Changing the counters only. *)
Lemma books_set_checks cut log st c : books_wf cut log st -> foldable cut c ->
  (forall p, 0 < p -> p ∈ routes st \/ p ∉ map ProxyID log ->
     route_books cut log (history st) (checks st) p -> route_books cut log (history st) c p) ->
  books_wf cut log (set_checks c st).
Proof. intros [] [Hd Ht] Hb. split; cbn; try done. intros p Hp Ha. apply Hb; auto. Qed.

Lemma books_foldable cut log st : books_wf cut log st -> foldable cut (checks st).
Proof. intros []. by split. Qed.

Lemma compact_books cut log st now locked before limit : books_wf cut log st -> startOfUTCDay before <= cut ->
  books_wf cut log (CompactProxyDailyChecks now locked before limit st).2.
Proof.
  intros Hw Hcut. unfold CompactProxyDailyChecks. cbn [snd]. rewrite (backfill_nothing cut log) by done.
  set (c := markProxyDailyChecksBackfilled _ (checks st)).
  assert (foldable cut c) as Hc by by apply (books_foldable _ _ _ Hw).
  assert (Forall (fun k => k.2 < cut) (candidates locked (startOfUTCDay before) limit c)) as Hf.
  { eapply Forall_impl; [apply candidates_before|]. cbn. intros k. lia. }
  apply books_set_checks; [done|by apply (compact_days_books cut log (history st) _ c 0)|].
  intros p _ _ Hb. apply (compact_days_books cut log (history st) _ c p Hf Hc). by apply mark_books.
Qed.

Lemma backfilled_books cut log st now owned : books_wf cut log st ->
  books_wf cut log (ensureProxyDailyChecksBackfilled now owned st).
Proof.
  intros Hw. unfold ensureProxyDailyChecksBackfilled. destruct (loadWorkspaceProxyIDsMissingBackfill _ _); [done|].
  rewrite (backfill_nothing cut log) by done.
  apply books_set_checks; [done|by apply (books_foldable _ _ _ Hw)|]. intros p _ _ Hb. by apply mark_books.
Qed.

Lemma route_rows_none (h : list ProxyStatistic) f p (rts : gset Z) : Forall (fun s => ProxyID s ∈ rts) h -> p ∉ rts ->
  (forall s, f s = true -> ProxyID s = p) -> count_rows f h = 0.
Proof.
  intros Hr Hp Hf. apply count_rows_zero. intros s Hs. destruct (f s) eqn:E; [|done].
  rewrite Forall_forall in Hr. destruct Hp. rewrite <- (Hf s E). by apply Hr.
Qed.

Lemma log_rows_none log f p : p ∉ map ProxyID log -> (forall s, f s = true -> ProxyID s = p) -> count_rows f log = 0.
Proof.
  intros Hp Hf. apply count_rows_zero. intros s Hs. destruct (f s) eqn:E; [|done].
  destruct Hp. rewrite <- (Hf s E). by apply list_elem_of_fmap_2.
Qed.

Lemma orphans_books cut log st : books_wf cut log st -> books_wf cut log (DeleteOrphanProxyCheckCounters st).
Proof.
  intros Hw. pose proof (books_foldable _ _ _ Hw) as [Hd Ht]. unfold DeleteOrphanProxyCheckCounters.
  set (c := MkCounters _ _ _). assert (forall k n, daily c !! k = Some n -> daily (checks st) !! k = Some n /\ k.1 ∈ routes st) as Hdl.
  { intros [p d] n Hl. by apply map_lookup_filter_Some in Hl. }
  assert (forall p t, totals c !! p = Some t -> totals (checks st) !! p = Some t /\ p ∈ routes st) as Htl.
  { intros p t Hl. by apply map_lookup_filter_Some in Hl. }
  apply books_set_checks; [done|split|].
  - intros k n [Hl _]%Hdl. by eapply Hd.
  - intros p t [Hl _]%Htl. by eapply Ht.
  - intros p Hp Ha [Hs Hc Hr Hk].
    assert (daily_sum p (daily c) = if bool_decide (p ∈ routes st) then daily_sum p (daily (checks st)) else 0) as Hsum.
    { unfold daily_sum, c. cbn [daily]. rewrite map_sum_filter. case_bool_decide as Hin.
      - apply map_sum_ext. intros [p' d] n _. cbn. case_bool_decide; [done|]. destruct (p' =? p) eqn:E; breflect; [|done]. by subst.
      - transitivity (map_sum (fun _ : (Z * Z) * Z => 0) (daily (checks st))).
        + apply map_sum_ext. intros [p' d] n _. cbn. case_bool_decide; [|done]. destruct (p' =? p) eqn:E; breflect; [by subst|done].
        + unfold map_sum. induction (map_to_list _); [done|]. by rewrite sum_of_cons. }
    assert (total_of p c = if bool_decide (p ∈ routes st) then total_of p (checks st) else 0) as Htot.
    { unfold total_of, c. cbn [totals]. rewrite map_lookup_filter. destruct (totals (checks st) !! p); cbn; [|by case_bool_decide].
      case_bool_decide; [by rewrite option_guard_True|by rewrite option_guard_False]. }
    assert (forall d, daily_count c p d = if bool_decide (p ∈ routes st) then daily_count (checks st) p d else 0) as Hcount.
    { intros d. unfold daily_count, c. cbn [daily]. rewrite map_lookup_filter. destruct (daily (checks st) !! (p, d)); cbn; [|by case_bool_decide].
      case_bool_decide; [by rewrite option_guard_True|by rewrite option_guard_False]. }
    destruct (decide (p ∈ routes st)) as [Hin|Hin].
    + rewrite bool_decide_eq_true_2 in Hsum, Htot by done.
      split; [lia| | |done]; intros d Hd'; rewrite Hcount, bool_decide_eq_true_2 by done; [|by apply Hr].
      apply Hc. intros t Hl. apply Hd'. by apply map_lookup_filter_Some.
    + rewrite bool_decide_eq_false_2 in Hsum, Htot by done. destruct Ha as [|Hlog]; [done|].
      split; [| | |done].
      * rewrite (log_rows_none log _ p) by (done || by intros s ?%Z.eqb_eq). lia.
      * intros d _. rewrite Hcount, bool_decide_eq_false_2 by done.
        by rewrite (route_rows_none _ _ p _ (rows_routed _ _ _ Hw) Hin (on_day_route p d)).
      * intros d _. rewrite Hcount, bool_decide_eq_false_2 by done. symmetry. apply (log_rows_none _ _ p Hlog (on_day_route p d)).
Qed.

(** ** Every sequence of transactions *)

Lemma create_rows_distinct now rts stats h n rows h' n' : create_rows now rts stats h n = Some (rows, h', n') ->
  NoDup (map StatID h) -> NoDup (map StatID h') /\ Forall dated rows.
Proof.
  revert h n rows h' n'. induction stats as [|s stats IH]; intros h n rows h' n'; cbn [create_rows]; [by intros [= <- <- <-]|].
  cbv zeta. set (id := if StatID s =? 0 then n else StatID s). destruct (_ || _) eqn:Eb; [done|].
  apply orb_false_iff in Eb as [_ Eb%bool_decide_eq_false].
  destruct (create_rows _ _ _ _ _) as [[[rows0 h0] n0]|] eqn:E; [|done]. intros [= <- <- <-] Hn.
  destruct (IH _ _ _ _ _ E) as [H1 H2]; [|split; [done|constructor; [by eexists|done]]].
  rewrite map_app. apply NoDup_app. split_and!; [done| |apply NoDup_singleton].
  intros x Hx ->%list_elem_of_singleton. by apply Eb.
Qed.

Lemma increment_nothing now c : incrementProxyDailyChecks now [] c = c.
Proof.
  unfold incrementProxyDailyChecks. cbn. rewrite (right_id_L ∅ (union_with _)). by destruct c.
Qed.

Lemma record_nothing now st : record_derived now [] st = st.
Proof.
  unfold record_derived. rewrite increment_nothing. cbv zeta. cbn.
  unfold upsertProxyLatestStatistics. rewrite (right_id_L ∅ (union_with _)). by destruct st.
Qed.

(** A committed insert in two parts: the rows, and what is derived from them. *)
Lemma insert_derived now stats st st' : InsertProxyStatistics now stats st = Some st' -> NoDup (map StatID (history st)) ->
  exists l rows n, st' = record_derived now rows (set_rows (history st ++ rows) n (set_ledger l st)) /\
    Forall dated rows /\ Forall (fun s => ProxyID s ∈ routes st) rows /\ NoDup (map StatID (history st ++ rows)).
Proof.
  unfold InsertProxyStatistics. intros Hi Hn.
  assert (forall l, exists rows n, set_ledger l st = record_derived now rows (set_rows (history st ++ rows) n (set_ledger l st)) /\
    Forall dated rows /\ Forall (fun s => ProxyID s ∈ routes st) rows /\ NoDup (map StatID (history st ++ rows))) as Hnone.
  { intros l. exists [], (next_id st). rewrite record_nothing, app_nil_r. by split_and!. }
  destruct stats as [|s0 stats].
  { injection Hi as <-. destruct (Hnone (ledger st)) as (rows & n & H). exists (ledger st), rows, n. by destruct st. }
  destruct (acceptProxyStatisticEvents _ _) as [accepted l]. exists l.
  destruct accepted as [|a accepted]; [by injection Hi as <-|]. clear Hnone.
  unfold record_accepted in Hi. cbn [history routes next_id set_ledger] in Hi.
  destruct (create_rows _ _ _ _ _) as [[[rows h] n]|] eqn:E; [|done]. injection Hi as <-.
  destruct (create_rows_spec _ _ _ _ _ _ _ _ E) as (-> & _ & _ & Hf).
  destruct (create_rows_distinct _ _ _ _ _ _ _ _ E Hn) as [Hn' Hd]. exists rows, n. by split_and!.
Qed.

Lemma insert_rows now stats st st' : InsertProxyStatistics now stats st = Some st' -> NoDup (map StatID (history st)) ->
  exists rows, history st' = history st ++ rows /\ routes st' = routes st /\
    checks st' = incrementProxyDailyChecks now rows (checks st) /\
    Forall dated rows /\ Forall (fun s => ProxyID s ∈ routes st) rows /\ NoDup (map StatID (history st ++ rows)).
Proof.
  intros Hi Hn. destruct (insert_derived _ _ _ _ Hi Hn) as (l & rows & n & -> & Hd & Hf & Hn'). exists rows.
  unfold record_derived. cbv zeta. by destruct (latestProxyStatusEntries now rows).
Qed.

Lemma insert_books cut log st now stats st' : books_wf cut log st -> InsertProxyStatistics now stats st = Some st' ->
  books_wf cut (log ++ drop (length (history st)) (history st')) st'.
Proof.
  intros [H1 H2 H3 H4 H5 H6 H7 H8] Hi. destruct (insert_rows _ _ _ _ Hi H5) as (rows & Hh & Hr & Hc & Hd & Hrt & Hn).
  rewrite Hh, drop_app_length. split; rewrite ?Hh, ?Hr, ?Hc; try done.
  - by apply Forall_app.
  - by apply Forall_app.
  - by apply Forall_app.
  - intros k n. cbn. rewrite lookup_union_with. destruct (aggregate_daily now rows !! k) as [m|] eqn:E.
    + intros _. by apply aggregate_key in E as [? _].
    + destruct (daily (checks st) !! k) as [m|] eqn:E'; [|done]. intros _. by eapply H6.
  - intros p Hp Ha. apply route_books_record; [lia|done|]. apply H8; [done|]. destruct Ha as [?|Ha]; [by left|right].
    intros Hin. apply Ha. rewrite map_app. by apply elem_of_app; left.
Qed.

Lemma Forall_list_filter {A} (P : A -> Prop) f (l : list A) : Forall P l -> Forall P (List.filter f l).
Proof. induction 1; cbn; [done|]. destruct (f x); [by constructor|done]. Qed.

Lemma retention_books cut log st locked olderThan limit : olderThan <= cut -> books_wf cut log st ->
  books_wf cut log (DeleteOldProxyStatistics locked olderThan limit st).2.
Proof.
  intros Hcut [H1 H2 H3 H4 H5 H6 H7 H8]. unfold DeleteOldProxyStatistics. cbv zeta. cbn [snd].
  set (gone := take _ _). split; cbn; try done.
  - by apply Forall_list_filter.
  - by apply Forall_list_filter.
  - by apply NoDup_map_filter.
  - intros p Hp Ha. apply route_books_drop; [|by apply H8]. intros s Hs Hre.
    apply negb_true_iff, bool_decide_eq_false. intros Hin. apply list_elem_of_In, in_map_iff in Hin as (s' & Hid & Hin%list_elem_of_In).
    assert (s' ∈ history st /\ created_in None (Some olderThan) s' = true) as [Hs' Hc].
    { unfold gone in Hin. apply elem_of_take in Hin as (i & Hin & _). apply list_elem_of_lookup_2 in Hin.
      rewrite merge_sort_Permutation, list_elem_of_In, filter_In, <- list_elem_of_In in Hin. destruct Hin as [? Hb]. by breflect. }
    assert (s' = s) as ->.
    { clear -H5 Hid Hs Hs'. induction (history st) as [|x l IH]; [by apply not_elem_of_nil in Hs|]. cbn in H5.
      apply NoDup_cons in H5 as [Hx Hn]. apply elem_of_cons in Hs as [->|Hs], Hs' as [->|Hs']; [done| | |by apply IH].
      - destruct Hx. rewrite <- Hid. by apply list_elem_of_fmap_2.
      - destruct Hx. rewrite Hid. by apply list_elem_of_fmap_2. }
    unfold recent in Hre. unfold created_in in Hc. destruct (CreatedAt s); [|by rewrite andb_false_r in Hre]. breflect. lia.
Qed.

Lemma delete_route_books cut log st p : books_wf cut log st -> books_wf cut log (delete_route p st).
Proof.
  intros [H1 H2 H3 H4 H5 H6 H7 H8]. split; cbn; try done.
  - by apply Forall_list_filter.
  - rewrite Forall_forall in H3 |- *. intros s. rewrite list_elem_of_In, filter_In, <- list_elem_of_In. intros [Hs Hb]. breflect.
    apply elem_of_difference. split; [by apply H3|]. by intros ?%elem_of_singleton.
  - intros q [Hq _]%elem_of_difference. by apply H4.
  - by apply NoDup_map_filter.
  - intros q Hq Ha. apply route_books_drop.
    + intros s Hs Hre. pose proof (recent_route _ _ _ Hre) as Hsq. apply negb_true_iff, Z.eqb_neq. intros Hp.
      destruct Ha as [Ha|Ha]; [apply elem_of_difference in Ha as [_ Ha]; apply Ha, elem_of_singleton; congruence|].
      destruct (H8 q Hq (or_intror Ha)) as [_ _ _ Hk]. assert (s ∈ List.filter (recent cut q) log) as Hin.
      { rewrite <- Hk. apply list_elem_of_In, filter_In. by rewrite <- list_elem_of_In. }
      apply list_elem_of_In, filter_In in Hin as [Hin%list_elem_of_In _]. apply Ha. rewrite <- Hsq. by apply list_elem_of_fmap_2.
    + apply H8; [done|]. destruct Ha as [Ha|?]; [left; set_solver|by right].
Qed.
Lemma books_step cut log st log' st' : store_step cut (log, st) (log', st') -> books_wf cut log st -> books_wf cut log' st'.
Proof.
  intros Hs Hw. inversion Hs; subst; clear Hs.
  - by eapply insert_books.
  - by destruct Hw.
  - by destruct Hw.
  - by apply retention_books.
  - by apply backfilled_books.
  - by apply compact_books.
  - destruct (pruned_page tables cursor limit st) as (gone & -> & _). by destruct Hw.
  - by apply orphans_books.
  - by destruct Hw.
  - by destruct Hw.
  - destruct Hw as [K1 K2 K3 K4 K5 K6 K7 K8]. split; cbn; try done.
    + eapply Forall_impl; [exact K3|]. cbn. intros s Hs. by apply elem_of_union_r.
    + intros q [->%elem_of_singleton|Hq]%elem_of_union; [done|by apply K4].
    + intros q Hq Ha. apply K8; [done|]. destruct Ha as [[->%elem_of_singleton|?]%elem_of_union|?]; [by right|by left|by right].
  - by apply delete_route_books.
Qed.

Lemma books_reachable cut log st : rtc (store_step cut) ([], empty_store) (log, st) -> books_wf cut log st.
Proof.
  intros Hr. refine (rtc_ind_r (fun s => books_wf cut s.1 s.2) _ _ _ _ Hr).
  - split; [by constructor|by constructor|by constructor|done|by constructor|done|done|]. intros p _ _. by split.
  - intros [log0 st0] [log' st'] _ Hs Hw. by eapply books_step.
Qed.

(** ** The dashboard *)

(** A sum of counters is the number of the rows they count. *)
Lemma sum_is_count (phi : Z * Z -> bool) (key : ProxyStatistic -> Z * Z) (m : gmap (Z * Z) Z) l :
  (forall k, phi k = true -> default 0 (m !! k) = count_rows (fun s => bool_decide (key s = k)) l) ->
  map_sum (fun x => if phi x.1 then x.2 else 0) m = count_rows (fun s => phi (key s)) l.
Proof.
  revert phi. induction m as [|k v m Hk IH] using map_ind; intros phi Hm.
  - rewrite map_sum_empty. symmetry. apply count_rows_zero. intros s Hs. destruct (phi (key s)) eqn:E; [|done].
    specialize (Hm _ E). rewrite lookup_empty in Hm. cbn in Hm.
    pose proof (count_rows_pos (fun s' => bool_decide (key s' = key s)) l s Hs (bool_decide_eq_true_2 _ eq_refl)). lia.
  - rewrite map_sum_insert_new by done. cbn [fst snd].
    specialize (IH (fun k' => phi k' && negb (bool_decide (k' = k)))).
    transitivity ((if phi k then v else 0) + count_rows (fun s => phi (key s) && negb (bool_decide (key s = k))) l).
    + f_equal. rewrite <- IH.
      * apply map_sum_ext. intros k' v' Hl. cbn. rewrite bool_decide_eq_false_2 by congruence. by rewrite andb_true_r.
      * intros k' Hb. breflect. rewrite <- Hm by done. by rewrite lookup_insert_ne.
    + destruct (phi k) eqn:E.
      * specialize (Hm k E). rewrite lookup_insert_eq in Hm. cbn in Hm. rewrite Hm. clear -E. induction l as [|s l IH]; [done|].
        rewrite !count_rows_cons. case_bool_decide as Hs; [rewrite Hs, E; cbn; lia|]. rewrite andb_true_r. lia.
      * cbn. apply count_rows_ext. intros s _. case_bool_decide as Hs; [by rewrite Hs, E|by rewrite andb_true_r].
Qed.

Lemma sum_of_ext {A} (f g : A -> Z) (l : list A) : (forall x, x ∈ l -> f x = g x) -> sum_of f l = sum_of g l.
Proof.
  induction l as [|x l IH]; intros Hfg; [done|]. rewrite !sum_of_cons, (Hfg x), IH; [done| |apply list_elem_of_here].
  intros y Hy. by apply Hfg, list_elem_of_further.
Qed.

Lemma sum_of_filter {A} (f : A -> Z) (g : A -> bool) (l : list A) : sum_of f (List.filter g l) = sum_of (fun x => if g x then f x else 0) l.
Proof. induction l as [|x l IH]; [done|]. cbn [List.filter]. rewrite sum_of_cons. destruct (g x); rewrite ?sum_of_cons, IH; lia. Qed.

Lemma count_rows_split (f g h : ProxyStatistic -> bool) l :
  (forall s, s ∈ l -> (if f s then 1 else 0) = (if g s then 1 else 0) + (if h s then 1 else 0)) ->
  count_rows f l = count_rows g l + count_rows h l.
Proof.
  induction l as [|s l IH]; intros Hs; [done|]. rewrite !count_rows_cons, IH, (Hs s); [lia|apply list_elem_of_here|].
  intros s' Hs'. by apply Hs, list_elem_of_further.
Qed.

Definition owns (owned : gset Z) (s : ProxyStatistic) : bool := bool_decide (ProxyID s ∈ owned).

Lemma owned_split (p q : Z) (X : gset Z) : p ∉ X ->
  forall n : Z, (if bool_decide (q ∈ {[p]} ∪ X) then n else 0) = (if q =? p then n else 0) + (if bool_decide (q ∈ X) then n else 0).
Proof.
  intros Hp n. destruct (q =? p) eqn:E; breflect.
  - subst. rewrite bool_decide_eq_true_2, bool_decide_eq_false_2 by set_solver. lia.
  - rewrite (bool_decide_ext _ (q ∈ X)) by set_solver. lia.
Qed.

Lemma count_owned_split p X f l : p ∉ X ->
  count_rows (fun s => f s && owns ({[p]} ∪ X) s) l = count_rows (fun s => f s && of_route p s) l + count_rows (fun s => f s && owns X s) l.
Proof.
  intros Hp. apply count_rows_split. intros s _. unfold owns, of_route. pose proof (owned_split p (ProxyID s) X Hp 1).
  by destruct (f s).
Qed.

Lemma total_alone p (m : gmap Z ProxyCheckTotal) :
  map_sum (fun x => if x.1 =? p then TotalCount x.2 else 0) m = match m !! p with Some t => TotalCount t | None => 0 end.
Proof.
  induction m as [|k v m Hk IH] using map_ind; [done|]. rewrite map_sum_insert_new by done. cbn [fst snd].
  destruct (k =? p) eqn:E; breflect.
  - subst. rewrite lookup_insert_eq, IH, Hk. lia.
  - by rewrite lookup_insert_ne, IH.
Qed.

(** The counters of a set of routes. *)
Lemma owned_counted cut log st owned : books_wf cut log st -> owned ⊆ routes st ->
  map_sum (fun x => if bool_decide (x.1.1 ∈ owned) then x.2 else 0) (daily (checks st)) +
  map_sum (fun x => if bool_decide (x.1 ∈ owned) then TotalCount x.2 else 0) (totals (checks st)) =
  count_rows (fun s => true && owns owned s) log.
Proof.
  intros Hw. induction owned as [|p X Hp IH] using set_ind_L; intros Ho.
  - transitivity 0; [|symmetry; apply count_rows_zero; intros s _; by apply bool_decide_eq_false, not_elem_of_empty].
    rewrite (map_sum_ext _ (fun _ => 0)), (map_sum_ext _ (fun _ => 0) (totals _)) by done.
    unfold map_sum. induction (map_to_list (daily _)); [induction (map_to_list (totals _))|]; rewrite ?sum_of_cons; done.
  - assert (p ∈ routes st) as Hin by set_solver.
    rewrite count_owned_split, <- IH by set_solver. destruct (books _ _ _ Hw p (routes_positive _ _ _ Hw p Hin) (or_introl Hin)) as [Hs _ _ _].
    change (count_rows (fun s => true && of_route p s) log) with (count_rows (of_route p) log). rewrite <- Hs. unfold daily_sum, total_of.
    rewrite (map_sum_ext _ (fun x => (if x.1.1 =? p then x.2 else 0) + if bool_decide (x.1.1 ∈ X) then x.2 else 0))
      by (intros; by apply owned_split).
    rewrite (map_sum_ext _ (fun x => (if x.1 =? p then TotalCount x.2 else 0) + if bool_decide (x.1 ∈ X) then TotalCount x.2 else 0) (totals _))
      by (intros; by apply owned_split).
    rewrite !map_sum_add, total_alone. lia.
Qed.

(** What is recent is in the history. *)
Lemma owned_kept cut log st owned f : books_wf cut log st -> owned ⊆ routes st ->
  (forall s, f s = true -> created_in (Some cut) None s = true) ->
  count_rows (fun s => f s && owns owned s) (history st) = count_rows (fun s => f s && owns owned s) log.
Proof.
  intros Hw Ho Hf. induction owned as [|p X Hp IH] using set_ind_L.
  - rewrite !count_rows_zero; [done|..]; intros s _; unfold owns; rewrite bool_decide_eq_false_2 by set_solver; by rewrite andb_false_r.
  - assert (p ∈ routes st) as Hin by set_solver.
    rewrite !count_owned_split, IH by set_solver. f_equal.
    destruct (books _ _ _ Hw p (routes_positive _ _ _ Hw p Hin) (or_introl Hin)) as [_ _ _ Hk].
    assert (forall l, count_rows (fun s => f s && of_route p s) l = count_rows f (List.filter (recent cut p) l)) as He.
    { intros l. rewrite count_rows_filter. apply count_rows_ext. intros s _. specialize (Hf s). unfold recent, created_in in *.
      destruct (f s); [|done]. cbn. specialize (Hf eq_refl). destruct (CreatedAt s); [|done]. rewrite andb_true_r in Hf. rewrite Hf.
      by rewrite andb_true_r. }
    by rewrite !He, Hk.
Qed.

(** The day of a result. *)
Definition day_key (s : ProxyStatistic) : Z * Z := (ProxyID s, startOfUTCDay (default 0 (CreatedAt s))).

(** Recent days of a set of routes. *)
Lemma owned_days cut log st owned (phi : Z -> bool) : books_wf cut log st -> owned ⊆ routes st ->
  (forall d, phi d = true -> cut <= d) ->
  map_sum (fun x => if bool_decide (x.1.1 ∈ owned) && phi x.1.2 then x.2 else 0) (daily (checks st)) =
  count_rows (fun s => phi (day_key s).2 && owns owned s) log.
Proof.
  intros Hw Ho Hphi. set (psi := fun k : Z * Z => bool_decide (k.1 ∈ owned) && phi k.2).
  transitivity (count_rows (fun s => psi (day_key s)) log); [apply (sum_is_count psi day_key _ log)|].
  2: { apply count_rows_ext. intros s _. unfold owns, day_key. cbn. by rewrite andb_comm. }
  intros [p d] Hk. cbn in Hk. apply andb_true_iff in Hk as [Hin%bool_decide_eq_true Hd].
  assert (p ∈ routes st) as Hr by set_solver.
  destruct (books _ _ _ Hw p (routes_positive _ _ _ Hw p Hr) (or_introl Hr)) as [_ _ Hre _].
  fold (daily_count (checks st) p d). rewrite Hre by by apply Hphi. apply count_rows_ext. intros s Hs.
  pose proof (log_dated _ _ _ Hw) as Hdt. rewrite Forall_forall in Hdt. destruct (Hdt s Hs) as [t Ht].
  unfold on_day, of_route, day_key. rewrite Ht. cbn. destruct (ProxyID s =? p) eqn:E; breflect.
  - cbn. destruct (startOfUTCDay t =? d) eqn:Ed; breflect; [rewrite bool_decide_eq_true_2 by congruence|rewrite bool_decide_eq_false_2 by congruence]; done.
  - cbn. rewrite bool_decide_eq_false_2 by congruence. done.
Qed.
(** The three parts of the query, over what was recorded. *)
Lemma query_parts now weekAgo owned st :
  let today := startOfUTCDay now in let next := startOfUTCDay weekAgo + Day in
  weekAgo <= today ->
  queryDashboardCheckCountsFromDaily now weekAgo owned st =
  (map_sum (fun x => if bool_decide (x.1.1 ∈ owned) && (x.1.2 <? today) then x.2 else 0) (daily (checks st)) +
     map_sum (fun x => if bool_decide (x.1 ∈ owned) then TotalCount x.2 else 0) (totals (checks st)) +
     count_rows (fun s => created_in (Some today) None s && owns owned s) (history st),
   map_sum (fun x => if bool_decide (x.1.1 ∈ owned) && ((next <=? x.1.2) && (x.1.2 <? today)) then x.2 else 0) (daily (checks st)) +
     count_rows (fun s => created_in (Some weekAgo) (Some next) s && owns owned s) (history st) +
     count_rows (fun s => created_in (Some today) None s && owns owned s) (history st)).
Proof.
  cbv zeta. intros Hle. unfold queryDashboardCheckCountsFromDaily. cbv zeta. rewrite !count_rows_filter, !sum_of_filter.
  assert (count_rows (fun s => created_in (Some (startOfUTCDay now)) None s &&
      (bool_decide (ProxyID s ∈ owned) && created_in (Some weekAgo) None s &&
       (created_in None (Some (startOfUTCDay weekAgo + Day)) s || created_in (Some (startOfUTCDay now)) None s))) (history st) =
    count_rows (fun s => created_in (Some (startOfUTCDay now)) None s && owns owned s) (history st)) as ->.
  { apply count_rows_ext. intros s _. unfold created_in, owns. destruct (CreatedAt s) as [t|]; [|done]. rewrite !andb_true_r.
    destruct (startOfUTCDay now <=? t) eqn:E; [|done]. breflect. rewrite (proj2 (Z.leb_le weekAgo t)) by lia.
    by rewrite !andb_true_r, orb_true_r, andb_true_r. }
  assert (count_rows (fun s => created_in None (Some (startOfUTCDay weekAgo + Day)) s &&
      (bool_decide (ProxyID s ∈ owned) && created_in (Some weekAgo) None s &&
       (created_in None (Some (startOfUTCDay weekAgo + Day)) s || created_in (Some (startOfUTCDay now)) None s))) (history st) =
    count_rows (fun s => created_in (Some weekAgo) (Some (startOfUTCDay weekAgo + Day)) s && owns owned s) (history st)) as ->.
  { apply count_rows_ext. intros s _. unfold created_in, owns. destruct (CreatedAt s) as [t|]; [|done]. rewrite !andb_true_r.
    cbn [andb]. destruct (t <? startOfUTCDay weekAgo + Day); [|by rewrite andb_false_r]. cbn.
    by rewrite !andb_true_r, andb_comm. }
  f_equal; f_equal; f_equal; unfold map_sum; apply sum_of_ext; intros [[p d] n] _; cbn;
    by destruct (bool_decide _), (_ <? _), (_ <=? _).
Qed.

Lemma bool_and_add (a b c : bool) : (a = true -> b = true -> c = true -> False) ->
  forall n : Z, (if a && b then n else 0) + (if a && c then n else 0) = (if a && (b || c) then n else 0).
Proof. destruct a, b, c; cbn; intros; try lia. Qed.

Lemma count_created_split owned a b l : a <= b ->
  count_rows (fun s => created_in (Some a) None s && owns owned s) l =
  count_rows (fun s => created_in (Some a) (Some b) s && owns owned s) l + count_rows (fun s => created_in (Some b) None s && owns owned s) l.
Proof.
  intros Hab. apply count_rows_split. intros s _. unfold created_in. destruct (CreatedAt s) as [t|]; [|done].
  destruct (owns owned s); rewrite ?andb_false_r; [|done]. rewrite !andb_true_r.
  destruct (a <=? t) eqn:E1, (t <? b) eqn:E2, (b <=? t) eqn:E3; breflect; cbn; lia.
Qed.

(** Bounds at the start of a day bound the day. *)
Lemma created_from a s : dated s -> a mod Day = 0 -> created_in (Some a) None s = (a <=? (day_key s).2).
Proof.
  intros [t Ht] Ha. unfold created_in, day_key. rewrite Ht, andb_true_r. cbn. apply eq_bool_prop_intro.
  rewrite !Is_true_true, !Z.leb_le. by apply aligned_le.
Qed.

Lemma created_between a b s : dated s -> a mod Day = 0 -> b mod Day = 0 ->
  created_in (Some a) (Some b) s = (a <=? (day_key s).2) && ((day_key s).2 <? b).
Proof.
  intros Hd Ha Hb. rewrite <- (created_from a s), Z.ltb_antisym, <- (created_from b s) by done.
  destruct Hd as [t Ht]. unfold created_in. rewrite Ht, !andb_true_r. by rewrite Z.ltb_antisym.
Qed.

(** C8. Whatever sequence of transactions led here - results in any batches and
    repetitions, backfills, folding, clean-ups, retention - a route's results
    are counted once: its daily counters and its total add up to the results
    recorded.  The dashboard shows the exact number of results of a workspace's
    routes and of those since [weekAgo], provided no row younger than that was
    deleted and no such day folded. *)
Theorem dashboard_exact cut log st now weekAgo owned :
  rtc (store_step cut) ([], empty_store) (log, st) ->
  owned ⊆ routes st -> cut <= weekAgo -> startOfUTCDay weekAgo + Day <= startOfUTCDay now ->
  (forall p, p ∈ routes st -> daily_sum p (daily (checks st)) + total_of p (checks st) = count_rows (of_route p) log) /\
  queryDashboardCheckCountsFromDaily now weekAgo owned st =
    (count_rows (owns owned) log, count_rows (fun s => created_in (Some weekAgo) None s && owns owned s) log).
Proof.
  intros Hr Ho Hcut Hday. pose proof (books_reachable _ _ _ Hr) as Hw. split.
  { intros p Hp. apply (books _ _ _ Hw p (routes_positive _ _ _ Hw p Hp) (or_introl Hp)). }
  pose proof (startOfUTCDay_le weekAgo) as Hwk. pose proof (owned_counted _ _ _ _ Hw Ho) as Hall.
  pose proof (owned_days cut log st owned (fun d => startOfUTCDay now <=? d) Hw Ho ltac:(cbn; intros; breflect; lia)) as Hlate.
  rewrite query_parts by lia.
  rewrite (owned_kept _ _ _ _ (created_in (Some (startOfUTCDay now)) None) Hw Ho)
    by (intros s; unfold created_in; destruct (CreatedAt s); [intros; breflect; rewrite andb_true_r; apply Z.leb_le; lia|done]).
  rewrite (owned_kept _ _ _ _ (created_in (Some weekAgo) (Some (startOfUTCDay weekAgo + Day))) Hw Ho)
    by (intros s; unfold created_in; destruct (CreatedAt s); [intros; breflect; rewrite andb_true_r; apply Z.leb_le; lia|done]).
  rewrite (owned_days cut log st owned (fun d => (startOfUTCDay weekAgo + Day <=? d) && (d <? startOfUTCDay now)) Hw Ho)
    by (cbn; intros; breflect; lia).
  pose proof (log_dated _ _ _ Hw) as Hd. rewrite Forall_forall in Hd.
  assert (next_aligned : (startOfUTCDay weekAgo + Day) mod Day = 0).
  { rewrite <- Z.add_mod_idemp_r, Z.mod_same, Z.add_0_r by done. apply startOfUTCDay_aligned. }
  f_equal.
  - rewrite (count_rows_ext _ (fun s => (startOfUTCDay now <=? (day_key s).2) && owns owned s)) by (intros s Hs; by rewrite created_from by auto using startOfUTCDay_aligned).
    rewrite <- Hlate. rewrite (count_rows_ext (owns owned) (fun s => true && owns owned s)) by done. rewrite <- Hall.
    rewrite (map_sum_ext (fun x => if bool_decide (x.1.1 ∈ owned) then x.2 else 0)
      (fun x => (if bool_decide (x.1.1 ∈ owned) && (x.1.2 <? startOfUTCDay now) then x.2 else 0) +
                (if bool_decide (x.1.1 ∈ owned) && (startOfUTCDay now <=? x.1.2) then x.2 else 0)) (daily (checks st)));
      [rewrite map_sum_add; lia|].
    intros [p d] n _. cbn. rewrite bool_and_add by (intros; breflect; lia). destruct (bool_decide _); [|done].
    by rewrite (Z.ltb_antisym (startOfUTCDay now) d), orb_negb_l.
  - rewrite (count_created_split owned weekAgo (startOfUTCDay weekAgo + Day)) by lia.
    rewrite (count_created_split owned (startOfUTCDay weekAgo + Day) (startOfUTCDay now)) by lia.
    rewrite (count_rows_ext (fun s => (startOfUTCDay weekAgo + Day <=? (day_key s).2) && ((day_key s).2 <? startOfUTCDay now) && owns owned s)
      (fun s => created_in (Some (startOfUTCDay weekAgo + Day)) (Some (startOfUTCDay now)) s && owns owned s)); [lia|].
    intros s Hs. by rewrite created_between by auto using startOfUTCDay_aligned.
Qed.

(** Two results, their day folded, a third on another day. *)
Definition at_day (n : Z) : ProxyStatistic := MkStat 0 true 0 12 "tcp" [] 1 None 5 1 [] "" "" (Some (n * Day + 5)).

Definition after_insert (s : list ProxyStatistic) (st : Store) : Store := default st (InsertProxyStatistics 0 s st).

Definition first_day : Store := after_insert [at_day 10; at_day 10] opened_store.
Definition folded : Store := (CompactProxyDailyChecks (12 * Day) [] (12 * Day) 100 first_day).2.
Definition second_day : Store := after_insert [at_day 30] folded.

Definition day_log : list ProxyStatistic := history second_day.

Lemma dashboard_exact_witness :
  rtc (store_step (20 * Day)) ([], empty_store) (day_log, second_day) /\
  queryDashboardCheckCountsFromDaily (36 * Day) (29 * Day) {[5]} second_day = (3, 1) /\
  totals (checks second_day) !! 5 = Some (MkTotal 2 (11 * Day)).
Proof.
  assert (rtc (store_step (20 * Day)) ([], empty_store) (day_log, second_day)) as Hr.
  { eapply rtc_l; [apply (step_add_route _ 5); [lia|apply not_elem_of_nil]|].
    eapply rtc_l; [apply (step_insert _ 0 [at_day 10; at_day 10] [] opened_store first_day); vm_compute; reflexivity|].
    eapply rtc_l; [apply (step_compact _ (12 * Day) [] (12 * Day) 100); vm_compute; discriminate|].
    eapply rtc_l; [apply (step_insert _ 0 [at_day 30] _ folded second_day); vm_compute; reflexivity|].
    match goal with |- rtc _ ?a ?b => assert (a = b) as ->; [vm_compute; reflexivity|apply rtc_refl] end. }
  split; [exact Hr|].
  destruct (dashboard_exact _ _ _ (36 * Day) (29 * Day) {[5]} Hr) as [_ Hq];
    [vm_compute; set_solver|vm_compute; discriminate|vm_compute; discriminate|].
  split; [|vm_compute; reflexivity]. rewrite Hq. vm_compute. reflexivity.
Defined.

End DailyChecks.
