(* ===== verification/StatLatest.v ===== *)
(** * The newest results

    A row of [proxy_latest_statistics] is the newest evidence recorded for its
    key since it was last pruned, whatever the order and the batches the results
    came in, and the overall status of a route sums up its rows that belong to no
    workspace; for every sequence of the transactions of StatLedger.v.  The
    pruning spares the rows of configurations in use. *)

From S2P Require Import Prelude GoStrings Usage StatStore StatLedger DailyChecks.
Open Scope Z_scope.

Module StatLatest.
Import StatStore StatLedger DailyChecks.

(** ** The newest of a list *)

Definition newer (old new : ProxyLatestStatistic) : ProxyLatestStatistic := if isNewerLatestStat new old then new else old.

Definition newer_opt (a b : option ProxyLatestStatistic) : option ProxyLatestStatistic :=
  match a, b with Some x, Some y => Some (newer x y) | Some x, None => Some x | None, _ => b end.

Definition newest_of (l : list ProxyLatestStatistic) : option ProxyLatestStatistic :=
  fold_left (fun best e => newer_opt best (Some e)) l None.

Lemma isNewer_spec a b : isNewerLatestStat a b = true <->
  CheckedAt b < CheckedAt a \/ (CheckedAt b = CheckedAt a /\ StatisticID b < StatisticID a).
Proof.
  unfold isNewerLatestStat. destruct (CheckedAt b <? CheckedAt a) eqn:E1; [breflect; split; [by left|done]|].
  destruct (CheckedAt a <? CheckedAt b) eqn:E2; breflect; [split; [done|lia]|]. rewrite Z.ltb_lt. lia.
Qed.

Lemma isNewer_false a b : isNewerLatestStat a b = false <->
  CheckedAt a < CheckedAt b \/ (CheckedAt b = CheckedAt a /\ StatisticID a <= StatisticID b).
Proof. rewrite <- not_true_iff_false, isNewer_spec. lia. Qed.

Lemma newer_assoc a b c : newer (newer a b) c = newer a (newer b c).
Proof.
  unfold newer. destruct (isNewerLatestStat b a) eqn:E1, (isNewerLatestStat c b) eqn:E2; rewrite ?E1, ?E2; try done.
  - destruct (isNewerLatestStat c a) eqn:E3; [done|]. rewrite isNewer_spec in E1, E2. rewrite isNewer_false in E3. lia.
  - destruct (isNewerLatestStat c a) eqn:E3; [|done]. rewrite isNewer_false in E1, E2. rewrite isNewer_spec in E3. lia.
Qed.

Lemma newer_opt_assoc a b c : newer_opt (newer_opt a b) c = newer_opt a (newer_opt b c).
Proof. destruct a, b, c; cbn; try done. by rewrite newer_assoc. Qed.

Lemma newest_from l a : fold_left (fun best e => newer_opt best (Some e)) l a = newer_opt a (newest_of l).
Proof.
  unfold newest_of. revert a. induction l as [|e l IH]; intros a; cbn [fold_left]; [by destruct a|].
  rewrite IH, (IH (newer_opt None (Some e))). by rewrite <- newer_opt_assoc.
Qed.

Lemma newest_app l l' : newest_of (l ++ l') = newer_opt (newest_of l) (newest_of l').
Proof. unfold newest_of at 1. by rewrite fold_left_app, newest_from. Qed.

(** The newest is one of them, and none is newer. *)
Lemma newest_spec l e : newest_of l = Some e -> e ∈ l /\ forall e', e' ∈ l -> isNewerLatestStat e' e = false.
Proof.
  revert e. induction l as [|x l IH] using rev_ind; intros e; [done|]. rewrite newest_app. cbn.
  destruct (newest_of l) as [y|] eqn:E; cbn.
  - destruct (IH y eq_refl) as [Hy Hl]. unfold newer. destruct (isNewerLatestStat x y) eqn:Ex; intros [= <-].
    + split; [apply elem_of_app; right; apply list_elem_of_here|]. intros e' [He| ->%list_elem_of_singleton]%elem_of_app.
      * specialize (Hl _ He). rewrite isNewer_false in Hl |- *. rewrite isNewer_spec in Ex. lia.
      * rewrite isNewer_false. lia.
    + split; [apply elem_of_app; by left|]. intros e' [He| ->%list_elem_of_singleton]%elem_of_app; [by apply Hl|done].
  - intros [= <-]. split; [apply elem_of_app; right; apply list_elem_of_here|].
    intros e' [He| ->%list_elem_of_singleton]%elem_of_app; [|rewrite isNewer_false; lia].
    destruct l as [|z l]; [by apply not_elem_of_nil in He|]. change (z :: l) with ([z] ++ l) in E. rewrite newest_app in E.
    by destruct (newest_of l).
Qed.

(** ** Evidence *)

Definition evidence_for (k : Z * string * Z * Z) (l : list ProxyStatistic) : list ProxyLatestStatistic :=
  map snd (List.filter (fun x => bool_decide (x.1 = k)) (concat (map (stat_evidence 0) l))).

Lemma evidence_for_app k l l' : evidence_for k (l ++ l') = evidence_for k l ++ evidence_for k l'.
Proof. unfold evidence_for. by rewrite map_app, concat_app, List.filter_app, map_app. Qed.

Lemma stat_evidence_dated now s : dated s -> stat_evidence now s = stat_evidence 0 s.
Proof. intros [t Ht]. unfold stat_evidence, latest_entry, checked_at. by rewrite Ht. Qed.

Lemma lookup_keep_newer m x k : keep_newer m x !! k = newer_opt (m !! k) (if bool_decide (x.1 = k) then Some x.2 else None).
Proof.
  unfold keep_newer. destruct (m !! x.1) as [y|] eqn:E.
  - case_bool_decide as Hk; [subst|].
    + rewrite E. cbn. unfold newer. by destruct (isNewerLatestStat x.2 y); rewrite ?lookup_insert_eq, ?E.
    + destruct (isNewerLatestStat x.2 y); rewrite ?lookup_insert_ne by done; by destruct (m !! k).
  - case_bool_decide as Hk; [subst; by rewrite lookup_insert_eq, E|]. rewrite lookup_insert_ne by done. by destruct (m !! k).
Qed.

Lemma lookup_keep_all xs m k :
  fold_left keep_newer xs m !! k = newer_opt (m !! k) (newest_of (map snd (List.filter (fun x => bool_decide (x.1 = k)) xs))).
Proof.
  revert m. induction xs as [|x xs IH]; intros m; cbn [fold_left List.filter map]; [by destruct (m !! k)|].
  rewrite IH, lookup_keep_newer, newer_opt_assoc. f_equal. case_bool_decide; [|done]. cbn [map].
  change (x.2 :: ?l) with ([x.2] ++ l). by rewrite newest_app.
Qed.

(** The newest entries of a batch. *)
Lemma lookup_entries now rows k : Forall dated rows ->
  (latestProxyStatusEntries now rows).1 !! k = newest_of (evidence_for k rows).
Proof.
  intros Hd. unfold latestProxyStatusEntries. cbn [fst].
  transitivity (newer_opt ((∅ : gmap (Z * string * Z * Z) ProxyLatestStatistic) !! k) (newest_of (evidence_for k rows))); [|done].
  generalize (∅ : gmap (Z * string * Z * Z) ProxyLatestStatistic). induction Hd as [|s rows Hs _ IH]; intros m; cbn [fold_left];
    [by destruct (m !! k)|].
  rewrite IH, (stat_evidence_dated now s Hs), lookup_keep_all, newer_opt_assoc. f_equal.
  change (s :: rows) with ([s] ++ rows). rewrite evidence_for_app, newest_app. f_equal. unfold evidence_for. cbn. by rewrite app_nil_r.
Qed.

Lemma lookup_upserted entries rows k :
  upsertProxyLatestStatistics entries rows !! k = newer_opt (rows !! k) (entries !! k).
Proof. unfold upsertProxyLatestStatistics. rewrite lookup_union_with. by destruct (rows !! k), (entries !! k). Qed.

(** ** Every sequence of transactions *)

Definition known (log : list ProxyStatistic) (st : Store) (p : Z) : Prop := p ∈ routes st \/ p ∉ map ProxyID log.

(** A transaction that leaves the rows with a key in [K] in place, as long as their route exists. *)
Definition keeps (K : Z * string * Z * Z -> Prop) (cut : Z) (s s' : list ProxyStatistic * Store) : Prop :=
  store_step cut s s' /\ forall k, K k -> k.1.2 ∈ routes s'.2 -> is_Some (latest s.2 !! k) -> is_Some (latest s'.2 !! k).

(** Every row was recorded. *)
Definition rows_recorded (log : list ProxyStatistic) (st : Store) : Prop :=
  forall k e, latest st !! k = Some e -> e ∈ evidence_for k log.

(** The statuses of routes whose rows without a workspace are kept. *)
Definition status_current (log : list ProxyStatistic) (st : Store) (p : Z) : Prop :=
  known log st p -> overall st !! p = overall_of p (latest st).

Lemma evidence_key now s x : x ∈ stat_evidence now s ->
  x.1.1.2 = ProxyID s /\ ProxyID s <> 0 /\ ProtocolID s <> 0 /\ (x.1.1.1.1 = 0 -> CheckEvidence s = []).
Proof.
  unfold stat_evidence. destruct ((ProxyID s =? 0) || _) eqn:E; [by intros ?%not_elem_of_nil|]. breflect.
  destruct (CheckEvidence s) as [|e es]; [by intros ->%list_elem_of_singleton|].
  intros (e' & _ & He)%list_elem_of_omap. destruct (_ || _) eqn:Ee in He; [done|]. injection He as <-. cbn. breflect. by split_and!.
Qed.

Lemma in_concat_evidence x l : x ∈ concat (map (stat_evidence 0) l) -> exists s, s ∈ l /\ x ∈ stat_evidence 0 s.
Proof.
  rewrite list_elem_of_In, in_concat. intros (es & Hes & Hx). apply in_map_iff in Hes as (s & <- & Hs). exists s.
  by rewrite !list_elem_of_In.
Qed.

Lemma evidence_for_none k l : (forall s x, s ∈ l -> x ∈ stat_evidence 0 s -> x.1 <> k) -> evidence_for k l = [].
Proof.
  intros Hl. unfold evidence_for. destruct (List.filter _ _) as [|x xs] eqn:E; [done|].
  assert (x ∈ List.filter (fun x => bool_decide (x.1 = k)) (concat (map (stat_evidence 0) l))) as Hx
    by (rewrite E; apply list_elem_of_here).
  rewrite list_elem_of_In, filter_In, <- list_elem_of_In in Hx. destruct Hx as [(s & Hs & Hx)%in_concat_evidence Hk%bool_decide_eq_true].
  by destruct (Hl s x Hs Hx).
Qed.

Lemma evidence_of_route k l : k.1.2 ∉ map ProxyID l -> evidence_for k l = [].
Proof.
  intros Hk. apply evidence_for_none. intros s x Hs Hx <-. apply Hk. destruct (evidence_key _ _ _ Hx) as [-> _].
  by apply list_elem_of_fmap_2.
Qed.

(** The overall status depends on the route's unscoped rows only. *)
Lemma overall_of_ext p m m' : (forall k, k.1.1.1 = 0 -> k.1.2 = p -> m !! k = m' !! k) -> overall_of p m = overall_of p m'.
Proof.
  intros Hm. unfold overall_of, unscoped.
  enough (filter (fun x => x.1.1.1.1 = 0 /\ x.1.1.2 = p) m = filter (fun x => x.1.1.1.1 = 0 /\ x.1.1.2 = p) m') as -> by done.
  apply map_eq. intros k. rewrite !map_lookup_filter. destruct (decide (k.1.1.1 = 0 /\ k.1.2 = p)) as [[H0 Hp]|Hn].
  - by rewrite Hm.
  - destruct (m !! k), (m' !! k); cbn; rewrite ?option_guard_False by done; done.
Qed.

Lemma overall_of_none p m m' : (forall k, m' !! k = None -> m !! k = None) -> overall_of p m' = None -> overall_of p m = None.
Proof.
  intros Hm. unfold overall_of, unscoped.
  enough (filter (fun x => x.1.1.1.1 = 0 /\ x.1.1.2 = p) m' = ∅ -> filter (fun x => x.1.1.1.1 = 0 /\ x.1.1.2 = p) m = ∅) as He.
  { destruct (map snd (map_to_list (filter _ m'))) eqn:E; [|done]. intros _.
    rewrite He, map_to_list_empty; [done|]. by apply map_eq_nil, map_to_list_empty_iff in E. }
  intros He. apply map_eq. intros k. rewrite lookup_empty, map_lookup_filter_None.
  assert (filter (fun x => x.1.1.1.1 = 0 /\ x.1.1.2 = p) m' !! k = None) as Hk by by rewrite He.
  apply map_lookup_filter_None in Hk as [Hk|Hk]; [left; by apply Hm|].
  destruct (m' !! k) eqn:E; [|left; by apply Hm]. right. intros v _. exact (Hk _ eq_refl).
Qed.

Lemma lookup_statuses ids rows (o : gmap Z ProxyOverallStatus) p :
  fold_left (fun o p => match overall_of p rows with Some v => <[p := v]> o | None => o end) ids o !! p =
  if bool_decide (p ∈ ids) then match overall_of p rows with Some v => Some v | None => o !! p end else o !! p.
Proof.
  revert o. induction ids as [|p0 ids IH]; intros o; cbn [fold_left]; [by rewrite bool_decide_eq_false_2 by apply not_elem_of_nil|].
  rewrite IH. destruct (decide (p = p0)) as [->|Hne].
  - rewrite (bool_decide_eq_true_2 (p0 ∈ p0 :: ids)) by apply list_elem_of_here.
    destruct (overall_of p0 rows); [rewrite lookup_insert_eq|]; by case_bool_decide.
  - rewrite (bool_decide_ext (p ∈ p0 :: ids) (p ∈ ids)) by (rewrite elem_of_cons; naive_solver).
    destruct (overall_of p0 rows); [by rewrite lookup_insert_ne|done].
Qed.

(** A route with unscoped evidence in a batch is one whose status is computed. *)
Lemma legacy_routes now rows s : Forall dated rows -> s ∈ rows -> ProxyID s <> 0 -> ProtocolID s <> 0 -> CheckEvidence s = [] ->
  ProxyID s ∈ (latestProxyStatusEntries now rows).2.
Proof.
  intros Hd Hs Hp Hq He. pose proof (lookup_entries now rows (0, "", ProxyID s, ProtocolID s) Hd) as Hl.
  unfold latestProxyStatusEntries in *. cbn [fst snd] in *.
  assert (exists e, newest_of (evidence_for (0, "", ProxyID s, ProtocolID s) rows) = Some e) as [e Hne].
  { apply list_elem_of_split in Hs as (l1 & l2 & ->). change (s :: l2) with ([s] ++ l2).
    rewrite !evidence_for_app, !newest_app. assert (evidence_for (0, "", ProxyID s, ProtocolID s) [s] = [latest_entry 0 (Alive s) s]) as ->.
    { unfold evidence_for. cbn. rewrite app_nil_r. unfold stat_evidence. rewrite He.
      rewrite (proj2 (Z.eqb_neq (ProxyID s) 0)), (proj2 (Z.eqb_neq (ProtocolID s) 0)) by done. cbn. by rewrite bool_decide_eq_true_2. }
    destruct (newest_of (evidence_for _ l1)), (newest_of (evidence_for _ l2)); cbn; by eexists. }
  rewrite bool_decide_eq_false_2; [|intros H0; rewrite H0, lookup_empty in Hl; congruence].
  rewrite merge_sort_Permutation, elem_of_dedup_go. split; [|apply not_elem_of_nil]. apply list_elem_of_omap. exists s.
  rewrite He, (proj2 (Z.eqb_neq (ProxyID s) 0)), (proj2 (Z.eqb_neq (ProtocolID s) 0)) by done. done.
Qed.

Lemma known_app log rows st p : known (log ++ rows) st p -> known log st p.
Proof. intros [?|Hp]; [by left|right]. intros Hin. apply Hp. rewrite map_app. by apply elem_of_app; left. Qed.

Lemma newer_opt_some a b e : newer_opt a b = Some e -> a = Some e \/ b = Some e.
Proof. destruct a as [x|], b as [y|]; cbn; auto. unfold newer. destruct (isNewerLatestStat y x); auto. Qed.

(** Nothing taken in is newer than what is kept. *)
Lemma newest_bound a l e : e ∈ l \/ a = Some e ->
  exists shown, newer_opt a (newest_of l) = Some shown /\ isNewerLatestStat e shown = false.
Proof.
  intros He. assert (exists l', newer_opt a (newest_of l) = newest_of l' /\ e ∈ l') as (l' & -> & Hin).
  { destruct a as [x|].
    - exists (x :: l). change (x :: l) with ([x] ++ l). rewrite newest_app. split; [done|]. rewrite elem_of_app.
      destruct He as [?|[= ->]]; [by right|left; apply list_elem_of_here].
    - exists l. destruct He; [|done]. by destruct (newest_of l). }
  destruct (newest_of l') as [shown|] eqn:E.
  - exists shown. split; [done|]. by apply (newest_spec _ _ E).
  - exfalso. destruct l' as [|x m]; [by apply not_elem_of_nil in Hin|].
    change (x :: m) with ([x] ++ m) in E. rewrite newest_app in E. by destruct (newest_of m).
Qed.

Lemma record_rows now rows st k : Forall dated rows ->
  latest (record_derived now rows st) !! k = newer_opt (latest st !! k) (newest_of (evidence_for k rows)).
Proof.
  intros Hd. unfold record_derived. cbv zeta. pose proof (lookup_entries now rows k Hd) as He.
  destruct (latestProxyStatusEntries now rows) as [entries ids]. cbn [fst] in He.
  cbn [latest upsertProxyOverallStatuses set_overall set_usage set_refreshes set_latest set_checks].
  by rewrite lookup_upserted, He.
Qed.

Lemma record_status log now rows st p : Forall dated rows -> Forall (fun s => ProxyID s ∈ routes st) rows ->
  status_current log st p -> status_current (log ++ rows) (record_derived now rows st) p.
Proof.
  intros Hd Hr Ho Hkn. unfold record_derived in *. cbv zeta in *. pose proof (lookup_entries now rows) as He.
  pose proof (fun s => legacy_routes now rows s Hd) as Hleg. destruct (latestProxyStatusEntries now rows) as [entries ids].
  cbn [fst snd] in *. change (known (log ++ rows) st p) in Hkn. apply known_app in Hkn.
  cbn [latest overall routes upsertProxyOverallStatuses set_overall set_usage set_refreshes set_latest set_checks].
  rewrite lookup_statuses, (Ho Hkn). case_bool_decide as Hin.
  - destruct (overall_of p (upsertProxyLatestStatistics entries (latest st))) eqn:E; [done|].
    eapply overall_of_none; [|exact E]. intros k. rewrite lookup_upserted. by destruct (latest st !! k), (entries !! k).
  - apply overall_of_ext. intros k H0 Hp. rewrite lookup_upserted, He by done. rewrite evidence_for_none; [by destruct (latest st !! k)|].
    intros s x Hs Hx <-. destruct (evidence_key _ _ _ Hx) as (Hxp & Hne & Hq & Hev). apply Hin. rewrite <- Hp, Hxp. by apply Hleg; auto.
Qed.

(** What a transaction does to a row: it goes, or takes in what was recorded. *)
Lemma row_step cut log st log' st' k : store_step cut (log, st) (log', st') -> books_wf cut log st ->
  exists new, log' = log ++ new /\
    (latest st' !! k = newer_opt (latest st !! k) (newest_of (evidence_for k new)) \/ (new = [] /\ latest st' !! k = None)).
Proof.
  intros Hs Hb. inversion Hs; subst; clear Hs;
    try (exists []; rewrite app_nil_r; split; [done|left; cbn; by destruct (latest st !! k)]).
  - rename select (InsertProxyStatistics _ _ _ = _) into Hi.
    destruct (insert_derived _ _ _ _ Hi (rows_distinct _ _ _ Hb)) as (l & rows & n & -> & Hd & Hr & _). exists rows.
    assert (history (record_derived now rows (set_rows (history st ++ rows) n (set_ledger l st))) = history st ++ rows) as ->.
    { unfold record_derived. cbv zeta. by destruct (latestProxyStatusEntries now rows). }
    rewrite drop_app_length. split; [done|left]. by rewrite record_rows.
  - exists []. rewrite app_nil_r. split; [done|left]. unfold ensureProxyDailyChecksBackfilled.
    destruct (loadWorkspaceProxyIDsMissingBackfill _ _); cbn; by destruct (latest st !! k).
  - exists []. rewrite app_nil_r. split; [done|]. destruct (pruned_page tables cursor limit st) as (gone & -> & _).
    cbn [latest set_latest]. destruct (decide (k ∈ gone)).
    + right. split; [done|]. apply map_lookup_filter_None. right. intros v _ Hn. by apply Hn.
    + left. rewrite map_lookup_filter. destruct (latest st !! k); [cbn; by rewrite option_guard_True|done].
  - exists []. rewrite app_nil_r. split; [done|]. cbn [latest delete_route]. destruct (decide (k.1.2 = p)).
    + right. split; [done|]. apply map_lookup_filter_None. right. intros v _ Hn. by apply Hn.
    + left. rewrite map_lookup_filter. destruct (latest st !! k); [cbn; by rewrite option_guard_True|done].
Qed.

Lemma known_step cut log st log' st' p : store_step cut (log, st) (log', st') -> books_wf cut log st -> known log' st' p -> known log st p.
Proof.
  intros Hs Hb. inversion Hs; subst; clear Hs; try done.
  - rename select (InsertProxyStatistics _ _ _ = _) into Hi.
    destruct (insert_rows _ _ _ _ Hi (rows_distinct _ _ _ Hb)) as (rows & _ & Hrt & _). intros Hk. apply known_app in Hk.
    unfold known in *. by rewrite <- Hrt.
  - unfold ensureProxyDailyChecksBackfilled. by destruct (loadWorkspaceProxyIDsMissingBackfill _ _).
  - by destruct (pruned_page tables cursor limit st) as (gone & -> & _).
  - intros [[->%elem_of_singleton|?]%elem_of_union|?]; [by right|by left|by right].
  - intros [[? _]%elem_of_difference|?]; [by left|by right].
Qed.

Lemma rows_step cut log st log' st' : store_step cut (log, st) (log', st') -> books_wf cut log st ->
  rows_recorded log st -> rows_recorded log' st'.
Proof.
  intros Hs Hb Hr k e. destruct (row_step _ _ _ _ _ k Hs Hb) as (new & -> & [-> |[_ ->]]); [|done].
  rewrite evidence_for_app, elem_of_app. intros [Hl|Hl]%newer_opt_some; [left; by apply Hr|right; by apply newest_spec].
Qed.

Lemma store_wf_reachable cut log st : rtc (store_step cut) ([], empty_store) (log, st) -> books_wf cut log st /\ rows_recorded log st.
Proof.
  intros Hr. refine (rtc_ind_r (fun s => books_wf cut s.1 s.2 /\ rows_recorded s.1 s.2) _ _ _ _ Hr).
  - split; [by eapply books_reachable, rtc_refl|]. by intros k e.
  - intros [log0 st0] [log' st'] _ Hs [Hb Hw]. split; [by eapply books_step|by eapply rows_step].
Qed.

Lemma row_absent log st k : rows_recorded log st -> k.1.2 ∉ map ProxyID log -> latest st !! k = None.
Proof.
  intros Hr Hk. destruct (latest st !! k) eqn:E; [|done]. specialize (Hr _ _ E). rewrite evidence_of_route in Hr by done.
  by apply not_elem_of_nil in Hr.
Qed.

(** A row that is kept takes in what a transaction records. *)
Lemma row_kept K cut log st log' st' k : keeps K cut (log, st) (log', st') -> K k -> books_wf cut log st -> rows_recorded log st ->
  known log' st' k.1.2 ->
  exists new, log' = log ++ new /\ latest st' !! k = newer_opt (latest st !! k) (newest_of (evidence_for k new)).
Proof.
  intros [Hs HK] Hk Hb Hr Hkn. destruct (row_step _ _ _ _ _ k Hs Hb) as (new & -> & [Hl|[-> Hl]]); [by exists new|].
  exists []. split; [done|]. rewrite Hl. destruct (latest st !! k) eqn:E; [|done]. exfalso. destruct Hkn as [Hin|Hin].
  - destruct (HK k Hk Hin) as [? Hl']; [by eexists|]. cbn in Hl'. congruence.
  - rewrite app_nil_r in Hin. rewrite (row_absent _ _ _ Hr Hin) in E. done.
Qed.

Lemma status_step cut log st log' st' p : store_step cut (log, st) (log', st') -> books_wf cut log st -> rows_recorded log st ->
  (forall config q, p ∈ routes st' -> is_Some (latest st !! (0, config, p, q)) -> is_Some (latest st' !! (0, config, p, q))) ->
  status_current log st p -> status_current log' st' p.
Proof.
  intros Hs Hb Hr Hkeep Ho. inversion Hs; subst; clear Hs; try exact Ho.
  - rename select (InsertProxyStatistics _ _ _ = _) into Hi.
    destruct (insert_derived _ _ _ _ Hi (rows_distinct _ _ _ Hb)) as (l & rows & n & -> & Hd & Hrt & _).
    assert (history (record_derived now rows (set_rows (history st ++ rows) n (set_ledger l st))) = history st ++ rows) as ->.
    { unfold record_derived. cbv zeta. by destruct (latestProxyStatusEntries now rows). }
    rewrite drop_app_length. by apply record_status.
  - unfold ensureProxyDailyChecksBackfilled. by destruct (loadWorkspaceProxyIDsMissingBackfill _ _).
  - destruct (pruned_page tables cursor limit st) as (gone & Hp & _). rewrite Hp in *. intros Hkn. cbn in Hkn.
    cbn [overall latest set_latest]. rewrite (Ho Hkn). apply overall_of_ext. intros [[[ws config] p'] q]. cbn. intros -> ->.
    destruct Hkn as [Hin|Hin]; [|cbn; rewrite map_lookup_filter, (row_absent _ _ (0, config, p, q) Hr Hin); done].
    specialize (Hkeep config q Hin). cbn in Hkeep. rewrite map_lookup_filter in *. destruct (latest st !! _); [|done]. cbn in *.
    case_guard; [done|]. by destruct Hkeep.
  - intros Hkn. cbn. refine (_ (Ho _)); [done|]. destruct Hkn as [[->%elem_of_singleton|?]%elem_of_union|?]; [by right|by left|by right].
  - rename p0 into p'. intros Hq. cbn [overall latest delete_route]. destruct (decide (p = p')) as [->|Hp].
    + rewrite lookup_delete_eq. symmetry. unfold overall_of, unscoped.
      enough (filter (fun x => x.1.1.1.1 = 0 /\ x.1.1.2 = p') (filter (fun x => x.1.1.2 <> p') (latest st)) = ∅) as -> by done.
      apply map_empty. intros k. apply map_lookup_filter_None. right. intros v Hlk [_ Hk].
      apply map_lookup_filter_Some in Hlk as [_ Hne]. by apply Hne.
    + assert (known log' st p) as Hkn by (destruct Hq as [Hq|]; [left; cbn in Hq; by apply elem_of_difference in Hq as [? _]|by right]).
      rewrite lookup_delete_ne, (Ho Hkn) by done. apply overall_of_ext. intros k _ Hkq. rewrite map_lookup_filter.
      destruct (latest st !! k); [cbn; rewrite option_guard_True; [done|]|done]. cbn. congruence.
Qed.

(** The pruning leaves the row of the configuration an owner checks a route under,
    and every row of a workspace whose compilation is pending. *)
Lemma current_evidence_kept t cursor limit st ws w config p q : 0 < ws -> workspaces t !! ws = Some w ->
  ew_dirty w = true \/
    (0 < ew_generation w /\ config = current_key t ws w p q /\ config <> "" /\ (ws, p) ∈ owners t) ->
  latest (PruneObsoleteCheckerEvidencePage t cursor limit st).2 !! (ws, config, p, q) = latest st !! (ws, config, p, q).
Proof.
  intros Hws Hw Hc. destruct (pruned_page t cursor limit st) as (gone & -> & Hg). cbn [latest set_latest].
  rewrite map_lookup_filter. destruct (latest st !! _); [|done]. cbn. rewrite option_guard_True; [done|].
  intros Hin%Hg. cbn in Hin. rewrite (proj2 (Z.eqb_neq ws 0)), (proj2 (Z.ltb_lt 0 ws)), Hw in Hin by lia. cbn in Hin.
  apply andb_true_iff in Hin as [Hd Hn]. destruct Hc as [Hd'|(Hgen & -> & Hne & Hown)]; [by rewrite Hd' in Hd|].
  rewrite (proj2 (Z.ltb_lt _ _) Hgen), String.eqb_refl, (proj2 (String.eqb_neq _ _) Hne), bool_decide_eq_true_2 in Hn by done. done.
Qed.

(** C16. Whatever order, batches and repetitions results arrive in: from any
    moment on, until it is pruned, the row of a workspace's configuration, a
    route and a protocol is the newest of what it showed at that moment and of
    the evidence recorded for it since - of everything recorded for it, if it was
    never pruned, and of everything since, if it had just been - so an older
    result that comes late changes nothing.  The overall status of a route is
    that of its rows without a workspace for as long as none of those is pruned. *)
Theorem latest_is_newest K cut log0 st0 log st p :
  rtc (store_step cut) ([], empty_store) (log0, st0) -> rtc (keeps K cut) (log0, st0) (log, st) -> p ∈ routes st ->
  (forall ws config q, let k := (ws, config, p, q) in K k ->
    exists since, log = log0 ++ since /\
      latest st !! k = newer_opt (latest st0 !! k) (newest_of (evidence_for k since)) /\
      forall e, e ∈ evidence_for k since \/ latest st0 !! k = Some e ->
        exists shown, latest st !! k = Some shown /\ isNewerLatestStat e shown = false) /\
  ((forall config q, K (0, config, p, q)) -> overall st0 !! p = overall_of p (latest st0) -> overall st !! p = overall_of p (latest st)).
Proof.
  intros H0 Hr Hp. apply store_wf_reachable in H0.
  assert ((books_wf cut log st /\ rows_recorded log st) /\
    (forall k, K k -> known log st k.1.2 ->
      exists since, log = log0 ++ since /\ latest st !! k = newer_opt (latest st0 !! k) (newest_of (evidence_for k since))) /\
    ((forall config q, K (0, config, p, q)) -> status_current log0 st0 p -> status_current log st p)) as (_ & Hl & Ho).
  { refine (rtc_ind_r (fun s => (books_wf cut s.1 s.2 /\ rows_recorded s.1 s.2) /\
      (forall k, K k -> known s.1 s.2 k.1.2 -> exists since, s.1 = log0 ++ since /\
        latest s.2 !! k = newer_opt (latest st0 !! k) (newest_of (evidence_for k since))) /\
      ((forall config q, K (0, config, p, q)) -> status_current log0 st0 p -> status_current s.1 s.2 p)) _ _ _ _ Hr).
    - split; [done|]. split; [|done]. intros k _ _. exists []. cbn. rewrite app_nil_r. split; [done|]. by destruct (latest st0 !! k).
    - intros [log1 st1] [log2 st2] _ Hk ([Hb Hw] & Hl & Ho). cbn [fst snd] in *. destruct (Hk) as [Hs HK].
      split; [split; [by eapply books_step|by eapply rows_step]|]. split.
      + intros k Hin Hkn. destruct (Hl k Hin) as (since & -> & E); [by eapply known_step|].
        destruct (row_kept _ _ _ _ _ _ _ Hk Hin Hb Hw Hkn) as (new & -> & ->). exists (since ++ new).
        by rewrite E, newer_opt_assoc, evidence_for_app, newest_app, app_assoc.
      + intros Hin Hc. eapply status_step; [done..| |by apply Ho]. intros config q Hq. by apply HK. }
  split; [|intros HK E; apply Ho; [done|by intros _|by left]]. intros ws config q k HK.
  destruct (Hl k HK) as (since & -> & E); [by left|]. exists since. split; [done|]. split; [done|]. rewrite E. intros e He.
  by apply newest_bound.
Qed.

(** A failed check, then the report of an earlier success. *)
Definition check_at (t : Z) (alive : bool) : ProxyStatistic := MkStat 0 alive 0 12 "tcp" [] 1 None 5 1 [] "" "" (Some t).

Definition failed_store : Store := after_insert [check_at 9 false] opened_store.
Definition late_store : Store := after_insert [check_at 4 true] failed_store.

(** Nobody owns the route any more: a page of the pruning takes the row away,
    after which the late result is what is shown. *)
Definition nobody : EvidenceTables := MkEvidenceTables ∅ ∅ ∅.
Definition pruned_store : Store := (PruneObsoleteCheckerEvidencePage nobody None 10 failed_store).2.

Example late_result_after_pruning :
  (PruneObsoleteCheckerEvidencePage nobody None 10 failed_store).1 = MkPage 1 1 None /\
  latest pruned_store !! (0, "", 5, 1) = None /\
  CheckedAt <$> latest (after_insert [check_at 4 true] pruned_store) !! (0, "", 5, 1) = Some 4.
Proof. by vm_compute. Qed.

Lemma latest_is_newest_witness :
  rtc (store_step 0) ([], empty_store) (history failed_store, failed_store) /\
  rtc (keeps (fun _ => True) 0) (history failed_store, failed_store) (history late_store, late_store) /\ 5 ∈ routes late_store /\
  overall late_store !! 5 = Some (MkOverall false 9) /\
  (exists shown, latest late_store !! (0, "", 5, 1) = Some shown /\
    isNewerLatestStat (latest_entry 0 true (with_id 2 0 (check_at 4 true))) shown = false).
Proof.
  assert (rtc (store_step 0) ([], empty_store) (history failed_store, failed_store)) as H0.
  { eapply rtc_l; [apply (step_add_route _ 5); [lia|apply not_elem_of_nil]|].
    eapply rtc_l; [apply (step_insert _ 0 [check_at 9 false] [] opened_store failed_store); vm_compute; reflexivity|].
    match goal with |- rtc _ ?a ?b => assert (a = b) as ->; [vm_compute; reflexivity|apply rtc_refl] end. }
  assert (rtc (keeps (fun _ => True) 0) (history failed_store, failed_store) (history late_store, late_store)) as Hr.
  { apply rtc_once. split.
    - assert ((history late_store, late_store) =
        (history failed_store ++ drop (length (history failed_store)) (history late_store), late_store)) as ->
        by (vm_compute; reflexivity).
      apply (step_insert _ 0 [check_at 4 true]). vm_compute. reflexivity.
    - intros k _ _ [e He]. assert (latest failed_store = latest late_store) as E by (vm_compute; reflexivity).
      cbn [snd] in *. rewrite <- E. by exists e. }
  assert (5 ∈ routes late_store) as H5 by (vm_compute; exact eq_refl).
  destruct (latest_is_newest _ _ _ _ _ _ 5 H0 Hr H5) as [Hl Ho].
  split; [exact H0|]. split; [exact Hr|]. split; [exact H5|]. split; [rewrite Ho; [vm_compute; reflexivity|done|vm_compute; reflexivity]|].
  destruct (Hl 0 "" 1 I) as (since & Hs & _ & Hn). apply Hn. left.
  assert (since = drop 1 (history late_store)) as -> by (rewrite Hs; reflexivity). vm_compute. left.
Defined.

End StatLatest.
