(* ===== verification/StatStream.v ===== *)
(** * Results through the Redis stream

    [internal/jobs/runtime/proxy_statistics.go] and
    [proxy_statistics_stream_maintenance.go].  Checkers add results to a stream;
    workers of a consumer group read them, commit them page by page with the
    transaction of StatStore.v, and acknowledge what is settled; a leader trims
    the stream and raises the replay floor.  Every reply may be lost, workers
    may die, the group may vanish and be restored.  The steps are the commands
    of the servers and the local moves of a worker, in any order the code or a
    failure allows.  Entry identifiers are pairs of numbers; the text of an
    entry and [json.Unmarshal] are parameters. *)

From S2P Require Import Prelude GoStrings Usage StatStore StatLedger.
From Stdlib Require Import Ascii.
From stdpp Require Import sorting strings.
Open Scope Z_scope.

Module StatStream.
Import StatStore StatLedger.

(** ** Overload policies *)

Definition statisticsOverloadPolicyBlock : string := "block".
Definition statisticsOverloadPolicyEvictOldest : string := "evict_oldest".
Definition statisticsOverloadPolicyDropNew : string := "drop_new".

Definition normalizeOverloadPolicy (raw : string) : string :=
  let policy := to_lower (trim_space raw) in
  if String.eqb policy statisticsOverloadPolicyDropNew || String.eqb policy statisticsOverloadPolicyEvictOldest ||
     String.eqb policy statisticsOverloadPolicyBlock
  then policy else statisticsOverloadPolicyBlock.

Definition overloadPolicyPriority (policy : string) : Z :=
  if String.eqb policy statisticsOverloadPolicyBlock then 3
  else if String.eqb policy statisticsOverloadPolicyDropNew then 1
  else if String.eqb policy statisticsOverloadPolicyEvictOldest then 0
  else 2.

(** One [workspace=policy] of the list; a later one replaces an earlier. *)
Definition policy_entry (m : gmap Z string) (entry : string) : gmap Z string :=
  match split_n2 "="%char (trim_space entry) with
  | [a; b] =>
      match ParseUint (trim_space a) with
      | Some ws => if ws =? 0 then m else <[ws := normalizeOverloadPolicy b]> m
      | None => m
      end
  | _ => m
  end.

Definition parseWorkspaceOverloadPolicies (raw : string) : gmap Z string :=
  let raw := trim_space raw in
  if String.eqb raw "" then ∅ else fold_left policy_entry (split_byte ","%char raw) ∅.

Definition resolveStatisticsOverloadPolicy (overloadPolicy : string) (policies : gmap Z string) (workspaceIDs : list Z) : string :=
  fold_left (fun selected ws =>
    match policies !! ws with
    | None => selected
    | Some override =>
        let override := normalizeOverloadPolicy override in
        if overloadPolicyPriority selected <? overloadPolicyPriority override then override else selected
    end) workspaceIDs (normalizeOverloadPolicy overloadPolicy).

(** What [enqueueProxyStatisticToStream] does before [XADD]: [(enqueued,
    handled)] when it stops there; a failed [XLEN] is [None]. *)
Definition stream_admits (streamLen : option Z) (maxLen : Z) (policy : string) : option (bool * bool) :=
  if (String.eqb policy statisticsOverloadPolicyDropNew || String.eqb policy statisticsOverloadPolicyBlock) && (0 <? maxLen) then
    match streamLen with
    | Some n =>
        if maxLen <=? n then Some (false, String.eqb policy statisticsOverloadPolicyDropNew) else None
    | None => None
    end
  else None.

(** ** Pages *)

Definition statisticsBatchThreshold : nat := 5000.
Definition statisticsLatestRowBudget : nat := 5000.

(** Rows of [proxy_latest_statistics] a result may write. *)
Definition latest_cost (s : ProxyStatistic) : nat :=
  Nat.max 1 (length (List.filter (fun e => negb (ev_workspace e =? 0) && negb (String.eqb (ev_config e) "")) (CheckEvidence s))).

Fixpoint bounded_prefix (stats : list ProxyStatistic) (index rows : nat) : nat * nat :=
  match stats with
  | [] => (index, rows)
  | s :: rest =>
      if (index =? statisticsBatchThreshold)%nat then (index, rows)
      else
        let cost := latest_cost s in
        if (0 <? index)%nat && (statisticsLatestRowBudget <? rows + cost)%nat then (index, rows)
        else if (statisticsLatestRowBudget <=? rows + cost)%nat then (S index, (rows + cost)%nat)
        else bounded_prefix rest (S index) (rows + cost)%nat
  end.

(** [boundedStatisticsPrefix] *)
Definition boundedStatisticsPrefix (stats : list ProxyStatistic) : nat * nat := bounded_prefix stats 0 0.

Definition collectProxyIDs (stats : list ProxyStatistic) : list Z :=
  dedup_go [] (List.filter (fun p => negb (p =? 0)) (map ProxyID stats)).

(** [prepareProxyStatistics]: which results are kept, given the routes there are. *)
Definition prepareProxyStatistics (rts : gset Z) (stats : list ProxyStatistic) (s : ProxyStatistic) : bool :=
  let proxyIDs := collectProxyIDs stats in
  let existing := List.filter (fun p => bool_decide (p ∈ rts)) proxyIDs in
  match proxyIDs, existing with
  | [], _ => true
  | _, [] => false
  | _, _ => if (length existing =? length proxyIDs)%nat then true else bool_decide (ProxyID s ∈ existing)
  end.

(** The loop of [flushProxyStatisticsContext]; a page takes at least one result,
    so the length of the buffer is fuel enough.  What is left, the tables, and
    whether every page was committed. *)
Fixpoint flush_pages (fuel : nat) (now : Z) (keep : ProxyStatistic -> bool) (rest : list ProxyStatistic) (st : Store)
    : list ProxyStatistic * Store * bool :=
  match rest, fuel with
  | [], _ => ([], st, true)
  | _, O => (rest, st, false)
  | _, S fuel' =>
      let n := (boundedStatisticsPrefix rest).1 in
      match InsertProxyStatistics now (List.filter keep (take n rest)) st with
      | None => (rest, st, false)
      | Some st' => flush_pages fuel' now keep (drop n rest) st'
      end
  end.

Definition flushProxyStatistics (now : Z) (buffer : list ProxyStatistic) (st : Store) : list ProxyStatistic * Store * bool :=
  flush_pages (length buffer) now (prepareProxyStatistics (routes st) buffer) buffer st.

(** ** The system *)

Section Stream.
(** The name of the stream and the decoder of a result. *)
Context (streamKey : string) (unmarshal : string -> option ProxyStatistic).

(** [decodeProxyStatisticStreamMessage]; a deleted entry has no values. *)
Definition decodeProxyStatisticStreamMessage (values : option string) : option ProxyStatistic :=
  match values with
  | None => None
  | Some payload => if String.eqb (trim_space payload) "" then None else unmarshal payload
  end.

Definition with_event (id : string) (s : ProxyStatistic) : ProxyStatistic :=
  MkStat (StatID s) (Alive s) (Attempt s) (ResponseTime s) (TransportProtocol s) (CheckEvidence s) (ProtocolID s) (LevelID s)
    (ProxyID s) (JudgeID s) (WorkspaceIDs s) streamKey id (CreatedAt s).

Definition id_lt (a b : Z * Z) : bool := (a.1 <? b.1) || ((a.1 =? b.1) && (a.2 <? b.2)).

(** The consumer group: the last delivered entry and the pending ones. *)
Record Group := MkGroup { last_delivered : Z * Z; pending : gset (Z * Z) }.

(** A worker: decoded results, tracked identifiers, and while it flushes the
    choice its preparation made. *)
Record Worker := MkWorker { buffer : list ProxyStatistic; messageIDs : list (Z * Z); prepared : option (ProxyStatistic -> bool) }.

Record Sys := MkSys {
  entries : gmap (Z * Z) string; top : Z * Z; group : option Group;
  sent : list (Z * Z * option string); workers : gmap nat Worker; observed : list (Z * Z); store : Store
}.

(** What happened: entries added, results recorded, results of deleted routes
    passed over, entries trimmed by [evict_oldest]. *)
Record History := MkHistory {
  added : gmap (Z * Z) string; recorded : list ProxyStatistic; skipped : gset string; evicted : gset (Z * Z)
}.

(** [XDEL] and [XACK] of [ackDeleteStatisticScript]. *)
Definition ack_delete (ids : list (Z * Z)) (s : Sys) : Sys :=
  MkSys (foldr delete (entries s) ids) (top s)
    (option_map (fun g => MkGroup (last_delivered g) (pending g ∖ list_to_set ids)) (group s))
    (sent s) (workers s) (observed s) (store s).

Definition set_worker (w : nat) (x : Worker) (s : Sys) : Sys :=
  MkSys (entries s) (top s) (group s) (sent s) (<[w := x]> (workers s)) (observed s) (store s).

Definition set_group (g : option Group) (s : Sys) : Sys :=
  MkSys (entries s) (top s) g (sent s) (workers s) (observed s) (store s).

Definition set_entries (e : gmap (Z * Z) string) (s : Sys) : Sys :=
  MkSys e (top s) (group s) (sent s) (workers s) (observed s) (store s).

Definition set_store (st : Store) (s : Sys) : Sys :=
  MkSys (entries s) (top s) (group s) (sent s) (workers s) (observed s) st.

(** The outcome of a command: done, failed, or done with the reply lost. *)
Inductive outcome := Done | Failed | ReplyLost.

Definition took_effect (o : outcome) : bool := match o with Failed => false | _ => true end.
Definition acknowledged (o : outcome) : bool := match o with Done => true | _ => false end.

(** [appendStreamMessagesToBuffer], one message; [o] is the outcome of
    acknowledging a malformed one. *)
Definition append_message (w : nat) (x : Worker) (id : Z * Z) (values : option string) (o : outcome) (s : Sys) : Sys :=
  if bool_decide (id ∈ messageIDs x) then s
  else
    match decodeProxyStatisticStreamMessage values with
    | Some stat => set_worker w (MkWorker (buffer x ++ [with_event (entry_id id) stat]) (messageIDs x ++ [id]) (prepared x)) s
    | None =>
        let s := if took_effect o then ack_delete [id] s else s in
        if acknowledged o then s else set_worker w (MkWorker (buffer x) (messageIDs x ++ [id]) (prepared x)) s
    end.

(** [ackReadyStreamStatistics]: tracked identifiers without a result left. *)
Definition ready_ids (x : Worker) : list (Z * Z) :=
  List.filter (fun id => negb (bool_decide (entry_id id ∈ map EventID (buffer x)))) (messageIDs x).

(** The replay boundary: [statisticReplayFloorScript] and the successor of the
    last delivered entry when nothing is pending. *)
Definition id_min (a b : Z * Z) : Z * Z := if id_lt b a then b else a.

Definition replay_boundary (g : Group) : option (Z * Z) :=
  match elements (pending g) with
  | i :: rest => Some (fold_left id_min rest i)
  | [] =>
      let '(ms, seq_) := last_delivered g in
      if seq_ =? 2 ^ 64 - 1 then None else Some (ms, seq_ + 1)
  end.

(** What is read past [last_delivered] up to an entry. *)
Definition unread (g : Group) (upto : Z * Z) (e : gmap (Z * Z) string) : gmap (Z * Z) string :=
  filter (fun x => id_lt (last_delivered g) x.1 = true /\ id_lt upto x.1 = false) e.

Definition ids_of (m : gmap (Z * Z) string) : gset (Z * Z) := dom m.

Definition messages_of (m : gmap (Z * Z) string) : list (Z * Z * option string) := map (fun '(i, raw) => (i, Some raw)) (map_to_list m).

(** The routes' results a committed page passed over. *)
Definition passed_over (keep : ProxyStatistic -> bool) (l : list ProxyStatistic) : gset string :=
  list_to_set (map EventID (List.filter (fun s => negb (keep s)) l)).

Inductive sys_step : History * Sys -> History * Sys -> Prop :=
(* XADD, with MAXLEN for evict_oldest: entries below [from] go *)
| sys_add id raw from h s :
    in_u64_pair id -> id_lt (top s) id = true ->
    let e := <[id := raw]> (entries s) in
    let gone := filter (fun x => id_lt x.1 from = true) e in
    sys_step (h, s)
      (MkHistory (<[id := raw]> (added h)) (recorded h) (skipped h) (evicted h ∪ ids_of gone),
       MkSys (filter (fun x => id_lt x.1 from = false) e) id (group s) (sent s) (workers s) (observed s) (store s))
(* XREADGROUP with ">" *)
| sys_read g upto h s :
    group s = Some g -> in_u64_pair upto -> id_lt (top s) upto = false -> id_lt upto (last_delivered g) = false ->
    let new := unread g upto (entries s) in
    sys_step (h, s)
      (h, MkSys (entries s) (top s) (Some (MkGroup upto (pending g ∪ ids_of new))) (messages_of new ++ sent s)
            (workers s) (observed s) (store s))
(* XREADGROUP of a consumer's pending entries, and XAUTOCLAIM *)
| sys_redeliver g id h s :
    group s = Some g -> id ∈ pending g ->
    sys_step (h, s)
      (h, MkSys (entries s) (top s) (group s) ((id, entries s !! id) :: sent s) (workers s) (observed s) (store s))
(* XAUTOCLAIM drops pending entries that were deleted *)
| sys_drop_pending g id h s :
    group s = Some g -> entries s !! id = None ->
    sys_step (h, s) (h, set_group (Some (MkGroup (last_delivered g) (pending g ∖ {[id]}))) s)
| sys_group_lost h s : sys_step (h, s) (h, set_group None s)
(* initializeProxyStatisticStream and repairProxyStatisticGroup *)
| sys_group_create h s : group s = None -> sys_step (h, s) (h, set_group (Some (MkGroup (0, 0) ∅)) s)
| sys_worker_start w h s : workers s !! w = None -> sys_step (h, s) (h, set_worker w (MkWorker [] [] None) s)
| sys_worker_gone w h s :
    sys_step (h, s) (h, MkSys (entries s) (top s) (group s) (sent s) (delete w (workers s)) (observed s) (store s))
| sys_receive w x id values o h s :
    workers s !! w = Some x -> prepared x = None -> (id, values) ∈ sent s -> sys_step (h, s) (h, append_message w x id values o s)
| sys_prepare w x h s :
    workers s !! w = Some x ->
    sys_step (h, s)
      (h, set_worker w (MkWorker (buffer x) (messageIDs x) (Some (prepareProxyStatistics (routes (store s)) (buffer x)))) s)
| sys_flush_failed w x h s :
    workers s !! w = Some x -> sys_step (h, s) (h, set_worker w (MkWorker (buffer x) (messageIDs x) None) s)
(* one page of flushProxyStatisticsContext; without its reply nothing is released *)
| sys_commit w x keep now replied st h s :
    workers s !! w = Some x -> prepared x = Some keep ->
    let n := (boundedStatisticsPrefix (buffer x)).1 in
    InsertProxyStatistics now (List.filter keep (take n (buffer x))) (store s) = Some st ->
    let rows := drop (length (history (store s))) (history st) in
    sys_step (h, s)
      (MkHistory (added h) (recorded h ++ rows) (skipped h ∪ if replied : bool then passed_over keep (take n (buffer x)) else ∅) (evicted h),
       set_worker w (if replied then MkWorker (drop n (buffer x)) (messageIDs x) (Some keep) else MkWorker (buffer x) (messageIDs x) None)
         (set_store st s))
(* one batch of ackAndDeleteStreamMessageIDs *)
| sys_ack w x ids o h s :
    workers s !! w = Some x -> ids ⊆ ready_ids x ->
    sys_step (h, s)
      (h, let s := if took_effect o then ack_delete ids s else s in
          if acknowledged o
          then set_worker w (MkWorker (buffer x) (List.filter (fun id => negb (bool_decide (id ∈ ids))) (messageIDs x)) (prepared x)) s
          else s)
(* maintainProxyStatisticStream: the boundary, XTRIM and the retirement *)
| sys_observe g b h s :
    group s = Some g -> replay_boundary g = Some b ->
    sys_step (h, s) (h, MkSys (entries s) (top s) (group s) (sent s) (workers s) (b :: observed s) (store s))
| sys_trim b h s :
    b ∈ observed s -> sys_step (h, s) (h, set_entries (filter (fun x => id_lt x.1 b = false) (entries s)) s)
| sys_retire b limit n l h s :
    b ∈ observed s -> RetireProxyStatisticEvents streamKey (entry_id b) limit (ledger (store s)) = Some (n, l) ->
    sys_step (h, s) (h, set_store (set_ledger l (store s)) s)
(* results without identity, and whatever else happens to the tables *)
| sys_memory now stats st h s :
    Forall (fun x => has_event x = false) stats -> InsertProxyStatistics now stats (store s) = Some st ->
    sys_step (h, s)
      (MkHistory (added h) (recorded h ++ drop (length (history (store s))) (history st)) (skipped h) (evicted h), set_store st s)
| sys_tables st h s :
    ledger st = ledger (store s) -> sys_step (h, s) (h, set_store st s).

Definition initial : History * Sys := (MkHistory ∅ [] ∅ ∅, MkSys ∅ (0, 0) None [] ∅ [] empty_store).

End Stream.
End StatStream.
