(* ===== verification/StatStreamFacts.v ===== *)
(** * No result is lost on the way, none is recorded twice

    The invariant of the system of StatStream.v and what follows from it: an
    entry leaves the stream only when its result is recorded, or it cannot be
    decoded, or its route is gone, or [evict_oldest] trimmed it; the replay
    floor never passes an entry that is still to be recorded. *)

From S2P Require Import Prelude GoStrings Usage StatStore StatLedger DailyChecks StatStream.
From Stdlib Require Import Ascii.
From stdpp Require Import strings.
Open Scope Z_scope.

Module StatStreamFacts.
Import StatStore StatLedger StatStream.

(** ** Identifiers *)

Ltac id_lia := unfold id_lt in *; cbn [fst snd] in *; lia.

Lemma id_lt_compare a b : entry_compare a b = Lt -> id_lt a b = true.
Proof. unfold entry_compare, id_lt. destruct (Z.compare_spec a.1 b.1), (Z.compare_spec a.2 b.2); intros; try done; lia. Qed.

Lemma entry_id_inj a b : in_u64_pair a -> in_u64_pair b -> entry_id a = entry_id b -> a = b.
Proof.
  intros Ha Hb He. pose proof (sort_id_compare a b Ha Hb) as Hc. rewrite He, str_compare_refl in Hc. unfold entry_compare in Hc.
  destruct a, b; cbn in *. destruct (Z.compare_spec z z1), (Z.compare_spec z0 z2); congruence.
Qed.

Lemma id_min_spec l i : let m := fold_left id_min l i in
  (m = i \/ m ∈ l) /\ id_lt i m = false /\ forall j, j ∈ l -> id_lt j m = false.
Proof.
  cbv zeta. revert i. induction l as [|x l IH]; intros i; cbn [fold_left].
  { split_and!; [by left|id_lia|by intros j ?%not_elem_of_nil]. }
  destruct (IH (id_min i x)) as (H1 & H2 & H3). unfold id_min in *. split_and!.
  - destruct H1 as [H1|H1]; [|by right; apply list_elem_of_further]. destruct (id_lt x i); rewrite H1; [right; apply list_elem_of_here|by left].
  - destruct (id_lt x i) eqn:E; [|done]. id_lia.
  - intros j [->|Hj]%elem_of_cons; [|by apply H3]. destruct (id_lt x i) eqn:E; [done|]. id_lia.
Qed.

Section Facts.
Context (streamKey : string) (unmarshal : string -> option ProxyStatistic).

(** ** The invariant *)

(** Nothing is left to do for an entry. *)
Definition finished (h : History) (i : Z * Z) : Prop :=
  (streamKey, entry_id i) ∈ identities (recorded h) \/
  (exists raw, added h !! i = Some raw /\ decodeProxyStatisticStreamMessage unmarshal (Some raw) = None) \/
  entry_id i ∈ skipped h \/ i ∈ evicted h.

(** More has happened. *)
Record later (h h' : History) : Prop := {
  later_added i raw : added h !! i = Some raw -> added h' !! i = Some raw;
  later_recorded k : k ∈ identities (recorded h) -> k ∈ identities (recorded h');
  later_skipped : skipped h ⊆ skipped h';
  later_evicted : evicted h ⊆ evicted h'
}.

Lemma later_refl h : later h h.
Proof. by split. Qed.

Lemma finished_later h h' i : later h h' -> finished h i -> finished h' i.
Proof.
  intros [Ha Hr Hs He] [?|[(raw & ? & ?)|[?|?]]]; [left; auto|right; left; exists raw; auto|right; right; left; set_solver|].
  right; right; right. set_solver.
Qed.

Definition is_added (h : History) (i : Z * Z) : Prop := is_Some (added h !! i).

Definition ids_wf (h : History) (t : Z * Z) : Prop :=
  in_u64_pair t /\ forall i, is_added h i -> in_u64_pair i /\ id_lt t i = false /\ id_lt (0, 0) i = true.

Definition entries_wf (h : History) (e : gmap (Z * Z) string) : Prop :=
  (forall i raw, e !! i = Some raw -> added h !! i = Some raw) /\ (forall i, is_added h i -> is_Some (e !! i) \/ finished h i).

Definition group_wf (h : History) (t : Z * Z) (g : Group) : Prop :=
  in_u64_pair (last_delivered g) /\ id_lt t (last_delivered g) = false /\
  (forall i, i ∈ pending g -> is_added h i /\ id_lt (last_delivered g) i = false) /\
  (forall i, is_added h i -> id_lt (last_delivered g) i = false -> i ∈ pending g \/ finished h i).

Definition message_wf (h : History) (m : Z * Z * option string) : Prop :=
  is_added h m.1 /\ (added h !! m.1 = m.2 \/ (m.2 = None /\ finished h m.1)).

Definition worker_wf (h : History) (x : Worker) : Prop :=
  (forall s, s ∈ buffer x -> exists i, is_added h i /\ has_event s = true /\ event_key s = (streamKey, entry_id i)) /\
  (forall i, i ∈ messageIDs x -> is_added h i /\ (entry_id i ∈ map EventID (buffer x) \/ finished h i)).

(** Everything before the boundary is finished, and nothing new comes before it. *)
Definition boundary_wf (h : History) (t b : Z * Z) : Prop :=
  in_u64_pair b /\ (forall i, id_lt t i = true -> id_lt i b = false) /\ (forall i, is_added h i -> id_lt i b = true -> finished h i).

Definition floor_wf (bs : list (Z * Z)) (l : Ledger) : Prop :=
  forall f, floors l !! streamKey = Some f -> f = "" \/ exists b, b ∈ bs /\ f = ProxyStatisticEventSortID (entry_id b).

Record sys_wf (h : History) (s : Sys) : Prop := {
  wf_ids : ids_wf h (top s);
  wf_entries : entries_wf h (entries s);
  wf_group g : group s = Some g -> group_wf h (top s) g;
  wf_sent m : m ∈ sent s -> message_wf h m;
  wf_workers w x : workers s !! w = Some x -> worker_wf h x;
  wf_observed b : b ∈ observed s -> boundary_wf h (top s) b;
  wf_floor : floor_wf (observed s) (ledger (store s));
  wf_log : log_wf (recorded h) (ledger (store s))
}.

(** ** The parts are stable *)

(** As [h] grows without new entries. *)
Record same_added (h h' : History) : Prop := { sa_later : later h h'; sa_added : added h' = added h }.

Lemma is_added_same h h' i : same_added h h' -> is_added h' i <-> is_added h i.
Proof. intros [_ He]. unfold is_added. by rewrite He. Qed.

Lemma ids_wf_same h h' t : same_added h h' -> ids_wf h t -> ids_wf h' t.
Proof. intros Hs [Ht Hi]. split; [done|]. intros i Ha. apply Hi, (is_added_same h h' i Hs), Ha. Qed.

Lemma entries_wf_same h h' e : same_added h h' -> entries_wf h e -> entries_wf h' e.
Proof.
  intros Hs [H1 H2]. split; [rewrite (sa_added _ _ Hs); exact H1|]. intros i Ha. apply (is_added_same h h' i Hs) in Ha.
  destruct (H2 i Ha); [by left|right]. eapply finished_later; [apply Hs|done].
Qed.

Lemma group_wf_same h h' t g : same_added h h' -> group_wf h t g -> group_wf h' t g.
Proof.
  intros Hs (H1 & H2 & H3 & H4). split_and!; try done.
  - intros i Hi. destruct (H3 i Hi). split; [by apply (is_added_same h h' i Hs)|done].
  - intros i Ha Hl. apply (is_added_same h h' i Hs) in Ha. destruct (H4 i Ha Hl); [by left|right].
    eapply finished_later; [apply Hs|done].
Qed.

Lemma message_wf_later h h' m : later h h' -> message_wf h m -> message_wf h' m.
Proof.
  intros Hl [[raw Ha] Hm]. pose proof (later_added _ _ Hl _ _ Ha) as Ha'. split; [by eexists|].
  destruct Hm as [Hm|[Hn Hf]]; [left; congruence|right]. split; [done|]. by eapply finished_later.
Qed.

Lemma is_added_later h h' i : later h h' -> is_added h i -> is_added h' i.
Proof. intros Hl [raw Ha]. exists raw. by eapply later_added. Qed.

Lemma worker_wf_later h h' x : later h h' -> worker_wf h x -> worker_wf h' x.
Proof.
  intros Hl [H1 H2]. split.
  - intros s Hs. destruct (H1 s Hs) as (i & Ha & ?). exists i. split; [by eapply is_added_later|done].
  - intros i Hi. destruct (H2 i Hi) as [Ha Hf]. split; [by eapply is_added_later|]. destruct Hf; [by left|right; by eapply finished_later].
Qed.

Lemma boundary_wf_same h h' t b : same_added h h' -> boundary_wf h t b -> boundary_wf h' t b.
Proof.
  intros Hs (H1 & H2 & H3). split_and!; try done. intros i Ha Hb. apply (is_added_same h h' i Hs) in Ha.
  eapply finished_later; [apply Hs|auto].
Qed.

(** A step that only settles more: the system may change as long as each part stays well formed. *)
Lemma sys_wf_same h h' s s' : same_added h h' -> sys_wf h s -> top s' = top s ->
  (entries_wf h (entries s) -> entries_wf h' (entries s')) ->
  (forall g, group s' = Some g -> group_wf h' (top s) g) ->
  (forall m, m ∈ sent s' -> message_wf h' m) ->
  (forall w x, workers s' !! w = Some x -> worker_wf h' x) ->
  (forall b, b ∈ observed s' -> boundary_wf h' (top s) b) ->
  floor_wf (observed s') (ledger (store s')) -> log_wf (recorded h') (ledger (store s')) -> sys_wf h' s'.
Proof.
  intros Hs [W1 W2 W3 W4 W5 W6 W7 W8] Ht He Hg Hm Hw Hb Hf Hl.
  split; rewrite ?Ht; auto. by eapply ids_wf_same.
Qed.

(** ** Workers *)

Lemma later_same h : same_added h h.
Proof. split; [apply later_refl|done]. Qed.

Lemma set_worker_wf h s w x : sys_wf h s -> worker_wf h x -> sys_wf h (set_worker w x s).
Proof.
  intros [W1 W2 W3 W4 W5 W6 W7 W8] Hx. split; auto. intros w' x'. cbn.
  destruct (decide (w = w')) as [<-|Hne]; [rewrite lookup_insert_eq; by intros [= <-]|rewrite lookup_insert_ne by done; apply W5].
Qed.

Lemma lookup_deleted (ids : list (Z * Z)) (m : gmap (Z * Z) string) i :
  foldr delete m ids !! i = if decide (i ∈ ids) then None else m !! i.
Proof.
  induction ids as [|j ids IH]; [done|]. cbn [foldr]. destruct (decide (j = i)) as [->|Hne].
  - rewrite lookup_delete_eq. by rewrite decide_True by apply list_elem_of_here.
  - rewrite lookup_delete_ne, IH by done. destruct (decide (i ∈ ids)); [by rewrite decide_True by by apply list_elem_of_further|].
    rewrite decide_False; [done|]. by intros [->|?]%elem_of_cons.
Qed.

Lemma ack_delete_wf h s ids : sys_wf h s -> (forall i, i ∈ ids -> finished h i) -> sys_wf h (ack_delete ids s).
Proof.
  intros [W1 [E1 E2] W3 W4 W5 W6 W7 W8] Hf. split; auto.
  - split; cbn.
    + intros i raw. rewrite lookup_deleted. destruct (decide _); [done|apply E1].
    + intros i Ha. rewrite lookup_deleted. destruct (decide _) as [Hi|]; [right; auto|auto].
  - cbn. intros g Hg. destruct (group s) as [g0|]; [|done]. injection Hg as <-.
    destruct (W3 g0 eq_refl) as (H1 & H2 & H3 & H4). split_and!; try done; cbn.
    + intros i Hi. apply H3. set_solver.
    + intros i Ha Hl. destruct (decide (i ∈ ids)) as [Hi|Hi]; [right; auto|]. destruct (H4 i Ha Hl) as [Hp|]; [left|by right].
      apply elem_of_difference. split; [done|]. by rewrite elem_of_list_to_set.
Qed.

Lemma decode_event id stat : has_event (with_event streamKey (entry_id id) stat) = true /\
  event_key (with_event streamKey (entry_id id) stat) = (streamKey, entry_id id).
Proof.
  split; [|done]. unfold has_event. cbn. apply negb_true_iff, String.eqb_neq. unfold entry_id. by destruct (itoa id.1).
Qed.

Lemma append_message_wf h s w x id values o : sys_wf h s -> workers s !! w = Some x -> (id, values) ∈ sent s ->
  sys_wf h (append_message streamKey unmarshal w x id values o s).
Proof.
  intros Hw Hx Hm. unfold append_message. case_bool_decide as Hd; [done|].
  destruct (wf_workers _ _ Hw _ _ Hx) as [H1 H2]. destruct (wf_sent _ _ Hw _ Hm) as [Ha Hv]. cbn in Ha, Hv.
  destruct (decodeProxyStatisticStreamMessage unmarshal values) as [stat|] eqn:E.
  - apply set_worker_wf; [done|]. destruct (decode_event id stat) as [He Hk]. split; cbn.
    + intros s' [Hs|Hs]%elem_of_app; [by apply H1|]. apply list_elem_of_singleton in Hs as ->. by exists id.
    + intros i [Hi|Hi]%elem_of_app.
      * destruct (H2 i Hi) as [Hai Hf]. split; [done|]. destruct Hf as [Hf|]; [left|by right]. rewrite map_app. by apply elem_of_app; left.
      * apply list_elem_of_singleton in Hi as ->. split; [done|]. left. rewrite map_app. apply elem_of_app. right. apply list_elem_of_here.
  - assert (finished h id) as Hf.
    { destruct Hv as [Hv|[_ ?]]; [|done]. destruct Ha as [raw Hraw]. right; left. exists raw. split; [done|]. congruence. }
    assert (sys_wf h (if took_effect o then ack_delete [id] s else s)) as Hs.
    { destruct (took_effect o); [|done]. apply ack_delete_wf; [done|]. by intros i ->%list_elem_of_singleton. }
    destruct (acknowledged o); [done|]. apply set_worker_wf; [done|]. split; [done|]. cbn.
    intros i [Hi|Hi]%elem_of_app; [by apply H2|]. apply list_elem_of_singleton in Hi as ->. by split; [|right].
Qed.

Lemma ready_finished h x id : worker_wf h x -> id ∈ ready_ids x -> finished h id.
Proof.
  intros [_ H2]. unfold ready_ids. rewrite list_elem_of_In, filter_In, <- list_elem_of_In. intros [Hi Hb].
  apply negb_true_iff, bool_decide_eq_false in Hb. by destruct (H2 id Hi) as [_ [?|?]].
Qed.

Lemma ack_wf h s w x ids o : sys_wf h s -> workers s !! w = Some x -> ids ⊆ ready_ids x ->
  sys_wf h (let s := if took_effect o then ack_delete ids s else s in
    if acknowledged o
    then set_worker w (MkWorker (buffer x) (List.filter (fun id => negb (bool_decide (id ∈ ids))) (messageIDs x)) (prepared x)) s
    else s).
Proof.
  intros Hw Hx Hids. pose proof (wf_workers _ _ Hw _ _ Hx) as Hwx. cbv zeta.
  assert (sys_wf h (if took_effect o then ack_delete ids s else s)) as Hs.
  { destruct (took_effect o); [|done]. apply ack_delete_wf; [done|]. intros i Hi. by eapply ready_finished, Hids. }
  destruct (acknowledged o); [|done]. apply set_worker_wf; [done|]. destruct Hwx as [H1 H2]. split; [done|]. cbn.
  intros i Hi. apply H2. by rewrite list_elem_of_In, filter_In, <- list_elem_of_In in Hi; destruct Hi.
Qed.

(** ** Pages *)

(** What a committed page does to the results recorded. *)
Lemma commit_later h rows sk : later h (MkHistory (added h) (recorded h ++ rows) (skipped h ∪ sk) (evicted h)).
Proof. split; cbn [added recorded skipped evicted]; [done| |set_solver|done]. intros k Hk. rewrite identities_app. by apply elem_of_app; left. Qed.

Lemma floor_wf_insert bs now stats st st' : floor_wf bs (ledger st) -> InsertProxyStatistics now stats st = Some st' ->
  floor_wf bs (ledger st').
Proof.
  intros Hf Hi f Hl. destruct (insert_spec _ _ _ _ Hi) as (accepted & rows & Ha & _).
  destruct (accepts_floors _ _ _ _ Ha _ _ Hl) as [?| ->]; [auto|by left].
Qed.

(** A result below the floor is finished. *)
Lemma below_floor_finished h s i : sys_wf h s -> is_added h i -> below_floor (ledger (store s)) (streamKey, entry_id i) -> finished h i.
Proof.
  intros Hw Ha (f & Hf & Hlt). cbn in Hf, Hlt. destruct (wf_floor _ _ Hw f Hf) as [->|(b & Hb & ->)]; [by rewrite str_ltb_nil in Hlt|].
  destruct (wf_observed _ _ Hw b Hb) as (Hu & _ & H3). apply H3; [done|]. apply id_lt_compare.
  destruct (proj2 (wf_ids _ _ Hw) i Ha) as [Hui _]. rewrite <- sort_id_compare by done. unfold String.ltb in Hlt. by destruct (String.compare _ _).
Qed.

(** Inserting results, whatever becomes of the buffers. *)
Lemma insert_wf h s now stats st sk s' :
  sys_wf h s -> InsertProxyStatistics now stats (store s) = Some st ->
  let h' := MkHistory (added h) (recorded h ++ drop (length (history (store s))) (history st)) (skipped h ∪ sk) (evicted h) in
  entries s' = entries s -> top s' = top s -> group s' = group s -> sent s' = sent s -> observed s' = observed s -> store s' = st ->
  (forall w x, workers s' !! w = Some x -> worker_wf h' x) -> sys_wf h' s'.
Proof.
  intros Hw Hi h' He Ht Hg Hs Ho Hst Hx. assert (same_added h h') as Hsame by (split; [apply commit_later|done]).
  pose proof (sa_later _ _ Hsame) as Hl. eapply sys_wf_same; try done; rewrite ?He, ?Hg, ?Hs, ?Ho, ?Hst.
  - by apply entries_wf_same.
  - intros g Hgg. eapply group_wf_same; [done|]. by apply (wf_group _ _ Hw).
  - intros m Hm. eapply message_wf_later; [done|]. by apply (wf_sent _ _ Hw).
  - intros b Hb. eapply boundary_wf_same; [done|]. by apply (wf_observed _ _ Hw).
  - eapply floor_wf_insert; [apply (wf_floor _ _ Hw)|done].
  - by eapply log_wf_insert; [apply (wf_log _ _ Hw)|].
Qed.

Lemma commit_worker_wf h s x keep now n st sk : sys_wf h s -> worker_wf h x ->
  InsertProxyStatistics now (List.filter keep (take n (buffer x))) (store s) = Some st ->
  passed_over keep (take n (buffer x)) ⊆ sk ->
  worker_wf (MkHistory (added h) (recorded h ++ drop (length (history (store s))) (history st)) (skipped h ∪ sk) (evicted h))
    (MkWorker (drop n (buffer x)) (messageIDs x) (Some keep)).
Proof.
  intros Hw [H1 H2] Hi Hsk. pose proof (commit_later h (drop (length (history (store s))) (history st)) sk) as Hl. split; cbn.
  - intros s0 Hs0. destruct (H1 s0) as (i & Ha & ?); [|by exists i]. eapply elem_of_submseteq; [exact Hs0|]. apply sublist_submseteq, sublist_drop.
  - intros i Hin. destruct (H2 i Hin) as [Ha Hf]. split; [done|]. destruct Hf as [Hf|Hf]; [|right; by eapply finished_later].
    apply list_elem_of_fmap in Hf as (s0 & He & Hs0). rewrite <- (take_drop n (buffer x)) in Hs0.
    apply elem_of_app in Hs0 as [Hs0|Hs0]; [right|left; rewrite He; by apply list_elem_of_fmap_2].
    destruct (keep s0) eqn:Ek.
    + destruct (H1 s0) as (j & _ & Hev & Hkey).
      { eapply elem_of_submseteq; [exact Hs0|]. apply sublist_submseteq, sublist_take. }
      assert (event_key s0 = (streamKey, entry_id i)) as Hkey'.
      { unfold event_key in *. injection Hkey as -> _. by rewrite He. }
      destruct (log_wf_insert _ _ _ _ _ (wf_log _ _ Hw) Hi) as [_ Hrec].
      destruct (Hrec (streamKey, entry_id i)) as [Hr|Hb]; [|by left|].
      * apply elem_of_identities. exists s0. split_and!; [|done|done]. rewrite list_elem_of_In, filter_In, <- list_elem_of_In. done.
      * eapply finished_later; [exact Hl|]. by eapply below_floor_finished.
    + right; right; left. cbn. apply elem_of_union. right. apply Hsk. unfold passed_over. rewrite elem_of_list_to_set, He.
      apply list_elem_of_fmap_2. by rewrite list_elem_of_In, filter_In, <- list_elem_of_In, Ek.
Qed.

Lemma commit_wf h s w x keep now (replied : bool) n st : sys_wf h s -> workers s !! w = Some x ->
  InsertProxyStatistics now (List.filter keep (take n (buffer x))) (store s) = Some st ->
  sys_wf (MkHistory (added h) (recorded h ++ drop (length (history (store s))) (history st))
            (skipped h ∪ if replied then passed_over keep (take n (buffer x)) else ∅) (evicted h))
    (set_worker w (if replied then MkWorker (drop n (buffer x)) (messageIDs x) (Some keep) else MkWorker (buffer x) (messageIDs x) None)
       (set_store st s)).
Proof.
  intros Hw Hx Hi. eapply insert_wf; try done. intros w' x' Hx'. cbn in Hx'.
  pose proof (wf_workers _ _ Hw) as Hws. destruct (decide (w = w')) as [<-|Hne].
  - rewrite lookup_insert_eq in Hx'. injection Hx' as <-. destruct replied; [by eapply commit_worker_wf; [|apply Hws in Hx| |]|].
    destruct (worker_wf_later _ _ x (commit_later h (drop (length (history (store s))) (history st)) ∅)) as [A B]; [by eapply Hws|]. by split.
  - rewrite lookup_insert_ne in Hx' by done. eapply worker_wf_later; [apply commit_later|]. by eapply Hws.
Qed.

(** ** The stream and the group *)

Lemma add_later h id raw gone : added h !! id = None -> later h (MkHistory (<[id := raw]> (added h)) (recorded h) (skipped h) (evicted h ∪ gone)).
Proof.
  intros Hn. split; cbn [added recorded skipped evicted]; [|done|done|set_solver].
  intros i r Hi. rewrite lookup_insert_ne; [done|]. intros ->. congruence.
Qed.

Lemma add_wf h s id raw from : sys_wf h s -> in_u64_pair id -> id_lt (top s) id = true ->
  let e := <[id := raw]> (entries s) in
  let gone := filter (fun x => id_lt x.1 from = true) e in
  sys_wf (MkHistory (<[id := raw]> (added h)) (recorded h) (skipped h) (evicted h ∪ ids_of gone))
    (MkSys (filter (fun x => id_lt x.1 from = false) e) id (group s) (sent s) (workers s) (observed s) (store s)).
Proof.
  intros [[W0 W1] [E1 E2] W3 W4 W5 W6 W7 W8] Hu Hlt. cbv zeta. set (e := <[id := raw]> (entries s)).
  assert (added h !! id = None) as Hn.
  { destruct (added h !! id) as [r|] eqn:E; [|done]. destruct (W1 id) as (_ & Ht & _); [by eexists|]. congruence. }
  pose proof (add_later h id raw (ids_of (filter (fun x => id_lt x.1 from = true) e)) Hn) as Hl. set (h' := MkHistory _ _ _ _) in *.
  assert (forall i, is_added h' i -> i = id \/ is_added h i) as Hcases.
  { intros i [r Hi]. cbn in Hi. destruct (decide (id = i)) as [->|Hne]; [by left|right]. rewrite lookup_insert_ne in Hi by done. by exists r. }
  assert (id_lt (0, 0) id = true) as H0.
  { destruct W0, Hu. id_lia. }
  split; cbn [entries top group sent workers observed store]; auto.
  - split; [done|]. intros i [->|Hi]%Hcases; [split_and!; try done; id_lia|]. destruct (W1 i Hi) as (? & ? & ?). split_and!; try done. id_lia.
  - split.
    + intros i r Hi. apply map_lookup_filter_Some in Hi as [Hi _]. unfold e in Hi. cbn. destruct (decide (id = i)) as [->|Hne].
      * by rewrite lookup_insert_eq in Hi |- *.
      * rewrite lookup_insert_ne in Hi |- * by done. by apply E1.
    + intros i Hi. assert (is_Some (e !! i) \/ finished h i) as [[r He]|Hf].
      { destruct (Hcases i Hi) as [->|Hih]; [left; unfold e; rewrite lookup_insert_eq; by eexists|].
        destruct (E2 i Hih) as [[r Hr]|]; [left|by right]. unfold e. destruct (decide (id = i)) as [->|Hne].
        - rewrite lookup_insert_eq. by eexists.
        - rewrite lookup_insert_ne by done. by exists r. }
      * destruct (id_lt i from) eqn:Ef.
        -- right; right; right; right. cbn. apply elem_of_union. right. apply elem_of_dom. exists r. by apply map_lookup_filter_Some.
        -- left. exists r. by apply map_lookup_filter_Some.
      * right. by eapply finished_later.
  - intros g Hg. destruct (W3 g Hg) as (H1 & H2 & H3 & H4). split_and!; [done|id_lia|intros i Hi; destruct (H3 i Hi); split; [by eapply is_added_later|done]|].
    intros i [->|Hi]%Hcases Hil; [exfalso; id_lia|]. destruct (H4 i Hi Hil); [by left|right; by eapply finished_later].
  - intros m Hm. by eapply message_wf_later, W4.
  - intros w x Hx. by eapply worker_wf_later, W5.
  - intros b Hb. destruct (W6 b Hb) as (H1 & H2 & H3). split_and!; [done|intros i Hi; apply H2; id_lia|].
    intros i [->|Hi]%Hcases Hib; [by rewrite (H2 id Hlt) in Hib|]. by eapply finished_later, H3.
Qed.

Lemma unread_spec g upto e i raw : unread g upto e !! i = Some raw <->
  e !! i = Some raw /\ id_lt (last_delivered g) i = true /\ id_lt upto i = false.
Proof. unfold unread. by rewrite map_lookup_filter_Some. Qed.

Lemma read_wf h s g upto : sys_wf h s -> group s = Some g -> in_u64_pair upto -> id_lt (top s) upto = false ->
  id_lt upto (last_delivered g) = false ->
  let new := unread g upto (entries s) in
  sys_wf h (MkSys (entries s) (top s) (Some (MkGroup upto (pending g ∪ ids_of new))) (messages_of new ++ sent s)
              (workers s) (observed s) (store s)).
Proof.
  intros [W1 [E1 E2] W3 W4 W5 W6 W7 W8] Hg Hu Hlt Hle. cbv zeta. set (new := unread g upto (entries s)).
  assert (forall i raw, new !! i = Some raw -> added h !! i = Some raw) as Hnew by (intros i raw Hi; apply E1; by apply unread_spec in Hi as [? _]).
  destruct (W3 g Hg) as (H1 & H2 & H3 & H4). split; cbn [entries top group sent workers observed store]; auto; [by split| |].
  - intros g' [= <-]. split_and!; try done; cbn [last_delivered pending].
    + intros i [Hi|Hi]%elem_of_union; [destruct (H3 i Hi); split; [done|id_lia]|].
      unfold ids_of in Hi. apply elem_of_dom in Hi as [r Hi]. apply unread_spec in Hi as (Hi & _ & ?). split; [exists r; by apply E1|done].
    + intros i Hi Hil. destruct (id_lt (last_delivered g) i) eqn:El.
      * destruct (E2 i Hi) as [[r Hr]|]; [left|by right]. apply elem_of_union. right. unfold ids_of. apply elem_of_dom. exists r. by apply unread_spec.
      * destruct (H4 i Hi El); [left; set_solver|by right].
  - intros m [Hm|Hm]%elem_of_app; [|by apply W4]. unfold messages_of in Hm. apply list_elem_of_fmap in Hm as ([i raw] & -> & Hm).
    apply elem_of_map_to_list, Hnew in Hm. split; cbn; [by exists raw|by left].
Qed.

Lemma set_group_wf h s g : sys_wf h s -> (forall g', g = Some g' -> group_wf h (top s) g') -> sys_wf h (set_group g s).
Proof. intros [W1 W2 W3 W4 W5 W6 W7 W8] Hg. by split. Qed.

Lemma boundary_reached h s g b : sys_wf h s -> group s = Some g -> replay_boundary g = Some b -> boundary_wf h (top s) b.
Proof.
  intros Hw Hg. destruct (wf_group _ _ Hw g Hg) as (H1 & H2 & H3 & H4). unfold replay_boundary.
  destruct (elements (pending g)) as [|i rest] eqn:E.
  - apply elements_empty_inv in E. destruct (last_delivered g) as [ms seq_] eqn:El. destruct (seq_ =? 2 ^ 64 - 1) eqn:Es; [done|].
    intros [= <-]. destruct H1 as [Hm Hs]. cbn in Hm, Hs. breflect. split_and!.
    + split; cbn; lia.
    + intros i Hi. id_lia.
    + intros i Ha Hi. destruct (H4 i Ha) as [Hp|]; [id_lia|set_solver|done].
  - intros [= <-]. destruct (id_min_spec rest i) as (Hm1 & Hm2 & Hm3). set (m := fold_left id_min rest i) in *.
    assert (m ∈ pending g) as Hm.
    { apply elem_of_elements. rewrite E. destruct Hm1 as [->|?]; [apply list_elem_of_here|by apply list_elem_of_further]. }
    destruct (H3 m Hm) as [Hma Hml]. destruct (proj2 (wf_ids _ _ Hw) m Hma) as (Hu & Ht & _). split_and!; [done|intros j Hj; id_lia|].
    intros j Ha Hj. destruct (id_lt (last_delivered g) j) eqn:El.
    + exfalso. id_lia.
    + destruct (H4 j Ha El) as [Hp|]; [|done]. exfalso. apply elem_of_elements in Hp. rewrite E in Hp.
      apply elem_of_cons in Hp as [->|Hp]; [congruence|]. by rewrite (Hm3 j Hp) in Hj.
Qed.

(** ** Every reachable state *)

Lemma trim_wf h s b : sys_wf h s -> b ∈ observed s ->
  sys_wf h (set_entries (filter (fun x => id_lt x.1 b = false) (entries s)) s).
Proof.
  intros Hw Hb. pose proof (wf_observed _ _ Hw b Hb) as (_ & _ & Hdone). destruct Hw as [W1 [E1 E2] W3 W4 W5 W6 W7 W8].
  split; auto. split; cbn.
  - intros i r Hi. apply map_lookup_filter_Some in Hi as [Hi _]. auto.
  - intros i Ha. destruct (E2 i Ha) as [[r Hr]|]; [|by right]. destruct (id_lt i b) eqn:E; [right; auto|left].
    exists r. by apply map_lookup_filter_Some.
Qed.

Lemma retire_wf h s b limit n l : sys_wf h s -> b ∈ observed s ->
  RetireProxyStatisticEvents streamKey (entry_id b) limit (ledger (store s)) = Some (n, l) ->
  sys_wf h (set_store (set_ledger l (store s)) s).
Proof.
  intros [W1 W2 W3 W4 W5 W6 W7 W8] Hb Hr. split; auto; cbn [store set_store set_ledger ledger].
  - intros f Hf. unfold RetireProxyStatisticEvents in Hr. destruct (String.eqb _ ""); [done|]. injection Hr as _ <-. cbn in Hf.
    rewrite lookup_insert_eq in Hf. injection Hf as <-. destruct (floors (ledger (store s)) !! streamKey) as [f|] eqn:E.
    + destruct (String.ltb f _); [right; by exists b|]. by apply W7.
    + right. by exists b.
  - destruct W8 as [Hl Hn Hs Hc]. destruct (retire_extends _ _ _ _ _ _ Hl Hr) as [[He Hwf] Hev]. split; auto.
Qed.

Lemma plain_identities stats : Forall (fun x => has_event x = false) stats -> identities stats = [].
Proof. unfold identities. induction 1 as [|s l Hs _ IH]; [done|]. cbn. by rewrite Hs. Qed.

Lemma sys_step_wf h s h' s' : sys_step streamKey unmarshal (h, s) (h', s') -> sys_wf h s -> sys_wf h' s'.
Proof.
  intros Hs Hw. inversion Hs; subst; clear Hs.
  - by apply add_wf.
  - by apply read_wf.
  - destruct Hw as [W1 [E1 E2] W3 W4 W5 W6 W7 W8]. split; auto; [by split|]. cbn [sent].
    intros m [->|Hm]%elem_of_cons; [|auto]. rename select (group s = Some g) into Hg. rename select (_ ∈ pending g) into Hi.
    destruct (W3 g Hg) as (_ & _ & K3 & _). destruct (K3 id Hi) as [Ha _]. split; [done|]. cbn.
    destruct (E2 id Ha) as [[r Hr]|Hf]; [left; rewrite Hr; auto|]. destruct (entries s !! id) as [r|] eqn:E; [left; auto|by right].
  - apply set_group_wf; [done|]. intros g' [= <-]. rename select (group s = Some g) into Hg.
    destruct (wf_group _ _ Hw g Hg) as (K1 & K2 & K3 & K4). split_and!; try done; cbn [last_delivered pending].
    + intros i Hi. apply K3. set_solver.
    + intros i Ha Hl. destruct (decide (i = id)) as [->|Hne].
      * right. destruct (proj2 (wf_entries _ _ Hw) id Ha) as [[r Hr]|]; [congruence|done].
      * destruct (K4 i Ha Hl); [left; set_solver|by right].
  - apply set_group_wf; [done|]. by intros g'.
  - apply set_group_wf; [done|]. intros g' [= <-]. destruct (wf_ids _ _ Hw) as [[Ht1 Ht2] Hi]. split_and!; cbn [last_delivered pending].
    + done.
    + id_lia.
    + intros i ?%not_elem_of_empty. done.
    + intros i Ha Hl. destruct (Hi i Ha) as (_ & _ & Hpos). congruence.
  - apply set_worker_wf; [done|]. split; cbn; intros ? ?%not_elem_of_nil; done.
  - destruct Hw as [W1 W2 W3 W4 W5 W6 W7 W8]. split; auto. intros w' x Hx. cbn in Hx. apply lookup_delete_Some in Hx as [_ Hx]. by eapply W5.
  - by eapply append_message_wf.
  - apply set_worker_wf; [done|]. rename select (workers s !! w = Some x) into Hx. by destruct (wf_workers _ _ Hw _ _ Hx).
  - apply set_worker_wf; [done|]. rename select (workers s !! w = Some x) into Hx. by destruct (wf_workers _ _ Hw _ _ Hx).
  - by eapply commit_wf.
  - by apply ack_wf.
  - rename select (group s = Some g) into Hg.
    pose proof (boundary_reached _ _ _ _ Hw Hg ltac:(eassumption)) as Hb.
    destruct Hw as [W1 W2 W3 W4 W5 W6 W7 W8]. split; auto; cbn [observed store].
    + by intros b' [->|?]%elem_of_cons; auto.
    + intros f Hf. destruct (W7 f Hf) as [?|(b' & ? & ?)]; [by left|right]. exists b'. split; [by apply list_elem_of_further|done].
  - by apply trim_wf.
  - by eapply retire_wf.
  - rewrite <- (right_id_L ∅ (∪) (skipped h)). eapply insert_wf; try done. intros w x Hx.
    eapply worker_wf_later; [apply commit_later|]. by apply (wf_workers _ _ Hw) in Hx.
  - destruct Hw as [W1 W2 W3 W4 W5 W6 W7 W8]. rename select (ledger st = _) into Hl.
    split; auto; cbn [store set_store observed]; by rewrite Hl.
Qed.

Lemma initial_wf : sys_wf initial.1 initial.2.
Proof.
  split; cbn.
  - split; [done|]. by intros i [? ?].
  - split; [done|]. by intros i [? ?].
  - done.
  - by intros m ?%not_elem_of_nil.
  - done.
  - by intros b ?%not_elem_of_nil.
  - by intros f ?.
  - split; [by intros k v|constructor|by intros k ?%not_elem_of_nil|by intros k [? ?]].
Qed.

(** C3. However adding, reading, claiming, committing, acknowledging, trimming and
    retiring interleave, whichever replies are lost and workers or groups vanish:
    every result added to the stream is still there, or it is recorded, or its
    text does not decode, or its route was gone when its page committed, or
    [evict_oldest] trimmed it; and none is recorded twice.  In particular the
    replay floor, which would refuse them, never passes an entry that is left. *)
Theorem stream_exactly_once h s : rtc (sys_step streamKey unmarshal) initial (h, s) ->
  NoDup (identities (recorded h)) /\
  forall i raw, added h !! i = Some raw ->
    entries s !! i = Some raw /\ ~ below_floor (ledger (store s)) (streamKey, entry_id i) \/ finished h i.
Proof.
  intros Hr. assert (sys_wf h s) as Hw.
  { refine (rtc_ind_r (fun x => sys_wf x.1 x.2) _ _ _ _ Hr); [apply initial_wf|].
    intros [h0 s0] [h' s'] _ Hs Hw. by eapply sys_step_wf. }
  split; [eapply log_once; apply (wf_log _ _ Hw)|]. intros i raw Hi.
  destruct (proj2 (wf_entries _ _ Hw) i) as [[r Hr']|]; [by eexists| |by right].
  assert (is_added h i) as Ha by by eexists.
  assert (Decision (below_floor (ledger (store s)) (streamKey, entry_id i))) as Hd.
  { unfold below_floor. cbn. destruct (floors (ledger (store s)) !! streamKey) as [f|]; [|right; by intros (f & ? & _)].
    destruct (String.ltb (ProxyStatisticEventSortID (entry_id i)) f) eqn:E; [left; by exists f|right].
    intros (f' & [= <-] & ?). congruence. }
  destruct Hd as [Hb|Hb]; [right; by eapply below_floor_finished|]. left. split; [|done].
  rewrite Hr'. apply (wf_entries _ _ Hw) in Hr'. congruence.
Qed.

(** What a worker acknowledges needs no replay: each identifier it may
    acknowledge belongs to an entry that is finished. *)
Lemma acknowledged_is_finished h s w x id : rtc (sys_step streamKey unmarshal) initial (h, s) ->
  workers s !! w = Some x -> id ∈ ready_ids x -> finished h id.
Proof.
  intros Hr Hx Hi. assert (sys_wf h s) as Hw.
  { refine (rtc_ind_r (fun x => sys_wf x.1 x.2) _ _ _ _ Hr); [apply initial_wf|].
    intros [h0 s0] [h' s'] _ Hs Hw. by eapply sys_step_wf. }
  eapply ready_finished; [|done]. by apply (wf_workers _ _ Hw) in Hx.
Qed.

End Facts.

(** ** Pages *)

Definition rows_of (l : list ProxyStatistic) : nat := foldr (fun s n => (latest_cost s + n)%nat) 0%nat l.

Lemma latest_cost_pos s : (1 <= latest_cost s)%nat.
Proof. unfold latest_cost. lia. Qed.

Lemma bounded_prefix_spec stats index rows : (index <= statisticsBatchThreshold)%nat ->
  ((0 < index)%nat -> (rows < statisticsLatestRowBudget)%nat) -> (index = 0%nat -> rows = 0%nat) ->
  exists k, bounded_prefix stats index rows = ((index + k)%nat, (rows + rows_of (take k stats))%nat) /\ (k <= length stats)%nat /\
    (index + k <= statisticsBatchThreshold)%nat /\ (stats <> [] -> index = 0%nat -> (1 <= k)%nat) /\
    ((rows + rows_of (take k stats) <= statisticsLatestRowBudget)%nat \/ (index + k = 1)%nat).
Proof.
  revert index rows. induction stats as [|s stats IH]; intros index rows Hi Hr H0; cbn [bounded_prefix].
  { exists 0%nat. cbn [take rows_of foldr length]. rewrite !Nat.add_0_r. split_and!; [done..|]. left.
    destruct index; [rewrite H0 by done; unfold statisticsLatestRowBudget; lia|]. specialize (Hr ltac:(lia)). lia. }
  assert (statisticsBatchThreshold = 5000%nat /\ statisticsLatestRowBudget = 5000%nat) as [HT HB] by done.
  assert ((0 < index)%nat -> exists k, (index, rows) = ((index + k)%nat, (rows + rows_of (take k (s :: stats)))%nat) /\
    (k <= length (s :: stats))%nat /\ (index + k <= statisticsBatchThreshold)%nat /\ (s :: stats <> [] -> index = 0%nat -> (1 <= k)%nat) /\
    ((rows + rows_of (take k (s :: stats)) <= statisticsLatestRowBudget)%nat \/ (index + k = 1)%nat)) as Hstop.
  { intros H. specialize (Hr H). exists 0%nat. cbn [take rows_of foldr length]. rewrite !Nat.add_0_r. split_and!; try lia; done. }
  destruct (index =? statisticsBatchThreshold)%nat eqn:E1; [apply Nat.eqb_eq in E1; apply Hstop; lia|apply Nat.eqb_neq in E1].
  cbv zeta. destruct ((0 <? index)%nat && _) eqn:E2; [breflect; by apply Hstop|].
  destruct (statisticsLatestRowBudget <=? rows + latest_cost s)%nat eqn:E3; breflect.
  { exists 1%nat. cbn [take rows_of foldr length]. rewrite !Nat.add_0_r. split_and!; [f_equal; lia|cbn; lia|lia|lia|].
    apply andb_false_iff in E2 as [E2|E2]; breflect; [right; lia|left; cbn; lia]. }
  destruct (IH (S index) (rows + latest_cost s)%nat) as (k & -> & Hk & Hb & _ & Hd); [lia|lia|lia|].
  exists (S k). cbn [take rows_of foldr length]. split_and!; [f_equal; unfold rows_of; lia|lia|lia|lia|]. unfold rows_of in *. destruct Hd; [left|right]; lia.
Qed.

Lemma page_size stats : stats <> [] -> (1 <= (boundedStatisticsPrefix stats).1 <= length stats)%nat.
Proof.
  intros Hs. destruct (bounded_prefix_spec stats 0 0) as (k & He & Hk & _ & H1 & _); [unfold statisticsBatchThreshold; lia|lia|done|].
  unfold boundedStatisticsPrefix. rewrite He. specialize (H1 Hs eq_refl). cbn. lia.
Qed.

(** ** A flush against a database that answers *)

Definition ids_below (st : Store) : Prop := 0 < next_id st /\ Forall (fun r => StatID r < next_id st) (history st).

Lemma create_rows_succeeds now rts stats h n : 0 < n -> Forall (fun r => StatID r < n) h ->
  Forall (fun s => StatID s = 0 /\ ProxyID s ∈ rts) stats ->
  exists rows h' n', create_rows now rts stats h n = Some (rows, h', n') /\ 0 < n' /\ Forall (fun r => StatID r < n') h'.
Proof.
  intros Hn Hh Hs. revert h n Hn Hh. induction Hs as [|s stats [H0 Hp] _ IH]; intros h n Hn Hh; [by exists [], h, n|].
  cbn [create_rows]. rewrite H0. cbn [Z.eqb]. cbv zeta. rewrite (bool_decide_eq_false_2 (ProxyID s ∉ rts)) by tauto.
  rewrite bool_decide_eq_false_2.
  - destruct (IH (h ++ [with_id n now s]) (n + 1)) as (rows & h' & n' & -> & Hn' & Hh'); [lia| |by eexists _, h', n'].
    apply Forall_app. split; [eapply Forall_impl; [exact Hh|]; cbn; lia|]. constructor; [cbn; lia|constructor].
  - intros Hin. apply list_elem_of_fmap in Hin as (r & Hr & Hin). rewrite Forall_forall in Hh. specialize (Hh r Hin). lia.
Qed.

Lemma insert_succeeds now stats st : ids_below st -> Forall (fun s => StatID s = 0 /\ ProxyID s ∈ routes st) stats ->
  exists st', InsertProxyStatistics now stats st = Some st' /\ ids_below st' /\ routes st' = routes st.
Proof.
  intros [Hn Hh] Hs. unfold InsertProxyStatistics. destruct stats as [|s0 stats]; [by exists st|].
  pose proof (accept_spec (s0 :: stats) (ledger st)) as Ha. destruct (acceptProxyStatisticEvents _ _) as [accepted l].
  destruct accepted as [|a accepted]; [by exists (set_ledger l st)|].
  assert (Forall (fun s => StatID s = 0 /\ ProxyID s ∈ routes st) (a :: accepted)) as Hacc.
  { rewrite Forall_forall in Hs |- *. intros s Hin. apply Hs. eapply elem_of_submseteq; [exact Hin|].
    apply sublist_submseteq. by eapply accepts_sublist. }
  unfold record_accepted. destruct (create_rows_succeeds now (routes st) (a :: accepted) (history st) (next_id st) Hn Hh Hacc)
    as (rows & h' & n' & He & Hn' & Hh').
  cbn [history routes next_id set_ledger]. rewrite He. eexists. split; [done|].
  unfold record_derived. cbv zeta. by destruct (latestProxyStatusEntries now rows).
Qed.

Lemma prepared_live rts stats s : Forall (fun s => ProxyID s <> 0) stats -> s ∈ stats ->
  prepareProxyStatistics rts stats s = bool_decide (ProxyID s ∈ rts).
Proof.
  intros H0 Hs. unfold prepareProxyStatistics. cbv zeta.
  assert (ProxyID s ∈ collectProxyIDs stats) as Hin.
  { unfold collectProxyIDs. apply elem_of_dedup_go. split; [|apply not_elem_of_nil]. rewrite list_elem_of_In, filter_In, <- list_elem_of_In.
    split; [by apply list_elem_of_fmap_2|]. rewrite Forall_forall in H0. by apply negb_true_iff, Z.eqb_neq, H0. }
  destruct (collectProxyIDs stats) as [|p ps] eqn:Ep; [by apply not_elem_of_nil in Hin|].
  set (ids := p :: ps) in *. assert (ProxyID s ∈ List.filter (fun p => bool_decide (p ∈ rts)) ids <-> ProxyID s ∈ rts) as He.
  { rewrite list_elem_of_In, filter_In, <- list_elem_of_In, bool_decide_eq_true. tauto. }
  destruct (List.filter _ ids) as [|e es] eqn:Ef.
  { symmetry. apply bool_decide_eq_false. intros Hr. apply He in Hr. by apply not_elem_of_nil in Hr. }
  destruct (length (e :: es) =? length ids)%nat eqn:El; [|by apply bool_decide_ext].
  symmetry. apply bool_decide_eq_true, He. apply Nat.eqb_eq in El. rewrite <- Ef. rewrite <- Ef in El.
  clear -El Hin. induction ids as [|x xs IH]; [done|]. cbn [List.filter length] in *.
  assert (length (List.filter (fun p => bool_decide (p ∈ rts)) xs) <= length xs)%nat.
  { clear. induction xs as [|y ys IH]; [done|]. cbn. destruct (bool_decide _); cbn; lia. }
  destruct (bool_decide (x ∈ rts)) eqn:Ex; cbn [length] in El; [|lia].
  apply elem_of_cons in Hin as [->|Hin]; [apply list_elem_of_here|]. apply list_elem_of_further, IH; [done|lia].
Qed.

(** Accepting two pages one after the other is accepting both at once. *)
Lemma accepts_app a b l l1 l2 acc1 acc2 : accepts a l acc1 l1 -> accepts b l1 acc2 l2 -> accepts (a ++ b) l (acc1 ++ acc2) l2.
Proof.
  intros [S1 O1 X1 N1 E1 A1 Y1 F1 V1 P1] [S2 O2 X2 N2 E2 A2 Y2 F2 V2 P2].
  assert (forall k, k ∈ identities acc1 -> k ∈ identities a) as Hin.
  { intros k (s & Hs & Hk)%elem_of_identities. apply elem_of_identities. exists s. split; [|done].
    eapply elem_of_submseteq; [exact Hs|]. by apply sublist_submseteq. }
  assert (forall k, settled l k -> settled l1 k) as G1 by apply X1. assert (forall k, settled l1 k -> settled l2 k) as G2 by apply X2.
  split.
  - by apply sublist_app.
  - rewrite identities_app. apply NoDup_app. split_and!; [done| |done]. intros k Hk Hk'. apply (N2 k); [done|]. by apply E1, Hin.
  - by transitivity l1.
  - intros k. rewrite identities_app, elem_of_app. intros [Hk|Hk]; [by apply N1|]. intros Hs. apply (N2 k Hk). by apply G1.
  - intros k. rewrite identities_app, elem_of_app. intros [Hk|Hk]; [by apply G2, E1|by apply E2].
  - intros k. rewrite !identities_app, !elem_of_app. intros [Hk|Hk] Hn; [left; by apply A1|].
    destruct (decide (settled l1 k)) as [Hs|Hs]; [|right; by apply A2]. destruct (Y1 k Hs); [done|left; by apply A1].
  - intros k Hk. rewrite identities_app, elem_of_app. destruct (Y2 k Hk) as [Hk'|?]; [|by right; right].
    destruct (Y1 k Hk'); [by left|by right; left].
  - intros s f Hf. destruct (F2 s f Hf) as [Hf'|?]; [by apply F1|by right].
  - intros k Hk. rewrite identities_app, elem_of_app. destruct (V2 k Hk) as [Hk'|?]; [|by right; right].
    destruct (V1 k Hk'); [by left|by right; left].
  - by rewrite !List.filter_app, P1, P2.
Qed.

(** The pages of a flush accept what one commit of everything kept would. *)
Lemma flush_pages_spec fuel now keep rest st : (length rest <= fuel)%nat -> ids_below st ->
  Forall (fun s => StatID s = 0 /\ (keep s = true -> ProxyID s ∈ routes st)) rest ->
  exists st' accepted rows, flush_pages fuel now keep rest st = ([], st', true) /\ history st' = history st ++ rows /\
    accepts (List.filter keep rest) (ledger st) accepted (ledger st') /\
    Forall2 (fun s r => exists id, r = with_id id now s) accepted rows.
Proof.
  revert rest st. induction fuel as [|fuel IH]; intros rest st Hf Hi Hr; destruct rest as [|s0 rest]; cbn [flush_pages];
    try (exists st, [], []; rewrite app_nil_r; split_and!; try done; exact (accept_spec [] (ledger st))); [cbn in Hf; lia|].
  set (l := s0 :: rest) in *. pose proof (page_size l ltac:(done)) as Hn.
  destruct (boundedStatisticsPrefix l) as [n r]. cbn [fst] in *.
  assert (Forall (fun s => StatID s = 0 /\ ProxyID s ∈ routes st) (List.filter keep (take n l))) as Hpage.
  { apply Forall_forall. intros s. rewrite list_elem_of_In, filter_In, <- list_elem_of_In. intros [Hs Hk].
    rewrite Forall_forall in Hr. destruct (Hr s) as [H0 Hp]; [|by auto]. eapply elem_of_submseteq; [exact Hs|]. apply sublist_submseteq, sublist_take. }
  destruct (insert_succeeds now _ st Hi Hpage) as (st1 & He & Hi1 & Hr1). rewrite He.
  destruct (insert_spec _ _ _ _ He) as (acc1 & rows1 & Ha & Hh1 & Hf2).
  destruct (IH (drop n l) st1) as (st' & acc2 & rows2 & Hfl & Hh' & Ha2 & Hf2').
  { rewrite length_drop. unfold l in *. cbn [length] in *. lia. }
  { done. }
  { rewrite Hr1. by apply Forall_drop. }
  exists st', (acc1 ++ acc2), (rows1 ++ rows2). split_and!; [done|by rewrite Hh', Hh1, app_assoc| |by apply Forall2_app].
  rewrite <- (take_drop n l) at 1. rewrite List.filter_app. by eapply accepts_app.
Qed.

(** C18. When the database answers, one flush empties a buffer of results that
    have not been stored and name a route: the loop ends with every page
    committed, and the rows it adds to the history are, in the buffer's order and
    no matter how it was cut into pages, those of the results whose routes exist:
    every one without an identity, and for every event of a stream that was not
    settled before exactly one.  Every such event is settled afterwards. *)
Theorem flush_commits_everything now buffer st :
  ids_below st -> Forall (fun s => StatID s = 0 /\ ProxyID s <> 0) buffer ->
  let live := List.filter (fun s => bool_decide (ProxyID s ∈ routes st)) buffer in
  exists st' accepted rows, flushProxyStatistics now buffer st = ([], st', true) /\ history st' = history st ++ rows /\
    Forall2 (fun s r => exists id, r = with_id id now s) accepted rows /\
    accepted `sublist_of` live /\
    List.filter (fun s => negb (has_event s)) accepted = List.filter (fun s => negb (has_event s)) live /\
    NoDup (identities accepted) /\
    (forall k, k ∈ identities accepted <-> k ∈ identities live /\ ~ settled (ledger st) k) /\
    forall k, k ∈ identities live -> settled (ledger st') k.
Proof.
  intros Hi Hb live. assert (Forall (fun s => ProxyID s <> 0) buffer) as H0 by (eapply Forall_impl; [exact Hb|]; by intros s []).
  pose proof (fun s => prepared_live (routes st) buffer s H0) as Hp.
  destruct (flush_pages_spec (length buffer) now (prepareProxyStatistics (routes st) buffer) buffer st)
    as (st' & accepted & rows & He & Hh & Ha & Hf); [done|done| |].
  { rewrite Forall_forall in Hb |- *. intros s Hs. destruct (Hb s Hs). split; [done|]. rewrite Hp by done. by intros ?%bool_decide_eq_true. }
  assert (List.filter (prepareProxyStatistics (routes st) buffer) buffer = live) as El.
  { apply filter_ext_in. intros s Hs%list_elem_of_In. by apply Hp. }
  rewrite El in Ha. destruct Ha as [Hsub Hn _ Hnew Hset Hall _ _ _ Hpl].
  exists st', accepted, rows. split_and!; try done. intros k. split; [|intros []; by apply Hall]. intros Hk. split; [|by apply Hnew].
  apply elem_of_identities in Hk as (s & Hs & Hk). apply elem_of_identities. exists s. split; [|done].
  eapply elem_of_submseteq; [exact Hs|]. by apply sublist_submseteq.
Qed.

(** A page takes at least one result and at most 5000; it writes at most
    5000 rows of newest results unless it is a single result, which cannot be
    divided. *)
Lemma pages_bounded stats : stats <> [] ->
  let '(n, rows) := boundedStatisticsPrefix stats in
  (1 <= n <= Nat.min 5000 (length stats))%nat /\ rows = rows_of (take n stats) /\ ((rows <= 5000)%nat \/ n = 1%nat).
Proof.
  intros Hs. destruct (bounded_prefix_spec stats 0 0) as (k & He & Hk & Hb & H1 & Hd); [unfold statisticsBatchThreshold; lia|lia|done|].
  unfold boundedStatisticsPrefix. rewrite He. specialize (H1 Hs eq_refl). unfold statisticsBatchThreshold, statisticsLatestRowBudget in *.
  split_and!; [lia|lia|done|destruct Hd; [left|right]; lia].
Qed.

(** The strictest policy among the default and the overrides is chosen. *)
Lemma resolved_policy_strictest default_ policies ids :
  let chosen := overloadPolicyPriority (resolveStatisticsOverloadPolicy default_ policies ids) in
  overloadPolicyPriority (normalizeOverloadPolicy default_) <= chosen /\
  forall ws override, ws ∈ ids -> policies !! ws = Some override ->
    overloadPolicyPriority (normalizeOverloadPolicy override) <= chosen.
Proof.
  cbv zeta. unfold resolveStatisticsOverloadPolicy. generalize (normalizeOverloadPolicy default_).
  induction ids as [|w ids IH]; intros p; cbn [fold_left]; [split; [lia|by intros ? ? ?%not_elem_of_nil]|].
  set (p' := match policies !! w with Some _ => _ | None => _ end). destruct (IH p') as [H1 H2].
  assert (overloadPolicyPriority p <= overloadPolicyPriority p' /\
    forall override, policies !! w = Some override -> overloadPolicyPriority (normalizeOverloadPolicy override) <= overloadPolicyPriority p') as [Hp Ho].
  { unfold p'. destruct (policies !! w) as [o|]; [|split; [lia|done]].
    destruct (overloadPolicyPriority p <? overloadPolicyPriority (normalizeOverloadPolicy o)) eqn:E; breflect;
      (split; [lia|]); intros o' [= <-]; lia. }
  split; [lia|]. intros ws o [->|Hin]%elem_of_cons Hl; [specialize (Ho _ Hl); lia|by eapply H2].
Qed.

(** ** Witnesses and examples *)

(** Every text decodes to a check of route 5. *)
Definition decode_check (_ : string) : option ProxyStatistic := Some (MkStat 0 true 0 12 "tcp" [] 1 None 5 1 [] "" "" (Some 0)).

(** An entry added, read, committed without a reply, committed again and acknowledged. *)
Definition e1 : Z * Z := (7, 0).

Definition e1_result : ProxyStatistic := MkStat 0 true 0 12 "tcp" [] 1 None 5 1 [] "s" "7-0" (Some 0).

Definition e1_store : Store := default empty_store (InsertProxyStatistics 0 [e1_result] opened_store).

(** A second commit finds the event in the ledger. *)
Definition e1_again : Store := default empty_store (InsertProxyStatistics 0 [e1_result] e1_store).

Definition e1_history : History := MkHistory {[e1 := "x"]} [with_id 1 0 e1_result] ∅ ∅.

Definition e1_sys : Sys :=
  MkSys ∅ e1 (Some (MkGroup e1 ∅)) [(e1, Some "x")] {[0%nat := MkWorker [] [] None]} [] e1_again.

Lemma stream_exactly_once_witness :
  rtc (sys_step "s" decode_check) initial (e1_history, e1_sys) /\ entries e1_sys = ∅ /\
  NoDup (identities (recorded e1_history)) /\ finished "s" decode_check e1_history e1.
Proof.
  assert (rtc (sys_step "s" decode_check) initial (e1_history, e1_sys)) as Hr.
  { eapply rtc_l; [apply (sys_tables _ _ opened_store); reflexivity|].
    eapply rtc_l; [apply sys_group_create; reflexivity|].
    eapply rtc_l; [apply (sys_add _ _ e1 "x" (0, 0)); [done|reflexivity]|].
    eapply rtc_l; [apply (sys_read _ _ (MkGroup (0, 0) ∅) e1); [reflexivity|done|reflexivity|reflexivity]|].
    eapply rtc_l; [apply (sys_worker_start _ _ 0%nat); reflexivity|].
    eapply rtc_l; [apply (sys_receive _ _ 0%nat (MkWorker [] [] None) e1 (Some "x") Done); [reflexivity|reflexivity|left]|].
    eapply rtc_l; [apply (sys_prepare _ _ 0%nat (MkWorker [e1_result] [e1] None)); reflexivity|].
    eapply rtc_l; [apply (sys_commit _ _ 0%nat (MkWorker [e1_result] [e1] (Some (prepareProxyStatistics {[5]} [e1_result])))
      (prepareProxyStatistics {[5]} [e1_result]) 0 false e1_store); [reflexivity|reflexivity|vm_compute; reflexivity]|].
    eapply rtc_l; [apply (sys_prepare _ _ 0%nat (MkWorker [e1_result] [e1] None)); reflexivity|].
    eapply rtc_l; [apply (sys_commit _ _ 0%nat (MkWorker [e1_result] [e1] (Some (prepareProxyStatistics {[5]} [e1_result])))
      (prepareProxyStatistics {[5]} [e1_result]) 0 true e1_again); [reflexivity|reflexivity|vm_compute; reflexivity]|].
    eapply rtc_l; [apply (sys_ack _ _ 0%nat (MkWorker [] [e1] (Some (prepareProxyStatistics {[5]} [e1_result]))) [e1] Done);
      [reflexivity|done]|].
    eapply rtc_l; [apply (sys_flush_failed _ _ 0%nat (MkWorker [] [] (Some (prepareProxyStatistics {[5]} [e1_result])))); reflexivity|].
    match goal with |- rtc _ ?a ?b => assert (a = b) as ->; [vm_compute; reflexivity|apply rtc_refl] end. }
  destruct (stream_exactly_once "s" decode_check _ _ Hr) as [Hn Hf].
  split; [exact Hr|]. split; [reflexivity|]. split; [exact Hn|].
  destruct (Hf e1 "x") as [[Hs _]|Hd]; [reflexivity|discriminate Hs|exact Hd].
Defined.

Lemma flush_commits_everything_witness :
  ids_below opened_store /\
  exists st' accepted rows, flushProxyStatistics 0 [sample_stat; sample_stat] opened_store = ([], st', true) /\
    history st' = history opened_store ++ rows /\ identities accepted = [("s", "7-0")] /\ settled (ledger st') ("s", "7-0").
Proof.
  assert (ids_below opened_store) as Hi by by split.
  split; [exact Hi|]. destruct (flush_commits_everything 0 [sample_stat; sample_stat] opened_store Hi)
    as (st' & accepted & rows & H1 & H2 & _ & _ & _ & Hn & Hk & Hs).
  { by repeat constructor. }
  exists st', accepted, rows. split; [exact H1|]. split; [exact H2|].
  assert (forall k, k ∈ identities accepted <-> k = ("s", "7-0")) as Hk'.
  { intros k. rewrite Hk. split; [intros [Hin _]; vm_compute in Hin; set_solver|]. intros ->. split; [vm_compute; left|].
    intros [[v Hv]|(_ & f & Hf & _)]; [vm_compute in Hv; discriminate|vm_compute in Hf; discriminate]. }
  split; [|apply Hs; vm_compute; left].
  destruct (identities accepted) as [|k1 [|k2 l]].
  - assert (("s", "7-0") ∈ @nil eventKey) as Hx by by apply Hk'. by apply not_elem_of_nil in Hx.
  - f_equal. apply Hk'. left.
  - exfalso. apply NoDup_cons in Hn as [Hn _]. apply Hn. assert (k1 = k2) as ->; [|left].
    transitivity (("s", "7-0") : eventKey); [apply Hk'; left|symmetry; apply Hk'; right; left].
Defined.

(** A result without identity whose commit went unanswered is inserted again
    when its page was a copy of the buffer. *)
Definition plain_stat : ProxyStatistic := MkStat 0 true 0 12 "tcp" [] 1 None 5 1 [] "" "" (Some 0).

Example unanswered_commit_counts_twice :
  option_map (fun st => length (history st))
    (InsertProxyStatistics 0 [plain_stat] (default empty_store (InsertProxyStatistics 0 [plain_stat] opened_store))) = Some 2%nat.
Proof. vm_compute. reflexivity. Qed.

(** When the page was the buffer itself, the results carry the identifiers of
    the first attempt and no retry can succeed. *)
Example unanswered_commit_blocks_the_worker :
  InsertProxyStatistics 0 [with_id 1 0 plain_stat] (default empty_store (InsertProxyStatistics 0 [plain_stat] opened_store)) = None.
Proof. vm_compute. reflexivity. Qed.

End StatStreamFacts.
