(* ===== verification/RefreshQueue.v ===== *)
(** * Requests to refresh reputations

    [internal/database/proxy_reputation_refresh.go] and the coordinator of
    [internal/jobs/runtime/proxy_reputation_refresh.go].  A transaction that
    records results of a route leaves one request for it (StatStore.v); workers
    on any instance claim requests for a while, recompute the reputations and
    complete the requests they still own.  The scores themselves are another
    matter: here a reputation is known by how many of the route's results it was
    computed from. *)

From S2P Require Import Prelude StatStore.
From stdpp Require Import sorting.
Open Scope Z_scope.

Module RefreshQueue.
Import StatStore.

Abbreviation Jobs := (gmap Z ProxyReputationRefresh).
Abbreviation job := (Z * ProxyReputationRefresh)%type.

(** ** The operations *)

Definition Microsecond : Z := 1000.

Definition truncate_us (t : Z) : Z := t / Microsecond * Microsecond.

Definition set_lease (until : Z) (r : ProxyReputationRefresh) : ProxyReputationRefresh := MkRefresh (Version r) (RequestedAt r) until.

(** The order in which requests are claimed. *)
Definition older_request (a b : job) : bool :=
  (RequestedAt a.2 <? RequestedAt b.2) || ((RequestedAt a.2 =? RequestedAt b.2) && (a.1 <=? b.1)).

(** The rows a claim selects; [locked] are those other claims hold at the moment. *)
Definition claimable (now : Z) (locked : gset Z) (m : Jobs) : list job :=
  merge_sort (rel_of older_request)
    (List.filter (fun x => (LeaseUntil x.2 <=? now) && negb (bool_decide (x.1 ∈ locked))) (map_to_list m)).

(** [ClaimProxyReputationRefreshes]: the claimed requests, and the table. *)
Definition ClaimProxyReputationRefreshes (clock limit lease : Z) (locked : gset Z) (m : Jobs) : list job * Jobs :=
  if limit <? 1 then ([], m)
  else
    let now := truncate_us clock in
    let until := now + lease in
    let chosen := take (Z.to_nat limit) (claimable now locked m) in
    (map (fun x => (x.1, set_lease until x.2)) chosen,
     map_imap (fun p r => Some (if bool_decide (p ∈ chosen.*1) then set_lease until r else r)) m).

Definition completed (chunk : list job) (x : job) : bool :=
  existsb (fun j => (j.1 =? x.1) && (Version j.2 =? Version x.2) && (LeaseUntil j.2 =? LeaseUntil x.2)) chunk.

Definition owned (chunk : list job) (x : job) : bool :=
  existsb (fun j => (j.1 =? x.1) && (LeaseUntil j.2 =? LeaseUntil x.2)) chunk.

(** One chunk: completed requests go, the others that are still owned are
    released, at once or after five seconds. *)
Definition complete_chunk (clock : Z) (succeeded : bool) (m : Jobs) (chunk : list job) : Jobs :=
  let m := if succeeded then filter (fun x => completed chunk x = false) m else m in
  let until := if succeeded then 0 else clock + 5 * Second in
  map_imap (fun p r => Some (if owned chunk (p, r) then set_lease until r else r)) m.

Definition CompleteProxyReputationRefreshes (clock : Z) (jobs : list job) (succeeded : bool) (m : Jobs) : Jobs :=
  fold_left (complete_chunk clock succeeded) (batches 1000 jobs) m.

(** The lease [refreshPendingProxyReputations] asks for. *)
Definition refreshLease : Z := 2 * Minute.

(** ** The system *)

(** A worker between its statements: the requests it claimed, how many results
    it has read of their routes, and the routes whose reputation it has stored. *)
Record worker := MkWorker { jobs : list job; seen : gmap Z Z; stored : gset Z }.

(** [results]: how many results of a route are recorded; [scored]: how many its
    stored reputation was computed from. *)
Record Sys := MkSys { requests : Jobs; results : gmap Z Z; scored : gmap Z Z; workers : gmap nat worker; clock : Z }.

Definition number (m : gmap Z Z) (p : Z) : Z := default 0 (m !! p).

Definition record_results (ids : list Z) (m : gmap Z Z) : gmap Z Z := fold_left (fun m p => <[p := number m p + 1]> m) ids m.

Inductive step : Sys -> Sys -> Prop :=
| step_tick t s : clock s <= t -> step s (MkSys (requests s) (results s) (scored s) (workers s) t)
(* a transaction records results of these routes *)
| step_record ids s :
    NoDup ids ->
    step s (MkSys (queueProxyReputationRefresh (clock s) ids (requests s)) (record_results ids (results s)) (scored s)
              (workers s) (clock s))
| step_claim w limit locked js m s :
    workers s !! w = None -> ClaimProxyReputationRefreshes (clock s) limit refreshLease locked (requests s) = (js, m) ->
    step s (MkSys m (results s) (scored s) (<[w := MkWorker js ∅ ∅]> (workers s)) (clock s))
(* the results of a route are read, one batch of routes after the other *)
| step_read w x p s :
    workers s !! w = Some x -> seen x !! p = None ->
    step s (MkSys (requests s) (results s) (scored s)
              (<[w := MkWorker (jobs x) (<[p := number (results s) p]> (seen x)) (stored x)]> (workers s)) (clock s))
(* the calculation is cancelled after 30 seconds, long before the lease ends *)
| step_store w x p r n s :
    workers s !! w = Some x -> (p, r) ∈ jobs x -> seen x !! p = Some n -> clock s < LeaseUntil r ->
    step s (MkSys (requests s) (results s) (<[p := n]> (scored s))
              (<[w := MkWorker (jobs x) (seen x) ({[p]} ∪ stored x)]> (workers s)) (clock s))
(* the claims are completed, or given up wherever the calculation failed *)
| step_complete w x succeeded s :
    workers s !! w = Some x -> (succeeded = true -> forall p r, (p, r) ∈ jobs x -> p ∈ stored x) ->
    step s (MkSys (CompleteProxyReputationRefreshes (clock s) (jobs x) succeeded (requests s)) (results s) (scored s)
              (delete w (workers s)) (clock s))
(* the process dies, or its completion does *)
| step_gone w s : step s (MkSys (requests s) (results s) (scored s) (delete w (workers s)) (clock s)).

Definition initial (t : Z) : Sys := MkSys ∅ ∅ ∅ ∅ t.

(** ** The operations, row by row *)

Lemma truncate_le t : truncate_us t <= t < truncate_us t + Microsecond.
Proof. unfold truncate_us, Microsecond. pose proof (Z.div_mod t 1000). pose proof (Z.mod_pos_bound t 1000). lia. Qed.

Lemma NoDup_claimable now locked m : NoDup (claimable now locked m).*1.
Proof.
  unfold claimable. rewrite merge_sort_Permutation. pose proof (NoDup_fst_map_to_list m) as H. by apply (NoDup_map_filter fst).
Qed.

Lemma elem_of_claimable now locked m p r : (p, r) ∈ claimable now locked m <-> m !! p = Some r /\ LeaseUntil r <= now /\ p ∉ locked.
Proof.
  unfold claimable. rewrite merge_sort_Permutation, list_elem_of_In, filter_In, <- list_elem_of_In, elem_of_map_to_list. cbn.
  rewrite andb_true_iff, Z.leb_le, negb_true_iff, bool_decide_eq_false. tauto.
Qed.

Lemma refresh_claim_spec t limit lease locked m js m' : ClaimProxyReputationRefreshes t limit lease locked m = (js, m') ->
  NoDup js.*1 /\
  (forall p r, (p, r) ∈ js -> exists r0, m !! p = Some r0 /\ LeaseUntil r0 <= truncate_us t /\ r = set_lease (truncate_us t + lease) r0 /\ m' !! p = Some r) /\
  (forall p, p ∉ js.*1 -> m' !! p = m !! p).
Proof.
  unfold ClaimProxyReputationRefreshes. destruct (limit <? 1).
  { intros [= <- <-]. split; [constructor|]. split; [by intros p r ?%not_elem_of_nil|done]. }
  set (chosen := take (Z.to_nat limit) (claimable (truncate_us t) locked m)). intros [= <- <-].
  assert ((map (fun x : job => (x.1, set_lease (truncate_us t + lease) x.2)) chosen).*1 = chosen.*1) as Hfst.
  { unfold fmap. induction chosen as [|x l IH]; [done|]. cbn in *. by rewrite IH. }
  assert (NoDup chosen.*1) as Hnd.
  { pose proof (NoDup_claimable (truncate_us t) locked m) as H. rewrite <- (take_drop (Z.to_nat limit) (claimable _ _ _)), fmap_app in H.
    by apply NoDup_app in H as [H _]. }
  rewrite Hfst. split; [done|]. split.
  - intros p r (x & He & Hx)%list_elem_of_fmap. destruct x as [q r0]. cbn in He. injection He as -> ->.
    assert ((q, r0) ∈ claimable (truncate_us t) locked m) as (Hq & Hle & _)%elem_of_claimable.
    { rewrite <- (take_drop (Z.to_nat limit) (claimable _ _ _)). apply elem_of_app. by left. }
    exists r0. split_and!; [done|done|done|]. rewrite map_lookup_imap, Hq. cbn.
    rewrite bool_decide_eq_true_2; [done|]. by apply (list_elem_of_fmap_2 fst _ (q, r0)).
  - intros p Hp. rewrite map_lookup_imap. destruct (m !! p); [|done]. cbn. by rewrite bool_decide_eq_false_2.
Qed.

Lemma complete_chunk_spec t ok m chunk p : NoDup chunk.*1 ->
  complete_chunk t ok m chunk !! p =
  match m !! p with
  | None => None
  | Some r =>
      match (list_to_map chunk : Jobs) !! p with
      | Some r' =>
          if LeaseUntil r' =? LeaseUntil r then
            if ok && (Version r' =? Version r) then None else Some (set_lease (if ok then 0 else t + 5 * Second) r)
          else Some r
      | None => Some r
      end
  end.
Proof.
  intros Hnd. destruct (m !! p) as [r|] eqn:Em.
  2:{ unfold complete_chunk. rewrite map_lookup_imap. destruct ok; [|by rewrite Em].
      by rewrite (proj2 (map_lookup_filter_None _ _ _)) by by left. }
  assert (forall f : job -> bool, existsb (fun j => (j.1 =? p) && f j) chunk =
    match (list_to_map chunk : Jobs) !! p with Some r' => f (p, r') | None => false end) as Hex.
  { intros f. clear Em. induction chunk as [|[q r'] chunk IH]; [done|]. apply NoDup_cons in Hnd as [Hq Hnd]. cbn [existsb fst].
    rewrite IH by done. rewrite list_to_map_cons, lookup_insert. case_decide as Hd.
    - subst q. rewrite Z.eqb_refl. cbn. rewrite (not_elem_of_list_to_map_1 chunk p) by done. by rewrite orb_false_r.
    - by rewrite (proj2 (Z.eqb_neq q p)). }
  unfold complete_chunk. rewrite map_lookup_imap.
  assert (owned chunk (p, r) = match (list_to_map chunk : Jobs) !! p with Some r' => LeaseUntil r' =? LeaseUntil r | None => false end) as Ho.
  { unfold owned. cbn [fst snd]. rewrite (Hex (fun j => LeaseUntil j.2 =? LeaseUntil r)). done. }
  assert (completed chunk (p, r) = match (list_to_map chunk : Jobs) !! p with
            Some r' => (Version r' =? Version r) && (LeaseUntil r' =? LeaseUntil r) | None => false end) as Hc.
  { transitivity (existsb (fun j : job => (j.1 =? p) && ((Version j.2 =? Version r) && (LeaseUntil j.2 =? LeaseUntil r))) chunk).
    - unfold completed. cbn [fst snd]. clear. induction chunk as [|j l IH]; cbn; [done|]. by rewrite IH, andb_assoc.
    - apply (Hex (fun j => (Version j.2 =? Version r) && (LeaseUntil j.2 =? LeaseUntil r))). }
  destruct ok.
  - destruct (completed chunk (p, r)) eqn:Ec.
    + rewrite (proj2 (map_lookup_filter_None _ _ _)) by (right; intros r0 Hr0; rewrite Em in Hr0; injection Hr0 as <-; by rewrite Ec). cbn.
      destruct (list_to_map chunk !! p) as [r'|]; [|done]. symmetry in Hc. apply andb_true_iff in Hc as [-> ->]. done.
    + rewrite (proj2 (map_lookup_filter_Some _ _ _ r)) by done. cbn. rewrite Ho.
      destruct (list_to_map chunk !! p) as [r'|]; [|done]. destruct (LeaseUntil r' =? LeaseUntil r); [|done].
      rewrite andb_true_r in Hc. by rewrite <- Hc.
  - rewrite Em. cbn. rewrite Ho. destruct (list_to_map chunk !! p) as [r'|]; [|done]. by destruct (LeaseUntil r' =? LeaseUntil r).
Qed.

Lemma complete_spec t ok m jobs p : NoDup jobs.*1 ->
  CompleteProxyReputationRefreshes t jobs ok m !! p =
  match m !! p with
  | None => None
  | Some r =>
      match (list_to_map jobs : Jobs) !! p with
      | Some r' =>
          if LeaseUntil r' =? LeaseUntil r then
            if ok && (Version r' =? Version r) then None else Some (set_lease (if ok then 0 else t + 5 * Second) r)
          else Some r
      | None => Some r
      end
  end.
Proof.
  unfold CompleteProxyReputationRefreshes. assert (concat (batches 1000 jobs) = jobs) as E by (apply concat_batches; lia).
  revert E. generalize (batches 1000 jobs). intros ls <-. revert m. induction ls as [|c ls IH]; intros m; cbn [fold_left concat].
  { intros _. rewrite list_to_map_nil, lookup_empty. by destruct (m !! p). }
  rewrite fmap_app. intros (Hc & Hdis & Hls)%NoDup_app. rewrite IH by done. rewrite complete_chunk_spec by done.
  rewrite list_to_map_app, lookup_union. destruct (m !! p) as [r|]; [|done].
  destruct (list_to_map c !! p) as [r'|] eqn:Ec.
  - assert ((list_to_map (concat ls) : Jobs) !! p = None) as ->.
    { apply not_elem_of_list_to_map_1. apply Hdis. apply elem_of_list_to_map_2 in Ec. by apply (list_elem_of_fmap_2 fst _ (p, r')). }
    cbn. destruct (LeaseUntil r' =? LeaseUntil r); [|done]. by destruct (ok && _).
  - by destruct (list_to_map (concat ls) !! p).
Qed.

Lemma queue_spec now ids m p : NoDup ids ->
  queueProxyReputationRefresh now ids m !! p =
  if bool_decide (p ∈ ids) then
    Some match m !! p with Some r => MkRefresh (Version r + 1) (RequestedAt r) (LeaseUntil r) | None => MkRefresh 1 now 0 end
  else m !! p.
Proof.
  intros Hnd. unfold queueProxyReputationRefresh. rewrite fold_left_batches by lia.
  assert (forall l m, NoDup l -> fold_left (queue_refresh now) l m !! p = if bool_decide (p ∈ l) then
    Some match m !! p with Some r => MkRefresh (Version r + 1) (RequestedAt r) (LeaseUntil r) | None => MkRefresh 1 now 0 end else m !! p) as H.
  { intros l. induction l as [|q l IH]; intros m0 Hl; cbn [fold_left]; [by rewrite bool_decide_eq_false_2 by by apply not_elem_of_nil|].
    apply NoDup_cons in Hl as [Hq Hl]. rewrite IH by done.
    assert (forall x, queue_refresh now m0 q !! x = if decide (q = x) then
      Some match m0 !! x with Some r => MkRefresh (Version r + 1) (RequestedAt r) (LeaseUntil r) | None => MkRefresh 1 now 0 end else m0 !! x) as Hqr.
    { intros x. unfold queue_refresh. destruct (decide (q = x)) as [<-|Hne]; destruct (m0 !! q); rewrite ?lookup_insert_eq, ?lookup_insert_ne by done; done. }
    rewrite Hqr. destruct (decide (q = p)) as [->|Hd].
    - rewrite (bool_decide_eq_false_2 (p ∈ l)), (bool_decide_eq_true_2 (p ∈ p :: l)) by (done || by left). done.
    - rewrite (bool_decide_ext (p ∈ q :: l) (p ∈ l)) by (rewrite elem_of_cons; naive_solver). done. }
  rewrite H by by rewrite merge_sort_Permutation. by rewrite (bool_decide_ext _ (p ∈ ids)) by by rewrite merge_sort_Permutation.
Qed.

Lemma record_spec ids m p : NoDup ids ->
  number (record_results ids m) p = number m p + if bool_decide (p ∈ ids) then 1 else 0.
Proof.
  unfold record_results. revert m. induction ids as [|q ids IH]; intros m; cbn [fold_left]; [rewrite bool_decide_eq_false_2 by apply not_elem_of_nil; lia|].
  intros [Hq Hnd]%NoDup_cons. rewrite IH by done. unfold number at 1. rewrite lookup_insert. destruct (decide (q = p)) as [->|Hd].
  - rewrite (bool_decide_eq_false_2 (p ∈ ids)), (bool_decide_eq_true_2 (p ∈ p :: ids)) by (done || by left). cbn. lia.
  - rewrite (bool_decide_ext (p ∈ q :: ids) (p ∈ ids)) by (rewrite elem_of_cons; naive_solver). unfold number. lia.
Qed.

(** ** The invariant *)

Definition holds (s : Sys) (w : nat) (x : worker) (p : Z) (r : ProxyReputationRefresh) : Prop :=
  workers s !! w = Some x /\ (p, r) ∈ jobs x.

Record inv (s : Sys) : Prop := MkInv {
  inv_clock : 0 <= clock s;
  inv_nodup : forall w x, workers s !! w = Some x -> NoDup (jobs x).*1;
  inv_pos : forall w x p r, holds s w x p r -> 0 < LeaseUntil r;
  inv_unique : forall w x w' x' p r r', holds s w x p r -> holds s w' x' p r' -> LeaseUntil r = LeaseUntil r' -> w = w';
  (* a lease that has not run out is the lease of the request *)
  inv_live : forall w x p r, holds s w x p r -> clock s < LeaseUntil r ->
    exists q, requests s !! p = Some q /\ LeaseUntil q = LeaseUntil r;
  (* while it is, the version counts what was recorded since the claim *)
  inv_own : forall w x p r q, holds s w x p r -> requests s !! p = Some q -> LeaseUntil q = LeaseUntil r ->
    Version r <= Version q /\
    (forall n, seen x !! p = Some n -> n <= number (results s) p <= n + (Version q - Version r)) /\
    (p ∈ stored x -> seen x !! p = Some (number (scored s) p));
  inv_done : forall p, requests s !! p = None -> number (scored s) p = number (results s) p }.

Lemma inv_initial t : 0 <= t -> inv (initial t).
Proof.
  intros Ht. split; try done; unfold holds; cbn; intros *; rewrite ?lookup_empty; try done; by intros [? _].
Qed.

(** Statements that leave the requests and the claims alone. *)
Lemma inv_update_worker s w x x' sc :
  inv s -> workers s !! w = Some x -> jobs x' = jobs x ->
  (forall p r q, (p, r) ∈ jobs x -> requests s !! p = Some q -> LeaseUntil q = LeaseUntil r ->
     (forall n, seen x' !! p = Some n -> n <= number (results s) p <= n + (Version q - Version r)) /\
     (p ∈ stored x' -> seen x' !! p = Some (number sc p))) ->
  (forall w' y p r q, w' <> w -> holds s w' y p r -> requests s !! p = Some q -> LeaseUntil q = LeaseUntil r -> number sc p = number (scored s) p) ->
  (forall p, requests s !! p = None -> number sc p = number (scored s) p) ->
  inv (MkSys (requests s) (results s) sc (<[w := x']> (workers s)) (clock s)).
Proof.
  intros I Hw Hj Hown Hoth Hnone.
  assert (forall w1 y p r, holds (MkSys (requests s) (results s) sc (<[w := x']> (workers s)) (clock s)) w1 y p r ->
    (w1 = w /\ y = x' /\ holds s w x p r) \/ (w1 <> w /\ holds s w1 y p r)) as Hh.
  { intros w1 y p r [H1 H2]. cbn in H1. rewrite lookup_insert in H1. case_decide as Hd.
    - left. injection H1 as <-. rewrite Hj in H2. done.
    - right. done. }
  assert (forall w1 y p r, holds (MkSys (requests s) (results s) sc (<[w := x']> (workers s)) (clock s)) w1 y p r -> exists y', holds s w1 y' p r) as Hh'.
  { intros w1 y p r [(-> & _ & H)|[_ H]]%Hh; eauto. }
  split; cbn.
  - apply I.
  - intros w1 y H1. rewrite lookup_insert in H1. case_decide; [injection H1 as <-; rewrite Hj; by apply (inv_nodup s I w)|by apply (inv_nodup s I w1)].
  - intros w1 y p r [y' H]%Hh'. by apply (inv_pos s I w1 y' p).
  - intros w1 y1 w2 y2 p r r' [y1' H1]%Hh' [y2' H2]%Hh'. by apply (inv_unique s I w1 y1' w2 y2' p).
  - intros w1 y p r [y' H]%Hh'. by apply (inv_live s I w1 y').
  - intros w1 y p r q [(-> & -> & H)|[Hne H]]%Hh Hq Hl.
    + destruct (inv_own s I w x p r q H Hq Hl) as [Hv _]. split; [done|]. destruct H as [_ H]. by apply Hown.
    + destruct (inv_own s I w1 y p r q H Hq Hl) as (Hv & Hs & Hst). split; [done|]. split; [done|].
      rewrite (Hoth w1 y p r q) by done. done.
  - intros p Hp. rewrite Hnone by done. by apply (inv_done s I).
Qed.

Lemma inv_record s ids : inv s -> NoDup ids ->
  inv (MkSys (queueProxyReputationRefresh (clock s) ids (requests s)) (record_results ids (results s)) (scored s) (workers s) (clock s)).
Proof.
  intros I Hnd. split; unfold holds; cbn [clock workers requests results scored]; [apply I|apply I|apply I|apply I| | |].
  - intros w x p r H Hc. destruct (inv_live s I w x p r H Hc) as (q & Hq & Hl). rewrite queue_spec by done.
    case_bool_decide; [|by exists q]. rewrite Hq. by eexists.
  - intros w x p r q H Hq Hl. rewrite queue_spec in Hq by done. rewrite record_spec by done.
    destruct (bool_decide (p ∈ ids)).
    + destruct (requests s !! p) as [q0|] eqn:Eq0; injection Hq as <-; cbn in *.
      2:{ pose proof (inv_pos s I w x p r H). lia. }
      destruct (inv_own s I w x p r q0 H Eq0 Hl) as (Hv & Hs & Hst). split; [lia|]. split; [|done]. intros n Hn. specialize (Hs n Hn). lia.
    + destruct (inv_own s I w x p r q H Hq Hl) as (Hv & Hs & Hst). split; [lia|]. split; [|done]. intros n Hn. specialize (Hs n Hn). lia.
  - intros p. rewrite queue_spec, record_spec by done. case_bool_decide; [done|]. intros Hp. rewrite (inv_done s I p Hp). lia.
Qed.

Lemma inv_claim s w limit locked js m :
  inv s -> workers s !! w = None -> ClaimProxyReputationRefreshes (clock s) limit refreshLease locked (requests s) = (js, m) ->
  inv (MkSys m (results s) (scored s) (<[w := MkWorker js ∅ ∅]> (workers s)) (clock s)).
Proof.
  intros I Hw (Hnd & Hjs & Hrest)%refresh_claim_spec.
  pose proof (inv_clock s I) as Hclock. pose proof (truncate_le (clock s)) as Htr.
  assert (refreshLease = 120000000000 /\ Microsecond = 1000) as [Erl Ems] by done.
  set (s' := MkSys _ _ _ _ _).
  assert (forall w1 y p r, holds s' w1 y p r -> (w1 = w /\ y = MkWorker js ∅ ∅ /\ (p, r) ∈ js) \/ (w1 <> w /\ holds s w1 y p r)) as Hh.
  { intros w1 y p r [H1 H2]. cbn in H1. rewrite lookup_insert in H1. case_decide as Hd; [left; by injection H1 as <-|by right]. }
  (* a claim held before is on another lease *)
  assert (forall w1 y p r r', holds s w1 y p r -> (p, r') ∈ js -> LeaseUntil r < LeaseUntil r' /\ LeaseUntil r <= clock s) as Hold.
  { intros w1 y p r r' H (r0 & Hr0 & Hle & -> & _)%Hjs. cbn.
    destruct (Z.lt_ge_cases (clock s) (LeaseUntil r)) as [Hlt|]; [|lia].
    destruct (inv_live s I w1 y p r H Hlt) as (q & Hq & Hl). rewrite Hr0 in Hq. injection Hq as <-. lia. }
  assert (forall p r, (p, r) ∈ js -> clock s < LeaseUntil r /\ m !! p = Some r) as Hnew.
  { intros p r (r0 & Hr0 & Hle & -> & Hm)%Hjs. cbn. split; [lia|done]. }
  assert (forall p, p ∈ js.*1 -> exists r, (p, r) ∈ js) as Hkey.
  { intros p ([q r] & -> & Hin)%list_elem_of_fmap. by exists r. }
  split.
  - done.
  - cbn. intros w1 y H1. rewrite lookup_insert in H1. case_decide; [by injection H1 as <-|by apply (inv_nodup s I w1)].
  - intros w1 y p r [(-> & -> & H)|[_ H]]%Hh; [apply Hnew in H; lia|by apply (inv_pos s I w1 y p)].
  - intros w1 y1 w2 y2 p r r' [(-> & -> & H1)|[Hn1 H1]]%Hh [(-> & -> & H2)|[Hn2 H2]]%Hh; [done| | |].
    + destruct (Hold w2 y2 p r' r H2 H1). lia.
    + destruct (Hold w1 y1 p r r' H1 H2). lia.
    + by apply (inv_unique s I w1 y1 w2 y2 p).
  - cbn. intros w1 y p r [(-> & -> & H)|[_ H]]%Hh Hc.
    + exists r. split; [by apply Hnew|done].
    + destruct (decide (p ∈ js.*1)) as [[r' Hr']%Hkey|Hp]; [destruct (Hold w1 y p r r' H Hr'); lia|].
      rewrite Hrest by done. by apply (inv_live s I w1 y).
  - cbn. intros w1 y p r q [(-> & -> & H)|[_ H]]%Hh Hq Hl.
    + apply Hnew in H as [_ Hm]. rewrite Hm in Hq. injection Hq as <-. cbn. split; [lia|]. split; [intros n|]; done.
    + destruct (decide (p ∈ js.*1)) as [[r' Hr']%Hkey|Hp].
      * destruct (Hold w1 y p r r' H Hr'). apply Hnew in Hr' as [_ Hm]. rewrite Hm in Hq. injection Hq as <-. lia.
      * rewrite Hrest in Hq by done. by apply (inv_own s I w1 y).
  - cbn. intros p. destruct (decide (p ∈ js.*1)) as [[r' Hr']%Hkey|Hp].
    + apply Hnew in Hr' as [_ Hm]. by rewrite Hm.
    + rewrite Hrest by done. apply I.
Qed.

Lemma inv_complete s w x ok :
  inv s -> workers s !! w = Some x -> (ok = true -> forall p r, (p, r) ∈ jobs x -> p ∈ stored x) ->
  inv (MkSys (CompleteProxyReputationRefreshes (clock s) (jobs x) ok (requests s)) (results s) (scored s) (delete w (workers s)) (clock s)).
Proof.
  intros I Hw Hst. pose proof (inv_nodup s I w x Hw) as Hnd. pose proof (inv_clock s I) as Hclock.
  set (s' := MkSys _ _ _ _ _).
  assert (forall w1 y p r, holds s' w1 y p r -> w1 <> w /\ holds s w1 y p r) as Hh.
  { intros w1 y p r [H1 H2]. cbn in H1. rewrite lookup_delete in H1. by case_decide. }
  assert (forall p r, (list_to_map (jobs x) : Jobs) !! p = Some r -> holds s w x p r) as Hmine.
  { intros p r Hr. split; [done|]. by apply elem_of_list_to_map_2. }
  split.
  - done.
  - cbn. intros w1 y H1. rewrite lookup_delete in H1. case_decide; [done|]. by apply (inv_nodup s I w1).
  - intros w1 y p r [_ H]%Hh. by apply (inv_pos s I w1 y p).
  - intros w1 y1 w2 y2 p r r' [_ H1]%Hh [_ H2]%Hh. by apply (inv_unique s I w1 y1 w2 y2 p).
  - cbn. intros w1 y p r [Hne H]%Hh Hc. rewrite complete_spec by done.
    destruct (inv_live s I w1 y p r H Hc) as (q & Hq & Hl). rewrite Hq. exists q. split; [|done].
    destruct (list_to_map (jobs x) !! p) as [r'|] eqn:Er'; [|done]. destruct (Z.eqb_spec (LeaseUntil r') (LeaseUntil q)); [|done].
    destruct Hne. apply (inv_unique s I w1 y w x p r r'); [done|by apply Hmine|congruence].
  - cbn. intros w1 y p r q [Hne H]%Hh Hq Hl. rewrite complete_spec in Hq by done.
    destruct (requests s !! p) as [q0|] eqn:Eq0; [|done].
    destruct (list_to_map (jobs x) !! p) as [r'|] eqn:Er'; [|injection Hq as <-; by apply (inv_own s I w1 y)].
    destruct (Z.eqb_spec (LeaseUntil r') (LeaseUntil q0)) as [He|]; [|injection Hq as <-; by apply (inv_own s I w1 y)].
    exfalso. destruct (ok && _); [done|]. injection Hq as <-. cbn in Hl.
    destruct (Z.lt_ge_cases (clock s) (LeaseUntil r)) as [Hlt|Hge].
    + destruct (inv_live s I w1 y p r H Hlt) as (q1 & Hq1 & Hl1). rewrite Eq0 in Hq1. injection Hq1 as <-.
      destruct Hne. apply (inv_unique s I w1 y w x p r r'); [done|by apply Hmine|congruence].
    + pose proof (inv_pos s I w1 y p r H). assert (Second = 1000000000) as Es by done. rewrite Es in Hl. destruct ok; lia.
  - cbn. intros p. rewrite complete_spec by done. destruct (requests s !! p) as [q0|] eqn:Eq0; [|intros _; by apply I].
    destruct (list_to_map (jobs x) !! p) as [r'|] eqn:Er'; [|done]. destruct (Z.eqb_spec (LeaseUntil r') (LeaseUntil q0)) as [He|]; [|done].
    destruct ok; [|done]. cbn. destruct (Z.eqb_spec (Version r') (Version q0)) as [Hv|]; [|done]. intros _.
    apply Hmine in Er' as Hr'. destruct (inv_own s I w x p r' q0 Hr' Eq0) as (_ & Hs & Hsc); [done|].
    assert (seen x !! p = Some (number (scored s) p)) as Hse by (apply Hsc, (Hst eq_refl p r'), Hr').
    specialize (Hs _ Hse). lia.
Qed.

Lemma inv_gone s w : inv s -> inv (MkSys (requests s) (results s) (scored s) (delete w (workers s)) (clock s)).
Proof.
  intros I. assert (forall w1 y, delete w (workers s) !! w1 = Some y -> workers s !! w1 = Some y) as Hd.
  { intros w1 y [_ H]%lookup_delete_Some. done. }
  split; unfold holds; cbn; [apply I|eauto using inv_nodup| | | | |apply I].
  - intros w1 y p r [H1 H2]. by apply (inv_pos s I w1 y p r (conj (Hd _ _ H1) H2)).
  - intros w1 y w2 y' p r r' [H1 H2] [H3 H4]. apply (inv_unique s I w1 y w2 y' p r r' (conj (Hd _ _ H1) H2) (conj (Hd _ _ H3) H4)).
  - intros w1 y p r [H1 H2]. apply (inv_live s I w1 y p r (conj (Hd _ _ H1) H2)).
  - intros w1 y p r q [H1 H2]. apply (inv_own s I w1 y p r q (conj (Hd _ _ H1) H2)).
Qed.

Lemma inv_step s s' : inv s -> step s s' -> inv s'.
Proof.
  intros I. destruct 1 as [t s Ht|ids s Hnd|w limit locked js m s Hw Hc|w x p s Hw Hp|w x p r n s Hw Hj Hn Hlt|w x ok s Hw Hst|w s].
  - split; unfold holds; cbn; [pose proof (inv_clock s I); lia|apply I|apply I|apply I| |apply I|apply I].
    intros w x p r H Hc. apply (inv_live s I w x p r H). lia.
  - by apply inv_record.
  - by apply (inv_claim s w limit locked).
  - apply (inv_update_worker s w x); try done. intros q r j Hj Hq Hl. cbn.
    destruct (inv_own s I w x q r j (conj Hw Hj) Hq Hl) as (Hv & Hs & Hst). rewrite lookup_insert. case_decide as Hd.
    + subst q. split; [intros n [= <-]; lia|]. intros Hin. rewrite Hst in Hp by done. done.
    + done.
  - destruct (inv_live s I w x p r (conj Hw Hj) Hlt) as (q & Hq & Hl).
    apply (inv_update_worker s w x); try done.
    + intros p' r' q' Hj' Hq' Hl'. cbn. destruct (inv_own s I w x p' r' q' (conj Hw Hj') Hq' Hl') as (Hv & Hs & Hst). split; [done|].
      unfold number. rewrite lookup_insert. case_decide as Hd; [by subst p'|]. intros [->%elem_of_singleton|Hin]%elem_of_union; [done|by apply Hst].
    + intros w' y p' r' q' Hne Hh Hq' Hl'. unfold number. rewrite lookup_insert. case_decide as Hd; [|done]. subst p'.
      destruct Hne. apply (inv_unique s I w' y w x p r' r Hh (conj Hw Hj)). congruence.
    + intros p' Hp'. unfold number. rewrite lookup_insert. case_decide as Hd; [|done]. subst p'. congruence.
  - by apply (inv_complete s w x).
  - by apply inv_gone.
Qed.

(** C30. Once no request for a route is left, its stored reputation was computed
    from every recorded result of the route: whatever the number of instances
    claiming requests, results recorded while a reputation is being computed,
    failed calculations, crashed workers and claims that ran out and were
    claimed again, no result is forgotten and no older reputation overwrites a
    newer one. *)
Theorem reputation_current t s p :
  0 <= t -> rtc step (initial t) s -> requests s !! p = None -> number (scored s) p = number (results s) p.
Proof.
  intros Ht Hr. assert (inv s) as I.
  { revert Hr. apply (rtc_ind_r inv); [by apply inv_initial|]. intros y z _ H I. by apply (inv_step y). }
  apply (inv_done s I).
Qed.

(** A worker's round over two requests, while results are recorded. *)
Lemma round_runs t m res js m' p r q r' late :
  ClaimProxyReputationRefreshes t 10 refreshLease ∅ m = (js, m') -> js = [(p, r); (q, r')] -> p <> q ->
  t < LeaseUntil r -> t < LeaseUntil r' -> NoDup late ->
  exists sc ws, rtc step (MkSys m res ∅ ∅ t)
    (MkSys (CompleteProxyReputationRefreshes t js true (queueProxyReputationRefresh t late m')) (record_results late res) sc ws t).
Proof.
  intros Hc Hjs Hpq Hr Hr' Hlate.
  assert (((p, r) : job) ∈ js /\ ((q, r') : job) ∈ js) as [Hp Hq] by (rewrite Hjs; set_solver).
  do 2 eexists.
  eapply rtc_l; [by apply (step_claim 0%nat 10 ∅ js m')|].
  eapply rtc_l; [by eapply (step_read 0%nat _ p); [apply lookup_insert_eq|]|].
  eapply rtc_l; [by eapply (step_read 0%nat _ q); [apply lookup_insert_eq|cbn; by rewrite lookup_insert_ne]|].
  eapply rtc_l; [by apply (step_record late)|].
  eapply rtc_l; [by eapply (step_store 0%nat _ p r); [apply lookup_insert_eq|exact Hp|cbn; rewrite lookup_insert_ne by done; apply lookup_insert_eq|]|].
  eapply rtc_l; [by eapply (step_store 0%nat _ q r'); [apply lookup_insert_eq|exact Hq|apply lookup_insert_eq|]|].
  eapply rtc_l; [eapply (step_complete 0%nat _ true); [apply lookup_insert_eq|]|apply rtc_refl].
  intros _ x y. cbn [jobs]. rewrite Hjs. intros [[= -> ->]|[[= -> ->]|[]%not_elem_of_nil]%elem_of_cons]%elem_of_cons; cbn; set_solver.
Qed.

(** A result is recorded while the worker computes: its request stays, for one more round. *)
Definition sample_requests : Jobs := queueProxyReputationRefresh 5000 [7; 8] ∅.

Definition sample_request (p : Z) : job := (p, MkRefresh 1 5000 (5000 + refreshLease)).

Definition sample_jobs : list job := [sample_request 7; sample_request 8].

Definition sample_claimed : Jobs := (ClaimProxyReputationRefreshes 5000 10 refreshLease ∅ sample_requests).2.

Lemma sample_claim : ClaimProxyReputationRefreshes 5000 10 refreshLease ∅ sample_requests = (sample_jobs, sample_claimed).
Proof. by vm_compute. Qed.

Lemma sample_completes :
  let m := CompleteProxyReputationRefreshes 5000 sample_jobs true (queueProxyReputationRefresh 5000 [7] sample_claimed) in
  m !! 8 = None /\ m !! 7 = Some (MkRefresh 2 5000 0).
Proof. split; by vm_compute. Qed.

Lemma reputation_current_witness : exists s,
  rtc step (initial 5000) s /\ requests s !! 8 = None /\ requests s !! 7 = Some (MkRefresh 2 5000 0) /\
  number (scored s) 8 = number (results s) 8.
Proof.
  destruct (round_runs 5000 sample_requests (record_results [7; 8] ∅) _ _ 7 (sample_request 7).2 8 (sample_request 8).2 [7] sample_claim)
    as (sc & ws & Hr); [done..|apply (bool_decide_unpack _); by vm_compute|].
  eapply (rtc_l step (initial 5000)) in Hr; [|apply (step_record [7; 8]); apply (bool_decide_unpack _); by vm_compute].
  eexists. split; [exact Hr|]. destruct sample_completes as [H8 H7]. split; [exact H8|]. split; [exact H7|].
  apply (reputation_current 5000 _ 8); [lia|exact Hr|exact H8].
Defined.

End RefreshQueue.
