(* ===== verification/EmailOutbox.v ===== *)
(** * Outgoing mail

    [internal/database/email_outbox.go] and
    [internal/jobs/runtime/email_delivery.go]: messages wait in a table, the
    workers of any instance claim them in batches, send them and record the
    outcome; the elected maintenance takes back what a dead worker left and
    deletes what is settled.  The mail server is a parameter of the system: a
    delivery that reached it is counted, whatever the worker learns of it. *)

From S2P Require Import Prelude GoStrings RateLimit.
From stdpp Require Import sorting.
Open Scope Z_scope.

Module EmailOutbox.
Import RateLimit.

Inductive EmailOutboxStatus := Pending | Processing | Sent | Abandoned.

#[export] Instance EmailOutboxStatus_eq_dec : EqDecision EmailOutboxStatus.
Proof. solve_decision. Defined.

(** [domain.EmailOutbox]; its identifier is the key of the table. *)
Record EmailOutbox := MkEmail {
  Kind : string; ToAddress : string; Subject : string; Body : string;
  Status : EmailOutboxStatus; Attempts : Z; MaxAttempts : Z; LastError : string;
  NextAttemptAt : Z; LastAttemptAt : option Z; SentAt : option Z; UpdatedAt : Z
}.

Abbreviation Outbox := (gmap Z EmailOutbox).

(** ** The table *)

Definition EnqueueEmailOutbox (now : Z) (kind toAddress subject body : string) (maxAttempts : Z) : EmailOutbox :=
  MkEmail (trim_space kind) (trim_space toAddress) subject body Pending 0 (if maxAttempts <=? 0 then 4 else maxAttempts) ""
    now None None now.

Definition earlier_email (a b : Z * EmailOutbox) : bool :=
  (NextAttemptAt a.2 <? NextAttemptAt b.2) || ((NextAttemptAt a.2 =? NextAttemptAt b.2) && (a.1 <=? b.1)).

(** The pending messages that are due; [locked] are the rows other claims hold. *)
Definition due_emails (now : Z) (locked : gset Z) (m : Outbox) : list (Z * EmailOutbox) :=
  merge_sort (rel_of earlier_email)
    (List.filter (fun x => bool_decide (Status x.2 = Pending) && (NextAttemptAt x.2 <=? now) && negb (bool_decide (x.1 ∈ locked)))
       (map_to_list m)).

Definition claim_email (now : Z) (e : EmailOutbox) : EmailOutbox :=
  MkEmail (Kind e) (ToAddress e) (Subject e) (Body e) Processing (Attempts e + 1) (MaxAttempts e) (LastError e)
    (NextAttemptAt e) (Some now) (SentAt e) now.

(** [ClaimPendingEmailOutbox]: the claimed messages, and the table. *)
Definition ClaimPendingEmailOutbox (limit now : Z) (locked : gset Z) (m : Outbox) : list (Z * EmailOutbox) * Outbox :=
  if limit <=? 0 then ([], m)
  else
    let claimed := take (Z.to_nat limit) (due_emails now locked m) in
    (map (fun x => (x.1, claim_email now x.2)) claimed,
     map_imap (fun id e => Some (if bool_decide (id ∈ claimed.*1) then claim_email now e else e)) m).

(** The three marks are updates of one row, by identifier alone. *)
Definition sent_email (now : Z) (e : EmailOutbox) : EmailOutbox :=
  MkEmail (Kind e) (ToAddress e) (Subject e) (Body e) Sent (Attempts e) (MaxAttempts e) "" (NextAttemptAt e)
    (LastAttemptAt e) (Some now) now.

Definition MarkEmailOutboxSent (id now : Z) (m : Outbox) : Outbox := alter (sent_email now) id m.

Definition truncateEmailOutboxError (value : string) : string :=
  let value := trim_space value in if (slen value <=? 1000)%nat then value else stake 1000 value.

Definition retry_email (now next : Z) (error : string) (e : EmailOutbox) : EmailOutbox :=
  MkEmail (Kind e) (ToAddress e) (Subject e) (Body e) Pending (Attempts e) (MaxAttempts e) (truncateEmailOutboxError error) next
    (LastAttemptAt e) (SentAt e) now.

Definition MarkEmailOutboxForRetry (id now next : Z) (error : string) (m : Outbox) : Outbox := alter (retry_email now next error) id m.

Definition abandoned_email (now : Z) (error : string) (e : EmailOutbox) : EmailOutbox :=
  MkEmail (Kind e) (ToAddress e) (Subject e) (Body e) Abandoned (Attempts e) (MaxAttempts e) (truncateEmailOutboxError error)
    (NextAttemptAt e) (LastAttemptAt e) (SentAt e) now.

Definition MarkEmailOutboxAbandoned (id now : Z) (error : string) (m : Outbox) : Outbox := alter (abandoned_email now error) id m.

Definition stale_email (before : Z) (e : EmailOutbox) : bool :=
  bool_decide (Status e = Processing) && match LastAttemptAt e with Some t => t <=? before | None => false end.

Definition requeued_email (now : Z) (e : EmailOutbox) : EmailOutbox :=
  MkEmail (Kind e) (ToAddress e) (Subject e) (Body e) Pending (Attempts e) (MaxAttempts e) "processing timeout" now
    (LastAttemptAt e) (SentAt e) now.

Definition RequeueStaleEmailOutboxMessages (now before : Z) (m : Outbox) : Outbox :=
  (fun e => if stale_email before e then requeued_email now e else e) <$> m.

Definition CountActiveEmailOutboxMessages (m : Outbox) : nat :=
  length (List.filter (fun x => bool_decide (Status x.2 = Pending) || bool_decide (Status x.2 = Processing)) (map_to_list m)).

Definition settled_email (olderThan : Z) (e : EmailOutbox) : bool :=
  (bool_decide (Status e = Sent) && match SentAt e with Some t => t <=? olderThan | None => false end) ||
  (bool_decide (Status e = Abandoned) && (UpdatedAt e <=? olderThan)).

Definition updated_first (a b : Z * EmailOutbox) : bool :=
  (UpdatedAt a.2 <? UpdatedAt b.2) || ((UpdatedAt a.2 =? UpdatedAt b.2) && (a.1 <=? b.1)).

Definition DeleteSentEmailOutbox (olderThan limit : Z) (m : Outbox) : Outbox :=
  let limit := if limit <=? 0 then 500 else limit in
  let rows := take (Z.to_nat limit)
    (merge_sort (rel_of updated_first) (List.filter (fun x => settled_email olderThan x.2) (map_to_list m))) in
  filter (fun x => x.1 ∉ rows.*1) m.

(** ** Settings *)

Definition defaultEmailRetryBaseDelay : Z := 5 * Second.
Definition maxEmailRetryDelay : Z := 30 * Minute.
Definition defaultEmailProcessingTimeout : Z := 15 * Minute.
Definition defaultEmailOutboxRetention : Z := 24 * Hour.
Definition emailOutboxCleanupBatchSize : Z := 500.

(** The loop of [resolveEmailRetryDelay]: [n] doublings at most. *)
Fixpoint retry_delay (n : nat) (delay : Z) : Z :=
  match n with
  | O => if maxEmailRetryDelay <? delay then maxEmailRetryDelay else delay
  | S n => if Z.quot maxEmailRetryDelay 2 <=? delay then maxEmailRetryDelay else retry_delay n (wrap_i64 (delay * 2))
  end.

Section Settings.
Context (LookupEnv : string -> option string).

Definition resolveEmailRetryDelay (attempt : Z) : Z :=
  let attempt := if attempt <? 1 then 1 else attempt in
  let baseSeconds := GetEnvInt LookupEnv "EMAIL_RETRY_BASE_SECONDS" (Z.quot defaultEmailRetryBaseDelay Second) in
  let baseSeconds := if baseSeconds <=? 0 then Z.quot defaultEmailRetryBaseDelay Second else baseSeconds in
  retry_delay (Z.to_nat (attempt - 1)) (wrap_i64 (baseSeconds * Second)).

Definition resolveEmailOutboxBatchSize : Z :=
  let size := GetEnvInt LookupEnv "EMAIL_OUTBOX_BATCH_SIZE" 10 in if size <=? 0 then 10 else size.

Definition resolveEmailOutboxRetention : Z :=
  let hours := GetEnvInt LookupEnv "EMAIL_OUTBOX_RETENTION_HOURS" (Z.quot defaultEmailOutboxRetention Hour) in
  if hours <=? 0 then defaultEmailOutboxRetention else wrap_i64 (hours * Hour).

Definition resolveEmailOutboxMaxAttempts : Z :=
  let attempts := GetEnvInt LookupEnv "EMAIL_MAX_ATTEMPTS" 4 in if attempts <=? 0 then 4 else attempts.

(** [resolveEmailProcessingTimeout]; [ParseDuration] is the standard library's. *)
Definition resolveEmailProcessingTimeout (ParseDuration : string -> option Z) : Z :=
  let seconds := GetEnvInt LookupEnv "EMAIL_PROCESSING_TIMEOUT_SECONDS" (Z.quot defaultEmailProcessingTimeout Second) in
  let fallback := wrap_i64 ((if seconds <=? 0 then Z.quot defaultEmailProcessingTimeout Second else seconds) * Second) in
  match LookupEnv "EMAIL_PROCESSING_TIMEOUT" with
  | Some raw =>
      if String.eqb raw "" then fallback
      else match ParseDuration raw with Some d => if 0 <? d then d else fallback | None => fallback end
  | None => fallback
  end.

(** ** Delivery *)

(** [scheduleEmailRetry] of a claimed message whose delivery failed. *)
Definition scheduleEmailRetry (now id : Z) (msg : EmailOutbox) (cause : string) (m : Outbox) : Outbox :=
  if MaxAttempts msg <=? Attempts msg then MarkEmailOutboxAbandoned id now cause m
  else MarkEmailOutboxForRetry id now (now + resolveEmailRetryDelay (Attempts msg + 1)) cause m.

(** What [deliverEmailOutboxMessage] does after [SendEmail] returned: [None] when
    it sent the message. *)
Definition deliverEmailOutboxMessage (now id : Z) (msg : EmailOutbox) (result : option string) (m : Outbox) : Outbox :=
  match result with
  | None => MarkEmailOutboxSent id now m
  | Some cause => scheduleEmailRetry now id msg cause m
  end.

Definition runEmailDeliveryMaintenancePass (now timeout retention : Z) (m : Outbox) : Outbox :=
  let m := if 0 <? timeout then RequeueStaleEmailOutboxMessages now (now - timeout) m else m in
  if retention <=? 0 then m else DeleteSentEmailOutbox (now - retention) emailOutboxCleanupBatchSize m.

End Settings.

(** ** The system *)

(** What the mail server is given. *)
Definition letter (e : EmailOutbox) : string * string * string := (ToAddress e, Subject e, Body e).

(** A delivery of a claimed message: under way, or back with a result. *)
Inductive delivery :=
| Sending (id : Z) (msg : EmailOutbox)
| Returned (id : Z) (msg : EmailOutbox) (result : option string).

(** Beside the table and the deliveries: the messages as they were enqueued,
    how often each was claimed, and what the mail server took. *)
Record Sys := MkSys {
  outbox : Outbox; enqueued : Outbox; claims : gmap Z Z; deliveries : list delivery;
  mailed : list (Z * (string * string * string)); clock : Z
}.

Definition times (m : gmap Z Z) (id : Z) : Z := default 0 (m !! id).

Definition count_claims (ids : list Z) (m : gmap Z Z) : gmap Z Z := fold_left (fun m id => <[id := times m id + 1]> m) ids m.

Definition initial (t : Z) : Sys := MkSys ∅ ∅ ∅ [] [] t.

Inductive event :=
| Tick (t : Z)
| Enqueue (id : Z) (e : EmailOutbox)
| Claim (claimed : list (Z * EmailOutbox))
| Send (id : Z) (msg : EmailOutbox) (result : option string) (took : bool)
| Mark (id : Z) (msg : EmailOutbox) (result : option string)
| Lost (d : delivery)
| Maintain (timeout retention : Z).

Section System.
Context (LookupEnv : string -> option string).

Inductive step : Sys -> event -> Sys -> Prop :=
| step_tick t s :
    clock s <= t -> step s (Tick t) (MkSys (outbox s) (enqueued s) (claims s) (deliveries s) (mailed s) t)
| step_enqueue id kind toAddress subject body maxAttempts s :
    enqueued s !! id = None ->
    let e := EnqueueEmailOutbox (clock s) kind toAddress subject body maxAttempts in
    step s (Enqueue id e)
      (MkSys (<[id := e]> (outbox s)) (<[id := e]> (enqueued s)) (claims s) (deliveries s) (mailed s) (clock s))
(* each claimed message is delivered by a goroutine of its own *)
| step_claim limit locked claimed m s :
    ClaimPendingEmailOutbox limit (clock s) locked (outbox s) = (claimed, m) ->
    step s (Claim claimed)
      (MkSys m (enqueued s) (count_claims claimed.*1 (claims s))
         (deliveries s ++ map (fun x => Sending x.1 x.2) claimed) (mailed s) (clock s))
(* the mail server takes the message, or not; an error may be reported for a message it took *)
| step_send before id msg after result took s :
    deliveries s = before ++ Sending id msg :: after -> (result = None -> took = true) ->
    step s (Send id msg result took)
      (MkSys (outbox s) (enqueued s) (claims s) (before ++ Returned id msg result :: after)
         ((if took then [(id, letter msg)] else []) ++ mailed s) (clock s))
| step_mark before id msg result after s :
    deliveries s = before ++ Returned id msg result :: after ->
    step s (Mark id msg result)
      (MkSys (deliverEmailOutboxMessage LookupEnv (clock s) id msg result (outbox s)) (enqueued s) (claims s)
         (before ++ after) (mailed s) (clock s))
(* the process ends, or its last statement fails *)
| step_lost before d after s :
    deliveries s = before ++ d :: after ->
    step s (Lost d) (MkSys (outbox s) (enqueued s) (claims s) (before ++ after) (mailed s) (clock s))
| step_maintain timeout retention s :
    step s (Maintain timeout retention)
      (MkSys (runEmailDeliveryMaintenancePass (clock s) timeout retention (outbox s)) (enqueued s) (claims s)
         (deliveries s) (mailed s) (clock s)).

Definition runs (s s' : Sys) : Prop := exists ev, step s ev s'.

Definition message_of (d : delivery) : Z * EmailOutbox := match d with Sending id msg => (id, msg) | Returned id msg _ => (id, msg) end.

(** Nothing unusual: every delivery is over within the processing timeout, its
    outcome is recorded, and a reported failure is a message not taken. *)
Definition usual (timeout : Z) (s : Sys) (ev : event) : Prop :=
  match ev with
  | Tick t => forall d u, d ∈ deliveries s -> LastAttemptAt (message_of d).2 = Some u -> t < u + timeout
  | Send _ _ result took => result <> None -> took = false
  | Lost (Returned _ _ _) => False
  | Maintain timeout' _ => timeout' = timeout
  | _ => True
  end.

Definition usually_runs (timeout : Z) (s s' : Sys) : Prop := exists ev, usual timeout s ev /\ step s ev s'.

End System.

(** ** Row by row *)

Lemma elem_of_due now locked m id e :
  (id, e) ∈ due_emails now locked m <-> m !! id = Some e /\ Status e = Pending /\ NextAttemptAt e <= now /\ id ∉ locked.
Proof.
  unfold due_emails. rewrite merge_sort_Permutation, list_elem_of_In, filter_In, <- list_elem_of_In, elem_of_map_to_list. cbn.
  rewrite !andb_true_iff, Z.leb_le, negb_true_iff, bool_decide_eq_false, bool_decide_eq_true. tauto.
Qed.

Lemma NoDup_due now locked m : NoDup (due_emails now locked m).*1.
Proof. unfold due_emails. rewrite merge_sort_Permutation. apply (NoDup_map_filter fst), NoDup_fst_map_to_list. Qed.

(** A claim takes pending messages, and does to the table what it says. *)
Lemma claim_emails limit now locked m claimed m' : ClaimPendingEmailOutbox limit now locked m = (claimed, m') ->
  NoDup claimed.*1 /\
  (forall id e, (id, e) ∈ claimed -> exists e0, m !! id = Some e0 /\ Status e0 = Pending /\ e = claim_email now e0 /\ m' !! id = Some e) /\
  (forall id, id ∉ claimed.*1 -> m' !! id = m !! id).
Proof.
  unfold ClaimPendingEmailOutbox. destruct (limit <=? 0).
  { intros [= <- <-]. split; [constructor|]. split; [by intros id e ?%not_elem_of_nil|done]. }
  set (chosen := take (Z.to_nat limit) (due_emails now locked m)). intros [= <- <-].
  assert ((map (fun x : Z * EmailOutbox => (x.1, claim_email now x.2)) chosen).*1 = chosen.*1) as Hfst.
  { unfold fmap. induction chosen as [|x l IH]; [done|]. cbn in *. by rewrite IH. }
  assert (NoDup chosen.*1) as Hnd.
  { pose proof (NoDup_due now locked m) as H. rewrite <- (take_drop (Z.to_nat limit) (due_emails _ _ _)), fmap_app in H.
    by apply NoDup_app in H as [H _]. }
  rewrite Hfst. split; [done|]. split.
  - intros id e (x & He & Hx)%list_elem_of_fmap. destruct x as [q e0]. cbn in He. injection He as -> ->.
    assert ((q, e0) ∈ due_emails now locked m) as (Hq & Hp & _)%elem_of_due.
    { rewrite <- (take_drop (Z.to_nat limit) (due_emails _ _ _)). apply elem_of_app. by left. }
    exists e0. split_and!; [done|done|done|]. rewrite map_lookup_imap, Hq. cbn.
    rewrite bool_decide_eq_true_2; [done|]. by apply (list_elem_of_fmap_2 fst _ (q, e0)).
  - intros id Hid. rewrite map_lookup_imap. destruct (m !! id); [|done]. cbn. by rewrite bool_decide_eq_false_2.
Qed.

Lemma times_count ids m id : NoDup ids -> times (count_claims ids m) id = times m id + if bool_decide (id ∈ ids) then 1 else 0.
Proof.
  unfold count_claims. revert m. induction ids as [|q ids IH]; intros m; cbn [fold_left]; [rewrite bool_decide_eq_false_2 by apply not_elem_of_nil; lia|].
  intros [Hq Hnd]%NoDup_cons. rewrite IH by done. unfold times at 1. rewrite lookup_insert. destruct (decide (q = id)) as [->|Hd].
  - rewrite (bool_decide_eq_false_2 (id ∈ ids)), (bool_decide_eq_true_2 (id ∈ id :: ids)) by (done || by left). cbn. lia.
  - rewrite (bool_decide_ext (id ∈ q :: ids) (id ∈ ids)) by (rewrite elem_of_cons; naive_solver). unfold times. lia.
Qed.

Lemma lookup_requeue now before m id :
  RequeueStaleEmailOutboxMessages now before m !! id = (fun e => if stale_email before e then requeued_email now e else e) <$> m !! id.
Proof. apply lookup_fmap. Qed.

(** The clean-up deletes settled messages only. *)
Lemma delete_settled older limit m id :
  DeleteSentEmailOutbox older limit m !! id = m !! id \/
  (DeleteSentEmailOutbox older limit m !! id = None /\ exists e, m !! id = Some e /\ settled_email older e = true).
Proof.
  unfold DeleteSentEmailOutbox. set (rows := take _ _). destruct (m !! id) as [e|] eqn:Em.
  2:{ left. rewrite map_lookup_filter_None. by left. }
  destruct (decide (id ∈ rows.*1)) as [Hin|Hout].
  - right. split; [rewrite map_lookup_filter_None; right; intros; cbn; tauto|]. exists e. split; [done|].
    apply list_elem_of_fmap in Hin as ([q e'] & -> & Hin). subst rows. cbn in *.
    assert ((q, e') ∈ merge_sort (rel_of updated_first) (List.filter (fun x => settled_email older x.2) (map_to_list m))) as H.
    { rewrite <- (take_drop (Z.to_nat (if limit <=? 0 then 500 else limit)) (merge_sort _ _)). apply elem_of_app. by left. }
    rewrite merge_sort_Permutation, list_elem_of_In, filter_In, <- list_elem_of_In, elem_of_map_to_list in H. cbn in H. destruct H as [H1 H2].
    congruence.
  - left. by rewrite map_lookup_filter_Some.
Qed.

(** Doublings up to the cap, which no doubling overflows. *)
Lemma retry_delay_closed n d : 0 < d < 2 ^ 63 -> retry_delay n d = Z.min maxEmailRetryDelay (d * 2 ^ Z.of_nat n).
Proof.
  assert (maxEmailRetryDelay = 1800000000000 /\ Z.quot maxEmailRetryDelay 2 = 900000000000) as [E1 E2] by done.
  revert d. induction n as [|n IH]; intros d Hd; cbn [retry_delay].
  - rewrite Z.mul_1_r, E1. destruct (Z.ltb_spec 1800000000000 d); lia.
  - rewrite E2. rewrite Nat2Z.inj_succ, Z.pow_succ_r by lia. pose proof (Z.pow_pos_nonneg 2 (Z.of_nat n)).
    destruct (Z.leb_spec 900000000000 d); [rewrite E1; nia|]. rewrite wrap_i64_id by (unfold in_i64; lia). rewrite IH by lia. f_equal. ring.
Qed.

(** ** No message is lost *)

Definition settled (e : EmailOutbox) : Prop := Status e = Sent \/ Status e = Abandoned.

Definition settled_at (m : Outbox) (id : Z) : Prop := match m !! id with Some e => settled e | None => True end.

Record inv (s : Sys) : Prop := MkInv {
  (* a message stays what it was *)
  inv_row : forall id e, outbox s !! id = Some e ->
    exists e0, enqueued s !! id = Some e0 /\ letter e = letter e0 /\ MaxAttempts e = MaxAttempts e0 /\ Attempts e = times (claims s) id;
  inv_new : forall id, enqueued s !! id = None -> times (claims s) id = 0;
  inv_claimed : forall d, d ∈ deliveries s ->
    exists e0, enqueued s !! (message_of d).1 = Some e0 /\ letter (message_of d).2 = letter e0 /\
      MaxAttempts (message_of d).2 = MaxAttempts e0 /\ Attempts (message_of d).2 <= times (claims s) (message_of d).1;
  inv_returned : forall id msg, Returned id msg None ∈ deliveries s -> (id, letter msg) ∈ mailed s;
  inv_mailed : forall id l, (id, l) ∈ mailed s -> exists e0, enqueued s !! id = Some e0 /\ l = letter e0;
  inv_settled : forall id e0, enqueued s !! id = Some e0 ->
    settled_at (outbox s) id -> (id, letter e0) ∈ mailed s \/ MaxAttempts e0 <= times (claims s) id }.

Lemma outbox_initial t : inv (initial t).
Proof. split; cbn; intros *; rewrite ?lookup_empty, ?elem_of_nil; done. Qed.

(** Statements that settle no message without reason. *)
Lemma inv_table s m ds t :
  inv s ->
  (forall id e', m !! id = Some e' -> exists e, outbox s !! id = Some e /\ letter e' = letter e /\ MaxAttempts e' = MaxAttempts e /\ Attempts e' = Attempts e) ->
  (forall id e0, enqueued s !! id = Some e0 -> settled_at m id ->
     settled_at (outbox s) id \/ (id, letter e0) ∈ mailed s \/ MaxAttempts e0 <= times (claims s) id) ->
  ds ⊆ deliveries s ->
  inv (MkSys m (enqueued s) (claims s) ds (mailed s) t).
Proof.
  intros I Hrow Hset Hds. split; cbn.
  - intros id e' (e & He & Hl & Hm & Ha)%Hrow. destruct (inv_row s I id e He) as (e0 & H0 & H1 & H2 & H3). exists e0. split_and!; congruence.
  - apply I.
  - intros d Hd. apply (inv_claimed s I). by apply Hds.
  - intros id msg Hr. apply (inv_returned s I). by apply Hds.
  - apply I.
  - intros id e0 H0 Hs. destruct (Hset id e0 H0 Hs) as [H|H]; [by apply (inv_settled s I)|done].
Qed.

(** An update of one row that keeps what it holds. *)
Lemma alter_row (f : EmailOutbox -> EmailOutbox) (id : Z) (m : Outbox) :
  (forall e, letter (f e) = letter e /\ MaxAttempts (f e) = MaxAttempts e /\ Attempts (f e) = Attempts e) ->
  forall i e', alter f id m !! i = Some e' ->
  exists e, m !! i = Some e /\ letter e' = letter e /\ MaxAttempts e' = MaxAttempts e /\ Attempts e' = Attempts e.
Proof.
  intros Hf i e'. rewrite lookup_alter. case_decide as Hd.
  - subst i. intros (e & He & ->)%fmap_Some. exists e. split; [done|apply Hf].
  - intros H. by exists e'.
Qed.

Lemma alter_settled (f : EmailOutbox -> EmailOutbox) (id : Z) (m : Outbox) i :
  settled_at (alter f id m) i -> settled_at m i \/ (i = id /\ exists e, m !! id = Some e /\ settled (f e)).
Proof.
  unfold settled_at. rewrite lookup_alter. case_decide as Hd; [|by left]. subst i.
  destruct (m !! id) as [e|]; cbn; [|by left]. intros H. right. eauto.
Qed.

Lemma maintain_row now timeout retention m i :
  let m' := runEmailDeliveryMaintenancePass now timeout retention m in
  (exists e, m !! i = Some e /\
     (m' !! i = Some e \/ (m' !! i = Some (requeued_email now e) /\ 0 < timeout /\ stale_email (now - timeout) e = true) \/
      (m' !! i = None /\ settled e))) \/
  (m !! i = None /\ m' !! i = None).
Proof.
  cbn. unfold runEmailDeliveryMaintenancePass. set (m1 := if 0 <? timeout then _ else m).
  assert ((exists e, m !! i = Some e /\ (m1 !! i = Some e \/ (m1 !! i = Some (requeued_email now e) /\ 0 < timeout /\ stale_email (now - timeout) e = true)))
    \/ (m !! i = None /\ m1 !! i = None)) as H1.
  { subst m1. destruct (Z.ltb_spec 0 timeout) as [Ht|Ht].
    - rewrite lookup_requeue. destruct (m !! i) as [e|]; cbn; [|by right]. left. exists e. split; [done|].
      destruct (stale_email (now - timeout) e) eqn:Es; [by right|by left].
    - destruct (m !! i) as [e|]; [left; exists e; split; [done|by left]|by right]. }
  assert (forall m2 : Outbox, (m2 !! i = m1 !! i \/ (m2 !! i = None /\ exists e, m1 !! i = Some e /\ settled e)) ->
    (exists e, m !! i = Some e /\ (m2 !! i = Some e \/ (m2 !! i = Some (requeued_email now e) /\ 0 < timeout /\ stale_email (now - timeout) e = true) \/
       (m2 !! i = None /\ settled e))) \/ (m !! i = None /\ m2 !! i = None)) as H2.
  { intros m2 [->|(Hn & e & He & Hs)].
    - destruct H1 as [(e & He & [H|H])|H]; [left; exists e; tauto|left; exists e; tauto|by right].
    - rewrite Hn. destruct H1 as [(e' & He' & [H|[H _]])|[_ H]]; rewrite He in H; [|injection H as ->; by destruct Hs|done].
      injection H as <-. left. exists e. tauto. }
  destruct (retention <=? 0); [apply H2; by left|]. apply H2.
  destruct (delete_settled (now - retention) emailOutboxCleanupBatchSize m1 i) as [H|(H & e & He & Hs)]; [by left|right].
  split; [done|]. exists e. split; [done|]. unfold settled_email in Hs. apply orb_true_iff in Hs as [Hs|Hs]; apply andb_true_iff in Hs as [Hs _];
    apply bool_decide_eq_true in Hs; [by left|by right].
Qed.

Section Invariant.
Context (LookupEnv : string -> option string).

Lemma inv_mark s before id msg result after t :
  inv s -> deliveries s = before ++ Returned id msg result :: after ->
  inv (MkSys (deliverEmailOutboxMessage LookupEnv t id msg result (outbox s)) (enqueued s) (claims s) (before ++ after) (mailed s) t).
Proof.
  intros I Hds.
  assert (Returned id msg result ∈ deliveries s) as Hin by (rewrite Hds; set_solver).
  destruct (inv_claimed s I _ Hin) as (e0 & He0 & Hl & Hm & Ha). cbn in He0, Hl, Hm, Ha.
  apply inv_table; [done| | |rewrite Hds; set_solver].
  - unfold deliverEmailOutboxMessage, scheduleEmailRetry. destruct result as [cause|]; [destruct (MaxAttempts msg <=? Attempts msg)|]; by apply alter_row.
  - intros i e1 Hi. unfold deliverEmailOutboxMessage, scheduleEmailRetry.
    destruct result as [cause|]; [destruct (Z.leb_spec (MaxAttempts msg) (Attempts msg))|].
    + intros [H'|(-> & e & He & Hs)]%alter_settled; [by left|]. right; right. rewrite He0 in Hi. injection Hi as <-. lia.
    + intros [H'|(-> & e & He & [Hs|Hs])]%alter_settled; [by left|done|done].
    + intros [H'|(-> & e & He & Hs)]%alter_settled; [by left|]. right; left. rewrite He0 in Hi. injection Hi as <-.
      rewrite <- Hl. by apply (inv_returned s I).
Qed.

Lemma inv_send s before id msg after result (took : bool) t :
  inv s -> deliveries s = before ++ Sending id msg :: after -> (result = None -> took = true) ->
  inv (MkSys (outbox s) (enqueued s) (claims s) (before ++ Returned id msg result :: after)
         ((if took then [(id, letter msg)] else []) ++ mailed s) t).
Proof.
  intros I Hds Hr.
  assert (Sending id msg ∈ deliveries s) as Hin by (rewrite Hds; set_solver).
  destruct (inv_claimed s I _ Hin) as (e0 & He0 & Hl & Hm & Ha). cbn in He0, Hl, Hm, Ha.
  split; cbn.
  - apply I.
  - apply I.
  - intros d [Hd|[->|Hd]%elem_of_cons]%elem_of_app; [apply (inv_claimed s I); rewrite Hds; set_solver|cbn; eauto|apply (inv_claimed s I); rewrite Hds; set_solver].
  - intros i msg' Hi. apply elem_of_app.
    apply elem_of_app in Hi as [Hi|[Hi|Hi]%elem_of_cons]; [right|left|right]; try (apply (inv_returned s I); rewrite Hds; set_solver).
    injection Hi as -> -> Hn. rewrite Hr by done. by left.
  - intros i l [H|H]%elem_of_app; [|by apply (inv_mailed s I)]. destruct took; [|by apply elem_of_nil in H].
    apply list_elem_of_singleton in H. injection H as -> ->. eauto.
  - intros i e1 Hi Hs. destruct (inv_settled s I i e1 Hi Hs); [left; set_solver|by right].
Qed.

Lemma outbox_claim s limit locked claimed m :
  inv s -> ClaimPendingEmailOutbox limit (clock s) locked (outbox s) = (claimed, m) ->
  inv (MkSys m (enqueued s) (count_claims claimed.*1 (claims s)) (deliveries s ++ map (fun x => Sending x.1 x.2) claimed) (mailed s) (clock s)).
Proof.
  intros I (Hnd & Hcl & Hrest)%claim_emails.
  assert (forall id, id ∈ claimed.*1 -> exists e, (id, e) ∈ claimed) as Hkey.
  { intros id ([q e] & -> & H)%list_elem_of_fmap. eauto. }
  assert (forall id, times (claims s) id <= times (count_claims claimed.*1 (claims s)) id) as Hle.
  { intros id. rewrite times_count by done. destruct (bool_decide _); lia. }
  split; cbn.
  - intros id e He. rewrite times_count by done. case_bool_decide as Hin.
    + apply Hkey in Hin as [e1 H1]. destruct (Hcl _ _ H1) as (e2 & H2 & _ & -> & H3). rewrite H3 in He. injection He as <-.
      destruct (inv_row s I id e2 H2) as (e0 & H0 & Hl & Hm & Ha). exists e0. split_and!; [done..|]. cbn. lia.
    + rewrite Hrest in He by done. destruct (inv_row s I id e He) as (e0 & H0 & Hl & Hm & Ha). exists e0. split_and!; [done..|lia].
  - intros id Hid. rewrite times_count by done. rewrite (inv_new s I id Hid), bool_decide_eq_false_2; [done|]. intros [e1 H1]%Hkey.
    destruct (Hcl _ _ H1) as (e2 & H2 & _). destruct (inv_row s I id e2 H2) as (e0 & H0 & _). congruence.
  - intros d [Hd|([id e] & -> & Hd)%list_elem_of_fmap]%elem_of_app; cbn.
    + destruct (inv_claimed s I d Hd) as (e0 & H0 & Hl & Hm & Ha). exists e0. split_and!; [done..|]. specialize (Hle (message_of d).1). lia.
    + destruct (Hcl _ _ Hd) as (e2 & H2 & _ & -> & H3). destruct (inv_row s I id e2 H2) as (e0 & H0 & Hl & Hm & Ha). exists e0.
      split_and!; [done..|]. rewrite times_count by done. cbn. rewrite bool_decide_eq_true_2; [lia|]. by apply (list_elem_of_fmap_2 fst _ (id, claim_email (clock s) e2)).
  - intros id msg [Hd|([q e] & Hd & _)%list_elem_of_fmap]%elem_of_app; [by apply (inv_returned s I)|done].
  - apply I.
  - intros id e0 H0 Hs. assert (settled_at (outbox s) id) as Hs'.
    { unfold settled_at in *. destruct (decide (id ∈ claimed.*1)) as [[e1 H1]%Hkey|Hn]; [|by rewrite Hrest in Hs].
      destruct (Hcl _ _ H1) as (e2 & H2 & _ & -> & H3). rewrite H3 in Hs. by destruct Hs. }
    destruct (inv_settled s I id e0 H0 Hs'); [by left|]. right. specialize (Hle id). lia.
Qed.

Lemma outbox_step s ev s' : inv s -> step LookupEnv s ev s' -> inv s'.
Proof.
  intros I. destruct 1 as [t s Ht|id k ta su bo ma s Hid e|limit locked claimed m s Hc|before id msg after result took s Hds Hr
    |before id msg result after s Hds|before d after s Hds|timeout retention s].
  - apply inv_table; [done|eauto|by left|done].
  - split; cbn.
    + intros i e1. rewrite !lookup_insert. case_decide as Hd; [|apply (inv_row s I)]. intros [= <-]. exists e. split_and!; [done..|].
      subst i. by rewrite (inv_new s I id Hid).
    + intros i. rewrite lookup_insert. case_decide; [done|apply (inv_new s I)].
    + intros d Hd. destruct (inv_claimed s I d Hd) as (e0 & H0 & H). exists e0. split; [|done]. rewrite lookup_insert_ne; [done|congruence].
    + apply (inv_returned s I).
    + intros i l Hl. destruct (inv_mailed s I i l Hl) as (e0 & H0 & H). exists e0. split; [|done]. rewrite lookup_insert_ne; [done|congruence].
    + intros i e1. unfold settled_at. cbn. rewrite !lookup_insert. case_decide as Hd; [|apply (inv_settled s I)]. intros _ [H|H]; done.
  - by apply (outbox_claim s limit locked).
  - by apply (inv_send s before id msg after).
  - by apply inv_mark.
  - apply inv_table; [done|eauto|by left|rewrite Hds; set_solver].
  - apply inv_table; [done| | |done].
    + intros i e1 He1. destruct (maintain_row (clock s) timeout retention (outbox s) i) as [(e & He & [H|[[H _]|[H _]]])|[_ H]]; rewrite He1 in H.
      * injection H as ->. eauto.
      * injection H as ->. by exists e.
      * done.
      * done.
    + intros i e0 H0 Hs. unfold settled_at in *. destruct (maintain_row (clock s) timeout retention (outbox s) i) as [(e & He & [H|[[H _]|[H Hse]]])|[He H]];
        rewrite H in Hs; rewrite He; [by left|by destruct Hs|by left|by left].
Qed.

(** C29. No message is lost and none is made up, whatever the interleaving of
    any number of workers and maintenance passes, the crashes of workers and the
    failures of their statements: the mail server only ever takes enqueued
    messages, with the address, subject and body they were enqueued with; and a
    message that is settled or no longer in the table was taken by the mail
    server, or was claimed as often as its limit allows. *)
Theorem no_mail_lost t s id :
  rtc (runs LookupEnv) (initial t) s ->
  (forall l, (id, l) ∈ mailed s -> exists e0, enqueued s !! id = Some e0 /\ l = letter e0) /\
  (forall e0, enqueued s !! id = Some e0 -> settled_at (outbox s) id ->
     (id, letter e0) ∈ mailed s \/ MaxAttempts e0 <= times (claims s) id).
Proof.
  intros Hr. assert (inv s) as I.
  { revert Hr. apply (rtc_ind_r inv); [apply outbox_initial|]. intros y z _ [ev H] I. by apply (outbox_step y ev). }
  split; [apply (inv_mailed s I)|apply (inv_settled s I)].
Qed.

(** ** When nothing unusual happens *)

Definition ids_of (ds : list delivery) : list Z := map (fun d => (message_of d).1) ds.

Definition copies (id : Z) (l : list (Z * (string * string * string))) : nat := length (List.filter (fun x => x.1 =? id) l).

(** The row of a message under way says so, and since when. *)
Definition under_way (timeout : Z) (s : Sys) (d : delivery) : Prop :=
  exists e u, outbox s !! (message_of d).1 = Some e /\ Status e = Processing /\ LastAttemptAt e = Some u /\
    LastAttemptAt (message_of d).2 = Some u /\ clock s < u + timeout.

Record timely (timeout : Z) (s : Sys) : Prop := MkTimely {
  t_inv : inv s;
  t_ids : NoDup (ids_of (deliveries s));
  t_row : forall d, d ∈ deliveries s -> under_way timeout s d;
  t_copies : forall id, copies id (mailed s) = 0%nat \/
    copies id (mailed s) = 1%nat /\
      ((exists msg, Returned id msg None ∈ deliveries s) \/ (exists e, outbox s !! id = Some e /\ Status e = Sent) \/
       (outbox s !! id = None /\ exists e0, enqueued s !! id = Some e0)) }.

Lemma ids_middle before d after : ids_of (before ++ d :: after) = ids_of before ++ (message_of d).1 :: ids_of after.
Proof. unfold ids_of. by rewrite map_app. Qed.

Lemma elem_of_ids d ds : d ∈ ds -> (message_of d).1 ∈ ids_of ds.
Proof. intros H. by apply (list_elem_of_fmap_2 (fun d => (message_of d).1)). Qed.

Lemma NoDup_without before d after : NoDup (ids_of (before ++ d :: after)) ->
  NoDup (ids_of (before ++ after)) /\ (forall d', d' ∈ before ++ after -> (message_of d').1 <> (message_of d).1).
Proof.
  rewrite ids_middle. intros (H1 & H2 & H3)%NoDup_app. apply NoDup_cons in H3 as [H3 H4]. split.
  - unfold ids_of in *. rewrite map_app. apply NoDup_app. split; [done|]. split; [|done]. intros x Hx Hn. apply (H2 x Hx). by right.
  - intros d' [Hd|Hd]%elem_of_app He; apply elem_of_ids in Hd; rewrite He in Hd; [apply (H2 _ Hd); by left|done].
Qed.

Lemma copies_none timeout s id msg :
  timely timeout s -> Sending id msg ∈ deliveries s \/ (exists r, r <> None /\ Returned id msg r ∈ deliveries s) -> copies id (mailed s) = 0%nat.
Proof.
  intros T Hd. assert (exists d, d ∈ deliveries s /\ (message_of d).1 = id /\ (forall m, d <> Returned id m None)) as (d & Hin & Hid & Hne).
  { destruct Hd as [H|(r & Hr & H)]; eexists; (split; [exact H|]; split; [done|]); congruence. }
  destruct (t_copies timeout s T id) as [H|(_ & [(m & H)|H])]; [done| |].
  - exfalso. apply list_elem_of_split in Hin as (l1 & l2 & Hl). pose proof (t_ids timeout s T) as Hnd. rewrite Hl in Hnd, H.
    apply NoDup_without in Hnd as [_ Hnd]. apply elem_of_app in H as [H|[H|H]%elem_of_cons]; [|by apply (Hne m)|];
      apply (Hnd (Returned id m None)); (set_solver || done).
  - exfalso. destruct (t_row timeout s T d Hin) as (e & u & He & Hs & _). rewrite Hid in He.
    destruct H as [(e' & He' & Hs')|[H _]]; congruence.
Qed.

Lemma timely_table timeout s m ds t :
  timely timeout s -> inv (MkSys m (enqueued s) (claims s) ds (mailed s) t) ->
  NoDup (ids_of ds) ->
  (forall d, d ∈ ds -> d ∈ deliveries s /\ m !! (message_of d).1 = outbox s !! (message_of d).1) ->
  (forall d u, d ∈ ds -> LastAttemptAt (message_of d).2 = Some u -> t < u + timeout) ->
  (forall id msg, Returned id msg None ∈ deliveries s -> Returned id msg None ∈ ds \/ exists e, m !! id = Some e /\ Status e = Sent) ->
  (forall id e, outbox s !! id = Some e -> Status e = Sent -> copies id (mailed s) = 1%nat -> m !! id = Some e \/ m !! id = None \/ (exists e, m !! id = Some e /\ Status e = Sent)) ->
  (forall id, outbox s !! id = None -> m !! id = None) ->
  timely timeout (MkSys m (enqueued s) (claims s) ds (mailed s) t).
Proof.
  intros T I Hnd Hds Ht Hret Hsent Hnone. split; cbn; [done|done| |].
  - intros d Hd. destruct (Hds d Hd) as [Hd' Hm]. destruct (t_row timeout s T d Hd') as (e & u & He & Hs & Hl & Hl' & _).
    exists e, u. cbn. rewrite Hm. eauto 6.
  - intros id. destruct (t_copies timeout s T id) as [H|(H & Hc)]; [by left|right]. split; [done|].
    destruct Hc as [(msg & Hr)|[(e & He & Hs)|(Hn & He)]].
    + destruct (Hret id msg Hr) as [Hr'|He]; [left; eauto|right; left; eauto].
    + destruct (Hsent id e He Hs H) as [Hm|[Hm|Hm]]; [right; left; eauto| |right; left; eauto].
      right; right. split; [done|]. destruct (inv_row s (t_inv timeout s T) id e He) as (e0 & H0 & _). eauto.
    + right; right. split; [by apply Hnone|done].
Qed.

Lemma timely_mark timeout s before id msg result after :
  timely timeout s -> deliveries s = before ++ Returned id msg result :: after ->
  timely timeout (MkSys (deliverEmailOutboxMessage LookupEnv (clock s) id msg result (outbox s)) (enqueued s) (claims s) (before ++ after) (mailed s) (clock s)).
Proof.
  intros T Hds. pose proof (t_ids timeout s T) as Hnd. rewrite Hds in Hnd. apply NoDup_without in Hnd as [Hnd Hne]. cbn in Hne.
  assert (Returned id msg result ∈ deliveries s) as Hin by (rewrite Hds; set_solver).
  destruct (t_row timeout s T _ Hin) as (e & u & He & Hs & Hl & Hl' & Hu). cbn in He, Hl'.
  assert (exists f, deliverEmailOutboxMessage LookupEnv (clock s) id msg result (outbox s) = alter f id (outbox s) /\ (result = None -> Status (f e) = Sent)) as (f & Hf & Hfs).
  { unfold deliverEmailOutboxMessage, scheduleEmailRetry. destruct result as [cause|]; [destruct (_ <=? _)|]; eexists; by split. }
  apply timely_table; [done|by apply inv_mark; [apply T|]|done| | | | |]; rewrite ?Hf.
  - intros d Hd. split; [rewrite Hds; set_solver|]. rewrite lookup_alter_ne; [done|]. intros E. by apply (Hne d).
  - intros d v Hd Hv. destruct (t_row timeout s T d) as (e' & u' & _ & _ & _ & Hu' & Hc); [rewrite Hds; set_solver|]. congruence.
  - intros i m Hr. rewrite Hds in Hr. destruct (decide (i = id)) as [->|Hi].
    + destruct result as [cause|]; [|right; rewrite lookup_alter_eq, He; cbn; eexists; by split; [|apply Hfs]].
      left. apply elem_of_app in Hr as [Hr|[Hr|Hr]%elem_of_cons]; [set_solver|done|set_solver].
    + left. apply elem_of_app in Hr as [Hr|[Hr|Hr]%elem_of_cons]; [set_solver|congruence|set_solver].
  - intros i e' Hi Hs' _. destruct (decide (i = id)) as [->|Hd]; [congruence|]. left. by rewrite lookup_alter_ne.
  - intros i Hi. rewrite lookup_alter. case_decide; [|done]. subst i. by rewrite Hi.
Qed.

Lemma timely_send timeout s before id msg after result (took : bool) :
  timely timeout s -> deliveries s = before ++ Sending id msg :: after -> (result = None -> took = true) -> (result <> None -> took = false) ->
  timely timeout (MkSys (outbox s) (enqueued s) (claims s) (before ++ Returned id msg result :: after)
         ((if took then [(id, letter msg)] else []) ++ mailed s) (clock s)).
Proof.
  intros T Hds Hr Hf. pose proof (t_ids timeout s T) as Hnd. rewrite Hds in Hnd.
  assert (Sending id msg ∈ deliveries s) as Hin by (rewrite Hds; set_solver).
  pose proof (copies_none timeout s id msg T (or_introl Hin)) as Hc.
  split; cbn [outbox enqueued claims deliveries mailed clock].
  - by apply inv_send; [apply T|..].
  - rewrite ids_middle in *. done.
  - intros d Hd. assert (exists d', d' ∈ deliveries s /\ message_of d' = message_of d) as (d' & Hd' & Hm).
    { rewrite Hds. apply elem_of_app in Hd as [Hd|[->|Hd]%elem_of_cons]; [exists d|exists (Sending id msg)|exists d]; set_solver. }
    destruct (t_row timeout s T d' Hd') as (e & u & H). exists e, u. cbn. by rewrite <- Hm.
  - assert (forall i m, Returned i m None ∈ deliveries s -> Returned i m None ∈ before ++ Returned id msg result :: after) as Hret.
    { intros i m. rewrite Hds. intros [H|[H|H]%elem_of_cons]%elem_of_app; [set_solver|done|set_solver]. }
    intros i. destruct (decide (i = id)) as [->|Hi].
    + destruct took; cbn [app]; [|by left]. right. unfold copies in *. cbn. rewrite Z.eqb_refl. cbn. rewrite Hc. split; [done|].
      left. exists msg. destruct result; [|set_solver]. by discriminate Hf.
    + assert (copies i ((if took then [(id, letter msg)] else []) ++ mailed s) = copies i (mailed s)) as ->.
      { destruct took; [|done]. unfold copies. cbn. by rewrite (proj2 (Z.eqb_neq id i)) by done. }
      destruct (t_copies timeout s T i) as [H|(H & [(m & Hm)|Hm])]; [by left|right; split; [done|]..].
      * left. exists m. by apply Hret.
      * by right.
Qed.

Lemma timely_claim timeout s limit locked claimed m :
  0 < timeout -> timely timeout s -> ClaimPendingEmailOutbox limit (clock s) locked (outbox s) = (claimed, m) ->
  timely timeout (MkSys m (enqueued s) (count_claims claimed.*1 (claims s))
    (deliveries s ++ map (fun x => Sending x.1 x.2) claimed) (mailed s) (clock s)).
Proof.
  intros Ht T Hclaim. pose proof (outbox_claim s limit locked claimed m (t_inv timeout s T) Hclaim) as I.
  apply claim_emails in Hclaim as (Hnd & Hcl & Hrest).
  assert (forall d, d ∈ deliveries s -> (message_of d).1 ∉ claimed.*1) as Hdis.
  { intros d Hd ([q e] & Hq & Hin)%list_elem_of_fmap. cbn in Hq. destruct (Hcl q e Hin) as (e0 & H0 & Hp & _).
    destruct (t_row timeout s T d Hd) as (e1 & u & H1 & H2 & _). congruence. }
  assert (ids_of (map (fun x => Sending x.1 x.2) claimed) = claimed.*1) as Hids.
  { unfold ids_of, fmap. clear. induction claimed as [|x l IH]; [done|]. cbn in *. by rewrite IH. }
  split; cbn; [done| | |].
  - unfold ids_of in *. rewrite map_app. fold (ids_of (deliveries s)). rewrite Hids. apply NoDup_app. split; [apply T|]. split; [|done].
    intros x (d & -> & Hd)%list_elem_of_fmap. by apply Hdis.
  - intros d [Hd|([id e] & -> & Hd)%list_elem_of_fmap]%elem_of_app; unfold under_way; cbn.
    + rewrite Hrest by by apply Hdis. by apply (t_row timeout s T).
    + destruct (Hcl _ _ Hd) as (e2 & H2 & _ & -> & H3). exists (claim_email (clock s) e2), (clock s). split_and!; [done..|lia].
  - intros id. destruct (t_copies timeout s T id) as [H|(H & [(msg & Hm)|[(e & He & Hs)|[Hn He]]])]; [by left|right; split; [done|]..].
    + left. exists msg. set_solver.
    + right; left. exists e. rewrite Hrest; [done|]. intros ([q e'] & -> & Hin)%list_elem_of_fmap. destruct (Hcl q e' Hin) as (e0 & H0 & Hp & _). cbn in He. congruence.
    + right; right. rewrite Hrest; [done|]. intros ([q e'] & -> & Hin)%list_elem_of_fmap. destruct (Hcl q e' Hin) as (e0 & H0 & _). cbn in Hn. congruence.
Qed.

Lemma timely_step timeout s ev s' : 0 < timeout -> timely timeout s -> usual timeout s ev -> step LookupEnv s ev s' -> timely timeout s'.
Proof.
  intros Htm T Hu Hst. pose proof (outbox_step s ev s' (t_inv timeout s T) Hst) as I.
  assert (forall d u, d ∈ deliveries s -> LastAttemptAt (message_of d).2 = Some u -> clock s < u + timeout) as Hclk.
  { intros d u Hd Hl. destruct (t_row timeout s T d Hd) as (e & v & _ & _ & _ & Hv & Hc). congruence. }
  destruct Hst as [t s Ht|id k ta su bo ma s Hid e|limit locked claimed m s Hc|before id msg after result took s Hds Hr
    |before id msg result after s Hds|before d after s Hds|timeout' retention s]; cbn in Hu.
  - apply timely_table; try done; [apply T|by left|by left].
  - assert (outbox s !! id = None) as Hno.
    { destruct (outbox s !! id) as [e1|] eqn:E; [|done]. destruct (inv_row s (t_inv timeout s T) id e1 E) as (e0 & H0 & _). congruence. }
    assert (forall i, i <> id -> <[id := e]> (outbox s) !! i = outbox s !! i /\ <[id := e]> (enqueued s) !! i = enqueued s !! i) as Hne.
    { intros i Hi. by rewrite !lookup_insert_ne. }
    split; cbn; [done|apply T| |].
    + intros d Hd. destruct (t_row timeout s T d Hd) as (e1 & u & H). exists e1, u. cbn.
      rewrite lookup_insert_ne; [done|]. intros ->. destruct H as [H _]. congruence.
    + intros i. destruct (t_copies timeout s T i) as [H|(H & Hc)]; [by left|right]. split; [done|].
      destruct Hc as [Hc|Hc]; [by left|right]. assert (i <> id) as Hi.
      { intros ->. destruct Hc as [(e1 & H1 & _)|[_ [e1 H1]]]; congruence. }
      destruct (Hne i Hi) as [-> ->]. done.
  - by apply (timely_claim timeout s limit locked).
  - by apply (timely_send timeout s before id msg after).
  - by apply timely_mark.
  - destruct d as [id msg|]; [|done]. pose proof (t_ids timeout s T) as Hnd. rewrite Hds in Hnd. apply NoDup_without in Hnd as [Hnd Hne].
    apply timely_table; [done..| | | | |].
    + intros d Hd. rewrite Hds. split; [set_solver|done].
    + intros d u Hd. apply Hclk. rewrite Hds. set_solver.
    + intros i m Hr. left. rewrite Hds in Hr. apply elem_of_app in Hr as [Hr|[Hr|Hr]%elem_of_cons]; [set_solver|done|set_solver].
    + by left.
    + done.
  - subst timeout'. apply timely_table; [done|done|apply T| |exact Hclk|by left| |].
    + intros d Hd. split; [done|]. destruct (t_row timeout s T d Hd) as (e & u & He & Hs & Hl & Hl' & Hlt).
      destruct (maintain_row (clock s) timeout retention (outbox s) (message_of d).1) as [(e1 & H1 & H2)|[H1 _]]; [|congruence].
      rewrite He in H1. injection H1 as <-. rewrite He. destruct H2 as [H2|[(_ & _ & H2)|(_ & [H2|H2])]]; [done| |congruence|congruence].
      unfold stale_email in H2. rewrite Hl in H2. apply andb_true_iff in H2 as [_ H2]. lia.
    + intros i e He Hs _. destruct (maintain_row (clock s) timeout retention (outbox s) i) as [(e1 & H1 & H2)|[H1 _]]; [|congruence].
      rewrite He in H1. injection H1 as <-. destruct H2 as [H2|[(_ & _ & H2)|(H2 & _)]]; [by left| |by right; left].
      unfold stale_email in H2. by rewrite Hs in H2.
    + intros i Hi. destruct (maintain_row (clock s) timeout retention (outbox s) i) as [(e1 & H1 & _)|[_ H2]]; [congruence|done].
Qed.

(** A message is sent at most once as long as nothing unusual happens:
    every delivery is over within the processing timeout, its outcome reaches
    the table, and the mail server did not take a message it reports as failed.
    Workers may still die before they send, fail to send and retry, and any
    number of instances may claim, send and clean up at the same time. *)
Theorem mailed_once timeout t s id :
  0 < timeout -> rtc (usually_runs LookupEnv timeout) (initial t) s -> (copies id (mailed s) <= 1)%nat.
Proof.
  intros Ht Hr. assert (timely timeout s) as T.
  { revert Hr. apply (rtc_ind_r (timely timeout)).
    - split; cbn; [apply outbox_initial|constructor|intros d ?%not_elem_of_nil; done|by left].
    - intros y z _ (ev & Hu & H) I. by apply (timely_step timeout y ev). }
  destruct (t_copies timeout s T id) as [->|[-> _]]; lia.
Qed.

End Invariant.

(** ** A message from its entry to its delivery *)

Definition sample_email : EmailOutbox := EnqueueEmailOutbox 0 "password_reset" "ada@example.org" "Reset" "link" 4.

Definition sample_claimed : EmailOutbox := claim_email 0 sample_email.

Definition sample_sent : Sys :=
  MkSys {[1 := sent_email 0 sample_claimed]} {[1 := sample_email]} {[1 := 1]} [] [(1, letter sample_claimed)] 0.

Definition no_env (_ : string) : option string := None.

Lemma sample_runs : rtc (usually_runs no_env (15 * Minute)) (initial 0) sample_sent.
Proof.
  eapply rtc_l; [eexists; split; [|by apply (step_enqueue no_env 1 "password_reset" "ada@example.org" "Reset" "link" 4)]; done|].
  eapply rtc_l; [eexists; split; [|apply (step_claim no_env 10 ∅ [(1, sample_claimed)] {[1 := sample_claimed]}); by vm_compute]; done|].
  eapply rtc_l; [eexists; split; [|by apply (step_send no_env [] 1 sample_claimed [] None true)]; cbn; congruence|].
  eapply rtc_l; [eexists; split; [|by apply (step_mark no_env [] 1 sample_claimed None [])]; done|].
  match goal with |- rtc _ ?x _ => replace x with sample_sent by (by vm_compute) end. apply rtc_refl.
Qed.

Lemma sample_runs_any : rtc (runs no_env) (initial 0) sample_sent.
Proof. apply (rtc_subrel (usually_runs no_env (15 * Minute))); [|exact sample_runs]. intros x y (ev & _ & H). by exists ev. Qed.

Lemma no_mail_lost_witness :
  settled_at (outbox sample_sent) 1 /\
  ((1, letter sample_email) ∈ mailed sample_sent \/ MaxAttempts sample_email <= times (claims sample_sent) 1).
Proof.
  assert (settled_at (outbox sample_sent) 1) as H by (by left). split; [exact H|].
  apply (no_mail_lost no_env 0 sample_sent 1 sample_runs_any); [reflexivity|exact H].
Defined.

Lemma mailed_once_witness : copies 1 (mailed sample_sent) = 1%nat /\ (copies 1 (mailed sample_sent) <= 1)%nat.
Proof.
  split; [reflexivity|]. apply (mailed_once no_env (15 * Minute) 0 sample_sent 1); [reflexivity|exact sample_runs].
Defined.

(** A worker that took longer than the processing timeout and then failed turns
    a message another worker has sent meanwhile into a pending one: the marks
    name the message, not the attempt. *)
Example late_failure_resends :
  let sent := MarkEmailOutboxSent 1 (20 * Minute) {[1 := claim_email (16 * Minute) sample_claimed]} in
  let late := deliverEmailOutboxMessage no_env (21 * Minute) 1 sample_claimed (Some "timeout") sent in
  let next := due_emails (22 * Minute) ∅ late in
  (Status <$> (sent !! 1), length next) = (Some Sent, 1%nat).
Proof. by vm_compute. Qed.

(** Stale messages are taken back however often they were attempted. *)
Example attempts_exceed_the_limit :
  let e := MkEmail "k" "a" "s" "b" Processing 4 4 "" 0 (Some 0) None 0 in
  let again := RequeueStaleEmailOutboxMessages (20 * Minute) (5 * Minute) {[1 := e]} in
  map (fun x => (Attempts x.2, MaxAttempts x.2)) (ClaimPendingEmailOutbox 10 (20 * Minute) ∅ again).1 = [(5, 4)].
Proof. by vm_compute. Qed.

(** An absurd base wraps around to a delay in the past. *)
Example absurd_base_delay :
  resolveEmailRetryDelay (fun _ => Some "9223372037") 1 < 0.
Proof. by vm_compute. Qed.

End EmailOutbox.
