(* ===== verification/Sessions.v ===== *)
(** * Sessions

    [internal/auth]: signed tokens, what is read from their claims, their
    revocation one by one or for all of a user's earlier tokens, rotation, and
    the checks of the middleware.  The token library ([golang-jwt], HS256) and
    Redis are parameters with the laws their documentation states; a token's
    numbers are integers below 2^53, which its decoder keeps exact. *)

From S2P Require Import Prelude GoStrings.
Open Scope Z_scope.

Module Sessions.

(** ** Claims *)

(** A value of [jwt.MapClaims] after decoding. *)
Inductive claim := CString (s : string) | CNumber (z : Z) | COther.

Abbreviation Claims := (gmap string claim).

Definition claimString (claims : Claims) (key : string) : option string :=
  match claims !! key with
  | Some (CString value) => let value := trim_space value in if String.eqb value "" then None else Some value
  | _ => None
  end.

Definition claimInt64 (claims : Claims) (key : string) : option Z :=
  match claims !! key with
  | Some (CNumber value) => Some value
  | Some (CString value) => let trimmed := trim_space value in if String.eqb trimmed "" then None else parse_int trimmed
  | _ => None
  end.

Definition claimUint (claims : Claims) (key : string) : option Z :=
  match claimInt64 claims key with
  | Some value => if value <=? 0 then None else Some value
  | None => None
  end.

Definition claimIssuedAtUnixNano (claims : Claims) : option Z :=
  let fallback :=
    match claimInt64 claims "iat" with
    | Some issuedAt => if issuedAt <=? 0 then None else Some (wrap_i64 (issuedAt * Second))
    | None => None
    end in
  match claims !! "iat_ns" with
  | Some (CString ns) =>
      let ns := trim_space ns in
      if String.eqb ns "" then fallback
      else match parse_int ns with Some v => if 0 <? v then Some v else fallback | None => fallback end
  | _ => fallback
  end.

(** ** Settings *)

Definition defaultJWTTTL : Z := 24 * 7 * Hour.
Definition minJWTTTL : Z := 15 * Minute.
Definition maxJWTTTL : Z := 24 * 7 * Hour.
Definition authUserRevokeTTL : Z := maxJWTTTL + 24 * Hour.
Definition authRedisFailureBackoff : Z := 5 * Second.
Definition jwtSecretMinLength : nat := 32.

(** [resolveJWTTTL] on the value of the variable; an unset one reads as empty. *)
Definition resolveJWTTTL (env : string) : option Z :=
  let raw := trim_space env in
  if String.eqb raw "" then Some defaultJWTTTL
  else
    match parse_int raw with
    | None => None
    | Some minutes =>
        let ttl := wrap_i64 (minutes * Minute) in
        if (ttl <? minJWTTTL) || (maxJWTTTL <? ttl) then None else Some ttl
    end.

(** [strconv.ParseBool] *)
Definition parse_bool (s : string) : option bool :=
  if bool_decide (s ∈ ["1"; "t"; "T"; "true"; "TRUE"; "True"]) then Some true
  else if bool_decide (s ∈ ["0"; "f"; "F"; "false"; "FALSE"; "False"]) then Some false
  else None.

Definition authRevocationFailOpenEnabled (env : string) : bool :=
  let raw := trim_space env in
  if String.eqb raw "" then true else match parse_bool raw with Some enabled => enabled | None => true end.

(** [normalizeSecretValue]: letters and digits of the lower-cased secret. *)
Definition normalizeSecretValue (secret : string) : string :=
  of_bytes (List.filter (fun c => is_lower c || is_digit c) (bytes (to_lower (trim_space secret)))).

Definition knownJWTSecretPlaceholders : list string := ["changeme"; "changemetoo"; "jwtsecret"; "yourjwtsecret"].

Definition isKnownPlaceholderSecret (secret : string) (placeholders : list string) : bool :=
  let normalized := normalizeSecretValue secret in
  negb (String.eqb normalized "") && bool_decide (normalized ∈ placeholders).

Definition validateJWTSecret (strict : bool) (secret : string) : bool :=
  negb strict || (negb (slen secret <? jwtSecretMinLength)%nat && negb (isKnownPlaceholderSecret secret knownJWTSecretPlaceholders)).

(** ** The token library *)

Class JWT := {
  SignedString : string -> Claims -> string;
  (* the claims of a token that is well formed, signed with the key by HS256 and not expired *)
  ParseWithClaims : string -> Z -> string -> option Claims
}.

Class JWTLaws `{JWT} := {
  (* what was signed is read back until it expires; "exp" counts seconds *)
  parse_signed key now c exp : c !! "exp" = Some (CNumber exp) ->
    ParseWithClaims key now (SignedString key c) = if now <? exp * Second then Some c else None;
  (* base64url and full stops *)
  signed_printable key c : Forall printable (bytes (SignedString key c)) /\ SignedString key c <> ""
}.

(** ** Redis *)

(** Keys with a value and a deadline; the clock and deadlines in nanoseconds. *)
Class Strings (RS : Type) := {
  set_value : string -> string -> Z -> RS -> RS;
  get_value : string -> RS -> option string
}.

Class StringLaws (RS : Type) `{Strings RS} := {
  server_clock : RS -> Z;
  deadline : RS -> string -> option (string * Z);
  set_clock k v ttl s : server_clock (set_value k v ttl s) = server_clock s;
  set_deadline k v ttl s k' : 0 < ttl ->
    deadline (set_value k v ttl s) k' = if decide (k = k') then Some (v, server_clock s + ttl) else deadline s k';
  get_deadline k s :
    get_value k s = match deadline s k with Some (v, d) => if server_clock s <? d then Some v else None | None => None end
}.

(** The client passes an expiry in milliseconds, at least one. *)
Definition redis_expiry (d : Z) : Z := if d <? Millisecond then Millisecond else Z.quot d Millisecond * Millisecond.

(** ** The revocation store *)

Definition authRevokedTokenPrefix : string := "magpie:auth:revoked:jti:".
Definition authUserRevokedBeforePrefix : string := "magpie:auth:revoked_before:user:".

Definition token_key (tokenID : string) : string := authRevokedTokenPrefix +:+ tokenID.
Definition user_key (userID : Z) : string := authUserRevokedBeforePrefix +:+ itoa userID.

(** The client of one instance: the time before which it does not try Redis again. *)
Record Client (RS : Type) := MkClient { retryAfter : option Z; redis : RS }.
Arguments MkClient {RS}.
Arguments retryAfter {RS}.
Arguments redis {RS}.

Section Store.
Context {RS : Type} `{Strings RS}.

Definition redisAttemptAllowed (now : Z) (c : Client RS) : bool * Client RS :=
  match retryAfter c with
  | None => (true, c)
  | Some t => if t <? now then (true, MkClient None (redis c)) else (false, c)
  end.

Definition markRedisFailure (now : Z) (c : Client RS) : Client RS := MkClient (Some (now + authRedisFailureBackoff)) (redis c).
Definition markRedisSuccess (c : Client RS) : Client RS := MkClient None (redis c).

(** A command through [redisClient]: [None] when the store is unavailable;
    [reachable] says whether the connection and the command succeed. *)
Definition command {A} (now : Z) (reachable : bool) (run : RS -> A * RS) (c : Client RS) : option A * Client RS :=
  let '(allowed, c) := redisAttemptAllowed now c in
  if negb allowed then (None, c)
  else if negb reachable then (None, markRedisFailure now c)
  else let '(a, s) := run (redis c) in (Some a, markRedisSuccess (MkClient None s)).

Definition revokeTokenID (now : Z) (reachable : bool) (tokenID : string) (until : Z) (c : Client RS) : option unit * Client RS :=
  if String.eqb tokenID "" then (Some tt, c)
  else if until <=? now then (Some tt, c)
  else command now reachable (fun s => (tt, set_value (token_key tokenID) "1" (redis_expiry (until - now)) s)) c.

Definition isTokenIDRevoked (now : Z) (reachable : bool) (tokenID : string) (c : Client RS) : option bool * Client RS :=
  if String.eqb tokenID "" then (Some false, c)
  else command now reachable (fun s => (bool_decide (is_Some (get_value (token_key tokenID) s)), s)) c.

Definition revokeUserTokensBefore (now : Z) (reachable : bool) (userID : Z) (instant : Z) (c : Client RS) : option unit * Client RS :=
  if userID =? 0 then (Some tt, c)
  else command now reachable (fun s => (tt, set_value (user_key userID) (itoa instant) (redis_expiry authUserRevokeTTL) s)) c.

(** [None]: unavailable, also when the stored value is not a number. *)
Definition userTokensRevokedBefore (now : Z) (reachable : bool) (userID : Z) (c : Client RS) : option (option Z) * Client RS :=
  if userID =? 0 then (Some None, c)
  else
    let '(answer, c) := command now reachable (fun s => (get_value (user_key userID) s, s)) c in
    match answer with
    | None => (None, c)
    | Some None => (Some None, c)
    | Some (Some value) =>
        match parse_int value with
        | None => (None, markRedisFailure now c)
        | Some parsed => (Some (if parsed <=? 0 then None else Some parsed), c)
        end
    end.

(** ** Validation *)

(** [validateTokenRevocation]: whether the claims are accepted.  The outcomes of
    the two commands are given. *)
Definition validateTokenRevocation (failOpen : bool) (now : Z) (reach1 reach2 : bool) (claims : Claims) (c : Client RS) : bool * Client RS :=
  match claimString claims "jti", claimUint claims "user_id", claimIssuedAtUnixNano claims with
  | Some tokenID, Some userID, Some issuedAtNs =>
      let '(revoked, c) := isTokenIDRevoked now reach1 tokenID c in
      match revoked with
      | None => (failOpen, c)
      | Some true => (false, c)
      | Some false =>
          let '(before, c) := userTokensRevokedBefore now reach2 userID c in
          match before with
          | None => (failOpen, c)
          | Some (Some cutoff) => (negb (issuedAtNs <=? cutoff), c)
          | Some None => (true, c)
          end
      end
  | _, _, _ => (false, c)
  end.

Context `{JWT} (key : string) (failOpen : bool).

Definition ValidateJWT (now : Z) (reach1 reach2 : bool) (token : string) (c : Client RS) : option Claims * Client RS :=
  match ParseWithClaims key now token with
  | None => (None, c)
  | Some claims =>
      let '(ok, c) := validateTokenRevocation failOpen now reach1 reach2 claims c in
      (if ok : bool then Some claims else None, c)
  end.

(** [GenerateJWT]; [tokenID] is the random identifier and [ttl] the lifetime. *)
Definition issued_claims (now ttl userID : Z) (role tokenID : string) : Claims :=
  <["user_id" := CNumber userID]> (<["role" := CString role]> (<["iat" := CNumber (now / Second)]>
    (<["iat_ns" := CString (itoa now)]> (<["exp" := CNumber ((now + ttl) / Second)]> (<["jti" := CString tokenID]> ∅))))).

Definition GenerateJWT (now ttl userID : Z) (role tokenID : string) : string :=
  SignedString key (issued_claims now ttl userID role tokenID).

(** [RevokeJWTClaims]: false for its errors. *)
Definition RevokeJWTClaims (now : Z) (reachable : bool) (claims : Claims) (c : Client RS) : bool * Client RS :=
  match claimString claims "jti", claimInt64 claims "exp" with
  | Some tokenID, Some expiryUnix =>
      if expiryUnix * Second <=? now then (true, c)
      else let '(done, c) := revokeTokenID now reachable tokenID (expiryUnix * Second) c in (bool_decide (is_Some done), c)
  | _, _ => (false, c)
  end.

Definition RevokeJWT (now : Z) (reachable : bool) (token : string) (c : Client RS) : bool * Client RS :=
  match ParseWithClaims key now token with
  | None => (false, c)
  | Some claims => RevokeJWTClaims now reachable claims c
  end.

Definition RevokeAllUserJWTs (now : Z) (reachable : bool) (userID : Z) (c : Client RS) : bool * Client RS :=
  if userID =? 0 then (false, c)
  else let '(done, c) := revokeUserTokensBefore now reachable userID now c in (bool_decide (is_Some done), c).

(** [RotateJWT]: its three commands and the new token are made at the given times. *)
Definition RotateJWT (now1 now2 now3 ttl : Z) (reach1 reach2 reach3 : bool) (tokenID token : string) (c : Client RS)
    : option (string * string) * Client RS :=
  let '(valid, c) := ValidateJWT now1 reach1 reach2 token c in
  match valid with
  | None => (None, c)
  | Some claims =>
      match claimUint claims "user_id", claimString claims "role" with
      | Some userID, Some role =>
          let '(revoked, c) := RevokeJWTClaims now2 reach3 claims c in
          if negb revoked then (None, c) else (Some (GenerateJWT now3 ttl userID role tokenID, role), c)
      | _, _ => (None, c)
      end
  end.

(** ** The middleware *)

Definition ExtractBearerToken (authHeader : string) : option string :=
  if negb (has_prefix "Bearer " authHeader) then None
  else let token := trim_space (sdrop 7 authHeader) in if String.eqb token "" then None else Some token.

Definition extractClaims (now : Z) (reach1 reach2 : bool) (authHeader : string) (c : Client RS) : option Claims * Client RS :=
  match ExtractBearerToken authHeader with
  | None => (None, c)
  | Some token => ValidateJWT now reach1 reach2 token c
  end.

Inductive verdict := Pass | Unauthorized | Forbidden.

Definition RequireRole (requiredRole : string) (now : Z) (reach1 reach2 : bool) (authHeader : string) (c : Client RS) : verdict * Client RS :=
  let '(claims, c) := extractClaims now reach1 reach2 authHeader c in
  (match claims with
   | None => Unauthorized
   | Some claims =>
       match claims !! "role" with
       | Some (CString role) => if String.eqb role requiredRole then Pass else Forbidden
       | _ => Forbidden
       end
   end, c).

Definition RequireAuth (now : Z) (reach1 reach2 : bool) (authHeader : string) (c : Client RS) : verdict * Client RS :=
  let '(claims, c) := extractClaims now reach1 reach2 authHeader c in (match claims with None => Unauthorized | Some _ => Pass end, c).

Definition GetUserIDFromRequest (now : Z) (reach1 reach2 : bool) (authHeader : string) (c : Client RS) : option Z * Client RS :=
  let '(claims, c) := extractClaims now reach1 reach2 authHeader c in
  (match claims with
   | None => None
   | Some claims => match claims !! "user_id" with Some (CNumber userID) => Some userID | _ => None end
   end, c).

Definition NormalizeEmail (email : string) : string := to_lower (trim_space email).

End Store.

(** ** What is read from issued claims *)

Lemma claim_number c k z : c !! k = Some (CNumber z) -> claimInt64 c k = Some z.
Proof. intros H. unfold claimInt64. by rewrite H. Qed.

Lemma claim_string c k v : c !! k = Some (CString v) -> trimmed v -> v <> "" -> claimString c k = Some v.
Proof.
  intros H Ht Hv. unfold claimString. rewrite H, trim_space_fixed by done. by rewrite (proj2 (String.eqb_neq v "")).
Qed.

Lemma issued_lookups now ttl userID role tokenID :
  let c := issued_claims now ttl userID role tokenID in
  c !! "user_id" = Some (CNumber userID) /\ c !! "role" = Some (CString role) /\ c !! "iat_ns" = Some (CString (itoa now)) /\
  c !! "exp" = Some (CNumber ((now + ttl) / Second)) /\ c !! "jti" = Some (CString tokenID).
Proof. unfold issued_claims. split_and!; by simplify_map_eq. Qed.

Lemma trim_itoa z : 0 <= z -> trim_space (itoa z) = itoa z.
Proof.
  intros Hz. apply trim_space_printable. eapply Forall_impl; [by apply itoa_digits|]. intros c. apply digit_printable.
Qed.

Lemma issued_at now ttl userID role tokenID : 0 < now < 2 ^ 63 ->
  claimIssuedAtUnixNano (issued_claims now ttl userID role tokenID) = Some now.
Proof.
  intros Hn. destruct (issued_lookups now ttl userID role tokenID) as (_ & _ & H & _). unfold claimIssuedAtUnixNano. cbn in H. rewrite H.
  rewrite trim_itoa by lia. rewrite (proj2 (String.eqb_neq (itoa now) "")) by (apply itoa_nonempty; lia).
  rewrite parse_int_itoa by (unfold in_i64; lia). by rewrite (proj2 (Z.ltb_lt 0 now)) by lia.
Qed.

Lemma issued_user now ttl userID role tokenID : 0 < userID -> claimUint (issued_claims now ttl userID role tokenID) "user_id" = Some userID.
Proof.
  intros Hu. destruct (issued_lookups now ttl userID role tokenID) as (H & _). unfold claimUint. erewrite claim_number by exact H.
  by rewrite (proj2 (Z.leb_gt userID 0)).
Qed.

Lemma user_key_inj u v : 0 < u < 2 ^ 63 -> 0 < v < 2 ^ 63 -> user_key u = user_key v -> u = v.
Proof.
  intros Hu Hv H. assert (itoa u = itoa v) as He by (unfold user_key in H; by apply (inj _) in H).
  pose proof (parse_int_itoa u) as H1. pose proof (parse_int_itoa v) as H2. rewrite He in H1. rewrite H1 in H2 by (unfold in_i64; lia).
  assert (Some u = Some v) as E by (apply H2; unfold in_i64; lia). by injection E.
Qed.

Lemma token_user_key t u : token_key t <> user_key u.
Proof. by unfold token_key, user_key. Qed.

Lemma extract_bearer token : Forall printable (bytes token) -> token <> "" -> ExtractBearerToken ("Bearer " +:+ token) = Some token.
Proof.
  intros Hp Hne. unfold ExtractBearerToken.
  assert (has_prefix "Bearer " ("Bearer " +:+ token) = true) as -> by reflexivity.
  change (sdrop 7 ("Bearer " +:+ token)) with token. rewrite trim_space_printable by done.
  by rewrite (proj2 (String.eqb_neq token "")).
Qed.

(** ** The store over time *)

Section History.
Context {RS : Type} `{StringLaws RS} `{JWTLaws}.

(** Time passes on the server, and instances revoke tokens, all users' and
    single ones; the instances' clocks agree with the server's. *)
Inductive evolves : RS -> RS -> Prop :=
| ev_tick s s' : server_clock s <= server_clock s' -> (forall k, deadline s' k = deadline s k) -> evolves s s'
| ev_revoke_token tokenID ttl s : 0 < ttl -> evolves s (set_value (token_key tokenID) "1" ttl s)
| ev_revoke_user userID s :
    0 < userID < 2 ^ 63 ->
    evolves s (set_value (user_key userID) (itoa (server_clock s)) (redis_expiry authUserRevokeTTL) s).

Lemma evolves_clock s s' : rtc evolves s s' -> server_clock s <= server_clock s'.
Proof. induction 1 as [|x y z [| |] _ IH]; rewrite ?set_clock in *; lia. Qed.

Lemma revoke_ttl : redis_expiry authUserRevokeTTL = authUserRevokeTTL.
Proof. reflexivity. Qed.

(** From [t] on, everything issued to the user up to then is cut off. *)
Definition cut_off (userID t : Z) (s : RS) : Prop :=
  exists v, deadline s (user_key userID) = Some (itoa v, v + authUserRevokeTTL) /\ t <= v <= server_clock s.

Lemma cut_off_evolves userID t s s' : 0 < userID < 2 ^ 63 -> t <= server_clock s -> rtc evolves s s' -> cut_off userID t s -> cut_off userID t s'.
Proof.
  intros Hu Ht Hr. revert Ht. induction Hr as [|x y z Hxy Hyz IH]; intros Ht Hc; [done|].
  assert (server_clock x <= server_clock y) as Hle by (apply evolves_clock, rtc_once, Hxy).
  apply IH; [lia|]. destruct Hc as (v & Hv & Hb). destruct Hxy as [s s' Hs Hd|tk ttl s Httl|w s Hw].
  - exists v. rewrite Hd. split; [done|lia].
  - exists v. rewrite set_deadline by done. rewrite decide_False by apply token_user_key. split; [done|rewrite set_clock; lia].
  - assert (0 < redis_expiry authUserRevokeTTL) as Hpos by done. unfold cut_off. rewrite set_deadline, set_clock by done.
    case_decide as Hk; [|by exists v]. apply user_key_inj in Hk; [|done..]. subst w. exists (server_clock s). rewrite revoke_ttl. split; [done|lia].
Qed.

Lemma parse_int_clock v : 0 < v < 2 ^ 63 -> parse_int (itoa v) = Some v.
Proof. intros Hv. apply parse_int_itoa. unfold in_i64. lia. Qed.

(** While the entry lives, the cutoff is read unless the store is unavailable. *)
Lemma cutoff_read userID t s now r ra : 0 < userID -> cut_off userID t s -> 0 < t -> server_clock s < 2 ^ 63 ->
  now = server_clock s -> now < t + authUserRevokeTTL ->
  exists c, userTokensRevokedBefore now r userID (MkClient ra s) = (None, c) \/
    exists v, t <= v /\ userTokensRevokedBefore now r userID (MkClient ra s) = (Some (Some v), c).
Proof.
  intros Hu (v & Hd & Hb) Ht Hmax -> Hlive. unfold userTokensRevokedBefore, command, redisAttemptAllowed.
  rewrite (proj2 (Z.eqb_neq userID 0)) by lia. cbn [retryAfter redis].
  destruct (match ra with None => (true, MkClient ra s) | Some t0 => _ end) as [allowed c] eqn:Ea.
  assert (redis c = s) as Hs by (destruct ra as [t0|]; [destruct (t0 <? server_clock s)|]; by injection Ea as <- <-).
  destruct allowed; cbn [negb]; [|eauto]. destruct r; cbn [negb]; [|eauto].
  rewrite Hs, get_deadline, Hd, (proj2 (Z.ltb_lt (server_clock s) (v + authUserRevokeTTL))) by lia.
  rewrite parse_int_clock by lia. rewrite (proj2 (Z.leb_gt v 0)) by lia. eexists. right. exists v. by split; [lia|].
Qed.

(** The client can ask the store: it is reachable, and not in its back-off. *)
Definition available (now : Z) (r1 r2 : bool) (c : Client RS) : Prop :=
  r1 = true /\ r2 = true /\ (redisAttemptAllowed now c).1 = true.

Lemma isTokenIDRevoked_state now r tokenID (c : Client RS) : tokenID <> "" ->
  exists ra, (isTokenIDRevoked now r tokenID c).2 = MkClient ra (redis c) /\
    ((isTokenIDRevoked now r tokenID c).1 <> None -> ra = None) /\
    ((isTokenIDRevoked now r tokenID c).1 = None -> r = false \/ (redisAttemptAllowed now c).1 = false).
Proof.
  intros Ht. unfold isTokenIDRevoked. rewrite (proj2 (String.eqb_neq tokenID "")) by done. unfold command.
  destruct (redisAttemptAllowed now c) as [allowed c'] eqn:Ea.
  assert (redis c' = redis c) as Hr.
  { unfold redisAttemptAllowed in Ea. destruct (retryAfter c) as [t0|]; [destruct (t0 <? now)|]; by injection Ea as <- <-. }
  destruct allowed; cbn [negb].
  - destruct r; cbn; unfold markRedisSuccess, markRedisFailure; cbn [redis]; rewrite Hr; eexists; (split; [reflexivity|]); split; auto; done.
  - destruct c' as [ra' s']. cbn in Hr |- *. subst s'. exists ra'. split; [done|]. split; [done|by right].
Qed.

Lemma unavailable_read userID now (s : RS) : 0 < userID ->
  (userTokensRevokedBefore now true userID (MkClient None s)).1 = None ->
  exists v, get_value (user_key userID) s = Some v /\ parse_int v = None.
Proof.
  intros Hu. unfold userTokensRevokedBefore, command. rewrite (proj2 (Z.eqb_neq userID 0)) by lia. cbn.
  destruct (get_value (user_key userID) s) as [v|]; [|done]. destruct (parse_int v) eqn:E; [done|]. eauto.
Qed.

(** C26. A revocation of all sessions of a user holds: a token issued up to then
    is never accepted again, on any instance and after any history of time
    passing and further revocations, unless the check is told to accept tokens
    while the store is unavailable and the store is unavailable. *)
Theorem revoked_sessions_end key failOpen userID role tokenID ttl t0 s1 s2 reach ra1 ra2 c1 r1 r2 :
  0 < userID < 2 ^ 63 -> trimmed tokenID -> tokenID <> "" -> ttl <= maxJWTTTL ->
  0 < t0 <= server_clock s1 -> server_clock s2 < 2 ^ 63 ->
  RevokeAllUserJWTs (server_clock s1) reach userID (MkClient ra1 s1) = (true, c1) ->
  rtc evolves (redis c1) s2 ->
  let now := server_clock s2 in
  (ValidateJWT key failOpen now r1 r2 (GenerateJWT key t0 ttl userID role tokenID) (MkClient ra2 s2)).1 = None \/
  (failOpen = true /\ ~ available now r1 r2 (MkClient ra2 s2)).
Proof.
  intros Hu Hti Hte Httl Ht0 Hmax Hrev Hev now. set (t1 := server_clock s1) in *.
  assert (cut_off userID t1 (redis c1) /\ server_clock (redis c1) = t1) as [Hcut Hc1].
  { unfold RevokeAllUserJWTs, revokeUserTokensBefore, command in Hrev. rewrite (proj2 (Z.eqb_neq userID 0)) in Hrev by lia.
    destruct (redisAttemptAllowed _ _) as [allowed c] eqn:Ea.
    assert (redis c = s1) as Hs.
    { unfold redisAttemptAllowed in Ea. cbn in Ea. destruct ra1 as [u|]; [destruct (u <? t1)|]; by injection Ea as <- <-. }
    destruct allowed; cbn in Hrev; [|done]. destruct reach; cbn in Hrev; [|done]. injection Hrev as <-. cbn. rewrite Hs. split; [|apply set_clock].
    exists t1. rewrite set_deadline, decide_True, revoke_ttl, set_clock by done. split; [done|lia]. }
  assert (t1 <= now) as Hle by (unfold now; rewrite <- Hc1; by apply evolves_clock).
  apply (cut_off_evolves userID t1 _ s2) in Hcut; [|done|lia|done].
  destruct (issued_lookups t0 ttl userID role tokenID) as (_ & _ & _ & Hexp & Hjti). set (claims := issued_claims t0 ttl userID role tokenID) in *.
  cbn in Hexp, Hjti. unfold ValidateJWT, GenerateJWT. rewrite (parse_signed key now claims _ Hexp).
  destruct (Z.ltb_spec now ((t0 + ttl) / Second * Second)) as [Hlive|_]; [|by left].
  assert (now < t1 + authUserRevokeTTL) as Hdead.
  { pose proof (Z.mul_div_le (t0 + ttl) Second). unfold authUserRevokeTTL. assert (0 < Second /\ 0 < 24 * Hour) as [? ?] by done. nia. }
  unfold validateTokenRevocation. rewrite (claim_string claims "jti" tokenID) by done.
  unfold claims at 1. rewrite issued_user by lia. unfold claims at 1. rewrite issued_at by lia.
  destruct (isTokenIDRevoked_state now r1 tokenID (MkClient ra2 s2) Hte) as (ra & Hst & Hsome & Hnone).
  destruct (isTokenIDRevoked now r1 tokenID (MkClient ra2 s2)) as [[[]|] c]; cbn [fst snd redis] in *; [by left| |].
  - subst c. rewrite Hsome by done.
    destruct (cutoff_read userID t1 s2 now r2 None) as (c2 & [E|(v & Hv & E)]); [lia|done|lia|done|done|done| |].
    + rewrite E. destruct failOpen; [right|by left]. split; [done|]. intros (_ & -> & _).
      destruct (unavailable_read userID now s2) as (v & Hg & Hp); [lia|by rewrite E|].
      destruct Hcut as (w & Hd & Hb). rewrite get_deadline, Hd in Hg. case_match; [|done]. injection Hg as <-. rewrite parse_int_clock in Hp by lia. done.
    + rewrite E. left. by rewrite (proj2 (Z.leb_le t0 v)) by lia.
  - destruct failOpen; [right|by left]. split; [done|]. intros (-> & _ & Hal). destruct (Hnone eq_refl) as [Hx|Hx]; [done|]. by rewrite Hx in Hal.
Qed.

(** Nothing in the store speaks against the token. *)
Definition unrevoked (now userID t0 : Z) (tokenID : string) (s : RS) : Prop :=
  get_value (token_key tokenID) s = None /\
  match get_value (user_key userID) s with Some v => exists t, parse_int v = Some t /\ t < t0 | None => True end.

Lemma command_available {A} now (run : RS -> A * RS) (c : Client RS) : (redisAttemptAllowed now c).1 = true ->
  command now true run c = (Some (run (redis c)).1, MkClient None (run (redis c)).2).
Proof.
  intros Ha. unfold command, redisAttemptAllowed in *. destruct (retryAfter c) as [t|]; [destruct (t <? now); [|done]|];
    cbn; destruct (run (redis c)); done.
Qed.

Lemma revocation_accepts failOpen now userID t0 claims tokenID (c : Client RS) :
  claimString claims "jti" = Some tokenID -> tokenID <> "" -> claimUint claims "user_id" = Some userID -> 0 < userID ->
  claimIssuedAtUnixNano claims = Some t0 -> 0 < t0 ->
  (redisAttemptAllowed now c).1 = true -> unrevoked now userID t0 tokenID (redis c) ->
  (validateTokenRevocation failOpen now true true claims c).1 = true.
Proof.
  intros Hj Hne Hu Hpos Hi Ht0 Ha [Hk Hc]. unfold validateTokenRevocation. rewrite Hj, Hu, Hi. unfold isTokenIDRevoked.
  rewrite (proj2 (String.eqb_neq tokenID "")) by done. rewrite command_available by done. cbn. rewrite Hk, bool_decide_eq_false_2 by (intros [? ?]; done).
  unfold userTokensRevokedBefore. rewrite (proj2 (Z.eqb_neq userID 0)) by lia. rewrite command_available by done. cbn.
  destruct (get_value (user_key userID) (redis c)) as [v|]; [|done]. destruct Hc as (t & -> & Ht).
  destruct (t <=? 0); [done|]. cbn. by rewrite (proj2 (Z.leb_gt t0 t)).
Qed.

(** A session works: until it expires, and unless it or everything issued
    to its user up to then was revoked, the token [GenerateJWT] issued is
    accepted from the header it is sent in, and names the user and the role it
    was issued for. *)
Theorem session_works key failOpen userID role tokenID ttl t0 now (c : Client RS) :
  0 < userID -> trimmed tokenID -> tokenID <> "" -> 0 < t0 < 2 ^ 63 ->
  now < (t0 + ttl) / Second * Second ->
  (redisAttemptAllowed now c).1 = true -> unrevoked now userID t0 tokenID (redis c) ->
  let header := ("Bearer " +:+ GenerateJWT key t0 ttl userID role tokenID)%string in
  (GetUserIDFromRequest key failOpen now true true header c).1 = Some userID /\
  (forall required, (RequireRole key failOpen required now true true header c).1 = Pass <-> required = role).
Proof.
  intros Hu Hti Hte Ht0 Hlive Ha Hun header.
  destruct (issued_lookups t0 ttl userID role tokenID) as (Huser & Hrole & _ & Hexp & Hjti).
  set (claims := issued_claims t0 ttl userID role tokenID) in *. cbn in Huser, Hrole, Hexp, Hjti.
  destruct (signed_printable key claims) as [Hp Hne].
  assert (extractClaims key failOpen now true true header c =
    (Some claims, (validateTokenRevocation failOpen now true true claims c).2)) as E.
  { unfold extractClaims, header. rewrite extract_bearer by done. unfold ValidateJWT, GenerateJWT. fold claims.
    rewrite (parse_signed key now claims _ Hexp), (proj2 (Z.ltb_lt now _)) by done.
    pose proof (revocation_accepts failOpen now userID t0 claims tokenID c) as Hv.
    rewrite (surjective_pairing (validateTokenRevocation _ _ _ _ _ _)), Hv; try done; try lia; unfold claims.
    - by apply claim_string.
    - by apply issued_user.
    - by apply issued_at. }
  split.
  - unfold GetUserIDFromRequest. rewrite E. cbn. by rewrite Huser.
  - intros required. unfold RequireRole. rewrite E. cbn. rewrite Hrole. destruct (String.eqb_spec role required); split; congruence.
Qed.

(** A revoked token is refused until less than a millisecond before it expires:
    the deadline is passed in whole milliseconds. *)
Lemma revoked_token_ends key failOpen userID role tokenID ttl t0 (s1 s2 : RS) reach ra1 c1 (c2 : Client RS) :
  trimmed tokenID -> tokenID <> "" ->
  (RevokeJWT key (server_clock s1) reach (GenerateJWT key t0 ttl userID role tokenID) (MkClient ra1 s1)) = (true, c1) ->
  server_clock s1 <= server_clock s2 -> deadline s2 (token_key tokenID) = deadline (redis c1) (token_key tokenID) ->
  server_clock s1 + Millisecond < (t0 + ttl) / Second * Second ->
  server_clock s2 <= (t0 + ttl) / Second * Second - Millisecond ->
  redis c2 = s2 -> (redisAttemptAllowed (server_clock s2) c2).1 = true ->
  (ValidateJWT key failOpen (server_clock s2) true true (GenerateJWT key t0 ttl userID role tokenID) c2).1 = None.
Proof.
  intros Hti Hte Hrev Hle Hkey Hfar Hnow Hc2 Ha. assert (0 < Millisecond) as Hms by done.
  destruct (issued_lookups t0 ttl userID role tokenID) as (Huser & Hrole & _ & Hexp & Hjti).
  set (claims := issued_claims t0 ttl userID role tokenID) in *. cbn in Huser, Hrole, Hexp, Hjti.
  set (exp := (t0 + ttl) / Second) in *. assert (claimString claims "jti" = Some tokenID) as Hj by by apply claim_string.
  assert (deadline s2 (token_key tokenID) = Some ("1", server_clock s1 + redis_expiry (exp * Second - server_clock s1))) as Hd.
  { rewrite Hkey. unfold RevokeJWT, GenerateJWT in Hrev. fold claims in Hrev.
    rewrite (parse_signed key _ claims _ Hexp), (proj2 (Z.ltb_lt _ _)) in Hrev by lia. unfold RevokeJWTClaims in Hrev.
    rewrite Hj, (claim_number claims _ _ Hexp), (proj2 (Z.leb_gt _ _)) in Hrev by lia. unfold revokeTokenID in Hrev.
    rewrite (proj2 (String.eqb_neq tokenID "")), (proj2 (Z.leb_gt _ _)) in Hrev by (done || lia). unfold command in Hrev.
    destruct (redisAttemptAllowed _ _) as [allowed c] eqn:Ea.
    assert (redis c = s1) as Hs.
    { unfold redisAttemptAllowed in Ea. cbn in Ea. destruct ra1 as [u|]; [destruct (u <? _)|]; by injection Ea as <- <-. }
    destruct allowed; cbn in Hrev; [|done]. destruct reach; cbn in Hrev; [|done]. injection Hrev as <-. cbn. rewrite Hs.
    rewrite set_deadline, decide_True; [done|done|]. unfold redis_expiry. case_match; [done|].
    pose proof (Z.quot_str_pos (exp * Second - server_clock s1) Millisecond). lia. }
  assert (server_clock s2 < server_clock s1 + redis_expiry (exp * Second - server_clock s1)) as Hlt.
  { unfold redis_expiry. rewrite (proj2 (Z.ltb_ge _ _)) by lia.
    pose proof (Z.quot_rem' (exp * Second - server_clock s1) Millisecond). pose proof (Z.rem_bound_pos (exp * Second - server_clock s1) Millisecond). lia. }
  unfold ValidateJWT, GenerateJWT. fold claims. rewrite (parse_signed key _ claims _ Hexp), (proj2 (Z.ltb_lt _ _)) by lia.
  unfold validateTokenRevocation. rewrite Hj. destruct (claimUint claims "user_id"); [|done]. destruct (claimIssuedAtUnixNano claims); [|done].
  unfold isTokenIDRevoked. rewrite (proj2 (String.eqb_neq tokenID "")) by done. rewrite command_available by done. cbn.
  rewrite Hc2, get_deadline, Hd, (proj2 (Z.ltb_lt _ _)) by lia. done.
Qed.

End History.

(** Whatever the setting says, sessions last between fifteen minutes and a week. *)
Lemma ttl_bounds env ttl : resolveJWTTTL env = Some ttl -> minJWTTTL <= ttl <= maxJWTTTL.
Proof.
  unfold resolveJWTTTL. case_match; [intros [= <-]; split; [by apply Z.leb_le|by apply Z.leb_le]|]. destruct (parse_int _); [|done].
  case_match eqn:E; [done|]. intros [= <-]. apply orb_false_iff in E as [E1 E2]. lia.
Qed.

(** The product of the setting wraps around: 307 million years pass as an hour and a half. *)
Example absurd_ttl_accepted : exists minutes, 2 ^ 40 < minutes /\ is_Some (resolveJWTTTL (itoa minutes)).
Proof. exists (2 ^ 53 + 90). split; [reflexivity|]. vm_compute. eauto. Qed.

(** ** A token library and a store *)

Module Sample.

#[export] Instance claim_eq_dec : EqDecision claim.
Proof. solve_decision. Defined.

#[export] Program Instance claim_countable : Countable claim :=
  inj_countable' (fun c => match c with CString s => inl s | CNumber z => inr (inl z) | COther => inr (inr tt) end)
    (fun x => match x with inl s => CString s | inr (inl z) => CNumber z | inr (inr tt) => COther end) _.
Next Obligation. by intros []. Qed.

Fixpoint bits (p : positive) : string :=
  match p with xI p => String (chr 49) (bits p) | xO p => String (chr 48) (bits p) | xH => EmptyString end.

Fixpoint of_bits (s : string) : positive :=
  match s with
  | EmptyString => xH
  | String c s => if code c =? 49 then xI (of_bits s) else xO (of_bits s)
  end.

Lemma of_bits_bits p : of_bits (bits p) = p.
Proof. induction p as [p IH|p IH|]; cbn; by rewrite ?IH. Qed.

Lemma bits_printable p : Forall printable (bytes (bits p)).
Proof. induction p as [p IH|p IH|]; cbn; constructor; done || by (split; apply Z.leb_le). Qed.

(** The token is the key and the claims in the clear. *)
#[export] Instance plain_jwt : JWT := {
  SignedString key c := String (chr 46) (bits (encode (key, c)));
  ParseWithClaims key now token :=
    match token with
    | String _ rest =>
        match decode (of_bits rest) with
        | Some (k, c) =>
            if String.eqb k key then
              match (c : Claims) !! "exp" with Some (CNumber exp) => if now <? exp * Second then Some c else None | _ => Some c end
            else None
        | None => None
        end
    | EmptyString => None
    end
}.

#[export] Instance plain_jwt_laws : JWTLaws.
Proof.
  split.
  - intros key now c exp Hexp. cbn. rewrite of_bits_bits, decode_encode, String.eqb_refl, Hexp. done.
  - intros key c. cbn. split; [|done]. constructor; [by split; apply Z.leb_le|apply bits_printable].
Qed.

Record KeyStore := MkKeys { key_clock : Z; keys : gmap string (string * Z) }.

#[export] Instance key_store : Strings KeyStore := {
  set_value k v ttl s := MkKeys (key_clock s) (<[k := (v, key_clock s + ttl)]> (keys s));
  get_value k s := match keys s !! k with Some (v, d) => if key_clock s <? d then Some v else None | None => None end
}.

#[export] Program Instance key_store_laws : StringLaws KeyStore := {
  server_clock := key_clock;
  deadline s k := keys s !! k
}.
Next Obligation. done. Qed.
Next Obligation. intros k v ttl s k' _. cbn. by rewrite lookup_insert. Qed.
Next Obligation. done. Qed.

End Sample.
Import Sample.

Definition sample_store : KeyStore := MkKeys (1000 * Second) ∅.

Definition sample_client : Client KeyStore := MkClient None sample_store.

Definition sample_token : string := GenerateJWT "secret" (1000 * Second) Hour 7 "user" "0a1b".

Lemma sample_id : trimmed "0a1b".
Proof. change "0a1b" with (trim_space "0a1b"). apply trim_space_trimmed. Qed.

Lemma session_works_witness :
  (GetUserIDFromRequest "secret" false (1500 * Second) true true ("Bearer " +:+ sample_token) sample_client).1 = Some 7 /\
  (forall required,
     (RequireRole "secret" false required (1500 * Second) true true ("Bearer " +:+ sample_token) sample_client).1 = Pass <-> required = "user").
Proof.
  apply (session_works "secret" false 7 "user" "0a1b" Hour (1000 * Second) (1500 * Second) sample_client);
    [reflexivity|exact sample_id|discriminate|split; reflexivity|reflexivity|reflexivity|split; reflexivity].
Defined.

(** The same token after the sessions of its user were revoked, a day later and
    with another instance that fails closed. *)
Definition sample_revoked : Client KeyStore := (RevokeAllUserJWTs (server_clock sample_store) true 7 (MkClient None sample_store)).2.

Definition sample_later : KeyStore := MkKeys (1500 * Second) (keys (redis sample_revoked)).

Lemma sample_revocation : RevokeAllUserJWTs (server_clock sample_store) true 7 (MkClient None sample_store) = (true, sample_revoked).
Proof. by vm_compute. Qed.

Lemma revoked_sessions_end_witness :
  (ValidateJWT "secret" false (server_clock sample_later) true true
     (GenerateJWT "secret" (1000 * Second) Hour 7 "user" "0a1b") (MkClient None sample_later)).1 = None \/
  (false = true /\ ~ available (server_clock sample_later) true true (MkClient None sample_later)).
Proof.
  apply (revoked_sessions_end "secret" false 7 "user" "0a1b" Hour (1000 * Second) sample_store sample_later true None None sample_revoked true true);
    [split; reflexivity|exact sample_id|discriminate|apply Z.leb_le; reflexivity|split; [reflexivity|apply Z.leb_le; reflexivity]|reflexivity|exact sample_revocation|].
  apply rtc_once, ev_tick; [apply Z.leb_le; reflexivity|reflexivity].
Defined.

(** [RotateJWT] checks the old token before it makes the new one: a revocation of
    all sessions between the two does not reach the new token. *)
Example rotation_outlives_revocation :
  let checked := ValidateJWT "secret" false (1001 * Second) true true sample_token sample_client in
  let revoked := (RevokeAllUserJWTs (1002 * Second) true 7 checked.2) in
  let rotated := GenerateJWT "secret" (1003 * Second) Hour 7 "user" "2c3d" in
  (bool_decide (is_Some checked.1), revoked.1,
   bool_decide (is_Some (ValidateJWT "secret" false (1004 * Second) true true rotated revoked.2).1)) = (true, true, true).
Proof. by vm_compute. Qed.

End Sessions.
