(* ===== verification/Passwords.v ===== *)
(** * Accounts and passwords

    Registration, login, the change of a password and its reset by mail:
    [app/server/route_user_handler.go], [route_password_reset_handler.go] and
    the tables behind them.  The hash functions (bcrypt, SHA-256), the classes
    of characters and random identifiers are parameters; the rate limiter is
    that of RateLimit.v, tokens are those of Sessions.v and mail goes to the
    table of EmailOutbox.v. *)

From S2P Require Import Prelude GoStrings RateLimit EmailOutbox Sessions.
From stdpp Require Import sorting.
Open Scope Z_scope.

Module Passwords.

Record User := MkUser { Email : string; Password : string; Role : string }.
Record PasswordResetToken := MkResetToken { UserID : Z; TokenHash : string; ExpiresAt : Z }.

(** The two tables, by identifier; new rows take the next one. *)
Record Accounts := MkAccounts { users : gmap Z User; next_user : Z; reset_tokens : gmap Z PasswordResetToken; next_token : Z }.

Definition with_users (m : gmap Z User) (a : Accounts) : Accounts := MkAccounts m (next_user a) (reset_tokens a) (next_token a).
Definition with_tokens (m : gmap Z PasswordResetToken) (a : Accounts) : Accounts := MkAccounts (users a) (next_user a) m (next_token a).

(** ** The tables *)

Definition lower_id {A} (a b : Z * A) : bool := a.1 <=? b.1.

(** [First]: the row of the least identifier that satisfies the condition. *)
Definition first_row {A} (p : A -> bool) (m : gmap Z A) : option (Z * A) :=
  head (merge_sort (rel_of lower_id) (List.filter (fun x => p x.2) (map_to_list m))).

Definition GetUserByEmail (email : string) (a : Accounts) : option (Z * User) :=
  first_row (fun u => String.eqb (to_lower (Email u)) email) (users a).

Definition set_password (password : string) (u : User) : User := MkUser (Email u) password (Role u).

Definition ChangePassword (userID : Z) (password : string) (a : Accounts) : Accounts :=
  with_users (alter (set_password password) userID (users a)) a.

Definition ChangePasswordIfCurrent (userID : Z) (expected new : string) (a : Accounts) : bool * Accounts :=
  match users a !! userID with
  | Some u => if String.eqb (Password u) expected then (true, ChangePassword userID new a) else (false, a)
  | None => (false, a)
  end.

(** The user's tokens go, but for those committed after the statement began. *)
Definition DeletePasswordResetTokensForUser (userID : Z) (unseen : gset Z) (a : Accounts) : Accounts :=
  with_tokens (filter (fun x => (UserID x.2 <> userID) \/ x.1 ∈ unseen) (reset_tokens a)) a.

(** Also fails, and changes nothing, when the hash is in the table. *)
Definition CreatePasswordResetToken (userID : Z) (tokenHash : string) (expiresAt : Z) (unseen : gset Z) (a : Accounts) : bool * Accounts :=
  if (userID =? 0) || String.eqb tokenHash "" then (false, a)
  else
    let deleted := DeletePasswordResetTokensForUser userID unseen a in
    if bool_decide (map_Exists (fun _ t => TokenHash t = tokenHash) (reset_tokens deleted)) then (false, a)
    else
      (true, MkAccounts (users a) (next_user a) (<[next_token a := MkResetToken userID tokenHash expiresAt]> (reset_tokens deleted)) (next_token a + 1)).

Definition DeleteExpiredPasswordResetTokens (before : Z) (a : Accounts) : Accounts :=
  with_tokens (filter (fun x => before < ExpiresAt x.2) (reset_tokens a)) a.

(** ** Settings *)

Record userRegistrationPolicy := MkPolicy { DisablePublicRegistration : bool; DisablePublicFirstAdminBootstrap : bool }.

(** [GetEnvBool] *)
Definition GetEnvBool (env : string -> option string) (key : string) (fallback : bool) : bool :=
  match env key with
  | Some value => match Sessions.parse_bool value with Some parsed => parsed | None => fallback end
  | None => fallback
  end.

Definition resolveUserRegistrationPolicy (inProduction : bool) (env : string -> option string) : userRegistrationPolicy :=
  let localSetup := negb inProduction && GetEnvBool env "ALLOW_INSECURE_REGISTRATION_DEFAULTS" false in
  MkPolicy (GetEnvBool env "DISABLE_PUBLIC_REGISTRATION" (negb localSetup))
    (negb (GetEnvBool env "ENABLE_PUBLIC_FIRST_ADMIN_BOOTSTRAP" localSetup)).

(** The lifetime [ReadPasswordResetConfig] reads. *)
Definition reset_token_ttl (env : string) : option Z :=
  let raw := trim_space env in
  let ttl := if String.eqb raw "" then Some (30 * Minute) else (fun minutes => wrap_i64 (minutes * Minute)) <$> parse_int raw in
  match ttl with
  | Some ttl => if (ttl <? 5 * Minute) || (24 * Hour <? ttl) then None else Some ttl
  | None => None
  end.

Definition PasswordMinLength : nat := 12.

Inductive password_error := TooShort | ContainsSpace | MissingLower | MissingUpper | MissingDigit.

Section Policy.
(** The runes of a string and the classes of package [unicode]. *)
Context (runes : string -> list Z) (IsSpace IsLower IsUpper IsDigit : Z -> bool).

Definition ValidatePassword (password : string) : option password_error :=
  if (slen password <? PasswordMinLength)%nat then Some TooShort
  else if existsb IsSpace (runes password) then Some ContainsSpace
  else if negb (existsb IsLower (runes password)) then Some MissingLower
  else if negb (existsb IsUpper (runes password)) then Some MissingUpper
  else if negb (existsb IsDigit (runes password)) then Some MissingDigit
  else None.

End Policy.

(** ** Registration *)

Inductive register_error := EmailAlreadyInUse | PublicRegistrationDisabled | PublicFirstAdminBootstrap.

(** [createUserWithFirstAdminRole]: an advisory lock lets one registration run
    at a time.  The personal workspace is that of Workspaces.v. *)
Definition createUserWithFirstAdminRole (policy : userRegistrationPolicy) (email password : string) (a : Accounts)
    : res register_error (Z * Accounts) :=
  let first := bool_decide (users a = ∅) in
  if first && DisablePublicFirstAdminBootstrap policy then Err PublicFirstAdminBootstrap
  else if negb first && DisablePublicRegistration policy then Err PublicRegistrationDisabled
  else if bool_decide (map_Exists (fun _ u => to_lower (Email u) = to_lower email) (users a)) then Err EmailAlreadyInUse
  else
    let user := MkUser email password (if first then "admin" else "user") in
    Ok (next_user a, MkAccounts (<[next_user a := user]> (users a)) (next_user a + 1) (reset_tokens a) (next_token a)).

(** ** Login *)

Section Handlers.
Context (CheckPasswordHash : string -> string -> bool).

Inductive login_response := LoginBlocked (retryAfter : option string) | LoginInvalid | LoginQueryFailed | LoginOk (token role : string).

Section Login.
Context {RS : Type} `{RateLimit.CounterServer RS} (sha256_hex : string -> string) `{Sessions.JWT} (key : string).

(** [loginUser]: the request at [now], its token issued at [issue].  [failed]:
    the query for the user fails. *)
Definition loginUser (ip email password : string) (now issue ttl : Z) (tokenID : string) (failed : bool) (a : Accounts)
    (l : RateLimit.loginFailureLimiter) (r : RateLimit.Remote RS)
    : login_response * (RateLimit.loginFailureLimiter * RateLimit.Remote RS) :=
  let email := Sessions.NormalizeEmail email in
  let '((blocked, retryAfter), (l, r)) := RateLimit.isBlocked sha256_hex ip email now l r in
  if blocked : bool then (LoginBlocked (RateLimit.setRetryAfterHeader retryAfter), (l, r))
  else if failed then (LoginQueryFailed, (l, r))
  else
    match GetUserByEmail email a with
    | None => (LoginInvalid, RateLimit.recordFailure sha256_hex ip email now l r)
    | Some (userID, user) =>
        if negb (CheckPasswordHash password (Password user)) then (LoginInvalid, RateLimit.recordFailure sha256_hex ip email now l r)
        else
          let st := RateLimit.recordSuccess sha256_hex ip email now l r in
          (LoginOk (Sessions.GenerateJWT key issue ttl userID (Role user) tokenID) (Role user), st)
    end.

End Login.

(** ** Changing a password *)

Inductive change_error :=
| InvalidOldPassword | HashNewPassword | ChangePasswordFailed | RevokeActiveSessions | PasswordRollbackFailed.

(** [changePasswordWithSessionRevocation]; [current] is the hash read before,
    [hashed] the hash of the new password.  The outcomes of the two statements
    and of the revocation are given, and what other requests do to the tables
    while it runs.  A statement that fails leaves its row alone: one that was
    committed and whose reply was lost is not told apart. *)
Definition changePasswordWithSessionRevocation (userID : Z) (current oldPassword : string) (hashed : option string)
    (stored revoked rolled : bool) (meanwhile : Accounts -> Accounts) (a : Accounts) : option change_error * Accounts :=
  if negb (CheckPasswordHash oldPassword current) then (Some InvalidOldPassword, a)
  else
    match hashed with
    | None => (Some HashNewPassword, a)
    | Some hashedPassword =>
        if negb stored then (Some ChangePasswordFailed, a)
        else
          let a := meanwhile (ChangePassword userID hashedPassword a) in
          if revoked then (None, a)
          else if negb rolled then (Some PasswordRollbackFailed, a)
          else (Some RevokeActiveSessions, (ChangePasswordIfCurrent userID hashedPassword current a).2)
    end.

(** ** Resetting a password *)

Section Reset.
Context (hashPasswordResetToken : string -> string).

(** [lookupPasswordResetTokenEmail] *)
Definition lookupPasswordResetTokenEmail (now : Z) (rawToken : string) (a : Accounts) : string :=
  let tokenHash := hashPasswordResetToken (trim_space rawToken) in
  match first_row (fun t => String.eqb (TokenHash t) tokenHash && (now <? ExpiresAt t) && bool_decide (is_Some (users a !! UserID t))) (reset_tokens a) with
  | Some (_, t) => match users a !! UserID t with Some u => Sessions.NormalizeEmail (Email u) | None => "" end
  | None => ""
  end.

(** The transaction of [resetPasswordWithToken] begins: the token is read. *)
Definition reset_find (now : Z) (tokenHash : string) (a : Accounts) : option (Z * PasswordResetToken) :=
  first_row (fun t => String.eqb (TokenHash t) tokenHash && (now <? ExpiresAt t)) (reset_tokens a).

Inductive reset_error := InvalidResetToken | ResetRevokeFailed | ResetFailed.

(** The rest, under the lock of the deleted row: the row must still be there.
    [revoked] and [committed] are the outcomes of the revocation of the user's
    sessions and of everything else. *)
Definition reset_apply (id : Z) (tokenHash hashed : string) (token : PasswordResetToken) (revoked committed : bool) (unseen : gset Z) (a : Accounts)
    : res reset_error (string * Accounts) :=
  match reset_tokens a !! id with
  | Some row =>
      if negb (String.eqb (TokenHash row) tokenHash) then Err InvalidResetToken
      else
        match users a !! UserID token with
        | None => Err ResetFailed
        | Some user =>
            if negb revoked then Err ResetRevokeFailed
            else if negb committed then Err ResetFailed
            else
              let a := with_tokens (delete id (reset_tokens a)) a in
              Ok (Email user, DeletePasswordResetTokensForUser (UserID token) unseen (ChangePassword (UserID token) hashed a))
        end
  | None => Err InvalidResetToken
  end.

Definition resetPasswordWithToken (now : Z) (rawToken hashed : string) (revoked committed : bool) (unseen : gset Z) (a : Accounts)
    : res reset_error (string * Accounts) :=
  let tokenHash := hashPasswordResetToken (trim_space rawToken) in
  match reset_find now tokenHash a with
  | None => Err InvalidResetToken
  | Some (id, token) => reset_apply id tokenHash hashed token revoked committed unseen a
  end.

(** ** Asking for a reset *)

Inductive forgot_response := ForgotAccepted | ForgotUnavailable | ForgotLimited (retryAfter : option string).

Section Forgot.
Context {RS : Type} `{RateLimit.CounterServer RS} (sha256_hex : string -> string).

(** [forgotPassword] when mail and recovery are configured.  [token] is the
    random token, [url] its link, [render] the message; the flags are the
    outcomes of the query, the random source, the transaction, the link, the
    mail table and the clean-up. *)
Definition forgotPassword (now ttl maxAttempts mailID : Z) (email token : string) (url : option string) (render : string -> Z -> string * string)
    (found stored enqueued cleaned : bool) (unseen : gset Z) (a : Accounts) (outbox : EmailOutbox.Outbox)
    (l : RateLimit.fixedWindowLimiter) (r : RateLimit.Remote RS)
    : forgot_response * (Accounts * EmailOutbox.Outbox) * (RateLimit.fixedWindowLimiter * RateLimit.Remote RS) :=
  let email := Sessions.NormalizeEmail email in
  if String.eqb email "" then (ForgotAccepted, (a, outbox), (l, r))
  else
    let '((blocked, retryAfter), (l, r)) := RateLimit.currentIdentifier sha256_hex email now l r in
    if blocked : bool then (ForgotLimited (RateLimit.setRetryAfterHeader retryAfter), (a, outbox), (l, r))
    else
      let lr := RateLimit.incrementIdentifier sha256_hex email now l r in
      match GetUserByEmail email a with
      | None => (ForgotAccepted, (a, outbox), lr)
      | Some (userID, user) =>
          if negb found || String.eqb token "" then (ForgotAccepted, (a, outbox), lr)
          else
            let '(created, a) := if stored then CreatePasswordResetToken userID (hashPasswordResetToken token) (now + ttl) unseen a else (false, a) in
            if negb created then (ForgotAccepted, (a, outbox), lr)
            else
              match url with
              | None => (ForgotAccepted, (a, outbox), lr)
              | Some url =>
                  let '(subject, body) := render url (now + ttl) in
                  if enqueued then
                    (ForgotAccepted,
                     (a, <[mailID := EmailOutbox.EnqueueEmailOutbox now "password_reset" (Email user) subject body maxAttempts]> outbox), lr)
                  else (ForgotUnavailable, (if cleaned then DeletePasswordResetTokensForUser userID ∅ a else a, outbox), lr)
              end
      end.

End Forgot.
End Reset.
End Handlers.

(** ** Row lookups *)

Lemma elem_of_first_row {A} (p : A -> bool) (m : gmap Z A) id x : first_row p m = Some (id, x) -> m !! id = Some x /\ p x = true.
Proof.
  unfold first_row. intros H.
  assert ((id, x) ∈ merge_sort (rel_of lower_id) (List.filter (fun y : Z * A => p y.2) (map_to_list m))) as Hin.
  { destruct (merge_sort _ _) as [|y l]; [done|]. injection H as ->. by left. }
  rewrite merge_sort_Permutation, list_elem_of_In, filter_In, <- list_elem_of_In, elem_of_map_to_list in Hin. done.
Qed.

Lemma first_row_none {A} (p : A -> bool) (m : gmap Z A) : first_row p m = None -> forall id x, m !! id = Some x -> p x = false.
Proof.
  unfold first_row. intros H id x Hx. destruct (p x) eqn:Ep; [|done]. exfalso.
  assert ((id, x) ∈ merge_sort (rel_of lower_id) (List.filter (fun y : Z * A => p y.2) (map_to_list m))) as Hin.
  { rewrite merge_sort_Permutation, list_elem_of_In, filter_In, <- list_elem_of_In, elem_of_map_to_list. done. }
  destruct (merge_sort _ _); [by apply elem_of_nil in Hin|done].
Qed.

Lemma lookup_delete_tokens userID unseen a id t :
  reset_tokens (DeletePasswordResetTokensForUser userID unseen a) !! id = Some t -> reset_tokens a !! id = Some t.
Proof. cbn. by intros [H _]%map_lookup_filter_Some. Qed.

(** ** Changing a password *)

(** C28. A change of password ends in one of these ways, whatever other requests
    do meanwhile: it succeeds, with the new password stored and the sessions
    revoked; it fails before it changed anything; or the revocation fails, and
    then the account is not left with the new password (the old one is
    restored, or a password set by somebody else meanwhile is kept) unless the
    roll-back failed as well, which it reports. *)
Theorem password_change_outcome CheckPasswordHash userID current old hashed stored revoked rolled meanwhile a e a' :
  changePasswordWithSessionRevocation CheckPasswordHash userID current old hashed stored revoked rolled meanwhile a = (e, a') ->
  match e with
  | None => revoked = true /\ CheckPasswordHash old current = true /\ exists h, hashed = Some h /\ a' = meanwhile (ChangePassword userID h a)
  | Some (InvalidOldPassword | HashNewPassword | ChangePasswordFailed) => a' = a
  | Some RevokeActiveSessions =>
      revoked = false /\ exists h, hashed = Some h /\
        let b := meanwhile (ChangePassword userID h a) in
        (forall u, u <> userID -> users a' !! u = users b !! u) /\
        match users b !! userID with
        | Some x => users a' !! userID = Some (if String.eqb (Password x) h then set_password current x else x)
        | None => users a' !! userID = None
        end
  | Some PasswordRollbackFailed => revoked = false /\ rolled = false
  end.
Proof.
  unfold changePasswordWithSessionRevocation. destruct (CheckPasswordHash old current) eqn:Ec; cbn; [|by intros [= <- <-]].
  destruct hashed as [h|]; [|by intros [= <- <-]]. destruct stored; cbn; [|by intros [= <- <-]].
  destruct revoked; [intros [= <- <-]; eauto|]. destruct rolled; cbn; [|by intros [= <- <-]].
  intros [= <- <-]. split; [done|]. exists h. split; [done|]. set (b := meanwhile _). unfold ChangePasswordIfCurrent.
  destruct (users b !! userID) as [x|] eqn:Ex; cbn; [|by rewrite Ex].
  destruct (String.eqb (Password x) h); cbn; [|by rewrite Ex]. split; [intros u Hu; by rewrite lookup_alter_ne|]. by rewrite lookup_alter_eq, Ex.
Qed.

(** ** Registration *)

Definition admins (a : Accounts) : list Z := List.filter (fun id => match users a !! id with Some u => String.eqb (Role u) "admin" | None => false end) ((map_to_list (users a)).*1).

(** Registrations, whatever their policies; and deletions of accounts. *)
Inductive account_step : Accounts -> Accounts -> Prop :=
| step_register policy email password a id a' :
    createUserWithFirstAdminRole policy email password a = Ok (id, a') -> account_step a a'
| step_delete_user id a : account_step a (with_users (delete id (users a)) a).

Definition fresh_ids (a : Accounts) : Prop := forall id u, users a !! id = Some u -> id < next_user a.

Definition no_accounts : Accounts := MkAccounts ∅ 1 ∅ 1.

(** At most one account is an administrator, the oldest of all; emails are unique, their case aside. *)
Record registered (a : Accounts) : Prop := MkRegistered {
  reg_fresh : forall id u, users a !! id = Some u -> id < next_user a;
  reg_admin : forall id u, users a !! id = Some u -> Role u = "admin" -> forall id' u', users a !! id' = Some u' -> id <= id';
  reg_email : forall id u id' u', users a !! id = Some u -> users a !! id' = Some u' -> to_lower (Email u) = to_lower (Email u') -> id = id' }.

(** Registration makes an administrator of the first account only: after any
    sequence of registrations, under any policies, and deletions, an account
    registered as administrator is the oldest one there is, so there is at most
    one, and no two accounts share an address but for its case. *)
Theorem first_account_is_admin a : rtc account_step no_accounts a -> registered a.
Proof.
  intros Hr. assert (registered no_accounts) as H0 by (split; cbn; intros *; by rewrite lookup_empty).
  revert Hr. apply (rtc_ind_r registered); [done|]. intros b c _ Hs R. destruct Hs as [policy email password b id c Hc|id b].
  - unfold createUserWithFirstAdminRole in Hc. destruct (bool_decide (users b = ∅)) eqn:Ee; cbn in Hc.
    + apply bool_decide_eq_true in Ee. destruct (DisablePublicFirstAdminBootstrap policy); [done|]. rewrite Ee in Hc.
      case_bool_decide; [done|]. injection Hc as <- <-. split; cbn.
      * intros i u Hi. rewrite lookup_insert in Hi. case_decide; [lia|by rewrite lookup_empty in Hi].
      * intros i u Hi _ i' u' Hi'. rewrite lookup_insert in Hi, Hi'. repeat case_decide; [lia|by rewrite lookup_empty in *..].
      * intros i u i' u' Hi Hi' _. rewrite lookup_insert in Hi, Hi'. repeat case_decide; [lia|by rewrite lookup_empty in *..].
    + destruct (DisablePublicRegistration policy); [done|]. case_bool_decide as Hex; [done|]. injection Hc as <- <-. split; cbn.
      * intros i u Hi. rewrite lookup_insert in Hi. case_decide; [lia|]. pose proof (reg_fresh b R i u Hi). lia.
      * intros i u Hi Ha i' u' Hi'. rewrite lookup_insert in Hi, Hi'. destruct (decide (next_user b = i)); [by injection Hi as <-|].
        destruct (decide (next_user b = i')); [pose proof (reg_fresh b R i u Hi); lia|]. by apply (reg_admin b R i u Hi Ha i' u').
      * assert (forall i u, users b !! i = Some u -> to_lower (Email u) <> to_lower email) as Hne by (intros i u Hi He; apply Hex; by exists i, u).
        intros i u i' u' Hi Hi' He. rewrite lookup_insert in Hi, Hi'. destruct (decide (next_user b = i)), (decide (next_user b = i')); [congruence|..].
        -- injection Hi as <-. cbn in He. exfalso. by apply (Hne i' u').
        -- injection Hi' as <-. cbn in He. exfalso. by apply (Hne i u).
        -- by apply (reg_email b R i u i' u').
  - split; cbn.
    + intros i u [_ Hi]%lookup_delete_Some. by apply (reg_fresh b R i u).
    + intros i u [_ Hi]%lookup_delete_Some Ha i' u' [_ Hi']%lookup_delete_Some. by apply (reg_admin b R i u Hi Ha i' u').
    + intros i u i' u' [_ Hi]%lookup_delete_Some [_ Hi']%lookup_delete_Some. by apply (reg_email b R i u i' u').
Qed.

(** ** Reset tokens in use *)

(** A reset that has read its token: the row, its contents and when. *)
Record Attempt := MkAttempt { row_id : Z; row : PasswordResetToken; read_at : Z }.

(** Beside the tables: the hashes issued with their user and expiry, the resets
    under way, and those that succeeded. *)
Record Resets := MkResets {
  accounts : Accounts; issued : gmap string (Z * Z); running : gmap nat Attempt; succeeded : list (string * Attempt); time : Z
}.

Inductive reset_step : Resets -> Resets -> Prop :=
| reset_tick t s : time s <= t -> reset_step s (MkResets (accounts s) (issued s) (running s) (succeeded s) t)
| reset_issue userID hash expiresAt unseen a s :
    issued s !! hash = None -> CreatePasswordResetToken userID hash expiresAt unseen (accounts s) = (true, a) ->
    reset_step s (MkResets a (<[hash := (userID, expiresAt)]> (issued s)) (running s) (succeeded s) (time s))
| reset_begin w hash id token s :
    running s !! w = None -> reset_find (time s) hash (accounts s) = Some (id, token) ->
    reset_step s (MkResets (accounts s) (issued s) (<[w := MkAttempt id token (time s)]> (running s)) (succeeded s) (time s))
| reset_end w x hashed revoked committed unseen s :
    running s !! w = Some x ->
    let outcome := reset_apply (row_id x) (TokenHash (row x)) hashed (row x) revoked committed unseen (accounts s) in
    reset_step s
      (MkResets (match outcome with Ok (_, a) => a | Err _ => accounts s end) (issued s) (delete w (running s))
         (match outcome with Ok _ => (TokenHash (row x), x) :: succeeded s | Err _ => succeeded s end) (time s))
| reset_clean before s :
    reset_step s (MkResets (DeleteExpiredPasswordResetTokens before (accounts s)) (issued s) (running s) (succeeded s) (time s))
(* a failed mail, or an account that goes *)
| reset_drop userID unseen s :
    reset_step s (MkResets (DeletePasswordResetTokensForUser userID unseen (accounts s)) (issued s) (running s) (succeeded s) (time s))
(* whatever else happens to accounts, and processes that end *)
| reset_users m s : reset_step s (MkResets (with_users m (accounts s)) (issued s) (running s) (succeeded s) (time s))
| reset_gone w s : reset_step s (MkResets (accounts s) (issued s) (delete w (running s)) (succeeded s) (time s)).

Definition no_resets (m : gmap Z User) (t : Z) : Resets := MkResets (MkAccounts m 1 ∅ 1) ∅ ∅ [] t.

Definition genuine (s : Resets) (t : PasswordResetToken) : Prop := issued s !! TokenHash t = Some (UserID t, ExpiresAt t).

Record reset_inv (s : Resets) : Prop := MkResetInv {
  ri_next : forall id t, reset_tokens (accounts s) !! id = Some t -> id < next_token (accounts s);
  ri_row : forall id t, reset_tokens (accounts s) !! id = Some t -> genuine s t /\ TokenHash t ∉ (succeeded s).*1;
  ri_hash : forall id t id' t', reset_tokens (accounts s) !! id = Some t -> reset_tokens (accounts s) !! id' = Some t' -> TokenHash t = TokenHash t' -> id = id';
  ri_running : forall w x, running s !! w = Some x -> genuine s (row x) /\ read_at x < ExpiresAt (row x);
  ri_once : NoDup (succeeded s).*1;
  ri_done : forall h x, (h, x) ∈ succeeded s -> h = TokenHash (row x) /\ genuine s (row x) /\ read_at x < ExpiresAt (row x) }.

(** Statements that only remove rows. *)
Lemma reset_inv_fewer s a w t :
  reset_inv s -> (forall id r, reset_tokens a !! id = Some r -> reset_tokens (accounts s) !! id = Some r) ->
  next_token a = next_token (accounts s) -> w ⊆ running s ->
  reset_inv (MkResets a (issued s) w (succeeded s) t).
Proof.
  intros I Ha Hn Hw. split; cbn; rewrite ?Hn; [| | | |apply I|apply I].
  - intros id r Hr. by apply (ri_next s I id r), Ha.
  - intros id r Hr. by apply (ri_row s I id r), Ha.
  - intros id r id' r' Hr Hr'. apply (ri_hash s I id r id' r'); by apply Ha.
  - intros v x Hv. apply (ri_running s I v). by apply (lookup_weaken w).
Qed.

(** A reset that succeeds deletes its row. *)
Lemma reset_apply_ok id hash hashed token revoked committed unseen a email a' :
  reset_apply id hash hashed token revoked committed unseen a = Ok (email, a') ->
  revoked = true /\ next_token a' = next_token a /\ reset_tokens a' !! id = None /\
  (exists t, reset_tokens a !! id = Some t /\ TokenHash t = hash) /\
  (forall i r, reset_tokens a' !! i = Some r -> reset_tokens a !! i = Some r) /\
  users a' = alter (set_password hashed) (UserID token) (users a).
Proof.
  unfold reset_apply. destruct (reset_tokens a !! id) as [t|] eqn:Et; [|done]. destruct (String.eqb_spec (TokenHash t) hash) as [Hh|]; cbn; [|done].
  destruct (users a !! UserID token) as [u|]; [|done]. destruct revoked; cbn; [|done]. destruct committed; cbn; [|done]. intros [= <- <-].
  split_and!; [done|done| |by eexists| |done].
  - cbn. rewrite map_lookup_filter_None. left. apply lookup_delete_eq.
  - intros i r [Hr _]%map_lookup_filter_Some. cbn in Hr. by apply lookup_delete_Some in Hr as [_ Hr].
Qed.

Lemma reset_inv_step s s' : reset_inv s -> reset_step s s' -> reset_inv s'.
Proof.
  intros I. destruct 1 as [t s Ht|userID hash exp unseen a s Hnew Hc|w hash id token s Hw Hf|w x hashed revoked committed unseen s Hw outcome
    |before s|userID unseen s|m s|w s].
  - by apply reset_inv_fewer.
  - unfold CreatePasswordResetToken in Hc. destruct (_ || _); [done|]. case_bool_decide as Hex; [done|]. injection Hc as <-.
    set (kept := DeletePasswordResetTokensForUser userID unseen (accounts s)) in *.
    assert (forall i r, reset_tokens kept !! i = Some r -> reset_tokens (accounts s) !! i = Some r) as Hk by (intros i r; apply lookup_delete_tokens).
    assert (forall r, genuine s r -> genuine (MkResets (accounts s) (<[hash := (userID, exp)]> (issued s)) ∅ [] 0) r) as Hg.
    { intros r Hr. unfold genuine in *. cbn. rewrite lookup_insert_ne; [done|]. intros E. rewrite <- E in Hr. congruence. }
    split; cbn; [| | | |apply I|].
    + intros i r Hi. rewrite lookup_insert in Hi. case_decide; [lia|]. apply Hk in Hi. pose proof (ri_next s I i r Hi). lia.
    + intros i r Hi. rewrite lookup_insert in Hi. case_decide.
      * injection Hi as <-. cbn. split; [apply lookup_insert_eq|]. intros ([h x] & -> & Hin)%list_elem_of_fmap.
        destruct (ri_done s I h x Hin) as (-> & Hx & _). unfold genuine in Hx. cbn in Hnew. congruence.
      * apply Hk in Hi. destruct (ri_row s I i r Hi). split; [by apply Hg|done].
    + intros i r i' r' Hi Hi' He. rewrite lookup_insert in Hi, Hi'.
      destruct (decide (next_token (accounts s) = i)), (decide (next_token (accounts s) = i')); [congruence|..].
      * injection Hi as <-. exfalso. apply Hex. by exists i', r'.
      * injection Hi' as <-. exfalso. apply Hex. by exists i, r.
      * apply (ri_hash s I i r i' r'); [by apply Hk..|done].
    + intros v x Hv. destruct (ri_running s I v x Hv). split; [by apply Hg|done].
    + intros h x Hx. destruct (ri_done s I h x Hx) as (? & ? & ?). split; [done|]. split; [by apply Hg|done].
  - apply elem_of_first_row in Hf as [Hr [Hh Hlt]%andb_true_iff]. split; cbn; [apply I|apply I|apply I| |apply I|apply I].
    intros v x Hv. rewrite lookup_insert in Hv. case_decide; [|by apply (ri_running s I v)]. injection Hv as <-. cbn.
    split; [by apply (ri_row s I id token)|lia].
  - destruct (ri_running s I w x Hw) as [Hg Hlt]. subst outcome. destruct (reset_apply _ _ _ _ _ _ _ _) as [[email a]|e] eqn:Ea.
    + apply reset_apply_ok in Ea as (_ & Hn & Hgone & (t & Ht & Hth) & Hsub & _).
      pose proof (reset_inv_fewer s a (delete w (running s)) (time s) I Hsub Hn (delete_subseteq _ _)) as J. split; cbn; [apply J| |apply J|apply J| |].
      * intros i r Hi. destruct (ri_row _ J i r Hi) as [H1 H2]. split; [done|]. cbn in H2. rewrite not_elem_of_cons. split; [|done].
        intros E. assert (i = row_id x) as -> by (apply (ri_hash s I i r (row_id x) t); [by apply Hsub|done|congruence]). congruence.
      * constructor; [|apply I]. rewrite <- Hth. by apply (ri_row s I (row_id x) t).
      * intros h y [[= -> ->]|Hy]%elem_of_cons; [done|by apply (ri_done s I)].
    + apply reset_inv_fewer; [done|done|done|apply delete_subseteq].
  - apply reset_inv_fewer; [done| |done|done]. cbn. by intros id r [H _]%map_lookup_filter_Some.
  - apply reset_inv_fewer; [done| |done|done]. intros id r. apply lookup_delete_tokens.
  - by apply reset_inv_fewer.
  - apply reset_inv_fewer; [done|done|done|apply delete_subseteq].
Qed.

(** C27. A token that was mailed resets a password at most once, and only the
    password of the account it was issued for, by a request made before it
    expired: whatever resets, new tokens, clean-ups and changes of accounts run
    at the same time. *)
Theorem reset_token_once m t s :
  rtc reset_step (no_resets m t) s ->
  NoDup (succeeded s).*1 /\
  (forall h x, (h, x) ∈ succeeded s -> exists expiresAt, issued s !! h = Some (UserID (row x), expiresAt) /\ read_at x < expiresAt).
Proof.
  intros Hr. assert (reset_inv s) as I.
  { revert Hr. apply (rtc_ind_r reset_inv).
    - split; cbn; try (intros *; by rewrite lookup_empty); [constructor|intros h x Hx; by apply elem_of_nil in Hx].
    - intros y z _ Hs I. by apply (reset_inv_step y). }
  split; [apply I|]. intros h x Hx. destruct (ri_done s I h x Hx) as (-> & Hg & Hl). eauto.
Qed.

(** ** Examples *)

Definition sample_users : gmap Z User := {[1 := MkUser "ada@example.org" "old-hash" "user"]}.

Definition sample_accounts : Accounts := MkAccounts sample_users 2 ∅ 1.

(** Another request changes the password before the revocation fails: its password stays. *)
Lemma password_change_outcome_witness :
  let check (password hash : string) := String.eqb hash "old-hash" in
  let meanwhile := ChangePassword 1 "third-hash" in
  changePasswordWithSessionRevocation check 1 "old-hash" "old" (Some "new-hash") true false true meanwhile sample_accounts
    = (Some RevokeActiveSessions, ChangePassword 1 "third-hash" (ChangePassword 1 "new-hash" sample_accounts)) /\
  users (ChangePassword 1 "third-hash" (ChangePassword 1 "new-hash" sample_accounts)) !! 1 = Some (MkUser "ada@example.org" "third-hash" "user").
Proof.
  cbn zeta. assert (changePasswordWithSessionRevocation (fun _ hash => String.eqb hash "old-hash") 1 "old-hash" "old" (Some "new-hash") true false true
    (ChangePassword 1 "third-hash") sample_accounts
    = (Some RevokeActiveSessions, ChangePassword 1 "third-hash" (ChangePassword 1 "new-hash" sample_accounts))) as H by by vm_compute.
  split; [exact H|]. apply password_change_outcome in H as (_ & h & [= <-] & _ & H). exact H.
Defined.

Definition open_policy : userRegistrationPolicy := MkPolicy false false.

Lemma first_account_is_admin_witness : exists a,
  rtc account_step no_accounts a /\ registered a /\ (Role <$> (users a !! 1)) = Some "admin" /\ (Role <$> (users a !! 2)) = Some "user".
Proof.
  destruct (createUserWithFirstAdminRole open_policy "ada@example.org" "h" no_accounts) as [[id a]|] eqn:E1; [|by vm_compute in E1].
  destruct (createUserWithFirstAdminRole open_policy "bob@example.org" "h" a) as [[id' b]|] eqn:E2;
    [|vm_compute in E1; injection E1 as <- <-; by vm_compute in E2].
  assert (rtc account_step no_accounts b) as Hr.
  { eapply rtc_l; [by apply (step_register open_policy "ada@example.org" "h" _ id)|]. by eapply rtc_once, (step_register open_policy "bob@example.org" "h" _ id'). }
  exists b. split; [exact Hr|]. split; [exact (first_account_is_admin b Hr)|].
  vm_compute in E1. injection E1 as <- <-. vm_compute in E2. injection E2 as <- <-. by vm_compute.
Defined.

(** Two requests use the same token at the same time: both read it, one resets. *)
Definition sample_token : PasswordResetToken := MkResetToken 1 "h" 100.

Definition after_reset : Accounts := MkAccounts (alter (set_password "new-hash") 1 sample_users) 1 ∅ 2.

Definition sample_resets : Resets :=
  MkResets after_reset {["h" := (1, 100)]} ∅ [("h", MkAttempt 1 sample_token 10)] 10.

Lemma sample_reset_run : rtc reset_step (no_resets sample_users 10) sample_resets.
Proof.
  eapply rtc_l; [apply (reset_issue 1 "h" 100 ∅ (MkAccounts sample_users 1 {[1 := sample_token]} 2)); by vm_compute|].
  eapply rtc_l; [apply (reset_begin 0%nat "h" 1 sample_token); by vm_compute|].
  eapply rtc_l; [apply (reset_begin 1%nat "h" 1 sample_token); by vm_compute|].
  eapply rtc_l; [by apply (reset_end 0%nat (MkAttempt 1 sample_token 10) "new-hash" true true ∅)|].
  eapply rtc_l; [by apply (reset_end 1%nat (MkAttempt 1 sample_token 10) "other-hash" true true ∅)|].
  match goal with |- rtc _ ?x _ => replace x with sample_resets by (by vm_compute) end. apply rtc_refl.
Qed.

Lemma reset_token_once_witness :
  rtc reset_step (no_resets sample_users 10) sample_resets /\ NoDup (succeeded sample_resets).*1.
Proof.
  split; [exact sample_reset_run|]. apply (reset_token_once sample_users 10 sample_resets sample_reset_run).
Defined.

End Passwords.
