(* ===== verification/SigningKey.v ===== *)
(** * The key that signs sessions

    [jwtSigningKey] and [internal/auth/jwt_secret.go]: a configured secret, or
    one that the first process to start writes to the data volume.  Any number
    of processes start at the same time on one volume; a link is made atomically
    and never replaces a file.  The operating system's other answers are errors
    that end the attempt. *)

From S2P Require Import Prelude GoStrings Sessions.
Open Scope Z_scope.
Open Scope magpie_scope.

Module SigningKey.
Import Sessions.

Definition legacyComposeJWTSecret : string := "magpie-local-compose-jwt-secret-2026".

(** [read]: [None] for a missing file, an error for an unusable one. *)
Definition read_secret (file : option string) : option (res unit string) :=
  match file with
  | None => None
  | Some data =>
      let secret := trim_space data in
      Some (if (slen secret <? jwtSecretMinLength)%nat || String.eqb secret legacyComposeJWTSecret then Err tt else Ok secret)
  end.

(** [os.Link] of the temporary file onto the path. *)
Definition link_secret (secret : string) (file : option string) : option string :=
  match file with None => Some (secret +:+ String (chr 10) "") | Some data => Some data end.

(** [jwtSigningKey], given what [loadOrCreateJWTSecret] returns. *)
Definition jwtSigningKey (strict : bool) (env : string) (stored : res unit string) : res unit string :=
  let raw := trim_space env in
  let? raw := if String.eqb raw "" || String.eqb raw legacyComposeJWTSecret then stored else Ok raw in
  if validateJWTSecret strict raw then Ok raw else Err tt.

(** ** Processes on one volume *)

(** A process in [loadOrCreateJWTSecret]: before its first read, before it links
    the secret it made, before its last read, and back. *)
Inductive process := Starting | Linking (secret : string) | Rereading | Returned (key : res unit string).

Definition finish (r : option (res unit string)) : res unit string := match r with Some key => key | None => Err tt end.

Inductive step : option string * gmap nat process -> option string * gmap nat process -> Prop :=
| step_start w file ps : ps !! w = None -> step (file, ps) (file, <[w := Starting]> ps)
| step_found w file ps key :
    ps !! w = Some Starting -> read_secret file = Some key -> step (file, ps) (file, <[w := Returned key]> ps)
| step_missing w file ps secret :
    ps !! w = Some Starting -> read_secret file = None -> step (file, ps) (file, <[w := Linking secret]> ps)
| step_link w file ps secret :
    ps !! w = Some (Linking secret) -> step (file, ps) (link_secret secret file, <[w := Rereading]> ps)
| step_reread w file ps :
    ps !! w = Some Rereading -> step (file, ps) (file, <[w := Returned (finish (read_secret file))]> ps)
(* any other error, or the end of the process *)
| step_error w file ps x : ps !! w = Some x -> step (file, ps) (file, <[w := Returned (Err tt)]> ps)
| step_end w file ps : step (file, ps) (file, delete w ps).

(** Every secret a process took is the one in the file. *)
Definition agreed (st : option string * gmap nat process) : Prop :=
  forall w secret, st.2 !! w = Some (Returned (Ok secret)) -> read_secret st.1 = Some (Ok secret).

Lemma agreed_insert file ps w x : agreed (file, ps) -> (forall s, x = Returned (Ok s) -> read_secret file = Some (Ok s)) ->
  agreed (file, <[w := x]> ps).
Proof. intros I Hx v s. cbn. rewrite lookup_insert. case_decide; [intros [= E]; by apply Hx|apply I]. Qed.

Lemma link_keeps secret file s : read_secret file = Some (Ok s) -> read_secret (link_secret secret file) = Some (Ok s).
Proof. by destruct file. Qed.

Lemma agreed_step a b : agreed a -> step a b -> agreed b.
Proof.
  intros I. destruct 1 as [w file ps|w file ps key Hw Hr|w file ps secret|w file ps secret|w file ps|w file ps x|w file ps].
  - by apply agreed_insert.
  - apply agreed_insert; [done|]. intros s [= ->]. done.
  - by apply agreed_insert.
  - apply agreed_insert; [|done]. intros v s Hs. apply link_keeps. by apply (I v).
  - apply agreed_insert; [done|]. intros s [= E]. unfold finish in E. destruct (read_secret file) as [[k|]|]; by simplify_eq.
  - by apply agreed_insert.
  - intros v s. cbn. intros [_ H]%lookup_delete_Some. by apply (I v).
Qed.

(** Processes that start at the same time on one volume sign with one key. *)
Theorem processes_share_the_key file st w w' secret secret' :
  rtc step (file, ∅) st -> st.2 !! w = Some (Returned (Ok secret)) -> st.2 !! w' = Some (Returned (Ok secret')) -> secret = secret'.
Proof.
  intros Hr Hw Hw'. assert (agreed st) as I.
  { revert Hr. apply (rtc_ind_r agreed); [intros v s; cbn; by rewrite lookup_empty|]. intros y z _ H I. by apply (agreed_step y). }
  pose proof (I w secret Hw). pose proof (I w' secret' Hw'). congruence.
Qed.

(** A key that passes is not the published one, and in strict mode not short. *)
Lemma signing_key_checked strict env stored key :
  jwtSigningKey strict env stored = Ok key -> stored <> Ok legacyComposeJWTSecret ->
  key <> legacyComposeJWTSecret /\ (strict = true -> (jwtSecretMinLength <= slen key)%nat).
Proof.
  unfold jwtSigningKey. intros H Hs. destruct (String.eqb_spec (trim_space env) ""), (String.eqb_spec (trim_space env) legacyComposeJWTSecret);
    cbn in H; try (destruct stored as [k|]; cbn in H; [|done]); (case_match eqn:Ev; [|done]); injection H as <-;
    (split; [congruence|]); intros ->; unfold validateJWTSecret in Ev; cbn in Ev; apply andb_true_iff in Ev as [Ev _];
    apply negb_true_iff, Nat.leb_gt in Ev; unfold jwtSecretMinLength; lia.
Qed.

(** Two processes, both of which found no file. *)
Example two_processes_one_key : exists st,
  rtc step (None, ∅) st /\
  st.2 !! 0%nat = Some (Returned (Ok "0123456789abcdef0123456789abcdef")) /\
  st.2 !! 1%nat = Some (Returned (Ok "0123456789abcdef0123456789abcdef")).
Proof.
  eexists. split.
  - eapply rtc_l; [by apply (step_start 0%nat)|]. eapply rtc_l; [by apply (step_start 1%nat)|].
    eapply rtc_l; [by apply (step_missing 0%nat _ _ "0123456789abcdef0123456789abcdef")|].
    eapply rtc_l; [by apply (step_missing 1%nat _ _ "fedcba9876543210fedcba9876543210")|].
    eapply rtc_l; [by apply (step_link 0%nat _ _ "0123456789abcdef0123456789abcdef")|].
    eapply rtc_l; [by apply (step_link 1%nat _ _ "fedcba9876543210fedcba9876543210")|].
    eapply rtc_l; [by apply (step_reread 0%nat)|]. eapply rtc_l; [by apply (step_reread 1%nat)|]. apply rtc_refl.
  - split; by vm_compute.
Qed.

End SigningKey.
