(* ===== verification/CheckerConfig.v ===== *)
(** * Checker settings and compiled plans

    [internal/domain/checker_settings.go], [internal/api/dto/checker_settings.go]
    and [internal/checkerconfig]: a workspace's default profile and its rules
    for tagged routes, their validation, the plan a route is checked by, and the
    snapshot of a workspace, built whole or patched for the routes that changed.
    The hash of a plan's identity, the quoting of strings in it and the scheme
    of a judge's address are parameters. *)

From S2P Require Import Prelude GoStrings.
From stdpp Require Import sorting.
Open Scope Z_scope.

Module CheckerConfig.

(** ** Settings *)

Record CheckerProfileSettings := MkProfile { Protocols : list string; Transport : string; Timeout : Z; Retries : Z }.

Record TagCheckerRule := MkRule {
  TagID : Z; Mode : string; RuleProtocols : list string;
  RuleTransport : option string; RuleTimeout : option Z; RuleRetries : option Z
}.

Record CheckerSettings := MkSettings { Defaults : CheckerProfileSettings; Rules : list TagCheckerRule; LegacyProtocols : bool }.

Record ProtocolCheckSettings := MkCheck { Enabled : bool; CheckTransport : string; CheckTimeout : Z; CheckRetries : Z }.

Definition CheckerProtocols : list string := ["http"; "https"; "socks4"; "socks5"].

Definition profile_enabled (profile : CheckerProfileSettings) (protocol : string) : bool := bool_decide (protocol ∈ Protocols profile).

Inductive settings_error :=
| TimeoutOutOfRange | UnsupportedTransport (transport : string) | UnsupportedProtocol (protocol : string)
| DuplicateProtocol (protocol : string) | RulesNeedTags | UnknownMode | RemoveHasOverrides | SocksNeedsTCP.

(** ** Validation *)

Definition transport_ok (transport : string) : bool := bool_decide (transport ∈ ["tcp"; "quic"; "http3"]).

Definition validateCheckerTransport (transport : string) : option settings_error :=
  if transport_ok transport then None else Some (UnsupportedTransport transport).

(** The bit of a protocol, zero for an unknown one. *)
Definition protocol_bit (name : string) : Z :=
  match list_find (fun p => p = name) CheckerProtocols with Some (i, _) => Z.shiftl 1 (Z.of_nat i) | None => 0 end.

Fixpoint mask_from (mask : Z) (protocols : list string) : res settings_error Z :=
  match protocols with
  | [] => Ok mask
  | protocol :: rest =>
      let bit := protocol_bit protocol in
      if bit =? 0 then Err (UnsupportedProtocol protocol)
      else if negb (Z.land mask bit =? 0) then Err (DuplicateProtocol protocol)
      else mask_from (Z.lor mask bit) rest
  end.

Definition checkerProtocolMask (protocols : list string) : res settings_error Z := mask_from 0 protocols.

(** The mask alone, zero where there was an error. *)
Definition mask_or_zero (protocols : list string) : Z := match checkerProtocolMask protocols with Ok mask => mask | Err _ => 0 end.

(** A selection of protocols and their transport. *)
Abbreviation selection := (Z * string)%type.

(** What a rule that applies makes of a selection. *)
Definition select (mode : string) (selected : Z) (transport : option string) (st : selection) : selection :=
  let mask := if String.eqb mode "replace" then selected
              else if String.eqb mode "add" then Z.lor st.1 selected
              else if String.eqb mode "remove" then Z.ldiff st.1 selected else st.1 in
  (mask, match transport with Some t => t | None => st.2 end).

Definition mode_ok (mode : string) : bool := bool_decide (mode ∈ ["replace"; "add"; "remove"]).

(** The checks of one rule, and its mask. *)
Definition check_rule (seen : gset Z) (rule : TagCheckerRule) : res settings_error Z :=
  if (TagID rule =? 0) || bool_decide (TagID rule ∈ seen) then Err RulesNeedTags
  else if negb (mode_ok (Mode rule)) then Err UnknownMode
  else
    match checkerProtocolMask (RuleProtocols rule) with
    | Err e => Err e
    | Ok selected =>
        if String.eqb (Mode rule) "remove" && (bool_decide (is_Some (RuleTransport rule)) || bool_decide (is_Some (RuleTimeout rule)) || bool_decide (is_Some (RuleRetries rule)))
        then Err RemoveHasOverrides
        else if bool_decide (RuleTimeout rule = Some 0) then Err TimeoutOutOfRange
        else match RuleTransport rule with
             | Some t => match validateCheckerTransport t with Some e => Err e | None => Ok selected end
             | None => Ok selected
             end
    end.

(** The loop over the rules, from the last: the selections some combination of tags reaches. *)
Fixpoint reachable (seen : gset Z) (states : gset selection) (rules : list TagCheckerRule) : res settings_error (gset selection) :=
  match rules with
  | [] => Ok states
  | rule :: rest =>
      match check_rule seen rule with
      | Err e => Err e
      | Ok selected => reachable ({[TagID rule]} ∪ seen) (states ∪ set_map (select (Mode rule) selected (RuleTransport rule)) states) rest
      end
  end.

(** SOCKS protocols are the bits 12. *)
Definition socks_over_tcp (st : selection) : bool := (Z.land st.1 12 =? 0) || String.eqb st.2 "tcp".

Definition ValidateCheckerSettings (value : CheckerSettings) : option settings_error :=
  let defaults := Defaults value in
  if Timeout defaults =? 0 then Some TimeoutOutOfRange
  else match validateCheckerTransport (Transport defaults) with
  | Some e => Some e
  | None =>
      match checkerProtocolMask (Protocols defaults) with
      | Err e => Some e
      | Ok mask =>
          match reachable ∅ {[(mask, Transport defaults)]} (rev (Rules value)) with
          | Err e => Some e
          | Ok states => if bool_decide (set_Forall (fun st => socks_over_tcp st = true) states) then None else Some SocksNeedsTCP
          end
      end
  end.

(** ** Resolution *)

(** One rule on the mask and the profile. *)
Definition apply_rule (tags : gset Z) (rule : TagCheckerRule) (st : Z * CheckerProfileSettings) : Z * CheckerProfileSettings :=
  let '(mask, profile) := st in
  if negb (bool_decide (TagID rule ∈ tags)) then st
  else
    let selected := mask_or_zero (RuleProtocols rule) in
    if String.eqb (Mode rule) "remove" then (Z.ldiff mask selected, profile)
    else
      let mask := if String.eqb (Mode rule) "replace" then selected else if String.eqb (Mode rule) "add" then Z.lor mask selected else mask in
      (mask,
       MkProfile (Protocols profile) (default (Transport profile) (RuleTransport rule)) (default (Timeout profile) (RuleTimeout rule))
         (default (Retries profile) (RuleRetries rule))).

Definition resolve_rules (tags : gset Z) (rules : list TagCheckerRule) (st : Z * CheckerProfileSettings) : Z * CheckerProfileSettings :=
  foldr (apply_rule tags) st rules.

Definition ResolveCheckerSettings (value : CheckerSettings) (tags : gset Z) : list ProtocolCheckSettings :=
  let '(mask, profile) := resolve_rules tags (Rules value) (mask_or_zero (Protocols (Defaults value)), Defaults value) in
  map (fun i => MkCheck (negb (Z.land mask (Z.shiftl 1 i) =? 0)) (Transport profile) (Timeout profile) (Retries profile)) [0; 1; 2; 3].

(** ** Workspaces *)

(** What [domain.Workspace] says about checks. *)
Record CheckedWorkspace := MkWorkspace {
  ws_id : Z; HTTPProtocol : bool; HTTPSProtocol : bool; SOCKS4Protocol : bool; SOCKS5Protocol : bool;
  ws_timeout : Z; ws_retries : Z; UseHttpsForSocks : bool; TransportProtocol : string; CheckerConfig : option CheckerSettings
}.

Definition over_tcp (value : CheckerSettings) : CheckerSettings :=
  let d := Defaults value in
  MkSettings (MkProfile (Protocols d) "tcp" (Timeout d) (Retries d))
    (map (fun r => MkRule (TagID r) (Mode r) (RuleProtocols r) ((fun _ => "tcp") <$> RuleTransport r) (RuleTimeout r) (RuleRetries r)) (Rules value))
    false.

Definition DefaultCheckerSettings (w : CheckedWorkspace) : CheckerSettings :=
  match CheckerConfig w with
  | Some value =>
      if LegacyProtocols value && bool_decide (is_Some (ValidateCheckerSettings value)) then
        match ValidateCheckerSettings (over_tcp value) with None => over_tcp value | Some _ => value end
      else value
  | None =>
      let enabled := zip CheckerProtocols [HTTPProtocol w; HTTPSProtocol w; SOCKS4Protocol w; SOCKS5Protocol w] in
      MkSettings
        (MkProfile (map fst (List.filter snd enabled)) (if String.eqb (TransportProtocol w) "" then "tcp" else TransportProtocol w) (ws_timeout w) (ws_retries w))
        [] false
  end.

(** ** Plans *)

Record Judge := MkJudge { judge_id : Z; FullString : string }.
Record JudgeWithRegex := MkJudgeRegex { the_judge : Judge; Regex : string }.

Record Plan := MkPlan {
  Settings : list ProtocolCheckSettings; Keys : list string; Judges : list (list JudgeWithRegex); JudgeSets : list Z; Headers : list string
}.

(** [internJudgeSet]: the identity of a list of judges, and the table. *)
Definition internJudgeSet (set : string) (ids : gmap string Z) : Z * gmap string Z :=
  match ids !! set with
  | Some id => (id, ids)
  | None => let id := wrap_u32 (Z.of_nat (size ids) + 1) in (id, <[set := id]> ids)
  end.

Definition judge_set (judges : list JudgeWithRegex) : string := GoStrings.join "," (map (fun j => itoa (judge_id (the_judge j))) judges).

Section Build.
Context (digest quote : string -> string) (GetScheme : Judge -> string).

Definition judge_scheme (useHTTPS : bool) (index : nat) (transport : string) : string :=
  let scheme := if (2 <=? index)%nat then (if useHTTPS then "https" else "http") else nth index CheckerProtocols "" in
  if String.eqb transport "quic" || String.eqb transport "http3" then "https" else scheme.

Definition lower_judge (a b : JudgeWithRegex) : bool := judge_id (the_judge a) <=? judge_id (the_judge b).

Definition judges_for (useHTTPS : bool) (judges : list JudgeWithRegex) (index : nat) (setting : ProtocolCheckSettings) : list JudgeWithRegex :=
  merge_sort (rel_of lower_judge)
    (List.filter (fun j => String.eqb (GetScheme (the_judge j)) (judge_scheme useHTTPS index (CheckTransport setting))) judges).

Definition nul : string := String (chr 0) "".

Definition plan_key (headers : list string) (judges : list JudgeWithRegex) (index : nat) (setting : ProtocolCheckSettings) : string :=
  digest (String.concat nul
    ([nth index CheckerProtocols ""; CheckTransport setting; itoa (CheckTimeout setting); itoa (CheckRetries setting)] ++
     List.concat (map (fun j => [itoa (judge_id (the_judge j)); quote (FullString (the_judge j)); quote (Regex j)]) judges) ++
     map quote headers)).

(** One protocol of a plan: its key, judges and their identity. *)
Definition compile_protocol (useHTTPS : bool) (judges : list JudgeWithRegex) (headers : list string) (index : nat) (setting : ProtocolCheckSettings)
    (ids : gmap string Z) : (string * list JudgeWithRegex * Z) * gmap string Z :=
  if negb (Enabled setting) then (("", [], 0), ids)
  else
    let list := judges_for useHTTPS judges index setting in
    let '(set, ids) := internJudgeSet (judge_set list) ids in
    ((plan_key headers list index setting, list, set), ids).

Fixpoint compile_from (useHTTPS : bool) (judges : list JudgeWithRegex) (headers : list string) (index : nat) (settings : list ProtocolCheckSettings)
    (ids : gmap string Z) : list (string * list JudgeWithRegex * Z) * gmap string Z :=
  match settings with
  | [] => ([], ids)
  | setting :: rest =>
      let '(x, ids) := compile_protocol useHTTPS judges headers index setting ids in
      let '(l, ids) := compile_from useHTTPS judges headers (S index) rest ids in (x :: l, ids)
  end.

Definition compile (useHTTPS : bool) (judges : list JudgeWithRegex) (headers : list string) (resolved : list ProtocolCheckSettings)
    (ids : gmap string Z) : Plan * gmap string Z :=
  let '(l, ids) := compile_from useHTTPS judges headers 0 resolved ids in
  (MkPlan resolved (map (fun x => x.1.1) l) (map (fun x => x.1.2) l) (map snd l) headers, ids).

(** ** Snapshots *)

Record ProxyTagAssignment := MkAssignment { as_workspace : Z; as_proxy : Z; as_tag : Z }.

(** [checkerconfig.Workspace]; the sharded table of overrides is a map. *)
Record Workspace := MkSnapshot { Value : CheckedWorkspace; Default : Plan; Proxies : gmap Z Plan }.

Definition PlanFor (w : Workspace) (proxyID : Z) : Plan := match Proxies w !! proxyID with Some plan => plan | None => Default w end.

Definition by_proxy (a b : ProxyTagAssignment) : bool := as_proxy a <=? as_proxy b.

(** The tags of a group of assignments that rules of the workspace name. *)
Definition rule_tags (settings : CheckerSettings) (workspaceID : Z) (group : list ProxyTagAssignment) : gset Z :=
  list_to_set (map as_tag (List.filter (fun a => (as_workspace a =? workspaceID) && bool_decide (as_tag a ∈ map TagID (Rules settings))) group)).

(** The loop over the sorted assignments, a route at a time. *)
Fixpoint build_overrides (fuel : nat) (settings : CheckerSettings) (value : CheckedWorkspace) (judges : list JudgeWithRegex) (headers : list string)
    (default : Plan) (assignments : list ProxyTagAssignment) (overrides : gmap Z Plan) (ids : gmap string Z) : gmap Z Plan * gmap string Z :=
  match fuel, assignments with
  | S fuel, a :: _ =>
      let group := List.filter (fun b => as_proxy b =? as_proxy a) assignments in
      let rest := List.filter (fun b => negb (as_proxy b =? as_proxy a)) assignments in
      let tags := rule_tags settings (ws_id value) group in
      let '(overrides, ids) :=
        if bool_decide (tags = ∅) then (overrides, ids)
        else
          let '(plan, ids) := compile (UseHttpsForSocks value) judges headers (ResolveCheckerSettings settings tags) ids in
          (if bool_decide (Keys plan = Keys default) then overrides else <[as_proxy a := plan]> overrides, ids) in
      build_overrides fuel settings value judges headers default rest overrides ids
  | _, _ => (overrides, ids)
  end.

(** [Build]: sorting brings the assignments of a route together. *)
Definition Build (value : CheckedWorkspace) (assignments : list ProxyTagAssignment) (judges : list JudgeWithRegex) (headers : list string)
    (ids : gmap string Z) : Workspace * gmap string Z :=
  let settings := DefaultCheckerSettings value in
  let '(default, ids) := compile (UseHttpsForSocks value) judges headers (ResolveCheckerSettings settings ∅) ids in
  let sorted := merge_sort (rel_of by_proxy) assignments in
  let '(overrides, ids) := build_overrides (length sorted) settings value judges headers default sorted ∅ ids in
  (MkSnapshot value default overrides, ids).

End Build.

(** [mergeProxyPlans] and [Merge] *)
Definition merge_plan (patch : gmap Z Plan) (next : gmap Z Plan) (id : Z) : gmap Z Plan :=
  match next !! id, patch !! id with
  | None, None => next
  | Some before, Some after => if bool_decide (Keys before = Keys after) then next else <[id := after]> next
  | Some _, None => delete id next
  | None, Some after => <[id := after]> next
  end.

Definition mergeProxyPlans (previous patch : gmap Z Plan) (ids : list Z) : gmap Z Plan := fold_left (merge_plan patch) ids previous.

Definition Merge (previous patch : Workspace) (ids : list Z) : Workspace :=
  MkSnapshot (Value patch) (Default previous) (mergeProxyPlans (Proxies previous) (Proxies patch) ids).

(** ** Protocol sets *)

(** [selected m p]: the bit of the protocol is set. *)
Definition selected (mask : Z) (protocol : string) : Prop :=
  exists i, CheckerProtocols !! i = Some protocol /\ Z.testbit mask (Z.of_nat i) = true.

Lemma land_shift mask i : 0 <= i -> (Z.land mask (Z.shiftl 1 i) =? 0) = negb (Z.testbit mask i).
Proof.
  intros Hi. rewrite Z.shiftl_1_l. destruct (Z.testbit mask i) eqn:E; simpl.
  - apply Z.eqb_neq. intros H. assert (Z.testbit (Z.land mask (2 ^ i)) i = true) as H'; [|by rewrite H, Z.bits_0 in H'].
    by rewrite Z.land_spec, E, Z.pow2_bits_true.
  - apply Z.eqb_eq, Z.bits_inj'. intros n Hn. rewrite Z.land_spec, Z.bits_0, (Z.pow2_bits_eqb i n Hi).
    destruct (Z.eqb_spec i n) as [->|]; [by rewrite E|by rewrite andb_false_r].
Qed.

Lemma land_socks mask : (Z.land mask 12 =? 0) = negb (Z.testbit mask 2 || Z.testbit mask 3).
Proof.
  destruct (Z.testbit mask 2 || Z.testbit mask 3) eqn:E; simpl.
  - apply Z.eqb_neq. intros H. apply orb_true_iff in E as [E|E].
    + by assert (Z.testbit (Z.land mask 12) 2 = true) as H'; [rewrite Z.land_spec, E|rewrite H in H'].
    + by assert (Z.testbit (Z.land mask 12) 3 = true) as H'; [rewrite Z.land_spec, E|rewrite H in H'].
  - apply orb_false_iff in E as [E2 E3]. apply Z.eqb_eq, Z.bits_inj'. intros n Hn. rewrite Z.land_spec, Z.bits_0.
    destruct (decide (n = 2)) as [->|]; [by rewrite E2|]. destruct (decide (n = 3)) as [->|]; [by rewrite E3|].
    assert (Z.testbit 12 n = false) as ->; [|by rewrite andb_false_r].
    destruct (decide (n = 0)) as [->|]; [done|]. destruct (decide (n = 1)) as [->|]; [done|].
    apply Z.bits_above_log2; [lia|]. change (Z.log2 12) with 3. lia.
Qed.

Lemma CheckerProtocols_inj i j p : CheckerProtocols !! i = Some p -> CheckerProtocols !! j = Some p -> i = j.
Proof. apply NoDup_lookup. by vm_compute; repeat constructor; set_solver. Qed.

Lemma protocol_bit_spec name :
  match list_find (fun p => p = name) CheckerProtocols with
  | Some (i, _) => CheckerProtocols !! i = Some name /\ protocol_bit name = Z.shiftl 1 (Z.of_nat i)
  | None => name ∉ CheckerProtocols /\ protocol_bit name = 0
  end.
Proof.
  unfold protocol_bit. destruct (list_find _ _) as [[i p]|] eqn:E.
  - apply list_find_Some in E as (Hi & -> & _). done.
  - split; [|done]. intros Hin. apply list_find_None in E. rewrite Forall_forall in E. by apply (E name Hin).
Qed.

Lemma selected_zero p : ~ selected 0 p.
Proof. intros (i & _ & H). by rewrite Z.bits_0 in H. Qed.

Lemma selected_lor a b p : selected (Z.lor a b) p <-> selected a p \/ selected b p.
Proof.
  split.
  - intros (i & Hi & H). rewrite Z.lor_spec in H. apply orb_true_iff in H as [H|H]; [left|right]; by exists i.
  - intros [(i & Hi & H)|(i & Hi & H)]; exists i; rewrite Z.lor_spec, H; split; auto using orb_true_r.
Qed.

Lemma selected_ldiff a b p : selected (Z.ldiff a b) p <-> selected a p /\ ~ selected b p.
Proof.
  split.
  - intros (i & Hi & H). rewrite Z.ldiff_spec in H. apply andb_true_iff in H as [H1 H2]. split; [by exists i|].
    intros (j & Hj & H). rewrite (CheckerProtocols_inj j i p Hj Hi) in H. by rewrite H in H2.
  - intros [(i & Hi & H) Hn]. exists i. split; [done|]. rewrite Z.ldiff_spec, H. simpl.
    destruct (Z.testbit b (Z.of_nat i)) eqn:E; [|done]. destruct Hn. by exists i.
Qed.

Lemma selected_bit i p name : CheckerProtocols !! i = Some name -> selected (Z.shiftl 1 (Z.of_nat i)) p <-> p = name.
Proof.
  intros Hi. split.
  - intros (j & Hj & H). rewrite Z.shiftl_1_l, Z.pow2_bits_eqb in H by lia. apply Z.eqb_eq in H. assert (i = j) as <- by lia. congruence.
  - intros ->. exists i. split; [done|]. rewrite Z.shiftl_1_l. apply Z.pow2_bits_true. lia.
Qed.

(** A list the editor accepts: known protocols, each once. *)
Definition protocols_ok (protocols : list string) : Prop := NoDup protocols /\ forall p, p ∈ protocols -> p ∈ CheckerProtocols.

Lemma mask_from_spec protocols mask m :
  mask_from mask protocols = Ok m ->
  NoDup protocols /\ (forall p, p ∈ protocols -> p ∈ CheckerProtocols /\ ~ selected mask p) /\ forall p, selected m p <-> selected mask p \/ p ∈ protocols.
Proof.
  revert mask. induction protocols as [|p ps IH]; intros mask H; simpl in H.
  - simplify_eq. split; [constructor|]. split; set_solver.
  - pose proof (protocol_bit_spec p) as Hp. destruct (list_find _ _) as [[i q]|] eqn:E; [|by destruct Hp as [_ Hp]; rewrite Hp in H].
    destruct Hp as [Hi Hp]. rewrite Hp in *. clear Hp. replace (Z.shiftl 1 (Z.of_nat i) =? 0) with false in H
      by (symmetry; apply Z.eqb_neq; rewrite Z.shiftl_1_l; pose proof (Z.pow_pos_nonneg 2 (Z.of_nat i)); lia).
    rewrite land_shift in H by lia. destruct (Z.testbit mask (Z.of_nat i)) eqn:Eb; simpl in H; [done|].
    destruct (IH _ H) as (Hnd & Hin & Hsel). split; [|split].
    + constructor; [|done]. intros Hp. destruct (Hin p Hp) as [_ Hn]. apply Hn, selected_lor. right. by apply (selected_bit i p p Hi).
    + intros q' [->|Hq]%elem_of_cons.
      * split; [apply list_elem_of_lookup; by exists i|]. intros (j & Hj & Hb). by rewrite (CheckerProtocols_inj j i p Hj Hi), Eb in Hb.
      * destruct (Hin q' Hq) as [? Hn]. split; [done|]. intros Hs. apply Hn, selected_lor. by left.
    + intros q'. rewrite Hsel, selected_lor, (selected_bit i q' p Hi), elem_of_cons. tauto.
Qed.

Lemma mask_from_complete protocols mask :
  protocols_ok protocols -> (forall p, p ∈ protocols -> ~ selected mask p) -> exists m, mask_from mask protocols = Ok m.
Proof.
  revert mask. induction protocols as [|p ps IH]; intros mask [Hnd Hin] Hsel; simpl; [by eexists|].
  apply NoDup_cons in Hnd as [Hp Hnd]. pose proof (protocol_bit_spec p) as Hb. destruct (list_find _ _) as [[i q]|] eqn:E.
  - destruct Hb as [Hi Hb]. rewrite Hb. clear Hb. replace (Z.shiftl 1 (Z.of_nat i) =? 0) with false
      by (symmetry; apply Z.eqb_neq; rewrite Z.shiftl_1_l; pose proof (Z.pow_pos_nonneg 2 (Z.of_nat i)); lia).
    rewrite land_shift by lia. destruct (Z.testbit mask (Z.of_nat i)) eqn:Eb; simpl.
    + destruct (Hsel p ltac:(set_solver)). by exists i.
    + apply IH; [split; set_solver|]. intros q' Hq. rewrite selected_lor, (selected_bit i q' p Hi). intros [Hs| ->]; [|done].
      by apply (Hsel q'); [set_solver|].
  - destruct Hb as [Hb _]. destruct Hb. apply Hin. set_solver.
Qed.

Lemma checkerProtocolMask_ok protocols : (exists m, checkerProtocolMask protocols = Ok m) <-> protocols_ok protocols.
Proof.
  unfold checkerProtocolMask. split.
  - intros [m Hm]. apply mask_from_spec in Hm as (? & Hin & _). split; [done|]. intros p Hp. by apply Hin.
  - intros Hok. apply mask_from_complete; [done|]. intros. apply selected_zero.
Qed.

Lemma selected_mask_or_zero protocols p : protocols_ok protocols -> selected (mask_or_zero protocols) p <-> p ∈ protocols.
Proof.
  intros Hok. apply checkerProtocolMask_ok in Hok as [m Hm]. unfold mask_or_zero. rewrite Hm.
  apply mask_from_spec in Hm as (_ & _ & ->). pose proof (selected_zero p). tauto.
Qed.

(** ** What the validator accepts *)

Definition transports : list string := ["tcp"; "quic"; "http3"].

Definition rule_ok (rule : TagCheckerRule) : Prop :=
  TagID rule <> 0 /\ mode_ok (Mode rule) = true /\ protocols_ok (RuleProtocols rule) /\
  (Mode rule = "remove" -> RuleTransport rule = None /\ RuleTimeout rule = None /\ RuleRetries rule = None) /\
  RuleTimeout rule <> Some 0 /\ (forall t, RuleTransport rule = Some t -> t ∈ transports).

(** The conditions on each field, and one rule a tag. *)
Definition settings_ok (value : CheckerSettings) : Prop :=
  Timeout (Defaults value) <> 0 /\ Transport (Defaults value) ∈ transports /\ protocols_ok (Protocols (Defaults value)) /\
  NoDup (map TagID (Rules value)) /\ Forall rule_ok (Rules value).

(** A route with these tags never has SOCKS checked over anything but TCP. *)
Definition socks_use_tcp (plan : list ProtocolCheckSettings) : Prop :=
  forall i setting, (2 <= i)%nat -> plan !! i = Some setting -> Enabled setting = true -> CheckTransport setting = "tcp".

Lemma validateCheckerTransport_None t : validateCheckerTransport t = None <-> t ∈ transports.
Proof. unfold validateCheckerTransport, transport_ok. by case_bool_decide. Qed.

Lemma check_rule_Ok seen rule m : check_rule seen rule = Ok m <-> TagID rule ∉ seen /\ rule_ok rule /\ m = mask_or_zero (RuleProtocols rule).
Proof.
  unfold check_rule, rule_ok. destruct (Z.eqb_spec (TagID rule) 0) as [H0|H0]; simpl; [split; [done|naive_solver]|].
  case_bool_decide as Hs; simpl; [split; [done|naive_solver]|].
  destruct (mode_ok (Mode rule)) eqn:Em; simpl; [|split; [done|naive_solver]].
  pose proof (checkerProtocolMask_ok (RuleProtocols rule)) as Hok. unfold mask_or_zero.
  destruct (checkerProtocolMask (RuleProtocols rule)) as [m'|e] eqn:Emask; [|split; [done|]; intros (_ & (_ & _ & Hp & _) & _); apply Hok in Hp as [? ?]; done].
  assert (protocols_ok (RuleProtocols rule)) as Hp by (apply Hok; by eexists). clear Hok.
  assert (forall t, t ∈ transports <-> validateCheckerTransport t = None) as Hv by (intros t; by rewrite validateCheckerTransport_None).
  destruct (String.eqb_spec (Mode rule) "remove") as [Er|Er]; simpl.
  - destruct (decide (RuleTransport rule = None /\ RuleTimeout rule = None /\ RuleRetries rule = None)) as [(E1 & E2 & E3)|Hn].
    + rewrite E1, E2, E3. simpl. split; [|by intros (_ & _ & ->)]. intros [= ->]. by split_and!.
    + replace (_ || _) with true; [split; [done|naive_solver]|]. symmetry.
      destruct (RuleTransport rule), (RuleTimeout rule), (RuleRetries rule); try done.
      by destruct Hn.
  - case_bool_decide as Ht; [split; [done|naive_solver]|]. destruct (RuleTransport rule) as [t|] eqn:E1.
    + destruct (validateCheckerTransport t) eqn:Ev.
      * split; [done|]. intros (_ & (_ & _ & _ & _ & _ & H) & _). specialize (H t eq_refl). apply Hv in H. congruence.
      * split; [|naive_solver]. intros [= ->]. split_and!; try done. intros t' [= <-]. by apply Hv.
    + split; [|by intros (_ & _ & ->)]. intros [= ->]. by split_and!.
Qed.

Definition select_under (tags : gset Z) (st : selection) (rule : TagCheckerRule) : selection :=
  if bool_decide (TagID rule ∈ tags) then select (Mode rule) (mask_or_zero (RuleProtocols rule)) (RuleTransport rule) st else st.

Lemma select_in tags st rule : TagID rule ∈ tags -> select_under tags st rule = select (Mode rule) (mask_or_zero (RuleProtocols rule)) (RuleTransport rule) st.
Proof. intros H. unfold select_under. by rewrite bool_decide_eq_true_2. Qed.

Lemma select_out tags st rule : TagID rule ∉ tags -> select_under tags st rule = st.
Proof. intros H. unfold select_under. by rewrite bool_decide_eq_false_2. Qed.

Lemma fold_select_ext tags tags' rules st :
  (forall r, r ∈ rules -> TagID r ∈ tags <-> TagID r ∈ tags') -> fold_left (select_under tags) rules st = fold_left (select_under tags') rules st.
Proof.
  revert st. induction rules as [|r rules IH]; intros st H; [done|]. simpl. rewrite IH by (intros; apply H; set_solver).
  f_equal. unfold select_under.
  specialize (H r ltac:(set_solver)). by rewrite (bool_decide_ext (TagID r ∈ tags) (TagID r ∈ tags') H).
Qed.

Lemma reachable_spec rules seen states states' :
  reachable seen states rules = Ok states' ->
  NoDup (map TagID rules) /\ (forall r, r ∈ rules -> TagID r ∉ seen /\ rule_ok r) /\
  forall st', st' ∈ states' <-> exists st tags, st ∈ states /\ st' = fold_left (select_under tags) rules st.
Proof.
  revert seen states. induction rules as [|r rules IH]; intros seen states H; simpl in H.
  - simplify_eq. split; [constructor|]. split; [set_solver|]. intros st'. split; [intros; by exists st', ∅|]. by intros (st & tags & ? & ->).
  - destruct (check_rule seen r) as [m|] eqn:Er; [|done]. apply check_rule_Ok in Er as (Hs & Hr & ->). apply IH in H as (Hnd & Hrs & Hst).
    split; [|split].
    + simpl. constructor; [|done]. rewrite list_elem_of_fmap. intros (r' & Ht & Hr'). destruct (Hrs r' Hr') as [Hn _]. clear - Hn Ht. set_solver.
    + intros r' [->|Hr']%elem_of_cons; [done|]. destruct (Hrs r' Hr') as [Hn Hok]. split; [|done]. clear - Hn. set_solver.
    + intros st'. rewrite Hst. split.
      * intros (st & tags & Hin & ->). apply elem_of_union in Hin as [Hin|(st0 & -> & Hin)%elem_of_map].
        -- exists st, (tags ∖ {[TagID r]}). split; [done|]. simpl. rewrite select_out by (clear; set_solver).
           apply fold_select_ext. intros r' Hr'. destruct (Hrs r' Hr') as [Hn _]. clear - Hn. set_solver.
        -- exists st0, ({[TagID r]} ∪ tags). split; [done|]. simpl. rewrite select_in by (clear; set_solver).
           apply fold_select_ext. intros r' Hr'. destruct (Hrs r' Hr') as [Hn _]. clear - Hn. set_solver.
      * intros (st & tags & Hin & ->). simpl. eexists _, tags. split; [|done]. apply elem_of_union.
        destruct (decide (TagID r ∈ tags)); [right; rewrite select_in by done; apply elem_of_map; by exists st|left; by rewrite select_out].
Qed.

Lemma reachable_total rules seen states :
  NoDup (map TagID rules) -> (forall r, r ∈ rules -> TagID r ∉ seen /\ rule_ok r) -> exists states', reachable seen states rules = Ok states'.
Proof.
  revert seen states. induction rules as [|r rules IH]; intros seen states Hnd Hrs; simpl; [by eexists|].
  simpl in Hnd. apply NoDup_cons in Hnd as [Hr Hnd]. rewrite list_elem_of_fmap in Hr.
  destruct (check_rule seen r) as [m|e] eqn:Er.
  - apply IH; [done|]. intros r' Hr'. destruct (Hrs r' ltac:(set_solver)) as [Hs Hok]. split; [|done].
    intros [H|?]%elem_of_union; [|done]. apply elem_of_singleton in H. by destruct Hr; exists r'.
  - assert (check_rule seen r = Ok (mask_or_zero (RuleProtocols r))); [|congruence]. apply check_rule_Ok.
    destruct (Hrs r ltac:(set_solver)). done.
Qed.

(** Resolution follows the same selections. *)
Lemma resolve_rules_select tags rules mask profile :
  Forall rule_ok rules ->
  let r := resolve_rules tags rules (mask, profile) in
  (r.1, Transport r.2) = fold_left (select_under tags) (rev rules) (mask, Transport profile).
Proof.
  intros Hok. simpl. unfold resolve_rules. rewrite <- fold_left_rev_right, rev_involutive.
  induction Hok as [|r rules Hr Hrules IH]; [done|]. simpl. destruct (foldr (apply_rule tags) (mask, profile) rules) as [m p].
  simpl in IH. rewrite <- IH. unfold select_under, apply_rule, select. case_bool_decide as Ht; simpl; [|done].
  destruct Hr as (_ & Hmode & _ & Hrem & _). destruct (String.eqb_spec (Mode r) "remove") as [E|E].
  - rewrite E. simpl. by destruct (Hrem E) as [-> _].
  - simpl. by destruct (RuleTransport r), (String.eqb (Mode r) "replace"), (String.eqb (Mode r) "add").
Qed.

Lemma socks_use_tcp_iff value tags :
  Forall rule_ok (Rules value) ->
  socks_use_tcp (ResolveCheckerSettings value tags) <->
  socks_over_tcp (fold_left (select_under tags) (rev (Rules value)) (mask_or_zero (Protocols (Defaults value)), Transport (Defaults value))) = true.
Proof.
  intros Hok. pose proof (resolve_rules_select tags (Rules value) (mask_or_zero (Protocols (Defaults value))) (Defaults value) Hok) as <-.
  unfold ResolveCheckerSettings, socks_over_tcp. destruct (resolve_rules _ _ _) as [m p]. cbn [fst snd]. rewrite land_socks.
  unfold socks_use_tcp. split.
  - intros H. destruct (String.eqb_spec (Transport p) "tcp") as [|Hn]; [apply orb_true_r|].
    destruct (Z.testbit m 2) eqn:E2.
    { destruct Hn. apply (H 2%nat (MkCheck true (Transport p) (Timeout p) (Retries p))); [lia| |done]. cbn. by rewrite land_shift, E2 by lia. }
    destruct (Z.testbit m 3) eqn:E3; [|done].
    destruct Hn. apply (H 3%nat (MkCheck true (Transport p) (Timeout p) (Retries p))); [lia| |done]. cbn. by rewrite land_shift, E3 by lia.
  - intros H i setting Hi Hl He. apply orb_true_iff in H as [H|H].
    + apply negb_true_iff, orb_false_iff in H as [E2 E3]. rewrite list_lookup_fmap in Hl.
      destruct i as [|[|[|[|i]]]]; [lia|lia| | |done]; cbn in Hl; injection Hl as <-; cbn in He; rewrite land_shift in He by lia;
        [by rewrite E2 in He|by rewrite E3 in He].
    + apply String.eqb_eq in H. rewrite list_lookup_fmap in Hl. destruct ([0; 1; 2; 3] !! i) eqn:E; [|done]. injection Hl as <-. done.
Qed.

(** C14. A checker profile is accepted exactly when every field is in range,
    every rule is well formed with a tag of its own, and no combination of tags
    a route can carry resolves to a SOCKS check over a transport other than TCP. *)
Theorem validation_exact value :
  ValidateCheckerSettings value = None <-> settings_ok value /\ forall tags, socks_use_tcp (ResolveCheckerSettings value tags).
Proof.
  unfold ValidateCheckerSettings, settings_ok. destruct (Z.eqb_spec (Timeout (Defaults value)) 0) as [Ht|Ht]; [naive_solver|].
  pose proof (validateCheckerTransport_None (Transport (Defaults value))) as Htr.
  destruct (validateCheckerTransport (Transport (Defaults value))) eqn:Ev; [naive_solver|]. destruct Htr as [Htr _]. specialize (Htr eq_refl).
  pose proof (checkerProtocolMask_ok (Protocols (Defaults value))) as Hp.
  destruct (checkerProtocolMask (Protocols (Defaults value))) as [m|e] eqn:Em; [|naive_solver].
  assert (mask_or_zero (Protocols (Defaults value)) = m) as Hm by (unfold mask_or_zero; by rewrite Em).
  destruct (reachable ∅ _ (rev (Rules value))) as [states|e] eqn:Er.
  - apply reachable_spec in Er as (Hnd & Hrs & Hst). assert (Forall rule_ok (Rules value)) as Hok.
    { apply Forall_forall. intros r Hr. apply Hrs. by apply elem_of_rev. }
    rewrite map_rev in Hnd. assert (NoDup (map TagID (Rules value))) as Hnd' by (rewrite <- (rev_involutive (map TagID (Rules value))); by apply NoDup_rev_iff).
    assert (protocols_ok (Protocols (Defaults value))) by (apply Hp; by eexists). case_bool_decide as Hf; (split; [|done || idtac]).
    + intros _. split; [done|]. intros tags. apply socks_use_tcp_iff; [done|]. apply Hf, Hst. rewrite Hm. eexists _, tags. split; [|done]. set_solver.
    + done.
    + intros [_ H']. destruct Hf. intros st (st0 & tags & Hin & ->)%Hst. apply elem_of_singleton in Hin as ->. rewrite <- Hm.
      by apply socks_use_tcp_iff.
  - split; [done|]. intros [(_ & _ & _ & Hnd & Hok) _].
    destruct (reachable_total (rev (Rules value)) ∅ {[(m, Transport (Defaults value))]}) as [? E]; [| |congruence].
    + rewrite map_rev. by apply NoDup_rev_iff.
    + intros r Hr. rewrite elem_of_rev in Hr. split; [set_solver|]. exact (proj1 (Forall_forall _ _) Hok r Hr).
Qed.

(** ** The keys of a snapshot *)

Section Keys.
Context (digest quote : string -> string) (GetScheme : Judge -> string).

(** The keys a resolution compiles to, whatever was interned before. *)
Definition plan_keys (useHTTPS : bool) (judges : list JudgeWithRegex) (headers : list string) (resolved : list ProtocolCheckSettings) : list string :=
  imap (fun index setting =>
    if Enabled setting then plan_key digest quote headers (judges_for GetScheme useHTTPS judges index setting) index setting else "") resolved.

(** The rule tags of a route. *)
Definition route_tags (settings : CheckerSettings) (workspaceID : Z) (assignments : list ProxyTagAssignment) (id : Z) : gset Z :=
  rule_tags settings workspaceID (List.filter (fun a => as_proxy a =? id) assignments).

Definition route_keys (value : CheckedWorkspace) (assignments : list ProxyTagAssignment) (judges : list JudgeWithRegex) (headers : list string) (id : Z) : list string :=
  let settings := DefaultCheckerSettings value in
  plan_keys (UseHttpsForSocks value) judges headers (ResolveCheckerSettings settings (route_tags settings (ws_id value) assignments id)).

Lemma compile_from_keys useHTTPS judges headers settings index ids :
  map (fun x => x.1.1) (compile_from digest quote GetScheme useHTTPS judges headers index settings ids).1 =
  imap (fun i setting =>
    if Enabled setting then plan_key digest quote headers (judges_for GetScheme useHTTPS judges (index + i) setting) (index + i) setting else "") settings.
Proof.
  revert index ids. induction settings as [|setting settings IH]; intros index ids; [done|]. cbn [compile_from imap].
  destruct (compile_protocol _ _ _ _ _ _ _ _ _) as [x ids1] eqn:Ex. specialize (IH (S index) ids1).
  destruct (compile_from _ _ _ _ _ _ _ _ _) as [l ids2]. simpl in *. rewrite Nat.add_0_r. f_equal.
  - unfold compile_protocol in Ex. destruct (Enabled setting); simpl in Ex; [|by simplify_eq].
    destruct (internJudgeSet _ _) as [set ids3]. by simplify_eq.
  - rewrite IH. apply imap_ext. intros i s _. unfold compose. by rewrite !Nat.add_succ_r.
Qed.

Lemma compile_keys useHTTPS judges headers resolved ids :
  Keys (compile digest quote GetScheme useHTTPS judges headers resolved ids).1 = plan_keys useHTTPS judges headers resolved.
Proof.
  unfold compile. pose proof (compile_from_keys useHTTPS judges headers resolved 0 ids) as H. destruct (compile_from _ _ _ _ _ _ _ _ _) as [l ids'].
  exact H.
Qed.

Lemma filter_filter_out {A} (f g : A -> bool) l : (forall x, f x = true -> g x = true) -> List.filter f (List.filter g l) = List.filter f l.
Proof.
  intros H. induction l as [|x l IH]; [done|]. simpl. destruct (g x) eqn:Eg; simpl; [by rewrite IH|].
  destruct (f x) eqn:Ef; [|done]. by rewrite (H x Ef) in Eg.
Qed.

Lemma filter_bool_length {A} (f : A -> bool) l : (length (List.filter f l) <= length l)%nat.
Proof. induction l as [|x l IH]; simpl; [lia|]. destruct (f x); simpl; lia. Qed.

Definition keys_under (default : Plan) (overrides : gmap Z Plan) (id : Z) : list string :=
  Keys (match overrides !! id with Some plan => plan | None => default end).

Lemma build_overrides_keys fuel settings value judges headers dflt assignments overrides ids id :
  (length assignments <= fuel)%nat ->
  Keys dflt = plan_keys (UseHttpsForSocks value) judges headers (ResolveCheckerSettings settings ∅) ->
  (forall a, a ∈ assignments -> overrides !! as_proxy a = None) ->
  keys_under dflt (build_overrides digest quote GetScheme fuel settings value judges headers dflt assignments overrides ids).1 id =
  if existsb (fun a => as_proxy a =? id) assignments
  then plan_keys (UseHttpsForSocks value) judges headers (ResolveCheckerSettings settings (route_tags settings (ws_id value) assignments id))
  else keys_under dflt overrides id.
Proof.
  intros Hlen Hd. revert assignments overrides ids Hlen. induction fuel as [|fuel IH]; intros assignments overrides ids Hlen Hnew.
  { destruct assignments; [done|simpl in Hlen; lia]. }
  destruct assignments as [|a rest]; [done|]. cbn [build_overrides]. set (all := a :: rest) in *.
  set (tags := rule_tags settings (ws_id value) _). set (others := List.filter (fun b => negb (as_proxy b =? as_proxy a)) all).
  assert (length others <= fuel)%nat as Hothers.
  { unfold others, all. simpl. rewrite Z.eqb_refl. simpl. pose proof (filter_bool_length (fun b => negb (as_proxy b =? as_proxy a)) rest).
    unfold all in Hlen. simpl in Hlen. lia. }
  assert (forall b, b ∈ others -> b ∈ all /\ as_proxy b <> as_proxy a) as Hb.
  { intros b [Hin Hne]%list_elem_of_In%filter_In. apply negb_true_iff, Z.eqb_neq in Hne. by rewrite list_elem_of_In. }
  set (step := if bool_decide (tags = ∅) then _ else _).
  assert (keys_under dflt step.1 (as_proxy a) = plan_keys (UseHttpsForSocks value) judges headers (ResolveCheckerSettings settings tags) /\
          forall j, j <> as_proxy a -> step.1 !! j = overrides !! j) as [Hstep Hsame].
  { unfold step. case_bool_decide as Ht.
    - simpl. unfold keys_under. by rewrite (Hnew a ltac:(unfold all; set_solver)), Ht.
    - pose proof (compile_keys (UseHttpsForSocks value) judges headers (ResolveCheckerSettings settings tags) ids) as Hk.
      destruct (compile _ _ _ _ _ _ _ _) as [plan ids']. simpl in *. case_bool_decide as Hsame.
      + split; [|done]. unfold keys_under. rewrite (Hnew a ltac:(unfold all; set_solver)). congruence.
      + split; [|intros j Hj; by apply lookup_insert_ne]. unfold keys_under. by rewrite lookup_insert_eq. }
  destruct step as [overrides' ids']. simpl in Hstep, Hsame. rewrite IH; [|done|].
  2:{ intros b Hin. destruct (Hb b Hin). rewrite Hsame by done. by apply Hnew. }
  destruct (decide (id = as_proxy a)) as [->|Hid].
  - assert (existsb (fun b => as_proxy b =? as_proxy a) others = false) as ->.
    { apply not_true_iff_false. intros (b & Hin & He)%existsb_exists. apply list_elem_of_In in Hin. destruct (Hb b Hin). by apply Z.eqb_eq in He. }
    unfold all at 1. simpl. by rewrite Z.eqb_refl.
  - assert (existsb (fun b => as_proxy b =? id) others = existsb (fun b => as_proxy b =? id) all) as ->.
    { apply eq_true_iff_eq. rewrite !existsb_exists. split; intros (b & Hin & He).
      - exists b. split; [|done]. apply list_elem_of_In. apply Hb. by apply list_elem_of_In.
      - exists b. split; [|done]. apply filter_In. split; [done|]. apply Z.eqb_eq in He. apply negb_true_iff, Z.eqb_neq. congruence. }
    unfold route_tags. unfold others. rewrite (filter_filter_out (fun b => as_proxy b =? id)).
    2:{ intros b He. apply Z.eqb_eq in He. apply negb_true_iff, Z.eqb_neq. congruence. }
    destruct (existsb _ all); [done|]. unfold keys_under. by rewrite Hsame.
Qed.

Lemma elem_of_route_tags settings ws assignments id t :
  t ∈ route_tags settings ws assignments id <-> t ∈ map TagID (Rules settings) /\ MkAssignment ws id t ∈ assignments.
Proof.
  unfold route_tags, rule_tags. rewrite elem_of_list_to_set, list_elem_of_fmap. split.
  - intros (a & -> & Ha). apply list_elem_of_In, filter_In in Ha as [Ha Hc]. apply filter_In in Ha as [Ha He].
    apply andb_true_iff in Hc as [Hw Ht%bool_decide_eq_true]. apply Z.eqb_eq in Hw, He. destruct a as [w p t]. simpl in *. subst.
    split; [done|]. by apply list_elem_of_In.
  - intros [Ht Ha]. exists (MkAssignment ws id t). split; [done|]. apply list_elem_of_In, filter_In. rewrite filter_In. simpl.
    rewrite !Z.eqb_refl, bool_decide_eq_true_2 by done. by rewrite <- list_elem_of_In.
Qed.

(** The snapshot checks a route as its rule tags resolve. *)
Lemma Build_keys value assignments judges headers ids id :
  Keys (PlanFor (Build digest quote GetScheme value assignments judges headers ids).1 id) = route_keys value assignments judges headers id.
Proof.
  unfold Build, route_keys. set (settings := DefaultCheckerSettings value).
  pose proof (compile_keys (UseHttpsForSocks value) judges headers (ResolveCheckerSettings settings ∅) ids) as Hd.
  destruct (compile _ _ _ _ _ _ _ _) as [dflt ids1]. simpl in Hd. set (sorted := merge_sort _ assignments).
  pose proof (build_overrides_keys (length sorted) settings value judges headers dflt sorted ∅ ids1 id ltac:(lia) Hd ltac:(done)) as H.
  destruct (build_overrides _ _ _ _ _ _ _ _ _ _ _ _) as [overrides ids2]. simpl in *. unfold PlanFor, keys_under in *. simpl. rewrite H.
  assert (route_tags settings (ws_id value) sorted id = route_tags settings (ws_id value) assignments id) as ->.
  { apply set_eq. intros t. rewrite !elem_of_route_tags. unfold sorted. by rewrite merge_sort_Permutation. }
  destruct (existsb _ sorted) eqn:E; [done|]. simpl. rewrite lookup_empty, Hd. do 2 f_equal. symmetry. apply set_eq. intros t. split; [|set_solver].
  intros [_ Ha]%elem_of_route_tags. exfalso. apply not_true_iff_false in E. apply E, existsb_exists. exists (MkAssignment (ws_id value) id t).
  split; [|apply Z.eqb_refl]. apply list_elem_of_In. unfold sorted. by rewrite merge_sort_Permutation.
Qed.

Lemma Build_default value assignments judges headers ids :
  Keys (Default (Build digest quote GetScheme value assignments judges headers ids).1) =
  plan_keys (UseHttpsForSocks value) judges headers (ResolveCheckerSettings (DefaultCheckerSettings value) ∅).
Proof.
  unfold Build. rewrite <- (compile_keys (UseHttpsForSocks value) judges headers _ ids). destruct (compile _ _ _ _ _ _ _ _) as [dflt ids1].
  destruct (build_overrides _ _ _ _ _ _ _ _ _ _ _ _) as [overrides ids2]. done.
Qed.

End Keys.

(** A patch takes the routes it was built for, and leaves the others. *)
Lemma mergeProxyPlans_keys dflt previous patch ids id :
  keys_under dflt (mergeProxyPlans previous patch ids) id = if bool_decide (id ∈ ids) then keys_under dflt patch id else keys_under dflt previous id.
Proof.
  unfold mergeProxyPlans. revert previous. induction ids as [|i ids IH]; intros previous; [done|]. simpl. rewrite IH.
  assert (keys_under dflt (merge_plan patch previous i) id = if bool_decide (id = i) then keys_under dflt patch id else keys_under dflt previous id) as ->.
  { unfold merge_plan, keys_under. destruct (decide (id = i)) as [<-|Hi];
      [rewrite (bool_decide_eq_true_2 (id = id)) by done|rewrite (bool_decide_eq_false_2 (id = i)) by done].
    - destruct (previous !! id) as [b|] eqn:Eb, (patch !! id) as [a|] eqn:Ea;
        [|by rewrite lookup_delete_eq|by rewrite lookup_insert_eq|by rewrite Eb].
      destruct (decide (Keys b = Keys a)); [rewrite bool_decide_eq_true_2, Eb by done; done|]. by rewrite bool_decide_eq_false_2, lookup_insert_eq by done.
    - destruct (previous !! i) as [b|] eqn:Eb, (patch !! i) as [a|] eqn:Ea; [|by rewrite lookup_delete_ne|by rewrite lookup_insert_ne|done].
      destruct (bool_decide (Keys b = Keys a)); [done|]. by rewrite lookup_insert_ne. }
  destruct (decide (id ∈ ids)); [rewrite !bool_decide_eq_true_2 by set_solver; done|]. rewrite (bool_decide_eq_false_2 (id ∈ ids)) by done.
  destruct (decide (id = i)); [by rewrite !bool_decide_eq_true_2 by set_solver|]. by rewrite !bool_decide_eq_false_2 by set_solver.
Qed.

End CheckerConfig.
