(* ===== verification/CheckerPlans.v ===== *)
(** * Checker plans in the database and in every process

    [LoadCheckerWorkspace] and its helpers ([database/checker_settings.go]) with
    the writes that invalidate what it compiled: tags and their assignments
    ([database/database_proxy_tag_handler.go],
    [database/database_scrape_source_tag_handler.go]), settings
    ([database/database_user_handler.go]), deletion of routes and the pruning of
    tombstones; and the snapshots processes keep ([checkerconfig/cache.go]).
    One workspace; every transaction locks its row, so each is one function.
    A process may load, be overtaken, and store later.  Judges that the
    blocklist rejects are filtered by a parameter, and the standard headers are
    fixed: neither bumps a revision. *)

From S2P Require Import Prelude GoStrings CheckerConfig.
From stdpp Require Import sorting.
Open Scope Z_scope.

Module CheckerPlans.
Import CheckerConfig.

#[export] Instance profile_eq_dec : EqDecision CheckerProfileSettings. Proof. solve_decision. Defined.
#[export] Instance rule_eq_dec : EqDecision TagCheckerRule. Proof. solve_decision. Defined.

(** ** The tables of a workspace *)

(** A row of [checker_proxy_changes]. *)
Record CheckerProxyChange := MkChange { Revision : Z; Deleted : bool; UpdatedAt : Z }.

(** The columns of the workspace; [Policy] stands for the failure policy. *)
Record WorkspaceRow := MkRow {
  RowValue : CheckedWorkspace; Policy : string; CheckerDirty : bool; CheckerRevision : Z; CheckerFullRevision : Z;
  CheckerProjectedRevision : Z; CheckerGeneration : Z; DefaultKeys : list string
}.

(** The row, its judges, tags, managed routes with their state, assignments of
    tags (route, tag), changes, and materialized overrides by route and protocol. *)
Record DB := MkDB {
  row : WorkspaceRow; user_judges : list JudgeWithRegex; proxy_tags : gset Z; user_proxies : gmap Z string;
  assignments : gset (Z * Z); changes : gmap Z CheckerProxyChange; plans : gmap (Z * Z) (string * string)
}.

Definition set_row (db : DB) (w : WorkspaceRow) : DB :=
  MkDB w (user_judges db) (proxy_tags db) (user_proxies db) (assignments db) (changes db) (plans db).

Definition set_changes (db : DB) (c : gmap Z CheckerProxyChange) : DB :=
  MkDB (row db) (user_judges db) (proxy_tags db) (user_proxies db) (assignments db) c (plans db).

Definition set_assignments (db : DB) (a : gset (Z * Z)) : DB :=
  MkDB (row db) (user_judges db) (proxy_tags db) (user_proxies db) a (changes db) (plans db).

(** The revision one higher, and dirty. *)
Definition bump (w : WorkspaceRow) : WorkspaceRow :=
  MkRow (RowValue w) (Policy w) true (CheckerRevision w + 1) (CheckerFullRevision w) (CheckerProjectedRevision w) (CheckerGeneration w) (DefaultKeys w).

Definition settings_of (db : DB) : CheckerSettings := DefaultCheckerSettings (RowValue (row db)).

Definition deleteChunkSize : nat := Z.to_nat 5000.

(** [INSERT ... ON CONFLICT DO UPDATE] into the changes, for the given routes. *)
Definition record_changes (revision now : Z) (deleted : bool) (ids : list Z) (c : gmap Z CheckerProxyChange) : gmap Z CheckerProxyChange :=
  fold_left (fun c id => <[id := MkChange revision deleted now]> c) ids c.

Definition is_managed (db : DB) (id : Z) : bool := bool_decide (is_Some (user_proxies db !! id)).

(** ** Tags and assignments *)

Inductive tag_error := ProxyAccessNotFound | ProxyTagNotFound.

Definition markCheckerAssignmentsDirty (now : Z) (tagIDs proxyIDs : list Z) (db : DB) : bool * DB :=
  match tagIDs, proxyIDs with
  | [], _ | _, [] => (false, db)
  | _, _ =>
      if existsb (fun rule => bool_decide (TagID rule ∈ tagIDs)) (Rules (settings_of db)) then
        let w := bump (row db) in
        let record (c : gmap Z CheckerProxyChange) chunk := record_changes (CheckerRevision w) now false (List.filter (is_managed db) chunk) c in
        (true, set_changes (set_row db w) (fold_left record (batches deleteChunkSize proxyIDs) (changes db)))
      else (false, db)
  end.

Definition requireManagedProxies (db : DB) (ids : list Z) : bool := forallb (is_managed db) ids.

Definition requireProxyTags (db : DB) (ids : list Z) : bool :=
  Z.of_nat (size (list_to_set ids ∩ proxy_tags db : gset Z)) =? Z.of_nat (length ids).

(** [normalizeUint64IDs] *)
Definition normalize_ids (values : list Z) : list Z :=
  merge_sort (rel_of Z.leb) (dedup_go [] (List.filter (fun v => negb (v =? 0)) values)).

(** [changedProxyTagIDs]: the tags of one side only. *)
Definition changedProxyTagIDs (before after : gset Z) : list Z := elements ((before ∖ after) ∪ (after ∖ before)).

Definition assign (proxyIDs tagIDs : list Z) : gset (Z * Z) := list_to_set (p ← proxyIDs; t ← tagIDs; [(p, t)]).

Definition tags_of (db : DB) (id : Z) : gset Z := set_map snd (filter (fun a => a.1 = id) (assignments db)).

Definition ReplaceProxyTags (now proxyID : Z) (tagIDs : list Z) (db : DB) : res tag_error DB :=
  let tagIDs := normalize_ids tagIDs in
  if (proxyID =? 0) || negb (requireManagedProxies db [proxyID]) then Err ProxyAccessNotFound
  else if negb (requireProxyTags db tagIDs) then Err ProxyTagNotFound
  else
    let old := tags_of db proxyID in
    let kept := filter (fun a => a.1 <> proxyID) (assignments db) in
    let db' := set_assignments db (assign [proxyID] tagIDs ∪ kept) in
    Ok (markCheckerAssignmentsDirty now (changedProxyTagIDs old (list_to_set tagIDs)) [proxyID] db').2.

Definition AddProxyTagsToProxies (now : Z) (proxyIDs tagIDs : list Z) (db : DB) : res tag_error DB :=
  let proxyIDs := normalize_ids proxyIDs in
  let tagIDs := normalize_ids tagIDs in
  if bool_decide (proxyIDs = []) || bool_decide (tagIDs = []) then Ok db
  else if negb (requireManagedProxies db proxyIDs) then Err ProxyAccessNotFound
  else if negb (requireProxyTags db tagIDs) then Err ProxyTagNotFound
  else Ok (markCheckerAssignmentsDirty now tagIDs proxyIDs (set_assignments db (assign proxyIDs tagIDs ∪ assignments db))).2.

(** [ApplyScrapeSourceTags] in one of its workspaces: [tagIDs] are the tags of
    the source, [fetching] says that the source is fetched in the given mode. *)
Definition ApplyScrapeSourceTags (now : Z) (fetching : bool) (tagIDs proxyIDs : list Z) (db : DB) : DB :=
  let ids := normalize_ids proxyIDs in
  let added := if fetching then assign (List.filter (is_managed db) ids) (List.filter (fun t => bool_decide (t ∈ proxy_tags db)) tagIDs) else ∅ in
  (markCheckerAssignmentsDirty now tagIDs ids (set_assignments db (added ∪ assignments db))).2.

(** [recordCheckerRuleChanges]: every route that carries one of the tags. *)
Definition recordCheckerRuleChanges (revision now : Z) (tagIDs : list Z) (db : DB) : DB :=
  set_changes db (record_changes revision now false (elements (set_map fst (filter (fun a => a.2 ∈ tagIDs) (assignments db)) : gset Z)) (changes db)).

Definition set_value (w : WorkspaceRow) (value : CheckedWorkspace) : WorkspaceRow :=
  MkRow value (Policy w) (CheckerDirty w) (CheckerRevision w) (CheckerFullRevision w) (CheckerProjectedRevision w) (CheckerGeneration w) (DefaultKeys w).

Definition set_dirty (w : WorkspaceRow) : WorkspaceRow :=
  MkRow (RowValue w) (Policy w) true (CheckerRevision w) (CheckerFullRevision w) (CheckerProjectedRevision w) (CheckerGeneration w) (DefaultKeys w).

Definition with_config (v : CheckedWorkspace) (config : option CheckerSettings) : CheckedWorkspace :=
  MkWorkspace (ws_id v) (HTTPProtocol v) (HTTPSProtocol v) (SOCKS4Protocol v) (SOCKS5Protocol v) (ws_timeout v) (ws_retries v) (UseHttpsForSocks v)
    (TransportProtocol v) config.

(** What a profile reads as once it is written: the current format. *)
Definition stored (value : CheckerSettings) : CheckerSettings := MkSettings (Defaults value) (Rules value) false.

Definition DeleteProxyTag (now tagID : Z) (db : DB) : res tag_error DB :=
  if tagID =? 0 then Err ProxyTagNotFound
  else
    let db1 := if existsb (fun rule => TagID rule =? tagID) (Rules (settings_of db))
               then set_row (recordCheckerRuleChanges (CheckerRevision (bump (row db))) now [tagID] db) (bump (row db)) else db in
    if negb (bool_decide (tagID ∈ proxy_tags db)) then Err ProxyTagNotFound
    else
      let db2 := MkDB (row db1) (user_judges db1) (proxy_tags db1 ∖ {[tagID]}) (user_proxies db1) (filter (fun a => a.2 <> tagID) (assignments db1))
                   (changes db1) (plans db1) in
      match CheckerConfig (RowValue (row db2)) with
      | None => Ok db2
      | Some config =>
          let rules := List.filter (fun rule => negb (TagID rule =? tagID)) (Rules config) in
          if (length rules =? length (Rules config))%nat then Ok db2
          else Ok (set_row db2 (set_dirty (set_value (row db2) (with_config (RowValue (row db2)) (Some (stored (MkSettings (Defaults config) rules (LegacyProtocols config))))))))
      end.

(** ** Settings *)

Definition NormalizeTransportProtocol (value : string) : string :=
  let value := to_lower (trim_space value) in
  if bool_decide (value ∈ ["tcp"; "quic"; "http3"]) then value else "tcp".

(** The part of [dto.UserSettings] checks depend on; a field that was not
    provided is [None], and [new_judges] is what the judges of the workspace
    become where they were given. *)
Record UserSettings := MkUserSettings {
  checker_settings : option (option CheckerSettings);
  http_protocol : option bool; https_protocol : option bool; socks4_protocol : option bool; socks5_protocol : option bool;
  new_timeout : option Z; new_retries : option Z; use_https_for_socks : option bool; transport_protocol : option string;
  failure_policy : option string; new_judges : option (list JudgeWithRegex)
}.

Definition given {A} (x : option A) : bool := match x with Some _ => true | None => false end.

Definition ChangesLegacyCheckerDefaults (s : UserSettings) : bool :=
  given (http_protocol s) || given (https_protocol s) || given (socks4_protocol s) || given (socks5_protocol s) || given (new_timeout s) ||
  given (new_retries s) || given (transport_protocol s).

Definition ChangesWorkspaceSettings (s : UserSettings) : bool :=
  given (checker_settings s) || ChangesLegacyCheckerDefaults s || given (use_https_for_socks s) || given (failure_policy s) || given (new_judges s).

(** [changedCheckerRuleTags]: the tags whose rule is not the same at the same place. *)
Fixpoint changed_rules (i : nat) (after : list TagCheckerRule) (old : gmap Z (nat * TagCheckerRule)) : list Z * gmap Z (nat * TagCheckerRule) :=
  match after with
  | [] => ([], old)
  | rule :: rest =>
      let same := bool_decide (old !! TagID rule = Some (i, rule)) in
      let '(ids, old) := changed_rules (S i) rest (delete (TagID rule) old) in
      ((if same then ids else TagID rule :: ids), old)
  end.

Definition changedCheckerRuleTags (before after : list TagCheckerRule) : list Z :=
  let old := fold_left (fun m x => <[TagID x.2 := x]> m) (imap pair before) (∅ : gmap Z (nat * TagCheckerRule)) in
  let '(ids, old) := changed_rules 0 after old in ids ++ map fst (map_to_list old).

Inductive update_error := InvalidSettings (e : settings_error) | UnknownTag.

(** The values a partial save keeps. *)
Definition merged_value (s : UserSettings) (v : CheckedWorkspace) : CheckedWorkspace :=
  MkWorkspace (ws_id v) (default (HTTPProtocol v) (http_protocol s)) (default (HTTPSProtocol v) (https_protocol s))
    (default (SOCKS4Protocol v) (socks4_protocol s)) (default (SOCKS5Protocol v) (socks5_protocol s))
    (default (ws_timeout v) (new_timeout s)) (default (ws_retries v) (new_retries s)) (default (UseHttpsForSocks v) (use_https_for_socks s))
    (NormalizeTransportProtocol (default (TransportProtocol v) (transport_protocol s))) (CheckerConfig v).

(** The profile an older client's fields make of a stored one. *)
Definition legacy_defaults (current merged : CheckedWorkspace) (config : CheckerSettings) : CheckerSettings :=
  let d := Defaults config in
  let enabled := zip CheckerProtocols [HTTPProtocol merged; HTTPSProtocol merged; SOCKS4Protocol merged; SOCKS5Protocol merged] in
  MkSettings
    (MkProfile (map fst (List.filter snd enabled))
       (if String.eqb (TransportProtocol current) (TransportProtocol merged) then Transport d else TransportProtocol merged)
       (if ws_timeout current =? ws_timeout merged then Timeout d else ws_timeout merged)
       (if ws_retries current =? ws_retries merged then Retries d else ws_retries merged))
    (Rules config) (LegacyProtocols config).

(** The value the row gets. *)
Definition updated_value (s : UserSettings) (v : CheckedWorkspace) : res update_error CheckedWorkspace :=
  let merged := merged_value s v in
  match mjoin (checker_settings s) with
  | Some config =>
      let d := Defaults config in
      Ok (MkWorkspace (ws_id v) (profile_enabled d "http") (profile_enabled d "https") (profile_enabled d "socks4") (profile_enabled d "socks5")
            (Timeout d) (Retries d) (UseHttpsForSocks merged) (Transport d) (Some (stored config)))
  | None =>
      if ChangesLegacyCheckerDefaults s && given (CheckerConfig v) then
        let config := legacy_defaults v merged (DefaultCheckerSettings v) in
        match ValidateCheckerSettings config with
        | Some e => Err (InvalidSettings e)
        | None => Ok (with_config merged (Some (stored config)))
        end
      else Ok merged
  end.

(** The settings part of [UpdateWorkspaceSettings]. *)
Definition UpdateWorkspaceSettings (now : Z) (s : UserSettings) (db : DB) : res update_error DB :=
  let config := mjoin (checker_settings s) in
  match (match config with Some c => ValidateCheckerSettings c | None => None end) with
  | Some e => Err (InvalidSettings e)
  | None =>
      if negb (match config with Some c => requireProxyTags db (map TagID (Rules c)) | None => true end) then Err UnknownTag
      else if negb (ChangesWorkspaceSettings s) then Ok db
      else
        let v := RowValue (row db) in
        match updated_value s v with
        | Err e => Err e
        | Ok v' =>
            let before := settings_of db in
            let after := DefaultCheckerSettings v' in
            let revision := CheckerRevision (row db) + 1 in
            let full := negb (bool_decide (Defaults before = Defaults after)) || negb (Bool.eqb (UseHttpsForSocks v) (UseHttpsForSocks v')) || given (new_judges s) in
            let db1 := if full then db else recordCheckerRuleChanges revision now (changedCheckerRuleTags (Rules before) (Rules after)) db in
            let w := row db in
            let w' := MkRow v' (default (Policy w) (failure_policy s)) true revision (if full then revision else CheckerFullRevision w)
                        (CheckerProjectedRevision w) (CheckerGeneration w) (DefaultKeys w) in
            Ok (MkDB w' (default (user_judges db) (new_judges s)) (proxy_tags db1) (user_proxies db1) (assignments db1) (changes db1) (plans db1))
        end
  end.

(** ** Routes *)

(** [deleteManagedRoutes] on Postgres: the routes that have an override or a
    change are recorded before the cascades take their assignments and overrides. *)
Definition deleteManagedRoutes (now : Z) (proxyIDs : list Z) (state : string) (db : DB) : DB :=
  let matching id := match user_proxies db !! id with Some st => String.eqb state "" || String.eqb st state | None => false end in
  let gone := List.filter matching proxyIDs in
  let overridden id := bool_decide (map_Exists (fun k (_ : string * string) => k.1 = id) (plans db)) in
  let affected := List.filter (fun id => overridden id || bool_decide (is_Some (changes db !! id))) gone in
  let db1 := if bool_decide (affected = []) then db
             else set_changes (set_row db (bump (row db))) (record_changes (CheckerRevision (bump (row db))) now true affected (changes db)) in
  MkDB (row db1) (user_judges db1) (proxy_tags db1) (filter (fun p => p.1 ∉ gone) (user_proxies db1)) (filter (fun a => a.1 ∉ gone) (assignments db1))
    (changes db1) (filter (fun p => p.1.1 ∉ gone) (plans db1)).

(** The rows a round of pruning may touch, and those it removes. *)
Definition expired (before : Z) (candidates : list Z) (id : Z) (c : CheckerProxyChange) : bool :=
  bool_decide (id ∈ candidates) && Deleted c && (UpdatedAt c <? before).

Definition removable (before : Z) (candidates : list Z) (db : DB) (id : Z) (c : CheckerProxyChange) : bool :=
  expired before candidates id c && negb (CheckerDirty (row db)) && (Revision c <=? CheckerProjectedRevision (row db)) && negb (is_managed db id).

(** A route that is managed again keeps its row, no longer as a tombstone. *)
Definition restored (before : Z) (candidates : list Z) (db : DB) : gmap Z CheckerProxyChange :=
  map_imap (fun id c => Some (if expired before candidates id c && is_managed db id then MkChange (Revision c) false (UpdatedAt c) else c)) (changes db).

(** [PruneDeletedCheckerRoutes] for the candidates the limit lets through. *)
Definition PruneDeletedCheckerRoutes (before : Z) (candidates : list Z) (db : DB) : DB :=
  let w := row db in
  let removed := filter (fun p => removable before candidates db p.1 p.2 = true) (changes db) in
  let full := map_fold (fun _ c m => Z.max m (Revision c)) (CheckerFullRevision w) removed in
  set_changes
    (set_row db (MkRow (RowValue w) (Policy w) (CheckerDirty w) (CheckerRevision w) full (CheckerProjectedRevision w) (CheckerGeneration w) (DefaultKeys w)))
    (filter (fun p => negb (removable before candidates db p.1 p.2) = true) (restored before candidates db)).

(** A route taken under management, or its state changed. *)
Definition manage (id : Z) (state : string) (db : DB) : DB :=
  MkDB (row db) (user_judges db) (proxy_tags db) (<[id := state]> (user_proxies db)) (assignments db) (changes db) (plans db).

Definition create_tag (tagID : Z) (db : DB) : DB :=
  MkDB (row db) (user_judges db) ({[tagID]} ∪ proxy_tags db) (user_proxies db) (assignments db) (changes db) (plans db).

(** ** Loading *)

Section Load.
Context (digest quote : string -> string) (GetScheme : Judge -> string) (IsWebsiteBlocked : string -> bool) (headers : list string).

(** The judges the loader keeps. *)
Definition usable_judges (db : DB) : list JudgeWithRegex := List.filter (fun j => negb (IsWebsiteBlocked (FullString (the_judge j)))) (user_judges db).

Definition judge_identity (j : JudgeWithRegex) : string :=
  String.concat " " [itoa (judge_id (the_judge j)); quote (FullString (the_judge j)); quote (Regex j)].

(** What [BaseSignature] encodes, and with the rules and the policy [InputSignature]. *)
Abbreviation base_signature := (CheckerProfileSettings * bool * list string * list string)%type.
Abbreviation input_signature := (base_signature * list TagCheckerRule * string)%type.

Definition BaseSignature (value : CheckedWorkspace) (judges : list JudgeWithRegex) : base_signature :=
  (Defaults (DefaultCheckerSettings value), UseHttpsForSocks value, headers, merge_sort (rel_of String.leb) (map judge_identity judges)).

Definition InputSignature (w : WorkspaceRow) (judges : list JudgeWithRegex) : input_signature :=
  (BaseSignature (RowValue w) judges, Rules (DefaultCheckerSettings (RowValue w)), Policy w).

(** A snapshot with the revision and generation of the row it was built from. *)
Record Snapshot := MkSnapshot { compiled : Workspace; snap_revision : Z; Generation : Z; base : base_signature; input : input_signature }.

(** The query for assignments, sorted by route. *)
Definition query_assignments (db : DB) (tagIDs : list Z) (among : option (list Z)) : list ProxyTagAssignment :=
  merge_sort (rel_of by_proxy)
    (map (fun a => MkAssignment (ws_id (RowValue (row db))) a.1 a.2)
       (List.filter (fun a => bool_decide (a.2 ∈ tagIDs) && match among with Some ids => bool_decide (a.1 ∈ ids) | None => true end) (elements (assignments db)))).

Definition loadCheckerAssignments (db : DB) (tagIDs affected : list Z) (incremental : bool) : list ProxyTagAssignment :=
  if bool_decide (tagIDs = []) || (incremental && bool_decide (affected = [])) then []
  else if incremental then List.concat (map (fun chunk => query_assignments db tagIDs (Some chunk)) (batches deleteChunkSize affected))
  else query_assignments db tagIDs None.

Definition key_at (keys : list string) (i : nat) : string := nth i keys "".

Definition transport_at (plan : Plan) (i : nat) : string := CheckTransport (nth i (Settings plan) (MkCheck false "" 0 0)).

(** A materialized row that is not what the snapshot says. *)
Definition row_differs (w : Workspace) (k : Z * Z) (v : string * string) : bool :=
  if (k.2 <? 1) || (4 <? k.2) then true
  else
    let plan := PlanFor w k.1 in
    let i := Z.to_nat (k.2 - 1) in
    String.eqb (key_at (Keys plan) i) (key_at (Keys (Default w)) i) || negb (String.eqb (key_at (Keys plan) i) v.1) || negb (String.eqb (transport_at plan i) v.2).

(** A protocol of an override that has no row. *)
Definition row_missing (db : DB) (w : Workspace) (id : Z) (plan : Plan) : bool :=
  existsb (fun i => negb (String.eqb (key_at (Keys plan) i) (key_at (Keys (Default w)) i)) && bool_decide (plans db !! (id, Z.of_nat i + 1) = None))
    [0%nat; 1%nat; 2%nat; 3%nat].

(** The routes whose rows are to be rewritten. *)
Definition checkerProjectionDelta (db : DB) (w : Workspace) (affected : list Z) (incremental : bool) : gset Z :=
  let considered id := negb incremental || bool_decide (id ∈ affected) in
  let wrong := filter (fun p => considered p.1.1 && row_differs w p.1 p.2 = true) (plans db) in
  let lacking := filter (fun p => considered p.1 && row_missing db w p.1 p.2 = true) (Proxies w) in
  set_map fst (dom wrong) ∪ dom lacking.

(** The rows of an override. *)
Definition plan_rows (w : Workspace) (id : Z) : list ((Z * Z) * (string * string)) :=
  match Proxies w !! id with
  | None => []
  | Some plan =>
      map (fun i => ((id, Z.of_nat i + 1), (key_at (Keys plan) i, transport_at plan i)))
        (List.filter (fun i => negb (String.eqb (key_at (Keys plan) i) (key_at (Keys (Default w)) i))) [0%nat; 1%nat; 2%nat; 3%nat])
  end.

(** One chunk: the rows of its routes are deleted, and those of their overrides inserted. *)
Definition rewrite_chunk (w : Workspace) (rows : gmap (Z * Z) (string * string)) (chunk : list Z) : gmap (Z * Z) (string * string) :=
  list_to_map (List.concat (map (plan_rows w) chunk)) ∪ filter (fun p => p.1.1 ∉ chunk) rows.

(** Nothing changed since the cached snapshot. *)
Definition reusable (db : DB) (p : Snapshot) : bool :=
  let w := row db in
  negb (CheckerDirty w) && (Generation p =? CheckerGeneration w) && (snap_revision p =? CheckerRevision w) &&
  bool_decide (input p = InputSignature w (usable_judges db)).

(** The snapshot an incremental refresh starts from. *)
Definition incremental_from (db : DB) (previous : option Snapshot) : option Snapshot :=
  let w := row db in
  match previous with
  | None => None
  | Some p =>
      if bool_decide (base p = BaseSignature (RowValue w) (usable_judges db)) &&
         (CheckerFullRevision w <=? snap_revision p) && (snap_revision p <=? CheckerRevision w) &&
         negb (CheckerDirty w && (CheckerRevision w <=? CheckerProjectedRevision w)) &&
         negb (negb (Generation p =? CheckerGeneration w) && (snap_revision p =? CheckerRevision w))
      then Some p else None
  end.

(** The routes that changed since then. *)
Definition affected_since (db : DB) (since : option Snapshot) : list Z :=
  match since with
  | Some p => merge_sort (rel_of Z.leb) (elements (dom (filter (fun q => snap_revision p < Revision q.2 <= CheckerRevision (row db)) (changes db))))
  | None => []
  end.

Definition build_snapshot (db : DB) (since : option Snapshot) (ids : gmap string Z) : Workspace * gmap string Z :=
  let affected := affected_since db since in
  let tagIDs := map TagID (Rules (settings_of db)) in
  let '(built, ids) := Build digest quote GetScheme (RowValue (row db)) (loadCheckerAssignments db tagIDs affected (given since)) (usable_judges db) headers ids in
  (match since with Some p => Merge (compiled p) built affected | None => built end, ids).

(** The projection of a snapshot, and the row that goes with it. *)
Definition project (db : DB) (previous since : option Snapshot) (snapshot : Workspace) : Snapshot * DB :=
  let w := row db in
  let seed_base := BaseSignature (RowValue w) (usable_judges db) in
  let seed_input := InputSignature w (usable_judges db) in
  let incremental := given since in
  let keys := Keys (Default snapshot) in
  let defaultChanged := (CheckerGeneration w =? 0) || negb (bool_decide (keys = DefaultKeys w)) in
  let changed := checkerProjectionDelta db snapshot (affected_since db since) incremental in
  let bumped := negb incremental && (CheckerRevision w =? CheckerProjectedRevision w) &&
    (defaultChanged || negb (bool_decide (changed = ∅)) || match previous with Some p => negb (bool_decide (base p = seed_base)) | None => false end) in
  let revision := if bumped then CheckerRevision w + 1 else CheckerRevision w in
  let full := if bumped then CheckerRevision w + 1 else CheckerFullRevision w in
  if negb defaultChanged && bool_decide (changed = ∅) && negb (bumped || CheckerDirty w)
  then (MkSnapshot snapshot revision (CheckerGeneration w) seed_base seed_input, db)
  else
    let generation := CheckerGeneration w + 1 in
    let rows := fold_left (rewrite_chunk snapshot) (batches deleteChunkSize (merge_sort (rel_of Z.leb) (elements changed))) (plans db) in
    (MkSnapshot snapshot revision generation seed_base seed_input,
     MkDB (MkRow (RowValue w) (Policy w) false revision full revision generation keys)
       (user_judges db) (proxy_tags db) (user_proxies db) (assignments db) (changes db) rows).

(** The seed is built for its signatures, and interns its judge sets. *)
Definition LoadCheckerWorkspace (previous : option Snapshot) (ids : gmap string Z) (db : DB) : Snapshot * DB * gmap string Z :=
  let '(_, ids) := Build digest quote GetScheme (RowValue (row db)) [] (usable_judges db) headers ids in
  match (match previous with Some p => if reusable db p then Some p else None | None => None end) with
  | Some p => (p, db, ids)
  | None =>
      let since := incremental_from db previous in
      let '(snapshot, ids) := build_snapshot db since ids in
      (project db previous since snapshot, ids)
  end.

(** [Refresh] stores what it loaded unless a newer snapshot is there. *)
Definition store (w : Snapshot) (cached : option Snapshot) : option Snapshot :=
  match cached with
  | Some p => if Generation p <=? Generation w then Some w else cached
  | None => Some w
  end.

End Load.

End CheckerPlans.
