(* ===== verification/CheckerPlansFacts.v ===== *)
(** * Facts about checker plans

    The invariant of the tables of [CheckerPlans] and of the snapshots built
    from them, preserved by every write, load and store in any order; what a
    load returns, and when a cached snapshot is current. *)

From S2P Require Import Prelude GoStrings CheckerConfig CheckerPlans.
From stdpp Require Import sorting.
Open Scope Z_scope.

Module CheckerPlansFacts.
Import CheckerConfig CheckerPlans.

#[export] Instance settings_eq_dec : EqDecision CheckerSettings. Proof. solve_decision. Defined.

(** ** What a route's plan depends on *)

Definition carried (tags : gset Z) (rules : list TagCheckerRule) : list TagCheckerRule := filter (fun r => TagID r ∈ tags) rules.

Lemma resolve_rules_carried tags rules st :
  resolve_rules tags rules st = foldr (fun r => apply_rule {[TagID r]} r) st (carried tags rules).
Proof.
  unfold resolve_rules, carried. induction rules as [|r rules IH]; [done|]. cbn [foldr]. rewrite filter_cons.
  case_decide as Ht; cbn [foldr]; rewrite <- IH; destruct (foldr (apply_rule tags) st rules) as [m p]; unfold apply_rule.
  - by rewrite !bool_decide_eq_true_2 by set_solver.
  - by rewrite bool_decide_eq_false_2.
Qed.

Lemma resolve_ext v v' tags tags' :
  Defaults v = Defaults v' -> carried tags (Rules v) = carried tags' (Rules v') -> ResolveCheckerSettings v tags = ResolveCheckerSettings v' tags'.
Proof. intros Hd Hc. unfold ResolveCheckerSettings. by rewrite !resolve_rules_carried, Hc, Hd. Qed.

Lemma carried_ext tags tags' rules : (forall r, r ∈ rules -> TagID r ∈ tags <-> TagID r ∈ tags') -> carried tags rules = carried tags' rules.
Proof.
  intros H. unfold carried. induction rules as [|r rules IH]; [done|]. rewrite !filter_cons, IH by (intros; apply H; set_solver).
  specialize (H r ltac:(set_solver)). repeat case_decide; tauto.
Qed.

Lemma carried_none tags rules : (forall r, r ∈ rules -> TagID r ∉ tags) -> carried tags rules = [].
Proof.
  intros H. unfold carried. induction rules as [|r rules IH]; [done|]. rewrite filter_cons, IH by (intros; apply H; set_solver).
  rewrite decide_False; [done|]. apply H. set_solver.
Qed.

(** Rules at the same places carry over. *)
Lemma carried_positions tags rules rules' :
  (forall i r, TagID r ∈ tags -> rules !! i = Some r <-> rules' !! i = Some r) -> carried tags rules = carried tags rules'.
Proof.
  revert rules'. induction rules as [|r rules IH]; intros [|r' rules'] H; [done| | |].
  - rewrite (carried_none _ (_ :: _)); [done|]. intros x [i Hi]%list_elem_of_lookup Hx. by apply (H i x Hx) in Hi.
  - rewrite (carried_none _ (_ :: _)); [done|]. intros x [i Hi]%list_elem_of_lookup Hx. by apply (H i x Hx) in Hi.
  - assert (carried tags rules = carried tags rules') as E by (apply IH; intros i x Hx; exact (H (S i) x Hx)).
    unfold carried in *. rewrite !filter_cons, E. pose proof (H 0%nat r) as H1. pose proof (H 0%nat r') as H2. simpl in H1, H2.
    destruct (decide (TagID r ∈ tags)) as [Hr|Hr].
    { pose proof (proj1 (H1 Hr) eq_refl) as Hx. simplify_eq. by rewrite !decide_True. }
    destruct (decide (TagID r' ∈ tags)) as [Hr'|Hr']; [|done]. pose proof (proj2 (H2 Hr') eq_refl) as Hx. by simplify_eq.
Qed.

Lemma record_changes_lookup revision now deleted ids c id :
  record_changes revision now deleted ids c !! id = if bool_decide (id ∈ ids) then Some (MkChange revision deleted now) else c !! id.
Proof.
  unfold record_changes. revert c. induction ids as [|i ids IH]; intros c; [done|]. simpl. rewrite IH.
  destruct (decide (id ∈ ids)); [rewrite !bool_decide_eq_true_2 by set_solver; done|]. rewrite (bool_decide_eq_false_2 (id ∈ ids)) by done.
  destruct (decide (id = i)) as [->|]; [by rewrite lookup_insert_eq, bool_decide_eq_true_2 by set_solver|].
  by rewrite lookup_insert_ne, bool_decide_eq_false_2 by set_solver.
Qed.

Lemma record_chunks revision now deleted f n ids c :
  (0 < n)%nat ->
  fold_left (fun c chunk => record_changes revision now deleted (List.filter f chunk) c) (batches n ids) c =
  record_changes revision now deleted (List.filter f ids) c.
Proof.
  intros Hn. rewrite <- (concat_batches n ids Hn) at 2. generalize (batches n ids). intros ls. revert c.
  induction ls as [|l ls IH]; intros c; [done|]. simpl. rewrite IH, List.filter_app. unfold record_changes. by rewrite fold_left_app.
Qed.

Lemma elem_of_tags_of db id t : t ∈ tags_of db id <-> (id, t) ∈ assignments db.
Proof.
  unfold tags_of. rewrite elem_of_map. split.
  - intros ([i t'] & -> & H). apply elem_of_filter in H as [Hi H]. simpl in *. by subst.
  - intros H. exists (id, t). split; [done|]. by apply elem_of_filter.
Qed.

Lemma validated_NoDup v : ValidateCheckerSettings v = None -> NoDup (map TagID (Rules v)).
Proof.
  unfold ValidateCheckerSettings. destruct (_ =? 0); [done|]. destruct (validateCheckerTransport _); [done|].
  destruct (checkerProtocolMask _); [|done]. destruct (reachable _ _ _) eqn:E; [|done]. intros _.
  apply reachable_spec in E as (H & _). rewrite map_rev in H. rewrite <- (rev_involutive (map TagID (Rules v))). by apply NoDup_rev_iff.
Qed.

(** ** Rules compared by place *)

Lemma changed_rules_spec i after old ids old' :
  changed_rules i after old = (ids, old') -> NoDup (map TagID after) ->
  (forall t, old' !! t = if bool_decide (t ∈ map TagID after) then None else old !! t) /\
  forall j r, after !! j = Some r -> TagID r ∉ ids -> old !! TagID r = Some ((i + j)%nat, r).
Proof.
  revert i old ids. induction after as [|r after IH]; intros i old ids H Hnd; simpl in H.
  - simplify_eq. split; [done|]. intros j r Hj. done.
  - destruct (changed_rules (S i) after (delete (TagID r) old)) as [ids1 old1] eqn:E. simplify_eq. simpl in Hnd.
    apply NoDup_cons in Hnd as [Hr Hnd]. destruct (IH _ _ _ E Hnd) as [Hold Hids]. split.
    + intros t. rewrite Hold. destruct (decide (t = TagID r)) as [->|Ht].
      * rewrite lookup_delete_eq. simpl. rewrite (bool_decide_eq_true_2 (TagID r ∈ TagID r :: _)) by set_solver. by case_bool_decide.
      * rewrite lookup_delete_ne by done. simpl.
        destruct (decide (t ∈ map TagID after)); [rewrite !bool_decide_eq_true_2 by set_solver|rewrite !bool_decide_eq_false_2 by set_solver]; done.
    + intros [|j] r' Hj Hn; simpl in Hj.
      * simplify_eq. case_bool_decide as Hs; [by rewrite Nat.add_0_r|set_solver].
      * assert (TagID r' ∉ ids1) as Hn' by (case_bool_decide; set_solver). specialize (Hids j r' Hj Hn').
        destruct (decide (TagID r' = TagID r)) as [Eq|Ne].
        -- destruct Hr. rewrite <- Eq. apply list_elem_of_fmap. exists r'. split; [done|]. by apply list_elem_of_lookup_2 with j.
        -- rewrite lookup_delete_ne in Hids by done. rewrite Hids. f_equal. f_equal. lia.
Qed.

Lemma rule_table_lookup n before (m : gmap Z (nat * TagCheckerRule)) t :
  NoDup (map TagID before) -> (forall r, r ∈ before -> m !! TagID r = None) ->
  forall x, fold_left (fun m x => <[TagID x.2 := x]> m) (imap (fun i r => ((n + i)%nat, r)) before) m !! t = Some x <->
       (exists i, before !! i = Some x.2 /\ x.1 = (n + i)%nat /\ t = TagID x.2) \/ m !! t = Some x.
Proof.
  revert n m. induction before as [|r before IH]; intros n m Hnd Hm x; simpl.
  { split; [by right|]. intros [(i & Hi & _)|H]; [done|done]. }
  simpl in Hnd. apply NoDup_cons in Hnd as [Hr Hnd]. rewrite list_elem_of_fmap in Hr.
  rewrite (imap_ext _ (fun i r => ((S n + i)%nat, r))) by (intros; unfold compose; f_equal; lia).
  rewrite IH; [|done|]. 2:{ intros r' Hr'. rewrite lookup_insert_ne by (intros E; apply Hr; by exists r'). apply Hm. set_solver. }
  rewrite Nat.add_0_r. split.
  - intros [(i & Hi & Hx & Ht)|H]; [left; exists (S i); split; [done|]; split; [lia|done]|].
    destruct (decide (t = TagID r)) as [->|Ne]; [|right; by rewrite lookup_insert_ne in H].
    rewrite lookup_insert_eq in H. simplify_eq. left. exists 0%nat. simpl. split; [done|]. split; [lia|done].
  - intros [(i & Hi & Hx & Ht)|H].
    + destruct i as [|i]; simpl in Hi.
      * right. simplify_eq. destruct x as [k x]. simpl in *. subst. rewrite lookup_insert_eq. do 2 f_equal. lia.
      * left. exists i. split; [done|]. split; [lia|done].
    + right. rewrite lookup_insert_ne; [done|]. intros E. subst t. rewrite (Hm r ltac:(set_solver)) in H. done.
Qed.

(** A tag that is not reported has the same rule at the same place. *)
Lemma changedCheckerRuleTags_spec before after i r :
  NoDup (map TagID before) -> NoDup (map TagID after) -> TagID r ∉ changedCheckerRuleTags before after ->
  before !! i = Some r <-> after !! i = Some r.
Proof.
  intros Hb Ha. unfold changedCheckerRuleTags. set (old := fold_left _ _ _).
  assert (forall t x, old !! t = Some x <-> exists i, before !! i = Some x.2 /\ x.1 = i /\ t = TagID x.2) as Hold.
  { intros t x. unfold old. rewrite (imap_ext pair (fun i r => ((0 + i)%nat, r))) by done.
    rewrite (rule_table_lookup 0 before ∅ t Hb) by done. rewrite lookup_empty. naive_solver. }
  destruct (changed_rules 0 after old) as [ids old'] eqn:E. destruct (changed_rules_spec _ _ _ _ _ E Ha) as [Hrest Hids].
  intros [Hn1 Hn2]%not_elem_of_app. split.
  - intros Hi. assert (old !! TagID r = Some (i, r)) as Ho by (apply Hold; by exists i).
    destruct (decide (TagID r ∈ map TagID after)) as [Hin|Hout].
    + apply list_elem_of_fmap in Hin as (r' & Et & [j Hj]%list_elem_of_lookup). rewrite Et in Hn1, Ho.
      specialize (Hids j r' Hj Hn1). rewrite Hids in Ho. by simplify_eq.
    + destruct Hn2. apply list_elem_of_fmap. exists (TagID r, (i, r)). split; [done|]. apply elem_of_map_to_list.
      rewrite Hrest, bool_decide_eq_false_2 by done. done.
  - intros Hi. specialize (Hids i r Hi Hn1). apply Hold in Hids as (j & Hj & Hx & _). simpl in *. by subst.
Qed.

Lemma plan_keys_length digest quote GetScheme useHTTPS judges headers value tags :
  length (plan_keys digest quote GetScheme useHTTPS judges headers (ResolveCheckerSettings value tags)) = 4%nat.
Proof. unfold plan_keys, ResolveCheckerSettings. rewrite length_imap. by destruct (resolve_rules _ _ _). Qed.

Lemma keys_eq (l l' : list string) : length l = 4%nat -> length l' = 4%nat -> (forall i, (i < 4)%nat -> key_at l i = key_at l' i) -> l = l'.
Proof. intros H1 H2 H. apply (nth_ext _ _ "" ""); [congruence|]. intros i Hi. apply H. lia. Qed.

#[local] Opaque DefaultCheckerSettings ValidateCheckerSettings ResolveCheckerSettings plan_keys.

Section Facts.
Context (digest quote : string -> string) (GetScheme : Judge -> string) (IsWebsiteBlocked : string -> bool) (headers : list string).

Notation usable := (usable_judges IsWebsiteBlocked).
Notation from := (incremental_from quote IsWebsiteBlocked headers).
Notation rebuilt := (build_snapshot digest quote GetScheme IsWebsiteBlocked headers).
Notation load := (LoadCheckerWorkspace digest quote GetScheme IsWebsiteBlocked headers).

(** The keys a resolution compiles to under the database's judges and scheme. *)
Definition keys_for (db : DB) (tags : gset Z) : list string :=
  plan_keys digest quote GetScheme (UseHttpsForSocks (RowValue (row db))) (usable db) headers (ResolveCheckerSettings (settings_of db) tags).

(** What a build from the tables as they are now gives every route. *)
Definition current_keys (db : DB) (id : Z) : list string := keys_for db (tags_of db id).

Definition current_default (db : DB) : list string := keys_for db ∅.

(** No change of the route is newer than [r]. *)
Definition fresh (db : DB) (r id : Z) : Prop := forall c, changes db !! id = Some c -> Revision c <= r.

(** The rows of a route with these keys. *)
Definition rows_match (rows : gmap (Z * Z) (string * string)) (id : Z) (keys defaults : list string) : Prop :=
  forall k, fst <$> rows !! (id, k) =
    if (1 <=? k) && (k <=? 4) && negb (String.eqb (key_at keys (Z.to_nat (k - 1))) (key_at defaults (Z.to_nat (k - 1))))
    then Some (key_at keys (Z.to_nat (k - 1))) else None.

(** The rows of a route are exactly its keys that are not the default. *)
Definition materialized (db : DB) (id : Z) : Prop := rows_match (plans db) id (current_keys db id) (current_default db).

(** A stored profile, of either format, has at most one rule per tag. *)
Definition value_ok (v : CheckedWorkspace) : Prop :=
  match CheckerConfig v with Some c => NoDup (map TagID (Rules c)) | None => True end.

Definition config_ok (w : WorkspaceRow) : Prop := value_ok (RowValue w).

Record tables_ok (db : DB) : Prop := MkTablesOk {
  full_le : CheckerFullRevision (row db) <= CheckerRevision (row db);
  projected_le : CheckerProjectedRevision (row db) <= CheckerRevision (row db);
  clean_projected : CheckerDirty (row db) = false -> CheckerProjectedRevision (row db) = CheckerRevision (row db);
  changes_le : forall id, fresh db (CheckerRevision (row db)) id;
  assigned_managed : forall a, a ∈ assignments db -> is_managed db a.1 = true;
  valid_config : config_ok (row db);
  generation_nonneg : 0 <= CheckerGeneration (row db);
  projection_ok : CheckerGeneration (row db) <> 0 -> CheckerFullRevision (row db) <= CheckerProjectedRevision (row db) ->
    DefaultKeys (row db) = current_default db /\ forall id, fresh db (CheckerProjectedRevision (row db)) id -> materialized db id
}.

(** A snapshot is right wherever no full or single change is newer. *)
Record sound (db : DB) (s : Snapshot) : Prop := MkSound {
  revision_le : snap_revision s <= CheckerProjectedRevision (row db);
  generation_pos : 0 < Generation s;
  generation_le : Generation s <= CheckerGeneration (row db);
  same_generation : Generation s = CheckerGeneration (row db) -> snap_revision s = CheckerProjectedRevision (row db);
  snap_default : CheckerFullRevision (row db) <= snap_revision s -> Keys (Default (compiled s)) = current_default db;
  snap_routes : CheckerFullRevision (row db) <= snap_revision s -> forall id, fresh db (snap_revision s) id ->
    Keys (PlanFor (compiled s) id) = current_keys db id
}.

Lemma dec_stable_fresh db r id : ~ ~ fresh db r id -> fresh db r id.
Proof.
  intros H c Hc. apply dec_stable. intros Hn. apply H. intros Hf. apply Hn. by apply Hf.
Qed.

(** What every write keeps for the revisions up to the projected one. *)
Record keeps (db db' : DB) : Prop := MkKeeps {
  keeps_projected : CheckerProjectedRevision (row db') = CheckerProjectedRevision (row db);
  keeps_generation : CheckerGeneration (row db') = CheckerGeneration (row db);
  keeps_keys : DefaultKeys (row db') = DefaultKeys (row db);
  keeps_routes : CheckerGeneration (row db) <> 0 -> forall r, CheckerFullRevision (row db') <= r <= CheckerProjectedRevision (row db) ->
    CheckerFullRevision (row db) <= r /\ current_default db' = current_default db /\
    forall id, fresh db' r id -> fresh db r id /\ current_keys db' id = current_keys db id /\ forall k, plans db' !! (id, k) = plans db !! (id, k)
}.

Lemma keeps_sound db db' s : keeps db db' -> sound db s -> sound db' s.
Proof.
  intros [Hp Hg Hk Hr] [S1 S2 S3 S4 S5 S6]. assert (CheckerGeneration (row db) <> 0) as Hgen by lia.
  constructor; rewrite ?Hp, ?Hg; [done..| |].
  - intros Hfull. destruct (Hr Hgen (snap_revision s) ltac:(lia)) as (Hf & -> & _). by apply S5.
  - intros Hfull id Hid. destruct (Hr Hgen (snap_revision s) ltac:(lia)) as (Hf & _ & Hids).
    destruct (Hids id Hid) as (Hid' & -> & _). by apply S6.
Qed.

Lemma keeps_projection db db' :
  keeps db db' -> tables_ok db -> CheckerGeneration (row db') <> 0 -> CheckerFullRevision (row db') <= CheckerProjectedRevision (row db') ->
  DefaultKeys (row db') = current_default db' /\ forall id, fresh db' (CheckerProjectedRevision (row db')) id -> materialized db' id.
Proof.
  intros [Hp Hg Hk Hr] Hok Hgen Hfull. rewrite Hp, Hg in *. destruct (Hr Hgen (CheckerProjectedRevision (row db)) ltac:(lia)) as (Hf & Hd & Hids).
  destruct (projection_ok db Hok Hgen Hf) as [Hkeys Hmat]. rewrite Hk, Hd. split; [done|]. intros id Hid.
  destruct (Hids id Hid) as (Hid' & Hc & Hrows). intros k. rewrite Hrows, Hc, Hd. by apply Hmat.
Qed.

Lemma keeps_trans db1 db2 db3 :
  CheckerFullRevision (row db1) <= CheckerFullRevision (row db2) <= CheckerFullRevision (row db3) -> keeps db1 db2 -> keeps db2 db3 -> keeps db1 db3.
Proof.
  intros Hf [P1 G1 K1 R1] [P2 G2 K2 R2]. constructor; [congruence..|]. intros Hg r Hr. rewrite G1, P1 in R2.
  destruct (R2 Hg r Hr) as (F2 & D2 & I2). destruct (R1 Hg r ltac:(lia)) as (F1 & D1 & I1). split; [done|]. split; [congruence|].
  intros id Hid. destruct (I2 id Hid) as (Hid' & E2 & P2'). destruct (I1 id Hid') as (Hid'' & E1 & P1').
  split; [done|]. split; [congruence|]. intros k. by rewrite P2'.
Qed.

(** Nothing but rows a snapshot does not depend on. *)
Lemma keys_for_ext db db' tags tags' :
  Defaults (settings_of db) = Defaults (settings_of db') -> UseHttpsForSocks (RowValue (row db)) = UseHttpsForSocks (RowValue (row db')) ->
  user_judges db = user_judges db' -> carried tags (Rules (settings_of db)) = carried tags' (Rules (settings_of db')) ->
  keys_for db tags = keys_for db' tags'.
Proof. intros Hd Hu Hj Hc. unfold keys_for, usable_judges. rewrite Hu, Hj. f_equal. by apply resolve_ext. Qed.

Lemma carried_empty rules : carried ∅ rules = [].
Proof. apply carried_none. set_solver. Qed.

Lemma default_ext db db' :
  Defaults (settings_of db) = Defaults (settings_of db') -> UseHttpsForSocks (RowValue (row db)) = UseHttpsForSocks (RowValue (row db')) ->
  user_judges db = user_judges db' -> current_default db = current_default db'.
Proof. intros. apply keys_for_ext; [assumption..|]. by rewrite !carried_empty. Qed.

(** A write that records the routes whose rules or assignments it changed. *)
Lemma recorded_keeps db db' now deleted ids :
  tables_ok db ->
  CheckerRevision (row db') = CheckerRevision (row db) + 1 -> CheckerFullRevision (row db') = CheckerFullRevision (row db) ->
  CheckerProjectedRevision (row db') = CheckerProjectedRevision (row db) -> CheckerGeneration (row db') = CheckerGeneration (row db) ->
  DefaultKeys (row db') = DefaultKeys (row db) ->
  changes db' = record_changes (CheckerRevision (row db) + 1) now deleted ids (changes db) ->
  Defaults (settings_of db) = Defaults (settings_of db') -> UseHttpsForSocks (RowValue (row db)) = UseHttpsForSocks (RowValue (row db')) ->
  user_judges db = user_judges db' ->
  (forall id, id ∉ ids -> CheckerGeneration (row db) <> 0 -> CheckerFullRevision (row db) <= CheckerProjectedRevision (row db) ->
     current_keys db' id = current_keys db id /\ forall k, plans db' !! (id, k) = plans db !! (id, k)) ->
  keeps db db'.
Proof.
  intros Hok Hrev Hfull Hp Hg Hk Hc Hd Hu Hj Hids. constructor; [done..|]. intros Hgen r Hr. rewrite Hfull in Hr.
  split; [lia|]. split; [symmetry; by apply default_ext|]. intros id Hfresh. pose proof (projected_le db Hok).
  assert (id ∉ ids) as Hid.
  { intros Hin. unfold fresh in Hfresh. rewrite Hc, record_changes_lookup, bool_decide_eq_true_2 in Hfresh by done.
    specialize (Hfresh _ eq_refl). simpl in Hfresh. lia. }
  split; [|by apply Hids; [..|lia]].
  unfold fresh in *. by rewrite Hc, record_changes_lookup, bool_decide_eq_false_2 in Hfresh by done.
Qed.

(** A write that changes no plan. *)
Lemma quiet_keeps db db' :
  row db' = row db -> user_judges db' = user_judges db -> changes db' = changes db -> plans db' = plans db ->
  (forall id, carried (tags_of db id) (Rules (settings_of db)) = carried (tags_of db' id) (Rules (settings_of db))) -> keeps db db'.
Proof.
  intros Hw Hj Hc Hp Hids. assert (settings_of db' = settings_of db) as Hs by (unfold settings_of; by rewrite Hw).
  constructor; rewrite ?Hw; try done. intros Hgen r Hr. split; [lia|].
  split; [apply default_ext; rewrite ?Hs, ?Hw; done|]. intros id Hid. unfold fresh in *. rewrite Hc in Hid.
  split; [done|]. split; [|intros k; by rewrite Hp]. apply keys_for_ext; rewrite ?Hs, ?Hw; [done..|]. symmetry. apply Hids.
Qed.

Lemma tables_ok_step db db' :
  tables_ok db -> keeps db db' ->
  CheckerFullRevision (row db') <= CheckerRevision (row db') -> CheckerProjectedRevision (row db') <= CheckerRevision (row db') ->
  (CheckerDirty (row db') = false -> CheckerProjectedRevision (row db') = CheckerRevision (row db')) ->
  (forall id, fresh db' (CheckerRevision (row db')) id) -> (forall a, a ∈ assignments db' -> is_managed db' a.1 = true) -> config_ok (row db') ->
  tables_ok db'.
Proof.
  intros Hok Hkeep H1 H2 H3 H4 H5 H6. constructor; try assumption; [|exact (keeps_projection db db' Hkeep Hok)].
  rewrite (keeps_generation _ _ Hkeep). by apply generation_nonneg.
Qed.

(** A write leads to good tables and keeps the snapshots. *)
Definition good_write (db db' : DB) : Prop := tables_ok db' /\ keeps db db'.

Lemma quiet_write db db' :
  tables_ok db -> row db' = row db -> user_judges db' = user_judges db -> changes db' = changes db -> plans db' = plans db ->
  (forall a, a ∈ assignments db' -> is_managed db' a.1 = true) ->
  (forall id, carried (tags_of db id) (Rules (settings_of db)) = carried (tags_of db' id) (Rules (settings_of db))) -> good_write db db'.
Proof.
  intros Hok Hw Hj Hc Hp Ha Hids. assert (keeps db db') as Hk by (by apply quiet_keeps). split; [|done].
  apply (tables_ok_step db db' Hok Hk); rewrite ?Hw; [apply full_le|apply projected_le|apply clean_projected| |assumption|apply valid_config]; try assumption.
  intros id. unfold fresh. rewrite Hc. by apply changes_le.
Qed.

(** What the recorded writes do to the row and the changes. *)
Lemma recorded_write db db' now deleted ids :
  tables_ok db ->
  CheckerRevision (row db') = CheckerRevision (row db) + 1 -> CheckerFullRevision (row db') = CheckerFullRevision (row db) ->
  CheckerProjectedRevision (row db') = CheckerProjectedRevision (row db) -> CheckerGeneration (row db') = CheckerGeneration (row db) ->
  DefaultKeys (row db') = DefaultKeys (row db) -> CheckerDirty (row db') = true ->
  changes db' = record_changes (CheckerRevision (row db) + 1) now deleted ids (changes db) ->
  Defaults (settings_of db) = Defaults (settings_of db') -> UseHttpsForSocks (RowValue (row db)) = UseHttpsForSocks (RowValue (row db')) ->
  user_judges db = user_judges db' ->
  (forall id, id ∉ ids -> CheckerGeneration (row db) <> 0 -> CheckerFullRevision (row db) <= CheckerProjectedRevision (row db) ->
     current_keys db' id = current_keys db id /\ forall k, plans db' !! (id, k) = plans db !! (id, k)) ->
  (forall a, a ∈ assignments db' -> is_managed db' a.1 = true) -> config_ok (row db') -> good_write db db'.
Proof.
  intros Hok Hrev Hfull Hp Hg Hk Hdirty Hc Hd Hu Hj Hids Ha Hconf.
  assert (keeps db db') as Hkeep by (by apply (recorded_keeps db db' now deleted ids)). split; [|done].
  pose proof (full_le db Hok). pose proof (projected_le db Hok).
  apply (tables_ok_step db db' Hok Hkeep); [lia|lia|congruence| |assumption|assumption].
  intros id c Hl. rewrite Hc, record_changes_lookup in Hl. rewrite Hrev. case_bool_decide; simplify_eq; simpl; [lia|].
  pose proof (changes_le db Hok id c Hl). lia.
Qed.

Lemma set_assignments_row db a : row (set_assignments db a) = row db. Proof. done. Qed.

Lemma mark_write now tagIDs proxyIDs db a' :
  tables_ok db -> (forall a, a ∈ a' -> is_managed db a.1 = true) ->
  (forall id t, ((id, t) ∈ assignments db <-> (id, t) ∈ a') \/ (id ∈ proxyIDs /\ t ∈ tagIDs)) ->
  good_write db (markCheckerAssignmentsDirty now tagIDs proxyIDs (set_assignments db a')).2.
Proof.
  intros Hok Hman Hdiff.
  assert (forall id, id ∉ proxyIDs \/ is_managed db id = false -> tags_of db id = tags_of (set_assignments db a') id) as Htags.
  { intros id Hid. apply set_eq. intros t. rewrite !elem_of_tags_of. simpl. destruct (Hdiff id t) as [|[Hp Ht]]; [done|].
    destruct Hid as [?|Hm]; [done|]. split; intros Hin.
    - apply (assigned_managed db Hok) in Hin. simpl in Hin. congruence.
    - apply Hman in Hin. simpl in Hin. congruence. }
  destruct (existsb (fun rule => bool_decide (TagID rule ∈ tagIDs)) (Rules (settings_of db))) eqn:Eused.
  2:{ assert ((markCheckerAssignmentsDirty now tagIDs proxyIDs (set_assignments db a')).2 = set_assignments db a') as ->.
      { unfold markCheckerAssignmentsDirty. change (settings_of (set_assignments db a')) with (settings_of db). rewrite Eused. by destruct tagIDs, proxyIDs. }
      apply quiet_write; try done. intros id. apply carried_ext. intros r Hr. rewrite !elem_of_tags_of. simpl.
      destruct (Hdiff id (TagID r)) as [|[_ Ht]]; [done|]. apply not_true_iff_false in Eused. destruct Eused.
      apply existsb_exists. exists r. split; [by apply list_elem_of_In|by apply bool_decide_eq_true]. }
  destruct (decide (tagIDs = [] \/ proxyIDs = [])) as [Hnil|Hnil].
  { assert ((markCheckerAssignmentsDirty now tagIDs proxyIDs (set_assignments db a')).2 = set_assignments db a') as ->.
    { unfold markCheckerAssignmentsDirty. destruct Hnil as [->| ->]; [done|]. by destruct tagIDs. }
    apply quiet_write; try done. intros id. f_equal. apply set_eq. intros t. rewrite !elem_of_tags_of. simpl.
    destruct (Hdiff id t) as [|[Hp Ht]]; [done|]. destruct Hnil; set_solver. }
  assert (markCheckerAssignmentsDirty now tagIDs proxyIDs (set_assignments db a') =
    (true, set_changes (set_row (set_assignments db a') (bump (row db)))
       (record_changes (CheckerRevision (row db) + 1) now false (List.filter (is_managed db) proxyIDs) (changes db)))) as ->.
  { unfold markCheckerAssignmentsDirty. change (settings_of (set_assignments db a')) with (settings_of db). rewrite Eused.
    destruct tagIDs as [|t ts]; [by destruct Hnil; left|]. destruct proxyIDs as [|p ps]; [by destruct Hnil; right|].
    rewrite record_chunks by (unfold deleteChunkSize; lia). done. }
  apply (recorded_write db _ now false (List.filter (is_managed db) proxyIDs)); try done; [|by apply valid_config in Hok].
  intros id Hid _ _. split; [|done]. apply keys_for_ext; try done. simpl.
  assert (tags_of db id = tags_of (set_assignments db a') id) as Ht.
  { apply Htags. destruct (decide (id ∈ proxyIDs)) as [Hp|]; [|by left]. right. apply not_true_iff_false. intros Hm. apply Hid.
    apply list_elem_of_In, filter_In. by rewrite <- list_elem_of_In. }
  change (tags_of (set_changes _ _) id) with (tags_of (set_assignments db a') id). by rewrite Ht.
Qed.

Lemma elem_of_assign ps ts a : a ∈ assign ps ts <-> a.1 ∈ ps /\ a.2 ∈ ts.
Proof.
  unfold assign. rewrite elem_of_list_to_set, list_elem_of_bind. split.
  - intros (p & Ha & Hp). apply list_elem_of_bind in Ha as (t & Ha & Ht). apply list_elem_of_singleton in Ha. by subst.
  - intros [Hp Ht]. exists a.1. split; [|done]. apply list_elem_of_bind. exists a.2. split; [|done]. apply list_elem_of_singleton. by destruct a.
Qed.

Lemma ReplaceProxyTags_write now proxyID tagIDs db db' :
  tables_ok db -> ReplaceProxyTags now proxyID tagIDs db = Ok db' -> good_write db db'.
Proof.
  intros Hok H. unfold ReplaceProxyTags in H. destruct (_ || _) eqn:E1; [done|]. destruct (requireProxyTags _ _); simpl in H; [|done]. simplify_eq.
  apply orb_false_iff in E1 as [_ Hm]. apply negb_false_iff in Hm. simpl in Hm. apply andb_true_iff in Hm as [Hm _].
  set (ts := normalize_ids tagIDs). apply mark_write; [done| |].
  - intros a [[Hp _]%elem_of_assign|Ha]%elem_of_union; [by apply list_elem_of_singleton in Hp; rewrite Hp|].
    apply elem_of_filter in Ha as [_ Ha]. by apply (assigned_managed db Hok).
  - intros id t. destruct (decide (id = proxyID)) as [->|Hne].
    + destruct (decide (t ∈ changedProxyTagIDs (tags_of db proxyID) (list_to_set ts))) as [|Hn]; [right; set_solver|left].
      unfold changedProxyTagIDs in Hn. rewrite elem_of_elements in Hn.
      rewrite elem_of_union, elem_of_assign, elem_of_filter. simpl.
      assert ((proxyID, t) ∈ assignments db <-> t ∈ ts); [|set_solver]. rewrite <- elem_of_tags_of.
      split; intros Hin; apply dec_stable; intros Hout; apply Hn; set_solver.
    + left. rewrite elem_of_union, elem_of_assign, elem_of_filter. simpl. set_solver.
Qed.

Lemma normalize_ids_managed db ids : requireManagedProxies db ids = true -> forall id, id ∈ ids -> is_managed db id = true.
Proof. unfold requireManagedProxies. rewrite forallb_forall. intros H id Hid. apply H. by apply list_elem_of_In. Qed.

Lemma AddProxyTagsToProxies_write now proxyIDs tagIDs db db' :
  tables_ok db -> AddProxyTagsToProxies now proxyIDs tagIDs db = Ok db' -> db' = db \/ good_write db db'.
Proof.
  intros Hok H. unfold AddProxyTagsToProxies in H. destruct (_ || _); [left; congruence|]. right.
  destruct (requireManagedProxies _ _) eqn:Em; simpl in H; [|done]. destruct (requireProxyTags _ _); simpl in H; [|done]. simplify_eq.
  apply mark_write; [done| |].
  - intros a [[Hp _]%elem_of_assign|Ha]%elem_of_union; [by apply (normalize_ids_managed db _ Em)|by apply (assigned_managed db Hok)].
  - intros id t. rewrite elem_of_union, elem_of_assign. simpl.
    destruct (decide (id ∈ normalize_ids proxyIDs /\ t ∈ normalize_ids tagIDs)); [by right|left; tauto].
Qed.

Lemma ApplyScrapeSourceTags_write now fetching tagIDs proxyIDs db :
  tables_ok db -> good_write db (ApplyScrapeSourceTags now fetching tagIDs proxyIDs db).
Proof.
  intros Hok. unfold ApplyScrapeSourceTags. apply mark_write; [done| |].
  - intros a [Ha|Ha]%elem_of_union; [|by apply (assigned_managed db Hok)]. destruct fetching; [|set_solver].
    apply elem_of_assign in Ha as [Ha _]. by apply list_elem_of_In, filter_In in Ha as [_ Ha].
  - intros id t. rewrite elem_of_union. destruct fetching; [|left; set_solver]. rewrite elem_of_assign. simpl.
    rewrite !list_elem_of_In, !filter_In, <- !list_elem_of_In.
    destruct (decide (id ∈ normalize_ids proxyIDs /\ t ∈ tagIDs)); [by right|left; tauto].
Qed.

Lemma manage_write id state db : tables_ok db -> good_write db (manage id state db).
Proof.
  intros Hok. apply quiet_write; try done. intros a Ha. apply (assigned_managed db Hok) in Ha. unfold is_managed in *. simpl.
  apply bool_decide_eq_true in Ha. apply bool_decide_eq_true. rewrite lookup_insert. case_decide; [by eexists|done].
Qed.

Lemma create_tag_write t db : tables_ok db -> good_write db (create_tag t db).
Proof. intros Hok. apply quiet_write; try done. apply (assigned_managed db Hok). Qed.

Lemma DefaultCheckerSettings_current v c : CheckerConfig v = Some c -> LegacyProtocols c = false -> DefaultCheckerSettings v = c.
Proof. intros H Hl. Transparent DefaultCheckerSettings. unfold DefaultCheckerSettings. by rewrite H, Hl. Qed.

(** Reading a profile of the earlier format converts it at most. *)
Lemma DefaultCheckerSettings_tags v c : CheckerConfig v = Some c -> map TagID (Rules (DefaultCheckerSettings v)) = map TagID (Rules c).
Proof.
  intros H. unfold DefaultCheckerSettings. rewrite H. destruct (_ && _); [|done]. destruct (ValidateCheckerSettings (over_tcp c)); [done|].
  unfold over_tcp. simpl. by rewrite map_map.
Qed.

Lemma DefaultCheckerSettings_no_rules v : CheckerConfig v = None -> Rules (DefaultCheckerSettings v) = [].
Proof. intros H. unfold DefaultCheckerSettings. by rewrite H. Qed.

#[local] Opaque DefaultCheckerSettings.

Lemma carried_filter tags tags' t rules :
  (forall x, x <> t -> x ∈ tags <-> x ∈ tags') -> t ∉ tags ->
  carried tags' (List.filter (fun r => negb (TagID r =? t)) rules) = carried tags rules.
Proof.
  intros H Ht. unfold carried. induction rules as [|r rules IH]; [done|]. simpl. destruct (Z.eqb_spec (TagID r) t) as [E|E]; simpl.
  - rewrite filter_cons, decide_False by congruence. done.
  - rewrite !filter_cons, IH. specialize (H (TagID r) E). repeat case_decide; tauto.
Qed.

Lemma filter_all_bool {A} (f : A -> bool) l : (forall x, x ∈ l -> f x = true) -> List.filter f l = l.
Proof. induction l as [|x l IH]; intros H; [done|]. simpl. rewrite H by set_solver. f_equal. apply IH. set_solver. Qed.

Lemma filter_length_eq {A} (f : A -> bool) l : length (List.filter f l) = length l -> forall x, x ∈ l -> f x = true.
Proof.
  induction l as [|x l IH]; simpl; [set_solver|]. destruct (f x) eqn:E; simpl; intros H.
  - intros y [->|Hy]%elem_of_cons; [done|]. apply IH; [lia|done].
  - pose proof (filter_bool_length f l). lia.
Qed.

Lemma elem_of_carriers db (tagIDs : list Z) id :
  id ∈ elements (set_map fst (filter (fun a => a.2 ∈ tagIDs) (assignments db)) : gset Z) <-> exists t, t ∈ tagIDs /\ t ∈ tags_of db id.
Proof.
  rewrite elem_of_elements, elem_of_map. split.
  - intros ([i t] & -> & H). apply elem_of_filter in H as [Ht Ha]. exists t. split; [done|]. by apply elem_of_tags_of.
  - intros (t & Ht & Ha). exists (id, t). split; [done|]. apply elem_of_filter. split; [done|]. by apply elem_of_tags_of.
Qed.

(** The tag has a rule in a profile that is read converted to TCP. *)
Definition rule_of_converted (db : DB) (tagID : Z) : Prop :=
  exists config, CheckerConfig (RowValue (row db)) = Some config /\ settings_of db <> config /\ tagID ∈ map TagID (Rules config).

Lemma DeleteProxyTag_write now tagID db db' :
  tables_ok db -> ~ rule_of_converted db tagID -> DeleteProxyTag now tagID db = Ok db' -> good_write db db'.
Proof.
  intros Hok Hconv H. unfold DeleteProxyTag in H. destruct (_ =? 0); [done|]. set (used := existsb _ _) in H.
  destruct (bool_decide (tagID ∈ proxy_tags db)); simpl in H; [|done]. cbn [row RowValue] in H.
  assert (value_ok (RowValue (row db))) as Hnd by (by apply valid_config). unfold value_ok in Hnd.
  assert (forall x id, x <> tagID -> x ∈ tags_of db id <-> (id, x) ∈ filter (fun a => a.2 <> tagID) (assignments db)) as Htags.
  { intros x id Hx. rewrite elem_of_tags_of, elem_of_filter. simpl. tauto. }
  assert (forall a, a ∈ filter (fun a => a.2 <> tagID) (assignments db) -> is_managed db a.1 = true) as Hman.
  { intros a Ha. apply elem_of_filter in Ha as [_ Ha]. by apply (assigned_managed db Hok). }
  destruct (CheckerConfig (RowValue (row db))) as [config|] eqn:Ec.
  2:{ assert (used = false) as Eu by (unfold used, settings_of; by rewrite DefaultCheckerSettings_no_rules). rewrite Eu in H.
      cbn [row RowValue] in H. rewrite Ec in H. simplify_eq.
      apply quiet_write; try done. intros id. unfold settings_of. by rewrite DefaultCheckerSettings_no_rules. }
  assert (used = true <-> tagID ∈ map TagID (Rules config)) as Hused.
  { unfold used. rewrite existsb_exists, <- (DefaultCheckerSettings_tags _ _ Ec), list_elem_of_fmap. fold (settings_of db).
    split; intros (r & H1 & H2); exists r; rewrite ?list_elem_of_In in *; split; try done; [symmetry; by apply Z.eqb_eq|by apply Z.eqb_eq]. }
  assert (forall db1 : DB, RowValue (row db1) = RowValue (row db) -> CheckerConfig (RowValue (row db1)) = Some config) as Hrow by congruence.
  rewrite (Hrow (if used then _ else db)) in H by (by destruct used). destruct (Nat.eqb_spec (length (List.filter (fun rule => negb (TagID rule =? tagID)) (Rules config))) (length (Rules config))) as [Hlen|Hlen].
  - assert (tagID ∉ map TagID (Rules config)) as Hout.
    { intros (r & -> & Hr)%list_elem_of_fmap. pose proof (filter_length_eq _ _ Hlen r Hr) as Hf. simpl in Hf. by rewrite Z.eqb_refl in Hf. }
    assert (used = false) as Eu by (apply not_true_iff_false; tauto).
    rewrite Eu in H. injection H as <-. apply quiet_write; try done. intros id. apply carried_ext. intros r Hr.
    rewrite (Htags (TagID r) id); [by rewrite elem_of_tags_of|]. intros E. apply Hout. rewrite <- (DefaultCheckerSettings_tags _ _ Ec), list_elem_of_fmap. by exists r.
  - assert (tagID ∈ map TagID (Rules config)) as Hin.
    { apply dec_stable. intros Hout. apply Hlen. f_equal. apply filter_all_bool. intros r Hr. apply negb_true_iff, Z.eqb_neq. intros E.
      apply Hout, list_elem_of_fmap. by exists r. }
    assert (settings_of db = config) as Hs by (apply dec_stable; intros Hne; apply Hconv; by exists config).
    rewrite (proj2 Hused Hin) in H. injection H as <-.
    set (after := stored (MkSettings (Defaults config) (List.filter (fun rule => negb (TagID rule =? tagID)) (Rules config)) (LegacyProtocols config))).
    match goal with |- good_write db ?d => assert (settings_of d = after) as Hs' by (by apply DefaultCheckerSettings_current) end.
    apply (recorded_write db _ now false (elements (set_map fst (filter (fun a => a.2 ∈ [tagID]) (assignments db)) : gset Z))); try done.
    + by rewrite Hs, Hs'.
    + intros id Hid _ _. split; [|done]. rewrite elem_of_carriers in Hid. assert (tagID ∉ tags_of db id) as Ht by (intros ?; apply Hid; exists tagID; set_solver).
      apply keys_for_ext; try done; rewrite Hs, Hs'; [done|]. simpl. apply carried_filter; [|done].
      intros x Hx. rewrite (Htags x id Hx), elem_of_tags_of. done.
    + unfold config_ok, value_ok. simpl. by apply NoDup_map_filter.
Qed.

(** A write that asks for everything to be rebuilt. *)
Lemma full_write db db' :
  tables_ok db ->
  CheckerRevision (row db') = CheckerRevision (row db) + 1 -> CheckerFullRevision (row db') = CheckerRevision (row db) + 1 ->
  CheckerProjectedRevision (row db') = CheckerProjectedRevision (row db) -> CheckerGeneration (row db') = CheckerGeneration (row db) ->
  DefaultKeys (row db') = DefaultKeys (row db) -> CheckerDirty (row db') = true -> changes db' = changes db ->
  (forall a, a ∈ assignments db' -> is_managed db' a.1 = true) -> config_ok (row db') -> good_write db db'.
Proof.
  intros Hok Hrev Hfull Hp Hg Hk Hdirty Hc Ha Hconf. pose proof (projected_le db Hok).
  assert (keeps db db') as Hkeep by (constructor; [done..|]; intros _ r Hr; lia). split; [|done].
  apply (tables_ok_step db db' Hok Hkeep); [lia|lia|congruence| |assumption|assumption].
  intros id c Hl. rewrite Hc in Hl. rewrite Hrev. pose proof (changes_le db Hok id c Hl). lia.
Qed.

Lemma value_rules_NoDup v : value_ok v -> NoDup (map TagID (Rules (DefaultCheckerSettings v))).
Proof.
  unfold value_ok. intros H. destruct (CheckerConfig v) eqn:E; [by rewrite (DefaultCheckerSettings_tags _ _ E)|].
  rewrite DefaultCheckerSettings_no_rules by done. constructor.
Qed.

Lemma settings_rules_NoDup db : config_ok (row db) -> NoDup (map TagID (Rules (settings_of db))).
Proof. apply value_rules_NoDup. Qed.

Lemma updated_value_ok s v v' :
  value_ok v -> (forall c, mjoin (checker_settings s) = Some c -> ValidateCheckerSettings c = None) -> updated_value s v = Ok v' -> value_ok v'.
Proof.
  intros Hv Hs H. unfold updated_value in H. destruct (mjoin (checker_settings s)) as [c|] eqn:Ec.
  - injection H as <-. unfold value_ok. simpl. apply validated_NoDup. by apply Hs.
  - destruct (ChangesLegacyCheckerDefaults s && given (CheckerConfig v)).
    + destruct (ValidateCheckerSettings _) eqn:Ev; [done|]. injection H as <-. unfold value_ok. simpl. exact (validated_NoDup _ Ev).
    + injection H as <-. exact Hv.
Qed.

Lemma UpdateWorkspaceSettings_write now s db db' : tables_ok db -> UpdateWorkspaceSettings now s db = Ok db' -> db' = db \/ good_write db db'.
Proof.
  intros Hok H. unfold UpdateWorkspaceSettings in H.
  destruct (match mjoin (checker_settings s) with Some c => ValidateCheckerSettings c | None => None end) eqn:Ev; [done|].
  destruct (match mjoin (checker_settings s) with Some c => _ | None => true end); simpl in H; [|done].
  destruct (ChangesWorkspaceSettings s); simpl in H; [|left; congruence]. right.
  destruct (updated_value s (RowValue (row db))) as [v'|] eqn:Eu; [|done]. pose proof (valid_config db Hok) as Hconf.
  assert (value_ok v') as Hv'.
  { apply (updated_value_ok s (RowValue (row db)) v' Hconf); [|done]. intros c Hc. by rewrite Hc in Ev. }
  destruct (negb _ || _ || _) eqn:Efull in H; injection H as <-.
  - apply full_write; try done. apply (assigned_managed db Hok).
  - apply orb_false_iff in Efull as [Efull Hj]. apply orb_false_iff in Efull as [Hd Hu].
    apply negb_false_iff, bool_decide_eq_true in Hd. apply negb_false_iff, eqb_prop in Hu.
    assert (default (user_judges db) (new_judges s) = user_judges db) as Hjudges by (by destruct (new_judges s)).
    apply (recorded_write db _ now false
      (elements (set_map fst (filter (fun a => a.2 ∈ changedCheckerRuleTags (Rules (settings_of db)) (Rules (DefaultCheckerSettings v'))) (assignments db)) : gset Z)));
      try assumption; try reflexivity.
    + symmetry. exact Hjudges.
    + intros id Hid _ _. split; [|done]. rewrite elem_of_carriers in Hid. symmetry. apply keys_for_ext; [assumption..|symmetry; exact Hjudges|].
      apply carried_positions. intros i r Hr. apply changedCheckerRuleTags_spec; [by apply settings_rules_NoDup|by apply value_rules_NoDup|].
      intros Hin. apply Hid. by exists (TagID r).
    + apply (assigned_managed db Hok).
Qed.

(** *** Deletion and pruning *)

Lemma deleteManagedRoutes_write now ids state db : tables_ok db -> good_write db (deleteManagedRoutes now ids state db).
Proof.
  intros Hok. unfold deleteManagedRoutes. set (gone := List.filter _ ids). set (affected := List.filter _ gone).
  assert (forall id a, (id, a) ∈ filter (fun a => a.1 ∉ gone) (assignments db) <-> id ∉ gone /\ (id, a) ∈ assignments db) as Hassign
    by (intros; by rewrite elem_of_filter).
  assert (forall db1, (assignments db1 = assignments db) -> (user_proxies db1 = user_proxies db) ->
    forall a, a ∈ filter (fun a => a.1 ∉ gone) (assignments db1) -> bool_decide (is_Some (filter (fun p => p.1 ∉ gone) (user_proxies db1) !! a.1)) = true) as Hman.
  { intros db1 -> -> [id t] [Hn Ha]%Hassign. apply (assigned_managed db Hok) in Ha. unfold is_managed in Ha.
    apply bool_decide_eq_true in Ha as [st Hst]. apply bool_decide_eq_true. exists st. by apply map_lookup_filter_Some. }
  assert (forall id, id ∈ gone -> id ∉ affected -> CheckerGeneration (row db) <> 0 -> CheckerFullRevision (row db) <= CheckerProjectedRevision (row db) ->
    current_keys db id = current_default db /\ forall k, plans db !! (id, k) = None) as Hclean.
  { intros id Hg Hn Hgen Hfull. unfold affected in Hn. rewrite list_elem_of_In, filter_In, <- list_elem_of_In in Hn.
    assert ((bool_decide (map_Exists (λ k (_ : string * string), k.1 = id) (plans db)) || bool_decide (is_Some (changes db !! id))) = false) as Hf
      by (apply not_true_iff_false; intros ?; by apply Hn).
    apply orb_false_iff in Hf as [Hp Hc]. apply bool_decide_eq_false in Hp, Hc.
    assert (forall k, plans db !! (id, k) = None) as Hnone.
    { intros k. apply eq_None_not_Some. intros [v Hv]. apply Hp. exists (id, k), v. done. }
    split; [|done]. destruct (projection_ok db Hok Hgen Hfull) as [_ Hmat].
    assert (fresh db (CheckerProjectedRevision (row db)) id) as Hfr by (intros c Hl; destruct Hc; by eexists).
    specialize (Hmat id Hfr). apply keys_eq; [apply plan_keys_length..|]. intros i Hi. specialize (Hmat (Z.of_nat i + 1)). rewrite Hnone in Hmat. simpl in Hmat.
    replace (Z.to_nat (Z.of_nat i + 1 - 1)) with i in Hmat by lia.
    destruct ((1 <=? Z.of_nat i + 1) && (Z.of_nat i + 1 <=? 4)) eqn:Er; [|lia]. simpl in Hmat.
    destruct (String.eqb_spec (key_at (current_keys db id) i) (key_at (current_default db) i)); [done|]. done. }
  set (db1 := if bool_decide (affected = []) then db else _). set (db' := MkDB _ _ _ _ _ _ _).
  assert (settings_of db' = settings_of db) as Hs by (unfold db', db1; by destruct (bool_decide (affected = []))).
  assert (RowValue (row db') = RowValue (row db)) as Hv by (unfold db', db1; by destruct (bool_decide (affected = []))).
  assert (user_judges db' = user_judges db) as Hj by (unfold db', db1; by destruct (bool_decide (affected = []))).
  assert (assignments db' = filter (fun a => a.1 ∉ gone) (assignments db)) as Ha by (unfold db', db1; by destruct (bool_decide (affected = []))).
  assert (plans db' = filter (fun p => p.1.1 ∉ gone) (plans db)) as Hp by (unfold db', db1; by destruct (bool_decide (affected = []))).
  assert (forall a, a ∈ assignments db' -> is_managed db' a.1 = true) as Hman'.
  { intros a Hin. rewrite Ha in Hin. specialize (Hman db eq_refl eq_refl a Hin). unfold is_managed.
    assert (user_proxies db' = filter (fun p => p.1 ∉ gone) (user_proxies db)) as -> by (unfold db', db1; by destruct (bool_decide (affected = []))). exact Hman. }
  assert (forall id, id ∉ affected -> CheckerGeneration (row db) <> 0 -> CheckerFullRevision (row db) <= CheckerProjectedRevision (row db) ->
    current_keys db' id = current_keys db id /\ forall k, plans db' !! (id, k) = plans db !! (id, k)) as Hsame.
  { intros id Hn Hgen Hfull. destruct (decide (id ∈ gone)) as [Hg|Hg].
    - destruct (Hclean id Hg Hn Hgen Hfull) as [-> Hnone]. split.
      + assert (tags_of db' id = ∅) as Ht by (apply elem_of_equiv_empty_L; intros t; rewrite elem_of_tags_of, Ha, Hassign; tauto).
        unfold current_keys. rewrite Ht. apply keys_for_ext; [by rewrite Hs|by rewrite Hv|exact Hj|by rewrite Hs].
      + intros k. rewrite Hnone, Hp. apply map_lookup_filter_None. left. apply Hnone.
    - split.
      + apply keys_for_ext; [by rewrite Hs|by rewrite Hv|exact Hj|]. rewrite Hs. f_equal. apply set_eq. intros t. rewrite !elem_of_tags_of, Ha, Hassign. tauto.
      + intros k. rewrite Hp. destruct (plans db !! (id, k)) as [v|] eqn:E.
        * apply map_lookup_filter_Some. done.
        * apply map_lookup_filter_None. by left. }
  destruct (decide (affected = [])) as [Hnil|Hnil].
  - assert (row db' = row db /\ changes db' = changes db) as [Hr Hc] by (unfold db', db1; by rewrite bool_decide_eq_true_2).
    assert (keeps db db') as Hkeep.
    { constructor; rewrite ?Hr; try done. intros Hgen r Hrange. split; [lia|]. split; [apply default_ext; [by rewrite Hs|by rewrite Hv|exact Hj]|].
      intros id Hid. split; [unfold fresh in *; by rewrite Hc in Hid|]. apply Hsame; [rewrite Hnil; apply not_elem_of_nil|done|lia]. }
    split; [|done]. apply (tables_ok_step db db' Hok Hkeep); rewrite ?Hr; [apply full_le|apply projected_le|apply clean_projected| |assumption|apply valid_config]; try assumption.
    intros id. unfold fresh. rewrite Hc. by apply changes_le.
  - assert (row db' = bump (row db) /\ changes db' = record_changes (CheckerRevision (row db) + 1) now true affected (changes db)) as [Hr Hc]
      by (unfold db', db1; by rewrite bool_decide_eq_false_2).
    apply (recorded_write db db' now true affected); rewrite ?Hr; try done; [by rewrite Hs|]. by apply valid_config.
Qed.

Lemma removed_full_ge (m : gmap Z CheckerProxyChange) full :
  full <= map_fold (fun _ c m => Z.max m (Revision c)) full m /\ forall id c, m !! id = Some c -> Revision c <= map_fold (fun _ c m => Z.max m (Revision c)) full m.
Proof.
  apply (map_fold_weak_ind (fun r m => full <= r /\ forall id c, m !! id = Some c -> Revision c <= r)); [split; [lia|done]|].
  intros i x m' r Hi [IH1 IH2]. split; [lia|]. intros id c Hl. destruct (decide (id = i)) as [->|Hne].
  - rewrite lookup_insert_eq in Hl. simplify_eq. lia.
  - rewrite lookup_insert_ne in Hl by done. specialize (IH2 id c Hl). lia.
Qed.

Lemma removed_full_le (m : gmap Z CheckerProxyChange) full n :
  full <= n -> (forall id c, m !! id = Some c -> Revision c <= n) -> map_fold (fun _ c m => Z.max m (Revision c)) full m <= n.
Proof.
  intros Hf. apply (map_fold_weak_ind (fun r m => (forall id c, m !! id = Some c -> Revision c <= n) -> r <= n)); [done|].
  intros i x m' r Hi IH H. assert (Revision x <= n) by (apply (H i); by rewrite lookup_insert_eq).
  assert (r <= n); [|lia]. apply IH. intros id c Hl. apply (H id). rewrite lookup_insert_ne; [done|]. intros ->. congruence.
Qed.

Lemma PruneDeletedCheckerRoutes_write before candidates db : tables_ok db -> good_write db (PruneDeletedCheckerRoutes before candidates db).
Proof.
  intros Hok. unfold PruneDeletedCheckerRoutes. set (removed := filter _ (changes db)). set (full := map_fold _ _ removed). set (db' := set_changes _ _).
  destruct (removed_full_ge removed (CheckerFullRevision (row db))) as [Hge Hall]. fold full in Hge, Hall.
  assert (full <= CheckerRevision (row db)) as Hle.
  { apply removed_full_le; [by apply full_le|]. intros id c Hl. apply map_lookup_filter_Some in Hl as [Hl _]. by apply (changes_le db Hok id). }
  assert (forall id r, full <= r -> fresh db' r id -> fresh db r id) as Hfresh.
  { intros id r Hr Hf c Hl. destruct (removable before candidates db id c) eqn:Er.
    - assert (removed !! id = Some c) as Hrem by (by apply map_lookup_filter_Some). specialize (Hall id c Hrem). lia.
    - set (c' := if expired before candidates id c && is_managed db id then MkChange (Revision c) false (UpdatedAt c) else c).
      assert (restored before candidates db !! id = Some c') as Hres by (unfold restored; by rewrite map_lookup_imap, Hl).
      assert (removable before candidates db id c' = false) as Er'.
      { unfold c'. destruct (expired before candidates id c && is_managed db id) eqn:E; [|done]. apply andb_true_iff in E as [_ E].
        unfold removable. rewrite E. simpl. by rewrite !andb_false_r. }
      assert (Revision c' = Revision c) as <- by (unfold c'; by destruct (_ && _)). apply Hf. simpl.
      apply map_lookup_filter_Some. split; [done|]. simpl. by rewrite Er'. }
  assert (keeps db db') as Hkeep.
  { constructor; [done..|]. intros Hgen r Hr. simpl in Hr. split; [lia|]. split; [done|].
    intros id Hid. split; [|done]. apply (Hfresh id r); [lia|done]. }
  split; [|done]. apply (tables_ok_step db db' Hok Hkeep); simpl; [done|exact (projected_le db Hok)|exact (clean_projected db Hok)| |exact (assigned_managed db Hok)|exact (valid_config db Hok)].
  intros id c Hl. simpl in Hl. apply map_lookup_filter_Some in Hl as [Hl _]. unfold restored in Hl. rewrite map_lookup_imap in Hl.
  destruct (changes db !! id) as [c0|] eqn:E; simpl in Hl; [|done]. injection Hl as <-. pose proof (changes_le db Hok id c0 E).
  by destruct (_ && _).
Qed.

(** ** What a load returns *)

Lemma keys_for_length db tags : length (keys_for db tags) = 4%nat.
Proof. apply plan_keys_length. Qed.

Lemma elem_of_query db (tagIDs : list Z) among id t :
  MkAssignment (ws_id (RowValue (row db))) id t ∈ query_assignments db tagIDs among <->
  (id, t) ∈ assignments db /\ t ∈ tagIDs /\ match among with Some ids => id ∈ ids | None => True end.
Proof.
  unfold query_assignments. rewrite merge_sort_Permutation, list_elem_of_fmap. split.
  - intros (a & E & Ha). injection E as -> ->. apply list_elem_of_In, filter_In in Ha as [Ha Hc]. apply list_elem_of_In, elem_of_elements in Ha.
    apply andb_true_iff in Hc as [Ht Hi]. apply bool_decide_eq_true in Ht. destruct a as [i t']. split; [done|]. split; [done|].
    destruct among; [by apply bool_decide_eq_true in Hi|done].
  - intros (Ha & Ht & Hi). exists (id, t). split; [done|]. apply list_elem_of_In, filter_In.
    split; [by apply list_elem_of_In, elem_of_elements|]. simpl. rewrite bool_decide_eq_true_2 by done. simpl.
    destruct among; [by apply bool_decide_eq_true|done].
Qed.

Lemma elem_of_loaded db affected incremental id t :
  (incremental = true -> id ∈ affected) -> t ∈ map TagID (Rules (settings_of db)) ->
  MkAssignment (ws_id (RowValue (row db))) id t ∈ loadCheckerAssignments db (map TagID (Rules (settings_of db))) affected incremental <->
  (id, t) ∈ assignments db.
Proof.
  intros Haff Ht. unfold loadCheckerAssignments. rewrite bool_decide_eq_false_2 by (intros E; rewrite E in Ht; set_solver). simpl.
  destruct incremental; simpl; [|rewrite elem_of_query; tauto]. specialize (Haff eq_refl).
  rewrite bool_decide_eq_false_2 by (intros ->; set_solver). rewrite list_elem_of_In, in_concat. split.
  - intros (l & (chunk & <- & Hc)%in_map_iff & Hin). apply list_elem_of_In, elem_of_query in Hin. tauto.
  - intros Ha. assert (id ∈ concat (batches deleteChunkSize affected)) as Hin by (rewrite concat_batches; [done|unfold deleteChunkSize; lia]).
    apply list_elem_of_In, in_concat in Hin as (chunk & Hc & Hid). exists (query_assignments db (map TagID (Rules (settings_of db))) (Some chunk)).
    split; [apply in_map_iff; by exists chunk|]. apply list_elem_of_In, elem_of_query. split; [done|]. split; [done|]. by apply list_elem_of_In.
Qed.

(** The assignments the loader queries decide a route like all of them. *)
Lemma loaded_keys db affected incremental id :
  (incremental = true -> id ∈ affected) ->
  route_keys digest quote GetScheme (RowValue (row db)) (loadCheckerAssignments db (map TagID (Rules (settings_of db))) affected incremental) (usable db) headers id =
  current_keys db id.
Proof.
  intros Haff. unfold route_keys, current_keys, keys_for. f_equal. apply resolve_ext; [done|]. apply carried_ext. intros r Hr.
  assert (TagID r ∈ map TagID (Rules (settings_of db))) as Ht by (apply list_elem_of_fmap; by exists r).
  rewrite elem_of_route_tags, elem_of_tags_of. change (DefaultCheckerSettings (RowValue (row db))) with (settings_of db).
  rewrite (elem_of_loaded db affected incremental id (TagID r) Haff Ht). tauto.
Qed.

(** ** The rows a load writes *)

Lemma list_to_map_unique {K A} `{Countable K} (l : list (K * A)) k o :
  (forall v, (k, v) ∈ l <-> o = Some v) -> (list_to_map l : gmap K A) !! k = o.
Proof.
  intros H'. destruct ((list_to_map l : gmap K A) !! k) as [v|] eqn:E.
  - apply elem_of_list_to_map_2 in E. symmetry. by apply H'.
  - destruct o as [v|]; [|done]. apply not_elem_of_list_to_map_2 in E. destruct E. apply list_elem_of_fmap. exists (k, v). split; [done|]. by apply H'.
Qed.

(** The row of a route and protocol. *)
Definition row_of (w : Workspace) (k : Z * Z) : option (string * string) :=
  match Proxies w !! k.1 with
  | Some plan =>
      let i := Z.to_nat (k.2 - 1) in
      if (1 <=? k.2) && (k.2 <=? 4) && negb (String.eqb (key_at (Keys plan) i) (key_at (Keys (Default w)) i))
      then Some (key_at (Keys plan) i, transport_at plan i) else None
  | None => None
  end.

Lemma elem_of_plan_rows w id k v : (k, v) ∈ plan_rows w id <-> k.1 = id /\ row_of w k = Some v.
Proof.
  unfold plan_rows, row_of. destruct (Proxies w !! id) as [plan|] eqn:Ep.
  2:{ split; [set_solver|]. intros [<- H]. by rewrite Ep in H. }
  rewrite list_elem_of_fmap. split.
  - intros (i & E & Hi). injection E as -> ->. apply list_elem_of_In, filter_In in Hi as [Hi Hd]. simpl. split; [done|]. rewrite Ep.
    replace (Z.to_nat (Z.of_nat i + 1 - 1)) with i by lia. rewrite Hd.
    assert (i < 4)%nat by (simpl in Hi; lia). replace (1 <=? Z.of_nat i + 1) with true by lia. by replace (Z.of_nat i + 1 <=? 4) with true by lia.
  - intros [<- H]. rewrite Ep in H. destruct k as [id k]. cbn [fst snd] in *. destruct (_ && _) eqn:Ec in H; [|done]. injection H as <-.
    apply andb_true_iff in Ec as [Ek Ed]. apply andb_true_iff in Ek as [E1 E2]. apply Z.leb_le in E1, E2.
    exists (Z.to_nat (k - 1)). split; [by replace (Z.of_nat (Z.to_nat (k - 1)) + 1) with k by lia|]. apply list_elem_of_In, filter_In. split; [|done].
    assert (Z.to_nat (k - 1) < 4)%nat as Hlt by lia. destruct (Z.to_nat (k - 1)) as [|[|[|[|]]]]; simpl; [tauto..|lia].
Qed.

Lemma rewrite_chunk_lookup w rows chunk k :
  rewrite_chunk w rows chunk !! k = if bool_decide (k.1 ∈ chunk) then row_of w k else rows !! k.
Proof.
  unfold rewrite_chunk. assert ((list_to_map (List.concat (map (plan_rows w) chunk)) : gmap (Z * Z) (string * string)) !! k =
    if bool_decide (k.1 ∈ chunk) then row_of w k else None) as Hl.
  { apply list_to_map_unique. intros v. rewrite list_elem_of_In, in_concat. split.
    - intros (l & (id & <- & Hid)%in_map_iff & Hv). apply list_elem_of_In, elem_of_plan_rows in Hv as [<- Hv].
      by rewrite bool_decide_eq_true_2 by by apply list_elem_of_In.
    - intros Hv. case_bool_decide as Hid; [|done]. exists (plan_rows w k.1). split; [apply in_map; by apply list_elem_of_In|].
      apply list_elem_of_In, elem_of_plan_rows. done. }
  rewrite lookup_union, Hl. destruct (decide (k.1 ∈ chunk)) as [Hin|Hout].
  - rewrite bool_decide_eq_true_2 by done. assert (filter (fun p : Z * Z * (string * string) => p.1.1 ∉ chunk) rows !! k = None) as ->.
    { apply map_lookup_filter_None. right. intros v _. simpl. tauto. }
    by destruct (row_of w k).
  - rewrite bool_decide_eq_false_2 by done. assert (filter (fun p : Z * Z * (string * string) => p.1.1 ∉ chunk) rows !! k = rows !! k) as ->; [|by destruct (rows !! k)].
    destruct (rows !! k) as [v|] eqn:E; [by apply map_lookup_filter_Some|apply map_lookup_filter_None; by left].
Qed.

Lemma rewrite_chunks_lookup w chunks rows k :
  fold_left (rewrite_chunk w) chunks rows !! k = if bool_decide (k.1 ∈ concat chunks) then row_of w k else rows !! k.
Proof.
  revert rows. induction chunks as [|c chunks IH]; intros rows; [done|]. simpl. rewrite IH, rewrite_chunk_lookup.
  destruct (decide (k.1 ∈ concat chunks)); [rewrite !bool_decide_eq_true_2 by set_solver; done|]. rewrite (bool_decide_eq_false_2 (k.1 ∈ concat chunks)) by done.
  destruct (decide (k.1 ∈ c)); [by rewrite !bool_decide_eq_true_2 by set_solver|]. by rewrite !bool_decide_eq_false_2 by set_solver.
Qed.

(** The rows of an override are what its keys ask for. *)
Lemma row_of_match w id rows :
  (forall k, rows !! (id, k) = row_of w (id, k)) -> rows_match rows id (Keys (PlanFor w id)) (Keys (Default w)).
Proof.
  intros H k. rewrite H. unfold row_of, PlanFor. simpl. destruct (Proxies w !! id) as [plan|].
  - by destruct (_ && _).
  - rewrite String.eqb_refl. simpl. by rewrite andb_false_r.
Qed.

(** A route outside the delta has the rows its keys ask for. *)
Lemma delta_match db w affected incremental id :
  (incremental = true -> id ∈ affected) -> id ∉ checkerProjectionDelta db w affected incremental ->
  rows_match (plans db) id (Keys (PlanFor w id)) (Keys (Default w)).
Proof.
  intros Haff Hn k. unfold checkerProjectionDelta in Hn. apply not_elem_of_union in Hn as [Hwrong Hlack].
  assert (negb incremental || bool_decide (id ∈ affected) = true) as Hcons
    by (destruct incremental; [simpl; apply bool_decide_eq_true; by apply Haff|done]).
  destruct (plans db !! (id, k)) as [[key transport]|] eqn:Er; simpl.
  - assert (row_differs w (id, k) (key, transport) = false) as Hd.
    { apply not_true_iff_false. intros Hd. apply Hwrong, elem_of_map. exists (id, k). split; [done|]. apply elem_of_dom. exists (key, transport).
      apply map_lookup_filter_Some. split; [done|]. simpl. by rewrite Hcons, Hd. }
    unfold row_differs in Hd. simpl in Hd. destruct ((k <? 1) || (4 <? k)) eqn:Ek; [done|].
    apply orb_false_iff in Ek as [E1 E2]. apply orb_false_iff in Hd as [Hd _]. apply orb_false_iff in Hd as [Hd1 Hd2].
    rewrite Hd1. replace (1 <=? k) with true by lia. replace (k <=? 4) with true by lia. simpl.
    apply negb_false_iff, String.eqb_eq in Hd2. by rewrite Hd2.
  - destruct (_ && _) eqn:Ec; [|done]. exfalso. apply andb_true_iff in Ec as [Ek Ed]. apply andb_true_iff in Ek as [E1 E2]. apply Z.leb_le in E1, E2.
    unfold PlanFor in Ed. destruct (Proxies w !! id) as [plan|] eqn:Ep; [|by rewrite String.eqb_refl in Ed].
    apply Hlack, elem_of_dom. exists plan. apply map_lookup_filter_Some. split; [done|]. simpl. rewrite Hcons. simpl.
    apply existsb_exists. exists (Z.to_nat (k - 1)). split.
    + assert (Z.to_nat (k - 1) < 4)%nat as Hlt by lia. destruct (Z.to_nat (k - 1)) as [|[|[|[|]]]]; simpl; [tauto..|lia].
    + rewrite Ed. simpl. replace (Z.of_nat (Z.to_nat (k - 1)) + 1) with k by lia. by apply bool_decide_eq_true.
Qed.

Lemma incremental_from_Some db previous p : from db previous = Some p -> previous = Some p /\ CheckerFullRevision (row db) <= snap_revision p.
Proof.
  unfold incremental_from. destruct previous as [q|]; [|done]. destruct (_ && _) eqn:E; [|done]. intros [= ->]. split; [done|].
  by repeat (apply andb_true_iff in E as [E ?]); lia.
Qed.

Lemma elem_of_affected db p id :
  tables_ok db -> id ∈ affected_since db (Some p) <-> ~ fresh db (snap_revision p) id.
Proof.
  intros Hok. unfold affected_since. rewrite merge_sort_Permutation, elem_of_elements, elem_of_dom. split.
  - intros [c Hc] Hf. apply map_lookup_filter_Some in Hc as [Hc Hr]. specialize (Hf c Hc). simpl in Hr. lia.
  - intros Hn. destruct (changes db !! id) as [c|] eqn:E.
    + exists c. apply map_lookup_filter_Some. split; [done|]. simpl. pose proof (changes_le db Hok id c E).
      destruct (decide (snap_revision p < Revision c)); [lia|]. destruct Hn. intros c' Hc'. simplify_eq. lia.
    + destruct Hn. intros c Hc. congruence.
Qed.

(** A refresh, whole or incremental, compiles every route as a build would. *)
Lemma build_snapshot_keys db previous ids :
  tables_ok db -> (forall p, previous = Some p -> sound db p) ->
  let since := from db previous in
  let w := (rebuilt db since ids).1 in
  (forall id, Keys (PlanFor w id) = current_keys db id) /\ Keys (Default w) = current_default db.
Proof.
  intros Hok Hprev since w. unfold w, build_snapshot. set (affected := affected_since db since).
  pose proof (Build_keys digest quote GetScheme (RowValue (row db)) (loadCheckerAssignments db (map TagID (Rules (settings_of db))) affected (given since)) (usable db) headers ids) as Hb.
  pose proof (Build_default digest quote GetScheme (RowValue (row db)) (loadCheckerAssignments db (map TagID (Rules (settings_of db))) affected (given since)) (usable db) headers ids) as Hd.
  destruct (Build _ _ _ _ _ _ _ _) as [built ids']. cbn [fst] in *.
  destruct since as [p|] eqn:Es; cbn [fst given] in *.
  - apply incremental_from_Some in Es as [-> Hfull]. specialize (Hprev p eq_refl).
    assert (Keys (Default (compiled p)) = Keys (Default built)) as Hdd by (rewrite Hd; by apply snap_default). split.
    + intros id. unfold PlanFor, Merge. cbn [Proxies Default].
      pose proof (mergeProxyPlans_keys (Default (compiled p)) (Proxies (compiled p)) (Proxies built) affected id) as Hm. unfold keys_under in Hm. rewrite Hm.
      case_bool_decide as Hin.
      * rewrite <- (loaded_keys db affected true id) by done. rewrite <- Hb. unfold PlanFor. by destruct (Proxies built !! id).
      * apply (snap_routes db p Hprev Hfull id). apply dec_stable_fresh. intros Hn. by apply Hin, elem_of_affected.
    + simpl. rewrite Hdd. exact Hd.
  - split; [|exact Hd]. intros id. rewrite Hb. by apply loaded_keys.
Qed.

Lemma sound_other db db' s :
  tables_ok db -> sound db s ->
  CheckerProjectedRevision (row db') = CheckerRevision (row db') -> CheckerGeneration (row db') = CheckerGeneration (row db) + 1 ->
  changes db' = changes db -> current_default db' = current_default db -> (forall id, current_keys db' id = current_keys db id) ->
  (CheckerRevision (row db') = CheckerRevision (row db) /\ CheckerFullRevision (row db') = CheckerFullRevision (row db) \/
   CheckerRevision (row db') = CheckerRevision (row db) + 1 /\ CheckerFullRevision (row db') = CheckerRevision (row db) + 1) ->
  sound db' s.
Proof.
  intros Hok [S1 S2 S3 S4 S5 S6] Hp Hg Hc Hd Hk Hr. pose proof (projected_le db Hok). pose proof (full_le db Hok).
  constructor; [lia|done|lia|lia| |].
  - intros Hf. rewrite Hd. apply S5. lia.
  - intros Hf id Hid. rewrite Hk. apply S6; [lia|]. intros c Hl. apply Hid. by rewrite Hc.
Qed.

(** What a load leaves: the snapshot and the tables describe one build. *)
Record loaded (db : DB) (w : Snapshot) (db' : DB) : Prop := MkLoaded {
  loaded_tables : tables_ok db';
  loaded_others : forall s, sound db s -> sound db' s;
  loaded_sound : sound db' w;
  loaded_same : current_default db' = current_default db /\ forall id, current_keys db' id = current_keys db id;
  loaded_routes : forall id, Keys (PlanFor (compiled w) id) = current_keys db id;
  loaded_default : Keys (Default (compiled w)) = current_default db;
  loaded_clean : CheckerDirty (row db') = false;
  loaded_generation : Generation w = CheckerGeneration (row db');
  loaded_rows : DefaultKeys (row db') = current_default db' /\ forall id, materialized db' id
}.

Lemma reused_loaded db p : tables_ok db -> sound db p -> reusable quote IsWebsiteBlocked headers db p = true -> loaded db p db.
Proof.
  intros Hok Hp Hr. unfold reusable in Hr. repeat (apply andb_true_iff in Hr as [Hr ?]).
  apply negb_true_iff in Hr. pose proof (clean_projected db Hok Hr) as Hproj. pose proof (full_le db Hok).
  assert (forall id, fresh db (snap_revision p) id) as Hfresh by (intros id c Hc; pose proof (changes_le db Hok id c Hc); lia).
  pose proof (generation_pos db p Hp). pose proof (generation_le db p Hp).
  constructor; try assumption; [done|done|by intros id; apply (snap_routes db p Hp); [lia|]|apply (snap_default db p Hp); lia|lia|].
  destruct (projection_ok db Hok ltac:(lia) ltac:(lia)) as [H' Hm]. split; [done|]. intros id. apply Hm. rewrite Hproj. intros c Hc.
  by apply (changes_le db Hok id).
Qed.

(** What a refresh finds and does not rewrite is in order already. *)
Lemma unchanged_rows db previous w id :
  tables_ok db -> (forall p, previous = Some p -> sound db p) ->
  (forall id, Keys (PlanFor w id) = current_keys db id) -> Keys (Default w) = current_default db ->
  id ∉ checkerProjectionDelta db w (affected_since db (from db previous)) (given (from db previous)) -> materialized db id.
Proof.
  intros Hok Hprev Hk Hd Hn. destruct (from db previous) as [p|] eqn:Es.
  - apply incremental_from_Some in Es as [-> Hfull]. specialize (Hprev p eq_refl). pose proof (elem_of_affected db p id Hok) as Haff.
    destruct (decide (id ∈ affected_since db (Some p))) as [Hin|Hout].
    + unfold materialized. rewrite <- Hk, <- Hd. by apply (delta_match db w (affected_since db (Some p)) true).
    + assert (fresh db (snap_revision p) id) as Hf by (apply dec_stable_fresh; tauto). pose proof (revision_le db p Hprev).
      pose proof (generation_pos db p Hprev). pose proof (generation_le db p Hprev).
      apply (projection_ok db Hok); [lia|lia|]. intros c Hc. specialize (Hf c Hc). lia.
  - unfold materialized. rewrite <- Hk, <- Hd. by apply (delta_match db w [] false).
Qed.

Lemma project_loaded db previous w :
  tables_ok db -> (forall p, previous = Some p -> sound db p) ->
  (forall id, Keys (PlanFor w id) = current_keys db id) -> Keys (Default w) = current_default db ->
  forall s db', project quote IsWebsiteBlocked headers db previous (from db previous) w = (s, db') -> loaded db s db'.
Proof.
  intros Hok Hprev Hk Hd s db' H. unfold project in H. set (since := from db previous) in *. set (changed := checkerProjectionDelta _ _ _ _) in *.
  assert (forall id, id ∉ changed -> materialized db id) as Hrows by (intros id; exact (unchanged_rows db previous w id Hok Hprev Hk Hd)).
  set (bumped := negb (given since) && _ && _) in H. set (clean := negb (_ || _) && _ && _) in H.
  pose proof (full_le db Hok). pose proof (projected_le db Hok). pose proof (generation_nonneg db Hok).
  destruct clean eqn:Eclean; injection H as <- <-.
  - unfold clean in Eclean. apply andb_true_iff in Eclean as [Eclean Edirty]. apply andb_true_iff in Eclean as [Edef Echanged].
    apply negb_true_iff, orb_false_iff in Edef as [Egen Ekeys]. apply bool_decide_eq_true in Echanged. apply Z.eqb_neq in Egen.
    apply negb_false_iff, bool_decide_eq_true in Ekeys. apply negb_true_iff, orb_false_iff in Edirty as [Ebump Edirty]. rewrite Ebump.
    pose proof (clean_projected db Hok Edirty) as Hproj.
    constructor; try done; [|split; [by rewrite <- Ekeys|intros id; apply Hrows; rewrite Echanged; apply not_elem_of_empty]].
    constructor; simpl; [lia|lia|lia|lia|by intros|by intros].
  - set (db' := MkDB _ _ _ _ _ _ _).
    assert (current_default db' = current_default db) as Hdef by done. assert (forall id, current_keys db' id = current_keys db id) as Hcur by done.
    assert (DefaultKeys (row db') = current_default db' /\ forall id, materialized db' id) as Hmat.
    { split; [exact Hd|]. intros id. unfold materialized. rewrite Hdef, Hcur.
      assert (forall k, plans db' !! (id, k) = if bool_decide (id ∈ changed) then row_of w (id, k) else plans db !! (id, k)) as Hl.
      { intros k. simpl. rewrite rewrite_chunks_lookup, concat_batches by (unfold deleteChunkSize; lia). cbn [fst].
        rewrite (bool_decide_ext _ (id ∈ changed)); [done|]. by rewrite merge_sort_Permutation, elem_of_elements. }
      destruct (decide (id ∈ changed)) as [Hin|Hout].
      - rewrite <- Hk, <- Hd. apply row_of_match. intros k. by rewrite Hl, bool_decide_eq_true_2.
      - intros k. rewrite Hl, bool_decide_eq_false_2 by done. by apply Hrows. }
    assert (CheckerRevision (row db') = CheckerRevision (row db) /\ CheckerFullRevision (row db') = CheckerFullRevision (row db) \/
            CheckerRevision (row db') = CheckerRevision (row db) + 1 /\ CheckerFullRevision (row db') = CheckerRevision (row db) + 1) as Hrev
      by (simpl; destruct bumped; tauto).
    assert (CheckerProjectedRevision (row db') = CheckerRevision (row db')) as Hproj by done.
    constructor; try done.
    + constructor; [destruct Hrev; lia|lia|done| |apply (assigned_managed db Hok)|apply (valid_config db Hok)|simpl; lia|].
      * intros id c Hc. pose proof (changes_le db Hok id c Hc). destruct Hrev; lia.
      * intros _ _. split; [apply Hmat|]. intros id _. apply Hmat.
    + intros o Ho. by apply (sound_other db db').
    + constructor; [simpl; destruct bumped; lia|simpl; lia|simpl; lia|done|by intros|by intros].
Qed.

Lemma load_loaded db previous ids w db' ids' :
  tables_ok db -> (forall p, previous = Some p -> sound db p) -> load previous ids db = (w, db', ids') -> loaded db w db'.
Proof.
  intros Hok Hprev H. unfold LoadCheckerWorkspace in H. destruct (Build _ _ _ _ _ _ _ _) as [seed ids1].
  assert (forall ids1, (let '(snapshot, ids) := rebuilt db (from db previous) ids1 in (project quote IsWebsiteBlocked headers db previous (from db previous) snapshot, ids)) =
    (w, db', ids') -> loaded db w db') as Hbuild.
  { intros i Hi. destruct (build_snapshot_keys db previous i Hok Hprev) as [Hk Hd]. destruct (rebuilt db (from db previous) i) as [snapshot i'].
    injection Hi as Hi _. by apply (project_loaded db previous snapshot Hok Hprev Hk Hd). }
  destruct previous as [p|]; [|by apply (Hbuild ids1)]. destruct (reusable _ _ _ db p) eqn:Er; [|by apply (Hbuild ids1)].
  injection H as <- <- _. apply reused_loaded; [done|by apply Hprev|done].
Qed.

(** ** Every interleaving of writes, loads and stores *)

(** The tables, each process's snapshot, and loads not stored yet. *)
Record System := MkSystem { tables : DB; cached : gmap Z Snapshot; in_flight : list (Z * Snapshot) }.

(** A committed write of the backend. *)
Inductive write : DB -> DB -> Prop :=
| write_replace now id tags db db' : ReplaceProxyTags now id tags db = Ok db' -> write db db'
| write_add now ids tags db db' : AddProxyTagsToProxies now ids tags db = Ok db' -> write db db'
| write_scraped now fetching tags ids db : write db (ApplyScrapeSourceTags now fetching tags ids db)
| write_delete_tag now tag db db' : DeleteProxyTag now tag db = Ok db' -> write db db'
| write_settings now s db db' : UpdateWorkspaceSettings now s db = Ok db' -> write db db'
| write_delete now ids state db : write db (deleteManagedRoutes now ids state db)
| write_prune before candidates db : write db (PruneDeletedCheckerRoutes before candidates db)
| write_manage id state db : write db (manage id state db)
| write_tag t db : write db (create_tag t db).

(** The deletion of a tag that writes a profile of the earlier format back in
    the current one, and with it the conversion to TCP it was read with. *)
Definition loses_conversion (db db' : DB) : Prop := exists now tag, DeleteProxyTag now tag db = Ok db' /\ rule_of_converted db tag.

Definition set_tables (s : System) (db : DB) : System := MkSystem db (cached s) (in_flight s).

(** A process loads; what it interned before does not matter. *)
Definition load_step (s : System) (p : Z) (ids : gmap string Z) : System :=
  let '(w, db, _) := load (cached s !! p) ids (tables s) in MkSystem db (cached s) ((p, w) :: in_flight s).

Definition store_step (s : System) (p : Z) (w : Snapshot) : System := MkSystem (tables s) (partial_alter (store w) p (cached s)) (in_flight s).

Inductive step (s : System) : System -> Prop :=
| step_write db : write (tables s) db -> step s (set_tables s db)
| step_load p ids : step s (load_step s p ids)
| step_store p w : (p, w) ∈ in_flight s -> step s (store_step s p w)
| step_restart p : step s (MkSystem (tables s) (delete p (cached s)) (filter (fun l => l.1 <> p) (in_flight s))).

(** A run without such a deletion. *)
Definition kept_step (s s' : System) : Prop := step s s' /\ ~ loses_conversion (tables s) (tables s').

(** A workspace nothing was compiled for, with a profile of either format that
    has at most one rule per tag, or none. *)
Definition initial (s : System) : Prop :=
  let db := tables s in
  CheckerGeneration (row db) = 0 /\ CheckerRevision (row db) = 0 /\ CheckerFullRevision (row db) = 0 /\ CheckerProjectedRevision (row db) = 0 /\
  changes db = ∅ /\ (forall a, a ∈ assignments db -> is_managed db a.1 = true) /\ config_ok (row db) /\ cached s = ∅ /\ in_flight s = [].

Definition reachable_system (s : System) : Prop := exists s0, initial s0 /\ rtc kept_step s0 s.

Definition consistent (s : System) : Prop :=
  tables_ok (tables s) /\ (forall p w, cached s !! p = Some w -> sound (tables s) w) /\ (forall p w, (p, w) ∈ in_flight s -> sound (tables s) w).

Lemma initial_consistent s : initial s -> consistent s.
Proof.
  intros (Hg & Hr & Hf & Hp & Hc & Ha & Hconf & Hcache & Hfl). split; [|rewrite Hcache, Hfl; split; [done|set_solver]].
  constructor; try assumption; try lia. intros id c. by rewrite Hc.
Qed.

Lemma write_good db db' : tables_ok db -> write db db' -> ~ loses_conversion db db' -> db' = db \/ good_write db db'.
Proof.
  intros Hok Hw Hlost. destruct Hw as [????? H|????? H| |now tag db db' H|???? H| | | |].
  - right. exact (ReplaceProxyTags_write _ _ _ _ _ Hok H).
  - exact (AddProxyTagsToProxies_write _ _ _ _ _ Hok H).
  - right. by apply ApplyScrapeSourceTags_write.
  - right. apply (DeleteProxyTag_write now tag db db' Hok); [|done]. intros Hc. apply Hlost. by exists now, tag.
  - exact (UpdateWorkspaceSettings_write _ _ _ _ Hok H).
  - right. by apply deleteManagedRoutes_write.
  - right. by apply PruneDeletedCheckerRoutes_write.
  - right. by apply manage_write.
  - right. by apply create_tag_write.
Qed.

Lemma same_tags_kept db db' : proxy_tags db' = proxy_tags db -> ~ loses_conversion db db'.
Proof.
  intros Hsame (now & tag & H & _). unfold DeleteProxyTag in H. destruct (_ =? 0); [done|].
  destruct (bool_decide (tag ∈ proxy_tags db)) eqn:Ht; simpl in H; [|done]. apply bool_decide_eq_true in Ht.
  assert (proxy_tags db' = proxy_tags db ∖ {[tag]}) as Hd; [|set_solver].
  destruct (existsb _ _); cbn [row RowValue] in H; (destruct (CheckerConfig _); [destruct (_ =? _)%nat|]); injection H as <-; done.
Qed.

Lemma load_step_consistent s p ids : consistent s -> consistent (load_step s p ids).
Proof.
  intros (Hok & Hc & Hf). unfold load_step. destruct (load (cached s !! p) ids (tables s)) as [[w db] ids'] eqn:E.
  pose proof (load_loaded _ _ _ _ _ _ Hok (fun q Hq => Hc p q Hq) E) as L. split; [|split]; simpl.
  - apply (loaded_tables _ _ _ L).
  - intros q o Ho. apply (loaded_others _ _ _ L). by apply (Hc q).
  - intros q o [[= -> ->]|Ho]%elem_of_cons; [apply (loaded_sound _ _ _ L)|]. apply (loaded_others _ _ _ L). by apply (Hf q).
Qed.

Lemma step_consistent s s' : consistent s -> kept_step s s' -> consistent s'.
Proof.
  intros Hcons [Hstep Hlost]. pose proof Hcons as (Hok & Hc & Hf). destruct Hstep as [db Hw|p ids|p w Hin|p].
  - destruct (write_good _ _ Hok Hw Hlost) as [->|[Hok' Hk]]; [by destruct s|]. split; [done|]. split; simpl.
    + intros p w Hp. apply (keeps_sound _ _ _ Hk). by apply (Hc p).
    + intros p w Hp. apply (keeps_sound _ _ _ Hk). by apply (Hf p).
  - by apply load_step_consistent.
  - split; [done|]. split; [|done]. simpl. intros q o Ho. destruct (decide (q = p)) as [->|Hne].
    + rewrite lookup_partial_alter_eq in Ho. unfold store in Ho. destruct (cached s !! p) as [o'|] eqn:Ep.
      * destruct (_ <=? _); injection Ho as <-; [by apply (Hf p)|by apply (Hc p)].
      * injection Ho as <-. by apply (Hf p).
    + rewrite lookup_partial_alter_ne in Ho by done. by apply (Hc q).
  - split; [done|]. split; simpl.
    + intros q o Ho. apply lookup_delete_Some in Ho as [_ Ho]. by apply (Hc q).
    + intros q o Ho. apply list_elem_of_filter in Ho as [_ Ho]. by apply (Hf q).
Qed.

Lemma reachable_consistent s : reachable_system s -> consistent s.
Proof.
  intros (s0 & Hi & Hr). apply initial_consistent in Hi. induction Hr as [|s1 s2 s3 Hs _ IH]; [done|]. apply IH. by apply step_consistent with s1.
Qed.

(** A snapshot built from the tables and nothing else. *)
Definition fresh_snapshot (db : DB) : Workspace :=
  (Build digest quote GetScheme (RowValue (row db)) (loadCheckerAssignments db (map TagID (Rules (settings_of db))) [] false) (usable db) headers ∅).1.

Lemma fresh_snapshot_keys db id : Keys (PlanFor (fresh_snapshot db) id) = current_keys db id.
Proof. unfold fresh_snapshot. rewrite Build_keys. by apply loaded_keys. Qed.

Lemma fresh_snapshot_default db : Keys (Default (fresh_snapshot db)) = current_default db.
Proof. unfold fresh_snapshot. by rewrite Build_default. Qed.



End Facts.

(** ** Runs *)

Module Sample.

Definition judges : list JudgeWithRegex := [MkJudgeRegex (MkJudge 1 "http://a") "default"; MkJudgeRegex (MkJudge 2 "https://b") "ok"].
Definition scheme (j : Judge) : string := if judge_id j =? 1 then "http" else "https".
Definition blocked (url : string) : bool := false.

Definition id_fun (s : string) : string := s.

Abbreviation load := (LoadCheckerWorkspace id_fun id_fun scheme blocked []).
Abbreviation load_step := (load_step id_fun id_fun scheme blocked []).
Abbreviation reachable_system := (reachable_system id_fun id_fun scheme blocked []).
Abbreviation fresh_snapshot := (fresh_snapshot id_fun id_fun scheme blocked []).

(** A profile of the earlier format whose rules mix SOCKS with QUIC: it is read
    converted to TCP. *)
Definition legacy : CheckerSettings :=
  MkSettings (MkProfile ["http"] "tcp" 5000 1)
    [MkRule 1 "add" ["socks5"] None None None; MkRule 2 "replace" ["http"] (Some "quic") None None; MkRule 3 "add" ["https"] None None None] true.

Definition value (config : CheckerSettings) : CheckedWorkspace := MkWorkspace 1 true false false false 5000 1 false "tcp" (Some config).

Definition tables0 (config : CheckerSettings) (assigned : gset (Z * Z)) : DB :=
  MkDB (MkRow (value config) "" false 0 0 0 0 ["" ; ""; ""; ""]) judges {[1; 2; 3]} {[10 := "active"; 11 := "active"]} assigned ∅ ∅.

Definition start : System := MkSystem (tables0 legacy ∅) ∅ [].

(** Process 1 loads and stores. *)
Definition loaded1 : System := load_step start 1 ∅.
Definition snapshot1 : Snapshot := (load None ∅ (tables0 legacy ∅)).1.1.
Definition stored1 : System := store_step loaded1 1 snapshot1.

(** Route 10 gets the tag, and the process has not heard of it. *)
Definition tagged : DB := match AddProxyTagsToProxies 50 [10] [3] (tables stored1) with Ok db => db | Err _ => tables stored1 end.
Definition behind : System := set_tables stored1 tagged.

Lemma start_initial : initial start.
Proof. split_and!; try done. apply (bool_decide_unpack _). by vm_compute. Qed.

Lemma snapshot1_in_flight : in_flight loaded1 = [(1, snapshot1)].
Proof. by vm_compute. Qed.

Lemma tagging : AddProxyTagsToProxies 50 [10] [3] (tables stored1) = Ok tagged.
Proof. by vm_compute. Qed.

Lemma stored1_reachable : reachable_system stored1.
Proof.
  exists start. split; [exact start_initial|]. apply rtc_l with loaded1; [split; [apply step_load|by apply same_tags_kept; vm_compute]|].
  apply rtc_once. split; [|by apply same_tags_kept]. apply step_store. rewrite snapshot1_in_flight. set_solver.
Qed.

Lemma behind_reachable : reachable_system behind.
Proof.
  destruct stored1_reachable as (s0 & Hi & Hr). exists s0. split; [done|]. apply rtc_r with stored1; [done|].
  split; [|by apply same_tags_kept; vm_compute]. apply step_write. exact (write_add 50 [10] [3] _ _ tagging).
Qed.

Definition answer : Snapshot * DB * gmap string Z := load (cached behind !! 1) ∅ (tables behind).

Lemma answer_keys : Keys (PlanFor (compiled answer.1.1) 10) <> Keys (PlanFor (compiled snapshot1) 10) /\ given (cached behind !! 1) = true.
Proof. by vm_compute. Qed.

Lemma stored1_state :
  cached stored1 !! 1 = Some snapshot1 /\ CheckerDirty (row (tables stored1)) = false /\ Generation snapshot1 = CheckerGeneration (row (tables stored1)).
Proof. by vm_compute. Qed.

Definition legacy0 : DB := tables0 legacy {[(10, 2)]}.
Definition legacy_loaded : Snapshot * DB * gmap string Z := load None ∅ legacy0.
Definition legacy_deleted : res tag_error DB := DeleteProxyTag 60 3 legacy_loaded.1.2.

(** Deleting a tag writes the stored profile back in the current format, so
    its conversion to TCP is lost: route 10, which does not carry the tag, is
    then to be checked over QUIC, but it is not recorded as changed and an
    incremental refresh keeps its old plan. *)
Example legacy_profile_lost :
  match legacy_deleted with
  | Ok db =>
      let w := (load (Some legacy_loaded.1.1) ∅ db).1.1 in
      ValidateCheckerSettings (settings_of legacy_loaded.1.2) = None /\ is_Some (ValidateCheckerSettings (settings_of db)) /\
      map CheckTransport (Settings (PlanFor (compiled w) 10)) = ["tcp"; "tcp"; "tcp"; "tcp"] /\
      map CheckTransport (Settings (PlanFor (fresh_snapshot db) 10)) = ["quic"; "quic"; "quic"; "quic"] /\
      Keys (PlanFor (compiled w) 10) <> Keys (PlanFor (fresh_snapshot db) 10)
  | Err _ => False
  end.
Proof. vm_compute. repeat split; try done; by eexists. Qed.

End Sample.



End CheckerPlansFacts.
