(* ===== verification/CheckCycle.v ===== *)
(** * One check cycle of a route

    [jobs/checker/thread_handler.go] around the network: the owners of a
    dequeued route are refreshed, the checks their plans ask for are merged into
    physical requests, each request is made with retries, and its answer is
    judged once per owner; with the judge tables of
    [jobs/checker/judges/judges_handler.go] and the validation of
    [jobs/checker/request_handler.go].  The counters of the round robin are
    shared by all workers, so the value an advance sees is an argument; the
    request, the regular expressions and the blocklist are parameters.  A Go
    map of requests is iterated in an arbitrary order, which is an argument too. *)

From S2P Require Import Prelude GoStrings CheckerConfig CheckerPlans CheckerPlansFacts.
Open Scope Z_scope.

Module CheckCycle.
Import CheckerConfig.

(** ** Judges *)

(** [Plan.NextJudgeIndex] when the counter stands at [count]. *)
Definition NextJudgeIndex (list : list JudgeWithRegex) (count : Z) : option nat :=
  match list with
  | [] => None
  | [_] => Some 0%nat
  | _ => Some (Z.to_nat (count mod Z.of_nat (length list)))
  end.

Definition NextJudge (list : list JudgeWithRegex) (count : Z) : option JudgeWithRegex := NextJudgeIndex list count ≫= fun i => list !! i.

(** Whether the counter was advanced. *)
Definition advances (list : list JudgeWithRegex) : bool := (2 <=? length list)%nat.

(** [judgeEntry] of a workspace and scheme. *)
Record judgeEntry := MkEntry { je_list : list JudgeWithRegex; je_counter : Z }.

Abbreviation judge_table := (gmap Z (gmap string judgeEntry)).

Definition entry_at (t : judge_table) (workspaceID : Z) (protocol : string) : option judgeEntry := t !! workspaceID ≫= fun m => m !! protocol.

(** [GetNextJudge]: the entry's counter wraps at 32 bits. *)
Definition GetNextJudge (t : judge_table) (workspaceID : Z) (protocol : string) (count : Z) : option JudgeWithRegex :=
  match entry_at t workspaceID protocol with
  | None => None
  | Some je => if (length (je_list je) =? 0)%nat then None else je_list je !! Z.to_nat (wrap_u32 count mod Z.of_nat (length (je_list je)))
  end.

(** One judge added to the lists of a workspace. *)
Definition add_judge (GetScheme : Judge -> string) (protoMap : gmap string judgeEntry) (jwr : JudgeWithRegex) : gmap string judgeEntry :=
  let scheme := GetScheme (the_judge jwr) in
  match protoMap !! scheme with
  | None => <[scheme := MkEntry [jwr] 0]> protoMap
  | Some entry => <[scheme := MkEntry (je_list entry ++ [jwr]) (je_counter entry)]> protoMap
  end.

Definition AddWorkspaceJudge (GetScheme : Judge -> string) (workspaceID : Z) (jwr : JudgeWithRegex) (t : judge_table) : judge_table :=
  <[workspaceID := add_judge GetScheme (default ∅ (t !! workspaceID)) jwr]> t.

Definition addJudgesToWorkspacesLocal (GetScheme : Judge -> string) (workspaceIDs : list Z) (judges : list JudgeWithRegex) (t : judge_table) : judge_table :=
  fold_left (fun t id => <[id := fold_left (add_judge GetScheme) judges (default ∅ (t !! id))]> t) workspaceIDs t.

Definition setWorkspaceJudgesLocal (GetScheme : Judge -> string) (workspaceID : Z) (judges : list JudgeWithRegex) (t : judge_table) : judge_table :=
  <[workspaceID := fold_left (add_judge GetScheme) judges ∅]> t.

(** ** Requests *)

Record workspaceCheck := MkCheckOf { check_workspace : Z; regex : string; configKey : string; check_headers : option (list string) }.

Record requestAssignment := MkAssigned {
  judge : Judge; proxyProtocol : string; transportProtocol : string; protocolID : Z; req_timeout : Z; req_retries : Z; budgetSet : bool; checks : list workspaceCheck
}.

(** What [lookupCheckerWorkspace] says of an owner: no snapshots yet, or the
    workspace is unknown, or its settings and the plan of the route. *)
Inductive lookup_result := NotReady (queued : CheckedWorkspace) | Unknown | Found (value : CheckedWorkspace) (plan : Plan).

Record cycle := MkCycle {
  requests : gmap string requestAssignment; picks : gmap (nat * Z) nat; success : gmap Z bool; hasChecks : gmap Z bool;
  maxTimeout : Z; maxRetries : Z; advanced : nat
}.

Definition request_key (judgeID : Z) (protocol transport : string) (timeout retries : Z) : string :=
  GoStrings.join "_" [itoa judgeID; protocol; transport; itoa timeout; itoa retries].

Definition determineJudgeScheme (protocol : string) (protocolID : Z) (useHTTPSForSocks : bool) : string :=
  if protocolID <=? 2 then protocol else if useHTTPSForSocks then "https" else "http".

Definition IsHTTP3Transport (value : string) : bool := bool_decide (CheckerPlans.NormalizeTransportProtocol value ∈ ["quic"; "http3"]).

Section Build.
Context (GetScheme : Judge -> string) (IsWebsiteBlocked : string -> bool) (table : judge_table).
(** The value of the counter at the [n]-th advance of this cycle. *)
Context (tick : nat -> Z).

(** [nextPlanJudge]; [coordinate] is false when the route has one owner. *)
Definition nextPlanJudge (coordinate : bool) (plan : Plan) (index : nat) (st : cycle) : option JudgeWithRegex * cycle :=
  let list := nth index (Judges plan) [] in
  let set := nth index (JudgeSets plan) 0 in
  let advance st := MkCycle (requests st) (picks st) (success st) (hasChecks st) (maxTimeout st) (maxRetries st)
                      (if advances list then S (advanced st) else advanced st) in
  if negb coordinate || (length list <? 2)%nat || (set =? 0) then (NextJudge list (tick (advanced st)), advance st)
  else
    match picks st !! (index, set) with
    | Some position => (list !! position, st)
    | None =>
        let position := default 0%nat (NextJudgeIndex list (tick (advanced st))) in
        let st := advance st in
        (list !! position,
         MkCycle (requests st) (<[(index, set) := position]> (picks st)) (success st) (hasChecks st) (maxTimeout st) (maxRetries st) (advanced st))
    end.

(** A check goes to the request with its judge, protocol and budget. *)
Definition add_check (j : Judge) (index : nat) (transport : string) (setting : ProtocolCheckSettings) (check : workspaceCheck) (st : cycle) : cycle :=
  let protocol := nth index CheckerProtocols "" in
  let key := request_key (judge_id j) protocol transport (CheckTimeout setting) (CheckRetries setting) in
  let assignment :=
    match requests st !! key with
    | Some a => a
    | None => MkAssigned j protocol transport (Z.of_nat index + 1) (CheckTimeout setting) (CheckRetries setting) true []
    end in
  MkCycle
    (<[key := MkAssigned (judge assignment) (proxyProtocol assignment) (transportProtocol assignment) (protocolID assignment) (req_timeout assignment)
                (req_retries assignment) (budgetSet assignment) (checks assignment ++ [check])]> (requests st))
    (picks st) (success st) (<[check_workspace check := true]> (hasChecks st)) (maxTimeout st) (maxRetries st) (advanced st).

(** One protocol of one owner. *)
Definition protocol_step (coordinate : bool) (value : CheckedWorkspace) (plan : option Plan) (index : nat) (setting : ProtocolCheckSettings) (st : cycle) : cycle :=
  if negb (Enabled setting) then st
  else
    let protocol := nth index CheckerProtocols "" in
    let transport := CheckerPlans.NormalizeTransportProtocol (CheckTransport setting) in
    let st := MkCycle (requests st) (picks st) (success st) (hasChecks st) (Z.max (maxTimeout st) (CheckTimeout setting))
                (Z.max (maxRetries st) (CheckRetries setting)) (advanced st) in
    let '(picked, key, headers, st) :=
      match plan with
      | Some plan => let '(picked, st) := nextPlanJudge coordinate plan index st in (picked, nth index (Keys plan) "", Some (Headers plan), st)
      | None =>
          let scheme := determineJudgeScheme protocol (Z.of_nat index + 1) (UseHttpsForSocks value) in
          let scheme := if IsHTTP3Transport transport then "https" else scheme in
          (GetNextJudge table (ws_id value) scheme (tick (advanced st)), "", None,
           MkCycle (requests st) (picks st) (success st) (hasChecks st) (maxTimeout st) (maxRetries st) (S (advanced st)))
      end in
    match picked with
    | None => st
    | Some jwr =>
        if IsWebsiteBlocked (FullString (the_judge jwr)) then st
        else add_check (the_judge jwr) index transport setting (MkCheckOf (ws_id value) (Regex jwr) key headers) st
    end.

Definition protocol_steps (coordinate : bool) (value : CheckedWorkspace) (plan : option Plan) (resolved : list ProtocolCheckSettings) (st : cycle) : cycle :=
  fold_left (fun st x => protocol_step coordinate value plan x.1 x.2 st) (imap pair resolved) st.

(** One owner of the route. *)
Definition owner_step (coordinate : bool) (st : cycle) (owner : Z * lookup_result) : cycle :=
  let st := MkCycle (requests st) (picks st) (<[owner.1 := false]> (success st)) (hasChecks st) (maxTimeout st) (maxRetries st) (advanced st) in
  match owner.2 with
  | Unknown => st
  | Found value plan => protocol_steps coordinate value (Some plan) (Settings plan) st
  | NotReady queued => protocol_steps coordinate queued None (ResolveCheckerSettings (DefaultCheckerSettings queued) ∅) st
  end.

Definition buildRequestAssignments (owners : list (Z * lookup_result)) : cycle :=
  fold_left (owner_step (1 <? length owners)%nat) owners (MkCycle ∅ ∅ ∅ ∅ 0 0 0).

End Build.

(** ** Answers *)

(** What [checkProxyWithRetries] returns: body, whether it failed, milliseconds
    and attempt; or the lease was lost or the worker stopped. *)
Inductive answer := Answered (html : string) (failed : bool) (responseTime : Z) (attempt : Z) | LeaseLost | Cancelled.

(** One attempt: the lease could not be renewed, or the request was made. *)
Inductive attempt_result := NotRenewed | Requested (html : string) (failed : bool) (millis : Z).

(** [CheckProxyWithRetries], from attempt [i] on. *)
Fixpoint attempts (todo : nat) (i retries : Z) (request : Z -> attempt_result) (html : string) (failed : bool) (millis : Z) : answer * Z :=
  match todo with
  | O => (Answered html failed millis retries, i)
  | S todo =>
      match request i with
      | NotRenewed => (LeaseLost, i)
      | Requested html failed millis => if failed then attempts todo (i + 1) retries request html failed millis else (Answered html false millis (wrap_unsigned 8 i), i + 1)
      end
  end.

(** With the number of attempts begun. *)
Definition CheckProxyWithRetries (retries : Z) (request : Z -> attempt_result) : answer * Z :=
  attempts (Z.to_nat (retries + 1)) 0 retries request "" false 0.

Definition upper_byte (c : Ascii.ascii) : Ascii.ascii := if is_lower c then chr (code c - 32) else c.

Definition is_default (regex : string) : bool := String.eqb (to_lower regex) "default".

Section Verdicts.
Context (MatchString : string -> string -> option bool) (StandardHeader : list string).

(** [checkForValidResponseWithHeaders]; an expression that does not compile
    matches nothing.  The page is read as ASCII: the few letters outside it
    whose upper case is an ASCII letter are not folded. *)
Definition checkForValidResponseWithHeaders (html regex : string) (headers : option (list string)) : bool :=
  if is_default regex then
    let page := of_bytes (map (fun c => upper_byte (if Ascii.eqb c (chr 95) then chr 45 else c)) (bytes html)) in
    forallb (fun header => contains_str header page) (default StandardHeader headers)
  else default false (MatchString regex html).

Record WorkspaceCheckEvidence := MkEvidence { ev_workspace : Z; ConfigKey : string; Alive : bool }.

Record statistic := MkStatistic {
  st_transport : string; st_timeout : Z; st_retries : Z; CheckEvidence : list WorkspaceCheckEvidence; st_alive : bool; ResponseTime : Z; Attempt : Z;
  ProtocolID : Z; JudgeID : Z; st_workspaces : list Z
}.

Definition validation_key (check : workspaceCheck) : string := if is_default (regex check) then regex check +:+ configKey check else regex check.

(** The verdicts on one answer, with those of equal validations remembered. *)
Fixpoint verdicts (html : string) (failed : bool) (memo : gmap string bool) (l : list workspaceCheck) : list (workspaceCheck * bool) :=
  match l with
  | [] => []
  | check :: rest =>
      let key := validation_key check in
      let valid := match memo !! key with Some v => v | None => negb failed && checkForValidResponseWithHeaders html (regex check) (check_headers check) end in
      (check, valid) :: verdicts html failed (<[key := valid]> memo) rest
  end.

Definition mark_success (success : gmap Z bool) (v : workspaceCheck * bool) : gmap Z bool :=
  if v.2 then <[check_workspace v.1 := true]> success else success.

Definition collectCheckWorkspaceIDs (l : list workspaceCheck) : list Z :=
  dedup_go [] (List.filter (fun id => negb (id =? 0)) (map check_workspace l)).

(** The statistic of one answer. *)
Definition statistic_of (a : requestAssignment) (timeout retries : Z) (responseTime attempt : Z) (l : list (workspaceCheck * bool)) : statistic :=
  MkStatistic (transportProtocol a) timeout retries
    (map (fun v => MkEvidence (check_workspace v.1) (configKey v.1) v.2) (List.filter (fun v => negb (String.eqb (configKey v.1) "")) l))
    (existsb snd l) (wrap_u16 responseTime) attempt (protocolID a) (judge_id (judge a)) (collectCheckWorkspaceIDs (checks a)).

(** [processJudgeAssignments], over the requests in the order the map yields
    them; the statistics handed off are returned with the success map. *)
Fixpoint processJudgeAssignments (check : requestAssignment -> Z -> Z -> answer) (maxT maxR : Z) (items : list requestAssignment) (success : gmap Z bool) (done : list statistic)
    : option answer * gmap Z bool * list statistic :=
  match items with
  | [] => (None, success, done)
  | item :: rest =>
      let timeout := if budgetSet item then req_timeout item else maxT in
      let retries := if budgetSet item then req_retries item else maxR in
      match check item timeout retries with
      | LeaseLost => (Some LeaseLost, success, done)
      | Cancelled => (Some Cancelled, success, done)
      | Answered html failed responseTime attempt =>
          let l := verdicts html failed ∅ (checks item) in
          processJudgeAssignments check maxT maxR rest (fold_left mark_success l success) (done ++ [statistic_of item timeout retries responseTime attempt l])
      end
  end.

End Verdicts.

(** The events for the failure tracker: owners some judge was asked for. *)
Definition failure_events (owners : list Z) (success hasChecks : gmap Z bool) : list (Z * bool) :=
  map (fun id => (id, default false (success !! id))) (List.filter (fun id => default false (hasChecks !! id)) owners).

(** [filterRemovedWorkspaces] *)
Definition filterRemovedWorkspaces (owners : list Z) (removed : gset Z) : list Z := List.filter (fun id => negb (bool_decide (id ∈ removed))) owners.

(** [truncateResponseBody] on the decoded runes. *)
Definition truncateResponseBody (runes : list Z) : list Z := take 512 (List.filter (fun r => negb (r =? 0)) runes).

(** ** Which checks a cycle makes *)

(** A check that was chosen: whose, for which protocol, and by which judge. *)
Record entry := MkChosen { e_index : nat; e_setting : ProtocolCheckSettings; e_judge : JudgeWithRegex; e_check : workspaceCheck }.

Definition e_transport (e : entry) : string := CheckerPlans.NormalizeTransportProtocol (CheckTransport (e_setting e)).

Definition e_key (e : entry) : string :=
  request_key (judge_id (the_judge (e_judge e))) (nth (e_index e) CheckerProtocols "") (e_transport e) (CheckTimeout (e_setting e)) (CheckRetries (e_setting e)).

(** The request a group of checks shares. *)
Definition request_of (l : list entry) : option requestAssignment :=
  match l with
  | [] => None
  | e :: _ =>
      Some (MkAssigned (the_judge (e_judge e)) (nth (e_index e) CheckerProtocols "") (e_transport e) (Z.of_nat (e_index e) + 1)
              (CheckTimeout (e_setting e)) (CheckRetries (e_setting e)) true (map e_check l))
  end.

Definition group (k : string) (es : list entry) : list entry := List.filter (fun e => String.eqb (e_key e) k) es.

(** The requests are the chosen checks by key. *)
Record grouped (st : cycle) (es : list entry) : Prop := MkGrouped {
  grouped_requests : forall k, requests st !! k = request_of (group k es);
  grouped_owners : forall id, hasChecks st !! id = if existsb (fun e => check_workspace (e_check e) =? id) es then Some true else None
}.

Lemma group_app k es e : group k (es ++ [e]) = if String.eqb (e_key e) k then group k es ++ [e] else group k es.
Proof. unfold group. rewrite List.filter_app. simpl. destruct (String.eqb (e_key e) k); [done|apply app_nil_r]. Qed.

Lemma request_of_app l e :
  (forall e', e' ∈ l -> e_key e' = e_key e) -> request_of (l ++ [e]) =
  Some (let a := default (MkAssigned (the_judge (e_judge e)) (nth (e_index e) CheckerProtocols "") (e_transport e) (Z.of_nat (e_index e) + 1)
                   (CheckTimeout (e_setting e)) (CheckRetries (e_setting e)) true []) (request_of l) in
        MkAssigned (judge a) (proxyProtocol a) (transportProtocol a) (protocolID a) (req_timeout a) (req_retries a) (budgetSet a) (checks a ++ [e_check e])).
Proof. intros _. destruct l as [|e0 l]; [done|]. simpl. by rewrite map_app. Qed.

Lemma add_check_grouped st es e :
  grouped st es -> grouped (add_check (the_judge (e_judge e)) (e_index e) (e_transport e) (e_setting e) (e_check e) st) (es ++ [e]).
Proof.
  intros [Hr Ho]. constructor.
  - intros k. unfold add_check. cbv zeta. cbn [requests]. fold (e_key e). rewrite group_app. destruct (String.eqb_spec (e_key e) k) as [<-|Hne].
    + rewrite lookup_insert_eq, Hr, request_of_app.
      * by destruct (request_of (group (e_key e) es)).
      * intros e' He. apply list_elem_of_In, filter_In in He as [_ He]. by apply String.eqb_eq in He.
    + rewrite lookup_insert_ne by done. apply Hr.
  - intros id. simpl. rewrite existsb_app. simpl. rewrite orb_false_r. destruct (Z.eqb_spec (check_workspace (e_check e)) id) as [->|Hne].
    + by rewrite lookup_insert_eq, orb_true_r.
    + by rewrite lookup_insert_ne, orb_false_r by done.
Qed.

Section BuildFacts.
Context (IsWebsiteBlocked : string -> bool) (table : judge_table) (tick : nat -> Z).

Notation protocol_step := (protocol_step IsWebsiteBlocked table tick).
Notation protocol_steps := (protocol_steps IsWebsiteBlocked table tick).
Notation owner_step := (owner_step IsWebsiteBlocked table tick).
Notation build := (buildRequestAssignments IsWebsiteBlocked table tick).

(** Whether a plan's judges for a protocol are chosen together with other owners. *)
Definition coordinated (coordinate : bool) (plan : Plan) (index : nat) : bool :=
  coordinate && (2 <=? length (nth index (Judges plan) []))%nat && negb (nth index (JudgeSets plan) 0 =? 0).

(** Where a chosen check comes from. *)
Definition chosen_from (value : CheckedWorkspace) (plan : option Plan) (e : entry) : Prop :=
  Enabled (e_setting e) = true /\ check_workspace (e_check e) = ws_id value /\
  regex (e_check e) = Regex (e_judge e) /\ IsWebsiteBlocked (FullString (the_judge (e_judge e))) = false /\
  match plan with
  | Some p => e_judge e ∈ nth (e_index e) (Judges p) [] /\ configKey (e_check e) = nth (e_index e) (Keys p) "" /\ check_headers (e_check e) = Some (Headers p)
  | None => configKey (e_check e) = "" /\ check_headers (e_check e) = None
  end.

(** A check of a coordinated protocol uses the position of the cycle. *)
Definition at_position (coordinate : bool) (st : cycle) (plan : option Plan) (e : entry) : Prop :=
  forall p, plan = Some p -> coordinated coordinate p (e_index e) = true ->
    exists position, picks st !! (e_index e, nth (e_index e) (JudgeSets p) 0) = Some position /\ nth (e_index e) (Judges p) [] !! position = Some (e_judge e).

(** Positions are never changed. *)
Definition extends (st st' : cycle) : Prop := forall k position, picks st !! k = Some position -> picks st' !! k = Some position.

Lemma NextJudge_elem l count x : NextJudge l count = Some x -> x ∈ l.
Proof. unfold NextJudge. destruct (NextJudgeIndex l count); simpl; [|done]. apply list_elem_of_lookup_2. Qed.

Lemma NextJudgeIndex_lt l count i : NextJudgeIndex l count = Some i -> (i < length l)%nat.
Proof.
  unfold NextJudgeIndex. destruct l as [|x [|y l]]; [done|intros [= <-]; simpl; lia|]. intros E.
  assert (i = Z.to_nat (count mod Z.of_nat (length (x :: y :: l)))) as -> by congruence.
  assert (0 <= count mod Z.of_nat (length (x :: y :: l)) < Z.of_nat (length (x :: y :: l))) by (apply Z.mod_pos_bound; rewrite !length_cons; lia). lia.
Qed.

Lemma NextJudgeIndex_None l count : NextJudgeIndex l count = None -> l = [].
Proof. unfold NextJudgeIndex. by destruct l as [|? [|]]. Qed.

Lemma NextJudge_total l count : l <> [] -> exists x, NextJudge l count = Some x.
Proof.
  intros H. unfold NextJudge. destruct (NextJudgeIndex l count) as [i|] eqn:E.
  - simpl. apply lookup_lt_is_Some. by apply NextJudgeIndex_lt in E.
  - by apply NextJudgeIndex_None in E.
Qed.

(** Positions fit the lists of every plan with their set. *)
Definition positions_fit (plans : Plan -> Prop) (st : cycle) : Prop :=
  forall p i position, plans p -> nth i (JudgeSets p) 0 <> 0 -> picks st !! (i, nth i (JudgeSets p) 0) = Some position ->
    (position < length (nth i (Judges p) []))%nat.

(** Plans with one judge set list the same judges. *)
Definition sets_agree (plans : Plan -> Prop) : Prop :=
  forall p q i, plans p -> plans q -> nth i (JudgeSets p) 0 <> 0 -> nth i (JudgeSets p) 0 = nth i (JudgeSets q) 0 ->
    map (fun j => judge_id (the_judge j)) (nth i (Judges p) []) = map (fun j => judge_id (the_judge j)) (nth i (Judges q) []).

Lemma nextPlanJudge_spec coordinate plan index st picked st' :
  nextPlanJudge tick coordinate plan index st = (picked, st') ->
  requests st' = requests st /\ hasChecks st' = hasChecks st /\ extends st st' /\
  (forall jwr, picked = Some jwr -> jwr ∈ nth index (Judges plan) [] /\
     (coordinated coordinate plan index = true ->
        exists position, picks st' !! (index, nth index (JudgeSets plan) 0) = Some position /\ nth index (Judges plan) [] !! position = Some jwr)) /\
  forall plans, plans plan -> sets_agree plans -> positions_fit plans st ->
    positions_fit plans st' /\ (nth index (Judges plan) [] <> [] -> exists jwr, picked = Some jwr).
Proof.
  unfold nextPlanJudge, coordinated, extends. set (list := nth index (Judges plan) []). set (set := nth index (JudgeSets plan) 0).
  destruct (negb coordinate || (length list <? 2)%nat || (set =? 0)) eqn:Ec.
  - intros [= <- <-]. split; [done|]. split; [done|]. split; [done|]. split.
    + intros jwr Hj. split; [by apply NextJudge_elem in Hj|]. intros Hco. exfalso.
      destruct coordinate; [|done]. rewrite andb_true_l in Hco. change (negb true) with false in Ec. rewrite orb_false_l in Ec. apply andb_true_iff in Hco as [Hl Hs]. apply negb_true_iff in Hs. rewrite Hs, orb_false_r in Ec.
      apply Nat.ltb_lt in Ec. apply Nat.leb_le in Hl. lia.
    + intros plans Hp Ha Hf. split; [exact Hf|]. apply NextJudge_total.
  - apply orb_false_iff in Ec as [Ec Hset]. apply orb_false_iff in Ec as [Hco Hlen]. apply Z.eqb_neq in Hset. apply Nat.ltb_ge in Hlen.
    destruct (picks st !! (index, set)) as [position|] eqn:Ep.
    + intros [= <- <-]. split; [done|]. split; [done|]. split; [done|]. split.
      * intros jwr Hj. split; [by apply list_elem_of_lookup_2 in Hj|]. intros _. by exists position.
      * intros plans Hp Ha Hf. split; [exact Hf|]. intros _. apply lookup_lt_is_Some. by apply (Hf plan index position Hp).
    + destruct (NextJudgeIndex list (tick (advanced st))) as [position|] eqn:Ei;
        [|apply NextJudgeIndex_None in Ei; rewrite Ei in Hlen; simpl in Hlen; lia].
      pose proof (NextJudgeIndex_lt _ _ _ Ei) as Hlt. simpl. intros [= <- <-]. simpl. split; [done|]. split; [done|]. split.
      { intros k q Hk. rewrite lookup_insert_ne; [done|]. intros <-. congruence. }
      split.
      * intros jwr Hj. split; [by apply list_elem_of_lookup_2 in Hj|]. intros _. exists position. by rewrite lookup_insert_eq.
      * intros plans Hp Ha Hf. split; [|intros _; by apply lookup_lt_is_Some].
        intros p i q Hpp Hs Hq. simpl in Hq. destruct (decide ((i, nth i (JudgeSets p) 0) = (index, set))) as [E|Ne].
        -- rewrite E, lookup_insert_eq in Hq. injection Hq as <-. injection E as -> E.
           assert (map (fun j => judge_id (the_judge j)) (nth index (Judges p) []) = map (fun j => judge_id (the_judge j)) list) as Hm by (by apply Ha).
           apply (f_equal length) in Hm. rewrite !length_map in Hm. lia.
        -- rewrite lookup_insert_ne in Hq by done. by apply (Hf p i q).
Qed.

Lemma grouped_ext st st' es : requests st' = requests st -> hasChecks st' = hasChecks st -> grouped st es -> grouped st' es.
Proof. intros Hr Ho [H1 H2]. constructor; by rewrite ?Hr, ?Ho. Qed.

Lemma extends_refl st : extends st st.
Proof. by intros k q Hq. Qed.

Lemma extends_trans st1 st2 st3 : extends st1 st2 -> extends st2 st3 -> extends st1 st3.
Proof. intros H1 H2 k q Hq. by apply H2, H1. Qed.

Lemma at_position_extends coordinate st st' plan e : extends st st' -> at_position coordinate st plan e -> at_position coordinate st' plan e.
Proof. intros Hx H p Hp Hc. destruct (H p Hp Hc) as (q & Hq & Hl). exists q. split; [by apply Hx|done]. Qed.

(** The checks chosen for an owner among the protocols [xs]. *)
Record segment (coordinate : bool) (plans : Plan -> Prop) (st : cycle) (value : CheckedWorkspace) (plan : option Plan) (xs : list (nat * ProtocolCheckSettings)) (seg : list entry) : Prop :=
  MkSegment {
    seg_from : forall e, e ∈ seg -> (e_index e, e_setting e) ∈ xs /\ chosen_from value plan e /\ at_position coordinate st plan e;
    seg_once : NoDup (map e_index seg);
    seg_all : forall p i s, plan = Some p -> plans p -> (i, s) ∈ xs -> Enabled s = true -> nth i (Judges p) [] <> [] ->
      (forall j, j ∈ nth i (Judges p) [] -> IsWebsiteBlocked (FullString (the_judge j)) = false) -> i ∈ map e_index seg
  }.

Lemma protocol_step_spec coordinate (plans : Plan -> Prop) value plan index setting st es :
  grouped st es -> sets_agree plans -> positions_fit plans st -> (forall p, plan = Some p -> plans p) ->
  exists seg, let st' := protocol_step coordinate value plan index setting st in
    grouped st' (es ++ seg) /\ extends st st' /\ positions_fit plans st' /\ segment coordinate plans st' value plan [(index, setting)] seg.
Proof.
  intros Hg Ha Hf Hp. unfold CheckCycle.protocol_step. destruct (Enabled setting) eqn:Een; cbn [negb].
  2:{ exists []. rewrite app_nil_r. split; [done|]. split; [apply extends_refl|]. split; [done|]. constructor; [set_solver|constructor|].
      intros p i s _ _ Hin He. apply list_elem_of_singleton in Hin. injection Hin as -> ->. congruence. }
  set (st1 := MkCycle _ _ _ _ _ _ _). set (transport := CheckerPlans.NormalizeTransportProtocol (CheckTransport setting)).
  set (chosen := match plan with Some p => _ | None => _ end).
  assert (exists picked key hs st2, chosen = (picked, key, hs, st2) /\ requests st2 = requests st /\ hasChecks st2 = hasChecks st /\ extends st st2 /\ positions_fit plans st2 /\
    (forall jwr, picked = Some jwr -> match plan with
       | Some p => jwr ∈ nth index (Judges p) [] /\ key = nth index (Keys p) "" /\ hs = Some (Headers p) /\
           (coordinated coordinate p index = true -> exists q, picks st2 !! (index, nth index (JudgeSets p) 0) = Some q /\ nth index (Judges p) [] !! q = Some jwr)
       | None => key = "" /\ hs = None end) /\
    (forall p, plan = Some p -> nth index (Judges p) [] <> [] -> exists jwr, picked = Some jwr)) as (picked & key & hs & st2 & -> & Hr & Hh & Hx & Hf2 & Hpick & Htot).
  { unfold chosen. destruct plan as [p|].
    - destruct (nextPlanJudge tick coordinate p index st1) as [picked st2] eqn:En.
      apply nextPlanJudge_spec in En as (Hr & Hh & Hx & Hj & Hplans). destruct (Hplans plans (Hp p eq_refl) Ha Hf) as [Hf2 Htot].
      exists picked, (nth index (Keys p) ""), (Some (Headers p)), st2. split; [done|]. split; [done|]. split; [done|]. split; [done|]. split; [done|]. split.
      + intros jwr Hjwr. destruct (Hj jwr Hjwr). done.
      + intros q [= <-]. exact Htot.
    - eexists _, "", None, _. split; [done|]. split; [done|]. split; [done|]. split; [by intros k q Hq|]. split; [exact Hf|done]. }
  destruct picked as [jwr|].
  2:{ exists []. rewrite app_nil_r. split; [by apply (grouped_ext st)|]. split; [done|]. split; [done|]. constructor; [set_solver|constructor|].
      intros p i s Hpl _ Hin _ Hne _. apply list_elem_of_singleton in Hin. simplify_eq. by destruct (Htot p eq_refl Hne). }
  destruct (IsWebsiteBlocked (FullString (the_judge jwr))) eqn:Eb.
  { exists []. rewrite app_nil_r. split; [by apply (grouped_ext st)|]. split; [done|]. split; [done|]. constructor; [set_solver|constructor|].
    intros p i s Hpl _ Hin _ _ Hall. apply list_elem_of_singleton in Hin. simplify_eq. destruct (Hpick jwr eq_refl) as (Hin & _). by rewrite (Hall jwr Hin) in Eb. }
  set (e := MkChosen index setting jwr (MkCheckOf (ws_id value) (Regex jwr) key hs)). exists [e]. split; [|split; [|split]].
  - apply (add_check_grouped st2 es e). by apply (grouped_ext st).
  - exact Hx.
  - exact Hf2.
  - specialize (Hpick jwr eq_refl). constructor; [|repeat constructor; set_solver|].
    + intros e' ->%list_elem_of_singleton. split; [simpl; set_solver|]. split.
      * unfold chosen_from. simpl. split; [done|]. split; [done|]. split; [done|]. split; [done|]. destruct plan; tauto.
      * intros p -> Hc. destruct Hpick as (_ & _ & _ & Hpos). by apply Hpos.
    + intros p i s _ _ Hin _ _ _. apply list_elem_of_singleton in Hin. simplify_eq. simpl. set_solver.
Qed.

Lemma segment_extends coordinate plans st st' value plan xs seg :
  extends st st' -> segment coordinate plans st value plan xs seg -> segment coordinate plans st' value plan xs seg.
Proof.
  intros Hx [H1 H2 H3]. constructor; [|done|done]. intros e He. destruct (H1 e He) as (? & ? & ?). split; [done|]. split; [done|].
  by apply at_position_extends with st.
Qed.

Lemma protocol_list_spec coordinate (plans : Plan -> Prop) value plan xs st es :
  grouped st es -> sets_agree plans -> positions_fit plans st -> (forall p, plan = Some p -> plans p) -> NoDup (map fst xs) ->
  exists seg, let st' := fold_left (fun st x => protocol_step coordinate value plan x.1 x.2 st) xs st in
    grouped st' (es ++ seg) /\ extends st st' /\ positions_fit plans st' /\ segment coordinate plans st' value plan xs seg.
Proof.
  intros Hg Ha Hf Hp. revert st es Hg Hf. induction xs as [|[i s] xs IH]; intros st es Hg Hf Hnd; simpl.
  { exists []. rewrite app_nil_r. split; [done|]. split; [apply extends_refl|]. split; [done|]. constructor; [set_solver|constructor|set_solver]. }
  apply NoDup_cons in Hnd as [Hi Hnd].
  destruct (protocol_step_spec coordinate plans value plan i s st es Hg Ha Hf Hp) as (seg1 & Hg1 & Hx1 & Hf1 & Hs1).
  destruct (IH _ _ Hg1 Hf1 Hnd) as (seg2 & Hg2 & Hx2 & Hf2 & Hs2). exists (seg1 ++ seg2). rewrite app_assoc.
  split; [done|]. split; [by eapply extends_trans|]. split; [done|].
  apply (segment_extends _ _ _ _ _ _ _ _ Hx2) in Hs1. destruct Hs1 as [F1 O1 A1], Hs2 as [F2 O2 A2]. constructor.
  - intros e [He|He]%elem_of_app; [destruct (F1 e He) as (H & ?)|destruct (F2 e He) as (H & ?)]; (split; [set_solver|done]).
  - rewrite map_app. apply NoDup_app. split; [done|]. split; [|done]. intros j Hj1 Hj2. apply list_elem_of_fmap in Hj1 as (e1 & -> & He1), Hj2 as (e2 & E & He2).
    destruct (F1 e1 He1) as (H1 & _), (F2 e2 He2) as (H2 & _). apply list_elem_of_singleton in H1. injection H1 as H1 _. apply Hi.
    rewrite <- H1, E. apply list_elem_of_fmap. by exists (e_index e2, e_setting e2).
  - intros p j t Hpl Hpp [Hin|Hin]%elem_of_cons He Hne Hall; rewrite map_app; apply elem_of_app.
    + left. apply (A1 p j t); try done. set_solver.
    + right. by apply (A2 p j t).
Qed.

(** What an owner resolves to. *)
Definition owner_value (o : Z * lookup_result) : option (CheckedWorkspace * option Plan * list ProtocolCheckSettings) :=
  match o.2 with
  | Unknown => None
  | Found value plan => Some (value, Some plan, Settings plan)
  | NotReady queued => Some (queued, None, ResolveCheckerSettings (DefaultCheckerSettings queued) ∅)
  end.

Definition owner_segment (coordinate : bool) (plans : Plan -> Prop) (st : cycle) (o : Z * lookup_result) (seg : list entry) : Prop :=
  match owner_value o with
  | None => seg = []
  | Some (value, plan, resolved) => segment coordinate plans st value plan (imap pair resolved) seg
  end.

Lemma owners_spec coordinate (plans : Plan -> Prop) owners st es :
  grouped st es -> sets_agree plans -> positions_fit plans st -> (forall o p, o ∈ owners -> (exists v, o.2 = Found v p) -> plans p) ->
  exists segs, let st' := fold_left (owner_step coordinate) owners st in
    grouped st' (es ++ concat segs) /\ extends st st' /\ positions_fit plans st' /\ Forall2 (owner_segment coordinate plans st') owners segs.
Proof.
  intros Hg Ha. revert st es Hg. induction owners as [|o owners IH]; intros st es Hg Hf Hp; simpl.
  { exists []. rewrite app_nil_r. split; [done|]. split; [apply extends_refl|]. split; [done|constructor]. }
  assert (exists seg, grouped (owner_step coordinate st o) (es ++ seg) /\ extends st (owner_step coordinate st o) /\
    positions_fit plans (owner_step coordinate st o) /\ owner_segment coordinate plans (owner_step coordinate st o) o seg) as (seg & Hg1 & Hx1 & Hf1 & Hs1).
  { unfold CheckCycle.owner_step, owner_segment, owner_value, CheckCycle.protocol_steps. set (st1 := MkCycle _ _ _ _ _ _ _).
    assert (grouped st1 es) as Hg1 by (by apply (grouped_ext st)).
    assert (forall l : list ProtocolCheckSettings, NoDup (map fst (imap pair l))) as Hnd by (intros l; change (NoDup (imap pair l).*1); rewrite imap_pair_fst; apply NoDup_seq).
    destruct o as [id [queued| |value plan]]; simpl.
    - destruct (protocol_list_spec coordinate plans queued None (imap pair (ResolveCheckerSettings (DefaultCheckerSettings queued) ∅)) st1 es Hg1 Ha Hf ltac:(done) (Hnd _))
        as (seg & H1 & H2 & H3 & H4). exists seg. split; [exact H1|]. split; [exact H2|]. by split.
    - exists []. rewrite app_nil_r. split; [exact Hg1|]. split; [by intros k q Hq|]. by split.
    - destruct (protocol_list_spec coordinate plans value (Some plan) (imap pair (Settings plan)) st1 es Hg1 Ha Hf) as (seg & H1 & H2 & H3 & H4); [|by apply Hnd|].
      { intros p [= <-]. apply (Hp (id, Found value plan)); [set_solver|by exists value]. }
      exists seg. split; [exact H1|]. split; [exact H2|]. by split. }
  destruct (IH _ _ Hg1 Hf1) as (segs & Hg2 & Hx2 & Hf2 & Hs2); [intros o' q Ho' Hv; apply (Hp o' q); [by apply elem_of_cons; right|exact Hv]|].
  exists (seg :: segs). simpl. rewrite app_assoc. split; [done|]. split; [by eapply extends_trans|]. split; [done|]. constructor; [|done].
  unfold owner_segment in *. destruct (owner_value o) as [[[value plan] resolved]|]; [|done]. by apply segment_extends with (owner_step coordinate st o).
Qed.

(** The plans of the owners. *)
Definition plans_of (owners : list (Z * lookup_result)) (p : Plan) : Prop := exists o v, o ∈ owners /\ o.2 = Found v p.

Lemma chosen_checks_spec owners :
  sets_agree (plans_of owners) ->
  exists segs, grouped (build owners) (concat segs) /\
    Forall2 (owner_segment (1 <? length owners)%nat (plans_of owners) (build owners)) owners segs.
Proof.
  intros Ha. destruct (owners_spec (1 <? length owners)%nat (plans_of owners) owners (MkCycle ∅ ∅ ∅ ∅ 0 0 0) []) as (segs & Hg & _ & _ & Hs);
    [by constructor|done|by intros p i q|by intros o p Ho (v & Hv); exists o, v|]. by exists segs.
Qed.

(** Values of their machine types, and an array of four settings. *)
Definition plan_typed (p : Plan) : Prop :=
  length (Settings p) = 4%nat /\ (forall s, s ∈ Settings p -> 0 <= CheckTimeout s < 2 ^ 16 /\ 0 <= CheckRetries s < 2 ^ 8) /\
  forall i j, j ∈ nth i (Judges p) [] -> 0 <= judge_id (the_judge j) < 2 ^ 63.

(** Snapshots are ready, owners distinct and their plans well formed. *)
Record owners_ok (owners : list (Z * lookup_result)) : Prop := MkOwnersOk {
  owners_distinct : NoDup (map fst owners);
  owners_ready : forall o v, o ∈ owners -> o.2 <> NotReady v;
  owners_named : forall o v p, o ∈ owners -> o.2 = Found v p -> ws_id v = o.1;
  owners_typed : forall p, plans_of owners p -> plan_typed p;
  owners_agree : sets_agree (plans_of owners)
}.

Lemma plain_itoa n : 0 <= n -> index_byte (chr 95) (itoa n) = None.
Proof. intros Hn. apply index_byte_None. eapply Forall_impl; [apply (itoa_digits n Hn)|]. intros c Hc ->. by vm_compute in Hc. Qed.

Lemma itoa_inj m n : in_i64 m -> in_i64 n -> itoa m = itoa n -> m = n.
Proof. intros Hm Hn H. apply (f_equal parse_int) in H. rewrite !parse_int_itoa in H by done. by injection H. Qed.

Lemma transport_plain t : CheckerPlans.NormalizeTransportProtocol t ∈ ["tcp"; "quic"; "http3"].
Proof. unfold CheckerPlans.NormalizeTransportProtocol. case_bool_decide; [done|set_solver]. Qed.

Lemma request_key_inj j i s t j' i' s' t' :
  0 <= j < 2 ^ 63 -> 0 <= j' < 2 ^ 63 -> (i < 4)%nat -> (i' < 4)%nat -> t ∈ ["tcp"; "quic"; "http3"] -> t' ∈ ["tcp"; "quic"; "http3"] ->
  0 <= CheckTimeout s < 2 ^ 16 -> 0 <= CheckRetries s < 2 ^ 8 -> 0 <= CheckTimeout s' < 2 ^ 16 -> 0 <= CheckRetries s' < 2 ^ 8 ->
  request_key j (nth i CheckerProtocols "") t (CheckTimeout s) (CheckRetries s) =
  request_key j' (nth i' CheckerProtocols "") t' (CheckTimeout s') (CheckRetries s') ->
  j = j' /\ i = i' /\ t = t' /\ CheckTimeout s = CheckTimeout s' /\ CheckRetries s = CheckRetries s'.
Proof.
  intros Hj Hj' Hi Hi' Ht Ht' H1 H2 H1' H2' H. unfold request_key in H.
  assert (forall i, (i < 4)%nat -> index_byte (chr 95) (nth i CheckerProtocols "") = None) as Hproto by (intros [|[|[|[|k]]]] Hk; try done; lia).
  assert (forall t, t ∈ ["tcp"; "quic"; "http3"] -> index_byte (chr 95) t = None) as Htrans
    by (intros x Hx; rewrite !elem_of_cons, elem_of_nil in Hx; destruct Hx as [->|[->|[->|[]]]]; done).
  change "_" with (String (chr 95) "") in H. apply (f_equal (split_byte (chr 95))) in H.
  rewrite !split_join_byte in H by (try done; repeat constructor; auto using plain_itoa, Z.lt_le_incl; apply plain_itoa; lia).
  injection H as E1 E2 E3 E4 E5. split; [apply itoa_inj in E1; unfold in_i64; lia|]. split.
  { destruct i as [|[|[|[|i]]]], i' as [|[|[|[|i']]]]; try done; try lia. }
  split; [done|]. split; [apply itoa_inj in E4; unfold in_i64; lia|apply itoa_inj in E5; unfold in_i64; lia].
Qed.

Definition e_tag (e : entry) : Z * nat := (check_workspace (e_check e), e_index e).

Lemma NoDup_single {A B} (f : A -> B) (l : list A) x : NoDup (map f l) -> x ∈ l -> (forall y, y ∈ l -> f y = f x) -> l = [x].
Proof.
  intros Hnd Hx Hall. destruct l as [|a [|b l]]; [set_solver|set_solver|]. exfalso. simpl in Hnd. apply NoDup_cons in Hnd as [Hn _]. apply Hn.
  rewrite (Hall a), (Hall b) by set_solver. set_solver.
Qed.

(** Every chosen check belongs to one owner's segment. *)
Lemma entry_source owners segs e coordinate st :
  owners_ok owners -> Forall2 (owner_segment coordinate (plans_of owners) st) owners segs -> e ∈ concat segs ->
  exists o v p, o ∈ owners /\ o.2 = Found v p /\ check_workspace (e_check e) = o.1 /\ Settings p !! e_index e = Some (e_setting e) /\
    chosen_from v (Some p) e /\ at_position coordinate st (Some p) e.
Proof.
  intros Hok Hsegs He. apply list_elem_of_In, in_concat in He as (seg & Hseg & He). apply list_elem_of_In in Hseg, He.
  apply list_elem_of_lookup in Hseg as [n Hn]. destruct (Forall2_lookup_r _ _ _ _ _ Hsegs Hn) as (o & Ho & Hs). apply list_elem_of_lookup_2 in Ho.
  unfold owner_segment, owner_value in Hs. destruct o as [id [q| |v p]]; [by destruct (owners_ready _ Hok (id, NotReady q) q Ho)|simpl in Hs; subst; set_solver|].
  destruct Hs as [Hfrom _ _]. destruct (Hfrom e He) as (Hin & Hc & Hpos). exists (id, Found v p), v, p. split; [done|]. split; [done|].
  pose proof Hc as (_ & Hws & _). split; [rewrite Hws; exact (owners_named _ Hok (id, Found v p) v p Ho eq_refl)|].
  apply elem_of_lookup_imap in Hin as (i & s & E & Hi). injection E as <- <-. by split.
Qed.

Lemma entries_NoDup owners segs coordinate plans st :
  NoDup (map fst owners) -> (forall o v, o ∈ owners -> o.2 <> NotReady v) -> (forall o v p, o ∈ owners -> o.2 = Found v p -> ws_id v = o.1) ->
  Forall2 (owner_segment coordinate plans st) owners segs ->
  NoDup (map e_tag (concat segs)) /\ forall e, e ∈ concat segs -> check_workspace (e_check e) ∈ map fst owners.
Proof.
  intros Hnd Hready Hnamed Hsegs. induction Hsegs as [|o seg owners segs Hs Hsegs IH]; simpl; [split; [constructor|set_solver]|].
  simpl in Hnd. apply NoDup_cons in Hnd as [Ho Hnd]. destruct IH as [IHn IHin]; [done|intros; apply Hready; set_solver|intros; eapply Hnamed; set_solver|].
  assert (NoDup (map e_index seg) /\ forall e, e ∈ seg -> check_workspace (e_check e) = o.1) as [Hseg Hws].
  { unfold owner_segment, owner_value in Hs. destruct o as [id [q| |v p]]; [by destruct (Hready (id, NotReady q) q ltac:(set_solver))|simpl in Hs; subst; split; [constructor|set_solver]|].
    destruct Hs as [Hfrom Honce _]. split; [done|]. intros e He. destruct (Hfrom e He) as (_ & (_ & -> & _) & _).
    by apply (Hnamed (id, Found v p) v p ltac:(set_solver)). }
  split.
  - rewrite map_app. apply NoDup_app. split; [|split; [|done]].
    + apply (NoDup_fmap_1 snd). change (NoDup (map snd (map e_tag seg))). by rewrite map_map.
    + intros t Ht1 Ht2. apply list_elem_of_fmap in Ht1 as (e1 & -> & He1), Ht2 as (e2 & E & He2). injection E as E _. apply Ho.
      rewrite <- (Hws e1 He1), E. by apply IHin.
  - intros e [He|He]%elem_of_app; [rewrite (Hws e He); set_solver|]. specialize (IHin e He). set_solver.
Qed.

Lemma entry_typed owners segs e coordinate st :
  owners_ok owners -> Forall2 (owner_segment coordinate (plans_of owners) st) owners segs -> e ∈ concat segs ->
  (e_index e < 4)%nat /\ 0 <= judge_id (the_judge (e_judge e)) < 2 ^ 63 /\ 0 <= CheckTimeout (e_setting e) < 2 ^ 16 /\ 0 <= CheckRetries (e_setting e) < 2 ^ 8.
Proof.
  intros Hok Hsegs He. destruct (entry_source owners segs e coordinate st Hok Hsegs He) as (o & v & p & Ho & Hp & _ & Hi & (_ & _ & _ & _ & Hj & _) & _).
  destruct (owners_typed _ Hok p ltac:(by exists o, v)) as (H4 & Hs & Hjs). split; [apply lookup_lt_Some in Hi; lia|]. split; [by apply (Hjs (e_index e))|].
  apply Hs. by apply list_elem_of_lookup_2 in Hi.
Qed.

Lemma e_key_inj owners segs coordinate st e e' :
  owners_ok owners -> Forall2 (owner_segment coordinate (plans_of owners) st) owners segs -> e ∈ concat segs -> e' ∈ concat segs -> e_key e = e_key e' ->
  judge_id (the_judge (e_judge e)) = judge_id (the_judge (e_judge e')) /\ e_index e = e_index e' /\ e_transport e = e_transport e' /\
  CheckTimeout (e_setting e) = CheckTimeout (e_setting e') /\ CheckRetries (e_setting e) = CheckRetries (e_setting e').
Proof.
  intros Hok Hsegs He He' Hk. destruct (entry_typed _ _ _ _ _ Hok Hsegs He) as (H1 & H2 & H3 & H4).
  destruct (entry_typed _ _ _ _ _ Hok Hsegs He') as (H1' & H2' & H3' & H4').
  apply request_key_inj in Hk; [done|done|done|done|done|apply transport_plain|apply transport_plain|done..].
Qed.

(** An enabled protocol with judges nobody blocks is checked for its owner. *)
Definition must_check (owners : list (Z * lookup_result)) (id : Z) (p : Plan) (i : nat) (s : ProtocolCheckSettings) : Prop :=
  (exists v, (id, Found v p) ∈ owners) /\ Settings p !! i = Some s /\ Enabled s = true /\ nth i (Judges p) [] <> [] /\
  forall j, j ∈ nth i (Judges p) [] -> IsWebsiteBlocked (FullString (the_judge j)) = false.

(** The entry that carries it out. *)
Lemma must_check_entry owners segs id p i s st :
  owners_ok owners -> Forall2 (owner_segment (1 <? length owners)%nat (plans_of owners) st) owners segs -> must_check owners id p i s ->
  exists e v, e ∈ concat segs /\ check_workspace (e_check e) = id /\ e_index e = i /\ e_setting e = s /\ chosen_from v (Some p) e /\
    at_position (1 <? length owners)%nat st (Some p) e.
Proof.
  intros Hok Hsegs ((v & Ho) & Hi & He & Hne & Hall). pose proof Ho as Ho'. apply list_elem_of_lookup in Ho as [n Hn].
  destruct (Forall2_lookup_l _ _ _ _ _ Hsegs Hn) as (seg & Hseg & Hs). unfold owner_segment, owner_value in Hs. simpl in Hs. destruct Hs as [Hfrom Honce Hcomp].
  assert (plans_of owners p) as Hp by (by exists (id, Found v p), v).
  assert (i ∈ map e_index seg) as Hin.
  { apply (Hcomp p i s eq_refl Hp); try done. apply elem_of_lookup_imap. by exists i, s. }
  apply list_elem_of_fmap in Hin as (e & -> & Hin). destruct (Hfrom e Hin) as (Hx & Hc & Hpos). exists e, v.
  split; [apply list_elem_of_In, in_concat; exists seg; split; apply list_elem_of_In; [by apply list_elem_of_lookup_2 in Hseg|done]|].
  split; [pose proof Hc as (_ & -> & _); exact (owners_named _ Hok (id, Found v p) v p Ho' eq_refl)|]. split; [done|].
  apply elem_of_lookup_imap in Hx as (j & s' & E & Hj). injection E as <- <-. split; [congruence|]. by split.
Qed.

(** The request of an entry holds its check, and no other of the same owner. *)
Lemma entry_request owners segs e :
  owners_ok owners -> grouped (build owners) (concat segs) -> Forall2 (owner_segment (1 <? length owners)%nat (plans_of owners) (build owners)) owners segs ->
  e ∈ concat segs ->
  exists a, requests (build owners) !! e_key e = Some a /\ protocolID a = Z.of_nat (e_index e) + 1 /\ proxyProtocol a = nth (e_index e) CheckerProtocols "" /\
    transportProtocol a = e_transport e /\ req_timeout a = CheckTimeout (e_setting e) /\ req_retries a = CheckRetries (e_setting e) /\ budgetSet a = true /\
    judge_id (judge a) = judge_id (the_judge (e_judge e)) /\
    List.filter (fun c => check_workspace c =? check_workspace (e_check e)) (checks a) = [e_check e].
Proof.
  intros Hok [Hr _] Hsegs He. rewrite Hr. assert (e ∈ group (e_key e) (concat segs)) as Hin
    by (apply list_elem_of_In, filter_In; split; [by apply list_elem_of_In|apply String.eqb_refl]).
  assert (forall e', e' ∈ group (e_key e) (concat segs) -> e' ∈ concat segs /\ e_key e' = e_key e) as Hgroup.
  { intros e' He'. apply list_elem_of_In, filter_In in He' as [He' Hk]. apply String.eqb_eq in Hk. split; [by apply list_elem_of_In|done]. }
  assert (NoDup (map e_tag (group (e_key e) (concat segs)))) as Hnd.
  { apply NoDup_map_filter. apply (entries_NoDup owners segs (1 <? length owners)%nat (plans_of owners) (build owners)); [apply Hok|apply Hok|apply Hok|done]. }
  revert Hin Hgroup Hnd. generalize (group (e_key e) (concat segs)). intros l Hin Hgroup Hnd.
  assert (List.filter (fun e' => check_workspace (e_check e') =? check_workspace (e_check e)) l = [e]) as Hone.
  { apply (NoDup_single e_tag); [by apply NoDup_map_filter|apply list_elem_of_In, filter_In; split; [by apply list_elem_of_In|apply Z.eqb_refl]|].
    intros e' He'. apply list_elem_of_In, filter_In in He' as [He' Hw]. apply list_elem_of_In in He'. apply Z.eqb_eq in Hw.
    destruct (Hgroup e' He') as [Hc Hk]. destruct (e_key_inj _ _ _ _ _ _ Hok Hsegs Hc He Hk) as (_ & Hi & _). unfold e_tag. by rewrite Hw, Hi. }
  destruct l as [|e0 l]; [set_solver|]. destruct (Hgroup e0 ltac:(set_solver)) as [Hc0 Hk0].
  destruct (e_key_inj _ _ _ _ _ _ Hok Hsegs Hc0 He Hk0) as (Hj & Hi & Ht & Hto & Hre). eexists. split; [done|].
  cbn [judge proxyProtocol transportProtocol protocolID req_timeout req_retries budgetSet checks].
  rewrite Hi, Ht, Hto, Hre, Hj. split_and!; try done.
  change (e_check e0 :: map e_check l) with (map e_check (e0 :: l)). rewrite filter_map_comm. by rewrite Hone.
Qed.

(** A check of an owner in a request is one of its entries. *)
Lemma check_entry owners segs k a c :
  grouped (build owners) (concat segs) -> requests (build owners) !! k = Some a -> c ∈ checks a ->
  exists e, e ∈ concat segs /\ e_key e = k /\ e_check e = c.
Proof.
  intros [Hr _] Ha Hc. rewrite Hr in Ha. unfold request_of in Ha. destruct (group k (concat segs)) as [|e0 l] eqn:E; [done|]. injection Ha as <-. simpl in Hc.
  change (e_check e0 :: map e_check l) with (map e_check (e0 :: l)) in Hc. rewrite <- E in Hc. apply list_elem_of_fmap in Hc as (e & -> & He).
  apply list_elem_of_In, filter_In in He as [He Hk]. exists e. split; [by apply list_elem_of_In|]. split; [by apply String.eqb_eq|done].
Qed.

(** Two entries of one owner and protocol are one. *)
Lemma entry_unique owners segs e e' :
  owners_ok owners -> Forall2 (owner_segment (1 <? length owners)%nat (plans_of owners) (build owners)) owners segs ->
  e ∈ concat segs -> e' ∈ concat segs -> e_tag e' = e_tag e -> e' = e.
Proof.
  intros Hok Hsegs He He' Htag.
  destruct (entries_NoDup owners segs (1 <? length owners)%nat (plans_of owners) (build owners)) as [Hnd _]; [apply Hok|apply Hok|apply Hok|done|].
  apply list_elem_of_lookup in He' as [n Hn], He as [m Hm].
  assert (n = m) as -> by (apply (NoDup_lookup _ n m (e_tag e) Hnd); rewrite list_lookup_fmap; [rewrite Hn; simpl; by rewrite Htag|by rewrite Hm]).
  congruence.
Qed.

(** A check that a request with key [k] makes for an owner. *)
Definition made (owners : list (Z * lookup_result)) (k : string) (a : requestAssignment) (c : workspaceCheck) : Prop :=
  requests (build owners) !! k = Some a /\ c ∈ checks a.

(** C21. The requests of a cycle hold nothing but checks of enabled protocols of
    the owners: each by one of the owner's own judges that is not blocked, with
    the owner's own transport, timeout, retries, validation and evidence key,
    whatever the other owners share of that request.  No owner's protocol is
    checked twice; an enabled one none of whose judges is blocked is checked, if
    it has judges at all (the round robin may land on a blocked one otherwise);
    and an owner counts as checked when some request has a check for it. *)
Theorem owner_checked_once owners :
  owners_ok owners ->
  (forall k a c, made owners k a c ->
     exists v p i s jwr, (check_workspace c, Found v p) ∈ owners /\ Settings p !! i = Some s /\ Enabled s = true /\
       protocolID a = Z.of_nat i + 1 /\ transportProtocol a = CheckerPlans.NormalizeTransportProtocol (CheckTransport s) /\
       req_timeout a = CheckTimeout s /\ req_retries a = CheckRetries s /\
       jwr ∈ nth i (Judges p) [] /\ IsWebsiteBlocked (FullString (the_judge jwr)) = false /\ judge_id (judge a) = judge_id (the_judge jwr) /\
       regex c = Regex jwr /\ configKey c = nth i (Keys p) "" /\ check_headers c = Some (Headers p)) /\
  (forall k a c k' a' c', made owners k a c -> made owners k' a' c' -> check_workspace c' = check_workspace c -> protocolID a' = protocolID a ->
     k' = k /\ List.filter (fun c' => check_workspace c' =? check_workspace c) (checks a) = [c]) /\
  (forall id p i s, must_check owners id p i s -> exists k a c, made owners k a c /\ check_workspace c = id /\ protocolID a = Z.of_nat i + 1) /\
  (forall id, hasChecks (build owners) !! id = Some true <-> exists k a c, made owners k a c /\ check_workspace c = id).
Proof.
  intros Hok. destruct (chosen_checks_spec owners (owners_agree _ Hok)) as (segs & Hg & Hsegs).
  assert (forall e, e ∈ concat segs -> exists a, made owners (e_key e) a (e_check e) /\ protocolID a = Z.of_nat (e_index e) + 1) as Hmade.
  { intros e He. destruct (entry_request owners segs e Hok Hg Hsegs He) as (a & Ha & Hp & _ & _ & _ & _ & _ & _ & Hone).
    exists a. split; [split; [done|]|done]. assert (e_check e ∈ [e_check e]) as H by set_solver. rewrite <- Hone in H.
    by apply list_elem_of_In, filter_In in H as [H%list_elem_of_In _]. }
  split; [|split; [|split]].
  - intros k a c [Ha Hc]. destruct (check_entry owners segs k a c Hg Ha Hc) as (e & He & <- & <-).
    destruct (entry_source owners segs e _ _ Hok Hsegs He) as (o & v & p & Ho & Hf & Hws & Hi & (Hen & _ & Hrx & Hb & Hj & Hkey & Hhs) & _).
    destruct (entry_request owners segs e Hok Hg Hsegs He) as (a2 & Ha2 & Hp & _ & Ht & Hto & Hre & _ & Hjid & _). rewrite Ha in Ha2. injection Ha2 as <-.
    exists v, p, (e_index e), (e_setting e), (e_judge e). split; [rewrite Hws, <- Hf; by destruct o|]. by split_and!.
  - intros k a c k' a' c' [Ha Hc] [Ha' Hc'] Hw Hp'. destruct (check_entry owners segs k a c Hg Ha Hc) as (e & He & <- & <-).
    destruct (check_entry owners segs k' a' c' Hg Ha' Hc') as (e' & He' & <- & <-).
    destruct (entry_request owners segs e Hok Hg Hsegs He) as (a2 & Ha2 & Hp & _ & _ & _ & _ & _ & _ & Hone). rewrite Ha in Ha2. injection Ha2 as <-.
    destruct (entry_request owners segs e' Hok Hg Hsegs He') as (a2 & Ha2 & Hp2 & _). rewrite Ha' in Ha2. injection Ha2 as <-.
    assert (e' = e) as -> by (apply (entry_unique owners segs); try done; unfold e_tag; rewrite Hw; f_equal; lia). done.
  - intros id p i s Hmust. destruct (must_check_entry _ _ _ _ _ _ _ Hok Hsegs Hmust) as (e & v & He & Hid & Hi & _). destruct (Hmade e He) as (a & Hm & Hp).
    exists (e_key e), a, (e_check e). split; [done|]. split; [done|]. by rewrite <- Hi.
  - intros id. rewrite (grouped_owners _ _ Hg). destruct (existsb (fun e => check_workspace (e_check e) =? id) (concat segs)) eqn:E.
    + split; [intros _|done]. apply existsb_exists in E as (e & He%list_elem_of_In & Hw%Z.eqb_eq). destruct (Hmade e He) as (a & Hm & _).
      by exists (e_key e), a, (e_check e).
    + split; [done|]. intros (k & a & c & [Ha Hc] & Hw). exfalso. destruct (check_entry owners segs k a c Hg Ha Hc) as (e & He & _ & <-).
      apply not_true_iff_false in E. apply E, existsb_exists. exists e. split; [by apply list_elem_of_In|by apply Z.eqb_eq].
Qed.

(** C20. Owners whose plans list the same judges for a protocol, with the same
    transport, timeout and retries, are checked by the same request, wherever
    their own round robins stand. *)
Theorem owners_share_requests owners id1 p1 s1 id2 p2 s2 i :
  owners_ok owners -> must_check owners id1 p1 i s1 -> must_check owners id2 p2 i s2 -> id1 <> id2 ->
  nth i (JudgeSets p1) 0 <> 0 -> nth i (JudgeSets p1) 0 = nth i (JudgeSets p2) 0 ->
  CheckTransport s1 = CheckTransport s2 -> CheckTimeout s1 = CheckTimeout s2 -> CheckRetries s1 = CheckRetries s2 ->
  exists k a c1 c2, requests (build owners) !! k = Some a /\ protocolID a = Z.of_nat i + 1 /\
    c1 ∈ checks a /\ check_workspace c1 = id1 /\ c2 ∈ checks a /\ check_workspace c2 = id2.
Proof.
  intros Hok Hm1 Hm2 Hne Hset Hsame Htr Hto Hre. destruct (chosen_checks_spec owners (owners_agree _ Hok)) as (segs & Hg & Hsegs).
  destruct (must_check_entry _ _ _ _ _ _ _ Hok Hsegs Hm1) as (e1 & v1 & He1 & Hid1 & Hi1 & Hs1 & (_ & _ & _ & _ & Hj1 & _) & Hpos1).
  destruct (must_check_entry _ _ _ _ _ _ _ Hok Hsegs Hm2) as (e2 & v2 & He2 & Hid2 & Hi2 & Hs2 & (_ & _ & _ & _ & Hj2 & _) & Hpos2). subst i s1 s2.
  rewrite Hi2 in *. destruct Hm1 as ((w1 & Ho1) & _), Hm2 as ((w2 & Ho2) & _).
  assert (plans_of owners p1) as Hp1 by (by exists (id1, Found w1 p1), w1). assert (plans_of owners p2) as Hp2 by (by exists (id2, Found w2 p2), w2).
  pose proof (owners_agree _ Hok p1 p2 (e_index e1) Hp1 Hp2 Hset Hsame) as Hids.
  assert (judge_id (the_judge (e_judge e1)) = judge_id (the_judge (e_judge e2))) as Hj.
  { pose proof (f_equal length Hids) as Hlen. rewrite !length_map in Hlen. destruct (nth (e_index e1) (Judges p1) []) as [|x [|y l]] eqn:El1; [set_solver| |].
    - destruct (nth (e_index e1) (Judges p2) []) as [|x' [|]] eqn:El2; try done. apply list_elem_of_singleton in Hj1, Hj2. subst. by injection Hids.
    - assert ((1 <? length owners)%nat = true) as Hco.
      { apply Nat.ltb_lt. destruct owners as [|o1 [|o2 os]]; [set_solver| |simpl; lia]. apply list_elem_of_singleton in Ho1, Ho2. congruence. }
      rewrite Hco in *. assert (coordinated true p1 (e_index e1) = true) as Hc1
        by (unfold coordinated; rewrite El1; apply negb_true_iff, Z.eqb_neq; exact Hset).
      assert (coordinated true p2 (e_index e2) = true) as Hc2.
      { unfold coordinated. rewrite Hi2, <- Hlen. apply negb_true_iff, Z.eqb_neq. congruence. }
      destruct (Hpos1 p1 eq_refl Hc1) as (q1 & Hq1 & Hl1), (Hpos2 p2 eq_refl Hc2) as (q2 & Hq2 & Hl2). rewrite Hi2 in Hq2, Hl2. rewrite Hsame, Hq2 in Hq1. injection Hq1 as ->.
      rewrite El1 in Hl1. apply (f_equal (fun l => l !! q1)) in Hids. rewrite !list_lookup_fmap, Hl1, Hl2 in Hids. by injection Hids. }
  assert (e_key e2 = e_key e1) as Hk by (unfold e_key, e_transport; by rewrite Hj, Hi2, Htr, Hto, Hre).
  destruct (entry_request owners segs e1 Hok Hg Hsegs He1) as (a & Ha & Hp & _ & _ & _ & _ & _ & _ & Hone1).
  destruct (entry_request owners segs e2 Hok Hg Hsegs He2) as (a2 & Ha2 & _ & _ & _ & _ & _ & _ & _ & Hone2). rewrite Hk, Ha in Ha2. injection Ha2 as <-.
  exists (e_key e1), a, (e_check e1), (e_check e2). split; [done|]. split; [done|].
  assert (forall e : entry, List.filter (fun c => check_workspace c =? check_workspace (e_check e)) (checks a) = [e_check e] -> e_check e ∈ checks a) as Hin.
  { intros e Hone. assert (e_check e ∈ [e_check e]) as H by set_solver. rewrite <- Hone in H. by apply list_elem_of_In, filter_In in H as [H%list_elem_of_In _]. }
  split; [by apply Hin|]. split; [done|]. split; [by apply Hin|done].
Qed.

End BuildFacts.

(** ** Verdicts *)

Lemma protocol_step_success blocked table tick coordinate value plan index setting st :
  success (protocol_step blocked table tick coordinate value plan index setting st) = success st.
Proof.
  unfold protocol_step. destruct (Enabled setting); [|done]. cbn [negb]. destruct plan as [p|].
  - destruct (nextPlanJudge _ _ _ _ _) as [picked st2] eqn:E. assert (success st2 = success st) as Hs.
    { unfold nextPlanJudge in E. destruct (_ || _); [by injection E as _ <-|]. destruct (picks _ !! _); by injection E as _ <-. }
    destruct picked as [jwr|]; [|done]. by destruct (blocked _).
  - destruct (GetNextJudge _ _ _ _) as [jwr|]; [|done]. by destruct (blocked _).
Qed.

Lemma build_success blocked table tick owners id : success (buildRequestAssignments blocked table tick owners) !! id <> Some true.
Proof.
  unfold buildRequestAssignments. generalize (1 <? length owners)%nat. intros b.
  assert (forall st, success st !! id <> Some true -> success (fold_left (owner_step blocked table tick b) owners st) !! id <> Some true) as H; [|by apply H].
  induction owners as [|o owners IH]; intros st Hst; [done|]. simpl. apply IH. clear IH. unfold owner_step.
  assert (forall value plan l st1, success (protocol_steps blocked table tick b value plan l st1) = success st1) as Hsteps.
  { intros value plan l st1. unfold protocol_steps. generalize (imap pair l). intros xs. revert st1. induction xs as [|x xs IH]; intros st1; [done|].
    simpl. rewrite IH. apply protocol_step_success. }
  assert (<[o.1 := false]> (success st) !! id <> Some true) as Hins.
  { destruct (decide (o.1 = id)) as [<-|Hne]; [by rewrite lookup_insert_eq|by rewrite lookup_insert_ne]. }
  destruct (o.2); rewrite ?Hsteps; exact Hins.
Qed.

(** ** Where the checks of a request come from *)

(** Made for an owner whose plan is not known yet, or for an enabled protocol of an owner's plan. *)
Definition check_source (owners : list (Z * lookup_result)) (c : workspaceCheck) : Prop :=
  (configKey c = "" /\ check_headers c = None) \/
  exists o v p i s, o ∈ owners /\ o.2 = Found v p /\ Settings p !! i = Some s /\ Enabled s = true /\
    configKey c = nth i (Keys p) "" /\ check_headers c = Some (Headers p).

Definition all_checks (P : workspaceCheck -> Prop) (st : cycle) : Prop := forall k a c, requests st !! k = Some a -> c ∈ checks a -> P c.

Lemma add_check_all P j index transport setting check st :
  P check -> all_checks P st -> all_checks P (add_check j index transport setting check st).
Proof.
  intros Hc Hst k a c. unfold add_check. cbv zeta. cbn [requests]. set (key := request_key _ _ _ _ _). destruct (decide (key = k)) as [->|Hne].
  - rewrite lookup_insert_eq. intros [= <-]. cbn [checks]. intros [Hin|Hin]%elem_of_app; [|by apply list_elem_of_singleton in Hin as ->].
    destruct (requests st !! k) as [a|] eqn:E; [by eapply Hst|]. by apply not_elem_of_nil in Hin.
  - rewrite lookup_insert_ne by done. apply Hst.
Qed.

Lemma nextPlanJudge_requests tick coordinate plan index st picked st' :
  nextPlanJudge tick coordinate plan index st = (picked, st') -> requests st' = requests st.
Proof.
  unfold nextPlanJudge. cbv zeta. destruct (_ || _); [by intros [= _ <-]|]. destruct (picks st !! _); by intros [= _ <-].
Qed.

Lemma protocol_step_all blocked table tick P coordinate value plan index setting st :
  (forall jwr, Enabled setting = true -> P (MkCheckOf (ws_id value) (Regex jwr)
    (match plan with Some p => nth index (Keys p) "" | None => "" end) (match plan with Some p => Some (Headers p) | None => None end))) ->
  all_checks P st -> all_checks P (protocol_step blocked table tick coordinate value plan index setting st).
Proof.
  intros HP Hst. unfold protocol_step. destruct (Enabled setting); cbn [negb]; [|done]. destruct plan as [p|].
  - destruct (nextPlanJudge _ _ _ _ _) as [picked st2] eqn:E. apply nextPlanJudge_requests in E.
    assert (all_checks P st2) as H2 by (intros k a c; rewrite E; apply Hst).
    destruct picked as [jwr|]; [|done]. destruct (blocked _); [done|]. apply add_check_all; [by apply HP|done].
  - destruct (GetNextJudge _ _ _ _) as [jwr|]; [|done]. destruct (blocked _); [done|]. apply add_check_all; [by apply HP|done].
Qed.

Lemma build_sources blocked table tick owners : all_checks (check_source owners) (buildRequestAssignments blocked table tick owners).
Proof.
  unfold buildRequestAssignments. generalize (1 <? length owners)%nat. intros b.
  assert (forall l st, (forall o, o ∈ l -> o ∈ owners) -> all_checks (check_source owners) st ->
    all_checks (check_source owners) (fold_left (owner_step blocked table tick b) l st)) as H; [|apply H; [done|by intros k a c]].
  assert (forall value plan xs st,
    (forall i s, (i, s) ∈ xs -> Enabled s = true -> forall jwr, check_source owners (MkCheckOf (ws_id value) (Regex jwr)
      (match plan with Some p => nth i (Keys p) "" | None => "" end) (match plan with Some p => Some (Headers p) | None => None end))) ->
    all_checks (check_source owners) st ->
    all_checks (check_source owners) (fold_left (fun st x => protocol_step blocked table tick b value plan x.1 x.2 st) xs st)) as Hsteps.
  { intros value plan xs. induction xs as [|[i s] xs IH]; intros st Hxs Hst; [done|]. cbn [fold_left fst snd]. apply IH.
    - intros j t Hin. apply Hxs. by right.
    - apply protocol_step_all; [|done]. intros jwr He. apply (Hxs i s); [left|done]. }
  intros l. induction l as [|o l IH]; intros st Hl Hst; [done|]. cbn [fold_left]. apply IH; [intros o' Ho; apply Hl; by right|].
  assert (o ∈ owners) as Ho by (apply Hl; left). unfold owner_step, protocol_steps. destruct o as [id [queued| |value plan]]; cbn [fst snd]; [|done|].
  - apply Hsteps; [|done]. intros i s _ _ jwr. by left.
  - apply Hsteps; [|done]. intros i s Hin He jwr. right. apply elem_of_lookup_imap in Hin as (j & t & [= <- <-] & Hi).
    by exists (id, Found value plan), value, plan, i, s.
Qed.

(** ** What a configuration key stands for *)

Definition NUL : Ascii.ascii := chr 0.

(** The digest is taken not to collide; a quotation begins with the quote
    character, escapes NUL bytes and can be read back. *)
Record key_laws (digest quote : string -> string) : Prop := MkKeyLaws {
  digest_inj : Inj (=) (=) digest;
  digest_some : forall s, digest s <> "";
  quote_inj : Inj (=) (=) quote;
  quote_head : forall s, exists rest, quote s = String (chr 34) rest;
  quote_plain : forall s, index_byte NUL (quote s) = None
}.

Section Keys.
Context (digest quote : string -> string) (GetScheme : Judge -> string) (Hlaws : key_laws digest quote).

(** A plan [Build] compiled, from values of their types; a text column holds no NUL byte. *)
Definition plan_compiled (p : Plan) : Prop := exists useHTTPS judges resolved ids,
  p = (compile digest quote GetScheme useHTTPS judges (Headers p) resolved ids).1 /\
  (forall j, j ∈ judges -> 0 <= judge_id (the_judge j)) /\
  forall s, s ∈ resolved -> index_byte NUL (CheckTransport s) = None /\ 0 <= CheckTimeout s /\ 0 <= CheckRetries s.

Definition judge_tokens (j : JudgeWithRegex) : list string := [itoa (judge_id (the_judge j)); quote (FullString (the_judge j)); quote (Regex j)].

Lemma concat_join sep l : String.concat sep l = GoStrings.join sep l.
Proof. induction l as [|x [|y l] IH]; [done..|]. cbn in *. by rewrite IH. Qed.

Lemma split_concat l : l <> [] -> Forall (fun t => index_byte NUL t = None) l -> split_byte NUL (String.concat nul l) = l.
Proof. rewrite concat_join. apply split_join_byte. Qed.

Lemma itoa_not_quoted n s : 0 <= n -> itoa n <> quote s.
Proof.
  intros Hn E. destruct (quote_head _ _ Hlaws s) as [r Hr]. pose proof (itoa_digits n Hn) as Hd. rewrite E, Hr in Hd. cbn in Hd.
  apply Forall_inv in Hd. by vm_compute in Hd.
Qed.

Lemma tokens_headers js hs js' hs' :
  (forall j, j ∈ js -> 0 <= judge_id (the_judge j)) -> (forall j, j ∈ js' -> 0 <= judge_id (the_judge j)) ->
  concat (map judge_tokens js) ++ map quote hs = concat (map judge_tokens js') ++ map quote hs' -> hs = hs'.
Proof.
  revert js'. induction js as [|j js IH]; intros [|j' js'] Hj Hj' E; cbn [map concat app judge_tokens] in E.
  - pose proof (quote_inj _ _ Hlaws). by apply (inj (fmap quote)) in E.
  - exfalso. destruct hs as [|h hs]; [done|]. injection E as E _. symmetry in E. revert E. apply itoa_not_quoted, Hj'. left.
  - exfalso. destruct hs' as [|h hs']; [done|]. injection E as E _. revert E. apply itoa_not_quoted, Hj. left.
  - injection E as _ _ _ E. apply (IH js'); [intros; apply Hj; by right|intros; apply Hj'; by right|done].
Qed.

Lemma plan_key_headers hs js i s hs' js' i' s' :
  (forall j, j ∈ js -> 0 <= judge_id (the_judge j)) -> (forall j, j ∈ js' -> 0 <= judge_id (the_judge j)) ->
  index_byte NUL (CheckTransport s) = None -> 0 <= CheckTimeout s -> 0 <= CheckRetries s ->
  index_byte NUL (CheckTransport s') = None -> 0 <= CheckTimeout s' -> 0 <= CheckRetries s' ->
  plan_key digest quote hs js i s = plan_key digest quote hs' js' i' s' -> hs = hs'.
Proof.
  intros Hj Hj' H1 H2 H3 H1' H2' H3' E. unfold plan_key in E. apply (digest_inj _ _ Hlaws) in E.
  assert (forall n, 0 <= n -> index_byte NUL (itoa n) = None) as Hdig.
  { intros n Hn. apply index_byte_None. eapply Forall_impl; [apply (itoa_digits n Hn)|]. intros c Hc ->. by vm_compute in Hc. }
  assert (forall k, index_byte NUL (nth k CheckerProtocols "") = None) as Hproto by (intros [|[|[|[|[|k]]]]]; done).
  assert (forall l : list JudgeWithRegex, (forall j, j ∈ l -> 0 <= judge_id (the_judge j)) -> Forall (fun t => index_byte NUL t = None) (concat (map judge_tokens l))) as Hjs.
  { intros l Hl. apply Forall_forall. intros t Ht. apply list_elem_of_In, in_concat in Ht as (x & Hx & Ht).
    apply in_map_iff in Hx as (j & <- & Hin%list_elem_of_In). apply list_elem_of_In in Ht. unfold judge_tokens in Ht.
    rewrite !elem_of_cons in Ht. destruct Ht as [->|[->|[->|Ht]]]; [apply Hdig; auto|apply (quote_plain _ _ Hlaws)..|by apply not_elem_of_nil in Ht]. }
  assert (forall l, Forall (fun t => index_byte NUL t = None) (map quote l)) as Hqs by (intros l; apply Forall_fmap, Forall_true; apply (quote_plain _ _ Hlaws)).
  apply (f_equal (split_byte NUL)) in E. fold judge_tokens in E.
  assert (forall k x l h, (forall j, j ∈ l -> 0 <= judge_id (the_judge j)) -> index_byte NUL (CheckTransport x) = None ->
    0 <= CheckTimeout x -> 0 <= CheckRetries x -> Forall (fun t => index_byte NUL t = None)
      ([nth k CheckerProtocols ""; CheckTransport x; itoa (CheckTimeout x); itoa (CheckRetries x)] ++ concat (map judge_tokens l) ++ map quote h)) as Hall.
  { intros k x l h ? ? ? ?. apply Forall_app. split; [repeat (constructor; [by auto|]); constructor|]. apply Forall_app. auto. }
  rewrite !split_concat in E by (discriminate || by apply Hall).
  cbn [app] in E. injection E as _ _ _ _ E. by apply tokens_headers in E.
Qed.

Lemma compiled_key p i s : plan_compiled p -> Settings p !! i = Some s -> Enabled s = true ->
  exists js, nth i (Keys p) "" = plan_key digest quote (Headers p) js i s /\ (forall j, j ∈ js -> 0 <= judge_id (the_judge j)) /\
    index_byte NUL (CheckTransport s) = None /\ 0 <= CheckTimeout s /\ 0 <= CheckRetries s.
Proof.
  intros (useHTTPS & judges & resolved & ids & E & Hj & Hs) Hi He. assert (Settings p = resolved) as Er.
  { rewrite E. unfold compile. by destruct (compile_from _ _ _ _ _ _ _ _ _). }
  rewrite Er in Hi. pose proof (f_equal Keys E) as Ek. rewrite compile_keys in Ek. exists (judges_for GetScheme useHTTPS judges i s). split.
  - rewrite Ek. unfold plan_keys. apply nth_lookup_Some. rewrite list_lookup_imap, Hi. cbn. by rewrite He.
  - split; [|by apply Hs; eapply list_elem_of_lookup_2]. intros j Hin. apply Hj. unfold judges_for in Hin.
    rewrite merge_sort_Permutation, list_elem_of_In, filter_In, <- list_elem_of_In in Hin. by destruct Hin.
Qed.

(** Checks under one configuration key look for the same headers. *)
Lemma same_key_same_headers owners c c' :
  (forall p, plans_of owners p -> plan_compiled p) -> check_source owners c -> check_source owners c' -> configKey c = configKey c' ->
  check_headers c = check_headers c'.
Proof.
  intros Hc Hs Hs' E.
  assert (forall o v p i s, o ∈ owners -> o.2 = Found v p -> Settings p !! i = Some s -> Enabled s = true -> nth i (Keys p) "" <> "") as Hne.
  { intros o v p i s Ho Hf Hi He. destruct (compiled_key p i s) as (js & -> & _); [apply Hc; by exists o, v|done|done|]. apply (digest_some _ _ Hlaws). }
  destruct Hs as [[Hk Hh]|(o & v & p & i & s & Ho & Hf & Hi & He & Hk & Hh)], Hs' as [[Hk' Hh']|(o' & v' & p' & i' & s' & Ho' & Hf' & Hi' & He' & Hk' & Hh')].
  - congruence.
  - exfalso. apply (Hne o' v' p' i' s'); try done. congruence.
  - exfalso. apply (Hne o v p i s); try done. congruence.
  - destruct (compiled_key p i s) as (js & Hks & ? & ? & ? & ?); [apply Hc; by exists o, v|done|done|].
    destruct (compiled_key p' i' s') as (js' & Hks' & ? & ? & ? & ?); [apply Hc; by exists o', v'|done|done|].
    rewrite Hh, Hh'. f_equal. apply (plan_key_headers _ js i s _ js' i' s'); try done. congruence.
Qed.

End Keys.

Section VerdictFacts.
Context (MatchString : string -> string -> option bool) (StandardHeader : list string).

Notation accepts := (checkForValidResponseWithHeaders MatchString StandardHeader).
Notation process := (processJudgeAssignments MatchString StandardHeader).

(** Checks that share a remembered verdict validate alike. *)
Definition validates_alike (c c' : workspaceCheck) : Prop := regex c = regex c' /\ (is_default (regex c) = true -> check_headers c = check_headers c').

Definition memo_faithful (l : list workspaceCheck) : Prop := forall c c', c ∈ l -> c' ∈ l -> validation_key c = validation_key c' -> validates_alike c c'.

Lemma accepts_alike html c c' : validates_alike c c' -> accepts html (regex c) (check_headers c) = accepts html (regex c') (check_headers c').
Proof. intros [Hr Hh]. unfold checkForValidResponseWithHeaders. rewrite <- Hr. destruct (is_default (regex c)) eqn:E; [|done]. by rewrite (Hh eq_refl). Qed.

Definition verdict (html : string) (failed : bool) (c : workspaceCheck) : bool := negb failed && accepts html (regex c) (check_headers c).

Lemma verdicts_memo html failed all memo l :
  memo_faithful all -> (forall c, c ∈ l -> c ∈ all) -> (forall k v, memo !! k = Some v -> exists c, c ∈ all /\ validation_key c = k /\ v = verdict html failed c) ->
  verdicts MatchString StandardHeader html failed memo l = map (fun c => (c, verdict html failed c)) l.
Proof.
  intros Hall. revert memo. induction l as [|c l IH]; intros memo Hin Hmemo; [done|]. simpl.
  assert (match memo !! validation_key c with Some v => v | None => negb failed && accepts html (regex c) (check_headers c) end = verdict html failed c) as ->.
  { destruct (memo !! validation_key c) as [v|] eqn:E; [|done]. destruct (Hmemo _ _ E) as (c' & Hc' & Hk & ->). unfold verdict. f_equal.
    apply accepts_alike, Hall; [done|apply Hin; set_solver|done]. }
  f_equal. apply IH; [intros; apply Hin; set_solver|]. intros k v Hk. destruct (decide (validation_key c = k)) as [<-|Hne].
  - rewrite lookup_insert_eq in Hk. injection Hk as <-. exists c. split; [apply Hin; set_solver|done].
  - rewrite lookup_insert_ne in Hk by done. by apply Hmemo.
Qed.

Lemma fold_mark_success l success id :
  fold_left mark_success l success !! id = Some true <-> success !! id = Some true \/ exists v, v ∈ l /\ v.2 = true /\ check_workspace v.1 = id.
Proof.
  revert success. induction l as [|v l IH]; intros success; simpl; [split; [by left|intros [?|(v & Hv & _)]; [done|set_solver]]|].
  rewrite IH. unfold mark_success at 1. destruct v as [c b]. simpl. destruct b.
  - destruct (decide (check_workspace c = id)) as [<-|Hne].
    + rewrite lookup_insert_eq. split; [intros _; right; exists (c, true); set_solver|by left].
    + rewrite lookup_insert_ne by done. split; (intros [?|(v & Hv & Hb & Hw)]; [by left|]).
      * right. exists v. set_solver.
      * apply elem_of_cons in Hv as [->|Hv]; [done|]. right. by exists v.
  - split; (intros [?|(v & Hv & Hb & Hw)]; [by left|]).
    + right. exists v. set_solver.
    + apply elem_of_cons in Hv as [->|Hv]; [done|]. right. by exists v.
Qed.

(** The budget a request is made with. *)
Definition answer_of (check : requestAssignment -> Z -> Z -> answer) (maxT maxR : Z) (a : requestAssignment) : answer :=
  check a (if budgetSet a then req_timeout a else maxT) (if budgetSet a then req_retries a else maxR).

(** The answer of a request satisfies a check. *)
Definition satisfied (check : requestAssignment -> Z -> Z -> answer) (maxT maxR : Z) (a : requestAssignment) (c : workspaceCheck) : Prop :=
  exists html time attempt, answer_of check maxT maxR a = Answered html false time attempt /\ accepts html (regex c) (check_headers c) = true.

Lemma process_spec check maxT maxR items success0 done0 success1 stats :
  (forall a, a ∈ items -> memo_faithful (checks a)) -> process check maxT maxR items success0 done0 = (None, success1, stats) ->
  (forall id, success1 !! id = Some true <-> success0 !! id = Some true \/ exists a c, a ∈ items /\ c ∈ checks a /\ check_workspace c = id /\ satisfied check maxT maxR a c) /\
  exists new, stats = done0 ++ new /\
    Forall2 (fun a s => JudgeID s = judge_id (judge a) /\ ProtocolID s = protocolID a /\ (st_alive s = true <-> exists c, c ∈ checks a /\ satisfied check maxT maxR a c)) items new.
Proof.
  revert success0 done0. induction items as [|a items IH]; intros success0 done0 Hmemo H; simpl in H.
  - injection H as <- <-. split; [|exists []; split; [by rewrite app_nil_r|constructor]]. intros id. split; [by left|]. intros [?|(a & c & Ha & _)]; [done|set_solver].
  - fold (answer_of check maxT maxR a) in H. destruct (answer_of check maxT maxR a) as [html failed time attempt| |] eqn:Ea; [|done|done].
    rewrite (verdicts_memo html failed (checks a)) in H; [|apply Hmemo; set_solver|done|done].
    assert (forall c, verdict html failed c = true <-> satisfied check maxT maxR a c) as Hsat.
    { intros c. unfold verdict, satisfied. rewrite Ea. destruct failed; simpl.
      - split; [done|]. intros (? & ? & ? & E & _). done.
      - split; [intros Hv; by exists html, time, attempt|]. intros (? & ? & ? & E & Hv). injection E as -> -> ->. done. }
    apply IH in H as [Hs (new & -> & Hnew)]; [|intros; apply Hmemo; set_solver]. split.
    + intros id. rewrite Hs, fold_mark_success. split.
      * intros [[?|(v & Hv & Hb & Hw)]|(b & c & Hb & Hc & Hw & Hv)]; [by left| |right; exists b, c; set_solver].
        apply list_elem_of_fmap in Hv as (c & -> & Hc). right. exists a, c. split; [set_solver|]. split; [done|]. split; [done|]. by apply Hsat.
      * intros [?|(b & c & [->|Hb]%elem_of_cons & Hc & Hw & Hv)]; [by left; left| |right; by exists b, c].
        left. right. exists (c, verdict html failed c). split; [by apply list_elem_of_fmap; exists c|]. split; [by apply Hsat|done].
    + eexists (_ :: new). split; [by rewrite <- app_assoc|]. constructor; [|done]. simpl. split; [done|]. split; [done|].
      rewrite existsb_exists. split.
      * intros (v & Hv & Hb). apply list_elem_of_In, list_elem_of_fmap in Hv as (c & -> & Hc). exists c. split; [done|]. by apply Hsat.
      * intros (c & Hc & Hv). exists (c, verdict html failed c). split; [apply list_elem_of_In, list_elem_of_fmap; by exists c|]. by apply Hsat.
Qed.

(** No expression is the word for the standard validation with a configuration
    key of the same request appended. *)
Definition no_pretender (l : list workspaceCheck) : Prop := forall c c', c ∈ l -> c' ∈ l ->
  is_default (regex c) = true -> is_default (regex c') = false -> regex c' <> regex c +:+ configKey c.

Lemma default_length r : is_default r = true -> length (bytes r) = 7%nat.
Proof.
  unfold is_default. intros E%String.eqb_eq. apply (f_equal (fun s => length (bytes s))) in E. by rewrite bytes_to_lower, length_map in E.
Qed.

Lemma str_app_inj a b c d : length (bytes a) = length (bytes b) -> a +:+ c = b +:+ d -> a = b /\ c = d.
Proof.
  revert b. induction a as [|x a IH]; intros [|y b] Hl E; try done. cbn in *. injection E as -> E.
  injection Hl as Hl. by destruct (IH b Hl E) as [-> ->].
Qed.

(** The key under which a verdict is remembered tells validations apart, since a
    configuration key stands for the headers. *)
Lemma memo_sound digest quote GetScheme owners l :
  key_laws digest quote -> (forall p, plans_of owners p -> plan_compiled digest quote GetScheme p) ->
  (forall c, c ∈ l -> check_source owners c) -> no_pretender l -> memo_faithful l.
Proof.
  intros Hlaws Hc Hs Hn c c' Hin Hin' E. unfold validation_key in E. unfold validates_alike.
  destruct (is_default (regex c)) eqn:D, (is_default (regex c')) eqn:D'.
  - apply str_app_inj in E as [-> E]; [|by rewrite !default_length]. split; [done|]. intros _.
    apply (same_key_same_headers digest quote GetScheme Hlaws owners); auto.
  - exfalso. by apply (Hn c c').
  - exfalso. by apply (Hn c' c).
  - by split.
Qed.

(** C22. Whatever order the requests are made in, a cycle that is not abandoned
    reports an owner to the failure tracker exactly when some judge was asked
    for it, as a success exactly when an answer satisfied the owner's own
    validation, and hands off one statistic for every request, alive exactly
    when it satisfied one of its owners.  The plans are compiled ones, under a
    digest that does not collide, and no owner's expression is the word default
    followed by another's configuration key ([pretender_takes_over] shows what
    happens then). *)
Theorem cycle_verdicts digest quote GetScheme blocked table tick owners ids check maxT maxR order success1 stats :
  let st := buildRequestAssignments blocked table tick owners in
  key_laws digest quote -> (forall p, plans_of owners p -> plan_compiled digest quote GetScheme p) ->
  order ≡ₚ map snd (map_to_list (requests st)) -> (forall a, a ∈ order -> no_pretender (checks a)) ->
  process check maxT maxR order (success st) [] = (None, success1, stats) ->
  (forall id ok, (id, ok) ∈ failure_events ids success1 (hasChecks st) <->
     id ∈ ids /\ hasChecks st !! id = Some true /\
     (ok = true <-> exists k a c, requests st !! k = Some a /\ c ∈ checks a /\ check_workspace c = id /\ satisfied check maxT maxR a c)) /\
  Forall2 (fun a s => JudgeID s = judge_id (judge a) /\ ProtocolID s = protocolID a /\ (st_alive s = true <-> exists c, c ∈ checks a /\ satisfied check maxT maxR a c)) order stats.
Proof.
  intros st Hlaws Hcomp Horder Hno H.
  assert (forall a, a ∈ order <-> exists k, requests st !! k = Some a) as Hreq.
  { intros a. rewrite Horder, list_elem_of_fmap. split.
    - intros ([k b] & -> & Hk). exists k. by apply elem_of_map_to_list in Hk.
    - intros [k Hk]. exists (k, a). split; [done|]. by apply elem_of_map_to_list. }
  apply process_spec in H as [Hs (new & -> & Hnew)].
  2:{ intros a Ha. apply (memo_sound digest quote GetScheme owners); [done|done| |by apply Hno]. apply Hreq in Ha as [k Hk].
      intros c Hc. by apply (build_sources blocked table tick owners k a c). }
  split; [|done].
  assert (forall id, success1 !! id = Some true <-> exists k a c, requests st !! k = Some a /\ c ∈ checks a /\ check_workspace c = id /\ satisfied check maxT maxR a c) as Hs'.
  { intros id. rewrite Hs. split.
    - intros [Hb|(a & c & Ha & Hc & Hw & Hv)]; [by destruct (build_success blocked table tick owners id)|]. apply Hreq in Ha as [k Hk]. by exists k, a, c.
    - intros (k & a & c & Hk & Hc & Hw & Hv). right. exists a, c. split; [apply Hreq; by exists k|done]. }
  intros id ok. unfold failure_events. rewrite list_elem_of_fmap. rewrite <- Hs'. split.
  - intros (x & E & Hx). injection E as -> ->. apply list_elem_of_In, filter_In in Hx as [Hx Hh]. split; [by apply list_elem_of_In|].
    split; [destruct (hasChecks st !! x) as [[]|]; done|]. destruct (success1 !! x) as [[]|]; simpl; split; congruence.
  - intros (Hx & Hh & Hok). exists id. split.
    + f_equal. destruct (success1 !! id) as [[]|], ok; simpl; try done; [discriminate (proj2 Hok eq_refl)|discriminate (proj1 Hok eq_refl)|discriminate (proj1 Hok eq_refl)].
    + apply list_elem_of_In, filter_In. split; [by apply list_elem_of_In|]. by rewrite Hh.
Qed.

End VerdictFacts.

(** ** Retries *)

Lemma attempts_spec todo i retries request html failed millis a n :
  attempts todo i retries request html failed millis = (a, n) ->
  i <= n <= i + Z.of_nat todo /\
  match a with
  | LeaseLost => request n = NotRenewed
  | Cancelled => False
  | Answered h f m k =>
      (todo = 0%nat /\ h = html /\ f = failed /\ m = millis) \/
      (i < n /\ request (n - 1) = Requested h f m /\ (f = false -> k = wrap_unsigned 8 (n - 1)) /\ (f = true -> n = i + Z.of_nat todo))
  end /\
  forall j, i <= j < n - 1 -> exists h m, request j = Requested h true m.
Proof.
  revert i html failed millis. induction todo as [|todo IH]; intros i html failed millis H; simpl in H.
  - injection H as <- <-. split; [lia|]. split; [by left|lia].
  - destruct (request i) as [|h f m] eqn:E.
    + injection H as <- <-. split; [lia|]. split; [done|lia].
    + destruct f.
      * apply IH in H as (Hn & Ha & Hj). split; [lia|]. split.
        -- destruct a as [h' f' m' k| |]; [|done|done]. right. destruct Ha as [(-> & -> & -> & ->)|(Hlt & Hr & Hf & Ht)].
           ++ assert (n = i + 1) as -> by (simpl in Hn; lia). replace (i + 1 - 1) with i by lia. split; [lia|]. split; [done|]. split; [done|lia].
           ++ split; [lia|]. split; [done|]. split; [done|]. intros Hf'. specialize (Ht Hf'). lia.
        -- intros j Hj'. destruct (decide (j = i)) as [->|]; [by exists h, m|]. apply Hj. lia.
      * injection H as <- <-. split; [lia|]. split; [|lia]. right. replace (i + 1 - 1) with i by lia. split; [lia|]. split; [done|]. by split.
Qed.

(** A check makes at most one request more than its retries, stops at the first
    that succeeds, and reports the last one it made. *)
Lemma CheckProxyWithRetries_spec retries request a n :
  0 <= retries -> CheckProxyWithRetries retries request = (a, n) ->
  0 <= n <= retries + 1 /\ (forall j, 0 <= j < n - 1 -> exists h m, request j = Requested h true m) /\
  match a with
  | LeaseLost => request n = NotRenewed
  | Cancelled => False
  | Answered h f m k => 0 < n /\ request (n - 1) = Requested h f m /\ (f = true -> n = retries + 1)
  end.
Proof.
  intros Hr H. apply attempts_spec in H as (Hn & Ha & Hj). split; [lia|]. split; [exact Hj|]. destruct a as [h f m k| |]; [|done|done].
  destruct Ha as [(H0 & _)|(Hlt & Hreq & _ & Hf)]; [lia|]. split; [lia|]. split; [done|]. intros Hft. specialize (Hf Hft). lia.
Qed.

(** ** A cycle *)

Module Sample.

Definition judges : list JudgeWithRegex := [MkJudgeRegex (MkJudge 1 "http://a") "default"; MkJudgeRegex (MkJudge 2 "http://b") "ok"].
Definition blocked (url : string) : bool := false.
Definition off : ProtocolCheckSettings := MkCheck false "tcp" 5000 1.
Definition on : ProtocolCheckSettings := MkCheck true "tcp" 5000 1.

Definition plan (key : string) : Plan := MkPlan [on; off; off; off] [key; ""; ""; ""] [judges; []; []; []] [7; 0; 0; 0] ["HOST"].
Definition value (id : Z) : CheckedWorkspace := MkWorkspace id true false false false 5000 1 false "tcp" None.
Definition owners : list (Z * lookup_result) := [(1, Found (value 1) (plan "k1")); (2, Found (value 2) (plan "k2"))].

(** The first advance finds the counter at 11. *)
Definition tick (n : nat) : Z := Z.of_nat n + 11.

Lemma plans p : plans_of owners p -> p = plan "k1" \/ p = plan "k2".
Proof.
  intros (o & v & Ho & Hp). unfold owners in Ho. rewrite !elem_of_cons, elem_of_nil in Ho. destruct Ho as [->|[->|[]]]; simpl in Hp; injection Hp as <- <-; auto.
Qed.

Lemma judge_lists i k : nth i (Judges (plan k)) [] = judges \/ nth i (Judges (plan k)) [] = [].
Proof. destruct i as [|[|[|[|i]]]]; [by left|by right..|]. right. by destruct i. Qed.

Lemma ok : owners_ok owners.
Proof.
  constructor.
  - simpl. repeat constructor; set_solver.
  - intros o v Ho. unfold owners in Ho. rewrite !elem_of_cons, elem_of_nil in Ho. by destruct Ho as [->|[->|[]]].
  - intros o v p Ho. unfold owners in Ho. rewrite !elem_of_cons, elem_of_nil in Ho. destruct Ho as [->|[->|[]]]; simpl; by intros [= <- <-].
  - assert (forall k, plan_typed (plan k)) as H; [|by intros p [->| ->]%plans].
    intros k. split; [done|]. split.
    + intros s Hs. simpl in Hs. rewrite !elem_of_cons, elem_of_nil in Hs. destruct Hs as [->|[->|[->|[->|[]]]]]; simpl; lia.
    + intros i j Hj. destruct (judge_lists i k) as [E|E]; rewrite E in Hj; [|set_solver].
      unfold judges in Hj. rewrite !elem_of_cons, elem_of_nil in Hj. destruct Hj as [->|[->|[]]]; simpl; lia.
  - intros p q i [->| ->]%plans [->| ->]%plans _ _; done.
Qed.

Lemma must id : id = 1 \/ id = 2 -> must_check blocked owners id (plan (if id =? 1 then "k1" else "k2")) 0 on.
Proof. intros [->| ->]; (split; [eexists; unfold owners; rewrite !elem_of_cons; by auto|by repeat split]). Qed.

Abbreviation built := (buildRequestAssignments blocked ∅ tick owners).

(** Judge 2 answers both owners' single request, with a page one of them wants. *)
Definition check (a : requestAssignment) (timeout retries : Z) : answer := Answered "ok" false 120 0.

Definition order : list requestAssignment := map snd (map_to_list (requests built)).

Definition outcome : option answer * gmap Z bool * list statistic := processJudgeAssignments (fun p s => Some (contains_str p s)) [] check 5000 1 order (success built) [].

Lemma outcome_ok : outcome.1.1 = None /\ map (fun a => map check_workspace (checks a)) order = [[1; 2]] /\ failure_events [1; 2] outcome.1.2 (hasChecks built) = [(1, true); (2, true)].
Proof. by vm_compute. Qed.

(** A digest and a quotation that keep their laws. *)
Definition digest (s : string) : string := String (chr 35) s.

Definition escape (c : Ascii.ascii) : list Ascii.ascii :=
  if Ascii.eqb c NUL then [chr 92; chr 48] else if Ascii.eqb c (chr 92) then [chr 92; chr 92] else [c].

Definition quote (s : string) : string := String (chr 34) (of_bytes (concat (map escape (bytes s)))).

Lemma escape_inj l l' : concat (map escape l) = concat (map escape l') -> l = l'.
Proof.
  revert l'. induction l as [|c l IH]; intros [|c' l'] E; cbn [map concat] in E; [done| | |]; unfold escape in E;
    repeat match type of E with context [Ascii.eqb ?a ?b] => destruct (Ascii.eqb_spec a b) end;
    subst; cbn [app] in E; try discriminate E; injection E; intros; subst; f_equal; try (by apply IH); congruence.
Qed.

Lemma laws : key_laws digest quote.
Proof.
  split.
  - intros x y E. by injection E.
  - done.
  - intros x y E. injection E as E. apply (f_equal bytes) in E. rewrite !bytes_of_bytes in E. apply escape_inj in E.
    by rewrite <- (of_bytes_bytes x), E, of_bytes_bytes.
  - intros x. by eexists.
  - intros x. apply index_byte_None. cbn [bytes quote]. constructor; [done|]. rewrite bytes_of_bytes. apply Forall_forall. intros c Hc.
    apply list_elem_of_In, in_concat in Hc as (l & Hl & Hc). apply in_map_iff in Hl as (d & <- & _). unfold escape in Hc.
    intros ->. destruct (Ascii.eqb_spec d NUL) as [E|E]; [|destruct (Ascii.eqb_spec d (chr 92)) as [E'|E']];
      repeat (destruct Hc as [Hc|Hc]; [first [done|discriminate Hc|congruence]|]); done.
Qed.

(** Two owners with the standard validation, compiled under different headers. *)
Definition default_judge : JudgeWithRegex := MkJudgeRegex (MkJudge 1 "http://a") "default".
Definition scheme (_ : Judge) : string := "http".
Definition compiled (headers : list string) : Plan := (compile digest quote scheme false [default_judge] headers [on; off; off; off] ∅).1.

Definition compiled_owners : list (Z * lookup_result) := [(1, Found (value 1) (compiled ["HOST"])); (2, Found (value 2) (compiled ["VIA"]))].

Lemma compiled_ok p : plans_of compiled_owners p -> plan_compiled digest quote scheme p.
Proof.
  intros (o & v & Ho & Hp). assert (exists h, p = compiled h) as [h ->].
  { unfold compiled_owners in Ho. rewrite !elem_of_cons, elem_of_nil in Ho. destruct Ho as [->|[->|[]]]; simpl in Hp; injection Hp as <- <-; by eexists. }
  exists false, [default_judge], [on; off; off; off], ∅. split; [done|]. split; [intros j ->%list_elem_of_singleton; done|].
  intros s Hs. rewrite !elem_of_cons, elem_of_nil in Hs. by destruct Hs as [->|[->|[->|[->|[]]]]].
Qed.

Abbreviation compiled_built := (buildRequestAssignments blocked ∅ tick compiled_owners).

Definition compiled_order : list requestAssignment := map snd (map_to_list (requests compiled_built)).

(** The answer carries the header of the first owner only. *)
Definition compiled_check (a : requestAssignment) (timeout retries : Z) : answer := Answered "host: a" false 120 0.

Definition compiled_outcome : option answer * gmap Z bool * list statistic :=
  processJudgeAssignments (fun p s => Some (contains_str p s)) [] compiled_check 5000 1 compiled_order (success compiled_built) [].

Lemma compiled_outcome_ok : compiled_outcome.1.1 = None /\ map (fun a => map check_workspace (checks a)) compiled_order = [[1; 2]] /\
  failure_events [1; 2] compiled_outcome.1.2 (hasChecks compiled_built) = [(1, true); (2, false)].
Proof. by vm_compute. Qed.

Lemma all_default a c : a ∈ compiled_order -> c ∈ checks a -> is_default (regex c) = true.
Proof.
  intros Ha Hc. assert (Forall (fun a => Forall (fun c => is_default (regex c) = true) (checks a)) compiled_order) as H
    by (vm_compute; repeat constructor).
  rewrite Forall_forall in H. specialize (H a Ha). rewrite Forall_forall in H. by apply H.
Qed.

(** An owner whose expression is that word with another owner's key takes over
    the other's verdict, which is remembered under the same text. *)
Definition key1 : string := nth 0 (Keys (compiled ["HOST"])) "".
Definition pretender : workspaceCheck := MkCheckOf 3 ("default" +:+ key1) "k3" (Some ["HOST"]).
Definition honest : workspaceCheck := MkCheckOf 1 "default" key1 (Some ["HOST"]).

Example pretender_takes_over :
  map snd (verdicts (fun p s => Some (contains_str p s)) [] "host: a" false ∅ [pretender; honest]) = [false; false] /\
  checkForValidResponseWithHeaders (fun p s => Some (contains_str p s)) [] "host: a" (regex honest) (check_headers honest) = true.
Proof. by vm_compute. Qed.

End Sample.

Lemma owner_checked_once_witness :
  (exists k a c, made Sample.blocked ∅ Sample.tick Sample.owners k a c /\ check_workspace c = 1 /\ protocolID a = 1) /\
  hasChecks Sample.built !! 1 = Some true /\
  forall k a c, made Sample.blocked ∅ Sample.tick Sample.owners k a c -> req_timeout a = 5000.
Proof.
  destruct (owner_checked_once Sample.blocked ∅ Sample.tick Sample.owners Sample.ok) as (H1 & _ & H3 & H4).
  pose proof (H3 1 (Sample.plan "k1") 0%nat Sample.on (Sample.must 1 (or_introl eq_refl))) as (k & a & c & Hm & Hw & Hp).
  split; [by exists k, a, c|]. split; [apply H4; by exists k, a, c|].
  intros k' a' c' Hm'. destruct (H1 k' a' c' Hm') as (v & p & i & s & jwr & Ho & Hs & He & _ & _ & -> & _).
  assert (p = Sample.plan "k1" \/ p = Sample.plan "k2") as Hpl by (apply Sample.plans; by exists (check_workspace c', Found v p), v).
  assert (Settings p = [Sample.on; Sample.off; Sample.off; Sample.off]) as E by by destruct Hpl as [->| ->].
  rewrite E in Hs. destruct i as [|[|[|[|i]]]]; simpl in Hs; first [discriminate Hs|injection Hs as <-; first [reflexivity|discriminate He]].
Defined.

Lemma owners_share_requests_witness :
  exists k a c1 c2, requests Sample.built !! k = Some a /\ protocolID a = 1 /\
    c1 ∈ checks a /\ check_workspace c1 = 1 /\ c2 ∈ checks a /\ check_workspace c2 = 2.
Proof.
  apply (owners_share_requests Sample.blocked ∅ Sample.tick Sample.owners 1 (Sample.plan "k1") Sample.on 2 (Sample.plan "k2") Sample.on 0
    Sample.ok (Sample.must 1 (or_introl eq_refl)) (Sample.must 2 (or_intror eq_refl))); done.
Defined.

Lemma cycle_verdicts_witness :
  let '(_, success1, stats) := Sample.compiled_outcome in
  (forall id ok, (id, ok) ∈ failure_events [1; 2] success1 (hasChecks Sample.compiled_built) <->
     id ∈ [1; 2] /\ hasChecks Sample.compiled_built !! id = Some true /\
     (ok = true <-> exists k a c, requests Sample.compiled_built !! k = Some a /\ c ∈ checks a /\ check_workspace c = id /\
        satisfied (fun p s => Some (contains_str p s)) [] Sample.compiled_check 5000 1 a c)) /\
  Forall2 (fun a s => JudgeID s = judge_id (judge a) /\ ProtocolID s = protocolID a /\
    (st_alive s = true <-> exists c, c ∈ checks a /\ satisfied (fun p s => Some (contains_str p s)) [] Sample.compiled_check 5000 1 a c))
    Sample.compiled_order stats.
Proof.
  destruct Sample.compiled_outcome as [[e success1] stats] eqn:E.
  assert (e = None) as -> by (pose proof (proj1 Sample.compiled_outcome_ok) as H; rewrite E in H; exact H).
  apply (cycle_verdicts (fun p s => Some (contains_str p s)) [] Sample.digest Sample.quote Sample.scheme Sample.blocked ∅ Sample.tick
    Sample.compiled_owners [1; 2] Sample.compiled_check 5000 1 Sample.compiled_order success1 stats Sample.laws Sample.compiled_ok); [reflexivity| |exact E].
  intros a Ha c c' _ Hc' _ D. rewrite (Sample.all_default a c' Ha Hc') in D. discriminate D.
Defined.

(** ** Judge sets

    The table that names lists of judges is shared by all plans of a process
    and only grows, so plans with one name list the same judges. *)

(** Names are given once, from one on, before they wrap around. *)
Definition table_ok (ids : gmap string Z) : Prop :=
  Z.of_nat (size ids) < 2 ^ 32 /\ (forall s n, ids !! s = Some n -> 1 <= n <= Z.of_nat (size ids)) /\
  forall s s' n, ids !! s = Some n -> ids !! s' = Some n -> s = s'.

Lemma internJudgeSet_spec s ids n ids' :
  table_ok ids -> Z.of_nat (size ids) + 1 < 2 ^ 32 -> internJudgeSet s ids = (n, ids') -> table_ok ids' /\ ids ⊆ ids' /\ ids' !! s = Some n.
Proof.
  intros (Hsize & Hr & Hinj) Hroom H. unfold internJudgeSet in H. destruct (ids !! s) as [m|] eqn:E; injection H as <- <-; [done|].
  rewrite wrap_unsigned_id by lia. split; [|split; [by apply insert_subseteq|by rewrite lookup_insert_eq]].
  assert (size (<[s := Z.of_nat (size ids) + 1]> ids) = S (size ids)) as Hs by (by apply map_size_insert_None).
  split; [rewrite Hs; lia|]. split.
  - intros s' m Hm. rewrite Hs. destruct (decide (s' = s)) as [->|Hne].
    + rewrite lookup_insert_eq in Hm. injection Hm as <-. lia.
    + rewrite lookup_insert_ne in Hm by done. specialize (Hr s' m Hm). lia.
  - intros s1 s2 m H1 H2. destruct (decide (s1 = s)) as [->|N1], (decide (s2 = s)) as [->|N2]; [done| | |].
    + rewrite lookup_insert_eq in H1. rewrite lookup_insert_ne in H2 by done. injection H1 as <-. specialize (Hr s2 _ H2). lia.
    + rewrite lookup_insert_eq in H2. rewrite lookup_insert_ne in H1 by done. injection H2 as <-. specialize (Hr s1 _ H1). lia.
    + rewrite lookup_insert_ne in H1, H2 by done. by apply (Hinj s1 s2 m).
Qed.

(** A plan whose names are in the table. *)
Definition plan_interned (ids : gmap string Z) (p : Plan) : Prop :=
  forall i, nth i (JudgeSets p) 0 <> 0 -> ids !! judge_set (nth i (Judges p) []) = Some (nth i (JudgeSets p) 0).

Lemma plan_interned_grows ids ids' p : ids ⊆ ids' -> plan_interned ids p -> plan_interned ids' p.
Proof. intros Hsub H i Hi. eapply lookup_weaken; [by apply H|exact Hsub]. Qed.

Lemma compile_interned digest quote GetScheme useHTTPS judges headers settings index ids l ids' :
  table_ok ids -> Z.of_nat (size ids) + Z.of_nat (length settings) < 2 ^ 32 ->
  compile_from digest quote GetScheme useHTTPS judges headers index settings ids = (l, ids') ->
  table_ok ids' /\ ids ⊆ ids' /\ Z.of_nat (size ids') <= Z.of_nat (size ids) + Z.of_nat (length settings) /\
  forall x, x ∈ l -> x.2 <> 0 -> ids' !! judge_set x.1.2 = Some x.2.
Proof.
  revert index ids l ids'. induction settings as [|s settings IH]; intros index ids l ids' Hok Hroom H; simpl in H.
  { injection H as <- <-. split; [done|]. split; [done|]. split; [simpl; lia|set_solver]. }
  destruct (compile_protocol _ _ _ _ _ _ _ _ _) as [x ids1] eqn:Ex. destruct (compile_from _ _ _ _ _ _ (S index) _ _) as [l1 ids2] eqn:El. injection H as <- <-.
  rewrite length_cons in Hroom.
  assert (table_ok ids1 /\ ids ⊆ ids1 /\ Z.of_nat (size ids1) <= Z.of_nat (size ids) + 1 /\ (x.2 <> 0 -> ids1 !! judge_set x.1.2 = Some x.2)) as (Hok1 & Hsub1 & Hsize1 & Hx).
  { unfold compile_protocol in Ex. destruct (Enabled s); cbn [negb] in Ex; [|injection Ex as <- <-; split; [done|]; split; [done|]; split; [lia|done]].
    destruct (internJudgeSet _ ids) as [n ids3] eqn:Ei. injection Ex as <- <-. pose proof Ei as Ei'. apply internJudgeSet_spec in Ei as (H1 & H2 & H3); [|done|lia].
    split; [done|]. split; [done|]. split; [|by intros _]. unfold internJudgeSet in Ei'. destruct (ids !! _) eqn:E; injection Ei' as _ <-; [lia|].
    rewrite map_size_insert_None by done. lia. }
  apply IH in El as (Hok2 & Hsub2 & Hsize2 & Hl); [|done|lia]. split; [done|]. split; [by transitivity ids1|]. split; [rewrite length_cons; lia|].
  intros y [->|Hy]%elem_of_cons Hne; [|by apply Hl]. apply (lookup_weaken ids1); [by apply Hx|done].
Qed.

Lemma judge_set_inj l l' :
  (forall j, j ∈ l -> 0 <= judge_id (the_judge j) < 2 ^ 63) -> (forall j, j ∈ l' -> 0 <= judge_id (the_judge j) < 2 ^ 63) ->
  judge_set l = judge_set l' -> map (fun j => judge_id (the_judge j)) l = map (fun j => judge_id (the_judge j)) l'.
Proof.
  intros Hl Hl' H. unfold judge_set in H.
  assert (forall l : list JudgeWithRegex, (forall j, j ∈ l -> 0 <= judge_id (the_judge j) < 2 ^ 63) ->
    Forall (fun s => index_byte (chr 44) s = None) (map (fun j => itoa (judge_id (the_judge j))) l)) as Hplain.
  { intros m Hm. apply Forall_fmap, Forall_forall. intros j Hj. simpl. apply index_byte_None.
    eapply Forall_impl; [apply itoa_digits; apply Hm in Hj; lia|]. intros c Hc ->. by vm_compute in Hc. }
  assert (map (fun j => itoa (judge_id (the_judge j))) l = map (fun j => itoa (judge_id (the_judge j))) l') as Hmap.
  { change "," with (String (chr 44) "") in H. assert (forall n, 0 <= n -> itoa n <> "") as Hne by (intros; by apply itoa_nonempty).
    destruct l as [|x l], l' as [|y l']; [done| | |].
    - exfalso. apply (f_equal (split_byte (chr 44))) in H. rewrite (split_join_byte (chr 44) (map (fun j => itoa (judge_id (the_judge j))) (y :: l'))) in H by (done || by apply Hplain).
      simpl in H. injection H as H _. symmetry in H. apply (Hne (judge_id (the_judge y))); [apply Hl'; set_solver|done].
    - exfalso. apply (f_equal (split_byte (chr 44))) in H. rewrite (split_join_byte (chr 44) (map (fun j => itoa (judge_id (the_judge j))) (x :: l))) in H by (done || by apply Hplain).
      simpl in H. injection H as H _. apply (Hne (judge_id (the_judge x))); [apply Hl; set_solver|done].
    - apply (f_equal (split_byte (chr 44))) in H. by rewrite !split_join_byte in H by (done || by apply Hplain). }
  clear H. revert l' Hl' Hmap. induction l as [|x l IH]; intros [|y l'] Hl' Hmap; simpl in Hmap; [done|done|done|]. injection Hmap as Hx Hmap. simpl. f_equal.
  - apply itoa_inj in Hx; [done|specialize (Hl x ltac:(set_solver))|specialize (Hl' y ltac:(set_solver))]; unfold in_i64; lia.
  - apply IH; [intros; apply Hl; set_solver|intros; apply Hl'; set_solver|done].
Qed.

(** Plans compiled in one process agree on what a judge set names. *)
Lemma interned_sets_agree ids (plans : Plan -> Prop) :
  table_ok ids -> (forall p, plans p -> plan_interned ids p /\ plan_typed p) -> sets_agree plans.
Proof.
  intros (_ & _ & Hinj) Hp p q i Hpp Hqq Hne Hsame. destruct (Hp p Hpp) as [Hip (_ & _ & Htp)], (Hp q Hqq) as [Hiq (_ & _ & Htq)].
  apply judge_set_inj; [apply Htp|apply Htq|]. apply (Hinj _ _ (nth i (JudgeSets p) 0)); [by apply Hip|]. rewrite Hsame. apply Hiq. congruence.
Qed.

(** ** Owners of a dequeued route *)

(** A workspace of the fallback cache, and when it expires. *)
Abbreviation workspace_cache := (gmap Z (CheckedWorkspace * Z)).

Definition workspaceCacheTTL : Z := 5 * Second.

(** The identifiers of the queued owners, once each and without zeros. *)
Definition queued_ids (queued : list CheckedWorkspace) : list Z := dedup_go [] (List.filter (fun id => negb (id =? 0)) (map ws_id queued)).

(** With snapshots: the owners that are known. *)
Definition refresh_ready (snapshots : gmap Z CheckedWorkspace) (queued : list CheckedWorkspace) : list CheckedWorkspace * bool :=
  let refreshed := omap (fun id => snapshots !! id) (queued_ids queued) in
  (refreshed, negb (length refreshed =? length queued)%nat).

(** The queued owners the lookups found, once each. *)
Fixpoint keep_fresh (fresh : gmap Z CheckedWorkspace) (seen : list Z) (queued : list CheckedWorkspace) : list CheckedWorkspace * bool :=
  match queued with
  | [] => ([], false)
  | w :: rest =>
      match fresh !! ws_id w with
      | None => ((keep_fresh fresh seen rest).1, true)
      | Some f =>
          if bool_decide (ws_id f ∈ seen) then ((keep_fresh fresh seen rest).1, true)
          else let '(l, changed) := keep_fresh fresh (ws_id f :: seen) rest in (f :: l, changed)
      end
  end.

(** Without: the cache, then one query for what is missing; [None] is its failure. *)
Definition refresh_cached (now : Z) (query : list Z -> option (gmap Z CheckedWorkspace)) (cache : workspace_cache) (queued : list CheckedWorkspace)
    : list CheckedWorkspace * bool * workspace_cache :=
  let ids := queued_ids queued in
  let valid id := match cache !! id with Some (_, expires) => now <? expires | None => false end in
  let hits := List.filter valid ids in
  let missing := List.filter (fun id => negb (valid id)) ids in
  let cache := fold_left (fun c id => delete id c) missing cache in
  let cached : gmap Z CheckedWorkspace := list_to_map (omap (fun id => match cache !! id with Some (w, _) => Some (id, w) | None => None end) hits) in
  if bool_decide (missing = []) then (keep_fresh cached [] queued, cache)
  else
    match query missing with
    | None => (map (fun w => default w (cached !! ws_id w)) queued, false, cache)
    | Some rows =>
        let cache := map_fold (fun id w c => <[id := (w, now + workspaceCacheTTL)]> c) cache rows in
        (keep_fresh (rows ∪ cached) [] queued, cache)
    end.

Definition refreshProxyWorkspaces (snapshots : option (gmap Z CheckedWorkspace)) (now : Z) (query : list Z -> option (gmap Z CheckedWorkspace))
    (cache : workspace_cache) (queued : list CheckedWorkspace) : list CheckedWorkspace * bool * workspace_cache :=
  match queued, snapshots with
  | [], _ => ([], false, cache)
  | _, Some snapshots => (refresh_ready snapshots queued, cache)
  | _, None => refresh_cached now query cache queued
  end.

Lemma dedup_go_length seen l : (length (dedup_go seen l : list Z) <= length l)%nat.
Proof. revert seen. induction l as [|x l IH]; intros seen; simpl; [lia|]. case_bool_decide; simpl; [specialize (IH seen)|specialize (IH (x :: seen))]; lia. Qed.

Lemma dedup_go_same (l seen : list Z) : length (dedup_go seen l) = length l -> dedup_go seen l = l.
Proof.
  revert seen. induction l as [|x l IH]; intros seen H; simpl in *; [done|]. case_bool_decide.
  - pose proof (dedup_go_length seen l). lia.
  - f_equal. apply IH. simpl in H. lia.
Qed.

Lemma omap_length_le {A B} (f : A -> option B) l : (length (omap f l) <= length l)%nat.
Proof.
  induction l as [|x l IH]; [done|]. change (omap f (x :: l)) with (match f x with Some y => y :: omap f l | None => omap f l end).
  destruct (f x); rewrite ?length_cons; lia.
Qed.

Lemma omap_snapshots (snapshots : gmap Z CheckedWorkspace) ids :
  (forall id w, snapshots !! id = Some w -> ws_id w = id) -> length (omap (fun id => snapshots !! id) ids) = length ids ->
  map ws_id (omap (fun id => snapshots !! id) ids) = ids.
Proof.
  intros Hid. induction ids as [|id ids IH]; [done|].
  change (omap (fun id => snapshots !! id) (id :: ids)) with (match snapshots !! id with Some w => w :: omap (fun id => snapshots !! id) ids | None => omap (fun id => snapshots !! id) ids end).
  destruct (snapshots !! id) as [w|] eqn:E; rewrite ?length_cons; intros H.
  - cbn [map]. rewrite (Hid id w E). f_equal. apply IH. lia.
  - pose proof (omap_length_le (fun id => snapshots !! id) ids). lia.
Qed.

(** When the payload need not be rewritten the owners are the queued ones. *)
Lemma refresh_ready_unchanged (snapshots : gmap Z CheckedWorkspace) queued :
  (forall id w, snapshots !! id = Some w -> ws_id w = id) -> (refresh_ready snapshots queued).2 = false ->
  map ws_id (refresh_ready snapshots queued).1 = map ws_id queued.
Proof.
  intros Hid H. unfold refresh_ready in *. simpl in *. apply negb_false_iff, Nat.eqb_eq in H.
  pose proof (omap_length_le (fun id => snapshots !! id) (queued_ids queued)) as H1.
  assert (length (queued_ids queued) <= length (List.filter (fun id => negb (id =? 0)%Z) (map ws_id queued)))%nat as H2 by exact (dedup_go_length [] _).
  pose proof (filter_bool_length (fun id => negb (id =? 0)) (map ws_id queued)) as H3. rewrite length_map in H3.
  rewrite omap_snapshots; [|done|lia]. unfold queued_ids in *. rewrite dedup_go_same by lia.
  apply CheckerPlansFacts.CheckerPlansFacts.filter_all_bool, CheckerPlansFacts.CheckerPlansFacts.filter_length_eq. rewrite length_map. lia.
Qed.

Lemma keep_fresh_unchanged fresh seen queued :
  (forall id w, fresh !! id = Some w -> ws_id w = id) -> (keep_fresh fresh seen queued).2 = false ->
  map ws_id (keep_fresh fresh seen queued).1 = map ws_id queued.
Proof.
  intros Hid. revert seen. induction queued as [|w queued IH]; intros seen H; [done|]. simpl in *. destruct (fresh !! ws_id w) as [f|] eqn:E; [|done].
  case_bool_decide; [done|]. specialize (IH (ws_id f :: seen)). destruct (keep_fresh fresh (ws_id f :: seen) queued) as [l changed]. simpl in *.
  rewrite IH by done. by rewrite (Hid _ _ E).
Qed.

(** What is known about owners carries its own identifier. *)
Definition snapshots_ok (snapshots : option (gmap Z CheckedWorkspace)) : Prop :=
  forall m, snapshots = Some m -> forall id w, m !! id = Some w -> ws_id w = id.

Definition cache_ok (cache : workspace_cache) : Prop := forall id w e, cache !! id = Some (w, e) -> ws_id w = id.

Definition query_ok (query : list Z -> option (gmap Z CheckedWorkspace)) : Prop :=
  forall ids rows, query ids = Some rows -> forall id w, rows !! id = Some w -> ws_id w = id.

Lemma cache_ok_delete ids (cache : workspace_cache) : cache_ok cache -> cache_ok (fold_left (fun c id => delete id c) ids cache).
Proof.
  revert cache. induction ids as [|i ids IH]; intros cache Hc; [done|]. simpl. apply IH. intros id w e Hl. apply lookup_delete_Some in Hl as [_ Hl].
  exact (Hc id w e Hl).
Qed.

Lemma refresh_cached_unchanged now query cache queued :
  cache_ok cache -> query_ok query -> let '(l, changed, _) := refresh_cached now query cache queued in changed = false -> map ws_id l = map ws_id queued.
Proof.
  intros Hcache Hq. unfold refresh_cached. set (valid := fun id => _). set (cache' := fold_left _ _ cache). set (missing := List.filter valid _).
  set (cached := list_to_map _ : gmap Z CheckedWorkspace).
  assert (forall id w, cached !! id = Some w -> ws_id w = id) as Hcached.
  { intros id w Hl. apply elem_of_list_to_map_2, list_elem_of_omap in Hl as (i & _ & Hi). destruct (cache' !! i) as [[w' e]|] eqn:E; [|done].
    injection Hi as <- <-. exact (cache_ok_delete _ cache Hcache i w' e E). }
  case_bool_decide.
  - destruct (keep_fresh cached [] queued) as [l changed] eqn:E. intros Hch. pose proof (keep_fresh_unchanged cached [] queued Hcached) as Hk.
    rewrite E in Hk. by apply Hk.
  - destruct (query missing) as [rows|] eqn:Er.
    + destruct (keep_fresh (rows ∪ cached) [] queued) as [l changed] eqn:E. intros Hch. pose proof (keep_fresh_unchanged (rows ∪ cached) [] queued) as Hk.
      rewrite E in Hk. apply Hk; [|done]. intros id w Hl. apply lookup_union_Some_raw in Hl as [Hl|[_ Hl]]; [by apply (Hq missing rows Er)|by apply Hcached].
    + intros _. rewrite map_map. apply map_ext. intros w. destruct (cached !! ws_id w) as [f|] eqn:E; [|done]. by apply Hcached.
Qed.

Lemma refreshProxyWorkspaces_unchanged snapshots now query cache queued :
  snapshots_ok snapshots -> cache_ok cache -> query_ok query ->
  let '(l, changed, _) := refreshProxyWorkspaces snapshots now query cache queued in changed = false -> map ws_id l = map ws_id queued.
Proof.
  intros Hs Hc Hq. unfold refreshProxyWorkspaces. destruct queued as [|w queued]; [done|]. destruct snapshots as [m|]; [|by apply refresh_cached_unchanged].
  pose proof (refresh_ready_unchanged m (w :: queued) (Hs m eq_refl)). by destruct (refresh_ready m (w :: queued)) as [l changed].
Qed.

(** ** A worker's cycle *)

(** What a worker asks of the queue at the end of a cycle. *)
Inductive command := RemoveFromQueue (ids : list Z) | RequeueProxy | RequeueProxyWithPayload (owners : list Z).

Definition requeueCheckedProxy (owners : list Z) (persistPayload : bool) : command :=
  if persistPayload then RequeueProxyWithPayload owners else RequeueProxy.

(** One dequeued route: what the checks, the lease, the failure tracker and
    the ownership lookup ([None] is its failure) answered, and what follows. *)
Definition work (proxyID : Z) (refreshed : list CheckedWorkspace) (payloadChanged : bool) (checked renewed : bool)
    (removed : gset Z) (orphaned : list Z) (hasUsers : option bool) : list command :=
  if negb checked then []
  else if negb renewed then []
  else
    let some := bool_decide (removed <> ∅) in
    let payloadChanged := payloadChanged || some in
    let owners := if some then filterRemovedWorkspaces (map ws_id refreshed) removed else map ws_id refreshed in
    (if bool_decide (orphaned = []) then [] else [RemoveFromQueue orphaned]) ++
    match hasUsers with
    | None => [requeueCheckedProxy owners payloadChanged]
    | Some false => [RemoveFromQueue [proxyID]]
    | Some true => [requeueCheckedProxy owners payloadChanged]
    end.

(** C23. A finished cycle never loses a route or its owners: unless the cycle was abandoned (the lease then brings the route back) its last request takes the route out of the queue only after an answered lookup found no owner left, and otherwise schedules it again, also when the lookup failed; and when it is scheduled without a new payload the owners the queued payload lists are exactly the ones checked and not removed in this cycle. *)
Theorem cycle_keeps_routes snapshots now query cache queued proxyID checked renewed removed orphaned hasUsers :
  snapshots_ok snapshots -> cache_ok cache -> query_ok query ->
  let '(refreshed, changed, _) := refreshProxyWorkspaces snapshots now query cache queued in
  let kept := filterRemovedWorkspaces (map ws_id refreshed) removed in
  let commands := work proxyID refreshed changed checked renewed removed orphaned hasUsers in
  (commands = [] <-> checked = false \/ renewed = false) /\
  (commands <> [] ->
     (last commands = Some (RemoveFromQueue [proxyID]) <-> hasUsers = Some false) /\
     (hasUsers <> Some false -> last commands = Some RequeueProxy \/ last commands = Some (RequeueProxyWithPayload kept))) /\
  (RequeueProxy ∈ commands -> removed = ∅ /\ map ws_id queued = kept).
Proof.
  intros Hs Hc Hq. pose proof (refreshProxyWorkspaces_unchanged snapshots now query cache queued Hs Hc Hq) as Hun.
  destruct (refreshProxyWorkspaces snapshots now query cache queued) as [[refreshed changed] cache']. cbv zeta.
  assert (filterRemovedWorkspaces (map ws_id refreshed) ∅ = map ws_id refreshed) as Hnone
    by (apply CheckerPlansFacts.CheckerPlansFacts.filter_all_bool; intros x _; rewrite bool_decide_eq_false_2 by set_solver; done).
  unfold work. destruct checked, renewed; cbn [negb]; [|split_and!; [naive_solver|done|set_solver]..].
  set (fine := if bool_decide (orphaned = []) then [] else [RemoveFromQueue orphaned]).
  set (owners := if bool_decide (removed <> ∅) then _ else map ws_id refreshed). set (rewritten := changed || bool_decide (removed <> ∅)).
  assert (owners = filterRemovedWorkspaces (map ws_id refreshed) removed) as Howners.
  { unfold owners. destruct (bool_decide (removed <> ∅)) eqn:E; [done|]. apply bool_decide_eq_false in E. assert (removed = ∅) as -> by (by apply dec_stable). done. }
  assert (rewritten = false -> removed = ∅ /\ map ws_id queued = owners) as Hcurrent.
  { intros [Hch Hr]%orb_false_iff. apply bool_decide_eq_false in Hr. assert (removed = ∅) as Hr' by (by apply dec_stable). split; [done|].
    rewrite Howners, Hr', Hnone. symmetry. by apply Hun. }
  rewrite <- Howners.
  assert (RequeueProxy ∉ fine) as Hfine by (unfold fine; case_bool_decide; set_solver).
  split_and!.
  - split; [intros H|intros [H|H]; discriminate H]. apply (f_equal length) in H. rewrite length_app in H. destruct hasUsers as [[]|]; simpl in H; lia.
  - intros _. rewrite last_app. unfold requeueCheckedProxy. destruct hasUsers as [[]|], rewritten; simpl; (split; [split; intros E; congruence|intros E; first [congruence|by left|by right]]).
  - intros [H|H]%elem_of_app; [done|]. unfold requeueCheckedProxy in H. destruct hasUsers as [[]|], rewritten; apply list_elem_of_singleton in H; first [discriminate H|exact (Hcurrent eq_refl)].
Qed.

Lemma cycle_keeps_routes_witness :
  let queued := [Sample.value 1; Sample.value 2] in
  let '(refreshed, changed, _) := refreshProxyWorkspaces None 0 (fun _ => None) ∅ queued in
  let kept := filterRemovedWorkspaces (map ws_id refreshed) ∅ in
  let commands := work 9 refreshed changed true true ∅ [] None in
  (commands = [] <-> true = false \/ true = false) /\
  (commands <> [] ->
     (last commands = Some (RemoveFromQueue [9]) <-> None = Some false) /\
     (None <> Some false -> last commands = Some RequeueProxy \/ last commands = Some (RequeueProxyWithPayload kept))) /\
  (RequeueProxy ∈ commands -> ∅ = (∅ : gset Z) /\ map ws_id queued = kept).
Proof.
  apply (cycle_keeps_routes None 0 (fun _ => None) ∅ [Sample.value 1; Sample.value 2] 9 true true ∅ [] None).
  - intros m Hm. discriminate Hm.
  - intros id w e He. rewrite lookup_empty in He. discriminate He.
  - intros ids rows Hr. discriminate Hr.
Defined.

End CheckCycle.
