(* ===== verification/RequestGuards.v ===== *)
(** * Guards of the HTTP server

    [internal/app/server/graphql_guard.go] limits the depth and the number of
    fields of a GraphQL document before it is executed;
    [request_hardening.go] and [routes.go] decide which origins a browser may
    call from.  The GraphQL parser and [net/url] are parameters: what the
    guard uses of a parsed document is [definition], [operation] and
    [selection] below. *)

From S2P Require Import Prelude GoStrings.
Open Scope Z_scope.

Module RequestGuards.

(** ** Documents *)

(** A selection set may be missing; a name may be. *)
Inductive selection :=
| Field (name : option string) (set : option (list selection))
| InlineFragment (set : option (list selection))
| FragmentSpread (name : option string).

Abbreviation selection_set := (option (list selection)).

Record operation := MkOperation { op_name : option string; op_set : selection_set }.

Inductive definition := Fragment (name : option string) (set : selection_set) | Operation (op : operation) | OtherDefinition.

Inductive guard_error := TooDeep | TooManyFields | IntrospectionDisabled | FragmentCycle (name : string)
| InvalidQuery | NoOperation | OperationNotFound (name : string).

(** The number of fields so far, or why the document is refused. *)
Inductive outcome := Cost (fields : Z) | Refused (e : guard_error).

(** A name that a spread can be followed by. *)
Definition spread_name (name : option string) : option string :=
  match name with
  | None => None
  | Some n => if String.eqb (trim_space n) "" then None else Some (trim_space n)
  end.

Section Walk.
Context (maxDepth maxFields : Z) (allowIntrospection : bool) (fragments : gmap string selection_set).

(** Visit each selection until one is refused; no answer when [visit] has none. *)
Fixpoint each (visit : selection -> Z -> option outcome) (l : list selection) (cost : Z) : option outcome :=
  match l with
  | [] => Some (Cost cost)
  | node :: rest =>
      match visit node cost with
      | Some (Cost cost) => each visit rest cost
      | other => other
      end
  end.

Definition introspects (name : option string) : bool := match name with Some n => has_prefix "__" n | None => false end.

(** [walkSelectionSet]; the names of the fragments being expanded are passed
    down, which is what adding a name before and deleting it after a call
    amounts to. *)
Fixpoint walkSelectionSet (fuel : nat) (set : selection_set) (depth : Z) (stack : gset string) (cost : Z) : option outcome :=
  match fuel with
  | O => None
  | S fuel =>
      match set with
      | None => Some (Cost cost)
      | Some selections =>
          if maxDepth <? depth then Some (Refused TooDeep)
          else
            each (fun node cost =>
              match node with
              | Field name sub =>
                  let cost := cost + 1 in
                  if maxFields <? cost then Some (Refused TooManyFields)
                  else if negb allowIntrospection && introspects name then Some (Refused IntrospectionDisabled)
                  else walkSelectionSet fuel sub (depth + 1) stack cost
              | InlineFragment sub => walkSelectionSet fuel sub (depth + 1) stack cost
              | FragmentSpread name =>
                  match spread_name name with
                  | None => Some (Cost cost)
                  | Some name =>
                      if bool_decide (name ∈ stack) then Some (Refused (FragmentCycle name))
                      else
                        match fragments !! name with
                        | None => Some (Cost cost)
                        | Some sub => walkSelectionSet fuel sub (depth + 1) ({[name]} ∪ stack) cost
                        end
                  end
              end) selections cost
      end
  end.

(** Every call is one level deeper, down to one past the limit. *)
Definition walk_fuel : nat := Z.to_nat (maxDepth + 2).

(** Each operation starts a count of its own. *)
Fixpoint walk_operations (ops : list operation) : option guard_error :=
  match ops with
  | [] => None
  | op :: rest =>
      match walkSelectionSet walk_fuel (op_set op) 1 ∅ 0 with
      | Some (Refused e) => Some e
      | _ => walk_operations rest
      end
  end.

End Walk.

(** The last fragment of a name is the one that counts. *)
Definition add_fragment (m : gmap string selection_set) (d : definition) : gmap string selection_set :=
  match d with
  | Fragment (Some n) set => if String.eqb (trim_space n) "" then m else <[n := set]> m
  | _ => m
  end.

Definition document_fragments (doc : list definition) : gmap string selection_set := fold_left add_fragment doc ∅.

Definition document_operations (doc : list definition) : list operation :=
  omap (fun d => match d with Operation op => Some op | _ => None end) doc.

Definition selectOperations (operations : list operation) (operationName : string) : list operation :=
  if String.eqb operationName "" then operations
  else List.filter (fun op => match op_name op with Some n => String.eqb (trim_space n) operationName | None => false end) operations.

Definition validateGraphQLQueryComplexity (parse : string -> option (list definition)) (maxDepth maxFields : Z) (allowIntrospection : bool)
    (query operationName : string) : option guard_error :=
  match parse query with
  | None => Some InvalidQuery
  | Some doc =>
      match document_operations doc with
      | [] => Some NoOperation
      | operations =>
          match selectOperations operations operationName with
          | [] => Some (OperationNotFound operationName)
          | selected => walk_operations maxDepth maxFields allowIntrospection (document_fragments doc) selected
          end
      end
  end.

(** What [withGraphQLGuard] does with a request: its options were read or not. *)
Inductive guarded := Next | BadRequest (e : option guard_error) | EntityTooLarge.

Definition withGraphQLGuard (parse : string -> option (list definition)) (maxDepth maxFields maxQueryBytes : Z) (allowIntrospection : bool)
    (options : option (string * string)) : guarded :=
  match options with
  | None => BadRequest None
  | Some (query, operationName) =>
      let query := trim_space query in
      if String.eqb query "" then BadRequest None
      else if maxQueryBytes <? Z.of_nat (slen query) then EntityTooLarge
      else
        match validateGraphQLQueryComplexity parse maxDepth maxFields allowIntrospection query (trim_space operationName) with
        | Some e => BadRequest (Some e)
        | None => Next
        end
  end.

Definition defaultGraphQLMaxDepth : Z := 12.
Definition defaultGraphQLMaxFields : Z := 250.
Definition defaultGraphQLMaxQueryBytes : Z := Z.shiftl 16 10.

(** ** Origins *)

Record corsConfig := MkCORS { allowAll : bool; allowed : gset string }.

Definition normalizeOrigin (origin : string) : string := trim_right "/" (trim_space (to_lower origin)).

Definition add_origin (config : corsConfig) (value : string) : corsConfig :=
  let origin := normalizeOrigin value in
  if String.eqb origin "" then config
  else if String.eqb origin "*" then MkCORS true (allowed config)
  else MkCORS (allowAll config) ({[origin]} ∪ allowed config).

Definition resolveCORSConfig (value : string) : corsConfig :=
  let raw := trim_space value in
  if String.eqb raw "" then MkCORS false ∅ else fold_left add_origin (split_byte (chr 44) raw) (MkCORS false ∅).

Definition isAllowed (cfg : corsConfig) (origin : string) : bool :=
  if allowAll cfg then true
  else if bool_decide (allowed cfg = ∅) then false else bool_decide (normalizeOrigin origin ∈ allowed cfg).

(** What the code reads of a URL. *)
Record URL := MkURL { Scheme : string; Hostname : string; Port : string }.

(** What it reads of a request. *)
Record Request := MkRequest { Host : string; TLS : bool; ForwardedProto : string }.

Definition normalizePort (scheme port : string) : option string :=
  let port := trim_space port in
  if negb (String.eqb port "") then Some port
  else
    let scheme := to_lower (trim_space scheme) in
    if String.eqb scheme "http" then Some "80" else if String.eqb scheme "https" then Some "443" else None.

Definition requestSchemeForOriginCheck (r : Request) : string :=
  if TLS r then "https"
  else
    let proto := trim_space (to_lower (ForwardedProto r)) in
    let proto := match index_byte (chr 44) proto with Some i => trim_space (stake i proto) | None => proto end in
    if String.eqb proto "http" || String.eqb proto "https" then proto else "http".

Definition parseHostAndPort (Parse : string -> option URL) (hostport scheme : string) : option (string * string) :=
  let hostport := trim_space hostport in
  if String.eqb hostport "" then None
  else
    match Parse ("http://" +:+ hostport) with
    | None => None
    | Some u =>
        let hostname := trim_space (to_lower (Hostname u)) in
        if String.eqb hostname "" then None
        else match normalizePort scheme (Port u) with Some port => Some (hostname, port) | None => None end
    end.

Definition isSameHostOrigin (Parse : string -> option URL) (origin : string) (r : Request) : bool :=
  if String.eqb (trim_space origin) "" then false
  else
    match Parse origin with
    | None => false
    | Some u =>
        let originScheme := trim_space (to_lower (Scheme u)) in
        if negb (String.eqb originScheme "http") && negb (String.eqb originScheme "https") then false
        else
          let originHostname := trim_space (to_lower (Hostname u)) in
          if String.eqb originHostname "" then false
          else
            match normalizePort originScheme (Port u) with
            | None => false
            | Some originPort =>
                let requestScheme := requestSchemeForOriginCheck r in
                match parseHostAndPort Parse (Host r) requestScheme with
                | None => false
                | Some (requestHostname, requestPort) =>
                    String.eqb originHostname requestHostname && String.eqb originScheme requestScheme && String.eqb originPort requestPort
                end
            end
    end.

Inductive cors_result := Forbidden | NoContent (origin : string) | Forward (origin : string).

Definition enableCORS (Parse : string -> option URL) (cfg : corsConfig) (origin method : string) (r : Request) : cors_result :=
  if negb (String.eqb origin "") && negb (isAllowed cfg origin) && negb (isSameHostOrigin Parse origin r) then Forbidden
  else if String.eqb method "OPTIONS" then NoContent origin else Forward origin.

(** ** What the walk decides

    A document is followed from its root: into the selections of fields and
    inline fragments and into the fragments that are spread. *)

Section Reference.
Context (maxDepth maxFields : Z) (allowIntrospection : bool) (fragments : gmap string selection_set).

(** A selection set at a depth, inside some fragments. *)
Definition place : Type := Z * gset string * selection_set.

Inductive descends : place -> place -> Prop :=
| into_field d st l name sub : Field name sub ∈ l -> descends (d, st, Some l) (d + 1, st, sub)
| into_inline d st l sub : InlineFragment sub ∈ l -> descends (d, st, Some l) (d + 1, st, sub)
| into_spread d st l name n sub : FragmentSpread name ∈ l -> spread_name name = Some n -> n ∉ st -> fragments !! n = Some sub ->
    descends (d, st, Some l) (d + 1, {[n]} ∪ st, sub).

(** What is refused wherever it appears. *)
Inductive offends : place -> Prop :=
| too_deep d st l : maxDepth < d -> offends (d, st, Some l)
| asks_schema d st l name sub : Field name sub ∈ l -> allowIntrospection = false -> introspects name = true -> offends (d, st, Some l)
| goes_round d st l name n : FragmentSpread name ∈ l -> spread_name name = Some n -> n ∈ st -> offends (d, st, Some l).

(** The fields a selection stands for. *)
Definition node_fields (below : selection_set -> gset string -> Z) (stack : gset string) (node : selection) : Z :=
  match node with
  | Field _ sub => 1 + below sub stack
  | InlineFragment sub => below sub stack
  | FragmentSpread name =>
      match spread_name name with
      | None => 0
      | Some n => if bool_decide (n ∈ stack) then 0 else match fragments !! n with None => 0 | Some sub => below sub ({[n]} ∪ stack) end
      end
  end.

Definition total (weight : selection -> Z) (l : list selection) : Z := foldr (fun node acc => weight node + acc) 0 l.

(** The fields of a document with its fragments written out, to some depth. *)
Fixpoint expanded (levels : nat) (set : selection_set) (stack : gset string) : Z :=
  match levels, set with
  | S levels, Some l => total (node_fields (expanded levels) stack) l
  | _, _ => 0
  end.

(** Nothing that can be reached offends. *)
Definition fine (d : Z) (st : gset string) (set : selection_set) : Prop := forall p, rtc descends (d, st, set) p -> ~ offends p.

(** A selection of a set at depth [d]. *)
Definition node_fine (d : Z) (st : gset string) (node : selection) : Prop :=
  match node with
  | Field name sub => (allowIntrospection = false -> introspects name = false) /\ fine (d + 1) st sub
  | InlineFragment sub => fine (d + 1) st sub
  | FragmentSpread name =>
      match spread_name name with
      | None => True
      | Some n => n ∉ st /\ match fragments !! n with None => True | Some sub => fine (d + 1) ({[n]} ∪ st) sub end
      end
  end.

Lemma fine_None d st : fine d st None.
Proof.
  intros p Hp. apply rtc_inv in Hp as [<-|(q & Hq & _)]; [intros Ho; inversion Ho|inversion Hq].
Qed.

Lemma fine_Some d st l : fine d st (Some l) <-> d <= maxDepth /\ forall node, node ∈ l -> node_fine d st node.
Proof.
  split.
  - intros H. split; [destruct (decide (d <= maxDepth)); [done|exfalso; apply (H (d, st, Some l)); [done|constructor; lia]]|].
    assert (forall q, descends (d, st, Some l) q -> forall p, rtc descends q p -> ~ offends p) as Hb by (intros q Hq p Hp; apply H; by eapply rtc_l).
    intros [name sub|sub|name] Hn; simpl.
    + split; [|intros p; apply Hb; by eapply into_field]. intros Ha. destruct (introspects name) eqn:E; [exfalso|done].
      apply (H (d, st, Some l)); [done|by eapply asks_schema].
    + intros p; apply Hb; by eapply into_inline.
    + destruct (spread_name name) as [n|] eqn:E; [|done]. assert (n ∉ st) as Hst by (intros Hin; apply (H (d, st, Some l)); [done|by eapply goes_round]).
      split; [done|]. destruct (fragments !! n) as [sub|] eqn:Ef; [|done]. intros p; apply Hb; by eapply into_spread.
  - intros [Hd Hl] p Hp. apply rtc_inv in Hp as [<-|(q & Hq & Hp)].
    + intros Ho. inversion Ho as [? ? ? Hdeep|? ? ? name sub Hin Ha Hi|? ? ? name n Hin Hn Hst]; subst; [lia| |].
      * apply Hl in Hin as [Hin _]. rewrite Hin in Hi by done. done.
      * apply Hl in Hin. simpl in Hin. rewrite Hn in Hin. by apply Hin.
    + inversion Hq as [? ? ? name sub Hin|? ? ? sub Hin|? ? ? name n sub Hin Hn Hst Hf]; subst; apply Hl in Hin; simpl in Hin.
      * by apply (proj2 Hin).
      * by apply Hin.
      * rewrite Hn, Hf in Hin. by apply (proj2 Hin).
Qed.

Lemma total_nonneg weight l : (forall node, node ∈ l -> 0 <= weight node) -> 0 <= total weight l.
Proof.
  induction l as [|x l IH]; intros H; simpl; [lia|]. assert (0 <= weight x) by (apply H; constructor).
  enough (0 <= total weight l) by (unfold total in *; lia). apply IH. intros y Hy. apply H. by constructor.
Qed.

Lemma expanded_nonneg levels set st : 0 <= expanded levels set st.
Proof.
  revert set st. induction levels as [|levels IH]; intros [l|] st; simpl; try lia. apply total_nonneg. intros [name sub|sub|name] _; simpl.
  - specialize (IH sub st). lia.
  - apply IH.
  - destruct (spread_name name) as [n|]; [|lia]. case_bool_decide; [lia|]. destruct (fragments !! n); [apply IH|lia].
Qed.

Lemma node_fields_nonneg levels st node : 0 <= node_fields (expanded levels) st node.
Proof.
  pose proof (expanded_nonneg levels) as H. destruct node as [name sub|sub|name]; simpl; [specialize (H sub st); lia|apply H|].
  destruct (spread_name name) as [n|]; [|lia]. case_bool_decide; [lia|]. destruct (fragments !! n); [apply H|lia].
Qed.

(** A document without offences is written out completely within the depth limit. *)
Lemma expanded_stable levels levels' d st set :
  fine d st set -> (Z.to_nat (maxDepth - d + 1) <= levels)%nat -> (Z.to_nat (maxDepth - d + 1) <= levels')%nat -> expanded levels set st = expanded levels' set st.
Proof.
  revert levels' d st set. induction levels as [|levels IH]; intros [|levels'] d st [l|] Hf H1 H2; try done.
  - apply fine_Some in Hf as [Hd _]. lia.
  - apply fine_Some in Hf as [Hd _]. lia.
  - apply fine_Some in Hf as [Hd Hl]. simpl. clear -IH Hl H1 H2 Hd. induction l as [|node l IHl]; [done|]. simpl. f_equal; [|apply IHl; intros n Hn; apply Hl; by constructor].
    assert (node_fine d st node) as Hn by (apply Hl; constructor). destruct node as [name sub|sub|name]; simpl in *.
    + f_equal. apply (IH levels' (d + 1)); [apply Hn|lia|lia].
    + apply (IH levels' (d + 1)); [apply Hn|lia|lia].
    + destruct (spread_name name) as [n|]; [|done]. case_bool_decide; [done|]. destruct (fragments !! n); [|done]. apply (IH levels' (d + 1)); [apply Hn|lia|lia].
Qed.

(** What a visit to something of [weight] fields may answer. *)
Definition decided (o : option outcome) (good : Prop) (cost weight : Z) : Prop :=
  match o with
  | Some (Cost c) => good /\ c = cost + weight /\ c <= maxFields
  | Some (Refused _) => ~ (good /\ cost + weight <= maxFields)
  | None => False
  end.

Lemma each_decided visit (good : selection -> Prop) weight l cost :
  (forall node cost, node ∈ l -> 0 <= cost <= maxFields -> decided (visit node cost) (good node) cost (weight node)) ->
  (forall node, 0 <= weight node) -> 0 <= cost <= maxFields ->
  decided (each visit l cost) (forall node, node ∈ l -> good node) cost (total weight l).
Proof.
  intros Hv Hw. revert cost. induction l as [|node l IH]; intros cost Hc; simpl; [split; [set_solver|lia]|].
  pose proof (Hv node cost ltac:(constructor) Hc) as Hn. pose proof (total_nonneg weight l (fun n _ => Hw n)) as Ht. pose proof (Hw node) as Hx.
  destruct (visit node cost) as [[c|e]|]; simpl in Hn; [|intros [Hg Hm]; apply Hn; split; [apply Hg; constructor|unfold total in *; lia]|done].
  destruct Hn as (Hgood & -> & Hmax).
  assert (decided (each visit l (cost + weight node)) (forall node, node ∈ l -> good node) (cost + weight node) (total weight l)) as Hrest
    by (apply IH; [intros; apply Hv; [by constructor|done]|lia]).
  destruct (each visit l (cost + weight node)) as [[c|e]|]; simpl in Hrest |- *; [|intros [Hg Hm]; apply Hrest; split; [intros; apply Hg; by constructor|unfold total in *; lia]|done].
  destruct Hrest as (Hg & -> & Hm). split; [|unfold total in *; lia]. intros y [->|Hy]%elem_of_cons; [done|by apply Hg].
Qed.

Lemma walk_decided fuel d st set cost :
  (Z.to_nat (maxDepth + 2 - d) <= fuel)%nat -> d <= maxDepth + 1 -> 0 <= cost <= maxFields ->
  decided (walkSelectionSet maxDepth maxFields allowIntrospection fragments fuel set d st cost) (fine d st set) cost (expanded fuel set st).
Proof.
  revert d st set cost. induction fuel as [|fuel IH]; intros d st set cost Hfuel Hd Hc; [lia|].
  destruct set as [l|]; simpl; [|split; [apply fine_None|lia]]. destruct (maxDepth <? d) eqn:Edeep; [intros [[Hf _]%fine_Some _]; lia|].
  assert (decided (each (fun node cost =>
      match node with
      | Field name sub =>
          if maxFields <? cost + 1 then Some (Refused TooManyFields)
          else if negb allowIntrospection && introspects name then Some (Refused IntrospectionDisabled)
          else walkSelectionSet maxDepth maxFields allowIntrospection fragments fuel sub (d + 1) st (cost + 1)
      | InlineFragment sub => walkSelectionSet maxDepth maxFields allowIntrospection fragments fuel sub (d + 1) st cost
      | FragmentSpread name =>
          match spread_name name with
          | None => Some (Cost cost)
          | Some name =>
              if bool_decide (name ∈ st) then Some (Refused (FragmentCycle name))
              else match fragments !! name with
                   | None => Some (Cost cost)
                   | Some sub => walkSelectionSet maxDepth maxFields allowIntrospection fragments fuel sub (d + 1) ({[name]} ∪ st) cost
                   end
          end
      end) l cost) (forall node, node ∈ l -> node_fine d st node) cost (total (node_fields (expanded fuel) st) l)) as H.
  { apply each_decided; [|intros; apply node_fields_nonneg|done]. intros [name sub|sub|name] c Hin Hcc; simpl.
    - pose proof (expanded_nonneg fuel sub st) as Hnn. destruct (maxFields <? c + 1) eqn:Emax; [intros [_ Hm]; lia|].
      destruct (negb allowIntrospection && introspects name) eqn:Ei.
      + intros [[Ha _] _]. apply andb_true_iff in Ei as [Ei1 Ei2]. apply negb_true_iff in Ei1. rewrite Ha in Ei2 by done. done.
      + pose proof (IH (d + 1) st sub (c + 1) ltac:(lia) ltac:(lia) ltac:(lia)) as Hs.
        destruct (walkSelectionSet _ _ _ _ fuel sub (d + 1) st (c + 1)) as [[c'|e]|]; simpl in Hs |- *; [|intros [[_ Hf] Hm]; apply Hs; split; [done|lia]|done].
        destruct Hs as (Hf & -> & Hm). split; [split; [|done]|lia]. intros Ha. rewrite Ha in Ei. simpl in Ei. by destruct (introspects name).
    - apply (IH (d + 1)); lia.
    - destruct (spread_name name) as [n|]; [|simpl; split; [done|lia]]. destruct (bool_decide (n ∈ st)) eqn:Est.
      + apply bool_decide_eq_true in Est. intros [[Hn _] _]. done.
      + apply bool_decide_eq_false in Est. destruct (fragments !! n) as [sub|]; [|simpl; split; [done|lia]].
        pose proof (IH (d + 1) ({[n]} ∪ st) sub c ltac:(lia) ltac:(lia) ltac:(lia)) as Hs.
        destruct (walkSelectionSet _ _ _ _ fuel sub (d + 1) ({[n]} ∪ st) c) as [[c'|e]|]; simpl in Hs |- *; [|intros [[_ Hf] Hm]; by apply Hs|done].
        destruct Hs as (Hf & -> & Hm). done. }
  destruct (each _ l cost) as [[c|e]|]; simpl in H |- *; [|intros [[_ Hl]%fine_Some Hm]; by apply H|done].
  destruct H as (Hl & -> & Hm). split; [apply fine_Some; split; [lia|done]|done].
Qed.

End Reference.

(** An operation is within the limits. *)
Definition within (maxDepth maxFields : Z) (allowIntrospection : bool) (fragments : gmap string selection_set) (op : operation) : Prop :=
  fine maxDepth allowIntrospection fragments 1 ∅ (op_set op) /\
  forall levels, (Z.to_nat maxDepth <= levels)%nat -> expanded fragments levels (op_set op) ∅ <= maxFields.

Lemma walk_operations_spec maxDepth maxFields allowIntrospection fragments ops :
  0 <= maxDepth -> 0 <= maxFields ->
  walk_operations maxDepth maxFields allowIntrospection fragments ops = None <->
  forall op, op ∈ ops -> within maxDepth maxFields allowIntrospection fragments op.
Proof.
  intros Hd Hf. induction ops as [|op ops IH]; simpl; [split; [set_solver|done]|].
  pose proof (walk_decided maxDepth maxFields allowIntrospection fragments (walk_fuel maxDepth) 1 ∅ (op_set op) 0 ltac:(unfold walk_fuel; lia) ltac:(lia) ltac:(lia)) as H.
  assert (within maxDepth maxFields allowIntrospection fragments op <->
    fine maxDepth allowIntrospection fragments 1 ∅ (op_set op) /\ expanded fragments (walk_fuel maxDepth) (op_set op) ∅ <= maxFields) as Hw.
  { split; intros [H1 H2]; (split; [done|]); [apply H2; unfold walk_fuel; lia|]. intros levels Hl.
    rewrite (expanded_stable maxDepth allowIntrospection fragments levels (walk_fuel maxDepth) 1) by (done || (unfold walk_fuel; lia)). done. }
  destruct (walkSelectionSet _ _ _ _ _ _ _ _ _) as [[c|e]|]; simpl in H; [|split; [done|]; intros Hall; exfalso; apply H, Hw, Hall; constructor|done].
  rewrite IH. split; [|intros Hall op' Hin; apply Hall; by constructor]. intros Hall op' [->|Hin]%elem_of_cons; [apply Hw; split; [apply H|lia]|by apply Hall].
Qed.

(** C32. With positive limits the guard lets a request through exactly when its query fits the size limit and parses, the operation it names is there, and every selected operation, with its fragments written out, is free of cycles, of schema fields where those are disabled and of selections below the depth limit, and has no more fields than allowed; so the order of the selections and the place where the count stops make no difference. *)
Theorem guard_exact parse maxDepth maxFields maxQueryBytes allowIntrospection query operationName :
  0 < maxDepth -> 0 < maxFields ->
  withGraphQLGuard parse maxDepth maxFields maxQueryBytes allowIntrospection (Some (query, operationName)) = Next <->
  trim_space query <> "" /\ Z.of_nat (slen (trim_space query)) <= maxQueryBytes /\
  exists doc, parse (trim_space query) = Some doc /\
    selectOperations (document_operations doc) (trim_space operationName) <> [] /\
    forall op, op ∈ selectOperations (document_operations doc) (trim_space operationName) ->
      within maxDepth maxFields allowIntrospection (document_fragments doc) op.
Proof.
  intros Hd Hf. unfold withGraphQLGuard, validateGraphQLQueryComplexity. destruct (String.eqb (trim_space query) "") eqn:Eq.
  { apply String.eqb_eq in Eq. rewrite Eq. split; [done|intros (H & _); done]. }
  apply String.eqb_neq in Eq. destruct (maxQueryBytes <? Z.of_nat (slen (trim_space query))) eqn:Es; [split; [done|intros (_ & H & _); lia]|].
  destruct (parse (trim_space query)) as [doc|]; [|split; [done|intros (_ & _ & doc & H & _); done]].
  assert (selectOperations [] (trim_space operationName) = []) as Hnil by (unfold selectOperations; by destruct (String.eqb _ _)).
  destruct (document_operations doc) as [|op ops] eqn:Eo; [split; [done|intros (_ & _ & doc' & [= <-] & H & _); by rewrite Eo, Hnil in H]|].
  destruct (selectOperations (op :: ops) (trim_space operationName)) as [|op' selected] eqn:El; [split; [done|intros (_ & _ & doc' & [= <-] & H & _); by rewrite Eo, El in H]|].
  destruct (walk_operations _ _ _ _ _) eqn:Ew.
  - split; [done|]. intros (_ & _ & doc' & [= <-] & _ & H). rewrite Eo, El in H. apply walk_operations_spec in H; [congruence|lia|lia].
  - split; [|done]. intros _. split; [done|]. split; [lia|]. exists doc. rewrite Eo, El. split; [done|]. split; [done|]. refine (proj1 (walk_operations_spec maxDepth maxFields allowIntrospection (document_fragments doc) (op' :: selected) _ _) Ew); lia.
Qed.

Lemma guard_exact_witness :
  let parse := fun query => if String.eqb query "{ a { b } ...f } fragment f on T { c }" then
    Some [Operation (MkOperation None (Some [Field (Some "a") (Some [Field (Some "b") None]); FragmentSpread (Some "f")])); Fragment (Some "f") (Some [Field (Some "c") None])]
    else None in
  (0 < 3 /\ 0 < 4) /\
  (withGraphQLGuard parse 3 4 100 false (Some (" { a { b } ...f } fragment f on T { c }", "")) = Next <->
  trim_space " { a { b } ...f } fragment f on T { c }" <> "" /\ Z.of_nat (slen (trim_space " { a { b } ...f } fragment f on T { c }")) <= 100 /\
  exists doc, parse (trim_space " { a { b } ...f } fragment f on T { c }") = Some doc /\
    selectOperations (document_operations doc) (trim_space "") <> [] /\
    forall op, op ∈ selectOperations (document_operations doc) (trim_space "") -> within 3 4 false (document_fragments doc) op) /\
  withGraphQLGuard parse 3 4 100 false (Some (" { a { b } ...f } fragment f on T { c }", "")) = Next /\
  withGraphQLGuard parse 3 2 100 false (Some (" { a { b } ...f } fragment f on T { c }", "")) = BadRequest (Some TooManyFields).
Proof.
  intros parse. split; [split; lia|]. split; [exact (guard_exact parse 3 4 100 false _ "" ltac:(lia) ltac:(lia))|]. by split; vm_compute.
Defined.

(** ** What the walk costs

    Only fields are counted, so spreads of fragments that hold nothing but
    spreads are free and multiply at every level. *)

(** The calls of [walkSelectionSet] for a document that is let through. *)
Definition node_visits (below : selection_set -> gset string -> Z) (fragments : gmap string selection_set) (stack : gset string) (node : selection) : Z :=
  match node with
  | Field _ sub => below sub stack
  | InlineFragment sub => below sub stack
  | FragmentSpread name =>
      match spread_name name with
      | None => 0
      | Some n => if bool_decide (n ∈ stack) then 0 else match fragments !! n with None => 0 | Some sub => below sub ({[n]} ∪ stack) end
      end
  end.

Fixpoint visits (fragments : gmap string selection_set) (levels : nat) (set : selection_set) (stack : gset string) : Z :=
  match levels with
  | O => 0
  | S levels => 1 + match set with Some l => total (node_visits (visits fragments levels) fragments stack) l | None => 0 end
  end.

Lemma total_replicate weight node k : total weight (replicate k node) = Z.of_nat k * weight node.
Proof.
  induction k as [|k IH]; [done|]. change (total weight (replicate (S k) node)) with (weight node + total weight (replicate k node)).
  rewrite IH, Nat2Z.inj_succ, Z.mul_succ_l. lia.
Qed.

(** Fragments in a row, each spreading the next one [k] times. *)
Record chain (fragments : gmap string selection_set) (name : nat -> string) (k n : nat) : Prop := MkChain {
  chain_names : forall i, spread_name (Some (name i)) = Some (name i);
  chain_distinct : forall i j, name i = name j -> i = j;
  chain_links : forall i, (i < n)%nat -> fragments !! name i = Some (Some (replicate k (FragmentSpread (Some (name (S i))))));
  chain_end : fragments !! name n = Some (Some [])
}.

Section Chain.
Context (fragments : gmap string selection_set) (name : nat -> string) (k n : nat) (Hchain : chain fragments name k n).

Definition names_to (i : nat) : gset string := list_to_set (map name (seq 0 i)).

Lemma chain_fresh i : name i ∉ names_to i.
Proof.
  unfold names_to. rewrite elem_of_list_to_set. intros Hin. apply list_elem_of_fmap in Hin as (j & Hj & Hin). apply elem_of_seq in Hin.
  apply (chain_distinct _ _ _ _ Hchain) in Hj. lia.
Qed.

Lemma names_to_S i : {[name i]} ∪ names_to i = names_to (S i).
Proof. unfold names_to. rewrite seq_S, map_app, list_to_set_app_L. simpl. set_solver. Qed.

(** No fields, no cycle and [k] to the number of links visits. *)
Lemma chain_visits i levels :
  (i <= n)%nat -> (n - i < levels)%nat -> Z.of_nat k ^ Z.of_nat (n - i) <= visits fragments levels (default None (fragments !! name i)) (names_to (S i)).
Proof.
  revert i. induction levels as [|levels IH]; intros i Hi Hl; [lia|]. destruct (decide (i = n)) as [->|Hne].
  - rewrite (chain_end _ _ _ _ Hchain), Nat.sub_diag. simpl. lia.
  - specialize (IH (S i) ltac:(lia) ltac:(lia)). rewrite (chain_links _ _ _ _ Hchain) by lia. simpl. rewrite total_replicate. unfold node_visits.
    rewrite (chain_names _ _ _ _ Hchain), bool_decide_eq_false_2 by apply chain_fresh. rewrite names_to_S.
    replace (n - i)%nat with (S (n - S i)) by lia. rewrite Nat2Z.inj_succ, Z.pow_succ_r by lia.
    assert (exists sub, fragments !! name (S i) = Some sub) as [sub Hsub].
    { destruct (decide (S i = n)) as [->|]; [eexists; apply (chain_end _ _ _ _ Hchain)|eexists; apply (chain_links _ _ _ _ Hchain); lia]. }
    rewrite Hsub in *. simpl in IH. nia.
Qed.

Lemma chain_within maxDepth i :
  (i <= n)%nat -> Z.of_nat n + 2 <= maxDepth ->
  fine maxDepth false fragments (Z.of_nat i + 2) (names_to (S i)) (default None (fragments !! name i)) /\
  forall levels, expanded fragments levels (default None (fragments !! name i)) (names_to (S i)) = 0.
Proof.
  intros Hi Hd. remember (n - i)%nat as left eqn:El. revert i Hi El. induction left as [|left IH]; intros i Hi El.
  - replace i with n by lia. rewrite (chain_end _ _ _ _ Hchain). simpl. split; [apply fine_Some; split; [lia|set_solver]|by intros []].
  - specialize (IH (S i) ltac:(lia) ltac:(lia)) as [IHf IHc]. rewrite (chain_links _ _ _ _ Hchain) by lia. simpl.
    assert (exists sub, fragments !! name (S i) = Some sub) as [sub Hsub].
    { destruct (decide (S i = n)) as [->|]; [eexists; apply (chain_end _ _ _ _ Hchain)|eexists; apply (chain_links _ _ _ _ Hchain); lia]. }
    rewrite Hsub in *. simpl in IHf, IHc. split.
    + apply fine_Some. split; [lia|]. intros node Hin. apply elem_of_replicate in Hin as [-> _]. unfold node_fine.
      rewrite (chain_names _ _ _ _ Hchain), Hsub, names_to_S. split; [apply chain_fresh|].
      replace (Z.of_nat i + 2 + 1) with (Z.of_nat (S i) + 2) by lia. done.
    + intros [|levels]; [done|]. simpl. rewrite total_replicate. unfold node_fields.
      rewrite (chain_names _ _ _ _ Hchain), bool_decide_eq_false_2, Hsub, names_to_S, IHc by apply chain_fresh. lia.
Qed.

(** An operation that spreads the first fragment of the chain is within any
    field limit, and walking it takes exponentially many calls. *)
Lemma spreads_are_free maxDepth maxFields :
  Z.of_nat n + 2 <= maxDepth -> 0 <= maxFields ->
  within maxDepth maxFields false fragments (MkOperation None (Some [FragmentSpread (Some (name 0%nat))])) /\
  Z.of_nat k ^ Z.of_nat n <= visits fragments (walk_fuel maxDepth) (Some [FragmentSpread (Some (name 0%nat))]) ∅.
Proof.
  intros Hd Hm. assert (exists sub, fragments !! name 0%nat = Some sub) as [sub Hsub].
  { destruct (decide (0%nat = n)) as [->|]; [eexists; apply (chain_end _ _ _ _ Hchain)|eexists; apply (chain_links _ _ _ _ Hchain); lia]. }
  assert ({[name 0%nat]} ∪ ∅ = names_to 1) as Hone by exact (names_to_S 0).
  destruct (chain_within maxDepth 0 ltac:(lia) Hd) as [Hf Hc]. rewrite Hsub in Hf, Hc. simpl in Hf, Hc. split; [split|].
  - apply fine_Some. split; [lia|]. intros node Hin. apply list_elem_of_singleton in Hin as ->. unfold node_fine.
    rewrite (chain_names _ _ _ _ Hchain), Hsub, Hone. split; [set_solver|done].
  - intros [|levels] _; [done|]. cbn [expanded op_set]. unfold total; cbn [foldr]. unfold node_fields. rewrite (chain_names _ _ _ _ Hchain), bool_decide_eq_false_2, Hsub, Hone, Hc by set_solver. lia.
  - unfold walk_fuel. replace (Z.to_nat (maxDepth + 2)) with (S (Z.to_nat (maxDepth + 1))) by lia. cbn [visits]. unfold total; cbn [foldr]. unfold node_visits at 1.
    rewrite (chain_names _ _ _ _ Hchain), bool_decide_eq_false_2, Hsub, Hone by set_solver.
    pose proof (chain_visits 0 (Z.to_nat (maxDepth + 1)) ltac:(lia) ltac:(lia)) as H. rewrite Hsub, Nat.sub_0_r in H. simpl in H. lia.
Qed.

End Chain.

End RequestGuards.
