(* ===== verification/ClientCache.v ===== *)
(** * Cached HTTP clients of the checker

    [internal/jobs/checker/http_client_cache.go]: workers share the clients
    that reach a judge through a route.  A worker that finds none builds one
    without holding the lock, so two may build at once; the later one closes
    its own.  The list of keys from the least to the most recently used and
    the map are kept as the code keeps them; an element of the list is named
    by its key.  Clients are numbered in the order they are built; building
    one ([support.CreateTransport]) is a step of its own. *)

From S2P Require Import Prelude GoStrings ProxyModel CheckerPlans.
Open Scope Z_scope.

Module ClientCache.

Definition checkerHTTPClientCacheTTL : Z := 5 * 60 * Second.
Definition checkerHTTPClientCacheMinEntries : Z := 2048.
Definition checkerHTTPClientCacheMaxCap : Z := 16384.
Definition checkerHTTPClientCacheDefaultEntries : Z := 12288.

(** ** Capacity *)

(** [bits.Len64] *)
Definition Len64 (v : Z) : Z := if v <=? 0 then 0 else Z.log2 v + 1.

Definition nextPow2 (value : Z) : Z := if value <=? 1 then 1 else wrap_unsigned 64 (Z.shiftl 1 (Len64 (value - 1))).

Definition checkerHTTPClientCacheEntriesForThreads (threads : Z) : Z :=
  let target := nextPow2 (wrap_unsigned 64 (threads * 3)) in
  let target := if target <? checkerHTTPClientCacheMinEntries then checkerHTTPClientCacheMinEntries else target in
  if checkerHTTPClientCacheMaxCap <? target then checkerHTTPClientCacheMaxCap else target.

Definition checkerHTTPClientCacheMaxEntries (currentThreads configured : Z) : Z :=
  let threads := if currentThreads =? 0 then configured else currentThreads in
  if threads =? 0 then checkerHTTPClientCacheDefaultEntries else checkerHTTPClientCacheEntriesForThreads threads.

(** ** Keys *)

(** Address, user name and password of the route; URL, host name and address
    of the judge; protocol, transport and timeout. *)
Definition checkerHTTPClientCacheKey : Type := string * string * string * (string * string * string) * (string * string * Z).

Definition cache_key (proxyAddr username password : string) (judgeURL judgeHostname judgeIP : string) (protocol transportProtocol : string) (timeout : Z)
    : checkerHTTPClientCacheKey :=
  let transportProtocol := if String.eqb transportProtocol "" then "tcp" else transportProtocol in
  (proxyAddr, username, password, (judgeURL, judgeHostname, judgeIP), (to_lower (trim_space protocol), CheckerPlans.NormalizeTransportProtocol transportProtocol, timeout)).

(** ** The cache *)

Abbreviation key := checkerHTTPClientCacheKey.

Record cachedCheckerHTTPClient := MkClient { client : Z; lastUsed : Z }.

Record cache := MkCache { entries : gmap key cachedCheckerHTTPClient; lru : list key }.

(** A use makes the entry the most recent one. *)
Definition touch (k : key) (e : cachedCheckerHTTPClient) (now : Z) (s : cache) : cache :=
  MkCache (<[k := MkClient (client e) now]> (entries s)) (filter (.≠ k) (lru s) ++ [k]).

Definition fresh (e : cachedCheckerHTTPClient) (now : Z) : bool := now - lastUsed e <=? checkerHTTPClientCacheTTL.

(** The first look, under the lock. *)
Definition lookup_client (k : key) (now : Z) (s : cache) : option Z * cache :=
  match entries s !! k with
  | Some e => if fresh e now then (Some (client e), touch k e now s) else (None, s)
  | None => (None, s)
  end.

(** [removeCheckerHTTPClientLocked] *)
Definition removeCheckerHTTPClientLocked (k : key) (s : cache) : list Z * cache :=
  match entries s !! k with
  | None => ([], MkCache (delete k (entries s)) (lru s))
  | Some e => ([client e], MkCache (delete k (entries s)) (filter (.≠ k) (lru s)))
  end.

(** Expired entries from the front, at most [rounds]; [None] is the panic of an
    entry that is missing. *)
Fixpoint expire_loop (rounds : nat) (now : Z) (s : cache) : option (list Z * cache) :=
  match rounds, lru s with
  | S rounds, k :: _ =>
      match entries s !! k with
      | None => None
      | Some e =>
          if fresh e now then Some ([], s)
          else
            let '(gone, s) := removeCheckerHTTPClientLocked k s in
            '(more, s) ← expire_loop rounds now s; Some (gone ++ more, s)
      end
  | _, _ => Some ([], s)
  end.

(** Entries from the front while there is no room; [None] if it does not end. *)
Fixpoint evict_loop (fuel : nat) (maxEntries : Z) (s : cache) : option (list Z * cache) :=
  if Z.of_nat (size (entries s)) <? maxEntries then Some ([], s)
  else
    match lru s with
    | [] => Some ([], s)
    | k :: _ =>
        match fuel with
        | O => None
        | S fuel =>
            let '(gone, s) := removeCheckerHTTPClientLocked k s in
            '(more, s) ← evict_loop fuel maxEntries s; Some (gone ++ more, s)
        end
    end.

Definition runCheckerHTTPClientCacheMaintenanceLocked (now maxEntries : Z) (s : cache) : option (list Z * cache) :=
  '(expired, s) ← expire_loop 16 now s;
  '(evicted, s) ← evict_loop (length (lru s)) maxEntries s;
  Some (expired ++ evicted, s).

(** The second look and the insertion of the client [c] this worker built:
    the client it goes on with, and the clients that are closed. *)
Definition insert_client (k : key) (c : Z) (now maxEntries : Z) (s : cache) : option (Z * list Z * cache) :=
  match entries s !! k with
  | Some e =>
      if fresh e now then Some (client e, [c], touch k e now s)
      else
        let '(old, s) := removeCheckerHTTPClientLocked k s in
        '(gone, s) ← runCheckerHTTPClientCacheMaintenanceLocked now maxEntries s;
        Some (c, old ++ gone, MkCache (<[k := MkClient c now]> (entries s)) (lru s ++ [k]))
  | None =>
      '(gone, s) ← runCheckerHTTPClientCacheMaintenanceLocked now maxEntries s;
      Some (c, gone, MkCache (<[k := MkClient c now]> (entries s)) (lru s ++ [k]))
  end.

(** ** Workers *)

(** A worker of [getCheckerHTTPClient] between its two looks. *)
Inductive worker := Building (k : key) | Built (k : key) (c : Z).

Record system := MkSystem { shared : cache; workers : gmap nat worker; made : nat; gone : list Z; clock : Z }.

Inductive step : system -> system -> Prop :=
| ask_hit s w k now c t : clock s <= now -> workers s !! w = None -> lookup_client k now (shared s) = (Some c, t) ->
    step s (MkSystem t (workers s) (made s) (gone s) now)
| ask_miss s w k now t : clock s <= now -> workers s !! w = None -> lookup_client k now (shared s) = (None, t) ->
    step s (MkSystem t (<[w := Building k]> (workers s)) (made s) (gone s) now)
| build_failed s w k : workers s !! w = Some (Building k) -> step s (MkSystem (shared s) (delete w (workers s)) (made s) (gone s) (clock s))
| build_done s w k : workers s !! w = Some (Building k) ->
    step s (MkSystem (shared s) (<[w := Built k (Z.of_nat (made s))]> (workers s)) (S (made s)) (gone s) (clock s))
| insert_done s w k c now currentThreads configured c' closed t : clock s <= now -> workers s !! w = Some (Built k c) ->
    0 <= currentThreads < 2 ^ 32 -> 0 <= configured < 2 ^ 32 ->
    insert_client k c now (checkerHTTPClientCacheMaxEntries currentThreads configured) (shared s) = Some (c', closed, t) ->
    step s (MkSystem t (delete w (workers s)) (made s) (gone s ++ closed) now).

Definition start : system := MkSystem (MkCache ∅ []) ∅ 0 [] 0.

(** ** Capacity is a power of two between bounds *)

Lemma Len64_spec v : 0 <= v -> v < 2 ^ Len64 v /\ (0 < v -> 2 ^ (Len64 v - 1) <= v) /\ 0 <= Len64 v.
Proof.
  intros Hv. unfold Len64. destruct (v <=? 0) eqn:E; [split; [lia|split; lia]|]. pose proof (Z.log2_spec v ltac:(lia)) as [H1 H2]. pose proof (Z.log2_nonneg v).
  rewrite Z.add_simpl_r. rewrite <- Z.add_1_r in H2. split_and!; [done|done|lia].
Qed.

(** The least power of two that is not smaller. *)
Lemma nextPow2_least v : 1 <= v <= 2 ^ 63 -> exists n, 0 <= n /\ nextPow2 v = 2 ^ n /\ v <= 2 ^ n /\ forall m, 0 <= m -> v <= 2 ^ m -> n <= m.
Proof.
  intros Hv. unfold nextPow2. destruct (v <=? 1) eqn:E; [exists 0; split_and!; [lia|done|lia|lia]|].
  pose proof (Len64_spec (v - 1) ltac:(lia)) as (H1 & H2 & H0). specialize (H2 ltac:(lia)). exists (Len64 (v - 1)). rewrite Z.shiftl_mul_pow2, Z.mul_1_l by done.
  assert (Len64 (v - 1) - 1 < 63) by (apply (Z.pow_lt_mono_r_iff 2); lia).
  rewrite wrap_unsigned_id; [split_and!; [done|done|lia|]|split; [lia|apply Z.pow_lt_mono_r; lia]].
  intros m Hm Hvm. destruct (decide (Len64 (v - 1) <= m)); [done|exfalso].
  assert (2 ^ m <= 2 ^ (Len64 (v - 1) - 1)) by (apply Z.pow_le_mono_r; lia). lia.
Qed.

Lemma max_entries_bounds currentThreads configured :
  0 <= currentThreads < 2 ^ 32 -> 0 <= configured < 2 ^ 32 ->
  checkerHTTPClientCacheMinEntries <= checkerHTTPClientCacheMaxEntries currentThreads configured <= checkerHTTPClientCacheMaxCap.
Proof.
  intros _ _. unfold checkerHTTPClientCacheMaxEntries, checkerHTTPClientCacheEntriesForThreads, checkerHTTPClientCacheMinEntries, checkerHTTPClientCacheMaxCap, checkerHTTPClientCacheDefaultEntries.
  cbv zeta. generalize (nextPow2 (wrap_unsigned 64 ((if currentThreads =? 0 then configured else currentThreads) * 3))). intros target.
  destruct (_ =? 0); [lia|]. destruct (target <? 2048) eqn:E1; [simpl; lia|]. destruct (16384 <? target) eqn:E2; lia.
Qed.

(** Three clients per thread fit, up to the cap. *)
Lemma entries_for_threads threads :
  0 < threads < 2 ^ 32 -> Z.min (3 * threads) checkerHTTPClientCacheMaxCap <= checkerHTTPClientCacheEntriesForThreads threads.
Proof.
  intros Ht. unfold checkerHTTPClientCacheEntriesForThreads. rewrite wrap_unsigned_id by lia. cbv zeta.
  destruct (nextPow2_least (threads * 3) ltac:(lia)) as (n & _ & -> & Hle & _). unfold checkerHTTPClientCacheMinEntries, checkerHTTPClientCacheMaxCap.
  destruct (2 ^ n <? 2048) eqn:E1; [simpl; lia|]. destruct (16384 <? 2 ^ n) eqn:E2; lia.
Qed.

(** ** The map and the list agree *)

Record wf (s : cache) : Prop := MkWf { wf_nodup : NoDup (lru s); wf_same : forall k, k ∈ lru s <-> is_Some (entries s !! k) }.

Definition clients (s : cache) : list Z := map (fun kv => client kv.2) (map_to_list (entries s)).

Definition used (s : cache) (k : key) : Z := match entries s !! k with Some e => lastUsed e | None => 0 end.

(** From the least to the most recently used, none later than [now]. *)
Definition recent (now : Z) (s : cache) : Prop :=
  StronglySorted (fun a b => used s a <= used s b) (lru s) /\ forall k e, entries s !! k = Some e -> lastUsed e <= now.

(** Entries leave the cache from the front of the list. *)
Inductive drops : cache -> list Z -> cache -> Prop :=
| drops_nil s : drops s [] s
| drops_cons s k r e l t : lru s = k :: r -> entries s !! k = Some e -> drops (MkCache (delete k (entries s)) r) l t -> drops s (client e :: l) t.

Lemma drops_app s l t l' u : drops s l t -> drops t l' u -> drops s (l ++ l') u.
Proof. intros H. induction H; [done|]. intros Hu. simpl. econstructor; eauto. Qed.

Lemma front_filter (k : key) r : NoDup (k :: r) -> filter (.≠ k) (k :: r) = r.
Proof.
  intros [Hk _]%NoDup_cons. rewrite filter_cons_False by (intros H; by apply H). apply filter_all. intros x Hx ->. done.
Qed.

Lemma remove_front s k r : wf s -> lru s = k :: r ->
  exists e, entries s !! k = Some e /\ removeCheckerHTTPClientLocked k s = ([client e], MkCache (delete k (entries s)) r) /\ wf (MkCache (delete k (entries s)) r).
Proof.
  intros [Hnd Hsame] Hlru. destruct (proj1 (Hsame k)) as [e He]; [rewrite Hlru; constructor|]. exists e. split; [done|]. rewrite Hlru in Hnd.
  unfold removeCheckerHTTPClientLocked. rewrite He, Hlru, front_filter by done. split; [done|]. apply NoDup_cons in Hnd as [Hk Hnd]. split; [done|].
  intros k'. simpl. specialize (Hsame k'). rewrite Hlru, elem_of_cons in Hsame. destruct (decide (k' = k)) as [->|Hne].
  - rewrite lookup_delete_eq. split; [done|intros [? [=]]].
  - rewrite lookup_delete_ne by done. rewrite <- Hsame. naive_solver.
Qed.

Lemma drops_wf s l t : drops s l t -> wf s -> wf t.
Proof.
  intros H. induction H as [|s k r e l t Hlru He _ IH]; [done|]. intros Hwf. apply IH. destruct (remove_front s k r Hwf Hlru) as (e' & _ & _ & Hw). done.
Qed.

Lemma clients_delete s k e r : entries s !! k = Some e -> clients s ≡ₚ client e :: clients (MkCache (delete k (entries s)) r).
Proof. intros He. unfold clients. simpl. rewrite <- (map_to_list_delete (entries s) k e He). done. Qed.

Lemma clients_insert m k e r l : m !! k = None -> clients (MkCache (<[k := e]> m) r) ≡ₚ client e :: clients (MkCache m l).
Proof. intros He. unfold clients. simpl. rewrite map_to_list_insert by done. done. Qed.

Lemma drops_clients s l t : drops s l t -> clients s ≡ₚ l ++ clients t.
Proof. intros H. induction H as [|s k r e l t Hlru He _ IH]; [done|]. rewrite (clients_delete s k e r He), IH. done. Qed.

Lemma drops_size s l t : drops s l t -> (size (entries t) <= size (entries s))%nat.
Proof.
  intros H. induction H as [|s k r e l t Hlru He _ IH]; [done|]. simpl in IH. rewrite map_size_delete_Some in IH by done. lia.
Qed.

Lemma drops_lookup s l t : drops s l t -> wf s ->
  exists front, lru s = front ++ lru t /\ forall k, entries t !! k = if bool_decide (k ∈ front) then None else entries s !! k.
Proof.
  intros H. induction H as [s|s k r e l t Hlru He Hd IH]; intros Hwf; [exists []; split; [done|]; intros k; by rewrite bool_decide_eq_false_2 by set_solver|].
  destruct (remove_front s k r Hwf Hlru) as (e' & _ & _ & Hw). destruct (IH Hw) as (front & Hf & Hl). simpl in Hf. exists (k :: front). rewrite Hlru, Hf. split; [done|].
  intros k'. rewrite Hl. simpl. destruct (decide (k' = k)) as [->|Hne].
  - rewrite lookup_delete_eq, (bool_decide_eq_true_2 (k ∈ k :: front)) by set_solver. by destruct (bool_decide _).
  - rewrite lookup_delete_ne by done. destruct (bool_decide (k' ∈ front)) eqn:E.
    + apply bool_decide_eq_true in E. by rewrite bool_decide_eq_true_2 by set_solver.
    + apply bool_decide_eq_false in E. by rewrite bool_decide_eq_false_2 by set_solver.
Qed.

Lemma drops_recent now s l t : drops s l t -> wf s -> recent now s -> recent now t.
Proof.
  intros H Hwf [Hs Hn]. pose proof (drops_wf s l t H Hwf) as Hwt. destruct (drops_lookup s l t H Hwf) as (front & Hf & Hl). split.
  - rewrite Hf in Hs. apply StronglySorted_app in Hs as (_ & _ & Hs). apply (StronglySorted_weaken_in (lru t) (fun a b => used s a <= used s b)); [|done].
    intros a b Ha Hb Hab. unfold used in *. rewrite !Hl. pose proof (wf_nodup s Hwf) as Hnd. rewrite Hf in Hnd. apply NoDup_app in Hnd as (_ & Hdis & _).
    rewrite !bool_decide_eq_false_2; [done|intros Hin; by apply (Hdis _ Hin)..].
  - intros k e He. rewrite Hl in He. case_bool_decide; [done|]. by apply (Hn k).
Qed.

(** ** Maintenance ends and takes the oldest *)

Lemma expire_loop_drops rounds now s : wf s -> exists l t, expire_loop rounds now s = Some (l, t) /\ drops s l t.
Proof.
  revert s. induction rounds as [|rounds IH]; intros s Hwf; [by exists [], s; split; [|constructor]|]. simpl.
  destruct (lru s) as [|k r] eqn:Hlru; [by exists [], s; split; [|constructor]|]. destruct (remove_front s k r Hwf Hlru) as (e & He & Hr & Hw). rewrite He, Hr.
  destruct (fresh e now); [by exists [], s; split; [|constructor]|]. destruct (IH _ Hw) as (l & t & -> & Hd). simpl. exists (client e :: l), t. split; [done|].
  by econstructor.
Qed.

Lemma evict_loop_drops fuel maxEntries s :
  wf s -> (length (lru s) <= fuel)%nat ->
  exists l t, evict_loop fuel maxEntries s = Some (l, t) /\ drops s l t /\ (Z.of_nat (size (entries t)) < maxEntries \/ lru t = []).
Proof.
  revert s. induction fuel as [|fuel IH]; intros s Hwf Hf.
  - destruct (lru s) as [|k r] eqn:Hlru; [|simpl in Hf; lia]. exists [], s. simpl. rewrite Hlru. split; [by destruct (_ <? _)|]. split; [constructor|by right].
  - simpl. destruct (Z.of_nat (size (entries s)) <? maxEntries) eqn:Em; [exists [], s; split; [done|]; split; [constructor|left; lia]|].
    destruct (lru s) as [|k r] eqn:Hlru; [exists [], s; split; [done|]; split; [constructor|by right]|].
    destruct (remove_front s k r Hwf Hlru) as (e & He & Hr & Hw). rewrite Hr.
    destruct (IH _ Hw ltac:(simpl in Hf |- *; lia)) as (l & t & -> & Hd & Hs). simpl. exists (client e :: l), t. split; [done|]. split; [by econstructor|done].
Qed.

Lemma wf_empty s : wf s -> lru s = [] -> entries s = ∅.
Proof.
  intros [_ Hs] Hl. apply map_empty. intros k. destruct (entries s !! k) eqn:E; [|done]. assert (k ∈ lru s) as Hk by (apply Hs; by rewrite E). rewrite Hl in Hk. set_solver.
Qed.

Lemma maintenance_drops now maxEntries s :
  wf s -> 0 < maxEntries ->
  exists l t, runCheckerHTTPClientCacheMaintenanceLocked now maxEntries s = Some (l, t) /\ drops s l t /\ Z.of_nat (size (entries t)) < maxEntries.
Proof.
  intros Hwf Hmax. unfold runCheckerHTTPClientCacheMaintenanceLocked. destruct (expire_loop_drops 16 now s Hwf) as (l & t & -> & Hd). simpl.
  pose proof (drops_wf _ _ _ Hd Hwf) as Hwt. destruct (evict_loop_drops (length (lru t)) maxEntries t Hwt ltac:(lia)) as (l' & u & -> & Hd' & Hs). simpl.
  exists (l ++ l'), u. split; [done|]. split; [by eapply drops_app|]. destruct Hs as [Hs|Hs]; [done|].
  rewrite (wf_empty u (drops_wf _ _ _ Hd' Hwt) Hs), map_size_empty. lia.
Qed.

(** ** Insertion *)

Lemma touch_wf k e now s : wf s -> entries s !! k = Some e -> wf (touch k e now s).
Proof.
  intros [Hnd Hs] He. split; simpl.
  - apply NoDup_app. split; [by apply NoDup_filter|]. split; [|apply NoDup_singleton]. intros x Hx ->%list_elem_of_singleton. by apply list_elem_of_filter in Hx as [Hx _].
  - intros k'. rewrite elem_of_app, list_elem_of_filter, list_elem_of_singleton, Hs. destruct (decide (k' = k)) as [->|Hne].
    + rewrite lookup_insert_eq. split; [by eexists|by right].
    + rewrite lookup_insert_ne by done. naive_solver.
Qed.

Lemma append_wf k e s : wf s -> entries s !! k = None -> wf (MkCache (<[k := e]> (entries s)) (lru s ++ [k])).
Proof.
  intros [Hnd Hs] He. assert (k ∉ lru s) as Hk by (intros Hk; apply Hs in Hk as [? ?]; congruence). split; simpl.
  - apply NoDup_app. split; [done|]. split; [|apply NoDup_singleton]. intros x Hx ->%list_elem_of_singleton. done.
  - intros k'. rewrite elem_of_app, list_elem_of_singleton, Hs. destruct (decide (k' = k)) as [->|Hne].
    + rewrite lookup_insert_eq. split; [by eexists|by right].
    + rewrite lookup_insert_ne by done. naive_solver.
Qed.

Lemma touch_recent now now' k e s : wf s -> recent now s -> now <= now' -> recent now' (touch k e now' s).
Proof.
  intros Hwf [Hs Hn] Hle. split; simpl.
  - apply StronglySorted_app. split_and!.
    + intros a b Ha ->%list_elem_of_singleton. apply list_elem_of_filter in Ha as [Ha Hin]. unfold used. simpl. rewrite lookup_insert_eq, lookup_insert_ne by done. simpl.
      destruct (proj1 (wf_same s Hwf a) Hin) as [f E]. rewrite E. apply Hn in E. lia.
    + apply (StronglySorted_weaken_in _ (fun a b => used s a <= used s b)).
      * intros a b [Ha _]%list_elem_of_filter [Hb _]%list_elem_of_filter Hab. unfold used in *. simpl. by rewrite !lookup_insert_ne by done.
      * by apply StronglySorted_filter.
    + constructor; constructor.
  - intros k' e' He'. destruct (decide (k' = k)) as [->|Hne]; [rewrite lookup_insert_eq in He'; injection He' as <-; done|].
    rewrite lookup_insert_ne in He' by done. apply Hn in He'. lia.
Qed.

Lemma append_recent now now' k c s : wf s -> entries s !! k = None -> recent now s -> now <= now' -> recent now' (MkCache (<[k := MkClient c now']> (entries s)) (lru s ++ [k])).
Proof.
  intros Hwf Hk Hr Hle. pose proof (touch_recent now now' k (MkClient c now') s Hwf Hr Hle) as H. unfold touch in H. simpl in H.
  rewrite filter_all in H; [done|]. intros x Hx ->. apply (wf_same s Hwf) in Hx as [? ?]. congruence.
Qed.

Lemma clients_touch k e now s : entries s !! k = Some e -> clients (touch k e now s) ≡ₚ clients s.
Proof.
  intros He. unfold touch. rewrite <- (insert_delete_eq (entries s) k).
  rewrite (clients_insert (delete k (entries s)) k (MkClient (client e) now) _ (lru s)) by apply lookup_delete_eq.
  by rewrite (clients_delete s k e (lru s) He).
Qed.

(** Removing an entry anywhere in the list. *)
Lemma remove_entry now s k e : wf s -> recent now s -> entries s !! k = Some e ->
  exists t, removeCheckerHTTPClientLocked k s = ([client e], t) /\ wf t /\ recent now t /\ clients s ≡ₚ client e :: clients t /\ entries t = delete k (entries s).
Proof.
  intros Hwf [Hs Hn] He. unfold removeCheckerHTTPClientLocked. rewrite He. eexists. split; [done|]. split_and!.
  - split; simpl; [apply NoDup_filter, (wf_nodup s Hwf)|]. intros k'. rewrite list_elem_of_filter, (wf_same s Hwf). destruct (decide (k' = k)) as [->|Hne].
    + rewrite lookup_delete_eq. split; [naive_solver|intros [? [=]]].
    + rewrite lookup_delete_ne by done. naive_solver.
  - split; simpl.
    + apply (StronglySorted_weaken_in _ (fun a b => used s a <= used s b)); [|by apply StronglySorted_filter].
      intros a b [Ha _]%list_elem_of_filter [Hb _]%list_elem_of_filter Hab. unfold used in *. simpl. by rewrite !lookup_delete_ne by done.
    + intros k' e' [_ He']%lookup_delete_Some. by apply (Hn k').
  - by apply clients_delete.
  - done.
Qed.

(** Whatever leaves with an insertion was used no later than what stays. *)
Definition oldest_leave (k : key) (s t : cache) : Prop :=
  forall k1 e1 k2 e2, k1 <> k -> k2 <> k -> entries s !! k1 = Some e1 -> entries t !! k1 = None -> entries s !! k2 = Some e2 -> is_Some (entries t !! k2) -> lastUsed e1 <= lastUsed e2.

Lemma drops_oldest now k s l t : drops s l t -> wf s -> recent now s -> oldest_leave k s t.
Proof.
  intros Hd Hwf [Hs _] k1 e1 k2 e2 _ _ H1 H1' H2 [e2' H2']. destruct (drops_lookup s l t Hd Hwf) as (front & Hf & Hl). rewrite Hl in H1', H2'.
  destruct (bool_decide (k2 ∈ front)) eqn:E2; [done|]. destruct (bool_decide (k1 ∈ front)) eqn:E1; [|congruence]. apply bool_decide_eq_true in E1.
  assert (k2 ∈ lru t) as Hin2 by (apply (wf_same t (drops_wf _ _ _ Hd Hwf)); rewrite Hl, E2; by eexists).
  rewrite Hf in Hs. pose proof (StronglySorted_app_1_elem_of _ _ _ k1 k2 Hs E1 Hin2) as Hu. unfold used in Hu. by rewrite H1, H2 in Hu.
Qed.

(** What an insertion does. *)
Record inserted (k : key) (c now maxEntries : Z) (s : cache) (c' : Z) (closed : list Z) (t : cache) : Prop := MkInserted {
  ins_wf : wf t;
  ins_recent : recent now t;
  ins_clients : c :: clients s ≡ₚ closed ++ clients t;
  ins_size : Z.of_nat (size (entries t)) <= Z.max maxEntries (Z.of_nat (size (entries s)));
  ins_kept : c' ∈ clients t;
  ins_oldest : oldest_leave k s t
}.

Lemma grown k c now maxEntries before s l t :
  wf s -> recent before s -> before <= now -> entries s !! k = None -> 0 < maxEntries ->
  runCheckerHTTPClientCacheMaintenanceLocked now maxEntries s = Some (l, t) ->
  inserted k c now maxEntries s c l (MkCache (<[k := MkClient c now]> (entries t)) (lru t ++ [k])).
Proof.
  intros Hwf Hr Hle Hk Hmax Hm. destruct (maintenance_drops now maxEntries s Hwf Hmax) as (l' & t' & Hm' & Hd & Hs). rewrite Hm in Hm'. injection Hm' as <- <-.
  pose proof (drops_wf _ _ _ Hd Hwf) as Hwt. pose proof (drops_recent before _ _ _ Hd Hwf Hr) as Hrt.
  destruct (drops_lookup s l t Hd Hwf) as (front & _ & Hl). assert (entries t !! k = None) as Hkt by (rewrite Hl, Hk; by destruct (bool_decide _)).
  split.
  - by apply append_wf.
  - by apply (append_recent before).
  - rewrite (clients_insert (entries t) k (MkClient c now) _ (lru t)) by done. simpl. rewrite (drops_clients _ _ _ Hd).
    rewrite (Permutation_middle l (clients t) c). done.
  - simpl. rewrite map_size_insert_None by done. lia.
  - rewrite (clients_insert (entries t) k (MkClient c now) _ (lru t)) by done. simpl. constructor.
  - intros k1 e1 k2 e2 N1 N2 H1 H1' H2 H2'. simpl in H1', H2'. rewrite lookup_insert_ne in H1' by done. rewrite lookup_insert_ne in H2' by done.
    by apply (drops_oldest before k s l t Hd Hwf Hr k1 e1 k2 e2).
Qed.

Lemma insert_client_spec k c now maxEntries before s :
  wf s -> recent before s -> before <= now -> 0 < maxEntries ->
  exists c' closed t, insert_client k c now maxEntries s = Some (c', closed, t) /\ inserted k c now maxEntries s c' closed t.
Proof.
  intros Hwf Hr Hle Hmax. unfold insert_client. destruct (entries s !! k) as [e|] eqn:He.
  - destruct (fresh e now).
    + exists (client e), [c], (touch k e now s). split; [done|]. split.
      * by apply touch_wf.
      * by apply (touch_recent before).
      * by rewrite (clients_touch k e now s He).
      * simpl. rewrite map_size_insert_Some by done. lia.
      * rewrite (clients_touch k e now s He). rewrite (clients_delete s k e (lru s) He). constructor.
      * intros k1 e1 k2 e2 N1 _ H1 H1' _ _. simpl in H1'. rewrite lookup_insert_ne in H1' by done. congruence.
    + destruct (remove_entry before s k e Hwf Hr He) as (s1 & -> & Hwf1 & Hr1 & Hc1 & Hent).
      assert (entries s1 !! k = None) as Hk1 by (rewrite Hent; apply lookup_delete_eq).
      destruct (maintenance_drops now maxEntries s1 Hwf1 Hmax) as (l & t & Hm & _). rewrite Hm. simpl.
      pose proof (grown k c now maxEntries before s1 l t Hwf1 Hr1 Hle Hk1 Hmax Hm) as [Hw Hre Hcl Hs Hkept Hold].
      eexists _, _, _. split; [done|]. split; [done|done| | |done|].
      * rewrite Hc1. rewrite Permutation_swap, Hcl. done.
      * rewrite Hent, map_size_delete_Some in Hs by done. lia.
      * intros k1 e1 k2 e2 N1 N2 H1 H1' H2 H2'. apply (Hold k1 e1 k2 e2); [done|done| |done| |done]; by rewrite Hent, lookup_delete_ne.
  - destruct (maintenance_drops now maxEntries s Hwf Hmax) as (l & t & Hm & _). rewrite Hm. simpl. eexists _, _, _. split; [done|]. by apply (grown k c now maxEntries before).
Qed.

(** ** All workers *)

(** The clients workers have built and not yet brought to the cache. *)
Definition held (ws : gmap nat worker) : list Z := omap (fun kv => match kv.2 with Built _ c => Some c | Building _ => None end) (map_to_list ws).

Lemma held_cons kv l : omap (fun kv : nat * worker => match kv.2 with Built _ c => Some c | Building _ => None end) (kv :: l) =
  (match kv.2 with Built _ c => [c] | Building _ => [] end) ++ omap (fun kv : nat * worker => match kv.2 with Built _ c => Some c | Building _ => None end) l.
Proof. by destruct kv as [n [k|k c]]. Qed.

Lemma held_insert ws w x : ws !! w = None -> held (<[w := x]> ws) ≡ₚ (match x with Built _ c => [c] | Building _ => [] end) ++ held ws.
Proof. intros H. unfold held. rewrite map_to_list_insert by done. by rewrite held_cons. Qed.

Lemma held_delete ws w x : ws !! w = Some x -> held ws ≡ₚ (match x with Built _ c => [c] | Building _ => [] end) ++ held (delete w ws).
Proof. intros H. rewrite <- (held_insert (delete w ws) w x) by apply lookup_delete_eq. by rewrite insert_delete_eq, insert_id. Qed.

Record inv (s : system) : Prop := MkInv {
  inv_wf : wf (shared s);
  inv_recent : recent (clock s) (shared s);
  inv_size : Z.of_nat (size (entries (shared s))) <= checkerHTTPClientCacheMaxCap;
  inv_clients : clients (shared s) ++ held (workers s) ++ gone s ≡ₚ map Z.of_nat (seq 0 (made s))
}.

Lemma recent_later now now' s : recent now s -> now <= now' -> recent now' s.
Proof. intros [Hs Hn] Hle. split; [done|]. intros k e He. apply Hn in He. lia. Qed.

Lemma cache_inv_step s s' : step s s' -> inv s -> inv s'.
Proof.
  intros H [Hw Hr Hs Hc]. destruct H as [s w k now c t Hle Hidle Hl|s w k now t Hle Hidle Hl|s w k Hb|s w k Hb|s w k c now cur conf c' closed t Hle Hb Hcur Hconf Hi]; simpl in *.
  - unfold lookup_client in Hl. destruct (entries (shared s) !! k) as [e|] eqn:He; [|done]. destruct (fresh e now); [|done]. injection Hl as <- <-. split; simpl.
    + by apply touch_wf.
    + by apply (touch_recent (clock s)).
    + by rewrite map_size_insert_Some.
    + by rewrite clients_touch.
  - assert (t = shared s) as -> by (unfold lookup_client in Hl; destruct (entries (shared s) !! k) as [e|]; [destruct (fresh e now)|]; congruence).
    split; simpl; [done|by apply (recent_later (clock s))|done|]. by rewrite held_insert.
  - split; simpl; [done..|]. by rewrite (held_delete _ w _ Hb) in Hc.
  - split; cbn [shared workers made gone clock]; [done..|]. rewrite seq_S, map_app, <- Hc. rewrite <- (insert_delete_eq (workers s) w), held_insert by apply lookup_delete_eq.
    rewrite (held_delete (workers s) w _ Hb). simpl. rewrite <- Permutation_middle. by rewrite <- Permutation_cons_append.
  - assert (0 < checkerHTTPClientCacheMaxEntries cur conf <= checkerHTTPClientCacheMaxCap) as Hm.
    { pose proof (max_entries_bounds cur conf Hcur Hconf). unfold checkerHTTPClientCacheMinEntries in *. lia. }
    destruct (insert_client_spec k c now (checkerHTTPClientCacheMaxEntries cur conf) (clock s) (shared s) Hw Hr Hle ltac:(lia)) as (c1 & closed1 & t1 & Hi' & Hins).
    rewrite Hi in Hi'. injection Hi' as <- <- <-. destruct Hins as [Hw' Hr' Hcl Hs' _ _]. split; simpl; [done|done|lia|].
    rewrite <- Hc, (held_delete _ w _ Hb). simpl. rewrite <- Permutation_middle. rewrite (app_comm_cons (clients (shared s))), Hcl.
    rewrite <- !app_assoc. rewrite (Permutation_app_comm closed). rewrite <- !app_assoc. done.
Qed.

Lemma inv_reachable s : rtc step start s -> inv s.
Proof.
  intros H. apply (rtc_ind_r (R := step) inv start); [|intros x y _ Hxy Hx; by apply (cache_inv_step x)|done].
  split; simpl; [split; simpl; [constructor|intros k; rewrite lookup_empty; split; [set_solver|intros [? [=]]]]|split; simpl; [constructor|intros k e; by rewrite lookup_empty]|by vm_compute|done].
Qed.

(** C25. However workers interleave their looks, builds and insertions, no client is lost and none is closed twice: every client ever built is exactly once in the cache, with the worker that built it, or among those closed; the cache never holds more than 16384; and an insertion, whatever number of threads it takes its limit from, ends without a missing entry, hands the worker a client that is in the cache and drops, besides the expired entry of its own key, only entries used no later than any that stay. *)
Theorem no_client_leaks s :
  rtc step start s ->
  clients (shared s) ++ held (workers s) ++ gone s ≡ₚ map Z.of_nat (seq 0 (made s)) /\
  NoDup (clients (shared s) ++ held (workers s) ++ gone s) /\
  Z.of_nat (size (entries (shared s))) <= checkerHTTPClientCacheMaxCap /\
  forall k c now currentThreads configured, clock s <= now -> 0 <= currentThreads < 2 ^ 32 -> 0 <= configured < 2 ^ 32 ->
    exists c' closed t, insert_client k c now (checkerHTTPClientCacheMaxEntries currentThreads configured) (shared s) = Some (c', closed, t) /\
      c' ∈ clients t /\ oldest_leave k (shared s) t /\
      Z.of_nat (size (entries t)) <= Z.max (checkerHTTPClientCacheMaxEntries currentThreads configured) (Z.of_nat (size (entries (shared s)))).
Proof.
  intros H. apply inv_reachable in H as [Hw Hr Hs Hc]. split; [done|]. split.
  { rewrite Hc. apply NoDup_fmap_2; [|apply NoDup_seq]. intros a b Hab. lia. }
  split; [done|]. intros k c now cur conf Hle Hcur Hconf. pose proof (max_entries_bounds cur conf Hcur Hconf) as Hm. unfold checkerHTTPClientCacheMinEntries in Hm.
  destruct (insert_client_spec k c now (checkerHTTPClientCacheMaxEntries cur conf) (clock s) (shared s) Hw Hr Hle ltac:(lia)) as (c' & closed & t & Hi & Hins).
  exists c', closed, t. split; [done|]. destruct Hins. done.
Qed.

Module Sample.

Abbreviation k1 := (("r", "", "", ("", "", ""), ("", "", 0)) : key).

(** Two workers build for one key; the second one's client is closed. *)
Abbreviation first := (MkCache {[k1 := MkClient 1 7]} [k1]).
Abbreviation second := (MkCache {[k1 := MkClient 1 9]} [k1]).
Abbreviation both := (<[2%nat := Building k1]> (<[1%nat := Building k1]> ∅)).
Abbreviation built := (<[2%nat := Built k1 1]> (<[1%nat := Built k1 0]> both)).
Abbreviation raced := (MkSystem second (delete 1%nat (delete 2%nat built)) 2 [0] 9).

Lemma first_inserted : insert_client k1 1 7 (checkerHTTPClientCacheMaxEntries 4 0) (MkCache ∅ []) = Some (1, [], first).
Proof. by vm_compute. Qed.

Lemma second_closed : insert_client k1 0 9 (checkerHTTPClientCacheMaxEntries 4 0) first = Some (1, [0], second).
Proof. by vm_compute. Qed.

(** Take a step between two given systems. *)
Ltac take_step H := let X := fresh in pose proof H as X; cbn [shared workers made gone clock] in X; apply X; clear X.

Lemma raced_reachable : rtc step start raced.
Proof.
  apply rtc_l with (MkSystem (MkCache ∅ []) (<[1%nat := Building k1]> ∅) 0 [] 5); [by take_step (ask_miss start 1 k1 5 (MkCache ∅ []))|].
  apply rtc_l with (MkSystem (MkCache ∅ []) both 0 [] 6); [by take_step (ask_miss (MkSystem (MkCache ∅ []) (<[1%nat := Building k1]> ∅) 0 [] 5) 2 k1 6 (MkCache ∅ []))|].
  apply rtc_l with (MkSystem (MkCache ∅ []) (<[1%nat := Built k1 0]> both) 1 [] 6); [by take_step (build_done (MkSystem (MkCache ∅ []) both 0 [] 6) 1 k1)|].
  apply rtc_l with (MkSystem (MkCache ∅ []) built 2 [] 6); [by take_step (build_done (MkSystem (MkCache ∅ []) (<[1%nat := Built k1 0]> both) 1 [] 6) 2 k1)|].
  apply rtc_l with (MkSystem first (delete 2%nat built) 2 [] 7).
  { take_step (insert_done (MkSystem (MkCache ∅ []) built 2 [] 6) 2 k1 1 7 4 0 1 [] first); [done|done|lia|lia|exact first_inserted]. }
  apply rtc_l with raced; [|apply rtc_refl].
  take_step (insert_done (MkSystem first (delete 2%nat built) 2 [] 7) 1 k1 0 9 4 0 1 [0] second); [done|done|lia|lia|exact second_closed].
Qed.

End Sample.

Lemma no_client_leaks_witness :
  clients (shared Sample.raced) ++ held (workers Sample.raced) ++ gone Sample.raced ≡ₚ map Z.of_nat (seq 0 2) /\
  Z.of_nat (size (entries (shared Sample.raced))) <= checkerHTTPClientCacheMaxCap.
Proof. destruct (no_client_leaks Sample.raced Sample.raced_reachable) as (H & _ & Hs & _). exact (conj H Hs). Defined.

End ClientCache.
