(* ===== verification/Ownership.v ===== *)
(** * Verifying ownership before a route is scheduled again

    [internal/jobs/checker/ownership_verifier.go]: workers send their
    questions to one goroutine that answers them in batches, when a batch is
    full or when a timer it armed for the first question fires.  The reply
    channel of a question holds one answer, so a worker may leave.  The table
    of managed routes is what [FailureTracker] calls its rows; the query is a
    parameter. *)

From S2P Require Import Prelude.
Open Scope Z_scope.

Module Ownership.

Definition ownershipBatchMaxItems : Z := 8192.

(** A question, numbered by its caller. *)
Record ownershipRequest := MkAsk { asker : Z; proxyID : Z }.

Inductive ask_error := ContextDone | LookupFailed.

Record ownershipResult := MkAnswer { owned : bool; err : option ask_error }.

(** The goroutine: what it has collected, and whether its timer runs. *)
Record ownershipVerifier := MkVerifier { batch : list ownershipRequest; armed : bool }.

Inductive event := Received (req : ownershipRequest) | TimerFired.

(** [run]: the next state and the batch that is processed, if one is. *)
Definition run (e : event) (v : ownershipVerifier) : ownershipVerifier * list ownershipRequest :=
  match e with
  | Received req =>
      let collected := batch v ++ [req] in
      if ownershipBatchMaxItems <=? Z.of_nat (length collected) then (MkVerifier [] false, collected)
      else (MkVerifier collected true, [])
  | TimerFired => (MkVerifier [] false, batch v)
  end.

(** [fetchProxyOwnership]: what each asked route is found to be. *)
Definition fetchProxyOwnership (query : list Z -> option (list Z)) (proxyIDs : list Z) : option (gmap Z bool) :=
  match proxyIDs with
  | [] => Some ∅
  | _ =>
      match query proxyIDs with
      | None => None
      | Some rows => Some (fold_left (fun m id => <[id := true]> m) rows (fold_left (fun m id => <[id := false]> m) proxyIDs ∅))
      end
  end.

(** [processBatch]: the replies, in the order they are sent. *)
Definition processBatch (done : ownershipRequest -> bool) (query : list Z -> option (list Z)) (l : list ownershipRequest) : list (ownershipRequest * ownershipResult) :=
  let left := List.filter done l in
  let active := List.filter (fun req => negb (done req)) l in
  let early := map (fun req => (req, MkAnswer false (Some ContextDone))) left in
  match active with
  | [] => early
  | _ =>
      match fetchProxyOwnership query (dedup_go [] (map proxyID active)) with
      | None => early ++ map (fun req => (req, MkAnswer false (Some LookupFailed))) active
      | Some results => early ++ map (fun req => (req, MkAnswer (default false (results !! proxyID req)) None)) active
      end
  end.

(** The worker's side: what it hears, if it waited long enough. *)
Definition verifyProxyOwnership (proxyID : Z) (reply : option ownershipResult) : bool * option ask_error :=
  if proxyID =? 0 then (false, None)
  else match reply with Some r => (owned r, err r) | None => (false, Some ContextDone) end.

(** What a worker makes of it: whether the route has owners, if it is known. *)
Definition hasUsers (answer : bool * option ask_error) : option bool := match answer.2 with None => Some answer.1 | Some _ => None end.

(** ** Batches *)

(** Questions wait only while the timer runs, and never fill a batch. *)
Definition waiting_ok (v : ownershipVerifier) : Prop := Z.of_nat (length (batch v)) < ownershipBatchMaxItems /\ (armed v = true <-> batch v <> []).

Lemma run_waiting_ok e v : waiting_ok v -> waiting_ok (run e v).1.
Proof.
  intros [Hl Ha]. assert (waiting_ok (MkVerifier [] false)) as Hempty by (split; [unfold ownershipBatchMaxItems; simpl; lia|simpl; split; [done|intros H; by destruct H]]).
  destruct e as [req|]; [|done]. cbn [run]. destruct (ownershipBatchMaxItems <=? Z.of_nat (length (batch v ++ [req]))) eqn:Hfull; [done|]. split; [cbn [fst batch]; lia|]. cbn [fst batch armed]. split; [|done]. intros _ H. by apply app_eq_nil in H as [_ [=]].
Qed.

(** Every question is in exactly one batch, in order. *)
Fixpoint run_all (es : list event) (v : ownershipVerifier) : ownershipVerifier * list ownershipRequest :=
  match es with
  | [] => (v, [])
  | e :: es => let '(v, out) := run e v in let '(v, more) := run_all es v in (v, out ++ more)
  end.

Definition received (es : list event) : list ownershipRequest := omap (fun e => match e with Received req => Some req | TimerFired => None end) es.

Lemma received_cons e es : received (e :: es) = match e with Received req => req :: received es | TimerFired => received es end.
Proof. by destruct e. Qed.

Lemma run_all_keeps es v : (run_all es v).2 ++ batch (run_all es v).1 = batch v ++ received es.
Proof.
  revert v. induction es as [|e es IH]; intros v; [by rewrite app_nil_r|].
  rewrite received_cons. cbn [run_all].
  destruct (run e v) as [v' out] eqn:E. specialize (IH v'). destruct (run_all es v') as [v'' more]. simpl in *. rewrite <- app_assoc, IH. clear IH.
  destruct e as [req|]; cbn [run] in E.
  - destruct (ownershipBatchMaxItems <=? _); injection E as <- <-; simpl; by rewrite <- app_assoc.
  - injection E as <- <-. done.
Qed.

(** ** Answers *)

Lemma false_everywhere (ids : list Z) (m : gmap Z bool) id :
  (fold_left (fun m id => <[id := false]> m) ids m) !! id = if bool_decide (id ∈ ids) then Some false else m !! id.
Proof.
  revert m. induction ids as [|i ids IH]; intros m; [done|]. cbn [fold_left]. rewrite IH. destruct (decide (id ∈ ids)) as [H|H].
  - by rewrite !bool_decide_eq_true_2 by set_solver.
  - rewrite (bool_decide_eq_false_2 (id ∈ ids)) by done. destruct (decide (id = i)) as [->|Hne].
    + by rewrite lookup_insert_eq, bool_decide_eq_true_2 by set_solver.
    + rewrite lookup_insert_ne by done. by rewrite bool_decide_eq_false_2 by set_solver.
Qed.

Lemma true_for_rows (rows : list Z) (m : gmap Z bool) id :
  (fold_left (fun m id => <[id := true]> m) rows m) !! id = if bool_decide (id ∈ rows) then Some true else m !! id.
Proof.
  revert m. induction rows as [|i rows IH]; intros m; [done|]. cbn [fold_left]. rewrite IH. destruct (decide (id ∈ rows)) as [H|H].
  - by rewrite !bool_decide_eq_true_2 by set_solver.
  - rewrite (bool_decide_eq_false_2 (id ∈ rows)) by done. destruct (decide (id = i)) as [->|Hne].
    + by rewrite lookup_insert_eq, bool_decide_eq_true_2 by set_solver.
    + rewrite lookup_insert_ne by done. by rewrite bool_decide_eq_false_2 by set_solver.
Qed.

(** What a reply may say when the database's managed routes are [active]. *)
Definition truthful (active : gset Z) (done : ownershipRequest -> bool) (answers : bool) (req : ownershipRequest) (r : ownershipResult) : Prop :=
  match err r with
  | None => done req = false /\ answers = true /\ (owned r = true <-> proxyID req ∈ active)
  | Some ContextDone => owned r = false /\ done req = true
  | Some LookupFailed => owned r = false /\ done req = false /\ answers = false
  end.

(** The query: the asked routes that are actively managed. *)
Definition query_active (active : gset Z) (answers : bool) (ids : list Z) : option (list Z) :=
  if answers then Some (List.filter (fun id => bool_decide (id ∈ active)) ids) else None.

Lemma process_truthful active answers done l req r :
  (req, r) ∈ processBatch done (query_active active answers) l -> req ∈ l /\ truthful active done answers req r.
Proof.
  unfold processBatch. set (left := List.filter done l). set (act := List.filter (fun req => negb (done req)) l).
  assert (forall x, x ∈ left <-> x ∈ l /\ done x = true) as Hleft by (intros x; unfold left; rewrite !list_elem_of_In, filter_In; done).
  assert (forall x, x ∈ act <-> x ∈ l /\ done x = false) as Hact by (intros x; unfold act; rewrite !list_elem_of_In, filter_In, negb_true_iff; done).
  assert (forall x, (req, r) ∈ map (fun req => (req, MkAnswer false (Some ContextDone))) left -> x = req -> req ∈ l /\ truthful active done answers req r) as Hearly.
  { intros x Hx _. apply list_elem_of_fmap in Hx as (y & [= -> ->] & Hy). apply Hleft in Hy as [Hy Hd]. done. }
  destruct act as [|a rest] eqn:Ea; [by intros H; apply (Hearly req)|]. rewrite <- Ea in *. unfold fetchProxyOwnership.
  destruct (dedup_go [] (map proxyID act)) as [|id ids] eqn:Eids.
  { exfalso. assert (proxyID a ∈ dedup_go [] (map proxyID act)) as H by (apply elem_of_dedup_go; split; [rewrite Ea; constructor|set_solver]). rewrite Eids in H. set_solver. }
  rewrite <- Eids. unfold query_active. destruct answers; intros [H|H]%elem_of_app; try (by apply (Hearly req)); apply list_elem_of_fmap in H as (y & [= -> ->] & Hy); apply Hact in Hy as [Hy Hd].
  - split; [done|]. unfold truthful. cbn [err owned]. split; [done|]. split; [done|]. rewrite true_for_rows, false_everywhere.
    assert (proxyID y ∈ dedup_go [] (map proxyID act)) as Hin by (apply elem_of_dedup_go; split; [apply list_elem_of_fmap; exists y; split; [done|by apply Hact]|set_solver]).
    destruct (bool_decide (proxyID y ∈ List.filter _ _)) eqn:E.
    + apply bool_decide_eq_true in E. rewrite list_elem_of_In, filter_In, bool_decide_eq_true in E. simpl. naive_solver.
    + apply bool_decide_eq_false in E. rewrite list_elem_of_In, filter_In, bool_decide_eq_true, <- list_elem_of_In in E. rewrite bool_decide_eq_true_2 by done. simpl. naive_solver.
  - done.
Qed.

Lemma process_replies done query l : map fst (processBatch done query l) ≡ₚ l.
Proof.
  assert (forall m : list ownershipRequest, List.filter done m ++ List.filter (fun req => negb (done req)) m ≡ₚ m) as Hpart.
  { induction m as [|x m IH]; [done|]. simpl. destruct (done x); simpl; [by rewrite IH|]. rewrite <- Permutation_middle, IH. done. }
  unfold processBatch. etransitivity; [|apply (Hpart l)]. destruct (List.filter (fun req => negb (done req)) l) as [|a rest] eqn:Ea.
  { rewrite map_map, app_nil_r. cbn [fst]. by rewrite map_id. }
  destruct (fetchProxyOwnership _ _); rewrite map_app, !map_map; cbn [fst]; by rewrite !map_id.
Qed.

(** Whatever questions arrive and whenever the timer fires, no question is lost, repeated or left without a running timer: those received are, in order, those handed on in batches and those still waiting, fewer than a batch, with the timer running exactly while some wait; each batch sends one reply per question, and what a worker concludes from a reply is that the route is owned or not only when the lookup answered, and then exactly according to the managed routes, so an error or a cancelled wait never passes for a route without owners. *)
Theorem ownership_is_known es active answers done req r :
  let '(v, out) := run_all es (MkVerifier [] false) in
  out ++ batch v = received es /\ waiting_ok v /\
  map fst (processBatch done (query_active active answers) out) ≡ₚ out /\
  ((req, r) ∈ processBatch done (query_active active answers) out -> proxyID req <> 0 ->
     match hasUsers (verifyProxyOwnership (proxyID req) (Some r)) with
     | Some true => proxyID req ∈ active
     | Some false => proxyID req ∉ active
     | None => done req = true \/ answers = false
     end).
Proof.
  pose proof (run_all_keeps es (MkVerifier [] false)) as Hkeeps.
  assert (waiting_ok (run_all es (MkVerifier [] false)).1) as Hok.
  { assert (waiting_ok (MkVerifier [] false)) as H0 by (split; [unfold ownershipBatchMaxItems; simpl; lia|simpl; split; [done|intros H; by destruct H]]).
    clear Hkeeps. revert H0. generalize (MkVerifier [] false). induction es as [|e es IH]; intros v Hv; [done|]. cbn [run_all].
    pose proof (run_waiting_ok e v Hv) as Hv'. destruct (run e v) as [v' out]. specialize (IH v' Hv'). by destruct (run_all es v'). }
  destruct (run_all es (MkVerifier [] false)) as [v out]. simpl in Hkeeps, Hok. split; [done|]. split; [done|]. split; [apply process_replies|].
  intros Hin Hne. apply process_truthful in Hin as [_ Ht]. unfold verifyProxyOwnership, hasUsers, truthful in *.
  assert ((proxyID req =? 0) = false) as -> by lia. cbn [fst snd]. destruct (err r) as [[]|]; [left; tauto|right; tauto|]. destruct Ht as (_ & _ & Ho).
  destruct (owned r); [by apply Ho|]. intros H. apply Ho in H. done.
Qed.

End Ownership.
