(* ===== verification/Secrets.v ===== *)
(** * Encrypted credentials and route fingerprints

    [internal/security/proxy_secret.go] and the hooks of
    [internal/domain/user_proxy_model.go] and [rotating_proxy_model.go] that
    encrypt what is written and decrypt what is read.  SHA-256, HMAC-SHA-256
    and AES-GCM are parameters; their laws are those of the packages
    [crypto/sha256], [crypto/hmac] and [crypto/cipher]. *)

From S2P Require Import Prelude GoStrings HttpProxy Sessions.
From Stdlib Require Import Ascii.
Open Scope Z_scope.
Open Scope magpie_scope.

Module Secrets.

(** Digests, and a cipher under a key and a nonce. *)
Class Crypto := {
  SHA256 : list ascii -> list ascii;
  HMAC : list ascii -> list ascii -> list ascii;
  Seal : list ascii -> list ascii -> list ascii -> list ascii;
  Unseal : list ascii -> list ascii -> list ascii -> option (list ascii)
}.

(** A digest has 32 bytes; what was sealed under an AES key and a nonce of the
    standard size opens; a sealed text carries a tag. *)
Class CryptoLaws `{Crypto} := {
  sha256_length x : length (SHA256 x) = 32%nat;
  unseal_seal key nonce plain : length key ∈ [16; 24; 32]%nat -> length nonce = 12%nat -> Unseal key nonce (Seal key nonce plain) = Some plain;
  seal_length key nonce plain : length key ∈ [16; 24; 32]%nat -> length nonce = 12%nat -> length (Seal key nonce plain) = (length plain + 16)%nat
}.

Inductive secret_error := KeyNotSet | KeyTooShort | KeyPlaceholder | NonceFailed | DecodeFailed | CiphertextTooShort | DecryptFailed | InvalidState.

Definition ProxyEncryptionPrefix : string := "enc:".
Definition proxyEncryptionKeyMin : nat := 32.
Definition NonceSize : nat := 12.

(** ** The key *)

Section Keys.
Context `{Crypto}.

Definition normalizeKey (key : list ascii) : list ascii :=
  if bool_decide (length key ∈ [16; 24; 32]%nat) then key else SHA256 key.

Definition deriveProxyKey (raw : string) : list ascii :=
  match HttpProxy.b64_decode raw with Some decoded => normalizeKey (bytes decoded) | None => SHA256 (bytes raw) end.

(** The same function as in [internal/auth]. *)
Definition normalizeSecretValue (secret : string) : string := Sessions.normalizeSecretValue secret.

Definition isKnownPlaceholderProxySecret (secret : string) : bool :=
  bool_decide (normalizeSecretValue secret ∈ ["changeme"; "changemetoastrongkey"; "proxyencryptionkey"; "yourproxyencryptionkey"]).

Definition validateProxyEncryptionKey (strict : bool) (raw : string) : option secret_error :=
  if negb strict then None
  else if (slen raw <? proxyEncryptionKeyMin)%nat then Some KeyTooShort
  else if isKnownPlaceholderProxySecret raw then Some KeyPlaceholder
  else None.

(** The master key from the environment. *)
Definition getProxyCipher (strict : bool) (env : string) : res secret_error (list ascii) :=
  let rawKey := trim_space env in
  if String.eqb rawKey "" then Err KeyNotSet
  else match validateProxyEncryptionKey strict rawKey with Some e => Err e | None => Ok (deriveProxyKey rawKey) end.

Definition getProxyFingerprintKey (strict : bool) (env : string) : res secret_error (list ascii) :=
  let? masterKey := getProxyCipher strict env in Ok (HMAC masterKey (bytes "magpie/proxy-route-fingerprint-key/v1")).

(** ** Secrets *)

(** [nonce] is what the random source gave. *)
Definition EncryptProxySecret (cipher : res secret_error (list ascii)) (nonce : option (list ascii)) (plain : string) : res secret_error string :=
  if String.eqb plain "" then Ok ""
  else
    let? key := cipher in
    match nonce with
    | None => Err NonceFailed
    | Some nonce => Ok (ProxyEncryptionPrefix +:+ HttpProxy.EncodeToString (of_bytes (nonce ++ Seal key nonce (bytes plain))))
    end.

(** The plain text, and whether the value was stored in the clear. *)
Definition DecryptProxySecret (cipher : res secret_error (list ascii)) (value : string) : res secret_error (string * bool) :=
  if String.eqb value "" then Ok ("", false)
  else if negb (has_prefix ProxyEncryptionPrefix value) then Ok (value, true)
  else
    match HttpProxy.b64_decode (sdrop (slen ProxyEncryptionPrefix) value) with
    | None => Err DecodeFailed
    | Some data =>
        let? key := cipher in
        let data := bytes data in
        if (length data <=? NonceSize)%nat then Err CiphertextTooShort
        else
          match Unseal key (take NonceSize data) (drop NonceSize data) with
          | None => Err DecryptFailed
          | Some plain => Ok (of_bytes plain, false)
          end
    end.

Definition IsProxySecretEncrypted (value : string) : bool := has_prefix ProxyEncryptionPrefix value.

(** ** Fingerprints *)

(** [PutUint32] and [PutUint16] *)
Definition big_endian (width : nat) (n : Z) : list ascii := map (fun i => chr (Z.shiftr n (8 * Z.of_nat i) mod 256)) (rev (seq 0 width)).

Definition writeFingerprintField (value : list ascii) : list ascii := big_endian 4 (wrap_unsigned 32 (Z.of_nat (length value))) ++ value.

(** What the digest of a route is taken of. *)
Definition fingerprint_message (host : string) (port : Z) (username password : string) : list ascii :=
  writeFingerprintField (bytes "magpie/proxy-route/v1") ++ writeFingerprintField (bytes host) ++ writeFingerprintField (big_endian 2 port) ++
  writeFingerprintField (bytes username) ++ writeFingerprintField (bytes password).

Definition FingerprintProxyRoute (strict : bool) (env : string) (host : string) (port : Z) (username password : string) : res secret_error (list ascii) :=
  let? key := getProxyFingerprintKey strict env in Ok (HMAC key (fingerprint_message host port username password)).

(** ** Rows *)

(** The credentials of a managed route: in memory and as they are stored. *)
Record ManagedProxy := MkManaged { State : string; Username : string; Password : string; UsernameEncrypted : string; PasswordEncrypted : string }.

(** [ManagedProxy.BeforeSave], with the two nonces it draws. *)
Definition managed_before_save (cipher : res secret_error (list ascii)) (nonce1 nonce2 : option (list ascii)) (a : ManagedProxy) : res secret_error ManagedProxy :=
  let state := to_lower (trim_space (State a)) in
  let state := if String.eqb state "" then "active" else state in
  if negb (bool_decide (state ∈ ["active"; "paused"; "archived"])) then Err InvalidState
  else
    let? username := EncryptProxySecret cipher nonce1 (Username a) in
    let? password := EncryptProxySecret cipher nonce2 (Password a) in
    Ok (MkManaged state (Username a) (Password a) username password).

Definition managed_after_find (cipher : res secret_error (list ascii)) (a : ManagedProxy) : res secret_error ManagedProxy :=
  let? username := DecryptProxySecret cipher (UsernameEncrypted a) in
  let? password := DecryptProxySecret cipher (PasswordEncrypted a) in
  Ok (MkManaged (State a) username.1 password.1 (UsernameEncrypted a) (PasswordEncrypted a)).

(** What the hooks of a rotator read and write. *)
Record RotatingProxy := MkRotating {
  InstanceID : string; InstanceName : string; InstanceRegion : string; ProtocolID : Z; ListenProtocolID : Z;
  TransportProtocol : string; ListenTransportProtocol : string; AuthRequired : bool; AuthPassword : string; AuthPasswordEncrypted : string
}.

Definition or_else (value fallback : string) : string := if String.eqb (trim_space value) "" then fallback else value.

(** [RotatingProxy.BeforeSave] *)
Definition rotating_before_save (cipher : res secret_error (list ascii)) (nonce : option (list ascii)) (defaultInstanceID : string) (rp : RotatingProxy) : res secret_error RotatingProxy :=
  let id := or_else (InstanceID rp) defaultInstanceID in
  let name := or_else (InstanceName rp) id in
  let region := or_else (InstanceRegion rp) "Unknown" in
  let listen := if ListenProtocolID rp =? 0 then ProtocolID rp else ListenProtocolID rp in
  let transport := to_lower (trim_space (TransportProtocol rp)) in
  let transport := if String.eqb transport "" then "tcp" else transport in
  let listen_transport := to_lower (trim_space (ListenTransportProtocol rp)) in
  let listen_transport := if String.eqb listen_transport "" then transport else listen_transport in
  let? encrypted := if AuthRequired rp && negb (String.eqb (AuthPassword rp) "") then EncryptProxySecret cipher nonce (AuthPassword rp) else Ok "" in
  Ok (MkRotating id name region (ProtocolID rp) listen transport listen_transport (AuthRequired rp) (AuthPassword rp) encrypted).

(** [RotatingProxy.AfterFind] *)
Definition rotating_after_find (cipher : res secret_error (list ascii)) (rp : RotatingProxy) : res secret_error RotatingProxy :=
  let with_password p := MkRotating (InstanceID rp) (InstanceName rp) (InstanceRegion rp) (ProtocolID rp) (ListenProtocolID rp) (TransportProtocol rp)
                           (ListenTransportProtocol rp) (AuthRequired rp) p (AuthPasswordEncrypted rp) in
  if String.eqb (AuthPasswordEncrypted rp) "" then Ok (with_password "")
  else let? password := DecryptProxySecret cipher (AuthPasswordEncrypted rp) in Ok (with_password password.1).

End Keys.

(** ** Secrets read back *)

Section Facts.
Context `{CryptoLaws}.

(** Derived keys fit AES. *)
Lemma derived_key_length raw : length (deriveProxyKey raw) ∈ [16; 24; 32]%nat.
Proof.
  unfold deriveProxyKey, normalizeKey. destruct (HttpProxy.b64_decode raw) as [decoded|].
  - destruct (bool_decide (length (bytes decoded) ∈ [16; 24; 32]%nat)) eqn:E; [by apply bool_decide_eq_true in E|]. rewrite sha256_length. set_solver.
  - rewrite sha256_length. set_solver.
Qed.

Lemma sdrop_prefix s : sdrop (slen ProxyEncryptionPrefix) (ProxyEncryptionPrefix +:+ s) = s.
Proof. apply sdrop_app. Qed.

Lemma cipher_key strict env key : getProxyCipher strict env = Ok key -> length key ∈ [16; 24; 32]%nat.
Proof.
  unfold getProxyCipher. destruct (String.eqb _ ""); [done|]. destruct (validateProxyEncryptionKey _ _); [done|]. intros [= <-]. apply derived_key_length.
Qed.

Lemma secret_reads_back strict env key nonce plain :
  getProxyCipher strict env = Ok key -> length nonce = NonceSize ->
  exists value, EncryptProxySecret (Ok key) (Some nonce) plain = Ok value /\ DecryptProxySecret (Ok key) value = Ok (plain, false) /\
    (value = "" <-> plain = "") /\ (plain <> "" -> IsProxySecretEncrypted value = true).
Proof.
  intros Hkey%cipher_key Hn. unfold EncryptProxySecret. destruct (String.eqb plain "") eqn:E.
  { apply String.eqb_eq in E as ->. exists "". done. }
  apply String.eqb_neq in E. eexists. split; [reflexivity|]. unfold DecryptProxySecret, IsProxySecretEncrypted.
  set (data := nonce ++ Seal key nonce (bytes plain)). set (rest := HttpProxy.EncodeToString (of_bytes data)).
  assert (forall r, String.eqb (ProxyEncryptionPrefix +:+ r) "" = false /\ has_prefix ProxyEncryptionPrefix (ProxyEncryptionPrefix +:+ r) = true) as Hp
    by (intros r; split; [done|]; by destruct r).
  destruct (Hp rest) as [-> ->]. cbn [negb]. rewrite sdrop_prefix. unfold rest. rewrite HttpProxy.b64_roundtrip. cbn [res_bind]. rewrite bytes_of_bytes.
  assert ((length data <=? NonceSize)%nat = false) as -> by (apply Nat.leb_gt; unfold data; rewrite length_app, seal_length by done; lia).
  unfold data. rewrite take_app_length' by done. rewrite drop_app_length' by done. rewrite unseal_seal, of_bytes_bytes by done. split; [done|]. split; [|done]. by split.
Qed.

(** A row of either table as it is loaded: its columns, and whatever the fields
    that are no columns held before. *)
Definition managed_row (a : ManagedProxy) (username password : string) : ManagedProxy :=
  MkManaged (State a) username password (UsernameEncrypted a) (PasswordEncrypted a).

Definition rotating_row (rp : RotatingProxy) (password : string) : RotatingProxy :=
  MkRotating (InstanceID rp) (InstanceName rp) (InstanceRegion rp) (ProtocolID rp) (ListenProtocolID rp) (TransportProtocol rp)
    (ListenTransportProtocol rp) (AuthRequired rp) password (AuthPasswordEncrypted rp).

(** C37. With a usable key, what the hooks write reads back from the columns
    alone: a managed route keeps its normalised state and exactly its
    credentials, a rotator exactly the password of its clients while it asks for
    one and none otherwise, whatever the loaded structure held in the fields that
    are not stored; and nothing but the empty string is stored in the clear. *)
Theorem secrets_read_back strict env key nonce1 nonce2 a a' rp rp' instance :
  getProxyCipher strict env = Ok key -> length nonce1 = NonceSize -> length nonce2 = NonceSize ->
  managed_before_save (Ok key) (Some nonce1) (Some nonce2) a = Ok a' ->
  rotating_before_save (Ok key) (Some nonce1) instance rp = Ok rp' ->
  (forall username password, managed_after_find (Ok key) (managed_row a' username password) = Ok (managed_row a' (Username a) (Password a))) /\
  (forall password, rotating_after_find (Ok key) (rotating_row rp' password) = Ok (rotating_row rp' (if AuthRequired rp then AuthPassword rp else ""))) /\
  State a' ∈ ["active"; "paused"; "archived"] /\
  forall value, value ∈ [UsernameEncrypted a'; PasswordEncrypted a'; AuthPasswordEncrypted rp'] -> value = "" \/ IsProxySecretEncrypted value = true.
Proof.
  intros Hkey H1 H2 Ha Hr. unfold managed_before_save in Ha. cbv zeta in Ha.
  destruct (negb (bool_decide (_ ∈ ["active"; "paused"; "archived"]))) eqn:Es; [done|]. apply negb_false_iff, bool_decide_eq_true in Es.
  destruct (secret_reads_back strict env key nonce1 (Username a) Hkey H1) as (u & Eu & Du & Zu & Pu). rewrite Eu in Ha. cbn [res_bind] in Ha.
  destruct (secret_reads_back strict env key nonce2 (Password a) Hkey H2) as (p & Ep & Dp & Zp & Pp). rewrite Ep in Ha. cbn [res_bind] in Ha. injection Ha as <-.
  assert (forall v plain, (v = "" <-> plain = "") -> (plain <> "" -> IsProxySecretEncrypted v = true) -> v = "" \/ IsProxySecretEncrypted v = true) as Hstored
    by (intros v plain Hz Hp; destruct (decide (plain = "")); [left; by apply Hz|right; by apply Hp]).
  split; [intros username password; unfold managed_after_find, managed_row; cbn [UsernameEncrypted PasswordEncrypted State]; by rewrite Du; cbn [res_bind]; rewrite Dp|].
  cbn [State UsernameEncrypted PasswordEncrypted]. unfold rotating_before_save in Hr. cbv zeta in Hr.
  destruct (AuthRequired rp && negb (String.eqb (AuthPassword rp) "")) eqn:Eauth.
  - apply andb_true_iff in Eauth as [Ereq Epw]. apply negb_true_iff, String.eqb_neq in Epw.
    destruct (secret_reads_back strict env key nonce1 (AuthPassword rp) Hkey H1) as (w & Ew & Dw & Zw & Pw). rewrite Ew in Hr. cbn [res_bind] in Hr. injection Hr as <-.
    cbn [AuthPasswordEncrypted]. split; [|split; [done|]].
    + intros password. unfold rotating_after_find, rotating_row. cbn [AuthPasswordEncrypted]. destruct (String.eqb w "") eqn:E0; [apply String.eqb_eq, Zw in E0; done|].
      rewrite Dw. cbn [res_bind fst]. by rewrite Ereq.
    + intros value. rewrite !elem_of_cons. intros [->|[->|[->|Hin]]]; [by apply (Hstored u (Username a))|by apply (Hstored p (Password a))|by right; apply Pw|set_solver].
  - injection Hr as <-. cbn [AuthPasswordEncrypted]. split; [|split; [done|]].
    + intros password. unfold rotating_after_find, rotating_row. cbn [AuthPasswordEncrypted]. destruct (AuthRequired rp); [|done].
      simpl in Eauth. apply negb_false_iff, String.eqb_eq in Eauth. by rewrite Eauth.
    + intros value. rewrite !elem_of_cons. intros [->|[->|[->|Hin]]]; [by apply (Hstored u (Username a))|by apply (Hstored p (Password a))|by left|set_solver].
Qed.

End Facts.

(** ** The fields of a fingerprint cannot run into each other *)

Lemma big_endian_length width n : length (big_endian width n) = width.
Proof. unfold big_endian. by rewrite length_map, length_rev, length_seq. Qed.

Lemma chr_inj a b : 0 <= a < 256 -> 0 <= b < 256 -> chr a = chr b -> a = b.
Proof. intros Ha Hb H. rewrite <- (code_chr a Ha), <- (code_chr b Hb). by rewrite H. Qed.

Lemma big_endian_inj width n m : 0 <= n < 2 ^ (8 * Z.of_nat width) -> 0 <= m < 2 ^ (8 * Z.of_nat width) -> big_endian width n = big_endian width m -> n = m.
Proof.
  intros Hn Hm H. assert (forall i, (i < width)%nat -> Z.shiftr n (8 * Z.of_nat i) mod 256 = Z.shiftr m (8 * Z.of_nat i) mod 256) as Hi.
  { intros i Hi. assert (i ∈ rev (seq 0 width)) as Hin by (rewrite elem_of_rev; apply elem_of_seq; lia).
    unfold big_endian in H. apply (chr_inj _ _); [apply Z.mod_pos_bound; lia..|]. revert Hin H. generalize (rev (seq 0 width)). intros l Hin H.
    induction l as [|x l IH]; [set_solver|]. simpl in H. injection H as Hx Hl. apply elem_of_cons in Hin as [->|Hin]; [done|by apply IH]. }
  clear H. apply Z.bits_inj'. intros k Hk. destruct (decide (k < 8 * Z.of_nat width)) as [Hlt|Hge].
  - specialize (Hi (Z.to_nat (k / 8)) ltac:(Z.to_euclidean_division_equations; lia)). apply (f_equal (fun x => Z.testbit x (k mod 8))) in Hi.
    change 256 with (2 ^ 8) in Hi. assert (0 <= k mod 8 < 8) by (apply Z.mod_pos_bound; lia). rewrite !Z.mod_pow2_bits_low in Hi by lia.
    rewrite !Z.shiftr_spec in Hi by lia. assert (k mod 8 + 8 * Z.of_nat (Z.to_nat (k / 8)) = k) as Hsum by (Z.to_euclidean_division_equations; lia). by rewrite Hsum in Hi.
  - rewrite <- (Z.mod_small n (2 ^ (8 * Z.of_nat width))), <- (Z.mod_small m (2 ^ (8 * Z.of_nat width))) by done. by rewrite !Z.mod_pow2_bits_high by lia.
Qed.

Lemma field_inj a b r r' :
  Z.of_nat (length a) < 2 ^ 32 -> Z.of_nat (length b) < 2 ^ 32 -> writeFingerprintField a ++ r = writeFingerprintField b ++ r' -> a = b /\ r = r'.
Proof.
  intros Ha Hb H. unfold writeFingerprintField in H. rewrite !wrap_unsigned_id in H by lia. rewrite <- !app_assoc in H.
  apply app_inj_1 in H as [Hl H]; [|by rewrite !big_endian_length]. apply big_endian_inj in Hl; [|simpl; lia|simpl; lia]. apply app_inj_1 in H; [done|lia].
Qed.

(** Different routes are different messages to the digest. *)
Lemma fingerprint_message_inj host port username password host' port' username' password' :
  0 <= port < 2 ^ 16 -> 0 <= port' < 2 ^ 16 ->
  (forall s, s ∈ [host; username; password; host'; username'; password'] -> Z.of_nat (slen s) < 2 ^ 32) ->
  fingerprint_message host port username password = fingerprint_message host' port' username' password' ->
  host = host' /\ port = port' /\ username = username' /\ password = password'.
Proof.
  intros Hp Hp' Hs H. unfold fingerprint_message in H. apply app_inv_head in H.
  assert (forall s, s ∈ [host; username; password; host'; username'; password'] -> Z.of_nat (length (bytes s)) < 2 ^ 32) as Hl by (intros s Hin; rewrite length_bytes; by apply Hs).
  assert (forall s t, bytes s = bytes t -> s = t) as Hinj by (intros s t E; by rewrite <- (of_bytes_bytes s), <- (of_bytes_bytes t), E).
  apply field_inj in H as [Hh H]; [|apply Hl; set_solver|apply Hl; set_solver]. apply field_inj in H as [Hport H]; [|rewrite big_endian_length; simpl; lia..].
  apply field_inj in H as [Hu H]; [|apply Hl; set_solver|apply Hl; set_solver].
  rewrite <- (app_nil_r (writeFingerprintField (bytes password))), <- (app_nil_r (writeFingerprintField (bytes password'))) in H.
  apply field_inj in H as [Hpw _]; [|apply Hl; set_solver|apply Hl; set_solver]. apply big_endian_inj in Hport; [|simpl; lia|simpl; lia]. naive_solver.
Qed.

Module Sample.

(** A cipher that only marks what it is given. *)
#[export] Instance crypto : Crypto := {|
  SHA256 := fun x => take 32 (x ++ repeat "0"%char 32);
  HMAC := fun k x => take 32 (k ++ x ++ repeat "0"%char 32);
  Seal := fun k n x => repeat "t"%char 16 ++ rev x;
  Unseal := fun k n c => if bool_decide (take 16 c = repeat "t"%char 16) then Some (rev (drop 16 c)) else None
|}.

#[export] Instance crypto_laws : CryptoLaws.
Proof.
  split.
  - intros x. change (SHA256 x) with (take 32 (x ++ repeat "0"%char 32)). rewrite length_take, length_app, repeat_length. lia.
  - intros key nonce plain _ _. change (Unseal key nonce (Seal key nonce plain)) with
      (if bool_decide (take 16 (repeat "t"%char 16 ++ rev plain) = repeat "t"%char 16) then Some (rev (drop 16 (repeat "t"%char 16 ++ rev plain))) else None).
    rewrite take_app_length', drop_app_length', bool_decide_eq_true_2 by done. by rewrite rev_involutive.
  - intros key nonce plain _ _. change (Seal key nonce plain) with (repeat "t"%char 16 ++ rev plain). rewrite length_app, repeat_length, length_rev. lia.
Qed.

Definition nonce : list ascii := repeat "n"%char 12.
Definition env : string := " a long enough encryption key, really ".
Definition key : list ascii := deriveProxyKey "a long enough encryption key, really".
Definition route : ManagedProxy := MkManaged " Paused" "user" "secret" "" "".
Definition rotator : RotatingProxy := MkRotating "" "" "" 3 0 "" "" true "hunter2" "".

Definition saved_route := managed_before_save (Ok key) (Some nonce) (Some nonce) route.
Definition saved_rotator := rotating_before_save (Ok key) (Some nonce) "node-1" rotator.

End Sample.

#[local] Existing Instances Sample.crypto Sample.crypto_laws.

Lemma secrets_read_back_witness :
  exists a' rp', Sample.saved_route = Ok a' /\ Sample.saved_rotator = Ok rp' /\
  (forall username password, managed_after_find (Ok Sample.key) (managed_row a' username password) = Ok (managed_row a' "user" "secret")) /\
  (forall password, rotating_after_find (Ok Sample.key) (rotating_row rp' password) = Ok (rotating_row rp' "hunter2")) /\
  State a' ∈ ["active"; "paused"; "archived"] /\
  forall value, value ∈ [UsernameEncrypted a'; PasswordEncrypted a'; AuthPasswordEncrypted rp'] -> value = "" \/ IsProxySecretEncrypted value = true.
Proof.
  eexists _, _. split; [vm_compute; reflexivity|]. split; [vm_compute; reflexivity|].
  refine (secrets_read_back true Sample.env Sample.key Sample.nonce Sample.nonce Sample.route _ Sample.rotator _ "node-1" _ eq_refl eq_refl _ _); vm_compute; reflexivity.
Defined.

End Secrets.
