(* ===== verification/Scraping.v ===== *)
(** * Scrape sources of workspaces and the worker that fetches them

    [internal/database/database_scraper_handler.go],
    [database_scrape_source_tag_handler.go], [scrape_queue_helper.go],
    [internal/config/website_blocklist.go] and [scrapeSite] of
    [internal/jobs/scraper/thread_handler.go].  A source is a row shared by the
    workspaces subscribed to it; each subscription has its own fetch mode and
    shows its last result.  [url.Parse], the request and the clock readings of
    the worker are parameters; the queue is [SiteQueue]. *)

From S2P Require Import Prelude GoStrings SiteQueue CheckerPlans.
Open Scope Z_scope.
Open Scope magpie_scope.

Module Scraping.
Import SiteQueue(ScrapeModeSchedule, MkMode, NextAttemptMS, ScrapeSchedule, MkSchedule, Modes, RetryAfterMS, DeferredUntilMS, DeferredReason).

(** ** Blocked websites *)

Section Blocklist.
(** The host name of a URL, when it parses. *)
Context (ParseHostname : string -> option string).

(** [strings.Trim] with a cutset of one byte *)
Fixpoint trim_left_byte (b : Ascii.ascii) (s : string) : string :=
  match s with
  | String c rest => if Ascii.eqb c b then trim_left_byte b rest else s
  | EmptyString => s
  end.

Definition normalizeHostname (raw : string) : string :=
  let trimmed := trim_space raw in
  if String.eqb trimmed "" then ""
  else
    let trimmed := if contains_str "://" trimmed then trimmed else "https://" +:+ trimmed in
    match ParseHostname trimmed with
    | None => ""
    | Some host => trim_right "." (trim_left_byte (chr 46) (to_lower host))
    end.

Fixpoint normalize_entries (seen : list string) (entries : list string) : list string :=
  match entries with
  | [] => []
  | raw :: rest =>
      let host := normalizeHostname raw in
      if String.eqb host "" || bool_decide (host ∈ seen) then normalize_entries seen rest
      else host :: normalize_entries (host :: seen) rest
  end.

Definition normalizeWebsiteEntries (entries : list string) : list string := normalize_entries [] entries.

Definition buildWebsiteBlocklist (entries : list string) : gset string := list_to_set (List.filter (fun host => negb (String.eqb host "")) entries).

Definition NewWebsiteBlocklistSet (entries : list string) : gset string := buildWebsiteBlocklist (normalizeWebsiteEntries entries).

Definition isHostBlocked (host : string) (blockedSet : gset string) : bool :=
  if String.eqb host "" || bool_decide (blockedSet = ∅) then false
  else if bool_decide (host ∈ blockedSet) then true
  else existsb (fun blocked => negb (String.eqb blocked "") && has_suffix ("." +:+ blocked) host) (elements blockedSet).

Definition isWebsiteBlocked (rawURL : string) (blockedSet : gset string) : bool :=
  if bool_decide (blockedSet = ∅) then false
  else
    let host := normalizeHostname rawURL in
    if String.eqb host "" then false else isHostBlocked host blockedSet.

End Blocklist.

(** ** Rows *)

(** [WorkspaceScrapeSite]; the result columns are the defaults before the first result. *)
Record Subscription := MkSub { FetchMode : string; LastScrapedAt : option Z; LastScrapeStatus : string; LastScrapeError : string; LastScrapeProxyCount : Z }.

Record DB := MkDB {
  workspaces : gset Z;
  sites : gmap Z string;
  next_site : Z;
  subscriptions : gmap (Z * Z) Subscription;
  source_tags : gset (Z * Z * Z);
  proxy_tags : gset (Z * Z)
}.

Definition with_subs (m : gmap (Z * Z) Subscription) (tags : gset (Z * Z * Z)) (db : DB) : DB := MkDB (workspaces db) (sites db) (next_site db) m tags (proxy_tags db).

Inductive source_error := InvalidFetchMode | TagNotFound | WorkspaceNotFound | NoSettings | DatabaseError.

Definition ValidScrapeFetchMode (mode : string) : bool := bool_decide (mode ∈ ["http"; "browser"]).

Definition new_subscription (mode : string) : Subscription := MkSub mode None "" "" 0.

(** [validateScrapeSourceTags] *)
Definition validateScrapeSourceTags (db : DB) (workspaceID : Z) (tagIDs : list Z) : bool :=
  forallb (fun id => negb (id =? 0)) tagIDs && forallb (fun id => bool_decide ((workspaceID, id) ∈ proxy_tags db)) tagIDs.

Definition createScrapeSourceTags (workspaceID : Z) (siteIDs tagIDs : list Z) (tags : gset (Z * Z * Z)) : gset (Z * Z * Z) :=
  list_to_set (siteIDs ≫= fun site => map (fun tag => (workspaceID, site, tag)) tagIDs) ∪ tags.

(** [FirstOrCreate] of a source by its URL. *)
Definition site_of (url : string) (db : DB) : option Z := first_match (fun kv => if String.eqb kv.2 url then Some kv.1 else None) (map_to_list (sites db)).

Definition first_or_create (url : string) (db : DB) : Z * DB :=
  match site_of url db with
  | Some id => (id, db)
  | None => (next_site db, MkDB (workspaces db) (<[next_site db := url]> (sites db)) (next_site db + 1) (subscriptions db) (source_tags db) (proxy_tags db))
  end.

(** Whether a workspace is subscribed to a URL. *)
Definition subscribed_url (db : DB) (workspaceID : Z) (url : string) : bool :=
  existsb (fun kv => String.eqb kv.2 url && bool_decide (is_Some (subscriptions db !! (workspaceID, kv.1)))) (map_to_list (sites db)).

Section Sources.
Context (IsValidURL IsWebsiteBlocked : string -> bool).

(** The loop over the given sources; [existing] is what the workspace had. *)
Fixpoint save_loop (existing : string -> bool) (seen : list string) (sources : list string) (db : DB) : list Z * DB :=
  match sources with
  | [] => ([], db)
  | raw :: rest =>
      let trimmed := trim_space raw in
      if String.eqb trimmed "" || negb (IsValidURL trimmed) || IsWebsiteBlocked trimmed || existing trimmed || bool_decide (trimmed ∈ seen)
      then save_loop existing seen rest db
      else
        let '(id, db) := first_or_create trimmed db in
        let '(ids, db) := save_loop existing (trimmed :: seen) rest db in
        (id :: ids, db)
  end.

(** New subscriptions; those that exist are left alone. *)
Definition subscribe (workspaceID : Z) (mode : string) (m : gmap (Z * Z) Subscription) (id : Z) : gmap (Z * Z) Subscription :=
  match m !! (workspaceID, id) with Some _ => m | None => <[(workspaceID, id) := new_subscription mode]> m end.

Definition SaveScrapingSourcesWithSettings (userID : Z) (sources : list string) (mode : string) (tagIDs : list Z) (db : DB) : res source_error (list Z * DB) :=
  if negb (ValidScrapeFetchMode mode) then Err InvalidFetchMode
  else if negb (forallb (fun id => negb (id =? 0)) tagIDs) then Err TagNotFound
  else
    let tagIDs := CheckerPlans.normalize_ids tagIDs in
    if negb (validateScrapeSourceTags db userID tagIDs) then Err TagNotFound
    else if negb (bool_decide (userID ∈ workspaces db)) then Err WorkspaceNotFound
    else
      let '(ids, db) := save_loop (subscribed_url db userID) [] sources db in
      Ok (ids, with_subs (fold_left (subscribe userID mode) ids (subscriptions db)) (createScrapeSourceTags userID ids tagIDs (source_tags db)) db).

End Sources.

(** Deleting a subscription takes its tag rules along. *)
Definition unsubscribe (workspaceID : Z) (ids : list Z) (db : DB) : DB :=
  with_subs (filter (fun kv => ~ (kv.1.1 = workspaceID /\ kv.1.2 ∈ ids)) (subscriptions db))
    (filter (fun r => ~ (r.1.1 = workspaceID /\ r.1.2 ∈ ids)) (source_tags db)) db.

Definition has_subscribers (db : DB) (id : Z) : bool := existsb (fun kv => kv.1.2 =? id) (map_to_list (subscriptions db)).

Definition collectOrphanScrapeSiteIDs (candidates : list Z) (db : DB) : list Z :=
  dedup_go [] (List.filter (fun id => negb (has_subscribers db id)) candidates).

(** What becomes of one chunk of [DeleteScrapeSiteRelation]: its statements are
    not one transaction, so a later one can fail after the deletion. *)
Inductive chunk_outcome := ChunkDone | FailedBefore | FailedAfter.

(** The orphans so far, or an error, and the rows as they then are. *)
Fixpoint delete_chunks (outcome : nat -> chunk_outcome) (n : nat) (workspaceID : Z) (chunks : list (list Z)) (orphans : list Z) (db : DB) : res source_error (list Z) * DB :=
  match chunks with
  | [] => (Ok orphans, db)
  | chunk :: rest =>
      match outcome n with
      | FailedBefore => (Err DatabaseError, db)
      | FailedAfter => (Err DatabaseError, unsubscribe workspaceID chunk db)
      | ChunkDone =>
          let db := unsubscribe workspaceID chunk db in
          delete_chunks outcome (S n) workspaceID rest (orphans ++ List.filter (fun id => negb (bool_decide (id ∈ orphans))) (collectOrphanScrapeSiteIDs chunk db)) db
      end
  end.

(** [found] is whether the last query, for the orphans' rows, is answered. *)
Definition DeleteScrapeSiteRelation (outcome : nat -> chunk_outcome) (found : bool) (workspaceID : Z) (scrapeSite : list Z) (db : DB) : res source_error (list Z) * DB :=
  match scrapeSite with
  | [] => (Ok [], db)
  | _ =>
      match delete_chunks outcome 0 workspaceID (batches CheckerPlans.deleteChunkSize scrapeSite) [] db with
      | (Err e, db) => (Err e, db)
      | (Ok [], db) => (Ok [], db)
      | (Ok orphans, db) => (if found then Ok (List.filter (fun id => bool_decide (is_Some (sites db !! id))) orphans) else Err DatabaseError, db)
      end
  end.

Definition DeleteOrphanScrapeSites (db : DB) : DB :=
  MkDB (workspaces db) (filter (fun kv => has_subscribers db kv.1 = true) (sites db)) (next_site db) (subscriptions db) (source_tags db) (proxy_tags db).

(** ** New sources that cannot be queued *)

Definition scrapeSiteIDsToIntSlice (ids : list Z) : list Z := dedup_go [] (List.filter (fun id => negb (id =? 0)) ids).

(** What becomes of [AddToQueue]: it passes over sources that are blocked by
    now, or fails when only a part of its commands has taken effect; and of
    [RemoveFromQueue]. *)
Inductive enqueue_outcome := Enqueued (passed_over : list Z) | EnqueueFailed (put : list Z).
Inductive dequeue_outcome := Dequeued | DequeueFailed (taken : list Z).

Definition put_in (ids : list Z) (queue : gset Z) : gset Z := queue ∪ list_to_set ids.

(** [rollbackScrapeSiteEnqueue]: whether it succeeded, the queued sources and the rows. *)
Definition rollbackScrapeSiteEnqueue (outcome : nat -> chunk_outcome) (found : bool) (removed : dequeue_outcome) (cleaned : bool) (userID : Z) (sites : list Z)
    (queue : gset Z) (db : DB) : bool * gset Z * DB :=
  match scrapeSiteIDsToIntSlice sites with
  | [] => (true, queue, db)
  | ids =>
      match DeleteScrapeSiteRelation outcome found userID ids db with
      | (Err _, db) => (false, queue, db)
      | (Ok [], db) => (true, queue, db)
      | (Ok orphans, db) =>
          let '(ok, queue) :=
            match removed with
            | Dequeued => (true, queue ∖ list_to_set orphans)
            | DequeueFailed taken => (false, queue ∖ list_to_set (List.filter (fun i => bool_decide (i ∈ taken)) orphans))
            end in
          (ok && cleaned, queue, if cleaned then DeleteOrphanScrapeSites db else db)
      end
  end.

(** [enqueueScrapeSitesOrRollback]: nothing when the sources are queued, else
    whether the rollback succeeded. *)
Definition enqueueScrapeSitesOrRollback (enqueued : enqueue_outcome) (outcome : nat -> chunk_outcome) (found : bool) (removed : dequeue_outcome) (cleaned : bool)
    (userID : Z) (sites : list Z) (queue : gset Z) (db : DB) : option bool * gset Z * DB :=
  match sites with
  | [] => (None, queue, db)
  | _ =>
      match enqueued with
      | Enqueued passed_over => (None, put_in (List.filter (fun i => negb (bool_decide (i ∈ passed_over))) sites) queue, db)
      | EnqueueFailed put =>
          let queue := put_in (List.filter (fun i => bool_decide (i ∈ put)) sites) queue in
          let '(done, queue, db) := rollbackScrapeSiteEnqueue outcome found removed cleaned userID sites queue db in (Some done, queue, db)
      end
  end.

(** ** Results *)

Definition clear_results (mode : string) : Subscription := MkSub mode None "" "" 0.

(** [UpdateScrapeSourceSettings]: missing settings are not touched. *)
Definition UpdateScrapeSourceSettings (workspaceID siteID : Z) (mode : option string) (autoTagIDs : option (list Z)) (db : DB) : res source_error (bool * DB) :=
  match mode, autoTagIDs with
  | None, None => Err NoSettings
  | _, _ =>
      if match mode with Some m => negb (ValidScrapeFetchMode m) | None => false end then Err InvalidFetchMode
      else
        match subscriptions db !! (workspaceID, siteID) with
        | None => Ok (false, db)
        | Some source =>
            let? tags :=
              match autoTagIDs with
              | None => Ok (source_tags db)
              | Some ids =>
                  if negb (forallb (fun id => negb (id =? 0)) ids) then Err TagNotFound
                  else if negb (validateScrapeSourceTags db workspaceID (CheckerPlans.normalize_ids ids)) then Err TagNotFound
                  else Ok (createScrapeSourceTags workspaceID [siteID] (CheckerPlans.normalize_ids ids)
                             (filter (fun r => ~ (r.1.1 = workspaceID /\ r.1.2 = siteID)) (source_tags db)))
              end in
            let subs :=
              match mode with
              | Some m => if String.eqb (FetchMode source) m then subscriptions db else <[(workspaceID, siteID) := clear_results m]> (subscriptions db)
              | None => subscriptions db
              end in
            Ok (true, with_subs subs tags db)
        end
  end.

(** [UpdateScrapeSourceFetchMode] clears the results even if the mode stays. *)
Definition UpdateScrapeSourceFetchMode (workspaceID siteID : Z) (mode : string) (db : DB) : res source_error (bool * DB) :=
  if negb (ValidScrapeFetchMode mode) then Err InvalidFetchMode
  else
    match subscriptions db !! (workspaceID, siteID) with
    | None => Ok (false, db)
    | Some _ => Ok (true, with_subs (<[(workspaceID, siteID) := clear_results mode]> (subscriptions db)) (source_tags db) db)
    end.

(** A result of fetching a source in a mode. *)
Record scrape_result := MkResult { r_mode : string; r_status : string; scrapeErr : option string; r_count : Z; attemptedAt : Z }.

(** The first [n] runes of a valid text: a rune's later bytes are 10xxxxxx. *)
Fixpoint take_runes (n : nat) (s : string) : string :=
  match s with
  | EmptyString => EmptyString
  | String c rest =>
      if (128 <=? code c) && (code c <? 192) then String c (take_runes n rest)
      else match n with O => EmptyString | S n => String c (take_runes n rest) end
  end.

Definition error_message (scrapeErr : option string) : string :=
  match scrapeErr with
  | None => ""
  | Some message => if 2000 <? Z.of_nat (slen message) then take_runes 500 message else message
  end.

(** The [WHERE] and [SET] of [RecordScrapeResult] on one row. *)
Definition record_row (r : scrape_result) (sub : Subscription) : Subscription :=
  if String.eqb (FetchMode sub) (r_mode r) && match LastScrapedAt sub with None => true | Some t => t <=? attemptedAt r end
  then MkSub (FetchMode sub) (Some (attemptedAt r)) (r_status r) (error_message (scrapeErr r)) (r_count r)
  else sub.

Definition RecordScrapeResult (siteID : Z) (workspaceIDs : list Z) (r : scrape_result) (db : DB) : DB :=
  match workspaceIDs with
  | [] => db
  | _ => with_subs (map_imap (fun k sub => Some (if (k.2 =? siteID) && bool_decide (k.1 ∈ workspaceIDs) then record_row r sub else sub)) (subscriptions db)) (source_tags db) db
  end.

(** ** The worker *)

Definition browserRetryDelay : Z := 30 * Second.

Definition UnixMilli (t : Z) : Z := t / Millisecond.

(** What a request answers: a page that could be handed on or not, no browser
    for now, or an error; an error may carry a deadline of the provider. *)
Inductive fetch := Page (handed : bool) | NoBrowser (retryAfter : option Z) | Failed (message : string) (retryAfter : option Z).

(** What the worker meets in one mode: the clock at its readings, the request's
    answer, and whether it has been told to stop. *)
Record attempt := MkAttempt { looked_at : Z; started_at : Z; answered_at : Z; answer : fetch; stopped : bool }.

(** The source was left in the queue with a schedule, or taken out of it. *)
Inductive scraped := Rescheduled (s : ScrapeSchedule) | TakenOut.

(** A fetch in a mode for some workspaces, and a recorded result. *)
Record effects := MkEffects { fetched : list string; handed_on : list (string * list Z); recorded : list (string * list Z * string) }.

Definition set_mode (mode : string) (next : Z) (reason : string) (s : ScrapeSchedule) : ScrapeSchedule :=
  MkSchedule (<[mode := MkMode next reason]> (Modes s)) (RetryAfterMS s) (DeferredUntilMS s) (DeferredReason s).

Definition note_retry (retryAfter : option Z) (s : ScrapeSchedule) : ScrapeSchedule :=
  match retryAfter with Some t => SiteQueue.with_retry (Z.max (RetryAfterMS s) (UnixMilli t)) s | None => s end.

Section Worker.
Context (interval : Z) (robotsBlocked : bool) (subs : list (Z * string)) (attempts : string -> attempt).

Definition group_of (mode : string) : list Z := map fst (List.filter (fun x => String.eqb x.2 mode) subs).

(** One pass of the loop over the modes; [true] leaves the loop. *)
Definition scrape_mode (mode : string) (s : ScrapeSchedule) (e : effects) : ScrapeSchedule * effects * bool :=
  let a := attempts mode in
  if UnixMilli (looked_at a) <? match Modes s !! mode with Some m => NextAttemptMS m | None => 0 end then (s, e, false)
  else
    match group_of mode with
    | [] => (s, e, false)
    | group =>
        let next := UnixMilli (answered_at a + interval) in
        if robotsBlocked then (set_mode mode next "" s, MkEffects (fetched e) (handed_on e) (recorded e ++ [(mode, group, "blocked")]), false)
        else
          let e := MkEffects (fetched e ++ [mode]) (handed_on e) (recorded e) in
          match answer a with
          | Page handed =>
              if handed then (set_mode mode next "" s, MkEffects (fetched e) (handed_on e ++ [(mode, group)]) (recorded e), false) else (s, e, true)
          | NoBrowser retryAfter =>
              (set_mode mode (UnixMilli (answered_at a + Z.min browserRetryDelay interval)) "Waiting for browser capacity or availability" (note_retry retryAfter s), e, false)
          | Failed message retryAfter =>
              let s := note_retry retryAfter s in
              if stopped a then (s, e, true)
              else (set_mode mode next "" s, MkEffects (fetched e) (handed_on e) (recorded e ++ [(mode, group, "error")]),
                    UnixMilli (answered_at a) <? RetryAfterMS s)
          end
    end.

Fixpoint scrape_modes (modes : list string) (s : ScrapeSchedule) (e : effects) : ScrapeSchedule * effects :=
  match modes with
  | [] => (s, e)
  | mode :: rest => let '(s, e, leave) := scrape_mode mode s e in if leave then (s, e) else scrape_modes rest s e
  end.

Definition requested (mode : string) : bool := existsb (fun x => String.eqb x.2 mode) subs.

(** Modes nobody asks for any more are dropped before, and those without a
    schedule are due from the start after. *)
Definition drop_unrequested (s : ScrapeSchedule) : ScrapeSchedule :=
  MkSchedule (filter (fun kv => requested kv.1 = true) (Modes s)) (RetryAfterMS s) 0 "".

Definition add_requested (s : ScrapeSchedule) : ScrapeSchedule :=
  MkSchedule (fold_left (fun m x => match m !! x.2 with Some _ => m | None => <[x.2 := MkMode 0 ""]> m end) subs (Modes s)) (RetryAfterMS s) (DeferredUntilMS s) (DeferredReason s).

End Worker.

Definition scrapeSite (blocked : bool) (now : Z) (interval : Z) (robotsBlocked : bool) (lookup : option (list (Z * string))) (attempts : string -> attempt)
    (s : ScrapeSchedule) : scraped * effects :=
  let nothing := MkEffects [] [] [] in
  if UnixMilli now <? RetryAfterMS s then (Rescheduled s, nothing)
  else
    match lookup with
    | None => (Rescheduled (MkSchedule (Modes s) (RetryAfterMS s) (UnixMilli (now + Z.min browserRetryDelay interval)) "Waiting for source settings to become available"), nothing)
    | Some subs =>
        if bool_decide (subs = []) || blocked then (TakenOut, nothing)
        else
          let '(s, e) := scrape_modes interval robotsBlocked subs attempts ["http"; "browser"] (drop_unrequested subs s) nothing in
          (Rescheduled (add_requested subs s), e)
    end.

(** ** Saving sources *)

(** Rows that fit together: unique URLs, identifiers below the next one, and
    no subscription without a source or tag rule without a subscription. *)
Record wf (db : DB) : Prop := MkWf {
  wf_unique : forall i j u, sites db !! i = Some u -> sites db !! j = Some u -> i = j;
  wf_ids : forall i u, sites db !! i = Some u -> 0 < i < next_site db;
  wf_subs : forall w i, is_Some (subscriptions db !! (w, i)) -> is_Some (sites db !! i);
  wf_tags : forall w i t, (w, i, t) ∈ source_tags db -> is_Some (subscriptions db !! (w, i))
}.

(** The part of it the sources alone have. *)
Definition wf_sites (db : DB) : Prop :=
  (forall i j u, sites db !! i = Some u -> sites db !! j = Some u -> i = j) /\ (forall i u, sites db !! i = Some u -> 0 < i < next_site db) /\ 0 < next_site db.

Lemma site_of_spec url db :
  match site_of url db with Some id => sites db !! id = Some url | None => forall id, sites db !! id <> Some url end.
Proof.
  unfold site_of. destruct (first_match _ _) as [id|] eqn:E.
  - apply first_match_Some in E as ([i u] & Hin & Hx). apply elem_of_map_to_list in Hin. simpl in Hx. destruct (String.eqb u url) eqn:Eu; [|done].
    apply String.eqb_eq in Eu as ->. injection Hx as <-. done.
  - intros id Hid. apply elem_of_map_to_list in Hid. apply first_match_None in E. pose proof (proj1 (Forall_forall _ _) E (id, url) Hid) as Hx. simpl in Hx. by rewrite String.eqb_refl in Hx.
Qed.

Lemma first_or_create_spec url db id db' :
  wf_sites db -> first_or_create url db = (id, db') ->
  wf_sites db' /\ sites db' !! id = Some url /\ (forall i u, sites db !! i = Some u -> sites db' !! i = Some u) /\
  (forall i u, sites db' !! i = Some u -> sites db !! i = Some u \/ i = id) /\
  subscriptions db' = subscriptions db /\ source_tags db' = source_tags db /\ workspaces db' = workspaces db /\ proxy_tags db' = proxy_tags db.
Proof.
  intros (Hu & Hi & Hn) H. unfold first_or_create in H. pose proof (site_of_spec url db) as Hs. destruct (site_of url db) as [i|]; injection H as <- <-; [split; [done|]; split; [done|]; split; [done|]; split; [by left|done]|].
  assert (sites db !! next_site db = None) as Hfresh by (destruct (sites db !! next_site db) as [u|] eqn:E; [apply Hi in E; lia|done]).
  assert (forall i u, <[next_site db := url]> (sites db) !! i = Some u -> i = next_site db /\ u = url \/ sites db !! i = Some u) as Hcases.
  { intros i u. rewrite lookup_insert. case_decide as Hd; [intros [= <-]; by left|by right]. }
  split; [split_and!; cbn [sites next_site]|split_and!; cbn [sites subscriptions source_tags workspaces proxy_tags]; [| | |done..]].
  - intros i j u Hi1 Hj1. apply Hcases in Hi1 as [[-> ->]|Hi1], Hj1 as [[-> Hj1]|Hj1]; subst; [done|by apply Hs in Hj1|by apply Hs in Hi1|by apply (Hu i j u)].
  - intros i u Hx. apply Hcases in Hx as [[-> ->]|Hx]; [lia|apply Hi in Hx; lia].
  - lia.
  - by rewrite lookup_insert_eq.
  - intros i u Hx. rewrite lookup_insert_ne; [done|]. intros <-. congruence.
  - intros i u Hx. apply Hcases in Hx as [[-> _]|Hx]; [by right|by left].
Qed.

Section SaveFacts.
Context (IsValidURL IsWebsiteBlocked : string -> bool).

(** A source worth subscribing to. *)
Definition acceptable (url : string) : Prop := url <> "" /\ IsValidURL url = true /\ IsWebsiteBlocked url = false.

Record saved (existing : string -> bool) (seen sources : list string) (db : DB) (ids : list Z) (db' : DB) : Prop := MkSaved {
  saved_sites : wf_sites db';
  saved_nodup : NoDup ids;
  saved_keeps : forall i u, sites db !! i = Some u -> sites db' !! i = Some u;
  saved_new : forall i u, sites db' !! i = Some u -> sites db !! i = Some u \/ i ∈ ids;
  saved_sound : forall i, i ∈ ids -> exists u, sites db' !! i = Some u /\ acceptable u /\ existing u = false /\ u ∉ seen /\ u ∈ map trim_space sources;
  saved_complete : forall u, u ∈ map trim_space sources -> acceptable u -> existing u = false -> u ∉ seen -> exists i, i ∈ ids /\ sites db' !! i = Some u;
  saved_rest : subscriptions db' = subscriptions db /\ source_tags db' = source_tags db /\ workspaces db' = workspaces db /\ proxy_tags db' = proxy_tags db
}.

Lemma save_loop_spec existing seen sources db ids db' :
  wf_sites db -> save_loop IsValidURL IsWebsiteBlocked existing seen sources db = (ids, db') -> saved existing seen sources db ids db'.
Proof.
  revert seen db ids db'. induction sources as [|raw rest IH]; intros seen db ids db' Hwf H; simpl in H.
  { injection H as <- <-. split; [done|constructor|done|by left|set_solver|set_solver|done]. }
  destruct (String.eqb (trim_space raw) "" || negb (IsValidURL (trim_space raw)) || IsWebsiteBlocked (trim_space raw) || existing (trim_space raw) || bool_decide (trim_space raw ∈ seen)) eqn:Eskip.
  - apply IH in H as [H1 H2 H3 H4 H5 H6 H7]; [|done]. split; [done..| | |done].
    + intros i Hi. destruct (H5 i Hi) as (u & ? & ? & ? & ? & ?). exists u. split_and!; [done..|]. simpl. by right.
    + intros u Hu Hacc He Hs. simpl in Hu. apply elem_of_cons in Hu as [->|Hu]; [|by apply H6]. exfalso. destruct Hacc as (Ha & Hb & Hc).
      apply String.eqb_neq in Ha. rewrite Ha, Hb, Hc, He, bool_decide_eq_false_2 in Eskip by done. done.
  - apply orb_false_iff in Eskip as [Eskip Eseen]. apply orb_false_iff in Eskip as [Eskip Eexist]. apply orb_false_iff in Eskip as [Eskip Eblocked].
    apply orb_false_iff in Eskip as [Eempty Evalid]. apply bool_decide_eq_false in Eseen. apply negb_false_iff in Evalid. apply String.eqb_neq in Eempty.
    destruct (first_or_create (trim_space raw) db) as [id db1] eqn:E1. destruct (save_loop _ _ existing (trim_space raw :: seen) rest db1) as [ids2 db2] eqn:E2. injection H as <- <-.
    destruct (first_or_create_spec _ _ _ _ Hwf E1) as (Hwf1 & Hid & Hk1 & Hn1 & Hs1 & Ht1 & Hw1 & Hp1). apply IH in E2 as [H1 H2 H3 H4 H5 H6 (H71 & H72 & H73 & H74)]; [|done].
    split.
    + done.
    + apply NoDup_cons. split; [|done]. intros Hin. destruct (H5 id Hin) as (u & Hu & _ & _ & Hns & _). apply H3 in Hid. rewrite Hid in Hu. injection Hu as <-. set_solver.
    + intros i u Hx. by apply H3, Hk1.
    + intros i u Hx. apply H4 in Hx as [Hx|Hx]; [|right; by constructor]. apply Hn1 in Hx as [Hx| ->]; [by left|right; constructor].
    + intros i [->|Hi]%elem_of_cons.
      * exists (trim_space raw). split_and!; [by apply H3|done|done|done|]. simpl. constructor.
      * destruct (H5 i Hi) as (u & Hu & Hacc & He & Hns & Hin). exists u. split_and!; [done|done|done|set_solver|simpl; by right].
    + intros u Hu Hacc He Hns. simpl in Hu. destruct (decide (u = trim_space raw)) as [->|Hne]; [exists id; split; [constructor|by apply H3]|].
      apply elem_of_cons in Hu as [->|Hu]; [done|]. destruct (H6 u Hu Hacc He ltac:(set_solver)) as (i & Hi & Hx). exists i. split; [by constructor|done].
    + by rewrite H71, H72, H73, H74.
Qed.

End SaveFacts.

Lemma subscribe_all workspaceID mode ids m k :
  fold_left (subscribe workspaceID mode) ids m !! k =
  match m !! k with Some s => Some s | None => if bool_decide (k.1 = workspaceID /\ k.2 ∈ ids) then Some (new_subscription mode) else None end.
Proof.
  revert m. induction ids as [|id ids IH]; intros m; cbn [fold_left].
  - rewrite bool_decide_eq_false_2 by set_solver. by destruct (m !! k).
  - rewrite IH. unfold subscribe. destruct (m !! (workspaceID, id)) as [x|] eqn:E.
    + destruct (m !! k) as [y|] eqn:Ek; [done|]. destruct k as [w i]. simpl. destruct (decide (w = workspaceID /\ i ∈ ids)) as [H|H].
      * by rewrite !bool_decide_eq_true_2 by (split; [apply H|]; set_solver).
      * rewrite (bool_decide_eq_false_2 (w = workspaceID /\ i ∈ ids)) by done. rewrite bool_decide_eq_false_2; [done|]. intros [-> Hi]. apply elem_of_cons in Hi as [->|Hi]; [congruence|naive_solver].
    + destruct (decide (k = (workspaceID, id))) as [->|Hne].
      * rewrite lookup_insert_eq, E. simpl. by rewrite bool_decide_eq_true_2 by set_solver.
      * rewrite lookup_insert_ne by done. destruct (m !! k) as [y|]; [done|]. destruct k as [w i]. simpl. apply (f_equal (fun b : bool => if b then Some (new_subscription mode) else None)).
        apply bool_decide_ext. rewrite elem_of_cons. split; [naive_solver|]. intros [-> [->|Hi]]; [done|done].
Qed.

Lemma subscribed_url_spec db workspaceID url :
  subscribed_url db workspaceID url = true <-> exists i, sites db !! i = Some url /\ is_Some (subscriptions db !! (workspaceID, i)).
Proof.
  unfold subscribed_url. rewrite existsb_exists. split.
  - intros ([i u] & Hin & [Hu Hs]%andb_true_iff). apply list_elem_of_In, elem_of_map_to_list in Hin. apply String.eqb_eq in Hu. simpl in *. subst. apply bool_decide_eq_true in Hs. by exists i.
  - intros (i & Hi & Hs). exists (i, url). split; [apply list_elem_of_In; by apply elem_of_map_to_list|]. simpl. rewrite String.eqb_refl. by rewrite bool_decide_eq_true_2.
Qed.

Lemma has_subscribers_spec db id : has_subscribers db id = true <-> exists w, is_Some (subscriptions db !! (w, id)).
Proof.
  unfold has_subscribers. rewrite existsb_exists. split.
  - intros ([[w i] sub] & Hin & Hi). apply list_elem_of_In, elem_of_map_to_list in Hin. simpl in Hi. apply Z.eqb_eq in Hi as ->. exists w. by eexists.
  - intros (w & sub & Hsub). exists ((w, id), sub). split; [apply list_elem_of_In; by apply elem_of_map_to_list|]. apply Z.eqb_refl.
Qed.

(** ** Taking subscriptions back *)

(** The rows without the subscriptions of a workspace to some sources. *)
Record without (workspaceID : Z) (ids : list Z) (db db' : DB) : Prop := MkWithout {
  without_sites : sites db' = sites db;
  without_next : next_site db' = next_site db;
  without_rest : workspaces db' = workspaces db /\ proxy_tags db' = proxy_tags db;
  without_subs : forall w i, subscriptions db' !! (w, i) = if bool_decide (w = workspaceID /\ i ∈ ids) then None else subscriptions db !! (w, i);
  without_tags : forall w i t, (w, i, t) ∈ source_tags db' <-> (w, i, t) ∈ source_tags db /\ ~ (w = workspaceID /\ i ∈ ids)
}.

Lemma unsubscribe_without workspaceID ids db : without workspaceID ids db (unsubscribe workspaceID ids db).
Proof.
  split; [done|done|done| |].
  - intros w i. unfold unsubscribe. simpl. rewrite map_lookup_filter. destruct (subscriptions db !! (w, i)) as [x|]; simpl; [|by destruct (bool_decide _)].
    destruct (decide (w = workspaceID /\ i ∈ ids)) as [H|H].
    + rewrite bool_decide_eq_true_2 by done. rewrite option_guard_False; [done|]. simpl. naive_solver.
    + rewrite bool_decide_eq_false_2 by done. by rewrite option_guard_True.
  - intros w i t. unfold unsubscribe. simpl. rewrite elem_of_filter. simpl. naive_solver.
Qed.

Lemma without_none workspaceID db : without workspaceID [] db db.
Proof. split; [done|done|done| |]; [intros w i; by rewrite bool_decide_eq_false_2 by set_solver|set_solver]. Qed.

Lemma without_app workspaceID a b db db1 db2 : without workspaceID a db db1 -> without workspaceID b db1 db2 -> without workspaceID (a ++ b) db db2.
Proof.
  intros [S1 N1 [W1 P1] U1 T1] [S2 N2 [W2 P2] U2 T2]. split; [congruence|congruence|split; congruence| |].
  - intros w i. rewrite U2, U1. destruct (decide (w = workspaceID /\ i ∈ a)) as [Ha|Ha], (decide (w = workspaceID /\ i ∈ b)) as [Hb|Hb].
    + by rewrite (bool_decide_eq_true_2 (w = workspaceID /\ i ∈ b)), (bool_decide_eq_true_2 (w = workspaceID /\ i ∈ a ++ b)) by set_solver.
    + by rewrite (bool_decide_eq_false_2 (w = workspaceID /\ i ∈ b)), (bool_decide_eq_true_2 (w = workspaceID /\ i ∈ a)), (bool_decide_eq_true_2 (w = workspaceID /\ i ∈ a ++ b)) by set_solver.
    + by rewrite (bool_decide_eq_true_2 (w = workspaceID /\ i ∈ b)), (bool_decide_eq_true_2 (w = workspaceID /\ i ∈ a ++ b)) by set_solver.
    + by rewrite (bool_decide_eq_false_2 (w = workspaceID /\ i ∈ b)), (bool_decide_eq_false_2 (w = workspaceID /\ i ∈ a)), (bool_decide_eq_false_2 (w = workspaceID /\ i ∈ a ++ b)) by set_solver.
  - intros w i t. rewrite T2, T1, elem_of_app. naive_solver.
Qed.

Lemma without_has workspaceID ids db db' i : without workspaceID ids db db' -> has_subscribers db' i = true -> has_subscribers db i = true.
Proof.
  intros [_ _ _ U _] H. apply has_subscribers_spec in H as (w & x & Hx). apply has_subscribers_spec. exists w, x. rewrite U in Hx. by destruct (bool_decide _).
Qed.

(** Nobody else's subscription is touched. *)
Lemma without_others workspaceID ids db db' i w : without workspaceID ids db db' -> w <> workspaceID -> subscriptions db' !! (w, i) = subscriptions db !! (w, i).
Proof. intros [_ _ _ U _] Hw. by rewrite U, bool_decide_eq_false_2 by naive_solver. Qed.

Lemma delete_chunks_done n workspaceID chunks acc db :
  exists orphans db', delete_chunks (fun _ => ChunkDone) n workspaceID chunks acc db = (Ok orphans, db') /\ without workspaceID (concat chunks) db db' /\
    (forall i, i ∈ acc -> i ∈ orphans) /\
    (forall i, i ∈ orphans -> i ∈ acc \/ i ∈ concat chunks /\ has_subscribers db' i = false) /\
    (forall i, i ∈ concat chunks -> has_subscribers db' i = false -> i ∈ orphans).
Proof.
  revert n acc db. induction chunks as [|chunk rest IH]; intros n acc db; cbn [delete_chunks concat].
  { exists acc, db. split; [done|]. split; [|naive_solver set_solver]. split; [done|done|done| |]; [intros w i; by rewrite bool_decide_eq_false_2 by set_solver|set_solver]. }
  set (db1 := unsubscribe workspaceID chunk db). pose proof (unsubscribe_without workspaceID chunk db) as H1. fold db1 in H1.
  set (acc1 := acc ++ _). destruct (IH (S n) acc1 db1) as (orphans & db2 & E & H2 & Ha & Hs & Hc). rewrite E. exists orphans, db2. split; [done|].
  assert (forall i, i ∈ collectOrphanScrapeSiteIDs chunk db1 <-> i ∈ chunk /\ has_subscribers db1 i = false) as Horph.
  { intros i. unfold collectOrphanScrapeSiteIDs. rewrite elem_of_dedup_go, list_elem_of_In, filter_In, negb_true_iff, <- list_elem_of_In. set_solver. }
  assert (forall i, i ∈ acc1 <-> i ∈ acc \/ i ∈ chunk /\ has_subscribers db1 i = false) as Hacc1.
  { intros i. unfold acc1. rewrite elem_of_app. rewrite (list_elem_of_In (List.filter _ _) i), filter_In, negb_true_iff, bool_decide_eq_false, <- list_elem_of_In, Horph.
    destruct (decide (i ∈ acc)); naive_solver. }
  split; [by eapply without_app|]. split; [intros i Hi; apply Ha, Hacc1; by left|]. split.
  - intros i Hi. destruct (Hs i Hi) as [Hi1|[Hi1 Hn]]; [|right; split; [set_solver|done]]. apply Hacc1 in Hi1 as [Hi1|[Hi1 Hn]]; [by left|]. right. split; [set_solver|].
    destruct (has_subscribers db2 i) eqn:E2; [|done]. apply (without_has _ _ _ _ _ H2) in E2. congruence.
  - intros i Hi Hn. apply elem_of_app in Hi as [Hi|Hi]; [|by apply Hc]. apply Ha, Hacc1. right. split; [done|].
    destruct (has_subscribers db1 i) eqn:E1; [|done]. exfalso. apply has_subscribers_spec in E1 as (w & x & Hx).
    destruct (decide (w = workspaceID)) as [->|Hw].
    + rewrite (without_subs _ _ _ _ H1), bool_decide_eq_true_2 in Hx by done. done.
    + assert (has_subscribers db2 i = true) as H by (apply has_subscribers_spec; exists w, x; by rewrite (without_others _ _ _ _ i w H2 Hw)). congruence.
Qed.

Lemma chunk_size_positive : (0 < CheckerPlans.deleteChunkSize)%nat.
Proof. apply (Z2Nat.inj_lt 0 5000); [done|done|reflexivity]. Qed.

Lemma delete_relation_done workspaceID ids db :
  exists orphans db', DeleteScrapeSiteRelation (fun _ => ChunkDone) true workspaceID ids db = (Ok orphans, db') /\ without workspaceID ids db db' /\
    forall i, i ∈ orphans <-> i ∈ ids /\ has_subscribers db' i = false /\ is_Some (sites db !! i).
Proof.
  unfold DeleteScrapeSiteRelation. destruct ids as [|x ids].
  { exists [], db. split; [done|]. split; [|set_solver]. split; [done|done|done| |]; [intros w i; by rewrite bool_decide_eq_false_2 by set_solver|set_solver]. }
  destruct (delete_chunks_done 0 workspaceID (batches CheckerPlans.deleteChunkSize (x :: ids)) [] db) as (orphans & db' & E & H & _ & Hs & Hc).
  rewrite concat_batches in H, Hs, Hc by exact chunk_size_positive. revert E H Hs Hc. generalize (batches CheckerPlans.deleteChunkSize (x :: ids)). intros chunks E H Hs Hc. rewrite E.
  assert (forall i, i ∈ orphans <-> i ∈ x :: ids /\ has_subscribers db' i = false) as Ho by (intros i; split; [intros Hi; apply Hs in Hi as [Hi|Hi]; [set_solver|done]|intros [H1 H2]; by apply Hc]).
  destruct orphans as [|o more] eqn:Eo.
  - exists [], db'. split; [done|]. split; [done|]. intros i. split; [set_solver|]. intros (H1 & H2 & _). by apply Ho.
  - rewrite <- Eo in *. exists (List.filter (fun id => bool_decide (is_Some (sites db' !! id))) orphans), db'. split; [done|]. split; [done|].
    intros i. rewrite list_elem_of_In, filter_In, bool_decide_eq_true, <- list_elem_of_In, Ho, (without_sites _ _ _ _ H). tauto.
Qed.

(** ** New sources are queued or forgotten *)

Section AllOrNothing.
Context (IsValidURL IsWebsiteBlocked : string -> bool).

(** What saving does to the rows. *)
Record save_outcome (userID : Z) (sources : list string) (mode : string) (tagIDs : list Z) (db : DB) (ids : list Z) (db' : DB) : Prop := MkOutcome {
  so_wf : wf db';
  so_new : forall i, i ∈ ids -> subscriptions db !! (userID, i) = None;
  so_subs : forall w i, subscriptions db' !! (w, i) = if bool_decide (w = userID /\ i ∈ ids) then Some (new_subscription mode) else subscriptions db !! (w, i);
  so_tags : forall w i t, (w, i, t) ∈ source_tags db' <-> (w, i, t) ∈ source_tags db \/ w = userID /\ i ∈ ids /\ t ∈ tagIDs;
  so_sites : forall i u, sites db !! i = Some u -> sites db' !! i = Some u;
  so_new_sites : forall i u, sites db' !! i = Some u -> sites db !! i = Some u \/ i ∈ ids;
  so_urls : forall u, subscribed_url db' userID u = true <->
    subscribed_url db userID u = true \/ u ∈ map trim_space sources /\ acceptable IsValidURL IsWebsiteBlocked u
}.

Lemma normalized_tags tagIDs t : forallb (fun id => negb (id =? 0)) tagIDs = true -> t ∈ CheckerPlans.normalize_ids tagIDs <-> t ∈ tagIDs.
Proof.
  intros H. unfold CheckerPlans.normalize_ids. rewrite (merge_sort_Permutation (rel_of Z.leb)), elem_of_dedup_go. rewrite forallb_forall in H.
  rewrite list_elem_of_In, filter_In, <- list_elem_of_In. split; [tauto|]. intros Ht. split; [|set_solver]. split; [done|]. apply H. by apply list_elem_of_In.
Qed.

Lemma save_spec userID sources mode tagIDs db ids db' :
  wf db -> 0 < next_site db -> SaveScrapingSourcesWithSettings IsValidURL IsWebsiteBlocked userID sources mode tagIDs db = Ok (ids, db') ->
  save_outcome userID sources mode tagIDs db ids db'.
Proof.
  intros [Wu Wi Ws Wt] Hnext H. unfold SaveScrapingSourcesWithSettings in H. destruct (negb (ValidScrapeFetchMode mode)); [done|].
  destruct (negb (forallb (fun id => negb (id =? 0)) tagIDs)) eqn:E0; [done|]. apply negb_false_iff in E0. destruct (negb (validateScrapeSourceTags _ _ _)); [done|].
  destruct (negb (bool_decide (userID ∈ workspaces db))); [done|]. destruct (save_loop _ _ _ [] sources db) as [ids1 db1] eqn:E. injection H as <- <-.
  destruct (save_loop_spec _ _ _ _ _ _ _ _ (conj Wu (conj Wi Hnext)) E) as [(Su & Si & Sn) Hnd Hk Hnew Hsound Hcomplete (Hsubs & Htags & _ & _)].
  assert (forall i, i ∈ ids1 -> subscriptions db !! (userID, i) = None) as Hfresh.
  { intros i Hi. destruct (subscriptions db !! (userID, i)) as [x|] eqn:Ex; [exfalso|done]. destruct (Ws userID i) as [u' Hu']; [by rewrite Ex|].
    destruct (Hsound i Hi) as (u & Hu & _ & He & _). apply Hk in Hu' as Hu2. rewrite Hu in Hu2. injection Hu2 as ->.
    assert (subscribed_url db userID u' = true) as Hs by (apply subscribed_url_spec; exists i; split; [done|by rewrite Ex]). congruence. }
  assert (forall w i, fold_left (subscribe userID mode) ids1 (subscriptions db1) !! (w, i) =
    if bool_decide (w = userID /\ i ∈ ids1) then Some (new_subscription mode) else subscriptions db !! (w, i)) as Hall.
  { intros w i. rewrite subscribe_all, Hsubs. simpl. destruct (bool_decide (w = userID /\ i ∈ ids1)) eqn:Eb; [|by destruct (subscriptions db !! (w, i))].
    apply bool_decide_eq_true in Eb as [-> Hi]. by rewrite (Hfresh i Hi). }
  assert (forall w i t, (w, i, t) ∈ createScrapeSourceTags userID ids1 (CheckerPlans.normalize_ids tagIDs) (source_tags db1) <->
    (w, i, t) ∈ source_tags db \/ w = userID /\ i ∈ ids1 /\ t ∈ tagIDs) as Hrules.
  { intros w i t. unfold createScrapeSourceTags. rewrite elem_of_union, elem_of_list_to_set, list_elem_of_bind, Htags. split.
    - intros [(site & Hin & Hsite)|H]; [|by left]. apply list_elem_of_fmap in Hin as (tag & [= -> -> ->] & Htag). right. by rewrite <- (normalized_tags tagIDs tag E0).
    - intros [H|(-> & Hi & Ht)]; [by right|]. left. exists i. split; [|done]. apply list_elem_of_fmap. exists t. split; [done|]. by apply normalized_tags. }
  split; cbn [sites subscriptions source_tags next_site with_subs]; [|done|done|done|done|done|].
  - split; cbn [sites subscriptions source_tags next_site with_subs]; [done|done| |].
    + intros w i Hx. rewrite Hall in Hx. destruct (bool_decide (w = userID /\ i ∈ ids1)) eqn:Eb.
      * apply bool_decide_eq_true in Eb as [_ Hi]. destruct (Hsound i Hi) as (u & Hu & _). by exists u.
      * destruct (Ws w i Hx) as [u Hu]. exists u. by apply Hk.
    + intros w i t Hx. rewrite Hall. destruct (bool_decide (w = userID /\ i ∈ ids1)) eqn:Eb; [by eexists|]. apply bool_decide_eq_false in Eb. apply Hrules in Hx as [Hx|Hx]; [by apply (Wt w i t)|naive_solver].
  - intros u. rewrite !subscribed_url_spec. cbn [sites subscriptions with_subs]. split.
    + intros (i & Hi & Hx). rewrite Hall in Hx. destruct (bool_decide (userID = userID /\ i ∈ ids1)) eqn:Eb.
      * apply bool_decide_eq_true in Eb as [_ Hin]. destruct (Hsound i Hin) as (u' & Hu' & Hacc & _ & _ & Hs). right. rewrite Hi in Hu'. injection Hu' as <-. done.
      * left. destruct (Ws userID i Hx) as [u' Hu']. exists i. split; [|done]. apply Hk in Hu' as Hu2. rewrite Hi in Hu2. by injection Hu2 as ->.
    + intros [(i & Hi & Hx)|[Hin Hacc]].
      * exists i. split; [by apply Hk|]. rewrite Hall. by destruct (bool_decide _).
      * destruct (subscribed_url db userID u) eqn:Es.
        -- apply subscribed_url_spec in Es as (i & Hi & Hx). exists i. split; [by apply Hk|]. rewrite Hall. by destruct (bool_decide _).
        -- destruct (Hcomplete u Hin Hacc Es ltac:(set_solver)) as (i & Hi & Hu). exists i. split; [done|]. rewrite Hall, bool_decide_eq_true_2 by done. by eexists.
Qed.

Lemma slice_all ids : (forall i, i ∈ ids -> 0 < i) -> forall i, i ∈ scrapeSiteIDsToIntSlice ids <-> i ∈ ids.
Proof.
  intros Hpos i. unfold scrapeSiteIDsToIntSlice. rewrite elem_of_dedup_go, list_elem_of_In, filter_In, <- list_elem_of_In.
  split; [tauto|]. intros Hi. split; [|apply not_elem_of_nil]. split; [done|]. apply negb_true_iff, Z.eqb_neq. specialize (Hpos i Hi). lia.
Qed.

(** Taking the new subscriptions back restores the rows of every workspace. *)
Lemma undone_rows userID sources mode tagIDs db ids db1 l db4 :
  wf db -> save_outcome userID sources mode tagIDs db ids db1 -> (forall i, i ∈ l <-> i ∈ ids) -> without userID l db1 db4 ->
  (forall w i, subscriptions db4 !! (w, i) = subscriptions db !! (w, i)) /\
  (forall i, has_subscribers db4 i = has_subscribers db i) /\
  source_tags db4 = source_tags db.
Proof.
  intros Hwf [Hwf1 Hnew Hsubs Htags _ _ _] Hl Hw.
  assert (forall w i, subscriptions db4 !! (w, i) = subscriptions db !! (w, i)) as Hback.
  { intros w i. rewrite (without_subs _ _ _ _ Hw), Hsubs. destruct (decide (w = userID /\ i ∈ ids)) as [[-> Hi]|Hn].
    - rewrite bool_decide_eq_true_2 by (by rewrite Hl). symmetry. by apply Hnew.
    - rewrite !bool_decide_eq_false_2; [done|done|by rewrite Hl]. }
  split; [done|]. split; [intros i; apply eq_iff_eq_true; rewrite !has_subscribers_spec; by setoid_rewrite Hback|].
  apply set_eq. intros [[w i] t]. rewrite (without_tags _ _ _ _ Hw), Htags, Hl. split; [naive_solver|]. intros Ht. split; [by left|].
  intros [-> Hi]. apply (wf_tags _ Hwf) in Ht. rewrite (Hnew i Hi) in Ht. by destruct Ht.
Qed.

(** Deletions that were answered went as without failures; others took back a part. *)
Lemma delete_chunks_outcome outcome n workspaceID chunks acc db r db' :
  delete_chunks outcome n workspaceID chunks acc db = (r, db') ->
  match r with
  | Ok _ => delete_chunks (fun _ => ChunkDone) n workspaceID chunks acc db = (r, db')
  | Err _ => (exists m, outcome m <> ChunkDone) /\ exists part, (forall i, i ∈ part -> i ∈ concat chunks) /\ without workspaceID part db db'
  end.
Proof.
  revert n acc db. induction chunks as [|chunk rest IH]; intros n acc db H; cbn [delete_chunks concat] in *; [by injection H as <- <-|].
  destruct (outcome n) eqn:E.
  - apply IH in H. destruct r as [orphans|e]; [done|]. destruct H as (Hm & part & Hin & Hw). split; [done|]. exists (chunk ++ part).
    split; [intros i; rewrite !elem_of_app; intros [?|?]; [by left|right; by apply Hin]|].
    by eapply without_app; [apply unsubscribe_without|].
  - injection H as <- <-. split; [exists n; congruence|]. exists []. split; [by intros i ?%not_elem_of_nil|]. apply without_none.
  - injection H as <- <-. split; [exists n; congruence|]. exists chunk. split; [intros i; rewrite elem_of_app; by left|]. apply unsubscribe_without.
Qed.

Lemma delete_relation_outcome outcome found workspaceID ids db r db' :
  DeleteScrapeSiteRelation outcome found workspaceID ids db = (r, db') ->
  match r with
  | Ok orphans => without workspaceID ids db db' /\
      forall i, i ∈ orphans <-> i ∈ ids /\ has_subscribers db' i = false /\ is_Some (sites db !! i)
  | Err _ => ((exists m, outcome m <> ChunkDone) \/ found = false) /\ exists part, (forall i, i ∈ part -> i ∈ ids) /\ without workspaceID part db db'
  end.
Proof.
  intros H. destruct (delete_relation_done workspaceID ids db) as (orphans & db1 & Ed & Hw & Ho).
  unfold DeleteScrapeSiteRelation in *. destruct ids as [|x ids]; [injection H as <- <-; by injection Ed as <- <-|].
  destruct (delete_chunks outcome _ _ _ _ _) as [r0 db0] eqn:E. apply delete_chunks_outcome in E. destruct r0 as [found_ids|e].
  - rewrite E in Ed. destruct found_ids as [|o more].
    + injection H as <- <-. by injection Ed as <- <-.
    + injection Ed as Eo <-. destruct found; injection H as <- <-; [by rewrite Eo|]. split; [by right|]. by exists (x :: ids).
  - injection H as <- <-. destruct E as (Hm & part & Hin & Hw'). split; [by left|]. exists part. split; [|done].
    intros i Hi. apply Hin in Hi. by rewrite concat_batches in Hi by exact chunk_size_positive.
Qed.

(** Rows after a part of the new subscriptions was taken back. *)
Lemma partly_undone userID sources mode tagIDs db ids db1 part db4 :
  wf db -> save_outcome userID sources mode tagIDs db ids db1 -> (forall i, i ∈ part -> i ∈ ids) -> without userID part db1 db4 ->
  (forall w i, subscriptions db4 !! (w, i) = subscriptions db !! (w, i) \/
     w = userID /\ i ∈ ids /\ subscriptions db4 !! (w, i) = Some (new_subscription mode)) /\
  source_tags db ⊆ source_tags db4 /\ (forall i u, sites db !! i = Some u -> sites db4 !! i = Some u).
Proof.
  intros Hwf [Hwf1 Hnew Hsubs Htags Hsites _ _] Hin Hw. split; [|split].
  - intros w i. rewrite (without_subs _ _ _ _ Hw), Hsubs. destruct (decide (w = userID /\ i ∈ part)) as [[-> Hi]|Hn].
    + left. rewrite bool_decide_eq_true_2 by done. symmetry. by apply Hnew, Hin.
    + rewrite (bool_decide_eq_false_2 (w = userID /\ i ∈ part)) by done. case_bool_decide as Hi; [right; by destruct Hi|by left].
  - intros [[w i] t] Ht. apply (without_tags _ _ _ _ Hw). split; [apply Htags; by left|]. intros [-> Hi].
    apply (wf_tags _ Hwf) in Ht. rewrite (Hnew i (Hin i Hi)) in Ht. by destruct Ht.
  - intros i u Hi. rewrite (without_sites _ _ _ _ Hw). by apply Hsites.
Qed.

(** What a rollback leaves, whichever of its statements fail. *)
Record rolled_back (userID : Z) (mode : string) (db : DB) (ids : list Z) (queue : gset Z) (restored : bool) (queue2 : gset Z) (db2 : DB) : Prop := MkRolledBack {
  (** The workspace may keep new subscriptions; nothing else changed but sources without subscribers. *)
  rb_subs : forall w i, subscriptions db2 !! (w, i) = subscriptions db !! (w, i) \/
    w = userID /\ i ∈ ids /\ subscriptions db2 !! (w, i) = Some (new_subscription mode);
  rb_tags : source_tags db ⊆ source_tags db2;
  rb_sites : forall i u, sites db !! i = Some u -> has_subscribers db i = true -> sites db2 !! i = Some u;
  rb_queue : queue2 ⊆ queue ∪ list_to_set ids /\ forall i, i ∈ queue -> has_subscribers db i = true -> i ∈ queue2;
  (** When it reports no error the new subscriptions, rules and sources are gone. *)
  rb_restored : restored = true ->
    (forall w i, subscriptions db2 !! (w, i) = subscriptions db !! (w, i)) /\ source_tags db2 = source_tags db /\
    (forall i u, sites db2 !! i = Some u -> sites db !! i = Some u) /\
    (forall i, i ∈ queue2 -> i ∈ queue \/ has_subscribers db i = true) /\
    forall i, i ∈ ids -> has_subscribers db i = false -> i ∉ queue2 /\ sites db2 !! i = None
}.

Lemma rollback_spec userID sources mode tagIDs db ids db1 (put : list Z) outcome found removed cleaned queue restored queue2 db2 :
  wf db -> save_outcome userID sources mode tagIDs db ids db1 -> ids <> [] ->
  rollbackScrapeSiteEnqueue outcome found removed cleaned userID ids (put_in (List.filter (fun i => bool_decide (i ∈ put)) ids) queue) db1 = (restored, queue2, db2) ->
  rolled_back userID mode db ids queue restored queue2 db2 /\
  ((forall n, outcome n = ChunkDone) -> found = true -> removed = Dequeued -> cleaned = true -> restored = true).
Proof.
  intros Hwf Hsaved Hne H. pose proof Hsaved as [Hwf1 Hnew Hsubs Htags Hsites Hnewsites _]. set (queue1 := put_in _ queue) in H.
  assert (queue1 ⊆ queue ∪ list_to_set ids /\ queue ⊆ queue1) as [Hq1 Hq].
  { unfold queue1, put_in. split; [|set_solver]. intros i. rewrite !elem_of_union, !elem_of_list_to_set, list_elem_of_In, filter_In, <- list_elem_of_In. tauto. }
  assert (forall i, i ∈ scrapeSiteIDsToIntSlice ids <-> i ∈ ids) as Hslice.
  { apply slice_all. intros i Hi. assert (is_Some (sites db1 !! i)) as [u Hu] by (apply (wf_subs _ Hwf1 userID); rewrite Hsubs, bool_decide_eq_true_2 by done; by eexists).
    apply (wf_ids _ Hwf1) in Hu. lia. }
  unfold rollbackScrapeSiteEnqueue in H. destruct (scrapeSiteIDsToIntSlice ids) as [|y ys] eqn:El.
  { exfalso. destruct ids as [|x more]; [done|]. apply (not_elem_of_nil x), Hslice. left. }
  rewrite <- El in *. clear y ys El. destruct (DeleteScrapeSiteRelation _ _ _ _ _) as [r db4] eqn:Ed. apply delete_relation_outcome in Ed. destruct r as [orphans|e].
  2:{ injection H as <- <- <-. destruct Ed as (Hm & part & Hin & Hw). destruct (partly_undone userID sources mode tagIDs db ids db1 part db4) as (H1 & H2 & H3);
      [done|done|intros i Hi; by apply Hslice, Hin|done|]. split; [|intros Hdone -> _ _; destruct Hm as [[m Hm]|?]; [by destruct Hm|done]].
    split; try done; [intros i u Hi _; by apply H3|split; [done|intros i Hi _; by apply Hq]]. }
  destruct Ed as [Hw Ho]. destruct (undone_rows userID sources mode tagIDs db ids db1 _ db4 Hwf Hsaved Hslice Hw) as (Hback & Hhas & Hrules).
  assert (forall i, i ∈ orphans <-> i ∈ ids /\ has_subscribers db i = false) as Horph.
  { intros i. rewrite Ho, Hslice, Hhas. split; [tauto|]. intros [Hi Hn]. split_and!; [done|done|].
    apply (wf_subs _ Hwf1 userID). rewrite Hsubs, bool_decide_eq_true_2 by done. by eexists. }
  assert (forall i u, sites db4 !! i = Some u -> has_subscribers db i = true -> sites db !! i = Some u) as Hold.
  { intros i u Hi Hs. apply has_subscribers_spec in Hs as (w & Hx). destruct (wf_subs _ Hwf w i Hx) as [u' Hu']. rewrite (without_sites _ _ _ _ Hw) in Hi.
    apply Hsites in Hu' as Hu2. rewrite Hi in Hu2. by injection Hu2 as ->. }
  assert (forall i u, sites db !! i = Some u -> sites db4 !! i = Some u) as Hkeep by (intros i u Hi; rewrite (without_sites _ _ _ _ Hw); by apply Hsites).
  destruct orphans as [|o more] eqn:Eo.
  { injection H as <- <- <-. split; [|done].
    assert (forall i, i ∈ ids -> has_subscribers db i = true) as Hall.
    { intros i Hi. destruct (has_subscribers db i) eqn:E; [done|]. exfalso. apply (not_elem_of_nil i). by apply Horph. }
    split; [by left|by rewrite Hrules|by auto|split; [done|intros i Hi _; by apply Hq]|]. intros _. split_and!; [done|done| | |].
    - intros i u Hi. pose proof Hi as Hi'. rewrite (without_sites _ _ _ _ Hw) in Hi'. destruct (Hnewsites i u Hi') as [?|Hin]; [done|]. by apply (Hold i u), Hall.
    - intros i Hi. apply Hq1, elem_of_union in Hi as [Hi|Hi]; [by left|right]. apply Hall. by apply elem_of_list_to_set in Hi.
    - intros i Hi Hn. by rewrite (Hall i Hi) in Hn. }
  rewrite <- Eo in *. clear o more Eo.
  assert (exists gone ok, queue2 = queue1 ∖ list_to_set gone /\ restored = ok && cleaned /\ db2 = (if cleaned then DeleteOrphanScrapeSites db4 else db4) /\
    (forall i, i ∈ gone -> i ∈ orphans) /\ (ok = true -> gone = orphans) /\ (removed = Dequeued -> ok = true)) as (gone & ok & -> & -> & -> & Hgone & Hok & Hrem).
  { destruct removed as [|taken]; injection H as <- <- <-; [by exists orphans, true|].
    exists (List.filter (fun i => bool_decide (i ∈ taken)) orphans), false. split_and!; try done. intros i. rewrite list_elem_of_In, filter_In, <- list_elem_of_In. tauto. }
  split; [|intros _ _ Hr ->; by rewrite (Hrem Hr)].
  assert (forall i, i ∈ gone -> has_subscribers db i = false) as Hgone' by (intros i Hi; by apply Hgone, Horph in Hi as [_ ?]).
  split.
  - intros w i. left. by destruct cleaned; cbn.
  - destruct cleaned; cbn; by rewrite Hrules.
  - intros i u Hi Hs. destruct cleaned; [|by apply Hkeep]. cbn. apply map_lookup_filter_Some. split; [by apply Hkeep|]. cbn. by rewrite Hhas.
  - split; [set_solver|]. intros i Hi Hs. apply elem_of_difference. split; [by apply Hq|]. rewrite elem_of_list_to_set. intros Hin.
    rewrite (Hgone' i Hin) in Hs. done.
  - intros [Hokt ->]%andb_true_iff. rewrite (Hok Hokt). cbn [DeleteOrphanScrapeSites subscriptions source_tags sites]. split_and!; [done|done| | |].
    + intros i u Hi. apply map_lookup_filter_Some in Hi as [Hi Hx]. simpl in Hx. rewrite Hhas in Hx. by apply Hold.
    + intros i [Hi Hn]%elem_of_difference. apply Hq1, elem_of_union in Hi as [Hi|Hi]; [by left|right].
      destruct (has_subscribers db i) eqn:E; [done|]. exfalso. apply Hn, elem_of_list_to_set, Horph. by apply elem_of_list_to_set in Hi.
    + intros i Hi Hn. split.
      * intros [_ Hx]%elem_of_difference. by apply Hx, elem_of_list_to_set, Horph.
      * apply map_lookup_filter_None. right. intros u _. simpl. by rewrite Hhas, Hn.
Qed.

(** C24. New sources of a workspace are queued or taken back.  Saving subscribes
    it, in the given mode and with the given tag rules, to exactly the valid,
    unblocked URLs it did not have, sharing the row of a URL that exists.  Either
    they are all queued but for those blocked in the meantime; or, when a part of
    them at most could be queued and the rollback reports no error, every
    subscription and tag rule is as before the request, no new source is left in
    the tables or the queue, and only sources nobody was subscribed to are gone,
    older ones among them.  If statements of the rollback fail, the workspace may
    keep some of the new subscriptions, but nobody loses a subscription, a rule,
    a source somebody is subscribed to or its place in the queue. *)
Theorem new_sources_all_or_nothing userID sources mode tagIDs db ids db1 enqueued outcome found removed cleaned queue what queue2 db2 :
  wf db -> 0 < next_site db ->
  SaveScrapingSourcesWithSettings IsValidURL IsWebsiteBlocked userID sources mode tagIDs db = Ok (ids, db1) ->
  enqueueScrapeSitesOrRollback enqueued outcome found removed cleaned userID ids queue db1 = (what, queue2, db2) ->
  (forall u, subscribed_url db1 userID u = true <-> subscribed_url db userID u = true \/ u ∈ map trim_space sources /\ acceptable IsValidURL IsWebsiteBlocked u) /\
  (forall w i, subscriptions db1 !! (w, i) = if bool_decide (w = userID /\ i ∈ ids) then Some (new_subscription mode) else subscriptions db !! (w, i)) /\
  (forall w i t, (w, i, t) ∈ source_tags db1 <-> (w, i, t) ∈ source_tags db \/ w = userID /\ i ∈ ids /\ t ∈ tagIDs) /\
  match what with
  | None => db2 = db1 /\ forall i, i ∈ queue2 <-> i ∈ queue \/ i ∈ ids /\ match enqueued with Enqueued passed_over => i ∉ passed_over | EnqueueFailed _ => False end
  | Some restored =>
      rolled_back userID mode db ids queue restored queue2 db2 /\
      ((forall n, outcome n = ChunkDone) -> found = true -> removed = Dequeued -> cleaned = true -> restored = true)
  end.
Proof.
  intros Hwf Hnext Hsave Hq. pose proof (save_spec userID sources mode tagIDs db ids db1 Hwf Hnext Hsave) as Hsaved.
  pose proof Hsaved as [_ _ Hsubs Htags _ _ Hurls]. do 3 (split; [done|]).
  unfold enqueueScrapeSitesOrRollback in Hq. destruct (decide (ids = [])) as [->|Hne].
  { injection Hq as <- <- <-. split; [done|]. intros i. split; [by left|]. intros [?|[Hi _]]; [done|by apply not_elem_of_nil in Hi]. }
  destruct enqueued as [passed_over|put].
  - assert (what = None /\ queue2 = put_in (List.filter (fun i => negb (bool_decide (i ∈ passed_over))) ids) queue /\ db2 = db1) as (-> & -> & ->)
      by (destruct ids; [done|by injection Hq as <- <- <-]).
    split; [done|]. intros i. unfold put_in. rewrite elem_of_union, elem_of_list_to_set, list_elem_of_In, filter_In, <- list_elem_of_In, negb_true_iff, bool_decide_eq_false. tauto.
  - destruct (rollbackScrapeSiteEnqueue _ _ _ _ _ _ _ _) as [[restored queue3] db3] eqn:Er in Hq.
    assert (what = Some restored /\ queue2 = queue3 /\ db2 = db3) as (-> & -> & ->) by (destruct ids; [done|by injection Hq as <- <- <-]).
    by apply (rollback_spec userID sources mode tagIDs db) in Er.
Qed.

End AllOrNothing.

(** ** What a subscription shows *)

Lemma record_lookup siteID ids r db w :
  subscriptions (RecordScrapeResult siteID ids r db) !! (w, siteID) =
  (fun sub => if bool_decide (w ∈ ids) then record_row r sub else sub) <$> subscriptions db !! (w, siteID).
Proof.
  destruct ids as [|id ids]; simpl.
  - by destruct (subscriptions db !! (w, siteID)).
  - rewrite map_lookup_imap. destruct (subscriptions db !! (w, siteID)) as [sub|]; [simpl|done].
    by rewrite Z.eqb_refl.
Qed.

(** A row that shows a result. *)
Definition shows (mode : string) (r : scrape_result) : Subscription := MkSub mode (Some (attemptedAt r)) (r_status r) (error_message (scrapeErr r)) (r_count r).

(** The results of a list that concern a workspace's subscription in a mode. *)
Definition concerning (w : Z) (mode : string) (results : list (list Z * scrape_result)) : list scrape_result :=
  map snd (List.filter (fun x => bool_decide (w ∈ x.1) && String.eqb mode (r_mode x.2)) results).

(** Whatever the order workers record their results in, a subscription without
    a result comes to show the newest one of its mode, the last recorded of
    those that are equally new. *)
Lemma newest_result_shown siteID w sub results db :
  subscriptions db !! (w, siteID) = Some sub -> LastScrapedAt sub = None ->
  let shown := subscriptions (fold_left (fun db x => RecordScrapeResult siteID x.1 x.2 db) results db) !! (w, siteID) in
  (concerning w (FetchMode sub) results = [] /\ shown = Some sub) \/
  exists before r after, concerning w (FetchMode sub) results = before ++ r :: after /\ shown = Some (shows (FetchMode sub) r) /\
    (forall r', r' ∈ before -> attemptedAt r' <= attemptedAt r) /\ (forall r', r' ∈ after -> attemptedAt r' < attemptedAt r).
Proof.
  intros Hsub Hnone. induction results as [|[ids r] results IH] using rev_ind; [by left|]. simpl in IH |- *.
  rewrite fold_left_app. simpl. rewrite record_lookup. unfold concerning. rewrite List.filter_app, map_app. fold (concerning w (FetchMode sub) results). simpl.
  destruct (bool_decide (w ∈ ids)); simpl; [|by rewrite app_nil_r, option_fmap_id].
  unfold record_row. destruct IH as [[Hc Hs]|(before & r0 & after & Hc & Hs & Hb & Ha)]; rewrite Hs, Hc; simpl.
  - rewrite Hnone. destruct (String.eqb (FetchMode sub) (r_mode r)); simpl; [right|by left].
    exists [], r, []. split; [done|]. split; [done|]. by split; intros ? ?%not_elem_of_nil.
  - right. destruct (String.eqb (FetchMode sub) (r_mode r)); simpl; [|rewrite app_nil_r; by exists before, r0, after].
    destruct (attemptedAt r0 <=? attemptedAt r) eqn:E; breflect.
    + exists (before ++ r0 :: after), r, []. split; [done|]. split; [done|]. split; [|by intros ? ?%not_elem_of_nil].
      intros r' [H|[->|H]%elem_of_cons]%elem_of_app; [specialize (Hb r' H)| |specialize (Ha r' H)]; lia.
    + exists before, r0, (after ++ [r]). split; [by rewrite <- app_assoc|]. split; [done|]. split; [done|].
      intros r' [H|H%list_elem_of_singleton]%elem_of_app; [by apply Ha|subst; lia].
Qed.

(** ** What the worker does *)

Section WorkerFacts.
Context (interval : Z) (robotsBlocked : bool) (subs : list (Z * string)) (attempts : string -> attempt).

Definition due_at (t : Z) (mode : string) (s : ScrapeSchedule) : Prop := match Modes s !! mode with Some m => NextAttemptMS m | None => 0 end <= UnixMilli t.

Lemma group_requested mode : group_of subs mode <> [] <-> requested subs mode = true.
Proof.
  unfold group_of, requested. induction subs as [|[w m] l IH]; simpl; [done|]. destruct (String.eqb m mode); simpl; [by split|done].
Qed.

(** What one pass leaves: the provider's deadline only moves ahead, nothing
    else of the schedule changes but the mode's own entry, the page is asked
    for at most once, in a mode that is due, wanted and not forbidden, and what
    is handed on or recorded goes to the mode's subscribers. *)
Record passed (mode : string) (s : ScrapeSchedule) (e : effects) (s' : ScrapeSchedule) (e' : effects) : Prop := MkPassed {
  p_retry : RetryAfterMS s <= RetryAfterMS s';
  p_deferred : DeferredUntilMS s' = DeferredUntilMS s /\ DeferredReason s' = DeferredReason s;
  p_others : forall other, other <> mode -> Modes s' !! other = Modes s !! other;
  p_wanted : Modes s' !! mode = Modes s !! mode \/ requested subs mode = true /\ is_Some (Modes s' !! mode);
  p_fetched : fetched e' = fetched e \/
    fetched e' = fetched e ++ [mode] /\ requested subs mode = true /\ robotsBlocked = false /\ due_at (looked_at (attempts mode)) mode s;
  p_handed : handed_on e' = handed_on e \/ handed_on e' = handed_on e ++ [(mode, group_of subs mode)] /\ fetched e' = fetched e ++ [mode];
  p_recorded : recorded e' = recorded e \/ exists status, recorded e' = recorded e ++ [(mode, group_of subs mode, status)]
}.

Lemma note_retry_spec retryAfter s :
  RetryAfterMS s <= RetryAfterMS (note_retry retryAfter s) /\ Modes (note_retry retryAfter s) = Modes s /\
  DeferredUntilMS (note_retry retryAfter s) = DeferredUntilMS s /\ DeferredReason (note_retry retryAfter s) = DeferredReason s.
Proof. destruct retryAfter; simpl; split_and!; done || lia. Qed.

Ltac passes := split; simpl; rewrite ?lookup_insert_eq; first [done | lia | solve [eauto 6] | intros ? ?; by rewrite lookup_insert_ne by done].

Lemma scrape_mode_passed mode s e s' e' leave :
  scrape_mode interval robotsBlocked subs attempts mode s e = (s', e', leave) ->
  passed mode s e s' e' /\
  (leave = true -> answer (attempts mode) = Page false \/ stopped (attempts mode) = true \/ UnixMilli (answered_at (attempts mode)) < RetryAfterMS s').
Proof.
  unfold scrape_mode. intros H. destruct (_ <? _) eqn:Edue; [injection H as <- <- <-; split; [passes|done]|]. breflect.
  destruct (group_of subs mode) as [|w group] eqn:Eg; [injection H as <- <- <-; split; [passes|done]|].
  assert (requested subs mode = true) as Hr by (apply group_requested; congruence). rewrite <- Eg in H.
  assert (due_at (looked_at (attempts mode)) mode s) as Hdue by done.
  destruct robotsBlocked eqn:Hrobots; [injection H as <- <- <-; split; [passes|done]|].
  destruct (answer (attempts mode)) as [[]|retry|message retry] eqn:Ea.
  - injection H as <- <- <-. split; [passes|done].
  - injection H as <- <- <-. split; [passes|by left].
  - injection H as <- <- <-. destruct (note_retry_spec retry s) as (H1 & H2 & H3 & H4). split; [|done]. split; simpl; rewrite ?H2, ?lookup_insert_eq; eauto 6.
    intros ? ?; by rewrite lookup_insert_ne by done.
  - destruct (note_retry_spec retry s) as (H1 & H2 & H3 & H4). destruct (stopped (attempts mode)) eqn:Es; injection H as <- <- <-.
    + split; [|by right; left]. split; rewrite ?H2; simpl; eauto 6.
    + split; [|intros Hl; right; right; simpl; by apply Z.ltb_lt]. split; simpl; rewrite ?H2, ?lookup_insert_eq; eauto 6.
      intros ? ?; by rewrite lookup_insert_ne by done.
Qed.

Definition only_requested (s : ScrapeSchedule) : Prop := forall mode, is_Some (Modes s !! mode) -> requested subs mode = true.

Lemma passed_requested mode s e s' e' : passed mode s e s' e' -> only_requested s -> only_requested s'.
Proof.
  intros [_ _ Ho Hw _ _ _] H other Hs. destruct (decide (other = mode)) as [->|Hne]; [|apply H; by rewrite <- Ho].
  destruct Hw as [Hw|[Hw _]]; [apply H; by rewrite <- Hw|done].
Qed.

Lemma scrape_modes_passed modes s e s' e' :
  NoDup modes -> scrape_modes interval robotsBlocked subs attempts modes s e = (s', e') -> only_requested s ->
  RetryAfterMS s <= RetryAfterMS s' /\ DeferredUntilMS s' = DeferredUntilMS s /\ DeferredReason s' = DeferredReason s /\ only_requested s' /\
  exists asked, fetched e' = fetched e ++ asked /\ NoDup asked /\
    forall mode, mode ∈ asked -> mode ∈ modes /\ requested subs mode = true /\ robotsBlocked = false /\ due_at (looked_at (attempts mode)) mode s.
Proof.
  revert s e. induction modes as [|mode modes IH]; intros s e Hnd H Hs; simpl in H.
  { injection H as <- <-. do 4 (split; [done|]). exists []. rewrite app_nil_r. split; [done|]. split; [constructor|by intros ? ?%not_elem_of_nil]. }
  apply NoDup_cons in Hnd as [Hm Hnd]. destruct (scrape_mode _ _ _ _ mode s e) as [[s1 e1] leave] eqn:E. apply scrape_mode_passed in E as [Hp _].
  pose proof (passed_requested _ _ _ _ _ Hp Hs) as Hs1. destruct Hp as [Hr [Hd1 Hd2] Ho _ Hf _ _].
  assert (exists one, fetched e1 = fetched e ++ one /\ (one = [] \/ one = [mode] /\ requested subs mode = true /\ robotsBlocked = false /\ due_at (looked_at (attempts mode)) mode s)) as (one & He1 & Hone).
  { destruct Hf as [Hf|[Hf Hq]]; [exists []; rewrite app_nil_r|exists [mode]]; auto. }
  assert (exists asked, fetched e' = fetched e1 ++ asked /\ NoDup asked /\ RetryAfterMS s1 <= RetryAfterMS s' /\ DeferredUntilMS s' = DeferredUntilMS s1 /\ DeferredReason s' = DeferredReason s1 /\ only_requested s' /\
    forall m, m ∈ asked -> m ∈ modes /\ requested subs m = true /\ robotsBlocked = false /\ due_at (looked_at (attempts m)) m s1) as (asked & He' & Hnda & Hr' & Hd1' & Hd2' & Hs' & Hasked).
  { destruct leave; [|destruct (IH s1 e1 Hnd H Hs1) as (? & ? & ? & ? & asked & ? & ? & ?); by exists asked].
    injection H as <- <-. exists []. rewrite app_nil_r. split; [done|]. split; [constructor|]. do 4 (split; [done|]). by intros ? ?%not_elem_of_nil. }
  split; [lia|]. split; [congruence|]. split; [congruence|]. split; [done|]. exists (one ++ asked).
  split; [by rewrite He', He1, app_assoc|]. split.
  - destruct Hone as [->|[-> _]]; [done|]. apply NoDup_cons. split; [|done]. intros Hin. by apply Hm, Hasked.
  - intros m [Hin|Hin]%elem_of_app.
    + destruct Hone as [->|[-> Hone]]; [by apply not_elem_of_nil in Hin|]. apply list_elem_of_singleton in Hin as ->. split; [constructor|done].
    + destruct (Hasked m Hin) as (Hm1 & Hm2 & Hm3 & Hm4). split; [by constructor|]. split; [done|]. split; [done|].
      unfold due_at in *. rewrite <- Ho; [done|]. by intros ->.
Qed.

Lemma add_requested_spec s :
  only_requested s -> forall mode, is_Some (Modes (add_requested subs s) !! mode) <-> requested subs mode = true.
Proof.
  intros Hs mode. unfold add_requested. cbn [Modes].
  assert (forall (l : list (Z * string)) (m : gmap string ScrapeModeSchedule), is_Some (fold_left (fun (m : gmap string ScrapeModeSchedule) x => match m !! x.2 with Some _ => m | None => <[x.2 := MkMode 0 ""]> m end) l m !! mode) <->
    is_Some (m !! mode) \/ existsb (fun x : Z * string => String.eqb x.2 mode) l = true) as H.
  { induction l as [|[w x] l IH]; intros m; simpl; [naive_solver|]. rewrite IH. destruct (String.eqb x mode) eqn:Ex.
    - apply String.eqb_eq in Ex as ->. destruct (m !! mode) as [v|] eqn:Em; [rewrite Em|rewrite lookup_insert_eq]; split; intros _; auto; left; by eexists.
    - apply String.eqb_neq in Ex. destruct (m !! x); [done|]. by rewrite lookup_insert_ne by done. }
  rewrite H. fold (requested subs mode). split; [intros [Hm|Hm]; [by apply Hs|done]|by right].
Qed.

End WorkerFacts.

(** A source that is looked at keeps a place for exactly the modes somebody
    asks for; its page is fetched at most once per mode, and only in modes that
    are asked for and due, when robots are allowed. *)
Lemma scrape_site_outcome blocked now interval robotsBlocked subs attempts s s' e :
  scrapeSite blocked now interval robotsBlocked (Some subs) attempts s = (Rescheduled s', e) -> RetryAfterMS s <= UnixMilli now ->
  RetryAfterMS s <= RetryAfterMS s' /\ DeferredUntilMS s' = 0 /\ DeferredReason s' = "" /\
  (forall mode, is_Some (Modes s' !! mode) <-> requested subs mode = true) /\ NoDup (fetched e) /\
  forall mode, mode ∈ fetched e -> mode ∈ ["http"; "browser"] /\ requested subs mode = true /\ robotsBlocked = false /\
    due_at (looked_at (attempts mode)) mode (drop_unrequested subs s).
Proof.
  intros H Hdue. unfold scrapeSite in H. rewrite (proj2 (Z.ltb_ge _ _)) in H by done. destruct (bool_decide (subs = []) || blocked); [done|].
  destruct (scrape_modes _ _ _ _ _ _ _) as [s1 e1] eqn:E. injection H as <- <-.
  assert (only_requested subs (drop_unrequested subs s)) as Hs by (intros mode [m Hm]; apply map_lookup_filter_Some in Hm as [_ Hm]; done).
  assert (NoDup ["http"; "browser"]) as Hnd by (apply NoDup_cons; split; [by intros ?%list_elem_of_singleton|apply NoDup_singleton]).
  destruct (scrape_modes_passed _ _ _ _ _ _ _ _ _ Hnd E Hs) as (Hr & Hd1 & Hd2 & Hs1 & asked & Hf & Hnda & Hasked).
  simpl in Hf. rewrite Hf. split; [done|]. split; [done|]. split; [done|]. split; [by apply add_requested_spec|]. done.
Qed.

Module Sample.

(** One workspace has the first source; another asks for both. *)
Definition db : DB := MkDB {[1; 2]} {[1 := "http://a"]} 2 {[(1, 1) := MkSub "browser" (Some 50) "success" "" 4]} ∅ {[(2, 7)]}.

Definition saved := SaveScrapingSourcesWithSettings (fun _ => true) (fun _ => false) 2 [" http://a "; "http://b"; "http://b"] "http" [7] db.

Lemma db_wf : wf db.
Proof.
  split; simpl.
  - intros i j u Hi Hj. apply lookup_singleton_Some in Hi as [<- _], Hj as [<- _]. done.
  - intros i u Hi. apply lookup_singleton_Some in Hi as [<- _]. lia.
  - intros w i [x Hx]. apply lookup_singleton_Some in Hx as [[= <- <-] _]. by eexists.
  - set_solver.
Qed.

End Sample.

(** The queue fails after one of two sources: source 1, which workspace 1 has, stays. *)
Lemma new_sources_all_or_nothing_witness :
  match Sample.saved with
  | Err _ => False
  | Ok (ids, db1) =>
      let '(what, queue2, db2) := enqueueScrapeSitesOrRollback (EnqueueFailed [2]) (fun _ => ChunkDone) true Dequeued true 2 ids {[1]} db1 in
      subscribed_url db1 2 "http://b" = true /\ what = Some true /\ 1 ∈ queue2 /\ 2 ∉ queue2 /\
      (forall w i, subscriptions db2 !! (w, i) = subscriptions Sample.db !! (w, i)) /\ source_tags db2 = source_tags Sample.db
  end.
Proof.
  destruct Sample.saved as [[ids db1]|e] eqn:Es; [|vm_compute in Es; discriminate Es].
  destruct (enqueueScrapeSitesOrRollback (EnqueueFailed [2]) (fun _ => ChunkDone) true Dequeued true 2 ids {[1]} db1) as [[what queue2] db2] eqn:Eq.
  destruct (new_sources_all_or_nothing (fun _ => true) (fun _ => false) 2 [" http://a "; "http://b"; "http://b"] "http" [7] Sample.db ids db1
    (EnqueueFailed [2]) (fun _ => ChunkDone) true Dequeued true {[1]} what queue2 db2 Sample.db_wf eq_refl Es Eq) as (Hu & _ & _ & Hb).
  split; [apply Hu; right; split; [vm_compute; set_solver|by vm_compute]|].
  assert (what = Some true) as ->.
  { assert (Sample.saved = Ok (ids, db1)) as Es' by exact Es. vm_compute in Es'. injection Es' as <- <-. vm_compute in Eq. by injection Eq as <- _ _. }
  destruct Hb as [Hb _]. destruct (rb_restored _ _ _ _ _ _ _ _ Hb eq_refl) as (Hs & Ht & _ & _ & Hgone). split; [reflexivity|].
  split; [apply (rb_queue _ _ _ _ _ _ _ _ Hb); [set_solver|reflexivity]|]. split; [|exact (conj Hs Ht)].
  apply Hgone; [|reflexivity]. assert (Sample.saved = Ok (ids, db1)) as Es' by exact Es. vm_compute in Es'. injection Es' as <- _. vm_compute. right. left.
Defined.

End Scraping.
