(* ===== verification/Routes.v ===== *)
(** * Managed routes ([internal/database/database_proxy_lifecycle.go],
      [database_proxy_ingestion.go], [database_proxy_cleanup.go])

    A workspace manages a route when [user_proxies] has a row for the two; the
    row is active, paused or archived, and a subscription caps how many rows of a
    workspace are active.  This file has the tables, imports, changes of state,
    deletions and the clean-ups, each as one transaction; Capacity.v lets the
    statements of many transactions interleave.  A row extends the one of
    FailureTracker.v, which reads and writes its streak.  Credentials are shown
    decrypted, as the Go structs hold them; the read models derived from the
    tables (filter indexes, statistics of sources) are left out. *)

From S2P Require Import Prelude GoStrings GoNet ProxyModel FailureTracker Usage.
Open Scope Z_scope.

Module Routes.
Import FailureTracker.
Export FailureTracker(ManagedState, Active, Paused, Archived).

#[export] Instance ManagedState_dec : EqDecision ManagedState := FailureTracker.ManagedState_eq_dec.

(** ** Data *)

Record ManagedProxy := MkRoute {
  core : FailureTracker.ManagedProxy;
  credentials : string * string;
  ActivatedAt : option Z; PausedAt : option Z; ArchivedAt : option Z; CreatedAt : Z
}.

Record WorkspaceSubscription := MkSub {
  IncludedActiveRoutes : Z; AdditionalActiveRoutes : Z; OverageMode : string; OverageActiveRoutes : Z }.

(** What the clean-up of failing routes reads of a workspace. *)
Record Workspace := MkWorkspace {
  AutoRemoveFailingProxies : bool; AutoRemoveFailureThreshold : Z; FailureAction : string }.

(** The tables: [user_proxies] by workspace and route, [workspaces],
    [workspace_subscriptions], [workspace_usage_periods], and [proxies] by hash
    with the next value of its sequence. *)
Record DB := MkDB {
  managed : gmap (Z * Z) ManagedProxy;
  workspaces : gmap Z Workspace;
  subscriptions : gmap Z WorkspaceSubscription;
  usage : gmap (Z * Z) Usage.WorkspaceUsagePeriod;
  routes : gmap string ProxyModel.Proxy;
  next_route : Z
}.

Definition set_managed (m : gmap (Z * Z) ManagedProxy) (d : DB) : DB :=
  MkDB m (workspaces d) (subscriptions d) (usage d) (routes d) (next_route d).
Definition set_usage (u : gmap (Z * Z) Usage.WorkspaceUsagePeriod) (d : DB) : DB :=
  MkDB (managed d) (workspaces d) (subscriptions d) u (routes d) (next_route d).
Definition set_routes (r : gmap string ProxyModel.Proxy) (n : Z) (d : DB) : DB :=
  MkDB (managed d) (workspaces d) (subscriptions d) (usage d) r n.
Definition set_subscription (ws : Z) (s : WorkspaceSubscription) (d : DB) : DB :=
  MkDB (managed d) (workspaces d) (<[ws := s]> (subscriptions d)) (usage d) (routes d) (next_route d).

Inductive db_error :=
| ErrInvalidManagedProxyState | ErrRecordNotFound | ErrWorkspaceCapacityReached
| ErrWorkspaceRequired | ErrProxy (e : ProxyModel.host_error) | ErrDuplicateID.

Definition ManagedProxyPauseReasonManual : string := "manual".
Definition ManagedProxyPauseReasonCapacity : string := "capacity".
Definition ManagedProxyPauseReasonFailure : string := "failure".

Definition WorkspaceOverageDisabled : string := "disabled".
Definition WorkspaceOverageAllowed : string := "allowed".
Definition WorkspaceOverageUnlimited : string := "unlimited".

Definition IncludedCapacity (s : WorkspaceSubscription) : Z :=
  wrap_u64 (IncludedActiveRoutes s + AdditionalActiveRoutes s).

(** The limit, and whether there is none. *)
Definition ActivationLimit (s : WorkspaceSubscription) : Z * bool :=
  if String.eqb (OverageMode s) WorkspaceOverageUnlimited then (0, true)
  else if String.eqb (OverageMode s) WorkspaceOverageAllowed then (wrap_u64 (IncludedCapacity s + OverageActiveRoutes s), false)
  else (IncludedCapacity s, false).

(** ** Capacity *)

Definition is_active (m : ManagedProxy) : bool := FailureTracker.is_active (core m).

Definition active_of (ws : Z) (x : (Z * Z) * ManagedProxy) : Z :=
  if (x.1.1 =? ws) && is_active x.2 then 1 else 0.

(** [COUNT] of a workspace's active rows. *)
Definition active_rows (ws : Z) (m : gmap (Z * Z) ManagedProxy) : Z := map_sum (active_of ws) m.

Definition refreshWorkspaceUsageActiveRoutes (now ws : Z) (d : DB) : DB :=
  if ws =? 0 then d
  else set_usage (Usage.UpdateWorkspaceUsageActiveRoutes now ws (active_rows ws (managed d)) (usage d)) d.

(** The error of [ensureWorkspaceActivationAvailable], if any. *)
Definition ensureWorkspaceActivationAvailable (ws : Z) (d : DB) : option db_error :=
  match subscriptions d !! ws with
  | None => None
  | Some subscription =>
      let '(limit, unlimited) := ActivationLimit subscription in
      if (unlimited : bool) then None
      else if limit <=? active_rows ws (managed d) then Some ErrWorkspaceCapacityReached else None
  end.

(** ** One route's state *)

Definition parse_state (raw : string) : option ManagedState :=
  let state := to_lower (trim_space raw) in
  if String.eqb state "active" then Some Active
  else if String.eqb state "paused" then Some Paused
  else if String.eqb state "archived" then Some Archived
  else None.

Definition with_state (s : ManagedState) (reason : string) (c : FailureTracker.ManagedProxy) : FailureTracker.ManagedProxy :=
  MkManaged s reason (ConsecutiveFailures c).

(** The columns [SetManagedProxyState] writes. *)
Definition set_state (now : Z) (state : ManagedState) (m : ManagedProxy) : ManagedProxy :=
  match state with
  | Active => MkRoute (with_state Active "" (core m)) (credentials m) (Some now) None None (CreatedAt m)
  | Paused => MkRoute (with_state Paused ManagedProxyPauseReasonManual (core m)) (credentials m) (ActivatedAt m) (Some now) None (CreatedAt m)
  | Archived => MkRoute (with_state Archived "" (core m)) (credentials m) (ActivatedAt m) (PausedAt m) (Some now) (CreatedAt m)
  end.

Definition update_row (k : Z * Z) (f : ManagedProxy -> ManagedProxy) (d : DB) : DB :=
  set_managed (alter f k (managed d)) d.

Definition SetManagedProxyState (now ws p : Z) (raw : string) (d : DB) : option db_error * DB :=
  match parse_state raw with
  | None => (Some ErrInvalidManagedProxyState, d)
  | Some state =>
      match managed d !! (ws, p) with
      | None => (Some ErrRecordNotFound, d)
      | Some m =>
          if bool_decide (State (core m) = state) then (None, d)
          else
            match (if bool_decide (state = Active) then ensureWorkspaceActivationAvailable ws d else None) with
            | Some e => (Some e, d)
            | None => (None, refreshWorkspaceUsageActiveRoutes now ws (update_row (ws, p) (set_state now state) d))
            end
      end
  end.

(** The update of a pause that is not by hand: only rows that are active. *)
Definition pause_row (now : Z) (reason : string) (m : ManagedProxy) : ManagedProxy :=
  if is_active m then MkRoute (with_state Paused reason (core m)) (credentials m) (ActivatedAt m) (Some now) (ArchivedAt m) (CreatedAt m)
  else m.

Definition live_routes (d : DB) : gset Z := list_to_set (map (fun x => ProxyModel.ID x.2) (map_to_list (routes d))).

Definition proxiesWithoutActiveManagement (proxyIDs : list Z) (d : DB) : list Z :=
  List.filter (fun p => bool_decide (p ∈ live_routes d) &&
    negb (existsb (fun '(k, m) => (k.2 =? p) && is_active m) (map_to_list (managed d)))) proxyIDs.

(** Whether the row was paused, and the routes no workspace has active now. *)
Definition PauseManagedProxy (now ws p : Z) (reason : string) (d : DB) : (bool * list Z) * DB :=
  match managed d !! (ws, p) with
  | Some m =>
      if is_active m then
        let d := refreshWorkspaceUsageActiveRoutes now ws (update_row (ws, p) (pause_row now reason) d) in
        ((true, proxiesWithoutActiveManagement [p] d), d)
      else ((false, []), d)
  | None => ((false, []), d)
  end.

(** ** Deleting *)

(** [deleteManagedRoutes] without the checker revision; no state means any. *)
Definition doomed (ws : Z) (proxyIDs : list Z) (state : option ManagedState) (x : (Z * Z) * ManagedProxy) : Prop :=
  x.1.1 = ws /\ x.1.2 ∈ proxyIDs /\ match state with Some s => State (core x.2) = s | None => True end.

#[export] Instance doomed_dec ws ids state x : Decision (doomed ws ids state x).
Proof. unfold doomed. destruct state; apply _. Defined.

Definition deleteManagedRoutes (ws : Z) (proxyIDs : list Z) (state : option ManagedState) (d : DB) : Z * DB :=
  (Z.of_nat (size (filter (doomed ws proxyIDs state) (managed d))),
   set_managed (filter (fun x => ~ doomed ws proxyIDs state x) (managed d)) d).

Definition DeleteActiveManagedProxy (now ws p : Z) (d : DB) : (bool * list Z) * DB :=
  let '(removed, d') := deleteManagedRoutes ws [p] (Some Active) d in
  if removed =? 0 then ((false, []), d)
  else
    let d := refreshWorkspaceUsageActiveRoutes now ws d' in
    ((true, proxiesWithoutActiveManagement [p] d), d).

Definition deleteChunkSize : nat := 5000.

Definition collectOrphanProxyIDs (candidateIDs : list Z) (d : DB) : list Z :=
  map wrap_u64 (List.filter (fun id => negb (existsb (fun '(k, _) => k.2 =? id) (map_to_list (managed d)))) (dedup_go [] candidateIDs)).

(** How a chunk of a bulk deletion ends: its transaction fails, something after
    its commit fails, or neither; one more for the final load of the orphans. *)
Inductive chunk_end := Rolled_back | Failed_later | Went_through.

(** The loop of [DeleteProxyRelation]: rows deleted, orphans, whether it went through. *)
Fixpoint delete_chunks (ws : Z) (chunks : list (list Z)) (ends : list chunk_end) (total : Z) (orphans : list Z) (d : DB)
    : (Z * list Z * bool) * DB :=
  match chunks with
  | [] => match hd Went_through ends with Went_through => ((total, orphans, true), d) | _ => ((total, [], false), d) end
  | chunk :: rest =>
      match hd Went_through ends with
      | Rolled_back => ((total, [], false), d)
      | e =>
          let '(removed, d) := deleteManagedRoutes ws (List.filter (Z.ltb 0) chunk) None d in
          match e with
          | Went_through => delete_chunks ws rest (tail ends) (total + removed) (orphans ++ collectOrphanProxyIDs chunk d) d
          | _ => ((total + removed, [], false), d)
          end
      end
  end.

(** Rows deleted, orphaned routes, and whether an error is reported; the
    capacity is recounted whenever rows went, error or not. *)
Definition DeleteProxyRelation (now ws : Z) (proxies : list Z) (ends : list chunk_end) (d : DB) : (Z * list Z * bool) * DB :=
  match proxies with
  | [] => ((0, [], false), d)
  | _ =>
      let '((total, orphans, ok), d) := delete_chunks ws (batches deleteChunkSize proxies) ends 0 [] d in
      ((total, List.filter (fun p => bool_decide (p ∈ live_routes d)) (dedup_go [] orphans), negb ok),
       if total =? 0 then d else refreshWorkspaceUsageActiveRoutes now ws d)
  end.

(** ** Clean-ups *)

(** Newest activation first, then the larger identifier. *)
Definition newer_first (a b : Z * ManagedProxy) : bool :=
  let ta := default (CreatedAt a.2) (ActivatedAt a.2) in
  let tb := default (CreatedAt b.2) (ActivatedAt b.2) in
  (tb <? ta) || ((ta =? tb) && (b.1 <=? a.1)).

Definition active_list (ws : Z) (m : gmap (Z * Z) ManagedProxy) : list (Z * ManagedProxy) :=
  omap (fun x => if (x.1.1 =? ws) && is_active x.2 then Some (x.1.2, x.2) else None) (map_to_list m).

Definition pause_all (now ws : Z) (reason : string) (proxyIDs : list Z) (m : gmap (Z * Z) ManagedProxy) : gmap (Z * Z) ManagedProxy :=
  map_imap (fun k r => Some (if (k.1 =? ws) && bool_decide (k.2 ∈ proxyIDs) then pause_row now reason r else r)) m.

Definition pauseWorkspaceCapacityOverflow (now ws limit : Z) (d : DB) : (Z * list Z) * DB :=
  let overflow := wrap_i64 (active_rows ws (managed d) - wrap_i64 limit) in
  if overflow <=? 0 then ((0, []), d)
  else
    let proxyIDs := take (Z.to_nat overflow) (merge_sort (rel_of newer_first) (active_list ws (managed d))).*1 in
    match proxyIDs with
    | [] => ((0, []), d)
    | _ =>
        ((Z.of_nat (length proxyIDs), proxyIDs),
         refreshWorkspaceUsageActiveRoutes now ws
           (set_managed (pause_all now ws ManagedProxyPauseReasonCapacity proxyIDs (managed d)) d))
    end.

(** One subscription after the other, in any order: rows paused, routes, tables. *)
Definition cleanup_subscription (now : Z) (acc : (Z * list Z) * DB) (x : Z * WorkspaceSubscription) : (Z * list Z) * DB :=
  let '((total, ids), d) := acc in
  let '(limit, unlimited) := ActivationLimit x.2 in
  if (unlimited : bool) then acc
  else let '((paused, proxyIDs), d) := pauseWorkspaceCapacityOverflow now x.1 limit d in ((total + paused, ids ++ proxyIDs), d).

Definition CleanupProxyLimitViolations (now : Z) (d : DB) : (Z * list Z) * DB :=
  fold_left (cleanup_subscription now) (map_to_list (subscriptions d)) ((0, []), d).

(** What [CleanupAutoRemovalViolations] pauses. *)
Definition violates (d : DB) (x : (Z * Z) * ManagedProxy) : bool :=
  match workspaces d !! x.1.1 with
  | Some w =>
      AutoRemoveFailingProxies w && (0 <? AutoRemoveFailureThreshold w) && negb (String.eqb (FailureAction w) "delete") &&
      is_active x.2 && (AutoRemoveFailureThreshold w <=? ConsecutiveFailures (core x.2))
  | None => false
  end.

Definition CleanupAutoRemovalViolations (now : Z) (d : DB) : Z * DB :=
  (Z.of_nat (length (List.filter (violates d) (map_to_list (managed d)))),
   set_managed (map_imap (fun k r => Some (if violates d (k, r) then pause_row now ManagedProxyPauseReasonFailure r else r)) (managed d)) d).

(** ** Importing *)

Record managedProxyStatePlan := MkPlan { plan_state : ManagedState; plan_reason : string }.

(** The management a workspace has of the routes with these hashes. *)
Definition management (ws : Z) (d : DB) (h : string) : option managedProxyStatePlan :=
  match routes d !! h with
  | Some p => match managed d !! (ws, ProxyModel.ID p) with
              | Some m => Some (MkPlan (State (core m)) (PauseReason (core m)))
              | None => None
              end
  | None => None
  end.

Definition existing_states (ws : Z) (hashes : list string) (d : DB) : gmap string managedProxyStatePlan :=
  list_to_map (omap (fun h => match management ws d h with Some plan => Some (h, plan) | None => None end) hashes).

(** The loop that plans: [available] is what capacity is left, if it is capped. *)
Fixpoint plan_loop (existing : gmap string managedProxyStatePlan) (unlimited : bool) (available : Z) (hashes : list string)
    (plan : gmap string managedProxyStatePlan) : gmap string managedProxyStatePlan :=
  match hashes with
  | [] => plan
  | key :: rest =>
      match existing !! key with
      | Some current => plan_loop existing unlimited available rest (<[key := current]> plan)
      | None =>
          if unlimited || (0 <? available)
          then plan_loop existing unlimited (if unlimited then available else available - 1) rest (<[key := MkPlan Active ""]> plan)
          else plan_loop existing unlimited available rest (<[key := MkPlan Paused ManagedProxyPauseReasonCapacity]> plan)
      end
  end.

Definition plan_states (subscription : option WorkspaceSubscription) (existing : gmap string managedProxyStatePlan)
    (hashes : list string) (activeCount : Z) : gmap string managedProxyStatePlan :=
  if Nat.eqb (size existing) (length hashes) then existing
  else
    let '(limit, unlimited) := match subscription with Some s => ActivationLimit s | None => (0, true) end in
    plan_loop existing unlimited (if activeCount <? wrap_i64 limit then limit - activeCount else 0) hashes ∅.

Definition planWorkspaceManagedProxyStates (ws : Z) (proxies : list ProxyModel.Proxy) (d : DB)
    : res db_error (gmap string managedProxyStatePlan) :=
  if ws =? 0 then Err ErrWorkspaceRequired
  else
    let hashes := map ProxyModel.Hash proxies in
    Ok (plan_states (subscriptions d !! ws) (existing_states ws hashes d) hashes (active_rows ws (managed d))).

Definition normalizeWorkspaceIDs (workspaceIDs : list Z) : list Z := dedup_go [] (merge_sort Z.le workspaceIDs).

Definition with_id (id : Z) (p : ProxyModel.Proxy) : ProxyModel.Proxy :=
  ProxyModel.MkProxy id (ProxyModel.IP p) (ProxyModel.IPAddress p) (ProxyModel.Port p) (ProxyModel.Username p)
    (ProxyModel.Password p) (ProxyModel.Workspaces p) (ProxyModel.QueueLease p) (ProxyModel.Hash p).

(** The row an association gets unless the workspace manages the route already. *)
Definition new_row (now : Z) (p : ProxyModel.Proxy) (plan : managedProxyStatePlan) : ManagedProxy :=
  MkRoute (MkManaged (plan_state plan) (plan_reason plan) 0) (ProxyModel.Username p, ProxyModel.Password p)
    (if bool_decide (plan_state plan = Active) then Some now else None)
    (if bool_decide (plan_state plan = Paused) then Some now else None) None now.

Definition set_credentials (c : string * string) (m : ManagedProxy) : ManagedProxy :=
  MkRoute (core m) c (ActivatedAt m) (PausedAt m) (ArchivedAt m) (CreatedAt m).

(** The insert with its conflict clause: rows added, and the table. *)
Definition insert_association (now ws : Z) (plans : gmap string managedProxyStatePlan)
    (acc : Z * gmap (Z * Z) ManagedProxy) (p : ProxyModel.Proxy) : Z * gmap (Z * Z) ManagedProxy :=
  match acc.2 !! (ws, ProxyModel.ID p), plans !! ProxyModel.Hash p with
  | None, Some plan => (acc.1 + 1, <[(ws, ProxyModel.ID p) := new_row now p plan]> acc.2)
  | _, _ => acc
  end.

Definition updateWorkspaceAssociationCredentials (ws : Z) (proxies : list ProxyModel.Proxy) (m : gmap (Z * Z) ManagedProxy)
    : gmap (Z * Z) ManagedProxy :=
  fold_left (fun m p => alter (set_credentials (ProxyModel.Username p, ProxyModel.Password p)) (ws, ProxyModel.ID p) m) proxies m.

Definition createWorkspaceAssociations (now ws : Z) (proxies : list ProxyModel.Proxy)
    (plans : gmap string managedProxyStatePlan) (d : DB) : DB :=
  match proxies with
  | [] => d
  | _ =>
      let '(inserted, m) := fold_left (insert_association now ws plans) proxies (0, managed d) in
      let m := if inserted <? Z.of_nat (length proxies) then updateWorkspaceAssociationCredentials ws proxies m else m in
      let d := set_managed m d in
      if inserted =? 0 then d else refreshWorkspaceUsageActiveRoutes now ws d
  end.

Section Import.
Context (toASCII : string -> option string).
Context (FingerprintProxyRoute : string -> Z -> string -> string -> option string).
Abbreviation GenerateHash := (ProxyModel.GenerateHash toASCII FingerprintProxyRoute).
Abbreviation BeforeSave := (ProxyModel.BeforeSave toASCII FingerprintProxyRoute).

Fixpoint dedup_proxies (seen : list string) (proxies : list ProxyModel.Proxy) : res db_error (list ProxyModel.Proxy) :=
  match proxies with
  | [] => Ok []
  | p :: rest =>
      match GenerateHash p with
      | Err e => Err (ErrProxy e)
      | Ok p =>
          if bool_decide (ProxyModel.Hash p ∈ seen) then dedup_proxies seen rest
          else match dedup_proxies (ProxyModel.Hash p :: seen) rest with Ok l => Ok (p :: l) | Err e => Err e end
      end
  end.

Definition deduplicateProxies (proxies : list ProxyModel.Proxy) : res db_error (list ProxyModel.Proxy) := dedup_proxies [] proxies.

(** The rows of [proxies], which keep the identifier of a route that is stored. *)
Fixpoint insertProxies (proxies : list ProxyModel.Proxy) (d : DB) : res db_error (list ProxyModel.Proxy * DB) :=
  match proxies with
  | [] => Ok ([], d)
  | p :: rest =>
      match BeforeSave p with
      | Err e => Err (ErrProxy e)
      | Ok p =>
          let stored :=
            match routes d !! ProxyModel.Hash p with
            | Some q => Ok (ProxyModel.ID q, d)
            | None =>
                let '(id, n) := if ProxyModel.ID p =? 0 then (next_route d, next_route d + 1) else (ProxyModel.ID p, next_route d) in
                if bool_decide (id ∈ live_routes d) then Err ErrDuplicateID
                else Ok (id, set_routes (<[ProxyModel.Hash p := with_id id p]> (routes d)) n d)
            end in
          match stored with
          | Err e => Err e
          | Ok (id, d) =>
              match insertProxies rest d with
              | Ok (l, d) => Ok (with_id id p :: l, d)
              | Err e => Err e
              end
          end
      end
  end.

Fixpoint plan_workspaces (workspaceIDs : list Z) (proxies : list ProxyModel.Proxy) (d : DB)
    : res db_error (list (Z * gmap string managedProxyStatePlan)) :=
  match workspaceIDs with
  | [] => Ok []
  | ws :: rest =>
      match planWorkspaceManagedProxyStates ws proxies d with
      | Err e => Err e
      | Ok plan => match plan_workspaces rest proxies d with Ok l => Ok ((ws, plan) :: l) | Err e => Err e end
      end
  end.

(** The associations of one workspace: the routes its plan names. *)
Definition associate (now : Z) (proxies : list ProxyModel.Proxy) (d : DB) (x : Z * gmap string managedProxyStatePlan) : DB :=
  createWorkspaceAssociations now x.1
    (List.filter (fun p => bool_decide (is_Some (x.2 !! ProxyModel.Hash p))) proxies) x.2 d.

(** [insertAndAssociateProxies]: an error rolls everything back. *)
Definition insertAndAssociateProxies (now : Z) (proxies : list ProxyModel.Proxy) (workspaceIDs : list Z) (d : DB)
    : res db_error (list ProxyModel.Proxy) * DB :=
  match proxies, workspaceIDs with
  | [], _ | _, [] => (Ok [], d)
  | _, _ =>
      match deduplicateProxies proxies with
      | Err e => (Err e, d)
      | Ok unique =>
          match plan_workspaces (normalizeWorkspaceIDs workspaceIDs) unique d with
          | Err e => (Err e, d)
          | Ok plans =>
              match insertProxies unique d with
              | Err e => (Err e, d)
              | Ok (stored, d') => (Ok stored, fold_left (associate now stored) plans d')
              end
          end
      end
  end.

(** The workspaces whose checker has the route: those that manage it actively. *)
Definition active_workspaces (p : Z) (d : DB) : list Z :=
  merge_sort Z.le (omap (fun x => if (x.1.2 =? p) && is_active x.2 && bool_decide (is_Some (workspaces d !! x.1.1)) then Some x.1.1 else None)
                     (map_to_list (managed d))).

(** [fetchProxiesWithWorkspaces], in the order of the input. *)
Definition fetchProxiesWithWorkspaces (proxies : list ProxyModel.Proxy) (d : DB) : list ProxyModel.Proxy :=
  omap (fun p =>
    match List.find (fun x => ProxyModel.ID x.2 =? ProxyModel.ID p) (map_to_list (routes d)) with
    | Some (_, q) =>
        Some (ProxyModel.MkProxy (ProxyModel.ID q) (ProxyModel.IP q) (ProxyModel.IPAddress q) (ProxyModel.Port q) (ProxyModel.Username p)
                (ProxyModel.Password p) (active_workspaces (ProxyModel.ID q) d) None (ProxyModel.Hash q))
    | None => None
    end) proxies.

Definition InsertAndGetProxiesWithWorkspace (now : Z) (proxies : list ProxyModel.Proxy) (workspaceIDs : list Z) (d : DB)
    : res db_error (list ProxyModel.Proxy) * DB :=
  match insertAndAssociateProxies now proxies workspaceIDs d with
  | (Err e, d) => (Err e, d)
  | (Ok [], d) => (Ok [], d)
  | (Ok inserted, d) => (Ok (fetchProxiesWithWorkspaces inserted d), d)
  end.
End Import.

End Routes.
