(* ===== verification/RoutesFacts.v ===== *)
(** * What imports and clean-ups do to managed routes

    The plan of an import, entry by entry; what a whole import leaves in the
    tables; which routes a lowered capacity pauses. *)

From S2P Require Import Prelude GoStrings ProxyModel FailureTracker Usage Routes.
Open Scope Z_scope.

Module RoutesFacts.
Import Routes.

(** ** Counting active rows *)

(** The routes a workspace has active; their number is the count. *)
Definition active_ids (ws : Z) (m : gmap (Z * Z) ManagedProxy) : gset Z := list_to_set (active_list ws m).*1.

Lemma elem_of_active_list ws m p r : (p, r) ∈ active_list ws m <-> m !! (ws, p) = Some r /\ is_active r = true.
Proof.
  unfold active_list. rewrite list_elem_of_omap. split.
  - intros ([[w q] r'] & Hin%elem_of_map_to_list & He). cbn in He. destruct ((w =? ws) && is_active r') eqn:E; [|done].
    injection He as -> ->. breflect. by subst w.
  - intros [Hr Ha]. exists ((ws, p), r). split; [by apply elem_of_map_to_list|]. cbn. by rewrite Z.eqb_refl, Ha.
Qed.

Lemma NoDup_active_list ws m : NoDup (active_list ws m).*1.
Proof.
  unfold active_list. pose proof (NoDup_fst_map_to_list m) as Hnd. induction (map_to_list m) as [|[[w p] r] l IH]; [constructor|].
  apply NoDup_cons in Hnd as [Hx Hnd]. cbn. destruct ((w =? ws) && is_active r) eqn:E; cbn; [|by apply IH].
  constructor; [|by apply IH]. intros ([q r'] & He & Hin)%list_elem_of_fmap. cbn in He. subst q. apply Hx.
  apply list_elem_of_omap in Hin as ([[w' p'] r''] & Hin & Hs). cbn in Hs. destruct ((w' =? ws) && is_active r'') eqn:E'; [|done].
  injection Hs as <- <-. breflect. subst w w'. by apply (list_elem_of_fmap_2 fst _ ((ws, p'), r'')).
Qed.

Lemma elem_of_active_ids ws m p : p ∈ active_ids ws m <-> exists r, m !! (ws, p) = Some r /\ is_active r = true.
Proof.
  unfold active_ids. rewrite elem_of_list_to_set, list_elem_of_fmap. split.
  - intros ([q r] & -> & Hin%elem_of_active_list). by exists r.
  - intros (r & Hr). exists (p, r). split; [done|by apply elem_of_active_list].
Qed.

Lemma active_rows_size (ws : Z) m : active_rows ws m = Z.of_nat (size (active_ids ws m)).
Proof.
  unfold active_ids. rewrite size_list_to_set by apply NoDup_active_list. rewrite length_fmap.
  unfold active_rows, map_sum, active_list. induction (map_to_list m) as [|x l IH]; [done|].
  rewrite sum_of_cons, IH. unfold active_of at 1. cbn. destruct (_ && _); cbn; lia.
Qed.

Lemma active_rows_nonneg (ws : Z) m : 0 <= active_rows ws m.
Proof. rewrite active_rows_size. lia. Qed.

Lemma active_rows_insert (ws w p : Z) m r : m !! (w, p) = None ->
  active_rows ws (<[(w, p) := r]> m) = active_of ws ((w, p), r) + active_rows ws m.
Proof. intros Hk. unfold active_rows. by rewrite map_sum_insert_new. Qed.

(** Where every active row was active before, there are no more of them. *)
Lemma active_rows_le (ws : Z) (m m' : gmap (Z * Z) ManagedProxy) :
  (forall p r', m' !! (ws, p) = Some r' -> is_active r' = true -> exists r, m !! (ws, p) = Some r /\ is_active r = true) ->
  active_rows ws m' <= active_rows ws m.
Proof.
  intros H. rewrite !active_rows_size. apply Nat2Z.inj_le, subseteq_size. intros p (r & Hr & Ha)%elem_of_active_ids.
  apply elem_of_active_ids. by eapply H.
Qed.

Lemma active_rows_ext (ws : Z) (m m' : gmap (Z * Z) ManagedProxy) : (forall p, m !! (ws, p) = m' !! (ws, p)) ->
  active_rows ws m = active_rows ws m'.
Proof. intros H. apply Z.le_antisymm; apply active_rows_le; intros p r Hr Ha; exists r; by rewrite <- ?H, ?H in *. Qed.

(** ** The plan of an import *)

Definition planned (existing : gmap string managedProxyStatePlan) (granted : list string) (h : string) : managedProxyStatePlan :=
  match existing !! h with
  | Some current => current
  | None => if bool_decide (h ∈ granted) then MkPlan Active "" else MkPlan Paused ManagedProxyPauseReasonCapacity
  end.

(** The new routes a workspace may activate, in the order of the import. *)
Definition granted_hashes (unlimited : bool) (available : Z) (existing : gmap string managedProxyStatePlan) (hashes : list string) : list string :=
  let fresh := List.filter (fun h => bool_decide (existing !! h = None)) hashes in
  if unlimited then fresh else take (Z.to_nat available) fresh.

Lemma planned_cons unlimited available existing h hashes : h ∉ hashes -> 0 <= available -> existing !! h = None ->
  granted_hashes unlimited available existing (h :: hashes) =
  (if unlimited || (0 <? available) then h :: granted_hashes unlimited (if unlimited then available else available - 1) existing hashes else []).
Proof.
  intros Hh Ha He. unfold granted_hashes. cbn [List.filter]. rewrite bool_decide_eq_true_2 by done.
  destruct unlimited; [done|]. cbn [orb]. destruct (0 <? available) eqn:E; breflect.
  - replace (Z.to_nat available) with (S (Z.to_nat (available - 1))) by lia. done.
  - by replace (Z.to_nat available) with 0%nat by lia.
Qed.

Lemma granted_in unlimited available existing hashes h : h ∈ granted_hashes unlimited available existing hashes ->
  h ∈ hashes /\ existing !! h = None.
Proof.
  unfold granted_hashes. intros H. assert (h ∈ List.filter (fun h => bool_decide (existing !! h = None)) hashes) as Hf.
  { destruct unlimited; [done|]. rewrite <- (take_drop (Z.to_nat available) (List.filter _ _)). apply elem_of_app. by left. }
  apply list_elem_of_In, filter_In in Hf as [Hf1 Hf2]. split; [by apply list_elem_of_In|by apply bool_decide_eq_true_1 in Hf2].
Qed.

Lemma plan_loop_spec existing unlimited available hashes plan h : NoDup hashes -> 0 <= available ->
  plan_loop existing unlimited available hashes plan !! h =
  if bool_decide (h ∈ hashes) then Some (planned existing (granted_hashes unlimited available existing hashes) h) else plan !! h.
Proof.
  revert available plan. induction hashes as [|k hashes IH]; intros available plan Hnd Ha; cbn [plan_loop].
  { by rewrite bool_decide_eq_false_2 by by apply not_elem_of_nil. }
  apply NoDup_cons in Hnd as [Hk Hnd].
  assert (forall c (g : list string), planned existing g k = c ->
            (forall h, h ∈ hashes -> planned existing g h = planned existing (granted_hashes unlimited available existing (k :: hashes)) h) ->
            c = planned existing (granted_hashes unlimited available existing (k :: hashes)) k ->
            (if bool_decide (h ∈ hashes) then Some (planned existing g h) else <[k := c]> plan !! h) =
            (if bool_decide (h ∈ k :: hashes) then Some (planned existing (granted_hashes unlimited available existing (k :: hashes)) h) else plan !! h)) as Hstep.
  { intros c g Hc Hg Hck. case_bool_decide as H1.
    - rewrite bool_decide_eq_true_2 by by right. by rewrite Hg.
    - destruct (decide (h = k)) as [->|Hn].
      + rewrite lookup_insert_eq, bool_decide_eq_true_2 by by left. by rewrite Hck.
      + rewrite lookup_insert_ne, bool_decide_eq_false_2 by (done || by intros [|]%elem_of_cons). done. }
  destruct (existing !! k) as [current|] eqn:Ek.
  { assert (granted_hashes unlimited available existing (k :: hashes) = granted_hashes unlimited available existing hashes) as Hg.
    { unfold granted_hashes. cbn [List.filter]. by rewrite Ek, bool_decide_eq_false_2. }
    rewrite IH by done. rewrite <- Hg. apply Hstep; [|done|]; unfold planned; by rewrite Ek. }
  assert (Hc := planned_cons unlimited available existing k hashes Hk Ha Ek).
  destruct (unlimited || (0 <? available)) eqn:Eu.
  - rewrite IH; [|done|destruct unlimited; [done|]; cbn in Eu; breflect; lia].
    set (g := granted_hashes unlimited (if unlimited then available else available - 1) existing hashes) in *.
    case_bool_decide as H1.
    + rewrite bool_decide_eq_true_2 by by right. rewrite Hc. unfold planned. destruct (existing !! h); [done|].
      erewrite bool_decide_ext; [done|]. rewrite elem_of_cons. split; [by right|intros [->|]; [done|done]].
    + destruct (decide (h = k)) as [->|Hn].
      * rewrite lookup_insert_eq, bool_decide_eq_true_2 by by left. rewrite Hc. unfold planned. rewrite Ek, bool_decide_eq_true_2 by by left. done.
      * rewrite lookup_insert_ne, bool_decide_eq_false_2 by (done || by intros [|]%elem_of_cons). done.
  - rewrite IH by done. assert (granted_hashes unlimited available existing hashes = []) as Hg.
    { apply orb_false_iff in Eu as [-> Eu]. breflect. unfold granted_hashes. by replace (Z.to_nat available) with 0%nat by lia. }
    rewrite Hg. apply Hstep; rewrite ?Hc; [unfold planned; by rewrite Ek, bool_decide_eq_false_2 by by apply not_elem_of_nil|done|].
    unfold planned. by rewrite Ek, bool_decide_eq_false_2 by by apply not_elem_of_nil.
Qed.

(** The capacity left. *)
Definition capacity_left (subscription : option WorkspaceSubscription) (activeCount : Z) : bool * Z :=
  let '(limit, unlimited) := match subscription with Some s => ActivationLimit s | None => (0, true) end in
  (unlimited, if activeCount <? wrap_i64 limit then limit - activeCount else 0).

Lemma wrap_i64_le z : 0 <= z -> wrap_i64 z <= z.
Proof. intros Hz. unfold wrap_signed. pose proof (Z.mod_le (z + 2 ^ (64 - 1)) (2 ^ 64) ltac:(lia) ltac:(lia)). lia. Qed.

Lemma limit_nonneg s : 0 <= (ActivationLimit s).1.
Proof.
  unfold ActivationLimit, IncludedCapacity. repeat destruct (String.eqb _ _); cbn; [lia| |];
    apply wrap_unsigned_range; lia.
Qed.

Lemma capacity_left_nonneg subscription n : 0 <= (capacity_left subscription n).2.
Proof.
  unfold capacity_left. destruct subscription as [s|].
  - pose proof (limit_nonneg s). destruct (ActivationLimit s) as [limit unl]. cbn in *.
    destruct (n <? wrap_i64 limit) eqn:E; breflect; [|lia]. pose proof (wrap_i64_le limit). lia.
  - pose proof (wrap_i64_le 0). cbn. destruct (n <? wrap_i64 0) eqn:E; breflect; lia.
Qed.

Lemma plan_states_spec subscription existing hashes n h : NoDup hashes ->
  (forall k, is_Some (existing !! k) -> k ∈ hashes) ->
  let '(unlimited, available) := capacity_left subscription n in
  plan_states subscription existing hashes n !! h =
  if bool_decide (h ∈ hashes) then Some (planned existing (granted_hashes unlimited available existing hashes) h) else None.
Proof.
  intros Hnd Hdom. pose proof (capacity_left_nonneg subscription n) as Hc. unfold capacity_left in *.
  unfold plan_states. destruct (match subscription with Some s => ActivationLimit s | None => (0, true) end) as [limit unl] eqn:El.
  cbn in Hc. destruct (Nat.eqb (size existing) (length hashes)) eqn:Es.
  - apply Nat.eqb_eq in Es. case_bool_decide as Hh.
    + assert (dom existing ≡ (list_to_set hashes : gset string)) as Hd.
      { apply set_subseteq_size_equiv; [intros k Hk%elem_of_dom; apply elem_of_list_to_set; by apply Hdom|].
        rewrite size_dom, Es. by rewrite size_list_to_set. }
      assert (h ∈ dom existing) as [c Hc']%elem_of_dom by (rewrite Hd; by apply elem_of_list_to_set).
      rewrite Hc'. unfold planned. by rewrite Hc'.
    + apply eq_None_not_Some. intros Hs. by apply Hh, Hdom.
  - rewrite plan_loop_spec by done. by rewrite lookup_empty.
Qed.

Lemma existing_states_spec ws hashes d h :
  existing_states ws hashes d !! h = if bool_decide (h ∈ hashes) then management ws d h else None.
Proof.
  unfold existing_states. induction hashes as [|k hashes IH]; cbn [omap list_omap].
  { by rewrite bool_decide_eq_false_2 by by apply not_elem_of_nil. }
  destruct (decide (h = k)) as [->|Hn].
  - rewrite (bool_decide_eq_true_2 (k ∈ k :: hashes)) by by left. destruct (management ws d k) as [c|] eqn:Ec.
    + by rewrite list_to_map_cons, lookup_insert_eq.
    + rewrite IH. case_bool_decide; [done|done].
  - rewrite (bool_decide_ext (h ∈ k :: hashes) (h ∈ hashes)) by (rewrite elem_of_cons; naive_solver).
    destruct (management ws d k) as [c|]; [by rewrite list_to_map_cons, lookup_insert_ne|done].
Qed.

(** ** The tables of an import *)

(** [proxies] has one row per hash and per identifier, and [user_proxies]
    refers to its rows. *)
Record wf (d : DB) : Prop := {
  wf_id : forall h h' q q', routes d !! h = Some q -> routes d !! h' = Some q' -> ProxyModel.ID q = ProxyModel.ID q' -> h = h';
  wf_rows : forall ws p m, managed d !! (ws, p) = Some m -> p ∈ live_routes d
}.

Lemma elem_of_live p d : p ∈ live_routes d <-> exists h q, routes d !! h = Some q /\ ProxyModel.ID q = p.
Proof.
  unfold live_routes. rewrite elem_of_list_to_set, list_elem_of_fmap. split.
  - intros ([h q] & -> & Hx%elem_of_map_to_list). by exists h, q.
  - intros (h & q & Hq & <-). exists (h, q). split; [done|by apply elem_of_map_to_list].
Qed.

Section Import.
Context (toASCII : string -> option string).
Context (FingerprintProxyRoute : string -> Z -> string -> string -> option string).
Context (nonempty : ProxyModel.fingerprint_nonempty FingerprintProxyRoute).
Abbreviation insertProxies := (insertProxies toASCII FingerprintProxyRoute).
Abbreviation dedup_proxies := (dedup_proxies toASCII FingerprintProxyRoute).

Lemma BeforeSave_hash p p' : ProxyModel.BeforeSave toASCII FingerprintProxyRoute p = Ok p' -> ProxyModel.Hash p <> "" ->
  ProxyModel.Hash p' = ProxyModel.Hash p.
Proof.
  unfold ProxyModel.BeforeSave. intros H Hh.
  assert (forall q, (if negb (String.eqb (ProxyModel.IP p) "") then ProxyModel.SetHost toASCII p (ProxyModel.IP p)
            else match ProxyModel.IPAddress p with Some a => ProxyModel.SetIP p a | None => Ok p end) = Ok q ->
            ProxyModel.Hash q = ProxyModel.Hash p) as Hs.
  { intros q Hq. destruct (negb _).
    - unfold ProxyModel.SetHost in Hq. repeat split_if_in Hq; by simplify_eq.
    - destruct (ProxyModel.IPAddress p); [|by simplify_eq]. unfold ProxyModel.SetIP in Hq. repeat split_if_in Hq; by simplify_eq. }
  destruct (if negb _ then _ else _) as [q|e]; [|done]. specialize (Hs q eq_refl).
  destruct (slen (ProxyModel.Hash q) =? 0)%nat eqn:E; [|injection H as <-; done].
  apply Nat.eqb_eq in E. rewrite Hs in E. by destruct (ProxyModel.Hash p).
Qed.

Record stores (d d' : DB) : Prop := {
  st_wf : wf d';
  st_managed : managed d' = managed d;
  st_subscriptions : subscriptions d' = subscriptions d;
  st_grow : forall h q, routes d !! h = Some q -> routes d' !! h = Some q;
  st_new : forall h q, routes d' !! h = Some q -> routes d !! h = None -> ProxyModel.ID q ∉ live_routes d
}.

Lemma stores_refl d : wf d -> stores d d.
Proof. intros Hw. split; [done..|]. intros; congruence. Qed.

Lemma stores_trans d d1 d2 : stores d d1 -> stores d1 d2 -> stores d d2.
Proof.
  intros A B. split; [apply B|by rewrite (st_managed _ _ B), (st_managed _ _ A)|by rewrite (st_subscriptions _ _ B), (st_subscriptions _ _ A)| |].
  - intros h q H. by apply (st_grow _ _ B), (st_grow _ _ A).
  - intros h q H Hn. destruct (routes d1 !! h) as [q1|] eqn:E1.
    + apply (st_grow _ _ B) in E1 as E2. rewrite H in E2. injection E2 as ->. by apply (st_new _ _ A h).
    + intros (h0 & q0 & H0 & H1)%elem_of_live. apply (st_new _ _ B h q H E1), elem_of_live. exists h0, q0. split; [|done].
      by apply (st_grow _ _ A).
Qed.

Lemma stores_one d h p id n : wf d -> routes d !! h = None -> id ∉ live_routes d ->
  stores d (set_routes (<[h := with_id id p]> (routes d)) n d).
Proof.
  intros Hw Hh Hid.
  assert (forall h' q, routes d !! h' = Some q -> ProxyModel.ID q = id -> False) as Hno.
  { intros h' q Hq He. apply Hid, elem_of_live. by exists h', q. }
  split; [split| | | |]; cbn; try done.
  - intros a b q q'. rewrite !lookup_insert_Some. intros [[<- <-]|[? Ha]] [[<- <-]|[? Hb]] He; cbn in *; [done| | |by eapply wf_id].
    + exfalso. by eapply (Hno b q').
    + exfalso. by eapply (Hno a q).
  - intros ws x m Hm. apply (wf_rows d Hw) in Hm. apply elem_of_live in Hm as (h' & q & Hq & <-). apply elem_of_live. cbn.
    exists h', q. split; [|done]. rewrite lookup_insert_ne by congruence. done.
  - intros h' q Hq. rewrite lookup_insert_ne by congruence. done.
  - intros h' q. rewrite lookup_insert_Some. intros [[<- <-]|[_ Hq]] Hn; [done|congruence].
Qed.

Lemma insertProxies_spec ps d l d' : wf d -> Forall (fun p => ProxyModel.Hash p <> "") ps -> insertProxies ps d = Ok (l, d') ->
  stores d d' /\ map ProxyModel.Hash l = map ProxyModel.Hash ps /\
  Forall (fun p => exists q, routes d' !! ProxyModel.Hash p = Some q /\ ProxyModel.ID q = ProxyModel.ID p) l.
Proof.
  intros Hw Hn. revert d l d' Hw. induction Hn as [|p ps Hp Hn IH]; intros d l d' Hw; cbn [Routes.insertProxies].
  { intros [= <- <-]. split; [by apply stores_refl|]. by split. }
  destruct (ProxyModel.BeforeSave _ _ p) as [p'|] eqn:Eb; [|done]. apply BeforeSave_hash in Eb as Hh; [|done].
  intros H.
  assert (exists id d1, stores d d1 /\ (exists q, routes d1 !! ProxyModel.Hash p' = Some q /\ ProxyModel.ID q = id) /\
    match insertProxies ps d1 with Ok (l0, d2) => Ok (with_id id p' :: l0, d2) | Err e => Err e end = Ok (l, d')) as (id & d1 & Hs & (q & Hq & Hid) & H1).
  { destruct (routes d !! ProxyModel.Hash p') as [q|] eqn:Er.
    - exists (ProxyModel.ID q), d. split; [by apply stores_refl|]. split; [by exists q|done].
    - destruct (if ProxyModel.ID p' =? 0 then _ else _) as [id n] eqn:Ei. case_bool_decide as Hl; [done|].
      eexists id, _. split; [by apply (stores_one d (ProxyModel.Hash p') p' id n)|]. split; [|exact H].
      cbn. rewrite lookup_insert_eq. by eexists. }
  destruct (insertProxies ps d1) as [[l0 d2]|] eqn:Ei; [|done]. injection H1 as <- <-.
  destruct (IH d1 l0 d2 (st_wf _ _ Hs) Ei) as (Hs2 & Hm & Hf). split; [by eapply stores_trans|]. split.
  - cbn. by rewrite Hm, Hh.
  - constructor; [|done]. cbn. exists q. split; [by apply (st_grow _ _ Hs2)|done].
Qed.

Lemma dedup_proxies_spec seen ps l : dedup_proxies seen ps = Ok l ->
  NoDup (map ProxyModel.Hash l) /\ Forall (fun p => ProxyModel.Hash p <> "" /\ ProxyModel.Hash p ∉ seen) l.
Proof.
  revert seen l. induction ps as [|p ps IH]; intros seen l; cbn [Routes.dedup_proxies].
  { intros [= <-]. by split; constructor. }
  destruct (ProxyModel.GenerateHash _ _ p) as [p'|] eqn:Eg; [|done].
  assert (ProxyModel.Hash p' <> "") as Hp.
  { unfold ProxyModel.GenerateHash in Eg. destruct (if negb _ then _ else _) as [q|]; [|done].
    destruct (FingerprintProxyRoute _ _ _ _) as [h|] eqn:Ef; [|done]. injection Eg as <-. cbn. by eapply nonempty. }
  case_bool_decide as Hs; [apply IH|].
  destruct (dedup_proxies (ProxyModel.Hash p' :: seen) ps) as [l0|] eqn:El; [|done]. intros [= <-].
  apply IH in El as [Hnd Hf]. split.
  - cbn. constructor; [|done]. intros (x & He & Hx)%list_elem_of_fmap. rewrite Forall_forall in Hf. destruct (Hf x Hx) as [_ Hx'].
    apply Hx'. rewrite <- He. by left.
  - constructor; [done|]. eapply Forall_impl; [exact Hf|]. intros x [? Hx]. split; [done|]. intros ?. apply Hx. by right.
Qed.
End Import.

(** ** Associations *)

Section Associations.
Context (now ws : Z) (plans : gmap string managedProxyStatePlan).

(** The row of a route after the import. *)
Definition associated (m : gmap (Z * Z) ManagedProxy) (p : ProxyModel.Proxy) : option ManagedProxy :=
  match m !! (ws, ProxyModel.ID p) with
  | Some r => Some (set_credentials (ProxyModel.Username p, ProxyModel.Password p) r)
  | None => new_row now p <$> plans !! ProxyModel.Hash p
  end.

Definition fresh (m : gmap (Z * Z) ManagedProxy) (p : ProxyModel.Proxy) : bool := bool_decide (m !! (ws, ProxyModel.ID p) = None).

Lemma insert_associations_spec l n m n' m' : NoDup (map ProxyModel.ID l) ->
  Forall (fun p => is_Some (plans !! ProxyModel.Hash p)) l ->
  fold_left (insert_association now ws plans) l (n, m) = (n', m') ->
  n' = n + Z.of_nat (length (List.filter (fresh m) l)) /\
  (forall p, p ∈ l -> m' !! (ws, ProxyModel.ID p) =
     match m !! (ws, ProxyModel.ID p) with Some r => Some r | None => new_row now p <$> plans !! ProxyModel.Hash p end) /\
  (forall k, (k.1 = ws -> k.2 ∉ map ProxyModel.ID l) -> m' !! k = m !! k).
Proof.
  revert n m. induction l as [|p l IH]; intros n m Hnd Hp; cbn [fold_left List.filter length].
  { intros [= <- <-]. split; [lia|]. split; [by intros p ?%not_elem_of_nil|done]. }
  apply NoDup_cons in Hnd as [Hx Hnd]. apply Forall_cons in Hp as [[plan Hplan] Hp].
  assert (exists n1 m1, insert_association now ws plans (n, m) p = (n1, m1) /\
    n1 = n + (if fresh m p then 1 else 0) /\
    m1 !! (ws, ProxyModel.ID p) = match m !! (ws, ProxyModel.ID p) with Some r => Some r | None => new_row now p <$> plans !! ProxyModel.Hash p end /\
    (forall k, k <> (ws, ProxyModel.ID p) -> m1 !! k = m !! k)) as (n1 & m1 & E1 & Hn1 & Hm1 & Ho1).
  { unfold insert_association, fresh. cbn. rewrite Hplan. destruct (m !! (ws, ProxyModel.ID p)) as [r|] eqn:Em.
    - rewrite bool_decide_eq_false_2 by done. exists n, m. split_and!; [done|lia|done|done].
    - rewrite bool_decide_eq_true_2 by done. eexists _, _. split_and!; [done|done|by rewrite lookup_insert_eq|].
      intros k Hk. by rewrite lookup_insert_ne. }
  rewrite E1. intros H. apply IH in H as (Hn & Hin & Hout); [|done|done].
  assert (List.filter (fresh m1) l = List.filter (fresh m) l) as Hf.
  { apply filter_ext_in. intros q Hq%list_elem_of_In. unfold fresh. rewrite Ho1; [done|].
    intros [= He]. apply Hx. rewrite <- He. by apply list_elem_of_fmap_2. }
  split; [|split].
  - rewrite Hn, Hn1, Hf. destruct (fresh m p); cbn; lia.
  - intros q [->|Hq]%elem_of_cons.
    + rewrite Hout; [done|]. by intros _.
    + rewrite (Hin q Hq), Ho1; [done|]. intros [= He]. apply Hx. rewrite <- He. by apply list_elem_of_fmap_2.
  - intros k Hk. rewrite Hout, Ho1; [done| |].
    + intros ->. cbn in Hk. destruct (Hk eq_refl). by left.
    + intros He Hin'. apply (Hk He). by right.
Qed.

Lemma update_credentials_spec l m : NoDup (map ProxyModel.ID l) ->
  let m' := updateWorkspaceAssociationCredentials ws l m in
  (forall p, p ∈ l -> m' !! (ws, ProxyModel.ID p) =
     set_credentials (ProxyModel.Username p, ProxyModel.Password p) <$> m !! (ws, ProxyModel.ID p)) /\
  (forall k, (k.1 = ws -> k.2 ∉ map ProxyModel.ID l) -> m' !! k = m !! k).
Proof.
  unfold updateWorkspaceAssociationCredentials. revert m. induction l as [|p l IH]; intros m Hnd; cbn [fold_left].
  { split; [by intros p ?%not_elem_of_nil|done]. }
  apply NoDup_cons in Hnd as [Hx Hnd].
  destruct (IH (alter (set_credentials (ProxyModel.Username p, ProxyModel.Password p)) (ws, ProxyModel.ID p) m) Hnd) as [Hin Hout].
  cbv zeta. split.
  - intros q [->|Hq]%elem_of_cons.
    + rewrite Hout by by intros _. by rewrite lookup_alter_eq.
    + rewrite (Hin q Hq), lookup_alter_ne; [done|]. intros [= He]. apply Hx. rewrite He. by apply list_elem_of_fmap_2.
  - intros k Hk. rewrite Hout by (intros He Hin'; apply (Hk He); by right). apply lookup_alter_ne. intros <-. cbn in Hk.
    destruct (Hk eq_refl). by left.
Qed.

Lemma createWorkspaceAssociations_spec l d : NoDup (map ProxyModel.ID l) ->
  Forall (fun p => is_Some (plans !! ProxyModel.Hash p)) l ->
  let d' := createWorkspaceAssociations now ws l plans d in
  (forall p, p ∈ l -> managed d' !! (ws, ProxyModel.ID p) = associated (managed d) p) /\
  (forall k, (k.1 = ws -> k.2 ∉ map ProxyModel.ID l) -> managed d' !! k = managed d !! k).
Proof.
  intros Hnd Hp. unfold createWorkspaceAssociations. destruct l as [|p0 l0] eqn:El.
  { split; [by intros p ?%not_elem_of_nil|done]. }
  rewrite <- El in *. clear El p0 l0.
  destruct (fold_left (insert_association now ws plans) l (0, managed d)) as [n m] eqn:E.
  apply insert_associations_spec in E as (Hn & Hin & Hout); [|done|done].
  assert (forall d' : DB, managed (if n =? 0 then d' else refreshWorkspaceUsageActiveRoutes now ws d') = managed d') as Hr.
  { intros d'. unfold refreshWorkspaceUsageActiveRoutes. by destruct (n =? 0), (ws =? 0). }
  cbv zeta. rewrite Hr. cbn. destruct (n <? Z.of_nat (length l)) eqn:Elt; breflect.
  - destruct (update_credentials_spec l m Hnd) as [Hin2 Hout2]. split.
    + intros p Hpl. rewrite (Hin2 p Hpl), (Hin p Hpl). unfold associated.
      destruct (managed d !! (ws, ProxyModel.ID p)); [done|]. by destruct (plans !! ProxyModel.Hash p).
    + intros k Hk. by rewrite Hout2, Hout.
  - split; [|done]. intros p Hpl. rewrite (Hin p Hpl). unfold associated.
    assert (managed d !! (ws, ProxyModel.ID p) = None) as ->; [|done].
    assert (length (List.filter (fresh (managed d)) l) <= length l)%nat as Hle by apply List.filter_length_le.
    assert (length (List.filter (fresh (managed d)) l) = length l) as Hall by lia.
    apply filter_length_forallb, forallb_forall with (x := p) in Hall; [|by apply list_elem_of_In].
    by apply bool_decide_eq_true_1 in Hall.
Qed.
End Associations.

Lemma associations_frame now ws l plans d : routes (createWorkspaceAssociations now ws l plans d) = routes d /\
  subscriptions (createWorkspaceAssociations now ws l plans d) = subscriptions d.
Proof.
  unfold createWorkspaceAssociations, refreshWorkspaceUsageActiveRoutes. destruct l; [done|].
  destruct (fold_left _ _ _) as [n m]. destruct (n <? _), (n =? 0), (ws =? 0); done.
Qed.

Lemma associate_all_spec now stored plans d : NoDup (map ProxyModel.ID stored) -> NoDup plans.*1 ->
  (forall ws plan, (ws, plan) ∈ plans -> Forall (fun p => is_Some (plan !! ProxyModel.Hash p)) stored) ->
  let d' := fold_left (associate now stored) plans d in
  (forall ws plan p, (ws, plan) ∈ plans -> p ∈ stored -> managed d' !! (ws, ProxyModel.ID p) = associated now ws plan (managed d) p) /\
  (forall k, (k.1 ∈ plans.*1 -> k.2 ∉ map ProxyModel.ID stored) -> managed d' !! k = managed d !! k) /\ routes d' = routes d.
Proof.
  intros Hid. revert d. induction plans as [|[ws plan] plans IH]; intros d Hnd Hp; cbn [fold_left].
  { split; [by intros ? ? ? ?%not_elem_of_nil|done]. }
  apply NoDup_cons in Hnd as [Hx Hnd].
  assert (Forall (fun p => is_Some (plan !! ProxyModel.Hash p)) stored) as Hall by (apply (Hp ws); by left).
  set (d1 := associate now stored d (ws, plan)).
  assert (d1 = createWorkspaceAssociations now ws stored plan d) as Hd1.
  { unfold d1, associate. cbn [fst snd]. f_equal. apply forallb_filter_id, forallb_forall. intros p Hin%list_elem_of_In.
    apply bool_decide_eq_true. rewrite Forall_forall in Hall. by apply Hall. }
  destruct (createWorkspaceAssociations_spec now ws plan stored d Hid Hall) as [H1 H2]. rewrite <- Hd1 in H1, H2.
  destruct (IH d1 Hnd) as (H3 & H4 & H5); [intros w pl Hin; eapply Hp; by right|].
  cbv zeta. split_and!.
  - intros w pl p Hin Hps. apply elem_of_cons in Hin as [[= -> ->]|Hin].
    + rewrite H4; [by apply H1|]. by intros ?.
    + rewrite (H3 w pl p Hin Hps). unfold associated.
      assert (w <> ws) as Hw by (intros ->; apply Hx; by apply (list_elem_of_fmap_2 fst _ (ws, pl))).
      rewrite H2; [done|]. cbn. done.
  - intros k Hk. rewrite H4, H2; [done| |].
    + intros He. apply Hk. rewrite He. by left.
    + intros He. apply Hk. by right.
  - rewrite H5, Hd1. apply associations_frame.
Qed.

Lemma plan_workspaces_spec ids proxies d plans : plan_workspaces ids proxies d = Ok plans ->
  plans.*1 = ids /\ forall ws plan, (ws, plan) ∈ plans ->
    plan = plan_states (subscriptions d !! ws) (existing_states ws (map ProxyModel.Hash proxies) d) (map ProxyModel.Hash proxies) (active_rows ws (managed d)).
Proof.
  revert plans. induction ids as [|w ids IH]; intros plans; cbn [plan_workspaces].
  { intros [= <-]. split; [done|]. by intros ? ? ?%not_elem_of_nil. }
  unfold planWorkspaceManagedProxyStates. destruct (w =? 0); [done|].
  destruct (plan_workspaces ids proxies d) as [l|]; [|done]. intros [= <-]. destruct (IH l eq_refl) as [<- Hl]. split; [done|].
  intros ws plan [[= -> ->]|Hin]%elem_of_cons; [done|by apply Hl].
Qed.

Lemma normalize_spec ids : NoDup (normalizeWorkspaceIDs ids) /\ forall w, w ∈ normalizeWorkspaceIDs ids <-> w ∈ ids.
Proof.
  unfold normalizeWorkspaceIDs. split; [apply NoDup_dedup_go|]. intros w. rewrite elem_of_dedup_go, merge_sort_Permutation.
  split; [by intros [? _]|]. intros Hw. split; [done|by intros ?%not_elem_of_nil].
Qed.

(** ** A whole import *)

#[export] Instance lease_eq_dec : EqDecision ProxyModel.ProxyQueueLease.
Proof. solve_decision. Defined.

#[export] Instance proxy_eq_dec : EqDecision ProxyModel.Proxy.
Proof. solve_decision. Defined.

(** The routes a workspace may activate: the first of those it does not manage
    yet, as many as it has capacity for. *)
Definition activated (d : DB) (ws : Z) (stored : list ProxyModel.Proxy) : list ProxyModel.Proxy :=
  let '(unlimited, available) := capacity_left (subscriptions d !! ws) (active_rows ws (managed d)) in
  let new := List.filter (fresh ws (managed d)) stored in
  if unlimited then new else take (Z.to_nat available) new.

Lemma elem_of_map_NoDup {A B} (g : A -> B) (l l' : list A) x : NoDup (map g l) -> l' ⊆ l -> x ∈ l -> g x ∈ map g l' -> x ∈ l'.
Proof.
  intros Hnd Hs Hx (y & He & Hy)%list_elem_of_fmap. assert (x = y) as ->; [|done]. apply Hs in Hy as Hyl. clear Hs Hy.
  induction l as [|z l IH]; [by apply not_elem_of_nil in Hx|]. apply NoDup_cons in Hnd as [Hz Hnd].
  apply elem_of_cons in Hx as [->|Hx]; apply elem_of_cons in Hyl as [->|Hyl]; [done| | |by apply IH].
  - exfalso. apply Hz. rewrite He. by apply list_elem_of_fmap_2.
  - exfalso. apply Hz. rewrite <- He. by apply list_elem_of_fmap_2.
Qed.

(** What [insertProxies] leaves: each route is stored under its hash. *)
Definition stored_as (d' : DB) (l : list ProxyModel.Proxy) : Prop :=
  forall p, p ∈ l -> exists q, routes d' !! ProxyModel.Hash p = Some q /\ ProxyModel.ID q = ProxyModel.ID p.

Lemma stored_ids d' l : wf d' -> stored_as d' l -> NoDup (map ProxyModel.Hash l) -> NoDup (map ProxyModel.ID l).
Proof.
  intros Hw. induction l as [|p l IH]; intros Hid Hnd; [constructor|]. apply NoDup_cons in Hnd as [Hp Hnd]. cbn. constructor.
  - intros (q & He & Hq)%list_elem_of_fmap. apply Hp. destruct (Hid p) as (x & Hx & Hxi); [by left|].
    destruct (Hid q) as (y & Hy & Hyi); [by right|]. rewrite (wf_id _ Hw _ _ x y Hx Hy) by congruence.
    by apply list_elem_of_fmap_2.
  - apply IH; [|done]. intros q Hq. apply Hid. by right.
Qed.

Lemma management_stored d d' l ws p : wf d -> stores d d' -> stored_as d' l -> p ∈ l ->
  management ws d (ProxyModel.Hash p) =
  (fun m => MkPlan (FailureTracker.State (core m)) (FailureTracker.PauseReason (core m))) <$> managed d !! (ws, ProxyModel.ID p).
Proof.
  intros Hw Hs Hid Hp. unfold management. destruct (Hid p Hp) as (q & Hq & Hqi).
  destruct (routes d !! ProxyModel.Hash p) as [q0|] eqn:E0.
  - apply (st_grow _ _ Hs) in E0. rewrite Hq in E0. injection E0 as <-. rewrite Hqi. by destruct (managed d !! _).
  - destruct (managed d !! (ws, ProxyModel.ID p)) as [r|] eqn:Er; [|done]. apply (wf_rows _ Hw) in Er.
    exfalso. apply (st_new _ _ Hs _ _ Hq E0). by rewrite Hqi.
Qed.

Lemma activated_sub d ws l : activated d ws l ⊆ l.
Proof.
  unfold activated. destruct (capacity_left _ _) as [unl av]. intros q Hq.
  assert (q ∈ List.filter (fresh ws (managed d)) l) as Hf.
  { destruct unl; [done|]. rewrite <- (take_drop (Z.to_nat av) (List.filter _ _)). apply elem_of_app. by left. }
  by apply list_elem_of_In, filter_In in Hf as [?%list_elem_of_In _].
Qed.

(** The plan of a workspace for a route of the import. *)
Lemma plan_of_import d d' l ws p : wf d -> stores d d' -> stored_as d' l -> NoDup (map ProxyModel.Hash l) -> p ∈ l ->
  plan_states (subscriptions d !! ws) (existing_states ws (map ProxyModel.Hash l) d) (map ProxyModel.Hash l) (active_rows ws (managed d))
    !! ProxyModel.Hash p =
  Some (match managed d !! (ws, ProxyModel.ID p) with
        | Some m => MkPlan (FailureTracker.State (core m)) (FailureTracker.PauseReason (core m))
        | None => if bool_decide (p ∈ activated d ws l) then MkPlan Active "" else MkPlan Paused ManagedProxyPauseReasonCapacity
        end).
Proof.
  intros Hw Hs Hid Hnd Hp.
  pose proof (plan_states_spec (subscriptions d !! ws) (existing_states ws (map ProxyModel.Hash l) d) (map ProxyModel.Hash l)
    (active_rows ws (managed d)) (ProxyModel.Hash p) Hnd) as H.
  pose proof (activated_sub d ws l) as Hsub. unfold activated in *. destruct (capacity_left _ _) as [unl av]. rewrite H.
  2:{ intros k [c Hc]. rewrite existing_states_spec in Hc. destruct (bool_decide (k ∈ _)) eqn:E; [by apply bool_decide_eq_true_1 in E|done]. }
  assert (ProxyModel.Hash p ∈ map ProxyModel.Hash l) as Hin by by apply list_elem_of_fmap_2.
  rewrite (bool_decide_eq_true_2 _ Hin). f_equal. unfold planned. rewrite existing_states_spec, (bool_decide_eq_true_2 _ Hin).
  rewrite (management_stored d d' l) by done. destruct (managed d !! (ws, ProxyModel.ID p)) as [m|] eqn:Em; [done|]. cbn.
  erewrite bool_decide_ext; [done|]. unfold granted_hashes. rewrite filter_map_comm.
  assert (List.filter (fun x => bool_decide (existing_states ws (map ProxyModel.Hash l) d !! ProxyModel.Hash x = None)) l
          = List.filter (fresh ws (managed d)) l) as ->.
  { apply filter_ext_in. intros q Hq%list_elem_of_In. unfold fresh. apply bool_decide_ext.
    rewrite existing_states_spec, bool_decide_eq_true_2, (management_stored d d' l) by (done || by apply list_elem_of_fmap_2).
    apply fmap_None. }
  destruct unl; [|rewrite (firstn_map ProxyModel.Hash)]; (split; [by apply (elem_of_map_NoDup _ l)|by apply list_elem_of_fmap_2]).
Qed.

Section Outcome.
Context (toASCII : string -> option string).
Context (FingerprintProxyRoute : string -> Z -> string -> string -> option string).

(** C17. A successful import, whichever workspaces and routes it names: a route
    a workspace manages already keeps its state, its reason and its times, and
    gets the imported credentials; of the others, in the order of the import, as
    many become active as the subscription leaves capacity for and the rest are
    kept, paused for capacity; no other row changes. *)
Theorem import_outcome now proxies ids d stored d' :
  ProxyModel.fingerprint_nonempty FingerprintProxyRoute -> wf d ->
  insertAndAssociateProxies toASCII FingerprintProxyRoute now proxies ids d = (Ok stored, d') ->
  (forall ws p, ws ∈ ids -> p ∈ stored ->
     managed d' !! (ws, ProxyModel.ID p) = Some
       match managed d !! (ws, ProxyModel.ID p) with
       | Some r => set_credentials (ProxyModel.Username p, ProxyModel.Password p) r
       | None => new_row now p (if bool_decide (p ∈ activated d ws stored) then MkPlan Active "" else MkPlan Paused ManagedProxyPauseReasonCapacity)
       end) /\
  (forall k, (k.1 ∈ ids -> k.2 ∉ map ProxyModel.ID stored) -> managed d' !! k = managed d !! k).
Proof.
  intros Hne Hw. unfold insertAndAssociateProxies.
  assert ((Ok [], d) = (Ok stored, d') :> res db_error (list ProxyModel.Proxy) * DB ->
    (forall ws p, ws ∈ ids -> p ∈ stored -> False) /\ d' = d) as Hnil.
  { intros [= <- <-]. split; [by intros ? ? _ ?%not_elem_of_nil|done]. }
  destruct proxies as [|p0 ps]; [|destruct ids as [|i0 is0]].
  1,2: intros H; destruct (Hnil H) as [He ->]; split; [intros ws p Hi Hp; destruct (He ws p Hi Hp)|done].
  clear Hnil. set (proxies := p0 :: ps). set (ids := i0 :: is0).
  destruct (deduplicateProxies toASCII FingerprintProxyRoute proxies) as [unique|] eqn:Ed; [|done].
  destruct (plan_workspaces (normalizeWorkspaceIDs ids) unique d) as [plans|] eqn:Ep; [|done].
  destruct (insertProxies toASCII FingerprintProxyRoute unique d) as [[l d1]|] eqn:Ei; [|done]. intros [= <- <-].
  apply dedup_proxies_spec in Ed as [Hnd Hh]; [|done]. apply plan_workspaces_spec in Ep as [Hfst Hplan].
  apply insertProxies_spec in Ei as (Hs & Hm & Hid); [|done|eapply Forall_impl; [exact Hh|by intros ? []]].
  destruct (normalize_spec ids) as [Hn1 Hn2]. rewrite Forall_forall in Hid. rewrite <- Hm in *.
  pose proof (stored_ids d1 l (st_wf _ _ Hs) Hid Hnd) as Hndid.
  destruct (associate_all_spec now l plans d1 Hndid) as (A & B & _); [by rewrite Hfst| |].
  { intros ws plan Hin. apply Forall_forall. intros p Hp. rewrite (Hplan ws plan Hin), (plan_of_import d d1 l ws p) by done. by eexists. }
  rewrite (st_managed _ _ Hs) in A, B. split.
  - intros ws p Hws Hp. apply Hn2 in Hws. rewrite <- Hfst in Hws. apply list_elem_of_fmap in Hws as ([w plan] & -> & Hin). cbn [fst].
    rewrite (A w plan p Hin Hp). unfold associated. rewrite (Hplan w plan Hin), (plan_of_import d d1 l w p) by done.
    by destruct (managed d !! (w, ProxyModel.ID p)).
  - intros k Hk. apply B. rewrite Hfst, Hn2. done.
Qed.
End Outcome.

(** ** A lowered capacity *)

Lemma pause_row_inactive now reason r : is_active (pause_row now reason r) = false.
Proof. unfold pause_row. by destruct (is_active r) eqn:E. Qed.

Lemma pause_all_lookup now ws reason ids m (w p : Z) : pause_all now ws reason ids m !! (w, p) =
  (fun r => if (w =? ws) && bool_decide (p ∈ ids) then pause_row now reason r else r) <$> m !! (w, p).
Proof. unfold pause_all. rewrite map_lookup_imap. by destruct (m !! (w, p)). Qed.

Lemma pause_all_ids now ws reason ids m : active_ids ws (pause_all now ws reason ids m) = active_ids ws m ∖ list_to_set ids.
Proof.
  apply set_eq. intros p. rewrite elem_of_difference, !elem_of_active_ids, elem_of_list_to_set, pause_all_lookup, Z.eqb_refl. cbn.
  split.
  - intros (r & Hr & Ha). apply fmap_Some in Hr as (r0 & Hr0 & ->). case_bool_decide as Hp; [by rewrite pause_row_inactive in Ha|].
    split; [by exists r0|done].
  - intros [(r & Hr & Ha) Hp]. exists r. by rewrite Hr, bool_decide_eq_false_2.
Qed.

#[export] Instance newer_first_total : Total (rel_of newer_first).
Proof.
  intros a b. unfold rel_of, newer_first. set (ta := default _ (ActivatedAt a.2)). set (tb := default _ (ActivatedAt b.2)).
  destruct (tb <? ta) eqn:E1; [by left|]. destruct (ta <? tb) eqn:E2; [by right|]. breflect.
  rewrite (proj2 (Z.eqb_eq ta tb)), (proj2 (Z.eqb_eq tb ta)) by lia. cbn. rewrite !Z.leb_le. lia.
Qed.

#[export] Instance newer_first_trans : Transitive (rel_of newer_first).
Proof.
  intros a b c. unfold rel_of, newer_first. set (ta := default _ (ActivatedAt a.2)). set (tb := default _ (ActivatedAt b.2)).
  set (tc := default _ (ActivatedAt c.2)). rewrite !orb_true_iff, !andb_true_iff, !Z.ltb_lt, !Z.eqb_eq, !Z.leb_le. lia.
Qed.

Lemma StronglySorted_app_le {A} (R : relation A) l l' a b : StronglySorted R (l ++ l') -> a ∈ l -> b ∈ l' -> R a b.
Proof.
  induction l as [|x l IH]; cbn; [by intros _ ?%not_elem_of_nil|]. intros [Hs Hf]%StronglySorted_inv Ha Hb.
  apply elem_of_cons in Ha as [->|Ha]; [|by apply IH]. rewrite Forall_forall in Hf. apply Hf, elem_of_app. by right.
Qed.

(** The routes an overflow of [k] pauses: that many distinct active ones, each
    activated no earlier than every active one that is left. *)
Lemma overflow_spec ws m k ids : ids = take k (merge_sort (rel_of newer_first) (active_list ws m)).*1 ->
  (k <= size (active_ids ws m))%nat ->
  NoDup ids /\ length ids = k /\ list_to_set ids ⊆ active_ids ws m /\
  forall p q r r', p ∈ ids -> q ∉ ids -> m !! (ws, p) = Some r -> m !! (ws, q) = Some r' -> is_active r' = true ->
    is_active r = true /\ newer_first (p, r) (q, r') = true.
Proof.
  intros -> Hk. set (sorted := merge_sort (rel_of newer_first) (active_list ws m)).
  assert (sorted ≡ₚ active_list ws m) as Hp by apply merge_sort_Permutation.
  assert (NoDup sorted.*1) as Hnd by (rewrite Hp; apply NoDup_active_list).
  assert (size (active_ids ws m) = length sorted) as Hlen.
  { unfold active_ids. rewrite size_list_to_set by apply NoDup_active_list. by rewrite length_fmap, Hp. }
  pose proof Hnd as Hnd'. rewrite <- (take_drop k sorted.*1) in Hnd'. apply NoDup_app in Hnd' as (Hnd1 & _ & _).
  split_and!; [done|rewrite length_take, length_fmap; lia| |].
  { intros p Hin%elem_of_list_to_set. unfold active_ids. apply elem_of_list_to_set. rewrite <- Hp.
    rewrite <- (take_drop k sorted.*1). apply elem_of_app. by left. }
  intros p q r r' Hpin Hq Hr Hr' Ha'. rewrite <- fmap_take in Hpin, Hq.
  assert ((q, r') ∈ take k sorted ++ drop k sorted) as Hqs by (rewrite take_drop, Hp; by apply elem_of_active_list).
  apply elem_of_app in Hqs as [Hqs|Hqs]; [exfalso; apply Hq; by apply (list_elem_of_fmap_2 fst _ (q, r'))|].
  apply list_elem_of_fmap in Hpin as ([p' r0] & He & Hpt). cbn in He. subst p'.
  assert ((p, r0) ∈ active_list ws m) as [Hr0 Ha]%elem_of_active_list.
  { rewrite <- Hp, <- (take_drop k sorted). apply elem_of_app. by left. }
  rewrite Hr in Hr0. injection Hr0 as <-. split; [done|].
  apply (StronglySorted_app_le (rel_of newer_first) (take k sorted) (drop k sorted)); [|done|done].
  rewrite take_drop. apply StronglySorted_merge_sort; apply _.
Qed.

(** When a workspace has more active routes than its limit, the clean-up
    leaves exactly the limit: it pauses, with the reason of capacity, the routes
    activated last, and every route it leaves active was activated no later than
    every route it pauses; no other row changes.  Within the limit it changes
    nothing. *)
Theorem overflow_pauses_newest now ws limit d n ids d' :
  0 <= limit < 2 ^ 63 -> active_rows ws (managed d) < 2 ^ 63 ->
  pauseWorkspaceCapacityOverflow now ws limit d = ((n, ids), d') ->
  active_rows ws (managed d') = Z.min (active_rows ws (managed d)) limit /\
  n = Z.max 0 (active_rows ws (managed d) - limit) /\
  (forall w p, managed d' !! (w, p) = (fun r => if (w =? ws) && bool_decide (p ∈ ids) then pause_row now ManagedProxyPauseReasonCapacity r else r)
      <$> managed d !! (w, p)) /\
  (forall p q r r', p ∈ ids -> q ∉ ids -> managed d !! (ws, p) = Some r -> managed d !! (ws, q) = Some r' -> is_active r' = true ->
      is_active r = true /\ newer_first (p, r) (q, r') = true).
Proof.
  intros Hl Hn. unfold pauseWorkspaceCapacityOverflow.
  pose proof (active_rows_nonneg ws (managed d)) as Hpos.
  rewrite (wrap_i64_id limit), (wrap_i64_id (_ - limit)) by (unfold in_i64; lia).
  destruct (_ <=? 0) eqn:E; breflect.
  { intros [= <- <- <-]. split_and!; [lia|lia| |by intros p q r r' ?%not_elem_of_nil].
    intros w p. rewrite (bool_decide_eq_false_2 (p ∈ [])), andb_false_r by apply not_elem_of_nil. by destruct (managed d !! (w, p)). }
  set (k := Z.to_nat (active_rows ws (managed d) - limit)).
  pose proof (active_rows_size ws (managed d)) as Hsize.
  destruct (overflow_spec ws (managed d) k _ eq_refl) as (Hnd & Hlen & Hsub & Hnew); [lia|].
  intros H. set (l := take k _) in *.
  assert (n = Z.of_nat k /\ ids = l /\ managed d' = pause_all now ws ManagedProxyPauseReasonCapacity l (managed d)) as (-> & -> & Hm).
  { destruct l as [|p l0] eqn:Et; [cbn in Hlen; lia|]. injection H as <- <- <-. split_and!; [by rewrite <- Hlen|done|].
    unfold refreshWorkspaceUsageActiveRoutes. by destruct (ws =? 0). }
  rewrite Hm. split_and!; [|lia|intros w p; apply pause_all_lookup|exact Hnew].
  rewrite (active_rows_size ws (pause_all _ _ _ _ _)), pause_all_ids, size_difference by done.
  rewrite size_list_to_set by done. lia.
Qed.

(** ** At concrete tables *)

Definition demo_fingerprint (host : string) (port : Z) (user password : string) : option string := Some ("f" +:+ host).

Lemma demo_nonempty : ProxyModel.fingerprint_nonempty demo_fingerprint.
Proof. by intros host port u pw f [= <-]. Defined.

Definition demo_route (id : Z) (host : string) : ProxyModel.Proxy :=
  ProxyModel.MkProxy id host (Some host) 80 "user" "secret" [] None (if id =? 0 then "" else "f" +:+ host).

Definition demo_row (st : ManagedState) (at_ : Z) : ManagedProxy :=
  MkRoute (FailureTracker.MkManaged st "" 3) ("old", "old") (Some at_) None None at_.

(** Workspace 7 may have two active routes; it has one active and one archived. *)
Definition demo_tables : DB :=
  MkDB {[ (7, 1) := demo_row Archived 5; (7, 2) := demo_row Active 6 ]} ∅ {[ 7 := MkSub 2 0 "disabled" 0 ]} ∅
    {[ "f1.1.1.1" := demo_route 1 "1.1.1.1"; "f2.2.2.2" := demo_route 2 "2.2.2.2" ]} 3.

Lemma demo_wf : wf demo_tables.
Proof.
  split.
  - intros h h' q q'. cbn. rewrite !lookup_insert_Some, !lookup_singleton_Some. intros [[<- <-]|[_ [<- <-]]] [[<- <-]|[_ [<- <-]]]; done.
  - intros ws p m. cbn. rewrite lookup_insert_Some, lookup_singleton_Some. intros [[[= <- <-] _]|[_ [[= <- <-] _]]]; apply elem_of_live.
    + by exists "f1.1.1.1", (demo_route 1 "1.1.1.1").
    + by exists "f2.2.2.2", (demo_route 2 "2.2.2.2").
Defined.

Definition demo_import : res db_error (list ProxyModel.Proxy) * DB :=
  insertAndAssociateProxies (fun h => Some h) demo_fingerprint 9
    [demo_route 0 "1.1.1.1"; demo_route 0 "3.3.3.3"; demo_route 0 "4.4.4.4"; demo_route 0 "3.3.3.3"] [7] demo_tables.

Lemma import_outcome_witness :
  (exists stored, demo_import.1 = Ok stored /\ map ProxyModel.ID stored = [1; 3; 4] /\
    forall k, (k.1 ∈ [7] -> k.2 ∉ map ProxyModel.ID stored) -> managed demo_import.2 !! k = managed demo_tables !! k) /\
  managed demo_import.2 !! (7, 1) = Some (set_credentials ("user", "secret") (demo_row Archived 5)) /\
  (fun m => FailureTracker.State (core m)) <$> managed demo_import.2 !! (7, 3) = Some Active /\
  (fun m => FailureTracker.State (core m)) <$> managed demo_import.2 !! (7, 4) = Some Paused.
Proof.
  pose proof (import_outcome (fun h => Some h) demo_fingerprint 9
    [demo_route 0 "1.1.1.1"; demo_route 0 "3.3.3.3"; demo_route 0 "4.4.4.4"; demo_route 0 "3.3.3.3"] [7] demo_tables) as H.
  fold demo_import in H. destruct demo_import as [[stored|] d'] eqn:E; [|vm_compute in E; discriminate].
  destruct (H stored d' demo_nonempty demo_wf eq_refl) as [H1 H2]. vm_compute in E. injection E as <- <-.
  split; [eexists; split; [reflexivity|]; split; [reflexivity|exact H2]|]. split; [|split; reflexivity].
  etransitivity; [apply (H1 7 (ProxyModel.MkProxy 1 "1.1.1.1" (Some "1.1.1.1") 80 "user" "secret" [] None "f1.1.1.1")); left|reflexivity].
Defined.

Definition demo_crowded : DB :=
  MkDB {[ (7, 1) := demo_row Active 5; (7, 2) := demo_row Active 6; (7, 3) := demo_row Active 4 ]} ∅ ∅ ∅ ∅ 4.

Lemma overflow_pauses_newest_witness :
  (pauseWorkspaceCapacityOverflow 9 7 1 demo_crowded).1 = (2, [2; 1]) /\
  active_rows 7 (managed (pauseWorkspaceCapacityOverflow 9 7 1 demo_crowded).2) = 1.
Proof.
  split; [vm_compute; reflexivity|].
  destruct (overflow_pauses_newest 9 7 1 demo_crowded 2 [2; 1] (pauseWorkspaceCapacityOverflow 9 7 1 demo_crowded).2) as [H _];
    [lia|vm_compute; reflexivity|vm_compute; reflexivity|]. rewrite H. vm_compute. reflexivity.
Defined.

(** The clean-up of failing routes does not recount the capacity used: the
    usage of the month still shows the route it paused. *)
Definition demo_failing : DB :=
  MkDB {[ (7, 1) := demo_row Active 5 ]} {[ 7 := MkWorkspace true 3 "pause" ]} ∅
    {[ (7, (Usage.workspaceUsageMonth 9).1) := Usage.MkPeriod 0 1 1 0 0 0 ]} ∅ 2.

Example auto_removal_leaves_the_count :
  let '(n, d) := CleanupAutoRemovalViolations 9 demo_failing in
  n = 1 /\ active_rows 7 (managed d) = 0 /\
  Usage.ActiveRoutes <$> usage d !! (7, (Usage.workspaceUsageMonth 9).1) = Some 1.
Proof. vm_compute. done. Qed.

(** With a limit of 2^64-1, which no workspace reaches, the clean-up takes the
    limit for -1 and pauses every route. *)
Example huge_limit_pauses_all :
  ActivationLimit (MkSub (2 ^ 63 - 1) (2 ^ 63 - 1) "allowed" 1) = (2 ^ 64 - 1, false) /\
  (pauseWorkspaceCapacityOverflow 9 7 (2 ^ 64 - 1) demo_crowded).1 = (3, [2; 1; 3]) /\
  ensureWorkspaceActivationAvailable 7 (set_subscription 7 (MkSub (2 ^ 63 - 1) (2 ^ 63 - 1) "allowed" 1) demo_crowded) = None.
Proof. vm_compute. done. Qed.

End RoutesFacts.
