(* ===== verification/Capacity.v ===== *)
(** * Capacity under concurrency

    The activations and imports of Routes.v as transactions whose statements
    interleave with those of others, each statement seeing what has been
    committed ([READ COMMITTED]).  What keeps a workspace within its limit is
    the lock on its row of [workspace_subscriptions], which an activation and an
    import take before they count and hold until they end.  Those are the only
    locks here: the ones on rows of [proxies] and [user_proxies], taken by the
    statements that write them, order writers but admit no more routes; they can
    end a transaction with a deadlock, which is one reason for [step_abort]. *)

From S2P Require Import Prelude GoStrings ProxyModel FailureTracker Usage Routes RoutesFacts.
Open Scope Z_scope.

Module Capacity.
Import Routes RoutesFacts.

(** What an import knows of one workspace: the management it found, its plan. *)
Record workspace_plan := MkWorkspacePlan {
  found : gmap string managedProxyStatePlan;
  plan : gmap string managedProxyStatePlan }.

(** A transaction in progress.  [SetManagedProxyState] to active: it has read
    the row, then [checked] the capacity under the lock.  An import: its routes
    without repetitions, the workspaces it has to plan for, in their order; for
    the first of them it may hold the lock and have [looked] at the subscription
    and the existing management; and the plans it has made. *)
Inductive transaction :=
| Activating (ws p : Z) (checked : bool)
| Importing (proxies : list ProxyModel.Proxy) (todo : list Z)
    (looked : option (option WorkspaceSubscription * gmap string managedProxyStatePlan)) (plans : list (Z * workspace_plan)).

(** [locks]: who holds the lock of a workspace's subscription.  [over] is not
    part of the program: by how many active routes a workspace may be over its
    limit, for the two reasons the relation gives. *)
Record Sys := MkSys { db : DB; locks : gmap Z nat; txs : gmap nat transaction; over : gmap Z Z }.

Definition over_of (o : gmap Z Z) (ws : Z) : Z := default 0 (o !! ws).

Definition set_db (d : DB) (s : Sys) : Sys := MkSys d (locks s) (txs s) (over s).
Definition set_tx (t : nat) (tx : transaction) (s : Sys) : Sys := MkSys (db s) (locks s) (<[t := tx]> (txs s)) (over s).

(** [SELECT ... FOR UPDATE] of a subscription: a row that is not there is not locked. *)
Definition available_to (s : Sys) (t : nat) (ws : Z) : Prop :=
  subscriptions (db s) !! ws = None \/ locks s !! ws = None \/ locks s !! ws = Some t.

Definition lock (t : nat) (ws : Z) (s : Sys) : Sys :=
  match subscriptions (db s) !! ws with
  | Some _ => MkSys (db s) (<[ws := t]> (locks s)) (txs s) (over s)
  | None => s
  end.

(** The end of a transaction releases its locks. *)
Definition ended (t : nat) (s : Sys) : Sys :=
  MkSys (db s) (filter (fun x => x.2 <> t) (locks s)) (delete t (txs s)) (over s).

(** The routes an import makes active although it planned to keep them as they
    were: their management was deleted after the import had looked. *)
Definition recreated (ws : Z) (stored : list ProxyModel.Proxy) (x : workspace_plan) (m : gmap (Z * Z) ManagedProxy) : Z :=
  Z.of_nat (length (List.filter (fun p => fresh ws m p && bool_decide (is_Some (found x !! ProxyModel.Hash p)) &&
    match plan x !! ProxyModel.Hash p with Some c => bool_decide (plan_state c = Active) | None => false end) stored)).

Definition commit_plan (now : Z) (stored : list ProxyModel.Proxy) (acc : DB * gmap Z Z) (x : Z * workspace_plan) : DB * gmap Z Z :=
  let '(d, o) := acc in
  (associate now stored d (x.1, plan x.2), <[x.1 := over_of o x.1 + recreated x.1 stored x.2 (managed d)]> o).

(** Changes that make no route active: pauses, archiving, deletions, streaks. *)
Definition retreats (d d' : DB) : Prop :=
  subscriptions d' = subscriptions d /\
  forall ws p r', managed d' !! (ws, p) = Some r' -> is_active r' = true -> exists r, managed d !! (ws, p) = Some r /\ is_active r = true.

(** Whether a transaction in progress has anything to do with a workspace. *)
Definition touches (tx : transaction) (ws : Z) : Prop :=
  match tx with
  | Activating w _ _ => w = ws
  | Importing _ todo _ plans => ws ∈ plans.*1 ++ todo
  end.

Section Steps.
Context (toASCII : string -> option string).
Context (FingerprintProxyRoute : string -> Z -> string -> string -> option string).

Inductive step : Sys -> Sys -> Prop :=
(* SetManagedProxyState to active: the row, the lock and the check, the update and the commit *)
| step_found t ws p m s :
    txs s !! t = None -> managed (db s) !! (ws, p) = Some m -> FailureTracker.State (core m) <> Active ->
    step s (set_tx t (Activating ws p false) s)
| step_check t ws p s :
    txs s !! t = Some (Activating ws p false) -> available_to s t ws -> ensureWorkspaceActivationAvailable ws (db s) = None ->
    step s (set_tx t (Activating ws p true) (lock t ws s))
| step_activate now t ws p s :
    txs s !! t = Some (Activating ws p true) ->
    step s (ended t (set_db (refreshWorkspaceUsageActiveRoutes now ws (update_row (ws, p) (set_state now Active) (db s))) s))
(* an import: each workspace in turn, then the inserts and the commit *)
| step_import t proxies unique ids s :
    txs s !! t = None -> deduplicateProxies toASCII FingerprintProxyRoute proxies = Ok unique ->
    step s (set_tx t (Importing unique (normalizeWorkspaceIDs ids) None []) s)
| step_look t proxies ws rest plans s :
    txs s !! t = Some (Importing proxies (ws :: rest) None plans) -> ws <> 0 -> available_to s t ws ->
    step s (set_tx t (Importing proxies (ws :: rest)
                        (Some (subscriptions (db s) !! ws, existing_states ws (map ProxyModel.Hash proxies) (db s))) plans) (lock t ws s))
| step_plan t proxies ws rest subscription existing plans s :
    txs s !! t = Some (Importing proxies (ws :: rest) (Some (subscription, existing)) plans) ->
    step s (set_tx t (Importing proxies rest None
                        (plans ++ [(ws, MkWorkspacePlan existing
                           (plan_states subscription existing (map ProxyModel.Hash proxies) (active_rows ws (managed (db s)))))])) s)
| step_commit now t proxies plans stored d s :
    txs s !! t = Some (Importing proxies [] None plans) -> insertProxies toASCII FingerprintProxyRoute proxies (db s) = Ok (stored, d) ->
    step s (let '(d, o) := fold_left (commit_plan now stored) plans (d, over s) in ended t (MkSys d (locks s) (txs s) o))
(* an error, a refusal, or a lost connection *)
| step_abort t s : step s (ended t s)
(* whatever else the program does to the rows *)
| step_retreat d s : retreats (db s) d -> step s (set_db d s)
(* a new entitlement; the update waits for the lock *)
| step_subscription ws old sub s :
    subscriptions (db s) !! ws = Some old -> locks s !! ws = None ->
    step s (MkSys (set_subscription ws sub (db s)) (locks s) (txs s)
              (<[ws := Z.max 0 (active_rows ws (managed (db s)) - (ActivationLimit sub).1)]> (over s)))
(* a new workspace has its subscription before anything refers to it *)
| step_workspace ws sub s :
    subscriptions (db s) !! ws = None -> active_rows ws (managed (db s)) = 0 -> (forall t tx, txs s !! t = Some tx -> ~ touches tx ws) ->
    step s (set_db (set_subscription ws sub (db s)) s).
End Steps.

(** The state a database is found in: no transaction; a workspace over its
    limit already stays so. *)
Definition started (d : DB) (s : Sys) : Prop :=
  s = MkSys d ∅ ∅ (map_imap (fun ws sub => Some (Z.max 0 (active_rows ws (managed d) - (ActivationLimit sub).1))) (subscriptions d)).

End Capacity.
