(* ===== verification/CapacityFacts.v ===== *)
(** * No workspace is carried over its limit

    The invariant of the interleaved transactions of Capacity.v, the limit on
    active routes it gives, and why the locks on subscriptions close no circle. *)

From S2P Require Import Prelude GoStrings ProxyModel FailureTracker Usage Routes RoutesFacts Capacity.
Open Scope Z_scope.

Module CapacityFacts.
Import Routes RoutesFacts Capacity.

(** ** What a transaction may still make active *)

Definition makes_active (x : workspace_plan) (h : string) : bool :=
  match plan x !! h with Some c => bool_decide (plan_state c = Active) | None => false end.

(** The new routes a plan activates. *)
Definition plan_grant (hashes : list string) (x : workspace_plan) : Z :=
  Z.of_nat (length (List.filter (fun h => bool_decide (found x !! h = None) && makes_active x h) hashes)).

Definition granted (tx : transaction) (ws : Z) : Z :=
  match tx with
  | Activating w _ checked => if (checked : bool) && (w =? ws) then 1 else 0
  | Importing proxies _ _ plans =>
      sum_of (fun x => if x.1 =? ws then plan_grant (map ProxyModel.Hash proxies) x.2 else 0) plans
  end.

(** The subscriptions a transaction has locked, if they exist. *)
Definition held (tx : transaction) : list Z :=
  match tx with
  | Activating w _ checked => if (checked : bool) then [w] else []
  | Importing _ todo looked plans => plans.*1 ++ (match looked with Some _ => take 1 todo | None => [] end)
  end.

Definition granted_by (s : Sys) (ws : Z) : Z :=
  match locks s !! ws with
  | Some t => match txs s !! t with Some tx => granted tx ws | None => 0 end
  | None => 0
  end.

Lemma sum_of_nonneg {A} (f : A -> Z) l : (forall x, 0 <= f x) -> 0 <= sum_of f l.
Proof. intros H. unfold sum_of. induction l as [|x l IH]; cbn; [lia|]. specialize (H x). lia. Qed.

Lemma granted_nonneg tx ws : 0 <= granted tx ws.
Proof.
  destruct tx as [w p checked|proxies todo looked plans]; cbn; [destruct (_ && _); lia|]. apply sum_of_nonneg.
  intros x. destruct (_ =? _); unfold plan_grant; lia.
Qed.

Lemma granted_by_nonneg s ws : 0 <= granted_by s ws.
Proof. unfold granted_by. destruct (locks s !! ws) as [t|]; [|lia]. destruct (txs s !! t); [apply granted_nonneg|lia]. Qed.

Lemma sum_absent (f : workspace_plan -> Z) (plans : list (Z * workspace_plan)) (ws : Z) : ws ∉ plans.*1 -> sum_of (fun x => if x.1 =? ws then f x.2 else 0) plans = 0.
Proof.
  induction plans as [|[w x] plans IH]; [done|]. intros Hn. rewrite sum_of_cons, IH; cbn.
  - destruct (w =? ws) eqn:E; [|done]. breflect. subst. destruct Hn. by left.
  - intros H. apply Hn. by right.
Qed.

Lemma granted_held tx ws : ws ∉ held tx -> granted tx ws = 0.
Proof.
  destruct tx as [w p checked|proxies todo looked plans]; cbn.
  - destruct checked; [|done]. cbn. destruct (w =? ws) eqn:E; [|done]. breflect. subst. intros H. destruct H. by left.
  - intros H. apply (sum_absent (plan_grant _)). intros Hin. apply H, elem_of_app. by left.
Qed.

Lemma held_touches tx ws : ws ∈ held tx -> touches tx ws.
Proof.
  destruct tx as [w p checked|proxies todo looked plans]; cbn.
  - destruct checked; [|by intros ?%not_elem_of_nil]. intros ->%list_elem_of_singleton. done.
  - rewrite !elem_of_app. intros [?|H]; [by left|right]. destruct looked; [|by apply not_elem_of_nil in H].
    destruct todo; [done|]. cbn in H. apply list_elem_of_singleton in H as ->. by left.
Qed.

(** ** The invariant *)

Definition tx_wf (d : DB) (tx : transaction) : Prop :=
  match tx with
  | Activating _ _ _ => True
  | Importing proxies todo looked plans =>
      NoDup (map ProxyModel.Hash proxies) /\ Forall (fun p => ProxyModel.Hash p <> "") proxies /\
      StronglySorted Z.lt (plans.*1 ++ todo) /\
      match looked with
      | Some (sub, existing) => exists ws rest, todo = ws :: rest /\ sub = subscriptions d !! ws /\
          forall h, is_Some (existing !! h) -> h ∈ map ProxyModel.Hash proxies
      | None => True
      end
  end.

Record inv (s : Sys) : Prop := {
  inv_over : forall ws, 0 <= over_of (over s) ws;
  inv_locks : forall ws t, locks s !! ws = Some t -> exists tx, txs s !! t = Some tx /\ ws ∈ held tx;
  inv_held : forall t tx ws, txs s !! t = Some tx -> ws ∈ held tx -> is_Some (subscriptions (db s) !! ws) -> locks s !! ws = Some t;
  inv_txs : forall t tx, txs s !! t = Some tx -> tx_wf (db s) tx;
  inv_cap : forall ws sub limit, subscriptions (db s) !! ws = Some sub -> ActivationLimit sub = (limit, false) ->
    active_rows ws (managed (db s)) + granted_by s ws <= limit + over_of (over s) ws
}.

(** A transaction that comes to be [tx], with the locks [l]. *)
Lemma put_inv s t tx l : inv s -> tx_wf (db s) tx ->
  (forall ws, ws ∈ held tx -> is_Some (subscriptions (db s) !! ws) -> l !! ws = Some t) ->
  (forall ws t', t' <> t -> l !! ws = Some t' <-> locks s !! ws = Some t') ->
  (forall ws, l !! ws = Some t -> ws ∈ held tx) ->
  (forall ws sub limit, l !! ws = Some t -> subscriptions (db s) !! ws = Some sub -> ActivationLimit sub = (limit, false) ->
     active_rows ws (managed (db s)) + granted tx ws <= limit + over_of (over s) ws) ->
  inv (MkSys (db s) l (<[t := tx]> (txs s)) (over s)).
Proof.
  intros Hi Hw Hh Ho Hl Hc. split; cbn; [apply (inv_over _ Hi)| | | |].
  - intros ws t' Ht'. destruct (decide (t' = t)) as [->|Hn].
    + exists tx. rewrite lookup_insert_eq. split; [done|by apply Hl].
    + rewrite lookup_insert_ne by done. by apply (inv_locks _ Hi), Ho.
  - intros t' tx' ws. rewrite lookup_insert_Some. intros [[<- <-]|[Hn Htx]] Hin Hs; [by apply Hh|].
    apply Ho; [done|]. by eapply (inv_held _ Hi).
  - intros t' tx'. rewrite lookup_insert_Some. intros [[<- <-]|[Hn Htx]]; [done|by eapply (inv_txs _ Hi)].
  - intros ws sub limit Hs Hlim. pose proof (inv_cap _ Hi ws sub limit Hs Hlim) as H. pose proof (granted_by_nonneg s ws).
    unfold granted_by in *. cbn. destruct (l !! ws) as [t'|] eqn:El; [|lia]. destruct (decide (t' = t)) as [->|Hn].
    + rewrite lookup_insert_eq. by eapply Hc.
    + rewrite lookup_insert_ne by done. apply Ho in El; [|done]. by rewrite El in H.
Qed.

(** A transaction that goes on with the locks it has. *)
Lemma set_tx_inv s t tx : inv s -> tx_wf (db s) tx ->
  (forall ws, ws ∈ held tx <-> ws ∈ match txs s !! t with Some old => held old | None => [] end) ->
  (forall ws sub limit, locks s !! ws = Some t -> subscriptions (db s) !! ws = Some sub -> ActivationLimit sub = (limit, false) ->
     active_rows ws (managed (db s)) + granted tx ws <= limit + over_of (over s) ws) ->
  inv (set_tx t tx s).
Proof.
  intros Hi Hw Hh Hc. apply put_inv; [done|done| |done| |done].
  - intros ws Hin Hs. apply Hh in Hin. destruct (txs s !! t) as [old|] eqn:E; [|by apply not_elem_of_nil in Hin].
    by eapply (inv_held _ Hi).
  - intros ws Hl. apply (inv_locks _ Hi) in Hl as (old & Ho & Hin). apply Hh. by rewrite Ho.
Qed.

(** A transaction that takes the lock of [ws0]. *)
Lemma lock_inv s t old tx ws0 : inv s -> txs s !! t = Some old -> available_to s t ws0 -> tx_wf (db s) tx ->
  (forall ws, ws ∈ held tx <-> ws = ws0 \/ ws ∈ held old) -> (forall ws, ws <> ws0 -> granted tx ws = granted old ws) ->
  (forall sub limit, subscriptions (db s) !! ws0 = Some sub -> ActivationLimit sub = (limit, false) ->
     active_rows ws0 (managed (db s)) + granted tx ws0 <= limit + over_of (over s) ws0) ->
  inv (set_tx t tx (lock t ws0 s)).
Proof.
  intros Hi Ho Ha Hw Hh Hg Hc.
  assert (forall l, (forall ws, ws <> ws0 -> l !! ws = locks s !! ws) ->
    (is_Some (subscriptions (db s) !! ws0) -> l !! ws0 = Some t) ->
    (forall t', t' <> t -> l !! ws0 = Some t' <-> locks s !! ws0 = Some t') ->
    inv (MkSys (db s) l (<[t := tx]> (txs s)) (over s))) as H.
  { intros l Hl Hl0 Hl'. apply put_inv; [done|done| | | |].
    - intros ws Hin Hs. destruct (decide (ws = ws0)) as [->|Hn]; [by apply Hl0|]. rewrite Hl by done.
      apply Hh in Hin as [|Hin]; [done|]. by eapply (inv_held _ Hi).
    - intros ws t' Hn. destruct (decide (ws = ws0)) as [->|Hn']; [by apply Hl'|by rewrite Hl].
    - intros ws Hws. apply Hh. destruct (decide (ws = ws0)) as [->|Hn]; [by left|right]. rewrite Hl in Hws by done.
      apply (inv_locks _ Hi) in Hws as (tx' & Htx & Hin). rewrite Ho in Htx. by injection Htx as ->.
    - intros ws sub limit Hws Hs Hlim. destruct (decide (ws = ws0)) as [->|Hn]; [by eapply Hc|]. rewrite Hg by done.
      pose proof (inv_cap _ Hi ws sub limit Hs Hlim) as Hcap. unfold granted_by in Hcap. rewrite Hl in Hws by done. by rewrite Hws, Ho in Hcap. }
  unfold set_tx, lock. destruct (subscriptions (db s) !! ws0) as [sub|] eqn:Es; cbn; apply H.
  - intros ws Hn. by rewrite lookup_insert_ne.
  - intros _. by rewrite lookup_insert_eq.
  - intros t' Hn. rewrite lookup_insert_eq. destruct Ha as [Ha|[Ha|Ha]]; [congruence| |]; rewrite Ha; split; intros [= ?]; congruence.
  - done.
  - intros [? ?]. done.
  - done.
Qed.

Lemma tx_wf_same d d' tx : subscriptions d' = subscriptions d -> tx_wf d tx -> tx_wf d' tx.
Proof. destruct tx as [|proxies todo [[sub ex]|] plans]; cbn; [done| |done]. by intros ->. Qed.

(** The end of a transaction: what it adds to the active routes was granted, or
    is counted as over the limit. *)
Lemma ended_inv s t d o : inv s -> subscriptions d = subscriptions (db s) -> (forall ws, over_of (over s) ws <= over_of o ws) ->
  (forall ws, active_rows ws (managed d) + over_of (over s) ws <=
     active_rows ws (managed (db s)) + match txs s !! t with Some tx => granted tx ws | None => 0 end + over_of o ws) ->
  inv (ended t (MkSys d (locks s) (txs s) o)).
Proof.
  intros Hi Hsub Hover Hact. unfold ended. cbn. split; cbn.
  - intros ws. pose proof (inv_over _ Hi ws). specialize (Hover ws). lia.
  - intros ws t' (Hl & Hn)%map_lookup_filter_Some. cbn in Hn. rewrite lookup_delete_ne by done. by apply (inv_locks _ Hi).
  - intros t' tx ws (Hn & Htx)%lookup_delete_Some Hin Hs. rewrite Hsub in Hs. apply map_lookup_filter_Some. split; [by eapply (inv_held _ Hi)|].
    cbn. congruence.
  - intros t' tx (Hn & Htx)%lookup_delete_Some. eapply tx_wf_same; [exact Hsub|by eapply (inv_txs _ Hi)].
  - intros ws sub limit Hs Hlim. rewrite Hsub in Hs. pose proof (inv_cap _ Hi ws sub limit Hs Hlim) as Hcap. specialize (Hact ws).
    unfold granted_by in *. cbn. destruct (decide (locks s !! ws = Some t)) as [Hl|Hl].
    + assert (filter (fun x : Z * nat => x.2 <> t) (locks s) !! ws = None) as -> by (apply map_lookup_filter_None_2; right; intros t' Ht' Hn; cbn in Hn; congruence).
      rewrite Hl in Hcap. destruct (txs s !! t); lia.
    + assert (match txs s !! t with Some tx => granted tx ws | None => 0 end = 0) as Hz.
      { destruct (txs s !! t) as [tx|] eqn:Et; [|done]. apply granted_held. intros Hin. apply Hl. eapply (inv_held _ Hi); [done|done|by eexists]. }
      destruct (locks s !! ws) as [t'|] eqn:El.
      * assert (t' <> t) as Hn by congruence.
        assert (filter (fun x : Z * nat => x.2 <> t) (locks s) !! ws = Some t') as -> by by apply map_lookup_filter_Some.
        rewrite lookup_delete_ne by done. lia.
      * assert (filter (fun x : Z * nat => x.2 <> t) (locks s) !! ws = None) as -> by (apply map_lookup_filter_None_2; by left). lia.
Qed.

(** ** Plans and commits *)

(** A plan grants no more than the capacity that is left. *)
Lemma plan_grant_le sub existing hashes n : NoDup hashes -> (forall h, is_Some (existing !! h) -> h ∈ hashes) ->
  (ActivationLimit sub).2 = false ->
  plan_grant hashes (MkWorkspacePlan existing (plan_states (Some sub) existing hashes n)) <= Z.max 0 ((ActivationLimit sub).1 - n).
Proof.
  intros Hnd Hdom Hcapped. unfold plan_grant. cbn [found plan].
  set (g := granted_hashes false (capacity_left (Some sub) n).2 existing hashes).
  assert (List.filter (fun h => bool_decide (existing !! h = None) && makes_active (MkWorkspacePlan existing (plan_states (Some sub) existing hashes n)) h) hashes ⊆ g) as Hsub.
  { intros h Hin. apply list_elem_of_In, filter_In in Hin as [Hin Hf]. apply list_elem_of_In in Hin. apply andb_true_iff in Hf as [He Ha].
    apply bool_decide_eq_true_1 in He. unfold makes_active in Ha. cbn [plan] in Ha.
    pose proof (plan_states_spec (Some sub) existing hashes n h Hnd Hdom) as Hs. unfold capacity_left in Hs. unfold g, capacity_left.
    destruct (ActivationLimit sub) as [limit unl]. cbn in Hcapped. subst unl. rewrite Hs, bool_decide_eq_true_2 in Ha by done.
    unfold planned in Ha. rewrite He in Ha. cbn.
    destruct (decide (h ∈ granted_hashes false (if n <? wrap_i64 limit then limit - n else 0) existing hashes)) as [|Hno]; [done|].
    by rewrite (bool_decide_eq_false_2 (h ∈ _)) in Ha. }
  assert (length (List.filter (fun h => bool_decide (existing !! h = None) && makes_active (MkWorkspacePlan existing (plan_states (Some sub) existing hashes n)) h) hashes) <= length g)%nat as Hle.
  { apply NoDup_incl_length; [by apply List.NoDup_filter, NoDup_ListNoDup|]. intros h Hh%list_elem_of_In. by apply list_elem_of_In, Hsub. }
  assert (Z.of_nat (length g) <= (capacity_left (Some sub) n).2) as Hg.
  { unfold g, granted_hashes. rewrite length_take. pose proof (capacity_left_nonneg (Some sub) n). lia. }
  unfold capacity_left in Hg. pose proof (limit_nonneg sub). destruct (ActivationLimit sub) as [limit unl]. cbn in *.
  destruct (n <? wrap_i64 limit); lia.
Qed.

Lemma insertProxies_frame F A ps d l d' : Forall (fun p => ProxyModel.Hash p <> "") ps -> insertProxies A F ps d = Ok (l, d') ->
  managed d' = managed d /\ subscriptions d' = subscriptions d /\ map ProxyModel.Hash l = map ProxyModel.Hash ps.
Proof.
  intros Hn. revert d l d'. induction Hn as [|p ps Hp Hn IH]; intros d l d'; cbn [insertProxies]; [by intros [= <- <-]|].
  destruct (ProxyModel.BeforeSave _ _ p) as [p'|] eqn:Eb; [|done]. apply BeforeSave_hash in Eb; [|done].
  set (r := match routes d !! _ with Some _ => _ | None => _ end).
  assert (forall id d1, r = Ok (id, d1) -> managed d1 = managed d /\ subscriptions d1 = subscriptions d) as Hr.
  { intros id d1. unfold r. destruct (routes d !! _); [by intros [= _ <-]|]. destruct (ProxyModel.ID p' =? 0).
    all: case_bool_decide; [done|by intros [= _ <-]]. }
  destruct r as [[id d1]|]; [|done]. destruct (Hr id d1 eq_refl) as [H1 H2].
  destruct (insertProxies A F ps d1) as [[l0 d2]|] eqn:Ei; [|done]. intros [= <- <-].
  destruct (IH _ _ _ Ei) as (H3 & H4 & H5). split_and!; [by rewrite H3|by rewrite H4|]. cbn. by rewrite H5, Eb.
Qed.

Definition new_active (ws : Z) (m : gmap (Z * Z) ManagedProxy) (plans : gmap string managedProxyStatePlan) (p : ProxyModel.Proxy) : bool :=
  fresh ws m p && match plans !! ProxyModel.Hash p with Some c => bool_decide (plan_state c = Active) | None => false end.

(** One association makes at most one route active, and only a new row does. *)
Lemma insert_associations_le now (ws w : Z) plans l m0 acc : (forall k, is_Some (m0 !! k) -> is_Some (acc.2 !! k)) ->
  active_rows w (fold_left (insert_association now ws plans) l acc).2 <=
  active_rows w acc.2 + if ws =? w then Z.of_nat (length (List.filter (new_active ws m0 plans) l)) else 0.
Proof.
  revert acc. induction l as [|p l IH]; intros acc Hacc; cbn [fold_left List.filter]; [destruct (ws =? w); cbn; lia|].
  etrans; [apply IH|].
  { intros k Hk. apply Hacc in Hk. unfold insert_association. destruct (acc.2 !! (ws, ProxyModel.ID p)); [done|].
    destruct (plans !! _); [|done]. cbn. rewrite lookup_insert. by case_decide. }
  unfold insert_association. unfold new_active at 2.
  destruct (acc.2 !! (ws, ProxyModel.ID p)) as [r|] eqn:Er; [|destruct (plans !! ProxyModel.Hash p) as [c|]].
  1: destruct (fresh ws m0 p && _), (ws =? w); cbn [length]; lia.
  2: rewrite andb_false_r; destruct (ws =? w); lia.
  cbn [snd]. rewrite active_rows_insert by done. unfold active_of. cbn [fst snd].
  assert (fresh ws m0 p = true) as ->.
  { apply bool_decide_eq_true. apply eq_None_not_Some. intros Hs. apply Hacc in Hs as [? ?]. congruence. }
  assert (is_active (new_row now p c) = bool_decide (plan_state c = Active)) as -> by by apply bool_decide_ext.
  destruct (ws =? w), (bool_decide (plan_state c = Active)); cbn [andb length]; lia.
Qed.

Lemma credentials_le (ws w : Z) l m : active_rows w (updateWorkspaceAssociationCredentials ws l m) <= active_rows w m.
Proof.
  apply active_rows_le. revert m. unfold updateWorkspaceAssociationCredentials.
  induction l as [|p l IH]; intros m q r' Hr Ha; cbn in Hr; [by exists r'|].
  apply IH in Hr as (r & Hr & Hra); [|done]. rewrite lookup_alter in Hr. case_decide as Hd; [|by exists r].
  apply fmap_Some in Hr as (r0 & Hr0 & ->). exists r0. by rewrite <- Hd.
Qed.

Lemma associations_le now (ws w : Z) l plans d :
  active_rows w (managed (createWorkspaceAssociations now ws l plans d)) <=
  active_rows w (managed d) + if ws =? w then Z.of_nat (length (List.filter (new_active ws (managed d) plans) l)) else 0.
Proof.
  unfold createWorkspaceAssociations. destruct l as [|p0 l0] eqn:El; [destruct (ws =? w); cbn; lia|]. rewrite <- El. clear El p0 l0.
  pose proof (insert_associations_le now ws w plans l (managed d) (0, managed d) (fun _ H => H)) as Hf. cbn [snd] in Hf.
  destruct (fold_left _ l _) as [n m]. cbn [snd] in Hf.
  assert (forall d' : DB, managed (if n =? 0 then d' else refreshWorkspaceUsageActiveRoutes now ws d') = managed d') as ->.
  { intros d'. unfold refreshWorkspaceUsageActiveRoutes. by destruct (n =? 0), (ws =? 0). }
  cbn. destruct (n <? _); [|done]. etrans; [apply credentials_le|exact Hf].
Qed.

(** What a workspace's new active routes are: granted, or re-created. *)
Lemma new_active_le (ws : Z) m x stored :
  Z.of_nat (length (List.filter (new_active ws m (plan x)) (List.filter (fun p => bool_decide (is_Some (plan x !! ProxyModel.Hash p))) stored))) <=
  recreated ws stored x m + plan_grant (map ProxyModel.Hash stored) x.
Proof.
  unfold recreated, plan_grant. rewrite filter_map_comm, length_map, <- Nat2Z.inj_add. apply Nat2Z.inj_le.
  induction stored as [|p l IH]; cbn [List.filter length]; [lia|]. unfold makes_active, new_active in *.
  destruct (plan x !! ProxyModel.Hash p) as [c|] eqn:Ec.
  - rewrite (bool_decide_eq_true_2 (is_Some (Some c))) by by eexists. cbn [List.filter]. rewrite Ec.
    destruct (found x !! ProxyModel.Hash p) as [e|] eqn:Ee.
    + rewrite (bool_decide_eq_true_2 (is_Some (Some e))) by by eexists. rewrite (bool_decide_eq_false_2 (Some e = None)) by done.
      destruct (fresh ws m p), (bool_decide (plan_state c = Active)); cbn [length andb]; lia.
    + rewrite (bool_decide_eq_false_2 (is_Some None)) by by intros [? ?]. rewrite (bool_decide_eq_true_2 (None = None)) by done.
      destruct (fresh ws m p), (bool_decide (plan_state c = Active)); cbn [length andb]; lia.
  - rewrite (bool_decide_eq_false_2 (is_Some None)) by by intros [? ?]. rewrite !andb_false_r. lia.
Qed.

Lemma commit_plans_le now stored plans d o d' o' : fold_left (commit_plan now stored) plans (d, o) = (d', o') ->
  subscriptions d' = subscriptions d /\ (forall w, over_of o w <= over_of o' w) /\
  forall w, active_rows w (managed d') + over_of o w <=
    active_rows w (managed d) + sum_of (fun x => if x.1 =? w then plan_grant (map ProxyModel.Hash stored) x.2 else 0) plans + over_of o' w.
Proof.
  revert d o. induction plans as [|[ws x] plans IH]; intros d o; cbn [fold_left].
  { intros [= <- <-]. split; [done|]. split; [done|]. intros w. unfold sum_of. cbn. lia. }
  cbn [commit_plan fst snd]. set (d1 := associate _ _ _ _). set (o1 := <[ws := _]> o). intros H.
  destruct (IH d1 o1 H) as (Hs & Hle & Hact). clear IH H.
  assert (forall w, over_of o1 w = over_of o w + if ws =? w then recreated ws stored x (managed d) else 0) as Ho.
  { intros w. unfold o1, over_of at 1. rewrite lookup_insert. case_decide as Hd; [subst; rewrite Z.eqb_refl; done|].
    rewrite (proj2 (Z.eqb_neq _ _) Hd). unfold over_of. lia. }
  split; [|split].
  - rewrite Hs. unfold d1, associate. apply associations_frame.
  - intros w. specialize (Hle w). rewrite Ho in Hle. assert (0 <= recreated ws stored x (managed d)) by (unfold recreated; lia).
    destruct (ws =? w); lia.
  - intros w. specialize (Hact w). rewrite Ho in Hact. rewrite sum_of_cons. cbn [fst snd].
    assert (active_rows w (managed d1) <= active_rows w (managed d) +
      if ws =? w then recreated ws stored x (managed d) + plan_grant (map ProxyModel.Hash stored) x else 0); [|destruct (ws =? w); lia].
    unfold d1, associate. cbn [fst snd]. etrans; [apply associations_le|]. apply Zplus_le_compat_l. destruct (ws =? w); [|done].
    apply new_active_le.
Qed.

(** ** Every step *)

Section Invariant.
Context (toASCII : string -> option string).
Context (FingerprintProxyRoute : string -> Z -> string -> string -> option string).
Context (nonempty : ProxyModel.fingerprint_nonempty FingerprintProxyRoute).
Abbreviation step := (step toASCII FingerprintProxyRoute).

Lemma normalize_sorted ids : StronglySorted Z.lt (normalizeWorkspaceIDs ids).
Proof.
  unfold normalizeWorkspaceIDs. assert (StronglySorted Z.le (merge_sort Z.le ids)) as Hs by (apply StronglySorted_merge_sort; apply _).
  assert (forall l seen, StronglySorted Z.le l -> StronglySorted Z.lt (dedup_go seen l)) as H; [|by apply H].
  induction l as [|a l IH]; intros seen; cbn; [constructor|]. intros [Hl Hf]%StronglySorted_inv.
  case_bool_decide; [by apply IH|]. constructor; [by apply IH|]. apply Forall_forall. intros b [Hb Hn]%elem_of_dedup_go.
  rewrite Forall_forall in Hf. specialize (Hf b Hb). assert (b <> a) by (intros ->; apply Hn; by left). lia.
Qed.

Lemma activate_le now (ws p w : Z) m : active_rows w (alter (set_state now Active) (ws, p) m) <= active_rows w m + if ws =? w then 1 else 0.
Proof.
  destruct (m !! (ws, p)) as [r|] eqn:Er.
  - assert (alter (set_state now Active) (ws, p) m = <[(ws, p) := set_state now Active r]> (delete (ws, p) m)) as ->.
    { apply map_eq. intros k. rewrite lookup_alter, lookup_insert, lookup_delete. case_decide as Hk; [subst; by rewrite Er|done]. }
    rewrite active_rows_insert by by rewrite lookup_delete_eq.
    assert (active_rows w (delete (ws, p) m) <= active_rows w m).
    { apply active_rows_le. intros q r' (_ & Hq)%lookup_delete_Some Ha. by exists r'. }
    assert (active_of w (ws, p, set_state now Active r) <= if ws =? w then 1 else 0); [|lia].
    unfold active_of. cbn [fst snd]. destruct (ws =? w); [|done]. cbn [andb]. destruct (is_active _); lia.
  - assert (alter (set_state now Active) (ws, p) m = m) as ->; [|destruct (ws =? w); lia].
    apply map_eq. intros k. rewrite lookup_alter. case_decide as Hk; [subst; by rewrite Er|done].
Qed.

Lemma sorted_absent (l r : list Z) ws : StronglySorted Z.lt (l ++ ws :: r) -> ws ∉ l.
Proof.
  intros Hs Hin. assert (ws < ws); [|lia]. apply (StronglySorted_app_le Z.lt l (ws :: r)); [done|done|by left].
Qed.

Lemma check_inv s t ws p : inv s -> txs s !! t = Some (Activating ws p false) -> available_to s t ws ->
  ensureWorkspaceActivationAvailable ws (db s) = None -> inv (set_tx t (Activating ws p true) (lock t ws s)).
Proof.
  intros Hi Ht Ha He. eapply lock_inv; [done|exact Ht|done|done| | |].
  - intros w. cbn. rewrite list_elem_of_singleton. split; [by left|]. by intros [|?%not_elem_of_nil].
  - intros w Hw. cbn. by rewrite (proj2 (Z.eqb_neq ws w)).
  - intros sub limit Hs Hl. unfold ensureWorkspaceActivationAvailable in He. rewrite Hs, Hl in He. pose proof (inv_over _ Hi ws).
    destruct (limit <=? _) eqn:E; [done|]. breflect. cbn. rewrite Z.eqb_refl. cbn. lia.
Qed.

Lemma look_inv s t proxies ws rest plans : inv s -> txs s !! t = Some (Importing proxies (ws :: rest) None plans) -> available_to s t ws ->
  inv (set_tx t (Importing proxies (ws :: rest)
        (Some (subscriptions (db s) !! ws, existing_states ws (map ProxyModel.Hash proxies) (db s))) plans) (lock t ws s)).
Proof.
  intros Hi Ht Ha. pose proof (inv_txs _ Hi _ _ Ht) as (Hnd & Hne & Hs & _). eapply lock_inv; [done|exact Ht|done| | |done|].
  - cbn. split_and!; [done|done|done|]. exists ws, rest. split_and!; [done|done|]. intros h [c Hc]. rewrite existing_states_spec in Hc.
    destruct (bool_decide _) eqn:E; [by apply bool_decide_eq_true_1 in E|done].
  - intros w. cbn. rewrite app_nil_r, elem_of_app, list_elem_of_singleton. tauto.
  - intros sub limit Hsub Hl. pose proof (inv_cap _ Hi ws sub limit Hsub Hl) as Hcap.
    assert (granted (Importing proxies (ws :: rest) None plans) ws = 0) as Hz.
    { apply granted_held. cbn. rewrite app_nil_r. by eapply sorted_absent. }
    cbn in *. rewrite Hz. pose proof (granted_by_nonneg s ws). lia.
Qed.

Lemma plan_inv s t proxies ws rest sub existing plans : inv s ->
  txs s !! t = Some (Importing proxies (ws :: rest) (Some (sub, existing)) plans) ->
  inv (set_tx t (Importing proxies rest None
        (plans ++ [(ws, MkWorkspacePlan existing (plan_states sub existing (map ProxyModel.Hash proxies) (active_rows ws (managed (db s)))))])) s).
Proof.
  intros Hi Ht. pose proof (inv_txs _ Hi _ _ Ht) as (Hnd & Hne & Hs & w & r & [= <- <-] & Hsub & Hdom).
  apply set_tx_inv; [done| | |].
  - cbn. split_and!; [done|done| |done]. by rewrite fmap_app, <- app_assoc.
  - intros w. rewrite Ht. cbn. by rewrite fmap_app, app_nil_r.
  - intros w sub' limit Hl Hsub' Hlim. pose proof (inv_cap _ Hi w sub' limit Hsub' Hlim) as Hcap. unfold granted_by in Hcap. rewrite Hl, Ht in Hcap.
    pose proof (inv_over _ Hi w) as Hov. cbn [granted] in *. rewrite sum_of_app, sum_of_cons. cbn [fst snd].
    set (g := sum_of _ plans) in *. unfold sum_of at 1. cbn [foldr]. destruct (ws =? w) eqn:E; [|lia]. breflect. subst w.
    assert (g = 0) as ->.
    { apply (sum_absent (plan_grant _)). by eapply sorted_absent. }
    rewrite Hsub, Hsub'. pose proof (plan_grant_le sub' existing (map ProxyModel.Hash proxies) (active_rows ws (managed (db s))) Hnd Hdom) as Hg.
    rewrite Hlim in Hg. cbn in Hg. specialize (Hg eq_refl). lia.
Qed.

Lemma commit_inv s t now proxies plans stored d : inv s -> txs s !! t = Some (Importing proxies [] None plans) ->
  insertProxies toASCII FingerprintProxyRoute proxies (db s) = Ok (stored, d) ->
  inv (let '(d, o) := fold_left (commit_plan now stored) plans (d, over s) in ended t (MkSys d (locks s) (txs s) o)).
Proof.
  intros Hi Ht Hins. pose proof (inv_txs _ Hi _ _ Ht) as (Hnd & Hne & _).
  apply insertProxies_frame in Hins as (Hm & Hsub & Hh); [|done].
  destruct (fold_left _ plans _) as [d' o'] eqn:E. apply commit_plans_le in E as (Hs & Hle & Hact).
  apply ended_inv; [done|congruence|done|]. intros w. specialize (Hact w). rewrite Hm, Hh in Hact. rewrite Ht. cbn [granted]. lia.
Qed.

Lemma subscription_inv s ws old sub : inv s -> subscriptions (db s) !! ws = Some old -> locks s !! ws = None ->
  inv (MkSys (set_subscription ws sub (db s)) (locks s) (txs s)
         (<[ws := Z.max 0 (active_rows ws (managed (db s)) - (ActivationLimit sub).1)]> (over s))).
Proof.
  intros Hi Hs Hl.
  assert (forall t tx, txs s !! t = Some tx -> ws ∉ held tx) as Hno.
  { intros t tx Ht Hin. assert (locks s !! ws = Some t) by (eapply (inv_held _ Hi); [done|done|by eexists]). congruence. }
  split; cbn.
  - intros w. unfold over_of. rewrite lookup_insert. case_decide; [cbn; lia|apply (inv_over _ Hi)].
  - apply (inv_locks _ Hi).
  - intros t tx w Ht Hin. rewrite lookup_insert_ne by (intros ->; by eapply Hno). by eapply (inv_held _ Hi).
  - intros t tx Ht. pose proof (inv_txs _ Hi _ _ Ht) as Hw. destruct tx as [|proxies todo [[su ex]|] plans]; [done| |done].
    destruct Hw as (A & B & C & w & rest & -> & -> & D). cbn. split_and!; [done|done|done|]. exists w, rest. split_and!; [done| |done].
    rewrite lookup_insert_ne; [done|]. intros <-. apply (Hno _ _ Ht). cbn. apply elem_of_app. right. by left.
  - intros w sub' limit Hs' Hlim. unfold granted_by, over_of. cbn. rewrite lookup_insert in Hs'. rewrite (lookup_insert (over s)). case_decide as Hd.
    + subst w. injection Hs' as <-. rewrite Hl, Hlim. cbn. lia.
    + apply (inv_cap _ Hi w sub' limit Hs' Hlim).
Qed.

Lemma workspace_inv s ws sub : inv s -> subscriptions (db s) !! ws = None -> active_rows ws (managed (db s)) = 0 ->
  (forall t tx, txs s !! t = Some tx -> ~ touches tx ws) -> inv (set_db (set_subscription ws sub (db s)) s).
Proof.
  intros Hi Hs Hz Hno. split; cbn; [apply (inv_over _ Hi)|apply (inv_locks _ Hi)| | |].
  - intros t tx w Ht Hin. rewrite lookup_insert_ne by (intros ->; by eapply Hno, held_touches). by eapply (inv_held _ Hi).
  - intros t tx Ht. pose proof (inv_txs _ Hi _ _ Ht) as Hw. destruct tx as [|proxies todo [[su ex]|] plans]; [done| |done].
    destruct Hw as (A & B & C & w & rest & -> & -> & D). cbn. split_and!; [done|done|done|]. exists w, rest. split_and!; [done| |done].
    rewrite lookup_insert_ne; [done|]. intros <-. apply (Hno _ _ Ht). cbn. apply elem_of_app. right. by left.
  - intros w sub' limit Hs' Hlim. rewrite lookup_insert in Hs'. case_decide as Hd; [|by apply (inv_cap _ Hi w sub' limit Hs' Hlim)].
    subst w. rewrite Hz. pose proof (limit_nonneg sub') as Hln. rewrite Hlim in Hln. cbn in Hln. pose proof (inv_over _ Hi ws).
    unfold granted_by. cbn. destruct (locks s !! ws) as [t|] eqn:El; [|lia]. apply (inv_locks _ Hi) in El as (tx & Ht & Hin).
    exfalso. by eapply Hno, held_touches.
Qed.

Lemma started_inv d s : started d s -> inv s.
Proof.
  intros ->. assert (forall ws, 0 <= over_of (map_imap (fun ws sub => Some (Z.max 0 (active_rows ws (managed d) - (ActivationLimit sub).1))) (subscriptions d)) ws) as Ho.
  { intros ws. unfold over_of. rewrite map_lookup_imap. destruct (subscriptions d !! ws); cbn; lia. }
  split; cbn; [done|done|done|done|]. intros ws sub limit Hs Hl. unfold granted_by, over_of. cbn. rewrite map_lookup_imap, Hs. cbn.
  rewrite Hl, lookup_empty. cbn. lia.
Qed.

Lemma top_lock (l : gmap Z nat) : l <> ∅ -> exists w t, l !! w = Some t /\ forall w' t', l !! w' = Some t' -> w' <= w.
Proof.
  induction l as [|k v l Hk IH] using map_ind; [done|]. intros _. destruct (decide (l = ∅)) as [->|Hne].
  - exists k, v. split; [by rewrite lookup_insert_eq|]. intros w' t' [[<- _]|[_ H]]%lookup_insert_Some; [done|]. by rewrite lookup_empty in H.
  - destruct (IH Hne) as (w & t & Hw & Hm). destruct (decide (k <= w)) as [Hle|Hgt].
    + exists w, t. split; [rewrite lookup_insert_ne; [done|congruence]|]. intros w' t' [[<- _]|[_ H]]%lookup_insert_Some; [done|by eapply Hm].
    + exists k, v. split; [by rewrite lookup_insert_eq|]. intros w' t' [[<- _]|[_ H]]%lookup_insert_Some; [done|]. apply Hm in H. lia.
Qed.

Lemma step_inv s s' : step s s' -> inv s -> inv s'.
Proof.
  intros Hstep Hi. destruct Hstep as [t ws p m s Ht _ _|t ws p s Ht Ha He|now t ws p s Ht|t proxies unique ids s Ht Hd|t proxies ws rest plans s Ht _ Ha
    |t proxies ws rest sub existing plans s Ht|now t proxies plans stored d s Ht Hins|t s|d s [Hsub Hr]|ws old sub s Hs Hl|ws sub s Hs Hz Hno].
  - apply set_tx_inv; [done|done|intros w; by rewrite Ht|]. intros w sub limit Hl. apply (inv_locks _ Hi) in Hl as (? & ? & _). congruence.
  - by apply check_inv.
  - apply ended_inv; [done|by unfold refreshWorkspaceUsageActiveRoutes; destruct (ws =? 0)|done|]. intros w. rewrite Ht. cbn.
    apply Z.add_le_mono_r. assert (forall d, managed (refreshWorkspaceUsageActiveRoutes now ws d) = managed d) as ->.
    { intros d. unfold refreshWorkspaceUsageActiveRoutes. by destruct (ws =? 0). }
    cbn. pose proof (activate_le now ws p w (managed (db s))). destruct (ws =? w); cbn in *; lia.
  - apply dedup_proxies_spec in Hd as [Hnd Hh]; [|done].
    apply set_tx_inv; [done| |by intros w; rewrite Ht|].
    + cbn. split_and!; [done|eapply Forall_impl; [exact Hh|by intros ? []]|apply normalize_sorted|done].
    + intros w sub limit Hl. apply (inv_locks _ Hi) in Hl as (? & ? & _). congruence.
  - by apply look_inv.
  - by apply plan_inv.
  - by apply (commit_inv s t now proxies plans stored d).
  - destruct s as [d l x o]. apply (ended_inv (MkSys d l x o) t d o); [done|done|done|]. intros w. cbn. destruct (x !! t) as [tx|]; [pose proof (granted_nonneg tx w)|]; lia.
  - split; cbn; [apply (inv_over _ Hi)|apply (inv_locks _ Hi)| | |].
    + intros t tx w Htx Hin Hss. rewrite Hsub in Hss. by eapply (inv_held _ Hi).
    + intros t tx Htx. eapply tx_wf_same; [exact Hsub|by eapply (inv_txs _ Hi)].
    + intros w sub limit Hs Hlim. rewrite Hsub in Hs. pose proof (inv_cap _ Hi w sub limit Hs Hlim).
      assert (active_rows w (managed d) <= active_rows w (managed (db s))) by (apply active_rows_le; apply Hr). unfold granted_by in *. cbn. lia.
  - by eapply subscription_inv.
  - by apply workspace_inv.
Qed.

(** C5. However activations, imports, pauses, deletions and clean-ups of any
    number of actors interleave, statement by statement, and fail: a workspace
    never has more active routes than its subscription allows, but for those it
    had when the subscription last changed and those an import re-created, their
    management having been deleted while the import ran. *)
Theorem capacity_respected d0 s0 s ws sub limit : started d0 s0 -> rtc step s0 s ->
  subscriptions (db s) !! ws = Some sub -> ActivationLimit sub = (limit, false) ->
  active_rows ws (managed (db s)) <= limit + over_of (over s) ws.
Proof.
  intros Hs Hr Hsub Hl. assert (inv s) as Hi.
  { refine (rtc_ind_r inv s0 _ _ s Hr); [by eapply started_inv|]. intros ? ? _ Hst ?. by eapply step_inv. }
  pose proof (inv_cap _ Hi ws sub limit Hsub Hl). pose proof (granted_by_nonneg s ws). lia.
Qed.

(** What a transaction waits for. *)
Definition wants (tx : transaction) : option Z :=
  match tx with
  | Activating ws _ false => Some ws
  | Importing _ (ws :: _) None _ => Some ws
  | _ => None
  end.

Definition blocked (s : Sys) (t : nat) : Prop :=
  exists tx ws, txs s !! t = Some tx /\ wants tx = Some ws /\ ~ available_to s t ws.

(** The subscription locks alone close no circle, since an import takes them in
    the order of its workspaces: some transaction waits for none of them.  That
    says nothing about rows of routes, which two imports may lock in opposite
    orders while they insert; PostgreSQL then ends one of them. *)
Lemma subscription_locks_acyclic d0 s0 s : started d0 s0 -> rtc step s0 s -> txs s <> ∅ ->
  exists t tx, txs s !! t = Some tx /\ ~ blocked s t.
Proof.
  intros Hs Hr Hne. assert (inv s) as Hi.
  { refine (rtc_ind_r inv s0 _ _ s Hr); [by eapply started_inv|]. intros ? ? _ Hst ?. by eapply step_inv. }
  destruct (decide (locks s = ∅)) as [Hl|Hl].
  - apply map_choose in Hne as (t & tx & Ht). exists t, tx. split; [done|]. intros (tx' & ws & Ht' & _ & Ha). apply Ha. right. left. by rewrite Hl.
  - destruct (top_lock (locks s) Hl) as (w & t & Hw & Hmax). destruct (inv_locks _ Hi _ _ Hw) as (tx & Ht & Hin).
    exists t, tx. split; [done|]. intros (tx' & ws & Ht' & Hwant & Ha). rewrite Ht in Ht'. injection Ht' as <-.
    apply Ha. right. left. destruct (locks s !! ws) as [t'|] eqn:El; [|done]. exfalso. apply Hmax in El.
    assert (w < ws); [|lia]. pose proof (inv_txs _ Hi _ _ Ht) as Hwf. destruct tx as [? ? []|proxies [|w' rest] [] plans]; try done.
    + cbn in Hin. by apply not_elem_of_nil in Hin.
    + injection Hwant as ->. destruct Hwf as (_ & _ & Hso & _). cbn in Hin. rewrite app_nil_r in Hin.
      apply (StronglySorted_app_le Z.lt (plans.*1) (ws :: rest)); [done|done|by left].
Qed.

(** ** The whole operations as runs *)

(** An operation of Routes.v and what it leaves, executed alone. *)
Inductive operation (now : Z) (d : DB) : DB -> Prop :=
| op_set ws p raw d' : SetManagedProxyState now ws p raw d = (None, d') -> operation now d d'
| op_pause ws p reason : operation now d (PauseManagedProxy now ws p reason d).2
| op_delete_active ws p : operation now d (DeleteActiveManagedProxy now ws p d).2
| op_delete ws proxies ends : operation now d (DeleteProxyRelation now ws proxies ends d).2
| op_overflow : operation now d (CleanupProxyLimitViolations now d).2
| op_failures : operation now d (CleanupAutoRemovalViolations now d).2
| op_import proxies ids stored d' :
    insertAndAssociateProxies toASCII FingerprintProxyRoute now proxies ids d = (Ok stored, d') -> operation now d d'.

Lemma retreats_refl d : retreats d d.
Proof. split; [done|]. intros ws p r H Ha. by exists r. Qed.

Lemma retreats_trans d d1 d2 : retreats d d1 -> retreats d1 d2 -> retreats d d2.
Proof.
  intros [A1 A2] [B1 B2]. split; [congruence|]. intros ws p r Hr Ha. destruct (B2 ws p r Hr Ha) as (r1 & H1 & Ha1). by eapply A2.
Qed.

Lemma retreats_rows d m d' : (forall k r', m !! k = Some r' -> is_active r' = true -> exists r, managed d !! k = Some r /\ is_active r = true) ->
  managed d' = m -> subscriptions d' = subscriptions d -> retreats d d'.
Proof. intros H Hm Hs. split; [done|]. intros ws p r'. rewrite Hm. apply H. Qed.

Lemma managed_refresh now ws d : managed (refreshWorkspaceUsageActiveRoutes now ws d) = managed d /\
  subscriptions (refreshWorkspaceUsageActiveRoutes now ws d) = subscriptions d.
Proof. unfold refreshWorkspaceUsageActiveRoutes. by destruct (ws =? 0). Qed.

Lemma retreats_refresh now ws d d' : retreats d d' -> retreats d (refreshWorkspaceUsageActiveRoutes now ws d').
Proof. intros H. eapply retreats_trans; [exact H|]. split; [apply managed_refresh|]. rewrite (proj1 (managed_refresh now ws d')). intros ? ? r ? ?. by exists r. Qed.

Lemma retreats_alter d k f : (forall r, is_active (f r) = true -> is_active r = true) -> retreats d (update_row k f d).
Proof.
  intros Hf. eapply retreats_rows; [|done|done]. intros k' r' H Ha. cbn in H. rewrite lookup_alter in H. case_decide; [|by exists r'].
  apply fmap_Some in H as (r & Hr & ->). subst. exists r. split; [done|by apply Hf].
Qed.

Lemma retreats_delete d ws ids st : retreats d (deleteManagedRoutes ws ids st d).2.
Proof. eapply retreats_rows; [|done|done]. intros k r (H & _)%map_lookup_filter_Some Ha. by exists r. Qed.

Lemma pause_row_active now reason r : is_active (pause_row now reason r) = true -> is_active r = true.
Proof. by rewrite pause_row_inactive. Qed.

Lemma retreats_pause_all d now ws reason ids : retreats d (set_managed (pause_all now ws reason ids (managed d)) d).
Proof.
  eapply retreats_rows; [|done|done]. intros [w p] r' H Ha. cbn [managed set_managed] in H. rewrite pause_all_lookup in H. apply fmap_Some in H as (r & Hr & ->).
  exists r. split; [done|]. destruct (_ && _); [by apply pause_row_active in Ha|done].
Qed.

Lemma retreats_chunks ws chunks ends total orphans d : retreats d (delete_chunks ws chunks ends total orphans d).2.
Proof.
  revert ends total orphans d. induction chunks as [|c chunks IH]; intros ends total orphans d; cbn [delete_chunks].
  { destruct (hd _ ends); apply retreats_refl. }
  pose proof (retreats_delete d ws (List.filter (Z.ltb 0) c) None) as Hd. destruct (deleteManagedRoutes _ _ _ d) as [n d1].
  destruct (hd _ ends); [apply retreats_refl|exact Hd|]. eapply retreats_trans; [exact Hd|apply IH].
Qed.

Lemma retreats_cleanup now l acc d0 : retreats d0 acc.2 -> retreats d0 (fold_left (cleanup_subscription now) l acc).2.
Proof.
  revert acc. induction l as [|[ws sub] l IH]; intros [[n ids] d] H; cbn [fold_left]; [done|]. apply IH. unfold cleanup_subscription.
  destruct (ActivationLimit _) as [limit [|]]; [done|]. unfold pauseWorkspaceCapacityOverflow. cbn [fst snd] in *.
  destruct (_ <=? 0); [done|]. destruct (take _ _) as [|i is_]; [done|]. cbn [snd]. apply retreats_refresh.
  eapply retreats_trans; [exact H|apply retreats_pause_all].
Qed.

Lemma retreat_run d d' o : retreats d d' -> rtc step (MkSys d ∅ ∅ o) (MkSys d' ∅ ∅ o).
Proof. intros H. apply rtc_once. by apply (step_retreat _ _ d' (MkSys d ∅ ∅ o)). Qed.

(** The locks of a transaction that runs alone. *)
Definition only (t : nat) (l : gmap Z nat) : Prop := forall ws t', l !! ws = Some t' -> t' = t.

Lemma only_ended t d l tx o : only t l -> ended t (MkSys d l {[t := tx]} o) = MkSys d ∅ ∅ o.
Proof.
  intros Hl. unfold ended. cbn. f_equal; [|apply map_eq; intros i; rewrite lookup_delete; case_decide; [done|]; by rewrite lookup_singleton_ne].
  apply map_eq. intros ws. rewrite lookup_empty. apply map_lookup_filter_None_2. right. intros t' Ht' Hn. cbn in Hn. by apply Hn, (Hl ws).
Qed.

Lemma only_lock t ws d l x o : only t l -> exists l', lock t ws (MkSys d l x o) = MkSys d l' x o /\ only t l'.
Proof.
  intros Hl. unfold lock. cbn. destruct (subscriptions d !! ws) as [sub|]; [|by exists l]. eexists. split; [done|].
  intros w t' [[_ <-]|[_ H]]%lookup_insert_Some; [done|by eapply Hl].
Qed.

Lemma only_available t ws d l x o : only t l -> available_to (MkSys d l x o) t ws.
Proof. intros Hl. right. cbn. destruct (l !! ws) as [t'|] eqn:E; [right; f_equal; by eapply Hl|by left]. Qed.

Definition plan_made (proxies : list ProxyModel.Proxy) (d : DB) (x : Z * gmap string managedProxyStatePlan) : Z * workspace_plan :=
  (x.1, MkWorkspacePlan (existing_states x.1 (map ProxyModel.Hash proxies) d) x.2).

Lemma plans_run t proxies d o todo acc l plans : only t l -> plan_workspaces todo proxies d = Ok plans ->
  exists l', only t l' /\
    rtc step (MkSys d l {[t := Importing proxies todo None acc]} o)
      (MkSys d l' {[t := Importing proxies [] None (acc ++ map (plan_made proxies d) plans)]} o).
Proof.
  revert acc l plans. induction todo as [|ws todo IH]; intros acc l plans Hl; cbn [plan_workspaces].
  { intros [= <-]. exists l. rewrite app_nil_r. split; [done|apply rtc_refl]. }
  unfold planWorkspaceManagedProxyStates. destruct (ws =? 0) eqn:E; [done|]. breflect.
  destruct (plan_workspaces todo proxies d) as [plans0|]; [|done]. intros [= <-].
  set (x0 := {[t := Importing proxies (ws :: todo) None acc]} : gmap nat transaction).
  destruct (only_lock t ws d l x0 o Hl) as (l1 & Hl1 & Ho1).
  set (pl := plan_states _ _ _ _). destruct (IH (acc ++ [plan_made proxies d (ws, pl)]) l1 plans0 Ho1 eq_refl) as (l' & Hl' & Hr). exists l'. split; [done|].
  eapply rtc_l; [apply (step_look _ _ t proxies ws todo acc (MkSys d l x0 o)); [apply lookup_singleton_eq|done|by apply only_available]|].
  unfold set_tx. rewrite Hl1. cbn [db locks txs over]. unfold x0. rewrite insert_singleton_eq.
  eapply rtc_l; [eapply step_plan; apply lookup_singleton_eq|].
  unfold set_tx. cbn [db locks txs over]. rewrite insert_singleton_eq. rewrite <- app_assoc in Hr. exact Hr.
Qed.

(** Alone, an import re-creates nothing. *)
Lemma recreated_alone d0 d1 d stored ws pl : wf d0 -> stores d0 d -> stored_as d stored ->
  (forall p, managed d1 !! (ws, p) = managed d0 !! (ws, p)) ->
  recreated ws stored (MkWorkspacePlan (existing_states ws (map ProxyModel.Hash stored) d0) pl) (managed d1) = 0.
Proof.
  intros Hw Hs Hst Hm. unfold recreated. cbn [found plan].
  assert (List.filter (fun p => fresh ws (managed d1) p && bool_decide (is_Some (existing_states ws (map ProxyModel.Hash stored) d0 !! ProxyModel.Hash p)) &&
    match pl !! ProxyModel.Hash p with Some c => bool_decide (plan_state c = Active) | None => false end) stored = []) as ->; [|done].
  destruct (List.filter _ stored) as [|p l] eqn:E; [done|]. exfalso.
  assert (In p (p :: l)) as Hin by by left. rewrite <- E in Hin.
  apply filter_In in Hin as [Hin Hf]. apply list_elem_of_In in Hin. apply andb_true_iff in Hf as [[Hf1 Hf2]%andb_true_iff _].
  apply bool_decide_eq_true_1 in Hf1, Hf2. rewrite Hm in Hf1. destruct Hf2 as [c Hc]. rewrite existing_states_spec in Hc.
  destruct (bool_decide _); [|done]. by rewrite (management_stored d0 d stored), Hf1 in Hc.
Qed.

Lemma commit_alone now d0 d stored plans o : NoDup (map ProxyModel.ID stored) -> wf d0 -> stores d0 d -> stored_as d stored ->
  NoDup plans.*1 -> exists o',
  fold_left (commit_plan now stored) (map (plan_made stored d0) plans) (d, o) = (fold_left (associate now stored) plans d, o') /\
  forall w, over_of o' w = over_of o w.
Proof.
  intros Hid Hw Hs Hst.
  assert (forall plans d1 o, NoDup plans.*1 -> (forall ws p, ws ∈ plans.*1 -> managed d1 !! (ws, p) = managed d0 !! (ws, p)) -> exists o',
    fold_left (commit_plan now stored) (map (plan_made stored d0) plans) (d1, o) = (fold_left (associate now stored) plans d1, o') /\
    forall w, over_of o' w = over_of o w) as H.
  2:{ intros Hnd. apply H; [done|]. intros. by rewrite (st_managed _ _ Hs). }
  clear plans o. induction plans as [|[ws pl] plans IH]; intros d1 o Hnd Hm; cbn [map fold_left]; [by exists o|].
  apply NoDup_cons in Hnd as [Hx Hnd]. cbn [commit_plan plan_made fst snd plan].
  rewrite (recreated_alone d0 d1 d) by (done || (intros p; apply Hm; by left)).
  destruct (IH (associate now stored d1 (ws, pl)) (<[ws := over_of o ws + 0]> o) Hnd) as (o' & He & Ho').
  - intros w p Hwin. rewrite <- (Hm w p) by by right. unfold associate. cbn [fst snd].
    apply createWorkspaceAssociations_spec; [by apply NoDup_map_filter| |].
    + apply Forall_forall. intros q [_ Hq]%list_elem_of_In%filter_In. by apply bool_decide_eq_true_1 in Hq.
    + cbn. intros ->. by destruct Hx.
  - exists o'. split; [exact He|]. intros w. rewrite Ho'. unfold over_of at 1. rewrite lookup_insert. case_decide; [subst; cbn; lia|done].
Qed.

Lemma set_state_run now ws p raw d d' o : SetManagedProxyState now ws p raw d = (None, d') -> rtc step (MkSys d ∅ ∅ o) (MkSys d' ∅ ∅ o).
Proof.
  unfold SetManagedProxyState. destruct (parse_state raw) as [st|]; [|done]. destruct (managed d !! (ws, p)) as [m|] eqn:Em; [|done].
  case_bool_decide as Hst; [intros [= <-]; apply rtc_refl|]. destruct (bool_decide (st = Active)) eqn:Ea.
  - apply bool_decide_eq_true_1 in Ea as ->. destruct (ensureWorkspaceActivationAvailable ws d) eqn:Ee; [done|]. intros [= <-].
    eapply rtc_l; [apply (step_found _ _ 0%nat ws p m (MkSys d ∅ ∅ o)); [done|done|done]|]. unfold set_tx. cbn [db locks txs over].
    destruct (only_lock 0%nat ws d ∅ {[0%nat := Activating ws p false]} o) as (l & Hl & Ho); [by intros ? ? ?|].
    eapply rtc_l; [apply (step_check _ _ 0%nat ws p); [apply lookup_insert_eq|by right; left|done]|].
    rewrite insert_empty, Hl. unfold set_tx. cbn [db locks txs over]. rewrite insert_singleton_eq.
    eapply rtc_l; [apply (step_activate _ _ now 0%nat ws p); apply lookup_singleton_eq|]. unfold set_db. cbn [db locks txs over].
    rewrite only_ended by done. apply rtc_refl.
  - apply bool_decide_eq_false_1 in Ea. intros [= <-]. apply retreat_run, retreats_refresh, retreats_alter. intros r. by destruct st.
Qed.

Lemma import_run now proxies ids stored d d' o : wf d ->
  insertAndAssociateProxies toASCII FingerprintProxyRoute now proxies ids d = (Ok stored, d') ->
  exists o', rtc step (MkSys d ∅ ∅ o) (MkSys d' ∅ ∅ o') /\ forall ws, over_of o' ws = over_of o ws.
Proof.
  intros Hw. unfold insertAndAssociateProxies. destruct proxies as [|p0 ps]; [|destruct ids as [|i0 is0]].
  1,2: intros [= _ <-]; exists o; split; [apply rtc_refl|done].
  destruct (deduplicateProxies _ _ _) as [unique|] eqn:Ed; [|done].
  destruct (plan_workspaces _ unique d) as [plans|] eqn:Ep; [|done].
  destruct (insertProxies _ _ unique d) as [[l d1]|] eqn:Ei; [|done]. intros [= <- <-].
  pose proof Ed as Ed'. apply dedup_proxies_spec in Ed' as [Hnd Hh]; [|done]. pose proof Ep as Ep'. apply plan_workspaces_spec in Ep' as [Hfst _].
  pose proof Ei as Ei'. apply insertProxies_spec in Ei' as (Hs & Hm & Hid); [|done|eapply Forall_impl; [exact Hh|by intros ? []]].
  rewrite Forall_forall in Hid. rewrite <- Hm in Hnd.
  destruct (commit_alone now d d1 l plans o) as (o' & He & Ho');
    [by eapply stored_ids; [apply (st_wf _ _ Hs)|..]|done|done|done|rewrite Hfst; apply normalize_spec|].
  exists o'. split; [|done].
  eapply rtc_l; [by apply (step_import _ _ 0%nat _ unique (i0 :: is0) (MkSys d ∅ ∅ o) (lookup_empty _) Ed)|].
  unfold set_tx. cbn [db locks txs over]. rewrite insert_empty.
  assert (only 0%nat ∅) as Hl0 by by intros ? ?.
  destruct (plans_run 0%nat unique d o _ [] ∅ plans Hl0 Ep) as (l' & Hl' & Hr). etrans; [exact Hr|]. cbn [app].
  assert (map (plan_made unique d) plans = map (plan_made l d) plans) as -> by (unfold plan_made; by rewrite Hm).
  eapply rtc_l; [eapply (step_commit _ _ now 0%nat unique); [apply lookup_singleton_eq|exact Ei]|]. cbn [db locks txs over].
  rewrite He. rewrite only_ended by done. apply rtc_refl.
Qed.

(** Each operation, executed alone on consistent tables, is a sequence of
    these steps and leaves what its definition in Routes.v says; nothing is
    counted as over the limit on the way. *)
Theorem operations_are_runs now d d' o : wf d -> operation now d d' ->
  exists o', rtc step (MkSys d ∅ ∅ o) (MkSys d' ∅ ∅ o') /\ forall ws, over_of o' ws = over_of o ws.
Proof.
  intros Hw Hop. destruct Hop as [ws p raw d' H|ws p reason|ws p|ws proxies ends| | |proxies ids stored d' H].
  - exists o. split; [|done]. by eapply set_state_run.
  - exists o. split; [|done]. apply retreat_run. unfold PauseManagedProxy. destruct (managed d !! (ws, p)) as [m|]; [|apply retreats_refl].
    destruct (is_active m); [|apply retreats_refl]. cbn [snd]. apply retreats_refresh, retreats_alter. apply pause_row_active.
  - exists o. split; [|done]. apply retreat_run. unfold DeleteActiveManagedProxy.
    pose proof (retreats_delete d ws [p] (Some Active)) as Hd. destruct (deleteManagedRoutes _ _ _ d) as [n d1].
    destruct (n =? 0); [apply retreats_refl|]. by apply retreats_refresh.
  - exists o. split; [|done]. apply retreat_run. unfold DeleteProxyRelation. destruct proxies as [|p0 ps]; [apply retreats_refl|].
    pose proof (retreats_chunks ws (batches deleteChunkSize (p0 :: ps)) ends 0 [] d) as Hd. destruct (delete_chunks _ _ _ _ _ d) as [[[n os] ok] d1].
    cbn [snd] in *. destruct (n =? 0); [exact Hd|by apply retreats_refresh].
  - exists o. split; [|done]. apply retreat_run. apply retreats_cleanup, retreats_refl.
  - exists o. split; [|done]. apply retreat_run. eapply retreats_rows; [|done|done]. intros k r' H Ha. cbn in H. rewrite map_lookup_imap in H.
    destruct (managed d !! k) as [r|] eqn:Er; [|done]. cbn in H. injection H as <-. exists r. split; [done|].
    destruct (violates d (k, r)); [by apply pause_row_active in Ha|done].
  - by eapply import_run.
Qed.
End Invariant.

(** ** At concrete tables *)

Definition demo_sys : Sys :=
  MkSys demo_tables ∅ ∅ (map_imap (fun ws sub => Some (Z.max 0 (active_rows ws (managed demo_tables) - (ActivationLimit sub).1))) (subscriptions demo_tables)).

Lemma demo_started : started demo_tables demo_sys.
Proof. reflexivity. Defined.

Definition demo_activated : DB := (SetManagedProxyState 9 7 1 "Active" demo_tables).2.

(** Workspace 7 fills its last place. *)
Lemma capacity_respected_witness :
  rtc (step (fun h => Some h) demo_fingerprint) demo_sys (MkSys demo_activated ∅ ∅ (over demo_sys)) /\
  active_rows 7 (managed demo_activated) = 2 /\ active_rows 7 (managed demo_activated) <= 2.
Proof.
  assert (rtc (step (fun h => Some h) demo_fingerprint) demo_sys (MkSys demo_activated ∅ ∅ (over demo_sys))) as Hr.
  { apply (set_state_run _ _ 9 7 1 "Active"). vm_compute. reflexivity. }
  split; [exact Hr|]. split; [vm_compute; reflexivity|].
  pose proof (capacity_respected (fun h => Some h) demo_fingerprint demo_nonempty demo_tables demo_sys _ 7 (MkSub 2 0 "disabled" 0) 2
    demo_started Hr eq_refl eq_refl) as H. exact H.
Defined.

Lemma operations_are_runs_witness :
  exists o', rtc (step (fun h => Some h) demo_fingerprint) (MkSys demo_tables ∅ ∅ ∅) (MkSys demo_import.2 ∅ ∅ o') /\ forall ws, over_of o' ws = over_of ∅ ws.
Proof.
  apply (operations_are_runs (fun h => Some h) demo_fingerprint demo_nonempty 9); [apply demo_wf|].
  destruct demo_import as [[stored|] d'] eqn:E; [|vm_compute in E; discriminate].
  eapply (op_import _ _ 9 demo_tables _ [7] stored). exact E.
Defined.

End CapacityFacts.
